(* ===== verification/_CoqProject ===== *)
-Q . S2P
Prelude.v
Utf8.v
Cbor.v
Boundary.v
Cose.v
BTree.v
Mdoc.v
Serde.v
Machine.v
TxnLog.v
Payment.v
Qes.v
W2w.v
Sealing.v
Proximity.v
ProximitySession.v
Status.v
Wua.v
HybridPq.v
HybridTbs.v
HybridEnvelope.v
HybridWrapper.v
Jwe.v
DcApiRequests.v
SdJwt.v
SdJwtProcess.v
Oid4vci.v
Dcql.v
Oid4vp.v
Trust.v
Catalogue.v
Presenter.v
X509.v
X509Path.v
X509Search.v
X509Valid.v
X509Profiles.v
PidProfile.v
Holdings.v
CredentialChecks.v
Delegation.v
Agent.v
Delivery.v
DeliveryRun.v
Durable.v
DurableCodec.v
WalletCore.v
Ingestion.v
IngestionSpec.v
Summaries.v
Selection.v
QuerySelection.v
SelectionSpec.v
DurableCore.v
DurableSpec.v
Effects.v
Responses.v
Facade.v
Dispatch.v
Wire.v
Engine.v
Release.v
WireOps.v
WireFlows.v
WireSpec.v
EngineSpec.v
BoundedJson.v
HttpsUrls.v
Metadata.v
ProfileSelection.v
OAuthText.v
Authorization.v
AuthorizationSpec.v
Credential.v
CredentialSpec.v
HybridUseCases.v
HybridExchange.v
ExperimentalPq.v
