(* ===== verification/Prelude.v ===== *)
(** * EUWallet: a verification development

    The repository's core is a set of sans-I/O Rust crates under src/crates/:
    pure codecs and pure state machines
    [step(state, input, env) -> (next_state, outputs)], driven by platform
    shells that perform the I/O.  This development translates the crates that
    carry the wallet's protocol and credential logic and proves what makes
    them correct.

    ** Files and sources

    - [Prelude], [Utf8], [BTree], [Machine]: what Rust gives the crates.
      Bytes and strings, [Result] and its [?] operator ([let?], [let!]),
      integer ranges, UTF-8 validity, [BTreeMap] as the sorted list of its
      entries, and the interface of a sans-I/O machine: its histories (inputs,
      environments and outputs in order) and induction over them.
    - [Boundary]: the crypto-traits crate (crypto-traits/src/lib.rs) and the
      third-party libraries (serde_json, base64ct, miniz_oxide) as classes of
      operations; their documented behaviour, where a theorem relies on it, as
      classes of laws ([Base64Laws], [JsonInj], [JsonTypes], [DigestLaws],
      [InflateLaws]).  [Boundary.Samples] has concrete instances, with which
      every theorem that has hypotheses is evaluated by its witness.
    - [Cbor], [Cose]: cose/src/cbor.rs and cose/src/lib.rs, the strict
      canonical codec and COSE_Sign1 over it.
    - [Mdoc]: mdoc/src/lib.rs, ISO 18013-5 credentials, issuance, verification,
      dates, session transcripts and device responses, on [Cbor] and [Cose].
    - [SdJwt]: sdjwt/src/lib.rs, the combined serialization and its parser.
    - [Status], [Wua]: status/src/lib.rs (token status lists) and
      wua/src/lib.rs (wallet unit attestations), signed JSON tokens.
    - [Dcql], [Oid4vp]: oid4vp/src/dcql.rs and oid4vp/src/lib.rs, the query
      language with its planner and the remote presentation machine, which
      calls [Dcql], [Mdoc] and [Cose].
    - [Oid4vci]: oid4vci/src/lib.rs, the issuance machine, which calls [SdJwt].
    - [Payment], [Qes], [W2w], [Proximity]: payment, qes, w2w and iso18013-5,
      the machines for payment authorisation, qualified signatures, wallet to
      wallet transfer and proximity presentation.
    - [HybridPq], [HybridTbs], [HybridEnvelope], [HybridWrapper]:
      hybrid-pq/src/lib.rs and rollout.rs, tbs.rs, envelope.rs, wrapper.rs, the
      hybrid post-quantum keys, signing input, envelopes and credential wrapper.
    - [HybridUseCases], [HybridExchange], [ExperimentalPq]: hybrid-pq/src/use_cases.rs
      (the hybrid wallet export and its codec, gates, provider policy),
      crypto-backend/src/experimental_pq.rs (the verifier of both components, the
      hybrid key establishment) and the experimental interface of
      wallet-core/src/lib.rs over them: custody, recovery, signed exports.
    - [Serde], [SdJwtProcess]: JSON values as serde_json has them, and the rest
      of sdjwt/src/lib.rs: disclosure processing, issuing and key binding.
    - [TxnLog], [Trust], [Catalogue]: txnlog, trust and catalogue, the
      hash-chained transaction log, signed trust lists with the store that holds
      them, and the register of credential types.
    - [X509], [X509Path], [X509Search], [X509Valid], [X509Profiles]: x509/src/lib.rs,
      certificate parsing, the search for a certification path, what a path has
      to satisfy, and the issuer, relying-party and status-provider profiles.
    - [PidProfile]: oid4vci/src/pid_profile.rs.
    - [Holdings], [CredentialChecks], [WalletCore], [Ingestion], [IngestionSpec]:
      wallet-core/src/lib.rs, what the wallet holds, the checks of a received
      credential, the state [Core] of the facade, authentication, storage and
      re-authentication of credentials, and what these guarantee.
    - [Delegation], [Agent]: wallet-core/src/delegation.rs and agent.rs.
    - [Delivery], [DeliveryRun]: wallet-core/src/delivery.rs, the ledger of
      outgoing deliveries, and its runs.
    - [Durable], [DurableCodec], [DurableCore], [DurableSpec]:
      wallet-core/src/durable.rs, the checkpoint and its canonical encoding,
      and its export from and restoration into [Core].
    - [Presenter], [Summaries]: presenter/src/lib.rs, the screens and their
      consent hash, and the summaries the facade puts on them.
    - [Selection], [QuerySelection], [SelectionSpec]: wallet-core/src/lib.rs, the
      disclosures and elements a requested path needs, the choice of credentials
      for every query of a request, and what a frozen plan guarantees.

    - [Sealing], [Jwe], [ProximitySession], [DcApiRequests]: authenticated
      encryption and key agreement (crypto-traits, crypto-backend), jwe/src/lib.rs,
      and wallet-core/src/proximity_session.rs and dcapi.rs.
    - [Effects], [Responses], [Facade], [Dispatch]: wallet-core/src/lib.rs, events
      and effects with the gates in front of them, the encrypted response, the
      drivers that connect each machine to the state of the facade, and
      [handle_event].
    - [Wire], [Engine]: wallet-core/src/lib.rs, [handle_event_json] with its
      admission of results and its ledger of pending operations, and the engine
      that the shells hold: its phases, loaders and events.
    - [Release], [WireOps], [WireFlows], [WireSpec], [EngineSpec]: theorems on
      these.  [Release]: what holds when something leaves for a verifier.
      [WireOps]: the invariant of pending operations; [WireFlows] and [WireSpec]:
      every driver and every event keeps it; [EngineSpec]: histories of an engine.

    - [BoundedJson], [HttpsUrls], [Metadata], [ProfileSelection]:
      oid4vci/src/bounded_json.rs, the lexical boundary in front of serde_json, and
      foundation.rs: HTTPS identifiers and endpoints with their well-known
      locations, offers, issuer and server metadata, and the plans selected from
      them.
    - [OAuthText], [Authorization], [AuthorizationSpec]:
      oid4vci/src/authorization.rs, the texts of the authorization-code transport
      (forms, percent coding, compact JWTs, headers), the machine that obtains an
      access token, and what holds in every history of it.
    - [Credential], [CredentialSpec]: oid4vci/src/credential.rs, the machine that
      redeems the token for a credential, what holds in every history of it, and
      how the two machines meet.

    A record, enum or function of a crate has its name here (a prefix is added
    where two of them would clash); a [let] of a long function that a theorem
    speaks of is a definition of its own.  The reference model of a crate is
    the module [Model] of its file.

    ** What the theorems show

    - Codecs: decoding inverts encoding and accepts nothing else ([Cbor],
      [HybridEnvelope], [HybridWrapper], [SdJwt]); encodings are injective and
      prefix free.
    - Signing inputs are specific: two equal inputs were made for the same
      data ([Cose], [Payment], [Qes], [W2w], [Proximity], [Oid4vci],
      [HybridTbs]; lemmas in [Oid4vp] and [Mdoc]), so a signature cannot be
      moved to another request.
    - Verification is fail closed: what a successful check has established
      ([Cose], [Status], [Wua], [Mdoc], [HybridWrapper]), and issuing meets
      verifying ([Cose], [Mdoc]).
    - Machines: for every history, what left the wallet was preceded by the
      guards, the user's consent and the device's signatures, in that order,
      and is exactly what was consented to ([Oid4vp], [Oid4vci], [Payment],
      [Qes], [W2w], [Proximity]); each machine refines its crate's reference
      model, the issuance machine with every guard decided by the input and the
      environment.
    - Planning: the DCQL planner returns a least plan exactly when there is one
      ([Dcql]); rollout configurations fetched at run time only restrict
      ([HybridPq]).

    - The log, the delivery ledger, the agent's receipts and the trust store are
      run over arbitrary sequences of operations: their invariants hold
      throughout, nothing is replayed or rolled back, retries end and a ledger
      can always be drained ([TxnLog], [DeliveryRun], [Agent], [Trust]).
    - Disclosures, claims and mandates are those the issuer signed
      ([SdJwtProcess], [Delegation]); a certification path is returned exactly
      when there is one valid path ([X509Valid]), and profiles are accepted
      exactly under the stated conditions ([X509Profiles]).
    - The facade accepts a credential exactly under its listed conditions, what
      it has just stored is current, and a presentation is backed by credentials
      that authenticate at the time of the check ([IngestionSpec]).
    - A checkpoint is decoded exactly when it is the encoding of a checkpoint
      within the budgets ([DurableCodec]); what is restored authenticates now, and
      an exported checkpoint restores the state it was made of as long as every
      credential in it still authenticates to the same ([DurableSpec]).
    - The consent hash fixes the screen ([Presenter]); the plan that is frozen
      before consent answers the request with current credentials and the least
      set of disclosures ([SelectionSpec]).

    - Nothing is posted to a verifier but by the signature that completes a
      presentation, past the gates ([Release]).  Over every history of calls of
      an engine the pending operations are those the machines wait for, an
      approval carries the hash of the screen that describes what will be
      carried out, and a result is used once ([EngineSpec]).
    - What is sealed is opened: a JWE by its recipient, every message of a
      proximity session by the other side, each sealed under the key of its
      direction and the nonce of its number, which do not repeat
      ([Jwe], [ProximitySession]).  A hybrid recovery envelope opens for its
      recipient and a finalised hybrid export for who expects its key; what an
      export opens to was drafted by the holder of that key, even if one of the
      two signature schemes is broken ([ExperimentalPq]).

    - A discovery document is accepted exactly when it is JSON within the limits
      without repeated names ([BoundedJson]); metadata belongs to the issuer that
      was asked ([Metadata], [HttpsUrls]), and a plan exists exactly when offer,
      metadata and the one server they determine meet the profile
      ([ProfileSelection]).
    - A token request follows the whole chain of requests and answers that leads
      to it, each bound to the one before; the values that tie them together do
      not repeat; and a flow ends after at most twelve effects
      ([AuthorizationSpec]).  A credential request and every poll follow nonce,
      attestation, proof of possession and DPoP in the same way, a flow polls at
      most eight times, and the token of the one machine is accepted by the other
      ([CredentialSpec]).

    ** Termination and bounds

    Recursive definitions follow their data, or have fuel that the definition
    itself supplies: a decoding loop has one unit more than the bytes that are
    left, and every element it reads takes a byte ([decode_items_unfold],
    [decode_pairs_unfold], [read_entries_unfold], [read_disclosures_unfold]
    restate the loops without fuel); nesting has [MAX_DEPTH + 1] levels, where
    the source stops as well; [chars] has the length of its input; the search
    for a certification path ([explore_paths]) has one unit more than there are
    supplied certificates, none of which occurs twice on a path; the catalogue's
    schema checks have [SCHEMA_LEVELS] levels, more than a schema may nest; the
    closure of a selection under parents ([add_all_dependencies]) has one round
    more than there are disclosures, and every round but the last adds one.
    Machine integers are [Z] with their width in the definitions: checked, saturating
    and wrapping operations are written out, and the ranges that the Rust types
    guarantee are explicit hypotheses ([is_u64], [is_i64], [rust_string],
    [rust_vec]) that the parsers are shown to establish.

    ** Not modelled

    The cryptographic primitives (crypto-backend) are parameters, assumed to
    have no property but those a theorem names.  Of the wallet-core facade
    the credentials of an experimental provider (a document that ciborium reads),
    the portable export and the listings rendered as text are left out.  Reading an event from JSON and writing an effect is code that
    serde derives: [WireCodec] is a parameter with the laws
    of a tagged enum.  Random draws are arguments.  The shells, bindings,
    demonstrators, benchmarks and the zero-knowledge interface perform I/O or
    have no behaviour of their own. *)

From Stdlib Require Export ZArith Lia String List Bool Sorted Permutation.
From stdpp Require Export base list strings tactics numbers option.
From coqutil Require Export Byte Word.LittleEndianList.

#[export] Set Default Goal Selector "!".

Open Scope Z_scope.

(** ** Rust's data as the development represents it *)

(** [Vec<u8>] and [&[u8]].  A byte is the 256-element type, so no range
    hypothesis is ever needed for one. *)
Abbreviation bytes := (list byte).

(** [String] and [&str] are the UTF-8 bytes, as Rust stores them. *)
Definition as_bytes (s : string) : bytes := list_byte_of_string s.

Definition len {A} (l : list A) : Z := Z.of_nat (length l).

Definition slen (s : string) : Z := len (as_bytes s).

(** Machine-integer ranges. *)
Definition U8_MAX : Z := 255.
Definition U16_MAX : Z := 65535.
Definition U32_MAX : Z := 4294967295.
Definition U64_MAX : Z := 18446744073709551615.
Definition I64_MIN : Z := -9223372036854775808.
Definition I64_MAX : Z := 9223372036854775807.

Definition is_u64 (n : Z) : bool := (0 <=? n) && (n <=? U64_MAX).
Definition is_i64 (n : Z) : bool := (I64_MIN <=? n) && (n <=? I64_MAX).

(** [x as u64] for an [i64] that may be negative, and [i64] saturation. *)
Definition wrap64 (n : Z) : Z := n mod 2 ^ 64.
Definition sat_i64 (n : Z) : Z := Z.max I64_MIN (Z.min I64_MAX n).

Definition checked_i64 (n : Z) : option Z :=
  if is_i64 n then Some n else None.

Definition checked_u64 (n : Z) : option Z :=
  if is_u64 n then Some n else None.

(** [uN::to_be_bytes] and [uN::from_be_bytes] for an N-byte width. *)
Definition to_be_bytes (width : nat) (n : Z) : bytes := rev (le_split width n).
Definition from_be_bytes (bs : bytes) : Z := le_combine (rev bs).

(** [uN::to_le_bytes]; on a negative [i64] the two's complement. *)
Definition to_le_bytes (width : nat) (n : Z) : bytes := le_split width n.

Arguments as_bytes : simpl never.
Arguments len {A} l : simpl never.
Arguments slen : simpl never.
Arguments to_be_bytes : simpl never.
Arguments from_be_bytes : simpl never.
Arguments to_le_bytes : simpl never.

(** ** [Result], its [?] operator, and [Option]'s conversions *)

Inductive result (A E : Type) : Type :=
| Ok (a : A)
| Err (e : E).
Arguments Ok {A E} a.
Arguments Err {A E} e.

Declare Scope rust_scope.
Delimit Scope rust_scope with rust.

Notation "'let?' x ':=' c 'in' k" :=
  (match c with Ok x => k | Err e => Err e end)
  (at level 200, x pattern, c at level 200, k at level 200, right associativity)
  : rust_scope.

(** The same operator where the function's error type is [Option]'s. *)
Notation "'let!' x ':=' c 'in' k" :=
  (match c with Some x => k | None => None end)
  (at level 200, x pattern, c at level 200, k at level 200, right associativity)
  : rust_scope.

Definition ok_or {A E} (o : option A) (e : E) : result A E :=
  match o with Some a => Ok a | None => Err e end.

Definition ok {A E} (r : result A E) : option A :=
  match r with Ok a => Some a | Err _ => None end.

Definition is_ok {A E} (r : result A E) : bool :=
  match r with Ok _ => true | Err _ => false end.

Definition map_err {A E F} (r : result A E) (f : E -> F) : result A F :=
  match r with Ok a => Ok a | Err e => Err (f e) end.

Definition unwrap_or {A} (o : option A) (d : A) : A :=
  match o with Some a => a | None => d end.

Definition is_some {A} (o : option A) : bool :=
  match o with Some _ => true | None => false end.

Definition is_none {A} (o : option A) : bool := negb (is_some o).

Definition is_empty {A} (l : list A) : bool :=
  match l with [] => true | _ :: _ => false end.

Definition sis_empty (s : string) : bool := is_empty (as_bytes s).

(** [slice.get(..n)] together with the rest of the slice. *)
Definition split_at_checked {A} (n : Z) (l : list A) : option (list A * list A) :=
  if n <=? len l then Some (take (Z.to_nat n) l, drop (Z.to_nat n) l) else None.

(** [str::split] on one ASCII character, and [split_once] on a substring. *)
Fixpoint split_byte (c : byte) (bs : bytes) : list bytes :=
  match bs with
  | [] => [[]]
  | b :: r =>
      if Byte.eqb b c then [] :: split_byte c r
      else match split_byte c r with
           | [] => [[b]]
           | p :: ps => (b :: p) :: ps
           end
  end.

Definition str_split (c : byte) (s : string) : list string :=
  map string_of_list_byte (split_byte c (as_bytes s)).

Fixpoint strip_prefix (p bs : bytes) : option bytes :=
  match p, bs with
  | [], _ => Some bs
  | a :: p', b :: bs' => if Byte.eqb a b then strip_prefix p' bs' else None
  | _ :: _, [] => None
  end.

Fixpoint split_once (sep bs : bytes) : option (bytes * bytes) :=
  match strip_prefix sep bs with
  | Some r => Some ([], r)
  | None =>
      match bs with
      | [] => None
      | b :: bs' =>
          match split_once sep bs' with
          | Some (p, r) => Some (b :: p, r)
          | None => None
          end
      end
  end.

(** Bytewise lexicographic [Ord] of [[u8]]. *)
Fixpoint bytes_cmp (a b : bytes) : comparison :=
  match a, b with
  | [], [] => Eq
  | [], _ :: _ => Lt
  | _ :: _, [] => Gt
  | x :: a', y :: b' =>
      match Z.compare (byte.unsigned x) (byte.unsigned y) with
      | Eq => bytes_cmp a' b'
      | c => c
      end
  end.

(** [sort_by] and the like: a stable insertion sort. *)
Fixpoint insert_with {A} (cmp : A -> A -> comparison) (x : A) (l : list A) : list A :=
  match l with
  | [] => [x]
  | y :: l => match cmp x y with Gt => y :: insert_with cmp x l | _ => x :: y :: l end
  end.

Definition sort_with {A} (cmp : A -> A -> comparison) (l : list A) : list A :=
  foldr (insert_with cmp) [] l.

(** [Vec::dedup]. *)
Fixpoint dedup {A} (cmp : A -> A -> comparison) (l : list A) : list A :=
  match l with
  | x :: (y :: _) as l => match cmp x y with Eq => dedup cmp l | _ => x :: dedup cmp l end
  | l => l
  end.

Definition str_cmp (a b : string) : comparison := bytes_cmp (as_bytes a) (as_bytes b).

#[export] Instance byte_eq_decision : EqDecision byte := Byte.byte_eq_dec.

(** ** Tactics *)

(** Case analysis on the scrutinee of a [match] in a hypothesis until the
    hypothesis is an equation between values. *)
Ltac inv_match H :=
  repeat (case_match; simplify_eq/=);
  try discriminate H.

(** Splits every conjunction of booleans and turns the usual tests into
    propositions. *)
Ltac bool_prop :=
  repeat match goal with
  | H : (_ && _) = true |- _ => apply andb_true_iff in H; destruct H
  | H : (_ || _) = false |- _ => apply orb_false_iff in H; destruct H
  | H : negb _ = true |- _ => apply negb_true_iff in H
  | H : negb _ = false |- _ => apply negb_false_iff in H
  | H : (_ <=? _) = true |- _ => apply Z.leb_le in H
  | H : (_ <=? _) = false |- _ => apply Z.leb_gt in H
  | H : (_ <? _) = true |- _ => apply Z.ltb_lt in H
  | H : (_ <? _) = false |- _ => apply Z.ltb_ge in H
  | H : (_ =? _) = true |- _ => apply Z.eqb_eq in H
  | H : (_ =? _) = false |- _ => apply Z.eqb_neq in H
  end.

Ltac width := unfold is_u64, is_i64, U8_MAX, U16_MAX, U32_MAX, U64_MAX, I64_MIN, I64_MAX in *.

(** ** Lemmas on lists and bytes *)

Create HintDb wallet discriminated.

Lemma len_nonneg {A} (l : list A) : 0 <= len l.
Proof. unfold len. lia. Qed.

Lemma len_app {A} (l k : list A) : len (l ++ k) = len l + len k.
Proof. unfold len. rewrite length_app. lia. Qed.

Lemma len_cons {A} (x : A) l : len (x :: l) = 1 + len l.
Proof. unfold len. simpl length. lia. Qed.

Lemma len_nil {A} : len (@nil A) = 0.
Proof. reflexivity. Qed.

Lemma len_map {A B} (f : A -> B) l : len (map f l) = len l.
Proof. unfold len. by rewrite length_map. Qed.

Lemma as_bytes_inj s t : as_bytes s = as_bytes t -> s = t.
Proof.
  unfold as_bytes. intros H.
  rewrite <- (string_of_list_byte_of_string s), <- (string_of_list_byte_of_string t).
  by rewrite H.
Qed.

Lemma as_bytes_of_list bs : as_bytes (string_of_list_byte bs) = bs.
Proof. apply list_byte_of_string_of_list_byte. Qed.

Lemma length_to_be_bytes w n : length (to_be_bytes w n) = w.
Proof. unfold to_be_bytes. by rewrite length_rev, length_le_split. Qed.

Lemma len_to_be_bytes w n : len (to_be_bytes w n) = Z.of_nat w.
Proof. unfold len. by rewrite length_to_be_bytes. Qed.

Lemma from_to_be_bytes w n :
  0 <= n < 2 ^ (Z.of_nat w * 8) -> from_be_bytes (to_be_bytes w n) = n.
Proof.
  intros H. unfold from_be_bytes, to_be_bytes.
  rewrite rev_involutive, le_combine_split. by apply Z.mod_small.
Qed.

Lemma to_from_be_bytes w bs :
  length bs = w -> to_be_bytes w (from_be_bytes bs) = bs.
Proof.
  intros H. unfold from_be_bytes, to_be_bytes.
  rewrite split_le_combine'; [apply rev_involutive | by rewrite length_rev].
Qed.

Lemma len_to_le_bytes w n : len (to_le_bytes w n) = Z.of_nat w.
Proof. unfold to_le_bytes, len. by rewrite length_le_split. Qed.

Lemma to_le_bytes_mod w m n :
  to_le_bytes w m = to_le_bytes w n -> m mod 2 ^ (Z.of_nat w * 8) = n mod 2 ^ (Z.of_nat w * 8).
Proof. unfold to_le_bytes. intros E. by rewrite <- !le_combine_split, E. Qed.

Lemma to_le_bytes_u64 m n :
  is_u64 m = true -> is_u64 n = true -> to_le_bytes 8 m = to_le_bytes 8 n -> m = n.
Proof.
  intros Hm Hn E%to_le_bytes_mod. unfold is_u64, U64_MAX in *. bool_prop.
  change (2 ^ (Z.of_nat 8 * 8)) with 18446744073709551616 in E.
  Z.div_mod_to_equations. lia.
Qed.

Lemma to_le_bytes_i64 m n :
  is_i64 m = true -> is_i64 n = true -> to_le_bytes 8 m = to_le_bytes 8 n -> m = n.
Proof.
  intros Hm Hn E%to_le_bytes_mod. unfold is_i64, I64_MAX, I64_MIN in *. bool_prop.
  change (2 ^ (Z.of_nat 8 * 8)) with 18446744073709551616 in E.
  Z.div_mod_to_equations. lia.
Qed.

Lemma from_be_bytes_range bs : 0 <= from_be_bytes bs < 2 ^ (Z.of_nat (length bs) * 8).
Proof.
  unfold from_be_bytes. pose proof (le_combine_bound (rev bs)) as H.
  rewrite length_rev in H.
  by replace (Z.of_nat (length bs) * 8) with (8 * Z.of_nat (length bs)) by lia.
Qed.

Lemma split_at_checked_app {A} (l r : list A) :
  split_at_checked (len l) (l ++ r) = Some (l, r).
Proof.
  unfold split_at_checked. rewrite len_app.
  replace (len l <=? len l + len r) with true
    by (symmetry; apply Z.leb_le; pose proof (len_nonneg r); lia).
  unfold len. rewrite Nat2Z.id, take_app_length, drop_app_length. done.
Qed.

Lemma split_at_checked_Some {A} n (l p r : list A) :
  split_at_checked n l = Some (p, r) -> 0 <= n -> l = p ++ r /\ len p = n.
Proof.
  unfold split_at_checked. destruct (n <=? len l) eqn:E; [|done].
  intros [= <- <-] Hn. bool_prop. split; [by rewrite take_drop|].
  unfold len in *. rewrite length_take. lia.
Qed.

Lemma app_inv_len {A} (a b c d : list A) :
  a ++ c = b ++ d -> len a = len b -> a = b /\ c = d.
Proof. unfold len. intros H Hl. apply app_inj_1; [lia | done]. Qed.

Lemma to_be_bytes_u64_inj n m :
  is_u64 n = true -> is_u64 m = true -> to_be_bytes 8 n = to_be_bytes 8 m -> n = m.
Proof.
  width. intros Hn Hm E. bool_prop. rewrite <- (from_to_be_bytes 8 n), <- (from_to_be_bytes 8 m) by lia.
  by rewrite E.
Qed.

(** Peeling one field off two encodings that agree. *)
Lemma be_u64_app n m (x y : bytes) :
  is_u64 n = true -> is_u64 m = true ->
  to_be_bytes 8 n ++ x = to_be_bytes 8 m ++ y -> n = m /\ x = y.
Proof.
  intros Hn Hm [E ->]%app_inv_len; [|by rewrite !len_to_be_bytes]. split; [|done].
  by apply to_be_bytes_u64_inj.
Qed.

Lemma lookup_nth_error {A} (l : list A) i : l !! i = nth_error l i.
Proof. revert i. induction l as [|x l IH]; intros [|i]; cbn; auto. Qed.

(** [bytes_cmp] is a total order whose [Eq] is equality. *)
Lemma bytes_cmp_eq a b : bytes_cmp a b = Eq <-> a = b.
Proof.
  revert b. induction a as [|x a IH]; intros [|y b]; simpl; try (split; congruence).
  destruct (Z.compare_spec (byte.unsigned x) (byte.unsigned y)) as [E|E|E].
  - apply byte.unsigned_inj in E as ->. rewrite IH. split; congruence.
  - split; [congruence|]. intros [= -> _]. lia.
  - split; [congruence|]. intros [= -> _]. lia.
Qed.

Lemma bytes_cmp_refl a : bytes_cmp a a = Eq.
Proof. by apply bytes_cmp_eq. Qed.

Lemma bytes_cmp_antisym a b : bytes_cmp a b = CompOpp (bytes_cmp b a).
Proof.
  revert b. induction a as [|x a IH]; intros [|y b]; simpl; try done.
  rewrite (Z.compare_antisym (byte.unsigned y)).
  destruct (Z.compare (byte.unsigned y) (byte.unsigned x)); simpl; auto.
Qed.

Lemma bytes_cmp_trans a b c :
  bytes_cmp a b = Lt -> bytes_cmp b c = Lt -> bytes_cmp a c = Lt.
Proof.
  revert b c. induction a as [|x a IH]; intros [|y b] [|z c]; simpl; try done.
  destruct (Z.compare_spec (byte.unsigned x) (byte.unsigned y));
    destruct (Z.compare_spec (byte.unsigned y) (byte.unsigned z));
    destruct (Z.compare_spec (byte.unsigned x) (byte.unsigned z));
    try done; try lia; eauto.
Qed.

Lemma bytes_cmp_gt_lt a b : bytes_cmp a b = Gt <-> bytes_cmp b a = Lt.
Proof. rewrite (bytes_cmp_antisym a b). destruct (bytes_cmp b a); simpl; split; congruence. Qed.

#[export] Hint Rewrite @len_app @len_cons @len_nil len_to_be_bytes : wallet.
#[export] Hint Resolve len_nonneg : wallet.

Lemma strip_prefix_app p r : strip_prefix p (p ++ r) = Some r.
Proof.
  induction p as [|a p IH]; simpl; [done|].
  replace (Byte.eqb a a) with true; [done|]. symmetry. by apply Byte.byte_dec_lb.
Qed.

Lemma strip_prefix_Some p bs r : strip_prefix p bs = Some r -> bs = p ++ r.
Proof.
  revert bs. induction p as [|a p IH]; intros [|b bs]; simpl; try congruence.
  destruct (Byte.eqb a b) eqn:E; [|done].
  apply Byte.byte_dec_bl in E as ->. intros H. f_equal. auto.
Qed.

Lemma as_bytes_app s t : as_bytes (s ++ t)%string = as_bytes s ++ as_bytes t.
Proof.
  unfold as_bytes, list_byte_of_string.
  induction s as [|c s IH]; [done|]. cbn [String.app list_ascii_of_string map].
  change (list_ascii_of_string (String c s +:+ t)) with (c :: list_ascii_of_string (s +:+ t)).
  cbn [map]. by rewrite IH.
Qed.

(** Splitting on a separator and joining again. *)
Lemma split_byte_join c bs : foldr (fun p r => p ++ c :: r) [] (split_byte c bs) = bs ++ [c].
Proof.
  induction bs as [|b bs IH]; cbn; [done|]. destruct (Byte.eqb b c) eqn:E.
  - apply Byte.byte_dec_bl in E as ->. cbn. by rewrite IH.
  - destruct (split_byte c bs) as [|p ps]; cbn in *; [by destruct bs|]. by rewrite IH.
Qed.

Lemma str_split_three s p0 p1 p2 :
  str_split Byte.x2e s = [p0; p1; p2] -> s = (p0 ++ "." ++ p1 ++ "." ++ p2)%string.
Proof.
  unfold str_split. intros H. pose proof (split_byte_join Byte.x2e (as_bytes s)) as J.
  destruct (split_byte Byte.x2e (as_bytes s)) as [|a [|b [|c [|d l]]]]; simplify_eq/=.
  apply as_bytes_inj. rewrite !as_bytes_app, !as_bytes_of_list.
  change (a ++ [Byte.x2e] ++ b ++ [Byte.x2e] ++ c ++ [Byte.x2e] = as_bytes s ++ [Byte.x2e]) in J.
  rewrite !app_assoc in J. apply app_inj_tail in J as [<- _]. by rewrite <- !app_assoc.
Qed.

(** Joining with a separator, the inverse of splitting on it. *)
Fixpoint join_byte (c : byte) (l : list bytes) : bytes :=
  match l with
  | [] => []
  | [p] => p
  | p :: l => p ++ c :: join_byte c l
  end.

Definition free_of (c : byte) (bs : bytes) : bool := forallb (fun b => negb (Byte.eqb b c)) bs.

Lemma split_byte_cons c bs : exists p ps, split_byte c bs = p :: ps.
Proof.
  induction bs as [|b bs (p & ps & IH)]; cbn; [eauto|].
  destruct (Byte.eqb b c); [eauto|]. rewrite IH. eauto.
Qed.

Lemma join_split c bs : join_byte c (split_byte c bs) = bs.
Proof.
  induction bs as [|b bs IH]; cbn; [done|].
  destruct (split_byte_cons c bs) as (p & ps & E). rewrite E in *.
  destruct (Byte.eqb b c) eqn:Eb.
  - apply Byte.byte_dec_bl in Eb as ->.
    change (c :: join_byte c (p :: ps) = c :: bs). by rewrite IH.
  - destruct ps; cbn [join_byte app] in *; f_equal; exact IH.
Qed.

Lemma split_free c bs : Forall (fun p => free_of c p = true) (split_byte c bs).
Proof.
  induction bs as [|b bs IH]; cbn; [by repeat constructor|].
  destruct (Byte.eqb b c) eqn:Eb; [by constructor|].
  destruct (split_byte c bs) as [|p ps]; inversion IH; subst; repeat constructor; cbn; try by rewrite Eb.
  all: done.
Qed.

Lemma split_byte_app c p bs :
  free_of c p = true -> split_byte c (p ++ c :: bs) = p :: split_byte c bs.
Proof.
  induction p as [|b p IH]; cbn; intros H.
  - replace (Byte.eqb c c) with true; [done|]. symmetry. by apply Byte.byte_dec_lb.
  - apply andb_true_iff in H as [Hb Hp]. apply negb_true_iff in Hb. by rewrite Hb, IH.
Qed.

Lemma split_byte_free c p : free_of c p = true -> split_byte c p = [p].
Proof.
  induction p as [|b p IH]; cbn; intros H; [done|].
  apply andb_true_iff in H as [Hb Hp]. apply negb_true_iff in Hb. by rewrite Hb, IH.
Qed.

Lemma split_join c l :
  l <> [] -> Forall (fun p => free_of c p = true) l -> split_byte c (join_byte c l) = l.
Proof.
  induction l as [|p [|q l] IH]; intros Hl H; [done|inversion H; by apply split_byte_free|].
  inversion H; subst. change (join_byte c (p :: q :: l)) with (p ++ c :: join_byte c (q :: l)).
  rewrite split_byte_app by done. by rewrite IH.
Qed.

(** The number of occurrences of an ASCII character. *)
Definition count_byte (c : byte) (bs : bytes) : Z := len (filter (fun b => Byte.eqb b c) bs).

(** ** Sorting, searching, splitting *)

#[local] Open Scope rust_scope.

Lemma insert_with_perm {A} (cmp : A -> A -> comparison) x l : Permutation (insert_with cmp x l) (x :: l).
Proof.
  induction l as [|y l IH]; [done|]. cbn. destruct (cmp x y); try done.
  apply (perm_trans (perm_skip y IH)), perm_swap.
Qed.

Lemma sort_with_perm {A} (cmp : A -> A -> comparison) l : Permutation (sort_with cmp l) l.
Proof.
  induction l as [|x l IH]; [done|]. apply (perm_trans (insert_with_perm cmp x _)), perm_skip, IH.
Qed.

(** What [sort] and [dedup] need of a comparison, and what they give then. *)
Record comparison_laws {A} (cmp : A -> A -> comparison) : Prop := {
  cmp_equal : forall x y, cmp x y = Eq -> x = y;
  cmp_flip : forall x y, cmp x y = CompOpp (cmp y x);
  cmp_trans : forall x y z, cmp x y = Lt -> cmp y z = Lt -> cmp x z = Lt;
}.

Lemma z_compare_laws : comparison_laws Z.compare.
Proof.
  split; [apply Z.compare_eq|intros x y; apply Z.compare_antisym|intros x y z].
  rewrite !Z.compare_lt_iff. lia.
Qed.

Lemma str_cmp_laws : comparison_laws str_cmp.
Proof.
  unfold str_cmp. split.
  - intros x y ->%bytes_cmp_eq%as_bytes_inj. done.
  - intros x y. apply bytes_cmp_antisym.
  - intros x y z. apply bytes_cmp_trans.
Qed.

Lemma insert_with_not_gt {A} (cmp : A -> A -> comparison) (L : comparison_laws cmp) x l :
  StronglySorted (fun a b => cmp a b <> Gt) l ->
  StronglySorted (fun a b => cmp a b <> Gt) (insert_with cmp x l).
Proof.
  assert (forall a b c, cmp a b <> Gt -> cmp b c <> Gt -> cmp a c <> Gt) as T.
  { intros a b c. destruct (cmp a b) eqn:E1, (cmp b c) eqn:E2; intros; try done;
      try (apply (cmp_equal cmp L) in E1; subst; congruence);
      try (apply (cmp_equal cmp L) in E2; subst; congruence).
    by rewrite (cmp_trans cmp L a b c). }
  induction 1 as [|y l Hs IH Hy]; cbn; [by repeat constructor|].
  destruct (cmp x y) eqn:E.
  1,2: constructor; [by constructor|]; constructor; [by rewrite E|];
    (eapply List.Forall_impl; [|exact Hy]); intros z Hz; apply (T _ y); [by rewrite E|done].
  constructor; [done|]. rewrite insert_with_perm. constructor; [|done].
  rewrite (cmp_flip cmp L), E. done.
Qed.

Lemma sort_with_not_gt {A} (cmp : A -> A -> comparison) (L : comparison_laws cmp) l :
  StronglySorted (fun a b => cmp a b <> Gt) (sort_with cmp l).
Proof. induction l as [|x l IH]; [constructor|]. by apply insert_with_not_gt. Qed.

Lemma dedup_In {A} (cmp : A -> A -> comparison) (L : comparison_laws cmp) l x : In x (dedup cmp l) <-> In x l.
Proof.
  induction l as [|y [|z l] IH]; [done|done|]. change (dedup cmp (y :: z :: l)) with
    (match cmp y z with Eq => dedup cmp (z :: l) | _ => y :: dedup cmp (z :: l) end).
  destruct (cmp y z) eqn:E; cbn [In] in *; rewrite ?IH; [|done|done].
  apply (cmp_equal cmp L) in E. subst. tauto.
Qed.

Lemma dedup_lt {A} (cmp : A -> A -> comparison) (L : comparison_laws cmp) l :
  StronglySorted (fun a b => cmp a b <> Gt) l -> StronglySorted (fun a b => cmp a b = Lt) (dedup cmp l).
Proof.
  induction 1 as [|y l Hs IH Hy]; [constructor|]. destruct l as [|z l]; [by repeat constructor|].
  change (dedup cmp (y :: z :: l)) with
    (match cmp y z with Eq => dedup cmp (z :: l) | _ => y :: dedup cmp (z :: l) end).
  destruct (cmp y z) eqn:E; [done| |by inversion Hy].
  constructor; [done|]. apply List.Forall_forall. intros w Hw.
  rewrite (dedup_In cmp L) in Hw. destruct Hw as [<-|Hw]; [done|]. inversion Hs as [|? ? _ Hz]; subst.
  eapply (proj1 (List.Forall_forall _ _)) in Hz; [|exact Hw].
  destruct (cmp z w) eqn:Ez; [apply (cmp_equal cmp L) in Ez; by subst| |done].
  by apply (cmp_trans cmp L y z w).
Qed.

Lemma dedup_sort_In {A} (cmp : A -> A -> comparison) (L : comparison_laws cmp) l x :
  In x (dedup cmp (sort_with cmp l)) <-> In x l.
Proof.
  rewrite dedup_In by done. split; apply Permutation_in; [|symmetry]; apply sort_with_perm.
Qed.

Lemma dedup_sort_lt {A} (cmp : A -> A -> comparison) (L : comparison_laws cmp) l :
  StronglySorted (fun a b => cmp a b = Lt) (dedup cmp (sort_with cmp l)).
Proof. apply dedup_lt; [done|]. by apply sort_with_not_gt. Qed.

Lemma dedup_len {A} (cmp : A -> A -> comparison) l : len (dedup cmp l) <= len l.
Proof.
  induction l as [|y [|z l] IH]; [done|done|]. change (dedup cmp (y :: z :: l)) with
    (match cmp y z with Eq => dedup cmp (z :: l) | _ => y :: dedup cmp (z :: l) end).
  rewrite (len_cons y). destruct (cmp y z); [lia|rewrite len_cons; lia..].
Qed.

Lemma dedup_sort_len {A} (cmp : A -> A -> comparison) l : len (dedup cmp (sort_with cmp l)) <= len l.
Proof.
  etrans; [apply dedup_len|]. unfold len. by rewrite (sort_with_perm cmp l).
Qed.

Lemma is_empty_len {A} (l : list A) : is_empty l = false <-> 0 < len l.
Proof.
  destruct l as [|x l]; [by split|]. rewrite len_cons. pose proof (len_nonneg l). split; [lia|done].
Qed.

Lemma bind_unit_Ok {E} (a b : result unit E) : (let? _ := a in b) = Ok tt <-> a = Ok tt /\ b = Ok tt.
Proof. destruct a as [[]|]; split; [by intros ->|by intros [_ ->]|done|by intros [? _]]. Qed.

Lemma ok_or_Ok {A E} (o : option A) (e : E) a : ok_or o e = Ok a <-> o = Some a.
Proof. destruct o; cbn; split; congruence. Qed.

Lemma map_err_Ok {A E F} (r : result A E) (f : E -> F) a : map_err r f = Ok a <-> r = Ok a.
Proof. destruct r; cbn; split; congruence. Qed.

(** A sequence of fallible steps that succeeds: every step succeeds. *)
Ltac ok_step H :=
  match type of H with
  | match ?r with Ok _ => _ | Err _ => _ end = Ok _ => destruct r eqn:?; [|discriminate H]
  | (if ?b then Err _ else _) = Ok _ => destruct b eqn:?; [discriminate H|]
  | (if ?b then _ else Err _) = Ok _ => destruct b eqn:?; [|discriminate H]
  end.
Ltac ok_steps H := repeat ok_step H.

Ltac ok_norm :=
  repeat match goal with
  | H : ok_or _ _ = Ok _ |- _ => apply ok_or_Ok in H
  | H : map_err _ _ = Ok _ |- _ => apply map_err_Ok in H
  | H : negb _ = false |- _ => apply negb_false_iff in H
  | H : negb _ = true |- _ => apply negb_true_iff in H
  | H : _ || _ = false |- _ => apply orb_false_iff in H as [? ?]
  | H : bool_decide _ = true |- _ => apply bool_decide_eq_true in H
  | u : unit |- _ => destruct u
  end.

Lemma omap_step {A B} (f : A -> option B) x (l : list A) :
  omap f (x :: l) = match f x with Some y => y :: omap f l | None => omap f l end.
Proof. done. Qed.

Lemma omap_singleton {A B} (f : A -> option B) (l : list A) y :
  NoDup l -> omap f l = [y] <->
  exists x, x ∈ l /\ f x = Some y /\ forall x' y', x' ∈ l -> f x' = Some y' -> x' = x.
Proof.
  intros Hn. assert (Hin : forall (l : list A) z, z ∈ omap f l <-> exists x, x ∈ l /\ f x = Some z).
  { intros k z. apply list_elem_of_omap. }
  induction l as [|a l IH].
  { split; [done|]. intros (x & H & _). by apply elem_of_nil in H. }
  apply list.NoDup_cons in Hn as [Ha Hn]. specialize (IH Hn).
  rewrite omap_step. destruct (f a) as [z|] eqn:E.
  - split.
    + intros [= -> Hnil]. exists a. split; [apply elem_of_cons; by left|]. split; [done|].
      intros x' y' [-> | Hx]%elem_of_cons Hy; [done|]. exfalso.
      assert (y' ∈ omap f l) as H by (apply Hin; eauto). rewrite Hnil in H. by apply elem_of_nil in H.
    + intros (x & Hx & Hf & Hu).
      assert (a = x) as <- by (eapply Hu; [apply elem_of_cons; by left|done]).
      rewrite E in Hf. injection Hf as ->. f_equal.
      destruct (omap f l) as [|w k] eqn:Ew; [done|]. exfalso.
      assert (w ∈ omap f l) as (x & Hxl & Hfx)%Hin by (rewrite Ew; apply elem_of_cons; by left).
      assert (x = a) as -> by (eapply Hu; [apply elem_of_cons; by right|done]). done.
  - rewrite IH. split; intros (x & Hx & Hf & Hu); exists x.
    + split; [apply elem_of_cons; by right|]. split; [done|].
      intros x' y' [-> | H]%elem_of_cons Hy; [congruence|by eapply Hu].
    + apply elem_of_cons in Hx as [-> | Hx]; [congruence|]. split; [done|]. split; [done|].
      intros x' y' H. eapply Hu. apply elem_of_cons. by right.
Qed.

Lemma omap_omap {A B C} (f : A -> option B) (g : B -> option C) (l : list A) :
  omap g (omap f l) = omap (fun x => let! y := f x in g y) l.
Proof.
  induction l as [|x l IH]; [done|]. rewrite !omap_step. destruct (f x) as [y|]; [|done].
  rewrite omap_step. destruct (g y); [f_equal|]; done.
Qed.

Lemma split_sep c p bs : split_byte c (p ++ c :: bs) = split_byte c p ++ split_byte c bs.
Proof.
  induction p as [|b p IH]; cbn.
  - replace (Byte.eqb c c) with true; [done|]. symmetry. by apply Byte.byte_dec_lb.
  - rewrite IH. destruct (Byte.eqb b c); [done|].
    by destruct (split_byte_cons c p) as (q & qs & ->).
Qed.

Lemma len_split c bs : len (split_byte c bs) = 1 + count_byte c bs.
Proof.
  unfold count_byte. induction bs as [|b bs IH]; [done|]. cbn [split_byte].
  rewrite filter_cons. destruct (Byte.eqb b c).
  - rewrite decide_True, !len_cons, IH by done. lia.
  - rewrite decide_False by (intros []). rewrite <- IH.
    by destruct (split_byte_cons c bs) as (p & ps & ->).
Qed.

Lemma free_count c bs : free_of c bs = true <-> count_byte c bs = 0.
Proof.
  unfold count_byte. induction bs as [|b bs IH]; [done|]. cbn [free_of forallb].
  rewrite filter_cons, andb_true_iff. fold (free_of c bs). rewrite IH.
  destruct (Byte.eqb b c); cbn [negb].
  - rewrite decide_True, len_cons by done. pose proof (len_nonneg (filter (fun x => Byte.eqb x c) bs)).
    split; [by intros [? _]|lia].
  - rewrite decide_False by (intros []). tauto.
Qed.

Lemma elem_of_flat_map {A B} (f : A -> list B) l y :
  y ∈ flat_map f l <-> exists x, x ∈ l /\ y ∈ f x.
Proof. setoid_rewrite list_elem_of_In. apply in_flat_map. Qed.

Lemma NoDup_flat_map {A B} (f : A -> list B) l :
  NoDup l -> (forall x, x ∈ l -> NoDup (f x)) ->
  (forall x y z, x ∈ l -> y ∈ l -> z ∈ f x -> z ∈ f y -> x = y) -> NoDup (flat_map f l).
Proof.
  induction l as [|x l IH]; intros Hl Hf Hd; cbn; [constructor|].
  apply list.NoDup_cons in Hl as [Hx Hl]. apply list.NoDup_app. split_and!.
  - apply Hf, elem_of_cons. by left.
  - intros z Hz (y & Hy & Hz')%elem_of_flat_map. apply Hx.
    rewrite (Hd x y z); try done; apply elem_of_cons; auto.
  - apply IH; [done| |]; intros; [apply Hf|eapply Hd]; try apply elem_of_cons; eauto.
Qed.

Lemma last_shift {A} (d x : A) l : List.last (x :: l) d = List.last l x.
Proof.
  revert d x. induction l as [|y l IH]; intros d x; [done|].
  transitivity (List.last (y :: l) d); [done|]. by rewrite !IH.
Qed.

Lemma nodup_snoc {A} (l : list A) x : NoDup l -> x ∉ l -> NoDup (l ++ [x]).
Proof.
  intros Hl Hx. apply list.NoDup_app. split; [done|]. split; [|by apply list.NoDup_singleton].
  intros y Hy ->%list_elem_of_singleton. done.
Qed.
