(* ===== verification/Utf8.v ===== *)
(** * UTF-8 and the string operations of Rust's standard library

    [core::str::from_utf8], [str::trim], the ASCII predicates on bytes and the
    case-insensitive comparison, written out on the UTF-8 bytes that a Rust
    [String] stores.  The components use these definitions wherever the source
    calls the standard library. *)

From S2P Require Import Prelude.

Open Scope Z_scope.

Definition in_range (lo hi b : Z) : bool := (lo <=? b) && (b <=? hi).

Definition is_cont (b : Z) : bool := in_range 128 191 b.

(** One scalar value from the front of a byte string: its code point and the
    rest, [None] when the front is not a well-formed sequence (overlong forms,
    surrogates and values above U+10FFFF included). *)
Definition next_char (bs : bytes) : option (Z * bytes) :=
  match bs with
  | [] => None
  | b0 :: r0 =>
      let x0 := byte.unsigned b0 in
      if x0 <=? 127 then Some (x0, r0)
      else if in_range 194 223 x0 then
        match r0 with
        | b1 :: r1 =>
            let x1 := byte.unsigned b1 in
            if is_cont x1 then Some ((x0 - 192) * 64 + (x1 - 128), r1) else None
        | [] => None
        end
      else if in_range 224 239 x0 then
        match r0 with
        | b1 :: b2 :: r2 =>
            let x1 := byte.unsigned b1 in
            let x2 := byte.unsigned b2 in
            let lo := if x0 =? 224 then 160 else 128 in
            let hi := if x0 =? 237 then 159 else 191 in
            if in_range lo hi x1 && is_cont x2
            then Some ((x0 - 224) * 4096 + (x1 - 128) * 64 + (x2 - 128), r2)
            else None
        | _ => None
        end
      else if in_range 240 244 x0 then
        match r0 with
        | b1 :: b2 :: b3 :: r3 =>
            let x1 := byte.unsigned b1 in
            let x2 := byte.unsigned b2 in
            let x3 := byte.unsigned b3 in
            let lo := if x0 =? 240 then 144 else 128 in
            let hi := if x0 =? 244 then 143 else 191 in
            if in_range lo hi x1 && is_cont x2 && is_cont x3
            then Some ((x0 - 240) * 262144 + (x1 - 128) * 4096
                       + (x2 - 128) * 64 + (x3 - 128), r3)
            else None
        | _ => None
        end
      else None
  end.

(** All scalar values; a step takes at least one byte, so the length of the
    input is enough fuel ([chars_fuel_more]). *)
Fixpoint chars_fuel (fuel : nat) (bs : bytes) : option (list Z) :=
  match bs with
  | [] => Some []
  | _ :: _ =>
      match fuel with
      | O => None
      | S f =>
          match next_char bs with
          | None => None
          | Some (c, r) =>
              match chars_fuel f r with
              | None => None
              | Some cs => Some (c :: cs)
              end
          end
      end
  end.

Definition chars (bs : bytes) : option (list Z) := chars_fuel (length bs) bs.

Definition utf8_valid (bs : bytes) : bool := is_some (chars bs).

(** [core::str::from_utf8] (the error carries nothing the callers keep). *)
Definition from_utf8 (bs : bytes) : option string :=
  if utf8_valid bs then Some (string_of_list_byte bs) else None.

(** A Rust [String] holds well-formed UTF-8. *)
Definition is_str (s : string) : bool := utf8_valid (as_bytes s).

(** A [String], like every allocation, has at most [isize::MAX] bytes; so has
    a [Vec<u8>]. *)
Definition rust_string (s : string) : bool := is_str s && (slen s <=? I64_MAX).
Definition rust_vec (b : bytes) : bool := len b <=? I64_MAX.

(** [char::is_whitespace]: the Unicode [White_Space] property. *)
Definition is_whitespace (c : Z) : bool :=
  in_range 9 13 c || (c =? 32) || (c =? 133) || (c =? 160) || (c =? 5760)
  || in_range 8192 8202 c || (c =? 8232) || (c =? 8233) || (c =? 8239)
  || (c =? 8287) || (c =? 12288).

(** [s.trim().is_empty()]: every character is white space. *)
Definition trim_is_empty (s : string) : bool :=
  match chars (as_bytes s) with
  | Some cs => forallb is_whitespace cs
  | None => false
  end.

(** [char::is_control]: the general category Cc. *)
Definition is_control (c : Z) : bool := in_range 0 31 c || in_range 127 159 c.

(** [s.chars()] of a [String]. *)
Definition str_chars (s : string) : list Z := unwrap_or (chars (as_bytes s)) [].

(** [s.chars().any(char::is_control)]. *)
Definition any_control (s : string) : bool := existsb is_control (str_chars s).

(** ASCII predicates of [u8]. *)
Definition is_ascii_digit (b : byte) : bool := in_range 48 57 (byte.unsigned b).
Definition is_ascii_upper (b : byte) : bool := in_range 65 90 (byte.unsigned b).
Definition is_ascii_lower (b : byte) : bool := in_range 97 122 (byte.unsigned b).
Definition is_ascii_alphanumeric (b : byte) : bool :=
  is_ascii_digit b || is_ascii_upper b || is_ascii_lower b.
Definition is_ascii_control (b : byte) : bool :=
  (byte.unsigned b <=? 31) || (byte.unsigned b =? 127).

(** [u8::is_ascii_whitespace]: space, tab, line feed, form feed, return. *)
Definition is_ascii_whitespace (b : byte) : bool :=
  let x := byte.unsigned b in
  (x =? 32) || (x =? 9) || (x =? 10) || (x =? 12) || (x =? 13).

Definition to_ascii_lowercase (b : byte) : byte :=
  if is_ascii_upper b then byte.of_Z (byte.unsigned b + 32) else b.

Definition eq_ignore_ascii_case (a b : bytes) : bool :=
  bool_decide (map to_ascii_lowercase a = map to_ascii_lowercase b).

(** ** Facts *)

Lemma next_char_shorter bs c r :
  next_char bs = Some (c, r) -> (length r < length bs)%nat.
Proof.
  unfold next_char. intros H.
  repeat (case_match; simplify_eq/=; try lia).
Qed.

(** The fuel of [chars] is never the reason for a rejection. *)
Lemma chars_fuel_more f g bs :
  (length bs <= f)%nat -> (length bs <= g)%nat -> chars_fuel f bs = chars_fuel g bs.
Proof.
  revert g bs. induction f as [|f IH]; intros g [|b bs] Hf Hg; simpl in Hf.
  - by destruct g.
  - lia.
  - by destruct g.
  - destruct g as [|g]; simpl in Hg; [lia|]. cbn [chars_fuel].
    destruct (next_char (b :: bs)) as [[c r]|] eqn:E; [|done].
    apply next_char_shorter in E. simpl in E. by rewrite (IH g) by lia.
Qed.

Lemma chars_step bs :
  chars bs = match bs with
             | [] => Some []
             | _ :: _ => match next_char bs with
                         | None => None
                         | Some (c, r) => option_map (cons c) (chars r)
                         end
             end.
Proof.
  unfold chars at 1. destruct bs as [|b bs]; [done|]. cbn [length chars_fuel].
  destruct (next_char (b :: bs)) as [[c r]|] eqn:E; [|done].
  apply next_char_shorter in E. simpl in E. unfold chars.
  rewrite (chars_fuel_more (length bs) (length r)) by lia. by destruct (chars_fuel _ r).
Qed.

(** A string of ASCII bytes is valid, one character a byte. *)
Lemma chars_ascii bs :
  forallb (fun b => byte.unsigned b <=? 127) bs = true ->
  chars bs = Some (map byte.unsigned bs).
Proof.
  induction bs as [|b bs IH]; [done|]. simpl forallb. intros H. bool_prop.
  rewrite chars_step. unfold next_char.
  replace (byte.unsigned b <=? 127) with true by (symmetry; by apply Z.leb_le).
  by rewrite IH.
Qed.

Lemma from_utf8_Some bs s : from_utf8 bs = Some s -> bs = as_bytes s /\ is_str s = true.
Proof.
  unfold from_utf8, is_str. destruct (utf8_valid bs) eqn:E; [|done].
  intros [= <-]. by rewrite as_bytes_of_list.
Qed.

Lemma from_utf8_as_bytes s : is_str s = true -> from_utf8 (as_bytes s) = Some s.
Proof.
  unfold is_str, from_utf8. intros ->. unfold as_bytes.
  by rewrite string_of_list_byte_of_string.
Qed.
