(* ===== verification/Cbor.v ===== *)
(** * Canonical CBOR (crates/cose/src/cbor.rs)

    The value type, the encoder ([write_head], [encode_into], [to_canonical])
    and the strict decoder ([read_head], [decode_value],
    [from_canonical_slice]).  The theorems: the decoder inverts the encoder on
    every value the decoder can produce, it accepts exactly the encoder's
    image (so an accepted byte string has one reading and a value has one
    accepted byte string), and the encoder is injective, which is what the
    signature bindings of the other components rely on. *)

From S2P Require Import Prelude Utf8.

Open Scope Z_scope.
Open Scope rust_scope.

(** ** Data *)

Inductive Value : Type :=
| Uint (n : Z)
| Nint (n : Z)
| Bytes (b : bytes)
| Text (s : string)
| Array (items : list Value)
| Map (pairs : list (Value * Value))
| Tag (t : Z) (inner : Value)
| Bool (b : bool)
| Null.

Inductive CborError : Type :=
| Truncated
| NotShortestForm
| IndefiniteLength
| Reserved
| InvalidUtf8
| MapKeysNotSorted
| DuplicateMapKey
| TrailingBytes
| UnsupportedSimple
| TooDeep.

Definition MAX_DEPTH : nat := 64.

(** ** Heads *)

(** [out.push(mt | x as u8)] keeps the low eight bits. *)
Definition head_byte (major info : Z) : byte :=
  byte.of_Z (Z.lor (Z.shiftl major 5) info).

Definition write_head (out : bytes) (major arg : Z) : bytes :=
  if arg <=? 23 then out ++ [head_byte major arg]
  else if arg <=? U8_MAX then out ++ [head_byte major 24; byte.of_Z arg]
  else if arg <=? U16_MAX then out ++ head_byte major 25 :: to_be_bytes 2 arg
  else if arg <=? U32_MAX then out ++ head_byte major 26 :: to_be_bytes 4 arg
  else out ++ head_byte major 27 :: to_be_bytes 8 arg.

Definition encode_uint (n : Z) : bytes := write_head [] 0 n.

Definition read_head (bs : bytes) : result (Z * Z * bytes) CborError :=
  match bs with
  | [] => Err Truncated
  | first :: rest =>
      let major := Z.shiftr (byte.unsigned first) 5 in
      let info := Z.land (byte.unsigned first) 31 in
      if info <=? 23 then Ok (major, info, rest)
      else if info =? 24 then
        match rest with
        | [] => Err Truncated
        | b :: rest =>
            if byte.unsigned b <=? 23 then Err NotShortestForm
            else Ok (major, byte.unsigned b, rest)
        end
      else if info =? 25 then
        let? (b, rest) := ok_or (split_at_checked 2 rest) Truncated in
        let v := from_be_bytes b in
        if v <=? U8_MAX then Err NotShortestForm else Ok (major, v, rest)
      else if info =? 26 then
        let? (b, rest) := ok_or (split_at_checked 4 rest) Truncated in
        let v := from_be_bytes b in
        if v <=? U16_MAX then Err NotShortestForm else Ok (major, v, rest)
      else if info =? 27 then
        let? (b, rest) := ok_or (split_at_checked 8 rest) Truncated in
        let v := from_be_bytes b in
        if v <=? U32_MAX then Err NotShortestForm else Ok (major, v, rest)
      else if info =? 31 then Err IndefiniteLength
      else Err Reserved
  end.

Definition decode_uint (bs : bytes) : option (Z * bytes) :=
  match read_head bs with
  | Ok (major, arg, rest) => if major =? 0 then Some (arg, rest) else None
  | Err _ => None
  end.

(** ** Encoder *)

(** [slice::sort_by] on a key is a stable sort: insertion keeps an element
    before the later ones with an equal key. *)
Fixpoint insert_by {A} (key : A -> bytes) (x : A) (l : list A) : list A :=
  match l with
  | [] => [x]
  | y :: l' =>
      match bytes_cmp (key x) (key y) with
      | Gt => y :: insert_by key x l'
      | _ => x :: l
      end
  end.

Definition sort_by {A} (key : A -> bytes) (l : list A) : list A :=
  fold_right (insert_by key) [] l.

(** [Vec::dedup_by] on a key: of consecutive equal keys the first entry
    stays. *)
Fixpoint dedup_by {A} (key : A -> bytes) (l : list A) : list A :=
  match l with
  | [] => []
  | x :: l' =>
      match dedup_by key l' with
      | [] => [x]
      | y :: d => if bool_decide (key x = key y) then x :: d else x :: y :: d
      end
  end.

Fixpoint encode_into (self : Value) (out : bytes) {struct self} : bytes :=
  match self with
  | Uint n => write_head out 0 n
  | Nint n => write_head out 1 n
  | Bytes b => write_head out 2 (len b) ++ b
  | Text s => write_head out 3 (slen s) ++ as_bytes s
  | Array items =>
      fold_left (fun out item => encode_into item out) items
        (write_head out 4 (len items))
  | Map pairs =>
      let encoded :=
        map (fun '(k, v) => (encode_into k [], encode_into v [])) pairs in
      let encoded := sort_by fst encoded in
      let encoded := dedup_by fst encoded in
      fold_left (fun out '(k, v) => (out ++ k) ++ v) encoded
        (write_head out 5 (len encoded))
  | Tag t inner => encode_into inner (write_head out 6 t)
  | Bool false => out ++ [Byte.xf4]
  | Bool true => out ++ [Byte.xf5]
  | Null => out ++ [Byte.xf6]
  end.

Definition to_canonical (self : Value) : bytes := encode_into self [].

(** ** Decoder *)

(** The two counted loops of [decode_value], over the decoder for one item.
    An iteration that succeeds consumes at least one byte, so one more than
    the number of remaining bytes is enough fuel however large the announced
    count is: [decode_items_unfold] and [decode_pairs_unfold] show that the
    loops are the source's [for _ in 0..len]. *)
Section loops.
Context (dec : bytes -> result (Value * bytes) CborError).

Fixpoint decode_items (fuel : nat) (n : Z) (rest : bytes)
  : result (list Value * bytes) CborError :=
  if n =? 0 then Ok ([], rest)
  else match fuel with
       | O => Err Truncated
       | S fuel =>
           let? (item, next) := dec rest in
           let? (items, rest) := decode_items fuel (n - 1) next in
           Ok (item :: items, rest)
       end.

Fixpoint decode_pairs (fuel : nat) (n : Z) (prev_key : option bytes) (rest : bytes)
  : result (list (Value * Value) * bytes) CborError :=
  if n =? 0 then Ok ([], rest)
  else match fuel with
       | O => Err Truncated
       | S fuel =>
           let? (key, next) := dec rest in
           let key_bytes := to_canonical key in
           let? _ :=
             match prev_key with
             | Some prev =>
                 match bytes_cmp key_bytes prev with
                 | Lt => Err MapKeysNotSorted
                 | Eq => Err DuplicateMapKey
                 | Gt => Ok tt
                 end
             | None => Ok tt
             end in
           let? (val, next2) := dec next in
           let? (pairs, rest) := decode_pairs fuel (n - 1) (Some key_bytes) next2 in
           Ok ((key, val) :: pairs, rest)
       end.
End loops.

(** [decode_at d] is [decode_value] at depth [MAX_DEPTH + 1 - d]; the
    recursion is on the depth the source still allows.  The major type is
    three bits ([major_range]), so the arm for 7 is the default and the
    source's [unreachable!] arm is not needed. *)
Fixpoint decode_at (d : nat) (bs : bytes) : result (Value * bytes) CborError :=
  match d with
  | O => Err TooDeep
  | S d =>
      match bs with
      | [] => Err Truncated
      | first :: tail =>
          let major := Z.shiftr (byte.unsigned first) 5 in
          if major =? 0 then
            let? (_, arg, rest) := read_head bs in Ok (Uint arg, rest)
          else if major =? 1 then
            let? (_, arg, rest) := read_head bs in Ok (Nint arg, rest)
          else if major =? 2 then
            let? (_, n, rest) := read_head bs in
            let? (body, rest) := ok_or (split_at_checked n rest) Truncated in
            Ok (Bytes body, rest)
          else if major =? 3 then
            let? (_, n, rest) := read_head bs in
            let? (body, rest) := ok_or (split_at_checked n rest) Truncated in
            let? s := ok_or (from_utf8 body) InvalidUtf8 in
            Ok (Text s, rest)
          else if major =? 4 then
            let? (_, n, rest) := read_head bs in
            let? (items, rest) := decode_items (decode_at d) (S (length rest)) n rest in
            Ok (Array items, rest)
          else if major =? 5 then
            let? (_, n, rest) := read_head bs in
            let? (pairs, rest) := decode_pairs (decode_at d) (S (length rest)) n None rest in
            Ok (Map pairs, rest)
          else if major =? 6 then
            let? (_, tag, rest) := read_head bs in
            let? (inner, rest) := decode_at d rest in
            Ok (Tag tag inner, rest)
          else
            match first with
            | Byte.xf4 => Ok (Bool false, tail)
            | Byte.xf5 => Ok (Bool true, tail)
            | Byte.xf6 => Ok (Null, tail)
            | _ => Err UnsupportedSimple
            end
      end
  end.

Definition decode_value (bs : bytes) (depth : nat) : result (Value * bytes) CborError :=
  decode_at (MAX_DEPTH + 1 - depth) bs.

Definition from_canonical_slice (bs : bytes) : result Value CborError :=
  let? (value, rest) := decode_value bs 0 in
  if is_empty rest then Ok value else Err TrailingBytes.

(** ** Well-formed values *)

(** Strictly ascending byte strings. *)
Fixpoint ascending (l : list bytes) : bool :=
  match l with
  | a :: ((b :: _) as l') =>
      match bytes_cmp a b with Lt => ascending l' | _ => false end
  | _ => true
  end.

Definition pair_key (kv : Value * Value) : bytes := to_canonical (fst kv).

(** What the Rust types say of a value (64-bit integers and lengths, UTF-8
    text), and that maps are in canonical order without duplicates. *)
Fixpoint canonical (v : Value) : bool :=
  match v with
  | Uint n | Nint n => is_u64 n
  | Bytes b => len b <=? U64_MAX
  | Text s => is_str s && (slen s <=? U64_MAX)
  | Array items => (len items <=? U64_MAX) && forallb canonical items
  | Map pairs =>
      (len pairs <=? U64_MAX)
      && forallb (fun '(k, v) => canonical k && canonical v) pairs
      && ascending (map pair_key pairs)
  | Tag t inner => is_u64 t && canonical inner
  | Bool _ | Null => true
  end.

(** How many levels below a value the decoder has to descend. *)
Fixpoint height (v : Value) : nat :=
  match v with
  | Array items => fold_right (fun x n => Nat.max (S (height x)) n) O items
  | Map pairs =>
      fold_right (fun '(k, x) n => Nat.max (S (Nat.max (height k) (height x))) n) O pairs
  | Tag _ inner => S (height inner)
  | _ => O
  end.

(** [derive(PartialEq)]. *)
Fixpoint value_eqb (x y : Value) {struct x} : bool :=
  match x, y with
  | Uint a, Uint b | Nint a, Nint b => a =? b
  | Bytes a, Bytes b => bool_decide (a = b)
  | Text a, Text b => bool_decide (a = b)
  | Array l, Array m =>
      (fix go l m : bool :=
         match l, m with
         | [], [] => true
         | a :: l, b :: m => value_eqb a b && go l m
         | _, _ => false
         end) l m
  | Map l, Map m =>
      (fix go l m : bool :=
         match l, m with
         | [], [] => true
         | (k, a) :: l, (j, b) :: m => value_eqb k j && value_eqb a b && go l m
         | _, _ => false
         end) l m
  | Tag s a, Tag t b => (s =? t) && value_eqb a b
  | Bool a, Bool b => Bool.eqb a b
  | Null, Null => true
  | _, _ => false
  end.

(** Induction over the nested lists. *)
Section Value_induction.
Context (P : Value -> Prop).
Context (HUint : forall n, P (Uint n)) (HNint : forall n, P (Nint n))
  (HBytes : forall b, P (Bytes b)) (HText : forall s, P (Text s))
  (HArray : forall l, Forall P l -> P (Array l))
  (HMap : forall l, Forall (fun kv => P (fst kv) /\ P (snd kv)) l -> P (Map l))
  (HTag : forall t v, P v -> P (Tag t v))
  (HBool : forall b, P (Bool b)) (HNull : P Null).

Fixpoint Value_nested_ind (v : Value) : P v :=
  match v with
  | Uint n => HUint n
  | Nint n => HNint n
  | Bytes b => HBytes b
  | Text s => HText s
  | Array l =>
      HArray l ((fix go l : Forall P l :=
        match l with
        | [] => Forall_nil_2 P
        | x :: l => Forall_cons_2 P x l (Value_nested_ind x) (go l)
        end) l)
  | Map l =>
      HMap l ((fix go l : Forall (fun kv => P (fst kv) /\ P (snd kv)) l :=
        match l with
        | [] => Forall_nil_2 _
        | x :: l =>
            Forall_cons_2 _ x l
              (conj (Value_nested_ind (fst x)) (Value_nested_ind (snd x))) (go l)
        end) l)
  | Tag t v => HTag t v (Value_nested_ind v)
  | Bool b => HBool b
  | Null => HNull
  end.
End Value_induction.

Lemma value_eqb_eq x y : value_eqb x y = true <-> x = y.
Proof.
  revert y. induction x as [n|n|b|s|l IH|l IH|t v IH|b|] using Value_nested_ind;
    intros [m|m|c|u|k|k|r w|c|]; cbn [value_eqb]; try (split; congruence).
  - rewrite Z.eqb_eq. split; congruence.
  - rewrite Z.eqb_eq. split; congruence.
  - rewrite bool_decide_eq_true. split; congruence.
  - rewrite bool_decide_eq_true. split; congruence.
  - revert k. induction IH as [|v l Hv _ IHl]; intros [|w k]; try (split; congruence).
    rewrite andb_true_iff, Hv, IHl. split; [intros [-> [= ->]]|intros [= -> ->]]; done.
  - revert k. induction IH as [|[kx v] l [Hk Hv] _ IHl]; intros [|[kw w] k];
      try (split; congruence).
    rewrite !andb_true_iff, Hk, Hv, IHl. cbn.
    split; [intros [[-> ->] [= ->]]|intros [= -> -> ->]]; done.
  - rewrite andb_true_iff, Z.eqb_eq, IH. split; [intros [-> ->]|intros [= -> ->]]; done.
  - rewrite Bool.eqb_true_iff. split; congruence.
Qed.

#[export] Instance value_eq_decision : EqDecision Value.
Proof.
  intros x y. destruct (value_eqb x y) eqn:E.
  - left. by apply value_eqb_eq.
  - right. intros H. apply value_eqb_eq in H. congruence.
Defined.

(** ** Heads: round trip and canonicity *)

Lemma major_range (b : byte) : 0 <= Z.shiftr (byte.unsigned b) 5 <= 7.
Proof. destruct b; vm_compute; split; discriminate. Qed.

Lemma head_byte_split (b : byte) :
  head_byte (Z.shiftr (byte.unsigned b) 5) (Z.land (byte.unsigned b) 31) = b.
Proof. destruct b; reflexivity. Qed.

(** Every pair of a 3-bit major type and a 5-bit information value, checked by
    evaluation. *)
Definition head_byte_ok (m i : Z) : bool :=
  (Z.shiftr (byte.unsigned (head_byte m i)) 5 =? m)
  && (Z.land (byte.unsigned (head_byte m i)) 31 =? i).

Lemma head_byte_fields m i :
  0 <= m <= 7 -> 0 <= i <= 31 ->
  Z.shiftr (byte.unsigned (head_byte m i)) 5 = m
  /\ Z.land (byte.unsigned (head_byte m i)) 31 = i.
Proof.
  intros Hm Hi.
  assert (forallb (fun m => forallb (fun i => head_byte_ok (Z.of_nat m) (Z.of_nat i))
            (seq 0 32)) (seq 0 8) = true) as H by (vm_compute; reflexivity).
  rewrite forallb_forall in H. specialize (H (Z.to_nat m)).
  rewrite forallb_forall in H.
  assert (head_byte_ok (Z.of_nat (Z.to_nat m)) (Z.of_nat (Z.to_nat i)) = true) as H'.
  { apply H; apply in_seq; lia. }
  rewrite !Z2Nat.id in H' by lia. unfold head_byte_ok in H'. bool_prop. done.
Qed.

Lemma write_head_app out m n : write_head out m n = out ++ write_head [] m n.
Proof. unfold write_head. repeat case_match; by rewrite ?app_nil_l. Qed.

Lemma write_head_cons m n :
  0 <= m <= 7 -> 0 <= n ->
  exists b t, write_head [] m n = b :: t /\ Z.shiftr (byte.unsigned b) 5 = m.
Proof.
  intros Hm Hn. unfold write_head.
  repeat case_match; eexists _, _; (split; [reflexivity|]); bool_prop;
    apply head_byte_fields; lia.
Qed.

Lemma len_write_head m n : 1 <= len (write_head [] m n).
Proof.
  unfold write_head. repeat case_match; rewrite ?app_nil_l, ?len_cons;
    pose proof (len_nonneg (to_be_bytes 2 n)); pose proof (len_nonneg (to_be_bytes 4 n));
    pose proof (len_nonneg (to_be_bytes 8 n)); autorewrite with wallet in *; lia.
Qed.

Lemma unsigned_of_Z_small n : 0 <= n <= 255 -> byte.unsigned (byte.of_Z n) = n.
Proof. intros H. rewrite byte.unsigned_of_Z. apply Z.mod_small. lia. Qed.

(** A multi-byte argument of width [w] after the initial byte. *)
Lemma split_be w n rest :
  split_at_checked (Z.of_nat w) (to_be_bytes w n ++ rest) = Some (to_be_bytes w n, rest).
Proof. rewrite <- (len_to_be_bytes w n). apply split_at_checked_app. Qed.

Ltac head_fields m i :=
  let E1 := fresh in let E2 := fresh in
  destruct (head_byte_fields m i) as [E1 E2]; [lia|lia|]; rewrite E1, E2; clear E1 E2.

Lemma read_write_head m n rest :
  0 <= m <= 7 -> is_u64 n = true ->
  read_head (write_head [] m n ++ rest) = Ok (m, n, rest).
Proof.
  intros Hm Hn. width. bool_prop. unfold write_head, U8_MAX, U16_MAX, U32_MAX.
  repeat case_match; bool_prop; unfold read_head, U8_MAX, U16_MAX, U32_MAX; cbn [app].
  - head_fields m n. by replace (n <=? 23) with true by lia.
  - head_fields m 24. simpl (24 <=? 23). simpl (24 =? 24). cbv iota.
    rewrite unsigned_of_Z_small by lia. by replace (n <=? 23) with false by lia.
  - head_fields m 25. cbn -[split_at_checked to_be_bytes from_be_bytes].
    rewrite (split_be 2). cbn -[to_be_bytes from_be_bytes].
    rewrite from_to_be_bytes by lia.
    by replace (n <=? 255) with false by lia.
  - head_fields m 26. cbn -[split_at_checked to_be_bytes from_be_bytes].
    rewrite (split_be 4). cbn -[to_be_bytes from_be_bytes].
    rewrite from_to_be_bytes by lia.
    by replace (n <=? 65535) with false by lia.
  - head_fields m 27. cbn -[split_at_checked to_be_bytes from_be_bytes].
    rewrite (split_be 8). cbn -[to_be_bytes from_be_bytes].
    rewrite from_to_be_bytes by lia.
    by replace (n <=? 4294967295) with false by lia.
Qed.

(** The wide forms: what [read_head] knows after it took [w] bytes. *)
Lemma wide_arg w rest b r :
  split_at_checked (Z.of_nat w) rest = Some (b, r) ->
  rest = to_be_bytes w (from_be_bytes b) ++ r
  /\ 0 <= from_be_bytes b < 2 ^ (Z.of_nat w * 8).
Proof.
  intros H. apply split_at_checked_Some in H as [-> Hl]; [|lia].
  unfold len in Hl. assert (length b = w) as Hw by lia.
  rewrite to_from_be_bytes by done. pose proof (from_be_bytes_range b) as Hr.
  rewrite Hw in Hr. done.
Qed.

Lemma of_Z_unsigned_byte (b : byte) : byte.of_Z (byte.unsigned b) = b.
Proof. apply byte.of_Z_unsigned. Qed.

(** [write_head] when the argument's width is known. *)
Lemma write_head_tiny m n : n <= 23 -> write_head [] m n = [head_byte m n].
Proof. intros H. unfold write_head. by replace (n <=? 23) with true by lia. Qed.

Lemma write_head_u8 m n :
  23 < n <= U8_MAX -> write_head [] m n = [head_byte m 24; byte.of_Z n].
Proof.
  unfold write_head, U8_MAX. intros H. replace (n <=? 23) with false by lia.
  by replace (n <=? 255) with true by lia.
Qed.

Lemma write_head_wide m n :
  (U8_MAX < n <= U16_MAX -> write_head [] m n = head_byte m 25 :: to_be_bytes 2 n)
  /\ (U16_MAX < n <= U32_MAX -> write_head [] m n = head_byte m 26 :: to_be_bytes 4 n)
  /\ (U32_MAX < n -> write_head [] m n = head_byte m 27 :: to_be_bytes 8 n).
Proof.
  unfold write_head, U8_MAX, U16_MAX, U32_MAX.
  repeat split; intros H; repeat case_match; bool_prop; (lia || reflexivity).
Qed.

(** The shape an accepted head has. *)
Definition head_shape (bs : bytes) (m n : Z) (rest : bytes) : Prop :=
  bs = write_head [] m n ++ rest /\ 0 <= m <= 7 /\ is_u64 n = true
  /\ exists b t, bs = b :: t /\ m = Z.shiftr (byte.unsigned b) 5.

Lemma read_head_inv bs m n rest :
  read_head bs = Ok (m, n, rest) -> head_shape bs m n rest.
Proof.
  unfold read_head. destruct bs as [|b rest0]; [done|].
  pose proof (major_range b) as Hm. pose proof (head_byte_split b) as Hb.
  assert (0 <= Z.land (byte.unsigned b) 31) as Hi by (apply Z.land_nonneg; lia).
  remember (Z.land (byte.unsigned b) 31) as i eqn:Ei.
  intros H. unfold head_shape.
  enough (m = Z.shiftr (byte.unsigned b) 5
          /\ b :: rest0 = write_head [] m n ++ rest /\ is_u64 n = true)
    as (-> & E & Hu) by eauto 8.
  clear Ei. unfold is_u64, U64_MAX.
  destruct (i <=? 23) eqn:E0; bool_prop; simplify_eq/=.
  { rewrite write_head_tiny, Hb by lia. split_and!; [done..|lia]. }
  destruct (i =? 24) eqn:E1; bool_prop.
  { destruct rest0 as [|b1 r]; [done|]. case_match; simplify_eq. bool_prop.
    pose proof (byte.unsigned_range b1).
    rewrite write_head_u8, of_Z_unsigned_byte by (unfold U8_MAX; lia).
    rewrite Hb. split_and!; [done..|lia]. }
  destruct (write_head_wide (Z.shiftr (byte.unsigned b) 5) n) as (W2 & W4 & W8).
  unfold ok_or in H. destruct (i =? 25) eqn:E2; bool_prop.
  { repeat case_match; simplify_eq. bool_prop. select (split_at_checked 2 _ = _) (fun E => apply (wide_arg 2) in E as [-> ?]).
    rewrite W2, Hb by (unfold U8_MAX, U16_MAX in *; lia). split_and!; [done..|lia]. }
  destruct (i =? 26) eqn:E3; bool_prop.
  { repeat case_match; simplify_eq. bool_prop. select (split_at_checked 4 _ = _) (fun E => apply (wide_arg 4) in E as [-> ?]).
    rewrite W4, Hb by (unfold U16_MAX, U32_MAX in *; lia). split_and!; [done..|lia]. }
  destruct (i =? 27) eqn:E4; bool_prop.
  { repeat case_match; simplify_eq. bool_prop. select (split_at_checked 8 _ = _) (fun E => apply (wide_arg 8) in E as [-> ?]).
    rewrite W8, Hb by (unfold U32_MAX in *; lia). split_and!; [done..|lia]. }
  by case_match.
Qed.

(** ** The encoder appends *)

Lemma encode_into_app v out : encode_into v out = out ++ to_canonical v.
Proof.
  unfold to_canonical. revert out.
  induction v as [n|n|b|s|l IH|l IH|t v IH|b|] using Value_nested_ind; intros out; cbn [encode_into].
  - apply write_head_app.
  - apply write_head_app.
  - by rewrite write_head_app, app_assoc.
  - by rewrite write_head_app, app_assoc.
  - rewrite (write_head_app out). generalize (write_head [] 4 (len l)) as acc.
    induction IH as [|v l Hv _ IHl]; intros acc; cbn [fold_left]; [done|].
    rewrite (Hv (out ++ acc)), (Hv acc), <- app_assoc. apply IHl.
  - rewrite (write_head_app out).
    generalize (write_head [] 5 (len (dedup_by fst (sort_by fst
      (map (fun '(k, v) => (encode_into k [], encode_into v [])) l))))) as acc.
    generalize (dedup_by fst (sort_by fst
      (map (fun '(k, v) => (encode_into k [], encode_into v [])) l))) as e.
    intros e. induction e as [|[k v] e IHe]; intros acc; cbn [fold_left]; [done|].
    rewrite <- IHe. by rewrite !app_assoc.
  - by rewrite IH, (IH (write_head [] 6 t)), write_head_app, app_assoc.
  - by destruct b.
  - done.
Qed.

(** The encoder by cases, without the accumulator. *)
Lemma to_canonical_Array l :
  to_canonical (Array l) = write_head [] 4 (len l) ++ concat (map to_canonical l).
Proof.
  unfold to_canonical at 1. cbn [encode_into]. generalize (write_head [] 4 (len l)) as acc.
  induction l as [|v l IH]; intros acc; cbn [fold_left map concat]; [by rewrite app_nil_r|].
  by rewrite IH, encode_into_app, app_assoc.
Qed.

Definition encode_pair (kv : Value * Value) : bytes * bytes :=
  (to_canonical (fst kv), to_canonical (snd kv)).

Definition pair_bytes (e : bytes * bytes) : bytes := fst e ++ snd e.

Lemma to_canonical_Map l :
  let e := dedup_by fst (sort_by fst (map encode_pair l)) in
  to_canonical (Map l) = write_head [] 5 (len e) ++ concat (map pair_bytes e).
Proof.
  cbv zeta. unfold to_canonical at 1. cbn [encode_into].
  replace (map (fun '(k, v) => (encode_into k [], encode_into v [])) l) with (map encode_pair l)
    by (apply map_ext; by intros []).
  generalize (dedup_by fst (sort_by fst (map encode_pair l))) as e. intros e.
  generalize (write_head [] 5 (len e)) as acc.
  induction e as [|[k v] e IH]; intros acc; cbn [fold_left map concat]; [by rewrite app_nil_r|].
  rewrite IH. unfold pair_bytes at 2. cbn. by rewrite <- !app_assoc.
Qed.

Lemma to_canonical_Tag t v : to_canonical (Tag t v) = write_head [] 6 t ++ to_canonical v.
Proof. unfold to_canonical at 1. cbn [encode_into]. apply encode_into_app. Qed.

(** ** Sorting and deduplication leave canonical maps alone *)

Lemma ascending_tail a l : ascending (a :: l) = true -> ascending l = true.
Proof. destruct l as [|b l]; [done|]. cbn. by destruct (bytes_cmp a b). Qed.

Lemma ascending_head a b l : ascending (a :: b :: l) = true -> bytes_cmp a b = Lt.
Proof. cbn. by destruct (bytes_cmp a b). Qed.

Lemma sort_cons {A} (key : A -> bytes) x l :
  sort_by key (x :: l) = insert_by key x (sort_by key l).
Proof. done. Qed.

Lemma sort_ascending {A} (key : A -> bytes) l :
  ascending (map key l) = true -> sort_by key l = l.
Proof.
  induction l as [|x [|y l] IH]; intros H; [done..|].
  rewrite sort_cons, IH by (eapply ascending_tail, H). cbn.
  pose proof (ascending_head _ _ _ H) as E. cbn in E. by rewrite E.
Qed.

Lemma dedup_cons {A} (key : A -> bytes) x l :
  dedup_by key (x :: l) =
  match dedup_by key l with
  | [] => [x]
  | y :: d => if bool_decide (key x = key y) then x :: d else x :: y :: d
  end.
Proof. done. Qed.

Lemma dedup_ascending {A} (key : A -> bytes) l :
  ascending (map key l) = true -> dedup_by key l = l.
Proof.
  induction l as [|x [|y l] IH]; intros H; [done..|].
  rewrite dedup_cons, IH by (eapply ascending_tail, H).
  rewrite bool_decide_eq_false_2; [done|]. intros E.
  pose proof (ascending_head _ _ _ H) as E'. cbn in E'.
  by rewrite E, bytes_cmp_refl in E'.
Qed.

Lemma map_fst_encode_pair l : map fst (map encode_pair l) = map pair_key l.
Proof. rewrite map_map. reflexivity. Qed.

Lemma to_canonical_Map_ascending l :
  ascending (map pair_key l) = true ->
  to_canonical (Map l) = write_head [] 5 (len l) ++ concat (map pair_bytes (map encode_pair l)).
Proof.
  intros H. rewrite to_canonical_Map. cbv zeta. rewrite <- map_fst_encode_pair in H.
  rewrite sort_ascending, dedup_ascending by done.
  unfold len. by rewrite length_map.
Qed.

(** Every encoding has at least one byte, and begins with its major type. *)
Lemma to_canonical_major v :
  canonical v = true ->
  exists b t, to_canonical v = b :: t
  /\ Z.shiftr (byte.unsigned b) 5 =
     match v with
     | Uint _ => 0 | Nint _ => 1 | Bytes _ => 2 | Text _ => 3 | Array _ => 4
     | Map _ => 5 | Tag _ _ => 6 | Bool _ | Null => 7
     end.
Proof.
  assert (forall m n r, 0 <= m <= 7 -> 0 <= n ->
    exists b t, write_head [] m n ++ r = b :: t /\ Z.shiftr (byte.unsigned b) 5 = m) as W.
  { intros m n r Hm Hn. destruct (write_head_cons m n Hm Hn) as (b & t & -> & E).
    eexists b, _. split; [reflexivity|done]. }
  intros Hc. destruct v as [n|n|b|s|l|l|t v|b|].
  - width. cbn in Hc. unfold is_u64, U64_MAX in Hc. bool_prop.
    destruct (W 0 n []) as (b & t & E & E'); [lia..|]. rewrite app_nil_r in E. eauto.
  - cbn in Hc. unfold is_u64, U64_MAX in Hc. bool_prop.
    destruct (W 1 n []) as (b & t & E & E'); [lia..|]. rewrite app_nil_r in E. eauto.
  - apply W; [lia|apply len_nonneg].
  - apply W; [lia|apply len_nonneg].
  - rewrite to_canonical_Array. apply W; [lia|apply len_nonneg].
  - rewrite to_canonical_Map. apply W; [lia|apply len_nonneg].
  - rewrite to_canonical_Tag. cbn in Hc. unfold is_u64, U64_MAX in Hc. bool_prop.
    apply W; lia.
  - destruct b; eexists _, []; split; reflexivity.
  - eexists _, []; split; reflexivity.
Qed.

(** ** The loops on encoded input *)

Lemma decode_items_encode dec l fuel rest :
  Forall (fun v => forall r, dec (to_canonical v ++ r) = Ok (v, r)) l ->
  (length l <= fuel)%nat ->
  decode_items dec fuel (len l) (concat (map to_canonical l) ++ rest) = Ok (l, rest).
Proof.
  intros H. revert fuel. induction H as [|v l Hv _ IH]; intros fuel Hf.
  - by destruct fuel.
  - destruct fuel as [|fuel]; simpl in Hf; [lia|]. cbn [decode_items map concat].
    rewrite len_cons. pose proof (len_nonneg l).
    replace (1 + len l =? 0) with false by lia.
    rewrite <- app_assoc, Hv. cbv iota.
    replace (1 + len l - 1) with (len l) by lia. rewrite IH by lia. done.
Qed.

Definition prev_keys (prev : option bytes) (keys : list bytes) : list bytes :=
  match prev with Some p => p :: keys | None => keys end.

(** The loop's order test is [ascending] of the previous key and the new one. *)
Lemma order_test prev k keys :
  ascending (prev_keys prev (k :: keys)) = true ->
  match prev with
  | Some p => match bytes_cmp k p with
              | Lt => Err MapKeysNotSorted
              | Eq => Err DuplicateMapKey
              | Gt => Ok tt
              end
  | None => Ok tt
  end = Ok tt :> result unit CborError.
Proof.
  destruct prev as [p|]; [|done]. cbn [prev_keys]. intros H.
  pose proof (ascending_head _ _ _ H) as E. apply bytes_cmp_gt_lt in E. by rewrite E.
Qed.

Lemma ascending_next prev k keys :
  ascending (prev_keys prev (k :: keys)) = true -> ascending (prev_keys (Some k) keys) = true.
Proof. destruct prev as [p|]; [|done]. apply ascending_tail. Qed.

Lemma decode_pairs_encode dec l fuel prev rest :
  Forall (fun kv => (forall r, dec (to_canonical (fst kv) ++ r) = Ok (fst kv, r))
                    /\ (forall r, dec (to_canonical (snd kv) ++ r) = Ok (snd kv, r))) l ->
  ascending (prev_keys prev (map pair_key l)) = true ->
  (length l <= fuel)%nat ->
  decode_pairs dec fuel (len l) prev
    (concat (map pair_bytes (map encode_pair l)) ++ rest) = Ok (l, rest).
Proof.
  intros H. revert fuel prev. induction H as [|[k v] l [Hk Hv] _ IH]; intros fuel prev Ha Hf.
  - by destruct fuel.
  - destruct fuel as [|fuel]; simpl in Hf; [lia|]. cbn [decode_pairs map concat] in *.
    rewrite len_cons. pose proof (len_nonneg l).
    replace (1 + len l =? 0) with false by lia.
    unfold pair_bytes at 1. cbn [encode_pair fst snd] in *.
    rewrite <- !app_assoc, Hk. cbv iota. cbn zeta.
    change (pair_key (k, v)) with (to_canonical k) in Ha.
    rewrite (order_test _ _ _ Ha), Hv. cbv iota.
    replace (1 + len l - 1) with (len l) by lia.
    rewrite IH; [done| |lia]. eapply ascending_next, Ha.
Qed.

Lemma length_concat_ge {A} (l : list (list A)) :
  Forall (fun x => x <> []) l -> (length l <= length (concat l))%nat.
Proof.
  induction 1 as [|x l Hx _ IH]; simpl; [lia|]. rewrite length_app.
  destruct x; [done|]. simpl. lia.
Qed.

Lemma to_canonical_nonempty v : canonical v = true -> to_canonical v <> [].
Proof. intros H. destruct (to_canonical_major v H) as (b & t & -> & _). done. Qed.

Lemma fuel_items l rest :
  forallb canonical l = true ->
  (length l <= S (length (concat (map to_canonical l) ++ rest)))%nat.
Proof.
  intros H. rewrite length_app.
  enough (length l <= length (concat (map to_canonical l)))%nat by lia.
  rewrite <- (length_map to_canonical l) at 1. apply length_concat_ge.
  apply List.Forall_map, List.Forall_forall. rewrite forallb_forall in H.
  intros v Hv. by apply to_canonical_nonempty, H.
Qed.

Lemma fuel_pairs l rest :
  forallb (fun '(k, v) => canonical k && canonical v) l = true ->
  (length l <= S (length (concat (map pair_bytes (map encode_pair l)) ++ rest)))%nat.
Proof.
  intros H. rewrite length_app.
  enough (length l <= length (concat (map pair_bytes (map encode_pair l))))%nat by lia.
  rewrite map_map. rewrite <- (length_map (fun x => pair_bytes (encode_pair x)) l) at 1.
  apply length_concat_ge, List.Forall_map, List.Forall_forall.
  rewrite forallb_forall in H. intros [k v] Hv. specialize (H _ Hv). cbn in H. bool_prop.
  unfold pair_bytes. cbn. intros E. apply app_eq_nil in E as [E _].
  by apply (to_canonical_nonempty k).
Qed.

(** ** Decoding an encoding *)

Lemma height_items d l :
  (height (Array l) < S d)%nat -> Forall (fun v => (height v < d)%nat) l.
Proof.
  cbn [height]. induction l as [|v l IH]; cbn [fold_right]; intros H; constructor; [lia|].
  apply IH. lia.
Qed.

Lemma height_pairs d l :
  (height (Map l) < S d)%nat ->
  Forall (fun kv => (height (fst kv) < d)%nat /\ (height (snd kv) < d)%nat) l.
Proof.
  cbn [height]. induction l as [|[k v] l IH]; cbn [fold_right]; intros H; constructor.
  - cbn. lia.
  - apply IH. lia.
Qed.

(** Reading the first byte of an encoding, then its head. *)
Lemma decode_at_head d m n r :
  0 <= m <= 7 -> is_u64 n = true ->
  exists b t, write_head [] m n ++ r = b :: t
  /\ Z.shiftr (byte.unsigned b) 5 = m
  /\ read_head (b :: t) = Ok (m, n, r)
  /\ decode_at (S d) (b :: t) = decode_at (S d) (write_head [] m n ++ r).
Proof.
  intros Hm Hn. assert (0 <= n) by (unfold is_u64 in Hn; bool_prop; lia).
  destruct (write_head_cons m n) as (b & t & E & E'); [done..|].
  exists b, (t ++ r). rewrite <- (read_write_head m n r Hm Hn), E. done.
Qed.

Ltac decode_head d m n r :=
  let b := fresh "b" in let t := fresh "t" in
  let E := fresh "E" in let Em := fresh "Em" in let Er := fresh "Er" in
  destruct (decode_at_head d m n r) as (b & t & E & Em & Er & _);
  [lia | try done | rewrite E; cbn [decode_at]; rewrite Em, Er; cbn -[decode_at decode_items decode_pairs] ].

Lemma len_is_u64 {A} (l : list A) : len l <=? U64_MAX = true -> is_u64 (len l) = true.
Proof. intros H. unfold is_u64. rewrite H. pose proof (len_nonneg l). lia. Qed.

Lemma decode_at_to_canonical v d rest :
  canonical v = true -> (height v < d)%nat ->
  decode_at d (to_canonical v ++ rest) = Ok (v, rest).
Proof.
  revert d rest. induction v as [n|n|b|s|l IH|l IH|t v IH|b|] using Value_nested_ind;
    intros [|d] rest Hc Hh; try (exfalso; lia); cbn [canonical] in Hc; bool_prop.
  - unfold to_canonical. cbn [encode_into]. by decode_head d 0 n rest.
  - unfold to_canonical. cbn [encode_into]. by decode_head d 1 n rest.
  - unfold to_canonical. cbn [encode_into]. rewrite <- app_assoc.
    decode_head d 2 (len b) (b ++ rest); [apply len_is_u64; lia|].
    by rewrite split_at_checked_app.
  - unfold to_canonical. cbn [encode_into]. rewrite <- app_assoc.
    decode_head d 3 (slen s) (as_bytes s ++ rest); [apply len_is_u64; unfold slen in *; lia|].
    unfold slen. rewrite split_at_checked_app. cbn. by rewrite from_utf8_as_bytes.
  - rewrite to_canonical_Array, <- app_assoc.
    decode_head d 4 (len l) (concat (map to_canonical l) ++ rest); [apply len_is_u64; lia|].
    rewrite decode_items_encode; [done| |by apply fuel_items].
    apply height_items in Hh. rewrite List.Forall_forall in *.
    match goal with H : forallb _ _ = true |- _ => rewrite forallb_forall in H end.
    intros v Hv r. apply IH; auto.
  - rewrite to_canonical_Map_ascending, <- app_assoc by done.
    decode_head d 5 (len l) (concat (map pair_bytes (map encode_pair l)) ++ rest);
      [apply len_is_u64; lia|].
    rewrite decode_pairs_encode; [done| |done|by apply fuel_pairs].
    apply height_pairs in Hh. rewrite List.Forall_forall in *.
    match goal with H : forallb _ _ = true |- _ => rewrite forallb_forall in H end.
    intros [k v] Hv. specialize (IH _ Hv). specialize (Hh _ Hv).
    match goal with H : forall x, In x l -> _ = true |- _ => specialize (H _ Hv) end.
    cbn in *. bool_prop. split; intros r; apply IH; done || lia.
  - rewrite to_canonical_Tag, <- app_assoc. decode_head d 6 t (to_canonical v ++ rest).
    cbn [height] in Hh. rewrite IH; [done|done|lia].
  - by destruct b.
  - done.
Qed.

(** ** What the decoder accepts *)

(** [v] was read from the front of [bs], below depth budget [d]. *)
Definition decoded (d : nat) (bs : bytes) (v : Value) (rest : bytes) : Prop :=
  bs = to_canonical v ++ rest /\ canonical v = true /\ (height v < d)%nat.

Lemma decode_items_inv dec d fuel n rest items r :
  (forall bs v r, dec bs = Ok (v, r) -> decoded d bs v r) ->
  0 <= n -> decode_items dec fuel n rest = Ok (items, r) ->
  rest = concat (map to_canonical items) ++ r /\ len items = n
  /\ forallb canonical items = true /\ (height (Array items) < S d)%nat.
Proof.
  intros Hdec. revert n rest items. induction fuel as [|fuel IH]; intros n rest items Hn;
    cbn [decode_items]; destruct (n =? 0) eqn:E; bool_prop.
  - intros [= <- <-]. cbn. split_and!; [done|by subst|done|lia].
  - done.
  - intros [= <- <-]. cbn. split_and!; [done|by subst|done|lia].
  - intros H. repeat case_match; simplify_eq.
    select (dec _ = _) (fun E => apply Hdec in E as (-> & Hc & Hh)).
    select (decode_items _ _ _ _ = _) (fun E => apply IH in E as (-> & Hl & Hcs & Hhs); [|lia]).
    cbn [map concat forallb height fold_right] in *. rewrite len_cons.
    split_and!; [by rewrite app_assoc|lia|by rewrite Hc|lia].
Qed.

Lemma order_test_inv prev k :
  match prev with
  | Some p => match bytes_cmp k p with
              | Lt => Err MapKeysNotSorted
              | Eq => Err DuplicateMapKey
              | Gt => Ok tt
              end
  | None => Ok tt
  end = Ok tt :> result unit CborError ->
  match prev with Some p => bytes_cmp p k = Lt | None => True end.
Proof. destruct prev as [p|]; [|done]. rewrite (bytes_cmp_antisym p). by destruct (bytes_cmp k p). Qed.

Lemma decode_pairs_inv dec d fuel n prev rest pairs r :
  (forall bs v r, dec bs = Ok (v, r) -> decoded d bs v r) ->
  0 <= n -> decode_pairs dec fuel n prev rest = Ok (pairs, r) ->
  rest = concat (map pair_bytes (map encode_pair pairs)) ++ r /\ len pairs = n
  /\ forallb (fun '(k, v) => canonical k && canonical v) pairs = true
  /\ (height (Map pairs) < S d)%nat
  /\ ascending (prev_keys prev (map pair_key pairs)) = true.
Proof.
  intros Hdec. revert n prev rest pairs. induction fuel as [|fuel IH];
    intros n prev rest pairs Hn; cbn [decode_pairs]; destruct (n =? 0) eqn:E; bool_prop.
  - intros [= <- <-]. cbn. split_and!; [done|by subst|done|lia|by destruct prev].
  - done.
  - intros [= <- <-]. cbn. split_and!; [done|by subst|done|lia|by destruct prev].
  - intros H. destruct (dec rest) as [[k next]|] eqn:Ek; [|done].
    destruct (match prev with Some _ => _ | None => _ end) as [[]|] eqn:Eo; [|done].
    apply order_test_inv in Eo. destruct (dec next) as [[v next2]|] eqn:Ev; [|done].
    destruct (decode_pairs _ _ _ _ _) as [[ps r']|] eqn:Er; simplify_eq.
    apply Hdec in Ek as (-> & Hk & Hhk). apply Hdec in Ev as (-> & Hv & Hhv).
    apply IH in Er as (-> & Hl & Hcs & Hhs & Ha); [|lia].
    cbn [map concat forallb height fold_right] in *. rewrite len_cons.
    split_and!; [|lia|by rewrite Hk, Hv|lia|].
    + unfold pair_bytes at 2. cbn. by rewrite <- !app_assoc.
    + destruct prev as [p|]; [|done]. cbn -[bytes_cmp ascending] in *.
      change (match bytes_cmp p (to_canonical k) with
              | Lt => ascending (to_canonical k :: map pair_key ps) | _ => false end = true).
      by rewrite Eo.
Qed.

Lemma read_head_first b t m n r :
  read_head (b :: t) = Ok (m, n, r) ->
  b :: t = write_head [] m n ++ r /\ Z.shiftr (byte.unsigned b) 5 = m
  /\ is_u64 n = true /\ 0 <= n <= U64_MAX.
Proof.
  intros H. apply read_head_inv in H as (E & _ & Hu & b' & t' & [= <- <-] & ->).
  unfold is_u64 in *. bool_prop. split_and!; done || lia.
Qed.

Lemma decode_at_inv d bs v rest : decode_at d bs = Ok (v, rest) -> decoded d bs v rest.
Proof.
  revert bs v rest. induction d as [|d IH]; intros bs v rest; [done|]. cbn [decode_at].
  destruct bs as [|b t]; [done|].
  unfold decoded, ok_or. intros H. repeat case_match; simplify_eq; bool_prop;
    try match goal with E : read_head _ = _ |- _ =>
      apply read_head_first in E as (-> & Em & Hu & Hr); rewrite Em in *; subst end;
    try match goal with E : split_at_checked _ _ = _ |- _ =>
      apply split_at_checked_Some in E as [-> El]; [|lia] end.
  - split_and!; [done|done|cbn; lia].
  - split_and!; [done|done|cbn; lia].
  - cbn. rewrite El. split_and!; [by rewrite <- app_assoc|lia|lia].
  - select (from_utf8 _ = _) (fun E => apply from_utf8_Some in E as [-> Hs]).
    unfold to_canonical. cbn. unfold slen. rewrite El, Hs.
    split_and!; [by rewrite <- app_assoc|lia|lia].
  - select (decode_items _ _ _ _ = _)
      (fun E => eapply decode_items_inv in E as (-> & <- & Hcs & Hh); [|done|lia]).
    rewrite to_canonical_Array, <- app_assoc. cbn [canonical]. rewrite Hcs.
    split_and!; [done|lia|done].
  - select (decode_pairs _ _ _ _ _ = _)
      (fun E => eapply decode_pairs_inv in E as (-> & <- & Hcs & Hh & Ha); [|done|lia]).
    cbn [prev_keys] in Ha.
    rewrite to_canonical_Map_ascending, <- app_assoc by done. cbn [canonical].
    rewrite Hcs, Ha. split_and!; [done|lia|done].
  - select (decode_at _ _ = _) (fun E => apply IH in E as (-> & Hc & Hh)).
    rewrite to_canonical_Tag, <- app_assoc. cbn [canonical height]. rewrite Hu, Hc.
    split_and!; [done|done|lia].
  - split_and!; [done|done|cbn; lia].
  - split_and!; [done|done|cbn; lia].
  - split_and!; [done|done|cbn; lia].
Qed.

Lemma decode_at_shorter d bs v rest :
  decode_at d bs = Ok (v, rest) -> (length rest < length bs)%nat.
Proof.
  intros H. apply decode_at_inv in H as (-> & Hc & _). rewrite length_app.
  pose proof (to_canonical_nonempty v Hc). destruct (to_canonical v); [done|]. simpl. lia.
Qed.

(** ** The loops are the source's loops *)

Section fuel.
Context (dec : bytes -> result (Value * bytes) CborError).
Context (dec_shorter : forall bs v r, dec bs = Ok (v, r) -> (length r < length bs)%nat).

Lemma decode_items_fuel f g n rest :
  (length rest < f)%nat -> (length rest < g)%nat ->
  decode_items dec f n rest = decode_items dec g n rest.
Proof using dec_shorter.
  revert g n rest. induction f as [|f IH]; intros g n rest Hf Hg; [lia|].
  destruct g as [|g]; [lia|]. cbn [decode_items]. case_match; [done|].
  destruct (dec rest) as [[v next]|] eqn:E; [|done]. apply dec_shorter in E.
  by rewrite (IH g) by lia.
Qed.

Lemma decode_pairs_fuel f g n prev rest :
  (length rest < f)%nat -> (length rest < g)%nat ->
  decode_pairs dec f n prev rest = decode_pairs dec g n prev rest.
Proof using dec_shorter.
  revert g n prev rest. induction f as [|f IH]; intros g n prev rest Hf Hg; [lia|].
  destruct g as [|g]; [lia|]. cbn [decode_pairs]. case_match; [done|].
  destruct (dec rest) as [[k next]|] eqn:E; [|done]. apply dec_shorter in E.
  destruct (match prev with Some _ => _ | None => _ end); [|done].
  destruct (dec next) as [[v next2]|] eqn:E2; [|done]. apply dec_shorter in E2.
  by rewrite (IH g) by lia.
Qed.
End fuel.

(** Array items: no announced count, however large, exhausts the fuel. *)
Lemma decode_items_unfold d n rest :
  decode_items (decode_at d) (S (length rest)) n rest =
  if n =? 0 then Ok ([], rest)
  else let? (item, next) := decode_at d rest in
       let? (items, rest) := decode_items (decode_at d) (S (length next)) (n - 1) next in
       Ok (item :: items, rest).
Proof.
  cbn [decode_items]. case_match; [done|].
  destruct (decode_at d rest) as [[v next]|] eqn:E; [|done].
  apply decode_at_shorter in E.
  rewrite (decode_items_fuel _ (decode_at_shorter d) (length rest) (S (length next))) by lia.
  done.
Qed.

Lemma decode_pairs_unfold d n prev rest :
  decode_pairs (decode_at d) (S (length rest)) n prev rest =
  if n =? 0 then Ok ([], rest)
  else let? (key, next) := decode_at d rest in
       let? _ := match prev with
                 | Some p => match bytes_cmp (to_canonical key) p with
                             | Lt => Err MapKeysNotSorted
                             | Eq => Err DuplicateMapKey
                             | Gt => Ok tt
                             end
                 | None => Ok tt
                 end in
       let? (val, next2) := decode_at d next in
       let? (pairs, rest) :=
         decode_pairs (decode_at d) (S (length next2)) (n - 1) (Some (to_canonical key)) next2 in
       Ok ((key, val) :: pairs, rest).
Proof.
  cbn [decode_pairs]. case_match; [done|].
  destruct (decode_at d rest) as [[k next]|] eqn:E; [|done]. apply decode_at_shorter in E.
  destruct (match prev with Some _ => _ | None => _ end); [|done].
  destruct (decode_at d next) as [[v next2]|] eqn:E2; [|done]. apply decode_at_shorter in E2.
  rewrite (decode_pairs_fuel _ (decode_at_shorter d) (length rest) (S (length next2))) by lia.
  done.
Qed.

(** ** The codec's contract *)

Lemma from_to_canonical v :
  canonical v = true -> (height v <= MAX_DEPTH)%nat ->
  from_canonical_slice (to_canonical v) = Ok v.
Proof.
  intros Hc Hh. unfold from_canonical_slice, decode_value.
  rewrite <- (app_nil_r (to_canonical v)), decode_at_to_canonical; [done|done|].
  unfold MAX_DEPTH in *. lia.
Qed.

Lemma from_canonical_slice_inv bs v :
  from_canonical_slice bs = Ok v ->
  bs = to_canonical v /\ canonical v = true /\ (height v <= MAX_DEPTH)%nat.
Proof.
  unfold from_canonical_slice, decode_value.
  assert (MAX_DEPTH + 1 - 0 = S MAX_DEPTH)%nat as -> by (unfold MAX_DEPTH; lia).
  generalize MAX_DEPTH as d. intros d H.
  destruct (decode_at _ bs) as [[w rest]|] eqn:E; [|done].
  destruct rest; cbv [is_empty] in H; simplify_eq. apply decode_at_inv in E as (-> & Hc & Hh).
  rewrite app_nil_r. split_and!; [done..|]. lia.
Qed.

Lemma to_canonical_inj v w :
  canonical v = true -> canonical w = true -> to_canonical v = to_canonical w -> v = w.
Proof.
  intros Hv Hw E. set (d := S (Nat.max (height v) (height w))).
  pose proof (decode_at_to_canonical v d [] Hv ltac:(lia)) as Dv.
  pose proof (decode_at_to_canonical w d [] Hw ltac:(lia)) as Dw.
  rewrite E, Dw in Dv. by injection Dv.
Qed.

(** Encodings are prefix free: no canonical encoding is a proper prefix of
    another. *)
Lemma to_canonical_prefix_free v w r s :
  canonical v = true -> canonical w = true ->
  to_canonical v ++ r = to_canonical w ++ s -> v = w /\ r = s.
Proof.
  intros Hv Hw E. set (d := S (Nat.max (height v) (height w))).
  pose proof (decode_at_to_canonical v d r Hv ltac:(lia)) as Dv.
  pose proof (decode_at_to_canonical w d s Hw ltac:(lia)) as Dw.
  rewrite E, Dw in Dv. by injection Dv.
Qed.

(** ** Values whose maps are in any order *)

(** What the Rust types say of a value, and nothing more. *)
Fixpoint typed (v : Value) : bool :=
  match v with
  | Uint n | Nint n => is_u64 n
  | Bytes b => len b <=? U64_MAX
  | Text s => is_str s && (slen s <=? U64_MAX)
  | Array items => (len items <=? U64_MAX) && forallb typed items
  | Map pairs =>
      (len pairs <=? U64_MAX) && forallb (fun '(k, v) => typed k && typed v) pairs
  | Tag t inner => is_u64 t && typed inner
  | Bool _ | Null => true
  end.

(** The value the encoder's output denotes: maps sorted by encoded key, the
    first of several entries with one key kept. *)
Fixpoint normalize (v : Value) : Value :=
  match v with
  | Array items => Array (map normalize items)
  | Map pairs =>
      Map (dedup_by pair_key (sort_by pair_key
             (map (fun '(k, v) => (normalize k, normalize v)) pairs)))
  | Tag t inner => Tag t (normalize inner)
  | _ => v
  end.

Lemma map_insert_by {A B} (f : A -> B) (key : B -> bytes) x l :
  map f (insert_by (fun a => key (f a)) x l) = insert_by key (f x) (map f l).
Proof. induction l as [|y l IH]; [done|]. cbn. case_match; cbn; by rewrite ?IH. Qed.

Lemma map_sort_by {A B} (f : A -> B) (key : B -> bytes) l :
  map f (sort_by (fun a => key (f a)) l) = sort_by key (map f l).
Proof. induction l as [|x l IH]; [done|]. cbn [map]. by rewrite !sort_cons, map_insert_by, IH. Qed.

Lemma map_dedup_by {A B} (f : A -> B) (key : B -> bytes) l :
  map f (dedup_by (fun a => key (f a)) l) = dedup_by key (map f l).
Proof.
  induction l as [|x l IH]; [done|]. cbn [map]. rewrite !dedup_cons, <- IH.
  destruct (dedup_by _ l) as [|y d]; [done|]. cbn. by case_bool_decide.
Qed.

(** Not descending. *)
Fixpoint sorted_keys (l : list bytes) : bool :=
  match l with
  | a :: ((b :: _) as l') =>
      match bytes_cmp a b with Gt => false | _ => sorted_keys l' end
  | _ => true
  end.

Lemma sorted_insert {A} (key : A -> bytes) x l :
  sorted_keys (map key l) = true -> sorted_keys (map key (insert_by key x l)) = true.
Proof.
  induction l as [|y l IH]; [done|]. cbn [insert_by]. intros H.
  destruct (bytes_cmp (key x) (key y)) eqn:E.
  - cbn. by rewrite E.
  - cbn. by rewrite E.
  - destruct l as [|z l]; cbn in *.
    + apply bytes_cmp_gt_lt in E. by rewrite E.
    + destruct (bytes_cmp (key x) (key z)) eqn:E'; cbn in *;
        apply bytes_cmp_gt_lt in E; rewrite ?E, ?E'; cbn in *;
        destruct (bytes_cmp (key y) (key z)); try done; by apply IH.
Qed.

Lemma sorted_sort {A} (key : A -> bytes) l : sorted_keys (map key (sort_by key l)) = true.
Proof. induction l as [|x l IH]; [done|]. by apply sorted_insert. Qed.

Lemma dedup_head {A} (key : A -> bytes) x l :
  exists d, dedup_by key (x :: l) = x :: d.
Proof. rewrite dedup_cons. repeat case_match; eauto. Qed.

Lemma ascending_dedup {A} (key : A -> bytes) l :
  sorted_keys (map key l) = true -> ascending (map key (dedup_by key l)) = true.
Proof.
  induction l as [|x [|y l] IH]; [done..|]. intros H. rewrite dedup_cons.
  destruct (dedup_head key y l) as [d Ed]. rewrite Ed in *.
  cbn [map sorted_keys] in H.
  destruct (bytes_cmp (key x) (key y)) eqn:E; [| |done].
  - apply bytes_cmp_eq in E. rewrite bool_decide_eq_true_2 by done.
    specialize (IH H). cbn [map] in *. by rewrite E.
  - rewrite bool_decide_eq_false_2 by (intros E'; by rewrite E', bytes_cmp_refl in E).
    specialize (IH H). cbn [map] in *. cbn. cbn in IH. by rewrite E.
Qed.

Lemma incl_insert {A} (key : A -> bytes) x y l : In y (insert_by key x l) -> y = x \/ In y l.
Proof.
  induction l as [|z l IH]; cbn [insert_by].
  - intros [->|[]]. by left.
  - case_match; cbn; intuition congruence.
Qed.

Lemma incl_sort {A} (key : A -> bytes) l : incl (sort_by key l) l.
Proof.
  induction l as [|x l IH]; [by intros y []|]. intros y H. rewrite sort_cons in H. apply incl_insert in H as [->|H]; [by left|].
  right. by apply IH.
Qed.

Lemma incl_dedup {A} (key : A -> bytes) l : incl (dedup_by key l) l.
Proof.
  induction l as [|x l IH]; [by intros y []|]. rewrite dedup_cons. intros y H.
  destruct (dedup_by key l) as [|z d]; [destruct H as [->|[]]; by left|].
  unfold incl in IH. case_bool_decide; cbn in H; destruct H as [->|H]; try (by left); right;
    apply IH; cbn; auto.
Qed.

Lemma length_sort {A} (key : A -> bytes) l : length (sort_by key l) = length l.
Proof.
  induction l as [|x l IH]; [done|]. rewrite sort_cons. cbn [length]. rewrite <- IH. clear IH.
  induction (sort_by key l) as [|y m IH]; [done|]. cbn [insert_by].
  case_match; cbn [length]; auto.
Qed.

Lemma length_dedup {A} (key : A -> bytes) l : (length (dedup_by key l) <= length l)%nat.
Proof.
  induction l as [|x l IH]; [done|]. rewrite dedup_cons.
  destruct (dedup_by key l); [cbn; lia|]. case_bool_decide; cbn in *; lia.
Qed.

Definition normalize_pair (kv : Value * Value) : Value * Value :=
  (normalize (fst kv), normalize (snd kv)).

Lemma normalize_Map l :
  normalize (Map l) = Map (dedup_by pair_key (sort_by pair_key (map normalize_pair l))).
Proof.
  cbn [normalize]. by replace (map (fun '(k, v) => (normalize k, normalize v)) l)
    with (map normalize_pair l) by (apply map_ext; by intros []).
Qed.

Lemma to_canonical_normalize v : to_canonical (normalize v) = to_canonical v.
Proof.
  induction v as [n|n|b|s|l IH|l IH|t v IH|b|] using Value_nested_ind; try done.
  - cbn [normalize]. rewrite !to_canonical_Array, map_map. unfold len. rewrite length_map.
    do 2 f_equal. apply map_ext_in. by rewrite List.Forall_forall in IH.
  - rewrite normalize_Map, to_canonical_Map_ascending
      by (apply ascending_dedup, sorted_sort).
    rewrite to_canonical_Map. cbv zeta.
    assert (map encode_pair (map normalize_pair l) = map encode_pair l) as E.
    { rewrite map_map. apply map_ext_in. rewrite List.Forall_forall in IH.
      intros [k v] H. destruct (IH _ H) as [E1 E2]. unfold encode_pair. cbn in *. congruence. }
    assert (map encode_pair (dedup_by pair_key (sort_by pair_key (map normalize_pair l)))
            = dedup_by fst (sort_by fst (map encode_pair l))) as E'.
    { rewrite <- E. etransitivity; [apply (map_dedup_by encode_pair fst)|].
      f_equal. apply (map_sort_by encode_pair fst). }
    rewrite <- E'. unfold len. by rewrite length_map.
  - cbn [normalize]. by rewrite !to_canonical_Tag, IH.
Qed.

Lemma canonical_normalize v : typed v = true -> canonical (normalize v) = true.
Proof.
  induction v as [n|n|b|s|l IH|l IH|t v IH|b|] using Value_nested_ind; intros H; try done.
  - cbn in *. bool_prop. unfold len in *. rewrite length_map. apply andb_true_iff.
    split; [lia|]. rewrite List.Forall_forall in IH. apply forallb_forall. intros w Hw.
    apply in_map_iff in Hw as (v & <- & Hin).
    match goal with H : forallb _ _ = true |- _ => rewrite forallb_forall in H end. auto.
  - rewrite normalize_Map. cbn in *. bool_prop.
    rewrite (ascending_dedup pair_key) by apply sorted_sort. rewrite andb_true_r.
    apply andb_true_iff. split.
    + unfold len in *. pose proof (length_dedup pair_key (sort_by pair_key (map normalize_pair l))).
      rewrite length_sort, length_map in *. lia.
    + rewrite forallb_forall. intros [k v] Hin. apply incl_dedup, incl_sort, in_map_iff in Hin.
      destruct Hin as ([k' v'] & [= <- <-] & Hin). rewrite List.Forall_forall in IH.
      destruct (IH _ Hin) as [IH1 IH2]. cbn in *.
      match goal with H : forallb _ _ = true |- _ =>
        rewrite forallb_forall in H; specialize (H _ Hin); cbn in H end.
      bool_prop. by rewrite IH1, IH2.
  - cbn in *. bool_prop. match goal with H : is_u64 _ = _ |- _ => rewrite H end. auto.
Qed.

Lemma height_Array_le l n :
  (forall v, In v l -> (S (height v) <= n)%nat) <-> (height (Array l) <= n)%nat.
Proof.
  cbn [height]. induction l as [|v l IH]; cbn [fold_right].
  - split; [lia|]. intros _ v [].
  - split.
    + intros H. pose proof (H v ltac:(by left)).
      assert (forall w, In w l -> (S (height w) <= n)%nat) as H' by (intros; apply H; by right).
      apply IH in H'. lia.
    + intros H w [<-|Hw]; [lia|]. apply IH; [lia|done].
Qed.

Lemma height_Map_le l n :
  (forall k v, In (k, v) l -> (S (Nat.max (height k) (height v)) <= n)%nat)
  <-> (height (Map l) <= n)%nat.
Proof.
  cbn [height]. induction l as [|[k v] l IH]; cbn [fold_right].
  - split; [lia|]. intros _ k v [].
  - split.
    + intros H. pose proof (H k v ltac:(by left)).
      assert (forall k v, In (k, v) l -> (S (Nat.max (height k) (height v)) <= n)%nat) as H'
        by (intros; apply H; by right).
      apply IH in H'. lia.
    + intros H k' v' [[= <- <-]|Hw]; [lia|]. apply IH; [lia|done].
Qed.

Lemma height_normalize v : (height (normalize v) <= height v)%nat.
Proof.
  induction v as [n|n|b|s|l IH|l IH|t v IH|b|] using Value_nested_ind; try done.
  - cbn [normalize]. apply height_Array_le. intros w H.
    apply in_map_iff in H as (v & <- & Hin). rewrite List.Forall_forall in IH.
    specialize (IH _ Hin). pose proof (proj2 (height_Array_le l _) (le_n _) v Hin). lia.
  - rewrite normalize_Map. apply height_Map_le. intros k v Hin.
    apply incl_dedup, incl_sort, in_map_iff in Hin.
    destruct Hin as ([k' v'] & [= <- <-] & Hin). rewrite List.Forall_forall in IH.
    destruct (IH _ Hin). pose proof (proj2 (height_Map_le l _) (le_n _) k' v' Hin).
    cbn in *. lia.
  - cbn. lia.
Qed.

(** The decoder reads back every encoding, as the normalised value. *)
Lemma from_to_canonical_typed v :
  typed v = true -> (height v <= MAX_DEPTH)%nat ->
  from_canonical_slice (to_canonical v) = Ok (normalize v).
Proof.
  intros Ht Hh. rewrite <- to_canonical_normalize. apply from_to_canonical.
  - by apply canonical_normalize.
  - etransitivity; [apply height_normalize|done].
Qed.

(** ** Sizes *)

(** An upper bound of the length of an encoding: nine bytes per head. *)
Fixpoint weight (v : Value) : Z :=
  match v with
  | Bytes b => 9 + len b
  | Text s => 9 + slen s
  | Array items => 9 + fold_right (fun x n => weight x + n) 0 items
  | Map pairs => 9 + fold_right (fun '(k, x) n => weight k + weight x + n) 0 pairs
  | Tag _ inner => 9 + weight inner
  | _ => 9
  end.

Lemma len_write_head_le m n : len (write_head [] m n) <= 9.
Proof. unfold write_head. repeat case_match; autorewrite with wallet; lia. Qed.

Definition total {A} (f : A -> Z) (l : list A) : Z := fold_right (fun x n => f x + n) 0 l.

Lemma total_insert {A} (f : A -> Z) key x l : total f (insert_by key x l) = f x + total f l.
Proof.
  induction l as [|y l IH]; [done|]. cbn. destruct (bytes_cmp (key x) (key y)); cbn; try lia.
  fold (total f (insert_by key x l)). fold (total f l). lia.
Qed.

Lemma total_sort {A} (f : A -> Z) key l : total f (sort_by key l) = total f l.
Proof.
  induction l as [|x l IH]; [done|]. rewrite sort_cons, total_insert, IH. done.
Qed.

Lemma total_dedup {A} (f : A -> Z) key l :
  (forall x, 0 <= f x) -> total f (dedup_by key l) <= total f l.
Proof.
  intros Hf. induction l as [|x l IH]; [done|]. rewrite dedup_cons.
  change (total f (x :: l)) with (f x + total f l).
  destruct (dedup_by key l) as [|y d]; [cbn in *; lia|].
  change (total f (y :: d)) with (f y + total f d) in IH.
  pose proof (Hf y). case_bool_decide; cbn; fold (total f d); lia.
Qed.

Lemma len_concat {A B} (g : A -> list B) l : len (concat (map g l)) = total (fun x => len (g x)) l.
Proof. unfold total. induction l as [|x l IH]; [done|]. cbn. by rewrite len_app, IH. Qed.

Lemma total_le {A} (f g : A -> Z) l : Forall (fun x => f x <= g x) l -> total f l <= total g l.
Proof. unfold total. induction 1; cbn; lia. Qed.

Lemma total_map {A B} (f : B -> Z) (g : A -> B) l : total f (map g l) = total (fun x => f (g x)) l.
Proof. unfold total. induction l as [|x l IH]; cbn; [done|]. by rewrite IH. Qed.

Lemma len_to_canonical v : len (to_canonical v) <= weight v.
Proof.
  induction v as [n|n|b|s|l IH|l IH|t v IH|b|] using Value_nested_ind.
  1,2: apply len_write_head_le.
  1,2: unfold to_canonical; cbn [encode_into weight]; rewrite len_app; unfold slen;
       (match goal with |- len (write_head [] ?m ?n) + _ <= _ =>
          pose proof (len_write_head_le m n) end); lia.
  - rewrite to_canonical_Array, len_app, len_concat. cbn [weight].
    pose proof (len_write_head_le 4 (len l)). apply total_le in IH. fold (total weight l). lia.
  - rewrite to_canonical_Map. cbv zeta. rewrite len_app, len_concat. cbn [weight].
    match goal with |- len (write_head [] ?m ?n) + _ <= _ => pose proof (len_write_head_le m n) end.
    pose proof (total_dedup (fun e => len (pair_bytes e)) fst (sort_by fst (map encode_pair l))
      (fun x => len_nonneg _)) as Hd.
    rewrite total_sort, total_map in Hd.
    pose proof (total_le (fun x => len (pair_bytes (encode_pair x)))
      (fun kv => weight (fst kv) + weight (snd kv)) l) as Hw.
    replace (fold_right (fun '(k, x) n => weight k + weight x + n) 0 l)
      with (total (fun kv => weight (fst kv) + weight (snd kv)) l)
      by (clear; unfold total; induction l as [|[k x] l IH]; cbn; [done|]; by rewrite IH).
    assert (Forall (fun x => len (pair_bytes (encode_pair x))
      <= weight (fst x) + weight (snd x)) l) as Hf; [|specialize (Hw Hf); lia].
    eapply Forall_impl; [|exact IH]. intros [k x] [Hk Hx]. cbn in *.
    unfold pair_bytes. cbn. rewrite len_app. lia.
  - rewrite to_canonical_Tag, len_app. cbn [weight]. pose proof (len_write_head_le 6 t). lia.
  - destruct b; vm_compute; discriminate.
  - vm_compute; discriminate.
Qed.

(** ** Values built from Rust strings, vectors and integers are canonical *)

Lemma tag_bytes_inj t a b : Tag t (Bytes a) = Tag t (Bytes b) -> a = b.
Proof. by intros [= ->]. Qed.

Lemma canonical_Text s : rust_string s = true -> canonical (Text s) = true.
Proof. unfold rust_string. cbn. width. intros H. bool_prop. apply andb_true_iff. split; [done|lia]. Qed.

Lemma canonical_Bytes b : rust_vec b = true -> canonical (Bytes b) = true.
Proof. unfold rust_vec. cbn. width. intros H. lia. Qed.

Lemma canonical_Uint n : is_u64 n = true -> canonical (Uint n) = true.
Proof. done. Qed.

Lemma canonical_Tag t v : is_u64 t = true -> canonical v = true -> canonical (Tag t v) = true.
Proof. intros Ht Hv. cbn. by rewrite Ht, Hv. Qed.

Lemma canonical_Array l :
  len l <= U64_MAX -> Forall (fun v => canonical v = true) l -> canonical (Array l) = true.
Proof.
  intros Hl H. cbn. apply andb_true_iff. split; [lia|].
  apply forallb_forall, List.Forall_forall, H.
Qed.

Lemma canonical_Map l :
  len l <= U64_MAX -> Forall (fun kv => canonical (fst kv) = true /\ canonical (snd kv) = true) l ->
  ascending (map pair_key l) = true -> canonical (Map l) = true.
Proof.
  intros Hl H Ha. cbn. rewrite Ha, andb_true_r. apply andb_true_iff. split; [lia|].
  apply forallb_forall. intros [k v] Hin. rewrite List.Forall_forall in H.
  apply H in Hin as [Hk Hv]. cbn in *. by rewrite Hk, Hv.
Qed.

#[export] Hint Resolve canonical_Text canonical_Bytes canonical_Uint canonical_Tag
  canonical_Array canonical_Map Forall_nil_2 Forall_cons_2 : wallet.
#[export] Hint Extern 1 (len _ <= U64_MAX) =>
  rewrite ?len_cons, ?len_nil; unfold U64_MAX; lia : wallet.
#[export] Hint Extern 1 (rust_string (String _ _) = true) => vm_compute; reflexivity : wallet.
#[export] Hint Extern 1 (is_u64 (Zpos _) = true) => reflexivity : wallet.
#[export] Hint Extern 1 (is_u64 0 = true) => reflexivity : wallet.
#[export] Hint Extern 1 (canonical (Bool _) = true) => reflexivity : wallet.
#[export] Hint Extern 1 (canonical Null = true) => reflexivity : wallet.
#[export] Hint Extern 1 (_ /\ _) => split : wallet.
#[export] Hint Extern 1 (ascending (map pair_key _) = true) => vm_compute; reflexivity : wallet.
#[export] Hint Extern 1 (canonical (fst _) = true) => progress cbn [fst] : wallet.
#[export] Hint Extern 1 (canonical (snd _) = true) => progress cbn [snd] : wallet.

(** The conversion test unfolds the codec last. *)
Strategy 1000 [to_canonical encode_into decode_at decode_value from_canonical_slice].

(** A literal array of such values, and equality of two of them member by
    member. *)
Ltac canonical_value := auto 20 with wallet.

Ltac binding_inj H :=
  apply to_canonical_inj in H; [simplify_eq | canonical_value | canonical_value].

(** ** Properties *)

(** C8: Strict decoding inverts canonical encoding.  For every value that Rust
    can build (64-bit integers and lengths, UTF-8 text) with maps in canonical
    order and at most [MAX_DEPTH] levels, [from_canonical_slice] of its
    [to_canonical] is the value; with maps in any order it is the value with
    its maps sorted by encoded key and, of entries with equal keys, the first
    kept, so every encoding is accepted. *)
Theorem cbor_decode_encode (v : Value) :
  typed v = true -> (height v <= MAX_DEPTH)%nat ->
  from_canonical_slice (to_canonical v) = Ok (normalize v)
  /\ (canonical v = true -> from_canonical_slice (to_canonical v) = Ok v).
Proof.
  intros Ht Hh. split; [by apply from_to_canonical_typed|]. intros Hc. by apply from_to_canonical.
Qed.

Lemma cbor_decode_encode_witness :
  from_canonical_slice (to_canonical (Map [(Uint 2, Text "b"); (Uint 1, Null); (Uint 2, Null)]))
  = Ok (Map [(Uint 1, Null); (Uint 2, Text "b")]).
Proof.
  destruct (cbor_decode_encode (Map [(Uint 2, Text "b"); (Uint 1, Null); (Uint 2, Null)]))
    as [H _]; [reflexivity | unfold MAX_DEPTH; cbn; lia | exact H].
Defined.

(** The decoder accepts nothing but canonical encodings.  Whatever bytes
    [from_canonical_slice] accepts are, byte for byte, the encoding of the
    value it returns, and that value has 64-bit integers, UTF-8 text and maps
    with strictly ascending encoded keys; in particular no value has two
    accepted encodings. *)
Theorem cbor_accepts_only_canonical (bs : bytes) (v : Value) :
  from_canonical_slice bs = Ok v ->
  bs = to_canonical v /\ canonical v = true /\ (height v <= MAX_DEPTH)%nat.
Proof. apply from_canonical_slice_inv. Qed.

Lemma cbor_accepts_only_canonical_witness :
  canonical (Array [Uint 24; Bool true]) = true.
Proof.
  apply (cbor_accepts_only_canonical
    [Byte.x82; Byte.x18; Byte.x18; Byte.xf5] (Array [Uint 24; Bool true])).
  vm_compute. reflexivity.
Defined.

(** Canonical encodings are injective and prefix free: two canonical values
    whose encodings agree up to any continuations are equal, with equal
    continuations.  Concatenated encodings can therefore be read one way
    only. *)
Theorem cbor_prefix_free (v w : Value) (r s : bytes) :
  canonical v = true -> canonical w = true ->
  to_canonical v ++ r = to_canonical w ++ s -> v = w /\ r = s.
Proof. apply to_canonical_prefix_free. Qed.

Lemma cbor_prefix_free_witness :
  Uint 5 = Uint 5 /\ [Byte.x01] = [Byte.x01].
Proof. apply (cbor_prefix_free (Uint 5) (Uint 5)); reflexivity. Defined.

(** Heads are shortest form: [read_head] returns a major type, argument and
    rest exactly when the input is [write_head] of that major type (three bits)
    and argument (64 bits) followed by that rest. *)
Theorem read_head_iff_write_head (bs : bytes) (m n : Z) (rest : bytes) :
  read_head bs = Ok (m, n, rest)
  <-> bs = write_head [] m n ++ rest /\ 0 <= m <= 7 /\ is_u64 n = true.
Proof.
  split.
  - intros H. apply read_head_inv in H as (E & Hm & Hn & _). done.
  - intros (-> & Hm & Hn). by apply read_write_head.
Qed.
