(* ===== verification/Boundary.v ===== *)
(** * The boundary of the core: crypto traits and third-party libraries

    The core calls the [crypto_traits] traits (crates/crypto-traits/src/lib.rs)
    and three crates that are not part of the repository: serde_json, base64ct
    and miniz_oxide.  Each is a class of operations here; what the core relies
    on is a class of laws beside it, which restates documented behaviour of the
    library.  [Samples] has concrete instances, which the witnesses of the
    other files use. *)

From stdpp Require Import countable pretty.
From S2P Require Import Prelude Utf8.

Open Scope Z_scope.

(** ** crypto-traits *)

Inductive Alg : Type := Es256 | Es384 | EdDsa.

#[export] Instance alg_eq_decision : EqDecision Alg.
Proof. solve_decision. Defined.

Inductive CryptoError : Type :=
| NotFound
| Unsupported
| Backend (message : string).

Record KeyRef : Type := { key_ref_name : string }.

Class Signer : Type := { sign : KeyRef -> Alg -> bytes -> result bytes CryptoError }.

Class Verifier : Type :=
  { verify : Alg -> bytes -> bytes -> bytes -> result unit CryptoError }.

Class Digest : Type := { sha256 : bytes -> bytes }.

(** [sha256] returns [[u8; 32]]. *)
Class DigestLaws `{Digest} : Prop := { sha256_length : forall b, length (sha256 b) = 32%nat }.

(** Two inputs with one digest: what a theorem excludes when it speaks of
    digests. *)
Section collision.
Context `{D : Digest}.

Definition collision : Prop := exists a b, a <> b /\ sha256 a = sha256 b.

Lemma bytes_or_collision a b : sha256 a = sha256 b -> a = b \/ collision.
Proof. intros E. destruct (decide (a = b)); [by left|right; by exists a, b]. Qed.
End collision.

(** ** serde_json *)

Class JsonLib : Type := {
  Json : Type;
  from_slice : bytes -> option Json;
  get : Json -> string -> option Json;
  as_str : Json -> option string;
  as_u64 : Json -> option Z;
  as_i64 : Json -> option Z;
  as_bool : Json -> option bool;
  as_array : Json -> option (list Json);
  to_string : Json -> string;
  j_string : string -> Json;
  j_int : Z -> Json;
  j_array : list Json -> Json;
  j_object : list (string * Json) -> Json;
}.

(** The accessors return values of their Rust types. *)
Class JsonTypes `{JsonLib} : Prop := {
  as_str_string : forall j s, as_str j = Some s -> rust_string s = true;
  as_u64_range : forall j n, as_u64 j = Some n -> is_u64 n = true;
  as_i64_range : forall j n, as_i64 j = Some n -> is_i64 n = true;
}.

Fixpoint assoc {A} (k : string) (l : list (string * A)) : option A :=
  match l with
  | [] => None
  | (k', a) :: l => if bool_decide (k = k') then Some a else assoc k l
  end.

(** Distinct values print differently, and the constructors of values are
    injective (of objects with the same, distinct, keys). *)
Class JsonInj `{JsonLib} : Prop := {
  to_string_inj : forall a b, to_string a = to_string b -> a = b;
  j_string_inj : forall s t, j_string s = j_string t -> s = t;
  j_int_inj : forall m n,
    is_i64 m || is_u64 m = true -> is_i64 n || is_u64 n = true -> j_int m = j_int n -> m = n;
  j_object_inj : forall a b,
    NoDup (map fst a) -> map fst a = map fst b -> j_object a = j_object b -> a = b;
}.

(** ** base64ct: [Base64UrlUnpadded] *)

Class Base64 : Type := {
  encode_string : bytes -> string;
  decode_vec : string -> option bytes;
}.

Definition is_b64url (b : byte) : bool :=
  is_ascii_alphanumeric b || Byte.eqb b Byte.x2d || Byte.eqb b Byte.x5f.

Class Base64Laws `{Base64} : Prop := {
  decode_encode : forall b, decode_vec (encode_string b) = Some b;
  encode_alphabet : forall b, forallb is_b64url (as_bytes (encode_string b)) = true;
}.

(** ** miniz_oxide: zlib inflation with an output limit *)

(** A failed inflation reports how much output it had produced. *)
Class Inflate : Type := {
  decompress_to_vec_zlib_with_limit : bytes -> Z -> result bytes Z;
}.

Class InflateLaws `{Inflate} : Prop := {
  inflate_limit : forall c n out,
    decompress_to_vec_zlib_with_limit c n = Ok out -> len out <= n;
}.

(** ** Concrete instances *)

Module Samples.

(** A JSON document with the shapes the core reads; [from_slice] reads one
    fixed document whatever the bytes are. *)
Inductive doc : Type :=
| DStr (s : string)
| DInt (n : Z)
| DBool (b : bool)
| DArr (l : list doc)
| DObj (l : list (string * doc)).

Definition doc_get (d : doc) (k : string) : option doc :=
  match d with DObj l => assoc k l | _ => None end.

Definition doc_str (d : doc) : option string :=
  match d with
  | DStr s => if rust_string s then Some s else None
  | _ => None
  end.

Definition doc_u64 (d : doc) : option Z :=
  match d with DInt n => checked_u64 n | _ => None end.

Definition doc_i64 (d : doc) : option Z :=
  match d with DInt n => checked_i64 n | _ => None end.

(** Printing: the document's number. *)
Fixpoint tree (d : doc) : gen_tree (string + (Z + bool)) :=
  match d with
  | DStr s => GenLeaf (inl s)
  | DInt n => GenLeaf (inr (inl n))
  | DBool b => GenLeaf (inr (inr b))
  | DArr l => GenNode 0 (map tree l)
  | DObj l => GenNode 1 (map (fun '(k, x) => GenNode 2 [GenLeaf (inl k); tree x]) l)
  end.

Definition print (d : doc) : string := pretty (Npos (encode (tree d))).

Fixpoint tree_inj (d e : doc) {struct d} : tree d = tree e -> d = e.
Proof.
  destruct d as [s|n|b|l|l], e as [t|m|c|k|k]; cbn; intros E; try discriminate E;
    try (injection E as ->; reflexivity).
  - injection E as E. f_equal. revert k E. induction l as [|x l IH]; intros [|y k] E; try done.
    injection E as Ex E. f_equal; [by apply tree_inj|by apply IH].
  - injection E as E. f_equal. revert k E.
    induction l as [|[a x] l IH]; intros [|[b y] k] E; try done.
    injection E as -> Ex E. f_equal; [f_equal; by apply tree_inj|by apply IH].
Qed.

Lemma print_inj d e : print d = print e -> d = e.
Proof. unfold print. intros E%(inj pretty). injection E as E%(inj encode). by apply tree_inj. Qed.

Definition json_of (parse : bytes -> option doc) : JsonLib := {|
  Json := doc;
  from_slice := parse;
  get := doc_get;
  as_str := doc_str;
  as_u64 := doc_u64;
  as_i64 := doc_i64;
  as_bool := fun d => match d with DBool b => Some b | _ => None end;
  as_array := fun d => match d with DArr l => Some l | _ => None end;
  to_string := print;
  j_string := DStr;
  j_int := DInt;
  j_array := DArr;
  j_object := DObj;
|}.

Definition json_const (d : doc) : JsonLib := json_of (fun _ => Some d).

Lemma json_of_types p : @JsonTypes (json_of p).
Proof.
  constructor.
  - intros [s|n|b|l|l] t; try done. cbn. destruct (rust_string s) eqn:E; intros [= <-]; done.
  - intros [s|n|b|l|l] t; try done. cbn. unfold checked_u64.
    destruct (is_u64 n) eqn:E; intros [= <-]; done.
  - intros [s|n|b|l|l] t; try done. cbn. unfold checked_i64.
    destruct (is_i64 n) eqn:E; intros [= <-]; done.
Qed.

Lemma json_of_inj p : @JsonInj (json_of p).
Proof.
  constructor; cbn.
  - apply print_inj.
  - by intros s t [= ->].
  - by intros m n _ _ [= ->].
  - by intros a b _ _ [= ->].
Qed.

(** An encoding into the base64url alphabet (hexadecimal, which has the laws
    the core uses). *)
Definition nibble (n : Z) : byte := byte.of_Z (if n <=? 9 then 48 + n else 87 + n).

Definition unnibble (b : byte) : option Z :=
  let x := byte.unsigned b in
  if in_range 48 57 x then Some (x - 48)
  else if in_range 97 102 x then Some (x - 87) else None.

Definition hex_byte (b : byte) : bytes :=
  [nibble (Z.shiftr (byte.unsigned b) 4); nibble (Z.land (byte.unsigned b) 15)].

Fixpoint unhex (bs : bytes) : option bytes :=
  match bs with
  | [] => Some []
  | [_] => None
  | a :: b :: r =>
      match unnibble a, unnibble b, unhex r with
      | Some x, Some y, Some z => Some (byte.of_Z (16 * x + y) :: z)
      | _, _, _ => None
      end
  end.

Definition hex64 : Base64 := {|
  encode_string := fun b => string_of_list_byte (concat (map hex_byte b));
  decode_vec := fun s => unhex (as_bytes s);
|}.

Lemma hex64_laws : @Base64Laws hex64.
Proof.
  constructor; cbn; intros b; rewrite as_bytes_of_list.
  - induction b as [|x b IH]; [done|]. cbn [map concat].
    change (hex_byte x ++ concat (map hex_byte b)) with
      (nibble (Z.shiftr (byte.unsigned x) 4) :: nibble (Z.land (byte.unsigned x) 15)
       :: concat (map hex_byte b)).
    cbn [unhex]. rewrite IH. clear. by destruct x.
  - induction b as [|x b IH]; [done|]. cbn [map concat]. rewrite forallb_app, IH.
    clear. by destruct x.
Qed.

(** A signature scheme: the signature is the message. *)
Definition echo_signer : Signer := {| sign := fun _ _ m => Ok m |}.

Definition echo_verifier : Verifier :=
  {| verify := fun _ _ m s => if bool_decide (m = s) then Ok tt else Err Unsupported |}.

Definition reject_verifier : Verifier := {| verify := fun _ _ _ _ => Err Unsupported |}.

Definition pad32 (b : bytes) : bytes := take 32 (b ++ repeat Byte.x00 32).

Definition trunc_digest : Digest := {| sha256 := pad32 |}.

Lemma trunc_digest_laws : @DigestLaws trunc_digest.
Proof. constructor. intros b. cbn. unfold pad32. rewrite length_take, length_app, repeat_length. lia. Qed.

(** A digest that reads every byte, for samples in which several documents with
    one prefix are hashed. *)
Definition fold_digest : Digest := {|
  sha256 := fun b =>
    pad32 (to_be_bytes 2 (fold_left (fun a x => Z.land (7 * a + byte.unsigned x + 1) 65535) b 0));
|}.

Lemma fold_digest_laws : @DigestLaws fold_digest.
Proof. constructor. intros b. cbn. unfold pad32. rewrite length_take, length_app, repeat_length. lia. Qed.

Definition stored_inflate : Inflate := {|
  decompress_to_vec_zlib_with_limit :=
    fun c n => if len c <=? n then Ok c else Err n;
|}.

Lemma stored_inflate_laws : @InflateLaws stored_inflate.
Proof. constructor. cbn. intros c n out. case_match eqn:E; [|done]. intros [= <-]. lia. Qed.

End Samples.

(** ** Reading members, as the parsers of the protocol crates do *)

Section json.
Context `{JL : JsonLib}.

(** [v.get(k).and_then(|x| x.as_str())] and its siblings. *)
Definition get_str (v : Json) (k : string) : option string :=
  match get v k with Some x => as_str x | None => None end.

Definition get_u64 (v : Json) (k : string) : option Z :=
  match get v k with Some x => as_u64 x | None => None end.

Definition get_i64 (v : Json) (k : string) : option Z :=
  match get v k with Some x => as_i64 x | None => None end.

Lemma get_str_string `{!JsonTypes} v k s : get_str v k = Some s -> rust_string s = true.
Proof. unfold get_str. destruct (get v k); [|done]. apply as_str_string. Qed.

Lemma get_u64_range `{!JsonTypes} v k n : get_u64 v k = Some n -> is_u64 n = true.
Proof. unfold get_u64. destruct (get v k); [|done]. apply as_u64_range. Qed.

Lemma get_i64_range `{!JsonTypes} v k n : get_i64 v k = Some n -> is_i64 n = true.
Proof. unfold get_i64. destruct (get v k); [|done]. apply as_i64_range. Qed.

Lemma unwrap_or_string o : (forall s, o = Some s -> rust_string s = true) ->
  rust_string (unwrap_or o "") = true.
Proof. destruct o as [s|]; intros H; [by apply H|reflexivity]. Qed.
End json.

#[export] Hint Resolve get_str_string get_u64_range get_i64_range : wallet.
