(* ===== verification/Cose.v ===== *)
(** * COSE_Sign1 (crates/cose/src/lib.rs)

    The signature envelope: header encoding and parsing with the fail-closed
    rules ([crit], duplicate labels, header collisions, certificate-chain
    bounds), the [Sig_structure], signing, verification, and the conversion
    between messages and their CBOR structure. *)

From S2P Require Import Prelude Utf8 Cbor Boundary.

Open Scope Z_scope.
Open Scope rust_scope.

(** ** Data *)

Definition LABEL_ALG : Z := 1.
Definition LABEL_CRIT : Z := 2.
Definition LABEL_KID : Z := 4.
Definition LABEL_X5CHAIN : Z := 33.

Definition MAX_X5CHAIN_CERTIFICATES : Z := 8.
Definition MAX_X5CHAIN_CERTIFICATE_BYTES : Z := 64 * 1024.
Definition MAX_X5CHAIN_TOTAL_BYTES : Z := 256 * 1024.
Definition MAX_PRIVATE_LABELS : Z := 8.
Definition MAX_PRIVATE_LABEL_BYTES : Z := 64 * 1024.

Definition cose_alg_id (alg : Alg) : Z :=
  match alg with Es256 => -7 | Es384 => -35 | EdDsa => -8 end.

Definition alg_from_id (id : Z) : option Alg :=
  if id =? -7 then Some Es256
  else if id =? -35 then Some Es384
  else if id =? -8 then Some EdDsa
  else None.

Inductive CoseError : Type :=
| Crypto (e : CryptoError)
| UnknownCriticalParam (label : Z)
| MalformedHeader
| MalformedStructure
| AlgMismatch.

Inductive X5Chain : Type :=
| Single (certificate : bytes)
| Chain (certificates : list bytes).

Record UnprotectedHeader : Type := {
  u_kid : option bytes;
  u_x5chain : option X5Chain;
  private_labels : list (Z * bytes);
}.

Definition default_unprotected : UnprotectedHeader :=
  {| u_kid := None; u_x5chain := None; private_labels := [] |}.

Record CoseSign1 : Type := {
  protected : bytes;
  unprotected : UnprotectedHeader;
  payload : option bytes;
  signature : bytes;
}.

Record ProtectedHeader : Type := {
  p_alg : Alg;
  p_kid : option bytes;
  p_x5chain : option X5Chain;
}.

(** ** Certificate chains *)

Definition certificates (c : X5Chain) : list bytes :=
  match c with Single certificate => [certificate] | Chain l => l end.

(** The new running total; [checked_add] is on [usize]. *)
Definition check_certificate_size (certificate : bytes) (total : Z) : result Z CoseError :=
  if is_empty certificate || (MAX_X5CHAIN_CERTIFICATE_BYTES <? len certificate)
  then Err MalformedHeader
  else match checked_u64 (total + len certificate) with
       | Some total =>
           if total <=? MAX_X5CHAIN_TOTAL_BYTES then Ok total else Err MalformedHeader
       | None => Err MalformedHeader
       end.

Fixpoint check_certificate_sizes (l : list bytes) (total : Z) : result unit CoseError :=
  match l with
  | [] => Ok tt
  | c :: l => let? total := check_certificate_size c total in check_certificate_sizes l total
  end.

Definition chain_count_ok (n : Z) : bool := (2 <=? n) && (n <=? MAX_X5CHAIN_CERTIFICATES).

Definition validate (c : X5Chain) : result unit CoseError :=
  match c with
  | Single certificate =>
      let? _ := check_certificate_size certificate 0 in Ok tt
  | Chain l =>
      if negb (chain_count_ok (len l)) then Err MalformedHeader
      else check_certificate_sizes l 0
  end.

(** The first loop of [from_value]: every element is a byte string of an
    accepted size. *)
Fixpoint check_certificate_values (l : list Value) (total : Z) : result unit CoseError :=
  match l with
  | [] => Ok tt
  | Bytes c :: l => let? total := check_certificate_size c total in check_certificate_values l total
  | _ :: _ => Err MalformedHeader
  end.

(** The second pass: clone the byte strings. *)
Fixpoint collect_certificates (l : list Value) : result (list bytes) CoseError :=
  match l with
  | [] => Ok []
  | Bytes c :: l => let? r := collect_certificates l in Ok (c :: r)
  | _ :: _ => Err MalformedHeader
  end.

Definition x5chain_from_value (value : Value) : result X5Chain CoseError :=
  match value with
  | Bytes certificate =>
      let? _ := check_certificate_size certificate 0 in Ok (Single certificate)
  | Array l =>
      if negb (chain_count_ok (len l)) then Err MalformedHeader
      else
        let? _ := check_certificate_values l 0 in
        let? cs := collect_certificates l in
        Ok (Chain cs)
  | _ => Err MalformedHeader
  end.

Definition x5chain_to_value (c : X5Chain) : Value :=
  match c with
  | Single certificate => Bytes certificate
  | Chain l => Array (map Bytes l)
  end.

(** ** Headers *)

Definition private_label (h : UnprotectedHeader) (label : Z) : option bytes :=
  option_map snd (find (fun '(candidate, _) => candidate =? label) (private_labels h)).

Definition sig_structure (protected external_aad payload : bytes) : bytes :=
  to_canonical (Array [Text "Signature1"; Bytes protected; Bytes external_aad; Bytes payload]).

(** A label or identifier as CBOR: major type 1 for a negative one. *)
Definition int_value (id : Z) : Value :=
  if id <? 0 then Nint (wrap64 (-1 - id)) else Uint (wrap64 id).

Definition encode_protected_header (alg : Alg) : bytes :=
  to_canonical (Map [(Uint LABEL_ALG, int_value (cose_alg_id alg))]).

Definition encode_protected_header_with_crit (alg : Alg) (crit_labels : list Z) : bytes :=
  to_canonical (Map [(Uint LABEL_ALG, int_value (cose_alg_id alg));
                     (Uint LABEL_CRIT, Array (map int_value crit_labels))]).

Definition integer_label (value : Value) : result Z CoseError :=
  match value with
  | Uint n => if n <=? I64_MAX then Ok n else Err MalformedHeader
  | Nint n => if n <=? I64_MAX then Ok (-1 - n) else Err MalformedHeader
  | _ => Err MalformedHeader
  end.

Definition header_value (pairs : list (Value * Value)) (label : Z) : option Value :=
  option_map snd (find (fun '(key, _) => value_eqb key (Uint label)) pairs).

Definition has_key (pairs : list (Value * Value)) (key : Value) : bool :=
  existsb (fun '(k, _) => value_eqb k key) pairs.

Fixpoint check_unique_from (previous pairs : list (Value * Value)) : result unit CoseError :=
  match pairs with
  | [] => Ok tt
  | (label, v) :: pairs =>
      if has_key previous label then Err MalformedHeader
      else check_unique_from (previous ++ [(label, v)]) pairs
  end.

Definition check_unique_header_labels (pairs : list (Value * Value)) : result unit CoseError :=
  check_unique_from [] pairs.

(** The loop over the [crit] array. *)
Fixpoint check_crit (pairs : list (Value * Value)) (seen items : list Value)
  : result unit CoseError :=
  match items with
  | [] => Ok tt
  | item :: items =>
      let? lbl := integer_label item in
      if lbl =? LABEL_CRIT then Err MalformedHeader
      else if negb (lbl =? LABEL_ALG) && negb (lbl =? LABEL_KID) && negb (lbl =? LABEL_X5CHAIN)
      then Err (UnknownCriticalParam lbl)
      else if existsb (value_eqb item) seen || negb (has_key pairs item)
      then Err MalformedHeader
      else check_crit pairs (seen ++ [item]) items
  end.

(** [kid] is a byte string wherever it appears. *)
Definition kid_of (pairs : list (Value * Value)) : result (option bytes) CoseError :=
  match header_value pairs LABEL_KID with
  | Some (Bytes kid) => Ok (Some kid)
  | Some _ => Err MalformedHeader
  | None => Ok None
  end.

(** [.map(X5Chain::from_value).transpose()]. *)
Definition x5chain_of (pairs : list (Value * Value)) : result (option X5Chain) CoseError :=
  match header_value pairs LABEL_X5CHAIN with
  | Some v => let? c := x5chain_from_value v in Ok (Some c)
  | None => Ok None
  end.

Definition parse_and_check_protected_header (protected : bytes)
  : result ProtectedHeader CoseError :=
  let? value := map_err (from_canonical_slice protected) (fun _ => MalformedHeader) in
  match value with
  | Map pairs =>
      let? _ := check_unique_header_labels pairs in
      let? _ :=
        match header_value pairs LABEL_CRIT with
        | None => Ok tt
        | Some (Array items) =>
            if is_empty items then Err MalformedHeader else check_crit pairs [] items
        | Some _ => Err MalformedHeader
        end in
      let? alg_value := ok_or (header_value pairs LABEL_ALG) MalformedHeader in
      let? id := integer_label alg_value in
      let? alg := ok_or (alg_from_id id) MalformedHeader in
      let? kid := kid_of pairs in
      let? x5chain := x5chain_of pairs in
      Ok {| p_alg := alg; p_kid := kid; p_x5chain := x5chain |}
  | _ => Err MalformedHeader
  end.

(** The retained private-use labels: entries that are not negative-labelled
    byte strings of an accepted size are passed over ([continue]), the loop
    stops ([break]) at the bound. *)
Fixpoint collect_private (kept : list (Z * bytes)) (pairs : list (Value * Value))
  : list (Z * bytes) :=
  match pairs with
  | [] => kept
  | (key, value) :: pairs =>
      match integer_label key, value with
      | Ok label, Bytes b =>
          if (0 <=? label) || (MAX_PRIVATE_LABEL_BYTES <? len b)
          then collect_private kept pairs
          else if MAX_PRIVATE_LABELS <=? len kept then kept
          else collect_private (kept ++ [(label, b)]) pairs
      | _, _ => collect_private kept pairs
      end
  end.

Definition parse_unprotected_header (value : Value) : result UnprotectedHeader CoseError :=
  match value with
  | Map pairs =>
      let? _ := check_unique_header_labels pairs in
      if is_some (header_value pairs LABEL_ALG) || is_some (header_value pairs LABEL_CRIT)
      then Err MalformedHeader
      else
        let? kid := kid_of pairs in
        let? x5chain := x5chain_of pairs in
        Ok {| u_kid := kid; u_x5chain := x5chain;
              private_labels := collect_private [] pairs |}
  | _ => Err MalformedStructure
  end.

Definition check_header_collisions (p : ProtectedHeader) (u : UnprotectedHeader)
  : result unit CoseError :=
  if (is_some (p_kid p) && is_some (u_kid u))
     || (is_some (p_x5chain p) && is_some (u_x5chain u))
  then Err MalformedHeader
  else match u_x5chain u with
       | Some c => let? _ := validate c in Ok tt
       | None => Ok tt
       end.

(** ** Messages *)

Definition cose_sign `{Signer} (key : KeyRef) (alg : Alg) (payload external_aad : bytes)
    (unprotected : UnprotectedHeader) : result CoseSign1 CoseError :=
  let protected := encode_protected_header alg in
  let? header := parse_and_check_protected_header protected in
  let? _ := check_header_collisions header unprotected in
  let tbs := sig_structure protected external_aad payload in
  let? signature := map_err (sign key alg tbs) Crypto in
  Ok {| protected := protected; unprotected := unprotected;
        payload := Some payload; signature := signature |}.

Definition cose_verify `{Verifier} (self : CoseSign1) (expected_alg : Alg)
    (public_key external_aad : bytes) (detached_payload : option bytes)
  : result unit CoseError :=
  let? header := parse_and_check_protected_header (protected self) in
  let? _ := check_header_collisions header (unprotected self) in
  if negb (bool_decide (p_alg header = expected_alg)) then Err AlgMismatch
  else
    let? payload :=
      match payload self, detached_payload with
      | Some p, None => Ok p
      | None, Some p => Ok p
      | _, _ => Err MalformedStructure
      end in
    let tbs := sig_structure (protected self) external_aad payload in
    let? _ := map_err (verify expected_alg public_key tbs (signature self)) Crypto in
    Ok tt.

Definition x5chain (self : CoseSign1) : result (option X5Chain) CoseError :=
  let? header := parse_and_check_protected_header (protected self) in
  let? _ := check_header_collisions header (unprotected self) in
  Ok (match p_x5chain header with
      | Some c => Some c
      | None => u_x5chain (unprotected self)
      end).

Definition sign1_from_value (v : Value) : result CoseSign1 CoseError :=
  match v with
  | Array [i0; i1; i2; i3] =>
      let? protected := match i0 with Bytes b => Ok b | _ => Err MalformedStructure end in
      let? header := parse_and_check_protected_header protected in
      let? unprotected := parse_unprotected_header i1 in
      let? _ := check_header_collisions header unprotected in
      let? payload :=
        match i2 with
        | Bytes b => Ok (Some b)
        | Null => Ok None
        | _ => Err MalformedStructure
        end in
      let? signature := match i3 with Bytes b => Ok b | _ => Err MalformedStructure end in
      Ok {| protected := protected; unprotected := unprotected;
            payload := payload; signature := signature |}
  | _ => Err MalformedStructure
  end.

Definition unprotected_pairs (u : UnprotectedHeader) : list (Value * Value) :=
  match u_kid u with Some kid => [(Uint LABEL_KID, Bytes kid)] | None => [] end
  ++ match u_x5chain u with
     | Some c => [(Uint LABEL_X5CHAIN, x5chain_to_value c)]
     | None => []
     end
  ++ map (fun '(label, b) => (int_value label, Bytes b)) (private_labels u).

Definition sign1_to_value (self : CoseSign1) : Value :=
  Array [Bytes (protected self);
         Map (unprotected_pairs (unprotected self));
         match payload self with Some p => Bytes p | None => Null end;
         Bytes (signature self)].

(** ** The signed bytes *)

Lemma sig_structure_inj p a b p' a' b' :
  rust_vec p = true -> rust_vec a = true -> rust_vec b = true ->
  rust_vec p' = true -> rust_vec a' = true -> rust_vec b' = true ->
  sig_structure p a b = sig_structure p' a' b' -> p = p' /\ a = a' /\ b = b'.
Proof. intros Hp Ha Hb Hp' Ha' Hb' H. unfold sig_structure in H. by binding_inj H. Qed.

Lemma parse_encode_protected_header alg :
  parse_and_check_protected_header (encode_protected_header alg)
  = Ok {| p_alg := alg; p_kid := None; p_x5chain := None |}.
Proof. destruct alg; vm_compute; reflexivity. Qed.

(** ** Signing and verifying *)

Section crypto.
Context `{Signer} `{Verifier}.

Lemma cose_sign_Ok key alg pl aad u m :
  cose_sign key alg pl aad u = Ok m ->
  exists sig, sign key alg (sig_structure (encode_protected_header alg) aad pl) = Ok sig
  /\ m = {| protected := encode_protected_header alg; unprotected := u;
            payload := Some pl; signature := sig |}
  /\ check_header_collisions {| p_alg := alg; p_kid := None; p_x5chain := None |} u = Ok tt.
Proof.
  unfold cose_sign. rewrite parse_encode_protected_header. intros E.
  destruct (check_header_collisions _ u) as [[]|] eqn:Ec; [|done].
  destruct (sign key alg _) as [sig|] eqn:Es; [|done]. cbn in E.
  injection E as <-. by exists sig.
Qed.

(** What a successful verification has established. *)
Lemma cose_verify_Ok self alg pk aad detached :
  cose_verify self alg pk aad detached = Ok tt ->
  exists h pl,
    parse_and_check_protected_header (protected self) = Ok h /\ p_alg h = alg
    /\ check_header_collisions h (unprotected self) = Ok tt
    /\ (payload self = Some pl /\ detached = None \/ payload self = None /\ detached = Some pl)
    /\ verify alg pk (sig_structure (protected self) aad pl) (signature self) = Ok tt.
Proof.
  unfold cose_verify. intros E.
  destruct (parse_and_check_protected_header _) as [h|] eqn:Eh; [|done].
  destruct (check_header_collisions h _) as [[]|] eqn:Ec; [|done].
  case_bool_decide as Ea; [|done]. cbn [negb] in E.
  destruct (payload self) as [p|] eqn:Ep, detached as [q|]; try done.
  - destruct (verify _ _ _ _) as [[]|] eqn:Ev; [|done]. exists h, p. eauto 8.
  - destruct (verify _ _ _ _) as [[]|] eqn:Ev; [|done]. exists h, q. eauto 8.
Qed.
End crypto.

(** ** Parsing headers that were encoded *)

Lemma value_eqb_neq x y : x <> y -> value_eqb x y = false.
Proof. intros H. destruct (value_eqb x y) eqn:E; [|done]. by apply value_eqb_eq in E. Qed.

Lemma value_eqb_refl x : value_eqb x x = true.
Proof. by apply value_eqb_eq. Qed.

Lemma has_key_In pairs k : has_key pairs k = true <-> In k (map fst pairs).
Proof.
  unfold has_key. rewrite existsb_exists, in_map_iff. split.
  - intros ([k' v] & Hin & E). apply value_eqb_eq in E as ->. by exists (k, v).
  - intros ([k' v] & <- & Hin). exists (k', v). cbn. by rewrite value_eqb_refl.
Qed.

Lemma check_unique_from_Ok prev pairs :
  check_unique_from prev pairs = Ok tt
  <-> (forall k, In k (map fst pairs) -> ~ In k (map fst prev)) /\ List.NoDup (map fst pairs).
Proof.
  revert prev. induction pairs as [|[k v] pairs IH]; intros prev; cbn [check_unique_from].
  - split; [|done]. intros _. split; [by intros k []|constructor].
  - destruct (has_key prev k) eqn:E.
    { split; [done|]. intros [Hd _]. apply has_key_In in E. exfalso. eapply Hd; [by left|done]. }
    assert (~ In k (map fst prev)) as Hk by (rewrite <- has_key_In; congruence).
    rewrite IH, map_app. cbn. setoid_rewrite in_app_iff. cbn.
    setoid_rewrite List.NoDup_cons_iff. intuition (subst; eauto).
Qed.

Lemma check_unique_Ok pairs :
  check_unique_header_labels pairs = Ok tt <-> List.NoDup (map fst pairs).
Proof.
  unfold check_unique_header_labels. rewrite check_unique_from_Ok. split; [tauto|].
  intros H. split; [by intros k _ []|done].
Qed.

Lemma header_value_app l m label :
  header_value (l ++ m) label =
  match header_value l label with Some v => Some v | None => header_value m label end.
Proof.
  unfold header_value. induction l as [|[k v] l IH]; [done|]. cbn.
  by destruct (value_eqb k (Uint label)).
Qed.

Lemma header_value_notin l label : ~ In (Uint label) (map fst l) -> header_value l label = None.
Proof.
  unfold header_value. induction l as [|[k v] l IH]; [done|]. cbn. intros H.
  rewrite value_eqb_neq by (intros ->; apply H; by left). apply IH. tauto.
Qed.

(** A retained private label: negative, of an accepted size. *)
Definition private_ok (e : Z * bytes) : bool :=
  (I64_MIN <=? fst e) && (fst e <? 0) && (len (snd e) <=? MAX_PRIVATE_LABEL_BYTES).

Definition private_pair (e : Z * bytes) : Value * Value := (int_value (fst e), Bytes (snd e)).

Lemma private_pair_key e :
  private_ok e = true -> int_value (fst e) = Nint (-1 - fst e)
  /\ integer_label (int_value (fst e)) = Ok (fst e).
Proof.
  unfold private_ok, int_value, wrap64. intros H. width. bool_prop.
  replace (fst e <? 0) with true by lia. rewrite Z.mod_small by lia. split; [done|].
  cbn. width. replace (-1 - fst e <=? 9223372036854775807) with true by lia. f_equal. lia.
Qed.

Lemma private_not_uint l label :
  forallb private_ok l = true -> ~ In (Uint label) (map fst (map private_pair l)).
Proof.
  intros H Hin. rewrite map_map, in_map_iff in Hin. destruct Hin as (e & E & Hin).
  rewrite forallb_forall in H. destruct (private_pair_key e (H _ Hin)) as [E' _].
  cbn in E. congruence.
Qed.

Lemma collect_private_app kept l :
  forallb private_ok l = true -> len kept + len l <= MAX_PRIVATE_LABELS ->
  collect_private kept (map private_pair l) = kept ++ l.
Proof.
  revert kept. induction l as [|e l IH]; intros kept H Hl; cbn [map collect_private].
  - by rewrite app_nil_r.
  - cbn [forallb] in H. bool_prop. unfold private_pair at 1.
    destruct (private_pair_key e) as [_ ->]; [done|].
    match goal with H : private_ok _ = true |- _ => unfold private_ok in H end.
    rewrite len_cons in Hl. pose proof (len_nonneg l). bool_prop.
    replace (0 <=? fst e) with false by lia.
    replace (MAX_PRIVATE_LABEL_BYTES <? len (snd e)) with false by lia. cbn [orb].
    replace (MAX_PRIVATE_LABELS <=? len kept) with false by lia.
    rewrite IH; [|done|rewrite len_app, len_cons, len_nil; lia].
    destruct e. by rewrite <- app_assoc.
Qed.

(** ** Certificate chains keep their value *)

Lemma check_values_map l total :
  check_certificate_values (map Bytes l) total = check_certificate_sizes l total.
Proof.
  revert total. induction l as [|c l IH]; intros total; [done|]. cbn.
  by destruct (check_certificate_size c total).
Qed.

Lemma collect_map l : collect_certificates (map Bytes l) = Ok l.
Proof. induction l as [|c l IH]; [done|]. cbn. by rewrite IH. Qed.

Lemma x5chain_round_trip c :
  validate c = Ok tt -> x5chain_from_value (x5chain_to_value c) = Ok c.
Proof.
  destruct c as [c|l]; cbn.
  - by destruct (check_certificate_size c 0).
  - unfold len. rewrite length_map. destruct (chain_count_ok _); [|done]. cbn.
    rewrite check_values_map. intros ->. by rewrite collect_map.
Qed.

(** What [check_certificate_sizes] bounds. *)
Lemma check_sizes_bound l total :
  check_certificate_sizes l total = Ok tt -> total <= MAX_X5CHAIN_TOTAL_BYTES ->
  total + len (concat l) <= MAX_X5CHAIN_TOTAL_BYTES
  /\ Forall (fun c => 1 <= len c <= MAX_X5CHAIN_CERTIFICATE_BYTES) l.
Proof.
  revert total. induction l as [|c l IH]; intros total H Ht; cbn [concat].
  - rewrite len_nil. split; [lia|constructor].
  - cbn in H. destruct (check_certificate_size c total) as [t|] eqn:E; [|done].
    unfold check_certificate_size, checked_u64 in E. repeat case_match; simplify_eq. bool_prop.
    destruct (IH _ H) as [Hs Hf]; [lia|]. rewrite len_app. split; [lia|].
    constructor; [|done]. destruct c; [done|]. rewrite len_cons in *.
    pose proof (len_nonneg c). lia.
Qed.

(** ** Unprotected headers keep their value *)

Definition header_ok (u : UnprotectedHeader) : Prop :=
  match u_x5chain u with Some c => validate c = Ok tt | None => True end
  /\ forallb private_ok (private_labels u) = true
  /\ List.NoDup (map fst (private_labels u))
  /\ len (private_labels u) <= MAX_PRIVATE_LABELS.

Lemma unprotected_pairs_private u :
  unprotected_pairs u =
  match u_kid u with Some kid => [(Uint LABEL_KID, Bytes kid)] | None => [] end
  ++ match u_x5chain u with
     | Some c => [(Uint LABEL_X5CHAIN, x5chain_to_value c)] | None => [] end
  ++ map private_pair (private_labels u).
Proof. unfold unprotected_pairs. do 2 f_equal. apply map_ext. by intros []. Qed.

Lemma NoDup_private l :
  forallb private_ok l = true -> List.NoDup (map fst l) ->
  List.NoDup (map fst (map private_pair l)).
Proof.
  intros Hp Hn. rewrite map_map. induction l as [|e l IH]; [constructor|]. cbn in *.
  bool_prop. apply List.NoDup_cons_iff in Hn as [Hin Hn].
  constructor; [|by apply IH]. intros Hx. apply Hin.
  apply in_map_iff in Hx as (e' & E & Hin'). apply in_map_iff. exists e'. split; [|done].
  match goal with H : forallb _ _ = true |- _ => rewrite forallb_forall in H; specialize (H _ Hin') end.
  destruct (private_pair_key e) as [E1 _]; [done|]. destruct (private_pair_key e') as [E2 _]; [done|].
  rewrite E1, E2 in E. injection E. lia.
Qed.

Lemma parse_unprotected_pairs u :
  header_ok u -> parse_unprotected_header (Map (unprotected_pairs u)) = Ok u.
Proof.
  intros (Hx & Hp & Hn & Hl). unfold parse_unprotected_header.
  pose proof (NoDup_private _ Hp Hn) as Hnd.
  pose proof (fun n => private_not_uint _ n Hp) as Hu.
  pose proof (collect_private_app [] _ Hp Hl) as Hc. rewrite app_nil_l in Hc.
  rewrite unprotected_pairs_private. destruct u as [kid x ps]; cbn [u_kid u_x5chain private_labels] in *.
  match goal with |- context [check_unique_header_labels ?l] =>
    assert (check_unique_header_labels l = Ok tt) as ->
  end.
  { apply check_unique_Ok. destruct kid, x; cbn; rewrite ?List.NoDup_cons_iff; cbn;
      intuition (try discriminate); by eapply Hu. }
  unfold kid_of, x5chain_of. rewrite !header_value_app.
  rewrite (header_value_notin (map private_pair ps) LABEL_ALG),
    (header_value_notin (map private_pair ps) LABEL_CRIT),
    (header_value_notin (map private_pair ps) LABEL_KID),
    (header_value_notin (map private_pair ps) LABEL_X5CHAIN) by apply Hu.
  destruct kid as [kid|], x as [c|]; cbn -[x5chain_from_value collect_private];
    rewrite ?x5chain_round_trip by done; cbn [collect_private integer_label] in *;
    try (destruct c; cbn [x5chain_to_value]); by rewrite Hc.
Qed.

(** Entries the loop keeps, given that the header's integers are 64-bit. *)
Lemma integer_label_private k label :
  typed k = true -> integer_label k = Ok label -> label < 0 ->
  I64_MIN <= label /\ k = Nint (-1 - label).
Proof.
  destruct k; cbn; try done; intros Ht H Hl; repeat case_match; simplify_eq; width; bool_prop.
  - lia.
  - split; [lia|]. f_equal. lia.
Qed.

Lemma collect_private_inv pairs kept :
  forallb (fun '(k, v) => typed k && typed v) pairs = true ->
  List.NoDup (map fst pairs) ->
  (forall e, In e kept -> ~ In (Nint (-1 - fst e)) (map fst pairs)) ->
  forallb private_ok kept = true -> List.NoDup (map fst kept) ->
  len kept <= MAX_PRIVATE_LABELS ->
  let r := collect_private kept pairs in
  forallb private_ok r = true /\ List.NoDup (map fst r) /\ len r <= MAX_PRIVATE_LABELS.
Proof.
  revert kept. induction pairs as [|[k v] pairs IH]; intros kept Ht Hn Hd Hp Hk Hl; [done|].
  cbn [forallb map fst] in *. apply List.NoDup_cons_iff in Hn as [Hnk Hn]. bool_prop.
  assert (forall e, In e kept -> ~ In (Nint (-1 - fst e)) (map fst pairs)) as Hd'.
  { intros e He Hin. eapply Hd; [done|]. by right. }
  cbn [collect_private]. repeat (case_match; try (by apply IH)); bool_prop; [done|].
  destruct (integer_label_private k a) as [Hm ->]; [done..|].
  apply IH; [done|done| | | |].
  - intros e He. apply in_app_iff in He as [He|[<-|[]]]; [by apply Hd'|]. done.
  - rewrite forallb_app, Hp. cbn. unfold private_ok. cbn. lia.
  - rewrite map_app. cbn. apply List.NoDup_app; [done|repeat constructor; auto|].
    intros z Hz [<-|[]]. apply in_map_iff in Hz as (e & <- & He).
    eapply Hd; [done|]. by left.
  - rewrite len_app, len_cons, len_nil. lia.
Qed.

Lemma parse_unprotected_ok v u :
  typed v = true -> parse_unprotected_header v = Ok u ->
  forallb private_ok (private_labels u) = true /\ List.NoDup (map fst (private_labels u))
  /\ len (private_labels u) <= MAX_PRIVATE_LABELS.
Proof.
  destruct v as [n|n|b|s|l|pairs|t w|b|]; try done. unfold parse_unprotected_header.
  cbn [typed]. intros Ht H. bool_prop.
  destruct (check_unique_header_labels pairs) as [[]|] eqn:Eu; [|done].
  apply check_unique_Ok in Eu. case_match; [done|].
  destruct (kid_of pairs); [|done]. destruct (x5chain_of pairs); [|done]. injection H as <-.
  apply collect_private_inv; try done. constructor.
Qed.

Lemma collisions_validate h u :
  check_header_collisions h u = Ok tt ->
  match u_x5chain u with Some c => validate c = Ok tt | None => True end.
Proof.
  unfold check_header_collisions. case_match; [done|]. destruct (u_x5chain u); [|done].
  by destruct (validate x) as [[]|].
Qed.

Lemma sign1_from_value_Ok v m :
  sign1_from_value v = Ok m ->
  exists h i1,
    parse_and_check_protected_header (protected m) = Ok h
    /\ parse_unprotected_header i1 = Ok (unprotected m)
    /\ check_header_collisions h (unprotected m) = Ok tt
    /\ (exists i0 i2 i3, v = Array [i0; i1; i2; i3]).
Proof.
  unfold sign1_from_value. intros H. repeat case_match; simplify_eq; cbn;
    repeat match goal with u : unit |- _ => destruct u end; eauto 12.
Qed.

Lemma sign1_to_value_parses m h :
  parse_and_check_protected_header (protected m) = Ok h ->
  check_header_collisions h (unprotected m) = Ok tt ->
  header_ok (unprotected m) ->
  sign1_from_value (sign1_to_value m) = Ok m.
Proof.
  intros Hh Hc Hu. unfold sign1_from_value, sign1_to_value.
  rewrite Hh, parse_unprotected_pairs, Hc by done. destruct m as [p u [pl|] s]; done.
Qed.

Lemma sign1_reparse v m :
  typed v = true -> sign1_from_value v = Ok m -> sign1_from_value (sign1_to_value m) = Ok m.
Proof.
  intros Ht H. apply sign1_from_value_Ok in H as (h & i1 & Hh & Hu & Hc & i0 & i2 & i3 & ->).
  cbn in Ht. bool_prop. eapply sign1_to_value_parses; [done..|].
  split; [by eapply collisions_validate|]. by apply (parse_unprotected_ok i1).
Qed.

(** ** Critical headers *)

(** A label the profile implements, present in the header. *)
Definition understood (pairs : list (Value * Value)) (item : Value) : Prop :=
  exists lbl, integer_label item = Ok lbl
  /\ (lbl = LABEL_ALG \/ lbl = LABEL_KID \/ lbl = LABEL_X5CHAIN) /\ has_key pairs item = true.

Lemma existsb_value_eqb x l : existsb (value_eqb x) l = true <-> In x l.
Proof.
  rewrite existsb_exists. split.
  - intros (y & Hy & E). by apply value_eqb_eq in E as ->.
  - intros H. exists x. by rewrite value_eqb_refl.
Qed.

Lemma check_crit_Ok pairs seen items :
  check_crit pairs seen items = Ok tt ->
  Forall (understood pairs) items /\ List.NoDup items /\ (forall i, In i items -> ~ In i seen).
Proof.
  revert seen. induction items as [|item items IH]; intros seen; cbn [check_crit].
  - intros _. split_and!; [constructor|constructor|by intros i []].
  - destruct (integer_label item) as [lbl|] eqn:El; [|done].
    destruct (lbl =? LABEL_CRIT) eqn:Ec; [done|]. case_match eqn:Ek; [done|].
    destruct (existsb (value_eqb item) seen || negb (has_key pairs item)) eqn:E; [done|].
    intros H. apply orb_false_iff in E as [E1 E2]. bool_prop.
    apply IH in H as (Hf & Hn & Hd).
    assert (~ In item seen) as Hs by (rewrite <- existsb_value_eqb; congruence).
    split_and!.
    + constructor; [|done]. exists lbl. split_and!; [done| |done].
      destruct (lbl =? LABEL_ALG) eqn:E3, (lbl =? LABEL_KID) eqn:E4,
        (lbl =? LABEL_X5CHAIN) eqn:E5; try done; bool_prop; auto.
    + constructor; [|done]. intros Hin. eapply Hd; [done|]. apply in_app_iff. right. by left.
    + intros i [<-|Hi]; [done|]. intros Hin. eapply Hd; [done|]. apply in_app_iff. by left.
Qed.

(** What [crit] may say in an accepted header. *)
Definition crit_ok (pairs : list (Value * Value)) : Prop :=
  forall crit, header_value pairs LABEL_CRIT = Some crit ->
    exists items, crit = Array items /\ items <> []
    /\ Forall (understood pairs) items /\ List.NoDup items.

Lemma protected_header_crit p h :
  parse_and_check_protected_header p = Ok h ->
  exists pairs, from_canonical_slice p = Ok (Map pairs) /\ crit_ok pairs.
Proof.
  unfold parse_and_check_protected_header. generalize (from_canonical_slice p) as r.
  intros [v|e]; [|done]. unfold map_err.
  destruct v as [| | | | |pairs| | |]; try done. intros Hh. exists pairs. split; [done|].
  intros crit Hcrit. rewrite Hcrit in Hh.
  destruct (check_unique_header_labels pairs); [|done].
  destruct crit as [| | | |items| | | |]; try done. exists items.
  destruct items as [|i items]; [done|]. unfold is_empty in Hh.
  destruct (check_crit pairs [] (i :: items)) as [[]|] eqn:Ei; [|done].
  apply check_crit_Ok in Ei as (Hf & Hn & _). done.
Qed.

(** ** Properties *)

(** The signed bytes determine what was signed: two [Sig_structure]s are
    equal only for equal protected headers, external data and payloads. *)
Theorem sig_structure_injective (p a b p' a' b' : bytes) :
  forallb rust_vec [p; a; b; p'; a'; b'] = true ->
  sig_structure p a b = sig_structure p' a' b' -> p = p' /\ a = a' /\ b = b'.
Proof. cbn. intros H. bool_prop. by apply sig_structure_inj. Qed.

Lemma sig_structure_injective_witness :
  @nil byte = [] /\ [Byte.x01] = [Byte.x01] /\ [Byte.x02] = [Byte.x02].
Proof.
  apply (sig_structure_injective [] [Byte.x01] [Byte.x02] [] [Byte.x01] [Byte.x02]); reflexivity.
Defined.

(** A message that [CoseSign1::sign] returns verifies, with the same
    algorithm and external data and no detached payload, under every verifier
    that accepts the signer's signatures. *)
Theorem cose_sign_verifies `{Signer} `{Verifier} (key : KeyRef) (alg : Alg)
    (pl aad pk : bytes) (u : UnprotectedHeader) (m : CoseSign1) :
  (forall a msg s, sign key a msg = Ok s -> verify a pk msg s = Ok tt) ->
  cose_sign key alg pl aad u = Ok m ->
  cose_verify m alg pk aad None = Ok tt.
Proof.
  intros Hsv Hs. apply cose_sign_Ok in Hs as (sig & Es & -> & Hc). unfold cose_verify.
  cbn [protected unprotected payload signature].
  rewrite parse_encode_protected_header, Hc. cbn [p_alg].
  rewrite bool_decide_eq_true_2 by done. cbn [negb]. by rewrite (Hsv _ _ _ Es).
Qed.

Lemma cose_sign_verifies_witness :
  exists m, @cose_sign Samples.echo_signer {| key_ref_name := "k" |} Es256 [Byte.x01] []
              default_unprotected = Ok m
  /\ @cose_verify Samples.echo_verifier m Es256 [] [] None = Ok tt.
Proof.
  eexists. split; [vm_compute; reflexivity|].
  apply (@cose_sign_verifies Samples.echo_signer Samples.echo_verifier
    {| key_ref_name := "k" |} Es256 [Byte.x01] [] [] default_unprotected).
  - intros a msg s [= <-]. cbn. by rewrite bool_decide_eq_true_2.
  - vm_compute. reflexivity.
Defined.

(** Verification is fail closed.  When [CoseSign1::verify] succeeds, the
    protected header parsed, names the expected algorithm, and lists as
    critical only labels the profile implements that are present and distinct;
    no parameter is in both headers; exactly one of the attached and the
    detached payload was given; and the verifier accepted the signature over
    the [Sig_structure] of exactly the received protected bytes, the external
    data and that payload. *)
Theorem cose_verify_sound `{Verifier} (m : CoseSign1) (alg : Alg) (pk aad : bytes)
    (detached : option bytes) :
  cose_verify m alg pk aad detached = Ok tt ->
  exists h pl pairs,
    parse_and_check_protected_header (protected m) = Ok h
    /\ from_canonical_slice (protected m) = Ok (Map pairs)
    /\ p_alg h = alg
    /\ crit_ok pairs
    /\ (is_some (p_kid h) && is_some (u_kid (unprotected m))) = false
    /\ (is_some (p_x5chain h) && is_some (u_x5chain (unprotected m))) = false
    /\ (payload m = Some pl /\ detached = None \/ payload m = None /\ detached = Some pl)
    /\ verify alg pk (sig_structure (protected m) aad pl) (signature m) = Ok tt.
Proof.
  intros Hv. apply cose_verify_Ok in Hv as (h & pl & Hh & Ha & Hc & Hp & Hv).
  destruct (protected_header_crit _ _ Hh) as (pairs & Hpairs & Hcrit).
  unfold check_header_collisions in Hc. case_match eqn:Ecol; [done|].
  apply orb_false_iff in Ecol as [Ek Ex]. exists h, pl, pairs. split_and!; assumption.
Qed.

Lemma cose_verify_sound_witness :
  exists h pl pairs,
    parse_and_check_protected_header (encode_protected_header EdDsa) = Ok h
    /\ from_canonical_slice (encode_protected_header EdDsa) = Ok (Map pairs)
    /\ p_alg h = EdDsa
    /\ crit_ok pairs
    /\ (is_some (p_kid h) && false) = false
    /\ (is_some (p_x5chain h) && false) = false
    /\ (None = Some pl /\ Some [Byte.x07] = None \/ @None bytes = None /\ Some [Byte.x07] = Some pl)
    /\ @verify Samples.echo_verifier EdDsa [] (sig_structure (encode_protected_header EdDsa) [] pl)
         (sig_structure (encode_protected_header EdDsa) [] [Byte.x07]) = Ok tt.
Proof.
  apply (@cose_verify_sound Samples.echo_verifier
    {| protected := encode_protected_header EdDsa; unprotected := default_unprotected;
       payload := None;
       signature := sig_structure (encode_protected_header EdDsa) [] [Byte.x07] |}
    EdDsa [] [] (Some [Byte.x07])).
  vm_compute. reflexivity.
Defined.

(** Re-encoding a parsed message changes nothing: for every CBOR value that
    parses as a COSE_Sign1, parsing [to_value] of the result gives the result
    again, its key id, its certificate chain and its retained private-use
    labels included. *)
Theorem sign1_reencode_stable (v : Value) (m : CoseSign1) :
  typed v = true -> sign1_from_value v = Ok m ->
  sign1_from_value (sign1_to_value m) = Ok m.
Proof. apply sign1_reparse. Qed.

Lemma sign1_reencode_stable_witness :
  let m := {| protected := encode_protected_header Es256;
              unprotected := {| u_kid := Some [Byte.x09]; u_x5chain := Some (Single [Byte.x30]);
                                private_labels := [(-70001, [Byte.x05])] |};
              payload := Some []; signature := [Byte.x01] |} in
  sign1_from_value (sign1_to_value m) = Ok m.
Proof.
  intros m. apply (sign1_reencode_stable
    (Array [Bytes (encode_protected_header Es256);
            Map [(Nint 70000, Bytes [Byte.x05]); (Text "x", Null); (Uint 33, Bytes [Byte.x30]);
                 (Uint 4, Bytes [Byte.x09])];
            Bytes []; Bytes [Byte.x01]]) m); vm_compute; reflexivity.
Defined.
