(* ===== verification/BTree.v ===== *)
(** * Ordered maps

    [std::collections::BTreeMap] as the list of its entries in ascending key
    order, which is the order Rust iterates it in: lookup, insertion, the
    invariant, and extensionality.  [OrdKey] is the interface of the keys. *)

From Stdlib Require Import Sorted Permutation.
From S2P Require Import Prelude.

Class OrdKey (K : Type) : Type := {
  key_cmp : K -> K -> comparison;
  key_cmp_eq : forall a b, key_cmp a b = Eq <-> a = b;
  key_cmp_antisym : forall a b, key_cmp a b = CompOpp (key_cmp b a);
  key_cmp_trans : forall a b c, key_cmp a b = Lt -> key_cmp b c = Lt -> key_cmp a c = Lt;
}.

(** [Ord] of [String] is bytewise, of [u64] numeric. *)
#[export] Instance string_key : OrdKey string.
Proof.
  refine {| key_cmp := fun a b => bytes_cmp (as_bytes a) (as_bytes b) |}.
  - intros a b. rewrite bytes_cmp_eq. split; [apply as_bytes_inj|by intros ->].
  - intros a b. apply bytes_cmp_antisym.
  - intros a b c. apply bytes_cmp_trans.
Defined.

#[export] Instance int_key : OrdKey Z.
Proof.
  refine {| key_cmp := Z.compare |}.
  - apply Z.compare_eq_iff.
  - intros a b. apply Z.compare_antisym.
  - intros a b c. rewrite !Z.compare_lt_iff. apply Z.lt_trans.
Defined.

Definition BTreeMap (K V : Type) : Type := list (K * V).

Section btree.
Context {K V : Type} {OK : OrdKey K}.
Implicit Types (m l : BTreeMap K V) (k : K) (v : V).

Fixpoint bt_get m k : option V :=
  match m with
  | [] => None
  | (k', v) :: m => match key_cmp k k' with Eq => Some v | _ => bt_get m k end
  end.

Fixpoint bt_insert k v m : BTreeMap K V :=
  match m with
  | [] => [(k, v)]
  | (k', v') :: m' =>
      match key_cmp k k' with
      | Lt => (k, v) :: (k', v') :: m'
      | Eq => (k, v) :: m'
      | Gt => (k', v') :: bt_insert k v m'
      end
  end.

(** [BTreeMap::remove]: the map that is left. *)
Fixpoint bt_remove k m : BTreeMap K V :=
  match m with
  | [] => []
  | (k', v) :: m' =>
      match key_cmp k k' with Eq => m' | _ => (k', v) :: bt_remove k m' end
  end.

Definition bt_contains m k : bool := is_some (bt_get m k).

(** Inserting entries from the left, as a loop does. *)
Definition bt_extend m l : BTreeMap K V := fold_left (fun m '(k, v) => bt_insert k v m) l m.

Definition key_lt (a b : K * V) : Prop := key_cmp (fst a) (fst b) = Lt.

Definition bt_ok m : Prop := StronglySorted key_lt m.

Lemma key_cmp_refl k : key_cmp k k = Eq.
Proof. by apply key_cmp_eq. Qed.

Lemma key_cmp_Gt a b : key_cmp a b = Gt <-> key_cmp b a = Lt.
Proof. rewrite (key_cmp_antisym a b). destruct (key_cmp b a); cbn; split; congruence. Qed.

Lemma insert_entry k v m e : In e (bt_insert k v m) -> e = (k, v) \/ In e m.
Proof.
  induction m as [|[k' v'] m IH]; cbn; [by intros [<-|[]]; left|].
  destruct (key_cmp k k'); cbn; [intros [<-|?]; auto|intros [<-|?]; auto|intros [<-|?]; [auto|]].
  destruct IH; auto.
Qed.

Lemma bt_insert_ok k v m : bt_ok m -> bt_ok (bt_insert k v m).
Proof.
  unfold bt_ok. induction 1 as [|[k' v'] m Hm IH Hx]; cbn; [by repeat constructor|].
  rewrite List.Forall_forall in Hx. destruct (key_cmp k k') eqn:E.
  - apply key_cmp_eq in E as ->. constructor; [done|]. by apply List.Forall_forall.
  - constructor; [by constructor; [|apply List.Forall_forall]|]. apply List.Forall_forall.
    intros e [<-|He]; [done|]. specialize (Hx e He). unfold key_lt in *. cbn in *.
    by apply (key_cmp_trans _ k').
  - constructor; [done|]. apply List.Forall_forall. intros e [->|He]%insert_entry; [|auto].
    by apply key_cmp_Gt.
Qed.

Lemma bt_get_insert k v m k' :
  bt_get (bt_insert k v m) k' = match key_cmp k' k with Eq => Some v | _ => bt_get m k' end.
Proof.
  induction m as [|[a b] m IH]; cbn; [done|]. destruct (key_cmp k a) eqn:E; cbn.
  - apply key_cmp_eq in E as ->. by destruct (key_cmp k' a).
  - done.
  - rewrite IH. destruct (key_cmp k' a) eqn:E'; try done. apply key_cmp_eq in E' as ->.
    destruct (key_cmp a k) eqn:E'; try done. apply key_cmp_eq in E' as ->.
    by rewrite key_cmp_refl in E.
Qed.

Lemma bt_remove_In k m e : In e (bt_remove k m) -> In e m.
Proof.
  induction m as [|[a b] m IH]; cbn; [done|]. destruct (key_cmp k a); cbn; intuition.
Qed.

Lemma bt_remove_ok k m : bt_ok m -> bt_ok (bt_remove k m).
Proof.
  unfold bt_ok. induction 1 as [|[a b] m Hm IH Hx]; cbn; [constructor|].
  destruct (key_cmp k a); [done|constructor; [done|]..].
  all: rewrite List.Forall_forall in *; intros e He%bt_remove_In; auto.
Qed.

Lemma bt_get_lt m k : List.Forall (fun e => key_cmp k (fst e) = Lt) m -> bt_get m k = None.
Proof. induction 1 as [|[a b] m Ha _ IH]; cbn in *; [done|]. by rewrite Ha. Qed.

Lemma bt_get_remove k m k' :
  bt_ok m -> bt_get (bt_remove k m) k' = match key_cmp k' k with Eq => None | _ => bt_get m k' end.
Proof.
  unfold bt_ok. induction 1 as [|[a b] m Hm IH Hx]; cbn; [by destruct (key_cmp k' k)|].
  destruct (key_cmp k a) eqn:E; cbn.
  - apply key_cmp_eq in E as ->. destruct (key_cmp k' a) eqn:E'; [|done..].
    apply key_cmp_eq in E' as ->. by apply bt_get_lt.
  - rewrite IH. destruct (key_cmp k' a) eqn:E'; [|done..]. apply key_cmp_eq in E' as ->.
    destruct (key_cmp a k) eqn:E'; [|done..]. apply key_cmp_eq in E' as ->.
    by rewrite key_cmp_refl in E.
  - rewrite IH. destruct (key_cmp k' a) eqn:E'; [|done..]. apply key_cmp_eq in E' as ->.
    destruct (key_cmp a k) eqn:E'; [|done..]. apply key_cmp_eq in E' as ->.
    by rewrite key_cmp_refl in E.
Qed.

Lemma bt_insert_length k v m :
  bt_ok m -> length (bt_insert k v m) = if bt_contains m k then length m else S (length m).
Proof.
  unfold bt_contains, bt_ok. induction 1 as [|[a b] m Hm IH Hx]; cbn; [done|].
  destruct (key_cmp k a) eqn:E; cbn; [done| |rewrite IH; by destruct (bt_get m k)].
  rewrite bt_get_lt; [done|]. eapply List.Forall_impl; [|exact Hx]. intros e He.
  by apply (key_cmp_trans _ a).
Qed.

Lemma bt_extend_ok m l : bt_ok m -> bt_ok (bt_extend m l).
Proof.
  revert m. induction l as [|[k v] l IH]; intros m Hm; cbn; [done|]. by apply IH, bt_insert_ok.
Qed.

Lemma bt_get_In m k v : bt_ok m -> bt_get m k = Some v <-> In (k, v) m.
Proof.
  induction 1 as [|[a b] m Hm IH Hx]; cbn; [split; [done|tauto]|].
  rewrite List.Forall_forall in Hx. destruct (key_cmp k a) eqn:E.
  - apply key_cmp_eq in E as ->. split; [intros [= ->]; auto|]. intros [[= ->]|H]; [done|].
    specialize (Hx _ H). unfold key_lt in Hx. cbn in Hx. by rewrite key_cmp_refl in Hx.
  - rewrite IH. split; [auto|]. intros [[= -> ->]|H]; [|done]. by rewrite key_cmp_refl in E.
  - rewrite IH. split; [auto|]. intros [[= -> ->]|H]; [|done]. by rewrite key_cmp_refl in E.
Qed.

(** Maps with the same entries are the same map. *)
Lemma bt_ext m n : bt_ok m -> bt_ok n -> (forall e, In e m <-> In e n) -> m = n.
Proof.
  intros Hm. revert n. induction Hm as [|x m Hm IH Hx]; intros n Hn He.
  - destruct n as [|y n]; [done|]. by destruct (proj2 (He y) (or_introl eq_refl)).
  - destruct Hn as [|y n Hn Hy]; [by destruct (proj1 (He x) (or_introl eq_refl))|].
    rewrite List.Forall_forall in Hx, Hy.
    assert (forall a b, key_lt a b -> key_lt b a -> False) as Hasym.
    { unfold key_lt. intros a b H1 H2%key_cmp_Gt. congruence. }
    assert (forall a, key_lt a a -> False) as Hirr by eauto.
    assert (x = y) as ->.
    { destruct (proj1 (He x) (or_introl eq_refl)) as [->|H1]; [done|].
      destruct (proj2 (He y) (or_introl eq_refl)) as [->|H2]; [done|].
      exfalso. eauto. }
    f_equal. apply IH; [done|]. intros e. split; intros H.
    + destruct (proj1 (He e) (or_intror H)) as [<-|]; [|done]. exfalso. eauto.
    + destruct (proj2 (He e) (or_intror H)) as [<-|]; [|done]. exfalso. eauto.
Qed.

Lemma bt_get_extend m l k :
  List.NoDup (map fst l) ->
  bt_get (bt_extend m l) k = match find (fun e => bool_decide (key_cmp k (fst e) = Eq)) l with
                             | Some (_, v) => Some v
                             | None => bt_get m k
                             end.
Proof.
  unfold bt_extend. revert m. induction l as [|[a b] l IH]; intros m Hd; cbn; [done|].
  cbn in Hd. inversion Hd as [|? ? Ha Hd']; subst. rewrite IH by done. rewrite bt_get_insert.
  case_bool_decide as E.
  - apply key_cmp_eq in E as ->. destruct (find _ l) as [[c d]|] eqn:Ef.
    + apply find_some in Ef as [Hin Hc]. apply bool_decide_eq_true, key_cmp_eq in Hc. cbn in Hc. subst c.
      destruct Ha. by apply (in_map fst) in Hin.
    + by rewrite key_cmp_refl.
  - destruct (find _ l) as [[c d]|]; [done|]. by destruct (key_cmp k a).
Qed.

Lemma keys_functional l k v w :
  List.NoDup (map fst l) -> In (k, v) l -> In (k, w) l -> v = w.
Proof.
  induction l as [|[a b] l IH]; cbn; intros Hd Hv Hw; [done|].
  inversion Hd as [|? ? Ha Hd']; subst.
  destruct Hv as [Ev|Hv], Hw as [Ew|Hw]; simplify_eq; [done|..|by apply IH].
  - destruct Ha. by apply (in_map fst) in Hw.
  - destruct Ha. by apply (in_map fst) in Hv.
Qed.

(** Reading the entries of a map back, in any order. *)
Lemma bt_extend_perm m l : bt_ok m -> Permutation l m -> bt_extend [] l = m.
Proof.
  intros Hm Hp. assert (bt_ok (bt_extend [] l)) as Hl by (apply bt_extend_ok; constructor).
  assert (List.NoDup (map fst m)) as Hd.
  { clear Hp. induction Hm as [|[a b] m Hm IH Hx]; cbn; constructor; [|done].
    rewrite List.Forall_forall in Hx. intros (e & Hf & He)%in_map_iff. specialize (Hx e He).
    unfold key_lt in Hx. cbn in Hx. rewrite Hf, key_cmp_refl in Hx. done. }
  assert (List.NoDup (map fst l)) as Hdl.
  { apply (Permutation_NoDup (l := map fst m)); [|done]. by apply Permutation_map, Permutation_sym. }
  apply bt_ext; [done|done|]. intros [k v]. rewrite <- bt_get_In by done.
  rewrite bt_get_extend by done. split.
  - destruct (find _ l) as [[c d]|] eqn:Ef; [|done]. intros [= ->].
    apply find_some in Ef as [Hin Hc]. apply bool_decide_eq_true, key_cmp_eq in Hc. cbn in Hc. subst c.
    by apply (Permutation_in _ Hp).
  - intros Hin. apply (Permutation_in _ (Permutation_sym Hp)) in Hin.
    destruct (find _ l) as [[c d]|] eqn:Ef.
    + apply find_some in Ef as [Hin' Hc]. apply bool_decide_eq_true, key_cmp_eq in Hc. cbn in Hc. subst c.
      f_equal. by apply (keys_functional l k d v).
    + eapply find_none in Ef; [|exact Hin]. cbn in Ef. by rewrite key_cmp_refl in Ef.
Qed.
End btree.

(** Mapping the values keeps the order. *)
Lemma bt_ok_map {K V W} {OK : OrdKey K} (f : V -> W) (m : BTreeMap K V) :
  bt_ok m -> bt_ok (map (fun '(k, v) => (k, f v)) m).
Proof.
  unfold bt_ok. induction 1 as [|[a b] m Hm IH Hx]; cbn; constructor; [done|].
  rewrite List.Forall_forall in *. intros e ([c d] & <- & Hin)%in_map_iff. by specialize (Hx _ Hin).
Qed.

(** ** [slice::sort]

    The order of the keys is total and equal keys are the same key, so every
    sorting algorithm returns the list that insertion returns. *)
Section sort.
Context {K : Type} {OK : OrdKey K}.
Implicit Types (l : list K) (k : K).

Fixpoint sort_insert k l : list K :=
  match l with
  | [] => [k]
  | k' :: l' => match key_cmp k k' with Gt => k' :: sort_insert k l' | _ => k :: l end
  end.

Definition key_sort l : list K := fold_right sort_insert [] l.

Definition key_le (a b : K) : Prop := key_cmp a b <> Gt.

Lemma key_le_trans a b c : key_le a b -> key_le b c -> key_le a c.
Proof.
  unfold key_le. intros Hab Hbc Hac. apply key_cmp_Gt in Hac.
  destruct (key_cmp a b) eqn:E; [|  |done].
  - apply key_cmp_eq in E as ->. by apply key_cmp_Gt in Hac.
  - by apply Hbc, key_cmp_Gt, (key_cmp_trans _ a).
Qed.

Lemma sort_insert_perm k l : Permutation (sort_insert k l) (k :: l).
Proof.
  induction l as [|a l IH]; cbn; [done|]. destruct (key_cmp k a); [done|done|].
  rewrite IH. apply perm_swap.
Qed.

Lemma key_sort_perm l : Permutation (key_sort l) l.
Proof.
  induction l as [|a l IH]; [done|].
  change (Permutation (sort_insert a (key_sort l)) (a :: l)). by rewrite sort_insert_perm, IH.
Qed.

Lemma sort_insert_sorted k l : StronglySorted key_le l -> StronglySorted key_le (sort_insert k l).
Proof.
  induction 1 as [|a l Hl IH Ha]; cbn; [by repeat constructor|].
  destruct (key_cmp k a) eqn:E.
  1,2: assert (key_le k a) as Hka by (unfold key_le; congruence);
    constructor; [by constructor|]; constructor; [done|];
    eapply List.Forall_impl; [|exact Ha]; intros b; by apply key_le_trans.
  constructor; [done|]. apply key_cmp_Gt in E.
  apply (Permutation_Forall (Permutation_sym (sort_insert_perm k l))).
  constructor; [unfold key_le; congruence|done].
Qed.

Lemma key_sort_sorted l : StronglySorted key_le (key_sort l).
Proof. induction l; [constructor|]. by apply sort_insert_sorted. Qed.

(** Without repetitions the order is strict. *)
Lemma sorted_strict l :
  List.NoDup l -> StronglySorted key_le l -> StronglySorted (fun a b => key_cmp a b = Lt) l.
Proof.
  intros Hd Hs. induction Hs as [|a l Hl IH Ha]; inversion Hd; subst; constructor; [by apply IH|].
  rewrite List.Forall_forall in *. intros b Hb. specialize (Ha b Hb). unfold key_le in Ha.
  destruct (key_cmp a b) eqn:E; try done. apply key_cmp_eq in E. by subst.
Qed.

(** Sorting a list in order changes nothing. *)
Lemma key_sort_id l : StronglySorted key_le l -> key_sort l = l.
Proof.
  induction 1 as [|a l Hl IH Ha]; [done|].
  change (sort_insert a (key_sort l) = a :: l). rewrite IH. destruct Ha as [|b l Hb _]; cbn; [done|].
  unfold key_le in Hb. by destruct (key_cmp a b).
Qed.
End sort.
