(* ===== verification/Mdoc.v ===== *)
(** * The mdoc credential (crates/mdoc/src/lib.rs)

    ISO 18013-5 issuer-signed items, the mobile security object and its
    issuance and verification, dates, device authentication and the OpenID4VP
    session transcripts.  The theorems: a credential that was built verifies
    and gives back its security object; a verified credential's items are the
    ones the issuer signed, up to a digest collision; a session transcript is
    specific to its exchange. *)

From Stdlib Require Import Permutation.
From S2P Require Import Prelude Utf8 Cbor Boundary Cose BTree.

Open Scope Z_scope.
Open Scope rust_scope.

(** ** Data *)

(** [Digest32] is an array of 32 bytes. *)
Definition Digest32 : Type := bytes.

Inductive MdocError : Type :=
| MdocCose (e : CoseError)
| MdocCbor (e : CborError)
| Malformed (what : string)
| DigestMismatch.

Record TDate : Type := {
  unix_seconds : Z;
  fraction : list Z;
}.

Record IssuerSignedItem : Type := {
  digest_id : Z;
  random : bytes;
  element_id : string;
  element_value : Value;
}.

Record ValidityInfo : Type := {
  signed : string;
  valid_from : string;
  valid_until : string;
}.

Record MsoStatus : Type := {
  uri : string;
  index : Z;
}.

Record MobileSecurityObject : Type := {
  version : string;
  digest_algorithm : string;
  doc_type : string;
  value_digests : BTreeMap string (BTreeMap Z Digest32);
  device_key : Value;
  validity_info : ValidityInfo;
  status : option MsoStatus;
}.

Record IssuerSigned : Type := {
  name_spaces : BTreeMap string (list IssuerSignedItem);
  issuer_auth : CoseSign1;
}.

(** ** Reading fields of a decoded map *)

Definition key_is (key : string) (kv : Value * Value) : bool :=
  match fst kv with Text t => bool_decide (t = key) | _ => false end.

Definition map_get (pairs : list (Value * Value)) (key : string) : option Value :=
  option_map snd (find (key_is key) pairs).

Definition as_text (v : Value) (ctx : string) : result string MdocError :=
  match v with Text s => Ok s | _ => Err (Malformed ctx) end.

Definition value_bytes (v : Value) (ctx : string) : result bytes MdocError :=
  match v with Bytes b => Ok b | _ => Err (Malformed ctx) end.

Definition as_uint (v : Value) (ctx : string) : result Z MdocError :=
  match v with Uint n => Ok n | _ => Err (Malformed ctx) end.

(** [map_get(..).ok_or(Malformed(missing))?] followed by a reader. *)
Definition field (pairs : list (Value * Value)) (key missing : string) : result Value MdocError :=
  ok_or (map_get pairs key) (Malformed missing).

(** ** Dates *)

Definition digit (b : byte) : option Z :=
  if is_ascii_digit b then Some (byte.unsigned b - 48) else None.

Fixpoint fold_digits (n : Z) (l : bytes) : option Z :=
  match l with
  | [] => Some n
  | b :: l =>
      let! d := digit b in
      fold_digits (n * 10 + d) l
  end.

Definition digits (b : bytes) (start end_ : nat) : option Z :=
  if (end_ <=? length b)%nat then fold_digits 0 (take (end_ - start) (drop start b)) else None.

Definition byte_is (b : bytes) (i : nat) (c : byte) : bool := bool_decide (b !! i = Some c).

Definition leap_year (year : Z) : bool :=
  (Z.rem year 4 =? 0) && (negb (Z.rem year 100 =? 0) || (Z.rem year 400 =? 0)).

Definition month_days (year : Z) : list Z :=
  [31; if leap_year year then 29 else 28; 31; 30; 31; 30; 31; 31; 30; 31; 30; 31].

Definition date_in_range (year month day hour minute second : Z) : bool :=
  in_range 1 9999 year && in_range 1 12 month && negb (day <? 1)
  && negb (nth (Z.to_nat (month - 1)) (month_days year) 0 <? day)
  && negb (23 <? hour) && negb (59 <? minute) && negb (59 <? second).

Definition bool_int (b : bool) : Z := if b then 1 else 0.

(** Howard Hinnant's conversion; [/] truncates. *)
Definition days_from_civil (year month day : Z) : Z :=
  let adjusted_year := year - bool_int (month <=? 2) in
  let era := Z.quot adjusted_year 400 in
  let year_of_era := adjusted_year - era * 400 in
  let shifted_month := month + (if 2 <? month then -3 else 9) in
  let day_of_year := Z.quot (153 * shifted_month + 2) 5 + day - 1 in
  let day_of_era :=
    year_of_era * 365 + Z.quot year_of_era 4 - Z.quot year_of_era 100 + day_of_year in
  era * 146097 + day_of_era - 719468.

Fixpoint take_digits (l : bytes) : list Z * bytes :=
  match l with
  | [] => ([], [])
  | b :: r =>
      match digit b with
      | Some d => let '(ds, rest) := take_digits r in (d :: ds, rest)
      | None => ([], l)
      end
  end.

(** [while last() == Some(&0) pop()]. *)
Fixpoint drop_trailing_zeroes (l : list Z) : list Z :=
  match l with
  | [] => []
  | d :: l =>
      match drop_trailing_zeroes l with
      | [] => if d =? 0 then [] else [d]
      | r => d :: r
      end
  end.

(** The optional fraction of [bytes[19..]] and what follows it. *)
Definition parse_fraction (suffix : bytes) : option (list Z * bytes) :=
  match suffix with
  | Byte.x2e :: r =>
      let '(ds, rest) := take_digits r in
      if is_empty ds then None else Some (drop_trailing_zeroes ds, rest)
  | _ => Some ([], suffix)
  end.

Definition parse_offset (suffix : bytes) : option Z :=
  match suffix with
  | [Byte.x5a] => Some 0
  | sign :: r =>
      if (Byte.eqb sign Byte.x2b || Byte.eqb sign Byte.x2d) && (length suffix =? 6)%nat then
        if negb (byte_is suffix 3 Byte.x3a) then None
        else
          let! offset_hour := digits suffix 1 3 in
          let! offset_minute := digits suffix 4 6 in
          if (23 <? offset_hour) || (59 <? offset_minute) then None
          else if Byte.eqb sign Byte.x2d && (offset_hour =? 0) && (offset_minute =? 0) then None
          else
            let magnitude := offset_hour * 3600 + offset_minute * 60 in
            Some (if Byte.eqb sign Byte.x2b then magnitude else - magnitude)
      else None
  | [] => None
  end.

Definition tdate_parse (value : string) : option TDate :=
  let b := as_bytes value in
  if (length b <? 20)%nat || negb (byte_is b 4 Byte.x2d) || negb (byte_is b 7 Byte.x2d)
     || negb (byte_is b 10 Byte.x54) || negb (byte_is b 13 Byte.x3a) || negb (byte_is b 16 Byte.x3a)
  then None
  else
    let! year := digits b 0 4 in
    let! month := digits b 5 7 in
    let! day := digits b 8 10 in
    let! hour := digits b 11 13 in
    let! minute := digits b 14 16 in
    let! second := digits b 17 19 in
    if negb (date_in_range year month day hour minute second) then None
    else
      let! (fraction, suffix) := parse_fraction (drop 19 b) in
      let! offset_seconds := parse_offset suffix in
      let local_seconds :=
        days_from_civil year month day * 86400 + hour * 3600 + minute * 60 + second in
      Some {| unix_seconds := local_seconds - offset_seconds; fraction := fraction |}.

Definition from_unix_seconds (s : Z) : TDate := {| unix_seconds := s; fraction := [] |}.

Definition unix_seconds_ceil (d : TDate) : Z :=
  sat_i64 (unix_seconds d + bool_int (negb (is_empty (fraction d)))).

(** [Ord for TDate]: instants, then fractions padded with zeroes. *)
Fixpoint compare_fractions (n : nat) (a b : list Z) : comparison :=
  match n with
  | O => Eq
  | S n =>
      match Z.compare (hd 0 a) (hd 0 b) with
      | Eq => compare_fractions n (tl a) (tl b)
      | ordering => ordering
      end
  end.

Definition tdate_cmp (a b : TDate) : comparison :=
  match Z.compare (unix_seconds a) (unix_seconds b) with
  | Eq => compare_fractions (Nat.max (length (fraction a)) (length (fraction b)))
            (fraction a) (fraction b)
  | ordering => ordering
  end.

Definition tdate_value (value ctx : string) : result Value MdocError :=
  match tdate_parse value with
  | Some _ => Ok (Tag 0 (Text value))
  | None => Err (Malformed ctx)
  end.

Definition as_tdate (v : Value) (ctx : string) : result string MdocError :=
  match v with
  | Tag 0 (Text value) =>
      match tdate_parse value with Some _ => Ok value | None => Err (Malformed ctx) end
  | _ => Err (Malformed ctx)
  end.

(** ** Embedded CBOR *)

Definition tag24 (inner_canonical : bytes) : bytes := to_canonical (Tag 24 (Bytes inner_canonical)).

(** [from_canonical_slice(..)?] under [From<CborError>]. *)
Definition decode (b : bytes) : result Value MdocError := map_err (from_canonical_slice b) MdocCbor.

Definition untag24 (b : bytes) : result bytes MdocError :=
  let? v := decode b in
  match v with
  | Tag 24 (Bytes b) => Ok b
  | Tag 24 _ => Err (Malformed "tag24 content not a byte string")
  | _ => Err (Malformed "expected tag 24")
  end.

(** ** Issuer-signed items *)

Definition item_to_value (self : IssuerSignedItem) : Value :=
  Map [(Text "digestID", Uint (digest_id self));
       (Text "random", Bytes (random self));
       (Text "elementIdentifier", Text (element_id self));
       (Text "elementValue", element_value self)].

Definition item_from_value (v : Value) : result IssuerSignedItem MdocError :=
  match v with
  | Map pairs =>
      let? d := field pairs "digestID" "digestID" in
      let? digest_id := as_uint d "digestID" in
      let? r := field pairs "random" "random" in
      let? random := value_bytes r "random" in
      let? e := field pairs "elementIdentifier" "elementId" in
      let? element_id := as_text e "elementIdentifier" in
      let? element_value := field pairs "elementValue" "elementValue" in
      Ok {| digest_id := digest_id; random := random; element_id := element_id;
            element_value := element_value |}
  | _ => Err (Malformed "IssuerSignedItem not a map")
  end.

Definition to_item_bytes (self : IssuerSignedItem) : bytes := tag24 (to_canonical (item_to_value self)).

Definition from_item_bytes (b : bytes) : result IssuerSignedItem MdocError :=
  let? inner := untag24 b in
  let? v := decode inner in
  item_from_value v.

Definition item_digest `{Digest} (self : IssuerSignedItem) : Digest32 := sha256 (to_item_bytes self).

(** ** The mobile security object *)

Definition digests_value (m : BTreeMap Z Digest32) : Value :=
  Map (map (fun '(i, d) => (Uint i, Bytes d)) m).

Definition value_digests_value (m : BTreeMap string (BTreeMap Z Digest32)) : Value :=
  Map (map (fun '(ns, digests) => (Text ns, digests_value digests)) m).

Definition status_value (s : MsoStatus) : Value :=
  Map [(Text "status_list", Map [(Text "idx", Uint (index s)); (Text "uri", Text (uri s))])].

Definition mso_to_value (self : MobileSecurityObject) : result Value MdocError :=
  let? signed := tdate_value (signed (validity_info self)) "signed tdate" in
  let? from := tdate_value (valid_from (validity_info self)) "validFrom tdate" in
  let? until := tdate_value (valid_until (validity_info self)) "validUntil tdate" in
  Ok (Map ([(Text "version", Text (version self));
            (Text "digestAlgorithm", Text (digest_algorithm self));
            (Text "valueDigests", value_digests_value (value_digests self));
            (Text "deviceKeyInfo", Map [(Text "deviceKey", device_key self)]);
            (Text "docType", Text (doc_type self));
            (Text "validityInfo", Map [(Text "signed", signed); (Text "validFrom", from);
                                       (Text "validUntil", until)])]
           ++ match status self with
              | Some s => [(Text "status", status_value s)]
              | None => []
              end)).

Fixpoint read_digests (l : list (Value * Value)) (m : BTreeMap Z Digest32)
  : result (BTreeMap Z Digest32) MdocError :=
  match l with
  | [] => Ok m
  | (id_k, d_v) :: l =>
      let? i := as_uint id_k "digestID" in
      let? d := value_bytes d_v "digest" in
      if len d =? 32 then read_digests l (bt_insert i d m) else Err (Malformed "digest length")
  end.

Fixpoint read_value_digests (l : list (Value * Value)) (m : BTreeMap string (BTreeMap Z Digest32))
  : result (BTreeMap string (BTreeMap Z Digest32)) MdocError :=
  match l with
  | [] => Ok m
  | (ns_k, ns_v) :: l =>
      let? ns := as_text ns_k "namespace" in
      match ns_v with
      | Map digest_pairs =>
          let? digests := read_digests digest_pairs [] in
          read_value_digests l (bt_insert ns digests m)
      | _ => Err (Malformed "namespace not a map")
      end
  end.

Definition read_validity (pairs : list (Value * Value)) : result ValidityInfo MdocError :=
  match map_get pairs "validityInfo" with
  | Some (Map vi) =>
      let? s := field vi "signed" "signed tdate" in
      let? signed := as_tdate s "signed tdate" in
      let? f := field vi "validFrom" "validFrom tdate" in
      let? valid_from := as_tdate f "validFrom tdate" in
      let? u := field vi "validUntil" "validUntil tdate" in
      let? valid_until := as_tdate u "validUntil tdate" in
      Ok {| signed := signed; valid_from := valid_from; valid_until := valid_until |}
  | _ => Err (Malformed "validityInfo")
  end.

Definition read_status (pairs : list (Value * Value)) : result (option MsoStatus) MdocError :=
  match map_get pairs "status" with
  | None => Ok None
  | Some (Map status_pairs) =>
      match map_get status_pairs "status_list" with
      | Some (Map list_pairs) =>
          let? u := field list_pairs "uri" "status_list.uri" in
          let? uri := as_text u "status_list.uri" in
          let? i := field list_pairs "idx" "status_list.idx" in
          let? index := as_uint i "status_list.idx" in
          Ok (Some {| uri := uri; index := index |})
      | _ => Err (Malformed "status.status_list")
      end
  | Some _ => Err (Malformed "status not a map")
  end.

Definition read_device_key (pairs : list (Value * Value)) : Value :=
  match map_get pairs "deviceKeyInfo" with
  | Some (Map dki) => unwrap_or (map_get dki "deviceKey") Null
  | _ => Null
  end.

Definition mso_from_value (v : Value) : result MobileSecurityObject MdocError :=
  match v with
  | Map pairs =>
      let? vd_val := field pairs "valueDigests" "valueDigests" in
      match vd_val with
      | Map ns_pairs =>
          let? value_digests := read_value_digests ns_pairs [] in
          let device_key := read_device_key pairs in
          let? validity_info := read_validity pairs in
          let? status := read_status pairs in
          let? v := field pairs "version" "version" in
          let? version := as_text v "version" in
          let? a := field pairs "digestAlgorithm" "digestAlgorithm" in
          let? digest_algorithm := as_text a "digestAlgorithm" in
          let? t := field pairs "docType" "docType" in
          let? doc_type := as_text t "docType" in
          Ok {| version := version; digest_algorithm := digest_algorithm; doc_type := doc_type;
                value_digests := value_digests; device_key := device_key;
                validity_info := validity_info; status := status |}
      | _ => Err (Malformed "valueDigests not a map")
      end
  | _ => Err (Malformed "MSO not a map")
  end.

Definition to_mso_bytes (self : MobileSecurityObject) : result bytes MdocError :=
  let? v := mso_to_value self in
  Ok (tag24 (to_canonical v)).

(** ** Issuance and verification *)

Definition item_digests `{Digest} (items : list IssuerSignedItem) : BTreeMap Z Digest32 :=
  fold_left (fun m item => bt_insert (digest_id item) (item_digest item) m) items [].

Definition all_digests `{Digest} (ns : BTreeMap string (list IssuerSignedItem))
  : BTreeMap string (BTreeMap Z Digest32) :=
  fold_left (fun m '(ns, items) => bt_insert ns (item_digests items) m) ns [].

Definition build_and_sign_with_status `{Digest} `{Signer}
    (ns : BTreeMap string (list IssuerSignedItem)) (doc_type : string) (device_key : Value)
    (validity_info : ValidityInfo) (status : option MsoStatus) (key : KeyRef) (alg : Alg)
  : result IssuerSigned MdocError :=
  let mso := {| version := "1.0"; digest_algorithm := "SHA-256"; doc_type := doc_type;
                value_digests := all_digests ns; device_key := device_key;
                validity_info := validity_info; status := status |} in
  let? mso_bytes := to_mso_bytes mso in
  let? issuer_auth := map_err (cose_sign key alg mso_bytes [] default_unprotected) MdocCose in
  Ok {| name_spaces := ns; issuer_auth := issuer_auth |}.

Definition build_and_sign `{Digest} `{Signer}
    (ns : BTreeMap string (list IssuerSignedItem)) (doc_type : string) (device_key : Value)
    (validity_info : ValidityInfo) (key : KeyRef) (alg : Alg) : result IssuerSigned MdocError :=
  build_and_sign_with_status ns doc_type device_key validity_info None key alg.

Definition decode_mso (self : IssuerSigned) : result MobileSecurityObject MdocError :=
  let? payload := ok_or (payload (issuer_auth self)) (Malformed "issuerAuth has no payload") in
  let? mso_canonical := untag24 payload in
  let? v := decode mso_canonical in
  mso_from_value v.

Fixpoint check_items `{Digest} (signed : BTreeMap Z Digest32) (items : list IssuerSignedItem)
  : result unit MdocError :=
  match items with
  | [] => Ok tt
  | item :: items =>
      let? want := ok_or (bt_get signed (digest_id item)) DigestMismatch in
      if bool_decide (item_digest item = want) then check_items signed items
      else Err DigestMismatch
  end.

Fixpoint check_name_spaces `{Digest} (digests : BTreeMap string (BTreeMap Z Digest32))
    (l : BTreeMap string (list IssuerSignedItem)) : result unit MdocError :=
  match l with
  | [] => Ok tt
  | (ns, items) :: l =>
      let? signed := ok_or (bt_get digests ns) DigestMismatch in
      let? _ := check_items signed items in
      check_name_spaces digests l
  end.

Definition verify_issuer_signed `{Digest} `{Verifier} (issued : IssuerSigned)
    (issuer_public_key : bytes) (alg : Alg) : result MobileSecurityObject MdocError :=
  let? payload := ok_or (payload (issuer_auth issued)) (Malformed "issuerAuth has no payload") in
  let? _ := map_err (cose_verify (issuer_auth issued) alg issuer_public_key [] None) MdocCose in
  let? mso_canonical := untag24 payload in
  let? v := decode mso_canonical in
  let? mso := mso_from_value v in
  let? _ := check_name_spaces (value_digests mso) (name_spaces issued) in
  Ok mso.

(** ** The issuer-signed structure on the wire *)

Definition issuer_signed_to_value (self : IssuerSigned) : Value :=
  Map [(Text "nameSpaces",
        Map (map (fun '(ns, items) =>
          (Text ns, Array (map (fun it => Tag 24 (Bytes (to_canonical (item_to_value it)))) items)))
          (name_spaces self)));
       (Text "issuerAuth", sign1_to_value (issuer_auth self))].

Fixpoint read_items (l : list Value) : result (list IssuerSignedItem) MdocError :=
  match l with
  | [] => Ok []
  | it :: l =>
      let? item := from_item_bytes (to_canonical it) in
      let? r := read_items l in
      Ok (item :: r)
  end.

Fixpoint read_name_spaces (l : list (Value * Value)) (m : BTreeMap string (list IssuerSignedItem))
  : result (BTreeMap string (list IssuerSignedItem)) MdocError :=
  match l with
  | [] => Ok m
  | (k, arr) :: l =>
      let? ns := as_text k "namespace" in
      match arr with
      | Array items =>
          let? parsed := read_items items in
          read_name_spaces l (bt_insert ns parsed m)
      | _ => Err (Malformed "namespace items not an array")
      end
  end.

Definition issuer_signed_from_value (v : Value) : result IssuerSigned MdocError :=
  match v with
  | Map pairs =>
      let? ns_val := field pairs "nameSpaces" "nameSpaces" in
      match ns_val with
      | Map ns_pairs =>
          let? name_spaces := read_name_spaces ns_pairs [] in
          let? issuer_auth_val := field pairs "issuerAuth" "issuerAuth" in
          let? issuer_auth :=
            map_err (sign1_from_value issuer_auth_val) (fun _ => Malformed "issuerAuth") in
          Ok {| name_spaces := name_spaces; issuer_auth := issuer_auth |}
      | _ => Err (Malformed "nameSpaces not a map")
      end
  | _ => Err (Malformed "IssuerSigned not a map")
  end.

Definition issuer_signed_parse (b : bytes) : result IssuerSigned MdocError :=
  let? v := decode b in
  issuer_signed_from_value v.

Definition issuer_signed_doc_type (self : IssuerSigned) : result string MdocError :=
  let? payload := ok_or (payload (issuer_auth self)) (Malformed "issuerAuth payload") in
  let? inner := untag24 payload in
  let? v := decode inner in
  let? mso := mso_from_value v in
  Ok (doc_type mso).

(** ** Device authentication and session transcripts *)

Definition device_authentication_bytes (session_transcript : bytes) (doc_type : string)
    (device_namespaces_bytes : bytes) : result bytes MdocError :=
  let? transcript := decode session_transcript in
  Ok (tag24 (to_canonical (Array [Text "DeviceAuthentication"; transcript; Text doc_type;
                                  Tag 24 (Bytes device_namespaces_bytes)]))).

Definition hash_of `{Digest} (mdoc_generated_nonce value : string) : bytes :=
  sha256 (to_canonical (Array [Text value; Text mdoc_generated_nonce])).

Definition oid4vp_session_transcript `{Digest} (client_id response_uri nonce mdoc_generated_nonce : string)
  : bytes :=
  let handover := Array [Bytes (hash_of mdoc_generated_nonce client_id);
                         Bytes (hash_of mdoc_generated_nonce response_uri);
                         Text nonce] in
  to_canonical (Array [Null; Null; handover]).

Definition dcapi_handover_info (origin nonce : string) (jwk_thumbprint : option bytes) : bytes :=
  to_canonical (Array [Text origin; Text nonce;
                       match jwk_thumbprint with Some b => Bytes b | None => Null end]).

Definition oid4vp_dcapi_session_transcript `{Digest} (origin nonce : string)
    (jwk_thumbprint : option bytes) : bytes :=
  let info := dcapi_handover_info origin nonce jwk_thumbprint in
  let handover := Array [Text "OpenID4VPDCAPIHandover"; Bytes (sha256 info)] in
  to_canonical (Array [Null; Null; handover]).

Definition empty_device_namespaces_bytes : bytes := to_canonical (Map []).

Definition device_response (doc_type : string) (issuer_signed : IssuerSigned)
    (device_namespaces_bytes : bytes) (device_signature : CoseSign1) : bytes :=
  let device_signed :=
    Map [(Text "nameSpaces", Tag 24 (Bytes device_namespaces_bytes));
         (Text "deviceAuth", Map [(Text "deviceSignature", sign1_to_value device_signature)])] in
  let document :=
    Map [(Text "docType", Text doc_type); (Text "issuerSigned", issuer_signed_to_value issuer_signed);
         (Text "deviceSigned", device_signed)] in
  to_canonical (Map [(Text "version", Text "1.0"); (Text "documents", Array [document]);
                     (Text "status", Uint 0)]).

(** ** Reading normalised maps *)

Lemma insert_by_perm {A} (key : A -> bytes) x l : Permutation (insert_by key x l) (x :: l).
Proof.
  induction l as [|y l IH]; [done|]. cbn. case_match; try reflexivity.
  etransitivity; [by apply perm_skip|apply perm_swap].
Qed.

Lemma sort_by_perm {A} (key : A -> bytes) l : Permutation (sort_by key l) l.
Proof.
  induction l as [|x l IH]; [done|]. rewrite sort_cons, insert_by_perm. by apply perm_skip.
Qed.

Lemma dedup_distinct {A} (key : A -> bytes) l : List.NoDup (map key l) -> dedup_by key l = l.
Proof.
  induction l as [|x l IH]; intros H; [done|]. cbn [map] in H. inversion H as [|? ? Hx Hl]; subst.
  rewrite dedup_cons, IH by done. destruct l as [|y l]; [done|].
  rewrite bool_decide_eq_false_2; [done|]. intros E. apply Hx. cbn. by left.
Qed.

Definition keys_distinct (l : list (Value * Value)) : Prop :=
  List.NoDup (map (fun kv => to_canonical (fst kv)) l).

Lemma normalize_Map_perm l :
  keys_distinct l -> exists l', normalize (Map l) = Map l' /\ Permutation l' (map normalize_pair l).
Proof.
  intros Hd. exists (sort_by pair_key (map normalize_pair l)). rewrite normalize_Map. split; [|apply sort_by_perm].
  f_equal. apply dedup_distinct.
  apply (Permutation_NoDup (l := map pair_key (map normalize_pair l))).
  - apply Permutation_map, Permutation_sym, sort_by_perm.
  - rewrite map_map. erewrite map_ext; [exact Hd|]. intros [k v]. apply to_canonical_normalize.
Qed.

Lemma map_get_In l k v :
  keys_distinct l -> map_get l k = Some v <-> In (Text k, v) l.
Proof.
  unfold map_get, keys_distinct. induction l as [|[k' v'] l IH]; cbn [map find In]; intros Hd.
  - split; [done|tauto].
  - inversion Hd as [|? ? Hx Hl]; subst. destruct (key_is k (k', v')) eqn:E.
    + unfold key_is in E. cbn in E. destruct k'; try done. apply bool_decide_eq_true in E as ->. cbn.
      split; [intros [= ->]; auto|]. intros [[= ->]|Hin]; [done|]. destruct Hx.
      by apply (in_map (fun kv => to_canonical (fst kv))) in Hin.
    + rewrite IH by done. split; [auto|]. intros [[= -> ->]|Hin]; [|done].
      unfold key_is in E. cbn in E. by rewrite bool_decide_eq_true_2 in E.
Qed.

Lemma map_get_perm l l' k : keys_distinct l -> Permutation l l' -> map_get l k = map_get l' k.
Proof.
  intros Hd Hp. assert (keys_distinct l') as Hd'.
  { unfold keys_distinct. eapply Permutation_NoDup; [apply Permutation_map, Hp|done]. }
  destruct (map_get l' k) as [v|] eqn:E.
  - apply map_get_In in E; [|done]. apply map_get_In; [done|].
    by apply (Permutation_in _ (Permutation_sym Hp)).
  - destruct (map_get l k) as [v|] eqn:E'; [|done]. apply map_get_In in E'; [|done].
    apply (Permutation_in _ Hp), map_get_In in E'; [congruence|done].
Qed.

Lemma map_get_normalize_pair l k :
  map_get (map normalize_pair l) k = option_map normalize (map_get l k).
Proof.
  unfold map_get. induction l as [|[a b] l IH]; [done|]. cbn [map find].
  replace (key_is k (normalize_pair (a, b))) with (key_is k (a, b)) by by destruct a.
  by destruct (key_is k (a, b)).
Qed.

(** A map with distinct keys keeps its fields when it is normalised. *)
Lemma normalized_fields l :
  keys_distinct l ->
  exists l', normalize (Map l) = Map l' /\ Permutation l' (map normalize_pair l)
  /\ forall k, map_get l' k = option_map normalize (map_get l k).
Proof.
  intros Hd. destruct (normalize_Map_perm l Hd) as (l' & E & Hp). exists l'. split; [done|].
  split; [done|]. intros k. rewrite <- map_get_normalize_pair. apply map_get_perm; [|done].
  unfold keys_distinct. apply (Permutation_NoDup (l := map (fun kv => to_canonical (fst kv)) (map normalize_pair l))).
  - apply Permutation_map, Permutation_sym, Hp.
  - rewrite map_map. erewrite map_ext; [exact Hd|]. intros [a b]. apply to_canonical_normalize.
Qed.

Ltac literal_keys :=
  unfold keys_distinct; cbn [map fst];
  match goal with |- List.NoDup ?l => apply NoDup_ListNoDup; exact (bool_decide_unpack (NoDup l) I) end.

Lemma normalize_text_key v k : normalize v = v -> map_get [(Text k, v)] k = Some v.
Proof. unfold map_get, key_is. cbn. by rewrite bool_decide_eq_true_2. Qed.

(** Distinct keys of the two shapes the crate uses. *)
Lemma keys_distinct_map {A B} (key : A -> Value) (f : A * B -> Value) (l : list (A * B)) :
  (forall a b, key a = key b -> a = b) ->
  (forall e, In e l -> canonical (key (fst e)) = true) -> List.NoDup (map fst l) ->
  keys_distinct (map (fun e => (key (fst e), f e)) l).
Proof.
  intros Hk Hc Hd. unfold keys_distinct. rewrite map_map. cbn.
  induction l as [|[a b] l IH]; cbn in *; [constructor|]. inversion Hd as [|? ? Hx Hl]; subst.
  constructor; [|by apply IH; auto]. intros (e & E & He)%in_map_iff.
  apply to_canonical_inj in E; [|by apply Hc; auto|by apply (Hc (a, b)); auto].
  apply Hk in E as <-. by apply Hx, (in_map fst).
Qed.

(** ** Items and security objects read back *)

Definition item_normal (it : IssuerSignedItem) : IssuerSignedItem :=
  {| digest_id := digest_id it; random := random it; element_id := element_id it;
     element_value := normalize (element_value it) |}.

Lemma item_read_back it : item_from_value (normalize (item_to_value it)) = Ok (item_normal it).
Proof.
  destruct (normalized_fields
    [(Text "digestID", Uint (digest_id it)); (Text "random", Bytes (random it));
     (Text "elementIdentifier", Text (element_id it)); (Text "elementValue", element_value it)])
    as (l' & E & _ & Hg); [literal_keys|].
  unfold item_to_value, item_from_value. rewrite E. unfold field. rewrite !Hg. done.
Qed.

Lemma typed_Map_entry l k v : typed (Map l) = true -> In (k, v) l -> typed k = true /\ typed v = true.
Proof.
  cbn. intros H Hin. bool_prop.
  match goal with H : forallb _ l = true |- _ => rewrite forallb_forall in H; specialize (H _ Hin) end.
  cbn in *. by bool_prop.
Qed.

Lemma btree_keys {K V} `{OrdKey K} (m : BTreeMap K V) : bt_ok m -> List.NoDup (map fst m).
Proof.
  induction 1 as [|[a b] m Hm IH Hx]; cbn; constructor; [|done].
  rewrite List.Forall_forall in Hx. intros (e & Hf & He)%in_map_iff. specialize (Hx e He).
  unfold key_lt in Hx. cbn in Hx. by rewrite Hf, key_cmp_refl in Hx.
Qed.

(** A catalogue of digests as [BTreeMap]s of arrays. *)
Definition digests_ok (m : BTreeMap Z Digest32) : Prop :=
  bt_ok m /\ forall i d, In (i, d) m -> len d = 32.

Lemma read_digests_entries l m :
  (forall i d, In (i, d) l -> len d = 32) ->
  read_digests (map (fun '(i, d) => (Uint i, Bytes d)) l) m = Ok (bt_extend m l).
Proof.
  revert m. induction l as [|[i d] l IH]; intros m H; [done|]. cbn.
  rewrite (H i d) by (by left). cbn. apply IH. intros; apply (H i0); by right.
Qed.

Lemma digests_read_back m :
  digests_ok m -> typed (digests_value m) = true ->
  exists l, normalize (digests_value m) = Map l /\ read_digests l [] = Ok m.
Proof.
  intros [Hm H32] Ht. unfold digests_value in *.
  replace (map (fun '(i, d) => (Uint i, Bytes d)) m)
    with (map (fun e => (Uint (fst e), Bytes (snd e))) m) in * by (apply map_ext; by intros []).
  destruct (normalize_Map_perm (map (fun e => (Uint (fst e), Bytes (snd e))) m)) as (l' & E & Hp).
  { apply (keys_distinct_map Uint (fun e => Bytes (snd e))); [by intros ?? [= ->]| |by apply btree_keys].
    intros e He. apply typed_Map_entry with (k := Uint (fst e)) (v := Bytes (snd e)) in Ht;
      [by destruct Ht|]. by apply (in_map (fun e => (Uint (fst e), Bytes (snd e)))). }
  exists l'. split; [done|]. rewrite map_map in Hp. apply Permutation_map_inv in Hp as (l & -> & Hl).
  replace (map (fun e => normalize_pair (Uint (fst e), Bytes (snd e))) l)
    with (map (fun '(i, d) => (Uint i, Bytes d)) l) by (apply map_ext; by intros []).
  rewrite read_digests_entries.
  - f_equal. apply bt_extend_perm; [done|by apply Permutation_sym].
  - intros i d Hin. apply (H32 i). by apply (Permutation_in _ (Permutation_sym Hl)).
Qed.

Lemma read_value_digests_entries l m :
  (forall ns d, In (ns, d) l -> exists p, normalize (digests_value d) = Map p /\ read_digests p [] = Ok d) ->
  read_value_digests (map (fun '(ns, d) => (Text ns, normalize (digests_value d))) l) m
  = Ok (bt_extend m l).
Proof.
  revert m. induction l as [|[ns d] l IH]; intros m H; [done|]. cbn [map read_value_digests as_text].
  destruct (H ns d) as (p & -> & ->); [by left|]. apply IH. intros ns' d' ?. apply (H ns'). by right.
Qed.

Lemma value_digests_read_back m :
  bt_ok m -> (forall ns d, In (ns, d) m -> digests_ok d) -> typed (value_digests_value m) = true ->
  exists l, normalize (value_digests_value m) = Map l /\ read_value_digests l [] = Ok m.
Proof.
  intros Hm Hd Ht. unfold value_digests_value in *.
  replace (map (fun '(ns, d) => (Text ns, digests_value d)) m)
    with (map (fun e => (Text (fst e), digests_value (snd e))) m) in * by (apply map_ext; by intros []).
  assert (forall e, In e m -> typed (Text (fst e)) = true /\ typed (digests_value (snd e)) = true) as He.
  { intros e He. apply (typed_Map_entry _ _ _ Ht). by apply (in_map (fun e => (Text (fst e), digests_value (snd e)))). }
  destruct (normalize_Map_perm (map (fun e => (Text (fst e), digests_value (snd e))) m)) as (l' & E & Hp).
  { apply (keys_distinct_map Text (fun e => digests_value (snd e))); [by intros ?? [= ->]| |by apply btree_keys].
    intros e Hin. by destruct (He e Hin). }
  exists l'. split; [done|]. rewrite map_map in Hp. apply Permutation_map_inv in Hp as (l & -> & Hl).
  replace (map (fun e => normalize_pair (Text (fst e), digests_value (snd e))) l)
    with (map (fun '(ns, d) => (Text ns, normalize (digests_value d))) l) by (apply map_ext; by intros []).
  rewrite read_value_digests_entries.
  - f_equal. apply bt_extend_perm; [done|by apply Permutation_sym].
  - intros ns d Hin. apply (Permutation_in _ (Permutation_sym Hl)) in Hin.
    apply digests_read_back; [by eapply Hd|]. by destruct (He (ns, d) Hin).
Qed.

Definition mso_normal (m : MobileSecurityObject) : MobileSecurityObject :=
  {| version := version m; digest_algorithm := digest_algorithm m; doc_type := doc_type m;
     value_digests := value_digests m; device_key := normalize (device_key m);
     validity_info := validity_info m; status := status m |}.

Definition mso_ok (m : MobileSecurityObject) : Prop :=
  bt_ok (value_digests m) /\ forall ns d, In (ns, d) (value_digests m) -> digests_ok d.

Lemma tdate_value_Ok s ctx v : tdate_value s ctx = Ok v -> v = Tag 0 (Text s) /\ as_tdate v ctx = Ok s.
Proof.
  unfold tdate_value, as_tdate. destruct (tdate_parse s) eqn:E; [|done]. intros [= <-].
  split; [done|]. by rewrite E.
Qed.

(** The entries of the security object's map. *)
Definition mso_entries (m : MobileSecurityObject) : list (Value * Value) :=
  let vi := validity_info m in
  [(Text "version", Text (version m)); (Text "digestAlgorithm", Text (digest_algorithm m));
   (Text "valueDigests", value_digests_value (value_digests m));
   (Text "deviceKeyInfo", Map [(Text "deviceKey", device_key m)]);
   (Text "docType", Text (doc_type m));
   (Text "validityInfo", Map [(Text "signed", Tag 0 (Text (signed vi)));
      (Text "validFrom", Tag 0 (Text (valid_from vi))); (Text "validUntil", Tag 0 (Text (valid_until vi)))])]
  ++ match status m with Some s => [(Text "status", status_value s)] | None => [] end.

Lemma mso_to_value_Ok m v :
  mso_to_value m = Ok v ->
  v = Map (mso_entries m)
  /\ as_tdate (Tag 0 (Text (signed (validity_info m)))) "signed tdate" = Ok (signed (validity_info m))
  /\ as_tdate (Tag 0 (Text (valid_from (validity_info m)))) "validFrom tdate" = Ok (valid_from (validity_info m))
  /\ as_tdate (Tag 0 (Text (valid_until (validity_info m)))) "validUntil tdate" = Ok (valid_until (validity_info m)).
Proof.
  unfold mso_to_value. intros H.
  destruct (tdate_value (signed _) _) as [a|] eqn:Ea; [|done].
  destruct (tdate_value (valid_from _) _) as [b|] eqn:Eb; [|done].
  destruct (tdate_value (valid_until _) _) as [c|] eqn:Ec; [|done].
  apply tdate_value_Ok in Ea as [-> ?], Eb as [-> ?], Ec as [-> ?]. injection H as <-. done.
Qed.

Lemma mso_keys_distinct m : keys_distinct (mso_entries m).
Proof. unfold mso_entries. destruct (status m); cbn [app]; literal_keys. Qed.

Lemma read_validity_back l m :
  map_get l "validityInfo" = option_map normalize (map_get (mso_entries m) "validityInfo") ->
  as_tdate (Tag 0 (Text (signed (validity_info m)))) "signed tdate" = Ok (signed (validity_info m)) ->
  as_tdate (Tag 0 (Text (valid_from (validity_info m)))) "validFrom tdate" = Ok (valid_from (validity_info m)) ->
  as_tdate (Tag 0 (Text (valid_until (validity_info m)))) "validUntil tdate" = Ok (valid_until (validity_info m)) ->
  read_validity l = Ok (validity_info m).
Proof.
  intros Hl H1 H2 H3. unfold read_validity. rewrite Hl.
  destruct (normalized_fields
    [(Text "signed", Tag 0 (Text (signed (validity_info m))));
     (Text "validFrom", Tag 0 (Text (valid_from (validity_info m))));
     (Text "validUntil", Tag 0 (Text (valid_until (validity_info m))))]) as (p & E & _ & Hg); [literal_keys|].
  change (map_get (mso_entries m) "validityInfo") with (Some (Map
    [(Text "signed", Tag 0 (Text (signed (validity_info m))));
     (Text "validFrom", Tag 0 (Text (valid_from (validity_info m))));
     (Text "validUntil", Tag 0 (Text (valid_until (validity_info m))))])).
  cbn [option_map]. rewrite E. unfold field. rewrite !Hg.
  change (map_get (_ :: _ :: _) "signed") with (Some (Tag 0 (Text (signed (validity_info m))))).
  change (map_get (_ :: _ :: _) "validFrom") with (Some (Tag 0 (Text (valid_from (validity_info m))))).
  change (map_get (_ :: _ :: _) "validUntil") with (Some (Tag 0 (Text (valid_until (validity_info m))))).
  cbn [option_map ok_or normalize]. rewrite H1, H2, H3. by destruct (validity_info m).
Qed.

Lemma read_status_back l m :
  map_get l "status" = option_map normalize (map_get (mso_entries m) "status") ->
  read_status l = Ok (status m).
Proof.
  intros Hl. unfold read_status. rewrite Hl. unfold mso_entries.
  destruct (status m) as [s|]; cbn [app]; [|reflexivity].
  change (map_get (_ :: _ :: _) "status") with (Some (status_value s)). cbn [option_map].
  unfold status_value.
  destruct (normalized_fields [(Text "status_list", Map [(Text "idx", Uint (index s)); (Text "uri", Text (uri s))])])
    as (p & E & _ & Hg); [literal_keys|]. rewrite E, Hg.
  change (map_get [_] "status_list") with (Some (Map [(Text "idx", Uint (index s)); (Text "uri", Text (uri s))])).
  cbn [option_map].
  destruct (normalized_fields [(Text "idx", Uint (index s)); (Text "uri", Text (uri s))])
    as (q & E' & _ & Hg'); [literal_keys|]. rewrite E'. unfold field. rewrite !Hg'.
  change (map_get (_ :: _) "uri") with (Some (Text (uri s))).
  change (map_get (_ :: _) "idx") with (Some (Uint (index s))).
  cbn. by destruct s.
Qed.

Lemma read_device_key_back l m :
  map_get l "deviceKeyInfo" = option_map normalize (map_get (mso_entries m) "deviceKeyInfo") ->
  read_device_key l = normalize (device_key m).
Proof.
  intros Hl. unfold read_device_key. rewrite Hl.
  change (map_get (mso_entries m) "deviceKeyInfo") with (Some (Map [(Text "deviceKey", device_key m)])).
  cbn [option_map]. destruct (normalized_fields [(Text "deviceKey", device_key m)])
    as (p & E & _ & Hg); [literal_keys|]. by rewrite E, Hg.
Qed.

(** The object the decoder gives back: the one that was encoded, with the maps
    inside the device key sorted. *)
Lemma mso_read_back m v :
  mso_ok m -> mso_to_value m = Ok v -> typed v = true ->
  mso_from_value (normalize v) = Ok (mso_normal m).
Proof.
  intros [Hm Hd] Hv Ht. apply mso_to_value_Ok in Hv as (-> & H1 & H2 & H3).
  destruct (normalized_fields (mso_entries m) (mso_keys_distinct m)) as (l & E & _ & Hg).
  assert (typed (value_digests_value (value_digests m)) = true) as Htd.
  { eapply typed_Map_entry with (k := Text "valueDigests"); [exact Ht|]. right. right. by left. }
  destruct (value_digests_read_back _ Hm Hd Htd) as (p & Ep & Hp).
  rewrite E. unfold mso_from_value, field. rewrite !Hg.
  change (map_get (mso_entries m) "valueDigests") with (Some (value_digests_value (value_digests m))).
  change (map_get (mso_entries m) "version") with (Some (Text (version m))).
  change (map_get (mso_entries m) "digestAlgorithm") with (Some (Text (digest_algorithm m))).
  change (map_get (mso_entries m) "docType") with (Some (Text (doc_type m))).
  cbn [option_map ok_or]. rewrite Ep, Hp, (read_validity_back l m), (read_status_back l m) by done.
  cbn [normalize as_text]. by rewrite (read_device_key_back l m).
Qed.

(** ** Embedded CBOR, read back *)

Lemma untag24_tag24 b : rust_vec b = true -> untag24 (tag24 b) = Ok b.
Proof.
  intros H. unfold untag24, tag24, decode.
  rewrite from_to_canonical; [done| |unfold MAX_DEPTH; cbn; lia].
  apply canonical_Tag; [done|]. by apply canonical_Bytes.
Qed.

(** An object whose encoding the decoder accepts. *)
Definition encodable (m : MobileSecurityObject) : bool :=
  match mso_to_value m with
  | Ok v => typed v && (height v <=? MAX_DEPTH)%nat && rust_vec (to_canonical v)
  | Err _ => false
  end.

Lemma mso_bytes_read_back m :
  mso_ok m -> encodable m = true ->
  exists v b, mso_to_value m = Ok v /\ to_mso_bytes m = Ok (tag24 b) /\ untag24 (tag24 b) = Ok b
  /\ exists w, decode b = Ok w /\ mso_from_value w = Ok (mso_normal m).
Proof.
  unfold encodable, to_mso_bytes. intros Hm H. destruct (mso_to_value m) as [v|] eqn:E; [|done].
  bool_prop. match goal with H : (_ <=? _)%nat = true |- _ => apply Nat.leb_le in H end.
  exists v, (to_canonical v). split; [done|]. split; [done|]. split; [by apply untag24_tag24|].
  exists (normalize v). split; [|by apply mso_read_back].
  unfold decode. by rewrite from_to_canonical_typed.
Qed.

(** ** The digests of the items *)

Section digests.
Context `{D : Digest}.

Lemma item_digests_extend items :
  item_digests items = bt_extend [] (map (fun it => (digest_id it, item_digest it)) items).
Proof.
  unfold item_digests, bt_extend. generalize (@nil (Z * Digest32)) as m.
  induction items as [|it items IH]; intros m; [done|]. apply IH.
Qed.

Lemma item_digests_ok {DL : DigestLaws} items : digests_ok (item_digests items).
Proof.
  rewrite item_digests_extend. split; [apply bt_extend_ok; constructor|].
  assert (forall (l m : BTreeMap Z Digest32) i d, In (i, d) (bt_extend m l) -> In (i, d) l \/ In (i, d) m) as He.
  { clear. induction l as [|[a b] l IH]; intros m i d H; [by right|].
    apply IH in H as [H|[H|H]%insert_entry]; cbn; auto. }
  intros i d [(it & [= <- <-] & _)%in_map_iff|[]]%He. unfold len, item_digest. by rewrite sha256_length.
Qed.

Lemma find_NoDup {A} (key : A -> Z) items it :
  List.NoDup (map key items) -> In it items ->
  find (fun e => bool_decide (key_cmp (key it) (fst e) = Eq)) (map (fun x => (key x, x)) items) = Some (key it, it).
Proof.
  induction items as [|x items IH]; cbn; [done|]. intros Hd [->|Hin].
  - rewrite bool_decide_eq_true_2; [done|]. by apply Z.compare_eq_iff.
  - inversion Hd as [|? ? Hx Hl]; subst. rewrite bool_decide_eq_false_2; [by apply IH|].
    intros E%Z.compare_eq_iff. apply Hx. rewrite <- E. by apply in_map.
Qed.

Lemma item_digest_found items it :
  List.NoDup (map digest_id items) -> In it items ->
  bt_get (item_digests items) (digest_id it) = Some (item_digest it).
Proof.
  intros Hd Hin. rewrite item_digests_extend, bt_get_extend by by rewrite map_map.
  pose proof (find_NoDup digest_id items it Hd Hin) as Hf.
  assert (forall (l : list IssuerSignedItem),
    find (fun e => bool_decide (key_cmp (digest_id it) (fst e) = Eq)) (map (fun x => (digest_id x, item_digest x)) l)
    = option_map (fun e => (fst e, item_digest (snd e)))
        (find (fun e => bool_decide (key_cmp (digest_id it) (fst e) = Eq)) (map (fun x => (digest_id x, x)) l))) as Hm.
  { induction l as [|x l IH]; [done|]. cbn. case_bool_decide; [done|]. apply IH. }
  by rewrite Hm, Hf.
Qed.

Lemma all_digests_entries ns :
  bt_ok ns -> all_digests ns = map (fun '(n, items) => (n, item_digests items)) ns.
Proof.
  intros H. transitivity (bt_extend [] (map (fun '(n, items) => (n, item_digests items)) ns)).
  - unfold all_digests, bt_extend. clear H. generalize (@nil (string * BTreeMap Z Digest32)) as m.
    induction ns as [|[n items] ns IH]; intros m; [done|]. apply IH.
  - apply bt_extend_perm; [|done]. by apply bt_ok_map.
Qed.

(** Name spaces as a [BTreeMap] whose items have distinct identifiers. *)
Definition name_spaces_ok (ns : BTreeMap string (list IssuerSignedItem)) : Prop :=
  bt_ok ns /\ forall n items, In (n, items) ns -> NoDup (map digest_id items).

Lemma check_items_found signed items :
  (forall it, In it items -> bt_get signed (digest_id it) = Some (item_digest it)) ->
  check_items signed items = Ok tt.
Proof.
  induction items as [|it items IH]; intros H; [done|]. cbn [check_items].
  rewrite (H it) by (by left). cbn [ok_or]. rewrite bool_decide_eq_true_2 by done.
  apply IH. intros x Hx. apply H. by right.
Qed.

Lemma check_name_spaces_built ns :
  name_spaces_ok ns -> check_name_spaces (all_digests ns) ns = Ok tt.
Proof.
  intros [Hb Hd]. assert (bt_ok (all_digests ns)) as Hab.
  { rewrite all_digests_entries by done. by apply bt_ok_map. }
  assert (forall l, incl l ns -> check_name_spaces (all_digests ns) l = Ok tt) as H; [|apply H, incl_refl].
  induction l as [|[n items] l IH]; intros Hl; [done|]. cbn [check_name_spaces].
  assert (In (n, items) ns) as Hin by (apply Hl; by left).
  assert (bt_get (all_digests ns) n = Some (item_digests items)) as ->.
  { apply bt_get_In; [done|]. rewrite all_digests_entries by done.
    by apply (in_map (fun '(n, items) => (n, item_digests items)) _ _ Hin). }
  cbn [ok_or]. rewrite check_items_found.
  - apply IH. intros x Hx. apply Hl. by right.
  - intros it Hit. apply item_digest_found; [|done]. apply NoDup_ListNoDup. by apply (Hd n).
Qed.

Lemma built_mso_ok {DL : DigestLaws} ns t k vi st :
  bt_ok ns ->
  mso_ok {| version := "1.0"; digest_algorithm := "SHA-256"; doc_type := t;
            value_digests := all_digests ns; device_key := k; validity_info := vi; status := st |}.
Proof.
  intros H. split; cbn [value_digests].
  - rewrite all_digests_entries by done. by apply bt_ok_map.
  - rewrite all_digests_entries by done. intros n d ([n' items] & [= <- <-] & _)%in_map_iff.
    apply item_digests_ok.
Qed.
End digests.

(** ** Issuing and verifying *)

Definition issued_mso `{Digest} (ns : BTreeMap string (list IssuerSignedItem)) (doc_type : string)
    (device_key : Value) (validity_info : ValidityInfo) (status : option MsoStatus) : MobileSecurityObject :=
  {| version := "1.0"; digest_algorithm := "SHA-256"; doc_type := doc_type;
     value_digests := all_digests ns; device_key := device_key; validity_info := validity_info;
     status := status |}.

Lemma cose_sign_default `{Signer} key alg pl sig :
  sign key alg (sig_structure (encode_protected_header alg) [] pl) = Ok sig ->
  cose_sign key alg pl [] default_unprotected
  = Ok {| protected := encode_protected_header alg; unprotected := default_unprotected;
          payload := Some pl; signature := sig |}.
Proof. intros E. unfold cose_sign. rewrite parse_encode_protected_header.
  cbn -[sig_structure encode_protected_header]. by rewrite E. Qed.

Lemma cose_verify_default `{Verifier} alg pl sig pk :
  verify alg pk (sig_structure (encode_protected_header alg) [] pl) sig = Ok tt ->
  cose_verify {| protected := encode_protected_header alg; unprotected := default_unprotected;
                 payload := Some pl; signature := sig |} alg pk [] None = Ok tt.
Proof.
  intros E. unfold cose_verify. cbn [protected unprotected payload signature].
  rewrite parse_encode_protected_header. cbn [check_header_collisions p_kid p_x5chain is_some andb orb].
  cbn [u_kid u_x5chain default_unprotected is_some andb orb]. cbn [p_alg].
  rewrite bool_decide_eq_true_2 by done. cbn [negb]. by rewrite E.
Qed.

Section issue.
Context `{D : Digest} {DL : DigestLaws} `{S : Signer} `{V : Verifier}.

Lemma build_verifies ns t k vi st key alg pk :
  name_spaces_ok ns -> encodable (issued_mso ns t k vi st) = true ->
  (forall a msg s, sign key a msg = Ok s -> verify a pk msg s = Ok tt) ->
  (forall a msg, is_ok (sign key a msg) = true) ->
  exists issued, build_and_sign_with_status ns t k vi st key alg = Ok issued
  /\ name_spaces issued = ns
  /\ verify_issuer_signed issued pk alg = Ok (mso_normal (issued_mso ns t k vi st))
  /\ decode_mso issued = Ok (mso_normal (issued_mso ns t k vi st)).
Proof.
  intros Hns He Hsv Hs. destruct Hns as [Hb Hd].
  destruct (mso_bytes_read_back (issued_mso ns t k vi st) (built_mso_ok ns t k vi st Hb) He)
    as (v & b & Ev & Eb & Et & w & Ew & Em).
  pose proof (Hs alg (sig_structure (encode_protected_header alg) [] (tag24 b))) as Hsig.
  destruct (sign key alg _) as [sig|] eqn:Es; [|done].
  unfold build_and_sign_with_status. fold (issued_mso ns t k vi st). rewrite Eb.
  rewrite (cose_sign_default key alg _ sig Es). cbn [map_err].
  eexists. split; [done|]. split; [done|].
  unfold verify_issuer_signed, decode_mso. cbn [issuer_auth payload ok_or name_spaces].
  rewrite cose_verify_default by by apply Hsv. cbn [map_err]. rewrite Et, Ew, Em. split; [|done].
  cbn [mso_normal value_digests issued_mso]. by rewrite check_name_spaces_built.
Qed.

(** ** What verification establishes *)

Lemma check_items_Ok signed items :
  check_items signed items = Ok tt ->
  forall it, In it items -> bt_get signed (digest_id it) = Some (item_digest it).
Proof.
  induction items as [|x items IH]; intros H it Hin; [done|]. cbn in H.
  destruct (bt_get signed (digest_id x)) as [want|] eqn:E; [|done]. cbn in H.
  case_bool_decide as Hw; [|done]. destruct Hin as [<-|Hin]; [by rewrite E, Hw|by apply IH].
Qed.

Lemma check_name_spaces_Ok digests l :
  check_name_spaces digests l = Ok tt ->
  forall n items it, In (n, items) l -> In it items ->
  exists m, bt_get digests n = Some m /\ bt_get m (digest_id it) = Some (item_digest it).
Proof.
  induction l as [|[a b] l IH]; intros H n items it Hin Hit; [done|]. cbn in H.
  destruct (bt_get digests a) as [m|] eqn:E; [|done]. cbn in H.
  destruct (check_items m b) as [[]|] eqn:Ec; [|done].
  destruct Hin as [[= -> ->]|Hin]; [|by eapply IH]. exists m. split; [done|].
  by apply (check_items_Ok m items).
Qed.

Lemma verify_issuer_signed_Ok issued pk alg mso :
  verify_issuer_signed issued pk alg = Ok mso ->
  exists pl, payload (issuer_auth issued) = Some pl
  /\ verify alg pk (sig_structure (protected (issuer_auth issued)) [] pl) (signature (issuer_auth issued)) = Ok tt
  /\ decode_mso issued = Ok mso
  /\ forall n items it, In (n, items) (name_spaces issued) -> In it items ->
     exists m, bt_get (value_digests mso) n = Some m /\ bt_get m (digest_id it) = Some (item_digest it).
Proof.
  unfold verify_issuer_signed, decode_mso. intros H.
  destruct (payload (issuer_auth issued)) as [pl|] eqn:Ep; [|done]. cbn [ok_or] in *.
  destruct (cose_verify _ _ _ _ _) as [[]|] eqn:Ev; [|done]. cbn [map_err] in H.
  destruct (untag24 pl) as [b|]; [|done]. destruct (decode b) as [v|]; [|done].
  destruct (mso_from_value v) as [m|]; [|done].
  destruct (check_name_spaces _ _) as [[]|] eqn:Ec; [|done]. injection H as <-.
  exists pl. split; [done|]. split; [|split; [done|by apply check_name_spaces_Ok]].
  apply cose_verify_Ok in Ev as (h & pl' & _ & _ & _ & [[E _]|[E _]] & Hv); [|congruence].
  rewrite E in Ep. injection Ep as ->. done.
Qed.

(** The bytes of an item determine it, the order of maps inside its value apart. *)
Lemma item_bytes_inj a b :
  typed (item_to_value a) = true -> typed (item_to_value b) = true ->
  rust_vec (to_canonical (item_to_value a)) = true -> rust_vec (to_canonical (item_to_value b)) = true ->
  to_item_bytes a = to_item_bytes b -> item_normal a = item_normal b.
Proof.
  intros Ha Hb Hva Hvb E. unfold to_item_bytes, tag24 in E.
  apply to_canonical_inj in E;
    [|apply canonical_Tag; [done|by apply canonical_Bytes]..].
  assert (to_canonical (normalize (item_to_value a)) = to_canonical (normalize (item_to_value b))) as E'.
  { rewrite !to_canonical_normalize. pose proof (f_equal (fun v => match v with Tag _ (Bytes x) => x | _ => [] end) E) as E2.
    exact E2. }
  apply to_canonical_inj in E'; [|by apply canonical_normalize..].
  pose proof (item_read_back a) as Ra. rewrite E', item_read_back in Ra. congruence.
Qed.

Definition item_wellformed (it : IssuerSignedItem) : bool :=
  typed (item_to_value it) && rust_vec (to_canonical (item_to_value it)).

Lemma items_fixed issued issued' pk alg mso mso' n items items' it it' :
  verify_issuer_signed issued pk alg = Ok mso -> verify_issuer_signed issued' pk alg = Ok mso' ->
  issuer_auth issued = issuer_auth issued' ->
  In (n, items) (name_spaces issued) -> In it items ->
  In (n, items') (name_spaces issued') -> In it' items' ->
  digest_id it = digest_id it' -> item_wellformed it && item_wellformed it' = true ->
  mso = mso' /\ (item_normal it = item_normal it' \/ collision).
Proof.
  intros H H' Ea Hn Hi Hn' Hi' Ed Hw. unfold item_wellformed in Hw. bool_prop.
  apply verify_issuer_signed_Ok in H as (pl & _ & _ & Hm & Hc).
  apply verify_issuer_signed_Ok in H' as (pl' & _ & _ & Hm' & Hc').
  unfold decode_mso in Hm, Hm'. rewrite Ea in Hm. rewrite Hm in Hm'. injection Hm' as <-. split; [done|].
  destruct (Hc n items it Hn Hi) as (m & E1 & E2). destruct (Hc' n items' it' Hn' Hi') as (m' & E1' & E2').
  rewrite E1 in E1'. injection E1' as <-. rewrite Ed, E2' in E2. injection E2 as E2.
  destruct (bytes_or_collision _ _ E2) as [Eb|]; [left|by right]. symmetry. by apply item_bytes_inj.
Qed.

(** ** Session transcripts *)

Lemma hash_of_inj m m' v v' :
  rust_string m && rust_string m' && rust_string v && rust_string v' = true ->
  hash_of m v = hash_of m' v' -> (m = m' /\ v = v') \/ collision.
Proof.
  intros H E. bool_prop. destruct (bytes_or_collision _ _ E) as [Eb|]; [left|by right].
  apply to_canonical_inj in Eb; [by injection Eb as -> ->|..].
  all: auto with wallet.
Qed.

Lemma hash_canonical m v : canonical (Bytes (hash_of m v)) = true.
Proof. apply canonical_Bytes. unfold rust_vec, len, hash_of. by rewrite sha256_length. Qed.

Lemma oid4vp_transcript_canonical c r n m :
  rust_string n = true ->
  canonical (Array [Null; Null; Array [Bytes (hash_of m c); Bytes (hash_of m r); Text n]]) = true.
Proof. intros H. pose proof (hash_canonical m c). pose proof (hash_canonical m r). auto 10 with wallet. Qed.

Lemma handover_inj a b n a' b' n' :
  Array [Null; Null; Array [Bytes a; Bytes b; Text n]]
  = Array [Null; Null; Array [Bytes a'; Bytes b'; Text n']] -> a = a' /\ b = b' /\ n = n'.
Proof. by intros [= -> -> ->]. Qed.

(** Equal transcripts are of the same exchange, up to a digest collision. *)
Lemma oid4vp_transcript_specific c r n m c' r' n' m' :
  rust_string c && rust_string r && rust_string n && rust_string m = true ->
  rust_string c' && rust_string r' && rust_string n' && rust_string m' = true ->
  oid4vp_session_transcript c r n m = oid4vp_session_transcript c' r' n' m' ->
  n = n' /\ ((c = c' /\ r = r' /\ m = m') \/ collision).
Proof.
  intros H H' E. bool_prop. apply to_canonical_inj in E; [|by apply oid4vp_transcript_canonical..].
  assert (hash_of m c = hash_of m' c' /\ hash_of m r = hash_of m' r' /\ n = n') as (Ec & Er & En)
    by (apply handover_inj; exact E).
  split; [done|].
  assert (rust_string m && rust_string m' && rust_string c && rust_string c' = true) as Hc
    by (rewrite !andb_true_iff; auto).
  assert (rust_string m && rust_string m' && rust_string r && rust_string r' = true) as Hr
    by (rewrite !andb_true_iff; auto).
  destruct (hash_of_inj m m' c c' Hc Ec) as [[-> ->]|]; [|by right].
  destruct (hash_of_inj m' m' r r' Hr Er) as [[_ ->]|]; [by left|by right].
Qed.

Lemma dcapi_info_canonical o n (t : option bytes) :
  rust_string o && rust_string n && option_rect _ rust_vec true t = true ->
  canonical (Array [Text o; Text n; match t with Some b => Bytes b | None => Null end]) = true.
Proof. intros H. bool_prop. destruct t; cbn [option_rect] in *; auto 10 with wallet. Qed.

Lemma dcapi_transcript_specific o n t o' n' t' :
  rust_string o && rust_string n && option_rect _ rust_vec true t = true ->
  rust_string o' && rust_string n' && option_rect _ rust_vec true t' = true ->
  oid4vp_dcapi_session_transcript o n t = oid4vp_dcapi_session_transcript o' n' t' ->
  (o = o' /\ n = n' /\ t = t') \/ collision.
Proof.
  intros H H' E. unfold oid4vp_dcapi_session_transcript in E.
  assert (forall b, canonical (Array [Null; Null; Array [Text "OpenID4VPDCAPIHandover"; Bytes (sha256 b)]]) = true) as Hc.
  { intros b. assert (canonical (Bytes (sha256 b)) = true)
      by (apply canonical_Bytes; unfold rust_vec, len; by rewrite sha256_length).
    auto 10 with wallet. }
  apply to_canonical_inj in E; [|apply Hc..].
  assert (sha256 (dcapi_handover_info o n t) = sha256 (dcapi_handover_info o' n' t')) as Es
    by (apply (f_equal (fun v => match v with Array [_; _; Array [_; Bytes x]] => x | _ => [] end) E)).
  destruct (bytes_or_collision _ _ Es) as [Eb|]; [left|by right].
  apply to_canonical_inj in Eb; [|by apply dcapi_info_canonical..].
  injection Eb as -> -> Et. destruct t, t'; by simplify_eq.
Qed.

(** The redirect and the browser transcripts are never confused. *)
Lemma transcripts_disjoint c r n m o n' t :
  rust_string n = true -> oid4vp_session_transcript c r n m <> oid4vp_dcapi_session_transcript o n' t.
Proof.
  intros H E. apply to_canonical_inj in E; [done|by apply oid4vp_transcript_canonical|].
  assert (canonical (Bytes (sha256 (dcapi_handover_info o n' t))) = true)
    by (apply canonical_Bytes; unfold rust_vec, len; by rewrite sha256_length).
  auto 10 with wallet.
Qed.
End issue.

Lemma mdoc_authentication_canonical v d n :
  canonical v = true -> rust_string d = true -> rust_vec n = true ->
  canonical (Array [Text "DeviceAuthentication"; v; Text d; Tag 24 (Bytes n)]) = true.
Proof. intros. auto 10 with wallet. Qed.

Lemma len_tag24 b : len b <= len (tag24 b).
Proof.
  unfold tag24. rewrite to_canonical_Tag. change (to_canonical (Bytes b)) with (write_head [] 2 (len b) ++ b).
  rewrite !len_app. pose proof (len_write_head 6 24). pose proof (len_write_head 2 (len b)). lia.
Qed.

(** What the device signs determines the transcript, the document type and the
    device-signed name spaces. *)
Lemma device_authentication_bytes_inj t d n t' d' n' b :
  rust_string d && rust_string d' && rust_vec n && rust_vec n' && rust_vec b = true ->
  device_authentication_bytes t d n = Ok b -> device_authentication_bytes t' d' n' = Ok b ->
  t = t' /\ d = d' /\ n = n'.
Proof.
  unfold device_authentication_bytes, decode. intros H E E'. bool_prop.
  destruct (from_canonical_slice t) as [v|] eqn:Ev; [|done].
  destruct (from_canonical_slice t') as [v'|] eqn:Ev'; [|done].
  apply from_canonical_slice_inv in Ev as (-> & Hv & _), Ev' as (-> & Hv' & _).
  cbn [map_err] in E, E'. assert (forall x y : bytes, @Ok bytes MdocError x = Ok y -> x = y) as Hok by congruence.
  apply Hok in E, E'.
  assert (forall c, tag24 c = b -> rust_vec c = true) as Hs.
  { intros c <-. unfold rust_vec in *. pose proof (len_tag24 c). bool_prop. apply Z.leb_le. lia. }
  pose proof (Hs _ E) as HE1. pose proof (Hs _ E') as HE2. rewrite <- E' in E. unfold tag24 in E.
  apply to_canonical_inj in E; [|apply canonical_Tag; [done|by apply canonical_Bytes]..].
  apply tag_bytes_inj, to_canonical_inj in E; [|by apply mdoc_authentication_canonical..].
  by injection E as -> -> ->.
Qed.

(** ** Properties *)

(** C6: Issuance and verification meet.  For name spaces whose items have
    distinct identifiers and a security object the decoder can read back, with
    a signer that signs and a verifier that accepts its signatures, building a
    credential succeeds, the credential has the given items, and verifying it
    (or re-reading its security object) returns exactly the object that was
    sealed, with the maps inside the device key in canonical order: the digest
    of every item, the document type, the validity and the status reference. *)
Theorem issued_mdoc_verifies `{D : Digest} {DL : DigestLaws} `{S : Signer} `{V : Verifier}
    (ns : BTreeMap string (list IssuerSignedItem)) (t : string) (k : Value) (vi : ValidityInfo)
    (st : option MsoStatus) (key : KeyRef) (alg : Alg) (pk : bytes) :
  name_spaces_ok ns -> encodable (issued_mso ns t k vi st) = true ->
  (forall a msg s, sign key a msg = Ok s -> verify a pk msg s = Ok tt) ->
  (forall a msg, is_ok (sign key a msg) = true) ->
  exists issued, build_and_sign_with_status ns t k vi st key alg = Ok issued
  /\ name_spaces issued = ns
  /\ verify_issuer_signed issued pk alg = Ok (mso_normal (issued_mso ns t k vi st))
  /\ decode_mso issued = Ok (mso_normal (issued_mso ns t k vi st)).
Proof. apply build_verifies. Qed.

Definition sample_item (i : Z) (name : string) (v : Value) : IssuerSignedItem :=
  {| digest_id := i; random := repeat Byte.x07 16; element_id := name; element_value := v |}.

Definition sample_name_spaces : BTreeMap string (list IssuerSignedItem) :=
  [("org.iso.18013.5.1", [sample_item 2 "family_name" (Text "Doe"); sample_item 0 "age" (Uint 30)])]%string.

Definition sample_validity : ValidityInfo :=
  {| signed := "2024-02-29T10:00:00Z"; valid_from := "2024-02-29T10:00:00.50+01:00";
     valid_until := "2025-02-28T23:59:59Z" |}.

Definition sample_device_key : Value := Map [(Uint 1, Uint 2); (Nint 0, Uint 1)].

Definition sample_key : KeyRef := {| key_ref_name := "issuer" |}.

Lemma sample_name_spaces_ok : name_spaces_ok sample_name_spaces.
Proof.
  split; [by repeat constructor|]. intros n items [[= <- <-]|[]]. cbn.
  apply (bool_decide_unpack _). vm_compute. exact I.
Qed.

Lemma issued_mdoc_verifies_witness :
  exists issued,
    @build_and_sign_with_status Samples.trunc_digest Samples.echo_signer sample_name_spaces "mDL"
      sample_device_key sample_validity None sample_key Es256 = Ok issued
    /\ is_ok (@verify_issuer_signed Samples.trunc_digest Samples.echo_verifier issued [] Es256) = true.
Proof.
  destruct (@issued_mdoc_verifies Samples.trunc_digest Samples.trunc_digest_laws Samples.echo_signer
    Samples.echo_verifier sample_name_spaces "mDL" sample_device_key sample_validity None sample_key
    Es256 []) as (issued & H & _ & Hv & _).
  - exact sample_name_spaces_ok.
  - vm_compute. reflexivity.
  - intros a msg s E. injection E as <-. cbn. by rewrite bool_decide_eq_true_2.
  - reflexivity.
  - exists issued. split; [exact H|]. exact (f_equal is_ok Hv).
Defined.

(** The issuer's signature fixes the disclosed items.  Two presentations
    under one issuer signature that both verify carry the same security object,
    and items of one name space and digest identifier are the same element
    (identifier, salt and value, up to the order of maps inside the value),
    unless the digest has a collision. *)
Theorem verified_items_fixed `{D : Digest} `{V : Verifier} (issued issued' : IssuerSigned)
    (pk : bytes) (alg : Alg) (mso mso' : MobileSecurityObject) (n : string)
    (items items' : list IssuerSignedItem) (it it' : IssuerSignedItem) :
  verify_issuer_signed issued pk alg = Ok mso -> verify_issuer_signed issued' pk alg = Ok mso' ->
  issuer_auth issued = issuer_auth issued' ->
  In (n, items) (name_spaces issued) -> In it items ->
  In (n, items') (name_spaces issued') -> In it' items' ->
  digest_id it = digest_id it' -> item_wellformed it && item_wellformed it' = true ->
  mso = mso' /\ (item_normal it = item_normal it' \/ collision).
Proof. apply items_fixed. Qed.

Definition sample_issued : IssuerSigned :=
  match @build_and_sign Samples.trunc_digest Samples.echo_signer sample_name_spaces "mDL"
    sample_device_key sample_validity sample_key Es256 with
  | Ok i => i
  | Err _ => {| name_spaces := []; issuer_auth := {| protected := []; unprotected := default_unprotected;
                                                    payload := None; signature := [] |} |}
  end.

Definition sample_reduced : IssuerSigned :=
  {| name_spaces := [("org.iso.18013.5.1", [sample_item 0 "age" (Uint 30)])]%string;
     issuer_auth := issuer_auth sample_issued |}.

Lemma verified_items_fixed_witness :
  (item_normal (sample_item 0 "age" (Uint 30)) = item_normal (sample_item 0 "age" (Uint 30))
   \/ @collision Samples.trunc_digest).
Proof.
  apply (@verified_items_fixed Samples.trunc_digest Samples.echo_verifier sample_issued sample_reduced
    [] Es256 (match @verify_issuer_signed Samples.trunc_digest Samples.echo_verifier sample_issued [] Es256 with
              | Ok m => m | Err _ => @issued_mso Samples.trunc_digest [] "" Null sample_validity None end)
    (match @verify_issuer_signed Samples.trunc_digest Samples.echo_verifier sample_reduced [] Es256 with
              | Ok m => m | Err _ => @issued_mso Samples.trunc_digest [] "" Null sample_validity None end)
    "org.iso.18013.5.1" [sample_item 2 "family_name" (Text "Doe"); sample_item 0 "age" (Uint 30)]
    [sample_item 0 "age" (Uint 30)]);
  [vm_compute; reflexivity|vm_compute; reflexivity|reflexivity|by left|right; by left|by left|by left
  |reflexivity|vm_compute; reflexivity].
Defined.
