(* ===== verification/Serde.v ===== *)
(** * serde_json's values

    [serde_json::Value] for the crates that match on its constructors, with the
    operations of its [Map] (a [BTreeMap], as the crates build it without the
    preserve_order feature), and the reader and the printer as a class of
    operations.  A floating point number is kept as its printed text, which is
    all the crates ask of it. *)

From stdpp Require Import pretty.
From S2P Require Import Prelude Utf8 BTree Boundary.

Open Scope Z_scope.
Open Scope rust_scope.

(** ** [serde_json::Value] *)

Inductive Number : Type :=
| PosInt (n : Z)
| NegInt (n : Z)
| Float (text : string).

Inductive Value : Type :=
| VNull
| VBool (b : bool)
| VNumber (n : Number)
| VString (s : string)
| VArray (l : list Value)
| VObject (l : list (string * Value)).

Definition number_as_u64 (n : Number) : option Z :=
  match n with PosInt n => Some n | _ => None end.

Definition number_as_i64 (n : Number) : option Z :=
  match n with
  | PosInt n => if n <=? I64_MAX then Some n else None
  | NegInt n => Some n
  | Float _ => None
  end.

Definition number_to_string (n : Number) : string :=
  match n with PosInt n | NegInt n => pretty n | Float t => t end.

Definition json_array (v : Value) : option (list Value) :=
  match v with VArray l => Some l | _ => None end.

Definition json_object (v : Value) : option (list (string * Value)) :=
  match v with VObject l => Some l | _ => None end.

Definition json_str (v : Value) : option string :=
  match v with VString s => Some s | _ => None end.

Definition is_boolean (v : Value) : bool := match v with VBool _ => true | _ => false end.

#[export] Instance number_eq_decision : EqDecision Number.
Proof. solve_decision. Defined.

(** Floating point zeroes are equal whatever their sign; every other value has
    one text. *)
Definition float_zero (text : string) : bool :=
  bool_decide (text = "0.0"%string) || bool_decide (text = "-0.0"%string).

Definition number_eqb (a b : Number) : bool :=
  match a, b with
  | Float x, Float y => bool_decide (x = y) || (float_zero x && float_zero y)
  | _, _ => bool_decide (a = b)
  end.

Fixpoint value_eqb (a b : Value) {struct a} : bool :=
  match a, b with
  | VNull, VNull => true
  | VBool x, VBool y => Bool.eqb x y
  | VNumber x, VNumber y => number_eqb x y
  | VString x, VString y => bool_decide (x = y)
  | VArray l, VArray k =>
      (fix go (l k : list Value) {struct l} : bool :=
         match l, k with
         | [], [] => true
         | x :: l, y :: k => value_eqb x y && go l k
         | _, _ => false
         end) l k
  | VObject l, VObject k =>
      (fix go (l k : list (string * Value)) {struct l} : bool :=
         match l, k with
         | [], [] => true
         | (m, x) :: l, (n, y) :: k => bool_decide (m = n) && value_eqb x y && go l k
         | _, _ => false
         end) l k
  | _, _ => false
  end.

Fixpoint values_eqb (a b : list Value) : bool :=
  match a, b with
  | [], [] => true
  | x :: a, y :: b => value_eqb x y && values_eqb a b
  | _, _ => false
  end.

(** ** [Map] *)

(** [Value::get] on a member name, which is [None] for anything but an object. *)
Definition v_get (v : Value) (k : string) : option Value :=
  match v with VObject m => bt_get m k | _ => None end.

Definition v_as_i64 (v : Value) : option Z :=
  match v with VNumber n => number_as_i64 n | _ => None end.

Definition v_as_u64 (v : Value) : option Z :=
  match v with VNumber n => number_as_u64 n | _ => None end.

(** [v.get(k).and_then(Value::as_str)]. *)
Definition v_get_str (v : Value) (k : string) : option string :=
  match v_get v k with Some x => json_str x | None => None end.

(** [Map::get(k).and_then(Value::as_str)] and its siblings. *)
Definition m_get_str (m : BTreeMap string Value) (k : string) : option string :=
  match bt_get m k with Some x => json_str x | None => None end.

Definition m_get_i64 (m : BTreeMap string Value) (k : string) : option Z :=
  match bt_get m k with Some x => v_as_i64 x | None => None end.

(** The reader and the printer: [serde_json::from_slice] and [to_vec]. *)
Class SerdeJson : Type := {
  value_from_slice : bytes -> option Value;
  value_to_vec : Value -> bytes;
}.

(** ** Induction *)

Section value_ind.
Variable P : Value -> Prop.
Hypothesis P_null : P VNull.
Hypothesis P_bool : forall b, P (VBool b).
Hypothesis P_number : forall n, P (VNumber n).
Hypothesis P_string : forall s, P (VString s).
Hypothesis P_array : forall l, List.Forall P l -> P (VArray l).
Hypothesis P_object : forall l, List.Forall (fun e => P (snd e)) l -> P (VObject l).

Fixpoint value_nested_ind (v : Value) : P v :=
  match v with
  | VNull => P_null
  | VBool b => P_bool b
  | VNumber n => P_number n
  | VString s => P_string s
  | VArray l =>
      P_array l ((fix go l : List.Forall P l :=
                    match l with
                    | [] => List.Forall_nil _
                    | x :: l => List.Forall_cons _ x l (value_nested_ind x) (go l)
                    end) l)
  | VObject l =>
      P_object l ((fix go l : List.Forall (fun e => P (snd e)) l :=
                     match l with
                     | [] => List.Forall_nil _
                     | (k, x) :: l => List.Forall_cons _ (k, x) l (value_nested_ind x) (go l)
                     end) l)
  end.
End value_ind.

Lemma json_eqb_refl v : value_eqb v v = true.
Proof.
  induction v as [|b|n|s|l H|l H] using value_nested_ind; cbn; try done.
  - by destruct b.
  - unfold number_eqb. destruct n; rewrite bool_decide_true; done.
  - by rewrite bool_decide_true.
  - induction H as [|x l Hx Hl IH]; [done|]. by rewrite Hx, IH.
  - induction H as [|[k x] l Hx Hl IH]; [done|]. cbn in Hx. by rewrite bool_decide_true, Hx, IH.
Qed.
