(* ===== verification/Machine.v ===== *)
(** * Sans-IO machines

    Every protocol crate is a pure function
    [step(state, input, env) -> (next_state, outputs)].  This file has what the
    protocol files share: the interface, the histories a shell can drive a
    machine through (inputs, environments and outputs in order), induction
    over them, an executable run, and the forward simulation used to relate a
    production machine to the crate's reference model. *)

From S2P Require Import Prelude.

(** ** The interface *)

Class Machine (State Input Env Output : Type) : Type := {
  initial : State;
  transition : State -> Input -> Env -> State * list Output;
}.

Section machine.
Context {State Input Env Output : Type} `{!Machine State Input Env Output}.

(** One call of [step] as the shell sees it. *)
Record event : Type := Event { ev_input : Input; ev_env : Env; ev_outputs : list Output }.

Definition history : Type := list event.

Definition outputs (h : history) : list Output := concat (map ev_outputs h).

(** The states a machine is in after a history. *)
Inductive reaches : history -> State -> Prop :=
| reaches_initial : reaches [] initial
| reaches_step h s i e s' out :
    reaches h s -> transition s i e = (s', out) ->
    reaches (h ++ [Event i e out]) s'.

(** Running a machine over a list of inputs. *)
Fixpoint run_from (s : State) (h : history) (l : list (Input * Env)) : history * State :=
  match l with
  | [] => (h, s)
  | (i, e) :: l =>
      let '(s', out) := transition s i e in
      run_from s' (h ++ [Event i e out]) l
  end.

Definition run (l : list (Input * Env)) : history * State := run_from initial [] l.

(** A state no input leaves, and in which no input has an output. *)
Definition terminal (s : State) : Prop := forall i e, transition s i e = (s, []).

Lemma outputs_app h k : outputs (h ++ k) = outputs h ++ outputs k.
Proof. unfold outputs. by rewrite map_app, concat_app. Qed.

Lemma outputs_snoc h i e out : outputs (h ++ [Event i e out]) = outputs h ++ out.
Proof. rewrite outputs_app. unfold outputs at 2. cbn. by rewrite app_nil_r. Qed.

(** What the outputs of one kind say, after one more event. *)
Lemma flat_snoc {A} (f : Output -> list A) h i e out :
  flat_map f (outputs (h ++ [Event i e out])) = flat_map f (outputs h) ++ flat_map f out.
Proof. by rewrite outputs_snoc, flat_map_app. Qed.

Lemma run_from_reaches s h l :
  reaches h s -> reaches (fst (run_from s h l)) (snd (run_from s h l)).
Proof.
  revert s h. induction l as [|[i e] l IH]; intros s h H; [done|]. cbn.
  destruct (transition s i e) as [s' out] eqn:E. apply IH. by econstructor.
Qed.

Lemma run_reaches l : reaches (fst (run l)) (snd (run l)).
Proof. apply run_from_reaches. constructor. Qed.

(** Invariants over histories. *)
Lemma reaches_invariant (Inv : history -> State -> Prop) :
  Inv [] initial ->
  (forall h s i e s' out, reaches h s -> Inv h s -> transition s i e = (s', out) ->
     Inv (h ++ [Event i e out]) s') ->
  forall h s, reaches h s -> Inv h s.
Proof. intros H0 Hs h s H. induction H; eauto. Qed.

(** ** Forward simulation *)

Section simulation.
Context {Abs Ev : Type} (abs_step : Abs -> Ev -> Abs) (R : State -> Abs -> Prop).

(** Every concrete transition is matched by abstract events (none when the
    concrete step has no counterpart). *)
Definition simulates (guard : State -> Input -> Env -> Abs -> Prop) : Prop :=
  forall s c i e s' out,
    R s c -> guard s i e c -> transition s i e = (s', out) ->
    exists evs, R s' (fold_left abs_step evs c).
End simulation.

End machine.

Arguments event : clear implicits.
Arguments history : clear implicits.

(** Order of events: a list is a sublist of the history, and stays one. *)
Lemma sublist_snoc {A} (l k : list A) x : sublist l k -> sublist l (k ++ [x]).
Proof. intros H. by apply sublist_inserts_r. Qed.

Lemma sublist_snoc_same {A} (l k : list A) x : sublist l k -> sublist (l ++ [x]) (k ++ [x]).
Proof. intros H. by apply sublist_app. Qed.

#[export] Hint Resolve sublist_snoc sublist_snoc_same : wallet.
