(* ===== verification/TxnLog.v ===== *)
(** * The transaction log

    crates/txnlog/src/lib.rs: the bounded, hash-chained activity log, its
    append, redaction, wiping and report, and the checked restoration of a
    persisted log against an anchored head. *)

From Stdlib Require Import Sorted Permutation.
From S2P Require Import Prelude Utf8 BTree Boundary.

Open Scope Z_scope.
Open Scope rust_scope.

Definition MAX_ENTRIES : Z := 4096.
Definition MAX_COUNTERPARTY_BYTES : Z := 4096.
Definition MAX_CLAIM_PATHS_PER_ENTRY : Z := 128.
Definition MAX_CLAIM_PATH_BYTES : Z := 1024.
Definition MAX_PAYMENT_PAYEE_BYTES : Z := 4096.
Definition MAX_ENTRY_BYTES : Z := 64 * 1024.
Definition MAX_AGGREGATE_BYTES : Z := 4 * 1024 * 1024.

Definition HASH_DOMAIN : bytes := as_bytes "eudi-txnlog-v1".
Definition ZERO_HASH : bytes := repeat Byte.x00 32.

Inductive TextField : Type := Counterparty | ClaimPath | PaymentPayee | PaymentCurrency.

Inductive Error : Type :=
| EntryLimitExceeded (max : Z)
| FieldEmpty (field : TextField)
| FieldTooLong (field : TextField) (max actual : Z)
| NonCanonicalText (field : TextField)
| TooManyClaimPaths (max actual : Z)
| DuplicateClaimPath
| ClaimPathsNotCanonical
| InvalidEpoch (seq : Z)
| PaymentKindMismatch (seq : Z)
| PaymentCounterpartyMismatch (seq : Z)
| InvalidPaymentAmount (seq : Z)
| InvalidPaymentCurrency (seq : Z)
| EntryByteLimitExceeded (max actual : Z)
| AggregateByteLimitExceeded (max actual : Z)
| SizeOverflow
| SequenceMismatch (expected actual : Z)
| PreviousHashMismatch (seq : Z)
| ZeroEntryHash (seq : Z)
| EntryHashMismatch (seq : Z)
| RedactedEntryNotCanonical (seq : Z)
| AnchoredHeadMismatch (expected actual : bytes).

Inductive Kind : Type := Presentation | Issuance | Payment | Transfer.
Inductive Outcome : Type := Completed | Declined | Aborted.

#[export] Instance kind_eq_decision : EqDecision Kind.
Proof. solve_decision. Defined.
#[export] Instance outcome_eq_decision : EqDecision Outcome.
Proof. solve_decision. Defined.

Definition kind_tag (k : Kind) : byte :=
  match k with
  | Presentation => Byte.x01 | Issuance => Byte.x02 | Payment => Byte.x03 | Transfer => Byte.x04
  end.

Definition kind_name (k : Kind) : string :=
  match k with
  | Presentation => "presentation" | Issuance => "issuance"
  | Payment => "payment" | Transfer => "transfer"
  end.

Definition outcome_tag (o : Outcome) : byte :=
  match o with Completed => Byte.x01 | Declined => Byte.x02 | Aborted => Byte.x03 end.

Definition outcome_name (o : Outcome) : string :=
  match o with Completed => "completed" | Declined => "declined" | Aborted => "aborted" end.

Record PaymentSummary : Type := { payee : string; amount_minor : Z; currency : string }.

#[export] Instance summary_eq_decision : EqDecision PaymentSummary.
Proof. solve_decision. Defined.

Record NewEntry : Type := {
  epoch : Z;
  kind : Kind;
  counterparty : string;
  consent_hash : bytes;
  claim_paths : list string;
  outcome : Outcome;
  payment : option PaymentSummary;
}.

(** A committed entry: its position, its links, and the seven fields it shares
    with [NewEntry] as [content]. *)
Record Entry : Type := {
  seq : Z;
  content : NewEntry;
  prev_hash : bytes;
  entry_hash : bytes;
  redacted : bool;
}.

#[export] Instance new_entry_eq_decision : EqDecision NewEntry.
Proof. solve_decision. Defined.
#[export] Instance entry_eq_decision : EqDecision Entry.
Proof. solve_decision. Defined.

Record TransactionLog : Type := { entries : list Entry; accounted_bytes : Z }.

Definition new : TransactionLog := {| entries := []; accounted_bytes := 0 |}.

(** [usize::checked_add] and [checked_sub] on a 64-bit target. *)
Definition checked_add (a b : Z) : option Z := checked_u64 (a + b).
Definition checked_sub (a b : Z) : option Z := checked_u64 (a - b).

(** ** Validation of one entry *)

(** [str::trim] on the characters of a string. *)
Fixpoint trim_start (cs : list Z) : list Z :=
  match cs with
  | [] => []
  | c :: r => if is_whitespace c then trim_start r else cs
  end.

Definition trim (cs : list Z) : list Z := rev (trim_start (rev (trim_start cs))).

Definition canonical_text (value : string) : bool :=
  bool_decide (trim (str_chars value) = str_chars value) && negb (any_control value).

Definition validate_text (value : string) (field : TextField) (max : Z) (allow_empty : bool)
  : result unit Error :=
  if sis_empty value && negb allow_empty then Err (FieldEmpty field)
  else if max <? slen value then Err (FieldTooLong field max (slen value))
  else if negb (canonical_text value) then Err (NonCanonicalText field)
  else Ok tt.

Fixpoint validate_each (paths : list string) : result unit Error :=
  match paths with
  | [] => Ok tt
  | path :: rest =>
      let? _ := validate_text path ClaimPath MAX_CLAIM_PATH_BYTES false in
      validate_each rest
  end.

Fixpoint repeated (paths : list string) : bool :=
  match paths with
  | [] => false
  | path :: rest => existsb (fun p => bool_decide (p = path)) rest || repeated rest
  end.

Fixpoint windows_ascend (paths : list string) : result unit Error :=
  match paths with
  | a :: ((b :: _) as rest) =>
      match key_cmp a b with
      | Lt => windows_ascend rest
      | Eq => Err DuplicateClaimPath
      | Gt => Err ClaimPathsNotCanonical
      end
  | _ => Ok tt
  end.

Definition validate_claim_paths (paths : list string) (require_canonical_order : bool)
  : result unit Error :=
  if MAX_CLAIM_PATHS_PER_ENTRY <? len paths
  then Err (TooManyClaimPaths MAX_CLAIM_PATHS_PER_ENTRY (len paths))
  else
    let? _ := validate_each paths in
    if repeated paths then Err DuplicateClaimPath
    else if negb require_canonical_order then Ok tt
    else windows_ascend paths.

Definition ACCOUNTED_ENTRY_FIXED_BYTES : Z := 8 + 8 + 1 + 1 + 32 + 32 + 32 + 1 + 8 + 8 + 1.

Fixpoint accounted_paths (bytes : Z) (paths : list string) : result Z Error :=
  match paths with
  | [] => Ok bytes
  | path :: rest =>
      let? bytes := ok_or (let! t := checked_add bytes 8 in checked_add t (slen path)) SizeOverflow in
      accounted_paths bytes rest
  end.

Definition accounted_payment (bytes : Z) (payment : option PaymentSummary) : result Z Error :=
  match payment with
  | None => Ok bytes
  | Some p =>
      ok_or (let! t := checked_add bytes 8 in
             let! t := checked_add t (slen (payee p)) in
             let! t := checked_add t 8 in
             let! t := checked_add t 8 in
             checked_add t (slen (currency p))) SizeOverflow
  end.

Definition accounted_fields_bytes (counterparty : string) (claim_paths : list string)
    (payment : option PaymentSummary) : result Z Error :=
  let? bytes := ok_or (checked_add ACCOUNTED_ENTRY_FIXED_BYTES (slen counterparty)) SizeOverflow in
  let? bytes := accounted_paths bytes claim_paths in
  let? bytes := accounted_payment bytes payment in
  if MAX_ENTRY_BYTES <? bytes then Err (EntryByteLimitExceeded MAX_ENTRY_BYTES bytes)
  else Ok bytes.

Definition accounted_new_entry_bytes (e : NewEntry) : result Z Error :=
  accounted_fields_bytes (counterparty e) (claim_paths e) (payment e).

Definition accounted_entry_bytes (e : Entry) : result Z Error :=
  accounted_new_entry_bytes (content e).

(** The canonical blank content of a tombstone. *)
Definition blank : NewEntry := {|
  epoch := 0; kind := Presentation; counterparty := ""; consent_hash := ZERO_HASH;
  claim_paths := []; outcome := Aborted; payment := None;
|}.

Definition accounted_tombstone_bytes : result Z Error := accounted_new_entry_bytes blank.

Definition validate_payment (p : PaymentSummary) (counterparty : string)
    (claim_paths : list string) (seq : Z) : result unit Error :=
  if negb (is_empty claim_paths) then Err (PaymentKindMismatch seq)
  else
    let? _ := validate_text (payee p) PaymentPayee MAX_PAYMENT_PAYEE_BYTES false in
    if negb (bool_decide (payee p = counterparty)) then Err (PaymentCounterpartyMismatch seq)
    else if amount_minor p =? 0 then Err (InvalidPaymentAmount seq)
    else
      let? _ := validate_text (currency p) PaymentCurrency 3 false in
      if negb (slen (currency p) =? 3)
         || negb (forallb is_ascii_upper (as_bytes (currency p)))
      then Err (InvalidPaymentCurrency seq)
      else Ok tt.

Definition validate_entry_fields (e : NewEntry) (seq : Z) (paths_are_canonical : bool)
  : result Z Error :=
  if epoch e <? 0 then Err (InvalidEpoch seq)
  else
    let? _ := validate_text (counterparty e) Counterparty MAX_COUNTERPARTY_BYTES false in
    let? _ := validate_claim_paths (claim_paths e) paths_are_canonical in
    let? _ := match kind e, payment e with
              | Payment, Some p => validate_payment p (counterparty e) (claim_paths e) seq
              | Payment, None | _, Some _ => Err (PaymentKindMismatch seq)
              | _, None => Ok tt
              end in
    accounted_fields_bytes (counterparty e) (claim_paths e) (payment e).

Definition validate_new_entry (e : NewEntry) (seq : Z) (paths_are_canonical : bool)
  : result Z Error :=
  validate_entry_fields e seq paths_are_canonical.

Definition redacted_entry_is_canonical (e : Entry) : bool :=
  let c := content e in
  (epoch c =? 0) && bool_decide (kind c = Presentation) && sis_empty (counterparty c)
  && bool_decide (consent_hash c = ZERO_HASH) && is_empty (claim_paths c)
  && bool_decide (outcome c = Aborted) && is_none (payment c).

(** ** Hashing *)

Definition put_bytes (bs : bytes) : bytes := to_le_bytes 8 (len bs) ++ bs.

Definition put_payment (p : option PaymentSummary) : bytes :=
  match p with
  | None => [Byte.x00]
  | Some p =>
      [Byte.x01] ++ put_bytes (as_bytes (payee p)) ++ to_le_bytes 8 (amount_minor p)
      ++ put_bytes (as_bytes (currency p))
  end.

Definition put_paths (l : list string) : bytes :=
  to_le_bytes 8 (len l) ++ concat (map (fun p => put_bytes (as_bytes p)) l).

(** The buffer [hash_entry] fills. *)
Definition entry_preimage (seq : Z) (prev_hash : bytes) (e : NewEntry) : bytes :=
  HASH_DOMAIN ++ prev_hash ++ to_le_bytes 8 seq ++ to_le_bytes 8 (epoch e)
  ++ [kind_tag (kind e)] ++ [outcome_tag (outcome e)]
  ++ put_bytes (as_bytes (counterparty e)) ++ consent_hash e
  ++ put_paths (claim_paths e) ++ put_payment (payment e).

Section log.
Context {D : Digest}.

Definition hash_entry (seq : Z) (prev_hash : bytes) (e : NewEntry) : bytes :=
  sha256 (entry_preimage seq prev_hash e).

(** ** Validation of a whole chain *)

(** The body of the loop up to the entry's size. *)
Definition validate_entry (expected_seq : Z) (previous_hash : bytes) (e : Entry)
  : result Z Error :=
  if negb (seq e =? expected_seq) then Err (SequenceMismatch expected_seq (seq e))
  else if negb (bool_decide (prev_hash e = previous_hash)) then Err (PreviousHashMismatch (seq e))
  else if bool_decide (entry_hash e = ZERO_HASH) then Err (ZeroEntryHash (seq e))
  else if redacted e then
    if negb (redacted_entry_is_canonical e) then Err (RedactedEntryNotCanonical (seq e))
    else accounted_entry_bytes e
  else
    let? bytes := validate_entry_fields (content e) (seq e) true in
    if negb (bool_decide (hash_entry (seq e) (prev_hash e) (content e) = entry_hash e))
    then Err (EntryHashMismatch (seq e))
    else Ok bytes.

Fixpoint validate_loop (index : Z) (previous_hash : bytes) (aggregate_bytes : Z)
    (l : list Entry) : result (bytes * Z) Error :=
  match l with
  | [] => Ok (previous_hash, aggregate_bytes)
  | e :: rest =>
      let? entry_bytes := validate_entry index previous_hash e in
      let? aggregate := ok_or (checked_add aggregate_bytes entry_bytes) SizeOverflow in
      if MAX_AGGREGATE_BYTES <? aggregate
      then Err (AggregateByteLimitExceeded MAX_AGGREGATE_BYTES aggregate)
      else validate_loop (index + 1) (entry_hash e) aggregate rest
  end.

Definition validate_entries (l : list Entry) (expected_anchored_head : bytes) : result Z Error :=
  if MAX_ENTRIES <? len l then Err (EntryLimitExceeded MAX_ENTRIES)
  else
    let? (previous_hash, aggregate_bytes) := validate_loop 0 ZERO_HASH 0 l in
    if negb (bool_decide (previous_hash = expected_anchored_head))
    then Err (AnchoredHeadMismatch expected_anchored_head previous_hash)
    else Ok aggregate_bytes.

(** ** The operations *)

Definition is_exhausted (self : TransactionLog) : bool :=
  (MAX_ENTRIES <=? len (entries self)) || (MAX_AGGREGATE_BYTES <=? accounted_bytes self).

Definition can_guarantee_max_entry (self : TransactionLog) : bool :=
  (len (entries self) <? MAX_ENTRIES)
  && match checked_add (accounted_bytes self) MAX_ENTRY_BYTES with
     | Some bytes => bytes <=? MAX_AGGREGATE_BYTES
     | None => false
     end.

(** The aggregate after one more entry. *)
Definition grown (self : TransactionLog) (entry_bytes : Z) : result Z Error :=
  let? aggregate := ok_or (checked_add (accounted_bytes self) entry_bytes) SizeOverflow in
  if MAX_AGGREGATE_BYTES <? aggregate
  then Err (AggregateByteLimitExceeded MAX_AGGREGATE_BYTES aggregate)
  else Ok aggregate.

Definition check_append (self : TransactionLog) (e : NewEntry) : result unit Error :=
  if MAX_ENTRIES <=? len (entries self) then Err (EntryLimitExceeded MAX_ENTRIES)
  else
    let? entry_bytes := validate_new_entry e (len (entries self)) false in
    let? _ := grown self entry_bytes in
    Ok tt.

Definition head (self : TransactionLog) : bytes :=
  match list.last (entries self) with Some e => entry_hash e | None => ZERO_HASH end.

Definition sort_paths (e : NewEntry) : NewEntry := {|
  epoch := epoch e; kind := kind e; counterparty := counterparty e;
  consent_hash := consent_hash e; claim_paths := key_sort (claim_paths e);
  outcome := outcome e; payment := payment e;
|}.

(** [append] returns the log that [&mut self] is left as, and its result. *)
Definition append (self : TransactionLog) (e : NewEntry)
  : TransactionLog * result Entry Error :=
  match
    (let? _ := check_append self e in
     let e := sort_paths e in
     let seq := len (entries self) in
     let? entry_bytes := validate_new_entry e seq true in
     let? aggregate := grown self entry_bytes in
     let hash := hash_entry seq (head self) e in
     if bool_decide (hash = ZERO_HASH) then Err (ZeroEntryHash seq)
     else Ok ({| seq := seq; content := e; prev_hash := head self; entry_hash := hash;
                 redacted := false |}, aggregate))
  with
  | Err err => (self, Err err)
  | Ok (entry, aggregate) =>
      ({| entries := entries self ++ [entry]; accounted_bytes := aggregate |}, Ok entry)
  end.

Definition tombstone (e : Entry) : Entry := {|
  seq := seq e; content := blank; prev_hash := prev_hash e; entry_hash := entry_hash e;
  redacted := true;
|}.

Definition redact (self : TransactionLog) (seq : Z) : TransactionLog * bool :=
  match entries self !! Z.to_nat seq with
  | None => (self, false)
  | Some entry =>
      if redacted entry then (self, true)
      else
        match
          (let! old_bytes := ok (accounted_entry_bytes entry) in
           let! tombstone_bytes := ok accounted_tombstone_bytes in
           let! rest := checked_sub (accounted_bytes self) old_bytes in
           checked_add rest tombstone_bytes)
        with
        | None => (self, false)
        | Some next =>
            ({| entries := <[Z.to_nat seq := tombstone entry]> (entries self);
                accounted_bytes := next |}, true)
        end
  end.

Definition wipe (self : TransactionLog) : TransactionLog :=
  {| entries := []; accounted_bytes := 0 |}.

Definition verify_integrity (self : TransactionLog) : bool :=
  match validate_entries (entries self) (head self) with
  | Ok bytes => bytes =? accounted_bytes self
  | Err _ => false
  end.

Definition restore_checked (l : list Entry) (expected_anchored_head : bytes)
  : result TransactionLog Error :=
  let? bytes := validate_entries l expected_anchored_head in
  Ok {| entries := l; accounted_bytes := bytes |}.

Definition replace_checked (self : TransactionLog) (l : list Entry)
    (expected_anchored_head : bytes) : TransactionLog * result unit Error :=
  match restore_checked l expected_anchored_head with
  | Ok restored => (restored, Ok tt)
  | Err err => (self, Err err)
  end.

(** ** The report *)

Record Report : Type := {
  total : Z; presentations : Z; issuances : Z; payments : Z; transfers : Z;
  redactions : Z; counterparties : list string;
}.

Definition report_step (r : Report) (e : Entry) : Report :=
  let 'Build_Report t p i y x d cs := r in
  if redacted e then Build_Report t p i y x (d + 1) cs
  else
    let c := counterparty (content e) in
    let cs := if existsb (fun s => bool_decide (s = c)) cs then cs else cs ++ [c] in
    match kind (content e) with
    | Presentation => Build_Report t (p + 1) i y x d cs
    | Issuance => Build_Report t p (i + 1) y x d cs
    | Payment => Build_Report t p i (y + 1) x d cs
    | Transfer => Build_Report t p i y (x + 1) d cs
    end.

Definition report (self : TransactionLog) : Report :=
  let r := fold_left report_step (entries self) (Build_Report (len (entries self)) 0 0 0 0 0 []) in
  Build_Report (total r) (presentations r) (issuances r) (payments r) (transfers r)
    (redactions r) (key_sort (counterparties r)).

(** ** Histories: what a shell can do to a log *)

Inductive operation : Type :=
| Append (e : NewEntry)
| Redact (seq : Z)
| Wipe
| Replace (l : list Entry) (anchor : bytes).

Definition apply (self : TransactionLog) (op : operation) : TransactionLog :=
  match op with
  | Append e => fst (append self e)
  | Redact seq => fst (redact self seq)
  | Wipe => wipe self
  | Replace l anchor => fst (replace_checked self l anchor)
  end.

Definition after (self : TransactionLog) (ops : list operation) : TransactionLog :=
  fold_left apply ops self.
End log.

(** ** The preimage determines the entry *)

Definition typed_summary (p : PaymentSummary) : bool :=
  rust_string (payee p) && is_u64 (amount_minor p) && rust_string (currency p).

Definition typed_entry (e : NewEntry) : bool :=
  is_i64 (epoch e) && rust_string (counterparty e) && bool_decide (length (consent_hash e) = 32%nat)
  && forallb rust_string (claim_paths e) && (len (claim_paths e) <=? I64_MAX)
  && match payment e with Some p => typed_summary p | None => true end.

Lemma put_bytes_app a b x y :
  rust_vec a = true -> rust_vec b = true -> put_bytes a ++ x = put_bytes b ++ y -> a = b /\ x = y.
Proof.
  unfold put_bytes, rust_vec. intros Ha Hb E. rewrite <- !app_assoc in E. bool_prop.
  apply app_inv_len in E as [El E]; [|by rewrite !len_to_le_bytes].
  pose proof (len_nonneg a). pose proof (len_nonneg b).
  apply to_le_bytes_u64 in El; [|width; lia..]. by apply app_inv_len in E.
Qed.

Lemma put_string_app s t x y :
  rust_string s = true -> rust_string t = true ->
  put_bytes (as_bytes s) ++ x = put_bytes (as_bytes t) ++ y -> s = t /\ x = y.
Proof.
  unfold rust_string. intros Hs Ht E. bool_prop.
  apply put_bytes_app in E as [E ->]; [|apply Z.leb_le; done..]. by apply as_bytes_inj in E.
Qed.

Lemma put_strings_app l m x y :
  forallb rust_string l = true -> forallb rust_string m = true -> length l = length m ->
  concat (map (fun p => put_bytes (as_bytes p)) l) ++ x
  = concat (map (fun p => put_bytes (as_bytes p)) m) ++ y ->
  l = m /\ x = y.
Proof.
  revert m. induction l as [|s l IH]; intros [|t m] Hl Hm Hlen E; try done.
  cbn in Hl, Hm, E, Hlen. bool_prop. rewrite <- !app_assoc in E.
  apply put_string_app in E as [-> E]; [|done..]. apply IH in E as [-> ->]; [done|done|done|lia].
Qed.

Lemma put_paths_app l m x y :
  forallb rust_string l = true -> forallb rust_string m = true ->
  len l <= I64_MAX -> len m <= I64_MAX ->
  put_paths l ++ x = put_paths m ++ y -> l = m /\ x = y.
Proof.
  unfold put_paths. intros Hl Hm Bl Bm E. rewrite <- !app_assoc in E.
  apply app_inv_len in E as [El E]; [|by rewrite !len_to_le_bytes].
  pose proof (len_nonneg l). pose proof (len_nonneg m).
  apply to_le_bytes_u64 in El; [|width; lia..].
  by apply put_strings_app in E; [| | |unfold len in El; lia].
Qed.

Lemma put_payment_inj p q :
  match p with Some p => typed_summary p | None => true end = true ->
  match q with Some p => typed_summary p | None => true end = true ->
  put_payment p = put_payment q -> p = q.
Proof.
  destruct p as [[a m c]|], q as [[a' m' c']|]; cbn [put_payment]; try done; intros Hp Hq E.
  unfold typed_summary in *. cbn in Hp, Hq. bool_prop.
  apply app_inv_len in E as [_ E]; [|done]. cbn [payee amount_minor currency] in *.
  apply put_string_app in E as [-> E]; [|done..].
  apply app_inv_len in E as [Em E]; [|by rewrite !len_to_le_bytes].
  apply to_le_bytes_u64 in Em as ->; [|done..].
  rewrite <- (app_nil_r (put_bytes _)), <- (app_nil_r (put_bytes (as_bytes c'))) in E.
  by apply put_string_app in E as [-> _].
Qed.

Lemma preimage_inj s s' p p' e e' :
  typed_entry e = true -> typed_entry e' = true ->
  is_u64 s = true -> is_u64 s' = true -> length p = 32%nat -> length p' = 32%nat ->
  entry_preimage s p e = entry_preimage s' p' e' -> s = s' /\ p = p' /\ e = e'.
Proof.
  destruct e as [t k c h l o y], e' as [t' k' c' h' l' o' y'].
  unfold typed_entry, entry_preimage.
  cbn [epoch kind counterparty consent_hash claim_paths outcome payment].
  intros Ht Ht' Hs Hs' Hp Hp' E. bool_prop. rewrite !bool_decide_eq_true in *.
  apply app_inv_len in E as [_ E]; [|done].
  apply app_inv_len in E as [-> E]; [|unfold len; lia].
  apply app_inv_len in E as [Es E]; [|by rewrite !len_to_le_bytes].
  apply to_le_bytes_u64 in Es as ->; [|done..].
  apply app_inv_len in E as [Ee E]; [|by rewrite !len_to_le_bytes].
  apply to_le_bytes_i64 in Ee as ->; [|done..].
  apply app_inv_len in E as [Ek E]; [|done].
  apply app_inv_len in E as [Eo E]; [|done].
  apply put_string_app in E as [-> E]; [|done..].
  apply app_inv_len in E as [-> E]; [|unfold len; lia].
  apply put_paths_app in E as [-> E]; [|done..].
  apply put_payment_inj in E as ->; [|done..].
  destruct k, k'; try discriminate Ek; destruct o, o'; done.
Qed.

(** ** Sizes *)

Lemma checked_add_Some a b n : checked_add a b = Some n -> n = a + b /\ 0 <= n <= U64_MAX.
Proof.
  unfold checked_add, checked_u64. destruct (is_u64 (a + b)) eqn:E; [|done]. intros [= <-].
  unfold is_u64 in E. by bool_prop.
Qed.

Lemma checked_add_ok a b : 0 <= a + b <= U64_MAX -> checked_add a b = Some (a + b).
Proof.
  intros H. unfold checked_add, checked_u64, is_u64.
  replace ((0 <=? a + b) && (a + b <=? U64_MAX)) with true; [done|].
  symmetry. apply andb_true_iff. lia.
Qed.

(** What the fields of an entry take, in unbounded arithmetic. *)
Definition paths_size (l : list string) : Z := fold_right (fun p n => 8 + slen p + n) 0 l.

Definition payment_size (p : option PaymentSummary) : Z :=
  match p with Some p => 24 + slen (payee p) + slen (currency p) | None => 0 end.

Definition entry_size (e : NewEntry) : Z :=
  ACCOUNTED_ENTRY_FIXED_BYTES + slen (counterparty e) + paths_size (claim_paths e)
  + payment_size (payment e).

Lemma slen_nonneg s : 0 <= slen s.
Proof. apply len_nonneg. Qed.

Lemma paths_size_nonneg l : 0 <= paths_size l.
Proof.
  unfold paths_size. induction l as [|s l IH]; cbn; [lia|]. pose proof (slen_nonneg s). lia.
Qed.

Lemma paths_size_perm l m : Permutation l m -> paths_size l = paths_size m.
Proof.
  unfold paths_size. induction 1; cbn; lia.
Qed.

Lemma payment_size_nonneg p : 0 <= payment_size p.
Proof.
  destruct p as [p|]; cbn; [|lia]. pose proof (slen_nonneg (payee p)).
  pose proof (slen_nonneg (currency p)). lia.
Qed.

Lemma entry_size_min e : ACCOUNTED_ENTRY_FIXED_BYTES <= entry_size e.
Proof.
  unfold entry_size. pose proof (slen_nonneg (counterparty e)).
  pose proof (paths_size_nonneg (claim_paths e)). pose proof (payment_size_nonneg (payment e)). lia.
Qed.

Lemma accounted_paths_Ok n l m : accounted_paths n l = Ok m -> m = n + paths_size l.
Proof.
  revert n. induction l as [|s l IH]; cbn; intros n H; [injection H as <-; lia|].
  fold (paths_size l).
  destruct (checked_add n 8) as [t|] eqn:Et; [|done]. apply checked_add_Some in Et as [-> _].
  destruct (checked_add (n + 8) _) as [u|] eqn:Eu; [|done]. apply checked_add_Some in Eu as [-> _].
  cbn in H. apply IH in H. lia.
Qed.

Lemma accounted_payment_Ok n p m : accounted_payment n p = Ok m -> m = n + payment_size p.
Proof.
  destruct p as [p|]; cbn; [|intros [= <-]; lia]. intros H.
  repeat match type of H with
  | context [checked_add ?a ?b] =>
      destruct (checked_add a b) eqn:?E; [|done]; apply checked_add_Some in E as [-> _]
  end.
  cbn in H. injection H as <-. lia.
Qed.

(** The accounting computes the size, and refuses what is above the limit. *)
Lemma accounted_Ok e n :
  accounted_new_entry_bytes e = Ok n -> n = entry_size e /\ n <= MAX_ENTRY_BYTES.
Proof.
  unfold accounted_new_entry_bytes, accounted_fields_bytes.
  destruct (checked_add _ _) as [a|] eqn:Ea; [|done]. apply checked_add_Some in Ea as [-> _].
  cbn [ok_or]. destruct (accounted_paths _ _) as [b|] eqn:Eb; [|done].
  apply accounted_paths_Ok in Eb as ->.
  destruct (accounted_payment _ _) as [c|] eqn:Ec; [|done]. apply accounted_payment_Ok in Ec as ->.
  case_match eqn:E; [done|]. intros [= <-]. bool_prop. split; [done|lia].
Qed.

Lemma accounted_paths_fits n l :
  0 <= n -> n + paths_size l <= U64_MAX -> accounted_paths n l = Ok (n + paths_size l).
Proof.
  revert n. induction l as [|s l IH]; cbn; intros n Hn Hs; [f_equal; lia|].
  fold (paths_size l) in *. pose proof (paths_size_nonneg l). pose proof (slen_nonneg s).
  rewrite !checked_add_ok by lia. cbn. rewrite IH by lia. f_equal. lia.
Qed.

Lemma accounted_payment_fits n p :
  0 <= n -> n + payment_size p <= U64_MAX -> accounted_payment n p = Ok (n + payment_size p).
Proof.
  destruct p as [p|]; cbn; intros Hn Hs; [|f_equal; lia].
  pose proof (slen_nonneg (payee p)). pose proof (slen_nonneg (currency p)).
  rewrite !checked_add_ok by lia. cbn. f_equal. lia.
Qed.

Lemma accounted_fits e :
  entry_size e <= MAX_ENTRY_BYTES -> accounted_new_entry_bytes e = Ok (entry_size e).
Proof.
  intros H. pose proof (entry_size_min e). unfold entry_size in *.
  pose proof (slen_nonneg (counterparty e)). pose proof (paths_size_nonneg (claim_paths e)).
  pose proof (payment_size_nonneg (payment e)).
  unfold accounted_new_entry_bytes, accounted_fields_bytes, MAX_ENTRY_BYTES,
    ACCOUNTED_ENTRY_FIXED_BYTES in *.
  rewrite checked_add_ok by (width; lia). cbn [ok_or].
  rewrite accounted_paths_fits by (width; lia). rewrite accounted_payment_fits by (width; lia).
  case_match eqn:E; [|done]. bool_prop. lia.
Qed.

Lemma validate_fields_Ok e s b n :
  validate_entry_fields e s b = Ok n -> accounted_new_entry_bytes e = Ok n.
Proof. unfold validate_entry_fields. intros H. repeat (case_match; try done). Qed.

Lemma tombstone_size : accounted_tombstone_bytes = Ok ACCOUNTED_ENTRY_FIXED_BYTES.
Proof. reflexivity. Qed.

(** ** Sorting the paths of a candidate keeps it valid *)

Lemma repeated_NoDup l : repeated l = false <-> List.NoDup l.
Proof.
  induction l as [|s l IH]; cbn; [split; [constructor|done]|].
  rewrite orb_false_iff, IH, List.NoDup_cons_iff. split; intros [Hs Hl]; split; try done.
  - intros Hin. assert (existsb (fun p => bool_decide (p = s)) l = true) as E; [|congruence].
    apply existsb_exists. exists s. split; [done|]. by apply bool_decide_eq_true.
  - apply not_true_iff_false. intros (x & Hx & E)%existsb_exists.
    apply bool_decide_eq_true in E as ->. done.
Qed.

Lemma validate_each_Ok l :
  validate_each l = Ok tt
  <-> Forall (fun p => validate_text p ClaimPath MAX_CLAIM_PATH_BYTES false = Ok tt) l.
Proof.
  induction l as [|s l IH]; cbn; [split; [constructor|done]|].
  rewrite Forall_cons_iff, <- IH. destruct (validate_text _ _ _ _) as [[]|]; intuition congruence.
Qed.

Lemma windows_sorted l :
  StronglySorted (fun a b : string => key_cmp a b = Lt) l -> windows_ascend l = Ok tt.
Proof.
  induction 1 as [|a l Hl IH Ha]; [done|]. destruct Ha as [|b l Hb _]; [done|].
  change (match key_cmp a b with
          | Lt => windows_ascend (b :: l)
          | Eq => Err DuplicateClaimPath | Gt => Err ClaimPathsNotCanonical end = Ok tt).
  by rewrite Hb.
Qed.

Lemma claim_paths_sorted l b :
  validate_claim_paths l b = Ok tt -> validate_claim_paths (key_sort l) true = Ok tt.
Proof.
  unfold validate_claim_paths. intros H.
  assert (len (key_sort l) = len l) as ->
    by (unfold len; f_equal; apply Permutation_length, key_sort_perm).
  destruct (MAX_CLAIM_PATHS_PER_ENTRY <? len l); [done|].
  destruct (validate_each l) as [[]|] eqn:E; [|done].
  assert (validate_each (key_sort l) = Ok tt) as ->.
  { apply validate_each_Ok in E. apply validate_each_Ok.
    by apply (Permutation_Forall (Permutation_sym (key_sort_perm l))). }
  destruct (repeated l) eqn:Er; [done|]. apply repeated_NoDup in Er.
  assert (List.NoDup (key_sort l)) as Hd
    by (by apply (Permutation_NoDup (Permutation_sym (key_sort_perm l)))).
  rewrite (proj2 (repeated_NoDup _) Hd). cbn. by apply windows_sorted, sorted_strict, key_sort_sorted.
Qed.

Lemma entry_size_sorted e : entry_size (sort_paths e) = entry_size e.
Proof. unfold entry_size, sort_paths. cbn. by rewrite (paths_size_perm _ _ (key_sort_perm _)). Qed.

Lemma key_sort_nil (l : list string) : is_empty (key_sort l) = is_empty l.
Proof.
  destruct l as [|s l]; [done|]. cbn. pose proof (key_sort_perm (s :: l)) as H.
  destruct (key_sort (s :: l)) eqn:E; [by apply Permutation_nil in H|]. cbn in E. by rewrite E.
Qed.

Lemma validate_sorted e s b n :
  validate_entry_fields e s b = Ok n -> validate_entry_fields (sort_paths e) s true = Ok n.
Proof.
  intros H. pose proof (validate_fields_Ok _ _ _ _ H) as Ha. apply accounted_Ok in Ha as [-> Ha].
  unfold validate_entry_fields in *. cbn [epoch kind counterparty claim_paths payment sort_paths].
  destruct (epoch e <? 0); [done|]. destruct (validate_text _ _ _ _) as [[]|]; [|done].
  destruct (validate_claim_paths (claim_paths e) b) as [[]|] eqn:Ec; [|done].
  rewrite (claim_paths_sorted _ _ Ec).
  assert (accounted_new_entry_bytes (sort_paths e) = Ok (entry_size e)) as Hs.
  { rewrite <- (entry_size_sorted e). apply accounted_fits. rewrite entry_size_sorted. exact Ha. }
  unfold accounted_new_entry_bytes in Hs. cbn [counterparty claim_paths payment sort_paths] in Hs.
  destruct (kind e), (payment e) as [p|]; try done.
  unfold validate_payment in *. rewrite key_sort_nil, Hs. cbn [payee currency] in *.
  by repeat (case_match; try done).
Qed.

(** ** The chain *)

Section chain.
Context {D : Digest}.

(** The hash a list of entries ends in. *)
Definition last_hash (p : bytes) (l : list Entry) : bytes :=
  match list.last l with Some e => entry_hash e | None => p end.

Lemma last_hash_cons p e l : last_hash p (e :: l) = last_hash (entry_hash e) l.
Proof. unfold last_hash. rewrite last_cons. by destruct (list.last l). Qed.

Lemma last_hash_snoc p l e : last_hash p (l ++ [e]) = entry_hash e.
Proof. unfold last_hash. by rewrite last_snoc. Qed.

Lemma validate_entry_size i p e n :
  validate_entry i p e = Ok n -> n = entry_size (content e) /\ n <= MAX_ENTRY_BYTES.
Proof.
  unfold validate_entry, accounted_entry_bytes. intros H.
  repeat (case_match; try done); simplify_eq;
    first [by apply accounted_Ok | by eapply accounted_Ok, validate_fields_Ok].
Qed.

(** Without its running sum, the loop checks each entry at its place. *)
Fixpoint links (i : Z) (p : bytes) (l : list Entry) : Prop :=
  match l with
  | [] => True
  | e :: l => is_ok (validate_entry i p e) = true /\ links (i + 1) (entry_hash e) l
  end.

Definition total_size (l : list Entry) : Z := fold_right (fun e n => entry_size (content e) + n) 0 l.

Lemma total_size_nonneg l : 0 <= total_size l.
Proof.
  unfold total_size. induction l as [|e l IH]; cbn; [lia|]. pose proof (entry_size_min (content e)).
  unfold ACCOUNTED_ENTRY_FIXED_BYTES in *. lia.
Qed.

Lemma total_size_app l m : total_size (l ++ m) = total_size l + total_size m.
Proof. unfold total_size. induction l as [|e l IH]; cbn; lia. Qed.

Lemma validate_loop_iff i p n l h m :
  0 <= n <= MAX_AGGREGATE_BYTES ->
  validate_loop i p n l = Ok (h, m)
  <-> links i p l /\ h = last_hash p l /\ m = n + total_size l /\ m <= MAX_AGGREGATE_BYTES.
Proof.
  revert i p n. induction l as [|e l IH]; intros i p n Hn.
  { cbn. unfold last_hash. cbn. split; [intros [= <- <-]; repeat split; lia|].
    intros (_ & -> & -> & _). do 2 f_equal. lia. }
  rewrite last_hash_cons. cbn [validate_loop links total_size fold_right]. fold (total_size l).
  pose proof (total_size_nonneg l).
  destruct (validate_entry i p e) as [b|] eqn:E; [|cbn; intuition congruence].
  apply validate_entry_size in E as [-> Hb]. cbn [is_ok].
  pose proof (entry_size_min (content e)).
  unfold ACCOUNTED_ENTRY_FIXED_BYTES, MAX_ENTRY_BYTES, MAX_AGGREGATE_BYTES in *.
  rewrite checked_add_ok by (width; lia). cbn [ok_or].
  destruct (_ <? _) eqn:E; bool_prop; [intuition (try done; try lia)|].
  rewrite IH by lia. intuition lia.
Qed.

Lemma links_app i p l m : links i p (l ++ m) <-> links i p l /\ links (i + len l) (last_hash p l) m.
Proof.
  revert i p. induction l as [|e l IH]; intros i p.
  - rewrite len_nil, Z.add_0_r. cbn. tauto.
  - rewrite last_hash_cons, len_cons. cbn [app links]. rewrite IH.
    replace (i + (1 + len l)) with (i + 1 + len l) by lia. tauto.
Qed.

(** What [verify_integrity] establishes. *)
Definition intact (self : TransactionLog) : Prop :=
  len (entries self) <= MAX_ENTRIES
  /\ links 0 ZERO_HASH (entries self)
  /\ accounted_bytes self = total_size (entries self)
  /\ accounted_bytes self <= MAX_AGGREGATE_BYTES.

Lemma validate_entries_Ok l h n :
  validate_entries l h = Ok n
  <-> intact {| entries := l; accounted_bytes := n |} /\ h = last_hash ZERO_HASH l.
Proof.
  unfold validate_entries, intact. cbn [entries accounted_bytes].
  destruct (MAX_ENTRIES <? len l) eqn:El; bool_prop; [split; [done|lia]|].
  destruct (validate_loop 0 ZERO_HASH 0 l) as [[h' m]|] eqn:E.
  - apply validate_loop_iff in E as (Hl & -> & -> & Hm); [|done].
    destruct (bool_decide _) eqn:Eh; cbn [negb].
    + apply bool_decide_eq_true in Eh. split; [intros [= <-]; intuition|]. intros ((_ & _ & -> & _) & _).
      reflexivity.
    + apply bool_decide_eq_false in Eh. split; [done|]. intros (_ & ->). done.
  - split; [done|]. intros ((_ & Hl & -> & Hm) & _).
    assert (validate_loop 0 ZERO_HASH 0 l = Ok (last_hash ZERO_HASH l, 0 + total_size l)) as E'.
    { apply validate_loop_iff; [done|]. repeat split; [done|lia]. }
    congruence.
Qed.

Lemma verify_integrity_iff self : verify_integrity self = true <-> intact self.
Proof.
  destruct self as [l n]. unfold verify_integrity. cbn [entries accounted_bytes]. split.
  - destruct (validate_entries l _) as [m|] eqn:E; [|done]. intros ->%Z.eqb_eq.
    by apply validate_entries_Ok in E as [E _].
  - intros H. assert (validate_entries l (head {| entries := l; accounted_bytes := n |}) = Ok n) as ->.
    { by apply validate_entries_Ok. }
    apply Z.eqb_refl.
Qed.

Lemma intact_new : intact new.
Proof. repeat split; cbn; done. Qed.

(** ** Appending *)

Lemma grown_Ok self n m :
  grown self n = Ok m -> m = accounted_bytes self + n /\ m <= MAX_AGGREGATE_BYTES.
Proof.
  unfold grown. destruct (checked_add _ _) as [a|] eqn:E; [|done].
  apply checked_add_Some in E as [-> _]. cbn. case_match eqn:E; [done|]. intros [= <-]. bool_prop. done.
Qed.

(** What an append that succeeds did. *)
Lemma append_Ok self e self' x :
  append self e = (self', Ok x) ->
  x = {| seq := len (entries self); content := sort_paths e; prev_hash := head self;
         entry_hash := hash_entry (len (entries self)) (head self) (sort_paths e);
         redacted := false |}
  /\ entry_hash x <> ZERO_HASH
  /\ len (entries self) < MAX_ENTRIES
  /\ validate_new_entry (sort_paths e) (len (entries self)) true = Ok (entry_size e)
  /\ self' = {| entries := entries self ++ [x]; accounted_bytes := accounted_bytes self + entry_size e |}
  /\ accounted_bytes self' <= MAX_AGGREGATE_BYTES.
Proof.
  unfold append, check_append.
  destruct (MAX_ENTRIES <=? len (entries self)) eqn:El; [done|]. bool_prop.
  destruct (validate_new_entry e _ false) as [n|] eqn:Ev; [|done].
  pose proof (validate_sorted _ _ _ _ Ev) as Hv. unfold validate_new_entry in *. rewrite Hv.
  apply validate_fields_Ok, accounted_Ok in Ev as [-> _].
  destruct (grown self (entry_size e)) as [m|] eqn:Eg; [|done].
  apply grown_Ok in Eg as [-> Hm]. case_bool_decide as Eh; [done|].
  intros [= <- <-]. cbn [entry_hash accounted_bytes]. by repeat split.
Qed.

(** [append] fails exactly as [check_append] does, but for a hash of zero. *)
Lemma append_check self e :
  snd (append self e)
  = match check_append self e with
    | Err err => Err err
    | Ok _ =>
        let seq := len (entries self) in
        let hash := hash_entry seq (head self) (sort_paths e) in
        if bool_decide (hash = ZERO_HASH) then Err (ZeroEntryHash seq)
        else Ok {| seq := seq; content := sort_paths e; prev_hash := head self;
                   entry_hash := hash; redacted := false |}
    end.
Proof.
  unfold append. destruct (check_append self e) as [[]|] eqn:E; [|done].
  unfold check_append in E. case_match; [done|].
  destruct (validate_new_entry e _ false) as [n|] eqn:Ev; [|done].
  unfold validate_new_entry in *. rewrite (validate_sorted _ _ _ _ Ev).
  destruct (grown self n) as [m|] eqn:Eg; [|done]. cbn zeta. by case_bool_decide.
Qed.

Lemma append_Err self e self' err : append self e = (self', Err err) -> self' = self.
Proof. unfold append. repeat case_match; congruence. Qed.

Lemma append_intact self e : intact self -> intact (fst (append self e)).
Proof.
  intros (Hn & Hl & Hs & Hb). destruct (append self e) as [self' [x|err]] eqn:E; cbn [fst].
  2: { apply append_Err in E as ->. by repeat split. }
  apply append_Ok in E as (Ex & Hz & Hlen & Hv & -> & Hm). cbn [accounted_bytes] in Hm.
  repeat split; cbn [entries accounted_bytes].
  - rewrite len_app, len_cons, len_nil. lia.
  - apply links_app. split; [done|]. cbn [links]. split; [|done].
    unfold validate_entry. subst x. cbn [seq prev_hash entry_hash redacted content] in *.
    rewrite Z.add_0_l, Z.eqb_refl. cbn [negb].
    rewrite bool_decide_eq_true_2 by done. cbn [negb].
    rewrite bool_decide_eq_false_2 by done.
    unfold validate_new_entry in Hv. rewrite Hv.
    by rewrite bool_decide_eq_true_2.
  - rewrite total_size_app, Hs. subst x. cbn. rewrite entry_size_sorted. lia.
  - done.
Qed.

(** ** Redaction *)

Lemma validate_tombstone i p e :
  is_ok (validate_entry i p e) = true -> is_ok (validate_entry i p (tombstone e)) = true.
Proof.
  unfold validate_entry. cbn [seq prev_hash entry_hash redacted content tombstone].
  repeat (case_match; try done).
Qed.

Lemma redact_spec self s self' b :
  redact self s = (self', b) ->
  (self' = self /\ forall e, entries self !! Z.to_nat s = Some e -> b = true -> redacted e = true)
  \/ exists e, b = true /\ entries self !! Z.to_nat s = Some e /\ redacted e = false
       /\ entries self' = <[Z.to_nat s := tombstone e]> (entries self)
       /\ accounted_bytes self'
          = accounted_bytes self - entry_size (content e) + ACCOUNTED_ENTRY_FIXED_BYTES.
Proof.
  unfold redact. rewrite tombstone_size. cbn [ok].
  destruct (entries self !! Z.to_nat s) as [e|] eqn:El; [|intros [= <- <-]; by left].
  destruct (redacted e) eqn:Er; [intros [= <- <-]; left; split; [done|]; congruence|].
  destruct (accounted_entry_bytes e) as [n|] eqn:En;
    [|intros [= <- <-]; left; split; [done|]; congruence].
  apply accounted_Ok in En as [-> Hn]. cbn [ok].
  destruct (checked_sub _ _) as [r|] eqn:E1; [|intros [= <- <-]; left; split; [done|]; congruence].
  destruct (checked_add r _) as [t|] eqn:E2; [|intros [= <- <-]; left; split; [done|]; congruence].
  apply checked_add_Some in E2 as [-> _]. unfold checked_sub, checked_u64 in E1.
  case_match; [|done]. injection E1 as <-. intros [= <- <-]. right. exists e. by repeat split.
Qed.

Lemma links_insert i p l k e :
  links i p l -> l !! k = Some e -> links i p (<[k := tombstone e]> l).
Proof.
  revert i p k. induction l as [|x l IH]; intros i p k; [done|]. cbn [links].
  intros [Hx Hl]. destruct k as [|k]; cbn.
  - intros [= ->]. split; [by apply validate_tombstone|done].
  - intros Hk. split; [done|]. by apply IH.
Qed.

Lemma total_size_insert l k e e' :
  l !! k = Some e ->
  total_size (<[k := e']> l) = total_size l - entry_size (content e) + entry_size (content e').
Proof.
  revert k. induction l as [|x l IH]; intros [|k] H; try done.
  - injection H as ->. unfold total_size. cbn. lia.
  - change (entry_size (content x) + total_size (<[k := e']> l)
            = entry_size (content x) + total_size l - entry_size (content e) + entry_size (content e')).
    rewrite (IH k) by done. lia.
Qed.

Lemma last_hash_insert p l k e :
  l !! k = Some e -> last_hash p (<[k := tombstone e]> l) = last_hash p l.
Proof.
  revert p k. induction l as [|x l IH]; intros p [|k] H; try done.
  - injection H as ->. change (last_hash p (tombstone e :: l) = last_hash p (e :: l)).
    by rewrite !last_hash_cons.
  - change (last_hash p (x :: <[k := tombstone e]> l) = last_hash p (x :: l)).
    rewrite !last_hash_cons. by apply IH.
Qed.

Lemma redact_intact self s : intact self -> intact (fst (redact self s)).
Proof.
  intros H. destruct (redact self s) as [self' b] eqn:E. cbn [fst].
  destruct (redact_spec _ _ _ _ E) as [[-> _]|(e & -> & He & _ & Hx & Ha)]; [done|].
  destruct H as (Hn & Hl & Hs & Hb). pose proof (entry_size_min (content e)).
  repeat split; rewrite ?Hx, ?Ha.
  - unfold len. rewrite length_insert. apply Hn.
  - by apply links_insert.
  - rewrite (total_size_insert _ _ _ _ He). rewrite Hs. reflexivity.
  - lia.
Qed.

(** A redaction changes neither the head nor any other entry. *)
Lemma redact_head self s : head (fst (redact self s)) = head self.
Proof.
  destruct (redact self s) as [self' b] eqn:E. cbn [fst].
  destruct (redact_spec _ _ _ _ E) as [[-> _]|(e & -> & He & _ & Hx & _)]; [done|].
  unfold head. rewrite Hx. by apply (last_hash_insert ZERO_HASH).
Qed.

(** ** Restoring *)

Lemma restore_Ok l h self :
  restore_checked l h = Ok self <-> entries self = l /\ intact self /\ h = head self.
Proof.
  unfold restore_checked. destruct self as [l' n]. split.
  - destruct (validate_entries l h) as [m|] eqn:E; [|done]. intros [= <- <-].
    by apply validate_entries_Ok in E as [Hi ->].
  - cbn [entries]. intros (-> & Hi & ->).
    assert (validate_entries l (head {| entries := l; accounted_bytes := n |}) = Ok n) as ->; [|done].
    by apply validate_entries_Ok.
Qed.

Lemma apply_intact self op : intact self -> intact (apply self op).
Proof.
  intros H. destruct op as [e|s| |l h]; cbn [apply].
  - by apply append_intact.
  - by apply redact_intact.
  - apply intact_new.
  - unfold replace_checked. destruct (restore_checked l h) as [r|] eqn:E; [|done].
    by apply restore_Ok in E as (_ & E & _).
Qed.

Lemma after_intact self ops : intact self -> intact (after self ops).
Proof.
  revert self. induction ops as [|op ops IH]; intros self H; [done|]. cbn. by apply IH, apply_intact.
Qed.

(** ** What the head fixes *)

Definition live (l : list Entry) : Prop := Forall (fun e => redacted e = false) l.

Definition typed_committed (e : Entry) : bool :=
  typed_entry (content e) && is_u64 (seq e) && bool_decide (length (prev_hash e) = 32%nat).

Definition typed_log (l : list Entry) : bool := forallb typed_committed l.

Lemma validate_entry_Ok i p e :
  is_ok (validate_entry i p e) = true ->
  seq e = i /\ prev_hash e = p /\ entry_hash e <> ZERO_HASH
  /\ (redacted e = false -> hash_entry i p (content e) = entry_hash e).
Proof.
  unfold validate_entry.
  destruct (seq e =? i) eqn:Es; [|done]. bool_prop. subst i. cbn [negb].
  destruct (bool_decide (prev_hash e = p)) eqn:Ep; [|done]. apply bool_decide_eq_true in Ep as <-.
  cbn [negb]. destruct (bool_decide (entry_hash e = _)) eqn:Eh; [done|].
  apply bool_decide_eq_false in Eh. intros H. repeat split; [done|]. intros Er. rewrite Er in H.
  destruct (validate_entry_fields _ _ _); [|done].
  destruct (bool_decide (hash_entry _ _ _ = _)) eqn:Ed; [|done]. by apply bool_decide_eq_true in Ed.
Qed.

(** Two live entries with one hash are one entry at one place. *)
Lemma entries_agree i j p q e f :
  is_ok (validate_entry i p e) = true -> is_ok (validate_entry j q f) = true ->
  redacted e = false -> redacted f = false ->
  typed_committed e = true -> typed_committed f = true ->
  entry_hash e = entry_hash f -> (i = j /\ p = q /\ e = f) \/ collision.
Proof.
  intros He Hf Re Rf Te Tf E.
  apply validate_entry_Ok in He as (Se & Pe & _ & He). apply validate_entry_Ok in Hf as (Sf & Pf & _ & Hf).
  pose proof (He Re) as Xe. pose proof (Hf Rf) as Xf. unfold hash_entry in Xe, Xf.
  destruct (bytes_or_collision (entry_preimage i p (content e)) (entry_preimage j q (content f)))
    as [Eb|]; [congruence| |by right].
  left. unfold typed_committed in Te, Tf. bool_prop. rewrite !bool_decide_eq_true in *.
  apply preimage_inj in Eb as (Ei & Ep & Ec); [|congruence..].
  repeat split; [done..|]. destruct e, f; cbn in *. congruence.
Qed.

Lemma suffixes_agree a x b y :
  links 0 ZERO_HASH (a ++ x) -> links 0 ZERO_HASH (b ++ y) ->
  last_hash ZERO_HASH (a ++ x) = last_hash ZERO_HASH (b ++ y) ->
  typed_log (a ++ x) = true -> typed_log (b ++ y) = true ->
  length x = length y -> live x -> live y ->
  (x = y /\ (x = [] \/ length a = length b)) \/ collision.
Proof.
  revert y. induction x as [|e x IH] using rev_ind; intros y.
  { destruct y; [|done]. intros. left. auto. }
  destruct y as [|f y _] using rev_ind; [rewrite length_app; cbn; lia|].
  unfold live, typed_log. rewrite !app_assoc, !last_hash_snoc, !links_app, !forallb_app, !Forall_app.
  cbn [links forallb].
  intros (La & He & _) (Lb & Hf & _) E Ta Tb Hlen (Lx & Le) (Ly & Lf). bool_prop.
  inversion Le as [|? ? Re _]. inversion Lf as [|? ? Rf _]. subst.
  destruct (entries_agree _ _ _ _ e f He Hf) as [(Ei & Ep & ->)|]; [done..| |by right].
  rewrite !length_app in Hlen. cbn in Hlen.
  destruct (IH y) as [[-> _]|]; [by apply links_app|by apply links_app|done
    |unfold typed_log; rewrite forallb_app; by apply andb_true_iff..|lia|done|done| |by right].
  left. split; [done|]. right. rewrite !len_app in Ei. unfold len in Ei. lia.
Qed.

Lemma live_logs_agree l m :
  links 0 ZERO_HASH l -> links 0 ZERO_HASH m -> last_hash ZERO_HASH l = last_hash ZERO_HASH m ->
  typed_log l = true -> typed_log m = true -> live l -> live m -> (length l <= length m)%nat ->
  l = m \/ collision.
Proof.
  intros Ll Lm E Tl Tm Al Am Hlen.
  pose proof (take_drop (length m - length l) m) as Em.
  destruct (suffixes_agree [] l (take (length m - length l) m) (drop (length m - length l) m))
    as [[El [->|Ez]]|]; rewrite ?Em; auto.
  - rewrite length_drop. lia.
  - by apply Forall_drop.
  - left. destruct m as [|f m] using rev_ind; [done|]. exfalso.
    rewrite last_hash_snoc in E. apply links_app in Lm as (_ & Hf & _).
    apply validate_entry_Ok in Hf as (_ & _ & Hz & _). by rewrite <- E in Hz.
  - left. rewrite <- Em, <- El. cbn in Ez.
    destruct (take (length m - length l) m); [done|discriminate Ez].
Qed.

(** ** What an append-only history keeps *)

Definition kept (e e' : Entry) : Prop := e' = e \/ e' = tombstone e.

Definition extends (l l' : list Entry) : Prop :=
  forall i e, l !! i = Some e -> exists e', l' !! i = Some e' /\ kept e e'.

Lemma kept_trans a b c : kept a b -> kept b c -> kept a c.
Proof. unfold kept. intros [->| ->] [->| ->]; auto. Qed.

Lemma extends_refl l : extends l l.
Proof. intros i e H. exists e. split; [done|by left]. Qed.

Lemma extends_trans a b c : extends a b -> extends b c -> extends a c.
Proof.
  intros Hab Hbc i e He. apply Hab in He as (e' & He' & Hk). apply Hbc in He' as (e'' & He'' & Hk').
  exists e''. split; [done|]. by apply (kept_trans _ e').
Qed.

Definition keeps_history (op : operation) : bool :=
  match op with Append _ | Redact _ => true | Wipe | Replace _ _ => false end.

Lemma apply_extends self op :
  keeps_history op = true -> extends (entries self) (entries (apply self op)).
Proof.
  destruct op as [e|s| |l h]; try done; intros _; cbn [apply].
  - destruct (append self e) as [self' [x|err]] eqn:E; cbn [fst].
    + apply append_Ok in E as (_ & _ & _ & _ & -> & _). cbn [entries].
      intros i x' Hx. exists x'. split; [by apply lookup_app_l_Some|by left].
    + apply append_Err in E as ->. apply extends_refl.
  - destruct (redact self s) as [self' b] eqn:E. cbn [fst].
    destruct (redact_spec _ _ _ _ E) as [[-> _]|(e & _ & He & _ & Hx & _)]; [apply extends_refl|].
    rewrite Hx. intros i x Hi. destruct (decide (i = Z.to_nat s)) as [->|Hne].
    + rewrite list_lookup_insert_eq; [|by eapply lookup_lt_Some].
      rewrite He in Hi. injection Hi as ->. exists (tombstone x). split; [done|by right].
    + rewrite list_lookup_insert_ne by done. exists x. split; [done|by left].
Qed.

(** Redacting an entry of an intact log succeeds and blanks it. *)
Lemma redact_erases self s e :
  intact self -> entries self !! Z.to_nat s = Some e ->
  snd (redact self s) = true
  /\ exists e', entries (fst (redact self s)) !! Z.to_nat s = Some e' /\ redacted e' = true
       /\ (redacted e = true \/ content e' = blank).
Proof.
  intros (Hn & Hl & Hs & Hb) He.
  assert (exists i p, is_ok (validate_entry i p e) = true) as (i & p & Hv).
  { clear Hn Hs Hb. revert He Hl. generalize 0, ZERO_HASH, (Z.to_nat s).
    induction (entries self) as [|x l IH]; intros i p [|k] Hk; try done; intros [Hx Hl].
    - injection Hk as ->. eauto.
    - by apply (IH (i + 1) (entry_hash x) k). }
  unfold redact. rewrite He, tombstone_size. destruct (redacted e) eqn:Er.
  { split; [done|]. exists e. auto. }
  destruct (validate_entry i p e) as [n|] eqn:Ev; [|done]. clear Hv.
  assert (accounted_entry_bytes e = Ok n) as En.
  { unfold validate_entry in Ev. rewrite Er in Ev.
    repeat (case_match; try done); simplify_eq. by eapply validate_fields_Ok. }
  rewrite En. cbn [ok]. unfold accounted_entry_bytes in En. apply accounted_Ok in En as [-> Hm].
  pose proof (total_size_insert _ _ _ e He) as Ht.
  assert (entry_size (content e) <= accounted_bytes self) as Hle.
  { rewrite Hs, <- (take_drop_middle _ _ _ He), total_size_app.
    pose proof (total_size_nonneg (take (Z.to_nat s) (entries self))).
    pose proof (total_size_nonneg (drop (S (Z.to_nat s)) (entries self))).
    unfold total_size at 2. cbn. fold (total_size (drop (S (Z.to_nat s)) (entries self))). lia. }
  pose proof (entry_size_min (content e)).
  unfold MAX_AGGREGATE_BYTES, ACCOUNTED_ENTRY_FIXED_BYTES, checked_sub, checked_u64 in *.
  replace (is_u64 (accounted_bytes self - entry_size (content e))) with true
    by (symmetry; apply andb_true_iff; width; lia).
  rewrite checked_add_ok by (width; lia). cbn [fst snd entries]. split; [done|].
  exists (tombstone e). rewrite list_lookup_insert_eq; [auto|by eapply lookup_lt_Some].
Qed.
End chain.

(** ** The report counts every entry once *)

Section report.
Context {D : Digest}.

Definition counted (r : Report) : Z :=
  presentations r + issuances r + payments r + transfers r + redactions r.

Lemma report_step_counts r e :
  total (report_step r e) = total r /\ counted (report_step r e) = 1 + counted r.
Proof.
  destruct r. unfold report_step, counted. destruct (redacted e); [|destruct (kind (content e))]; cbn; lia.
Qed.

Lemma report_fold_counts l r :
  total (fold_left report_step l r) = total r
  /\ counted (fold_left report_step l r) = len l + counted r.
Proof.
  revert r. induction l as [|e l IH]; intros r; cbn [fold_left]; [done|].
  destruct (IH (report_step r e)) as [-> ->]. destruct (report_step_counts r e) as [-> ->].
  rewrite len_cons. lia.
Qed.

Lemma report_step_names r e c :
  In c (counterparties (report_step r e))
  <-> In c (counterparties r) \/ (redacted e = false /\ counterparty (content e) = c).
Proof.
  destruct r as [t p i y x d cs]. unfold report_step. destruct (redacted e); [cbn; intuition congruence|].
  assert (In c (if existsb (fun s => bool_decide (s = counterparty (content e))) cs
                then cs else cs ++ [counterparty (content e)])
          <-> In c cs \/ counterparty (content e) = c) as H.
  { destruct (existsb _ cs) eqn:E.
    - apply existsb_exists in E as (s & Hs & ->%bool_decide_eq_true). intuition congruence.
    - rewrite in_app_iff. cbn. intuition. }
  destruct (kind (content e)); cbn; rewrite H; intuition congruence.
Qed.

Lemma report_step_NoDup r e :
  List.NoDup (counterparties r) -> List.NoDup (counterparties (report_step r e)).
Proof.
  destruct r as [t p i y x d cs]. unfold report_step. destruct (redacted e); [done|].
  cbn [counterparties]. intros H.
  assert (List.NoDup (if existsb (fun s => bool_decide (s = counterparty (content e))) cs
                      then cs else cs ++ [counterparty (content e)])) as Hd.
  { destruct (existsb _ cs) eqn:E; [done|]. apply NoDup_ListNoDup, list.NoDup_app.
    repeat split; [by apply NoDup_ListNoDup| |by apply NoDup_singleton].
    intros s Hs%list_elem_of_In Hin%list_elem_of_singleton.
    assert (existsb (fun s => bool_decide (s = counterparty (content e))) cs = true) as E'; [|congruence].
    apply existsb_exists. exists s. split; [done|]. by apply bool_decide_eq_true. }
  by destruct (kind (content e)).
Qed.

Lemma report_fold_names l r :
  (List.NoDup (counterparties r) -> List.NoDup (counterparties (fold_left report_step l r)))
  /\ forall c, In c (counterparties (fold_left report_step l r))
       <-> In c (counterparties r)
           \/ exists e, In e l /\ redacted e = false /\ counterparty (content e) = c.
Proof.
  revert r. induction l as [|e l IH]; intros r; cbn [fold_left].
  - split; [done|]. intros c. split; [auto|]. by intros [|(x & [] & _)].
  - destruct (IH (report_step r e)) as [Hd Hn]. split; [intros H; by apply Hd, report_step_NoDup|].
    intros c. rewrite Hn, report_step_names. cbn. split.
    + intros [[|[]]|(x & ? & ?)]; [auto|right; exists e; auto|right; exists x; auto].
    + intros [|(x & [<-|] & ? & ?)]; [auto|auto|right; exists x; auto].
Qed.

(** The report: every entry is counted in one place, and the counterparties
    are those of the entries that are not redacted, each once and in order. *)
Lemma report_spec self :
  let r := report self in
  total r = len (entries self) /\ counted r = total r
  /\ StronglySorted (fun a b => key_cmp a b = Lt) (counterparties r)
  /\ forall c, In c (counterparties r)
       <-> exists e, In e (entries self) /\ redacted e = false /\ counterparty (content e) = c.
Proof.
  cbn zeta. unfold report, counted.
  set (r0 := Build_Report (len (entries self)) 0 0 0 0 0 []).
  pose proof (report_fold_counts (entries self) r0) as [Ht Hc].
  pose proof (report_fold_names (entries self) r0) as [Hd Hn].
  cbn [total presentations issuances payments transfers redactions counterparties].
  unfold counted in Hc. split; [done|]. split; [cbn in Ht, Hc; lia|]. split.
  - apply sorted_strict; [|apply key_sort_sorted].
    apply (Permutation_NoDup (Permutation_sym (key_sort_perm _))), Hd. constructor.
  - intros c.
    split; intros H.
    + apply (Permutation_in _ (key_sort_perm _)) in H. apply Hn in H as [[]|H]. exact H.
    + apply (Permutation_in _ (Permutation_sym (key_sort_perm _))), Hn. by right.
Qed.
End report.

(** ** Properties *)

Section properties.
Context {D : Digest}.

(** C13: Whatever a shell does with a log, from an empty one or one restored
    against its anchor, the log verifies, stays within its two limits, its
    running byte count is the size of its entries, and persisting it with its
    head restores exactly it. *)
Theorem txnlog_history l h self ops :
  restore_checked l h = Ok self ->
  let log := after self ops in
  verify_integrity log = true
  /\ len (entries log) <= MAX_ENTRIES
  /\ accounted_bytes log = total_size (entries log)
  /\ accounted_bytes log <= MAX_AGGREGATE_BYTES
  /\ restore_checked (entries log) (head log) = Ok log.
Proof.
  intros (_ & Hi & _)%restore_Ok. cbn zeta. pose proof (after_intact _ ops Hi) as H.
  split; [by apply verify_integrity_iff|]. pose proof H as (Hn & _ & Hs & Hb).
  repeat split; [done..|]. by apply restore_Ok.
Qed.

(** What the anchored head authenticates.  Two logs restored against one
    head agree on every entry from the end back to the first tombstone of
    either, at the same positions; logs without tombstones are equal (unless
    the digest has a collision). *)
Theorem anchored_head_fixes_live_history l m h s t :
  restore_checked l h = Ok s -> restore_checked m h = Ok t ->
  typed_log l = true -> typed_log m = true ->
  (forall a x b y, l = a ++ x -> m = b ++ y -> length x = length y -> live x -> live y ->
     (x = y /\ (x = [] \/ length a = length b)) \/ collision)
  /\ (live l -> live m -> l = m \/ collision).
Proof.
  intros (<- & (_ & Ll & _) & El)%restore_Ok (<- & (_ & Lm & _) & Em)%restore_Ok Tl Tm.
  assert (last_hash ZERO_HASH (entries s) = last_hash ZERO_HASH (entries t)) as E
    by (unfold head in *; unfold last_hash; congruence).
  split.
  - intros a x b y Hl Hm. rewrite Hl, Hm in *. by apply suffixes_agree.
  - intros Al Am. destruct (Nat.le_ge_cases (length (entries s)) (length (entries t))).
    + by apply live_logs_agree.
    + destruct (live_logs_agree _ _ Lm Ll (eq_sym E) Tm Tl Am Al) as [->|]; auto.
Qed.

(** A tombstone stands for any history: against the head of any log that is
    not empty, a single tombstone that carries the head as its retained hash
    is restored as the whole log. *)
Theorem tombstone_replaces_history self :
  verify_integrity self = true -> entries self <> [] ->
  let forged := {| seq := 0; content := blank; prev_hash := ZERO_HASH;
                   entry_hash := head self; redacted := true |} in
  restore_checked [forged] (head self)
  = Ok {| entries := [forged]; accounted_bytes := ACCOUNTED_ENTRY_FIXED_BYTES |}.
Proof.
  intros (_ & Hl & _)%verify_integrity_iff Hne forged.
  assert (entry_hash forged <> ZERO_HASH) as Hz.
  { unfold forged, head. cbn [entry_hash].
    destruct (entries self) as [|e l _] using rev_ind; [done|]. rewrite last_snoc.
    apply links_app in Hl as (_ & Hv & _). by apply validate_entry_Ok in Hv as (_ & _ & Hz & _). }
  apply restore_Ok. split; [done|]. split; [|done]. unfold intact. cbn [entries accounted_bytes].
  split; [done|]. split; [|split; [reflexivity|done]]. cbn [links]. split; [|done].
  unfold validate_entry. by rewrite (bool_decide_eq_false_2 (entry_hash forged = ZERO_HASH)).
Qed.

(** An announced capacity is kept: a log that guarantees room for a maximal
    entry admits every entry that is valid on its own, whatever the order of
    its claim paths; the append then returns the entry at the end of the
    chain, with the old entries unchanged before it (unless its hash is zero). *)
Theorem guaranteed_entry_is_admitted self e n :
  verify_integrity self = true -> can_guarantee_max_entry self = true ->
  validate_new_entry e (len (entries self)) false = Ok n ->
  check_append self e = Ok tt
  /\ (hash_entry (len (entries self)) (head self) (sort_paths e) <> ZERO_HASH ->
      exists x, append self e
        = ({| entries := entries self ++ [x]; accounted_bytes := accounted_bytes self + n |}, Ok x)
        /\ content x = sort_paths e /\ prev_hash x = head self /\ redacted x = false).
Proof.
  intros (_ & _ & Hs & Hb)%verify_integrity_iff Hg Hv.
  pose proof (total_size_nonneg (entries self)) as Hp.
  pose proof (accounted_Ok _ _ (validate_fields_Ok _ _ _ _ Hv)) as [-> Hn].
  pose proof (entry_size_min e).
  unfold can_guarantee_max_entry in Hg. apply andb_true_iff in Hg as [Hlen Hg]. apply Z.ltb_lt in Hlen.
  destruct (checked_add _ MAX_ENTRY_BYTES) as [b|] eqn:Eb; [|done].
  apply checked_add_Some in Eb as [-> Hr]. bool_prop.
  assert (grown self (entry_size e) = Ok (accounted_bytes self + entry_size e)) as Egrown.
  { unfold grown. unfold ACCOUNTED_ENTRY_FIXED_BYTES in *. rewrite checked_add_ok by lia. cbn.
    destruct (_ <? _) eqn:E; [|done]. bool_prop. lia. }
  assert (check_append self e = Ok tt) as Ec.
  { unfold check_append. replace (MAX_ENTRIES <=? _) with false by (symmetry; apply Z.leb_gt; lia).
    by rewrite Hv, Egrown. }
  split; [done|]. intros Hz. pose proof (append_check self e) as Hx. rewrite Ec in Hx.
  cbn zeta in Hx. rewrite bool_decide_eq_false_2 in Hx by done.
  destruct (append self e) as [self' [x|err]] eqn:Ea; [|done].
  apply append_Ok in Ea as (Ex & _ & _ & _ & -> & _).
  exists x. subst x. by repeat split.
Qed.

(** Appending and redacting never lose history: every entry of the log is
    still at its place, unchanged or as the tombstone with its links, and
    redaction does not move the head; a refused append changes nothing, and a
    redaction of an entry that exists succeeds and blanks it. *)
Theorem history_is_append_only self ops :
  forallb keeps_history ops = true ->
  extends (entries self) (entries (after self ops))
  /\ (forall e self' err, append self e = (self', Err err) -> self' = self)
  /\ (forall s, head (fst (redact self s)) = head self)
  /\ (forall s e, verify_integrity self = true -> entries self !! Z.to_nat s = Some e ->
        snd (redact self s) = true
        /\ exists e', entries (fst (redact self s)) !! Z.to_nat s = Some e'
             /\ redacted e' = true /\ (redacted e = true \/ content e' = blank)).
Proof.
  intros H. split; [|split; [apply append_Err|split; [apply redact_head|]]].
  - revert self H. induction ops as [|op ops IH]; intros self H; [apply extends_refl|].
    cbn [forallb] in H. apply andb_true_iff in H as [Ho H].
    apply (extends_trans _ (entries (apply self op))); [by apply apply_extends|]. by apply IH.
  - intros s e Hi. by apply redact_erases, verify_integrity_iff.
Qed.
End properties.

(** ** The properties at concrete logs *)

Module Examples.

Definition shown : NewEntry := {|
  epoch := 1700000000; kind := Presentation; counterparty := "https://rp.example";
  consent_hash := ZERO_HASH; claim_paths := ["given_name"; "age_over_18"]%string;
  outcome := Completed; payment := None;
|}.

Definition paid : NewEntry := {|
  epoch := 1700000001; kind := Payment; counterparty := "Shop"; consent_hash := ZERO_HASH;
  claim_paths := []; outcome := Completed;
  payment := Some {| payee := "Shop"; amount_minor := 1999; currency := "EUR" |};
|}.

Definition two : TransactionLog := @after Samples.trunc_digest new [Append shown; Append paid].

Example two_entries : len (entries two) = 2 /\ accounted_bytes two = 354.
Proof. split; vm_compute; reflexivity. Qed.

Example refusals :
  snd (@append Samples.trunc_digest two {| epoch := 0; kind := Payment; counterparty := "Shop ";
    consent_hash := ZERO_HASH; claim_paths := []; outcome := Completed; payment := None |})
  = Err (NonCanonicalText Counterparty)
  /\ snd (@append Samples.trunc_digest two {| epoch := 0; kind := Issuance; counterparty := "Shop";
    consent_hash := ZERO_HASH; claim_paths := ["a"; "a"]%string; outcome := Completed; payment := None |})
  = Err DuplicateClaimPath.
Proof. split; vm_compute; reflexivity. Qed.
End Examples.

Lemma txnlog_history_witness :
  verify_integrity (D := Samples.trunc_digest)
    (@after Samples.trunc_digest new
       [Append Examples.shown; Append Examples.paid; Redact 0; Append Examples.shown]) = true.
Proof.
  apply (@txnlog_history Samples.trunc_digest [] ZERO_HASH new). vm_compute. reflexivity.
Defined.

Lemma anchored_head_fixes_live_history_witness :
  let l := entries Examples.two in
  (forall a x b y, l = a ++ x -> l = b ++ y -> length x = length y -> live x -> live y ->
     (x = y /\ (x = [] \/ length a = length b)) \/ @collision Samples.trunc_digest)
  /\ (live l -> live l -> l = l \/ @collision Samples.trunc_digest).
Proof.
  apply (@anchored_head_fixes_live_history Samples.trunc_digest _ _ (head Examples.two)
    Examples.two Examples.two); vm_compute; reflexivity.
Defined.

Lemma tombstone_replaces_history_witness :
  is_ok (@restore_checked Samples.trunc_digest
    [{| seq := 0; content := blank; prev_hash := ZERO_HASH;
        entry_hash := head Examples.two; redacted := true |}] (head Examples.two)) = true.
Proof.
  rewrite (@tombstone_replaces_history Samples.trunc_digest Examples.two);
    [reflexivity|vm_compute; reflexivity|discriminate].
Defined.

Lemma guaranteed_entry_is_admitted_witness :
  @check_append Examples.two Examples.shown = Ok tt.
Proof.
  apply (@guaranteed_entry_is_admitted Samples.trunc_digest Examples.two Examples.shown 187);
    vm_compute; reflexivity.
Defined.

Lemma history_is_append_only_witness :
  extends (entries Examples.two)
    (entries (@after Samples.trunc_digest Examples.two [Redact 1; Append Examples.shown])).
Proof. apply (@history_is_append_only Samples.trunc_digest). reflexivity. Defined.
