(* ===== verification/Payment.v ===== *)
(** * Payment authentication with dynamic linking (crates/payment/src/lib.rs)

    The PSD2 strong-customer-authentication machine, its dynamic-linking
    binding, the [transaction_data] carrier and the crate's reference model
    ([Model], the Rust mirror of the Lean model).  The theorems: the binding is
    specific to every field it covers; an authentication code leaves the wallet
    only after the confirmation screen of that very payment, the user's
    approval and the device signature over its binding, in that order and at
    most once; the machine simulates the reference model. *)

From S2P Require Import Prelude Utf8 Cbor Boundary Machine.

Open Scope Z_scope.
Open Scope rust_scope.

(** ** Data *)

Record PaymentRequest : Type := {
  creditor_name : string;
  creditor_account : string;
  amount_minor : Z;
  currency : string;
  transaction_id : string;
  nonce : Z;
  response_uri : string;
}.

Record PendingAuthorization : Type := {
  request : PaymentRequest;
  binding : bytes;
}.

Inductive AbortReason : Type :=
| MalformedRequest
| InvalidAmount
| PayeeMissing
| NonceReplayed
| ReasonUserDeclined.

Inductive State : Type :=
| Idle
| AwaitingConfirmation (req : PaymentRequest)
| AwaitingSca (pending : PendingAuthorization)
| Authorized (auth_code : bytes)
| Aborted (reason : AbortReason).

Inductive Input : Type :=
| PaymentAuthorizationRequest (b : bytes)
| UserApproved
| UserDeclined
| AuthCodeSignatureProduced (sig : bytes).

Inductive Output : Type :=
| RenderPaymentConfirmation (name account : string) (amount : Z) (cur : string)
| SignAuthCode (key_ref : string) (signing_input : bytes)
| SendAuthorization (code : bytes)
| Close.

Record Env : Type := { seen_nonces : list Z; device_key_ref : string }.

(** ** Operations *)

Definition dynamic_linking_binding (req : PaymentRequest) : bytes :=
  to_canonical (Array [
    Text "eudi-payment-sca-v1";
    Text (creditor_name req);
    Text (creditor_account req);
    Uint (amount_minor req);
    Text (currency req);
    Text (transaction_id req);
    Uint (nonce req)]).

Arguments dynamic_linking_binding : simpl never.

Definition contains (l : list Z) (n : Z) : bool := existsb (Z.eqb n) l.

Section payment.
Context `{JL : JsonLib}.

Definition parse_request (b : bytes) : option PaymentRequest :=
  let! v := from_slice b in
  let! name := get_str v "creditor_name" in
  let! account := get_str v "creditor_account" in
  let! amount := get_u64 v "amount_minor" in
  let! cur := get_str v "currency" in
  let! n := get_u64 v "nonce" in
  Some {| creditor_name := name;
          creditor_account := account;
          amount_minor := amount;
          currency := cur;
          transaction_id := unwrap_or (get_str v "transaction_id") "";
          nonce := n;
          response_uri := unwrap_or (get_str v "response_uri") "" |}.

Definition confirmation (req : PaymentRequest) : Output :=
  RenderPaymentConfirmation (creditor_name req) (creditor_account req)
    (amount_minor req) (currency req).

Definition step (state : State) (input : Input) (env : Env) : State * list Output :=
  match state, input with
  | Idle, PaymentAuthorizationRequest b =>
      match parse_request b with
      | Some req =>
          if amount_minor req =? 0 then (Aborted InvalidAmount, [])
          else if trim_is_empty (creditor_name req) || trim_is_empty (creditor_account req)
          then (Aborted PayeeMissing, [])
          else if contains (seen_nonces env) (nonce req) then (Aborted NonceReplayed, [])
          else (AwaitingConfirmation req, [confirmation req])
      | None => (Aborted MalformedRequest, [])
      end
  | AwaitingConfirmation req, UserApproved =>
      let b := dynamic_linking_binding req in
      (AwaitingSca {| request := req; binding := b |}, [SignAuthCode (device_key_ref env) b])
  | AwaitingConfirmation _, UserDeclined => (Aborted ReasonUserDeclined, [Close])
  | AwaitingSca _, AuthCodeSignatureProduced sig =>
      (Authorized sig, [SendAuthorization sig; Close])
  | s, _ => (s, [])
  end.

(** ** [transaction_data] *)

Record PaymentTransactionData : Type := {
  kind : string;
  credential_ids : list string;
  td_request : PaymentRequest;
  raw_b64 : string;
}.

Definition strings_of (l : list Json) : list string :=
  flat_map (fun x => match as_str x with Some s => [s] | None => [] end) l.

Definition transaction_data_parse `{Base64} (entry_b64 : string)
  : option PaymentTransactionData :=
  let! json := decode_vec entry_b64 in
  let! v := from_slice json in
  let ids :=
    match get v "credential_ids" with
    | Some x => match as_array x with Some a => strings_of a | None => [] end
    | None => []
    end in
  let! k := get_str v "type" in
  let! name := get_str v "creditor_name" in
  let! account := get_str v "creditor_account" in
  let! amount := get_u64 v "amount_minor" in
  let! cur := get_str v "currency" in
  let! n := get_u64 v "nonce" in
  Some {| kind := k;
          credential_ids := ids;
          td_request := {| creditor_name := name;
                           creditor_account := account;
                           amount_minor := amount;
                           currency := cur;
                           transaction_id := unwrap_or (get_str v "transaction_id") "";
                           nonce := n;
                           response_uri := unwrap_or (get_str v "response_uri") "" |};
          raw_b64 := entry_b64 |}.

Definition transaction_data_hash `{Base64} `{Digest} (entry_b64 : string) : string :=
  encode_string (sha256 (as_bytes entry_b64)).
End payment.

#[export] Instance payment_machine `{JsonLib} : Machine State Input Env Output :=
  {| initial := Idle; transition := step |}.

(** ** The reference model (payment::model) *)

Module Model.

Record Payment : Type := { payee : string; amount : Z; m_nonce : Z }.

Inductive St : Type :=
| MIdle
| MAwaitingConfirmation (p : Payment)
| MAwaitingSca (p : Payment)
| MAuthorized (p : Payment)
| MAborted.

Inductive Ev : Type :=
| Request (p : Payment)
| Approve
| Decline
| Sign.

Record Ctx : Type := {
  st : St;
  seen : list Z;
  confirmed : option Payment;
  approved : bool;
}.

Definition init : Ctx := {| st := MIdle; seen := []; confirmed := None; approved := false |}.

Definition with_st (c : Ctx) (s : St) : Ctx :=
  {| st := s; seen := seen c; confirmed := confirmed c; approved := approved c |}.

Definition step (c : Ctx) (ev : Ev) : Ctx :=
  match ev with
  | Request p =>
      match st c with
      | MIdle =>
          if amount p =? 0 then with_st c MAborted
          else if contains (seen c) (m_nonce p) then with_st c MAborted
          else {| st := MAwaitingConfirmation p; seen := seen c ++ [m_nonce p];
                  confirmed := Some p; approved := approved c |}
      | _ => c
      end
  | Approve =>
      match st c with
      | MAwaitingConfirmation p =>
          {| st := MAwaitingSca p; seen := seen c; confirmed := confirmed c; approved := true |}
      | _ => c
      end
  | Decline =>
      match st c with MAwaitingConfirmation _ => with_st c MAborted | _ => c end
  | Sign =>
      match st c with MAwaitingSca p => with_st c (MAuthorized p) | _ => c end
  end.

Definition run (evs : list Ev) : Ctx := fold_left step evs init.

Definition state_name (s : St) : string :=
  match s with
  | MIdle => "idle"
  | MAwaitingConfirmation _ => "awaitingConfirmation"
  | MAwaitingSca _ => "awaitingSca"
  | MAuthorized _ => "authorized"
  | MAborted => "aborted"
  end.

#[export] Instance payment_eq_decision : EqDecision Payment.
Proof. solve_decision. Defined.

Definition bound (c : Ctx) : bool :=
  match st c with
  | MAuthorized p => bool_decide (confirmed c = Some p)
  | _ => false
  end.

End Model.

(** ** The binding *)

(** What the Rust type of a request says. *)
Definition request_typed (r : PaymentRequest) : bool :=
  rust_string (creditor_name r) && rust_string (creditor_account r)
  && is_u64 (amount_minor r) && rust_string (currency r)
  && rust_string (transaction_id r) && is_u64 (nonce r) && rust_string (response_uri r).

(** Agreement on everything but the delivery address. *)
Definition same_payment (r s : PaymentRequest) : Prop :=
  creditor_name r = creditor_name s /\ creditor_account r = creditor_account s
  /\ amount_minor r = amount_minor s /\ currency r = currency s
  /\ transaction_id r = transaction_id s /\ nonce r = nonce s.

Lemma binding_specific r s :
  request_typed r = true -> request_typed s = true ->
  dynamic_linking_binding r = dynamic_linking_binding s -> same_payment r s.
Proof.
  unfold request_typed, dynamic_linking_binding, same_payment. intros Hr Hs E. bool_prop.
  by binding_inj E.
Qed.

Section proofs.
Context `{JL : JsonLib}.

Lemma parse_request_typed `{!JsonTypes} b r :
  parse_request b = Some r -> request_typed r = true.
Proof.
  unfold parse_request. intros E. repeat case_match; simplify_eq. unfold request_typed. cbn.
  rewrite !andb_true_iff. split_and!; try apply unwrap_or_string; eauto with wallet.
Qed.

(** ** Histories *)

(** The request passed every guard when it arrived. *)
Definition accepted (b : bytes) (e : Env) (r : PaymentRequest) : Prop :=
  parse_request b = Some r /\ amount_minor r <> 0
  /\ trim_is_empty (creditor_name r) = false /\ trim_is_empty (creditor_account r) = false
  /\ contains (seen_nonces e) (nonce r) = false.

Definition requested (b : bytes) (e : Env) (r : PaymentRequest) : event Input Env Output :=
  Event (PaymentAuthorizationRequest b) e [confirmation r].

Definition approval (e : Env) (r : PaymentRequest) : event Input Env Output :=
  Event UserApproved e [SignAuthCode (device_key_ref e) (dynamic_linking_binding r)].

Definition signed (code : bytes) (e : Env) : event Input Env Output :=
  Event (AuthCodeSignatureProduced code) e [SendAuthorization code; Close].

(** The codes that left the wallet, and the byte strings the device was asked
    to sign. *)
Definition sent (h : history Input Env Output) : list bytes :=
  flat_map (fun o => match o with SendAuthorization c => [c] | _ => [] end) (outputs h).

Definition to_sign (h : history Input Env Output) : list bytes :=
  flat_map (fun o => match o with SignAuthCode _ m => [m] | _ => [] end) (outputs h).

(** What a state says about the history that led to it. *)
Definition explains (h : history Input Env Output) (s : State) : Prop :=
  match s with
  | Idle | Aborted _ => sent h = [] /\ to_sign h = []
  | AwaitingConfirmation r =>
      sent h = [] /\ to_sign h = []
      /\ exists b e, accepted b e r /\ sublist [requested b e r] h
  | AwaitingSca p =>
      sent h = [] /\ binding p = dynamic_linking_binding (request p)
      /\ to_sign h = [binding p]
      /\ exists b e e', accepted b e (request p)
           /\ sublist [requested b e (request p); approval e' (request p)] h
  | Authorized code =>
      sent h = [code]
      /\ exists r b e e' e'', accepted b e r /\ to_sign h = [dynamic_linking_binding r]
           /\ sublist [requested b e r; approval e' r; signed code e''] h
  end.

(** A step that changes neither the state nor the outputs. *)
Lemma explains_idle_step h s i e : explains h s -> explains (h ++ [Event i e []]) s.
Proof.
  destruct s; cbn; unfold sent, to_sign; rewrite !flat_snoc; cbn; rewrite ?app_nil_r;
    intros Hx; destruct_and?; naive_solver eauto with wallet.
Qed.

Lemma explains_holds h s : reaches h s -> explains h s.
Proof.
  apply reaches_invariant; [done|]. clear. intros h s i e s' out _ IH E. cbn in E.
  destruct s as [|r|p|c|a], i as [b| | |sig]; cbn [step] in E;
    try (injection E as <- <-; by apply explains_idle_step).
  - (* request *)
    unfold step in E.
    destruct (parse_request b) as [r|] eqn:Ep; [|injection E as <- <-; exact (explains_idle_step h Idle _ _ IH)].
    destruct (amount_minor r =? 0) eqn:Ea; [injection E as <- <-; exact (explains_idle_step h Idle _ _ IH)|].
    destruct (_ || _) eqn:Et; [injection E as <- <-; exact (explains_idle_step h Idle _ _ IH)|].
    destruct (contains _ _) eqn:En; [injection E as <- <-; exact (explains_idle_step h Idle _ _ IH)|].
    injection E as <- <-. bool_prop. destruct IH as [H1 H2].
    cbn. unfold sent, to_sign in *. rewrite !flat_snoc, H1, H2. cbn. split_and!; [done..|].
    exists b, e. split; [done|]. apply (sublist_snoc_same []), sublist_nil_l.
  - (* approval *)
    injection E as <- <-. destruct IH as (H1 & H2 & b & e' & Hacc & Hsub).
    cbn. unfold sent, to_sign in *. rewrite !flat_snoc, H1, H2. cbn. split_and!; [done..|].
    exists b, e', e. split; [done|]. by apply (sublist_snoc_same [_]).
  - (* refusal *)
    injection E as <- <-. destruct IH as (H1 & H2 & _).
    cbn. unfold sent, to_sign in *. by rewrite !flat_snoc, H1, H2.
  - (* device signature *)
    injection E as <- <-. destruct IH as (H1 & Hb & H2 & b & e1 & e2 & Hacc & Hsub).
    cbn. unfold sent, to_sign in *. rewrite !flat_snoc, H1, H2. cbn. split; [done|].
    exists (request p), b, e1, e2, e. split_and!; [done|by rewrite Hb|].
    by apply (sublist_snoc_same [_; _]).
Qed.
End proofs.

(** ** The machine and its reference model *)

Definition abs (r : PaymentRequest) : Model.Payment :=
  {| Model.payee := creditor_name r; Model.amount := amount_minor r; Model.m_nonce := nonce r |}.

(** An aborted machine discloses nothing more, so it matches any context. *)
Definition related (s : State) (c : Model.Ctx) : Prop :=
  match s with
  | Idle => Model.st c = Model.MIdle
  | AwaitingConfirmation r =>
      Model.st c = Model.MAwaitingConfirmation (abs r) /\ Model.confirmed c = Some (abs r)
  | AwaitingSca p =>
      Model.st c = Model.MAwaitingSca (abs (request p))
      /\ Model.confirmed c = Some (abs (request p)) /\ Model.approved c = true
  | Authorized _ => Model.bound c = true /\ Model.approved c = true
  | Aborted _ => True
  end.

(** The shell passes the nonces the model has recorded. *)
Definition same_nonces (s : State) (e : Env) (c : Model.Ctx) : Prop :=
  s = Idle -> Model.seen c = seen_nonces e.

Lemma payment_simulation `{JL : JsonLib} :
  simulates Model.step related (fun s _ e c => same_nonces s e c).
Proof.
  intros s c i e s' out HR Hg E. cbn in E.
  destruct s as [|r|p|k|a], i as [b| | |sig]; unfold step in E;
    try (injection E as <- <-; exists []; exact HR).
  - destruct (parse_request b) as [r|] eqn:Ep; [|injection E as <- <-; by exists []].
    destruct (amount_minor r =? 0) eqn:Ea; [injection E as <- <-; by exists []|].
    destruct (_ || _) eqn:Et; [injection E as <- <-; by exists []|].
    destruct (contains _ _) eqn:En; injection E as <- <-; [by exists []|].
    exists [Model.Request (abs r)]. cbn in *. rewrite HR, Ea, (Hg eq_refl), En. done.
  - injection E as <- <-. destruct HR as [H1 H2].
    exists [Model.Approve]. cbn. by rewrite H1.
  - injection E as <- <-. by exists [].
  - injection E as <- <-. destruct HR as (H1 & H2 & H3). exists [Model.Sign]. cbn.
    rewrite H1. unfold Model.bound. cbn. by rewrite H2, bool_decide_eq_true_2.
Qed.

(** What the model's fields say. *)
Definition model_inv (c : Model.Ctx) : Prop :=
  List.NoDup (Model.seen c)
  /\ match Model.st c with
     | Model.MIdle => Model.seen c = []
     | Model.MAwaitingConfirmation p =>
         Model.confirmed c = Some p /\ Model.amount p <> 0 /\ In (Model.m_nonce p) (Model.seen c)
     | Model.MAwaitingSca p | Model.MAuthorized p =>
         Model.confirmed c = Some p /\ Model.amount p <> 0 /\ In (Model.m_nonce p) (Model.seen c)
         /\ Model.approved c = true
     | Model.MAborted => True
     end.

Lemma contains_false l n : contains l n = false <-> ~ In n l.
Proof.
  unfold contains. rewrite <- not_true_iff_false, existsb_exists. split.
  - intros Hx Hin. apply Hx. exists n. by rewrite Z.eqb_refl.
  - intros Hx (m & Hm & E). bool_prop. by subst.
Qed.

Lemma model_inv_step c ev : model_inv c -> model_inv (Model.step c ev).
Proof.
  intros [Hn Hs]. destruct ev as [p| | |]; cbn; destruct (Model.st c) as [|q|q|q|] eqn:E;
    try (by split; [done|rewrite E]).
  - destruct (Model.amount p =? 0) eqn:Ea; [done|].
    destruct (contains (Model.seen c) (Model.m_nonce p)) eqn:En; [done|].
    bool_prop. split; cbn.
    + rewrite Hs. repeat constructor; auto.
    + split_and!; [done..|]. apply in_app_iff. right. by left.
  - split; [done|]. cbn. tauto.
  - split; [done|]. cbn. tauto.
  - split; [done|]. cbn. tauto.
Qed.

Lemma model_inv_run evs : model_inv (Model.run evs).
Proof.
  unfold Model.run. assert (model_inv Model.init) as Hi by (split; [constructor|done]).
  revert Hi. generalize Model.init. induction evs as [|ev evs IH]; intros c Hc; [done|].
  cbn. by apply IH, model_inv_step.
Qed.

(** ** Properties *)

(** Dynamic linking (PSD2 RTS Art. 5).  Two payment requests with the same
    binding have the same creditor name and account, amount, currency,
    transaction and nonce: an authentication code is specific to the payment it
    was made for, and changing any of these fields changes the signed bytes. *)
Theorem dynamic_linking_specific (r s : PaymentRequest) :
  request_typed r = true -> request_typed s = true ->
  dynamic_linking_binding r = dynamic_linking_binding s -> same_payment r s.
Proof. apply binding_specific. Qed.

Definition sample_request : PaymentRequest :=
  {| creditor_name := "Acme Store"; creditor_account := "DE89370400440532013000";
     amount_minor := 1299; currency := "EUR"; transaction_id := "txn-1"; nonce := 7;
     response_uri := "https://psp.example/authorize" |}.

Lemma dynamic_linking_specific_witness :
  same_payment sample_request
    {| creditor_name := "Acme Store"; creditor_account := "DE89370400440532013000";
       amount_minor := 1299; currency := "EUR"; transaction_id := "txn-1"; nonce := 7;
       response_uri := "" |}.
Proof. apply dynamic_linking_specific; vm_compute; reflexivity. Defined.

(** C9: No authorisation without confirmation, approval and device signature.
    After any history, the codes that left the wallet are none, or exactly one
    code [code]; in that case the machine is in [Authorized code] and the
    history has, in this order: a request that parsed to a payment with a
    positive amount, a payee that is not blank and a fresh nonce, shown on the
    payment confirmation screen; the user's approval, which asked the device to
    sign the binding of that payment; and the device's signature, which is the
    code.  Nothing but that binding was ever given to the device to sign. *)
Theorem payment_authorisation_history `{JL : JsonLib} (h : history Input Env Output) (s : State) :
  reaches h s ->
  sent h = []
  \/ exists code r b e e' e'',
       s = Authorized code /\ sent h = [code] /\ accepted b e r
       /\ to_sign h = [dynamic_linking_binding r]
       /\ sublist [requested b e r; approval e' r; signed code e''] h.
Proof.
  intros H. apply explains_holds in H. destruct s as [|r|p|code|a]; cbn in H;
    [left; tauto.. | | left; tauto].
  right. destruct H as (Hs & r & b & e & e' & e'' & Ha & Ht & Hl). exists code, r, b, e, e', e''. done.
Qed.

Definition sample_json : JsonLib := Samples.json_const (Samples.DObj [
  ("creditor_name", Samples.DStr "Acme Store");
  ("creditor_account", Samples.DStr "DE89370400440532013000");
  ("amount_minor", Samples.DInt 1299); ("currency", Samples.DStr "EUR");
  ("transaction_id", Samples.DStr "txn-1"); ("nonce", Samples.DInt 7);
  ("response_uri", Samples.DStr "https://psp.example/authorize")]%string).

Definition sample_run : list (Input * Env) :=
  let e := {| seen_nonces := [3]; device_key_ref := "device-key" |} in
  [(PaymentAuthorizationRequest [], e); (UserApproved, e);
   (AuthCodeSignatureProduced [Byte.x2a], e)].

Lemma payment_authorisation_history_witness :
  let h := fst (@run _ _ _ _ (@payment_machine sample_json) sample_run) in
  sent h = []
  \/ exists code r b e e' e'',
       Authorized [Byte.x2a] = Authorized code /\ sent h = [code]
       /\ @accepted sample_json b e r
       /\ to_sign h = [dynamic_linking_binding r]
       /\ sublist [requested b e r; approval e' r; signed code e''] h.
Proof.
  intros h. apply (@payment_authorisation_history sample_json h (Authorized [Byte.x2a])).
  exact (@run_reaches _ _ _ _ (@payment_machine sample_json) sample_run).
Defined.

(** The machine simulates the crate's reference model.  From related states
    (with the model's nonces given to the machine when it is idle), every step
    is matched by model events to related states, where an aborted machine
    matches anything; so a machine that reached [Authorized] is related only to
    contexts in which the signed payment is the confirmed and approved one. *)
Theorem payment_refines_model `{JL : JsonLib} (s : State) (c : Model.Ctx) (i : Input) (e : Env) :
  related s c -> same_nonces s e c ->
  exists evs, related (fst (step s i e)) (fold_left Model.step evs c).
Proof.
  intros HR Hg. apply (payment_simulation s c i e _ (snd (step s i e)) HR Hg).
  apply surjective_pairing.
Qed.

Lemma payment_refines_model_witness :
  exists evs, related (AwaitingConfirmation sample_request) (fold_left Model.step evs Model.init).
Proof.
  exact (@payment_refines_model sample_json Idle Model.init (PaymentAuthorizationRequest [])
    {| seen_nonces := []; device_key_ref := "k" |} eq_refl (fun _ => eq_refl)).
Defined.

(** The reference model's guarantees: whatever events it is run on, no
    nonce is recorded twice, and in the accepting state the signed payment is
    the one that was confirmed, its amount is not zero, its nonce is recorded
    and the user approved. *)
Theorem payment_model_bound (evs : list Model.Ev) :
  let c := Model.run evs in
  List.NoDup (Model.seen c)
  /\ (forall p, Model.st c = Model.MAuthorized p ->
        Model.bound c = true /\ Model.approved c = true /\ Model.amount p <> 0
        /\ In (Model.m_nonce p) (Model.seen c)).
Proof.
  intros c. destruct (model_inv_run evs) as [Hn Hs]. fold c in Hn, Hs. split; [done|].
  intros p E. rewrite E in Hs. destruct Hs as (H1 & H2 & H3 & H4).
  unfold Model.bound. rewrite E, H1, bool_decide_eq_true_2 by done. done.
Qed.
