(* ===== verification/Qes.v ===== *)
(** * Qualified electronic signatures (crates/qes/src/lib.rs)

    The what-you-see-is-what-you-sign authorisation machine: a signing request
    is shown, the user authorises it, and the device signs a binding over the
    document hash, the hash of the confirmation screen, the trust service
    provider and the nonce.  [Model] is the crate's reference model. *)

From stdpp Require Import countable.
From S2P Require Import Prelude Utf8 Cbor Boundary Machine.

Open Scope Z_scope.
Open Scope rust_scope.

(** ** Data *)

Record SignRequest : Type := {
  document_name : string;
  document_hash : bytes;
  qtsp_id : string;
  nonce : Z;
}.

Record PendingAuthorization : Type := {
  request : SignRequest;
  pending_consent_hash : bytes;
}.

Inductive AbortReason : Type :=
| MalformedRequest
| DocumentHashMissing
| NonceReplayed
| ReasonUserDeclined.

Inductive QesState : Type :=
| Idle
| AwaitingAuthorization (req : SignRequest)
| AwaitingSca (pending : PendingAuthorization)
| Signed (authorization : bytes)
| Aborted (reason : AbortReason).

Inductive Input : Type :=
| SignatureRequest (b : bytes)
| UserAuthorized
| UserDeclined
| AuthorizationSignatureProduced (sig : bytes).

Inductive Output : Type :=
| RenderSignConfirmation (name qtsp : string) (hash : bytes)
| SignAuthorization (key_ref : string) (signing_input : bytes)
| SendToQtsp (authorization : bytes)
| Close.

Record Env : Type := {
  seen_nonces : list Z;
  device_key_ref : string;
  consent_hash : bytes;
}.

(** ** Operations *)

Definition qes_authorization_binding (req : SignRequest) (consent_hash : bytes) : bytes :=
  to_canonical (Array [
    Text "eudi-qes-authorization-v1";
    Bytes (document_hash req);
    Bytes consent_hash;
    Text (qtsp_id req);
    Uint (nonce req)]).

Arguments qes_authorization_binding : simpl never.

(** One hexadecimal digit of either case. *)
Definition nibble (c : byte) : option Z :=
  let x := byte.unsigned c in
  if in_range 48 57 x then Some (x - 48)
  else if in_range 97 102 x then Some (x - 97 + 10)
  else if in_range 65 70 x then Some (x - 65 + 10)
  else None.

(** The [while] loop: two digits at a time. *)
Fixpoint hex_pairs (b : bytes) : option bytes :=
  match b with
  | hi :: lo :: r =>
      let! x := nibble hi in
      let! y := nibble lo in
      let! out := hex_pairs r in
      Some (byte.of_Z (Z.lor (Z.shiftl x 4) y) :: out)
  | _ => Some []
  end.

Definition hex_decode (s : string) : option bytes :=
  if negb (slen s mod 2 =? 0) then None else hex_pairs (as_bytes s).

Section qes.
Context `{JL : JsonLib}.

Definition parse_request (b : bytes) : option SignRequest :=
  let! v := from_slice b in
  let! hash := hex_decode (unwrap_or (get_str v "document_hash_hex") "") in
  let! qtsp := get_str v "qtsp_id" in
  let! n := get_u64 v "nonce" in
  Some {| document_name := unwrap_or (get_str v "document_name") "";
          document_hash := hash;
          qtsp_id := qtsp;
          nonce := n |}.

Definition confirmation (req : SignRequest) : Output :=
  RenderSignConfirmation (document_name req) (qtsp_id req) (document_hash req).

Definition contains (l : list Z) (n : Z) : bool := existsb (Z.eqb n) l.

Definition step (state : QesState) (input : Input) (env : Env) : QesState * list Output :=
  match state, input with
  | Idle, SignatureRequest b =>
      match parse_request b with
      | Some req =>
          if is_empty (document_hash req) then (Aborted DocumentHashMissing, [])
          else if contains (seen_nonces env) (nonce req) then (Aborted NonceReplayed, [])
          else (AwaitingAuthorization req, [confirmation req])
      | None => (Aborted MalformedRequest, [])
      end
  | AwaitingAuthorization req, UserAuthorized =>
      let signing_input := qes_authorization_binding req (consent_hash env) in
      (AwaitingSca {| request := req; pending_consent_hash := consent_hash env |},
       [SignAuthorization (device_key_ref env) signing_input])
  | AwaitingAuthorization _, UserDeclined => (Aborted ReasonUserDeclined, [])
  | AwaitingSca _, AuthorizationSignatureProduced sig => (Signed sig, [SendToQtsp sig; Close])
  | s, _ => (s, [])
  end.
End qes.

#[export] Instance qes_machine `{JL : JsonLib} : Machine QesState Input Env Output :=
  {| initial := Idle; transition := step |}.

(** ** The reference model (qes::model) *)

Module Model.

Record Doc : Type := { doc_id : Z; m_nonce : Z }.

Inductive St : Type :=
| MIdle
| MAwaitingAuthorization (d : Doc)
| MAwaitingSca (d : Doc)
| MSigned (d : Doc)
| MAborted.

Inductive Ev : Type :=
| Request (d : Doc)
| Authorize
| Decline
| Sign.

Record Ctx : Type := {
  st : St;
  seen : list Z;
  confirmed : option Doc;
  authorized : bool;
}.

Definition init : Ctx := {| st := MIdle; seen := []; confirmed := None; authorized := false |}.

Definition with_st (c : Ctx) (s : St) : Ctx :=
  {| st := s; seen := seen c; confirmed := confirmed c; authorized := authorized c |}.

Definition step (c : Ctx) (ev : Ev) : Ctx :=
  match ev with
  | Request d =>
      match st c with
      | MIdle =>
          if doc_id d =? 0 then with_st c MAborted
          else if contains (seen c) (m_nonce d) then with_st c MAborted
          else {| st := MAwaitingAuthorization d; seen := seen c ++ [m_nonce d];
                  confirmed := Some d; authorized := authorized c |}
      | _ => c
      end
  | Authorize =>
      match st c with
      | MAwaitingAuthorization d =>
          {| st := MAwaitingSca d; seen := seen c; confirmed := confirmed c; authorized := true |}
      | _ => c
      end
  | Decline =>
      match st c with MAwaitingAuthorization _ => with_st c MAborted | _ => c end
  | Sign =>
      match st c with MAwaitingSca d => with_st c (MSigned d) | _ => c end
  end.

Definition run (evs : list Ev) : Ctx := fold_left step evs init.

Definition state_name (s : St) : string :=
  match s with
  | MIdle => "idle"
  | MAwaitingAuthorization _ => "awaitingAuthorization"
  | MAwaitingSca _ => "awaitingSca"
  | MSigned _ => "signed"
  | MAborted => "aborted"
  end.

#[export] Instance doc_eq_decision : EqDecision Doc.
Proof. solve_decision. Defined.

Definition bound (c : Ctx) : bool :=
  match st c with
  | MSigned d => bool_decide (confirmed c = Some d)
  | _ => false
  end.

End Model.

(** ** The binding *)

Definition request_typed (r : SignRequest) : bool :=
  rust_vec (document_hash r) && rust_string (qtsp_id r) && is_u64 (nonce r).

Lemma qes_binding_inj r s ch ch' :
  request_typed r = true -> request_typed s = true ->
  rust_vec ch = true -> rust_vec ch' = true ->
  qes_authorization_binding r ch = qes_authorization_binding s ch' ->
  document_hash r = document_hash s /\ qtsp_id r = qtsp_id s /\ nonce r = nonce s /\ ch = ch'.
Proof.
  unfold request_typed, qes_authorization_binding. intros Hr Hs H1 H2 E. bool_prop.
  by binding_inj E.
Qed.

(** ** Histories *)

Section proofs.
Context `{JL : JsonLib}.

Definition accepted (b : bytes) (e : Env) (r : SignRequest) : Prop :=
  parse_request b = Some r /\ document_hash r <> []
  /\ contains (seen_nonces e) (nonce r) = false.

Definition requested (b : bytes) (e : Env) (r : SignRequest) : event Input Env Output :=
  Event (SignatureRequest b) e [confirmation r].

Definition authorised (e : Env) (r : SignRequest) : event Input Env Output :=
  Event UserAuthorized e
    [SignAuthorization (device_key_ref e) (qes_authorization_binding r (consent_hash e))].

Definition signed (a : bytes) (e : Env) : event Input Env Output :=
  Event (AuthorizationSignatureProduced a) e [SendToQtsp a; Close].

Definition sent (h : history Input Env Output) : list bytes :=
  flat_map (fun o => match o with SendToQtsp a => [a] | _ => [] end) (outputs h).

Definition to_sign (h : history Input Env Output) : list bytes :=
  flat_map (fun o => match o with SignAuthorization _ m => [m] | _ => [] end) (outputs h).

Definition explains (h : history Input Env Output) (s : QesState) : Prop :=
  match s with
  | Idle | Aborted _ => sent h = [] /\ to_sign h = []
  | AwaitingAuthorization r =>
      sent h = [] /\ to_sign h = []
      /\ exists b e, accepted b e r /\ sublist [requested b e r] h
  | AwaitingSca p =>
      sent h = []
      /\ exists b e e', accepted b e (request p) /\ pending_consent_hash p = consent_hash e'
           /\ to_sign h = [qes_authorization_binding (request p) (consent_hash e')]
           /\ sublist [requested b e (request p); authorised e' (request p)] h
  | Signed a =>
      sent h = [a]
      /\ exists r b e e' e'', accepted b e r
           /\ to_sign h = [qes_authorization_binding r (consent_hash e')]
           /\ sublist [requested b e r; authorised e' r; signed a e''] h
  end.

Lemma qes_explains_idle_step h s i e : explains h s -> explains (h ++ [Event i e []]) s.
Proof.
  destruct s; cbn; unfold sent, to_sign; rewrite ?flat_snoc; cbn; rewrite ?app_nil_r;
    intros Hx; destruct_and?; naive_solver eauto with wallet.
Qed.

Lemma qes_explains_holds h s : reaches h s -> explains h s.
Proof.
  apply reaches_invariant; [done|]. clear. intros h s i e s' out _ IH E. cbn in E.
  destruct s as [|r|p|c|a], i as [b| | |sig]; cbn [step] in E;
    try (injection E as <- <-; by apply qes_explains_idle_step).
  - unfold step in E.
    destruct (parse_request b) as [r|] eqn:Ep;
      [|injection E as <- <-; exact (qes_explains_idle_step h Idle _ _ IH)].
    destruct (is_empty (document_hash r)) eqn:Ea;
      [injection E as <- <-; exact (qes_explains_idle_step h Idle _ _ IH)|].
    destruct (contains _ _) eqn:En;
      [injection E as <- <-; exact (qes_explains_idle_step h Idle _ _ IH)|].
    injection E as <- <-. destruct IH as [H1 H2].
    cbn. unfold sent, to_sign in *. rewrite !flat_snoc, H1, H2. cbn. split_and!; [done..|].
    exists b, e. split; [|apply (sublist_snoc_same []), sublist_nil_l].
    split_and!; [done| |done]. intros E. by rewrite E in Ea.
  - injection E as <- <-. destruct IH as (H1 & H2 & b & e' & Hacc & Hsub).
    cbn. unfold sent, to_sign in *. rewrite !flat_snoc, H1, H2. cbn. split; [done|].
    exists b, e', e. split_and!; [apply Hacc..|done|done|by apply (sublist_snoc_same [_])].
  - injection E as <- <-. destruct IH as (H1 & H2 & _).
    exact (qes_explains_idle_step h Idle _ _ (conj H1 H2)).
  - injection E as <- <-. destruct IH as (H1 & b & e1 & e2 & Hacc & Hc & H2 & Hsub).
    cbn. unfold sent, to_sign in *. rewrite !flat_snoc, H1, H2. cbn. split; [done|].
    exists (request p), b, e1, e2, e. split_and!; [apply Hacc..|done|].
    by apply (sublist_snoc_same [_; _]).
Qed.
End proofs.

(** ** The reference model *)

(** The model's abstract document identifier: zero exactly for a missing hash,
    and different for different hashes. *)
Definition doc_number (b : bytes) : Z :=
  if is_empty b then 0 else Z.pos (encode (string_of_list_byte b)).

Definition abs (r : SignRequest) : Model.Doc :=
  {| Model.doc_id := doc_number (document_hash r); Model.m_nonce := nonce r |}.

Definition related (s : QesState) (c : Model.Ctx) : Prop :=
  match s with
  | Idle => Model.st c = Model.MIdle
  | AwaitingAuthorization r =>
      Model.st c = Model.MAwaitingAuthorization (abs r) /\ Model.confirmed c = Some (abs r)
  | AwaitingSca p =>
      Model.st c = Model.MAwaitingSca (abs (request p))
      /\ Model.confirmed c = Some (abs (request p)) /\ Model.authorized c = true
  | Signed _ => Model.bound c = true /\ Model.authorized c = true
  | Aborted _ => True
  end.

Definition same_nonces (s : QesState) (e : Env) (c : Model.Ctx) : Prop :=
  s = Idle -> Model.seen c = seen_nonces e.

Lemma qes_simulation `{JL : JsonLib} :
  simulates Model.step related (fun s _ e c => same_nonces s e c).
Proof.
  intros s c i e s' out HR Hg E. cbn in E.
  destruct s as [|r|p|k|a], i as [b| | |sig]; unfold step in E;
    try (injection E as <- <-; exists []; exact HR).
  - destruct (parse_request b) as [r|] eqn:Ep; [|injection E as <- <-; by exists []].
    destruct (is_empty (document_hash r)) eqn:Ea; [injection E as <- <-; by exists []|].
    destruct (contains _ _) eqn:En; injection E as <- <-; [by exists []|].
    exists [Model.Request (abs r)]. cbn in *. unfold doc_number. rewrite Ea. cbn.
    rewrite HR, (Hg eq_refl), En. cbn. unfold abs, doc_number. by rewrite Ea.
  - injection E as <- <-. destruct HR as [H1 H2]. exists [Model.Authorize]. cbn. by rewrite H1.
  - injection E as <- <-. by exists [].
  - injection E as <- <-. destruct HR as (H1 & H2 & H3). exists [Model.Sign]. cbn.
    rewrite H1. unfold Model.bound. cbn. by rewrite H2, bool_decide_eq_true_2.
Qed.

(** ** Properties *)

(** The authorisation is specific to the document and the screen.  Equal
    DTBS/R bindings have the same document hash, trust service provider, nonce
    and confirmation-screen hash. *)
Theorem qes_binding_specific (r s : SignRequest) (ch ch' : bytes) :
  request_typed r = true -> request_typed s = true ->
  rust_vec ch = true -> rust_vec ch' = true ->
  qes_authorization_binding r ch = qes_authorization_binding s ch' ->
  document_hash r = document_hash s /\ qtsp_id r = qtsp_id s /\ nonce r = nonce s /\ ch = ch'.
Proof. apply qes_binding_inj. Qed.

Definition sample_request : SignRequest :=
  {| document_name := "Contract.pdf"; document_hash := [Byte.xde; Byte.xad];
     qtsp_id := "qtsp.example"; nonce := 1 |}.

Lemma qes_binding_specific_witness :
  [Byte.xde; Byte.xad] = [Byte.xde; Byte.xad] /\ "qtsp.example"%string = "qtsp.example"%string
  /\ 1 = 1 /\ repeat Byte.x09 32 = repeat Byte.x09 32.
Proof.
  apply (qes_binding_specific sample_request
    {| document_name := "Other"; document_hash := [Byte.xde; Byte.xad];
       qtsp_id := "qtsp.example"; nonce := 1 |}); vm_compute; reflexivity.
Defined.

(** What you see is what you sign.  After any history, nothing was sent to
    the provider, or exactly one authorisation [a]; then the machine is in
    [Signed a] and the history has, in this order: a request that parsed, with
    a document hash and a fresh nonce, shown on the confirmation screen; the
    user's authorisation, which asked the device to sign the binding of that
    document to the screen hash of that moment; and the device's signature,
    which is the authorisation.  Nothing else was given to the device to
    sign. *)
Theorem qes_authorisation_history `{JL : JsonLib} (h : history Input Env Output) (s : QesState) :
  reaches h s ->
  sent h = []
  \/ exists a r b e e' e'',
       s = Signed a /\ sent h = [a] /\ accepted b e r
       /\ to_sign h = [qes_authorization_binding r (consent_hash e')]
       /\ sublist [requested b e r; authorised e' r; signed a e''] h.
Proof.
  intros H. apply qes_explains_holds in H. destruct s as [|r|p|a|x]; cbn in H;
    [left; tauto.. | | left; tauto].
  right. destruct H as (Hs & r & b & e & e' & e'' & Ha & Ht & Hl). exists a, r, b, e, e', e''. done.
Qed.

Definition sample_json : JsonLib := Samples.json_const (Samples.DObj [
  ("document_name", Samples.DStr "Contract.pdf");
  ("document_hash_hex", Samples.DStr "deAD");
  ("qtsp_id", Samples.DStr "qtsp.example"); ("nonce", Samples.DInt 1)]%string).

Definition sample_run : list (Input * Env) :=
  let e := {| seen_nonces := []; device_key_ref := "device-key";
              consent_hash := repeat Byte.x09 32 |} in
  [(SignatureRequest [], e); (UserAuthorized, e);
   (AuthorizationSignatureProduced [Byte.x2a], e)].

Lemma qes_authorisation_history_witness :
  let h := fst (@run _ _ _ _ (@qes_machine sample_json) sample_run) in
  sent h = []
  \/ exists a r b e e' e'',
       Signed [Byte.x2a] = Signed a /\ sent h = [a] /\ @accepted sample_json b e r
       /\ to_sign h = [qes_authorization_binding r (consent_hash e')]
       /\ sublist [requested b e r; authorised e' r; signed a e''] h.
Proof.
  intros h. apply (@qes_authorisation_history sample_json h (Signed [Byte.x2a])).
  exact (@run_reaches _ _ _ _ (@qes_machine sample_json) sample_run).
Defined.

(** The machine simulates the crate's reference model: from related states
    (with the model's nonces given to an idle machine) every step is matched by
    model events to related states, an aborted machine matching anything; a
    signed machine is related only to contexts whose signed document is the
    confirmed and authorised one. *)
Theorem qes_refines_model `{JL : JsonLib} (s : QesState) (c : Model.Ctx) (i : Input) (e : Env) :
  related s c -> same_nonces s e c ->
  exists evs, related (fst (step s i e)) (fold_left Model.step evs c).
Proof.
  intros HR Hg. apply (qes_simulation s c i e _ (snd (step s i e)) HR Hg).
  apply surjective_pairing.
Qed.

Lemma qes_refines_model_witness :
  exists evs, related (AwaitingAuthorization sample_request) (fold_left Model.step evs Model.init).
Proof.
  exact (@qes_refines_model sample_json Idle Model.init (SignatureRequest [])
    {| seen_nonces := []; device_key_ref := "k"; consent_hash := [] |} eq_refl (fun _ => eq_refl)).
Defined.
