(* ===== verification/W2w.v ===== *)
(** * Wallet-to-wallet transfer (crates/w2w/src/lib.rs)

    The receiver's accept-after-validate machine, the sender's transfer
    authorisation binding, and the crate's reference model, which the machine
    refines exactly. *)

From S2P Require Import Prelude Utf8 Cbor Machine.

Open Scope Z_scope.

(** ** Data *)

Inductive RejectReason : Type := IssuerInvalid | PeerMismatch | OutOfOrder.

Inductive State : Type :=
| Idle
| AwaitingTransfer
| Accepted (credential : bytes)
| Rejected (reason : RejectReason).

Inductive Input : Type :=
| CreateOffer
| TransferReceived (issuer_valid peer_bound : bool) (credential : bytes).

Inductive Output : Type :=
| PublishOffer
| StoreCredential (credential : bytes)
| Close.

(** ** Operations *)

Definition step (state : State) (input : Input) : State * list Output :=
  match state, input with
  | Idle, CreateOffer => (AwaitingTransfer, [PublishOffer])
  | AwaitingTransfer, TransferReceived issuer_valid peer_bound credential =>
      if negb issuer_valid then (Rejected IssuerInvalid, [])
      else if negb peer_bound then (Rejected PeerMismatch, [])
      else (Accepted credential, [StoreCredential credential; Close])
  | Idle, TransferReceived _ _ _ => (Rejected OutOfOrder, [])
  | s, _ => (s, [])
  end.

Definition transfer_authorization_binding (receiver_id : string)
    (receiver_key credential consent_hash : bytes) (nonce : Z) : bytes :=
  to_canonical (Array [
    Text "eudi-w2w-transfer-v1";
    Text receiver_id;
    Bytes receiver_key;
    Bytes credential;
    Bytes consent_hash;
    Uint nonce]).

#[export] Instance w2w_machine : Machine State Input unit Output :=
  {| initial := Idle; transition := fun s i _ => step s i |}.

(** ** The reference model (w2w::model) *)

Module Model.

Inductive St : Type := MIdle | MAwaitingTransfer | MAccepted | MRejected.

Inductive Ev : Type :=
| MCreateOffer
| MTransferReceived (issuer_valid peer_bound : bool).

Record Ctx : Type := { st : St; c_issuer_valid : bool; c_peer_bound : bool }.

Definition init : Ctx := {| st := MIdle; c_issuer_valid := false; c_peer_bound := false |}.

Definition with_st (c : Ctx) (s : St) : Ctx :=
  {| st := s; c_issuer_valid := c_issuer_valid c; c_peer_bound := c_peer_bound c |}.

Definition step (c : Ctx) (ev : Ev) : Ctx :=
  match ev with
  | MCreateOffer => match st c with MIdle => with_st c MAwaitingTransfer | _ => c end
  | MTransferReceived issuer_valid peer_bound =>
      match st c with
      | MAwaitingTransfer =>
          if negb issuer_valid then with_st c MRejected
          else if negb peer_bound then with_st c MRejected
          else {| st := MAccepted; c_issuer_valid := true; c_peer_bound := true |}
      | MIdle => with_st c MRejected
      | _ => c
      end
  end.

Definition run (evs : list Ev) : Ctx := fold_left step evs init.

Definition state_name (s : St) : string :=
  match s with
  | MIdle => "idle"
  | MAwaitingTransfer => "awaitingTransfer"
  | MAccepted => "accepted"
  | MRejected => "rejected"
  end.

End Model.

(** ** Abstraction *)

Definition abs_input (i : Input) : Model.Ev :=
  match i with
  | CreateOffer => Model.MCreateOffer
  | TransferReceived iv pb _ => Model.MTransferReceived iv pb
  end.

(** The model's flags are set exactly in the accepting state. *)
Definition abs (s : State) : Model.Ctx :=
  match s with
  | Idle => Model.init
  | AwaitingTransfer => Model.with_st Model.init Model.MAwaitingTransfer
  | Accepted _ => {| Model.st := Model.MAccepted; Model.c_issuer_valid := true;
                     Model.c_peer_bound := true |}
  | Rejected _ => Model.with_st Model.init Model.MRejected
  end.

Lemma abs_step s i : abs (fst (step s i)) = Model.step (abs s) (abs_input i).
Proof. destruct s, i as [|[] [] c]; reflexivity. Qed.

Lemma run_from_abs s h l :
  abs (snd (run_from s h l)) = fold_left Model.step (map (fun x => abs_input (fst x)) l) (abs s).
Proof.
  revert s h. induction l as [|[i e] l IH]; intros s h; [done|]. cbn.
  rewrite <- abs_step. destruct (step s i) as [s' out]. apply IH.
Qed.

(** ** Histories *)

Definition stored (h : history Input unit Output) : list bytes :=
  flat_map (fun o => match o with StoreCredential c => [c] | _ => [] end) (outputs h).

Definition offered : event Input unit Output := Event CreateOffer tt [PublishOffer].

Definition transferred (c : bytes) : event Input unit Output :=
  Event (TransferReceived true true c) tt [StoreCredential c; Close].

Definition explains (h : history Input unit Output) (s : State) : Prop :=
  match s with
  | Idle | Rejected _ => stored h = []
  | AwaitingTransfer => stored h = [] /\ sublist [offered] h
  | Accepted c => stored h = [c] /\ sublist [offered; transferred c] h
  end.

Lemma stored_snoc h i e out :
  stored (h ++ [Event i e out])
  = stored h ++ flat_map (fun o => match o with StoreCredential c => [c] | _ => [] end) out.
Proof. apply flat_snoc. Qed.

Lemma w2w_explains_holds h s : reaches h s -> explains h s.
Proof.
  apply reaches_invariant; [done|]. clear. intros h s i [] s' out _ IH E.
  destruct s as [| |c|r], i as [|[] [] c']; injection E as <- <-; cbn in *;
    rewrite ?stored_snoc; cbn; rewrite ?app_nil_r; try done;
    try (destruct IH as [H1 H2]; rewrite ?H1; split; [done|]; by apply sublist_snoc).
  - split; [done|]. apply (sublist_snoc_same []), sublist_nil_l.
  - destruct IH as [-> H2]. split; [done|]. by apply (sublist_snoc_same [_]).
  - by destruct IH.
  - by destruct IH.
  - by destruct IH.
Qed.

(** ** Properties *)

(** A transfer authorisation is specific to its receiver and credential:
    equal bindings have the same receiver identity and key, credential, consent
    hash and nonce. *)
Theorem transfer_binding_specific (id id' : string) (key key' cred cred' ch ch' : bytes) (n n' : Z) :
  rust_string id && rust_string id' && is_u64 n && is_u64 n'
  && forallb rust_vec [key; key'; cred; cred'; ch; ch'] = true ->
  transfer_authorization_binding id key cred ch n = transfer_authorization_binding id' key' cred' ch' n' ->
  id = id' /\ key = key' /\ cred = cred' /\ ch = ch' /\ n = n'.
Proof.
  unfold transfer_authorization_binding. cbn [forallb]. intros H E. bool_prop. by binding_inj E.
Qed.

Lemma transfer_binding_specific_witness :
  "wallet-B"%string = "wallet-B"%string /\ [Byte.x01] = [Byte.x01] /\ [Byte.x02] = [Byte.x02]
  /\ repeat Byte.x09 32 = repeat Byte.x09 32 /\ 1 = 1.
Proof.
  apply (transfer_binding_specific "wallet-B" "wallet-B" [Byte.x01] [Byte.x01]); reflexivity.
Defined.

(** Accept after validate.  After any history the receiver has stored
    nothing, or exactly one credential; then it had published an offer, and
    after it received that credential in a transfer whose issuer signature was
    valid and which was bound to this receiver. *)
Theorem w2w_accept_after_validate (h : history Input unit Output) (s : State) :
  reaches h s ->
  stored h = []
  \/ exists c, s = Accepted c /\ stored h = [c] /\ sublist [offered; transferred c] h.
Proof.
  intros H. apply w2w_explains_holds in H. destruct s as [| |c|r]; cbn in H;
    [by left|left; tauto|right; exists c; tauto|by left].
Qed.

Lemma w2w_accept_after_validate_witness :
  let h := fst (run [(CreateOffer, tt); (TransferReceived true true [Byte.x07], tt)]) in
  stored h = []
  \/ exists c, Accepted [Byte.x07] = Accepted c /\ stored h = [c]
     /\ sublist [offered; transferred c] h.
Proof.
  intros h. apply (w2w_accept_after_validate h (Accepted [Byte.x07])).
  exact (run_reaches [(CreateOffer, tt); (TransferReceived true true [Byte.x07], tt)]).
Defined.

(** The machine is its reference model: running it on any inputs and
    abstracting the state gives the model's run on the abstracted inputs. *)
Theorem w2w_equals_model (l : list (Input * unit)) :
  abs (snd (run l)) = Model.run (map (fun x => abs_input (fst x)) l).
Proof. apply run_from_abs. Qed.
