(* ===== verification/Sealing.v ===== *)
(** * Encryption and key agreement (crates/crypto-traits/src/lib.rs)

    The traits for authenticated encryption, key derivation and key agreement,
    and the agreement keys of crates/crypto-backend/src/lib.rs over the
    operations of aws-lc-rs.  An [aws_lc_rs::agreement::PrivateKey] is the
    bytes it holds; the random bytes a call draws are arguments.  What the
    callers rely on is stated as laws, which [Samples] shows to be
    satisfiable. *)

From S2P Require Import Prelude Utf8 Boundary.

Open Scope Z_scope.
Open Scope rust_scope.

Class Aead : Type := {
  seal : bytes -> bytes -> bytes -> bytes -> result bytes CryptoError;
  open : bytes -> bytes -> bytes -> bytes -> result bytes CryptoError;
}.

(** AES-256-GCM: the longest plaintext. *)
Definition MAX_PLAINTEXT : Z := 2 ^ 36 - 32.

(** What was sealed opens under the same key, nonce and additional data, the
    tag is 16 bytes, and sealing succeeds with a key of 32 and a nonce of 12
    bytes. *)
Class AeadLaws `{Aead} : Prop := {
  open_seal : forall key nonce aad plaintext sealed,
    seal key nonce aad plaintext = Ok sealed -> open key nonce aad sealed = Ok plaintext;
  seal_length : forall key nonce aad plaintext sealed,
    seal key nonce aad plaintext = Ok sealed -> len sealed = len plaintext + 16;
  seal_total : forall key nonce aad plaintext,
    len key = 32 -> len nonce = 12 -> len plaintext <= MAX_PLAINTEXT ->
    exists sealed, seal key nonce aad plaintext = Ok sealed;
}.

Class Kdf : Type := { hkdf_sha256 : bytes -> bytes -> bytes -> Z -> bytes }.

(** HKDF-SHA-256 gives what was asked for, up to 255 blocks. *)
Class KdfLaws `{Kdf} : Prop := {
  hkdf_length : forall ikm salt info n,
    0 <= n <= 255 * 32 -> len (hkdf_sha256 ikm salt info n) = n;
}.

(** ** ECDH on P-256 *)

(** aws-lc-rs: [PrivateKey::generate] on random bytes, [compute_public_key]
    and [agree]. *)
Class Ecdh : Type := {
  private_generate : bytes -> option bytes;
  compute_public_key : bytes -> option bytes;
  ecdh_agree : bytes -> bytes -> option bytes;
}.

(** A public key is an uncompressed point, and the two sides of an agreement
    have one secret. *)
Class EcdhLaws `{Ecdh} : Prop := {
  public_key_shape : forall a pub,
    compute_public_key a = Some pub -> exists xy, pub = Byte.x04 :: xy /\ length xy = 64%nat;
  agreement_symmetric : forall a b pub_a pub_b z,
    compute_public_key a = Some pub_a -> compute_public_key b = Some pub_b ->
    ecdh_agree a pub_b = Some z -> ecdh_agree b pub_a = Some z;
}.

Record EcdhEs : Type := { ephemeral_public : bytes; shared_secret : bytes }.

Record P256AgreementKey : Type := { private : bytes; public : bytes }.

Section agreement.
Context `{E : Ecdh}.

Definition ecdh_es_p256 (random recipient_public : bytes) : result EcdhEs CryptoError :=
  let? my_private := ok_or (private_generate random) (Backend "ecdh keygen failed") in
  let? my_public :=
    ok_or (compute_public_key my_private) (Backend "ecdh public-key derivation failed") in
  let? z :=
    ok_or (ecdh_agree my_private recipient_public)
      (Backend "ecdh agreement rejected the recipient key") in
  Ok {| ephemeral_public := my_public; shared_secret := z |}.

Definition generate (random : bytes) : result P256AgreementKey CryptoError :=
  let? private := ok_or (private_generate random) (Backend "ecdh keygen failed") in
  let? public := ok_or (compute_public_key private) (Backend "ecdh public-key derivation failed") in
  Ok {| private := private; public := public |}.

Definition public_raw (self : P256AgreementKey) : bytes := public self.

Definition agree (self : P256AgreementKey) (ephemeral_public : bytes) : result bytes CryptoError :=
  ok_or (ecdh_agree (private self) ephemeral_public)
    (Backend "ecdh agreement rejected the ephemeral key").

Lemma ecdh_es_Ok random recipient e :
  ecdh_es_p256 random recipient = Ok e ->
  exists a, private_generate random = Some a /\ compute_public_key a = Some (ephemeral_public e)
    /\ ecdh_agree a recipient = Some (shared_secret e).
Proof.
  unfold ecdh_es_p256. destruct (private_generate random) as [a|]; [|done]. cbn.
  destruct (compute_public_key a) as [p|] eqn:Hp; [|done]. cbn.
  destruct (ecdh_agree a recipient) as [z|] eqn:Hz; [|done]. cbn. intros [= <-]. by exists a.
Qed.

(** The key the library generated agrees with the sender on its secret. *)
Lemma recipient_agrees {EL : EcdhLaws} random key_random key e :
  generate key_random = Ok key -> ecdh_es_p256 random (public_raw key) = Ok e ->
  agree key (ephemeral_public e) = Ok (shared_secret e).
Proof.
  unfold generate. destruct (private_generate key_random) as [b|]; [|done]. cbn.
  destruct (compute_public_key b) as [p|] eqn:Hp; [|done]. cbn. intros [= <-].
  intros (a & _ & Ha & Hz)%ecdh_es_Ok. unfold agree. cbn in *.
  by rewrite (agreement_symmetric _ _ _ _ _ Ha Hp Hz).
Qed.
End agreement.

(** ** Concrete instances *)

Module Samples.

(** The tag is the key, the nonce and the additional data, cut to 16 bytes. *)
Definition tag (key nonce aad : bytes) : bytes := firstn 16 (nonce ++ aad ++ key ++ repeat Byte.x00 16).

Definition tagging : Aead := {|
  seal := fun key nonce aad plaintext => Ok (plaintext ++ tag key nonce aad);
  open := fun key nonce aad sealed =>
    let n := (length sealed - 16)%nat in
    if bool_decide (skipn n sealed = tag key nonce aad) then Ok (firstn n sealed)
    else Err Unsupported;
|}.

Lemma tag_length key nonce aad : length (tag key nonce aad) = 16%nat.
Proof. unfold tag. rewrite length_firstn, !length_app, repeat_length. lia. Qed.

Lemma tagging_laws : @AeadLaws tagging.
Proof.
  constructor; cbn; intros key nonce aad p; [intros sealed [= <-]..|by eexists].
  - rewrite length_app, tag_length.
    replace (length p + 16 - 16)%nat with (length p) by lia.
    rewrite skipn_app, skipn_all, Nat.sub_diag, firstn_app, firstn_all, Nat.sub_diag. cbn.
    rewrite bool_decide_eq_true_2 by done. by rewrite app_nil_r.
  - rewrite len_app. unfold len. rewrite tag_length. lia.
Qed.

(** The group of the 256-bit numbers under addition. *)
Definition scalar (b : bytes) : Z := from_be_bytes b mod 2 ^ 256.

Definition adding : Ecdh := {|
  private_generate := Some;
  compute_public_key := fun a =>
    Some (Byte.x04 :: to_be_bytes 32 (scalar a) ++ repeat Byte.x00 32);
  ecdh_agree := fun a pub =>
    Some (to_be_bytes 32 ((scalar a + scalar (firstn 32 (skipn 1 pub))) mod 2 ^ 256));
|}.

Lemma scalar_public a : scalar (firstn 32 (to_be_bytes 32 (scalar a) ++ repeat Byte.x00 32)) = scalar a.
Proof.
  rewrite firstn_app. rewrite (firstn_all2 (to_be_bytes _ _)), length_to_be_bytes by by rewrite length_to_be_bytes.
  rewrite Nat.sub_diag. cbn [firstn]. rewrite app_nil_r.
  unfold scalar at 1. pose proof (Z.mod_pos_bound (from_be_bytes a) (2 ^ 256) ltac:(lia)) as B.
  rewrite from_to_be_bytes by (unfold scalar; cbn in *; lia).
  unfold scalar. by rewrite Z.mod_mod by lia.
Qed.

Lemma adding_laws : @EcdhLaws adding.
Proof.
  constructor.
  - intros a pub. cbn [compute_public_key adding]. intros <-%(inj Some).
    exists (to_be_bytes 32 (scalar a) ++ repeat Byte.x00 32). split; [done|].
    by rewrite length_app, length_to_be_bytes, repeat_length.
  - intros a b pa pb z. cbn [compute_public_key ecdh_agree adding].
    intros <-%(inj Some) <-%(inj Some) <-%(inj Some). rewrite !skipn_cons, !skipn_O, !scalar_public. do 3 f_equal. lia.
Qed.

Definition concat_kdf : Kdf := {|
  hkdf_sha256 := fun ikm salt info n =>
    firstn (Z.to_nat n) (info ++ ikm ++ salt ++ repeat Byte.x00 (Z.to_nat n));
|}.

Lemma concat_kdf_laws : @KdfLaws concat_kdf.
Proof.
  constructor. intros ikm salt info n Hn. cbn. unfold len.
  rewrite length_firstn, !length_app, repeat_length. lia.
Qed.
End Samples.
