(* ===== verification/Proximity.v ===== *)
(** * Proximity presentation (crates/iso18013-5/src/lib.rs)

    The ISO/IEC 18013-5 machine: device engagement, session establishment,
    consent and device response, with the CBOR structures it builds and the
    crate's reference model ([Model]).  The theorems: the bytes the device key
    signs determine the whole session (engagement key, service UUID and reader
    key), so a signature cannot be relayed into another session; a response
    leaves the wallet only after engagement, a session whose guards hold, the
    user's consent and the device signature, in that order and at most once;
    the machine runs in lockstep with the reference model. *)

From S2P Require Import Prelude Utf8 Cbor Machine.

Open Scope Z_scope.
Open Scope rust_scope.

Definition CIPHER_SUITE : Z := 1.
Definition RETRIEVAL_METHOD_BLE : Z := 2.
Definition DOC_TYPE_MDL : string := "org.iso.18013.5.1.mDL".

(** ** Data *)

Inductive AbortReason : Type :=
| SessionTranscriptUnbound
| ReaderKeyInvalid
| RequestOutOfOrder
| NoConsent
| ReaderAuthInvalid.

Inductive State : Type :=
| Idle
| Engaged (device_engagement : bytes)
| SessionEstablished (session_transcript : bytes)
| SigningResponse (session_transcript : bytes)
| Responded
| Terminated
| Aborted (reason : AbortReason).

(** [ble_uuid] is a [[u8; 16]]. *)
Inductive Input : Type :=
| StartEngagement (device_key_cose ble_uuid : bytes)
| ReaderEstablishment (e_reader_key_cose : bytes)
| ConsentGranted
| ConsentDeclined
| DeviceSignatureProduced (sig : bytes)
| ReaderTermination.

Inductive Output : Type :=
| EmitDeviceEngagement (b : bytes)
| RenderConsent
| SignDeviceAuth (key_ref : string) (signing_input : bytes)
| EmitDeviceResponse (b : bytes)
| EmitTermination.

Record Env : Type := {
  reader_key_on_curve : bool;
  transcript_bound : bool;
  reader_auth_present : bool;
  env_reader_auth_valid : bool;
  device_key_ref : string;
}.

(** ** Guards *)

Definition session_transcript_is_bound (env : Env) : bool := transcript_bound env.

Definition reader_ephemeral_key_valid (env : Env) : bool := reader_key_on_curve env.

Definition reader_auth_valid (env : Env) : bool :=
  negb (reader_auth_present env) || env_reader_auth_valid env.

(** ** The CBOR structures *)

Definition device_engagement_value (device_key_cose ble_uuid : bytes) : Value :=
  let device_key_bytes := Tag 24 (Bytes device_key_cose) in
  let security := Array [Uint CIPHER_SUITE; device_key_bytes] in
  let ble_options := Map [(Uint 0, Bool true); (Uint 11, Bytes ble_uuid)] in
  let ble_method := Array [Uint RETRIEVAL_METHOD_BLE; Uint 1; ble_options] in
  Map [(Uint 0, Text "1.0"); (Uint 1, security); (Uint 2, Array [ble_method])].

Definition build_device_engagement (device_key_cose ble_uuid : bytes) : bytes :=
  to_canonical (device_engagement_value device_key_cose ble_uuid).

Definition transcript_value (device_engagement e_reader_key_cose : bytes) : Value :=
  Array [Tag 24 (Bytes device_engagement); Tag 24 (Bytes e_reader_key_cose); Null].

Definition session_transcript (device_engagement e_reader_key_cose : bytes) : bytes :=
  to_canonical (transcript_value device_engagement e_reader_key_cose).

Definition session_transcript_bytes (transcript : bytes) : bytes :=
  to_canonical (Tag 24 (Bytes transcript)).

Definition device_authentication (transcript : Value) : Value :=
  let device_namespaces_bytes := Tag 24 (Bytes (to_canonical (Map []))) in
  Array [Text "DeviceAuthentication"; transcript; Text DOC_TYPE_MDL; device_namespaces_bytes].

Definition device_auth_signing_input (transcript : bytes) : bytes :=
  let v := unwrap_or (option_map fst (ok (decode_value transcript 0))) Null in
  to_canonical (Tag 24 (Bytes (to_canonical (device_authentication v)))).

Definition assemble_device_response (transcript signature : bytes) : bytes :=
  to_canonical (Array [Text "DeviceResponse"; Bytes transcript; Bytes signature]).

Arguments device_engagement_value : simpl never.
Arguments build_device_engagement : simpl never.
Arguments session_transcript : simpl never.
Arguments device_auth_signing_input : simpl never.
Arguments assemble_device_response : simpl never.

(** ** The machine *)

Definition step (state : State) (input : Input) (env : Env) : State * list Output :=
  match state, input with
  | Idle, StartEngagement device_key_cose ble_uuid =>
      let de := build_device_engagement device_key_cose ble_uuid in
      (Engaged de, [EmitDeviceEngagement de])
  | Engaged device_engagement, ReaderEstablishment e_reader_key_cose =>
      if negb (reader_ephemeral_key_valid env) then (Aborted ReaderKeyInvalid, [])
      else if negb (session_transcript_is_bound env) then (Aborted SessionTranscriptUnbound, [])
      else if negb (reader_auth_valid env) then (Aborted ReaderAuthInvalid, [])
      else (SessionEstablished (session_transcript device_engagement e_reader_key_cose),
            [RenderConsent])
  | SessionEstablished transcript, ConsentGranted =>
      (SigningResponse transcript,
       [SignDeviceAuth (device_key_ref env) (device_auth_signing_input transcript)])
  | SessionEstablished _, ConsentDeclined => (Aborted NoConsent, [EmitTermination])
  | SigningResponse transcript, DeviceSignatureProduced sig =>
      (Responded, [EmitDeviceResponse (assemble_device_response transcript sig)])
  | Engaged _, ConsentGranted => (Aborted RequestOutOfOrder, [])
  | _, ReaderTermination => (Terminated, [EmitTermination])
  | s, _ => (s, [])
  end.

#[export] Instance proximity_machine : Machine State Input Env Output :=
  {| initial := Idle; transition := step |}.

(** ** The reference model (iso18013_5::model) *)

Module Model.

Inductive St : Type :=
| MIdle
| MEngaged
| MSessionEstablished
| MSigningResponse
| MResponded
| MAborted
| MTerminated.

Inductive Ev : Type :=
| MStartEngagement
| MReaderEstablish (valid : bool)
| MConsentGrant
| MConsentDecline
| MDeviceSign
| MTerminate.

Record Ctx : Type := { st : St; session_bound : bool; consented : bool }.

Definition init : Ctx := {| st := MIdle; session_bound := false; consented := false |}.

Definition with_st (c : Ctx) (s : St) : Ctx :=
  {| st := s; session_bound := session_bound c; consented := consented c |}.

Definition step (c : Ctx) (ev : Ev) : Ctx :=
  match ev with
  | MStartEngagement => match st c with MIdle => with_st c MEngaged | _ => c end
  | MReaderEstablish valid =>
      match st c with
      | MEngaged =>
          if valid
          then {| st := MSessionEstablished; session_bound := true; consented := consented c |}
          else with_st c MAborted
      | _ => c
      end
  | MConsentGrant =>
      match st c with
      | MSessionEstablished =>
          {| st := MSigningResponse; session_bound := session_bound c; consented := true |}
      | MEngaged => with_st c MAborted
      | _ => c
      end
  | MConsentDecline => match st c with MSessionEstablished => with_st c MAborted | _ => c end
  | MDeviceSign => match st c with MSigningResponse => with_st c MResponded | _ => c end
  | MTerminate => with_st c MTerminated
  end.

Definition run (evs : list Ev) : Ctx := fold_left step evs init.

Definition state_name (s : St) : string :=
  match s with
  | MIdle => "idle"
  | MEngaged => "engaged"
  | MSessionEstablished => "sessionEstablished"
  | MSigningResponse => "signingResponse"
  | MResponded => "responded"
  | MAborted => "aborted"
  | MTerminated => "terminated"
  end.

End Model.

(** ** The bytes that are signed *)

(** Keys below four gigabytes, so that every structure built from them has a
    64-bit length. *)
Definition key_sized (b : bytes) : bool := len b <=? U32_MAX.

Lemma key_sized_le b : key_sized b = true -> len b <= U32_MAX.
Proof. apply Z.leb_le. Qed.

Lemma key_sized_vec b : key_sized b = true -> rust_vec b = true.
Proof. intros H%key_sized_le. apply Z.leb_le. width. lia. Qed.

Lemma device_engagement_canonical k u :
  key_sized k = true -> key_sized u = true ->
  canonical (device_engagement_value k u) = true.
Proof.
  intros Hk%key_sized_vec Hu%key_sized_vec.
  unfold device_engagement_value, CIPHER_SUITE, RETRIEVAL_METHOD_BLE. canonical_value.
Qed.

Lemma device_engagement_weight k u :
  weight (device_engagement_value k u) = 165 + len k + len u.
Proof.
  unfold device_engagement_value. cbn [weight fold_right]. change (slen "1.0") with 3.
  generalize (len k) (len u). intros. lia.
Qed.

Lemma device_engagement_size k u :
  key_sized k = true -> key_sized u = true ->
  len (build_device_engagement k u) <= 3 * U32_MAX.
Proof.
  intros Hk%key_sized_le Hu%key_sized_le.
  pose proof (len_to_canonical (device_engagement_value k u)) as H.
  rewrite device_engagement_weight in H. unfold build_device_engagement. width. lia.
Qed.

Lemma transcript_canonical de r :
  rust_vec de = true -> rust_vec r = true -> canonical (transcript_value de r) = true.
Proof. intros Hd Hr. unfold transcript_value. canonical_value. Qed.

(** The transcript always decodes, so the [Null] of [unwrap_or] is never
    signed. *)
Lemma device_auth_signing_input_transcript de r :
  rust_vec de = true -> rust_vec r = true ->
  device_auth_signing_input (session_transcript de r)
  = to_canonical (Tag 24 (Bytes (to_canonical (device_authentication (transcript_value de r))))).
Proof.
  intros Hd Hr. unfold device_auth_signing_input, session_transcript, decode_value.
  assert (decode_at (MAX_DEPTH + 1 - 0) (to_canonical (transcript_value de r))
          = Ok (transcript_value de r, [])) as ->.
  { rewrite <- (app_nil_r (to_canonical _)). apply decode_at_to_canonical.
    - by apply transcript_canonical.
    - unfold MAX_DEPTH. cbn. lia. }
  reflexivity.
Qed.

Lemma device_authentication_canonical v :
  canonical v = true -> canonical (device_authentication v) = true.
Proof. intros Hv. unfold device_authentication, DOC_TYPE_MDL. canonical_value. Qed.

Lemma device_authentication_weight de r :
  weight (device_authentication (transcript_value de r)) = 141 + len de + len r.
Proof.
  unfold device_authentication, transcript_value. cbn [weight fold_right].
  change (slen "DeviceAuthentication") with 20. change (slen DOC_TYPE_MDL) with 21.
  change (len (to_canonical (Map []))) with 1. lia.
Qed.

Lemma device_authentication_size de r :
  len de <= 3 * U32_MAX -> len r <= U32_MAX ->
  rust_vec (to_canonical (device_authentication (transcript_value de r))) = true.
Proof.
  intros Hd Hr. apply Z.leb_le.
  pose proof (len_to_canonical (device_authentication (transcript_value de r))) as H.
  rewrite device_authentication_weight in H. width. lia.
Qed.

Lemma device_authentication_inj de r de' r' :
  device_authentication (transcript_value de r) = device_authentication (transcript_value de' r') ->
  de = de' /\ r = r'.
Proof. by intros [= -> ->]. Qed.

Lemma device_engagement_value_inj k u k' u' :
  device_engagement_value k u = device_engagement_value k' u' -> k = k' /\ u = u'.
Proof. by intros [= -> ->]. Qed.

Lemma device_auth_inj k u r k' u' r' :
  forallb key_sized [k; u; r; k'; u'; r'] = true ->
  device_auth_signing_input (session_transcript (build_device_engagement k u) r)
  = device_auth_signing_input (session_transcript (build_device_engagement k' u') r') ->
  k = k' /\ u = u' /\ r = r'.
Proof.
  cbn [forallb]. intros H E. bool_prop.
  pose proof (device_engagement_size k u) as S1. pose proof (device_engagement_size k' u') as S2.
  assert (rust_vec (build_device_engagement k u) = true) as V1
    by (apply Z.leb_le; specialize (S1 ltac:(done) ltac:(done)); width; lia).
  assert (rust_vec (build_device_engagement k' u') = true) as V2
    by (apply Z.leb_le; specialize (S2 ltac:(done) ltac:(done)); width; lia).
  rewrite !device_auth_signing_input_transcript in E by (done || by apply key_sized_vec).
  apply to_canonical_inj in E;
    [|apply canonical_Tag, canonical_Bytes, device_authentication_size;
      [done|auto|by apply key_sized_le]..].
  apply tag_bytes_inj, to_canonical_inj in E;
    [|apply device_authentication_canonical, transcript_canonical; auto using key_sized_vec..].
  apply device_authentication_inj in E as [E ->]. apply to_canonical_inj in E;
    [|by apply device_engagement_canonical..].
  apply device_engagement_value_inj in E as [-> ->]. done.
Qed.

(** ** Histories *)

(** What a session was made of. *)
Record session : Type := {
  device_key : bytes;
  uuid : bytes;
  reader_key : bytes;
  env_start : Env;
  env_reader : Env;
  env_consent : Env;
}.

Definition engagement (x : session) : bytes := build_device_engagement (device_key x) (uuid x).

Definition transcript (x : session) : bytes := session_transcript (engagement x) (reader_key x).

Definition started (x : session) : event Input Env Output :=
  Event (StartEngagement (device_key x) (uuid x)) (env_start x)
    [EmitDeviceEngagement (engagement x)].

Definition established (x : session) : event Input Env Output :=
  Event (ReaderEstablishment (reader_key x)) (env_reader x) [RenderConsent].

Definition consented (x : session) : event Input Env Output :=
  Event ConsentGranted (env_consent x)
    [SignDeviceAuth (device_key_ref (env_consent x)) (device_auth_signing_input (transcript x))].

Definition responded (x : session) (sig : bytes) (e : Env) : event Input Env Output :=
  Event (DeviceSignatureProduced sig) e
    [EmitDeviceResponse (assemble_device_response (transcript x) sig)].

Definition reader_checked (e : Env) : Prop :=
  reader_ephemeral_key_valid e = true /\ session_transcript_is_bound e = true
  /\ reader_auth_valid e = true.

(** What left the wallet, and what the device was asked to sign. *)
Definition sent (h : history Input Env Output) : list bytes :=
  flat_map (fun o => match o with EmitDeviceResponse b => [b] | _ => [] end) (outputs h).

Definition to_sign (h : history Input Env Output) : list bytes :=
  flat_map (fun o => match o with SignDeviceAuth _ m => [m] | _ => [] end) (outputs h).

Definition asked (h : history Input Env Output) (x : session) : Prop :=
  reader_checked (env_reader x) /\ to_sign h = [device_auth_signing_input (transcript x)]
  /\ sublist [started x; established x; consented x] h.

Definition answered (h : history Input Env Output) (x : session) : Prop :=
  exists sig e, reader_checked (env_reader x)
    /\ to_sign h = [device_auth_signing_input (transcript x)]
    /\ sent h = [assemble_device_response (transcript x) sig]
    /\ sublist [started x; established x; consented x; responded x sig e] h.

(** The three things a history can have come to. *)
Definition outcome (h : history Input Env Output) : Prop :=
  (sent h = [] /\ to_sign h = [])
  \/ (exists x, sent h = [] /\ asked h x)
  \/ (exists x, answered h x).

Definition explains (h : history Input Env Output) (s : State) : Prop :=
  match s with
  | Idle => sent h = [] /\ to_sign h = []
  | Engaged de =>
      sent h = [] /\ to_sign h = [] /\ exists x, de = engagement x /\ sublist [started x] h
  | SessionEstablished t =>
      sent h = [] /\ to_sign h = []
      /\ exists x, t = transcript x /\ reader_checked (env_reader x)
           /\ sublist [started x; established x] h
  | SigningResponse t => sent h = [] /\ exists x, t = transcript x /\ asked h x
  | Responded => exists x, answered h x
  | Terminated | Aborted _ => outcome h
  end.

Lemma prox_sent_snoc h i e out :
  sent (h ++ [Event i e out])
  = sent h ++ flat_map (fun o => match o with EmitDeviceResponse b => [b] | _ => [] end) out.
Proof. apply flat_snoc. Qed.

Lemma prox_to_sign_snoc h i e out :
  to_sign (h ++ [Event i e out])
  = to_sign h ++ flat_map (fun o => match o with SignDeviceAuth _ m => [m] | _ => [] end) out.
Proof. apply flat_snoc. Qed.

(** Outputs that neither sign nor respond. *)
Definition silent (out : list Output) : bool :=
  forallb (fun o => match o with EmitDeviceResponse _ | SignDeviceAuth _ _ => false | _ => true end)
    out.

Lemma silent_snoc h i e out :
  silent out = true ->
  sent (h ++ [Event i e out]) = sent h /\ to_sign (h ++ [Event i e out]) = to_sign h.
Proof.
  intros H. rewrite prox_sent_snoc, prox_to_sign_snoc.
  enough (flat_map (fun o => match o with EmitDeviceResponse b => [b] | _ => [] end) out = []
    /\ flat_map (fun o => match o with SignDeviceAuth _ m => [m] | _ => [] end) out = []) as [-> ->]
    by by rewrite !app_nil_r.
  induction out as [|o out IH]; [done|]. cbn in H. apply andb_true_iff in H as [Ho H].
  apply IH in H as [H1 H2]. by destruct o; cbn; rewrite ?H1, ?H2.
Qed.

Lemma asked_snoc h x i e out : silent out = true -> asked h x -> asked (h ++ [Event i e out]) x.
Proof.
  intros Hq (H1 & H2 & H3). destruct (silent_snoc h i e out Hq) as [_ E].
  unfold asked. rewrite E. auto with wallet.
Qed.

Lemma answered_snoc h x i e out :
  silent out = true -> answered h x -> answered (h ++ [Event i e out]) x.
Proof.
  intros Hq (sig & e' & H1 & H2 & H3 & H4). destruct (silent_snoc h i e out Hq) as [E1 E2].
  exists sig, e'. rewrite E1, E2. auto with wallet.
Qed.

Lemma outcome_snoc h i e out : silent out = true -> outcome h -> outcome (h ++ [Event i e out]).
Proof.
  intros Hq H. destruct (silent_snoc h i e out Hq) as [E1 E2]. unfold outcome. rewrite E1, E2.
  destruct H as [H|[(x & H1 & H2)|(x & H)]];
    [by left | right; left | right; right]; eauto using asked_snoc, answered_snoc.
Qed.

Lemma explains_outcome h s : explains h s -> outcome h.
Proof. destruct s; cbn; unfold outcome; naive_solver. Qed.

Lemma explains_snoc h s i e out :
  silent out = true -> explains h s -> explains (h ++ [Event i e out]) s.
Proof.
  intros Hq. destruct (silent_snoc h i e out Hq) as [E1 E2].
  destruct s; cbn; rewrite ?E1, ?E2;
    naive_solver eauto using asked_snoc, answered_snoc, outcome_snoc, sublist_snoc.
Qed.

Lemma proximity_explains_holds h s : reaches h s -> explains h s.
Proof.
  apply reaches_invariant; [done|]. clear. intros h s i e s' out _ IH E. cbn in E.
  destruct s as [|de|t|t| | |a], i as [k u|r| | |sig|]; cbn [step] in E;
    try (injection E as <- <-; by apply explains_snoc);
    try (injection E as <- <-; apply outcome_snoc; [done|]; by eapply explains_outcome).
  - (* engagement *)
    injection E as <- <-. destruct IH as [H1 H2].
    cbn [explains]. rewrite prox_sent_snoc, prox_to_sign_snoc, H1, H2. split_and!; [done..|].
    exists {| device_key := k; uuid := u; reader_key := []; env_start := e; env_reader := e;
              env_consent := e |}.
    split; [done|]. apply (sublist_snoc_same []), sublist_nil_l.
  - (* session *)
    destruct (reader_ephemeral_key_valid e) eqn:G1; cbn [negb] in E;
      [|injection E as <- <-; apply outcome_snoc; [done|]; by eapply explains_outcome].
    destruct (session_transcript_is_bound e) eqn:G2; cbn [negb] in E;
      [|injection E as <- <-; apply outcome_snoc; [done|]; by eapply explains_outcome].
    destruct (reader_auth_valid e) eqn:G3; cbn [negb] in E;
      [|injection E as <- <-; apply outcome_snoc; [done|]; by eapply explains_outcome].
    injection E as <- <-. destruct IH as (H1 & H2 & x & -> & Hx).
    cbn [explains]. rewrite prox_sent_snoc, prox_to_sign_snoc, H1, H2. split_and!; [done..|].
    exists {| device_key := device_key x; uuid := uuid x; reader_key := r;
              env_start := env_start x; env_reader := e; env_consent := e |}.
    split_and!; [done..|]. by apply (sublist_snoc_same [_]).
  - (* consent *)
    injection E as <- <-. destruct IH as (H1 & H2 & x & -> & Hg & Hx).
    cbn [explains]. rewrite prox_sent_snoc, H1. split; [done|].
    exists {| device_key := device_key x; uuid := uuid x; reader_key := reader_key x;
              env_start := env_start x; env_reader := env_reader x; env_consent := e |}.
    unfold asked. rewrite prox_to_sign_snoc, H2. split_and!; [done..|]. by apply (sublist_snoc_same [_; _]).
  - (* device signature *)
    injection E as <- <-. destruct IH as (H1 & x & -> & Hg & Ht & Hx).
    exists x, sig, e. rewrite prox_sent_snoc, prox_to_sign_snoc, H1, Ht. split_and!; [done..|].
    by apply (sublist_snoc_same [_; _; _]).
Qed.

(** ** The machine and its reference model *)

Definition abs_event (i : Input) (e : Env) : Model.Ev :=
  match i with
  | StartEngagement _ _ => Model.MStartEngagement
  | ReaderEstablishment _ =>
      Model.MReaderEstablish (reader_ephemeral_key_valid e && session_transcript_is_bound e
                              && reader_auth_valid e)
  | ConsentGranted => Model.MConsentGrant
  | ConsentDeclined => Model.MConsentDecline
  | DeviceSignatureProduced _ => Model.MDeviceSign
  | ReaderTermination => Model.MTerminate
  end.

Definition abs_state (s : State) : Model.St :=
  match s with
  | Idle => Model.MIdle
  | Engaged _ => Model.MEngaged
  | SessionEstablished _ => Model.MSessionEstablished
  | SigningResponse _ => Model.MSigningResponse
  | Responded => Model.MResponded
  | Terminated => Model.MTerminated
  | Aborted _ => Model.MAborted
  end.

(** The model's flags record what the production state implies. *)
Definition flags (s : State) (c : Model.Ctx) : Prop :=
  match s with
  | SessionEstablished _ => Model.session_bound c = true
  | SigningResponse _ | Responded => Model.session_bound c = true /\ Model.consented c = true
  | _ => True
  end.

Definition related (s : State) (c : Model.Ctx) : Prop := Model.st c = abs_state s /\ flags s c.

Lemma related_step s c i e :
  related s c -> related (fst (step s i e)) (Model.step c (abs_event i e)).
Proof.
  intros [Hs Hf]. destruct s, i; cbn in *; rewrite ?Hs; try done.
  destruct (reader_ephemeral_key_valid e), (session_transcript_is_bound e), (reader_auth_valid e);
    done.
Qed.

Lemma related_run s c h l :
  related s c ->
  related (snd (run_from s h l))
    (fold_left Model.step (map (fun x => abs_event (fst x) (snd x)) l) c).
Proof.
  revert s c h. induction l as [|[i e] l IH]; intros s c h H; [done|]. cbn.
  pose proof (related_step s c i e H) as H'. destruct (step s i e) as [s' out]. by apply IH.
Qed.

(** ** Properties *)

(** Anti-relay.  The bytes the device key signs determine the session:
    equal DeviceAuthentication bytes come from the same device key, the same
    service UUID and the same reader key.  A signature made for one reader is
    therefore not one for another. *)
Theorem device_auth_session_specific (k u r k' u' r' : bytes) :
  forallb key_sized [k; u; r; k'; u'; r'] = true ->
  device_auth_signing_input (session_transcript (build_device_engagement k u) r)
  = device_auth_signing_input (session_transcript (build_device_engagement k' u') r') ->
  k = k' /\ u = u' /\ r = r'.
Proof. apply device_auth_inj. Qed.

Lemma device_auth_session_specific_witness :
  [Byte.xa1] = [Byte.xa1] /\ repeat Byte.x07 16 = repeat Byte.x07 16 /\ [Byte.xa0] = [Byte.xa0].
Proof. apply device_auth_session_specific; vm_compute; reflexivity. Defined.

(** No response without consent.  After any history the wallet has signed
    and sent nothing; or it has asked for one device signature and sent
    nothing; or it has sent exactly one response.  What was signed is the
    DeviceAuthentication of one session, for which the history has, in this
    order, the engagement that was broadcast, the reader's establishment with
    the key, transcript and reader-authentication guards all true, the user's
    consent, and, when a response was sent, the device signature it carries. *)
Theorem proximity_consent_history (h : history Input Env Output) (s : State) :
  reaches h s ->
  (sent h = [] /\ to_sign h = [])
  \/ (exists x, sent h = [] /\ asked h x)
  \/ (exists x, answered h x).
Proof. intros H. eapply explains_outcome, proximity_explains_holds, H. Qed.

Definition sample_env : Env :=
  {| reader_key_on_curve := true; transcript_bound := true; reader_auth_present := false;
     env_reader_auth_valid := false; device_key_ref := "device-key" |}.

Definition sample_run : list (Input * Env) :=
  [(StartEngagement [Byte.xa1] (repeat Byte.x07 16), sample_env);
   (ReaderEstablishment [Byte.xa0], sample_env); (ConsentGranted, sample_env);
   (DeviceSignatureProduced [Byte.x2a], sample_env); (ReaderTermination, sample_env)].

Lemma proximity_consent_history_witness :
  let h := fst (run sample_run) in
  (sent h = [] /\ to_sign h = [])
  \/ (exists x, sent h = [] /\ asked h x)
  \/ (exists x, answered h x).
Proof.
  intros h. apply (proximity_consent_history h (snd (run sample_run))).
  exact (run_reaches sample_run).
Defined.

(** The machine runs in lockstep with its reference model: on any inputs
    the model's state is the abstraction of the machine's, and where the
    machine is signing or has responded the model has recorded a bound session
    and the consent. *)
Theorem proximity_equals_model (l : list (Input * Env)) :
  let s := snd (run l) in
  let c := Model.run (map (fun x => abs_event (fst x) (snd x)) l) in
  Model.st c = abs_state s /\ flags s c.
Proof. intros s c. by apply (related_run Idle Model.init []). Qed.
