(* ===== verification/ProximitySession.v ===== *)
(** * Session encryption (crates/wallet-core/src/proximity_session.rs)

    ISO 18013-5 session keys, the cipher that holds them with a counter for
    either direction, the COSE form of an agreement key, and the messages of a
    proximity session. *)

From S2P Require Import Prelude Utf8 Boundary Sealing Cbor Proximity.

Open Scope Z_scope.
Open Scope rust_scope.

Definition INFO_SK_DEVICE : bytes := as_bytes "SKDevice".
Definition INFO_SK_READER : bytes := as_bytes "SKReader".
Definition SK_LEN : Z := 32.
Definition IDENTIFIER_MDOC : bytes := repeat Byte.x00 7 ++ [Byte.x01].
Definition IDENTIFIER_READER : bytes := repeat Byte.x00 8.

Inductive SessionError : Type :=
| MalformedKey | UnsupportedKey | MalformedMessage | Crypto | CounterExhausted.

Record SessionKeys : Type := { key_device : bytes; key_reader : bytes }.

Record SessionCipher : Type := {
  sk_device : bytes;
  sk_reader : bytes;
  device_counter : Z;
  reader_counter : Z;
}.

Definition derive_session_keys `{D : Digest} {K : Kdf} (z session_transcript : bytes) : SessionKeys :=
  let salt := sha256 (session_transcript_bytes session_transcript) in
  {| key_device := hkdf_sha256 z salt INFO_SK_DEVICE SK_LEN;
     key_reader := hkdf_sha256 z salt INFO_SK_READER SK_LEN |}.

(** The nonce of a message: the sender's identifier and its counter. *)
Definition iv (identifier : bytes) (counter : Z) : bytes := identifier ++ to_be_bytes 4 counter.

Definition cipher_new (keys : SessionKeys) : SessionCipher :=
  {| sk_device := key_device keys; sk_reader := key_reader keys; device_counter := 0;
     reader_counter := 0 |}.

(** [u32::checked_add(1)]. *)
Definition next_counter (counter : Z) : result Z SessionError :=
  if counter + 1 <=? U32_MAX then Ok (counter + 1) else Err CounterExhausted.

Definition next_device (self : SessionCipher) : result (SessionCipher * Z) SessionError :=
  let? n := next_counter (device_counter self) in Ok ({| self with device_counter := n |}, n).

Definition next_reader (self : SessionCipher) : result (SessionCipher * Z) SessionError :=
  let? n := next_counter (reader_counter self) in Ok ({| self with reader_counter := n |}, n).

Section cipher.
Context {A : Aead}.

Definition seal_from_device (self : SessionCipher) (plaintext : bytes)
  : SessionCipher * result bytes SessionError :=
  match next_device self with
  | Err e => (self, Err e)
  | Ok (self, n) =>
      (self, map_err (seal (sk_device self) (iv IDENTIFIER_MDOC n) [] plaintext) (fun _ => Crypto))
  end.

Definition open_from_reader (self : SessionCipher) (ciphertext : bytes)
  : SessionCipher * result bytes SessionError :=
  match next_reader self with
  | Err e => (self, Err e)
  | Ok (self, n) =>
      (self, map_err (open (sk_reader self) (iv IDENTIFIER_READER n) [] ciphertext) (fun _ => Crypto))
  end.

Definition seal_from_reader (self : SessionCipher) (plaintext : bytes)
  : SessionCipher * result bytes SessionError :=
  match next_reader self with
  | Err e => (self, Err e)
  | Ok (self, n) =>
      (self, map_err (seal (sk_reader self) (iv IDENTIFIER_READER n) [] plaintext) (fun _ => Crypto))
  end.

Definition open_from_device (self : SessionCipher) (ciphertext : bytes)
  : SessionCipher * result bytes SessionError :=
  match next_device self with
  | Err e => (self, Err e)
  | Ok (self, n) =>
      (self, map_err (open (sk_device self) (iv IDENTIFIER_MDOC n) [] ciphertext) (fun _ => Crypto))
  end.
End cipher.

(** ** COSE keys *)

Definition cose_entry (map : list (Value * Value)) (k : Value) : option Value :=
  option_map snd (List.find (fun '(kk, _) => Cbor.value_eqb kk k) map).

Definition coord (v : option Value) : option bytes :=
  match v with
  | Some (Bytes b) => if len b =? 32 then Some b else None
  | _ => None
  end.

Definition is_uint (v : option Value) (n : Z) : bool :=
  match v with Some (Uint m) => m =? n | _ => false end.

Definition cose_ec2_to_sec1 (cose_key : bytes) : result bytes SessionError :=
  let? (value, _) := map_err (decode_value cose_key 0) (fun _ => MalformedKey) in
  match value with
  | Map map =>
      if negb (is_uint (cose_entry map (Uint 1)) 2) then Err UnsupportedKey
      else if negb (is_uint (cose_entry map (Nint 0)) 1) then Err UnsupportedKey
      else
        let? x := ok_or (coord (cose_entry map (Nint 1))) MalformedKey in
        let? y := ok_or (coord (cose_entry map (Nint 2))) MalformedKey in
        Ok (Byte.x04 :: x ++ y)
  | _ => Err MalformedKey
  end.

Definition ec2_value (x y : bytes) : Value :=
  Map [(Uint 1, Uint 2); (Nint 0, Uint 1); (Nint 1, Bytes x); (Nint 2, Bytes y)].

Definition sec1_to_cose_ec2 (sec1 : bytes) : result bytes SessionError :=
  if negb (len sec1 =? 65) || negb (bool_decide (head sec1 = Some Byte.x04)) then Err MalformedKey
  else Ok (to_canonical (ec2_value (firstn 32 (skipn 1 sec1)) (firstn 32 (skipn 33 sec1)))).

(** ** Messages *)

Definition decode_map (bytes : bytes) : result (list (Value * Value)) SessionError :=
  let? (value, _) := map_err (decode_value bytes 0) (fun _ => MalformedMessage) in
  match value with Map m => Ok m | _ => Err MalformedMessage end.

Definition text_entry (map : list (Value * Value)) (key : string) : option Value :=
  option_map snd (List.find (fun '(k, _) =>
    match k with Text t => bool_decide (t = key) | _ => false end) map).

(** [Value::Tag(24, inner)] around a byte string. *)
Definition embedded_cbor (v : option Value) : result bytes SessionError :=
  match v with Some (Tag 24 (Bytes b)) => Ok b | _ => Err MalformedMessage end.

Record SessionEstablishment : Type := { e_reader_key_cose : bytes; data : bytes }.

Definition data_entry (map : list (Value * Value)) : result bytes SessionError :=
  match text_entry map "data" with Some (Bytes b) => Ok b | _ => Err MalformedMessage end.

Definition parse_session_establishment (bytes : bytes) : result SessionEstablishment SessionError :=
  let? map := decode_map bytes in
  let? e_reader_key_cose := embedded_cbor (text_entry map "eReaderKey") in
  let? data := data_entry map in
  Ok {| e_reader_key_cose := e_reader_key_cose; data := data |}.

Definition session_data (encrypted : bytes) : bytes :=
  to_canonical (Map [(Text "data", Bytes encrypted)]).

Definition parse_session_data (bytes : bytes) : result Prelude.bytes SessionError :=
  let? map := decode_map bytes in data_entry map.

Record DeviceRequestSummary : Type := {
  request_doctype : string;
  request_claims : list (string * string);
}.

(** The text members of a map, of all maps under text members. *)
Definition requested_elements (name_spaces : list (Value * Value)) : list (string * string) :=
  flat_map (fun '(namespace, elements) =>
    match namespace, elements with
    | Text namespace, Map items =>
        omap (fun '(element, _) => match element with Text e => Some (namespace, e) | _ => None end) items
    | _, _ => []
    end) name_spaces.

Definition parse_device_request (bytes : bytes) : result DeviceRequestSummary SessionError :=
  let? map := decode_map bytes in
  match text_entry map "docRequests" with
  | Some (Array (Map doc_request :: _)) =>
      let? items_request_bytes := embedded_cbor (text_entry doc_request "itemsRequest") in
      let? items_request := decode_map items_request_bytes in
      match text_entry items_request "docType", text_entry items_request "nameSpaces" with
      | Some (Text doctype), Some (Map name_spaces) =>
          Ok {| request_doctype := doctype; request_claims := requested_elements name_spaces |}
      | _, _ => Err MalformedMessage
      end
  | _ => Err MalformedMessage
  end.

Definition device_key_from_engagement (engagement : bytes) : result bytes SessionError :=
  let? map := decode_map engagement in
  match option_map snd (List.find (fun '(k, _) => is_uint (Some k) 1) map) with
  | Some (Array items) => embedded_cbor (items !! 1%nat)
  | _ => Err MalformedMessage
  end.

(** ** Keys and messages survive their encodings *)

Lemma decode_canonical v : canonical v = true -> (height v <= MAX_DEPTH)%nat ->
  decode_value (to_canonical v) 0 = Ok (v, []).
Proof.
  intros Hc Hh. unfold decode_value. rewrite <- (app_nil_r (to_canonical v)).
  apply decode_at_to_canonical; [done|]. unfold MAX_DEPTH in *. lia.
Qed.

Lemma decode_map_canonical m : canonical (Map m) = true -> (height (Map m) <= MAX_DEPTH)%nat ->
  decode_map (to_canonical (Map m)) = Ok m.
Proof. intros Hc Hh. unfold decode_map. by rewrite decode_canonical. Qed.

Lemma point_parts (xy : bytes) : length xy = 64%nat ->
  firstn 32 (skipn 1 (Byte.x04 :: xy)) = firstn 32 xy
  /\ firstn 32 (skipn 33 (Byte.x04 :: xy)) = skipn 32 xy
  /\ len (firstn 32 xy) = 32 /\ len (skipn 32 xy) = 32.
Proof.
  intros H. unfold len. rewrite !skipn_cons, skipn_O, length_firstn, length_skipn, H.
  split_and!; [done| |done|done]. apply firstn_all2. rewrite length_skipn. lia.
Qed.

Lemma ec2_canonical x y : len x = 32 -> len y = 32 -> canonical (ec2_value x y) = true.
Proof.
  intros Hx Hy. assert (rust_vec x = true) by (apply Z.leb_le; width; lia).
  assert (rust_vec y = true) by (apply Z.leb_le; width; lia).
  unfold ec2_value. apply canonical_Map; [unfold len; cbn; width; lia| |vm_compute; reflexivity].
  repeat constructor; by apply canonical_Bytes.
Qed.

Lemma cose_key_roundtrip sec1 :
  len sec1 = 65 -> head sec1 = Some Byte.x04 ->
  exists key, sec1_to_cose_ec2 sec1 = Ok key /\ cose_ec2_to_sec1 key = Ok sec1
    /\ key_sized key = true.
Proof.
  intros Hl Hh. destruct sec1 as [|b xy]; [done|]. injection Hh as ->.
  assert (length xy = 64%nat) as Hxy by (unfold len in Hl; cbn in Hl; lia).
  destruct (point_parts xy Hxy) as (Ex & Ey & Hx & Hy).
  unfold sec1_to_cose_ec2. rewrite Hl, bool_decide_eq_true_2 by done. cbn [Z.eqb Pos.eqb negb orb].
  eexists. split; [reflexivity|]. rewrite Ex, Ey. split.
  - unfold cose_ec2_to_sec1.
    rewrite decode_canonical by (first [by apply ec2_canonical|cbn; unfold MAX_DEPTH; lia]).
    cbn [map_err ec2_value]. change (cose_entry _ (Uint 1)) with (Some (Uint 2)).
    change (cose_entry _ (Nint 0)) with (Some (Uint 1)).
    change (cose_entry _ (Nint 1)) with (Some (Bytes (firstn 32 xy))).
    change (cose_entry _ (Nint 2)) with (Some (Bytes (skipn 32 xy))).
    cbn [is_uint Z.eqb Pos.eqb negb coord]. rewrite Hx, Hy. cbn [Z.eqb Pos.eqb ok_or].
    by rewrite firstn_skipn.
  - apply Z.leb_le. pose proof (len_to_canonical (ec2_value (firstn 32 xy) (skipn 32 xy))) as W.
    assert (weight (ec2_value (firstn 32 xy) (skipn 32 xy)) <= 200) as Hw.
    { unfold ec2_value. cbn [weight fold_right]. rewrite Hx, Hy. vm_compute. discriminate. }
    width. lia.
Qed.

(** The reader finds the device's key in the engagement. *)
Lemma engagement_carries_key key uuid :
  key_sized key = true -> key_sized uuid = true ->
  device_key_from_engagement (build_device_engagement key uuid) = Ok key.
Proof.
  intros Hk Hu. unfold device_key_from_engagement, build_device_engagement.
  pose proof (device_engagement_canonical _ _ Hk Hu) as Hc. unfold device_engagement_value in *.
  rewrite decode_map_canonical; [reflexivity|exact Hc|]. cbn. unfold MAX_DEPTH. lia.
Qed.

Lemma session_data_roundtrip c :
  rust_vec c = true -> parse_session_data (session_data c) = Ok c.
Proof.
  intros Hc. unfold parse_session_data, session_data.
  rewrite decode_map_canonical; [reflexivity| |cbn; unfold MAX_DEPTH; lia].
  apply canonical_Map; [unfold len; cbn; width; lia| |vm_compute; reflexivity].
  repeat constructor; by apply canonical_Bytes.
Qed.

(** ** A session between a wallet and a reader *)

Inductive direction : Type := ToReader | ToDevice.

Section session.
Context `{D : Digest} {K : Kdf} {KL : KdfLaws} {A : Aead} {AL : AeadLaws} {E : Ecdh} {EL : EcdhLaws}.

(** The keys on the wallet's side, which holds the reader's key as it was
    received, and on the reader's, which reads the engagement. *)
Definition device_keys (key : P256AgreementKey) (engagement reader_cose : bytes)
  : result SessionKeys SessionError :=
  let? sec1 := cose_ec2_to_sec1 reader_cose in
  let? z := map_err (agree key sec1) (fun _ => Crypto) in
  Ok (derive_session_keys z (session_transcript engagement reader_cose)).

Definition reader_keys (key : P256AgreementKey) (engagement reader_cose : bytes)
  : result SessionKeys SessionError :=
  let? device_cose := device_key_from_engagement engagement in
  let? sec1 := cose_ec2_to_sec1 device_cose in
  let? z := map_err (agree key sec1) (fun _ => Crypto) in
  Ok (derive_session_keys z (session_transcript engagement reader_cose)).

(** Messages sealed on one side and opened on the other, in order: what
    travelled and what arrived. *)
Fixpoint exchange (device reader : SessionCipher) (l : list (direction * bytes))
  : result (list (bytes * bytes)) SessionError :=
  match l with
  | [] => Ok []
  | (ToReader, plaintext) :: l =>
      let '(device, sealed) := seal_from_device device plaintext in
      let? sealed := sealed in
      let '(reader, received) := open_from_device reader sealed in
      let? received := received in
      let? rest := exchange device reader l in
      Ok ((sealed, received) :: rest)
  | (ToDevice, plaintext) :: l =>
      let '(reader, sealed) := seal_from_reader reader plaintext in
      let? sealed := sealed in
      let '(device, received) := open_from_reader device sealed in
      let? received := received in
      let? rest := exchange device reader l in
      Ok ((sealed, received) :: rest)
  end.

(** ISO 18013-5, 9.1.1.5: the nonces of the messages that follow [d] messages
    of the device and [r] of the reader, from the directions alone. *)
Fixpoint nonces (d r : Z) (l : list (direction * bytes)) : list bytes :=
  match l with
  | [] => []
  | (ToReader, _) :: l => iv IDENTIFIER_MDOC (d + 1) :: nonces (d + 1) r l
  | (ToDevice, _) :: l => iv IDENTIFIER_READER (r + 1) :: nonces d (r + 1) l
  end.

Definition message_key (keys : SessionKeys) (d : direction) : bytes :=
  match d with ToReader => key_device keys | ToDevice => key_reader keys end.

(** What travelled is the message, under the key of its direction and its nonce. *)
Definition sent (keys : SessionKeys) (message : direction * bytes) (travelled : bytes * bytes) : Prop :=
  seal (message_key keys (fst message)) (fst travelled) [] (snd message) = Ok (snd travelled).

Definition cipher_at (keys : SessionKeys) (d r : Z) : SessionCipher :=
  {| sk_device := key_device keys; sk_reader := key_reader keys; device_counter := d; reader_counter := r |}.

Definition keyed (keys : SessionKeys) : Prop := len (key_device keys) = 32 /\ len (key_reader keys) = 32.

Lemma derived_keyed z transcript : keyed (derive_session_keys z transcript).
Proof. unfold keyed. cbn. unfold SK_LEN. rewrite !hkdf_length by lia. done. Qed.

Lemma iv_length identifier n : len identifier = 8 -> len (iv identifier n) = 12.
Proof. intros H. unfold iv. rewrite len_app, len_to_be_bytes, H. done. Qed.

Lemma iv_counter_inj identifier n m :
  0 <= n <= U32_MAX -> 0 <= m <= U32_MAX -> iv identifier n = iv identifier m -> n = m.
Proof.
  intros Hn Hm E'%app_inv_head. revert Hn Hm. width. intros Hn Hm.
  rewrite <- (from_to_be_bytes 4 n), <- (from_to_be_bytes 4 m), E' by (cbn; lia). done.
Qed.

Lemma iv_sender n m : iv IDENTIFIER_MDOC n <> iv IDENTIFIER_READER m.
Proof. unfold iv, IDENTIFIER_MDOC, IDENTIFIER_READER. cbn. congruence. Qed.

(** The nonces that follow come after the two counters. *)
Definition later (d r : Z) (nonce : bytes) : Prop :=
  exists n, n <= U32_MAX
    /\ (nonce = iv IDENTIFIER_MDOC n /\ d < n \/ nonce = iv IDENTIFIER_READER n /\ r < n).

Lemma later_weaken d r d' r' n : d <= d' -> r <= r' -> later d' r' n -> later d r n.
Proof. intros Hd Hr (m & Hm & H). exists m. split; [done|]. intuition lia. Qed.

Lemma nonces_fresh l : forall d r,
  0 <= d -> 0 <= r -> d + len l <= U32_MAX -> r + len l <= U32_MAX ->
  NoDup (nonces d r l) /\ Forall (later d r) (nonces d r l).
Proof.
  induction l as [|[[|] p] l IH]; intros d r Hd Hr Bd Br; cbn [nonces]; [by split; constructor|..];
    rewrite len_cons in Bd, Br; pose proof (len_nonneg l).
  - destruct (IH (d + 1) r) as [Hn Hf]; [lia..|]. split; constructor.
    + rewrite List.Forall_forall in Hf. rewrite list_elem_of_In. intros (m & Hm & [[E' Hlt]|[E' _]])%Hf.
      * apply iv_counter_inj in E'; lia.
      * by apply iv_sender in E'.
    + done.
    + exists (d + 1). split; [lia|]. left. split; [done|lia].
    + eapply List.Forall_impl; [|exact Hf]. intros x. apply later_weaken; lia.
  - destruct (IH d (r + 1)) as [Hn Hf]; [lia..|]. split; constructor.
    + rewrite List.Forall_forall in Hf. rewrite list_elem_of_In. intros (m & Hm & [[E' _]|[E' Hlt]])%Hf.
      * symmetry in E'. by apply iv_sender in E'.
      * apply iv_counter_inj in E'; lia.
    + done.
    + exists (r + 1). split; [lia|]. right. split; [done|lia].
    + eapply List.Forall_impl; [|exact Hf]. intros x. apply later_weaken; lia.
Qed.

Lemma sealed_opens key nonce plaintext :
  len key = 32 -> len nonce = 12 -> len plaintext <= MAX_PLAINTEXT ->
  exists sealed, seal key nonce [] plaintext = Ok sealed /\ open key nonce [] sealed = Ok plaintext.
Proof.
  intros Hk Hn Hp. destruct (seal_total key nonce [] plaintext Hk Hn Hp) as [sealed Hs].
  exists sealed. split; [done|]. by apply open_seal.
Qed.

Lemma exchange_delivers keys l : forall d r,
  keyed keys -> d + len l <= U32_MAX -> r + len l <= U32_MAX ->
  Forall (fun m => len (snd m) <= MAX_PLAINTEXT) l ->
  exists received, exchange (cipher_at keys d r) (cipher_at keys d r) l = Ok received
    /\ map snd received = map snd l
    /\ Forall2 (sent keys) l (combine (nonces d r l) (map fst received)).
Proof.
  induction l as [|[[|] p] l IH]; intros d r [Kd Kr] Bd Br Hp;
    [exists []; by split_and!|..]; rewrite len_cons in Bd, Br; pose proof (len_nonneg l);
    apply Forall_cons_1 in Hp as [Hp Hl]; cbn [exchange].
  - destruct (sealed_opens (key_device keys) (iv IDENTIFIER_MDOC (d + 1)) p) as (sealed & Hs & Ho);
      [done|by apply iv_length|done|].
    unfold seal_from_device, open_from_device, next_device, next_counter.
    cbn [device_counter cipher_at]. rewrite (proj2 (Z.leb_le _ _)) by lia. cbn [sk_device sk_reader device_counter cipher_at]. rewrite Hs.
    cbn [map_err]. rewrite Ho. cbn [map_err].
    destruct (IH (d + 1) r) as (received & He & Hm & Hf); [done|lia|lia|done|].
    change (exchange _ _ l) with (exchange (cipher_at keys (d + 1) r) (cipher_at keys (d + 1) r) l). rewrite He.
    eexists. split; [reflexivity|]. cbn [map fst snd nonces combine]. rewrite Hm. split; [done|]. by constructor.
  - destruct (sealed_opens (key_reader keys) (iv IDENTIFIER_READER (r + 1)) p) as (sealed & Hs & Ho);
      [done|by apply iv_length|done|].
    unfold seal_from_reader, open_from_reader, next_reader, next_counter.
    cbn [reader_counter cipher_at]. rewrite (proj2 (Z.leb_le _ _)) by lia. cbn [sk_device sk_reader reader_counter cipher_at]. rewrite Hs.
    cbn [map_err]. rewrite Ho. cbn [map_err].
    destruct (IH d (r + 1)) as (received & He & Hm & Hf); [done|lia|lia|done|].
    change (exchange _ _ l) with (exchange (cipher_at keys d (r + 1)) (cipher_at keys d (r + 1)) l). rewrite He.
    eexists. split; [reflexivity|]. cbn [map fst snd nonces combine]. rewrite Hm. split; [done|]. by constructor.
Qed.

Lemma public_point random key :
  generate random = Ok key -> len (public_raw key) = 65 /\ head (public_raw key) = Some Byte.x04.
Proof.
  unfold generate. destruct (private_generate random) as [a|]; [|done]. cbn.
  destruct (compute_public_key a) as [p|] eqn:Hp; [|done]. intros [= <-].
  apply public_key_shape in Hp as (xy & -> & Hl). cbn. unfold len. cbn [length]. split; [lia|done].
Qed.

Lemma keys_agree random random' device reader z :
  generate random = Ok device -> generate random' = Ok reader ->
  agree device (public_raw reader) = Ok z -> agree reader (public_raw device) = Ok z.
Proof.
  unfold generate. destruct (private_generate random) as [a|]; [|done]. cbn.
  destruct (compute_public_key a) as [p|] eqn:Hp; [|done]. intros [= <-].
  destruct (private_generate random') as [b|]; [|done]. cbn.
  destruct (compute_public_key b) as [q|] eqn:Hq; [|done]. intros [= <-]. unfold agree. cbn.
  destruct (ecdh_agree a q) as [z'|] eqn:Hz; [|done]. intros [= ->].
  by rewrite (agreement_symmetric _ _ _ _ _ Hp Hq Hz).
Qed.

(** C31: A wallet and a reader that exchange their keys by engagement and session
    establishment derive the same session keys, and every message of the
    session arrives: for up to 2^32 - 1 messages in any order of directions,
    each is opened on the other side to what was sealed.  What travels is the
    message sealed under the key of its direction and the nonce that
    [nonces] computes from the directions alone, and these never repeat, for
    any AEAD that meets the laws. *)
Theorem session_delivers random random' device reader z uuid :
  generate random = Ok device -> generate random' = Ok reader ->
  agree device (public_raw reader) = Ok z -> key_sized uuid = true ->
  exists device_cose reader_cose keys,
    sec1_to_cose_ec2 (public_raw device) = Ok device_cose
    /\ sec1_to_cose_ec2 (public_raw reader) = Ok reader_cose
    /\ let engagement := build_device_engagement device_cose uuid in
       device_keys device engagement reader_cose = Ok keys
       /\ reader_keys reader engagement reader_cose = Ok keys
       /\ forall l, len l <= U32_MAX -> Forall (fun m => len (snd m) <= MAX_PLAINTEXT) l ->
          exists received, exchange (cipher_new keys) (cipher_new keys) l = Ok received
            /\ map snd received = map snd l
            /\ Forall2 (sent keys) l (combine (nonces 0 0 l) (map fst received)) /\ NoDup (nonces 0 0 l).
Proof.
  intros Hd Hr Hz Hu. destruct (public_point _ _ Hd) as [Hdl Hdh], (public_point _ _ Hr) as [Hrl Hrh].
  destruct (cose_key_roundtrip _ Hdl Hdh) as (dc & Edc & Hdc & Hds).
  destruct (cose_key_roundtrip _ Hrl Hrh) as (rc & Erc & Hrc & _).
  eexists dc, rc, _. split; [done|]. split; [done|]. intros engagement. split_and!.
  - unfold device_keys. rewrite Hrc, Hz. reflexivity.
  - unfold reader_keys, engagement. rewrite engagement_carries_key, Hdc by done.
    by rewrite (keys_agree _ _ _ _ _ Hd Hr Hz).
  - intros l Hl Hp. destruct (exchange_delivers (derive_session_keys z (session_transcript engagement rc)) l 0 0)
      as (received & He & Hm & Hf); [apply derived_keyed|lia|lia|done|].
    exists received. split_and!; [done..|]. by apply nonces_fresh.
Qed.
End session.

Module Examples.
#[local] Existing Instance Boundary.Samples.trunc_digest.
#[local] Existing Instance Sealing.Samples.tagging.
#[local] Existing Instance Sealing.Samples.tagging_laws.
#[local] Existing Instance Sealing.Samples.adding.
#[local] Existing Instance Sealing.Samples.adding_laws.
#[local] Existing Instance Sealing.Samples.concat_kdf.
#[local] Existing Instance Sealing.Samples.concat_kdf_laws.

Definition device : P256AgreementKey := match generate [Byte.x07] with Ok k => k | Err _ => {| private := []; public := [] |} end.
Definition reader : P256AgreementKey := match generate [Byte.x09] with Ok k => k | Err _ => {| private := []; public := [] |} end.
Definition secret : bytes := match agree device (public_raw reader) with Ok z => z | Err _ => [] end.

Lemma session_delivers_witness :
  exists device_cose reader_cose keys,
    sec1_to_cose_ec2 (public_raw device) = Ok device_cose
    /\ sec1_to_cose_ec2 (public_raw reader) = Ok reader_cose
    /\ let engagement := build_device_engagement device_cose (repeat Byte.x01 16) in
       device_keys device engagement reader_cose = Ok keys
       /\ reader_keys reader engagement reader_cose = Ok keys
       /\ forall l, len l <= U32_MAX -> Forall (fun m => len (snd m) <= MAX_PLAINTEXT) l ->
          exists received, exchange (cipher_new keys) (cipher_new keys) l = Ok received
            /\ map snd received = map snd l
            /\ Forall2 (sent keys) l (combine (nonces 0 0 l) (map fst received)) /\ NoDup (nonces 0 0 l).
Proof.
  refine (session_delivers [Byte.x07] [Byte.x09] device reader secret (repeat Byte.x01 16) _ _ _ _);
    vm_compute; reflexivity.
Defined.
End Examples.
