(* ===== verification/Status.v ===== *)
(** * Credential status (crates/status/src/lib.rs)

    Verification of a Token Status List token, the lookup in the bit-packed
    list and the fail-open/fail-closed decision.  The theorems: the lookup reads
    the list as one little-endian integer with [bits] bits per entry; with the
    fail-closed policy only an entry that is present and zero is accepted; a
    list that was returned was signed by the provider for the expected URI, has
    a supported width and bounded size, and its freshness window is bounded by
    the signed expiry, the issue time and the local clock. *)

From S2P Require Import Prelude Utf8 Boundary.

Open Scope Z_scope.
Open Scope rust_scope.

Definition MAX_TOKEN_BYTES : Z := 2 * 1024 * 1024.
Definition MAX_DECOMPRESSED_BYTES : Z := 8 * 1024 * 1024.
Definition MAX_STATUS_AGE_SECONDS : Z := 24 * 60 * 60.
Definition DEFAULT_CACHE_TTL_SECONDS : Z := 60 * 60.
Definition CLOCK_SKEW_SECONDS : Z := 300.

(** ** Data *)

Inductive CredentialStatus : Type := Valid | Invalid | Suspended | Unknown.

Inductive FailPolicy : Type := FailOpen | FailClosed.

Inductive Decision : Type := Accept | Reject.

Inductive StatusError : Type :=
| BadSignature
| Expired
| NotYetValid
| Stale
| SubjectMismatch
| Malformed
| UnsupportedAlg
| UnsupportedHeader
| UnsupportedBits
| ResourceLimit.

Record StatusList : Type := {
  subject : string;
  bits : Z;
  list_ : bytes;
  issued_at : Z;
  fresh_until : Z;
}.

(** ** Operations *)

Definition is_fresh_at (self : StatusList) (now : Z) : bool :=
  (issued_at self <=? sat_i64 (now + CLOCK_SKEW_SECONDS)) && (now <? fresh_until self).

(** [8 / self.bits] panics when [bits] is zero, which [parse_and_verify] never
    returns; the model's division is total. *)
Definition status_at (self : StatusList) (index : Z) : CredentialStatus :=
  let per_byte := 8 / bits self in
  let byte_idx := index / per_byte in
  match list_ self !! Z.to_nat byte_idx with
  | None => Unknown
  | Some b =>
      let slot := index mod per_byte in
      let shift := slot * bits self in
      let mask := Z.shiftl 1 (bits self) - 1 in
      let value := Z.land (Z.shiftr (byte.unsigned b) shift) mask in
      if value =? 0 then Valid
      else if value =? 1 then Invalid
      else if value =? 2 then Suspended
      else Unknown
  end.

Definition decide (status : option CredentialStatus) (policy : FailPolicy) : Decision :=
  match status with
  | Some Valid => Accept
  | Some Invalid | Some Suspended => Reject
  | None | Some Unknown =>
      match policy with FailOpen => Accept | FailClosed => Reject end
  end.

Definition alg_name (alg : Alg) : string :=
  match alg with Es256 => "ES256" | Es384 => "ES384" | EdDsa => "EdDSA" end.

Section status.
Context `{JL : JsonLib} `{B64 : Base64} `{V : Verifier} `{INF : Inflate}.

Definition b64 (s : string) : result bytes StatusError := ok_or (decode_vec s) Malformed.

(** The header checks. *)
Definition check_header (alg : Alg) (header : Json) : result unit StatusError :=
  if negb (bool_decide (get_str header "alg" = Some (alg_name alg))) then Err UnsupportedAlg
  else if negb (bool_decide (get_str header "typ" = Some "statuslist+jwt"%string))
    || is_some (get header "crit") || is_some (get header "jwk")
    || is_some (get header "jku") || is_some (get header "x5u")
  then Err UnsupportedHeader
  else Ok tt.

(** The [exp] and [ttl] claims. *)
Definition expires_at (payload : Json) (iat now : Z) : result (option Z) StatusError :=
  match get payload "exp" with
  | None => Ok None
  | Some value =>
      let? exp := ok_or (as_i64 value) Malformed in
      if (exp <=? iat) || (exp <=? now) then Err Expired else Ok (Some exp)
  end.

Definition cache_ttl (payload : Json) : result Z StatusError :=
  match get payload "ttl" with
  | None => Ok DEFAULT_CACHE_TTL_SECONDS
  | Some value =>
      match as_i64 value with
      | Some ttl => if 0 <? ttl then Ok (Z.min ttl MAX_STATUS_AGE_SECONDS) else Err Malformed
      | None => Err Malformed
      end
  end.

(** The [status_list] claim. *)
Definition read_status_list (payload : Json) : result (Z * bytes) StatusError :=
  let? sl := ok_or (get payload "status_list") Malformed in
  let? bits := match get_u64 sl "bits" with
               | Some value => if value <=? U8_MAX then Ok value else Err UnsupportedBits
               | None => Err UnsupportedBits
               end in
  if negb ((bits =? 1) || (bits =? 2) || (bits =? 4) || (bits =? 8)) then Err UnsupportedBits
  else
  let? lst_b64 := ok_or (get_str sl "lst") Malformed in
  if MAX_TOKEN_BYTES <? slen lst_b64 then Err ResourceLimit
  else
  let? compressed := ok_or (decode_vec lst_b64) Malformed in
  let? l := map_err (decompress_to_vec_zlib_with_limit compressed MAX_DECOMPRESSED_BYTES)
              (fun output => if MAX_DECOMPRESSED_BYTES <=? output then ResourceLimit else Malformed) in
  if is_empty l then Err Malformed else Ok (bits, l).

Definition parse_and_verify (token_jwt : bytes) (expected_uri : string)
  (provider_public_key : bytes) (alg : Alg) (now : Z) : result StatusList StatusError :=
  if is_empty token_jwt || (MAX_TOKEN_BYTES <? len token_jwt) then Err ResourceLimit
  else
  let? s := ok_or (from_utf8 token_jwt) Malformed in
  match str_split Byte.x2e s with
  | [p0; p1; p2] =>
      let? h := b64 p0 in
      let? header := ok_or (from_slice h) Malformed in
      let? _ := check_header alg header in
      let signing_input := (p0 ++ "." ++ p1)%string in
      let? sig := b64 p2 in
      let? _ := map_err (verify alg provider_public_key (as_bytes signing_input) sig)
                  (fun _ => BadSignature) in
      let? pl := b64 p1 in
      let? payload := ok_or (from_slice pl) Malformed in
      let? subject := match get_str payload "sub" with
                      | Some v => if sis_empty v then Err Malformed else Ok v
                      | None => Err Malformed
                      end in
      if negb (bool_decide (subject = expected_uri)) then Err SubjectMismatch
      else
      let? issued_at := ok_or (get_i64 payload "iat") Malformed in
      if sat_i64 (now + CLOCK_SKEW_SECONDS) <? issued_at then Err NotYetValid
      else if issued_at <? sat_i64 (now - MAX_STATUS_AGE_SECONDS) then Err Stale
      else
      let? exp := expires_at payload issued_at now in
      let? ttl := cache_ttl payload in
      let? a := ok_or (checked_i64 (now + ttl)) Malformed in
      let? b := ok_or (checked_i64 (issued_at + MAX_STATUS_AGE_SECONDS)) Malformed in
      let fresh := match exp with Some e => Z.min (Z.min a b) e | None => Z.min a b end in
      let? (bits, l) := read_status_list payload in
      Ok {| subject := subject; bits := bits; list_ := l; issued_at := issued_at;
            fresh_until := fresh |}
  | _ => Err Malformed
  end.
End status.

(** ** Lookup *)

Definition classify (value : Z) : CredentialStatus :=
  if value =? 0 then Valid
  else if value =? 1 then Invalid
  else if value =? 2 then Suspended
  else Unknown.

(** The entry of the list read as one little-endian integer. *)
Definition entry (self : StatusList) (index : Z) : Z :=
  Z.land (Z.shiftr (le_combine (list_ self)) (index * bits self)) (Z.ones (bits self)).

Definition in_list (self : StatusList) (index : Z) : bool :=
  index * bits self <? 8 * len (list_ self).

Definition supported_bits (n : Z) : bool := (n =? 1) || (n =? 2) || (n =? 4) || (n =? 8).

Lemma supported_bits_cases n :
  supported_bits n = true -> (n = 1 \/ n = 2) \/ (n = 4 \/ n = 8).
Proof. unfold supported_bits. lia. Qed.

Lemma le_combine_lookup (l : bytes) q b :
  l !! q = Some b -> byte.unsigned b = Z.land (Z.shiftr (le_combine l) (8 * Z.of_nat q)) (Z.ones 8).
Proof.
  intros H. pose proof (lookup_lt_Some _ _ _ H) as Hlt.
  pose proof (split_le_combine l) as E.
  rewrite lookup_nth_error in H. rewrite <- E in H at 1.
  rewrite nth_error_le_split in H by done. injection H as <-.
  rewrite byte.unsigned_of_Z, Z.land_ones by lia. reflexivity.
Qed.

Lemma land_shiftr_ones (n a s w k : Z) :
  0 <= a -> 0 <= s -> 0 <= w -> s + w <= k ->
  Z.land (Z.shiftr (Z.land (Z.shiftr n a) (Z.ones k)) s) (Z.ones w)
  = Z.land (Z.shiftr n (a + s)) (Z.ones w).
Proof.
  intros Ha Hs Hw Hk. apply Z.bits_inj'. intros i Hi.
  rewrite !Z.land_spec. destruct (decide_rel Z.lt i w) as [Hl|Hl].
  - rewrite !Z.shiftr_spec, Z.land_spec, Z.shiftr_spec, !Z.ones_spec_low by lia.
    rewrite !andb_true_r. f_equal. lia.
  - by rewrite (Z.ones_spec_high w i), !andb_false_r by lia.
Qed.

(** Dividing by the entries per byte splits a bit offset into byte and bit. *)
Lemma slot_offset bits_ index :
  supported_bits bits_ = true -> 0 <= index ->
  let per_byte := 8 / bits_ in
  index * bits_ = 8 * (index / per_byte) + (index mod per_byte) * bits_
  /\ 0 <= index / per_byte /\ 0 <= (index mod per_byte) * bits_
  /\ (index mod per_byte) * bits_ + bits_ <= 8 /\ 0 < bits_.
Proof.
  intros Hb Hi per_byte. subst per_byte.
  assert (0 < 8 / bits_ /\ 8 / bits_ * bits_ = 8 /\ 0 < bits_) as (Hp & Hm & Hz)
    by (by apply supported_bits_cases in Hb as [[-> | ->]|[-> | ->]]).
  pose proof (Z.div_mod index (8 / bits_) ltac:(lia)) as D.
  pose proof (Z.mod_pos_bound index (8 / bits_) Hp). pose proof (Z.div_pos index (8 / bits_) Hi Hp).
  split_and!; nia.
Qed.

Lemma status_at_entry self index :
  supported_bits (bits self) = true -> 0 <= index ->
  status_at self index = if in_list self index then classify (entry self index) else Unknown.
Proof.
  intros Hb Hi. destruct (slot_offset _ _ Hb Hi) as (Ho & Hq & Hs & Hw & Hp).
  unfold status_at, in_list, entry. destruct (list_ self !! _) as [b|] eqn:E.
  - pose proof (lookup_lt_Some _ _ _ E) as Hlt. rewrite (le_combine_lookup _ _ _ E).
    rewrite Z2Nat.id by done. rewrite Z.shiftl_1_l.
    replace (2 ^ bits self - 1) with (Z.ones (bits self)) by (rewrite Z.ones_equiv; lia).
    rewrite land_shiftr_ones by lia. rewrite <- Ho.
    assert (index * bits self <? 8 * len (list_ self) = true) as -> by (unfold len; lia).
    reflexivity.
  - apply lookup_ge_None in E.
    by assert (index * bits self <? 8 * len (list_ self) = false) as -> by (unfold len; lia).
Qed.

Lemma classify_valid v : classify v = Valid <-> v = 0.
Proof. unfold classify. repeat case_match; bool_prop; split; try done; lia. Qed.

(** ** Verification *)

Section proofs.
Context `{JL : JsonLib} `{B64 : Base64} `{V : Verifier} `{INF : Inflate}.

(** The signed statement behind a list. *)
Definition signed_statement (token : bytes) (key : bytes) (alg : Alg) (payload : Json) : Prop :=
  exists p0 p1 p2 h header sig pl,
    from_utf8 token = Some (p0 ++ "." ++ p1 ++ "." ++ p2)%string
    /\ decode_vec p0 = Some h /\ from_slice h = Some header
    /\ get_str header "alg" = Some (alg_name alg)
    /\ get_str header "typ" = Some "statuslist+jwt"%string
    /\ get header "crit" = None
    /\ decode_vec p2 = Some sig
    /\ verify alg key (as_bytes (p0 ++ "." ++ p1)%string) sig = Ok tt
    /\ decode_vec p1 = Some pl /\ from_slice pl = Some payload.

(** The freshness window of a list read at [now]. *)
Definition window (payload : Json) (now : Z) (sl : StatusList) : Prop :=
  fresh_until sl <= now + MAX_STATUS_AGE_SECONDS
  /\ fresh_until sl <= issued_at sl + MAX_STATUS_AGE_SECONDS
  /\ (forall x, get payload "exp" = Some x ->
        exists exp, as_i64 x = Some exp /\ issued_at sl < exp /\ fresh_until sl <= exp)
  /\ is_fresh_at sl now = (now <? issued_at sl + MAX_STATUS_AGE_SECONDS).

Lemma check_header_inv alg header :
  check_header alg header = Ok tt ->
  get_str header "alg" = Some (alg_name alg)
  /\ get_str header "typ" = Some "statuslist+jwt"%string /\ get header "crit" = None.
Proof.
  unfold check_header. intros H. case_bool_decide; cbn in H; [|done].
  case_bool_decide; cbn in H; [|done]. by destruct (get header "crit").
Qed.

Lemma read_status_list_inv {IL : InflateLaws} payload b l :
  read_status_list payload = Ok (b, l) ->
  supported_bits b = true /\ l <> [] /\ len l <= MAX_DECOMPRESSED_BYTES
  /\ exists sl s c, get payload "status_list" = Some sl /\ get_u64 sl "bits" = Some b
     /\ get_str sl "lst" = Some s /\ decode_vec s = Some c
     /\ decompress_to_vec_zlib_with_limit c MAX_DECOMPRESSED_BYTES = Ok l.
Proof.
  unfold read_status_list. intros H.
  destruct (get payload "status_list") as [sl|] eqn:E1; cbn [ok_or] in H; [|done].
  destruct (get_u64 sl "bits") as [v|] eqn:E2; [|done].
  destruct (v <=? U8_MAX); [|done]. destruct (negb _) eqn:Eb; [done|]. apply negb_false_iff in Eb.
  destruct (get_str sl "lst") as [s|] eqn:E3; cbn [ok_or] in H; [|done].
  destruct (_ <? _); [done|].
  destruct (decode_vec s) as [c|] eqn:E4; cbn [ok_or] in H; [|done].
  destruct (decompress_to_vec_zlib_with_limit c _) as [x|n] eqn:E5; cbn [map_err] in H; [|done].
  destruct x as [|y x]; cbn [is_empty] in H; [done|]. injection H as <- <-.
  split_and!; [done|done|by eapply inflate_limit|]. by exists sl, s, c.
Qed.

Lemma cache_ttl_range payload ttl :
  cache_ttl payload = Ok ttl -> 0 < ttl <= MAX_STATUS_AGE_SECONDS.
Proof.
  unfold cache_ttl, DEFAULT_CACHE_TTL_SECONDS, MAX_STATUS_AGE_SECONDS. intros H.
  repeat case_match; simplify_eq; bool_prop; lia.
Qed.

Lemma expires_at_inv payload iat now e :
  expires_at payload iat now = Ok e ->
  match e with
  | None => get payload "exp" = None
  | Some exp => exists x, get payload "exp" = Some x /\ as_i64 x = Some exp /\ iat < exp /\ now < exp
  end.
Proof.
  unfold expires_at. intros H. destruct (get payload "exp") as [x|] eqn:Eg; [|by injection H as <-].
  destruct (as_i64 x) as [exp|] eqn:Ex; cbn [ok_or] in H; [|done].
  destruct (_ || _) eqn:Eo; [done|]. injection H as <-. bool_prop. eauto.
Qed.

Lemma is_fresh_window sl now a b :
  is_i64 now = true -> sat_i64 (now + CLOCK_SKEW_SECONDS) <? issued_at sl = false ->
  now < a -> issued_at sl + MAX_STATUS_AGE_SECONDS = b ->
  (fresh_until sl = Z.min a b \/ exists e, now < e /\ fresh_until sl = Z.min (Z.min a b) e) ->
  is_fresh_at sl now = (now <? issued_at sl + MAX_STATUS_AGE_SECONDS).
Proof.
  intros Hn Hs Ha Hb Hf. unfold is_fresh_at.
  assert (issued_at sl <=? sat_i64 (now + CLOCK_SKEW_SECONDS) = true) as -> by lia. cbn.
  destruct Hf as [-> |(e & He & ->)]; lia.
Qed.

Lemma parse_and_verify_inv {IL : InflateLaws} token uri key alg now sl :
  is_i64 now = true -> parse_and_verify token uri key alg now = Ok sl ->
  len token <= MAX_TOKEN_BYTES /\ subject sl = uri /\ uri <> ""%string
  /\ supported_bits (bits sl) = true /\ list_ sl <> []
  /\ len (list_ sl) <= MAX_DECOMPRESSED_BYTES
  /\ exists payload, signed_statement token key alg payload
     /\ get_str payload "sub" = Some uri /\ get_i64 payload "iat" = Some (issued_at sl)
     /\ window payload now sl.
Proof.
  intros Hn H. unfold parse_and_verify in H.
  destruct (is_empty token || _) eqn:El; [done|]. apply orb_false_iff in El as [_ El].
  destruct (from_utf8 token) as [s|] eqn:Eu; cbn [ok_or] in H; [|done].
  destruct (str_split _ s) as [|p0 [|p1 [|p2 [|]]]] eqn:Es; try done.
  apply str_split_three in Es as ->. unfold b64 in H.
  destruct (decode_vec p0) as [h|] eqn:E0; cbn [ok_or] in H; [|done].
  destruct (from_slice h) as [header|] eqn:Eh; cbn [ok_or] in H; [|done].
  destruct (check_header alg header) as [[]|] eqn:Ec; [|done].
  apply check_header_inv in Ec as (Ea & Et & Ecr).
  destruct (decode_vec p2) as [sig|] eqn:E2; cbn [ok_or] in H; [|done].
  destruct (verify _ _ _ _) as [[]|] eqn:Ev; cbn [map_err] in H; [|done].
  destruct (decode_vec p1) as [pl|] eqn:E1; cbn [ok_or] in H; [|done].
  destruct (from_slice pl) as [payload|] eqn:Ep; cbn [ok_or] in H; [|done].
  destruct (get_str payload "sub") as [sub|] eqn:Esub; [|done].
  destruct (sis_empty sub) eqn:Ene; [done|]. case_bool_decide as Euri; cbn [negb] in H; [|done].
  subst sub. destruct (get_i64 payload "iat") as [iat|] eqn:Ei; cbn [ok_or] in H; [|done].
  destruct (_ <? iat) eqn:G1; [done|]. destruct (iat <? _) eqn:G2; [done|].
  destruct (expires_at payload iat now) as [exp|] eqn:Ex; [|done]. apply expires_at_inv in Ex.
  destruct (cache_ttl payload) as [ttl|] eqn:Ettl; [|done]. apply cache_ttl_range in Ettl.
  unfold checked_i64 in H.
  destruct (is_i64 (now + ttl)) eqn:R1; cbn [ok_or] in H; [|done].
  destruct (is_i64 (iat + _)) eqn:R2; cbn [ok_or] in H; [|done].
  destruct (read_status_list payload) as [[b l]|] eqn:Er; [|done].
  apply read_status_list_inv in Er as (Hb & Hl & Hlen & _).
  injection H as <-. cbn [subject bits list_ issued_at fresh_until].
  split_and!; [lia|done|by intros ->|done|done|done|].
  exists payload. split_and!; [|done|done|].
  { exists p0, p1, p2, h, header, sig, pl. split_and!; done. }
  unfold window. cbn [issued_at fresh_until]. split_and!.
  - destruct exp; lia.
  - destruct exp; lia.
  - intros x Ex'. destruct exp as [e|]; [|congruence].
    destruct Ex as (x' & Ex1 & Ex2 & ? & ?). exists e. simplify_eq. split_and!; [done|done|lia].
  - match goal with |- is_fresh_at ?sl _ = _ =>
      apply (is_fresh_window sl now (now + ttl) (iat + MAX_STATUS_AGE_SECONDS)) end;
      [done|done|lia|done|].
    cbn [fresh_until issued_at]. destruct exp as [e|]; [right; exists e|by left].
    destruct Ex as (_ & _ & _ & _ & ?). done.
Qed.
End proofs.

(** ** Properties *)

(** The lookup is the bit-packed list's.  For every supported width and
    every index, [status_at] classifies the entry at bit offset
    [index * bits] of the list read as one little-endian integer, and is
    [Unknown] exactly by range or reserved value; under the fail-closed policy
    the credential is accepted exactly when its entry is inside the list and
    zero. *)
Theorem status_at_reads_entry (self : StatusList) (index : Z) :
  supported_bits (bits self) = true -> 0 <= index ->
  status_at self index = (if in_list self index then classify (entry self index) else Unknown)
  /\ (decide (Some (status_at self index)) FailClosed = Accept
      <-> in_list self index = true /\ entry self index = 0).
Proof.
  intros Hb Hi. rewrite (status_at_entry self index Hb Hi). split; [done|].
  destruct (in_list self index); [|by split; [|intros []]].
  rewrite <- classify_valid. destruct (classify (entry self index)); cbn; naive_solver.
Qed.

Definition sample_list : StatusList :=
  {| subject := "https://status.example/1"; bits := 2; list_ := [Byte.xc9; Byte.x10];
     issued_at := 1000; fresh_until := 4600 |}.

Lemma status_at_reads_entry_witness :
  status_at sample_list 6 = Invalid
  /\ (decide (Some (status_at sample_list 6)) FailClosed = Accept
      <-> in_list sample_list 6 = true /\ entry sample_list 6 = 0).
Proof. apply (status_at_reads_entry sample_list 6); [reflexivity|lia]. Defined.

(** What a returned status list guarantees.  If [parse_and_verify] returns
    a list, the token has at most [MAX_TOKEN_BYTES] bytes and three parts, its
    header names the expected algorithm and type and has no critical
    parameters, the provider's key verifies the first two parts, the signed
    subject is the expected (non-empty) URI, the width is 1, 2, 4 or 8, the
    list is not empty and within [MAX_DECOMPRESSED_BYTES], and its freshness
    ends no later than a day after now, a day after it was issued, and its
    signed expiry; it is fresh now unless it was issued a full day ago. *)
Theorem status_token_sound `{JL : JsonLib} `{B64 : Base64} `{V : Verifier} {INF : Inflate}
  {IL : @InflateLaws INF} (token : bytes) (uri : string) (key : bytes) (alg : Alg) (now : Z)
  (sl : StatusList) :
  is_i64 now = true -> parse_and_verify token uri key alg now = Ok sl ->
  len token <= MAX_TOKEN_BYTES /\ subject sl = uri /\ uri <> ""%string
  /\ supported_bits (bits sl) = true /\ list_ sl <> []
  /\ len (list_ sl) <= MAX_DECOMPRESSED_BYTES
  /\ exists payload, signed_statement token key alg payload
     /\ get_str payload "sub" = Some uri /\ get_i64 payload "iat" = Some (issued_at sl)
     /\ window payload now sl.
Proof. apply parse_and_verify_inv. Qed.

(** A token of three parts under an encoding that is the identity on them. *)
Definition sample_doc : Samples.doc := Samples.DObj [
  ("alg", Samples.DStr "ES256"); ("typ", Samples.DStr "statuslist+jwt");
  ("sub", Samples.DStr "https://status.example/1"); ("iat", Samples.DInt 1000);
  ("exp", Samples.DInt 9000);
  ("status_list", Samples.DObj [("bits", Samples.DInt 2); ("lst", Samples.DStr "c910")])]%string.

Lemma status_token_sound_witness :
  exists sl,
    @parse_and_verify (Samples.json_const sample_doc) Samples.hex64 Samples.echo_verifier
      Samples.stored_inflate (as_bytes "00.00.30302e3030") "https://status.example/1" [] Es256 1000
    = Ok sl
    /\ list_ sl <> [] /\ supported_bits (bits sl) = true.
Proof.
  eexists. split; [vm_compute; reflexivity|].
  destruct (@status_token_sound (Samples.json_const sample_doc) Samples.hex64 Samples.echo_verifier
    Samples.stored_inflate Samples.stored_inflate_laws (as_bytes "00.00.30302e3030")
    "https://status.example/1" [] Es256 1000 sample_list) as (_ & _ & _ & H1 & H2 & _);
    [reflexivity | vm_compute; reflexivity | split; [exact H2 | exact H1]].
Defined.
