(* ===== verification/Wua.v ===== *)
(** * Wallet Unit Attestation (crates/wua/src/lib.rs)

    Verification of the wallet provider's attestation of a device key.  The
    theorem: an attestation that authorises a key at a time and level was
    signed by the provider, names that key in its confirmation claim, has not
    expired at that time, and states at least that level. *)

From S2P Require Import Prelude Utf8 Boundary.

Open Scope Z_scope.
Open Scope rust_scope.

(** ** Data *)

Inductive AssuranceLevel : Type := High | Substantial | Low.

Definition level_parse (s : string) : option AssuranceLevel :=
  if bool_decide (s = "high"%string) then Some High
  else if bool_decide (s = "substantial"%string) then Some Substantial
  else if bool_decide (s = "low"%string) then Some Low
  else None.

Record WalletUnitAttestation : Type := {
  device_public_key : bytes;
  assurance_level : AssuranceLevel;
  valid_until : Z;
}.

Inductive WuaError : Type := BadSignature | Expired | Malformed | UnsupportedAlg.

(** ** Operations *)

Section wua.
Context `{JL : JsonLib} `{B64 : Base64} `{V : Verifier}.

Definition b64 (s : string) : result bytes WuaError := ok_or (decode_vec s) Malformed.

Definition alg_supported (header : Json) : bool :=
  match get_str header "alg" with
  | Some s => bool_decide (s = "ES256"%string) || bool_decide (s = "ES384"%string)
              || bool_decide (s = "EdDSA"%string)
  | None => false
  end.

(** [payload.cnf.jwk_raw], decoded. *)
Definition confirmation_key (payload : Json) : option bytes :=
  let! c := get payload "cnf" in
  let! s := get_str c "jwk_raw" in
  decode_vec s.

Definition parse_and_verify (wua_jwt provider_public_key : bytes) (alg : Alg) (now : Z)
  : result WalletUnitAttestation WuaError :=
  let? s := ok_or (from_utf8 wua_jwt) Malformed in
  match str_split Byte.x2e s with
  | [p0; p1; p2] =>
      let? h := b64 p0 in
      let? header := ok_or (from_slice h) Malformed in
      if negb (alg_supported header) then Err UnsupportedAlg
      else
      let signing_input := (p0 ++ "." ++ p1)%string in
      let? sig := b64 p2 in
      let? _ := map_err (verify alg provider_public_key (as_bytes signing_input) sig)
                  (fun _ => BadSignature) in
      let? pl := b64 p1 in
      let? payload := ok_or (from_slice pl) Malformed in
      let? valid_until := ok_or (get_i64 payload "exp") Malformed in
      if valid_until <=? now then Err Expired
      else
      let? level := match get_str payload "aal" with
                    | Some s => ok_or (level_parse s) Malformed
                    | None => Err Malformed
                    end in
      let? key := ok_or (confirmation_key payload) Malformed in
      Ok {| device_public_key := key; assurance_level := level; valid_until := valid_until |}
  | _ => Err Malformed
  end.
End wua.

Definition attests_key (self : WalletUnitAttestation) (key : bytes) : bool :=
  bool_decide (device_public_key self = key).

Definition rank (a : AssuranceLevel) : Z :=
  match a with Low => 0 | Substantial => 1 | High => 2 end.

Definition meets (self : WalletUnitAttestation) (min : AssuranceLevel) : bool :=
  rank min <=? rank (assurance_level self).

Definition is_valid_for (self : WalletUnitAttestation) (key : bytes) (min_level : AssuranceLevel)
  : bool := attests_key self key && meets self min_level.

Definition is_valid_for_at (self : WalletUnitAttestation) (key : bytes)
  (min_level : AssuranceLevel) (now : Z) : bool :=
  (now <? valid_until self) && is_valid_for self key min_level.

(** ** The provider's statement *)

(** The names the provider writes. *)
Definition level_name (a : AssuranceLevel) : string :=
  match a with High => "high" | Substantial => "substantial" | Low => "low" end.

Lemma level_parse_name s a : level_parse s = Some a -> s = level_name a.
Proof. unfold level_parse. repeat case_bool_decide; intros [= <-]; done. Qed.

Section proofs.
Context `{JL : JsonLib} `{B64 : Base64} `{V : Verifier}.

(** The payload a provider's key signed, as three compact-JWS parts. *)
Definition provider_signed (jwt key : bytes) (alg : Alg) (payload : Json) : Prop :=
  exists p0 p1 p2 sig pl,
    from_utf8 jwt = Some (p0 ++ "." ++ p1 ++ "." ++ p2)%string
    /\ decode_vec p2 = Some sig
    /\ verify alg key (as_bytes (p0 ++ "." ++ p1)%string) sig = Ok tt
    /\ decode_vec p1 = Some pl /\ from_slice pl = Some payload.

(** What an attestation copies from the payload. *)
Definition states (payload : Json) (a : WalletUnitAttestation) : Prop :=
  get_i64 payload "exp" = Some (valid_until a)
  /\ get_str payload "aal" = Some (level_name (assurance_level a))
  /\ confirmation_key payload = Some (device_public_key a).

Lemma parse_and_verify_states jwt key alg now a :
  parse_and_verify jwt key alg now = Ok a ->
  now < valid_until a
  /\ exists payload, provider_signed jwt key alg payload /\ states payload a.
Proof.
  intros H. unfold parse_and_verify, b64 in H.
  destruct (from_utf8 jwt) as [s|] eqn:Eu; cbn [ok_or] in H; [|done].
  destruct (str_split _ s) as [|p0 [|p1 [|p2 [|]]]] eqn:Es; try done.
  apply str_split_three in Es as ->.
  destruct (decode_vec p0) as [h|] eqn:E0; cbn [ok_or] in H; [|done].
  destruct (from_slice h) as [header|]; cbn [ok_or] in H; [|done].
  destruct (alg_supported header); cbn [negb] in H; [|done].
  destruct (decode_vec p2) as [sig|] eqn:E2; cbn [ok_or] in H; [|done].
  destruct (verify _ _ _ _) as [[]|] eqn:Ev; cbn [map_err] in H; [|done].
  destruct (decode_vec p1) as [pl|] eqn:E1; cbn [ok_or] in H; [|done].
  destruct (from_slice pl) as [payload|] eqn:Ep; cbn [ok_or] in H; [|done].
  destruct (get_i64 payload "exp") as [exp|] eqn:Ex; cbn [ok_or] in H; [|done].
  destruct (exp <=? now) eqn:Et; [done|].
  destruct (get_str payload "aal") as [t|] eqn:Ea; [|done].
  destruct (level_parse t) as [level|] eqn:El; cbn [ok_or] in H; [|done].
  destruct (confirmation_key payload) as [k|] eqn:Ek; cbn [ok_or] in H; [|done].
  injection H as <-. apply level_parse_name in El as ->. bool_prop. split; [done|].
  exists payload. split; [|done]. exists p0, p1, p2, sig, pl. done.
Qed.
End proofs.

(** ** Properties *)

(** Attested keys.  If an attestation returned by [parse_and_verify] is
    later valid for a key at a minimum level and time, then the wallet
    provider's key verified the token it came from, the signed payload names
    exactly that key in [cnf.jwk_raw] and an assurance level of at least the
    minimum, and its signed expiry is after both the time of verification and
    the time of use. *)
Theorem wua_attests_device_key `{JL : JsonLib} `{B64 : Base64} `{V : Verifier}
  (jwt provider key : bytes) (alg : Alg) (now later : Z) (min : AssuranceLevel)
  (a : WalletUnitAttestation) :
  parse_and_verify jwt provider alg now = Ok a ->
  is_valid_for_at a key min later = true ->
  exists payload level exp,
    provider_signed jwt provider alg payload
    /\ confirmation_key payload = Some key
    /\ get_str payload "aal" = Some (level_name level) /\ rank min <= rank level
    /\ get_i64 payload "exp" = Some exp /\ now < exp /\ later < exp.
Proof.
  intros H Hv. apply parse_and_verify_states in H as (Hn & payload & Hs & H1 & H2 & H3).
  unfold is_valid_for_at, is_valid_for, attests_key, meets in Hv. bool_prop.
  match goal with H : bool_decide _ = true |- _ => apply bool_decide_eq_true in H; subst key end.
  exists payload, (assurance_level a), (valid_until a). done.
Qed.

Definition sample_doc : Samples.doc := Samples.DObj [
  ("alg", Samples.DStr "ES256"); ("exp", Samples.DInt 9000); ("aal", Samples.DStr "high");
  ("cnf", Samples.DObj [("jwk_raw", Samples.DStr "04aa")])]%string.

Lemma wua_attests_device_key_witness :
  exists payload level exp,
    @provider_signed (Samples.json_const sample_doc) Samples.hex64 Samples.echo_verifier
      (as_bytes "00.00.30302e3030") [] Es256 payload
    /\ @confirmation_key (Samples.json_const sample_doc) Samples.hex64 payload
       = Some [Byte.x04; Byte.xaa]
    /\ @get_str (Samples.json_const sample_doc) payload "aal" = Some (level_name level)
    /\ rank Substantial <= rank level
    /\ @get_i64 (Samples.json_const sample_doc) payload "exp" = Some exp
    /\ 1000 < exp /\ 2000 < exp.
Proof.
  eapply (@wua_attests_device_key (Samples.json_const sample_doc) Samples.hex64
    Samples.echo_verifier); [vm_compute; reflexivity | vm_compute; reflexivity].
Defined.
