(* ===== verification/HybridPq.v ===== *)
(** * Hybrid post-quantum profile: types and rollout policy
    (crates/hybrid-pq/src/lib.rs, rollout.rs)

    The closed registries, errors and checked constructors of the experimental
    profile, and the rollout policy with its modes and kill switch.  Whether the
    build has the experimental feature is a parameter ([compiled]).  The
    theorem: whatever remote configuration does, in any order, it authorises no
    operation that was not authorised before, and existing artifacts can always
    be opened. *)

From S2P Require Import Prelude Utf8 Boundary.

Open Scope Z_scope.
Open Scope rust_scope.

Definition ES256_PUBLIC_KEY_BYTES : Z := 65.
Definition ES256_SIGNATURE_BYTES : Z := 64.
Definition ML_DSA_65_PUBLIC_KEY_BYTES : Z := 1952.
Definition ML_DSA_65_SIGNATURE_BYTES : Z := 3309.
Definition P256_PUBLIC_SHARE_BYTES : Z := 65.
Definition ML_KEM_768_ENCAPSULATION_KEY_BYTES : Z := 1184.
Definition ML_KEM_768_CIPHERTEXT_BYTES : Z := 1088.
Definition HYBRID_SHARED_SECRET_BYTES : Z := 32.

(** ** Errors *)

Inductive HybridComponent : Type := Classical | PostQuantum.

Inductive HybridMismatch : Type := MismatchProfile | MismatchIdentity | MismatchGeneration.

Inductive HybridErrorClass : Type :=
| ClassUnsupportedProfile
| ClassMalformedComponent
| ClassComponentFailure
| ClassVerificationFailure
| ClassMismatch
| ClassNonCanonicalInput
| ClassResourceLimitExceeded
| ClassDowngradeDetected
| ClassPolicyDenied
| ClassBackendFailure.

Inductive HybridCryptoError : Type :=
| UnsupportedProfile
| MalformedComponent (component : HybridComponent)
| ComponentFailure (component : HybridComponent)
| VerificationFailure (component : HybridComponent)
| Mismatch (field : HybridMismatch)
| NonCanonicalInput
| ResourceLimitExceeded
| DowngradeDetected
| PolicyDenied
| BackendFailure.

Definition class (self : HybridCryptoError) : HybridErrorClass :=
  match self with
  | UnsupportedProfile => ClassUnsupportedProfile
  | MalformedComponent _ => ClassMalformedComponent
  | ComponentFailure _ => ClassComponentFailure
  | VerificationFailure _ => ClassVerificationFailure
  | Mismatch _ => ClassMismatch
  | NonCanonicalInput => ClassNonCanonicalInput
  | ResourceLimitExceeded => ClassResourceLimitExceeded
  | DowngradeDetected => ClassDowngradeDetected
  | PolicyDenied => ClassPolicyDenied
  | BackendFailure => ClassBackendFailure
  end.

Definition display (self : HybridCryptoError) : string :=
  match class self with
  | ClassUnsupportedProfile => "unsupported hybrid profile"
  | ClassMalformedComponent => "malformed hybrid component"
  | ClassComponentFailure => "hybrid component operation failed"
  | ClassVerificationFailure => "hybrid verification failed"
  | ClassMismatch => "hybrid key binding mismatch"
  | ClassNonCanonicalInput => "non-canonical hybrid input"
  | ClassResourceLimitExceeded => "hybrid resource limit exceeded"
  | ClassDowngradeDetected => "hybrid downgrade detected"
  | ClassPolicyDenied => "hybrid operation denied by policy"
  | ClassBackendFailure => "hybrid backend failure"
  end.

(** ** Registries *)

Inductive HybridSignatureProfile : Type := Es256MlDsa65V1.

Definition PROFILE_ID : string := "euwallet-hybrid-pq-v1".

Definition profile_id (self : HybridSignatureProfile) : string :=
  match self with Es256MlDsa65V1 => PROFILE_ID end.

Definition profile_try_from (value : string) : result HybridSignatureProfile HybridCryptoError :=
  if bool_decide (value = PROFILE_ID) then Ok Es256MlDsa65V1 else Err UnsupportedProfile.

Inductive HybridKeyAgreementProfile : Type := P256MlKem768V1.

Definition KA_PROFILE_ID : string := "euwallet-hybrid-pq-v1".

Definition ka_profile_id (self : HybridKeyAgreementProfile) : string :=
  match self with P256MlKem768V1 => KA_PROFILE_ID end.

Definition ka_profile_try_from (value : string)
  : result HybridKeyAgreementProfile HybridCryptoError :=
  if bool_decide (value = KA_PROFILE_ID) then Ok P256MlKem768V1 else Err UnsupportedProfile.

(** ** Checked constructors *)

Definition require_len (value : bytes) (expected : Z) (component : HybridComponent)
  : result unit HybridCryptoError :=
  if negb (len value =? expected) then Err (MalformedComponent component) else Ok tt.

(** [value[0] != 0x04], after the length check. *)
Definition require_uncompressed (value : bytes) : result unit HybridCryptoError :=
  match value with
  | Byte.x04 :: _ => Ok tt
  | _ => Err (MalformedComponent Classical)
  end.

Record HybridPublicKey : Type := {
  pk_profile : HybridSignatureProfile;
  pk_classical : bytes;
  pk_post_quantum : bytes;
}.

Definition public_key_try_new (profile : HybridSignatureProfile) (classical post_quantum : bytes)
  : result HybridPublicKey HybridCryptoError :=
  let? _ := require_len classical ES256_PUBLIC_KEY_BYTES Classical in
  let? _ := require_uncompressed classical in
  let? _ := require_len post_quantum ML_DSA_65_PUBLIC_KEY_BYTES PostQuantum in
  Ok {| pk_profile := profile; pk_classical := classical; pk_post_quantum := post_quantum |}.

Record HybridSignature : Type := {
  sig_profile : HybridSignatureProfile;
  sig_classical : bytes;
  sig_post_quantum : bytes;
}.

Definition signature_try_new (profile : HybridSignatureProfile) (classical post_quantum : bytes)
  : result HybridSignature HybridCryptoError :=
  let? _ := require_len classical ES256_SIGNATURE_BYTES Classical in
  let? _ := require_len post_quantum ML_DSA_65_SIGNATURE_BYTES PostQuantum in
  Ok {| sig_profile := profile; sig_classical := classical; sig_post_quantum := post_quantum |}.

Record HybridKeyRef : Type := { identity : string; generation : Z }.

Definition MAX_IDENTITY_BYTES : Z := 128.

Definition key_ref_try_new (identity : string) (generation : Z)
  : result HybridKeyRef HybridCryptoError :=
  if sis_empty identity then Err (MalformedComponent Classical)
  else if MAX_IDENTITY_BYTES <? slen identity then Err ResourceLimitExceeded
  else if generation =? 0 then Err (Mismatch MismatchGeneration)
  else Ok {| identity := identity; generation := generation |}.

Record HybridKeyAgreementPublicKey : Type := {
  ka_profile : HybridKeyAgreementProfile;
  ka_classical : bytes;
  ka_post_quantum : bytes;
}.

Definition ka_public_key_try_new (profile : HybridKeyAgreementProfile)
  (classical post_quantum : bytes) : result HybridKeyAgreementPublicKey HybridCryptoError :=
  let? _ := require_len classical P256_PUBLIC_SHARE_BYTES Classical in
  let? _ := require_uncompressed classical in
  let? _ := require_len post_quantum ML_KEM_768_ENCAPSULATION_KEY_BYTES PostQuantum in
  Ok {| ka_profile := profile; ka_classical := classical; ka_post_quantum := post_quantum |}.

Record HybridKeyAgreementResult : Type := {
  classical_public_share : bytes;
  post_quantum_ciphertext : bytes;
  shared_secret : bytes;
}.

Definition ka_result_try_new (classical_public_share post_quantum_ciphertext shared_secret : bytes)
  : result HybridKeyAgreementResult HybridCryptoError :=
  let? _ := require_len classical_public_share P256_PUBLIC_SHARE_BYTES Classical in
  let? _ := require_uncompressed classical_public_share in
  let? _ := require_len post_quantum_ciphertext ML_KEM_768_CIPHERTEXT_BYTES PostQuantum in
  let? _ := require_len shared_secret HYBRID_SHARED_SECRET_BYTES PostQuantum in
  Ok {| classical_public_share := classical_public_share;
        post_quantum_ciphertext := post_quantum_ciphertext; shared_secret := shared_secret |}.

(** ** Rollout policy *)

Module Rollout.

Inductive HybridPqMode : Type :=
| Disabled
| ExperimentalLocalOnly
| PrivateProfileAllowed
| HybridRequired.

(** The derived order: declaration order. *)
Definition mode_rank (m : HybridPqMode) : Z :=
  match m with
  | Disabled => 0
  | ExperimentalLocalOnly => 1
  | PrivateProfileAllowed => 2
  | HybridRequired => 3
  end.

Definition mode_lt (a b : HybridPqMode) : bool := mode_rank a <? mode_rank b.

Inductive ConfigOrigin : Type := LocalOperator | Remote.

Inductive HybridOperation : Type :=
| NewLocalExperiment
| NewPrivateProfileSession
| NewHybridRequiredSession
| OpenExistingArtifact.

Definition required_mode (self : HybridOperation) : HybridPqMode :=
  match self with
  | NewLocalExperiment => ExperimentalLocalOnly
  | NewPrivateProfileSession => PrivateProfileAllowed
  | NewHybridRequiredSession => HybridRequired
  | OpenExistingArtifact => Disabled
  end.

Record HybridRolloutPolicy : Type := { configured_mode : HybridPqMode; kill_switch : bool }.

Definition default_policy : HybridRolloutPolicy :=
  {| configured_mode := Disabled; kill_switch := false |}.

(** The [&mut self] methods return the policy after the call. *)
Definition request_mode (self : HybridRolloutPolicy) (origin : ConfigOrigin) (mode : HybridPqMode)
  : HybridRolloutPolicy * result unit HybridCryptoError :=
  match origin with
  | Remote =>
      if mode_lt (configured_mode self) mode then (self, Err PolicyDenied)
      else ({| configured_mode := mode; kill_switch := kill_switch self |}, Ok tt)
  | LocalOperator => ({| configured_mode := mode; kill_switch := kill_switch self |}, Ok tt)
  end.

Definition activate_kill_switch (self : HybridRolloutPolicy) (_origin : ConfigOrigin)
  : HybridRolloutPolicy :=
  {| configured_mode := configured_mode self; kill_switch := true |}.

Definition clear_kill_switch (self : HybridRolloutPolicy) (origin : ConfigOrigin)
  : HybridRolloutPolicy * result unit HybridCryptoError :=
  match origin with
  | Remote => (self, Err PolicyDenied)
  | LocalOperator => ({| configured_mode := configured_mode self; kill_switch := false |}, Ok tt)
  end.

Inductive ClassicalFallback : Type := ClassicalOnly.

Section policy.
Context (compiled : bool).

Definition effective_mode (self : HybridRolloutPolicy) : HybridPqMode :=
  if compiled then configured_mode self else Disabled.

Definition authorize (self : HybridRolloutPolicy) (operation : HybridOperation)
  : result unit HybridCryptoError :=
  match operation with
  | OpenExistingArtifact => Ok tt
  | _ =>
      if kill_switch self then Err PolicyDenied
      else if mode_lt (effective_mode self) (required_mode operation) then Err PolicyDenied
      else Ok tt
  end.

Definition classical_fallback (self : HybridRolloutPolicy)
  : result ClassicalFallback HybridCryptoError :=
  match effective_mode self with
  | HybridRequired => Err DowngradeDetected
  | _ => Ok ClassicalOnly
  end.

Definition LEGACY_EXPORT_VERSION : Z := 1.
Definition HYBRID_EXPORT_VERSION : Z := 2.

Inductive ArtifactReadPlan : Type := ReadLegacy | ReadHybrid.

Definition plan_export_read (version : Z) : result ArtifactReadPlan HybridCryptoError :=
  if version =? LEGACY_EXPORT_VERSION then Ok ReadLegacy
  else if version =? HYBRID_EXPORT_VERSION then Ok ReadHybrid
  else Err UnsupportedProfile.

Definition plan_export_migration (policy : HybridRolloutPolicy) (from_version : Z)
  : result unit HybridCryptoError :=
  if negb (from_version =? LEGACY_EXPORT_VERSION) then Err UnsupportedProfile
  else authorize policy NewLocalExperiment.
End policy.

Inductive LatencyBucket : Type := Under10Ms | Under100Ms | Under1S | Over1S.

Definition from_millis (millis : Z) : LatencyBucket :=
  if millis <=? 9 then Under10Ms
  else if millis <=? 99 then Under100Ms
  else if millis <=? 999 then Under1S
  else Over1S.

Inductive TelemetryOutcome : Type := Success | Failure (c : HybridErrorClass).

Record HybridTelemetryRecord : Type := {
  t_profile : HybridSignatureProfile;
  artifact_version : Z;
  outcome : TelemetryOutcome;
  latency : LatencyBucket;
}.

End Rollout.

(** ** Configuration histories *)

Module RolloutHistory.
Import Rollout.

Inductive config : Type :=
| RequestMode (origin : ConfigOrigin) (mode : HybridPqMode)
| ActivateKillSwitch (origin : ConfigOrigin)
| ClearKillSwitch (origin : ConfigOrigin).

Definition origin_of (c : config) : ConfigOrigin :=
  match c with RequestMode o _ | ActivateKillSwitch o | ClearKillSwitch o => o end.

Definition apply_config (p : HybridRolloutPolicy) (c : config) : HybridRolloutPolicy :=
  match c with
  | RequestMode o m => fst (request_mode p o m)
  | ActivateKillSwitch o => activate_kill_switch p o
  | ClearKillSwitch o => fst (clear_kill_switch p o)
  end.

(** [p] permits at most what [q] permits. *)
Definition restricts (p q : HybridRolloutPolicy) : Prop :=
  mode_rank (configured_mode p) <= mode_rank (configured_mode q)
  /\ (kill_switch q = true -> kill_switch p = true).

#[export] Instance restricts_preorder : PreOrder restricts.
Proof.
  split; [intros p; split; [lia|done]|]. intros p q r [H1 H2] [H3 H4]. split; [lia|auto].
Qed.

Lemma remote_config_restricts p c : origin_of c = Remote -> restricts (apply_config p c) p.
Proof.
  destruct c as [o m|o|o]; cbn; intros ->; unfold restricts; cbn; try by split; [lia|].
  unfold mode_lt. destruct (_ <? _) eqn:E; cbn; [by split; [lia|]|]. bool_prop. by split; [lia|].
Qed.

Lemma remote_configs_restrict l p :
  Forall (fun c => origin_of c = Remote) l -> restricts (fold_left apply_config l p) p.
Proof.
  revert p. induction l as [|c l IH]; intros p H; [reflexivity|]. inversion H; subst.
  cbn. etransitivity; [by apply IH|by apply remote_config_restricts].
Qed.

Lemma authorize_restricts compiled p q op :
  restricts p q -> authorize compiled p op = Ok tt -> authorize compiled q op = Ok tt.
Proof.
  intros [Hm Hk]. unfold authorize, effective_mode, mode_lt. destruct op; [| | |done].
  all: destruct (kill_switch p); [done|]; destruct (kill_switch q); [by specialize (Hk eq_refl)|].
  all: destruct (_ <? _) eqn:E; [done|]; intros _.
  all: destruct (_ <? _) eqn:E' in |- *; [|done]; destruct compiled; cbn in *; bool_prop; lia.
Qed.

(** ** Properties *)

(** Remote configuration only restricts.  After any sequence of remote
    requests (modes, kill switch, attempts to clear it), starting from any
    policy, every operation that is authorised was authorised before, opening
    an existing artifact stays authorised, and an active kill switch is still
    active; a build without the feature authorises no new operation
    whatever its policy. *)
Theorem remote_only_restricts (compiled : bool) (p : HybridRolloutPolicy) (l : list config) :
  Forall (fun c => origin_of c = Remote) l ->
  let q := fold_left apply_config l p in
  (forall op, authorize compiled q op = Ok tt -> authorize compiled p op = Ok tt)
  /\ authorize compiled q OpenExistingArtifact = Ok tt
  /\ (kill_switch p = true -> kill_switch q = true)
  /\ (forall op, op <> OpenExistingArtifact -> authorize false q op = Err PolicyDenied).
Proof.
  intros H q. pose proof (remote_configs_restrict l p H) as Hr. split_and!.
  - intros op. by apply authorize_restricts.
  - done.
  - apply Hr.
  - intros op Hop. destruct op; cbn; destruct (kill_switch q); done.
Qed.

Lemma remote_only_restricts_witness :
  authorize true (fold_left apply_config
    [RequestMode Remote HybridRequired; RequestMode Remote ExperimentalLocalOnly]
    {| configured_mode := PrivateProfileAllowed; kill_switch := false |}) OpenExistingArtifact
  = Ok tt.
Proof.
  refine (proj1 (proj2 (remote_only_restricts true
    {| configured_mode := PrivateProfileAllowed; kill_switch := false |}
    [RequestMode Remote HybridRequired; RequestMode Remote ExperimentalLocalOnly] _))).
  repeat constructor.
Defined.

End RolloutHistory.
