(* ===== verification/HybridTbs.v ===== *)
(** * The hybrid to-be-signed bytes (crates/hybrid-pq/src/tbs.rs)

    The context validation per purpose and the length-prefixed construction that
    both signature components sign.  The theorem: the construction is injective
    on everything it accepts (profile, purpose, every context field, payload),
    although absent and empty optional fields are encoded alike: validation
    excludes the empty ones. *)

From S2P Require Import Prelude Utf8 Boundary HybridPq.

Open Scope Z_scope.
Open Scope rust_scope.

Definition TBS_DOMAIN : bytes := as_bytes "EUWALLET-HYBRID-SIGNATURE-V1".
Definition CONTEXT_DOMAIN : bytes := as_bytes "EUWALLET-HYBRID-CONTEXT-V1".
Definition MAX_FIELD_BYTES : Z := 4096.
Definition MIN_NONCE_BYTES : Z := 16.
Definition MAX_NONCE_BYTES : Z := 64.

Inductive HybridPurpose : Type :=
| WalletExportV1
| WalletRecoveryV1
| PrivateProviderMessageV1
| TestSdJwtWrapperV1
| TestMdocWrapperV1.

#[export] Instance purpose_eq_decision : EqDecision HybridPurpose.
Proof. solve_decision. Defined.

Definition purpose_id (self : HybridPurpose) : string :=
  match self with
  | WalletExportV1 => "wallet-export-v1"
  | WalletRecoveryV1 => "wallet-recovery-v1"
  | PrivateProviderMessageV1 => "private-provider-message-v1"
  | TestSdJwtWrapperV1 => "test-sd-jwt-wrapper-v1"
  | TestMdocWrapperV1 => "test-mdoc-wrapper-v1"
  end.

Definition purpose_try_from (value : string) : result HybridPurpose HybridCryptoError :=
  if bool_decide (value = "wallet-export-v1"%string) then Ok WalletExportV1
  else if bool_decide (value = "wallet-recovery-v1"%string) then Ok WalletRecoveryV1
  else if bool_decide (value = "private-provider-message-v1"%string)
  then Ok PrivateProviderMessageV1
  else if bool_decide (value = "test-sd-jwt-wrapper-v1"%string) then Ok TestSdJwtWrapperV1
  else if bool_decide (value = "test-mdoc-wrapper-v1"%string) then Ok TestMdocWrapperV1
  else Err PolicyDenied.

(** [transcript_hash] is an [Option<[u8; 32]>]. *)
Record HybridContext : Type := {
  wallet_identity : bytes;
  issuer_identity : option bytes;
  key_generation : Z;
  transaction_id : option bytes;
  session_id : option bytes;
  audience : option bytes;
  nonce : bytes;
  created_at_epoch_seconds : Z;
  expires_at_epoch_seconds : Z;
  transcript_hash : option bytes;
}.

(** ** Validation *)

Definition require_nonempty_bounded (value : bytes) : result unit HybridCryptoError :=
  if is_empty value then Err NonCanonicalInput
  else if MAX_FIELD_BYTES <? len value then Err ResourceLimitExceeded
  else Ok tt.

Definition validate_optional (value : option bytes) : result unit HybridCryptoError :=
  match value with Some v => require_nonempty_bounded v | None => Ok tt end.

Definition require_present (value : option bytes) : result unit HybridCryptoError :=
  if is_none value then Err PolicyDenied else Ok tt.

Definition require_absent (value : option bytes) : result unit HybridCryptoError :=
  if is_some value then Err PolicyDenied else Ok tt.

Definition require_hash (value : option bytes) : result unit HybridCryptoError :=
  if is_none value then Err PolicyDenied else Ok tt.

Definition validate_common (self : HybridContext) : result unit HybridCryptoError :=
  let? _ := require_nonempty_bounded (wallet_identity self) in
  let? _ := validate_optional (issuer_identity self) in
  let? _ := validate_optional (transaction_id self) in
  let? _ := validate_optional (session_id self) in
  let? _ := validate_optional (audience self) in
  if key_generation self =? 0 then Err (Mismatch MismatchGeneration)
  else if negb ((MIN_NONCE_BYTES <=? len (nonce self)) && (len (nonce self) <=? MAX_NONCE_BYTES))
  then Err NonCanonicalInput
  else if expires_at_epoch_seconds self <=? created_at_epoch_seconds self
  then Err NonCanonicalInput
  else Ok tt.

Definition validate_for (self : HybridContext) (purpose : HybridPurpose)
  : result unit HybridCryptoError :=
  match purpose with
  | WalletExportV1 | WalletRecoveryV1 =>
      let? _ := require_absent (issuer_identity self) in
      let? _ := require_absent (transaction_id self) in
      let? _ := require_absent (session_id self) in
      let? _ := require_absent (audience self) in
      require_absent (transcript_hash self)
  | PrivateProviderMessageV1 =>
      let? _ := require_present (session_id self) in
      let? _ := require_present (audience self) in
      require_hash (transcript_hash self)
  | TestSdJwtWrapperV1 | TestMdocWrapperV1 =>
      let? _ := require_present (issuer_identity self) in
      let? _ := require_present (transaction_id self) in
      let? _ := require_present (audience self) in
      if is_some (session_id self) then require_hash (transcript_hash self) else Ok tt
  end.

(** ** Encoding *)

(** [value.len()] as a [u32], then the bytes. *)
Definition encode_length_prefixed (output value : bytes) : result bytes HybridCryptoError :=
  if len value <=? U32_MAX then Ok (output ++ to_be_bytes 4 (len value) ++ value)
  else Err ResourceLimitExceeded.

Definition encode_field (output : bytes) (tag : Z) (value : option bytes)
  : result bytes HybridCryptoError :=
  encode_length_prefixed (output ++ [byte.of_Z tag]) (unwrap_or value []).

Definition encode_for (self : HybridContext) (purpose : HybridPurpose)
  : result bytes HybridCryptoError :=
  let? _ := validate_common self in
  let? _ := validate_for self purpose in
  let output := CONTEXT_DOMAIN in
  let? output := encode_field output 1 (Some (wallet_identity self)) in
  let? output := encode_field output 2 (issuer_identity self) in
  let? output := encode_field output 3 (Some (to_be_bytes 8 (key_generation self))) in
  let? output := encode_field output 4 (transaction_id self) in
  let? output := encode_field output 5 (session_id self) in
  let? output := encode_field output 6 (audience self) in
  let? output := encode_field output 7 (Some (nonce self)) in
  let? output := encode_field output 8 (Some (to_be_bytes 8 (created_at_epoch_seconds self))) in
  let? output := encode_field output 9 (Some (to_be_bytes 8 (expires_at_epoch_seconds self))) in
  let? output := encode_field output 10 (transcript_hash self) in
  Ok output.

(** The newtype [HybridTbs] is its bytes. *)
Definition build (profile : HybridSignatureProfile) (purpose : HybridPurpose)
  (context : HybridContext) (payload : bytes) : result bytes HybridCryptoError :=
  if MAX_FIELD_BYTES <? len payload then Err ResourceLimitExceeded
  else
  let? encoded_context := encode_for context purpose in
  let output := TBS_DOMAIN in
  let? output := encode_length_prefixed output (as_bytes (profile_id profile)) in
  let? output := encode_length_prefixed output (as_bytes (purpose_id purpose)) in
  let? output := encode_length_prefixed output encoded_context in
  let? output := encode_length_prefixed output payload in
  Ok output.

(** ** Injectivity *)

(** What the Rust types say of a context. *)
Definition context_typed (c : HybridContext) : Prop :=
  is_u64 (key_generation c) = true /\ is_u64 (created_at_epoch_seconds c) = true
  /\ is_u64 (expires_at_epoch_seconds c) = true
  /\ match transcript_hash c with Some h => len h = 32 | None => True end.

(** A length-prefixed string. *)
Definition prefixed (value : bytes) : bytes := to_be_bytes 4 (len value) ++ value.

Lemma prefixed_inj a b r s :
  len a <= U32_MAX -> len b <= U32_MAX ->
  prefixed a ++ r = prefixed b ++ s -> a = b /\ r = s.
Proof.
  unfold prefixed. intros Ha Hb E. rewrite <- !app_assoc in E.
  apply app_inv_len in E as [El E]; [|by rewrite !len_to_be_bytes].
  assert (len a = len b) as Hl.
  { pose proof (len_nonneg a). pose proof (len_nonneg b). unfold U32_MAX in *.
    rewrite <- (from_to_be_bytes 4 (len a)), <- (from_to_be_bytes 4 (len b)) by lia.
    by rewrite El. }
  by apply app_inv_len in E.
Qed.

Lemma encode_length_prefixed_inv output value r :
  encode_length_prefixed output value = Ok r -> r = output ++ prefixed value /\ len value <= U32_MAX.
Proof.
  unfold encode_length_prefixed. destruct (_ <=? _) eqn:E; intros [= <-]. bool_prop. done.
Qed.

(** The fields of an encoded context, in order. *)
Definition fields (c : HybridContext) : list bytes :=
  [wallet_identity c; unwrap_or (issuer_identity c) []; to_be_bytes 8 (key_generation c);
   unwrap_or (transaction_id c) []; unwrap_or (session_id c) []; unwrap_or (audience c) [];
   nonce c; to_be_bytes 8 (created_at_epoch_seconds c); to_be_bytes 8 (expires_at_epoch_seconds c);
   unwrap_or (transcript_hash c) []].

Fixpoint field_bytes (tag : Z) (l : list bytes) : bytes :=
  match l with
  | [] => []
  | f :: l => [byte.of_Z tag] ++ prefixed f ++ field_bytes (tag + 1) l
  end.

Lemma field_bytes_inj tag l k :
  length l = length k -> Forall (fun f => len f <= U32_MAX) l ->
  Forall (fun f => len f <= U32_MAX) k -> field_bytes tag l = field_bytes tag k -> l = k.
Proof.
  revert tag k. induction l as [|f l IH]; intros tag [|g k] Hlen Hl Hk E; try done.
  inversion Hl; inversion Hk; subst. cbn [field_bytes] in E. injection Hlen as Hlen.
  apply app_inv_len in E as [_ E]; [|done].
  apply prefixed_inj in E as [-> E]; [|done..]. f_equal. by eapply IH.
Qed.

Lemma encode_field_inv output tag value r :
  encode_field output tag value = Ok r ->
  r = output ++ [byte.of_Z tag] ++ prefixed (unwrap_or value [])
  /\ len (unwrap_or value []) <= U32_MAX.
Proof.
  unfold encode_field. intros H. apply encode_length_prefixed_inv in H as [-> H].
  by rewrite <- app_assoc.
Qed.

Ltac field H E :=
  match type of H with
  | match encode_field ?o ?t ?v with _ => _ end = _ =>
      destruct (encode_field o t v) as [?|] eqn:E; [|discriminate H];
      apply encode_field_inv in E as [-> E]
  end.

Lemma encode_for_inv c purpose r :
  encode_for c purpose = Ok r ->
  validate_common c = Ok tt /\ validate_for c purpose = Ok tt
  /\ r = CONTEXT_DOMAIN ++ field_bytes 1 (fields c)
  /\ Forall (fun f => len f <= U32_MAX) (fields c).
Proof.
  unfold encode_for. intros H.
  destruct (validate_common c) as [[]|] eqn:V1; [|done].
  destruct (validate_for c purpose) as [[]|] eqn:V2; [|done]. cbv zeta in H.
  field H E1. field H E2. field H E3. field H E4. field H E5.
  field H E6. field H E7. field H E8. field H E9. field H E10.
  injection H as <-. split_and!; [done|done| |].
  - unfold fields. cbn [field_bytes]. change (1 + 1) with 2. change (2 + 1) with 3.
    change (3 + 1) with 4. change (4 + 1) with 5. change (5 + 1) with 6. change (6 + 1) with 7.
    change (7 + 1) with 8. change (8 + 1) with 9. change (9 + 1) with 10.
    rewrite app_nil_r. rewrite <- !app_assoc. reflexivity.
  - unfold fields. repeat constructor; assumption.
Qed.

(** Validation makes absent fields and present ones distinct. *)
Lemma optional_inj (a b : option bytes) :
  validate_optional a = Ok tt -> validate_optional b = Ok tt ->
  unwrap_or a [] = unwrap_or b [] -> a = b.
Proof. destruct a as [[|]|], b as [[|]|]; cbn; intros; simplify_eq; done. Qed.

Lemma hash_inj (a b : option bytes) :
  match a with Some h => len h = 32 | None => True end ->
  match b with Some h => len h = 32 | None => True end ->
  unwrap_or a [] = unwrap_or b [] -> a = b.
Proof. destruct a as [[|]|], b as [[|]|]; cbn; intros; simplify_eq; done. Qed.

Lemma validate_common_optional c :
  validate_common c = Ok tt ->
  validate_optional (issuer_identity c) = Ok tt /\ validate_optional (transaction_id c) = Ok tt
  /\ validate_optional (session_id c) = Ok tt /\ validate_optional (audience c) = Ok tt.
Proof.
  unfold validate_common. intros H.
  destruct (require_nonempty_bounded _) as [[]|]; [|done].
  destruct (validate_optional (issuer_identity c)) as [[]|]; [|done].
  destruct (validate_optional (transaction_id c)) as [[]|]; [|done].
  destruct (validate_optional (session_id c)) as [[]|]; [|done].
  destruct (validate_optional (audience c)) as [[]|]; [|done]. done.
Qed.

Lemma fields_inj c d :
  context_typed c -> context_typed d -> validate_common c = Ok tt -> validate_common d = Ok tt ->
  fields c = fields d -> c = d.
Proof.
  intros (C1 & C2 & C3 & C4) (D1 & D2 & D3 & D4) Vc%validate_common_optional
    Vd%validate_common_optional E.
  destruct Vc as (? & ? & ? & ?), Vd as (? & ? & ? & ?).
  assert (forall i, nth i (fields c) [] = nth i (fields d) []) as N by by rewrite E.
  pose proof (N 0%nat) as E0. pose proof (N 1%nat) as E1. pose proof (N 2%nat) as E2.
  pose proof (N 3%nat) as E3. pose proof (N 4%nat) as E4. pose proof (N 5%nat) as E5.
  pose proof (N 6%nat) as E6. pose proof (N 7%nat) as E7. pose proof (N 8%nat) as E8.
  pose proof (N 9%nat) as E9. clear N E. cbn [nth fields] in *.
  apply to_be_bytes_u64_inj in E2, E7, E8; [|done..].
  apply optional_inj in E1, E3, E4, E5; [|done..]. apply hash_inj in E9; [|done..].
  destruct c, d. cbn in *. by subst.
Qed.

Lemma profile_all (p q : HybridSignatureProfile) : p = q.
Proof. by destruct p, q. Qed.

Lemma purpose_id_inj p q : purpose_id p = purpose_id q -> p = q.
Proof. by destruct p, q. Qed.

Lemma build_inv profile purpose c payload t :
  build profile purpose c payload = Ok t ->
  exists e, encode_for c purpose = Ok e
    /\ t = TBS_DOMAIN ++ prefixed (as_bytes (profile_id profile))
             ++ prefixed (as_bytes (purpose_id purpose)) ++ prefixed e ++ prefixed payload
    /\ len e <= U32_MAX /\ len payload <= MAX_FIELD_BYTES.
Proof.
  unfold build. intros H. destruct (MAX_FIELD_BYTES <? len payload) eqn:Ep; [done|].
  destruct (encode_for c purpose) as [e|] eqn:Ee; [|done]. cbv zeta in H.
  destruct (encode_length_prefixed TBS_DOMAIN _) as [o1|] eqn:E1; [|done].
  apply encode_length_prefixed_inv in E1 as [-> _].
  destruct (encode_length_prefixed _ (as_bytes (purpose_id purpose))) as [o2|] eqn:E2; [|done].
  apply encode_length_prefixed_inv in E2 as [-> _].
  destruct (encode_length_prefixed _ e) as [o3|] eqn:E3; [|done].
  apply encode_length_prefixed_inv in E3 as [-> L3].
  destruct (encode_length_prefixed _ payload) as [o4|] eqn:E4; [|done].
  apply encode_length_prefixed_inv in E4 as [-> _]. injection H as <-.
  exists e. bool_prop. split_and!; [done| |done|done]. by rewrite <- !app_assoc.
Qed.

Lemma build_injective (p q : HybridSignatureProfile) (u v : HybridPurpose)
  (c d : HybridContext) (x y t : bytes) :
  context_typed c -> context_typed d ->
  build p u c x = Ok t -> build q v d y = Ok t ->
  p = q /\ u = v /\ c = d /\ x = y.
Proof.
  intros Tc Td Hc Hd. apply build_inv in Hc as (e & Ee & -> & Le & Lx).
  apply build_inv in Hd as (f & Ef & E & Lf & Ly).
  apply app_inv_head in E.
  apply prefixed_inj in E as [_ E]; [|by destruct p|by destruct q].
  apply prefixed_inj in E as [Eu E]; [|by destruct u|by destruct v].
  apply as_bytes_inj, purpose_id_inj in Eu as <-.
  apply prefixed_inj in E as [-> E]; [|done..].
  rewrite <- (app_nil_r (prefixed x)), <- (app_nil_r (prefixed y)) in E.
  apply prefixed_inj in E as [-> _]; [|unfold MAX_FIELD_BYTES, U32_MAX in *; lia..].
  apply encode_for_inv in Ee as (V1 & _ & E1 & F1), Ef as (V2 & _ & E2 & F2).
  subst f. apply app_inv_head in E2. apply field_bytes_inj in E2; [|done..].
  split_and!; [apply profile_all|done| |done]. by apply fields_inj.
Qed.

(** ** Properties *)

(** The signed bytes determine everything they cover.  If two calls of
    [HybridTbs::build] return the same bytes, they were made with the same
    profile, the same purpose, the same context field by field (an absent
    optional field is never confused with a present one) and the same payload;
    so a signature for one purpose, session or generation is not one for
    another. *)
Theorem hybrid_tbs_injective (p q : HybridSignatureProfile) (u v : HybridPurpose)
  (c d : HybridContext) (x y t : bytes) :
  context_typed c -> context_typed d ->
  build p u c x = Ok t -> build q v d y = Ok t ->
  p = q /\ u = v /\ c = d /\ x = y.
Proof. apply build_injective. Qed.

Definition sample_context : HybridContext :=
  {| wallet_identity := as_bytes "wallet-123"; issuer_identity := None; key_generation := 7;
     transaction_id := None; session_id := None; audience := None;
     nonce := repeat Byte.x05 16; created_at_epoch_seconds := 1700000000;
     expires_at_epoch_seconds := 1700003600; transcript_hash := None |}.

Lemma hybrid_tbs_injective_witness :
  Es256MlDsa65V1 = Es256MlDsa65V1 /\ WalletExportV1 = WalletExportV1
  /\ sample_context = sample_context /\ as_bytes "payload" = as_bytes "payload".
Proof.
  eapply (hybrid_tbs_injective Es256MlDsa65V1 Es256MlDsa65V1 WalletExportV1 WalletExportV1
    sample_context sample_context (as_bytes "payload") (as_bytes "payload"));
    [split_and!; reflexivity || exact I | split_and!; reflexivity || exact I
    | vm_compute; reflexivity | vm_compute; reflexivity].
Defined.
