(* ===== verification/HybridEnvelope.v ===== *)
(** * Hybrid envelopes (crates/hybrid-pq/src/envelope.rs)

    The strict deterministic-CBOR envelopes of hybrid public keys and
    signatures, with their own head reader.  The theorems: the head reader
    accepts exactly what the COSE codec's does; an input decodes to a key (a
    signature) exactly when it is the encoding of that well-formed key
    (signature), so every key has one encoding and no other bytes are
    accepted. *)

From S2P Require Import Prelude Utf8 Cbor Boundary HybridPq HybridTbs.

Open Scope Z_scope.
Open Scope rust_scope.

Definition MAGIC_PREFIX : bytes := as_bytes "EUWALLET-EXPERIMENTAL-HYBRID-PQ-V1" ++ [Byte.x00].
Definition ENVELOPE_VERSION : Z := 1.
Definition MAX_ENVELOPE_BYTES : Z := 8 * 1024.
Definition MAX_TEXT_BYTES : Z := 64.

Definition KEY_VERSION : Z := 1.
Definition KEY_KIND : Z := 2.
Definition KEY_PROFILE : Z := 3.
Definition KEY_CLASSICAL : Z := 4.
Definition KEY_POST_QUANTUM : Z := 5.
Definition KEY_PURPOSE : Z := 6.

Definition KIND_PUBLIC_KEY : Z := 1.
Definition KIND_SIGNATURE : Z := 2.

Module EnvelopeError.
Inductive t : Type :=
| TooLarge
| BadPrefix
| Truncated
| NonCanonical
| IndefiniteLength
| DuplicateKey
| MapKeysNotSorted
| UnknownField
| UnsupportedVersion
| UnsupportedKind
| UnsupportedProfile
| UnsupportedPurpose
| UnsupportedFormat
| ZeroGeneration
| EmptyField
| MissingField
| UnexpectedField
| WrongType
| InvalidUtf8
| MalformedComponent
| TrailingBytes.
End EnvelopeError.

Abbreviation EnvelopeError := EnvelopeError.t.

Record HybridSignatureEnvelope : Type := {
  env_purpose : HybridPurpose;
  env_signature : HybridSignature;
}.

(** ** Decoder

    A [Decoder] is the part of its input after [position]: the position never
    exceeds the length, so its checked additions cannot overflow. *)

Definition take_array (n : Z) (bs : bytes) : result (bytes * bytes) EnvelopeError :=
  ok_or (split_at_checked n bs) EnvelopeError.Truncated.

(** The wide argument forms share the check that a shorter form would not do. *)
Definition wide (n limit major : Z) (bs : bytes) : result (Z * Z * bytes) EnvelopeError :=
  let? (b, rest) := take_array n bs in
  let value := from_be_bytes b in
  if value <=? limit then Err EnvelopeError.NonCanonical else Ok (major, value, rest).

Definition read_head (bs : bytes) : result (Z * Z * bytes) EnvelopeError :=
  match bs with
  | [] => Err EnvelopeError.Truncated
  | first :: rest =>
      let major := Z.shiftr (byte.unsigned first) 5 in
      let info := Z.land (byte.unsigned first) 31 in
      if info <=? 23 then Ok (major, info, rest)
      else if info =? 24 then wide 1 23 major rest
      else if info =? 25 then wide 2 U8_MAX major rest
      else if info =? 26 then wide 4 U16_MAX major rest
      else if info =? 27 then wide 8 U32_MAX major rest
      else if info =? 31 then Err EnvelopeError.IndefiniteLength
      else Err EnvelopeError.NonCanonical
  end.

Definition read_uint (bs : bytes) : result (Z * bytes) EnvelopeError :=
  let? (major, value, rest) := read_head bs in
  if negb (major =? 0) then Err EnvelopeError.WrongType else Ok (value, rest).

(** [usize] is 64 bits wide, so the conversion of the length cannot fail. *)
Definition read_string (expected_major limit : Z) (bs : bytes)
  : result (bytes * bytes) EnvelopeError :=
  let? (major, length, rest) := read_head bs in
  if negb (major =? expected_major) then Err EnvelopeError.WrongType
  else if limit <? length then Err EnvelopeError.TooLarge
  else ok_or (split_at_checked length rest) EnvelopeError.Truncated.

Definition read_text (bs : bytes) : result (string * bytes) EnvelopeError :=
  let? (b, rest) := read_string 3 MAX_TEXT_BYTES bs in
  let? s := ok_or (from_utf8 b) EnvelopeError.InvalidUtf8 in
  Ok (s, rest).

Definition read_bytes (bs : bytes) : result (bytes * bytes) EnvelopeError :=
  read_string 2 MAX_ENVELOPE_BYTES bs.

(** ** Parser *)

Definition check_key (previous_key : option Z) (key : Z) : result unit EnvelopeError :=
  match previous_key with
  | Some previous =>
      if key =? previous then Err EnvelopeError.DuplicateKey
      else if key <? previous then Err EnvelopeError.MapKeysNotSorted
      else Ok tt
  | None => Ok tt
  end.

(** The loop [for _ in 0..entries] of this parser and of the credential
    wrapper's, which differ in their fields and in what can go wrong ([lift]
    embeds the decoder's errors).  Every iteration that succeeds consumes a
    byte, so one more than the number of bytes is enough fuel for any announced
    count: [read_entries_unfold]. *)
Section loop.
Context {F E : Type} (lift : EnvelopeError -> E).
Context (read_field : Z -> F -> bytes -> result (F * bytes) E).

Fixpoint read_entries (fuel : nat) (n : Z) (previous_key : option Z) (fs : F) (bs : bytes)
  : result (F * bytes) E :=
  if n =? 0 then Ok (fs, bs)
  else match fuel with
       | O => Err (lift EnvelopeError.Truncated)
       | S fuel =>
           let? (key, rest) := map_err (read_uint bs) lift in
           let? _ := map_err (check_key previous_key key) lift in
           let? (fs, rest) := read_field key fs rest in
           read_entries fuel (n - 1) (Some key) fs rest
       end.
End loop.

(** The mutable locals of the parsing loop. *)
Record Fields : Type := {
  f_version : option Z;
  f_kind : option Z;
  f_profile : option HybridSignatureProfile;
  f_classical : option bytes;
  f_post_quantum : option bytes;
  f_purpose : option HybridPurpose;
}.

Definition no_fields : Fields :=
  {| f_version := None; f_kind := None; f_profile := None; f_classical := None;
     f_post_quantum := None; f_purpose := None |}.

(** The [match key] of one iteration. *)
Definition read_field (key : Z) (fs : Fields) (bs : bytes) : result (Fields * bytes) EnvelopeError :=
  let '{| f_version := v; f_kind := k; f_profile := p; f_classical := c; f_post_quantum := q;
          f_purpose := u |} := fs in
  if key =? KEY_VERSION then
    let? (x, rest) := read_uint bs in
    Ok ({| f_version := Some x; f_kind := k; f_profile := p; f_classical := c;
           f_post_quantum := q; f_purpose := u |}, rest)
  else if key =? KEY_KIND then
    let? (x, rest) := read_uint bs in
    Ok ({| f_version := v; f_kind := Some x; f_profile := p; f_classical := c;
           f_post_quantum := q; f_purpose := u |}, rest)
  else if key =? KEY_PROFILE then
    let? (x, rest) := read_text bs in
    let? x := map_err (profile_try_from x) (fun _ => EnvelopeError.UnsupportedProfile) in
    Ok ({| f_version := v; f_kind := k; f_profile := Some x; f_classical := c;
           f_post_quantum := q; f_purpose := u |}, rest)
  else if key =? KEY_CLASSICAL then
    let? (x, rest) := read_bytes bs in
    Ok ({| f_version := v; f_kind := k; f_profile := p; f_classical := Some x;
           f_post_quantum := q; f_purpose := u |}, rest)
  else if key =? KEY_POST_QUANTUM then
    let? (x, rest) := read_bytes bs in
    Ok ({| f_version := v; f_kind := k; f_profile := p; f_classical := c;
           f_post_quantum := Some x; f_purpose := u |}, rest)
  else if key =? KEY_PURPOSE then
    let? (x, rest) := read_text bs in
    let? x := map_err (purpose_try_from x) (fun _ => EnvelopeError.UnexpectedField) in
    Ok ({| f_version := v; f_kind := k; f_profile := p; f_classical := c;
           f_post_quantum := q; f_purpose := Some x |}, rest)
  else Err EnvelopeError.UnknownField.

Record ParsedEnvelope : Type := {
  kind : Z;
  profile : HybridSignatureProfile;
  classical : bytes;
  post_quantum : bytes;
  purpose : option HybridPurpose;
}.

Definition parse (input : bytes) : result ParsedEnvelope EnvelopeError :=
  if MAX_ENVELOPE_BYTES <? len input then Err EnvelopeError.TooLarge
  else
  let? cbor := ok_or (strip_prefix MAGIC_PREFIX input) EnvelopeError.BadPrefix in
  let? (major, entries, rest) := read_head cbor in
  if negb (major =? 5) then Err EnvelopeError.WrongType
  else
  let? (fs, rest) := read_entries (fun e => e) read_field (S (length rest)) entries None no_fields rest in
  if negb (is_empty rest) then Err EnvelopeError.TrailingBytes
  else
  let? version := ok_or (f_version fs) EnvelopeError.MissingField in
  if negb (version =? ENVELOPE_VERSION) then Err EnvelopeError.UnsupportedVersion
  else
  let? kind := ok_or (f_kind fs) EnvelopeError.MissingField in
  let? profile := ok_or (f_profile fs) EnvelopeError.MissingField in
  let? classical := ok_or (f_classical fs) EnvelopeError.MissingField in
  let? post_quantum := ok_or (f_post_quantum fs) EnvelopeError.MissingField in
  Ok {| kind := kind; profile := profile; classical := classical; post_quantum := post_quantum;
        purpose := f_purpose fs |}.

Definition map_component_error (error : HybridCryptoError) : EnvelopeError :=
  match error with
  | ResourceLimitExceeded => EnvelopeError.TooLarge
  | _ => EnvelopeError.MalformedComponent
  end.

Definition decode_public_key (input : bytes) : result HybridPublicKey EnvelopeError :=
  let? parsed := parse input in
  if negb (kind parsed =? KIND_PUBLIC_KEY) then Err EnvelopeError.UnsupportedKind
  else if is_some (purpose parsed) then Err EnvelopeError.UnexpectedField
  else map_err (public_key_try_new (profile parsed) (classical parsed) (post_quantum parsed))
         map_component_error.

Definition decode_signature (input : bytes) : result HybridSignatureEnvelope EnvelopeError :=
  let? parsed := parse input in
  if negb (kind parsed =? KIND_SIGNATURE) then Err EnvelopeError.UnsupportedKind
  else
  let? purpose := ok_or (purpose parsed) EnvelopeError.MissingField in
  let? signature := map_err (signature_try_new (profile parsed) (classical parsed)
                               (post_quantum parsed)) map_component_error in
  Ok {| env_purpose := purpose; env_signature := signature |}.

(** ** Encoder *)

Definition write_head (output : bytes) (major value : Z) : bytes :=
  if value <=? 23 then output ++ [head_byte major value]
  else if value <=? U8_MAX then output ++ [head_byte major 24; byte.of_Z value]
  else if value <=? U16_MAX then output ++ head_byte major 25 :: to_be_bytes 2 value
  else if value <=? U32_MAX then output ++ head_byte major 26 :: to_be_bytes 4 value
  else output ++ head_byte major 27 :: to_be_bytes 8 value.

Definition write_uint_pair (output : bytes) (key value : Z) : bytes :=
  write_head (write_head output 0 key) 0 value.

Definition write_text_pair (output : bytes) (key : Z) (value : string) : bytes :=
  write_head (write_head output 0 key) 3 (slen value) ++ as_bytes value.

Definition write_bytes_pair (output : bytes) (key : Z) (value : bytes) : bytes :=
  write_head (write_head output 0 key) 2 (len value) ++ value.

Definition encode_public_key (key : HybridPublicKey) : bytes :=
  let output := MAGIC_PREFIX in
  let output := write_head output 5 5 in
  let output := write_uint_pair output KEY_VERSION ENVELOPE_VERSION in
  let output := write_uint_pair output KEY_KIND KIND_PUBLIC_KEY in
  let output := write_text_pair output KEY_PROFILE (profile_id (pk_profile key)) in
  let output := write_bytes_pair output KEY_CLASSICAL (pk_classical key) in
  write_bytes_pair output KEY_POST_QUANTUM (pk_post_quantum key).

Definition encode_signature (envelope : HybridSignatureEnvelope) : bytes :=
  let signature := env_signature envelope in
  let output := MAGIC_PREFIX in
  let output := write_head output 5 6 in
  let output := write_uint_pair output KEY_VERSION ENVELOPE_VERSION in
  let output := write_uint_pair output KEY_KIND KIND_SIGNATURE in
  let output := write_text_pair output KEY_PROFILE (profile_id (sig_profile signature)) in
  let output := write_bytes_pair output KEY_CLASSICAL (sig_classical signature) in
  let output := write_bytes_pair output KEY_POST_QUANTUM (sig_post_quantum signature) in
  write_text_pair output KEY_PURPOSE (purpose_id (env_purpose envelope)).

(** ** The head reader is the COSE codec's *)

Lemma write_head_cbor o m n : write_head o m n = Cbor.write_head o m n.
Proof. reflexivity. Qed.

Lemma split_one (rest : bytes) :
  split_at_checked 1 rest = match rest with [] => None | b :: r => Some ([b], r) end.
Proof.
  destruct rest as [|b r]; [done|]. unfold split_at_checked. rewrite len_cons.
  replace (1 <=? 1 + len r) with true; [done|]. pose proof (len_nonneg r). lia.
Qed.

Lemma from_be_bytes_one b : from_be_bytes [b] = byte.unsigned b.
Proof. by destruct b. Qed.

Lemma read_head_agrees bs : ok (read_head bs) = ok (Cbor.read_head bs).
Proof.
  unfold read_head, Cbor.read_head, wide, take_array. destruct bs as [|b rest]; [done|].
  generalize (Z.shiftr (byte.unsigned b) 5) (Z.land (byte.unsigned b) 31). intros m i.
  destruct (i <=? 23); [done|]. destruct (i =? 24).
  { rewrite split_one. destruct rest as [|x r]; cbn [ok_or]; [done|].
    rewrite from_be_bytes_one. by destruct (_ <=? 23). }
  destruct (i =? 25).
  { destruct (split_at_checked 2 rest) as [[x r]|]; cbn [ok_or]; [|done]. by destruct (_ <=? _). }
  destruct (i =? 26).
  { destruct (split_at_checked 4 rest) as [[x r]|]; cbn [ok_or]; [|done]. by destruct (_ <=? _). }
  destruct (i =? 27).
  { destruct (split_at_checked 8 rest) as [[x r]|]; cbn [ok_or]; [|done]. by destruct (_ <=? _). }
  by destruct (i =? 31).
Qed.

Lemma ok_Ok {A E} (r : result A E) a : ok r = Some a <-> r = Ok a.
Proof. destruct r; cbn; split; congruence. Qed.

Lemma read_head_write m n rest :
  0 <= m <= 7 -> is_u64 n = true ->
  read_head (write_head [] m n ++ rest) = Ok (m, n, rest).
Proof.
  intros Hm Hn. apply ok_Ok. rewrite read_head_agrees. apply ok_Ok. by apply read_write_head.
Qed.

Lemma read_head_shape bs m n rest :
  read_head bs = Ok (m, n, rest) ->
  bs = write_head [] m n ++ rest /\ 0 <= m <= 7 /\ is_u64 n = true.
Proof.
  intros H%ok_Ok. rewrite read_head_agrees in H. apply ok_Ok, read_head_inv in H as (E & Hm & Hn & _).
  done.
Qed.

(** ** Reading what was written, and nothing else *)

Lemma read_uint_write n rest :
  is_u64 n = true -> read_uint (write_head [] 0 n ++ rest) = Ok (n, rest).
Proof. intros H. unfold read_uint. by rewrite read_head_write. Qed.

Lemma read_uint_inv bs n rest :
  read_uint bs = Ok (n, rest) -> bs = write_head [] 0 n ++ rest /\ is_u64 n = true.
Proof.
  unfold read_uint. intros H. destruct (read_head bs) as [[[m x] r]|] eqn:E; [|done].
  apply read_head_shape in E as (-> & _ & Hx). destruct (m =? 0) eqn:Em; [|done].
  bool_prop. by simplify_eq/=.
Qed.

Lemma read_string_write m limit b rest :
  0 <= m <= 7 -> len b <= limit -> limit <= U64_MAX ->
  read_string m limit (write_head [] m (len b) ++ b ++ rest) = Ok (b, rest).
Proof.
  intros Hm Hl Hu. unfold read_string. rewrite read_head_write; [|done|].
  - rewrite Z.eqb_refl. cbn [negb]. assert (limit <? len b = false) as -> by lia.
    by rewrite split_at_checked_app.
  - unfold is_u64. pose proof (len_nonneg b). lia.
Qed.

Lemma read_string_inv m limit bs b rest :
  read_string m limit bs = Ok (b, rest) ->
  bs = write_head [] m (len b) ++ b ++ rest /\ len b <= limit.
Proof.
  unfold read_string. intros H. destruct (read_head bs) as [[[m' n] r]|] eqn:E; [|done].
  apply read_head_shape in E as (-> & _ & Hn). destruct (m' =? m) eqn:Em; cbn [negb] in H; [|done].
  destruct (limit <? n) eqn:El; [done|].
  destruct (split_at_checked n r) as [[p q]|] eqn:Es; cbn [ok_or] in H; [|done].
  unfold is_u64 in Hn. bool_prop. apply split_at_checked_Some in Es as [-> Hp]; [|done].
  simplify_eq. done.
Qed.

Lemma read_text_write s rest :
  is_str s = true -> slen s <= MAX_TEXT_BYTES ->
  read_text (write_head [] 3 (slen s) ++ as_bytes s ++ rest) = Ok (s, rest).
Proof.
  intros Hs Hl. unfold read_text, slen.
  rewrite read_string_write by (done || lia). unfold from_utf8. unfold is_str in Hs. rewrite Hs.
  cbn [ok_or]. unfold as_bytes. by rewrite string_of_list_byte_of_string.
Qed.

Lemma read_text_inv bs s rest :
  read_text bs = Ok (s, rest) ->
  bs = write_head [] 3 (slen s) ++ as_bytes s ++ rest.
Proof.
  unfold read_text. intros H. destruct (read_string 3 MAX_TEXT_BYTES bs) as [[b r]|] eqn:E; [|done].
  apply read_string_inv in E as [-> _]. unfold from_utf8 in H.
  destruct (utf8_valid b); cbn [ok_or] in H; [|done]. injection H as <- <-.
  unfold slen. by rewrite as_bytes_of_list.
Qed.

(** ** The loop *)

Lemma write_head_length m n : (1 <= length (write_head [] m n))%nat.
Proof. pose proof (len_write_head m n) as H. unfold len in H. rewrite write_head_cbor. lia. Qed.

Lemma read_uint_shorter bs n rest :
  read_uint bs = Ok (n, rest) -> (length rest < length bs)%nat.
Proof.
  intros H. apply read_uint_inv in H as [-> _]. rewrite length_app.
  pose proof (write_head_length 0 n). lia.
Qed.

Lemma head_size m n : len (write_head [] m n) <= 9.
Proof. exact (len_write_head_le m n). Qed.

(** What a parser has to show of its fields: an [entry] per key, with its
    bytes; the record keeps the entries in key order. *)
Class StrictFields (entry F E : Type) (read_field : Z -> F -> bytes -> result (F * bytes) E) : Type := {
  sf_key : entry -> Z;
  sf_value : entry -> bytes;
  sf_ok : entry -> Prop;
  sf_set : F -> entry -> F;
  sf_entries : F -> list entry;
  sf_key_u64 : forall e, is_u64 (sf_key e) = true;
  sf_read_write : forall fs e rest,
    sf_ok e -> read_field (sf_key e) fs (sf_value e ++ rest) = Ok (sf_set fs e, rest);
  sf_read_inv : forall key fs bs fs' rest,
    read_field key fs bs = Ok (fs', rest) ->
    exists e, key = sf_key e /\ sf_ok e /\ bs = sf_value e ++ rest /\ fs' = sf_set fs e;
  sf_entries_set : forall fs e,
    forallb (fun x => sf_key x <? sf_key e) (sf_entries fs) = true ->
    sf_entries (sf_set fs e) = sf_entries fs ++ [e];
}.

Section loop_proofs.
Context {entry F E : Type} (lift : EnvelopeError -> E).
Context (read_field : Z -> F -> bytes -> result (F * bytes) E).
Context {SF : StrictFields entry F E read_field}.

Definition strict_bytes (e : entry) : bytes := write_head [] 0 (sf_key e) ++ sf_value e.

Definition below (fs : F) (k : Z) : bool := forallb (fun e => sf_key e <? k) (sf_entries fs).

Lemma below_set fs e k :
  below fs (sf_key e) = true -> sf_key e < k -> below (sf_set fs e) k = true.
Proof.
  intros H Hk. unfold below in *. rewrite sf_entries_set, forallb_app by done. cbn.
  rewrite andb_true_r, andb_true_iff. split; [|lia].
  rewrite forallb_forall in *. intros x Hx. apply H in Hx. lia.
Qed.

Lemma read_field_shorter key fs bs fs' rest :
  read_field key fs bs = Ok (fs', rest) -> (length rest <= length bs)%nat.
Proof using SF. intros H. apply sf_read_inv in H as (e & _ & _ & -> & _). rewrite length_app. lia. Qed.

Lemma read_entries_fuel f g n prev fs bs :
  (length bs < f)%nat -> (length bs < g)%nat ->
  read_entries lift read_field f n prev fs bs = read_entries lift read_field g n prev fs bs.
Proof using SF.
  revert g n prev fs bs. induction f as [|f IH]; intros g n prev fs bs Hf Hg; [lia|].
  destruct g as [|g]; [lia|]. cbn [read_entries]. case_match; [done|].
  destruct (read_uint bs) as [[key r]|] eqn:Eu; cbn [map_err]; [|done]. apply read_uint_shorter in Eu.
  destruct (check_key prev key); cbn [map_err]; [|done].
  destruct (read_field key fs r) as [[fs' r']|] eqn:E2; [|done]. apply read_field_shorter in E2.
  apply IH; lia.
Qed.

(** The model's loop is the source's [for _ in 0..entries], for any count. *)
Lemma read_entries_unfold n prev fs bs :
  read_entries lift read_field (S (length bs)) n prev fs bs =
  if n =? 0 then Ok (fs, bs)
  else let? (key, rest) := map_err (read_uint bs) lift in
       let? _ := map_err (check_key prev key) lift in
       let? (fs, rest) := read_field key fs rest in
       read_entries lift read_field (S (length rest)) (n - 1) (Some key) fs rest.
Proof using SF.
  cbn [read_entries]. case_match; [done|].
  destruct (read_uint bs) as [[key r]|] eqn:Eu; cbn [map_err]; [|done]. apply read_uint_shorter in Eu.
  destruct (check_key prev key); cbn [map_err]; [|done].
  destruct (read_field key fs r) as [[fs' r']|] eqn:E2; [|done]. apply read_field_shorter in E2.
  exact (read_entries_fuel (length bs) (S (length r')) _ _ _ r' ltac:(lia) ltac:(lia)).
Qed.

Definition prev_below (prev : option Z) (fs : F) : Prop :=
  match prev with None => sf_entries fs = [] | Some p => below fs (p + 1) = true end.

Lemma check_key_below prev fs key :
  prev_below prev fs -> check_key prev key = Ok tt -> below fs key = true.
Proof.
  destruct prev as [p|]; cbn; [|unfold below; by intros ->]. intros H Hc.
  destruct (key =? p) eqn:E1; [done|]. destruct (key <? p) eqn:E2; [done|]. bool_prop.
  unfold below in *. rewrite forallb_forall in *. intros x Hx. apply H in Hx. lia.
Qed.

Lemma read_entries_inv fuel n prev fs bs fs' rest :
  0 <= n -> prev_below prev fs ->
  read_entries lift read_field fuel n prev fs bs = Ok (fs', rest) ->
  exists es, bs = concat (map strict_bytes es) ++ rest
    /\ sf_entries fs' = sf_entries fs ++ es /\ len es = n /\ Forall sf_ok es.
Proof.
  revert n prev fs bs. induction fuel as [|fuel IH]; intros n prev fs bs Hn Hp H;
    cbn [read_entries] in H; (destruct (n =? 0) eqn:E0;
    [bool_prop; simplify_eq; exists []; rewrite app_nil_r; by split_and!|]); [done|].
  destruct (read_uint bs) as [[key r]|] eqn:Ek; cbn [map_err] in H; [|done].
  apply read_uint_inv in Ek as [-> _].
  destruct (check_key prev key) as [[]|] eqn:Ec; cbn [map_err] in H; [|done].
  pose proof (check_key_below prev fs key Hp Ec) as Hb.
  destruct (read_field key fs r) as [[fs1 r1]|] eqn:Ef; [|done].
  apply sf_read_inv in Ef as (e & -> & He & -> & ->). bool_prop.
  apply IH in H as (es & -> & Ee & Hl & Hok); [|lia|cbn; apply below_set; [done|lia]].
  exists (e :: es). rewrite Ee, sf_entries_set, len_cons by done. split_and!.
  - cbn [map concat]. unfold strict_bytes at 2. by rewrite <- !app_assoc.
  - by rewrite <- app_assoc.
  - lia.
  - by constructor.
Qed.

(** Ascending entries are read back. *)
Fixpoint ascending_from (prev : option Z) (es : list entry) : bool :=
  match es with
  | [] => true
  | e :: es =>
      match prev with Some p => p <? sf_key e | None => true end
      && ascending_from (Some (sf_key e)) es
  end.

Lemma check_key_ascending prev e es :
  ascending_from prev (e :: es) = true -> check_key prev (sf_key e) = Ok tt.
Proof.
  destruct prev as [p|]; cbn; [|done]. intros H. bool_prop.
  assert (sf_key e =? p = false) as -> by lia. by assert (sf_key e <? p = false) as -> by lia.
Qed.

Lemma read_entries_write es fuel prev fs rest :
  (length es <= fuel)%nat -> ascending_from prev es = true -> Forall sf_ok es ->
  read_entries lift read_field fuel (len es) prev fs (concat (map strict_bytes es) ++ rest)
  = Ok (fold_left sf_set es fs, rest).
Proof.
  revert fuel prev fs. induction es as [|e es IH]; intros fuel prev fs Hf Ha Ho.
  { destruct fuel; done. }
  destruct fuel as [|fuel]; cbn [length] in Hf; [lia|]. inversion Ho; subst.
  cbn [read_entries map concat fold_left]. rewrite len_cons. pose proof (len_nonneg es).
  assert (1 + len es =? 0 = false) as -> by lia.
  unfold strict_bytes at 1. rewrite <- !app_assoc, read_uint_write by apply sf_key_u64.
  cbn [map_err]. rewrite (check_key_ascending prev e es Ha). cbn [map_err].
  rewrite sf_read_write by done.
  replace (1 + len es - 1) with (len es) by lia. cbn in Ha. bool_prop.
  apply IH; [lia|done|done].
Qed.

Lemma length_entries es : (length es <= length (concat (map strict_bytes es)))%nat.
Proof.
  induction es as [|e es IH]; [done|]. cbn [map concat length]. rewrite length_app.
  unfold strict_bytes at 1. rewrite length_app. pose proof (write_head_length 0 (sf_key e)). lia.
Qed.

(** A whole map behind the magic prefix. *)
Definition envelope_bytes (es : list entry) : bytes :=
  MAGIC_PREFIX ++ write_head [] 5 (len es) ++ concat (map strict_bytes es).
Lemma len_envelope es :
  len (envelope_bytes es) <= 44 + total (fun e => len (strict_bytes e)) es.
Proof.
  unfold envelope_bytes. rewrite !len_app, len_concat.
  pose proof (head_size 5 (len es)). change (len MAGIC_PREFIX) with 35. lia.
Qed.

End loop_proofs.

Arguments strict_bytes {entry F E read_field SF} e.
Arguments below {entry F E read_field SF} fs k.
Arguments ascending_from {entry F E read_field SF} prev es.
Arguments envelope_bytes {entry F E read_field SF} es.
Arguments read_entries_inv {entry F E lift read_field SF} fuel n prev fs bs fs' rest.
Arguments read_entries_write {entry F E lift read_field SF} es fuel prev fs rest.
Arguments len_envelope {entry F E read_field SF} es.
Arguments length_entries {entry F E read_field SF} es.

(** ** Entries *)

Inductive entry : Type :=
| EVersion (n : Z)
| EKind (n : Z)
| EProfile (p : HybridSignatureProfile)
| EClassical (b : bytes)
| EPostQuantum (b : bytes)
| EPurpose (p : HybridPurpose).

Definition entry_key (e : entry) : Z :=
  match e with
  | EVersion _ => KEY_VERSION
  | EKind _ => KEY_KIND
  | EProfile _ => KEY_PROFILE
  | EClassical _ => KEY_CLASSICAL
  | EPostQuantum _ => KEY_POST_QUANTUM
  | EPurpose _ => KEY_PURPOSE
  end.

Definition text_bytes (s : string) : bytes := write_head [] 3 (slen s) ++ as_bytes s.

Definition entry_value (e : entry) : bytes :=
  match e with
  | EVersion n | EKind n => write_head [] 0 n
  | EProfile p => text_bytes (profile_id p)
  | EClassical b | EPostQuantum b => write_head [] 2 (len b) ++ b
  | EPurpose p => text_bytes (purpose_id p)
  end.

Definition entry_ok (e : entry) : Prop :=
  match e with
  | EVersion n | EKind n => is_u64 n = true
  | EClassical b | EPostQuantum b => len b <= MAX_ENVELOPE_BYTES
  | EProfile _ | EPurpose _ => True
  end.

Definition set_entry (fs : Fields) (e : entry) : Fields :=
  let '{| f_version := v; f_kind := k; f_profile := p; f_classical := c; f_post_quantum := q;
          f_purpose := u |} := fs in
  match e with
  | EVersion x => {| f_version := Some x; f_kind := k; f_profile := p; f_classical := c;
                     f_post_quantum := q; f_purpose := u |}
  | EKind x => {| f_version := v; f_kind := Some x; f_profile := p; f_classical := c;
                  f_post_quantum := q; f_purpose := u |}
  | EProfile x => {| f_version := v; f_kind := k; f_profile := Some x; f_classical := c;
                     f_post_quantum := q; f_purpose := u |}
  | EClassical x => {| f_version := v; f_kind := k; f_profile := p; f_classical := Some x;
                       f_post_quantum := q; f_purpose := u |}
  | EPostQuantum x => {| f_version := v; f_kind := k; f_profile := p; f_classical := c;
                         f_post_quantum := Some x; f_purpose := u |}
  | EPurpose x => {| f_version := v; f_kind := k; f_profile := p; f_classical := c;
                     f_post_quantum := q; f_purpose := Some x |}
  end.

(** The entries present in a record, in key order. *)
Definition opt_entry {A} (f : A -> entry) (o : option A) : list entry :=
  match o with Some a => [f a] | None => [] end.

Definition entries_of (fs : Fields) : list entry :=
  opt_entry EVersion (f_version fs) ++ opt_entry EKind (f_kind fs)
  ++ opt_entry EProfile (f_profile fs) ++ opt_entry EClassical (f_classical fs)
  ++ opt_entry EPostQuantum (f_post_quantum fs) ++ opt_entry EPurpose (f_purpose fs).

Lemma entries_of_set fs e :
  forallb (fun x => entry_key x <? entry_key e) (entries_of fs) = true ->
  entries_of (set_entry fs e) = entries_of fs ++ [e].
Proof. unfold entries_of. destruct fs as [[|] [|] [|] [|] [|] [|]], e; cbn; done. Qed.

Lemma profile_try_from_id x p : profile_try_from x = Ok p -> x = profile_id p.
Proof. unfold profile_try_from. case_bool_decide; [|done]. by intros [= <-]. Qed.

Lemma purpose_try_from_id x p : purpose_try_from x = Ok p <-> x = purpose_id p.
Proof.
  split.
  - unfold purpose_try_from. repeat case_bool_decide; intros [= <-]; done.
  - intros ->. by destruct p.
Qed.

Lemma text_bytes_app s r : text_bytes s ++ r = write_head [] 3 (slen s) ++ as_bytes s ++ r.
Proof. unfold text_bytes. by rewrite app_assoc. Qed.

Lemma read_field_write fs e rest :
  entry_ok e -> read_field (entry_key e) fs (entry_value e ++ rest) = Ok (set_entry fs e, rest).
Proof.
  intros H. destruct fs, e; cbn [entry_key entry_value entry_ok set_entry] in *;
    unfold read_field; cbn [Z.eqb Pos.eqb KEY_VERSION KEY_KIND KEY_PROFILE KEY_CLASSICAL
      KEY_POST_QUANTUM KEY_PURPOSE].
  - by rewrite read_uint_write.
  - by rewrite read_uint_write.
  - rewrite text_bytes_app, read_text_write by (by destruct p). by destruct p.
  - unfold read_bytes. rewrite <- app_assoc, read_string_write by (done || lia). done.
  - unfold read_bytes. rewrite <- app_assoc, read_string_write by (done || lia). done.
  - rewrite text_bytes_app, read_text_write by (by destruct p).
    rewrite (proj2 (purpose_try_from_id _ p)) by done. done.
Qed.

Lemma read_field_inv key fs bs fs' rest :
  read_field key fs bs = Ok (fs', rest) ->
  exists e, key = entry_key e /\ entry_ok e /\ bs = entry_value e ++ rest /\ fs' = set_entry fs e.
Proof.
  intros H. destruct fs. unfold read_field in H.
  destruct (key =? KEY_VERSION) eqn:K1.
  { destruct (read_uint bs) as [[x r]|] eqn:E; [|done]. apply read_uint_inv in E as [-> ?].
    exists (EVersion x). bool_prop. by simplify_eq/=. }
  destruct (key =? KEY_KIND) eqn:K2.
  { destruct (read_uint bs) as [[x r]|] eqn:E; [|done]. apply read_uint_inv in E as [-> ?].
    exists (EKind x). bool_prop. by simplify_eq/=. }
  destruct (key =? KEY_PROFILE) eqn:K3.
  { destruct (read_text bs) as [[x r]|] eqn:E; [|done]. apply read_text_inv in E as ->.
    destruct (profile_try_from x) as [p|] eqn:Ep; [|done]. apply profile_try_from_id in Ep as ->.
    exists (EProfile p). cbn [map_err] in H. bool_prop. simplify_eq. split_and!; [done..| |done].
    cbn [entry_value]. by rewrite text_bytes_app. }
  destruct (key =? KEY_CLASSICAL) eqn:K4.
  { destruct (read_bytes bs) as [[x r]|] eqn:E; [|done]. apply read_string_inv in E as [-> ?].
    exists (EClassical x). bool_prop. simplify_eq. cbn [entry_value]. by rewrite <- app_assoc. }
  destruct (key =? KEY_POST_QUANTUM) eqn:K5.
  { destruct (read_bytes bs) as [[x r]|] eqn:E; [|done]. apply read_string_inv in E as [-> ?].
    exists (EPostQuantum x). bool_prop. simplify_eq. cbn [entry_value]. by rewrite <- app_assoc. }
  destruct (key =? KEY_PURPOSE) eqn:K6; [|done].
  destruct (read_text bs) as [[x r]|] eqn:E; [|done]. apply read_text_inv in E as ->.
  destruct (purpose_try_from x) as [p|] eqn:Ep; [|done]. apply purpose_try_from_id in Ep as ->.
  exists (EPurpose p). cbn [map_err] in H. bool_prop. simplify_eq. split_and!; [done..| |done].
  cbn [entry_value]. by rewrite text_bytes_app.
Qed.

Lemma entry_key_u64 e : is_u64 (entry_key e) = true.
Proof. by destruct e. Qed.

#[export] Instance envelope_fields : StrictFields entry Fields EnvelopeError read_field := {|
  sf_key := entry_key; sf_value := entry_value; sf_ok := entry_ok; sf_set := set_entry;
  sf_entries := entries_of; sf_key_u64 := entry_key_u64; sf_read_write := read_field_write;
  sf_read_inv := read_field_inv; sf_entries_set := entries_of_set;
|}.

(** ** Envelopes *)

(** The record [parse] returns, given the fields that were read. *)
Definition parsed_of (fs : Fields) : result ParsedEnvelope EnvelopeError :=
  let? version := ok_or (f_version fs) EnvelopeError.MissingField in
  if negb (version =? ENVELOPE_VERSION) then Err EnvelopeError.UnsupportedVersion
  else
  let? kind := ok_or (f_kind fs) EnvelopeError.MissingField in
  let? profile := ok_or (f_profile fs) EnvelopeError.MissingField in
  let? classical := ok_or (f_classical fs) EnvelopeError.MissingField in
  let? post_quantum := ok_or (f_post_quantum fs) EnvelopeError.MissingField in
  Ok {| kind := kind; profile := profile; classical := classical; post_quantum := post_quantum;
        purpose := f_purpose fs |}.

Lemma parse_inv input p :
  parse input = Ok p ->
  exists fs, parsed_of fs = Ok p /\ input = envelope_bytes (entries_of fs).
Proof.
  unfold parse. intros H. destruct (MAX_ENVELOPE_BYTES <? len input); [done|].
  destruct (strip_prefix MAGIC_PREFIX input) as [cbor|] eqn:Ep; cbn [ok_or] in H; [|done].
  apply strip_prefix_Some in Ep as ->.
  destruct (read_head cbor) as [[[m n] r]|] eqn:Eh; [|done].
  apply read_head_shape in Eh as (-> & _ & Hn). destruct (m =? 5) eqn:Em; [|done].
  bool_prop. subst m. cbn [negb] in H.
  destruct (read_entries _ _ _ n None no_fields r) as [[fs r']|] eqn:Er; [|done].
  unfold is_u64 in Hn. bool_prop. apply read_entries_inv in Er as (es & -> & E & <- & _); [|done..].
  cbn in E. destruct r' as [|]; cbn [is_empty negb] in H; [|done].
  exists fs. split; [exact H|]. rewrite E, app_nil_r. done.
Qed.

Lemma parse_write es :
  len (envelope_bytes es) <= MAX_ENVELOPE_BYTES -> len es <= 23 ->
  ascending_from None es = true -> Forall sf_ok es ->
  parse (envelope_bytes es) = parsed_of (fold_left set_entry es no_fields).
Proof.
  intros Hl Hn Ha Ho. unfold parse.
  assert (MAX_ENVELOPE_BYTES <? len (envelope_bytes es) = false) as -> by lia.
  unfold envelope_bytes. rewrite strip_prefix_app. cbn [ok_or].
  rewrite read_head_write; [|lia|unfold is_u64, U64_MAX; pose proof (len_nonneg es); lia].
  cbn [Z.eqb Pos.eqb negb].
  rewrite <- (app_nil_r (concat (map strict_bytes es))) at 2.
  rewrite read_entries_write; [done| |done|done].
  pose proof (length_entries es). lia.
Qed.

(** The two kinds of envelope as entries. *)
Definition public_key_entries (k : HybridPublicKey) : list entry :=
  [EVersion ENVELOPE_VERSION; EKind KIND_PUBLIC_KEY; EProfile (pk_profile k);
   EClassical (pk_classical k); EPostQuantum (pk_post_quantum k)].

Definition signature_entries (s : HybridSignatureEnvelope) : list entry :=
  [EVersion ENVELOPE_VERSION; EKind KIND_SIGNATURE; EProfile (sig_profile (env_signature s));
   EClassical (sig_classical (env_signature s)); EPostQuantum (sig_post_quantum (env_signature s));
   EPurpose (env_purpose s)].

Lemma write_head_acc o m n : write_head o m n = o ++ write_head [] m n.
Proof. rewrite !write_head_cbor. apply write_head_app. Qed.

Lemma write_uint_pair_entry o k n :
  write_uint_pair o k n = o ++ write_head [] 0 k ++ write_head [] 0 n.
Proof. unfold write_uint_pair. rewrite write_head_acc, (write_head_acc o). by rewrite app_assoc. Qed.

Lemma write_text_pair_entry o k s :
  write_text_pair o k s = o ++ write_head [] 0 k ++ text_bytes s.
Proof.
  unfold write_text_pair, text_bytes. rewrite write_head_acc, (write_head_acc o).
  by rewrite <- !app_assoc.
Qed.

Lemma write_bytes_pair_entry o k b :
  write_bytes_pair o k b = o ++ write_head [] 0 k ++ write_head [] 2 (len b) ++ b.
Proof.
  unfold write_bytes_pair. rewrite write_head_acc, (write_head_acc o). by rewrite <- !app_assoc.
Qed.

Lemma encode_public_key_entries k :
  encode_public_key k = envelope_bytes (public_key_entries k).
Proof.
  unfold encode_public_key, envelope_bytes, public_key_entries. cbv zeta.
  rewrite !write_bytes_pair_entry, !write_text_pair_entry, !write_uint_pair_entry, write_head_acc.
  cbn [map concat]. unfold strict_bytes. cbn [sf_key sf_value envelope_fields entry_key entry_value].
  rewrite app_nil_r, <- !app_assoc. reflexivity.
Qed.

Lemma encode_signature_entries s :
  encode_signature s = envelope_bytes (signature_entries s).
Proof.
  unfold encode_signature, envelope_bytes, signature_entries. cbv zeta.
  rewrite !write_text_pair_entry, !write_bytes_pair_entry, !write_uint_pair_entry, write_head_acc.
  cbn [map concat]. unfold strict_bytes. cbn [sf_key sf_value envelope_fields entry_key entry_value].
  rewrite app_nil_r, <- !app_assoc. reflexivity.
Qed.

(** Values the checked constructors return. *)
Definition public_key_valid (k : HybridPublicKey) : Prop :=
  public_key_try_new (pk_profile k) (pk_classical k) (pk_post_quantum k) = Ok k.

Definition signature_valid (s : HybridSignature) : Prop :=
  signature_try_new (sig_profile s) (sig_classical s) (sig_post_quantum s) = Ok s.

Lemma public_key_try_new_inv p c q k :
  public_key_try_new p c q = Ok k ->
  k = {| pk_profile := p; pk_classical := c; pk_post_quantum := q |}
  /\ len c = ES256_PUBLIC_KEY_BYTES /\ len q = ML_DSA_65_PUBLIC_KEY_BYTES.
Proof.
  unfold public_key_try_new, require_len. intros H.
  destruct (len c =? _) eqn:E1; cbn [negb] in H; [|done].
  destruct (require_uncompressed c) as [[]|]; [|done].
  destruct (len q =? _) eqn:E2; cbn [negb] in H; [|done]. bool_prop. by injection H as <-.
Qed.

Lemma signature_try_new_inv p c q s :
  signature_try_new p c q = Ok s ->
  s = {| sig_profile := p; sig_classical := c; sig_post_quantum := q |}
  /\ len c = ES256_SIGNATURE_BYTES /\ len q = ML_DSA_65_SIGNATURE_BYTES.
Proof.
  unfold signature_try_new, require_len. intros H.
  destruct (len c =? _) eqn:E1; cbn [negb] in H; [|done].
  destruct (len q =? _) eqn:E2; cbn [negb] in H; [|done]. bool_prop. by injection H as <-.
Qed.

Lemma len_entry e :
  len (strict_bytes e) <= 18 + match e with
                             | EClassical b | EPostQuantum b => len b
                             | EProfile _ | EPurpose _ => 64
                             | _ => 0
                             end.
Proof.
  unfold strict_bytes. change (sf_key e) with (entry_key e). change (sf_value e) with (entry_value e).
  rewrite len_app.
  pose proof (head_size 0 (entry_key e)).
  destruct e as [n|n|p|b|b|p]; cbn [entry_value].
  - pose proof (head_size 0 n). lia.
  - pose proof (head_size 0 n). lia.
  - assert (len (text_bytes (profile_id p)) <= 73) by by destruct p. lia.
  - rewrite len_app. pose proof (head_size 2 (len b)). lia.
  - rewrite len_app. pose proof (head_size 2 (len b)). lia.
  - assert (len (text_bytes (purpose_id p)) <= 73) by by destruct p. lia.
Qed.

Lemma envelope_fits es limit :
  44 + total (fun e => 18 + match e with
                            | EClassical b | EPostQuantum b => len b
                            | EProfile _ | EPurpose _ => 64
                            | _ => 0
                            end) es <= limit ->
  len (envelope_bytes es) <= limit.
Proof.
  intros H. etransitivity; [apply len_envelope|]. etransitivity; [|exact H].
  apply Z.add_le_mono_l, total_le, List.Forall_forall. intros e _. apply len_entry.
Qed.

Lemma decode_encode_public_key k :
  public_key_valid k -> decode_public_key (encode_public_key k) = Ok k.
Proof.
  intros Hk. pose proof (public_key_try_new_inv _ _ _ _ Hk) as (_ & H1 & H2).
  unfold ES256_PUBLIC_KEY_BYTES, ML_DSA_65_PUBLIC_KEY_BYTES in *.
  rewrite encode_public_key_entries. unfold decode_public_key. rewrite parse_write.
  - cbn. unfold public_key_valid in Hk. rewrite Hk. done.
  - apply envelope_fits. unfold total, MAX_ENVELOPE_BYTES.
    cbn [fold_right public_key_entries signature_entries]. lia.
  - done.
  - done.
  - unfold public_key_entries. repeat constructor; cbn; unfold MAX_ENVELOPE_BYTES; lia.
Qed.

Lemma decode_encode_signature s :
  signature_valid (env_signature s) -> decode_signature (encode_signature s) = Ok s.
Proof.
  intros Hk. pose proof (signature_try_new_inv _ _ _ _ Hk) as (_ & H1 & H2).
  unfold ES256_SIGNATURE_BYTES, ML_DSA_65_SIGNATURE_BYTES in *.
  rewrite encode_signature_entries. unfold decode_signature. rewrite parse_write.
  - cbn. unfold signature_valid in Hk. rewrite Hk. by destruct s.
  - apply envelope_fits. unfold total, MAX_ENVELOPE_BYTES.
    cbn [fold_right public_key_entries signature_entries]. lia.
  - done.
  - done.
  - unfold signature_entries. repeat constructor; cbn; unfold MAX_ENVELOPE_BYTES; lia.
Qed.

Lemma parsed_of_inv fs p :
  parsed_of fs = Ok p ->
  fs = {| f_version := Some ENVELOPE_VERSION; f_kind := Some (kind p);
          f_profile := Some (profile p); f_classical := Some (classical p);
          f_post_quantum := Some (post_quantum p); f_purpose := purpose p |}.
Proof.
  destruct fs as [v k r c q u]. unfold parsed_of. cbn. intros H.
  destruct v as [v|]; cbn in H; [|done].
  destruct (v =? ENVELOPE_VERSION) eqn:E; cbn in H; [|done]. bool_prop. subst v.
  destruct k as [k|]; cbn in H; [|done]. destruct r as [r|]; cbn in H; [|done].
  destruct c as [c|]; cbn in H; [|done]. destruct q as [q|]; cbn in H; [|done].
  by injection H as <-.
Qed.

(** ** Properties *)

(** Public-key envelopes are in bijection with well-formed keys.  An input
    decodes to a key exactly when the checked constructor accepts the key and
    the input is, byte for byte, its encoding: every key round-trips, and no
    non-canonical head, other key order, duplicate, unknown or missing field,
    trailing byte or oversized input is accepted. *)
Theorem public_key_envelope_iff (input : bytes) (k : HybridPublicKey) :
  decode_public_key input = Ok k <-> public_key_valid k /\ input = encode_public_key k.
Proof.
  split; [|intros [H ->]; by apply decode_encode_public_key].
  unfold decode_public_key. intros H. destruct (parse input) as [p|] eqn:Ep; [|done].
  apply parse_inv in Ep as (fs & Ef & ->). apply parsed_of_inv in Ef as ->.
  destruct (kind p =? KIND_PUBLIC_KEY) eqn:Ek; cbn [negb] in H; [|done].
  destruct (purpose p) eqn:Eu; cbn [is_some] in H; [done|]. bool_prop.
  destruct (public_key_try_new _ _ _) as [k'|] eqn:E; cbn [map_err] in H; [|done].
  injection H as ->. pose proof (public_key_try_new_inv _ _ _ _ E) as (-> & _ & _).
  split; [done|]. rewrite encode_public_key_entries, Ek. done.
Qed.

(** Signature envelopes are in bijection with well-formed signatures and
    purposes: an input decodes to an envelope exactly when both component
    signatures have their frozen sizes and the input is the envelope's
    encoding. *)
Theorem signature_envelope_iff (input : bytes) (s : HybridSignatureEnvelope) :
  decode_signature input = Ok s <-> signature_valid (env_signature s) /\ input = encode_signature s.
Proof.
  split; [|intros [H ->]; by apply decode_encode_signature].
  unfold decode_signature. intros H. destruct (parse input) as [p|] eqn:Ep; [|done].
  apply parse_inv in Ep as (fs & Ef & ->). apply parsed_of_inv in Ef as ->.
  destruct (kind p =? KIND_SIGNATURE) eqn:Ek; cbn [negb] in H; [|done].
  destruct (purpose p) as [u|] eqn:Eu; cbn [ok_or] in H; [|done]. bool_prop.
  destruct (signature_try_new _ _ _) as [s'|] eqn:E; cbn [map_err] in H; [|done].
  injection H as <-. pose proof (signature_try_new_inv _ _ _ _ E) as (-> & _ & _).
  split; [done|]. rewrite encode_signature_entries, Ek. done.
Qed.
