(* ===== verification/HybridWrapper.v ===== *)
(** * The hybrid credential wrapper (crates/hybrid-pq/src/wrapper.rs)

    The experimental credential container: checked construction, the committed
    payload both signatures cover, encoder, decoder and verification.  The
    theorems: the decoder accepts exactly the encodings of well-formed wrappers;
    equal to-be-signed bytes have equal purpose, payload, disclosures and
    context; and a short input makes the decoder panic, since it reserves memory
    for as many disclosures as the input announces. *)

From S2P Require Import Prelude Utf8 Cbor Boundary HybridPq HybridTbs HybridEnvelope.

Open Scope Z_scope.
Open Scope rust_scope.

Definition WRAPPER_VERSION : Z := 1.
Definition CREDENTIAL_FORMAT : string := "dev-hybrid-pq+cbor".
Definition MAX_WRAPPER_BYTES : Z := 64 * 1024.
Definition MAX_PAYLOAD_BYTES : Z := 4096.
Definition MAX_COMMITTED_PAYLOAD_BYTES : Z := 4096.
Definition MAX_KEY_ID_BYTES : Z := 128.

Definition KEY_VERSION : Z := 1.
Definition KEY_PROFILE : Z := 2.
Definition KEY_PURPOSE : Z := 3.
Definition KEY_FORMAT : Z := 4.
Definition KEY_PAYLOAD : Z := 5.
Definition KEY_DISCLOSURES : Z := 6.
Definition KEY_CLASSICAL_KEY_ID : Z := 7.
Definition KEY_PQ_KEY_ID : Z := 8.
Definition KEY_GENERATION : Z := 9.
Definition KEY_CLASSICAL_SIGNATURE : Z := 10.
Definition KEY_POST_QUANTUM_SIGNATURE : Z := 11.
Definition WRAPPER_FIELDS : Z := 11.

Record HybridCredentialWrapper : Type := {
  purpose : HybridPurpose;
  payload : bytes;
  disclosures : list bytes;
  classical_key_id : string;
  pq_key_id : string;
  generation : Z;
  signature : HybridSignature;
}.

Record WrapperBinding : Type := {
  b_classical_key_id : string;
  b_pq_key_id : string;
  b_generation : Z;
}.

(** ** Construction *)

Definition is_wrapper_purpose (purpose : HybridPurpose) : bool :=
  match purpose with TestSdJwtWrapperV1 | TestMdocWrapperV1 => true | _ => false end.

Definition validate_key_id (value : string) : result unit HybridCryptoError :=
  if sis_empty value then Err NonCanonicalInput
  else if MAX_KEY_ID_BYTES <? slen value then Err ResourceLimitExceeded
  else Ok tt.

(** [for disclosure in disclosures], as it is written. *)
Definition write_disclosures (output : bytes) (ds : list bytes) : bytes :=
  fold_left (fun output d => write_head output 2 (len d) ++ d) ds output.

Definition committed_payload (payload : bytes) (disclosures : list bytes) : bytes :=
  let output := write_head [] 5 2 in
  let output := write_bytes_pair output 1 payload in
  let output := write_head output 0 2 in
  let output := write_head output 4 (len disclosures) in
  write_disclosures output disclosures.

Fixpoint check_disclosures (ds : list bytes) : result unit HybridCryptoError :=
  match ds with
  | [] => Ok tt
  | d :: ds =>
      if is_empty d then Err NonCanonicalInput
      else if MAX_PAYLOAD_BYTES <? len d then Err ResourceLimitExceeded
      else check_disclosures ds
  end.

Definition try_new (purpose : HybridPurpose) (payload : bytes) (disclosures : list bytes)
  (classical_key_id pq_key_id : string) (generation : Z) (signature : HybridSignature)
  : result HybridCredentialWrapper HybridCryptoError :=
  if negb (is_wrapper_purpose purpose) then Err PolicyDenied
  else if is_empty payload then Err NonCanonicalInput
  else if MAX_PAYLOAD_BYTES <? len payload then Err ResourceLimitExceeded
  else
  let? _ := check_disclosures disclosures in
  let? _ := validate_key_id classical_key_id in
  let? _ := validate_key_id pq_key_id in
  if generation =? 0 then Err (Mismatch MismatchGeneration)
  else if MAX_COMMITTED_PAYLOAD_BYTES <? len (committed_payload payload disclosures)
  then Err ResourceLimitExceeded
  else Ok {| purpose := purpose; payload := payload; disclosures := disclosures;
             classical_key_id := classical_key_id; pq_key_id := pq_key_id;
             generation := generation; signature := signature |}.

Definition tbs (self : HybridCredentialWrapper) (context : HybridContext)
  : result bytes HybridCryptoError :=
  build (sig_profile (signature self)) (purpose self) context
    (committed_payload (payload self) (disclosures self)).

(** ** Encoder *)

Definition encode_credential_wrapper (wrapper : HybridCredentialWrapper) : bytes :=
  let signature := signature wrapper in
  let output := MAGIC_PREFIX in
  let output := write_head output 5 WRAPPER_FIELDS in
  let output := write_uint_pair output KEY_VERSION WRAPPER_VERSION in
  let output := write_text_pair output KEY_PROFILE (profile_id (sig_profile signature)) in
  let output := write_text_pair output KEY_PURPOSE (purpose_id (purpose wrapper)) in
  let output := write_text_pair output KEY_FORMAT CREDENTIAL_FORMAT in
  let output := write_bytes_pair output KEY_PAYLOAD (payload wrapper) in
  let output := write_head output 0 KEY_DISCLOSURES in
  let output := write_head output 4 (len (disclosures wrapper)) in
  let output := write_disclosures output (disclosures wrapper) in
  let output := write_text_pair output KEY_CLASSICAL_KEY_ID (classical_key_id wrapper) in
  let output := write_text_pair output KEY_PQ_KEY_ID (pq_key_id wrapper) in
  let output := write_uint_pair output KEY_GENERATION (generation wrapper) in
  let output := write_bytes_pair output KEY_CLASSICAL_SIGNATURE (sig_classical signature) in
  write_bytes_pair output KEY_POST_QUANTUM_SIGNATURE (sig_post_quantum signature).

(** ** Decoder *)

(** An error value, or the panic of [Vec::with_capacity]. *)
Inductive failure : Type :=
| Rejected (e : EnvelopeError)
| CapacityOverflow.

(** [Vec::with_capacity(n)] of a [Vec<Vec<u8>>], whose elements have 24 bytes:
    it panics when the allocation would exceed [isize::MAX] bytes.  (Below that
    an allocation can still fail, which aborts the process; the model lets it
    succeed.) *)
Definition VEC_BYTES : Z := 24.

Definition with_capacity (n : Z) : result unit failure :=
  if n * VEC_BYTES <=? I64_MAX then Ok tt else Err CapacityOverflow.

Definition read_key_id (bs : bytes) : result (string * bytes) EnvelopeError :=
  let? (b, rest) := read_string 3 MAX_KEY_ID_BYTES bs in
  if is_empty b then Err EnvelopeError.EmptyField
  else let? s := ok_or (from_utf8 b) EnvelopeError.InvalidUtf8 in Ok (s, rest).

(** A byte string of at most [MAX_PAYLOAD_BYTES] that is not empty. *)
Definition read_payload (bs : bytes) : result (bytes * bytes) EnvelopeError :=
  let? (value, rest) := read_string 2 MAX_PAYLOAD_BYTES bs in
  if is_empty value then Err EnvelopeError.EmptyField else Ok (value, rest).

(** [for _ in 0..count]; fuel as in [read_entries]. *)
Fixpoint read_disclosures (fuel : nat) (n : Z) (bs : bytes)
  : result (list bytes * bytes) EnvelopeError :=
  if n =? 0 then Ok ([], bs)
  else match fuel with
       | O => Err EnvelopeError.Truncated
       | S fuel =>
           let? (value, rest) := read_payload bs in
           let? (ds, rest) := read_disclosures fuel (n - 1) rest in
           Ok (value :: ds, rest)
       end.

(** The mutable locals of the loop. *)
Record Fields : Type := {
  f_version : option Z;
  f_profile : option HybridSignatureProfile;
  f_purpose : option HybridPurpose;
  f_format_seen : bool;
  f_payload : option bytes;
  f_disclosures : option (list bytes);
  f_classical_key_id : option string;
  f_pq_key_id : option string;
  f_generation : option Z;
  f_classical_signature : option bytes;
  f_post_quantum_signature : option bytes;
}.

Definition no_fields : Fields :=
  {| f_version := None; f_profile := None; f_purpose := None; f_format_seen := false;
     f_payload := None; f_disclosures := None; f_classical_key_id := None; f_pq_key_id := None;
     f_generation := None; f_classical_signature := None; f_post_quantum_signature := None |}.

(** The [match key] of one iteration: what was read. *)
Inductive field : Type :=
| Version (n : Z)
| Profile (p : HybridSignatureProfile)
| Purpose (p : HybridPurpose)
| Format
| Payload (b : bytes)
| Disclosures (l : list bytes)
| ClassicalKeyId (s : string)
| PqKeyId (s : string)
| Generation (n : Z)
| ClassicalSignature (b : bytes)
| PostQuantumSignature (b : bytes).

Definition rejected {A} (r : result A EnvelopeError) : result A failure := map_err r Rejected.

Definition read_value (key : Z) (bs : bytes) : result (field * bytes) failure :=
  if key =? KEY_VERSION then
    let? (x, rest) := rejected (read_uint bs) in Ok (Version x, rest)
  else if key =? KEY_PROFILE then
    let? (x, rest) := rejected (read_text bs) in
    let? p := map_err (profile_try_from x) (fun _ => Rejected EnvelopeError.UnsupportedProfile) in
    Ok (Profile p, rest)
  else if key =? KEY_PURPOSE then
    let? (x, rest) := rejected (read_text bs) in
    let? p := map_err (purpose_try_from x) (fun _ => Rejected EnvelopeError.UnsupportedPurpose) in
    if negb (is_wrapper_purpose p) then Err (Rejected EnvelopeError.UnsupportedPurpose)
    else Ok (Purpose p, rest)
  else if key =? KEY_FORMAT then
    let? (x, rest) := rejected (read_text bs) in
    if negb (bool_decide (x = CREDENTIAL_FORMAT)) then Err (Rejected EnvelopeError.UnsupportedFormat)
    else Ok (Format, rest)
  else if key =? KEY_PAYLOAD then
    let? (x, rest) := rejected (read_payload bs) in Ok (Payload x, rest)
  else if key =? KEY_DISCLOSURES then
    let? (major, count, rest) := rejected (read_head bs) in
    if negb (major =? 4) then Err (Rejected EnvelopeError.WrongType)
    else
    let? _ := with_capacity count in
    let? (ds, rest) := rejected (read_disclosures (S (length rest)) count rest) in
    Ok (Disclosures ds, rest)
  else if key =? KEY_CLASSICAL_KEY_ID then
    let? (x, rest) := rejected (read_key_id bs) in Ok (ClassicalKeyId x, rest)
  else if key =? KEY_PQ_KEY_ID then
    let? (x, rest) := rejected (read_key_id bs) in Ok (PqKeyId x, rest)
  else if key =? KEY_GENERATION then
    let? (x, rest) := rejected (read_uint bs) in
    if x =? 0 then Err (Rejected EnvelopeError.ZeroGeneration) else Ok (Generation x, rest)
  else if key =? KEY_CLASSICAL_SIGNATURE then
    let? (x, rest) := rejected (read_string 2 ES256_SIGNATURE_BYTES bs) in
    Ok (ClassicalSignature x, rest)
  else if key =? KEY_POST_QUANTUM_SIGNATURE then
    let? (x, rest) := rejected (read_string 2 ML_DSA_65_SIGNATURE_BYTES bs) in
    Ok (PostQuantumSignature x, rest)
  else Err (Rejected EnvelopeError.UnknownField).

(** The assignment to the local. *)
Definition assign (fs : Fields) (x : field) : Fields :=
  let '{| f_version := v; f_profile := p; f_purpose := u; f_format_seen := t; f_payload := y;
          f_disclosures := d; f_classical_key_id := c; f_pq_key_id := q; f_generation := g;
          f_classical_signature := s; f_post_quantum_signature := z |} := fs in
  match x with
  | Version x => Build_Fields (Some x) p u t y d c q g s z
  | Profile x => Build_Fields v (Some x) u t y d c q g s z
  | Purpose x => Build_Fields v p (Some x) t y d c q g s z
  | Format => Build_Fields v p u true y d c q g s z
  | Payload x => Build_Fields v p u t (Some x) d c q g s z
  | Disclosures x => Build_Fields v p u t y (Some x) c q g s z
  | ClassicalKeyId x => Build_Fields v p u t y d (Some x) q g s z
  | PqKeyId x => Build_Fields v p u t y d c (Some x) g s z
  | Generation x => Build_Fields v p u t y d c q (Some x) s z
  | ClassicalSignature x => Build_Fields v p u t y d c q g (Some x) z
  | PostQuantumSignature x => Build_Fields v p u t y d c q g s (Some x)
  end.

Definition read_field (key : Z) (fs : Fields) (bs : bytes) : result (Fields * bytes) failure :=
  let? (x, rest) := read_value key bs in Ok (assign fs x, rest).

Definition missing {A} (o : option A) : result A EnvelopeError := ok_or o EnvelopeError.MissingField.

(** The checks after the loop. *)
Definition finish (fs : Fields) (rest : bytes) : result HybridCredentialWrapper EnvelopeError :=
  if negb (is_empty rest) then Err EnvelopeError.TrailingBytes
  else
  let? version := missing (f_version fs) in
  if negb (version =? WRAPPER_VERSION) then Err EnvelopeError.UnsupportedVersion
  else if negb (f_format_seen fs) then Err EnvelopeError.MissingField
  else
  let? profile := missing (f_profile fs) in
  let? c := missing (f_classical_signature fs) in
  let? q := missing (f_post_quantum_signature fs) in
  let? signature := map_err (signature_try_new profile c q)
                      (fun _ => EnvelopeError.MalformedComponent) in
  let? purpose := missing (f_purpose fs) in
  let? payload := missing (f_payload fs) in
  let? disclosures := missing (f_disclosures fs) in
  let? classical_key_id := missing (f_classical_key_id fs) in
  let? pq_key_id := missing (f_pq_key_id fs) in
  let? generation := missing (f_generation fs) in
  map_err (try_new purpose payload disclosures classical_key_id pq_key_id generation signature)
    map_component_error.

Definition decode_credential_wrapper (input : bytes) : result HybridCredentialWrapper failure :=
  if MAX_WRAPPER_BYTES <? len input then Err (Rejected EnvelopeError.TooLarge)
  else
  let? cbor := rejected (ok_or (strip_prefix MAGIC_PREFIX input) EnvelopeError.BadPrefix) in
  let? (major, entries, rest) := rejected (read_head cbor) in
  if negb (major =? 5) then Err (Rejected EnvelopeError.WrongType)
  else
  let? (fs, rest) := read_entries Rejected read_field (S (length rest)) entries None no_fields rest in
  rejected (finish fs rest).

(** ** Verification *)

Class HybridVerifier : Type := {
  verify_hybrid : HybridPublicKey -> bytes -> HybridSignature -> result unit HybridCryptoError;
}.

Definition verify_credential_wrapper `{HybridVerifier} (wrapper : HybridCredentialWrapper)
  (expected_purpose : HybridPurpose) (binding : WrapperBinding) (context : HybridContext)
  (public_key : HybridPublicKey) : result unit HybridCryptoError :=
  if negb (bool_decide (purpose wrapper = expected_purpose)) then Err PolicyDenied
  else if negb (bool_decide (classical_key_id wrapper = b_classical_key_id binding))
       || negb (bool_decide (pq_key_id wrapper = b_pq_key_id binding))
  then Err (Mismatch MismatchIdentity)
  else if negb (generation wrapper =? b_generation binding)
       || negb (key_generation context =? b_generation binding)
  then Err (Mismatch MismatchGeneration)
  else
  let? t := tbs wrapper context in
  verify_hybrid public_key t (signature wrapper).

(** ** What is written *)

Definition bytes_value (b : bytes) : bytes := write_head [] 2 (len b) ++ b.

Definition disclosures_value (ds : list bytes) : bytes :=
  write_head [] 4 (len ds) ++ concat (map bytes_value ds).

Lemma write_disclosures_app ds o : write_disclosures o ds = o ++ concat (map bytes_value ds).
Proof.
  revert o. induction ds as [|d ds IH]; intros o; [by rewrite app_nil_r|].
  cbn [map concat]. unfold write_disclosures in *. cbn [fold_left]. rewrite IH.
  rewrite (write_head_acc o). unfold bytes_value at 2. by rewrite <- !app_assoc.
Qed.

(** The committed payload is the canonical CBOR map of its documentation. *)
Lemma committed_payload_canonical p ds :
  committed_payload p ds = to_canonical (Map [(Uint 1, Bytes p); (Uint 2, Array (map Bytes ds))]).
Proof.
  rewrite to_canonical_Map_ascending by reflexivity. cbn [map concat]. rewrite app_nil_r.
  unfold committed_payload. cbv zeta. rewrite write_disclosures_app, write_bytes_pair_entry.
  rewrite (write_head_acc _ 4), (write_head_acc _ 0 2).
  unfold pair_bytes, encode_pair. cbn [fst snd]. rewrite to_canonical_Array, map_map.
  unfold len at 4. rewrite length_map.
  replace (map (fun x => to_canonical (Bytes x)) ds) with (map bytes_value ds)
    by (apply map_ext; intros; reflexivity).
  change (to_canonical (Bytes p)) with (write_head [] 2 (len p) ++ p).
  rewrite <- !app_assoc. reflexivity.
Qed.

Definition field_key (x : field) : Z :=
  match x with
  | Version _ => KEY_VERSION
  | Profile _ => KEY_PROFILE
  | Purpose _ => KEY_PURPOSE
  | Format => KEY_FORMAT
  | Payload _ => KEY_PAYLOAD
  | Disclosures _ => KEY_DISCLOSURES
  | ClassicalKeyId _ => KEY_CLASSICAL_KEY_ID
  | PqKeyId _ => KEY_PQ_KEY_ID
  | Generation _ => KEY_GENERATION
  | ClassicalSignature _ => KEY_CLASSICAL_SIGNATURE
  | PostQuantumSignature _ => KEY_POST_QUANTUM_SIGNATURE
  end.

Definition field_value (x : field) : bytes :=
  match x with
  | Version n | Generation n => write_head [] 0 n
  | Profile p => text_bytes (profile_id p)
  | Purpose p => text_bytes (purpose_id p)
  | Format => text_bytes CREDENTIAL_FORMAT
  | Payload b | ClassicalSignature b | PostQuantumSignature b => bytes_value b
  | Disclosures ds => disclosures_value ds
  | ClassicalKeyId s | PqKeyId s => text_bytes s
  end.

Definition payload_ok (b : bytes) : Prop := is_empty b = false /\ len b <= MAX_PAYLOAD_BYTES.

Definition key_id_ok (s : string) : Prop :=
  is_str s = true /\ sis_empty s = false /\ slen s <= MAX_KEY_ID_BYTES.

Definition field_ok (x : field) : Prop :=
  match x with
  | Version n => is_u64 n = true
  | Profile _ | Format => True
  | Purpose p => is_wrapper_purpose p = true
  | Payload b => payload_ok b
  | Disclosures ds => Forall payload_ok ds /\ len ds * VEC_BYTES <= I64_MAX
  | ClassicalKeyId s | PqKeyId s => key_id_ok s
  | Generation n => is_u64 n = true /\ n <> 0
  | ClassicalSignature b => len b <= ES256_SIGNATURE_BYTES
  | PostQuantumSignature b => len b <= ML_DSA_65_SIGNATURE_BYTES
  end.

(** ** Reading what was written, and nothing else *)

Lemma bytes_value_app b r : bytes_value b ++ r = write_head [] 2 (len b) ++ b ++ r.
Proof. unfold bytes_value. by rewrite app_assoc. Qed.

Lemma read_bytes_value limit b rest :
  len b <= limit -> limit <= U64_MAX -> read_string 2 limit (bytes_value b ++ rest) = Ok (b, rest).
Proof. intros. rewrite bytes_value_app. by apply read_string_write. Qed.

Lemma read_payload_write b rest : payload_ok b -> read_payload (bytes_value b ++ rest) = Ok (b, rest).
Proof.
  intros [He Hl]. unfold read_payload. rewrite read_bytes_value by done. by rewrite He.
Qed.

Lemma read_payload_inv bs b rest :
  read_payload bs = Ok (b, rest) -> payload_ok b /\ bs = bytes_value b ++ rest.
Proof.
  unfold read_payload. intros H. destruct (read_string 2 _ bs) as [[x r]|] eqn:E; [|done].
  apply read_string_inv in E as [-> Hl]. destruct (is_empty x) eqn:Ee; [done|].
  injection H as <- <-. by rewrite bytes_value_app.
Qed.

Lemma read_key_id_write s rest : key_id_ok s -> read_key_id (text_bytes s ++ rest) = Ok (s, rest).
Proof.
  intros (Hs & He & Hl). unfold read_key_id. rewrite text_bytes_app. unfold slen.
  rewrite read_string_write by (done || lia). unfold sis_empty in He. rewrite He.
  unfold from_utf8, is_str in *. rewrite Hs. cbn [ok_or]. unfold as_bytes.
  by rewrite string_of_list_byte_of_string.
Qed.

Lemma read_key_id_inv bs s rest :
  read_key_id bs = Ok (s, rest) -> key_id_ok s /\ bs = text_bytes s ++ rest.
Proof.
  unfold read_key_id. intros H. destruct (read_string 3 _ bs) as [[x r]|] eqn:E; [|done].
  apply read_string_inv in E as [-> Hl]. destruct (is_empty x) eqn:Ee; [done|].
  unfold from_utf8 in H. destruct (utf8_valid x) eqn:Eu; cbn [ok_or] in H; [|done].
  injection H as <- <-. unfold key_id_ok, is_str, sis_empty, slen.
  rewrite text_bytes_app. unfold slen. by rewrite !as_bytes_of_list.
Qed.

Lemma bytes_value_length b : (1 <= length (bytes_value b))%nat.
Proof. unfold bytes_value. rewrite length_app. pose proof (write_head_length 2 (len b)). lia. Qed.

Lemma read_payload_shorter bs b rest :
  read_payload bs = Ok (b, rest) -> (length rest < length bs)%nat.
Proof.
  intros H. apply read_payload_inv in H as [_ ->]. rewrite length_app.
  pose proof (bytes_value_length b). lia.
Qed.

Lemma read_disclosures_fuel f g n bs :
  (length bs < f)%nat -> (length bs < g)%nat -> read_disclosures f n bs = read_disclosures g n bs.
Proof.
  revert g n bs. induction f as [|f IH]; intros g n bs Hf Hg; [lia|].
  destruct g as [|g]; [lia|]. cbn [read_disclosures]. case_match; [done|].
  destruct (read_payload bs) as [[v r]|] eqn:E; [|done]. apply read_payload_shorter in E.
  by rewrite (IH g) by lia.
Qed.

(** The model's loop is the source's [for _ in 0..count], for any count. *)
Lemma read_disclosures_unfold n bs :
  read_disclosures (S (length bs)) n bs =
  if n =? 0 then Ok ([], bs)
  else let? (value, rest) := read_payload bs in
       let? (ds, rest) := read_disclosures (S (length rest)) (n - 1) rest in
       Ok (value :: ds, rest).
Proof.
  cbn [read_disclosures]. case_match; [done|].
  destruct (read_payload bs) as [[v r]|] eqn:E; [|done]. apply read_payload_shorter in E.
  rewrite (read_disclosures_fuel (length bs) (S (length r))) by lia. done.
Qed.

Lemma read_disclosures_write ds fuel rest :
  (length ds <= fuel)%nat -> Forall payload_ok ds ->
  read_disclosures fuel (len ds) (concat (map bytes_value ds) ++ rest) = Ok (ds, rest).
Proof.
  revert fuel. induction ds as [|d ds IH]; intros fuel Hf Ho; [by destruct fuel|].
  destruct fuel as [|fuel]; cbn [length] in Hf; [lia|]. inversion Ho; subst.
  cbn [read_disclosures map concat]. rewrite len_cons. pose proof (len_nonneg ds).
  assert (1 + len ds =? 0 = false) as -> by lia.
  rewrite <- app_assoc, read_payload_write by done.
  replace (1 + len ds - 1) with (len ds) by lia. rewrite IH by (done || lia). done.
Qed.

Lemma read_disclosures_inv fuel n bs ds rest :
  0 <= n -> read_disclosures fuel n bs = Ok (ds, rest) ->
  bs = concat (map bytes_value ds) ++ rest /\ len ds = n /\ Forall payload_ok ds.
Proof.
  revert n bs ds. induction fuel as [|fuel IH]; intros n bs ds Hn H; cbn [read_disclosures] in H;
    (destruct (n =? 0) eqn:E0; [bool_prop; by simplify_eq|]); [done|].
  destruct (read_payload bs) as [[v r]|] eqn:E; [|done]. apply read_payload_inv in E as [Hv ->].
  destruct (read_disclosures fuel (n - 1) r) as [[ds' r']|] eqn:E; [|done]. bool_prop. simplify_eq.
  apply IH in E as (-> & El & Hok); [|lia].
  cbn [map concat]. rewrite <- app_assoc, len_cons. split_and!; [done|lia|by constructor].
Qed.

Lemma length_disclosures ds : (length ds <= length (concat (map bytes_value ds)))%nat.
Proof.
  induction ds as [|d ds IH]; [done|]. cbn [map concat length]. rewrite length_app.
  pose proof (bytes_value_length d). lia.
Qed.

Lemma read_value_write x rest :
  field_ok x -> read_value (field_key x) (field_value x ++ rest) = Ok (x, rest).
Proof.
  intros H. destruct x; cbn [field_key field_value field_ok] in *;
    unfold read_value, rejected; cbn [Z.eqb Pos.eqb KEY_VERSION KEY_PROFILE KEY_PURPOSE KEY_FORMAT
      KEY_PAYLOAD KEY_DISCLOSURES KEY_CLASSICAL_KEY_ID KEY_PQ_KEY_ID KEY_GENERATION
      KEY_CLASSICAL_SIGNATURE KEY_POST_QUANTUM_SIGNATURE].
  - by rewrite read_uint_write.
  - rewrite text_bytes_app, read_text_write by (by destruct p). by destruct p.
  - rewrite text_bytes_app, read_text_write by (by destruct p).
    cbn [map_err]. rewrite (proj2 (purpose_try_from_id _ p)) by done. cbn [map_err]. by rewrite H.
  - by rewrite text_bytes_app, read_text_write by done.
  - by rewrite read_payload_write.
  - destruct H as [Hd Hc]. unfold disclosures_value. rewrite <- app_assoc.
    rewrite read_head_write; [|lia|].
    + cbn [map_err Z.eqb Pos.eqb negb]. unfold with_capacity.
      assert (len l * VEC_BYTES <=? I64_MAX = true) as -> by lia.
      rewrite read_disclosures_write; [done| |done]. pose proof (length_disclosures l).
      rewrite length_app. lia.
    + unfold is_u64, U64_MAX, VEC_BYTES, I64_MAX in *. pose proof (len_nonneg l). lia.
  - by rewrite read_key_id_write.
  - by rewrite read_key_id_write.
  - destruct H as [Hu Hz]. rewrite read_uint_write by done. cbn [map_err].
    by assert (n =? 0 = false) as -> by lia.
  - by rewrite read_bytes_value.
  - by rewrite read_bytes_value.
Qed.

Ltac key_case H K E :=
  match type of H with
  | (if ?k =? ?c then _ else _) = _ => destruct (k =? c) eqn:K; [apply Z.eqb_eq in K; subst k|]
  end.

Lemma rejected_Ok {A} (r : result A EnvelopeError) a : rejected r = Ok a <-> r = Ok a.
Proof. destruct r; cbn; split; congruence. Qed.

Lemma read_value_inv key bs x rest :
  read_value key bs = Ok (x, rest) ->
  key = field_key x /\ field_ok x /\ bs = field_value x ++ rest.
Proof.
  unfold read_value. intros H.
  key_case H K E. { destruct (read_uint bs) as [[y r]|] eqn:E; [|done].
    apply read_uint_inv in E as [-> ?]. by simplify_eq/=. }
  key_case H K1 E. { destruct (read_text bs) as [[y r]|] eqn:E; [|done]. cbn [rejected map_err] in H.
    apply read_text_inv in E as ->. destruct (profile_try_from y) as [p|] eqn:Ep; [|done].
    apply profile_try_from_id in Ep as ->. cbn [map_err] in H. simplify_eq.
    cbn [field_value]. by rewrite text_bytes_app. }
  key_case H K2 E. { destruct (read_text bs) as [[y r]|] eqn:E; [|done]. cbn [rejected map_err] in H.
    apply read_text_inv in E as ->. destruct (purpose_try_from y) as [p|] eqn:Ep; [|done].
    apply purpose_try_from_id in Ep as ->. cbn [map_err] in H.
    destruct (is_wrapper_purpose p) eqn:Ew; cbn [negb] in H; simplify_eq.
    cbn [field_value]. by rewrite text_bytes_app. }
  key_case H K3 E. { destruct (read_text bs) as [[y r]|] eqn:E; [|done]. cbn [rejected map_err] in H.
    apply read_text_inv in E as ->. case_bool_decide; cbn [negb] in H; simplify_eq.
    cbn [field_value]. by rewrite text_bytes_app. }
  key_case H K4 E. { destruct (read_payload bs) as [[y r]|] eqn:E; [|done].
    apply read_payload_inv in E as [? ->]. by simplify_eq/=. }
  key_case H K5 E. { destruct (read_head bs) as [[[m n] r]|] eqn:E; [|done]. cbn [rejected map_err] in H.
    apply read_head_shape in E as (-> & _ & Hn). destruct (m =? 4) eqn:Em; cbn [negb] in H; [|done].
    unfold with_capacity in H. destruct (n * VEC_BYTES <=? I64_MAX) eqn:Ec; [|done].
    destruct (read_disclosures _ n r) as [[ds r']|] eqn:Ed; [|done]. unfold is_u64 in Hn. bool_prop.
    apply read_disclosures_inv in Ed as (-> & El & Hok); [|done]. cbn [rejected map_err] in H.
    simplify_eq. cbn [field_value]. unfold disclosures_value. rewrite <- app_assoc. done. }
  key_case H K6 E. { destruct (read_key_id bs) as [[y r]|] eqn:E; [|done].
    apply read_key_id_inv in E as [? ->]. by simplify_eq/=. }
  key_case H K7 E. { destruct (read_key_id bs) as [[y r]|] eqn:E; [|done].
    apply read_key_id_inv in E as [? ->]. by simplify_eq/=. }
  key_case H K8 E. { destruct (read_uint bs) as [[y r]|] eqn:E; [|done]. cbn [rejected map_err] in H.
    apply read_uint_inv in E as [-> ?]. destruct (y =? 0) eqn:Ey; [done|]. bool_prop. by simplify_eq/=. }
  key_case H K9 E. { destruct (read_string _ _ bs) as [[y r]|] eqn:E; [|done].
    apply read_string_inv in E as [-> ?]. simplify_eq/=. by rewrite bytes_value_app. }
  key_case H K10 E; [|done]. destruct (read_string _ _ bs) as [[y r]|] eqn:E; [|done].
  apply read_string_inv in E as [-> ?]. simplify_eq/=. by rewrite bytes_value_app.
Qed.

(** ** The fields in key order *)

Definition opt_field {A} (f : A -> field) (o : option A) : list field :=
  match o with Some a => [f a] | None => [] end.

Definition fields_of (fs : Fields) : list field :=
  opt_field Version (f_version fs) ++ opt_field Profile (f_profile fs)
  ++ opt_field Purpose (f_purpose fs)
  ++ opt_field (fun _ => Format) (if f_format_seen fs then Some tt else None)
  ++ opt_field Payload (f_payload fs) ++ opt_field Disclosures (f_disclosures fs)
  ++ opt_field ClassicalKeyId (f_classical_key_id fs) ++ opt_field PqKeyId (f_pq_key_id fs)
  ++ opt_field Generation (f_generation fs)
  ++ opt_field ClassicalSignature (f_classical_signature fs)
  ++ opt_field PostQuantumSignature (f_post_quantum_signature fs).

(** A field at or above the key is absent. *)
Ltac absent :=
  match goal with
  | H : forallb _ (opt_field _ (if ?b then _ else _)) = true |- _ =>
      destruct b; [discriminate H|]; clear H
  | H : forallb _ (opt_field _ ?o) = true |- _ =>
      is_var o; destruct o; [discriminate H|]; clear H
  end.

Lemma fields_of_assign fs x :
  forallb (fun y => field_key y <? field_key x) (fields_of fs) = true ->
  fields_of (assign fs x) = fields_of fs ++ [x].
Proof.
  destruct fs as [v p u t y d c q g s z]. unfold fields_of.
  cbn [f_version f_profile f_purpose f_format_seen f_payload f_disclosures f_classical_key_id
    f_pq_key_id f_generation f_classical_signature f_post_quantum_signature].
  rewrite !forallb_app. intros H. bool_prop.
  destruct x; cbn [field_key] in *; repeat absent;
    cbn [assign f_version f_profile f_purpose f_format_seen f_payload f_disclosures
      f_classical_key_id f_pq_key_id f_generation f_classical_signature
      f_post_quantum_signature opt_field app];
    rewrite ?app_nil_r, <- ?app_assoc; reflexivity.
Qed.

Lemma field_key_u64 x : is_u64 (field_key x) = true.
Proof. by destruct x. Qed.

Lemma wrapper_read_write fs x rest :
  field_ok x -> read_field (field_key x) fs (field_value x ++ rest) = Ok (assign fs x, rest).
Proof. intros H. unfold read_field. by rewrite read_value_write. Qed.

Lemma wrapper_read_inv key fs bs fs' rest :
  read_field key fs bs = Ok (fs', rest) ->
  exists x, key = field_key x /\ field_ok x /\ bs = field_value x ++ rest /\ fs' = assign fs x.
Proof.
  unfold read_field. intros H. destruct (read_value key bs) as [[x r]|] eqn:E; [|done].
  apply read_value_inv in E as (-> & Hx & ->). exists x. by simplify_eq.
Qed.

#[export] Instance wrapper_fields : StrictFields field Fields failure read_field := {|
  sf_key := field_key; sf_value := field_value; sf_ok := field_ok; sf_set := assign;
  sf_entries := fields_of; sf_key_u64 := field_key_u64; sf_read_write := wrapper_read_write;
  sf_read_inv := wrapper_read_inv; sf_entries_set := fields_of_assign;
|}.

(** ** Well-formed wrappers *)

Definition wrapper_valid (w : HybridCredentialWrapper) : Prop :=
  try_new (purpose w) (payload w) (disclosures w) (classical_key_id w) (pq_key_id w)
    (generation w) (signature w) = Ok w
  /\ signature_valid (signature w)
  /\ is_str (classical_key_id w) = true /\ is_str (pq_key_id w) = true
  /\ is_u64 (generation w) = true.

Definition wrapper_entries (w : HybridCredentialWrapper) : list field :=
  [Version WRAPPER_VERSION; Profile (sig_profile (signature w)); Purpose (purpose w); Format;
   Payload (payload w); Disclosures (disclosures w); ClassicalKeyId (classical_key_id w);
   PqKeyId (pq_key_id w); Generation (generation w);
   ClassicalSignature (sig_classical (signature w));
   PostQuantumSignature (sig_post_quantum (signature w))].

Lemma encode_wrapper_entries w :
  encode_credential_wrapper w = envelope_bytes (wrapper_entries w).
Proof.
  unfold encode_credential_wrapper, envelope_bytes, wrapper_entries. cbv zeta.
  rewrite !write_bytes_pair_entry, !write_uint_pair_entry, !write_text_pair_entry,
    write_disclosures_app, (write_head_acc _ 4), (write_head_acc _ 0 KEY_DISCLOSURES),
    (write_head_acc _ 5 WRAPPER_FIELDS).
  cbn [map concat]. unfold strict_bytes.
  cbn [sf_key sf_value wrapper_fields field_key field_value].
  unfold disclosures_value, bytes_value. rewrite app_nil_r, <- !app_assoc. reflexivity.
Qed.

Lemma check_disclosures_ok ds : check_disclosures ds = Ok tt -> Forall payload_ok ds.
Proof.
  induction ds as [|d ds IH]; intros H; [constructor|]. cbn in H.
  destruct (is_empty d) eqn:E; [done|]. destruct (_ <? _) eqn:El; [done|]. bool_prop.
  constructor; [done|auto].
Qed.

Lemma validate_key_id_ok s : is_str s = true -> validate_key_id s = Ok tt -> key_id_ok s.
Proof.
  unfold validate_key_id, key_id_ok. intros Hs H. destruct (sis_empty s); [done|].
  destruct (_ <? _) eqn:E; [done|]. bool_prop. done.
Qed.

Lemma try_new_inv u p ds c q g s w :
  try_new u p ds c q g s = Ok w ->
  w = {| purpose := u; payload := p; disclosures := ds; classical_key_id := c; pq_key_id := q;
         generation := g; signature := s |}
  /\ is_wrapper_purpose u = true /\ payload_ok p /\ Forall payload_ok ds
  /\ validate_key_id c = Ok tt /\ validate_key_id q = Ok tt /\ g <> 0
  /\ len (committed_payload p ds) <= MAX_COMMITTED_PAYLOAD_BYTES.
Proof.
  unfold try_new. intros H. destruct (is_wrapper_purpose u) eqn:E1; cbn [negb] in H; [|done].
  destruct (is_empty p) eqn:E2; [done|]. destruct (MAX_PAYLOAD_BYTES <? len p) eqn:E3; [done|].
  destruct (check_disclosures ds) as [[]|] eqn:E4; [|done]. apply check_disclosures_ok in E4.
  destruct (validate_key_id c) as [[]|] eqn:E5; [|done].
  destruct (validate_key_id q) as [[]|] eqn:E6; [|done].
  destruct (g =? 0) eqn:E7; [done|]. destruct (_ <? len (committed_payload p ds)) eqn:E8; [done|].
  injection H as <-. bool_prop. split_and!; done.
Qed.

Lemma committed_payload_size p ds :
  len p + len (concat (map bytes_value ds)) <= len (committed_payload p ds).
Proof.
  unfold committed_payload. cbv zeta. rewrite write_disclosures_app, len_app.
  rewrite (write_head_acc _ 4), (write_head_acc _ 0 2), write_bytes_pair_entry, !len_app.
  repeat match goal with |- context [len (write_head [] ?m ?n)] =>
    pose proof (len_nonneg (write_head [] m n)); generalize dependent (len (write_head [] m n)) end.
  lia.
Qed.

Lemma wrapper_entries_ok w : wrapper_valid w -> Forall field_ok (wrapper_entries w).
Proof.
  intros (Hw & Hs & Hc & Hq & Hg). apply try_new_inv in Hw as (_ & H1 & H2 & H3 & H4 & H5 & H6 & H7).
  apply signature_try_new_inv in Hs as (_ & S1 & S2).
  pose proof (committed_payload_size (payload w) (disclosures w)) as Hz.
  pose proof (length_disclosures (disclosures w)) as Hl. pose proof (len_nonneg (payload w)).
  unfold wrapper_entries.
  repeat (apply List.Forall_cons || apply List.Forall_nil); cbn [field_ok]; auto.
  - split; [done|]. unfold len, VEC_BYTES, I64_MAX, MAX_COMMITTED_PAYLOAD_BYTES in *. lia.
  - by apply validate_key_id_ok.
  - by apply validate_key_id_ok.
  - by rewrite S1.
  - by rewrite S2.
Qed.

(** An upper bound of the size of a field. *)
Definition field_weight (x : field) : Z :=
  18 + match x with
       | Version _ | Generation _ => 0
       | Profile _ | Purpose _ | Format => 64
       | Payload b | ClassicalSignature b | PostQuantumSignature b => len b
       | Disclosures ds => len (concat (map bytes_value ds))
       | ClassicalKeyId s | PqKeyId s => slen s
       end.

Lemma len_bytes_value b : len (bytes_value b) <= 9 + len b.
Proof. unfold bytes_value. rewrite len_app. pose proof (head_size 2 (len b)). lia. Qed.

Lemma len_text_bytes s : len (text_bytes s) <= 9 + slen s.
Proof. unfold text_bytes, slen. rewrite len_app. pose proof (head_size 3 (len (as_bytes s))). lia. Qed.

Lemma len_field x : len (strict_bytes x) <= field_weight x.
Proof.
  unfold strict_bytes, field_weight. change (sf_key x) with (field_key x).
  change (sf_value x) with (field_value x). rewrite len_app.
  pose proof (head_size 0 (field_key x)). generalize dependent (len (write_head [] 0 (field_key x))).
  destruct x as [n|p|p| |b|ds|s|s|n|b|b]; cbn [field_value]; intros h Hh.
  1,9: pose proof (head_size 0 n); lia.
  - assert (len (text_bytes (profile_id p)) <= 73) by by destruct p. lia.
  - assert (len (text_bytes (purpose_id p)) <= 73) by by destruct p. lia.
  - assert (len (text_bytes CREDENTIAL_FORMAT) <= 73) by done. lia.
  - pose proof (len_bytes_value b). lia.
  - unfold disclosures_value. rewrite len_app. pose proof (head_size 4 (len ds)). lia.
  - pose proof (len_text_bytes s). lia.
  - pose proof (len_text_bytes s). lia.
  - pose proof (len_bytes_value b). lia.
  - pose proof (len_bytes_value b). lia.
Qed.

Lemma wrapper_fits w :
  wrapper_valid w -> len (envelope_bytes (wrapper_entries w)) <= MAX_WRAPPER_BYTES.
Proof.
  intros (Hw & Hs & Hc & Hq & Hg). apply try_new_inv in Hw as (_ & _ & _ & _ & H4 & H5 & _ & H7).
  apply signature_try_new_inv in Hs as (_ & S1 & S2).
  apply validate_key_id_ok in H4 as (_ & _ & K1), H5 as (_ & _ & K2); [|done..].
  pose proof (committed_payload_size (payload w) (disclosures w)) as Hz.
  etransitivity; [apply len_envelope|].
  etransitivity; [apply Z.add_le_mono_l, (total_le _ field_weight)|].
  { apply List.Forall_forall. intros x _. apply len_field. }
  unfold total, wrapper_entries. cbn [fold_right field_weight]. unfold field_weight.
  rewrite S1, S2. unfold MAX_WRAPPER_BYTES, MAX_COMMITTED_PAYLOAD_BYTES, MAX_KEY_ID_BYTES,
    ES256_SIGNATURE_BYTES, ML_DSA_65_SIGNATURE_BYTES in *. lia.
Qed.

Lemma decode_encode_wrapper w :
  wrapper_valid w -> decode_credential_wrapper (encode_credential_wrapper w) = Ok w.
Proof.
  intros Hv. pose proof (wrapper_entries_ok w Hv) as Hok. pose proof (wrapper_fits w Hv) as Hf.
  rewrite encode_wrapper_entries. unfold decode_credential_wrapper.
  assert (MAX_WRAPPER_BYTES <? len (envelope_bytes (wrapper_entries w)) = false) as -> by lia.
  unfold envelope_bytes. rewrite strip_prefix_app. unfold rejected. cbn [ok_or map_err].
  rewrite read_head_write by done. cbn [map_err Z.eqb Pos.eqb negb].
  rewrite <- (app_nil_r (concat (map strict_bytes (wrapper_entries w)))) at 2.
  rewrite read_entries_write; [|pose proof (length_entries (wrapper_entries w)); lia|done|done].
  destruct Hv as (Hw & Hs & _). unfold signature_valid in Hs.
  cbn. rewrite Hs. cbn [map_err]. rewrite Hw. done.
Qed.

Lemma finish_inv fs w :
  finish fs [] = Ok w ->
  fields_of fs = wrapper_entries w /\ signature_valid (signature w)
  /\ try_new (purpose w) (payload w) (disclosures w) (classical_key_id w) (pq_key_id w)
       (generation w) (signature w) = Ok w.
Proof.
  destruct fs as [v p u t y d c q g s z]. unfold finish. cbn. intros H.
  destruct v as [v|]; cbn in H; [|done].
  destruct (v =? WRAPPER_VERSION) eqn:Ev; cbn in H; [|done]. apply Z.eqb_eq in Ev as ->.
  destruct t; cbn in H; [|done]. destruct p as [p|]; cbn in H; [|done].
  destruct s as [s|]; cbn in H; [|done]. destruct z as [z|]; cbn in H; [|done].
  destruct (signature_try_new p s z) as [sg|] eqn:Es; cbn in H; [|done].
  destruct u as [u|]; cbn in H; [|done]. destruct y as [y|]; cbn in H; [|done].
  destruct d as [d|]; cbn in H; [|done]. destruct c as [c|]; cbn in H; [|done].
  destruct q as [q|]; cbn in H; [|done]. destruct g as [g|]; cbn in H; [|done].
  destruct (try_new u y d c q g sg) as [w'|] eqn:Ew; cbn in H; [|done]. injection H as ->.
  pose proof (try_new_inv _ _ _ _ _ _ _ _ Ew) as (-> & _).
  pose proof (signature_try_new_inv _ _ _ _ Es) as (-> & _). done.
Qed.

Lemma decode_wrapper_inv input w :
  decode_credential_wrapper input = Ok w ->
  wrapper_valid w /\ input = encode_credential_wrapper w.
Proof.
  unfold decode_credential_wrapper. intros H. destruct (MAX_WRAPPER_BYTES <? len input); [done|].
  destruct (strip_prefix MAGIC_PREFIX input) as [cbor|] eqn:Ep; [|done].
  apply strip_prefix_Some in Ep as ->. cbn [rejected ok_or map_err] in H.
  destruct (read_head cbor) as [[[m n] r]|] eqn:Eh; [|done]. cbn [rejected map_err] in H.
  apply read_head_shape in Eh as (-> & _ & Hn). destruct (m =? 5) eqn:Em; cbn [negb] in H; [|done].
  apply Z.eqb_eq in Em as ->.
  destruct (read_entries _ _ _ n None no_fields r) as [[fs r']|] eqn:Er; [|done].
  unfold is_u64 in Hn. bool_prop. apply read_entries_inv in Er as (es & -> & E & <- & Hok); [|done..].
  change (fields_of fs = es) in E. subst es. destruct r' as [|]; [|done].
  apply rejected_Ok, finish_inv in H as (Ef & Hs & Ht). rewrite Ef in *.
  split; [|by rewrite encode_wrapper_entries, app_nil_r].
  unfold wrapper_entries in Hok. repeat (apply Forall_cons_1 in Hok as [? Hok]). cbn in *.
  unfold wrapper_valid, key_id_ok in *. tauto.
Qed.

(** ** What is signed *)

Lemma committed_payload_inj p ds q es :
  Forall (fun b => rust_vec b = true) (p :: q :: ds ++ es) -> len ds <= U32_MAX -> len es <= U32_MAX ->
  committed_payload p ds = committed_payload q es -> p = q /\ ds = es.
Proof.
  intros Hv Hd He E. rewrite !committed_payload_canonical in E.
  apply List.Forall_cons_iff in Hv as [Hp Hv]. apply List.Forall_cons_iff in Hv as [Hq Hv].
  apply List.Forall_app in Hv as [Vd Ve].
  assert (forall l, len l <= U32_MAX -> List.Forall (fun b => rust_vec b = true) l ->
    canonical (Array (map Bytes l)) = true) as Hc.
  { intros l Hl Hf. apply canonical_Array; [unfold len, U32_MAX, U64_MAX in *; rewrite length_map; lia|].
    apply List.Forall_map. eapply List.Forall_impl; [|exact Hf]. intros b. apply canonical_Bytes. }
  apply to_canonical_inj in E.
  - injection E as -> E. split; [done|]. revert es E Ve He Vd Hd. clear.
    induction ds as [|d ds IH]; intros [|e es] E Ve He Vd Hd; try done.
    injection E as -> E. f_equal. apply IH; [done| | | |].
    all: rewrite ?len_cons in *; try lia; by eapply List.Forall_inv_tail.
  - apply canonical_Map; [done| |reflexivity]. auto 10 with wallet.
  - apply canonical_Map; [done| |reflexivity]. auto 10 with wallet.
Qed.

Lemma payload_ok_vec b : payload_ok b -> rust_vec b = true.
Proof. intros [_ H]. apply Z.leb_le. unfold MAX_PAYLOAD_BYTES, I64_MAX in *. lia. Qed.

Lemma tbs_injective w v c d t :
  wrapper_valid w -> wrapper_valid v -> context_typed c -> context_typed d ->
  tbs w c = Ok t -> tbs v d = Ok t ->
  purpose w = purpose v /\ payload w = payload v /\ disclosures w = disclosures v /\ c = d.
Proof.
  intros (Hw & _) (Hv & _) Tc Td E1 E2.
  destruct (build_injective _ _ _ _ _ _ _ _ _ Tc Td E1 E2) as (_ & -> & -> & E).
  apply try_new_inv in Hw as (_ & _ & P1 & D1 & _ & _ & _ & L1),
    Hv as (_ & _ & P2 & D2 & _ & _ & _ & L2).
  pose proof (committed_payload_size (payload w) (disclosures w)).
  pose proof (committed_payload_size (payload v) (disclosures v)).
  pose proof (length_disclosures (disclosures w)). pose proof (length_disclosures (disclosures v)).
  pose proof (len_nonneg (payload w)). pose proof (len_nonneg (payload v)).
  apply committed_payload_inj in E as [-> ->]; [done| | |];
    [|unfold len, U32_MAX, MAX_COMMITTED_PAYLOAD_BYTES in *; lia..].
  repeat constructor; [by apply payload_ok_vec..|].
  apply List.Forall_app. split; (eapply List.Forall_impl; [|done]); apply payload_ok_vec.
Qed.

(** ** Properties *)

(** The wrapper format is in bijection with well-formed wrappers: decoding
    an input returns a wrapper exactly when the checked constructors accept it
    (purpose, sizes, key identifiers, generation, committed size, signature
    sizes) and the input is its encoding; so every wrapper round-trips and has
    one accepted encoding. *)
Theorem wrapper_decode_iff (input : bytes) (w : HybridCredentialWrapper) :
  decode_credential_wrapper input = Ok w
  <-> wrapper_valid w /\ input = encode_credential_wrapper w.
Proof. split; [apply decode_wrapper_inv | intros [H ->]; by apply decode_encode_wrapper]. Qed.

(** What a verified wrapper commits to.  If a well-formed wrapper verifies,
    its purpose, key identifiers and generation are the expected ones, the
    context names the same generation, and the verifier accepted the signature
    over one byte string; that byte string belongs to no other purpose,
    payload, list of disclosures or context, so none of them can be changed
    under the signature. *)
Theorem wrapper_verify_commits `{HV : HybridVerifier} (w : HybridCredentialWrapper)
  (u : HybridPurpose) (b : WrapperBinding) (c : HybridContext) (pk : HybridPublicKey) :
  wrapper_valid w -> context_typed c ->
  verify_credential_wrapper w u b c pk = Ok tt ->
  purpose w = u /\ classical_key_id w = b_classical_key_id b /\ pq_key_id w = b_pq_key_id b
  /\ generation w = b_generation b /\ key_generation c = generation w
  /\ exists t, verify_hybrid pk t (signature w) = Ok tt /\ tbs w c = Ok t
     /\ forall v d, wrapper_valid v -> context_typed d -> tbs v d = Ok t ->
          purpose v = purpose w /\ payload v = payload w /\ disclosures v = disclosures w /\ d = c.
Proof.
  intros Hw Hc H. unfold verify_credential_wrapper in H.
  case_bool_decide as Hu; cbn [negb] in H; [|done].
  case_bool_decide as Hi; cbn [negb orb] in H; [|done].
  case_bool_decide as Hp; cbn [negb orb] in H; [|done].
  destruct (generation w =? _) eqn:G1; cbn [negb orb] in H; [|done].
  destruct (key_generation c =? _) eqn:G2; cbn [negb orb] in H; [|done]. bool_prop.
  destruct (tbs w c) as [t|] eqn:Et; [|done].
  split_and!; [done|done|done|done|congruence|]. exists t. split_and!; [done|done|].
  intros v d Hv Hd Ev. by apply (tbs_injective v w d c t).
Qed.

(** C10: The decoder panics on a short input: a map whose only entry announces
    more disclosures than an allocation of 24-byte vectors can hold
    ([count * 24] above [isize::MAX]) makes [Vec::with_capacity] panic with a
    capacity overflow before any disclosure is read, although the whole input
    has at most 55 bytes and no wrapper may have more than
    [MAX_COMMITTED_PAYLOAD_BYTES] bytes of them. *)
Theorem wrapper_decode_panics (count : Z) :
  is_u64 count = true -> I64_MAX < count * VEC_BYTES ->
  let input := MAGIC_PREFIX ++ write_head [] 5 1 ++ write_head [] 0 KEY_DISCLOSURES
               ++ write_head [] 4 count in
  decode_credential_wrapper input = Err CapacityOverflow /\ len input <= 55.
Proof.
  intros Hu Hc input.
  assert (len input <= 55) as Hl.
  { unfold input. rewrite !len_app. pose proof (head_size 4 count).
    change (len MAGIC_PREFIX) with 35. change (len (write_head [] 5 1)) with 1.
    change (len (write_head [] 0 KEY_DISCLOSURES)) with 1. lia. }
  split; [|done]. unfold decode_credential_wrapper.
  assert (MAX_WRAPPER_BYTES <? len input = false) as -> by (unfold MAX_WRAPPER_BYTES; lia).
  unfold input. rewrite strip_prefix_app. unfold rejected. cbn [ok_or map_err].
  rewrite read_head_write by done. cbn [map_err Z.eqb Pos.eqb negb].
  rewrite (read_entries_unfold Rejected read_field). cbn [Z.eqb].
  rewrite read_uint_write by done. cbn [map_err check_key].
  unfold read_field, read_value. cbn [Z.eqb Pos.eqb KEY_DISCLOSURES KEY_VERSION KEY_PROFILE
    KEY_PURPOSE KEY_FORMAT KEY_PAYLOAD].
  rewrite <- (app_nil_r (write_head [] 4 count)), read_head_write by done. unfold rejected.
  cbn [map_err Z.eqb Pos.eqb negb]. unfold with_capacity.
  by assert (count * VEC_BYTES <=? I64_MAX = false) as -> by lia.
Qed.

Lemma wrapper_decode_panics_witness :
  decode_credential_wrapper (MAGIC_PREFIX ++ [Byte.xa1; Byte.x06; Byte.x9b] ++ repeat Byte.xff 8)
  = Err CapacityOverflow.
Proof. apply (wrapper_decode_panics U64_MAX); reflexivity. Defined.

(** A verifier that accepts, and a wrapper it accepts. *)
Definition sample_verifier : HybridVerifier := {| verify_hybrid := fun _ _ _ => Ok tt |}.

Definition sample_wrapper : HybridCredentialWrapper :=
  {| purpose := TestMdocWrapperV1; payload := as_bytes "payload"; disclosures := [[Byte.x01]];
     classical_key_id := "c-1"; pq_key_id := "q-1"; generation := 7;
     signature := {| sig_profile := Es256MlDsa65V1; sig_classical := repeat Byte.x11 64;
                     sig_post_quantum := repeat Byte.x22 (Z.to_nat 3309) |} |}.

Definition sample_wrapper_context : HybridContext :=
  {| wallet_identity := as_bytes "wallet"; issuer_identity := Some (as_bytes "issuer");
     key_generation := 7; transaction_id := Some (as_bytes "t"); session_id := None;
     audience := Some (as_bytes "rp"); nonce := repeat Byte.x05 16;
     created_at_epoch_seconds := 1; expires_at_epoch_seconds := 2; transcript_hash := None |}.

Definition sample_binding : WrapperBinding :=
  {| b_classical_key_id := "c-1"; b_pq_key_id := "q-1"; b_generation := 7 |}.

Lemma wrapper_verify_commits_witness :
  key_generation sample_wrapper_context = generation sample_wrapper.
Proof.
  pose (pk := {| pk_profile := Es256MlDsa65V1; pk_classical := []; pk_post_quantum := [] |}).
  destruct (@wrapper_verify_commits sample_verifier sample_wrapper TestMdocWrapperV1 sample_binding
    sample_wrapper_context pk) as (_ & _ & _ & _ & H & _); [..|exact H].
  - split_and!; vm_compute; reflexivity.
  - split_and!; reflexivity || exact I.
  - vm_compute. reflexivity.
Defined.
