(* ===== verification/Jwe.v ===== *)
(** * Encrypted responses (crates/jwe/src/lib.rs)

    Compact JWE with ECDH-ES on P-256 and A256GCM: what the wallet sends for
    [direct_post.jwt], and the recipient's side.  The random bytes that a
    call draws are the arguments [random] (the ephemeral key) and [iv]. *)

From S2P Require Import Prelude Utf8 BTree Boundary Serde Sealing.

Open Scope Z_scope.
Open Scope rust_scope.

Definition ENC : string := "A256GCM".
Definition IV_LEN : Z := 12.
Definition TAG_LEN : Z := 16.
Definition KEYDATALEN_BITS : Z := 256.

Inductive JweError : Type :=
| JweCrypto (e : CryptoError)
| JweMalformed (message : string).

Record JweParts : Type := {
  part_ephemeral_public : bytes;
  apu : bytes;
  apv : bytes;
  protected_b64 : string;
  iv : bytes;
  ciphertext : bytes;
  tag : bytes;
}.

(** [x as u32], big-endian. *)
Definition be32 (n : Z) : bytes := to_be_bytes 4 (n mod 2 ^ 32).

Section jwe.
Context `{B64 : Base64} `{D : Digest} {A : Aead} {E : Ecdh} {SJ : SerdeJson}.

Definition b64 (b : bytes) : string := encode_string b.

Definition unb64 (s : string) (what : string) : result bytes JweError :=
  ok_or (decode_vec s) (JweMalformed what).

Definition concat_kdf_a256gcm (z apu apv : bytes) : bytes :=
  sha256 (be32 1 ++ z
          ++ be32 (slen ENC) ++ as_bytes ENC
          ++ be32 (len apu) ++ apu
          ++ be32 (len apv) ++ apv
          ++ be32 KEYDATALEN_BITS).

(** The protected header, as its pieces between quotation marks. *)
Definition header_text (x y apu apv : string) : bytes :=
  join_byte Byte.x22 (map as_bytes
    ["{"; "alg"; ":"; "ECDH-ES"; ","; "enc"; ":"; "A256GCM"; ",";
     "epk"; ":{"; "kty"; ":"; "EC"; ","; "crv"; ":"; "P-256"; ",";
     "x"; ":"; x; ","; "y"; ":"; y; "},";
     "apu"; ":"; apu; ","; "apv"; ":"; apv; "}"]%string).

Definition header (ephemeral apu apv : bytes) : bytes :=
  header_text (b64 (firstn 32 (skipn 1 ephemeral))) (b64 (firstn 32 (skipn 33 ephemeral)))
    (b64 apu) (b64 apv).

Definition encrypt_ecdh_es_a256gcm (random iv plaintext recipient_public apu apv : bytes)
  : result string JweError :=
  let? ecdh := map_err (ecdh_es_p256 random recipient_public) JweCrypto in
  if negb (len (ephemeral_public ecdh) =? 65)
     || negb (bool_decide (head (ephemeral_public ecdh) = Some Byte.x04))
  then Err (JweMalformed "ephemeral key is not an uncompressed P-256 point")
  else
    let protected := b64 (header (ephemeral_public ecdh) apu apv) in
    let cek := concat_kdf_a256gcm (shared_secret ecdh) apu apv in
    let? sealed := map_err (seal cek iv (as_bytes protected) plaintext) JweCrypto in
    if len sealed <? TAG_LEN then Err (JweMalformed "aead output shorter than the tag")
    else
      let n := Z.to_nat (len sealed - TAG_LEN) in
      Ok (protected ++ ".." ++ b64 iv ++ "." ++ b64 (firstn n sealed) ++ "."
          ++ b64 (skipn n sealed))%string.

Definition epk_coord (epk : Value) (key : string) : result bytes JweError :=
  let? s := ok_or (v_get_str epk key) (JweMalformed "epk missing a coordinate") in
  let? v := unb64 s "bad epk coordinate base64" in
  if negb (len v =? 32) then Err (JweMalformed "epk coordinate is not 32 bytes") else Ok v.

(** [value[key] == text]: a missing member is null. *)
Definition member_is (v : Value) (key text : string) : bool :=
  bool_decide (v_get_str v key = Some text).

Definition field (header : Value) (k : string) : bytes :=
  unwrap_or (let! s := v_get_str header k in decode_vec s) [].

Definition parse_compact (compact : string) : result JweParts JweError :=
  match str_split Byte.x2e compact with
  | [seg0; seg1; seg2; seg3; seg4] =>
      if negb (sis_empty seg1)
      then Err (JweMalformed "ECDH-ES direct requires an empty encrypted_key")
      else
        let? header_bytes := unb64 seg0 "bad protected-header base64" in
        let? header := ok_or (value_from_slice header_bytes) (JweMalformed "bad header JSON") in
        if negb (member_is header "alg" "ECDH-ES") || negb (member_is header "enc" "A256GCM")
        then Err (JweMalformed "unsupported JWE alg/enc")
        else
          let epk := unwrap_or (v_get header "epk") VNull in
          if negb (member_is epk "kty" "EC") || negb (member_is epk "crv" "P-256")
          then Err (JweMalformed "epk is not a P-256 EC key")
          else
            let? x := epk_coord epk "x" in
            let? y := epk_coord epk "y" in
            let? iv := unb64 seg2 "bad iv base64" in
            let? ciphertext := unb64 seg3 "bad ciphertext base64" in
            let? tag := unb64 seg4 "bad tag base64" in
            Ok {| part_ephemeral_public := Byte.x04 :: x ++ y;
                  apu := field header "apu"; apv := field header "apv";
                  protected_b64 := seg0; iv := iv; ciphertext := ciphertext; tag := tag |}
  | _ => Err (JweMalformed "a compact JWE has exactly five segments")
  end.

Definition open_parts (self : JweParts) (z : bytes) : result bytes JweError :=
  let cek := concat_kdf_a256gcm z (apu self) (apv self) in
  map_err (open cek (iv self) (as_bytes (protected_b64 self)) (ciphertext self ++ tag self)) JweCrypto.
End jwe.

(** ** The recipient reads what was sent *)

Definition header_value (x y apu apv : string) : Value := VObject [
  ("alg", VString "ECDH-ES"); ("apu", VString apu); ("apv", VString apv);
  ("enc", VString "A256GCM");
  ("epk", VObject [("crv", VString "P-256"); ("kty", VString "EC");
                   ("x", VString x); ("y", VString y)])]%string.

(** serde_json reads a header of base64url strings as the object it spells. *)
Class HeaderJson {SJ : SerdeJson} : Prop := {
  reads_header : forall x y apu apv,
    forallb is_b64url (as_bytes x) = true -> forallb is_b64url (as_bytes y) = true ->
    forallb is_b64url (as_bytes apu) = true -> forallb is_b64url (as_bytes apv) = true ->
    value_from_slice (header_text x y apu apv) = Some (header_value x y apu apv);
}.

Lemma b64url_free c b :
  forallb is_b64url b = true -> is_b64url c = false -> free_of c b = true.
Proof.
  intros H Hc. unfold free_of. rewrite forallb_forall in H |- *. intros x Hx%H.
  apply negb_true_iff. apply not_true_is_false. intros ->%Byte.byte_dec_bl. congruence.
Qed.

Section roundtrip.
Context `{B64 : Base64} {BL : Base64Laws} `{D : Digest} {A : Aead} {AL : AeadLaws} {E : Ecdh}
  {EL : EcdhLaws} {SJ : SerdeJson} {HJ : HeaderJson}.

Lemma segments a b c d :
  str_split Byte.x2e (b64 a ++ ".." ++ b64 b ++ "." ++ b64 c ++ "." ++ b64 d)%string
  = [b64 a; ""; b64 b; b64 c; b64 d]%string.
Proof.
  unfold str_split. rewrite !as_bytes_app.
  assert (forall x, free_of Byte.x2e (as_bytes (b64 x)) = true) as F.
  { intros x. by apply b64url_free; [apply encode_alphabet|]. }
  change (as_bytes (b64 a) ++ as_bytes ".." ++ as_bytes (b64 b) ++ as_bytes "." ++ as_bytes (b64 c)
          ++ as_bytes "." ++ as_bytes (b64 d))
    with (join_byte Byte.x2e [as_bytes (b64 a); []; as_bytes (b64 b); as_bytes (b64 c); as_bytes (b64 d)]).
  rewrite split_join; [|done|by repeat constructor]. cbn [map].
  assert (forall s, string_of_list_byte (as_bytes s) = s) as R by apply string_of_list_byte_of_string.
  by rewrite !R.
Qed.

Lemma coordinates xy :
  length xy = 64%nat ->
  firstn 32 (skipn 1 (Byte.x04 :: xy)) ++ firstn 32 (skipn 33 (Byte.x04 :: xy)) = xy
  /\ len (firstn 32 (skipn 1 (Byte.x04 :: xy))) = 32 /\ len (firstn 32 (skipn 33 (Byte.x04 :: xy))) = 32.
Proof.
  intros H. rewrite !skipn_cons, skipn_O. unfold len. rewrite !length_firstn, length_skipn, H.
  split_and!; [|done|done]. rewrite (firstn_all2 (n := 32) (skipn 32 xy)) by (rewrite length_skipn; lia).
  apply firstn_skipn.
Qed.

Lemma parse_coord (m : list (string * Value)) k b :
  bt_get m k = Some (VString (b64 b)) -> len b = 32 -> epk_coord (VObject m) k = Ok b.
Proof.
  intros Hm Hl. unfold epk_coord, v_get_str. cbn [v_get]. rewrite Hm. cbn [json_str ok_or].
  unfold unb64, b64. rewrite decode_encode. cbn [ok_or]. by rewrite Hl.
Qed.

Lemma header_members x y u v :
  member_is (header_value x y u v) "alg" "ECDH-ES" = true
  /\ member_is (header_value x y u v) "enc" "A256GCM" = true
  /\ v_get (header_value x y u v) "epk"
     = Some (VObject [("crv", VString "P-256"); ("kty", VString "EC"); ("x", VString x);
                      ("y", VString y)]%string)
  /\ field (header_value x y u v) "apu" = unwrap_or (decode_vec u) []
  /\ field (header_value x y u v) "apv" = unwrap_or (decode_vec v) [].
Proof. split_and!; reflexivity. Qed.

Lemma epk_members x y :
  let epk := [("crv", VString "P-256"); ("kty", VString "EC"); ("x", VString x); ("y", VString y)]%string in
  member_is (VObject epk) "kty" "EC" = true /\ member_is (VObject epk) "crv" "P-256" = true
  /\ bt_get epk "x" = Some (VString x) /\ bt_get epk "y" = Some (VString y).
Proof. split_and!; reflexivity. Qed.

Lemma parse_segments random recipient_public e apu' apv' iv' c t :
  ecdh_es_p256 random recipient_public = Ok e ->
  let protected := b64 (header (ephemeral_public e) apu' apv') in
  parse_compact (protected ++ ".." ++ b64 iv' ++ "." ++ b64 c ++ "." ++ b64 t)%string
  = Ok {| part_ephemeral_public := ephemeral_public e; apu := apu'; apv := apv';
          protected_b64 := protected; iv := iv'; ciphertext := c; tag := t |}.
Proof.
  intros (a & _ & Hp & _)%ecdh_es_Ok protected. apply public_key_shape in Hp as (xy & Hp & Hl).
  destruct (coordinates xy Hl) as (Hxy & Hx & Hy).
  subst protected. unfold parse_compact. rewrite segments.
  cbn [sis_empty negb]. unfold unb64 at 1. unfold b64 at 1. rewrite decode_encode.
  cbn [ok_or]. unfold header at 1. rewrite reads_header by apply encode_alphabet. cbn [ok_or].
  destruct (header_members (b64 (firstn 32 (skipn 1 (ephemeral_public e))))
    (b64 (firstn 32 (skipn 33 (ephemeral_public e)))) (b64 apu') (b64 apv'))
    as (-> & -> & -> & -> & ->).
  cbn [sis_empty is_empty negb orb unwrap_or]. rewrite Hp.
  destruct (epk_members (b64 (firstn 32 (skipn 1 (Byte.x04 :: xy))))
    (b64 (firstn 32 (skipn 33 (Byte.x04 :: xy))))) as (-> & -> & Hgx & Hgy).
  cbn [negb orb]. change (negb (sis_empty "")) with false. cbn iota.
  rewrite (parse_coord _ _ _ Hgx Hx), (parse_coord _ _ _ Hgy Hy).
  unfold unb64, b64. rewrite !decode_encode. cbn [ok_or unwrap_or]. by rewrite Hxy.
Qed.

(** C30: Only the key agreement and the encryption can make [encrypt] fail, and
    what it returns is opened by the recipient: its own key agrees with the
    ephemeral key of the header on the secret, the key that is derived from it
    opens the ciphertext, and [apu] and [apv] are those that were bound. *)
Theorem jwe_opens_for_recipient random key_random key iv' plaintext apu' apv' :
  generate key_random = Ok key ->
  match encrypt_ecdh_es_a256gcm random iv' plaintext (public_raw key) apu' apv' with
  | Err e => exists c, e = JweCrypto c
  | Ok jwe =>
      exists parts z, parse_compact jwe = Ok parts
        /\ agree key (part_ephemeral_public parts) = Ok z
        /\ open_parts parts z = Ok plaintext /\ apu parts = apu' /\ apv parts = apv'
  end.
Proof.
  intros Hk. unfold encrypt_ecdh_es_a256gcm.
  destruct (ecdh_es_p256 random (public_raw key)) as [e|c] eqn:He; [|by exists c]. cbn [map_err].
  pose proof (ecdh_es_Ok _ _ _ He) as (a & _ & Hp & _). apply public_key_shape in Hp as (xy & Hp & Hl).
  replace (len (ephemeral_public e) =? 65) with true
    by (symmetry; apply Z.eqb_eq; rewrite Hp; unfold len; cbn [length]; lia).
  rewrite bool_decide_eq_true_2 by by rewrite Hp. cbn [negb orb].
  destruct (seal _ _ _ _) as [sealed|c] eqn:Hs; [|by exists c]. cbn [map_err].
  pose proof (seal_length _ _ _ _ _ Hs) as Hn. unfold TAG_LEN.
  pose proof (len_nonneg plaintext). destruct (_ <? _) eqn:Hlt; [bool_prop; lia|].
  eexists _, (shared_secret e). rewrite (parse_segments _ _ _ _ _ _ _ _ He).
  split_and!; [done|by eapply recipient_agrees| |done|done].
  unfold open_parts. cbn [apu apv iv ciphertext tag protected_b64]. rewrite firstn_skipn.
  by rewrite (open_seal _ _ _ _ _ Hs).
Qed.
End roundtrip.

(** ** A message that is read *)

Module Examples.

(** The header read by its quotation marks. *)
Definition serde : SerdeJson := {|
  value_from_slice := fun b =>
    match map string_of_list_byte (split_byte Byte.x22 b) with
    | [_; _; _; _; _; _; _; _; _; _; _; _; _; _; _; _; _; _; _;
       _; _; x; _; _; _; y; _; _; _; apu; _; _; _; apv; _] => Some (header_value x y apu apv)
    | _ => None
    end;
  value_to_vec := fun _ => [];
|}.

Lemma serde_reads : @HeaderJson serde.
Proof.
  constructor. intros x y u v Hx Hy Hu Hv. cbn [value_from_slice serde]. unfold header_text.
  assert (forall s, string_of_list_byte (as_bytes s) = s) as R by apply string_of_list_byte_of_string.
  rewrite split_join; [cbn [map]; by rewrite !R|done|].
  repeat (constructor; [first [reflexivity|by apply b64url_free]|]). constructor.
Qed.

#[local] Existing Instance Boundary.Samples.hex64.
#[local] Existing Instance Boundary.Samples.hex64_laws.
#[local] Existing Instance Boundary.Samples.trunc_digest.
#[local] Existing Instance Sealing.Samples.tagging.
#[local] Existing Instance Sealing.Samples.tagging_laws.
#[local] Existing Instance Sealing.Samples.adding.
#[local] Existing Instance Sealing.Samples.adding_laws.
#[local] Existing Instance serde.
#[local] Existing Instance serde_reads.

Definition recipient : P256AgreementKey :=
  match generate [Byte.x07] with Ok k => k | Err _ => {| private := []; public := [] |} end.

Definition sent : result string JweError :=
  encrypt_ecdh_es_a256gcm [Byte.x05] (repeat Byte.x01 12) (as_bytes "hello") (public_raw recipient)
    (as_bytes "u") (as_bytes "v").

Lemma jwe_opens_for_recipient_witness :
  is_ok sent = true
  /\ match sent with
     | Err e => exists c, e = JweCrypto c
     | Ok jwe =>
         exists parts z, parse_compact jwe = Ok parts
           /\ agree recipient (part_ephemeral_public parts) = Ok z
           /\ open_parts parts z = Ok (as_bytes "hello") /\ apu parts = as_bytes "u"
           /\ apv parts = as_bytes "v"
     end.
Proof.
  split; [vm_compute; reflexivity|].
  refine (jwe_opens_for_recipient [Byte.x05] [Byte.x07] recipient (repeat Byte.x01 12)
            (as_bytes "hello") (as_bytes "u") (as_bytes "v") _).
  vm_compute; reflexivity.
Defined.
End Examples.
