(* ===== verification/DcApiRequests.v ===== *)
(** * Digital Credentials API (crates/wallet-core/src/dcapi.rs)

    The request a browser passes on and the body of the response. *)

From S2P Require Import Prelude Utf8 BTree Boundary Serde.

Open Scope Z_scope.
Open Scope rust_scope.

Inductive DcApiError : Type := DcMalformed | UnsupportedMode | NoMdocQuery.

Record DcApiRequest : Type := {
  dc_nonce : string;
  dc_response_mode : string;
  dc_query_id : string;
  dc_request_doctype : string;
  dc_claims : list (string * string);
}.

(** [claims[].path]: the first two elements, when both are strings. *)
Definition claim_element (claim : Value) : option (string * string) :=
  match (let! path := v_get claim "path" in json_array path) with
  | Some (VString ns :: VString el :: _) => Some (ns, el)
  | _ => None
  end.

Definition query_claims (query : Value) : list (string * string) :=
  match (let! claims := v_get query "claims" in json_array claims) with
  | Some claim_list => omap claim_element claim_list
  | None => []
  end.

Definition is_dc_mode (m : string) : bool :=
  String.eqb m "dc_api" || String.eqb m "dc_api.jwt".

Section dcapi.
Context {SJ : SerdeJson} `{B64 : Base64}.

Definition parse_dcapi_request (request : bytes) : result DcApiRequest DcApiError :=
  let? root := ok_or (value_from_slice request) DcMalformed in
  let? obj := ok_or (json_object root) DcMalformed in
  if negb (bool_decide (m_get_str obj "response_type" = Some "vp_token"%string))
  then Err UnsupportedMode
  else
    let? response_mode :=
      ok_or (let! m := m_get_str obj "response_mode" in if is_dc_mode m then Some m else None)
        UnsupportedMode in
    let? nonce := ok_or (m_get_str obj "nonce") DcMalformed in
    let? credentials :=
      ok_or (let! q := bt_get obj "dcql_query" in let! c := v_get q "credentials" in json_array c)
        DcMalformed in
    let? query :=
      ok_or (List.find (fun c => bool_decide (v_get_str c "format" = Some "mso_mdoc"%string)) credentials)
        NoMdocQuery in
    let? dcql_id := ok_or (v_get_str query "id") DcMalformed in
    let? doctype := ok_or (let! m := v_get query "meta" in v_get_str m "doctype_value") NoMdocQuery in
    Ok {| dc_nonce := nonce; dc_response_mode := response_mode; dc_query_id := dcql_id;
          dc_request_doctype := doctype; dc_claims := query_claims query |}.

Definition vp_token_response (dcql_id : string) (device_response : bytes) : bytes :=
  value_to_vec (VObject [("vp_token"%string,
    VObject [(dcql_id, VArray [VString (encode_string device_response)])])]).
End dcapi.
