(* ===== verification/SdJwt.v ===== *)
(** * SD-JWT VC serialization (crates/sdjwt/src/lib.rs)

    The combined serialization [<issuer-jwt>~<disclosure>~...~<kb-jwt>] and its
    parser.  The theorem: the parser accepts exactly the serializations of
    credentials within the parser budget, and returns that credential. *)

From S2P Require Import Prelude Utf8 Boundary.

Open Scope Z_scope.
Open Scope rust_scope.

Definition MAX_COMPACT_BYTES : Z := 1024 * 1024.
Definition MAX_JWS_BYTES : Z := 512 * 1024.
Definition MAX_DISCLOSURE_BYTES : Z := 64 * 1024.
Definition MAX_DISCLOSURES : Z := 256.

Inductive SdJwtError : Type :=
| Malformed
| InvalidBase64
| TooLarge
| InvalidJson
| AlgNone
| UnsupportedAlg
| InvalidType
| UnknownCriticalParam
| UnsupportedHashAlg
| UnknownDisclosure
| DuplicateClaim
| KeyBindingMismatch
| Crypto (e : CryptoError).

Record SdJwtVc : Type := {
  issuer_jwt : string;
  disclosures : list string;
  key_binding_jwt : option string;
}.

(** ** Parser *)

(** [s.matches('.').count()]. *)
Definition dots (s : string) : Z := count_byte Byte.x2e (as_bytes s).

Definition parse_kb (kb : string) : result (option string) SdJwtError :=
  if sis_empty kb then Ok None
  else if MAX_JWS_BYTES <? slen kb then Err TooLarge
  else if negb (dots kb =? 2) then Err Malformed
  else Ok (Some kb).

Definition parse (compact : string) : result SdJwtVc SdJwtError :=
  if MAX_COMPACT_BYTES <? slen compact then Err TooLarge
  else
  match str_split Byte.x7e compact with
  | [] | [_] => Err Malformed
  | issuer_jwt :: parts =>
      if MAX_JWS_BYTES <? slen issuer_jwt then Err TooLarge
      else if sis_empty issuer_jwt || negb (dots issuer_jwt =? 2) then Err Malformed
      else
      let kb := List.last parts ""%string in
      let parts := removelast parts in
      let? key_binding_jwt := parse_kb kb in
      if (MAX_DISCLOSURES <? len parts)
         || existsb (fun p => MAX_DISCLOSURE_BYTES <? slen p) parts
      then Err TooLarge
      else if existsb sis_empty parts then Err Malformed
      else Ok {| issuer_jwt := issuer_jwt; disclosures := parts;
                 key_binding_jwt := key_binding_jwt |}
  end.

(** ** The serialization *)

(** [<issuer-jwt>~<disclosure>~...~<kb-jwt>]; the last segment is empty when
    there is no key-binding JWT. *)
Definition segments (v : SdJwtVc) : list string :=
  issuer_jwt v :: disclosures v ++ [unwrap_or (key_binding_jwt v) ""%string].

Definition serialize (v : SdJwtVc) : string :=
  string_of_list_byte (join_byte Byte.x7e (map as_bytes (segments v))).

Definition jws_shaped (s : string) : bool :=
  (slen s <=? MAX_JWS_BYTES) && negb (sis_empty s) && (dots s =? 2).

(** A credential within the parser's budget, whose segments have no separator
    of their own. *)
Definition well_formed (v : SdJwtVc) : bool :=
  jws_shaped (issuer_jwt v)
  && match key_binding_jwt v with Some kb => jws_shaped kb | None => true end
  && (len (disclosures v) <=? MAX_DISCLOSURES)
  && forallb (fun d => (slen d <=? MAX_DISCLOSURE_BYTES) && negb (sis_empty d)) (disclosures v)
  && forallb (fun s => free_of Byte.x7e (as_bytes s)) (segments v)
  && (slen (serialize v) <=? MAX_COMPACT_BYTES).

Lemma str_split_serialize v :
  forallb (fun s => free_of Byte.x7e (as_bytes s)) (segments v) = true ->
  str_split Byte.x7e (serialize v) = segments v.
Proof.
  intros H. unfold str_split, serialize. rewrite as_bytes_of_list, split_join; [|done|].
  - rewrite map_map. etransitivity; [|apply map_id]. apply map_ext. intros s.
    unfold as_bytes. apply string_of_list_byte_of_string.
  - apply List.Forall_map, List.Forall_forall. by apply forallb_forall.
Qed.

Lemma str_split_inv s : s = string_of_list_byte (join_byte Byte.x7e (map as_bytes (str_split Byte.x7e s)))
  /\ forallb (fun p => free_of Byte.x7e (as_bytes p)) (str_split Byte.x7e s) = true.
Proof.
  unfold str_split. rewrite map_map. replace (map _ (split_byte Byte.x7e (as_bytes s)))
    with (split_byte Byte.x7e (as_bytes s)).
  - rewrite join_split. unfold as_bytes at 1. rewrite string_of_list_byte_of_string. split; [done|].
    apply forallb_forall. intros q (p & <- & Hp)%in_map_iff. rewrite as_bytes_of_list.
    pose proof (split_free Byte.x7e (as_bytes s)) as F. rewrite List.Forall_forall in F. by apply F.
  - etransitivity; [symmetry; apply map_id|]. apply map_ext. intros p. by rewrite as_bytes_of_list.
Qed.

Lemma parse_kb_inv kb o :
  parse_kb kb = Ok o -> kb = unwrap_or o ""%string
  /\ match o with Some k => jws_shaped k = true | None => True end.
Proof.
  unfold parse_kb, jws_shaped. intros H. destruct (sis_empty kb) eqn:E.
  - injection H as <-. split; [|done]. destruct kb; [done|discriminate E].
  - destruct (_ <? _) eqn:E1; [done|]. destruct (dots kb =? 2) eqn:E2; cbn [negb] in H; [|done].
    injection H as <-. cbn. rewrite E, E2. bool_prop. split; [done|].
    by assert (slen kb <=? MAX_JWS_BYTES = true) as -> by lia.
Qed.

Lemma parse_kb_ok o :
  match o with Some k => jws_shaped k = true | None => True end ->
  parse_kb (unwrap_or o ""%string) = Ok o.
Proof.
  unfold jws_shaped, parse_kb. destruct o as [k|]; cbn [unwrap_or]; intros H; [|done]. bool_prop.
  assert (MAX_JWS_BYTES <? slen k = false) as -> by lia.
  match goal with H : sis_empty k = false |- _ => rewrite H end.
  match goal with H : dots k = 2 |- _ => rewrite H end. done.
Qed.

Lemma existsb_false {A} (f : A -> bool) l : existsb f l = false <-> forallb (fun x => negb (f x)) l = true.
Proof. induction l as [|x l IH]; cbn; [done|]. rewrite orb_false_iff, andb_true_iff, negb_true_iff, IH. done. Qed.

Lemma parse_ok v : well_formed v = true -> parse (serialize v) = Ok v.
Proof.
  unfold well_formed. intros H. bool_prop. unfold parse.
  assert (forall d, In d (disclosures v) ->
    (slen d <=? MAX_DISCLOSURE_BYTES) && negb (sis_empty d) = true) as Hd
    by by apply forallb_forall.
  assert (MAX_COMPACT_BYTES <? slen (serialize v) = false) as -> by lia.
  rewrite str_split_serialize by done. unfold segments.
  destruct (disclosures v ++ [unwrap_or (key_binding_jwt v) ""%string]) as [|q l] eqn:E;
    [by destruct (disclosures v)|]. rewrite <- E.
  match goal with H : jws_shaped _ = true |- _ => unfold jws_shaped in H; bool_prop end.
  assert (MAX_JWS_BYTES <? slen (issuer_jwt v) = false) as -> by lia.
  rewrite last_last, removelast_last.
  match goal with H : sis_empty (issuer_jwt v) = false |- _ => rewrite H end.
  match goal with H : dots (issuer_jwt v) = 2 |- _ => rewrite H end. cbn [orb negb Z.eqb Pos.eqb].
  rewrite parse_kb_ok by (by destruct (key_binding_jwt v)).
  assert (MAX_DISCLOSURES <? len (disclosures v) = false) as -> by lia. cbn [orb].
  rewrite (proj2 (existsb_false (fun p => MAX_DISCLOSURE_BYTES <? slen p) (disclosures v))).
  - rewrite (proj2 (existsb_false sis_empty (disclosures v))); [by destruct v|].
    apply forallb_forall. intros d Hin. apply Hd, andb_true_iff in Hin. tauto.
  - apply forallb_forall. intros d Hin. apply Hd in Hin. bool_prop. lia.
Qed.

Lemma sdjwt_parse_inv s v : parse s = Ok v -> well_formed v = true /\ s = serialize v.
Proof.
  unfold parse. intros H. destruct (MAX_COMPACT_BYTES <? slen s) eqn:Es; [done|].
  destruct (str_split_inv s) as [E F].
  destruct (str_split Byte.x7e s) as [|j [|q l]] eqn:Ep; [done..|].
  destruct (MAX_JWS_BYTES <? slen j) eqn:E1; [done|].
  destruct (sis_empty j || _) eqn:E2; [done|]. cbv zeta in H.
  remember (removelast (q :: l)) as ds eqn:Eds.
  destruct (parse_kb _) as [o|] eqn:Ek; [|done].
  destruct (_ || existsb _ _) eqn:E3 in H; [done|].
  destruct (existsb sis_empty _) eqn:E4; [done|]. injection H as <-.
  apply parse_kb_inv in Ek as [Eo Ho].
  assert (segments {| issuer_jwt := j; disclosures := ds; key_binding_jwt := o |}
    = j :: q :: l) as Eg.
  { unfold segments. cbn [issuer_jwt disclosures key_binding_jwt]. rewrite <- Eo, Eds.
    by rewrite <- app_removelast_last. }
  assert (serialize {| issuer_jwt := j; disclosures := ds; key_binding_jwt := o |} = s)
    as Ser by (unfold serialize; by rewrite Eg).
  split; [|done]. unfold well_formed. rewrite Ser, Eg.
  cbn [issuer_jwt disclosures key_binding_jwt]. unfold jws_shaped at 1. bool_prop.
  apply existsb_false in E4.
  match goal with H : existsb _ _ = false |- _ => apply existsb_false in H; rename H into E5 end.
  rewrite !andb_true_iff. split_and!; try done; try lia.
  - by match goal with H : sis_empty j = false |- _ => rewrite H end.
  - by destruct o.
  - rewrite forallb_forall in *. intros d Hd. rewrite (E4 d Hd), andb_true_r.
    apply E5 in Hd. bool_prop. lia.
Qed.

(** ** Properties *)

(** The combined serialization has one reading.  Parsing succeeds exactly
    on the serializations of credentials within the budget (segment and total
    sizes, number of disclosures, no empty disclosure, two dots in each JWT,
    no separator inside a segment), and returns the credential that was
    serialized; so segments cannot be merged, split or lost. *)
Theorem sdjwt_parse_iff (s : string) (v : SdJwtVc) :
  parse s = Ok v <-> well_formed v = true /\ s = serialize v.
Proof. split; [apply sdjwt_parse_inv | intros [H ->]; by apply parse_ok]. Qed.
