(* ===== verification/SdJwtProcess.v ===== *)
(** * SD-JWT disclosure processing (crates/sdjwt/src/lib.rs)

    The verifier's side of sdjwt: JOSE headers, disclosures and their digests,
    the recursive processing of RFC 9901 that replaces digest placeholders by
    the disclosed claims, and the verification of a presentation with its
    key-binding JWT. *)

From Stdlib Require Import Permutation.
From S2P Require Import Prelude Utf8 BTree Boundary Serde SdJwt.

Open Scope Z_scope.
Open Scope rust_scope.

Definition MAX_NESTING_DEPTH : nat := 32.
Definition MAX_EMBEDDED_DIGESTS : Z := 4096.
Definition MAX_PROCESSED_JSON_BYTES : Z := 2 * 1024 * 1024.

Definition SD_CLAIM : string := "_sd".
Definition SD_ALG_CLAIM : string := "_sd_alg".
Definition ELLIPSIS : string := "...".

Record KeyBindingCheck : Type := {
  device_public_key : bytes;
  expected_aud : string;
  expected_nonce : string;
  device_alg : Alg;
}.

Record Disclosure : Type := {
  d_raw : string;
  salt : string;
  name : option string;
  d_value : Value;
}.

Inductive ClaimPathElement : Type := Name (s : string) | Index (i : Z).

Record VerifiedDisclosure : Type := {
  raw : string;
  digest : string;
  path : list ClaimPathElement;
  parent_digest : option string;
  value : Value;
}.

Record ProcessedSdJwt : Type := {
  claims : BTreeMap string Value;
  verified_disclosures : list VerifiedDisclosure;
}.

(** The processor's state; the sets are maps to [unit]. *)
Record DisclosureProcessor : Type := {
  disclosure_by_digest : BTreeMap string Disclosure;
  used_disclosures : BTreeMap string unit;
  encountered_digests : BTreeMap string unit;
  verified : list VerifiedDisclosure;
  embedded_digest_count : Z;
  output_budget : Z;
}.

Definition usize_add (a b : Z) : option Z := checked_u64 (a + b).

(** [split_jws]'s result. *)
Record Jws : Type := {
  header : Value;
  payload_bytes : bytes;
  signing_input : string;
  signature : bytes;
}.

(** ** JOSE *)

Fixpoint check_crit (l : list Value) : result unit SdJwtError :=
  match l with
  | [] => Ok tt
  | c :: rest =>
      let? name := ok_or (json_str c) InvalidJson in
      if negb (bool_decide (name = "alg"%string) || bool_decide (name = "typ"%string)
               || bool_decide (name = "kid"%string))
      then Err UnknownCriticalParam
      else check_crit rest
  end.

Definition parse_jose_alg (header : Value) : result Alg SdJwtError :=
  let? obj := ok_or (json_object header) InvalidJson in
  let? _ := match bt_get obj "crit" with
            | None => Ok tt
            | Some crit =>
                let? arr := ok_or (json_array crit) InvalidJson in
                check_crit arr
            end in
  match m_get_str obj "alg" with
  | Some alg =>
      if bool_decide (alg = "none"%string) then Err AlgNone
      else if bool_decide (alg = "ES256"%string) then Ok Es256
      else if bool_decide (alg = "ES384"%string) then Ok Es384
      else if bool_decide (alg = "EdDSA"%string) then Ok EdDsa
      else Err UnsupportedAlg
  | None => Err UnsupportedAlg
  end.

Section sdjwt.
Context {SJ : SerdeJson} `{B64 : Base64} `{D : Digest} `{V : Verifier}.

Definition split_jws (jwt : string) : result Jws SdJwtError :=
  if MAX_JWS_BYTES <? slen jwt then Err TooLarge
  else
  match str_split Byte.x2e jwt with
  | [p0; p1; p2] =>
      let? header_bytes := ok_or (decode_vec p0) InvalidBase64 in
      let? header := ok_or (value_from_slice header_bytes) InvalidJson in
      let? payload_bytes := ok_or (decode_vec p1) InvalidBase64 in
      let? signature := ok_or (decode_vec p2) InvalidBase64 in
      Ok {| header := header; payload_bytes := payload_bytes;
            signing_input := (p0 ++ "." ++ p1)%string; signature := signature |}
  | _ => Err Malformed
  end.

(** ** Disclosures *)

Definition disclosure_parse (raw : string) : result Disclosure SdJwtError :=
  if MAX_DISCLOSURE_BYTES <? slen raw then Err TooLarge
  else
    let? bytes := ok_or (decode_vec raw) InvalidBase64 in
    let? json := ok_or (value_from_slice bytes) InvalidJson in
    let? arr := ok_or (json_array json) InvalidJson in
    match arr with
    | [s; n; v] =>
        let? salt := ok_or (json_str s) InvalidJson in
        let? name := ok_or (json_str n) InvalidJson in
        Ok {| d_raw := raw; salt := salt; name := Some name; d_value := v |}
    | [s; v] =>
        let? salt := ok_or (json_str s) InvalidJson in
        Ok {| d_raw := raw; salt := salt; name := None; d_value := v |}
    | _ => Err InvalidJson
    end.

Definition raw_digest (raw : string) : string := encode_string (sha256 (as_bytes raw)).

Definition digest_b64 (self : Disclosure) : string := raw_digest (d_raw self).

Fixpoint index_disclosures (m : BTreeMap string Disclosure) (raws : list string)
  : result (BTreeMap string Disclosure) SdJwtError :=
  match raws with
  | [] => Ok m
  | raw :: rest =>
      let? disclosure := disclosure_parse raw in
      let disclosure_digest := digest_b64 disclosure in
      if bt_contains m disclosure_digest then Err DuplicateClaim
      else index_disclosures (bt_insert disclosure_digest disclosure m) rest
  end.

(** ** The processor *)

Definition encounter_digest (self : DisclosureProcessor) (digest : string)
  : result DisclosureProcessor SdJwtError :=
  let? decoded := ok_or (decode_vec digest) InvalidBase64 in
  if negb (len decoded =? 32) then Err InvalidJson
  else
    let? count := ok_or (usize_add (embedded_digest_count self) 1) TooLarge in
    if MAX_EMBEDDED_DIGESTS <? count then Err TooLarge
    else if bt_contains (encountered_digests self) digest then Err DuplicateClaim
    else Ok {| disclosure_by_digest := disclosure_by_digest self;
               used_disclosures := used_disclosures self;
               encountered_digests := bt_insert digest tt (encountered_digests self);
               verified := verified self;
               embedded_digest_count := count;
               output_budget := output_budget self |}.

Definition consume_budget (self : DisclosureProcessor) (value : Value)
  : result DisclosureProcessor SdJwtError :=
  let? budget := ok_or (usize_add (output_budget self) (len (value_to_vec value))) TooLarge in
  if MAX_PROCESSED_JSON_BYTES <? budget then Err TooLarge
  else Ok {| disclosure_by_digest := disclosure_by_digest self;
             used_disclosures := used_disclosures self;
             encountered_digests := encountered_digests self;
             verified := verified self;
             embedded_digest_count := embedded_digest_count self;
             output_budget := budget |}.

Definition record_disclosure (self : DisclosureProcessor) (digest : string)
    (disclosure : Disclosure) (path : list ClaimPathElement) (parent_digest : option string)
  : result DisclosureProcessor SdJwtError :=
  if bt_contains (used_disclosures self) digest then Err DuplicateClaim
  else Ok {| disclosure_by_digest := disclosure_by_digest self;
             used_disclosures := bt_insert digest tt (used_disclosures self);
             encountered_digests := encountered_digests self;
             verified := verified self ++
               [{| raw := d_raw disclosure; digest := digest; path := path;
                   parent_digest := parent_digest; value := d_value disclosure |}];
             embedded_digest_count := embedded_digest_count self;
             output_budget := output_budget self |}.

(** A digest that is met: its disclosure is budgeted and recorded, or it is
    absent ([None]), a decoy or an undisclosed claim. *)
Definition disclose (self : DisclosureProcessor) (disclosure_digest : string)
    (accept : Disclosure -> result ClaimPathElement SdJwtError)
    (path : list ClaimPathElement) (parent_digest : option string)
  : result (DisclosureProcessor * option (Disclosure * ClaimPathElement)) SdJwtError :=
  let? self := encounter_digest self disclosure_digest in
  match bt_get (disclosure_by_digest self) disclosure_digest with
  | None => Ok (self, None)
  | Some disclosure =>
      let? element := accept disclosure in
      let? self := consume_budget self (d_value disclosure) in
      let? self := record_disclosure self disclosure_digest disclosure (path ++ [element])
                     parent_digest in
      Ok (self, Some (disclosure, element))
  end.

Definition reserved (name : string) : bool :=
  bool_decide (name = SD_CLAIM) || bool_decide (name = SD_ALG_CLAIM) || bool_decide (name = ELLIPSIS).

(** The guards on the name of a disclosed member. *)
Definition accept_member (object : BTreeMap string Value) (disclosure : Disclosure)
  : result ClaimPathElement SdJwtError :=
  let? name := ok_or (name disclosure) InvalidJson in
  if reserved name then Err InvalidJson
  else if bt_contains object name then Err DuplicateClaim
  else Ok (Name name).

Definition accept_element (index : Z) (disclosure : Disclosure)
  : result ClaimPathElement SdJwtError :=
  if is_some (name disclosure) then Err InvalidJson else Ok (Index index).

(** The placeholder an array element is, if it is one. *)
Definition placeholder (element : Value) : result (option string) SdJwtError :=
  match element with
  | VObject object =>
      if bt_contains object ELLIPSIS then
        if negb (len object =? 1) then Err InvalidJson
        else let? d := ok_or (m_get_str object ELLIPSIS) InvalidJson in Ok (Some d)
      else Ok None
  | _ => Ok None
  end.

Section loops.
(** The recursive call, one level deeper. *)
Variable process : DisclosureProcessor -> Value -> list ClaimPathElement -> option string ->
  result (DisclosureProcessor * Value) SdJwtError.

Fixpoint process_members (self : DisclosureProcessor) (object : BTreeMap string Value)
    (path : list ClaimPathElement) (parent_digest : option string)
  : result (DisclosureProcessor * BTreeMap string Value) SdJwtError :=
  match object with
  | [] => Ok (self, [])
  | (name, child) :: rest =>
      let? (self, child) := process self child (path ++ [Name name]) parent_digest in
      let? (self, rest) := process_members self rest path parent_digest in
      Ok (self, (name, child) :: rest)
  end.

Fixpoint process_digests (self : DisclosureProcessor) (object : BTreeMap string Value)
    (digest_values : list Value) (path : list ClaimPathElement) (parent_digest : option string)
  : result (DisclosureProcessor * BTreeMap string Value) SdJwtError :=
  match digest_values with
  | [] => Ok (self, object)
  | digest_value :: rest =>
      let? disclosure_digest := ok_or (json_str digest_value) InvalidJson in
      let? (self, found) :=
        disclose self disclosure_digest (accept_member object) path parent_digest in
      match found with
      | Some (disclosure, Name name as element) =>
          let? (self, disclosed_value) :=
            process self (d_value disclosure) (path ++ [element]) (Some disclosure_digest) in
          process_digests self (bt_insert name disclosed_value object) rest path parent_digest
      | _ => process_digests self object rest path parent_digest
      end
  end.

Fixpoint process_elements (self : DisclosureProcessor) (processed original : list Value)
    (path : list ClaimPathElement) (parent_digest : option string)
  : result (DisclosureProcessor * list Value) SdJwtError :=
  match original with
  | [] => Ok (self, processed)
  | element :: rest =>
      let? placeholder := placeholder element in
      match placeholder with
      | Some disclosure_digest =>
          let? (self, found) :=
            disclose self disclosure_digest (accept_element (len processed)) path parent_digest in
          match found with
          | Some (disclosure, index) =>
              let? (self, disclosed_value) :=
                process self (d_value disclosure) (path ++ [index]) (Some disclosure_digest) in
              process_elements self (processed ++ [disclosed_value]) rest path parent_digest
          | None => process_elements self processed rest path parent_digest
          end
      | None =>
          let? (self, element) :=
            process self element (path ++ [Index (len processed)]) parent_digest in
          process_elements self (processed ++ [element]) rest path parent_digest
      end
  end.

Definition take_sd_alg (object : BTreeMap string Value) (is_root : bool)
  : result (BTreeMap string Value) SdJwtError :=
  if is_root then Ok (bt_remove SD_ALG_CLAIM object)
  else if bt_contains object SD_ALG_CLAIM then Err InvalidJson
  else Ok object.

Definition process_object (self : DisclosureProcessor) (object : BTreeMap string Value)
    (path : list ClaimPathElement) (parent_digest : option string) (is_root : bool)
  : result (DisclosureProcessor * BTreeMap string Value) SdJwtError :=
  let? object := take_sd_alg object is_root in
  if bt_contains object ELLIPSIS then Err InvalidJson
  else
    let? digest_values :=
      match bt_get object SD_CLAIM with
      | None => Ok []
      | Some (VArray values) => Ok values
      | Some _ => Err InvalidJson
      end in
    let? (self, object) :=
      process_members self (bt_remove SD_CLAIM object) path parent_digest in
    process_digests self object digest_values path parent_digest.
End loops.

(** [process_value] at [depth], where [levels] are the
    [MAX_NESTING_DEPTH + 1 - depth] that are left: the source stops when none
    is. *)
Fixpoint process_value (levels : nat) (self : DisclosureProcessor) (value : Value)
    (path : list ClaimPathElement) (parent_digest : option string) (is_root : bool)
  : result (DisclosureProcessor * Value) SdJwtError :=
  match levels with
  | O => Err TooLarge
  | S levels =>
      let process self value path parent := process_value levels self value path parent false in
      match value with
      | VObject object =>
          let? (self, object) := process_object process self object path parent_digest is_root in
          Ok (self, VObject object)
      | VArray array =>
          let? (self, array) := process_elements process self [] array path parent_digest in
          Ok (self, VArray array)
      | _ => Ok (self, value)
      end
  end.

(** ** Verification *)

Definition check_hash_alg (obj : BTreeMap string Value) : result unit SdJwtError :=
  match bt_get obj SD_ALG_CLAIM with
  | None => Ok tt
  | Some (VString value) =>
      if bool_decide (value = "sha-256"%string) then Ok tt else Err UnsupportedHashAlg
  | Some _ => Err InvalidJson
  end.

Definition new_processor (m : BTreeMap string Disclosure) (initial_bytes : Z) : DisclosureProcessor := {|
  disclosure_by_digest := m; used_disclosures := []; encountered_digests := [];
  verified := []; embedded_digest_count := 0; output_budget := initial_bytes;
|}.

Definition process_payload (payload : Value) (raws : list string)
  : result ProcessedSdJwt SdJwtError :=
  let? by_digest := index_disclosures [] raws in
  let processor := new_processor by_digest (len (value_to_vec payload)) in
  let? (processor, payload) :=
    process_value (S MAX_NESTING_DEPTH) processor payload [] None true in
  if negb (len (used_disclosures processor) =? len (disclosure_by_digest processor))
  then Err UnknownDisclosure
  else if MAX_PROCESSED_JSON_BYTES <? len (value_to_vec payload) then Err TooLarge
  else
    let? claims := ok_or (json_object payload) InvalidJson in
    Ok {| claims := claims; verified_disclosures := verified processor |}.

Definition verify_and_process (self : SdJwtVc) (issuer_public_key : bytes) (expected_alg : Alg)
  : result ProcessedSdJwt SdJwtError :=
  let? jws := split_jws (issuer_jwt self) in
  let? hdr_alg := parse_jose_alg (header jws) in
  if negb (bool_decide (hdr_alg = expected_alg)) then Err UnsupportedAlg
  else if negb (bool_decide (v_get_str (header jws) "typ" = Some "dc+sd-jwt"%string))
  then Err InvalidType
  else
    let? _ := map_err (verify expected_alg issuer_public_key (as_bytes (signing_input jws))
                         (signature jws)) Crypto in
    let? payload := ok_or (value_from_slice (payload_bytes jws)) InvalidJson in
    let? obj := ok_or (json_object payload) InvalidJson in
    let? _ := check_hash_alg obj in
    process_payload payload (disclosures self).

Definition verify_and_disclose (self : SdJwtVc) (issuer_public_key : bytes) (expected_alg : Alg)
  : result (BTreeMap string Value) SdJwtError :=
  let? processed := verify_and_process self issuer_public_key expected_alg in
  Ok (claims processed).

Definition issuer_algorithm (self : SdJwtVc) : result Alg SdJwtError :=
  let? jws := split_jws (issuer_jwt self) in
  if negb (bool_decide (v_get_str (header jws) "typ" = Some "dc+sd-jwt"%string))
  then Err InvalidType
  else parse_jose_alg (header jws).

Definition issuer_payload (self : SdJwtVc) : result (BTreeMap string Value) SdJwtError :=
  let? jws := split_jws (issuer_jwt self) in
  let? payload := ok_or (value_from_slice (payload_bytes jws)) InvalidJson in
  ok_or (json_object payload) InvalidJson.

(** The text the key-binding JWT's [sd_hash] covers. *)
Definition presentation (self : SdJwtVc) : bytes :=
  as_bytes (issuer_jwt self)
  ++ concat (map (fun d => Byte.x7e :: as_bytes d) (disclosures self)) ++ [Byte.x7e].

Definition check_kb_payload (obj : BTreeMap string Value) (kb : KeyBindingCheck) (want : string)
  : result unit SdJwtError :=
  if is_none (m_get_i64 obj "iat") then Err KeyBindingMismatch
  else if negb (bool_decide (m_get_str obj "aud" = Some (expected_aud kb))) then Err KeyBindingMismatch
  else if negb (bool_decide (m_get_str obj "nonce" = Some (expected_nonce kb)))
  then Err KeyBindingMismatch
  else if negb (bool_decide (m_get_str obj "sd_hash" = Some want)) then Err KeyBindingMismatch
  else Ok tt.

Definition verify_presentation (self : SdJwtVc) (issuer_public_key : bytes) (issuer_alg : Alg)
    (kb : KeyBindingCheck) : result (BTreeMap string Value) SdJwtError :=
  let? claims := verify_and_disclose self issuer_public_key issuer_alg in
  let? kb_jwt := ok_or (key_binding_jwt self) KeyBindingMismatch in
  let? jws := split_jws kb_jwt in
  let? kb_alg := parse_jose_alg (header jws) in
  if negb (bool_decide (kb_alg = device_alg kb))
     || negb (bool_decide (v_get_str (header jws) "typ" = Some "kb+jwt"%string))
  then Err KeyBindingMismatch
  else
    let? _ := map_err (verify (device_alg kb) (device_public_key kb)
                         (as_bytes (signing_input jws)) (signature jws)) Crypto in
    let? payload := ok_or (value_from_slice (payload_bytes jws)) InvalidJson in
    let? obj := ok_or (json_object payload) InvalidJson in
    let want := encode_string (sha256 (presentation self)) in
    let? _ := check_kb_payload obj kb want in
    Ok claims.
End sdjwt.

(** ** The reference: what disclosing means

    The document that a set of disclosures stands for: digests of unknown
    disclosures disappear, the others are replaced by the disclosed claims.
    There are no budgets, no guards and no bookkeeping here; [levels] bounds
    the nesting and [None] says that it was exceeded. *)

Section expand.
Variable env : string -> option Disclosure.

Definition digest_list (object : BTreeMap string Value) : list Value :=
  match bt_get object SD_CLAIM with Some (VArray values) => values | _ => [] end.

Section loops.
Variable rec : Value -> option Value.

Fixpoint expand_members (object : BTreeMap string Value) : option (BTreeMap string Value) :=
  match object with
  | [] => Some []
  | (k, v) :: rest =>
      let! v := rec v in
      let! rest := expand_members rest in
      Some ((k, v) :: rest)
  end.

Fixpoint expand_digests (ds : list Value) (object : BTreeMap string Value)
  : option (BTreeMap string Value) :=
  match ds with
  | [] => Some object
  | VString d :: rest =>
      match env d with
      | Some {| name := Some k; d_value := v |} =>
          let! v := rec v in expand_digests rest (bt_insert k v object)
      | _ => expand_digests rest object
      end
  | _ :: rest => expand_digests rest object
  end.

Fixpoint expand_elements (l : list Value) : option (list Value) :=
  match l with
  | [] => Some []
  | element :: rest =>
      match placeholder element with
      | Ok (Some d) =>
          match env d with
          | Some disclosure =>
              let! v := rec (d_value disclosure) in
              let! rest := expand_elements rest in
              Some (v :: rest)
          | None => expand_elements rest
          end
      | _ =>
          let! v := rec element in
          let! rest := expand_elements rest in
          Some (v :: rest)
      end
  end.
End loops.

Fixpoint expand (levels : nat) (v : Value) : option Value :=
  match levels with
  | O => None
  | S levels =>
      match v with
      | VObject object =>
          let object := bt_remove SD_ALG_CLAIM object in
          let! kept := expand_members (expand levels) (bt_remove SD_CLAIM object) in
          let! all := expand_digests (expand levels) (digest_list object) kept in
          Some (VObject all)
      | VArray l => let! l := expand_elements (expand levels) l in Some (VArray l)
      | v => Some v
      end
  end.
End expand.

(** A digest placeholder inside a value: a member of an [_sd] array, or the
    text of a [{... : digest}] element of an array. *)
Inductive placed (d : string) : Value -> Prop :=
| placed_sd m ds : bt_get m SD_CLAIM = Some (VArray ds) -> In (VString d) ds -> placed d (VObject m)
| placed_element l x : In x l -> placeholder x = Ok (Some d) -> placed d (VArray l)
| placed_member m k x : In (k, x) m -> placed d x -> placed d (VObject m)
| placed_inside l x : In x l -> placed d x -> placed d (VArray l).

(** The value at a path. *)
Fixpoint lookup_path (v : Value) (p : list ClaimPathElement) : option Value :=
  match p with
  | [] => Some v
  | Name k :: p =>
      match v with
      | VObject m => let! x := bt_get m k in lookup_path x p
      | _ => None
      end
  | Index i :: p =>
      match v with
      | VArray l => let! x := l !! Z.to_nat i in lookup_path x p
      | _ => None
      end
  end.

(** No trace of the mechanism is left. *)
Inductive clean : Value -> Prop :=
| clean_null : clean VNull
| clean_bool b : clean (VBool b)
| clean_number n : clean (VNumber n)
| clean_string s : clean (VString s)
| clean_array l : List.Forall clean l -> clean (VArray l)
| clean_object m : List.Forall (fun e => reserved (fst e) = false /\ clean (snd e)) m -> clean (VObject m).

(** The maps of a value have each key once, in order. *)
Inductive wf_value : Value -> Prop :=
| wf_null : wf_value VNull
| wf_bool b : wf_value (VBool b)
| wf_number n : wf_value (VNumber n)
| wf_string s : wf_value (VString s)
| wf_array l : List.Forall wf_value l -> wf_value (VArray l)
| wf_object m : bt_ok m -> List.Forall (fun e => wf_value (snd e)) m -> wf_value (VObject m).

(** ** The outcome of processing one value *)

Section outcome.
Context {SJ : SerdeJson} `{B64 : Base64} `{D : Digest}.
Variable env : BTreeMap string Disclosure.
Hypothesis env_wf : forall d x, bt_get env d = Some x -> wf_value (d_value x).

(** Where a recorded disclosure comes from: the value at hand, or the value of
    one that was recorded before it. *)
Definition origin (parent : option string) (P : string -> Prop) (pre : list VerifiedDisclosure)
    (x : VerifiedDisclosure) : Prop :=
  (exists disc, bt_get env (digest x) = Some disc /\ raw x = d_raw disc /\ value x = d_value disc)
  /\ ((parent_digest x = parent /\ P (digest x))
      \/ exists y, In y pre /\ parent_digest x = Some (digest y) /\ placed (digest x) (value y)).

Fixpoint derived (parent : option string) (P : string -> Prop) (pre l : list VerifiedDisclosure) : Prop :=
  match l with
  | [] => True
  | x :: l => origin parent P pre x /\ derived parent P (pre ++ [x]) l
  end.

(** A recorded path leads, below [path], to the expansion of the value. *)
Definition located (base : list ClaimPathElement) (v : Value) (x : VerifiedDisclosure) : Prop :=
  exists q n w, path x = base ++ q /\ q <> [] /\ lookup_path v q = Some w
    /\ expand (bt_get env) n (value x) = Some w.

Lemma origin_mono parent (P Q : string -> Prop) pre pre' x :
  (forall d, P d -> Q d) -> incl pre pre' -> origin parent P pre x -> origin parent Q pre' x.
Proof.
  intros HP Hpre (Hd & [[? ?]|(y & Hy & ?)]); (split; [done|]); [left; auto|right; exists y; auto].
Qed.

Lemma incl_snoc {A} (l k : list A) x : incl l k -> incl (l ++ [x]) (k ++ [x]).
Proof. intros H. apply incl_app_app; [done|apply incl_refl]. Qed.

Lemma derived_mono parent (P Q : string -> Prop) pre pre' l :
  (forall d, P d -> Q d) -> incl pre pre' -> derived parent P pre l -> derived parent Q pre' l.
Proof.
  revert pre pre'. induction l as [|x l IH]; intros pre pre' HP Hpre; cbn; [done|].
  intros [Hx Hl]. split; [by apply (origin_mono parent P Q pre)|].
  apply (IH (pre ++ [x])); [done| |done]. by apply incl_snoc.
Qed.

Lemma derived_app parent P pre l k :
  derived parent P pre (l ++ k) <-> derived parent P pre l /\ derived parent P (pre ++ l) k.
Proof.
  revert pre. induction l as [|x l IH]; intros pre; cbn; [rewrite app_nil_r; tauto|].
  rewrite IH, <- app_assoc. cbn. tauto.
Qed.

Lemma derived_join parent P l k :
  derived parent P [] l -> derived parent P [] k -> derived parent P [] (l ++ k).
Proof.
  intros Hl Hk. apply derived_app. split; [done|]. apply (derived_mono parent P P []); [done| |done].
  by intros ? [].
Qed.

(** What is recorded under a disclosure, with the disclosure before it. *)
Lemma derived_under_pre parent P x pre pre' l :
  derived (Some (digest x)) (fun d => placed d (value x)) pre l ->
  incl pre pre' -> In x pre' -> derived parent P pre' l.
Proof.
  revert pre pre'. induction l as [|y l IH]; intros pre pre'; cbn; [done|].
  intros [(Hd & Ho) Hl] Hp Hin. split.
  - split; [done|]. right. destruct Ho as [[Hpar Hpl]|(z & Hz & Hpar)]; [by exists x|exists z; auto].
  - apply (IH (pre ++ [y])); [done|by apply incl_snoc|]. apply in_app_iff. by left.
Qed.

Lemma derived_under parent P x l :
  origin parent P [] x -> derived (Some (digest x)) (fun d => placed d (value x)) [] l ->
  derived parent P [] (x :: l).
Proof.
  intros Hx Hl. split; [done|]. apply (derived_under_pre _ _ x []); [done| |by left].
  by intros ? [].
Qed.

(** What processing a value has recorded and returned. *)
Definition recorded (s s' : DisclosureProcessor) (base : list ClaimPathElement)
    (parent : option string) (P : string -> Prop) (v' : Value) : Prop :=
  disclosure_by_digest s' = env
  /\ exists ext, verified s' = verified s ++ ext
       /\ derived parent P [] ext /\ List.Forall (located base v') ext.

Definition grows (m m' : BTreeMap string Value) : Prop :=
  forall k x, bt_get m k = Some x -> bt_get m' k = Some x.

Lemma located_grows base m m' x : grows m m' -> located base (VObject m) x -> located base (VObject m') x.
Proof.
  intros Hg (q & n & w & Hp & Hq & Hl & He). exists q, n, w. repeat split; [done..| |done].
  destruct q as [|[k|i] q]; [done| |done]. cbn in *. destruct (bt_get m k) as [y|] eqn:E; [|done].
  by rewrite (Hg _ _ E).
Qed.

Lemma located_snoc base l y x : located base (VArray l) x -> located base (VArray (l ++ y)) x.
Proof.
  intros (q & n & w & Hp & Hq & Hl & He). exists q, n, w. repeat split; [done..| |done].
  destruct q as [|[k|i] q]; [done|done|]. cbn in *. destruct (l !! Z.to_nat i) as [z|] eqn:E; [|done].
  by rewrite (lookup_app_l_Some _ _ _ _ E).
Qed.

Lemma located_below base e v v' x :
  lookup_path v [e] = Some v' -> located (base ++ [e]) v' x -> located base v x.
Proof.
  intros Hv (q & n & w & Hp & Hq & Hl & He). exists (e :: q), n, w.
  rewrite <- app_assoc in Hp. repeat split; [done..| |done].
  destruct e as [k|i], v; cbn in *; try done.
  - destruct (bt_get l k); [|done]. by injection Hv as ->.
  - destruct (l !! Z.to_nat i); [|done]. by injection Hv as ->.
Qed.

Lemma recorded_trans s s1 s2 base parent (P Q : string -> Prop) v1 v2 :
  recorded s s1 base parent P v1 -> recorded s1 s2 base parent Q v2 ->
  (forall x, located base v1 x -> located base v2 x) ->
  recorded s s2 base parent (fun d => P d \/ Q d) v2.
Proof.
  intros (_ & e1 & V1 & D1 & L1) (He & e2 & V2 & D2 & L2) Hv. split; [done|]. exists (e1 ++ e2).
  rewrite V2, V1, <- app_assoc. split; [done|]. split.
  - apply derived_join; [apply (derived_mono parent P _ [] []) | apply (derived_mono parent Q _ [] [])];
      auto using incl_refl.
  - apply List.Forall_app. split; [|done]. by eapply List.Forall_impl; [|exact L1].
Qed.

Lemma recorded_weaken s s' base parent (P Q : string -> Prop) v v' :
  (forall d, P d -> Q d) -> (forall x, located base v x -> located base v' x) ->
  recorded s s' base parent P v -> recorded s s' base parent Q v'.
Proof.
  intros HP Hv (He & ext & V & Dv & L). split; [done|]. exists ext. split; [done|]. split.
  - by apply (derived_mono parent P _ [] []); [|apply incl_refl|].
  - by eapply List.Forall_impl; [|exact L].
Qed.

Lemma recorded_below s s' base e parent P v v' :
  lookup_path v [e] = Some v' -> recorded s s' (base ++ [e]) parent P v' ->
  recorded s s' base parent P v.
Proof.
  intros Hv (He & ext & V & Dv & L). split; [done|]. exists ext. split; [done|]. split; [done|].
  eapply List.Forall_impl; [|exact L]. intros x. by apply located_below.
Qed.

Lemma recorded_nil s base parent P v : disclosure_by_digest s = env -> recorded s s base parent P v.
Proof. intros H. split; [done|]. exists []. rewrite app_nil_r. repeat split. constructor. Qed.

(** What meeting a digest does. *)
Lemma disclose_Ok s d accept base parent s' found :
  disclosure_by_digest s = env -> disclose s d accept base parent = Ok (s', found) ->
  disclosure_by_digest s' = env
  /\ match found with
     | None => bt_get env d = None /\ verified s' = verified s
     | Some (disc, el) =>
         bt_get env d = Some disc /\ accept disc = Ok el
         /\ verified s' = verified s ++
              [{| raw := d_raw disc; digest := d; path := base ++ [el];
                  parent_digest := parent; value := d_value disc |}]
     end.
Proof.
  intros He. unfold disclose. destruct (encounter_digest s d) as [s1|] eqn:E1; [|done].
  assert (disclosure_by_digest s1 = env /\ verified s1 = verified s) as [D1 V1].
  { unfold encounter_digest in E1. repeat (case_match; try done). by injection E1 as <-. }
  rewrite D1. destruct (bt_get env d) as [disc|] eqn:Ed; [|by intros [= <- <-]].
  destruct (accept disc) as [el|] eqn:Ea; [|done].
  destruct (consume_budget s1 _) as [s2|] eqn:E2; [|done].
  assert (disclosure_by_digest s2 = env /\ verified s2 = verified s) as [D2 V2].
  { unfold consume_budget in E2. repeat (case_match; try done). by injection E2 as <-. }
  unfold record_disclosure. destruct (bt_contains _ _); [done|]. intros [= <- <-]. cbn [disclosure_by_digest verified].
  by rewrite V2.
Qed.

(** A disclosure and what its own value discloses. *)
Lemma recorded_disclosed s s1 s2 base el parent (P : string -> Prop) d disc n v' whole :
  bt_get env d = Some disc -> P d ->
  verified s1 = verified s ++ [{| raw := d_raw disc; digest := d; path := base ++ [el];
                                  parent_digest := parent; value := d_value disc |}] ->
  recorded s1 s2 (base ++ [el]) (Some d) (fun d => placed d (d_value disc)) v' ->
  expand (bt_get env) n (d_value disc) = Some v' -> lookup_path whole [el] = Some v' ->
  recorded s s2 base parent P whole.
Proof.
  intros Hd HP V1 (He & ext & V & Dv & L) Hx Hl. split; [done|]. eexists (_ :: ext).
  rewrite V, V1, <- app_assoc. split; [reflexivity|]. split.
  - apply derived_under; [|done]. split; [by exists disc|]. by left.
  - constructor; [exists [el], n, v'; by repeat split|].
    eapply List.Forall_impl; [|exact L]. intros x. by apply located_below.
Qed.

Section loops.
Variable process : DisclosureProcessor -> Value -> list ClaimPathElement -> option string ->
  result (DisclosureProcessor * Value) SdJwtError.
Variable n : nat.

(** The recursive call has done what it should. *)
Definition processed (s : DisclosureProcessor) (v : Value) (base : list ClaimPathElement)
    (parent : option string) (s' : DisclosureProcessor) (v' : Value) : Prop :=
  expand (bt_get env) n v = Some v' /\ clean v'
  /\ recorded s s' base parent (fun d => placed d v) v'.

Hypothesis process_ok : forall s v base parent s' v',
  disclosure_by_digest s = env -> wf_value v ->
  process s v base parent = Ok (s', v') -> processed s v base parent s' v'.

Definition clean_members (m : BTreeMap string Value) : Prop :=
  List.Forall (fun e => reserved (fst e) = false /\ clean (snd e)) m.

Lemma bt_get_head (k : string) (x : Value) m : bt_get ((k, x) :: m) k = Some x.
Proof. cbn [bt_get]. by rewrite key_cmp_refl. Qed.

Lemma bt_get_tail k (x : Value) m : ~ In k (map fst m) -> grows m ((k, x) :: m).
Proof.
  intros Hk k' y H. cbn [bt_get]. destruct (key_cmp k' k) eqn:E; [|done..].
  apply key_cmp_eq in E as ->. exfalso. apply Hk. clear Hk.
  induction m as [|[a b] m IH]; cbn [bt_get map fst] in *; [done|].
  destruct (key_cmp k a) eqn:E; [|right; auto..]. apply key_cmp_eq in E. by left.
Qed.

Lemma members_ok s m base parent s' m' :
  disclosure_by_digest s = env -> List.NoDup (map fst m) ->
  List.Forall (fun e => wf_value (snd e)) m ->
  List.Forall (fun e => reserved (fst e) = false) m ->
  process_members process s m base parent = Ok (s', m') ->
  expand_members (expand (bt_get env) n) m = Some m' /\ map fst m' = map fst m /\ clean_members m'
  /\ recorded s s' base parent (fun d => exists k x, In (k, x) m /\ placed d x) (VObject m').
Proof.
  revert s s' m'. induction m as [|[k v] m IH]; intros s s' m' He Hd Hw Hr H; cbn in H.
  { injection H as <- <-. repeat split; [constructor|done|]. exists []. rewrite app_nil_r.
    repeat split. constructor. }
  destruct (process _ _ _ _) as [[s1 v']|] eqn:E1; [|done].
  destruct (process_members _ _ _ _ _) as [[s2 m2]|] eqn:E2; [|done]. injection H as <- <-.
  inversion Hd as [|? ? Hk Hd']. inversion Hw as [|? ? Hv Hw']. inversion Hr as [|? ? Hk' Hr']. subst.
  apply process_ok in E1 as (X1 & C1 & R1); [|done..].
  apply IH in E2 as (X2 & K2 & C2 & R2); [|by destruct R1|done..].
  cbn. rewrite X1, X2, K2. split; [done|]. split; [done|]. split; [by constructor|].
  assert (recorded s s1 base parent (fun d => placed d v) (VObject ((k, v') :: m2))) as R1'.
  { apply (recorded_below _ _ _ (Name k) _ _ _ v'); [|done].
    cbn [lookup_path].
    by rewrite bt_get_head. }
  assert (recorded s1 s2 base parent (fun d => exists k x, In (k, x) m /\ placed d x)
            (VObject ((k, v') :: m2))) as R2'.
  { eapply recorded_weaken; [| |exact R2]; [done|]. intros x.
    apply located_grows, bt_get_tail. by rewrite K2. }
  eapply recorded_weaken; [| |apply (recorded_trans _ _ _ _ _ _ _ _ _ R1' R2')]; [|done|done].
  cbn. intros d [Hp|(k' & x & Hin & Hp)]; [exists k, v; auto|exists k', x; auto].
Qed.

Lemma accept_member_Ok object disc el :
  accept_member object disc = Ok el ->
  exists k, name disc = Some k /\ el = Name k /\ reserved k = false /\ bt_get object k = None.
Proof.
  unfold accept_member, bt_contains. destruct (name disc) as [k|]; cbn; [|done].
  destruct (reserved k) eqn:E; [done|]. destruct (bt_get object k) eqn:Eg; cbn; [done|].
  intros [= <-]. by exists k.
Qed.

Lemma insert_grows m k (x : Value) : bt_get m k = None -> grows m (bt_insert k x m).
Proof.
  intros Hk k' y H. rewrite bt_get_insert. destruct (key_cmp k' k) eqn:E; [|done..].
  apply key_cmp_eq in E as ->. congruence.
Qed.

Lemma digests_ok ds s m base parent s' m' :
  disclosure_by_digest s = env -> clean_members m ->
  process_digests process s m ds base parent = Ok (s', m') ->
  expand_digests (bt_get env) (expand (bt_get env) n) ds m = Some m'
  /\ grows m m' /\ clean_members m'
  /\ recorded s s' base parent (fun d => In (VString d) ds) (VObject m').
Proof.
  revert s m. induction ds as [|v ds IH]; intros s m He Hc H; cbn in H.
  { injection H as <- <-. repeat split; [by intros k x|done|done|].
    exists []. rewrite app_nil_r. repeat split. constructor. }
  destruct v as [| | |d| |]; try done. cbn [json_str ok_or] in H.
  destruct (disclose _ _ _ _ _) as [[s1 found]|] eqn:Ed; [|done].
  apply disclose_Ok in Ed as [He1 Hf]; [|done]. cbn [expand_digests].
  destruct found as [[disc el]|].
  - destruct Hf as (Hd & Ha & V1). apply accept_member_Ok in Ha as (k & Hn & -> & Hr & Hk).
    destruct (process _ _ _ _) as [[s2 v']|] eqn:Ep; [|done].
    apply process_ok in Ep as (X1 & C1 & R1); [|done|by apply (env_wf d)].
    apply IH in H as (X2 & G2 & C2 & R2); [|by destruct R1|].
    2: { apply List.Forall_forall. intros e [->|Hin]%insert_entry; [done|].
         unfold clean_members in Hc. rewrite List.Forall_forall in Hc. by apply Hc. }
    rewrite Hd. destruct disc as [rw sl nm val]. cbn in Hn, X1. subst nm. rewrite X1.
    split; [done|]. split; [intros a b Hab; by apply G2, insert_grows|]. split; [done|].
    assert (lookup_path (VObject m') [Name k] = Some v') as Hl.
    { cbn. rewrite (G2 k v'); [done|]. rewrite bt_get_insert. by rewrite key_cmp_refl. }
    assert (recorded s s2 base parent (fun e => e = d) (VObject m')) as R1'.
    { by eapply (recorded_disclosed s s1 s2 base (Name k) parent _ d). }
    eapply recorded_weaken; [| |apply (recorded_trans _ _ _ _ _ _ _ _ _ R1' R2)]; [|done|done].
    cbn. intros e [->|Hin]; auto.
  - destruct Hf as [Hd V1]. rewrite Hd. apply IH in H as (X2 & G2 & C2 & R2); [|done..].
    repeat split; [done..| |by destruct R2|].
    + by destruct R2.
    + destruct R2 as (_ & ext & V2 & D2 & L2). exists ext. rewrite V2, V1. repeat split; [|done].
      apply (derived_mono parent (fun d => In (VString d) ds) _ [] []); [|apply incl_refl|done].
      intros e Hin. by right.
Qed.

Lemma elements_ok l s acc base parent s' out :
  disclosure_by_digest s = env -> List.Forall wf_value l -> List.Forall clean acc ->
  process_elements process s acc l base parent = Ok (s', out) ->
  exists l', out = acc ++ l' /\ expand_elements (bt_get env) (expand (bt_get env) n) l = Some l'
    /\ List.Forall clean out
    /\ recorded s s' base parent (fun d => placed d (VArray l)) (VArray out).
Proof.
  revert s acc. induction l as [|v l IH]; intros s acc He Hw Hc H; cbn in H.
  { injection H as <- <-. exists []. rewrite app_nil_r. repeat split; [done..|].
    exists []. rewrite app_nil_r. repeat split. constructor. }
  inversion Hw as [|? ? Hv Hw']. subst.
  assert (forall d, placed d (VArray l) -> placed d (VArray (v :: l))) as Hpl.
  { intros d Hp. inversion Hp; subst.
    - eapply placed_element; [by right|done].
    - eapply placed_inside; [by right|done]. }
  assert (forall l' y, lookup_path (VArray ((acc ++ [y]) ++ l')) [Index (len acc)] = Some y) as Hat.
  { intros. cbn. unfold len. rewrite Nat2Z.id, <- app_assoc. cbn [app].
    by rewrite list_lookup_middle. }
  cbn [expand_elements].
  destruct (placeholder v) as [[d|]|] eqn:Epl; [| |done].
  - destruct (disclose _ _ _ _ _) as [[s1 found]|] eqn:Ed; [|done].
    apply disclose_Ok in Ed as [He1 Hf]; [|done]. destruct found as [[disc el]|].
    + destruct Hf as (Hd & Ha & V1). rewrite Hd. unfold accept_element in Ha.
      destruct (is_some (name disc)); [done|]. injection Ha as <-.
      destruct (process _ _ _ _) as [[s2 v']|] eqn:Ep; [|done].
      apply process_ok in Ep as (X1 & C1 & R1); [|done|by apply (env_wf d)].
      apply IH in H as (l' & -> & X2 & C2 & R2); [|by destruct R1|done|].
      2: { apply List.Forall_app. by repeat constructor. }
      rewrite X1, X2. exists (v' :: l'). rewrite <- app_assoc in C2 |- *.
      split; [done|]. split; [done|]. split; [done|].
      assert (recorded s s2 base parent (fun e => e = d) (VArray ((acc ++ [v']) ++ l'))) as R1'
        by (by eapply (recorded_disclosed s s1 s2 base (Index (len acc)) parent _ d)).
      rewrite <- app_assoc in R1', R2.
      eapply recorded_weaken; [| |apply (recorded_trans _ _ _ _ _ _ _ _ _ R1' R2)]; [|done|done].
      cbn. intros e [->|Hin]; [|auto]. eapply placed_element; [by left|done].
    + destruct Hf as [Hd V1]. rewrite Hd. apply IH in H as (l' & -> & X2 & C2 & R2); [|done..].
      exists l'. split; [done|]. split; [done|]. split; [done|]. split; [by destruct R2|].
      destruct R2 as (_ & ext & V2 & D2 & L2). exists ext. rewrite V2, V1. repeat split; [|done].
      by apply (derived_mono parent (fun d => placed d (VArray l)) _ [] []); [|apply incl_refl|].
  - destruct (process _ _ _ _) as [[s2 v']|] eqn:Ep; [|done].
    apply process_ok in Ep as (X1 & C1 & R1); [|done..].
    apply IH in H as (l' & -> & X2 & C2 & R2); [|by destruct R1|done|].
    2: { apply List.Forall_app. by repeat constructor. }
    rewrite X1, X2. exists (v' :: l'). rewrite <- app_assoc in C2 |- *.
    split; [done|]. split; [done|]. split; [done|].
    assert (recorded s s2 base parent (fun e => placed e v) (VArray ((acc ++ [v']) ++ l'))) as R1'
      by (apply (recorded_below _ _ _ (Index (len acc)) _ _ _ v'); [apply Hat|done]).
    rewrite <- app_assoc in R1', R2.
    eapply recorded_weaken; [| |apply (recorded_trans _ _ _ _ _ _ _ _ _ R1' R2)]; [|done|done].
    cbn. intros e [Hp|Hin]; [|auto]. eapply placed_inside; [by left|done].
Qed.
End loops.
End outcome.

(** ** Maps without a key *)

Lemma bt_remove_absent {V} (m : BTreeMap string V) k : bt_get m k = None -> bt_remove k m = m.
Proof.
  induction m as [|[a b] m IH]; cbn [bt_get bt_remove]; [done|].
  destruct (key_cmp k a); [done|intros H; by rewrite IH..].
Qed.

Lemma bt_get_absent {V} (m : BTreeMap string V) k e :
  bt_ok m -> bt_get m k = None -> In e m -> fst e <> k.
Proof. destruct e as [a b]. cbn. intros Hm Hk Hin ->. apply bt_get_In in Hin; [congruence|done]. Qed.

Lemma bt_keys_NoDup {V} (m : BTreeMap string V) : bt_ok m -> List.NoDup (map fst m).
Proof.
  unfold bt_ok. induction 1 as [|[a b] m Hm IH Hx]; cbn; constructor; [|done].
  intros (e & He & Hin)%in_map_iff. rewrite List.Forall_forall in Hx. specialize (Hx _ Hin).
  unfold key_lt in Hx. cbn [fst] in Hx. by rewrite He, key_cmp_refl in Hx.
Qed.

Lemma bt_insert_perm {V} (m : BTreeMap string V) k v :
  bt_get m k = None -> Permutation (bt_insert k v m) ((k, v) :: m).
Proof.
  induction m as [|[a b] m IH]; cbn [bt_get bt_insert]; [done|].
  destruct (key_cmp k a); [done|done|]. intros H. rewrite IH by done. apply perm_swap.
Qed.

Lemma wf_object_inv m : wf_value (VObject m) -> bt_ok m /\ List.Forall (fun e => wf_value (snd e)) m.
Proof. by inversion 1. Qed.

Lemma wf_array_inv l : wf_value (VArray l) -> List.Forall wf_value l.
Proof. by inversion 1. Qed.

(** ** One value *)

Section value.
Context {SJ : SerdeJson} `{B64 : Base64} `{D : Digest}.
Variable env : BTreeMap string Disclosure.
Hypothesis env_wf : forall d x, bt_get env d = Some x -> wf_value (d_value x).

(** The members that are left once the mechanism's own are taken out. *)
Lemma kept_members m :
  bt_ok m -> List.Forall (fun e => wf_value (snd e)) m ->
  bt_get m ELLIPSIS = None ->
  let kept := bt_remove SD_CLAIM (bt_remove SD_ALG_CLAIM m) in
  List.NoDup (map fst kept) /\ List.Forall (fun e => wf_value (snd e)) kept
  /\ List.Forall (fun e => reserved (fst e) = false) kept
  /\ forall e, In e kept -> In e m.
Proof.
  intros Hm Hw He. cbn zeta.
  assert (bt_ok (bt_remove SD_ALG_CLAIM m)) as Hm1 by (by apply bt_remove_ok).
  assert (bt_ok (bt_remove SD_CLAIM (bt_remove SD_ALG_CLAIM m))) as Hm2 by (by apply bt_remove_ok).
  assert (forall e, In e (bt_remove SD_CLAIM (bt_remove SD_ALG_CLAIM m)) -> In e m) as Hin
    by (intros e ?; by eapply bt_remove_In, bt_remove_In).
  split; [by apply bt_keys_NoDup|]. rewrite !List.Forall_forall in *. repeat split; [by auto| |done].
  intros e Hk. unfold reserved.
  rewrite (bool_decide_eq_false_2 (fst e = SD_CLAIM)), (bool_decide_eq_false_2 (fst e = SD_ALG_CLAIM)),
    (bool_decide_eq_false_2 (fst e = ELLIPSIS)); [done| | |];
    intros Ek.
  - apply (bt_get_absent m ELLIPSIS e); auto.
  - apply (bt_get_absent _ SD_ALG_CLAIM e Hm2); [|done|done].
    rewrite !bt_get_remove by done. by rewrite key_cmp_refl.
  - apply (bt_get_absent _ SD_CLAIM e Hm2); [|done|done].
    rewrite bt_get_remove by done. by rewrite key_cmp_refl.
Qed.

Lemma take_sd_alg_Ok m root m' : take_sd_alg m root = Ok m' -> m' = bt_remove SD_ALG_CLAIM m.
Proof.
  unfold take_sd_alg, bt_contains. destruct root; [by intros [= <-]|].
  destruct (bt_get m SD_ALG_CLAIM) eqn:E; cbn; [done|]. intros [= <-]. by rewrite bt_remove_absent.
Qed.

Lemma object_ok process n s m base parent root s' m' :
  (forall s v base parent s' v', disclosure_by_digest s = env -> wf_value v ->
     process s v base parent = Ok (s', v') -> processed env n s v base parent s' v') ->
  disclosure_by_digest s = env -> wf_value (VObject m) ->
  process_object process s m base parent root = Ok (s', m') ->
  processed env (S n) s (VObject m) base parent s' (VObject m').
Proof.
  intros Hp He Hw H. destruct (wf_object_inv _ Hw) as [Hm Hv].
  unfold process_object in H.
  destruct (take_sd_alg m root) as [m0|] eqn:E; [|done].
  apply take_sd_alg_Ok in E as ->. set (m1 := bt_remove SD_ALG_CLAIM m) in *.
  assert (forall k, k <> SD_ALG_CLAIM -> bt_get m1 k = bt_get m k) as Hget.
  { intros k Hk. unfold m1. rewrite bt_get_remove by done.
    destruct (key_cmp k SD_ALG_CLAIM) eqn:E; [|done..]. by apply key_cmp_eq in E. }
  unfold bt_contains in H. rewrite (Hget ELLIPSIS) in H by done.
  destruct (bt_get m ELLIPSIS) eqn:Eel; [done|]. cbn [is_some] in H.
  destruct (kept_members m Hm Hv Eel) as (Hd & Hwk & Hr & Hin). fold m1 in Hd, Hwk, Hr, Hin.
  assert (exists ds, digest_list m1 = ds
    /\ (forall d, In (VString d) ds -> placed d (VObject m))
    /\ (let? (self, object) := process_members process s (bt_remove SD_CLAIM m1) base parent in
        process_digests process self object ds base parent) = Ok (s', m')) as (ds & Eds & Hpl & H').
  { unfold digest_list. destruct (bt_get m1 SD_CLAIM) as [v|] eqn:Esd.
    - destruct v; try done. eexists. split; [done|]. split; [|done].
      intros d Hds. eapply placed_sd; [|done]. by rewrite <- Hget.
    - exists []. split; [done|]. split; [by intros ? []|done]. }
  clear H. destruct (process_members _ _ _ _ _) as [[s1 kept]|] eqn:Em; [|done].
  eapply members_ok in Em as (X1 & _ & C1 & R1); [|done..].
  eapply digests_ok in H' as (X2 & G2 & C2 & R2); [|done|done|by destruct R1|done].
  split; [|split; [by constructor|]].
  - cbn [expand]. fold m1. rewrite X1, Eds, X2. done.
  - assert (forall x, located env base (VObject kept) x -> located env base (VObject m') x) as Hg
      by (intros x; by apply located_grows).
    eapply recorded_weaken; [| |apply (recorded_trans env _ _ _ _ _ _ _ _ _ R1 R2 Hg)]; [|done].
    cbn. intros d [(k & x & Hk & Hx)|Hds]; [|by apply Hpl].
    eapply placed_member; [by apply Hin|done].
Qed.

Lemma value_ok levels s v base parent root s' v' :
  disclosure_by_digest s = env -> wf_value v ->
  process_value levels s v base parent root = Ok (s', v') ->
  processed env levels s v base parent s' v'.
Proof.
  revert s v base parent root s' v'.
  induction levels as [|n IH]; intros s v base parent root s' v' He Hw H; [done|]. cbn in H.
  assert (forall s v base parent s' v', disclosure_by_digest s = env -> wf_value v ->
     process_value n s v base parent false = Ok (s', v') -> processed env n s v base parent s' v') as Hp
    by (intros; by eapply IH).
  destruct v as [|b|x|t|l|m];
    try by (injection H as <- <-; split; [done|split; [constructor|by apply recorded_nil]]).
  - destruct (process_elements _ _ _ _ _ _) as [[s1 l1]|] eqn:El; [|done]. injection H as <- <-.
    apply wf_array_inv in Hw.
    apply (elements_ok _ env_wf (fun s v p q => process_value n s v p q false) n Hp) in El as (l' & -> & X & C & R); [|done..|constructor].
    cbn [app] in *. split; [cbn; by rewrite X|]. split; [by constructor|done].
  - destruct (process_object _ _ _ _ _ _) as [[s1 m1]|] eqn:Eo; [|done]. injection H as <- <-.
    by apply (object_ok (fun s v p q => process_value n s v p q false) n _ _ _ _ root).
Qed.
End value.

(** ** Invariants of the processor *)

Section invariant.
Context {SJ : SerdeJson} `{B64 : Base64} `{D : Digest}.
Variable I : DisclosureProcessor -> Prop.
Hypothesis encounter_keeps : forall s d s', I s -> encounter_digest s d = Ok s' -> I s'.
Hypothesis consume_keeps : forall s v s', I s -> consume_budget s v = Ok s' -> I s'.
Hypothesis record_keeps : forall s d x p q s', I s ->
  bt_get (disclosure_by_digest s) d = Some x -> record_disclosure s d x p q = Ok s' -> I s'.

Lemma disclose_keeps s d accept p q s' f : I s -> disclose s d accept p q = Ok (s', f) -> I s'.
Proof.
  unfold disclose. intros H. destruct (encounter_digest s d) as [s1|] eqn:E1; [|done].
  pose proof (encounter_keeps _ _ _ H E1) as H1.
  destruct (bt_get _ d) as [x|] eqn:Ex; [|by intros [= <- <-]]. destruct (accept x) as [el|]; [|done].
  destruct (consume_budget s1 _) as [s2|] eqn:E2; [|done].
  pose proof (consume_keeps _ _ _ H1 E2) as H2.
  assert (disclosure_by_digest s2 = disclosure_by_digest s1) as Ed.
  { unfold consume_budget in E2. repeat (case_match; try done). by injection E2 as <-. }
  rewrite <- Ed in Ex. destruct (record_disclosure _ _ _ _ _) as [s3|] eqn:E3; [|done].
  intros [= <- _]. by eapply record_keeps.
Qed.

Section loops.
Variable process : DisclosureProcessor -> Value -> list ClaimPathElement -> option string ->
  result (DisclosureProcessor * Value) SdJwtError.
Hypothesis process_keeps : forall s v p q s' v', I s -> process s v p q = Ok (s', v') -> I s'.

Lemma members_keep m s p q s' m' : I s -> process_members process s m p q = Ok (s', m') -> I s'.
Proof.
  revert s s' m'. induction m as [|[k v] m IH]; intros s s' m' H; cbn; [by intros [= <- <-]|].
  destruct (process _ _ _ _) as [[s1 v']|] eqn:E1; [|done].
  destruct (process_members _ _ _ _ _) as [[s2 m2]|] eqn:E2; [|done]. intros [= <- <-].
  eapply IH; [|exact E2]. by eapply process_keeps.
Qed.

Lemma digests_keep ds s m p q s' m' : I s -> process_digests process s m ds p q = Ok (s', m') -> I s'.
Proof.
  revert s m. induction ds as [|v ds IH]; intros s m H; cbn; [by intros [= <- <-]|].
  destruct (json_str v) as [d|]; [|done]. cbn.
  destruct (disclose _ _ _ _ _) as [[s1 f]|] eqn:Ed; [|done]. apply disclose_keeps in Ed; [|done].
  destruct f as [[x [k|i]]|]; [|by apply IH..].
  destruct (process _ _ _ _) as [[s2 v']|] eqn:E1; [|done]. apply IH. by eapply process_keeps.
Qed.

Lemma elements_keep l s acc p q s' out :
  I s -> process_elements process s acc l p q = Ok (s', out) -> I s'.
Proof.
  revert s acc. induction l as [|v l IH]; intros s acc H; cbn; [by intros [= <- <-]|].
  destruct (placeholder v) as [[d|]|]; [| |done].
  - destruct (disclose _ _ _ _ _) as [[s1 f]|] eqn:Ed; [|done]. apply disclose_keeps in Ed; [|done].
    destruct f as [[x el]|]; [|by apply IH].
    destruct (process _ _ _ _) as [[s2 v']|] eqn:E1; [|done]. apply IH. by eapply process_keeps.
  - destruct (process _ _ _ _) as [[s2 v']|] eqn:E1; [|done]. apply IH. by eapply process_keeps.
Qed.
End loops.

Lemma value_keeps levels s v p q root s' v' :
  I s -> process_value levels s v p q root = Ok (s', v') -> I s'.
Proof.
  revert s v p q root s' v'. induction levels as [|n IH]; intros s v p q root s' v' H E; [done|].
  cbn in E. set (process := fun s v p q => process_value n s v p q false) in E.
  assert (forall s v p q s' v', I s -> process s v p q = Ok (s', v') -> I s') as Hp
    by (intros; by eapply IH).
  destruct v as [| | | |l|m]; try by injection E as <- <-.
  - destruct (process_elements _ _ _ _ _ _) as [[s1 l1]|] eqn:El; [|done]. injection E as <- <-.
    by eapply (elements_keep process Hp); [|exact El].
  - unfold process_object in E. destruct (take_sd_alg m root) as [m0|]; [|done].
    destruct (bt_contains m0 _); [done|].
    destruct (match bt_get m0 SD_CLAIM with None => _ | _ => _ end) as [ds|]; [|done].
    destruct (process_members _ _ _ _ _) as [[s1 m1]|] eqn:E1; [|done].
    destruct (process_digests _ _ _ _ _ _) as [[s2 m2]|] eqn:E2; [|done]. injection E as <- <-.
    eapply (digests_keep process Hp); [|exact E2]. by eapply (members_keep process Hp); [|exact E1].
Qed.
End invariant.

(** The bookkeeping: the digests met are counted, and the used ones are those
    of the recorded disclosures, each once. *)
Definition tidy (s : DisclosureProcessor) : Prop :=
  bt_ok (used_disclosures s) /\ bt_ok (encountered_digests s)
  /\ embedded_digest_count s = len (encountered_digests s)
  /\ embedded_digest_count s <= MAX_EMBEDDED_DIGESTS
  /\ (forall d, bt_contains (used_disclosures s) d = true <-> In d (map digest (verified s)))
  /\ List.NoDup (map digest (verified s))
  /\ length (used_disclosures s) = length (verified s).

Section tidy.
Context {SJ : SerdeJson} `{B64 : Base64} `{D : Digest}.

Lemma tidy_encounter s d s' : tidy s -> encounter_digest s d = Ok s' -> tidy s'.
Proof.
  intros (Hu & He & Hc & Hm & Hi & Hd & Hl). unfold encounter_digest.
  destruct (decode_vec d) as [b|]; [|done]. cbn [ok_or].
  destruct (negb (len b =? 32)); [done|]. unfold usize_add, checked_u64.
  destruct (is_u64 _); [|done]. cbn [ok_or].
  destruct (MAX_EMBEDDED_DIGESTS <? _) eqn:Em; [done|].
  destruct (bt_contains (encountered_digests s) d) eqn:Ec; [done|]. intros [= <-]. bool_prop.
  repeat split; cbn; try done; [by apply bt_insert_ok| |by apply Hi|by apply Hi].
  unfold len. rewrite bt_insert_length, Ec by done. unfold len in Hc. lia.
Qed.

Lemma tidy_consume s v s' : tidy s -> consume_budget s v = Ok s' -> tidy s'.
Proof.
  unfold consume_budget. intros H. destruct (usize_add _ _); [|done]. cbn [ok_or].
  case_match; [done|]. by intros [= <-].
Qed.

Lemma contains_insert (m : BTreeMap string unit) d e :
  bt_contains (bt_insert d tt m) e = true <-> e = d \/ bt_contains m e = true.
Proof.
  unfold bt_contains. rewrite bt_get_insert. destruct (key_cmp e d) eqn:E.
  - apply key_cmp_eq in E. cbn. tauto.
  - split; [auto|]. intros [->|]; [|done]. by rewrite key_cmp_refl in E.
  - split; [auto|]. intros [->|]; [|done]. by rewrite key_cmp_refl in E.
Qed.

Lemma tidy_record s d x p q s' : tidy s -> record_disclosure s d x p q = Ok s' -> tidy s'.
Proof.
  intros (Hu & He & Hc & Hm & Hi & Hd & Hl). unfold record_disclosure.
  destruct (bt_contains (used_disclosures s) d) eqn:Ec; [done|]. intros [= <-].
  unfold tidy. cbn [used_disclosures encountered_digests embedded_digest_count verified].
  split; [by apply bt_insert_ok|]. split; [done|]. split; [done|]. split; [done|].
  rewrite map_app, bt_insert_length, Ec, length_app by done. cbn [map length]. split; [|split; [|lia]].
  - intros e. rewrite contains_insert, Hi, in_app_iff. cbn. intuition.
  - apply NoDup_ListNoDup, list.NoDup_app. split; [by apply NoDup_ListNoDup|].
    split; [|by apply NoDup_singleton]. intros e Hin ->%list_elem_of_singleton.
    apply list_elem_of_In, Hi in Hin. cbn [digest] in Hin. congruence.
Qed.

Lemma tidy_new m n : tidy (new_processor m n).
Proof. repeat split; cbn; try done; constructor. Qed.

Lemma value_tidy levels s v p q root s' v' :
  tidy s -> process_value levels s v p q root = Ok (s', v') -> tidy s'.
Proof.
  apply value_keeps; [apply tidy_encounter|apply tidy_consume|].
  intros ? ? ? ? ? ? H _. by apply tidy_record.
Qed.

(** ** The index of the disclosures *)

Lemma disclosure_parse_raw r disc : disclosure_parse r = Ok disc -> d_raw disc = r.
Proof.
  unfold disclosure_parse. destruct (_ <? _); [done|]. destruct (decode_vec r) as [b|]; [|done]. cbn.
  destruct (value_from_slice b) as [v|]; [|done]. cbn. destruct (json_array v) as [l|]; [|done]. cbn.
  destruct l as [|s [|n [|v' [|? ?]]]]; try done; destruct (json_str s); try done; cbn.
  - by intros [= <-].
  - destruct (json_str n); [|done]. by intros [= <-].
Qed.

Lemma index_Ok m raws m' :
  bt_ok m -> index_disclosures m raws = Ok m' ->
  bt_ok m'
  /\ Permutation (map (fun e => d_raw (snd e)) m') (map (fun e => d_raw (snd e)) m ++ raws)
  /\ (forall d x, bt_get m' d = Some x ->
        bt_get m d = Some x \/ (d = raw_digest (d_raw x) /\ disclosure_parse (d_raw x) = Ok x)).
Proof.
  revert m. induction raws as [|r raws IH]; intros m Hm; cbn.
  { intros [= <-]. rewrite app_nil_r. auto. }
  destruct (disclosure_parse r) as [disc|] eqn:Ep; [|done].
  pose proof (disclosure_parse_raw _ _ Ep) as Er.
  unfold bt_contains. destruct (bt_get m (digest_b64 disc)) eqn:Eg; cbn; [done|].
  intros H. apply IH in H as (Ho & Hp & Hg); [|by apply bt_insert_ok]. split; [done|]. split.
  - rewrite Hp, (Permutation_map _ (bt_insert_perm m _ disc Eg)). cbn. rewrite Er.
    apply Permutation_middle.
  - intros d x Hx. apply Hg in Hx as [Hx|]; [|auto]. rewrite bt_get_insert in Hx.
    destruct (key_cmp d (digest_b64 disc)) eqn:E; [|by left..].
    injection Hx as ->. apply key_cmp_eq in E as ->. right.
    unfold digest_b64. by rewrite Er.
Qed.
End tidy.

(** What the reader of serde_json promises of the values it returns. *)
Class SerdeTypes {SJ : SerdeJson} : Prop := {
  from_slice_wf : forall b v, value_from_slice b = Some v -> wf_value v;
}.

Section payload.
Context {SJ : SerdeJson} {ST : SerdeTypes} `{B64 : Base64} `{D : Digest}.

Lemma disclosure_wf r disc : disclosure_parse r = Ok disc -> wf_value (d_value disc).
Proof.
  unfold disclosure_parse. destruct (_ <? _); [done|]. destruct (decode_vec r) as [b|]; [|done]. cbn.
  destruct (value_from_slice b) as [v|] eqn:E; [|done]. apply from_slice_wf in E. cbn.
  destruct v as [| | | |l|]; try done. cbn. apply wf_array_inv in E. rewrite List.Forall_forall in E.
  destruct l as [|s [|n [|v [|? ?]]]]; try done.
  - destruct (json_str s); [|done]. intros [= <-]. apply E. cbn. auto.
  - destruct (json_str s); [|done]. cbn. destruct (json_str n); [|done]. intros [= <-].
    apply E. cbn. auto.
Qed.

(** A disclosure that was reached, among the ones presented. *)
Definition reached (raws : list string) (payload : Value) (pre : list VerifiedDisclosure)
    (x : VerifiedDisclosure) : Prop :=
  (In (raw x) raws /\ digest x = raw_digest (raw x)
   /\ exists disc, disclosure_parse (raw x) = Ok disc /\ value x = d_value disc)
  /\ ((parent_digest x = None /\ placed (digest x) payload)
      \/ exists y, In y pre /\ parent_digest x = Some (digest y) /\ placed (digest x) (value y)).

Lemma derived_split env parent P pre l :
  derived env parent P pre l -> forall a x b, l = a ++ x :: b -> origin env parent P (pre ++ a) x.
Proof.
  revert pre. induction l as [|y l IH]; intros pre H a x b; [by destruct a|].
  destruct H as [Ho Hl]. destruct a as [|z a]; intros [= -> ->]; [by rewrite app_nil_r|].
  replace (pre ++ z :: a) with ((pre ++ [z]) ++ a) by (by rewrite <- app_assoc). by eapply IH.
Qed.

Lemma payload_ok payload raws p :
  wf_value payload -> process_payload payload raws = Ok p ->
  exists m, index_disclosures [] raws = Ok m
  /\ expand (bt_get m) (S MAX_NESTING_DEPTH) payload = Some (VObject (claims p))
  /\ clean (VObject (claims p))
  /\ len (value_to_vec (VObject (claims p))) <= MAX_PROCESSED_JSON_BYTES
  /\ Permutation (map raw (verified_disclosures p)) raws
  /\ List.Forall (located m [] (VObject (claims p))) (verified_disclosures p)
  /\ forall pre x post, verified_disclosures p = pre ++ x :: post -> reached raws payload pre x.
Proof.
  intros Hw. unfold process_payload.
  destruct (index_disclosures [] raws) as [m|] eqn:Em; [|done].
  pose proof Em as Ei. apply index_Ok in Ei as (Ho & Hp & Hg); [|constructor].
  destruct (process_value _ _ _ _ _ _) as [[s v]|] eqn:Ev; [|done].
  pose proof (value_tidy _ _ _ _ _ _ _ _ (tidy_new _ _) Ev) as (Hu & _ & _ & _ & Hi & Hd & Hl).
  assert (forall d x, bt_get m d = Some x -> d = raw_digest (d_raw x) /\ disclosure_parse (d_raw x) = Ok x)
    as Hget by (intros d x Hx; by apply Hg in Hx as [|]).
  eapply (value_ok m) in Ev as (X & C & (He & ext & V & Dv & L)); [| |done|done].
  2: { intros d x Hx. apply Hget in Hx as [_ Hx]. by eapply disclosure_wf. }
  rewrite He. destruct (negb _) eqn:El; [done|]. bool_prop.
  destruct (_ <? _) eqn:Es; [done|]. destruct v as [| | | | |obj]; try done. cbn [json_object ok_or].
  intros [= <-]. cbn [claims verified_disclosures]. cbn [verified new_processor app] in V.
  exists m. bool_prop. split; [done|]. split; [done|]. split; [done|]. split; [lia|].
  assert (forall pre x post, verified s = pre ++ x :: post ->
    origin m None (fun d => placed d payload) pre x) as Hor.
  { rewrite V. intros pre x post E. by apply (derived_split _ _ _ [] _ Dv _ _ post). }
  assert (Permutation (map (fun x => (digest x, raw x)) (verified s))
            (map (fun e => (fst e, d_raw (snd e))) m)) as Hperm.
  { apply NoDup_Permutation_bis.
    - apply (NoDup_map_inv fst). rewrite map_map. exact Hd.
    - rewrite !length_map. unfold len in El. lia.
    - intros e (x & <- & Hx)%in_map_iff. apply in_split in Hx as (pre & post & Ex).
      destruct (Hor _ _ _ Ex) as ((disc & Hb & Hr & _) & _). apply bt_get_In in Hb; [|done].
      apply in_map_iff. exists (digest x, disc). cbn. by rewrite Hr. }
  split; [|split].
  - rewrite <- Hp. apply (Permutation_map snd) in Hperm. by rewrite !map_map in Hperm.
  - by rewrite V.
  - intros pre x post Ex. destruct (Hor _ _ _ Ex) as ((disc & Hb & Hr & Hv) & Horig).
    apply Hget in Hb as Hb'. destruct Hb' as [Edig Epar]. split; [|done]. rewrite Hr.
    split; [|split; [done|by exists disc]].
    apply (Permutation_in _ Hp). apply bt_get_In in Hb; [|done]. apply in_map_iff.
    by exists (digest x, disc).
Qed.
End payload.

(** ** The index is the list of the presented disclosures *)

Section presented.
Context {SJ : SerdeJson} `{B64 : Base64} `{D : Digest}.

(** The presented disclosure with a given digest. *)
Fixpoint presented (raws : list string) (d : string) : option Disclosure :=
  match raws with
  | [] => None
  | r :: rest => if bool_decide (raw_digest r = d) then ok (disclosure_parse r) else presented rest d
  end.

Lemma index_presented m raws m' d :
  index_disclosures m raws = Ok m' ->
  bt_get m' d = match bt_get m d with Some x => Some x | None => presented raws d end.
Proof.
  revert m. induction raws as [|r raws IH]; intros m; cbn; [intros [= <-]; by destruct (bt_get m d)|].
  destruct (disclosure_parse r) as [disc|] eqn:Ep; [|done].
  pose proof (disclosure_parse_raw _ _ Ep) as Er. unfold bt_contains.
  destruct (bt_get m (digest_b64 disc)) eqn:Eg; cbn; [done|]. intros H. rewrite (IH _ H), bt_get_insert.
  unfold digest_b64 in *. rewrite Er in *. destruct (key_cmp d (raw_digest r)) eqn:E.
  - apply key_cmp_eq in E as ->. rewrite Eg. by rewrite bool_decide_eq_true_2.
  - destruct (bt_get m d); [done|]. rewrite bool_decide_eq_false_2; [done|].
    intros <-. by rewrite key_cmp_refl in E.
  - destruct (bt_get m d); [done|]. rewrite bool_decide_eq_false_2; [done|].
    intros <-. by rewrite key_cmp_refl in E.
Qed.
End presented.

(** ** The properties *)

Section properties.
Context {SJ : SerdeJson} {ST : SerdeTypes} `{B64 : Base64} `{D : Digest} `{V : Verifier}.

Lemma verify_and_process_Ok self key alg p :
  verify_and_process self key alg = Ok p ->
  exists jws obj,
    split_jws (issuer_jwt self) = Ok jws /\ parse_jose_alg (header jws) = Ok alg
    /\ v_get_str (header jws) "typ" = Some "dc+sd-jwt"%string
    /\ verify alg key (as_bytes (signing_input jws)) (signature jws) = Ok tt
    /\ value_from_slice (payload_bytes jws) = Some (VObject obj)
    /\ issuer_payload self = Ok obj
    /\ check_hash_alg obj = Ok tt
    /\ process_payload (VObject obj) (disclosures self) = Ok p.
Proof.
  unfold verify_and_process, issuer_payload.
  destruct (split_jws _) as [jws|] eqn:Es; [|done].
  destruct (parse_jose_alg _) as [a|] eqn:Ea; [|done]. case_bool_decide; [subst a|done]. cbn [negb].
  case_bool_decide as Et; [|done]. cbn [negb].
  destruct (verify _ _ _ _) as [[]|] eqn:Ev; [|done]. cbn [map_err].
  destruct (value_from_slice _) as [v|] eqn:Ep; [|done]. cbn [ok_or].
  destruct v as [| | | | |obj]; try done. cbn [json_object ok_or].
  destruct (check_hash_alg obj) as [[]|] eqn:Eh; [|done]. intros H. exists jws, obj. auto 10.
Qed.

(** C14: Nothing is disclosed that the issuer did not sign.  When processing
    succeeds, the issuer's signature over this header and payload has been
    verified under the algorithm of the protected header, the disclosures in
    the result are exactly the presented ones, and each was reached from its
    digest in the issuer's payload, or in the value of a disclosure that was
    reached before it and is named as its parent. *)
Theorem disclosures_are_issuer_signed self key alg p :
  verify_and_process self key alg = Ok p ->
  exists jws obj,
    split_jws (issuer_jwt self) = Ok jws /\ parse_jose_alg (header jws) = Ok alg
    /\ v_get_str (header jws) "typ" = Some "dc+sd-jwt"%string
    /\ verify alg key (as_bytes (signing_input jws)) (signature jws) = Ok tt
    /\ value_from_slice (payload_bytes jws) = Some (VObject obj)
    /\ Permutation (map raw (verified_disclosures p)) (disclosures self)
    /\ forall pre x post, verified_disclosures p = pre ++ x :: post ->
         reached (disclosures self) (VObject obj) pre x.
Proof.
  intros (jws & obj & Hs & Ha & Ht & Hv & Hp & _ & _ & H)%verify_and_process_Ok.
  exists jws, obj. apply payload_ok in H as (m & _ & _ & _ & _ & Hperm & _ & Hr);
    [auto 10|by eapply from_slice_wf].
Qed.

(** C15: The processed claims are the expansion of the signed payload with the
    presented disclosures, as the reference function defines it: every known
    digest is replaced by its claim, the others disappear.  No member of the
    disclosure mechanism is left in them, they are within the output limit, and
    the path recorded for a disclosure leads to what its value expands to. *)
Theorem claims_are_the_expansion self key alg p :
  verify_and_process self key alg = Ok p ->
  exists obj env,
    issuer_payload self = Ok obj /\ (forall d, env d = presented (disclosures self) d)
    /\ expand env (S MAX_NESTING_DEPTH) (VObject obj) = Some (VObject (claims p))
    /\ clean (VObject (claims p))
    /\ len (value_to_vec (VObject (claims p))) <= MAX_PROCESSED_JSON_BYTES
    /\ List.Forall (fun x => exists n v,
         lookup_path (VObject (claims p)) (path x) = Some v /\ expand env n (value x) = Some v)
         (verified_disclosures p).
Proof.
  intros (jws & obj & _ & _ & _ & _ & Hp & Hi & _ & H)%verify_and_process_Ok.
  apply payload_ok in H as (m & Hm & Hx & Hc & Hl & _ & Hloc & _); [|by eapply from_slice_wf].
  exists obj, (bt_get m). split; [done|]. split; [intros d; by rewrite (index_presented [] _ m d Hm)|].
  repeat split; [done..|]. eapply List.Forall_impl; [|exact Hloc].
  intros x (q & n & v & -> & _ & Hv & He). by exists n, v.
Qed.

(** What [verify_presentation] establishes. *)
Lemma verify_presentation_Ok self key alg kb c :
  verify_presentation self key alg kb = Ok c ->
  verify_and_disclose self key alg = Ok c
  /\ exists kb_jwt jws obj,
       key_binding_jwt self = Some kb_jwt /\ split_jws kb_jwt = Ok jws
       /\ parse_jose_alg (header jws) = Ok (device_alg kb)
       /\ v_get_str (header jws) "typ" = Some "kb+jwt"%string
       /\ verify (device_alg kb) (device_public_key kb) (as_bytes (signing_input jws))
            (signature jws) = Ok tt
       /\ value_from_slice (payload_bytes jws) = Some (VObject obj)
       /\ is_some (m_get_i64 obj "iat") = true
       /\ m_get_str obj "aud" = Some (expected_aud kb)
       /\ m_get_str obj "nonce" = Some (expected_nonce kb)
       /\ m_get_str obj "sd_hash" = Some (encode_string (sha256 (presentation self))).
Proof.
  unfold verify_presentation. destruct (verify_and_disclose _ _ _) as [c'|]; [|done].
  destruct (key_binding_jwt self) as [kj|]; [|done]. cbn [ok_or].
  destruct (split_jws kj) as [jws|] eqn:Es; [|done].
  destruct (parse_jose_alg _) as [a|] eqn:Ea; [|done].
  destruct (_ || _) eqn:Eg; [done|]. bool_prop.
  apply bool_decide_eq_true in H as ->. apply bool_decide_eq_true in H0.
  destruct (verify _ _ _ _) as [[]|] eqn:Ev; [|done]. cbn [map_err].
  destruct (value_from_slice _) as [v|] eqn:Ep; [|done]. cbn [ok_or].
  destruct v as [| | | | |obj]; try done. cbn [json_object ok_or].
  destruct (check_kb_payload _ _ _) as [[]|] eqn:Ek; [|done]. intros [= <-]. split; [done|].
  exists kj, jws, obj. unfold check_kb_payload in Ek.
  destruct (is_none (m_get_i64 obj "iat")) eqn:Ei; [done|].
  case_bool_decide as Eaud; [|done]. cbn [negb] in Ek. case_bool_decide as En; [|done]. cbn [negb] in Ek.
  case_bool_decide as Eh; [|done]. unfold is_none in Ei. apply negb_false_iff in Ei. auto 15.
Qed.

(** The text under [sd_hash] is the serialization without key-binding JWT. *)
Lemma presentation_serialize self :
  presentation self
  = as_bytes (serialize {| issuer_jwt := issuer_jwt self; disclosures := disclosures self;
                           key_binding_jwt := None |}).
Proof.
  unfold presentation, serialize, segments.
  cbn [issuer_jwt disclosures key_binding_jwt unwrap_or map]. rewrite as_bytes_of_list, map_app.
  generalize (as_bytes (issuer_jwt self)) as i. cbn [map].
  induction (disclosures self) as [|d ds IH]; intros i; [done|]. cbn [map concat app].
  change (join_byte Byte.x7e (i :: as_bytes d :: map as_bytes ds ++ [as_bytes ""]))
    with (i ++ Byte.x7e :: join_byte Byte.x7e (as_bytes d :: map as_bytes ds ++ [as_bytes ""])).
  rewrite <- IH. cbn [app]. by rewrite <- app_assoc.
Qed.

Lemma presentation_inj v w :
  forallb (fun s => free_of Byte.x7e (as_bytes s)) (issuer_jwt v :: disclosures v) = true ->
  forallb (fun s => free_of Byte.x7e (as_bytes s)) (issuer_jwt w :: disclosures w) = true ->
  presentation v = presentation w -> issuer_jwt v = issuer_jwt w /\ disclosures v = disclosures w.
Proof.
  intros Hv Hw. rewrite !presentation_serialize. intros E%as_bytes_inj%(f_equal (str_split Byte.x7e)).
  rewrite !str_split_serialize in E.
  - unfold segments in E. cbn [issuer_jwt disclosures key_binding_jwt unwrap_or] in E.
    injection E as -> E. by apply app_inj_tail in E as [-> _].
  - unfold segments. cbn [issuer_jwt disclosures key_binding_jwt unwrap_or].
    rewrite app_comm_cons, forallb_app, Hw. done.
  - unfold segments. cbn [issuer_jwt disclosures key_binding_jwt unwrap_or].
    rewrite app_comm_cons, forallb_app, Hv. done.
Qed.

(** C16: A presentation is accepted only from the holder, for this relying party
    and this request: the key-binding JWT is signed by the device key under
    the device's algorithm, has the expected audience, nonce and type, and
    binds the credential and the set of disclosures; another presentation
    accepted with the same key-binding JWT is of the same credential with the
    same disclosures (unless the digest has a collision). *)
Theorem presentation_is_holder_bound {BL : Base64Laws} self key alg kb c :
  verify_presentation self key alg kb = Ok c ->
  verify_and_disclose self key alg = Ok c
  /\ (exists kb_jwt jws obj,
       key_binding_jwt self = Some kb_jwt /\ split_jws kb_jwt = Ok jws
       /\ parse_jose_alg (header jws) = Ok (device_alg kb)
       /\ v_get_str (header jws) "typ" = Some "kb+jwt"%string
       /\ verify (device_alg kb) (device_public_key kb) (as_bytes (signing_input jws))
            (signature jws) = Ok tt
       /\ value_from_slice (payload_bytes jws) = Some (VObject obj)
       /\ m_get_str obj "aud" = Some (expected_aud kb)
       /\ m_get_str obj "nonce" = Some (expected_nonce kb))
  /\ forall other key' alg' kb' c',
       verify_presentation other key' alg' kb' = Ok c' ->
       key_binding_jwt other = key_binding_jwt self ->
       forallb (fun s => free_of Byte.x7e (as_bytes s)) (issuer_jwt self :: disclosures self) = true ->
       forallb (fun s => free_of Byte.x7e (as_bytes s)) (issuer_jwt other :: disclosures other) = true ->
       (issuer_jwt other = issuer_jwt self /\ disclosures other = disclosures self) \/ collision.
Proof.
  intros H%verify_presentation_Ok.
  destruct H as (Hc & kj & jws & obj & Hk & Hs & Ha & Ht & Hv & Hp & _ & Haud & Hn & Hh).
  split; [done|]. split; [by exists kj, jws, obj; auto 10|].
  intros other key' alg' kb' c' H' Ek Hf Hf'. apply verify_presentation_Ok in H' as
    (_ & kj' & jws' & obj' & Hk' & Hs' & _ & _ & _ & Hp' & _ & _ & _ & Hh').
  rewrite Ek, Hk in Hk'. injection Hk' as <-. rewrite Hs in Hs'. injection Hs' as <-.
  rewrite Hp in Hp'. injection Hp' as <-. rewrite Hh in Hh'. injection Hh' as Eh.
  apply (f_equal decode_vec) in Eh. rewrite !decode_encode in Eh. injection Eh as Eh.
  destruct (bytes_or_collision _ _ Eh) as [Ep|]; [left|by right]. by apply presentation_inj.
Qed.
End properties.

(** ** A concrete credential *)

Module Examples.

Definition hex (s : string) : string := @encode_string Samples.hex64 (as_bytes s).

Definition dig (s : string) : string := @raw_digest Samples.hex64 Samples.trunc_digest (hex s).

Definition obj (l : list (string * Value)) : Value := VObject (bt_extend [] l).

Definition vstr (s : string) : Value := VString s.

(** A reader that knows the documents of the example. *)
Definition documents : list (string * Value) := [
  ("H", obj [("alg", vstr "ES256"); ("typ", vstr "dc+sd-jwt")]);
  ("K", obj [("alg", vstr "ES256"); ("typ", vstr "kb+jwt")]);
  ("P", obj [("_sd", VArray [vstr (dig "D1"); vstr (dig "decoy")]); ("_sd_alg", vstr "sha-256");
             ("countries", VArray [obj [("...", vstr (dig "D3"))]; vstr "FR"])]);
  ("D1", VArray [vstr "s1"; vstr "address"; obj [("_sd", VArray [vstr (dig "D2")])]]);
  ("D2", VArray [vstr "s2"; vstr "city"; vstr "Berlin"]);
  ("D3", VArray [vstr "s3"; vstr "DE"])]%string.

Definition jwt (h p : string) : string :=
  (hex h ++ "." ++ hex p ++ "." ++ hex (hex h ++ "." ++ hex p))%string.

Definition credential : SdJwtVc := {|
  issuer_jwt := jwt "H" "P"; disclosures := [hex "D1"; hex "D2"; hex "D3"];
  key_binding_jwt := Some (jwt "K" "B");
|}.

(** The key-binding payload names the hash of the presentation. *)
Definition kb_payload : Value :=
  obj [("iat", VNumber (PosInt 1700000000)); ("aud", vstr "rp"); ("nonce", vstr "n");
       ("sd_hash", vstr (@encode_string Samples.hex64
                           (@sha256 Samples.trunc_digest (presentation credential))))]%string.

Definition read (b : bytes) : option Value :=
  assoc (string_of_list_byte b) (("B"%string, kb_payload) :: documents).

Definition serde : SerdeJson := {| value_from_slice := read; value_to_vec := fun _ => [] |}.

Lemma assoc_In {A} k (l : list (string * A)) a : assoc k l = Some a -> In (k, a) l.
Proof.
  induction l as [|[k' x] l IH]; cbn; [done|]. case_bool_decide; [intros [= ->]; subst; auto|auto].
Qed.

Lemma obj_wf l : List.Forall (fun e => wf_value (snd e)) l -> wf_value (obj l).
Proof.
  intros H. constructor; [apply bt_extend_ok; constructor|].
  assert (forall m, List.Forall (fun e : string * Value => wf_value (snd e)) m ->
    List.Forall (fun e => wf_value (snd e)) (bt_extend m l)) as Hm; [|by apply Hm].
  induction H as [|[k v] l Hv Hl IH]; intros m Hm; [done|]. apply IH.
  apply List.Forall_forall. intros e [->|Hin]%insert_entry; [done|].
  rewrite List.Forall_forall in Hm. by apply Hm.
Qed.

#[export] Instance serde_types : @SerdeTypes serde.
Proof.
  constructor. intros b v H. apply assoc_In in H. cbn [documents In] in H.
  repeat match type of H with
  | _ \/ _ => destruct H as [H|H]
  end; try done; apply (f_equal snd) in H; cbn [snd] in H; subst v; clear;
    repeat first [apply obj_wf | constructor].
Qed.

Definition check : KeyBindingCheck := {|
  device_public_key := []; expected_aud := "rp"; expected_nonce := "n"; device_alg := Es256 |}.

Definition run : result ProcessedSdJwt SdJwtError :=
  @verify_and_process serde Samples.hex64 Samples.trunc_digest Samples.echo_verifier credential [] Es256.

Example disclosed :
  option_map (fun p => (claims p, map path (verified_disclosures p))) (ok run)
  = Some ([("address", VObject [("city", VString "Berlin")]);
           ("countries", VArray [VString "DE"; VString "FR"])]%string,
          [[Name "countries"; Index 0]; [Name "address"]; [Name "address"; Name "city"]]).
Proof. vm_compute. reflexivity. Qed.
End Examples.

Lemma disclosures_are_issuer_signed_witness :
  exists p, Examples.run = Ok p
    /\ Permutation (map raw (verified_disclosures p)) (disclosures Examples.credential).
Proof.
  destruct Examples.run as [p|] eqn:E; [|vm_compute in E; discriminate E]. exists p. split; [done|].
  destruct (@disclosures_are_issuer_signed Examples.serde Examples.serde_types Samples.hex64
    Samples.trunc_digest Samples.echo_verifier _ _ _ _ E) as (jws & obj & _ & _ & _ & _ & _ & H & _).
  exact H.
Defined.

Lemma claims_are_the_expansion_witness :
  exists p, Examples.run = Ok p /\ clean (VObject (claims p)).
Proof.
  destruct Examples.run as [p|] eqn:E; [|vm_compute in E; discriminate E]. exists p. split; [done|].
  destruct (@claims_are_the_expansion Examples.serde Examples.serde_types Samples.hex64
    Samples.trunc_digest Samples.echo_verifier _ _ _ _ E) as (obj & env & _ & _ & _ & H & _).
  exact H.
Defined.

Lemma presentation_is_holder_bound_witness :
  exists c, @verify_and_disclose Examples.serde Samples.hex64 Samples.trunc_digest
    Samples.echo_verifier Examples.credential [] Es256 = Ok c.
Proof.
  destruct (@verify_presentation Examples.serde Samples.hex64 Samples.trunc_digest
    Samples.echo_verifier Examples.credential [] Es256 Examples.check) as [c|] eqn:E;
    [|vm_compute in E; discriminate E].
  exists c. by apply (@presentation_is_holder_bound Examples.serde Samples.hex64
    Samples.trunc_digest Samples.echo_verifier Samples.hex64_laws) in E as [E _].
Defined.
