(* ===== verification/Oid4vci.v ===== *)
(** * Credential issuance (crates/oid4vci/src/lib.rs)

    The OpenID4VCI machine for the two HAIP grants, its guards, the
    proof-of-possession signing input, the offer parser and the crate's
    reference model ([Model]).  The theorems: the proof is specific to issuer,
    nonce, time and device key; a credential is issued only after a trusted
    offer, the user's acceptance, the steps of its grant, a bound token with a
    fresh nonce and an attested key, the device's proof signature, and an
    authenticated response of the offered format, in this order; the machine
    simulates the reference model. *)

From S2P Require Import Prelude Utf8 Boundary SdJwt Machine.

Open Scope Z_scope.
Open Scope rust_scope.

(** ** Data *)

Inductive HaipGrant : Type :=
| PreAuthorized (tx_code_required : bool)
| AuthorizationCode.

Inductive CredentialFormat : Type := MsoMdoc | DcSdJwt.

#[export] Instance format_eq_decision : EqDecision CredentialFormat.
Proof. solve_decision. Defined.

Inductive AbortReason : Type :=
| UnsupportedGrant
| UnsupportedFormat
| IssuerNotTrusted
| PkceMissing
| TxCodeInvalid
| TokenNotBound
| CNonceStale
| ProofKeyNotAttested
| CredentialInvalid
| UserDeclined.

Inductive State : Type :=
| Idle
| ReviewingOffer (grant : HaipGrant) (format : CredentialFormat)
| OfferParsed (grant : HaipGrant) (format : CredentialFormat)
| Authorizing (format : CredentialFormat)
| AwaitingTxCode (format : CredentialFormat)
| RequestingToken (format : CredentialFormat)
| ProvingPossession (format : CredentialFormat) (proof_signing_input : string)
| RequestingCredential (format : CredentialFormat)
| CredentialIssued (format : CredentialFormat) (credential : bytes)
| Aborted (reason : AbortReason).

Inductive Input : Type :=
| CredentialOffer (b : bytes)
| AcceptOffer
| ParPushed (pkce_s256 : bool)
| AuthCodeReturned (code : bytes)
| TxCodeEntered (code : bytes)
| TokenResponse (bound : bool) (c_nonce : Z)
| ProofSignatureProduced (sig : bytes)
| CredentialResponse (format : CredentialFormat) (b : bytes) (issuer_authenticated : bool)
| CredentialResponseRejected
| Decline.

Inductive Output : Type :=
| ReviewOffer (format : CredentialFormat)
| PushPar
| OpenAuthBrowser
| PromptTxCode
| RequestToken
| SignProof (key_ref : string) (signing_input : bytes)
| RequestCredential (proof_jwt : bytes)
| Close.

Record Env : Type := {
  issuer_trusted : bool;
  env_proof_key_attested : bool;
  seen_c_nonces : list Z;
  device_key_ref : string;
  device_public_key : bytes;
  issuer_id : string;
  now_epoch : Z;
}.

(** ** Guards *)

Definition grant_type_is_haip_allowed (_g : HaipGrant) : bool := true.

Definition credential_format_is_supported (f : CredentialFormat) : bool :=
  match f with MsoMdoc | DcSdJwt => true end.

Definition issuer_is_trusted (env : Env) : bool := issuer_trusted env.

Definition pkce_s256_present (pkce_s256 : bool) : bool := pkce_s256.

Definition tx_code_valid (code : bytes) : bool := negb (is_empty code).

Definition access_token_is_bound (bound : bool) : bool := bound.

Definition c_nonce_is_fresh (c_nonce : Z) (seen : list Z) : bool :=
  negb (existsb (Z.eqb c_nonce) seen).

Definition proof_key_is_attested (env : Env) : bool := env_proof_key_attested env.

(** ** Operations *)

Section oid4vci.
Context `{JL : JsonLib} `{B64 : Base64}.

Definition base64url (b : bytes) : string := encode_string b.

(** The coordinates of an uncompressed P-256 point, empty for anything else. *)
Definition coordinates (key : bytes) : bytes * bytes :=
  match key with
  | Byte.x04 :: _ =>
      if len key =? 65 then (take 32 (drop 1 key), take 32 (drop 33 key)) else ([], [])
  | _ => ([], [])
  end.

Definition proof_header (device_public_key : bytes) : Json :=
  let '(x, y) := coordinates device_public_key in
  j_object [
    ("alg", j_string "ES256");
    ("typ", j_string "openid4vci-proof+jwt");
    ("jwk", j_object [("kty", j_string "EC"); ("crv", j_string "P-256");
                      ("x", j_string (base64url x)); ("y", j_string (base64url y))])]%string.

Definition proof_payload (issuer_id : string) (c_nonce iat : Z) : Json :=
  j_object [("aud", j_string issuer_id); ("iat", j_int iat); ("nonce", j_int c_nonce)]%string.

Definition proof_signing_input (issuer_id : string) (c_nonce iat : Z) (device_public_key : bytes)
  : string :=
  let header := base64url (as_bytes (to_string (proof_header device_public_key))) in
  let payload_b64 := base64url (as_bytes (to_string (proof_payload issuer_id c_nonce iat))) in
  (header ++ "." ++ payload_b64)%string.

Definition parse_offer (b : bytes) : option (HaipGrant * CredentialFormat) :=
  let! v := from_slice b in
  if is_some (get v "credential_issuer") then
    let! x := get v "credential_configuration_ids" in
    let! ids := as_array x in
    let grant := match get v "grants" with Some g => get g "authorization_code" | None => None end in
    match ids with
    | [id] =>
        if bool_decide (as_str id = Some "dev.advatar.tlsn.evidence.sd-jwt"%string) && is_some grant
        then Some (AuthorizationCode, DcSdJwt) else None
    | _ => None
    end
  else
    let! format :=
      match get_str v "format" with
      | Some f =>
          if bool_decide (f = "mso_mdoc"%string) then Some MsoMdoc
          else if bool_decide (f = "dc+sd-jwt"%string) || bool_decide (f = "vc+sd-jwt"%string)
          then Some DcSdJwt else None
      | None => None
      end in
    let! grant :=
      match get_str v "grant" with
      | Some g =>
          if bool_decide (g = "pre-authorized"%string)
             || bool_decide (g = "urn:ietf:params:oauth:grant-type:pre-authorized_code"%string)
          then Some (PreAuthorized
                 (unwrap_or (match get v "tx_code_required" with
                             | Some b => as_bool b | None => None end) false))
          else if bool_decide (g = "authorization_code"%string) then Some AuthorizationCode
          else None
      | None => None
      end in
    Some (grant, format).

Definition validate_issued_credential (format : CredentialFormat) (b : bytes) : bool :=
  match format with
  | DcSdJwt => match from_utf8 b with Some s => is_ok (SdJwt.parse s) | None => false end
  | MsoMdoc => negb (is_empty b)
  end.

Definition step (state : State) (input : Input) (env : Env) : State * list Output :=
  match state, input with
  | Idle, CredentialOffer b =>
      match parse_offer b with
      | Some (grant, format) =>
          if negb (issuer_is_trusted env) then (Aborted IssuerNotTrusted, [])
          else if negb (grant_type_is_haip_allowed grant) then (Aborted UnsupportedGrant, [])
          else if negb (credential_format_is_supported format) then (Aborted UnsupportedFormat, [])
          else (ReviewingOffer grant format, [ReviewOffer format])
      | None => (Aborted UnsupportedGrant, [])
      end
  | ReviewingOffer grant format, AcceptOffer =>
      match grant with
      | AuthorizationCode => (OfferParsed grant format, [PushPar])
      | PreAuthorized true => (AwaitingTxCode format, [PromptTxCode])
      | PreAuthorized false => (RequestingToken format, [RequestToken])
      end
  | OfferParsed AuthorizationCode format, ParPushed pkce_s256 =>
      if negb (pkce_s256_present pkce_s256) then (Aborted PkceMissing, [])
      else (Authorizing format, [OpenAuthBrowser])
  | Authorizing format, AuthCodeReturned _ => (RequestingToken format, [RequestToken])
  | AwaitingTxCode format, TxCodeEntered code =>
      if negb (tx_code_valid code) then (Aborted TxCodeInvalid, [])
      else (RequestingToken format, [RequestToken])
  | RequestingToken format, TokenResponse bound c_nonce =>
      if negb (access_token_is_bound bound) then (Aborted TokenNotBound, [])
      else if negb (c_nonce_is_fresh c_nonce (seen_c_nonces env)) then (Aborted CNonceStale, [])
      else if negb (proof_key_is_attested env) then (Aborted ProofKeyNotAttested, [])
      else
        let p := proof_signing_input (issuer_id env) c_nonce (now_epoch env) (device_public_key env) in
        (ProvingPossession format p, [SignProof (device_key_ref env) (as_bytes p)])
  | ProvingPossession format p, ProofSignatureProduced sig =>
      let proof_jwt := (p ++ "." ++ base64url sig)%string in
      (RequestingCredential format, [RequestCredential (as_bytes proof_jwt)])
  | RequestingCredential format, CredentialResponse got b issuer_authenticated =>
      if negb (bool_decide (got = format)) || negb (credential_format_is_supported got)
      then (Aborted UnsupportedFormat, [Close])
      else if negb issuer_authenticated || negb (validate_issued_credential got b)
      then (Aborted CredentialInvalid, [Close])
      else (CredentialIssued got b, [Close])
  | RequestingCredential _, CredentialResponseRejected => (Aborted CredentialInvalid, [Close])
  | _, Decline => (Aborted UserDeclined, [Close])
  | s, _ => (s, [])
  end.
End oid4vci.

Arguments proof_signing_input {JL B64} issuer_id c_nonce iat device_public_key : simpl never.

#[export] Instance oid4vci_machine `{JL : JsonLib} `{B64 : Base64} : Machine State Input Env Output :=
  {| initial := Idle; transition := step |}.

(** ** The reference model (oid4vci::model) *)

Module Model.

Inductive St : Type :=
| MIdle
| MReviewingOffer
| MOfferParsed
| MProvingPossession
| MRequestingCredential
| MCredentialIssued
| MAborted.

Inductive Ev : Type :=
| MOffer (trusted : bool)
| MApproveOffer
| MToken (bound attested : bool)
| MProof
| MCredential (valid portrait_valid : bool)
| MProcessDeath.

Record Ctx : Type := {
  st : St;
  c_issuer_trusted : bool;
  c_token_bound : bool;
  c_proof_key_attested : bool;
  c_portrait_profile_valid : bool;
  c_holder_approved : bool;
}.

Definition init : Ctx :=
  {| st := MIdle; c_issuer_trusted := false; c_token_bound := false;
     c_proof_key_attested := false; c_portrait_profile_valid := false;
     c_holder_approved := false |}.

Definition with_st (c : Ctx) (s : St) : Ctx :=
  {| st := s; c_issuer_trusted := c_issuer_trusted c; c_token_bound := c_token_bound c;
     c_proof_key_attested := c_proof_key_attested c;
     c_portrait_profile_valid := c_portrait_profile_valid c;
     c_holder_approved := c_holder_approved c |}.

Definition step (c : Ctx) (ev : Ev) : Ctx :=
  match ev with
  | MOffer trusted =>
      match st c with
      | MIdle =>
          if trusted
          then {| st := MReviewingOffer; c_issuer_trusted := true;
                  c_token_bound := c_token_bound c;
                  c_proof_key_attested := c_proof_key_attested c;
                  c_portrait_profile_valid := c_portrait_profile_valid c;
                  c_holder_approved := c_holder_approved c |}
          else with_st c MAborted
      | _ => c
      end
  | MApproveOffer =>
      match st c with
      | MReviewingOffer =>
          {| st := MOfferParsed; c_issuer_trusted := c_issuer_trusted c;
             c_token_bound := c_token_bound c;
             c_proof_key_attested := c_proof_key_attested c;
             c_portrait_profile_valid := c_portrait_profile_valid c;
             c_holder_approved := true |}
      | _ => c
      end
  | MToken bound attested =>
      match st c with
      | MOfferParsed =>
          if negb bound then with_st c MAborted
          else if negb attested then with_st c MAborted
          else {| st := MProvingPossession; c_issuer_trusted := c_issuer_trusted c;
                  c_token_bound := true; c_proof_key_attested := true;
                  c_portrait_profile_valid := c_portrait_profile_valid c;
                  c_holder_approved := c_holder_approved c |}
      | _ => c
      end
  | MProof =>
      match st c with MProvingPossession => with_st c MRequestingCredential | _ => c end
  | MCredential valid portrait_valid =>
      match st c with
      | MRequestingCredential =>
          if valid && portrait_valid
          then {| st := MCredentialIssued; c_issuer_trusted := c_issuer_trusted c;
                  c_token_bound := c_token_bound c;
                  c_proof_key_attested := c_proof_key_attested c;
                  c_portrait_profile_valid := true; c_holder_approved := c_holder_approved c |}
          else with_st c MAborted
      | _ => c
      end
  | MProcessDeath =>
      match st c with
      | MReviewingOffer | MOfferParsed | MProvingPossession | MRequestingCredential =>
          with_st c MAborted
      | _ => c
      end
  end.

Definition run (evs : list Ev) : Ctx := fold_left step evs init.

Definition state_name (s : St) : string :=
  match s with
  | MIdle => "idle"
  | MReviewingOffer => "reviewingOffer"
  | MOfferParsed => "offerParsed"
  | MProvingPossession => "provingPossession"
  | MRequestingCredential => "requestingCredential"
  | MCredentialIssued => "credentialIssued"
  | MAborted => "aborted"
  end.

End Model.

(** ** The proof *)

Ltac distinct_keys := cbn [map fst]; match goal with |- ?P => exact (bool_decide_unpack P I) end.

Section proofs.
Context `{JL : JsonLib} `{B64 : Base64}.

(** An uncompressed P-256 point, as the shell supplies it. *)
Definition p256_key (key : bytes) : bool := (len key =? 65) && bool_decide (head key = Some Byte.x04).

Lemma coordinates_p256 key :
  p256_key key = true ->
  coordinates key = (take 32 (drop 1 key), take 32 (drop 33 key))
  /\ key = Byte.x04 :: take 32 (drop 1 key) ++ take 32 (drop 33 key).
Proof.
  unfold p256_key, coordinates. intros H. bool_prop.
  match goal with H : bool_decide _ = true |- _ => apply bool_decide_eq_true in H; rename H into Hh end.
  destruct key as [|b key]; [done|]. injection Hh as ->.
  match goal with H : len _ = 65 |- _ => rename H into Hl end. rewrite Hl. split; [done|].
  rewrite len_cons in Hl. unfold len in Hl. cbn [drop].
  rewrite (take_ge (drop 32 key)) by (rewrite length_drop; lia). f_equal. symmetry. apply take_drop.
Qed.

Lemma base64url_inj {BL : Base64Laws} a b : base64url a = base64url b -> a = b.
Proof.
  unfold base64url. intros E. pose proof (decode_encode a) as Ha. rewrite E, decode_encode in Ha.
  by injection Ha.
Qed.

Lemma proof_header_inj {BL : Base64Laws} {JI : JsonInj} k k' :
  p256_key k = true -> p256_key k' = true -> proof_header k = proof_header k' -> k = k'.
Proof.
  intros Hk Hk' E. destruct (coordinates_p256 k Hk) as [C K], (coordinates_p256 k' Hk') as [C' K'].
  unfold proof_header in E. rewrite C, C' in E.
  apply j_object_inj in E; [|distinct_keys|reflexivity].
  injection E as E. apply j_object_inj in E; [|distinct_keys|reflexivity].
  injection E as Ex Ey. apply j_string_inj, base64url_inj in Ex, Ey. by rewrite K, K', Ex, Ey.
Qed.

Lemma proof_payload_inj {JI : JsonInj} i n t i' n' t' :
  is_u64 n && is_u64 n' && is_i64 t && is_i64 t' = true ->
  proof_payload i n t = proof_payload i' n' t' -> i = i' /\ n = n' /\ t = t'.
Proof.
  unfold proof_payload. intros H E. bool_prop.
  apply j_object_inj in E; [|distinct_keys|reflexivity].
  injection E as Ei Et En. apply j_string_inj in Ei.
  apply j_int_inj in Et; [|by apply orb_true_iff; left..].
  apply j_int_inj in En; [|by apply orb_true_iff; right..]. done.
Qed.

(** The base64url alphabet has no dot, so the two parts of a JWS can be told
    apart. *)
Lemma base64url_free {BL : Base64Laws} b : free_of Byte.x2e (as_bytes (base64url b)) = true.
Proof.
  unfold free_of, base64url. pose proof (encode_alphabet b) as H. rewrite forallb_forall in *.
  intros c Hc. apply H in Hc. by destruct c.
Qed.

Lemma dotted_inj {BL : Base64Laws} a b c d :
  (base64url a ++ "." ++ base64url b)%string = (base64url c ++ "." ++ base64url d)%string ->
  a = c /\ b = d.
Proof.
  intros E. apply (f_equal as_bytes), (f_equal (split_byte Byte.x2e)) in E.
  rewrite !as_bytes_app in E. change (as_bytes ".") with [Byte.x2e] in E. cbn [app] in E.
  rewrite !split_byte_app, !split_byte_free in E by apply base64url_free.
  injection E as E1 E2. apply as_bytes_inj, base64url_inj in E1, E2. done.
Qed.

Lemma proof_inj {BL : Base64Laws} {JI : JsonInj} i n t k i' n' t' k' :
  is_u64 n && is_u64 n' && is_i64 t && is_i64 t' && p256_key k && p256_key k' = true ->
  proof_signing_input i n t k = proof_signing_input i' n' t' k' ->
  i = i' /\ n = n' /\ t = t' /\ k = k'.
Proof.
  intros H E. rewrite !andb_true_iff in H. destruct H as [[H Hk] Hk'].
  unfold proof_signing_input in E. apply dotted_inj in E as [Eh Ep].
  apply as_bytes_inj, to_string_inj in Eh, Ep.
  apply proof_header_inj in Eh; [|done..]. apply proof_payload_inj in Ep; [|by rewrite !andb_true_iff].
  destruct Ep as (? & ? & ?). done.
Qed.

(** ** Histories *)

(** The offer as the user saw it. *)
Definition reviewed (e : event Input Env Output) (g : HaipGrant) (f : CredentialFormat) : Prop :=
  exists b env, e = Event (CredentialOffer b) env [ReviewOffer f]
    /\ parse_offer b = Some (g, f) /\ issuer_trusted env = true.

(** From the user's acceptance to the token request. *)
Inductive grant_steps : HaipGrant -> list (event Input Env Output) -> Prop :=
| pre_authorized e :
    grant_steps (PreAuthorized false) [Event AcceptOffer e [RequestToken]]
| transaction_code e e' c :
    c <> [] ->
    grant_steps (PreAuthorized true)
      [Event AcceptOffer e [PromptTxCode]; Event (TxCodeEntered c) e' [RequestToken]]
| authorization_code e e' e'' c :
    grant_steps AuthorizationCode
      [Event AcceptOffer e [PushPar]; Event (ParPushed true) e' [OpenAuthBrowser];
       Event (AuthCodeReturned c) e'' [RequestToken]].

(** The proof the device is asked for. *)
Definition proof_of (n : Z) (e : Env) : string :=
  proof_signing_input (issuer_id e) n (now_epoch e) (device_public_key e).

Definition token (n : Z) (e : Env) : event Input Env Output :=
  Event (TokenResponse true n) e [SignProof (device_key_ref e) (as_bytes (proof_of n e))].

Definition token_checked (n : Z) (e : Env) : Prop :=
  ~ In n (seen_c_nonces e) /\ env_proof_key_attested e = true.

Definition proof_jwt (p : string) (sig : bytes) : bytes := as_bytes (p ++ "." ++ base64url sig)%string.

Definition proved (p : string) (sig : bytes) (e : Env) : event Input Env Output :=
  Event (ProofSignatureProduced sig) e [RequestCredential (proof_jwt p sig)].

Definition issued (f : CredentialFormat) (c : bytes) (e : Env) : event Input Env Output :=
  Event (CredentialResponse f c true) e [Close].

(** What the device was asked to sign, and the credential requests. *)
Definition to_sign (h : history Input Env Output) : list bytes :=
  flat_map (fun o => match o with SignProof _ m => [m] | _ => [] end) (outputs h).

Definition requests (h : history Input Env Output) : list bytes :=
  flat_map (fun o => match o with RequestCredential j => [j] | _ => [] end) (outputs h).

Definition quiet (h : history Input Env Output) : Prop := to_sign h = [] /\ requests h = [].

(** The story up to the token request. *)
Definition may_request (h : history Input Env Output) (g : HaipGrant) (f : CredentialFormat)
  (steps : list (event Input Env Output)) : Prop :=
  exists r, reviewed r g f /\ sublist (r :: steps) h.

Definition explains (h : history Input Env Output) (s : State) : Prop :=
  match s with
  | Idle => quiet h
  | ReviewingOffer g f => quiet h /\ may_request h g f []
  | OfferParsed g f =>
      quiet h /\ g = AuthorizationCode
      /\ exists e, may_request h g f [Event AcceptOffer e [PushPar]]
  | Authorizing f =>
      quiet h /\ exists e e', may_request h AuthorizationCode f
        [Event AcceptOffer e [PushPar]; Event (ParPushed true) e' [OpenAuthBrowser]]
  | AwaitingTxCode f =>
      quiet h /\ exists e, may_request h (PreAuthorized true) f [Event AcceptOffer e [PromptTxCode]]
  | RequestingToken f =>
      quiet h /\ exists g gs, grant_steps g gs /\ may_request h g f gs
  | ProvingPossession f p =>
      requests h = [] /\ exists g gs n e, grant_steps g gs /\ token_checked n e
        /\ p = proof_of n e /\ to_sign h = [as_bytes p] /\ may_request h g f (gs ++ [token n e])
  | RequestingCredential f =>
      exists g gs n e sig e', grant_steps g gs /\ token_checked n e
        /\ to_sign h = [as_bytes (proof_of n e)] /\ requests h = [proof_jwt (proof_of n e) sig]
        /\ may_request h g f (gs ++ [token n e; proved (proof_of n e) sig e'])
  | CredentialIssued f c =>
      validate_issued_credential f c = true
      /\ exists g gs n e sig e' e'', grant_steps g gs /\ token_checked n e
        /\ to_sign h = [as_bytes (proof_of n e)] /\ requests h = [proof_jwt (proof_of n e) sig]
        /\ may_request h g f (gs ++ [token n e; proved (proof_of n e) sig e'; issued f c e''])
  | Aborted _ => True
  end.

Lemma vci_to_sign_snoc h i e out :
  to_sign (h ++ [Event i e out])
  = to_sign h ++ flat_map (fun o => match o with SignProof _ m => [m] | _ => [] end) out.
Proof. apply flat_snoc. Qed.

Lemma requests_snoc h i e out :
  requests (h ++ [Event i e out])
  = requests h ++ flat_map (fun o => match o with RequestCredential j => [j] | _ => [] end) out.
Proof. apply flat_snoc. Qed.

(** An event without signature or request keeps what was said so far. *)
Definition silent (out : list Output) : Prop :=
  flat_map (fun o => match o with SignProof _ m => [m] | _ => [] end) out = []
  /\ flat_map (fun o => match o with RequestCredential j => [j] | _ => [] end) out = [].

Lemma quiet_snoc h i e out : silent out -> quiet h -> quiet (h ++ [Event i e out]).
Proof.
  intros [S1 S2] [H1 H2]. unfold quiet. by rewrite vci_to_sign_snoc, requests_snoc, H1, H2, S1, S2.
Qed.

Lemma may_request_keep h g f l e : may_request h g f l -> may_request (h ++ [e]) g f l.
Proof. intros (r & Hr & Hs). exists r. split; [done|]. by apply sublist_snoc. Qed.

Lemma may_request_snoc h g f l e : may_request h g f l -> may_request (h ++ [e]) g f (l ++ [e]).
Proof. intros (r & Hr & Hs). exists r. split; [done|]. by apply (sublist_snoc_same (r :: l)). Qed.

Lemma vci_stays h s i e : explains h s -> explains (h ++ [Event i e []]) s.
Proof.
  pose proof (vci_to_sign_snoc h i e []) as E1. pose proof (requests_snoc h i e []) as E2.
  cbn in E1, E2. rewrite app_nil_r in E1, E2.
  destruct s; cbn; unfold quiet; rewrite ?E1, ?E2;
    naive_solver eauto using may_request_keep.
Qed.
End proofs.

#[export] Hint Resolve may_request_keep may_request_snoc : wallet.

Section history.
Context `{JL : JsonLib} `{B64 : Base64}.

Ltac silent_step := apply quiet_snoc; [by split|assumption].

Lemma c_nonce_fresh n l : c_nonce_is_fresh n l = true -> ~ In n l.
Proof.
  unfold c_nonce_is_fresh. rewrite negb_true_iff. intros H Hin.
  apply not_true_iff_false in H. apply H, existsb_exists. exists n. by rewrite Z.eqb_refl.
Qed.

(** Offer and acceptance. *)
Lemma explains_offer h b e s' out :
  quiet h -> step Idle (CredentialOffer b) e = (s', out) ->
  explains (h ++ [Event (CredentialOffer b) e out]) s'.
Proof.
  intros Hq E. unfold step in E. destruct (parse_offer b) as [[g f]|] eqn:Ep; [|by injection E as <- <-].
  unfold issuer_is_trusted, grant_type_is_haip_allowed in E.
  destruct (issuer_trusted e) eqn:Et; cbn [negb] in E; [|by injection E as <- <-].
  destruct (credential_format_is_supported f); cbn [negb] in E; injection E as <- <-; [|done].
  split; [silent_step|]. exists (Event (CredentialOffer b) e [ReviewOffer f]). split.
  - by exists b, e.
  - apply (sublist_snoc_same []), sublist_nil_l.
Qed.

Lemma explains_accept h g f e s' out :
  explains h (ReviewingOffer g f) -> step (ReviewingOffer g f) AcceptOffer e = (s', out) ->
  explains (h ++ [Event AcceptOffer e out]) s'.
Proof.
  intros [Hq Hm] E. destruct g as [[|]|]; injection E as <- <-; cbn.
  - split; [silent_step|]. exists e. apply (may_request_snoc _ _ _ [] _ Hm).
  - split; [silent_step|]. exists (PreAuthorized false), [Event AcceptOffer e [RequestToken]].
    split; [constructor|]. apply (may_request_snoc _ _ _ [] _ Hm).
  - split; [silent_step|]. split; [done|]. exists e. apply (may_request_snoc _ _ _ [] _ Hm).
Qed.

Lemma explains_token h f n bound e s' out :
  explains h (RequestingToken f) ->
  step (RequestingToken f) (TokenResponse bound n) e = (s', out) ->
  explains (h ++ [Event (TokenResponse bound n) e out]) s'.
Proof.
  intros (Hq & g & gs & Hg & Hm) E. unfold step, access_token_is_bound, proof_key_is_attested in E.
  destruct bound; cbn [negb] in E; [|by injection E as <- <-].
  destruct (c_nonce_is_fresh n (seen_c_nonces e)) eqn:Ef; cbn [negb] in E; [|by injection E as <- <-].
  destruct (env_proof_key_attested e) eqn:Ea; cbn [negb] in E; injection E as <- <-; [|done].
  destruct Hq as [H1 H2]. cbn [explains]. rewrite requests_snoc, H2. split; [done|].
  exists g, gs, n, e. rewrite vci_to_sign_snoc, H1. split_and!; try done.
  - split; [by apply c_nonce_fresh|done].
  - by apply may_request_snoc.
Qed.

Lemma explains_credential h f got b a e s' out :
  explains h (RequestingCredential f) ->
  step (RequestingCredential f) (CredentialResponse got b a) e = (s', out) ->
  explains (h ++ [Event (CredentialResponse got b a) e out]) s'.
Proof.
  intros (g & gs & n & et & sig & ep & Hg & Ht & H1 & H2 & Hm) E. unfold step in E.
  case_bool_decide as Hf; cbn [negb orb] in E; [|by injection E as <- <-]. subst got.
  destruct (credential_format_is_supported f); cbn [negb] in E; [|by injection E as <- <-].
  destruct a; cbn [negb orb] in E; [|by injection E as <- <-].
  destruct (validate_issued_credential f b) eqn:Ev; cbn [negb] in E; injection E as <- <-; [|done].
  split; [done|]. exists g, gs, n, et, sig, ep, e.
  rewrite vci_to_sign_snoc, requests_snoc, H1, H2. split_and!; try done; try apply Ht.
  pose proof (may_request_snoc _ _ _ _ (issued f b e) Hm) as Hs. by rewrite <- app_assoc in Hs.
Qed.

Lemma vci_explains_holds h s : reaches h s -> explains h s.
Proof.
  apply reaches_invariant; [by split|]. clear. intros h s i e s' out _ IH E. cbn in E.
  destruct s as [|g f|[t|] f|f|f|f|f p|f|f c|a].
  all: destruct i as [b| |pk|code|code|bound n|sig|got b auth| |];
    try (injection E as <- <-; by apply vci_stays); try (injection E as <- <-; exact I).
  - by eapply explains_offer.
  - by eapply explains_accept.
  - destruct IH as (Hq & _ & e1 & Hm). unfold step, pkce_s256_present in E.
    destruct pk; cbn [negb] in E; injection E as <- <-; [|done].
    split; [silent_step|]. exists e1, e. apply (may_request_snoc _ _ _ [_] _ Hm).
  - injection E as <- <-. destruct IH as (Hq & e1 & e2 & Hm). split; [silent_step|].
    exists AuthorizationCode, [Event AcceptOffer e1 [PushPar]; Event (ParPushed true) e2 [OpenAuthBrowser];
      Event (AuthCodeReturned code) e [RequestToken]].
    split; [constructor|]. apply (may_request_snoc _ _ _ [_; _] _ Hm).
  - destruct IH as (Hq & e1 & Hm). unfold step, tx_code_valid in E.
    destruct (is_empty code) eqn:Ec; cbn [negb] in E; injection E as <- <-; [done|].
    split; [silent_step|]. exists (PreAuthorized true),
      [Event AcceptOffer e1 [PromptTxCode]; Event (TxCodeEntered code) e [RequestToken]].
    split; [constructor; by intros ->|]. apply (may_request_snoc _ _ _ [_] _ Hm).
  - by eapply explains_token.
  - injection E as <- <-. destruct IH as (H2 & g & gs & n & et & Hg & Ht & -> & H1 & Hm).
    exists g, gs, n, et, sig, e. rewrite vci_to_sign_snoc, requests_snoc, H1, H2.
    split_and!; try done; try apply Ht.
    pose proof (may_request_snoc _ _ _ _ (proved (proof_of n et) sig e) Hm) as Hs.
    by rewrite <- app_assoc in Hs.
  - by eapply explains_credential.
Qed.

(** ** The machine and its reference model *)

(** What the model has recorded in each state that is not aborted. *)
Definition model_context (s : State) : Model.Ctx :=
  let context st trusted bound attested portrait approved :=
    {| Model.st := st; Model.c_issuer_trusted := trusted; Model.c_token_bound := bound;
       Model.c_proof_key_attested := attested; Model.c_portrait_profile_valid := portrait;
       Model.c_holder_approved := approved |} in
  match s with
  | Idle => context Model.MIdle false false false false false
  | ReviewingOffer _ _ => context Model.MReviewingOffer true false false false false
  | OfferParsed _ _ | Authorizing _ | AwaitingTxCode _ | RequestingToken _ =>
      context Model.MOfferParsed true false false false true
  | ProvingPossession _ _ => context Model.MProvingPossession true true true false true
  | RequestingCredential _ => context Model.MRequestingCredential true true true false true
  | CredentialIssued _ _ => context Model.MCredentialIssued true true true true true
  | Aborted _ => context Model.MAborted false false false false false
  end.

(** A state and a context of the model agree; where the machine has aborted,
    the model has, whatever it recorded before. *)
Definition related (s : State) (c : Model.Ctx) : Prop :=
  match s with
  | Aborted _ => Model.st c = Model.MAborted
  | _ => c = model_context s
  end.

(** What an input is for the model, from the input, the environment and the
    state alone, not from what the machine makes of it.  An offer is trusted
    when it can be read and the core trusts its issuer; what the model has no
    guard for (PKCE, the transaction code, the freshness of the nonce, a
    refusal by the user) is the death of the flow, and a refusal before any
    offer is an offer that is not trusted.  The one bit of the environment's
    verdict on the issued credential is the model's portrait profile. *)
Definition events_of (s : State) (i : Input) (e : Env) : list Model.Ev :=
  match s, i with
  | Idle, CredentialOffer b => [Model.MOffer (is_some (parse_offer b) && issuer_trusted e)]
  | Idle, Decline => [Model.MOffer false]
  | ReviewingOffer _ _, AcceptOffer => [Model.MApproveOffer]
  | OfferParsed AuthorizationCode _, ParPushed pkce_s256 => if pkce_s256 then [] else [Model.MProcessDeath]
  | AwaitingTxCode _, TxCodeEntered code => if bool_decide (code = []) then [Model.MProcessDeath] else []
  | RequestingToken _, TokenResponse bound n =>
      if bool_decide (n ∈ seen_c_nonces e) then [Model.MProcessDeath]
      else [Model.MToken bound (env_proof_key_attested e)]
  | ProvingPossession _ _, ProofSignatureProduced _ => [Model.MProof]
  | RequestingCredential f, CredentialResponse got b issuer_authenticated =>
      [Model.MCredential (bool_decide (got = f) && validate_issued_credential got b) issuer_authenticated]
  | RequestingCredential _, CredentialResponseRejected => [Model.MCredential false false]
  | CredentialIssued _ _, _ | Aborted _, _ => []
  | _, Decline => [Model.MProcessDeath]
  | _, _ => []
  end.

Lemma c_nonce_is_fresh_iff n l : c_nonce_is_fresh n l = negb (bool_decide (n ∈ l)).
Proof.
  unfold c_nonce_is_fresh. f_equal. apply eq_bool_prop_intro. rewrite bool_decide_spec, list_elem_of_In.
  rewrite Is_true_true, existsb_exists. split.
  - by intros (x & Hx & ->%Z.eqb_eq).
  - intros H. exists n. by rewrite Z.eqb_refl.
Qed.

Definition declines_issued (s : State) (i : Input) : bool :=
  match s, i with CredentialIssued _ _, Decline => true | _, _ => false end.

Lemma vci_simulation s c i e :
  related s c -> declines_issued s i = false ->
  related (fst (step s i e)) (fold_left Model.step (events_of s i e) c).
Proof.
  intros HR Hd. destruct s as [|g f|g f|f|f|f|f p|f|f k|a], i as [b| |pk|code|code|bound n|sig|got b auth| |];
    cbn [related] in HR; try discriminate Hd; subst;
    cbn -[c_nonce_is_fresh validate_issued_credential parse_offer]; try done; try (by destruct g).
  - destruct (parse_offer b) as [[g f]|]; [|done]. unfold issuer_is_trusted. destruct (issuer_trusted e); [|done].
    by destruct g, f.
  - by destruct g as [[|]|].
  - by destruct g, pk.
  - by destruct code.
  - unfold access_token_is_bound, proof_key_is_attested. rewrite c_nonce_is_fresh_iff.
    destruct bound, (bool_decide (n ∈ seen_c_nonces e)), (env_proof_key_attested e); reflexivity.
  - case_bool_decide; [|done]. destruct got, auth; cbn -[validate_issued_credential]; 
      destruct (validate_issued_credential _ b); reflexivity.
Qed.
End history.

(** Declining is possible in every state, the terminal ones included. *)
Lemma decline_leaves_issued `{JL : JsonLib} `{B64 : Base64} f c e :
  step (CredentialIssued f c) Decline e = (Aborted UserDeclined, [Close]).
Proof. reflexivity. Qed.

(** ** Properties *)

(** The proof of possession is specific.  Equal proof signing inputs name
    the same credential issuer, the same [c_nonce], the same time and the same
    device key (for uncompressed P-256 points), so a proof signature cannot be
    replayed to another issuer, for another nonce or with another key. *)
Theorem proof_specific `{JL : JsonLib} `{B64 : Base64} {BL : Base64Laws} {JI : JsonInj}
  (i i' : string) (n n' t t' : Z) (k k' : bytes) :
  is_u64 n && is_u64 n' && is_i64 t && is_i64 t' && p256_key k && p256_key k' = true ->
  proof_signing_input i n t k = proof_signing_input i' n' t' k' ->
  i = i' /\ n = n' /\ t = t' /\ k = k'.
Proof. apply proof_inj. Qed.

Definition sample_offer : Samples.doc := Samples.DObj [
  ("format", Samples.DStr "mso_mdoc"); ("grant", Samples.DStr "pre-authorized");
  ("tx_code_required", Samples.DBool true)]%string.

Definition sample_key : bytes := Byte.x04 :: repeat Byte.x11 64.

Lemma proof_specific_witness :
  "https://issuer"%string = "https://issuer"%string /\ 7 = 7 /\ 1000 = 1000
  /\ sample_key = sample_key.
Proof.
  apply (@proof_specific (Samples.json_const sample_offer) Samples.hex64 Samples.hex64_laws
    (Samples.json_of_inj _)); [vm_compute; reflexivity|reflexivity].
Defined.

(** C11: What an issued credential went through.  If a history ends with a
    credential issued, then it has, in this order: an offer that parsed, from a
    trusted issuer, shown to the user; the user's acceptance and the steps of
    the offered grant (a non-empty transaction code, or PKCE S256 and the
    browser's code, where the grant asks for them); a sender-bound token with a
    nonce that was not used before and an attested key; the device's signature;
    and an authenticated, structurally valid response in the offered format.
    The device was asked for exactly one signature, over the proof for that
    issuer, nonce, time and key, and exactly one credential request was sent,
    carrying that proof and signature. *)
Theorem issued_credential_history `{JL : JsonLib} `{B64 : Base64}
  (h : history Input Env Output) (f : CredentialFormat) (c : bytes) :
  reaches h (CredentialIssued f c) ->
  validate_issued_credential f c = true
  /\ exists g steps n e sig e' e'',
       grant_steps g steps /\ token_checked n e
       /\ to_sign h = [as_bytes (proof_of n e)]
       /\ requests h = [proof_jwt (proof_of n e) sig]
       /\ exists r, reviewed r g f
          /\ sublist (r :: steps ++ [token n e; proved (proof_of n e) sig e'; issued f c e'']) h.
Proof. intros H. exact (vci_explains_holds _ _ H). Qed.

Definition sample_env : Env :=
  {| issuer_trusted := true; env_proof_key_attested := true; seen_c_nonces := [3];
     device_key_ref := "device"; device_public_key := sample_key;
     issuer_id := "https://issuer"; now_epoch := 1000 |}.

Definition sample_run : list (Input * Env) :=
  map (fun i => (i, sample_env))
    [CredentialOffer []; AcceptOffer; TxCodeEntered [Byte.x31]; TokenResponse true 7;
     ProofSignatureProduced [Byte.x2a]; CredentialResponse MsoMdoc [Byte.xa1] true].

Lemma issued_credential_history_witness :
  let M := @oid4vci_machine (Samples.json_const sample_offer) Samples.hex64 in
  let h := fst (@run _ _ _ _ M sample_run) in
  @validate_issued_credential MsoMdoc [Byte.xa1] = true /\ len h = 6
  /\ len (requests h) = 1.
Proof.
  intros M h.
  destruct (@issued_credential_history (Samples.json_const sample_offer) Samples.hex64 h MsoMdoc
    [Byte.xa1] (@run_reaches _ _ _ _ M sample_run))
    as [H (g & steps & n & e & sig & e' & e'' & _ & _ & _ & Hr & _)].
  split; [exact H|]. split; [vm_compute; reflexivity|].
  exact (f_equal (fun l => len l) Hr).
Defined.

(** C12: The machine refines its reference model, step by step and exactly.
    Every input, in a given state and environment, is one event of the model or
    none; the event is computed from the data of the input and the environment
    (the offer and the trust in its issuer, PKCE S256, the transaction code, the
    freshness of the nonce, the binding of the token, the attestation of the
    key, the format, structure and authenticity of the credential), not from the
    outcome of the step.  From related states the machine and the model end in
    related states: the machine aborts exactly when the model does, and in every
    other state the model has recorded exactly what the state stands for.  The
    one input left out is a refusal of a credential already issued, which aborts
    the machine and which the model does not have. *)
Theorem oid4vci_refines_model `{JL : JsonLib} `{B64 : Base64} (s : State) (c : Model.Ctx)
  (i : Input) (e : Env) :
  related s c -> declines_issued s i = false ->
  related (fst (step s i e)) (fold_left Model.step (events_of s i e) c).
Proof. apply vci_simulation. Qed.

(** A bound token whose nonce was seen before ends both flows; an offer by a
    trusted issuer takes both to its review. *)
Lemma oid4vci_refines_model_witness :
  @related (Aborted CNonceStale)
    (Model.step (model_context (RequestingToken MsoMdoc)) Model.MProcessDeath)
  /\ @related (ReviewingOffer (PreAuthorized true) MsoMdoc) (Model.step Model.init (Model.MOffer true)).
Proof.
  split.
  - exact (@oid4vci_refines_model (Samples.json_const sample_offer) Samples.hex64 (RequestingToken MsoMdoc)
      (model_context (RequestingToken MsoMdoc)) (TokenResponse true 3) sample_env eq_refl eq_refl).
  - exact (@oid4vci_refines_model (Samples.json_const sample_offer) Samples.hex64 Idle Model.init
      (CredentialOffer []) sample_env eq_refl eq_refl).
Defined.
