(* ===== verification/Dcql.v ===== *)
(** * The Digital Credentials Query Language (crates/oid4vp/src/dcql.rs)

    The query an RP sends: its data, the derived deserializer with the
    attributes of the source, the checks on the raw document, the bounds of
    [within_budget], the accessors, and the planner that picks which queries
    are answered.  The theorems: an accepted query is well formed and its claim
    sets resolve; the planner returns exactly a least plan among all the ones
    that satisfy every required credential set, and none when there is none. *)

From Stdlib Require Import Sorted.
From S2P Require Import Prelude Utf8 Boundary Serde.

Open Scope Z_scope.
Open Scope rust_scope.

(** ** Bounds *)

Definition MAX_DCQL_BYTES : Z := 128 * 1024.
Definition MAX_CREDENTIAL_QUERIES : Z := 16.
Definition MAX_CREDENTIAL_SET_QUERIES : Z := 16.
Definition MAX_CREDENTIAL_SET_OPTIONS : Z := 16.
Definition MAX_CREDENTIAL_IDS_PER_OPTION : Z := MAX_CREDENTIAL_QUERIES.
Definition MAX_CLAIMS_PER_QUERY : Z := 64.
Definition MAX_CLAIM_SET_OPTIONS : Z := 32.
Definition MAX_CLAIM_IDS_PER_OPTION : Z := MAX_CLAIMS_PER_QUERY.
Definition MAX_PATH_DEPTH : Z := 16.
Definition MAX_VALUES_PER_CLAIM : Z := 64.
Definition MAX_META_VALUES : Z := 32.
Definition MAX_IDENTIFIER_BYTES : Z := 128.
Definition MAX_CLAIM_NAME_BYTES : Z := 256.
Definition MAX_JSON_STRING_OR_KEY_BYTES : Z := 512.
Definition MAX_JSON_VALUE_DEPTH : Z := 16.
Definition MAX_JSON_CONTAINER_ITEMS : Z := 128.

(** ** Data *)

Record Meta : Type := {
  vct_values : list string;
  doctype_value : option string;
}.

Record ClaimQuery : Type := {
  claim_id : option string;
  path : list Value;
  values : option (list Value);
  intent_to_retain : option bool;
}.

(** [ClaimSet] and [CredentialSetOption] are transparent lists of identifiers. *)
Definition ClaimSet : Type := list string.
Definition CredentialSetOption : Type := list string.

Record CredentialQuery : Type := {
  id : string;
  format : string;
  meta : option Meta;
  claims : list ClaimQuery;
  claim_sets : option (list ClaimSet);
  trusted_authorities : option Value;
  require_cryptographic_holder_binding : option bool;
  multiple : option bool;
}.

Record CredentialSetQuery : Type := {
  options : list CredentialSetOption;
  required : bool;
}.

Record DcqlQuery : Type := {
  credentials : list CredentialQuery;
  credential_sets : option (list CredentialSetQuery);
}.

(** ** The derived deserializers

    A derived struct is read from a map by its members' names, or from a
    sequence of at most as many elements as it has fields by position; a
    missing field takes its default where the attributes give one. *)

Definition fields (n : Z) (v : Value) : option (nat -> string -> option Value) :=
  match v with
  | VObject m => Some (fun _ name => assoc name m)
  | VArray l => if len l <=? n then Some (fun i _ => nth_error l i) else None
  | _ => None
  end.

Definition required_field {A} (de : Value -> option A) (o : option Value) : option A :=
  match o with Some v => de v | None => None end.

Definition default_field {A} (d : A) (de : Value -> option A) (o : option Value) : option A :=
  match o with Some v => de v | None => Some d end.

Definition de_string (v : Value) : option string := json_str v.
Definition de_bool (v : Value) : option bool := match v with VBool b => Some b | _ => None end.
Definition de_value (v : Value) : option Value := Some v.

Definition de_option {A} (de : Value -> option A) (v : Value) : option (option A) :=
  match v with VNull => Some None | _ => match de v with Some a => Some (Some a) | None => None end end.

Fixpoint de_all {A} (de : Value -> option A) (l : list Value) : option (list A) :=
  match l with
  | [] => Some []
  | v :: l =>
      let! a := de v in
      let! r := de_all de l in
      Some (a :: r)
  end.

Definition de_vec {A} (de : Value -> option A) (v : Value) : option (list A) :=
  let! l := json_array v in de_all de l.

Definition de_meta (v : Value) : option Meta :=
  let! f := fields 2 v in
  let! vcts := default_field [] (de_vec de_string) (f 0%nat "vct_values"%string) in
  let! doctype := default_field None (de_option de_string) (f 1%nat "doctype_value"%string) in
  Some {| vct_values := vcts; doctype_value := doctype |}.

Definition de_claim (v : Value) : option ClaimQuery :=
  let! f := fields 4 v in
  let! i := default_field None (de_option de_string) (f 0%nat "id"%string) in
  let! p := required_field (de_vec de_value) (f 1%nat "path"%string) in
  let! vs := default_field None (de_option (de_vec de_value)) (f 2%nat "values"%string) in
  let! r := default_field None (de_option de_bool) (f 3%nat "intent_to_retain"%string) in
  Some {| claim_id := i; path := p; values := vs; intent_to_retain := r |}.

Definition deserialize_present_claims (v : Value) : option (list ClaimQuery) :=
  let! l := de_vec de_claim v in
  if is_empty l then None else Some l.

Definition de_credential (v : Value) : option CredentialQuery :=
  let! f := fields 8 v in
  let! i := required_field de_string (f 0%nat "id"%string) in
  let! fm := required_field de_string (f 1%nat "format"%string) in
  let! m := default_field None (de_option de_meta) (f 2%nat "meta"%string) in
  let! cs := default_field [] deserialize_present_claims (f 3%nat "claims"%string) in
  let! sets := default_field None (de_option (de_vec (de_vec de_string)))
                 (f 4%nat "claim_sets"%string) in
  let! ta := default_field None (de_option de_value) (f 5%nat "trusted_authorities"%string) in
  let! hb := default_field None (de_option de_bool)
               (f 6%nat "require_cryptographic_holder_binding"%string) in
  let! mu := default_field None (de_option de_bool) (f 7%nat "multiple"%string) in
  Some {| id := i; format := fm; meta := m; claims := cs; claim_sets := sets;
          trusted_authorities := ta; require_cryptographic_holder_binding := hb;
          multiple := mu |}.

Definition required_by_default : bool := true.

Definition de_credential_set (v : Value) : option CredentialSetQuery :=
  let! f := fields 2 v in
  let! os := required_field (de_vec (de_vec de_string)) (f 0%nat "options"%string) in
  let! r := default_field required_by_default de_bool (f 1%nat "required"%string) in
  Some {| options := os; required := r |}.

Definition deserialize_non_empty_credentials (v : Value) : option (list CredentialQuery) :=
  let! l := de_vec de_credential v in
  if is_empty l then None else Some l.

Definition de_query (v : Value) : option DcqlQuery :=
  let! f := fields 2 v in
  let! cs := required_field deserialize_non_empty_credentials (f 0%nat "credentials"%string) in
  let! sets := default_field None (de_option (de_vec de_credential_set))
                 (f 1%nat "credential_sets"%string) in
  Some {| credentials := cs; credential_sets := sets |}.

(** ** Checks on the raw document *)

Definition option_all {A} (f : A -> bool) (o : option A) : bool :=
  match o with Some a => f a | None => true end.

Definition option_any {A} (f : A -> bool) (o : option A) : bool :=
  match o with Some a => f a | None => false end.

Definition non_empty_array (v : Value) : bool :=
  option_any (fun l => negb (is_empty l)) (json_array v).

Definition known_optional_arrays_are_non_empty (v : Value) : bool :=
  match json_object v with
  | None => false
  | Some query =>
      if option_any (fun sets => negb (non_empty_array sets)) (assoc "credential_sets"%string query)
      then false
      else
        option_all
          (forallb (fun credential =>
             option_all (fun credential =>
               negb (option_any (fun sets => negb (non_empty_array sets))
                       (assoc "claim_sets"%string credential)))
               (json_object credential)))
          (match assoc "credentials"%string query with Some x => json_array x | None => None end)
  end.

Definition contains_unsupported_selection_modifier (v : Value) : bool :=
  match json_object v with
  | None => false
  | Some query =>
      option_any
        (existsb (fun credential =>
           option_any (fun credential =>
             is_some (assoc "trusted_authorities"%string credential)
             || option_any (fun v => negb (is_boolean v))
                  (assoc "require_cryptographic_holder_binding"%string credential)
             || option_any (fun v => negb (is_boolean v)) (assoc "multiple"%string credential)
             || option_any
                  (existsb (fun claim =>
                     option_any (fun claim =>
                       option_any (fun intent =>
                         negb (bool_decide
                           (match assoc "format"%string credential with
                            | Some f => json_str f | None => None end = Some "mso_mdoc"%string))
                         || negb (is_boolean intent))
                         (assoc "intent_to_retain"%string claim))
                       (json_object claim)))
                  (match assoc "claims"%string credential with Some x => json_array x | None => None end))
             (json_object credential)))
        (match assoc "credentials"%string query with Some x => json_array x | None => None end)
  end.

Fixpoint json_value_within_budget (v : Value) (depth : Z) {struct v} : bool :=
  if MAX_JSON_VALUE_DEPTH <? depth then false
  else
    match v with
    | VString s => slen s <=? MAX_JSON_STRING_OR_KEY_BYTES
    | VArray l =>
        (len l <=? MAX_JSON_CONTAINER_ITEMS)
        && forallb (fun v => json_value_within_budget v (depth + 1)) l
    | VObject m =>
        (len m <=? MAX_JSON_CONTAINER_ITEMS)
        && forallb (fun '(key, v) =>
             (slen key <=? MAX_JSON_STRING_OR_KEY_BYTES)
             && json_value_within_budget v (depth + 1)) m
    | _ => true
    end.

(** ** [within_budget] *)

Definition valid_dcql_id (s : string) : bool :=
  negb (sis_empty s) && (slen s <=? MAX_IDENTIFIER_BYTES)
  && forallb (fun b => is_ascii_alphanumeric b || Byte.eqb b Byte.x5f || Byte.eqb b Byte.x2d)
       (as_bytes s).

Definition contains (l : list string) (s : string) : bool :=
  existsb (fun x => bool_decide (x = s)) l.

Definition same_identifier_set (l r : list string) : bool :=
  (len l =? len r) && forallb (contains r) l.

(** [iter().enumerate().all(..)] where the test looks at [[..index]]. *)
Fixpoint all_with_earlier {A} (f : list A -> A -> bool) (earlier l : list A) : bool :=
  match l with
  | [] => true
  | x :: l => f earlier x && all_with_earlier f (earlier ++ [x]) l
  end.

Definition bounded_string (max : Z) (s : string) : bool := negb (sis_empty s) && (slen s <=? max).

Definition meta_within_budget (m : Meta) : bool :=
  (len (vct_values m) <=? MAX_META_VALUES)
  && forallb (bounded_string MAX_JSON_STRING_OR_KEY_BYTES) (vct_values m)
  && option_all (bounded_string MAX_JSON_STRING_OR_KEY_BYTES) (doctype_value m).

Definition meta_fits_format (f : string) (m : option Meta) : bool :=
  if bool_decide (f = "dc+sd-jwt"%string) then
    match m with Some m => negb (is_empty (vct_values m)) | None => false end
  else if bool_decide (f = "mso_mdoc"%string) then
    match m with
    | Some m => option_any (fun d => negb (sis_empty d)) (doctype_value m)
    | None => false
    end
  else true.

Definition path_element_ok (v : Value) : bool :=
  match v with
  | VString name => negb (sis_empty name) && (slen name <=? MAX_CLAIM_NAME_BYTES)
  | VNumber index => is_some (number_as_u64 index)
  | VNull => true
  | _ => false
  end.

Definition claim_value_ok (v : Value) : bool :=
  match v with
  | VString _ | VBool _ => true
  | VNumber n => is_some (number_as_i64 n) || is_some (number_as_u64 n)
  | _ => false
  end.

Definition claim_within_budget (credential : CredentialQuery) (earlier : list ClaimQuery)
    (claim : ClaimQuery) : bool :=
  option_all (fun i =>
    valid_dcql_id i
    && negb (existsb (fun e => bool_decide (claim_id e = Some i)) earlier)) (claim_id claim)
  && (is_none (claim_sets credential) || is_some (claim_id claim))
  && negb (is_empty (path claim))
  && (len (path claim) <=? MAX_PATH_DEPTH)
  && forallb path_element_ok (path claim)
  && option_all (fun vs =>
       negb (is_empty vs) && (len vs <=? MAX_VALUES_PER_CLAIM) && forallb claim_value_ok vs)
       (values claim)
  && negb (existsb (fun e => values_eqb (path e) (path claim)) earlier).

(** One alternative: non-empty, bounded, distinct valid identifiers of [known]
    names, and not an earlier alternative in another order. *)
Definition option_within_budget (max : Z) (known : string -> bool) (earlier : list (list string))
    (ids : list string) : bool :=
  negb (is_empty ids) && (len ids <=? max)
  && all_with_earlier (fun before i => valid_dcql_id i && negb (contains before i) && known i) [] ids
  && negb (existsb (fun e => same_identifier_set e ids) earlier).

Definition names_claim (credential : CredentialQuery) (i : string) : bool :=
  existsb (fun claim => bool_decide (claim_id claim = Some i)) (claims credential).

Definition names_credential (q : DcqlQuery) (i : string) : bool :=
  existsb (fun credential => bool_decide (id credential = i)) (credentials q).

Definition credential_within_budget (earlier : list CredentialQuery) (c : CredentialQuery) : bool :=
  valid_dcql_id (id c)
  && negb (existsb (fun e => bool_decide (id e = id c)) earlier)
  && negb (sis_empty (format c))
  && (slen (format c) <=? MAX_IDENTIFIER_BYTES)
  && (len (claims c) <=? MAX_CLAIMS_PER_QUERY)
  && is_none (trusted_authorities c)
  && is_some (meta c)
  && option_all meta_within_budget (meta c)
  && meta_fits_format (format c) (meta c)
  && all_with_earlier (claim_within_budget c) [] (claims c)
  && option_all (fun sets =>
       negb (is_empty sets) && (len sets <=? MAX_CLAIM_SET_OPTIONS)
       && all_with_earlier (option_within_budget MAX_CLAIM_IDS_PER_OPTION (names_claim c)) [] sets)
       (claim_sets c).

Definition credential_set_within_budget (q : DcqlQuery) (s : CredentialSetQuery) : bool :=
  negb (is_empty (options s)) && (len (options s) <=? MAX_CREDENTIAL_SET_OPTIONS)
  && all_with_earlier (option_within_budget MAX_CREDENTIAL_IDS_PER_OPTION (names_credential q))
       [] (options s).

Definition within_budget (q : DcqlQuery) : bool :=
  negb (is_empty (credentials q)) && (len (credentials q) <=? MAX_CREDENTIAL_QUERIES)
  && all_with_earlier credential_within_budget [] (credentials q)
  && option_all (fun sets =>
       negb (is_empty sets) && (len sets <=? MAX_CREDENTIAL_SET_QUERIES)
       && forallb (credential_set_within_budget q) sets) (credential_sets q).

Definition from_value (v : Value) : option DcqlQuery :=
  if negb (json_value_within_budget v 0)
     || negb (known_optional_arrays_are_non_empty v)
     || contains_unsupported_selection_modifier v
  then None
  else
    let! query := de_query v in
    if within_budget query then Some query else None.

(** [DcqlQuery::parse]: [json] is [serde_json::from_slice]. *)
Definition parse (json : bytes -> option Value) (b : bytes) : option DcqlQuery :=
  if MAX_DCQL_BYTES <? len b then None
  else
    let! v := json b in
    from_value v.

(** ** Accessors *)

Fixpoint path_string_from (out : string) (p : list Value) : string :=
  match p with
  | [] => out
  | VString s :: p =>
      path_string_from ((if sis_empty out then out else out ++ ".") ++ s)%string p
  | VNumber n :: p => path_string_from (out ++ "[" ++ number_to_string n ++ "]")%string p
  | VNull :: p => path_string_from (out ++ "[]")%string p
  | _ :: p => path_string_from out p
  end.

Definition path_string (c : ClaimQuery) : string := path_string_from "" (path c).

Fixpoint position {A} (f : A -> bool) (l : list A) : option nat :=
  match l with
  | [] => None
  | x :: l => if f x then Some 0%nat else option_map S (position f l)
  end.

Fixpoint map_option {A B} (f : A -> option B) (l : list A) : option (list B) :=
  match l with
  | [] => Some []
  | x :: l =>
      let! y := f x in
      let! r := map_option f l in
      Some (y :: r)
  end.

Definition claim_selection_options (c : CredentialQuery) : option (list (list nat)) :=
  match claim_sets c with
  | None => Some [seq 0 (length (claims c))]
  | Some sets =>
      map_option (map_option (fun i =>
        position (fun claim => bool_decide (claim_id claim = Some i)) (claims c))) sets
  end.

(** [if !out.contains(x) { out.push(x) }]. *)
Definition push_new (out : list string) (x : string) : list string :=
  if contains out x then out else out ++ [x].

Definition requested_claim_paths (q : DcqlQuery) : list string :=
  fold_left (fun paths c =>
    fold_left (fun paths claim =>
      let p := path_string claim in
      if sis_empty p then paths else push_new paths p) (claims c) paths)
    (credentials q) [].

Definition first_credential_id (q : DcqlQuery) : option string :=
  option_map id (head (credentials q)).

Definition requested_vcts (q : DcqlQuery) : list string :=
  fold_left (fun out c =>
    match meta c with Some m => fold_left push_new (vct_values m) out | None => out end)
    (credentials q) [].

Definition requested_doctypes (q : DcqlQuery) : list string :=
  fold_left (fun out c =>
    match meta c with
    | Some m => match doctype_value m with Some dt => push_new out dt | None => out end
    | None => out
    end) (credentials q) [].

Definition formats (q : DcqlQuery) : list string :=
  fold_left (fun fs c => push_new fs (format c)) (credentials q) [].

(** ** The planner *)

(** [u16::count_ones], and [mask & (1 << index) != 0]. *)
Definition bit (mask : Z) (index : nat) : bool := Z.testbit mask (Z.of_nat index).

Definition count_ones (mask : Z) : nat := length (List.filter (bit mask) (seq 0 16)).

Fixpoint compare_bits (left right : Z) (indices : list nat) : comparison :=
  match indices with
  | [] => Eq
  | index :: indices =>
      match bit left index, bit right index with
      | true, false => Lt
      | false, true => Gt
      | _, _ => compare_bits left right indices
      end
  end.

Definition compare_credential_plan_masks (left right : Z) (credential_count : nat) : comparison :=
  match Nat.compare (count_ones left) (count_ones right) with
  | Eq => compare_bits left right (seq 0 credential_count)
  | ordering => ordering
  end.

(** The mask of one option: [None] for an identifier no credential has,
    [Some None] when one of its credentials is not available. *)
Fixpoint option_mask (creds : list CredentialQuery) (satisfiable : list bool) (ids : list string)
    (mask : Z) : option (option Z) :=
  match ids with
  | [] => Some (Some mask)
  | i :: ids =>
      let! index := position (fun c => bool_decide (id c = i)) creds in
      if negb (nth index satisfiable false) then Some None
      else option_mask creds satisfiable ids (Z.lor mask (Z.shiftl 1 (Z.of_nat index)))
  end.

Definition push_mask (masks : list Z) (o : option Z) : list Z :=
  match o with
  | Some m => if existsb (Z.eqb m) masks then masks else masks ++ [m]
  | None => masks
  end.

Fixpoint collect_option_masks (creds : list CredentialQuery) (satisfiable : list bool)
    (os : list CredentialSetOption) (masks : list Z) : option (list Z) :=
  match os with
  | [] => Some masks
  | o :: os =>
      let! m := option_mask creds satisfiable o 0 in
      collect_option_masks creds satisfiable os (push_mask masks m)
  end.

(** The two nested loops, with the [seen] table of the plan space. *)
Definition push_plan (state : list bool * list Z) (combined : Z) : list bool * list Z :=
  let '(seen, next) := state in
  match seen !! Z.to_nat combined with
  | Some false => (<[Z.to_nat combined := true]> seen, next ++ [combined])
  | _ => state
  end.

Definition combine_plans (plan_space : nat) (plans option_masks : list Z) : list Z :=
  snd (fold_left (fun state plan =>
         fold_left (fun state o => push_plan state (Z.lor plan o)) option_masks state)
       plans (repeat false plan_space, [])).

Fixpoint all_plans (creds : list CredentialQuery) (satisfiable : list bool)
    (sets : list CredentialSetQuery) (plans : list Z) : option (list Z) :=
  match sets with
  | [] => Some plans
  | s :: sets =>
      if negb (required s) then all_plans creds satisfiable sets plans
      else
        let! masks := collect_option_masks creds satisfiable (options s) [] in
        if is_empty masks then None
        else
          all_plans creds satisfiable sets
            (combine_plans (Z.to_nat (Z.shiftl 1 (len creds))) plans masks)
  end.

(** [Iterator::min_by]: the first of the least elements. *)
Definition min_by (cmp : Z -> Z -> comparison) (l : list Z) : option Z :=
  match l with
  | [] => None
  | x :: l => Some (fold_left (fun best y => match cmp best y with Gt => y | _ => best end) l x)
  end.

Definition credential_selection_plan (q : DcqlQuery) (satisfiable : list bool)
  : option (list nat) :=
  let creds := credentials q in
  if negb (len satisfiable =? len creds) || is_empty creds
     || (MAX_CREDENTIAL_QUERIES <? len creds)
  then None
  else
    match credential_sets q with
    | None =>
        if forallb (fun available => available) satisfiable
        then Some (seq 0 (length creds)) else None
    | Some sets =>
        let! plans := all_plans creds satisfiable sets [0] in
        let! selected :=
          min_by (fun l r => compare_credential_plan_masks l r (length creds)) plans in
        Some (List.filter (bit selected) (seq 0 (length creds)))
    end.

(** ** The planner: specification *)

(** The positions of the credential an identifier names. *)
Definition names (creds : list CredentialQuery) (i : string) (n : nat) : Prop :=
  exists c, creds !! n = Some c /\ id c = i.

Definition answers (creds : list CredentialQuery) (ids : list string) (l : list nat) : Prop :=
  forall i, In i ids -> exists n, names creds i n /\ In n l.

(** A plan: increasing positions of available credentials that answer every
    query, or one option of every required set. *)
Definition admissible (q : DcqlQuery) (satisfiable : list bool) (l : list nat) : Prop :=
  StronglySorted lt l
  /\ (forall n, In n l -> satisfiable !! n = Some true)
  /\ match credential_sets q with
     | None => forall n, (n < length (credentials q))%nat -> In n l
     | Some sets =>
         forall s, In s sets -> required s = true ->
         exists o, In o (options s) /\ answers (credentials q) o l
     end.

(** Fewer queries first, then the lower positions. *)
Fixpoint lower (l k : list nat) : Prop :=
  match l, k with
  | [], _ => True
  | _ :: _, [] => False
  | x :: l, y :: k => (x < y)%nat \/ (x = y /\ lower l k)
  end.

Definition preferable (l k : list nat) : Prop :=
  (length l < length k)%nat \/ (length l = length k /\ lower l k).

(** ** Order on plans *)

Lemma lower_refl l : lower l l.
Proof. induction l; cbn; auto. Qed.

Lemma lower_trans a b c : lower a b -> lower b c -> lower a c.
Proof.
  revert b c. induction a as [|x a IH]; intros [|y b] [|z c]; cbn; try tauto.
  intros [?|[-> ?]] [?|[-> ?]]; [left; lia|left; lia|left; lia|right; eauto].
Qed.

Lemma lower_total a b : lower a b \/ lower b a.
Proof.
  revert b. induction a as [|x a IH]; intros [|y b]; cbn; auto.
  destruct (Nat.lt_trichotomy x y) as [?|[->|?]]; auto. destruct (IH b); auto.
Qed.

Lemma preferable_refl l : preferable l l.
Proof. right. split; [done|apply lower_refl]. Qed.

Lemma preferable_trans a b c : preferable a b -> preferable b c -> preferable a c.
Proof.
  intros [?|[? ?]] [?|[? ?]]; [left; lia|left; lia|left; lia|].
  right. split; [lia|eauto using lower_trans].
Qed.

Lemma preferable_total a b : preferable a b \/ preferable b a.
Proof.
  unfold preferable. destruct (Nat.lt_trichotomy (length a) (length b)) as [?|[?|?]]; auto.
  destruct (lower_total a b); auto.
Qed.

Lemma sublist_shorter_or_eq {A} (l k : list A) :
  sublist l k -> (length l < length k)%nat \/ l = k.
Proof. induction 1 as [|x l k H [IH| ->]|x l k H [IH| ->]]; cbn; auto with lia. Qed.

Lemma sublist_preferable l k : sublist l k -> preferable l k.
Proof.
  intros [?| ->]%sublist_shorter_or_eq; [by left|apply preferable_refl].
Qed.

(** Strictly increasing lists are determined by their members. *)
Lemma sorted_incl_sublist l k :
  StronglySorted lt l -> StronglySorted lt k -> (forall n, In n l -> In n k) -> sublist l k.
Proof.
  intros Hl Hk. revert l Hl. induction Hk as [|y k Hk IH Hy]; intros l Hl Hin.
  - destruct l as [|x l]; [constructor|]. by destruct (Hin x (or_introl eq_refl)).
  - destruct Hl as [|x l Hl Hx]; [apply sublist_nil_l|].
    rewrite List.Forall_forall in Hx, Hy.
    destruct (Hin x (or_introl eq_refl)) as [->|Hxk].
    + apply sublist_skip, IH; [done|]. intros n Hn.
      destruct (Hin n (or_intror Hn)) as [->|?]; [|done]. specialize (Hx _ Hn). lia.
    + apply sublist_cons, IH; [by constructor; [|apply List.Forall_forall]|].
      intros n [<-|Hn]; [done|]. destruct (Hin n (or_intror Hn)) as [->|?]; [|done].
      specialize (Hx _ Hn). specialize (Hy _ Hxk). lia.
Qed.

(** ** Masks *)

Definition fits (n : nat) (m : Z) : Prop := 0 <= m < 2 ^ Z.of_nat n.

(** The positions a mask selects. *)
Definition members (n : nat) (m : Z) : list nat := List.filter (bit m) (seq 0 n).

Lemma fits_bit n m i : fits n m -> bit m i = true -> (i < n)%nat.
Proof.
  unfold fits, bit. intros [H0 H] Hb. destruct (decide (i < n)%nat) as [|Hn]; [done|].
  destruct (decide (m = 0)) as [->|]; [by rewrite Z.bits_0 in Hb|].
  rewrite Z.bits_above_log2 in Hb; [done|done|].
  apply Z.lt_le_trans with (Z.of_nat n); [|lia]. apply Z.log2_lt_pow2; lia.
Qed.

Lemma fits_lor n a b : fits n a -> fits n b -> fits n (Z.lor a b).
Proof.
  unfold fits. intros [Ha Ha'] [Hb Hb'].
  assert (0 <= Z.lor a b) by (apply Z.lor_nonneg; lia). split; [done|].
  destruct (decide (a = 0)) as [->|]; [by rewrite Z.lor_0_l|].
  destruct (decide (b = 0)) as [->|]; [by rewrite Z.lor_0_r|].
  apply Z.log2_lt_pow2; [assert (Z.lor a b <> 0) by (rewrite Z.lor_eq_0_iff; lia); lia|].
  rewrite Z.log2_lor by done. apply Z.max_lub_lt; apply Z.log2_lt_pow2; lia.
Qed.

Lemma fits_single n i : (i < n)%nat -> fits n (Z.shiftl 1 (Z.of_nat i)).
Proof.
  intros H. unfold fits. rewrite Z.shiftl_1_l. split; [apply Z.pow_nonneg; lia|].
  apply Z.pow_lt_mono_r; lia.
Qed.

Lemma fits_0 n : fits n 0.
Proof. split; [done|]. apply Z.pow_pos_nonneg; lia. Qed.

Lemma bit_lor a b i : bit (Z.lor a b) i = bit a i || bit b i.
Proof. apply Z.lor_spec. Qed.

Lemma bit_single i j : bit (Z.shiftl 1 (Z.of_nat i)) j = bool_decide (j = i).
Proof.
  unfold bit. rewrite Z.shiftl_1_l, Z.pow2_bits_eqb by lia.
  case_bool_decide; [subst; apply Z.eqb_refl|apply Z.eqb_neq; lia].
Qed.

Lemma bit_0 i : bit 0 i = false.
Proof. apply Z.bits_0. Qed.

Lemma filter_seq_sorted f a n : StronglySorted lt (List.filter f (seq a n)).
Proof.
  revert a. induction n as [|n IH]; intros a; cbn; [constructor|].
  destruct (f a); [|done]. constructor; [done|]. apply List.Forall_forall.
  intros x [[? ?]%in_seq _]%filter_In. lia.
Qed.

Lemma seq_sorted a n : StronglySorted lt (seq a n).
Proof.
  revert a. induction n as [|n IH]; intros a; cbn; constructor; [done|].
  apply List.Forall_forall. intros x [? _]%in_seq. lia.
Qed.

Lemma in_members n m i : fits n m -> In i (members n m) <-> bit m i = true.
Proof.
  intros H. unfold members. rewrite filter_In, in_seq. split; [tauto|].
  intros Hb. pose proof (fits_bit _ _ _ H Hb). split; [lia|done].
Qed.

Lemma count_ones_members n m : fits n m -> (n <= 16)%nat -> count_ones m = length (members n m).
Proof.
  intros H Hn. unfold count_ones, members.
  replace 16%nat with (n + (16 - n))%nat by lia. rewrite seq_app, List.filter_app, length_app.
  replace (List.filter (bit m) (seq (0 + n) (16 - n))) with (@nil nat); [cbn; lia|].
  symmetry. apply length_zero_iff_nil, Nat.le_0_r, Nat.nlt_ge. intros Hl.
  destruct (List.filter _ _) as [|x r] eqn:E; [cbn in Hl; lia|].
  assert (In x (x :: r)) as Hx by (by left). rewrite <- E in Hx.
  apply filter_In in Hx as [[? _]%in_seq Hb]. pose proof (fits_bit _ _ _ H Hb). lia.
Qed.

Lemma compare_bits_lower a b l :
  StronglySorted lt l ->
  length (List.filter (bit a) l) = length (List.filter (bit b) l) ->
  compare_bits a b l <> Gt <-> lower (List.filter (bit a) l) (List.filter (bit b) l).
Proof.
  induction 1 as [|x l Hl IH Hx]; cbn; [done|]. rewrite List.Forall_forall in Hx.
  destruct (bit a x), (bit b x); cbn; intros E.
  - rewrite IH by lia. split; [auto|]. intros [?|[_ ?]]; [lia|done].
  - destruct (List.filter (bit b) l) as [|y r] eqn:Eb; [done|].
    split; [|done]. intros _. left. apply Hx. apply (filter_In (bit b)). rewrite Eb. by left.
  - destruct (List.filter (bit a) l) as [|y r] eqn:Ea; [done|].
    split; [done|]. intros Hc.
    assert (x < y)%nat by (apply Hx; apply (filter_In (bit a)); rewrite Ea; by left).
    destruct Hc as [?|[? _]]; lia.
  - by apply IH.
Qed.

(** The comparator decides [preferable]. *)
Lemma compare_preferable n a b :
  (n <= 16)%nat -> fits n a -> fits n b ->
  compare_credential_plan_masks a b n <> Gt <-> preferable (members n a) (members n b).
Proof.
  intros Hn Ha Hb. unfold compare_credential_plan_masks, preferable.
  rewrite !(count_ones_members n) by done.
  destruct (Nat.compare_spec (length (members n a)) (length (members n b))) as [E|E|E].
  - rewrite (compare_bits_lower a b (seq 0 n)) by (try exact E; apply seq_sorted).
    fold (members n a) (members n b). split; [auto|]. intros [?|[_ ?]]; [lia|done].
  - split; [auto|done].
  - split; [done|]. lia.
Qed.

(** ** The loops of the planner *)

Lemma nth_available l n : nth n l false = true <-> l !! n = Some true.
Proof.
  revert n. induction l as [|b l IH]; intros [|n]; cbn; try apply IH; try done.
  split; [by intros ->|by intros [= ->]].
Qed.

Lemma position_Some {A} (f : A -> bool) l n :
  position f l = Some n -> exists x, l !! n = Some x /\ f x = true.
Proof.
  revert n. induction l as [|x l IH]; intros n; cbn; [done|].
  destruct (f x) eqn:E; [intros [= <-]; by exists x|].
  destruct (position f l) as [k|]; [|done]. intros [= <-]. by apply IH.
Qed.

Lemma position_None {A} (f : A -> bool) l : position f l = None -> forall x, In x l -> f x = false.
Proof.
  induction l as [|y l IH]; cbn; intros H x Hx; [done|]. destruct (f y) eqn:E; [done|].
  destruct (position f l); [done|]. destruct Hx as [<-|Hx]; auto.
Qed.

(** The [seen] table and the list of new plans agree. *)
Definition table_ok (n : nat) (state : list bool * list Z) : Prop :=
  (forall m, fits n m -> fst state !! Z.to_nat m = Some (existsb (Z.eqb m) (snd state)))
  /\ (forall m, In m (snd state) -> fits n m).

Lemma existsb_in (m : Z) l : existsb (Z.eqb m) l = true <-> In m l.
Proof.
  rewrite existsb_exists. split; [intros (x & Hx & ->%Z.eqb_eq); done|].
  intros H. exists m. by rewrite Z.eqb_refl.
Qed.

Lemma push_plan_ok n state m :
  fits n m -> table_ok n state ->
  table_ok n (push_plan state m)
  /\ forall x, In x (snd (push_plan state m)) <-> x = m \/ In x (snd state).
Proof.
  destruct state as [seen next]. intros Hm [Ht Hn]. unfold push_plan. cbn [fst snd] in *.
  rewrite (Ht m Hm). destruct (existsb (Z.eqb m) next) eqn:E.
  - split; [done|]. intros x. cbn. apply existsb_in in E. split; [auto|]. by intros [->|?].
  - split; [split|].
    + intros x Hx. cbn. rewrite existsb_app. cbn. rewrite orb_false_r.
      destruct (Z.eqb_spec x m) as [->|Hxm].
      * rewrite list_lookup_insert_eq, orb_true_r; [done|]. eapply lookup_lt_Some, Ht, Hm.
      * rewrite list_lookup_insert_ne by (unfold fits in *; lia). rewrite orb_false_r. by apply Ht.
    + cbn. intros x [?|[<-|[]]]%in_app_iff; auto.
    + cbn. intros x. rewrite in_app_iff. cbn. naive_solver.
Qed.

Lemma push_plans_ok n plan masks state :
  fits n plan -> (forall o, In o masks -> fits n o) -> table_ok n state ->
  let state' := fold_left (fun state o => push_plan state (Z.lor plan o)) masks state in
  table_ok n state'
  /\ forall x, In x (snd state') <-> (exists o, In o masks /\ x = Z.lor plan o) \/ In x (snd state).
Proof.
  intros Hp. revert state. induction masks as [|o masks IH]; intros state Hm Ht; cbn.
  - split; [done|]. intros x. split; [auto|]. by intros [(? & [] & _)|?].
  - destruct (push_plan_ok n state (Z.lor plan o)) as [Ht' Hin]; [apply fits_lor; auto; apply Hm; by left|done|].
    destruct (IH (push_plan state (Z.lor plan o))) as [H1 H2]; [intros; apply Hm; by right|done|].
    split; [done|]. intros x. rewrite H2, Hin. naive_solver.
Qed.

Lemma plans_loop_in n plans masks state x :
  (forall p, In p plans -> fits n p) -> (forall o, In o masks -> fits n o) -> table_ok n state ->
  In x (snd (fold_left (fun state plan =>
         fold_left (fun state o => push_plan state (Z.lor plan o)) masks state) plans state))
  <-> (exists p o, In p plans /\ In o masks /\ x = Z.lor p o) \/ In x (snd state).
Proof.
  intros Hp Hm. revert state. induction plans as [|p plans IH]; intros state Ht; cbn.
  - split; [auto|]. by intros [(? & ? & [] & _)|?].
  - destruct (push_plans_ok n p masks state) as [H1 H2]; [apply Hp; by left|done|done|].
    rewrite IH, H2; [naive_solver|intros; apply Hp; by right|done].
Qed.

Lemma combine_plans_in n plans masks x :
  (forall p, In p plans -> fits n p) -> (forall o, In o masks -> fits n o) ->
  In x (combine_plans (Z.to_nat (2 ^ Z.of_nat n)) plans masks)
  <-> exists p o, In p plans /\ In o masks /\ x = Z.lor p o.
Proof.
  intros Hp Hm. unfold combine_plans.
  assert (table_ok n (repeat false (Z.to_nat (2 ^ Z.of_nat n)), [])) as Ht.
  { split; cbn; [|done]. intros m Hf. rewrite lookup_nth_error, nth_error_repeat; [done|].
    unfold fits in Hf. lia. }
  rewrite (plans_loop_in n plans masks _ x Hp Hm Ht). cbn. naive_solver.
Qed.

Section planner.
Context (creds : list CredentialQuery) (sat : list bool).
Context (Hlen : length sat = length creds).
Context (Huniq : forall i m n, names creds i m -> names creds i n -> m = n).
Let n := length creds.

Lemma names_lt i k : names creds i k -> (k < n)%nat.
Proof. intros (c & Hc & _). by apply lookup_lt_Some in Hc. Qed.

Lemma option_mask_spec ids m0 :
  fits n m0 ->
  match option_mask creds sat ids m0 with
  | None => exists i, In i ids /\ forall k, ~ names creds i k
  | Some None => exists i k, In i ids /\ names creds i k /\ sat !! k <> Some true
  | Some (Some m) =>
      fits n m
      /\ (forall j, bit m j = true <-> bit m0 j = true \/ exists i, In i ids /\ names creds i j)
      /\ (forall i, In i ids -> exists k, names creds i k /\ sat !! k = Some true)
  end.
Proof.
  revert m0. induction ids as [|i ids IH]; intros m0 H0; cbn [option_mask].
  - split; [done|]. split; [|done]. intros j. split; [auto|]. by intros [?|(? & [] & _)].
  - destruct (position _ creds) as [k|] eqn:Ep.
    + apply position_Some in Ep as (c & Hc & Hi%bool_decide_eq_true).
      assert (names creds i k) as Hk by (by exists c).
      destruct (nth k sat false) eqn:Ea; cbn [negb].
      * apply nth_available in Ea. assert (fits n (Z.lor m0 (Z.shiftl 1 (Z.of_nat k)))) as H1.
        { apply fits_lor, fits_single; [done|]. by eapply names_lt. }
        specialize (IH _ H1). destruct (option_mask _ _ _ _) as [[m|]|].
        -- destruct IH as (Hf & Hb & Hs). split; [done|]. split.
           ++ intros j. rewrite Hb, bit_lor, bit_single, orb_true_iff, bool_decide_eq_true.
              split; [naive_solver|]. intros [?|(i' & [<-|?] & Hj)]; [auto| |eauto].
              left. right. by apply (Huniq i).
           ++ intros i' [<-|?]; eauto.
        -- destruct IH as (i' & k' & ? & ?). exists i', k'. split; [by right|done].
        -- destruct IH as (i' & ? & ?). exists i'. split; [by right|done].
      * exists i, k. split; [by left|]. split; [done|].
        intros E. apply nth_available in E. congruence.
    + exists i. split; [by left|]. intros k (c & Hc & <-).
      assert (In c creds) as Hin by (apply list_elem_of_In; by eapply list_elem_of_lookup_2).
      pose proof (position_None _ _ Ep _ Hin) as E. cbn in E.
      by apply bool_decide_eq_false in E.
Qed.

Lemma push_mask_in masks o x : In x (push_mask masks o) <-> o = Some x \/ In x masks.
Proof.
  destruct o as [m|]; cbn; [|naive_solver]. destruct (existsb (Z.eqb m) masks) eqn:E.
  - apply existsb_in in E. split; [auto|]. by intros [[= ->]|?].
  - rewrite in_app_iff. cbn. naive_solver.
Qed.

Lemma collect_option_masks_spec os masks :
  (forall o i, In o os -> In i o -> exists k, names creds i k) ->
  exists masks', collect_option_masks creds sat os masks = Some masks'
  /\ forall x, In x masks' <-> In x masks \/ exists o, In o os /\ option_mask creds sat o 0 = Some (Some x).
Proof.
  revert masks. induction os as [|o os IH]; intros masks Hk; cbn.
  - exists masks. split; [done|]. intros x. split; [auto|]. by intros [?|(? & [] & _)].
  - pose proof (option_mask_spec o 0 (fits_0 n)) as Ho.
    destruct (option_mask creds sat o 0) as [m|] eqn:Em.
    + destruct (IH (push_mask masks m)) as (masks' & -> & Hin); [intros; eapply Hk; [by right|done]|].
      exists masks'. split; [done|]. intros x. rewrite Hin, push_mask_in. split.
      * intros [[->|?]|(o' & ? & ?)]; [right; exists o; auto|auto|right; exists o'; auto].
      * intros [?|(o' & [<-|?] & E)]; [auto| |right; eauto]. left. left. congruence.
    + destruct Ho as (i & Hi & Hn). destruct (Hk o i) as [k ?]; [by left|done|]. by destruct (Hn k).
Qed.
End planner.

(** ** The plans the loop over the required sets keeps *)

Section plans.
Context (creds : list CredentialQuery) (sat : list bool).
Context (Hlen : length sat = length creds).
Context (Huniq : forall i m n, names creds i m -> names creds i n -> m = n).
Let n := length creds.

(** Positions, as a set, that are available and answer the sets in [done]. *)
Definition covers (done : list CredentialSetQuery) (P : nat -> Prop) : Prop :=
  (forall j, P j -> sat !! j = Some true)
  /\ forall s, In s done -> required s = true ->
     exists o, In o (options s) /\ forall i, In i o -> exists k, names creds i k /\ P k.

Definition selected (m : Z) (j : nat) : Prop := bit m j = true.

Definition plans_ok (done : list CredentialSetQuery) (plans : list Z) : Prop :=
  (forall p, In p plans -> fits n p /\ covers done (selected p))
  /\ (forall P, covers done P -> exists p, In p plans /\ forall j, bit p j = true -> P j).

Lemma plans_ok_start : plans_ok [] [0].
Proof.
  split.
  - intros p [<-|[]]. split; [apply fits_0|]. split; [|done].
    intros j Hj. unfold selected in Hj. by rewrite bit_0 in Hj.
  - intros P _. exists 0. split; [by left|]. intros j. by rewrite bit_0.
Qed.

Lemma covers_snoc done s P :
  covers (done ++ [s]) P <->
  covers done P /\ (required s = true ->
    exists o, In o (options s) /\ forall i, In i o -> exists k, names creds i k /\ P k).
Proof.
  unfold covers. split.
  - intros [H1 H2]. split; [split; [done|]|]; intros; apply H2; try done; apply in_app_iff; auto.
    right. by left.
  - intros [[H1 H2] H3]. split; [done|]. intros s' [?|[<-|[]]]%in_app_iff Hr; auto.
Qed.

(** The masks of a set are its options whose credentials are all available. *)
Lemma complete_option o m :
  option_mask creds sat o 0 = Some (Some m) ->
  fits n m /\ (forall j, bit m j = true <-> exists i, In i o /\ names creds i j)
  /\ (forall j, bit m j = true -> sat !! j = Some true).
Proof.
  intros E. pose proof (option_mask_spec creds sat Huniq o 0 (fits_0 _)) as H. rewrite E in H.
  destruct H as (Hf & Hb & Hs).
  assert (forall j, bit m j = true <-> exists i, In i o /\ names creds i j) as Hb'.
  { intros j. rewrite Hb, bit_0. split; [by intros [?|?]|auto]. }
  split; [done|]. split; [done|]. intros j (i & Hi & Hj)%Hb'.
  destruct (Hs i Hi) as (k & Hk & Hsat). by rewrite (Huniq i j k).
Qed.

Lemma available_option o (P : nat -> Prop) :
  (forall j, P j -> sat !! j = Some true) ->
  (forall i, In i o -> exists k, names creds i k /\ P k) ->
  exists m, option_mask creds sat o 0 = Some (Some m) /\ forall j, bit m j = true -> P j.
Proof.
  intros Ha Ho. pose proof (option_mask_spec creds sat Huniq o 0 (fits_0 _)) as H.
  destruct (option_mask creds sat o 0) as [[m|]|] eqn:E.
  - exists m. split; [done|]. destruct (complete_option o m E) as (_ & Hb & _).
    intros j (i & Hi & Hj)%Hb. destruct (Ho i Hi) as (k & Hk & HP). by rewrite (Huniq i j k).
  - destruct H as (i & k & Hi & Hk & Hn). destruct (Ho i Hi) as (k' & Hk' & HP).
    rewrite (Huniq i k k') in Hn by done. by destruct Hn; apply Ha.
  - destruct H as (i & Hi & Hn). destruct (Ho i Hi) as (k & Hk & _). by destruct (Hn k).
Qed.

Lemma space : Z.to_nat (Z.shiftl 1 (len creds)) = Z.to_nat (2 ^ Z.of_nat n).
Proof. unfold len. by rewrite Z.shiftl_1_l. Qed.

Lemma plans_ok_step done s plans masks :
  required s = true ->
  (forall m, In m masks <-> exists o, In o (options s) /\ option_mask creds sat o 0 = Some (Some m)) ->
  plans_ok done plans ->
  plans_ok (done ++ [s]) (combine_plans (Z.to_nat (Z.shiftl 1 (len creds))) plans masks).
Proof.
  intros Hr Hm [H1 H2]. rewrite space.
  assert (forall o, In o masks -> fits n o) as Hfm.
  { intros m (o & _ & E)%Hm. by apply complete_option in E as (? & _). }
  assert (forall p, In p plans -> fits n p) as Hfp by (intros p Hp; by apply H1).
  split.
  - intros x (p & m & Hp & Hin & ->)%combine_plans_in; [|done|done].
    destruct (H1 p Hp) as (Hf & Ha & Hc). pose proof (Hfm m Hin) as Hfm'.
    apply Hm in Hin as (o & Ho & E). destruct (complete_option o m E) as (_ & Hb & Hs).
    pose proof (option_mask_spec creds sat Huniq o 0 (fits_0 _)) as Hspec. rewrite E in Hspec.
    destruct Hspec as (_ & _ & Hk).
    split; [by apply fits_lor|]. apply covers_snoc. split; [split|].
    + unfold selected. intros j. rewrite bit_lor, orb_true_iff. intros [?|?]; auto.
    + intros s' Hs' Hr'. destruct (Hc s' Hs' Hr') as (o' & Ho' & Hn). exists o'. split; [done|].
      intros i Hi. destruct (Hn i Hi) as (k & ? & Hsel). exists k. split; [done|].
      unfold selected in *. by rewrite bit_lor, Hsel.
    + intros _. exists o. split; [done|]. intros i Hi. destruct (Hk i Hi) as (k & Hk' & _).
      exists k. split; [done|]. unfold selected. rewrite bit_lor, orb_true_iff. right. apply Hb. eauto.
  - intros P [[Ha Hc] Hs]%covers_snoc. destruct (Hs Hr) as (o & Ho & Hn).
    destruct (available_option o P Ha Hn) as (m & E & Hsub).
    destruct (H2 P (conj Ha Hc)) as (p & Hp & Hpsub). exists (Z.lor p m). split.
    + apply combine_plans_in; [done|done|]. exists p, m. split; [done|]. split; [|done]. apply Hm. eauto.
    + intros j. rewrite bit_lor, orb_true_iff. intros [?|?]; auto.
Qed.

Lemma all_plans_spec sets done plans :
  (forall s o i, In s sets -> In o (options s) -> In i o -> exists k, names creds i k) ->
  plans_ok done plans ->
  match all_plans creds sat sets plans with
  | Some plans' => plans_ok (done ++ sets) plans'
  | None => forall P, ~ covers (done ++ sets) P
  end.
Proof.
  revert done plans. induction sets as [|s sets IH]; intros done plans Hk Hp; cbn [all_plans].
  - by rewrite app_nil_r.
  - replace (done ++ s :: sets) with ((done ++ [s]) ++ sets) by by rewrite <- app_assoc.
    assert (forall s' o i, In s' sets -> In o (options s') -> In i o -> exists k, names creds i k) as Hk'
      by (intros; eapply Hk; [by right|done..]).
    destruct (required s) eqn:Er; cbn [negb].
    + destruct (collect_option_masks_spec creds sat Huniq (options s) []) as (masks & -> & Hm);
        [intros o i Ho Hi; eapply Hk; [by left|done..]|].
      assert (forall m, In m masks <-> exists o, In o (options s)
        /\ option_mask creds sat o 0 = Some (Some m)) as Hm'.
      { intros m. rewrite Hm. split; [by intros [[]|?]|auto]. }
      destruct masks as [|m masks]; cbn [is_empty]; [|by apply IH, plans_ok_step].
      intros P [Ha Hc]. destruct (Hc s) as (o & Ho & Hn); [|done|].
      { apply in_app_iff. left. apply in_app_iff. right. by left. }
      destruct (available_option o P Ha Hn) as (m & E & _). apply (Hm' m). eauto.
    + apply IH; [done|]. destruct Hp as [H1 H2]. split.
      * intros p Hin. destruct (H1 p Hin) as [Hf Hc]. split; [done|]. apply covers_snoc.
        split; [done|]. by rewrite Er.
      * intros P [Hc _]%covers_snoc. by apply H2.
Qed.
End plans.

(** [min_by] returns an element that is least for a total preorder. *)
Lemma min_by_least (cmp : Z -> Z -> comparison) (R : Z -> Z -> Prop) l :
  (forall a b, In a l -> In b l -> cmp a b <> Gt <-> R a b) ->
  (forall a, R a a) -> (forall a b c, R a b -> R b c -> R a c) -> (forall a b, R a b \/ R b a) ->
  match min_by cmp l with
  | Some m => In m l /\ forall x, In x l -> R m x
  | None => l = []
  end.
Proof.
  intros Hcmp Hrefl Htrans Htotal. destruct l as [|x l]; cbn; [done|].
  assert (forall l' best, (forall y, In y (best :: l') -> In y (x :: l)) ->
    In (fold_left (fun best y => match cmp best y with Gt => y | _ => best end) l' best) (best :: l')
    /\ forall y, In y (best :: l') ->
       R (fold_left (fun best y => match cmp best y with Gt => y | _ => best end) l' best) y) as H;
    [|by apply H].
  induction l' as [|y l' IH]; intros best Hin; cbn [fold_left].
  - split; [by left|]. by intros z [<-|[]].
  - set (b := match cmp best y with Gt => y | _ => best end).
    assert (In b (best :: y :: l')) as Hb by (unfold b; case_match; [by left|by left|right; by left]).
    assert (R b best /\ R b y) as [Hb1 Hb2].
    { assert (cmp best y <> Gt <-> R best y) as Hc by (apply Hcmp; apply Hin; [by left|right; by left]).
      unfold b. destruct (cmp best y) eqn:E; try (split; [done|by apply Hc]).
      split; [|done]. destruct (Htotal best y) as [HR|]; [|done]. by apply Hc in HR. }
    destruct (IH b) as [H1 H2].
    { intros z [<-|Hz]; [by apply Hin|apply Hin; right; by right]. }
    split.
    + destruct H1 as [<-|?]; [done|right; by right].
    + intros z [<-|[<-|Hz]]; [apply Htrans with b; [apply H2; by left|done]..|apply H2; by right].
Qed.

(** ** The planner's contract *)

(** What the planner needs of a query; [within_budget] gives it. *)
Definition plannable (q : DcqlQuery) : Prop :=
  credentials q <> [] /\ len (credentials q) <= MAX_CREDENTIAL_QUERIES
  /\ (forall i m n, names (credentials q) i m -> names (credentials q) i n -> m = n)
  /\ match credential_sets q with
     | Some sets => forall s o i, In s sets -> In o (options s) -> In i o ->
                    exists k, names (credentials q) i k
     | None => True
     end.

Lemma members_admissible q sat sets m :
  credential_sets q = Some sets -> fits (length (credentials q)) m ->
  covers (credentials q) sat sets (selected m) -> admissible q sat (members (length (credentials q)) m).
Proof.
  intros Es Hf [Ha Hc]. unfold admissible. rewrite Es. split_and!.
  - apply filter_seq_sorted.
  - intros k Hk. apply Ha. by apply (in_members (length (credentials q))).
  - intros s Hs Hr. destruct (Hc s Hs Hr) as (o & Ho & Hn). exists o. split; [done|].
    intros i Hi. destruct (Hn i Hi) as (k & Hk & Hsel). exists k. split; [done|]. by apply in_members.
Qed.

Lemma plan_with_sets q sat sets :
  plannable q -> length sat = length (credentials q) -> credential_sets q = Some sets ->
  match credential_selection_plan q sat with
  | Some l => admissible q sat l /\ forall l', admissible q sat l' -> preferable l l'
  | None => forall l', ~ admissible q sat l'
  end.
Proof.
  intros (Hne & H16 & Hu & Hk) Hl Es. rewrite Es in Hk. unfold credential_selection_plan.
  assert (len sat = len (credentials q)) as -> by (unfold len; lia).
  rewrite Z.eqb_refl. replace (is_empty (credentials q)) with false by by destruct (credentials q).
  replace (MAX_CREDENTIAL_QUERIES <? len (credentials q)) with false by (symmetry; by apply Z.ltb_ge).
  cbn [negb orb]. rewrite Es.
  assert (length (credentials q) <= 16)%nat as Hn by (unfold len, MAX_CREDENTIAL_QUERIES in H16; lia).
  pose proof (all_plans_spec (credentials q) sat Hu sets [] [0] Hk (plans_ok_start _ _)) as HP.
  assert (forall l', admissible q sat l' -> covers (credentials q) sat sets (fun j => In j l')) as Hcov.
  { intros l' (_ & Ha & Hc). rewrite Es in Hc. by split. }
  cbn [app] in HP. destruct (all_plans _ _ _ _) as [plans|]; [|intros l' H; by apply (HP _ (Hcov l' H))].
  destruct HP as [H1 H2].
  pose proof (min_by_least
    (fun l r => compare_credential_plan_masks l r (length (credentials q)))
    (fun a b => preferable (members (length (credentials q)) a) (members (length (credentials q)) b))
    plans) as Hmin.
  destruct (min_by _ plans) as [m|].
  - destruct Hmin as [Hin Hleast]; [intros a b Ha Hb; apply compare_preferable; try done; by apply H1
      |intros; apply preferable_refl|intros ???; apply preferable_trans|intros; apply preferable_total|].
    destruct (H1 m Hin) as [Hf Hc]. split; [by apply members_admissible with sets|].
    intros l' Hl'. destruct (H2 _ (Hcov l' Hl')) as (p & Hp & Hsub). destruct (H1 p Hp) as [Hfp _].
    apply preferable_trans with (members (length (credentials q)) p); [by apply Hleast|].
    apply sublist_preferable, sorted_incl_sublist; [apply filter_seq_sorted|apply Hl'|].
    intros j Hj. apply Hsub. by apply (in_members (length (credentials q))).
  - intros l' Hl'. destruct (H2 _ (Hcov l' Hl')) as (p & Hp & _). rewrite Hmin in Hp; [done|..].
    + intros a b Ha Hb; apply compare_preferable; try done; by apply H1.
    + intros; apply preferable_refl.
    + intros ???; apply preferable_trans.
    + intros; apply preferable_total.
Qed.

Lemma plan_without_sets q sat :
  plannable q -> length sat = length (credentials q) -> credential_sets q = None ->
  match credential_selection_plan q sat with
  | Some l => admissible q sat l /\ forall l', admissible q sat l' -> preferable l l'
  | None => forall l', ~ admissible q sat l'
  end.
Proof.
  intros (Hne & H16 & Hu & Hk) Hl Es. unfold credential_selection_plan.
  assert (len sat = len (credentials q)) as -> by (unfold len; lia).
  rewrite Z.eqb_refl. replace (is_empty (credentials q)) with false by by destruct (credentials q).
  replace (MAX_CREDENTIAL_QUERIES <? len (credentials q)) with false by (symmetry; by apply Z.ltb_ge).
  cbn [negb orb]. rewrite Es. unfold admissible. rewrite Es.
  destruct (forallb _ sat) eqn:Ef.
  - rewrite forallb_forall in Ef. split; [split_and!|].
    + apply seq_sorted.
    + intros k [_ Hk']%in_seq. destruct (lookup_lt_is_Some_2 sat k) as [b Hb]; [cbn in Hk'; lia|].
      rewrite Hb. f_equal. apply Ef, list_elem_of_In. by eapply list_elem_of_lookup_2.
    + intros k Hk'. apply in_seq. lia.
    + intros l' (Hs & _ & Hall). apply sublist_preferable, sorted_incl_sublist; [apply seq_sorted|done|].
      intros k [_ Hk']%in_seq. by apply Hall.
  - intros l' (_ & Ha & Hall). apply not_true_iff_false in Ef. apply Ef, forallb_forall.
    intros b (k & Hb)%list_elem_of_In%list_elem_of_lookup_1.
    assert (sat !! k = Some true) as E by (apply Ha, Hall; rewrite <- Hl; by eapply lookup_lt_Some).
    congruence.
Qed.

(** ** Accepted queries *)

Lemma all_with_earlier_spec {A} (f : list A -> A -> bool) earlier l :
  all_with_earlier f earlier l = true ->
  forall pre x post, l = pre ++ x :: post -> f (earlier ++ pre) x = true.
Proof.
  revert earlier. induction l as [|y l IH]; intros earlier H pre x post E; cbn in H.
  - by destruct pre.
  - bool_prop. destruct pre as [|z pre]; injection E as -> ->; [by rewrite app_nil_r|].
    match goal with H : all_with_earlier _ _ _ = true |- _ =>
      specialize (IH _ H pre x post eq_refl) end.
    by rewrite <- app_assoc in IH.
Qed.

Lemma all_with_earlier_forall {A} (f : list A -> A -> bool) l x :
  all_with_earlier f [] l = true -> In x l -> exists earlier, f earlier x = true.
Proof.
  intros H (pre & post & E)%in_split. exists pre. by apply (all_with_earlier_spec f [] l H pre x post).
Qed.

(** A test that refuses a key seen earlier makes the keys distinct. *)
Lemma all_with_earlier_NoDup {A B} (f : list A -> A -> bool) (key : A -> B) l :
  (forall earlier x, f earlier x = true -> ~ In (key x) (map key earlier)) ->
  all_with_earlier f [] l = true -> NoDup (map key l).
Proof.
  intros Hf H. assert (forall l' k, l = k ++ l' -> NoDup (map key k) -> NoDup (map key l)) as Hg.
  { induction l' as [|x l' IH]; intros k E Hk; [by rewrite E, app_nil_r|].
    apply (IH (k ++ [x])); [by rewrite <- app_assoc|]. rewrite map_app. cbn.
    apply list.NoDup_app. split_and!; [done| |apply NoDup_singleton].
    intros b Hb%list_elem_of_In ->%list_elem_of_singleton. eapply Hf; [|exact Hb].
    by apply (all_with_earlier_spec f [] l H k x l'). }
  apply (Hg l []); [done|constructor].
Qed.

Lemma existsb_false_in {A} (f : A -> bool) l x : existsb f l = false -> In x l -> f x = false.
Proof.
  intros H Hx. apply not_true_iff_false. intros E. apply not_true_iff_false in H. apply H.
  apply existsb_exists. eauto.
Qed.

Lemma contains_in l s : contains l s = true <-> In s l.
Proof.
  unfold contains. rewrite existsb_exists. split.
  - by intros (x & ? & <-%bool_decide_eq_true).
  - intros H. exists s. split; [done|]. by apply bool_decide_eq_true.
Qed.

Lemma option_within_budget_spec max known earlier ids :
  option_within_budget max known earlier ids = true ->
  ids <> [] /\ len ids <= max /\ NoDup ids /\ forall i, In i ids -> known i = true.
Proof.
  unfold option_within_budget. intros H. bool_prop. split_and!.
  - by intros ->.
  - done.
  - rewrite <- (map_id ids). eapply all_with_earlier_NoDup; [|done]. intros e x Hx. cbn in Hx. bool_prop.
    rewrite map_id. rewrite <- contains_in. congruence.
  - intros i Hi. match goal with H : all_with_earlier _ _ _ = true |- _ =>
      destruct (all_with_earlier_forall _ _ i H Hi) as [e He] end. cbn in He. by bool_prop.
Qed.

Lemma budget_ids q : within_budget q = true -> NoDup (map id (credentials q)).
Proof.
  unfold within_budget. intros H. bool_prop. eapply all_with_earlier_NoDup; [|done].
  unfold credential_within_budget. intros e c Hc. bool_prop.
  intros (d & Hd & Hin)%in_map_iff.
  match goal with H : existsb _ e = false |- _ => apply (existsb_false_in _ _ d H) in Hin end.
  by apply bool_decide_eq_false in Hin.
Qed.

Lemma names_unique creds i m n :
  NoDup (map id creds) -> names creds i m -> names creds i n -> m = n.
Proof.
  intros Hd (c & Hc & Hi) (d & Hd' & Hj). eapply NoDup_lookup; [done|..].
  - by rewrite list_lookup_fmap, Hc; cbn; rewrite Hi.
  - by rewrite list_lookup_fmap, Hd'; cbn; rewrite Hj.
Qed.

Lemma names_credential_names q i : names_credential q i = true -> exists k, names (credentials q) i k.
Proof.
  unfold names_credential. rewrite existsb_exists. intros (c & Hc & Hi%bool_decide_eq_true).
  apply list_elem_of_In, list_elem_of_lookup_1 in Hc as [k Hk]. exists k. by exists c.
Qed.

Lemma within_budget_plannable q : within_budget q = true -> plannable q.
Proof.
  intros H. pose proof (budget_ids q H) as Hd. unfold within_budget in H. bool_prop. split_and!.
  - by intros E; rewrite E in *.
  - done.
  - intros i m n. by apply names_unique.
  - destruct (credential_sets q) as [sets|]; [|done]. cbn [option_all] in *. bool_prop.
    intros s o i Hs Ho Hi. apply names_credential_names.
    match goal with H : forallb (credential_set_within_budget q) sets = true |- _ =>
      rewrite forallb_forall in H; specialize (H s Hs) end.
    unfold credential_set_within_budget in *. bool_prop.
    match goal with H : all_with_earlier _ [] (options s) = true |- _ =>
      destruct (all_with_earlier_forall _ _ o H Ho) as [e He] end.
    apply option_within_budget_spec in He. by apply He.
Qed.

Lemma plan_spec q sat :
  within_budget q = true -> length sat = length (credentials q) ->
  match credential_selection_plan q sat with
  | Some l => admissible q sat l /\ forall l', admissible q sat l' -> preferable l l'
  | None => forall l', ~ admissible q sat l'
  end.
Proof.
  intros Hp%within_budget_plannable Hl. destruct (credential_sets q) as [sets|] eqn:E.
  - by eapply plan_with_sets.
  - by apply plan_without_sets.
Qed.

(** Resolving the alternatives of a credential query. *)
Lemma map_option_all {A B} (f : A -> option B) (P : A -> B -> Prop) l :
  (forall x, In x l -> exists y, f x = Some y /\ P x y) ->
  exists r, map_option f l = Some r /\ Forall2 P l r.
Proof.
  induction l as [|x l IH]; intros H; cbn; [exists []; by split|].
  destruct (H x) as (y & -> & Hy); [by left|]. destruct IH as (r & -> & Hr); [auto using in_cons|].
  exists (y :: r). split; [done|by constructor].
Qed.

(** The claims an alternative selects: one per identifier, with that identifier. *)
Definition selects (c : CredentialQuery) (ids : ClaimSet) (option : list nat) : Prop :=
  Forall2 (fun i k => exists claim, claims c !! k = Some claim /\ claim_id claim = Some i) ids option.

Lemma resolve_claim c i :
  names_claim c i = true ->
  exists k, position (fun claim => bool_decide (claim_id claim = Some i)) (claims c) = Some k
  /\ exists claim, claims c !! k = Some claim /\ claim_id claim = Some i.
Proof.
  intros H. destruct (position _ (claims c)) as [k|] eqn:E.
  - exists k. split; [done|]. apply position_Some in E as (claim & ? & ?%bool_decide_eq_true). eauto.
  - unfold names_claim in H. apply existsb_exists in H as (claim & Hin & Hd).
    by rewrite (position_None _ _ E claim Hin) in Hd.
Qed.

Lemma budget_selection earlier c sets :
  credential_within_budget earlier c = true -> claim_sets c = Some sets ->
  sets <> [] /\ exists os, claim_selection_options c = Some os /\ Forall2 (selects c) sets os.
Proof.
  unfold credential_within_budget, claim_selection_options. intros H E. rewrite E in *. bool_prop.
  cbn [option_all] in *. bool_prop. split; [by intros ->|]. apply map_option_all. intros ids Hin.
  match goal with H : all_with_earlier _ [] sets = true |- _ =>
    destruct (all_with_earlier_forall _ _ ids H Hin) as [e He] end.
  apply option_within_budget_spec in He as (_ & _ & _ & Hk). apply map_option_all.
  intros i Hi. apply resolve_claim. by apply Hk.
Qed.

Lemma from_value_budget v q : from_value v = Some q -> within_budget q = true.
Proof.
  unfold from_value. intros H. destruct (_ || _ || _); [done|].
  destruct (de_query v) as [q'|]; [|done]. destruct (within_budget q') eqn:E; [|done].
  by injection H as <-.
Qed.

Lemma budget_credential q c :
  within_budget q = true -> In c (credentials q) -> exists earlier, credential_within_budget earlier c = true.
Proof.
  unfold within_budget. intros H Hin. bool_prop. by eapply all_with_earlier_forall.
Qed.

Lemma accepted v q :
  from_value v = Some q ->
  1 <= len (credentials q) <= 16 /\ NoDup (map id (credentials q))
  /\ (forall c, In c (credentials q) -> trusted_authorities c = None
      /\ match claim_sets c with
         | None => claim_selection_options c = Some [seq 0 (length (claims c))]
         | Some sets => sets <> []
             /\ exists os, claim_selection_options c = Some os /\ Forall2 (selects c) sets os
         end)
  /\ (forall sets s o i, credential_sets q = Some sets -> In s sets -> In o (options s) -> In i o ->
      exists k, names (credentials q) i k).
Proof.
  intros H%from_value_budget. pose proof (within_budget_plannable q H) as (Hne & H16 & _ & Hk).
  split_and!.
  - destruct (credentials q); [done|]. rewrite len_cons. pose proof (len_nonneg l). lia.
  - done.
  - by apply budget_ids.
  - intros c Hin. destruct (budget_credential q c H Hin) as [e He]. split.
    + unfold credential_within_budget in He. bool_prop. by destruct (trusted_authorities c).
    + destruct (claim_sets c) as [sets|] eqn:E; [by eapply budget_selection|].
      unfold claim_selection_options. by rewrite E.
  - intros sets s o i E Hs Ho Hi. rewrite E in Hk. eauto.
Qed.

(** ** Properties *)

(** C7: The planner picks a least plan.  For a query within its budget and the
    availability of each of its credentials, the planner returns a plan exactly
    when there is one; the plan selects available credentials only, answers
    every query (or one option of every required credential set, when the query
    has sets), and no other plan has fewer credentials, nor the same number at
    lower positions. *)
Theorem selection_plan_least (q : DcqlQuery) (satisfiable : list bool) :
  within_budget q = true -> length satisfiable = length (credentials q) ->
  match credential_selection_plan q satisfiable with
  | Some l => admissible q satisfiable l /\ forall l', admissible q satisfiable l' -> preferable l l'
  | None => forall l', ~ admissible q satisfiable l'
  end.
Proof. apply plan_spec. Qed.

Definition sample_credential (name : string) : Value :=
  VObject [("id", VString name); ("format", VString "dc+sd-jwt");
           ("meta", VObject [("vct_values", VArray [VString name])])]%string.

Definition ids (l : list string) : Value := VArray (map VString l).

(** The test vector of the source: the second set's option decides the plan. *)
Definition sample_query : Value :=
  VObject [("credential_sets", VArray [
              VObject [("options", VArray [ids ["b"; "a"]; ids ["c"]])];
              VObject [("options", VArray [ids ["c"; "a"]])];
              VObject [("options", VArray [ids ["d"]]); ("required", VBool false)]]);
           ("credentials", VArray (map sample_credential ["a"; "b"; "c"; "d"]))]%string.

Definition sample_parsed : DcqlQuery :=
  unwrap_or (from_value sample_query) {| credentials := []; credential_sets := None |}.

Lemma selection_plan_least_witness :
  from_value sample_query = Some sample_parsed
  /\ credential_selection_plan sample_parsed [true; true; true; true] = Some [0; 2]%nat
  /\ forall l', admissible sample_parsed [true; true; true; true] l' -> preferable [0; 2]%nat l'.
Proof.
  split; [vm_compute; reflexivity|]. split; [vm_compute; reflexivity|].
  exact (proj2 (selection_plan_least sample_parsed [true; true; true; true] eq_refl eq_refl)).
Defined.

(** What an accepted query guarantees: between one and sixteen credential
    queries with distinct identifiers and no trusted authorities; every claim
    set of a query resolves to one claim per identifier, so that
    [claim_selection_options] never fails; and every credential set names
    credentials of the query. *)
Theorem accepted_query_resolves (v : Value) (q : DcqlQuery) :
  from_value v = Some q ->
  1 <= len (credentials q) <= 16 /\ NoDup (map id (credentials q))
  /\ (forall c, In c (credentials q) -> trusted_authorities c = None
      /\ match claim_sets c with
         | None => claim_selection_options c = Some [seq 0 (length (claims c))]
         | Some sets => sets <> []
             /\ exists os, claim_selection_options c = Some os /\ Forall2 (selects c) sets os
         end)
  /\ (forall sets s o i, credential_sets q = Some sets -> In s sets -> In o (options s) -> In i o ->
      exists k, names (credentials q) i k).
Proof. apply accepted. Qed.

Lemma accepted_query_resolves_witness :
  from_value sample_query = Some sample_parsed /\ NoDup (map id (credentials sample_parsed)).
Proof.
  assert (from_value sample_query = Some sample_parsed) as E by (vm_compute; reflexivity).
  split; [exact E|]. exact (proj1 (proj2 (accepted_query_resolves sample_query sample_parsed E))).
Defined.

(** The checks on the raw document only look at members of objects, while the
    derived deserializers also read sequences by position: the positional form
    of a query keeps an [intent_to_retain] on an SD-JWT claim that the object
    form is refused for. *)
Definition retaining_claim : Value :=
  VObject [("intent_to_retain", VBool true); ("path", VArray [VString "age"])]%string.

Definition object_query : Value :=
  VObject [("credentials", VArray [VObject [
    ("id", VString "pid"); ("format", VString "dc+sd-jwt");
    ("meta", VObject [("vct_values", VArray [VString "v1"])]);
    ("claims", VArray [retaining_claim])]])]%string.

Definition positional_query : Value :=
  VObject [("credentials", VArray [VArray [
    VString "pid"; VString "dc+sd-jwt"; VObject [("vct_values", VArray [VString "v1"])];
    VArray [retaining_claim]]])]%string.

Lemma positional_query_escapes_modifier_check :
  from_value object_query = None /\ de_query object_query = de_query positional_query
  /\ is_some (from_value positional_query) = true.
Proof. by vm_compute. Qed.
