(* ===== verification/Oid4vp.v ===== *)
(** * Remote presentation (crates/oid4vp/src/lib.rs)

    The OpenID4VP machine: requests and their parser, the guards with the URI
    checks, presentations of one or more credentials signed in turn by the
    device, the direct-post response, and the crate's reference model
    ([Model]).  The theorem: a response leaves the wallet only after a request
    that passed every guard, the user's consent, and one device signature per
    selected credential, in order; and the response is the one assembled from
    exactly these signatures.  Lemmas show that the form encoding and the
    key-binding input are unambiguous, and that the machine simulates its
    reference model. *)

From S2P Require Import Prelude Utf8 Cbor Boundary Cose Machine BTree Mdoc Serde Dcql.

Open Scope Z_scope.
Open Scope rust_scope.

(** ** Data *)

Definition MAX_NONCE_BYTES : Z := 256.

Inductive SelectedCredential : Type :=
| SelSdJwt (issuer_jwt : string) (disclosures : list string) (dcql_id : option string)
| SelMdoc (doctype : string) (issuer_signed : Mdoc.IssuerSigned) (session_transcript : bytes)
    (device_namespaces : bytes) (mdoc_generated_nonce : string) (dcql_id : option string).

Inductive SubPresentation : Type :=
| SubSdJwt (presentation kb_signing_input : string) (dcql_id : option string)
| SubMdoc (doctype : string) (issuer_signed : Mdoc.IssuerSigned) (device_namespaces : bytes)
    (protected_header signing_input : bytes) (mdoc_generated_nonce : string)
    (dcql_id : option string).

Definition sub_signing_input (s : SubPresentation) : bytes :=
  match s with
  | SubSdJwt _ kb_signing_input _ => Prelude.as_bytes kb_signing_input
  | SubMdoc _ _ _ _ signing_input _ _ => signing_input
  end.

Record CompletedPresentation : Type := {
  c_dcql_id : option string;
  c_vp_token : string;
  c_mdoc_generated_nonce : option string;
}.

Record PendingPresentation : Type := {
  p_queue : list SubPresentation;
  p_done : list CompletedPresentation;
  p_state : option string;
}.

Inductive AbortReason : Type :=
| RequestNotSignedOrBound
| RelyingPartyNotRegistered
| ClientIdBindingInvalid
| NonceReplayed
| PurposeUndeclared
| AudienceMismatch
| RedirectUriNotRegistered
| ResponseModeUnsupported
| ResponseUriInvalid
| ResponseUriNotRegistered
| ResponseEncryptionMetadataInvalid
| ResponseEncryptionFailed
| ClockRollback
| CredentialExpired
| CredentialNotYetValid
| CredentialProvenanceInvalid
| PresentationTrustInvalid
| CredentialStatusInvalid
| CredentialStatusUnavailable
| MalformedRequest
| UserDeclined
| NoCredential.

Record AuthRequest : Type := {
  client_id : string;
  nonce : string;
  audience : string;
  response_uri : string;
  redirect_uri : option string;
  purpose : option string;
  requested_claims : list string;
  r_state : option string;
  response_mode : string;
  r_dcql_id : option string;
  r_requested_vcts : list string;
  r_requested_doctypes : list string;
  r_dcql : option Dcql.DcqlQuery;
  response_encryption_key : option bytes;
  signed_payload : bytes;
  r_signature : bytes;
  request_alg : Alg;
}.

Record ResolvedTrust : Type := {
  registered : bool;
  rp_public_key : bytes;
  registered_redirect_uris : list string;
  leaf_dns_sans : list string;
}.

Inductive State : Type :=
| Idle
| ResolvingTrust (req : AuthRequest)
| RequestValidated (req : AuthRequest)
| AwaitingDeviceSignature (p : PendingPresentation)
| Presenting
| Done
| Aborted (reason : AbortReason).

Inductive Input : Type :=
| AuthorizationRequest (b : bytes)
| RpTrustResolved (trust : ResolvedTrust)
| ConsentGranted
| ConsentDeclined
| DeviceSignatureProduced (sig : bytes)
| PresentationDelivered.

Inductive Output : Type :=
| ResolveRpTrust (client_id : string)
| PersistNonce (nonce : string)
| RenderConsent (rp_client_id purpose : string)
| SignKeyBinding (key_ref : string) (signing_input : bytes)
| SendVpToken (body : bytes)
| Close.

Record Env : Type := {
  wallet_client_id : string;
  seen_nonces : list string;
  now_epoch : Z;
  selected_credentials : list SelectedCredential;
  device_key_ref : string;
}.

(** ** The URI checks of the guards *)

Fixpoint find_byte (c : byte) (b : bytes) : option nat :=
  match b with
  | [] => None
  | x :: b => if Byte.eqb x c then Some 0%nat else option_map S (find_byte c b)
  end.

(** [split_once] on one character, and [rsplit_once]. *)
Definition split_at_byte (c : byte) (b : bytes) : option (bytes * bytes) :=
  let! i := find_byte c b in
  Some (take i b, drop (S i) b).

Definition rsplit_at_byte (c : byte) (b : bytes) : option (bytes * bytes) :=
  let! (after, before) := split_at_byte c (rev b) in
  Some (rev before, rev after).

Definition has_byte (c : byte) (b : bytes) : bool := existsb (fun x => Byte.eqb x c) b.

(** [<Ipv6Addr as FromStr>::from_str]: the parser of the standard library,
    which keeps the rest of the input; only its success is used. *)
Definition hex_digit (b : byte) : option Z :=
  let x := byte.unsigned b in
  if in_range 48 57 x then Some (x - 48)
  else if in_range 97 102 x then Some (x - 87)
  else if in_range 65 70 x then Some (x - 55) else None.

Fixpoint read_hex (count : nat) (b : bytes) : option (nat * bytes) :=
  match b with
  | x :: r =>
      if is_some (hex_digit x)
      then if (count <? 4)%nat then read_hex (S count) r else None
      else Some (count, b)
  | [] => Some (count, [])
  end.

Definition read_group (b : bytes) : option bytes :=
  let! (count, r) := read_hex 0 b in
  if (count =? 0)%nat then None else Some r.

Fixpoint read_dec (count : nat) (n : Z) (b : bytes) : option (nat * Z * bytes) :=
  match b with
  | x :: r =>
      if is_ascii_digit x
      then
        let n := n * 10 + (byte.unsigned x - 48) in
        if (count <? 3)%nat && (n <=? 255) then read_dec (S count) n r else None
      else Some (count, n, b)
  | [] => Some (count, n, [])
  end.

Definition read_octet (b : bytes) : option bytes :=
  let! (count, _, r) := read_dec 0 0 b in
  if (count =? 0)%nat || (bool_decide (head b = Some Byte.x30) && (1 <? count)%nat) then None
  else Some r.

Definition read_char (c : byte) (b : bytes) : option bytes :=
  match b with
  | x :: r => if Byte.eqb x c then Some r else None
  | [] => None
  end.

(** [read_separator(c, index, inner)]. *)
Definition read_separator (c : byte) (index : nat) (inner : bytes -> option bytes) (b : bytes)
  : option bytes :=
  match index with
  | O => inner b
  | S _ =>
      let! r := read_char c b in
      inner r
  end.

Definition read_ipv4 (b : bytes) : option bytes :=
  let! r0 := read_octet b in
  let! r1 := read_separator Byte.x2e 1 read_octet r0 in
  let! r2 := read_separator Byte.x2e 2 read_octet r1 in
  read_separator Byte.x2e 3 read_octet r2.

(** [read_groups]: at most [limit] groups from the [i]-th on, [fuel] of them
    left; the number of groups, whether an IPv4 part ended them, the rest. *)
Fixpoint read_groups (fuel i limit : nat) (b : bytes) : nat * bool * bytes :=
  match fuel with
  | O => (limit, false, b)
  | S fuel =>
      match (if (i <? limit - 1)%nat then read_separator Byte.x3a i read_ipv4 b else None) with
      | Some r => ((i + 2)%nat, true, r)
      | None =>
          match read_separator Byte.x3a i read_group b with
          | Some r => read_groups fuel (S i) limit r
          | None => (i, false, b)
          end
      end
  end.

Definition read_ipv6 (b : bytes) : option bytes :=
  let '(head_size, head_ipv4, r) := read_groups 8 0 8 b in
  if (head_size =? 8)%nat then Some r
  else if head_ipv4 then None
  else
    let! r := read_char Byte.x3a r in
    let! r := read_char Byte.x3a r in
    let limit := (8 - (head_size + 1))%nat in
    let '(_, _, r) := read_groups limit 0 limit r in
    Some r.

Definition is_ipv6 (b : bytes) : bool :=
  match read_ipv6 b with Some [] => true | _ => false end.

(** [str::parse::<u16>], of digits only. *)
Definition parse_u16 (b : bytes) : option Z :=
  let! n := fold_digits 0 b in
  if is_empty b || (U16_MAX <? n) then None else Some n.

Definition valid_host (host : bytes) : bool :=
  if is_empty host || (253 <? len host) then false
  else
    forallb (fun label =>
      negb (is_empty label) && (len label <=? 63)
      && negb (bool_decide (head label = Some Byte.x2d))
      && negb (bool_decide (head (rev label) = Some Byte.x2d))
      && forallb (fun b => is_ascii_alphanumeric b || Byte.eqb b Byte.x2d) label)
      (split_byte Byte.x2e host).

Definition valid_port (port : bytes) : bool :=
  negb (is_empty port) && forallb is_ascii_digit port
  && option_any (fun p => negb (p =? 0)) (parse_u16 port).

Definition valid_optional_port (suffix : bytes) : bool :=
  is_empty suffix || option_any valid_port (strip_prefix [Byte.x3a] suffix).

(** [find('/')] and [find('?')], the smaller of the two, else the length. *)
Definition authority_end (remainder : bytes) : nat :=
  match find_byte Byte.x2f remainder, find_byte Byte.x3f remainder with
  | Some a, Some b => Nat.min a b
  | Some a, None => a
  | None, Some b => b
  | None, None => length remainder
  end.

Definition valid_authority (authority : bytes) : bool :=
  match strip_prefix [Byte.x5b] authority with
  | Some ipv6 =>
      match find_byte Byte.x5d ipv6 with
      | None => false
      | Some close =>
          if (close =? 0)%nat || negb (is_ipv6 (take close ipv6)) then false
          else valid_optional_port (drop (S close) ipv6)
      end
  | None =>
      if 1 <? count_byte Byte.x3a authority then false
      else
        match rsplit_at_byte Byte.x3a authority with
        | Some (host, port) => valid_host host && valid_port port
        | None => valid_host authority
        end
  end.

Definition is_valid_https_uri (uri : string) : bool :=
  let b := Prelude.as_bytes uri in
  if is_empty b || existsb (fun b => is_ascii_control b || is_ascii_whitespace b) b
     || has_byte Byte.x5c b || has_byte Byte.x23 b
  then false
  else
    match split_once (Prelude.as_bytes "://") b with
    | None => false
    | Some (scheme, remainder) =>
        if negb (eq_ignore_ascii_case scheme (Prelude.as_bytes "https")) || is_empty remainder then false
        else
          let authority := take (authority_end remainder) remainder in
          if is_empty authority || has_byte Byte.x40 authority then false
          else valid_authority authority
    end.

(** ** Guards *)

Definition string_in (l : list string) (s : string) : bool := existsb (fun r => bool_decide (r = s)) l.

Definition request_object_is_signed_and_bound `{Verifier} (req : AuthRequest) (trust : ResolvedTrust)
  : bool :=
  negb (is_empty (r_signature req))
  && is_ok (verify (request_alg req) (rp_public_key trust) (signed_payload req) (r_signature req)).

Definition rp_is_registered (_req : AuthRequest) (trust : ResolvedTrust) : bool := registered trust.

Definition client_id_binds_to_leaf (req : AuthRequest) (trust : ResolvedTrust) : bool :=
  match split_at_byte Byte.x3a (Prelude.as_bytes (client_id req)) with
  | Some (prefix, host) =>
      if bool_decide (prefix = Prelude.as_bytes "x509_san_dns") then
        negb (is_empty host)
        && existsb (fun san => eq_ignore_ascii_case (Prelude.as_bytes san) host) (leaf_dns_sans trust)
      else true
  | None => true
  end.

Definition nonce_is_fresh (nonce : string) (seen : list string) : bool := negb (string_in seen nonce).

Definition audience_matches (req : AuthRequest) (wallet_client_id : string) : bool :=
  bool_decide (audience req = wallet_client_id).

Definition redirect_uri_is_registered (req : AuthRequest) (trust : ResolvedTrust) : bool :=
  match redirect_uri req with
  | None => true
  | Some uri => string_in (registered_redirect_uris trust) uri
  end.

Definition response_mode_is_supported (req : AuthRequest) : bool :=
  bool_decide (response_mode req = "direct_post"%string)
  || bool_decide (response_mode req = "direct_post.jwt"%string).

Definition response_uri_is_https (req : AuthRequest) : bool := is_valid_https_uri (response_uri req).

Definition response_uri_is_registered (req : AuthRequest) (trust : ResolvedTrust) : bool :=
  string_in (registered_redirect_uris trust) (response_uri req).

Definition response_encryption_metadata_is_valid (req : AuthRequest) : bool :=
  if bool_decide (response_mode req = "direct_post"%string) then true
  else if bool_decide (response_mode req = "direct_post.jwt"%string) then
    option_any (fun key => (len key =? 65) && bool_decide (head key = Some Byte.x04))
      (response_encryption_key req)
  else false.

(** ** Building presentations and responses *)

(** [format!("%{b:02X}")] of the bytes outside the unreserved set. *)
Definition hex_upper (n : Z) : byte := byte.of_Z (if n <=? 9 then 48 + n else 55 + n).

Definition is_unreserved (b : byte) : bool :=
  is_ascii_alphanumeric b || Byte.eqb b Byte.x2d || Byte.eqb b Byte.x5f || Byte.eqb b Byte.x2e
  || Byte.eqb b Byte.x7e.

Definition urlencode_byte (b : byte) : bytes :=
  if is_unreserved b then [b]
  else [Byte.x25; hex_upper (Z.shiftr (byte.unsigned b) 4); hex_upper (Z.land (byte.unsigned b) 15)].

Definition form_urlencode (s : string) : string :=
  string_of_list_byte (concat (map urlencode_byte (Prelude.as_bytes s))).

Fixpoint push_disclosures (s : string) (disclosures : list string) : string :=
  match disclosures with
  | [] => s
  | d :: disclosures => push_disclosures (s ++ "~" ++ d)%string disclosures
  end.

Definition build_presentation (issuer_jwt : string) (disclosures : list string) : string :=
  (push_disclosures issuer_jwt disclosures ++ "~")%string.

(** The first companion nonce of the entries. *)
Fixpoint first_nonce (l : list CompletedPresentation) : option string :=
  match l with
  | [] => None
  | c :: l => match c_mdoc_generated_nonce c with Some n => Some n | None => first_nonce l end
  end.

(** The response object: per query identifier, its presentations in order. *)
Definition group_presentation (obj : BTreeMap string (list string)) (c : CompletedPresentation)
  : BTreeMap string (list string) :=
  let k := unwrap_or (c_dcql_id c) "" in
  bt_insert k (unwrap_or (bt_get obj k) [] ++ [c_vp_token c]) obj.

Definition MAX_REQUEST_OBJECT_BYTES : Z := 256 * 1024.
Definition MAX_LEGACY_CLAIMS : Z := 64.
Definition MAX_LEGACY_CLAIM_BYTES : Z := 256.

Definition nonce_byte (b : byte) : bool :=
  is_ascii_alphanumeric b || Byte.eqb b Byte.x2d || Byte.eqb b Byte.x2e || Byte.eqb b Byte.x5f
  || Byte.eqb b Byte.x7e.

(** [serde_json::Value] as dcql.rs matches on it. *)
Class JsonValue `{JL : JsonLib} : Type := { json_value : Json -> Serde.Value }.

Section oid4vp.
Context `{JL : JsonLib} {JV : JsonValue} `{B64 : Base64} `{D : Digest} `{V : Verifier}.

Definition base64url (b : bytes) : string := encode_string b.

Definition vp_value (done : list CompletedPresentation) : string :=
  match done with
  | [{| c_dcql_id := None; c_vp_token := token |}] => token
  | _ =>
      to_string (j_object (map (fun '(k, values) => (k, j_array (map j_string values)))
                             (fold_left group_presentation done [])))
  end.

Definition assemble_direct_post_body (done : list CompletedPresentation) (state : option string)
  : string :=
  ("vp_token=" ++ form_urlencode (vp_value done)
   ++ match state with Some s => "&state=" ++ form_urlencode s | None => "" end
   ++ match first_nonce done with
      | Some mgn => "&mdoc_generated_nonce=" ++ form_urlencode mgn
      | None => ""
      end)%string.

(** The bytes of the fixed header, a JSON object of the members [alg] and
    [typ] with the values [ES256] and [kb+jwt]. *)
Definition quoted (s : string) : bytes := Byte.x22 :: Prelude.as_bytes s ++ [Byte.x22].

Definition kb_header : bytes :=
  Prelude.as_bytes "{" ++ quoted "alg" ++ Prelude.as_bytes ":" ++ quoted "ES256" ++ Prelude.as_bytes ","
  ++ quoted "typ" ++ Prelude.as_bytes ":" ++ quoted "kb+jwt" ++ Prelude.as_bytes "}".

Definition kb_payload (nonce aud : string) (iat : Z) (sd_hash : string) : Json :=
  j_object [("nonce", j_string nonce); ("aud", j_string aud); ("iat", j_int iat);
            ("sd_hash", j_string sd_hash)]%string.

Definition kb_jwt_signing_input (nonce aud : string) (iat : Z) (sd_hash : string) : string :=
  (base64url kb_header ++ "."
   ++ base64url (Prelude.as_bytes (to_string (kb_payload nonce aud iat sd_hash))))%string.

(** ** Parsing a request *)

Fixpoint collect_claims (values : list Json) (claims : list string) : option (list string) :=
  match values with
  | [] => Some claims
  | value :: values =>
      let! claim := as_str value in
      if sis_empty claim || (MAX_LEGACY_CLAIM_BYTES <? slen claim) || string_in claims claim
      then None else collect_claims values (claims ++ [claim])
  end.

Definition parse_legacy_claims (value : option Json) : option (list string) :=
  match value with
  | None => Some []
  | Some value =>
      let! values := as_array value in
      if MAX_LEGACY_CLAIMS <? len values then None else collect_claims values []
  end.

Definition is_enc_key (k : Json) : bool :=
  let key_alg := get_str k "alg" in
  let key_use := get_str k "use" in
  (bool_decide (key_use = Some "enc"%string) || bool_decide (key_alg = Some "ECDH-ES"%string))
  && (is_none key_use || bool_decide (key_use = Some "enc"%string))
  && (is_none key_alg || bool_decide (key_alg = Some "ECDH-ES"%string))
  && bool_decide (get_str k "kty" = Some "EC"%string)
  && bool_decide (get_str k "crv" = Some "P-256"%string).

Fixpoint first_enc_key (keys : list Json) : option bytes :=
  match keys with
  | [] => None
  | k :: keys =>
      if negb (is_enc_key k) then first_enc_key keys
      else
        let! x := get_str k "x" in
        let! y := get_str k "y" in
        let! x := decode_vec x in
        let! y := decode_vec y in
        if (len x =? 32) && (len y =? 32) then Some (Byte.x04 :: x ++ y) else first_enc_key keys
  end.

Definition parse_enc_jwk (md : Json) : option bytes :=
  if negb (bool_decide (get_str md "authorization_encrypted_response_alg" = Some "ECDH-ES"%string))
     || negb (bool_decide (get_str md "authorization_encrypted_response_enc" = Some "A256GCM"%string))
  then None
  else
    let! jwks := get md "jwks" in
    let! keys := get jwks "keys" in
    let! keys := as_array keys in
    first_enc_key keys.

Definition parse_alg (header : Json) : option Alg :=
  let! alg := get_str header "alg" in
  if bool_decide (alg = "ES256"%string) then Some Es256
  else if bool_decide (alg = "ES384"%string) then Some Es384
  else if bool_decide (alg = "EdDSA"%string) then Some EdDsa else None.

Definition nonce_ok (nonce : string) : bool :=
  negb (sis_empty nonce) && (slen nonce <=? MAX_NONCE_BYTES)
  && forallb nonce_byte (Prelude.as_bytes nonce).

(** What the request asks for: claims, first identifier, types, doctypes. *)
Definition requested (p : Json) (dcql : option Dcql.DcqlQuery)
  : option (list string * option string * list string * list string) :=
  match dcql with
  | Some dq =>
      Some (requested_claim_paths dq, first_credential_id dq, requested_vcts dq, requested_doctypes dq)
  | None =>
      let! claims := parse_legacy_claims (get p "claims") in
      Some (claims, None, [], [])
  end.

Definition parse_request (b : bytes) : option AuthRequest :=
  if MAX_REQUEST_OBJECT_BYTES <? len b then None
  else
    let! s := from_utf8 b in
    match str_split Byte.x2e s with
    | [part0; part1; part2] =>
        let! header_bytes := decode_vec part0 in
        let! header := from_slice header_bytes in
        let! request_alg := parse_alg header in
        let! payload_bytes := decode_vec part1 in
        let! p := from_slice payload_bytes in
        if is_some (get p "transaction_data") then None
        else
          let! client_id := get_str p "client_id" in
          let! nonce := get_str p "nonce" in
          if negb (nonce_ok nonce) then None
          else
            let! audience := get_str p "aud" in
            let! dcql :=
              match get p "dcql_query" with
              | Some value =>
                  let! q := Dcql.from_value (json_value value) in
                  Some (Some q)
              | None => Some None
              end in
            let! (claims, dcql_id, vcts, doctypes) := requested p dcql in
            let response_encryption_key :=
              match get p "client_metadata" with Some md => parse_enc_jwk md | None => None end in
            let! signature := decode_vec part2 in
            Some {| client_id := client_id; nonce := nonce; audience := audience;
                    response_uri := unwrap_or (get_str p "response_uri") "";
                    redirect_uri := get_str p "redirect_uri"; purpose := get_str p "purpose";
                    requested_claims := claims; r_state := get_str p "state";
                    response_mode := unwrap_or (get_str p "response_mode") "";
                    r_dcql_id := dcql_id; r_requested_vcts := vcts;
                    r_requested_doctypes := doctypes; r_dcql := dcql;
                    response_encryption_key := response_encryption_key;
                    signed_payload := Prelude.as_bytes (part0 ++ "." ++ part1)%string;
                    r_signature := signature; request_alg := request_alg |}
    | _ => None
    end.

(** ** The machine *)

(** The guards in the order [step] runs them: the reason of the first that
    fails. *)
Definition first_failure (req : AuthRequest) (trust : ResolvedTrust) (env : Env) : option AbortReason :=
  if negb (rp_is_registered req trust) then Some RelyingPartyNotRegistered
  else if negb (response_mode_is_supported req) then Some ResponseModeUnsupported
  else if negb (response_uri_is_https req) then Some ResponseUriInvalid
  else if negb (response_uri_is_registered req trust) then Some ResponseUriNotRegistered
  else if negb (response_encryption_metadata_is_valid req) then Some ResponseEncryptionMetadataInvalid
  else if negb (redirect_uri_is_registered req trust) then Some RedirectUriNotRegistered
  else if negb (audience_matches req (wallet_client_id env)) then Some AudienceMismatch
  else if negb (nonce_is_fresh (nonce req) (seen_nonces env)) then Some NonceReplayed
  else if negb (request_object_is_signed_and_bound req trust) then Some RequestNotSignedOrBound
  else if negb (client_id_binds_to_leaf req trust) then Some ClientIdBindingInvalid
  else None.

(** One sub-presentation of the queue; [None] when the transcript is not CBOR. *)
Definition prepare (req : AuthRequest) (env : Env) (cred : SelectedCredential) : option SubPresentation :=
  match cred with
  | SelSdJwt issuer_jwt disclosures dcql_id =>
      let presentation := build_presentation issuer_jwt disclosures in
      let sd_hash := base64url (sha256 (Prelude.as_bytes presentation)) in
      Some (SubSdJwt presentation
              (kb_jwt_signing_input (nonce req) (client_id req) (now_epoch env) sd_hash) dcql_id)
  | SelMdoc doctype issuer_signed session_transcript device_namespaces mgn dcql_id =>
      match device_authentication_bytes session_transcript doctype device_namespaces with
      | Ok device_auth =>
          let protected_header := encode_protected_header Es256 in
          let signing_input := sig_structure protected_header [] device_auth in
          Some (SubMdoc doctype issuer_signed device_namespaces protected_header signing_input mgn
                  dcql_id)
      | Err _ => None
      end
  end.

(** The presentation finished with its device signature. *)
Definition complete (s : SubPresentation) (sig : bytes) : CompletedPresentation :=
  match s with
  | SubSdJwt presentation kb_signing_input dcql_id =>
      let kb_jwt := (kb_signing_input ++ "." ++ base64url sig)%string in
      {| c_dcql_id := dcql_id; c_vp_token := (presentation ++ kb_jwt)%string;
         c_mdoc_generated_nonce := None |}
  | SubMdoc doctype issuer_signed device_namespaces protected_header _ mgn dcql_id =>
      let device_auth :=
        {| protected := protected_header; unprotected := default_unprotected; payload := None;
           signature := sig |} in
      {| c_dcql_id := dcql_id;
         c_vp_token :=
           base64url (device_response doctype issuer_signed device_namespaces device_auth);
         c_mdoc_generated_nonce := Some mgn |}
  end.

Definition step (state : State) (input : Input) (env : Env) : State * list Output :=
  match state, input with
  | Idle, AuthorizationRequest b =>
      match parse_request b with
      | Some req => (ResolvingTrust req, [ResolveRpTrust (client_id req)])
      | None => (Aborted MalformedRequest, [])
      end
  | ResolvingTrust req, RpTrustResolved trust =>
      match first_failure req trust env with
      | Some reason => (Aborted reason, [])
      | None =>
          (RequestValidated req,
           [PersistNonce (nonce req); RenderConsent (client_id req) (unwrap_or (purpose req) "")])
      end
  | RequestValidated req, ConsentGranted =>
      match map_option (prepare req env) (selected_credentials env) with
      | Some (first :: rest) =>
          (AwaitingDeviceSignature {| p_queue := first :: rest; p_done := []; p_state := r_state req |},
           [SignKeyBinding (device_key_ref env) (sub_signing_input first)])
      | Some [] | None => (Aborted NoCredential, [])
      end
  | RequestValidated _, ConsentDeclined => (Aborted UserDeclined, [Close])
  | AwaitingDeviceSignature p, DeviceSignatureProduced sig =>
      match p_queue p with
      | [] => (Aborted NoCredential, [])
      | s :: queue =>
          let done := p_done p ++ [complete s sig] in
          match queue with
          | next :: _ =>
              (AwaitingDeviceSignature {| p_queue := queue; p_done := done; p_state := p_state p |},
               [SignKeyBinding (device_key_ref env) (sub_signing_input next)])
          | [] =>
              (Presenting,
               [SendVpToken (Prelude.as_bytes (assemble_direct_post_body done (p_state p)))])
          end
      end
  | Presenting, PresentationDelivered => (Done, [Close])
  | s, _ => (s, [])
  end.
End oid4vp.

#[export] Instance oid4vp_machine `{JL : JsonLib} {JV : JsonValue} `{B64 : Base64} `{D : Digest}
    `{V : Verifier} : Machine State Input Env Output :=
  {| initial := Idle; transition := step |}.

(** ** The reference model (oid4vp::model) *)

Module Model.

Inductive St : Type :=
| MIdle
| MRequested
| MValidated
| MAwaitingConsent
| MPresenting
| MAborted.

Inductive Ev : Type :=
| MRequest (n : Z)
| MValidateSig
| MConsent
| MDisclose.

Record Ctx : Type := {
  st : St;
  sig_validated : bool;
  consented : bool;
  used_nonces : list Z;
  disclosed : bool;
}.

Definition init : Ctx :=
  {| st := MIdle; sig_validated := false; consented := false; used_nonces := []; disclosed := false |}.

Definition with_st (c : Ctx) (s : St) : Ctx :=
  {| st := s; sig_validated := sig_validated c; consented := consented c;
     used_nonces := used_nonces c; disclosed := disclosed c |}.

Definition step (c : Ctx) (ev : Ev) : Ctx :=
  match ev with
  | MRequest n =>
      if existsb (Z.eqb n) (used_nonces c) then with_st c MAborted
      else {| st := MRequested; sig_validated := sig_validated c; consented := consented c;
              used_nonces := used_nonces c ++ [n]; disclosed := disclosed c |}
  | MValidateSig =>
      match st c with
      | MRequested => {| st := MValidated; sig_validated := true; consented := consented c;
                         used_nonces := used_nonces c; disclosed := disclosed c |}
      | _ => c
      end
  | MConsent =>
      match st c with
      | MValidated => {| st := MAwaitingConsent; sig_validated := sig_validated c; consented := true;
                         used_nonces := used_nonces c; disclosed := disclosed c |}
      | _ => c
      end
  | MDisclose =>
      if consented c && sig_validated c
      then {| st := MPresenting; sig_validated := sig_validated c; consented := consented c;
              used_nonces := used_nonces c; disclosed := true |}
      else with_st c MAborted
  end.

Definition run (evs : list Ev) : Ctx := fold_left step evs init.

Definition state_name (s : St) : string :=
  match s with
  | MIdle => "idle"
  | MRequested => "requested"
  | MValidated => "validated"
  | MAwaitingConsent => "awaitingConsent"
  | MPresenting => "presenting"
  | MAborted => "aborted"
  end.

End Model.

(** ** What left the wallet, and what the device was asked to sign *)

Section history.
Context `{JL : JsonLib} {JV : JsonValue} `{B64 : Base64} `{D : Digest} `{V : Verifier}.
Implicit Types (h : history Input Env Output).

Definition body_of (o : Output) : list bytes := match o with SendVpToken b => [b] | _ => [] end.
Definition input_of (o : Output) : list bytes := match o with SignKeyBinding _ m => [m] | _ => [] end.

Definition sent h : list bytes := flat_map body_of (outputs h).
Definition to_sign h : list bytes := flat_map input_of (outputs h).

Lemma vp_sent_snoc h i e out : sent (h ++ [Event i e out]) = sent h ++ flat_map body_of out.
Proof. apply flat_snoc. Qed.

Lemma vp_to_sign_snoc h i e out : to_sign (h ++ [Event i e out]) = to_sign h ++ flat_map input_of out.
Proof. apply flat_snoc. Qed.

(** Every guard of the request. *)
Definition guards_hold (req : AuthRequest) (trust : ResolvedTrust) (env : Env) : bool :=
  rp_is_registered req trust && response_mode_is_supported req && response_uri_is_https req
  && response_uri_is_registered req trust && response_encryption_metadata_is_valid req
  && redirect_uri_is_registered req trust && audience_matches req (wallet_client_id env)
  && nonce_is_fresh (nonce req) (seen_nonces env) && request_object_is_signed_and_bound req trust
  && client_id_binds_to_leaf req trust.

Lemma first_failure_None req trust env :
  first_failure req trust env = None -> guards_hold req trust env = true.
Proof.
  unfold first_failure, guards_hold. intros H.
  repeat match goal with
  | H : (if negb ?b then Some _ else _) = None |- _ => destruct b; cbn [negb] in H; [cbn [andb]|discriminate H]
  end.
  done.
Qed.

(** The events of a presentation up to the consent. *)
Definition asked (b : bytes) (e : Env) (req : AuthRequest) : event Input Env Output :=
  Event (AuthorizationRequest b) e [ResolveRpTrust (client_id req)].

Definition cleared (trust : ResolvedTrust) (e : Env) (req : AuthRequest) : event Input Env Output :=
  Event (RpTrustResolved trust) e
    [PersistNonce (nonce req); RenderConsent (client_id req) (unwrap_or (purpose req) "")].

Definition agreed (e : Env) (first : SubPresentation) : event Input Env Output :=
  Event ConsentGranted e [SignKeyBinding (device_key_ref e) (sub_signing_input first)].

(** A request that was cleared, and the sub-presentations its consent queued. *)
Definition consented (req : AuthRequest) (queue : list SubPresentation)
    (l : list (event Input Env Output)) : Prop :=
  exists b e1 trust e2 e3 first rest,
    parse_request b = Some req /\ guards_hold req trust e2 = true
    /\ map_option (prepare req e3) (selected_credentials e3) = Some queue /\ queue = first :: rest
    /\ l = [asked b e1 req; cleared trust e2 req; agreed e3 first].

(** Signatures the device produced, as the inputs of events. *)
Definition signature_events (sigs : list bytes) (l : list (event Input Env Output)) : Prop :=
  map ev_input l = map DeviceSignatureProduced sigs.

(** The presentation a history has carried out for [signed] of its queue. *)
Definition carried h (req : AuthRequest) (signed rest : list SubPresentation) (sigs : list bytes)
  : Prop :=
  length sigs = length signed
  /\ exists pre evs, consented req (signed ++ rest) pre /\ signature_events sigs evs
     /\ sublist (pre ++ evs) h.

Definition finished h : Prop :=
  exists req queue sigs,
    carried h req queue [] sigs /\ to_sign h = map sub_signing_input queue
    /\ sent h = [as_bytes (assemble_direct_post_body (zip_with complete queue sigs) (r_state req))].

Definition explains h (s : State) : Prop :=
  match s with
  | Idle => sent h = [] /\ to_sign h = []
  | ResolvingTrust req =>
      sent h = [] /\ to_sign h = []
      /\ exists b e, parse_request b = Some req /\ sublist [asked b e req] h
  | RequestValidated req =>
      sent h = [] /\ to_sign h = []
      /\ exists b e1 trust e2, parse_request b = Some req /\ guards_hold req trust e2 = true
         /\ sublist [asked b e1 req; cleared trust e2 req] h
  | AwaitingDeviceSignature p =>
      sent h = []
      /\ exists req signed next rest sigs,
           p_queue p = next :: rest /\ p_done p = zip_with complete signed sigs
           /\ p_state p = r_state req /\ carried h req signed (next :: rest) sigs
           /\ to_sign h = map sub_signing_input (signed ++ [next])
  | Presenting | Done => finished h
  | Aborted _ => sent h = []
  end.

Lemma carried_keep h req signed rest sigs e : carried h req signed rest sigs -> carried (h ++ [e]) req signed rest sigs.
Proof.
  intros (Hl & pre & evs & Hc & Hs & Hsub). split; [done|]. exists pre, evs. split_and!; try done.
  by apply sublist_snoc.
Qed.

Lemma carried_sign h req signed next rest sigs sig e out :
  carried h req signed (next :: rest) sigs ->
  carried (h ++ [Event (DeviceSignatureProduced sig) e out]) req (signed ++ [next]) rest (sigs ++ [sig]).
Proof.
  intros (Hl & pre & evs & Hc & Hs & Hsub). split; [rewrite !length_app; cbn; lia|].
  exists pre, (evs ++ [Event (DeviceSignatureProduced sig) e out]). split_and!.
  - by rewrite <- app_assoc.
  - unfold signature_events in *. by rewrite !map_app, Hs.
  - rewrite app_assoc. by apply sublist_snoc_same.
Qed.

Lemma vp_stays h s i e : explains h s -> explains (h ++ [Event i e []]) s.
Proof.
  pose proof (vp_sent_snoc h i e []) as E1. pose proof (vp_to_sign_snoc h i e []) as E2.
  cbn in E1, E2. rewrite app_nil_r in E1, E2.
  destruct s; cbn; unfold finished; rewrite ?E1, ?E2; naive_solver eauto using carried_keep, sublist_snoc.
Qed.

Lemma zip_with_snoc {A B C} (f : A -> B -> C) l k a b :
  length l = length k -> zip_with f (l ++ [a]) (k ++ [b]) = zip_with f l k ++ [f a b].
Proof. intros H. by rewrite zip_with_app. Qed.

Lemma explains_consent h req e s' out :
  explains h (RequestValidated req) -> step (RequestValidated req) ConsentGranted e = (s', out) ->
  explains (h ++ [Event ConsentGranted e out]) s'.
Proof.
  intros (Hs & Ht & b & e1 & trust & e2 & Hp & Hg & Hsub) E. unfold step in E.
  destruct (map_option _ _) as [[|first rest]|] eqn:Eq;
    [injection E as <- <-; cbn [explains]; by rewrite vp_sent_snoc, Hs| |
     injection E as <- <-; cbn [explains]; by rewrite vp_sent_snoc, Hs].
  injection E as <- <-. cbn [explains]. rewrite vp_sent_snoc, vp_to_sign_snoc, Hs, Ht. split; [done|].
  exists req, [], first, rest, []. split_and!; try done. split; [done|].
  exists [asked b e1 req; cleared trust e2 req; agreed e first], []. split_and!; [|done|].
  - by exists b, e1, trust, e2, e, first, rest.
  - apply (sublist_snoc_same [_; _]), Hsub.
Qed.

Lemma explains_signature h p sig e s' out :
  explains h (AwaitingDeviceSignature p) ->
  step (AwaitingDeviceSignature p) (DeviceSignatureProduced sig) e = (s', out) ->
  explains (h ++ [Event (DeviceSignatureProduced sig) e out]) s'.
Proof.
  intros (Hs & req & signed & next & rest & sigs & Eq & Ed & Est & Hc & Ht) E. unfold step in E.
  rewrite Eq in E. pose proof (proj1 Hc) as Hl.
  assert (zip_with complete (signed ++ [next]) (sigs ++ [sig]) = p_done p ++ [complete next sig]) as Ez
    by (by rewrite zip_with_snoc, Ed).
  destruct rest as [|next' rest].
  - injection E as <- <-. exists req, (signed ++ [next]), (sigs ++ [sig]). split_and!.
    + by apply carried_sign.
    + rewrite vp_to_sign_snoc, Ht. cbn. by rewrite app_nil_r.
    + rewrite vp_sent_snoc, Hs, Ez, Est. done.
  - injection E as <- <-. cbn [explains]. rewrite vp_sent_snoc, vp_to_sign_snoc, Hs, Ht. split; [done|].
    exists req, (signed ++ [next]), next', rest, (sigs ++ [sig]). split_and!; try done.
    + by apply carried_sign.
    + rewrite !map_app. done.
Qed.

Lemma vp_explains_holds h s : reaches h s -> explains h s.
Proof.
  apply reaches_invariant; [by split|]. clear. intros h s i e s' out _ IH E. cbn in E.
  destruct s as [|req|req|p| | |a], i as [b|trust| | |sig|];
    try (injection E as <- <-; by apply vp_stays).
  - unfold step in E. destruct IH as [Hs Ht]. destruct (parse_request b) as [req|] eqn:Ep; injection E as <- <-.
    + cbn [explains]. rewrite vp_sent_snoc, vp_to_sign_snoc, Hs, Ht. split_and!; try done.
      exists b, e. split; [done|]. apply (sublist_snoc_same []), sublist_nil_l.
    + cbn [explains]. by rewrite vp_sent_snoc, Hs.
  - destruct IH as (Hs & Ht & b & e1 & Hp & Hsub). unfold step in E.
    destruct (first_failure req trust e) as [r|] eqn:Ef; injection E as <- <-; cbn [explains];
      rewrite vp_sent_snoc, Hs; [done|]. rewrite vp_to_sign_snoc, Ht. split_and!; try done.
    exists b, e1, trust, e. split_and!; [done|by apply first_failure_None|].
    by apply (sublist_snoc_same [_]).
  - by eapply explains_consent.
  - injection E as <- <-. destruct IH as (Hs & _). cbn [explains]. by rewrite vp_sent_snoc, Hs.
  - by eapply explains_signature.
  - injection E as <- <-. destruct IH as (req & queue & sigs & Hc & Ht & Hs). exists req, queue, sigs.
    rewrite vp_sent_snoc, vp_to_sign_snoc, Hs, Ht. cbn. rewrite !app_nil_r. split_and!; try done. by apply carried_keep.
Qed.

Lemma disclosed_or_silent h s : reaches h s -> sent h = [] \/ finished h.
Proof. intros H%vp_explains_holds. destruct s; cbn in H; naive_solver. Qed.
End history.

(** ** The machine and its reference model

    The model's nonces are numbers: [token] names the nonces of requests. *)

Section model.
Context `{JL : JsonLib} {JV : JsonValue} `{B64 : Base64} `{D : Digest} `{V : Verifier}.
Context (token : string -> Z).

Definition related (s : State) (c : Model.Ctx) : Prop :=
  match s with
  | Idle => c = Model.init
  | ResolvingTrust req =>
      Model.st c = Model.MRequested /\ Model.disclosed c = false
      /\ Model.used_nonces c = [token (nonce req)]
  | RequestValidated req =>
      Model.st c = Model.MValidated /\ Model.sig_validated c = true /\ Model.disclosed c = false
      /\ Model.used_nonces c = [token (nonce req)]
  | AwaitingDeviceSignature _ =>
      Model.st c = Model.MAwaitingConsent /\ Model.sig_validated c = true
      /\ Model.consented c = true /\ Model.disclosed c = false
  | Presenting | Done =>
      Model.st c = Model.MPresenting /\ Model.sig_validated c = true
      /\ Model.consented c = true /\ Model.disclosed c = true
  | Aborted _ => Model.disclosed c = false
  end.

(** The model events a production step is matched by, given where it leads. *)
Definition events_of (s s' : State) : list Model.Ev :=
  match s, s' with
  | Idle, ResolvingTrust req => [Model.MRequest (token (nonce req))]
  | ResolvingTrust _, RequestValidated _ => [Model.MValidateSig]
  | RequestValidated _, AwaitingDeviceSignature _ => [Model.MConsent]
  | AwaitingDeviceSignature _, Presenting => [Model.MDisclose]
  | _, _ => []
  end.

Lemma vp_simulation s c i e :
  related s c ->
  related (fst (step s i e)) (fold_left Model.step (events_of s (fst (step s i e))) c).
Proof.
  intros H. destruct s as [|req|req|p| | |a], i as [b|trust| | |sig|]; cbn in *; try done;
    destruct_and?; try done.
  - subst c. destruct (parse_request b) as [req|]; done.
  - destruct (first_failure req trust e); cbn; [done|].
    by match goal with H : Model.st c = _ |- _ => rewrite H end.
  - destruct (map_option _ _) as [[|first rest]|]; cbn; [done| |done].
    by match goal with H : Model.st c = _ |- _ => rewrite H end.
  - destruct (p_queue p) as [|x [|next rest]]; cbn; [done| |done].
    do 2 match goal with H : _ c = true |- _ => rewrite H; clear H end. done.
Qed.
End model.

(** The model keeps the consent of an earlier request: a second request can be
    disclosed without one of its own.  The production machine takes one request
    only, so its simulation never leaves the first. *)
Lemma model_keeps_consent :
  let c := Model.run [Model.MRequest 1; Model.MValidateSig; Model.MConsent; Model.MRequest 2;
                      Model.MDisclose] in
  Model.st c = Model.MPresenting /\ Model.disclosed c = true /\ Model.used_nonces c = [1; 2].
Proof. by split_and!. Qed.

(** ** Unambiguous encodings *)

Definition urldecode_digit (b : byte) : option Z := hex_digit b.

(** Decoding, to show that the encoding can be read one way only. *)
Fixpoint urldecode (b : bytes) : option bytes :=
  match b with
  | [] => Some []
  | Byte.x25 :: h :: l :: r =>
      match hex_digit h, hex_digit l, urldecode r with
      | Some x, Some y, Some z => Some (byte.of_Z (16 * x + y) :: z)
      | _, _, _ => None
      end
  | x :: r => match urldecode r with Some z => Some (x :: z) | None => None end
  end.

Lemma urldecode_encode_byte x r :
  urldecode (urlencode_byte x ++ r) = match urldecode r with Some z => Some (x :: z) | None => None end.
Proof. destruct x; cbn; by destruct (urldecode r). Qed.

Lemma urldecode_encode s : urldecode (as_bytes (form_urlencode s)) = Some (as_bytes s).
Proof.
  unfold form_urlencode. rewrite as_bytes_of_list. induction (as_bytes s) as [|x b IH]; [done|].
  cbn [map concat]. rewrite urldecode_encode_byte, IH. done.
Qed.

Lemma form_urlencode_inj s t : form_urlencode s = form_urlencode t -> s = t.
Proof.
  intros E. apply as_bytes_inj. pose proof (urldecode_encode s) as Hs.
  rewrite E, urldecode_encode in Hs. by injection Hs.
Qed.

(** The encoding has no separator of the form body. *)
Lemma amp_free s : free_of Byte.x26 (as_bytes (form_urlencode s)) = true.
Proof.
  unfold form_urlencode, free_of. rewrite as_bytes_of_list. induction (as_bytes s) as [|x b IH]; [done|].
  cbn [map concat]. rewrite forallb_app, IH, andb_true_r. by destruct x.
Qed.

Section binding.
Context `{JL : JsonLib} {JI : JsonInj} `{B64 : Base64} {BL : Base64Laws}.

(** The key-binding input is for one nonce, verifier, time and presentation. *)
Lemma kb_jwt_signing_input_inj n a t h n' a' t' h' :
  is_i64 t && is_i64 t' = true ->
  kb_jwt_signing_input n a t h = kb_jwt_signing_input n' a' t' h' ->
  n = n' /\ a = a' /\ t = t' /\ h = h'.
Proof.
  unfold kb_jwt_signing_input, base64url. intros Ht E. bool_prop.
  apply (f_equal as_bytes) in E. rewrite !as_bytes_app in E.
  apply app_inj_1 in E as [_ E]; [|done]. apply app_inj_1 in E as [_ E]; [|done].
  apply as_bytes_inj in E. apply (f_equal decode_vec) in E. rewrite !decode_encode in E.
  injection E as E. apply as_bytes_inj, to_string_inj in E. unfold kb_payload in E.
  apply j_object_inj in E; [|apply (bool_decide_unpack _); exact I|reflexivity].
  injection E as En Ea Et Eh. apply j_string_inj in En, Ea, Eh.
  apply j_int_inj in Et; [done|by apply orb_true_iff; left..].
Qed.
End binding.

(** The response body determines its fields. *)
Section body.
Context `{JL : JsonLib}.

Definition body_fields (done : list CompletedPresentation) (state : option string) : list bytes :=
  as_bytes ("vp_token=" ++ form_urlencode (vp_value done))
  :: match state with Some s => [as_bytes ("state=" ++ form_urlencode s)] | None => [] end
  ++ match first_nonce done with
     | Some n => [as_bytes ("mdoc_generated_nonce=" ++ form_urlencode n)]
     | None => []
     end.

Lemma body_join done state :
  as_bytes (assemble_direct_post_body done state) = join_byte Byte.x26 (body_fields done state).
Proof.
  unfold assemble_direct_post_body, body_fields.
  destruct state as [s|], (first_nonce done) as [n|]; cbn [app join_byte];
    rewrite !as_bytes_app, ?app_nil_r, <- ?app_assoc;
    change (as_bytes "") with (@nil byte); rewrite ?app_nil_r; reflexivity.
Qed.

Lemma body_fields_free done state :
  Forall (fun p => free_of Byte.x26 p = true) (body_fields done state).
Proof.
  assert (forall k s, free_of Byte.x26 (as_bytes k) = true ->
    free_of Byte.x26 (as_bytes (k ++ form_urlencode s)%string) = true) as H.
  { intros k s Hk. rewrite as_bytes_app. unfold free_of in *. rewrite forallb_app, Hk. apply amp_free. }
  unfold body_fields. destruct state, (first_nonce done); repeat constructor; by apply H.
Qed.

Lemma field_inj k s t :
  as_bytes (k ++ form_urlencode s)%string = as_bytes (k ++ form_urlencode t)%string -> s = t.
Proof.
  intros E. rewrite !as_bytes_app in E. apply app_inv_head in E.
  by apply form_urlencode_inj, as_bytes_inj.
Qed.

Lemma field_cons (a b : bytes) l k : a :: l = b :: k -> a = b /\ l = k.
Proof. by intros [= -> ->]. Qed.

Lemma body_inj done state done' state' :
  assemble_direct_post_body done state = assemble_direct_post_body done' state' ->
  vp_value done = vp_value done' /\ state = state' /\ first_nonce done = first_nonce done'.
Proof.
  intros E. apply (f_equal as_bytes) in E. rewrite !body_join in E.
  apply (f_equal (split_byte Byte.x26)) in E.
  rewrite !split_join in E by (try done; apply body_fields_free). unfold body_fields in E.
  destruct state as [s|], state' as [s'|], (first_nonce done) as [n|], (first_nonce done') as [n'|];
    cbn [app] in E; try discriminate E.
  all: repeat match goal with
       | E : _ :: _ = _ :: _ |- _ => apply field_cons in E as [?Ef E]
       end; try discriminate E.
  all: repeat match goal with
       | E : as_bytes (?k ++ _)%string = as_bytes (?k ++ _)%string |- _ => apply field_inj in E
       end; try (by subst).
  all: match goal with E : as_bytes _ = as_bytes _ |- _ => exfalso; revert E end; by rewrite !as_bytes_app.
Qed.
End body.

(** ** Properties *)

(** C1: What left the wallet.  After any history, either no response was sent,
    or exactly one was, and then the history has, in this order: a request that
    parsed, the trust for which every guard of it holds (registration, response
    mode and endpoint, encryption metadata, audience, a fresh nonce, the signed
    payload and the client identifier) with its nonce persisted before the
    consent was shown, the user's consent for credentials that could be
    prepared, and one device signature per prepared credential.  The device was
    asked to sign exactly the prepared inputs, in their order, and the response
    is the one assembled from these credentials and signatures. *)
Theorem vp_disclosure_history `{JL : JsonLib} {JV : JsonValue} `{B64 : Base64} `{D : Digest}
    `{V : Verifier} (h : history Input Env Output) (s : State) :
  reaches h s ->
  sent h = []
  \/ exists req queue sigs,
       carried h req queue [] sigs
       /\ to_sign h = map sub_signing_input queue
       /\ sent h = [as_bytes (assemble_direct_post_body (zip_with complete queue sigs) (r_state req))].
Proof. apply disclosed_or_silent. Qed.

Definition sample_request : Samples.doc := Samples.DObj [
  ("alg", Samples.DStr "ES256"); ("client_id", Samples.DStr "x509_san_dns:rp.example");
  ("nonce", Samples.DStr "n-1"); ("aud", Samples.DStr "wallet"); ("state", Samples.DStr "s&1");
  ("response_uri", Samples.DStr "https://[2001:db8::1]:8443/cb?x");
  ("response_mode", Samples.DStr "direct_post")]%string.

(** Documents as in [Samples], with a printer that is cheap to evaluate. *)
Definition sample_json : JsonLib := {|
  Json := Samples.doc;
  from_slice := fun _ => Some sample_request;
  get := Samples.doc_get;
  as_str := Samples.doc_str;
  as_u64 := Samples.doc_u64;
  as_i64 := Samples.doc_i64;
  as_bool := fun d => match d with Samples.DBool b => Some b | _ => None end;
  as_array := fun d => match d with Samples.DArr l => Some l | _ => None end;
  to_string := fun d => match d with Samples.DStr s => s | _ => "{}"%string end;
  j_string := Samples.DStr;
  j_int := Samples.DInt;
  j_array := Samples.DArr;
  j_object := Samples.DObj;
|}.

Definition sample_value : @JsonValue sample_json := {| json_value := fun _ => VNull |}.

Definition sample_trust : ResolvedTrust :=
  {| registered := true; rp_public_key := []; leaf_dns_sans := ["RP.example"]%string;
     registered_redirect_uris := ["https://[2001:db8::1]:8443/cb?x"]%string |}.

Definition sample_env : Env :=
  {| wallet_client_id := "wallet"; seen_nonces := ["n-0"]%string; now_epoch := 1000;
     selected_credentials :=
       [SelSdJwt "issuer.jwt.sig" ["d1"; "d2"] (Some "pid");
        SelMdoc "mDL" sample_issued [Byte.xf6] empty_device_namespaces_bytes "mgn" (Some "mdl")]%string;
     device_key_ref := "device" |}.

(** The sample signature scheme signs a payload with itself. *)
Definition sample_run : list (Input * Env) :=
  map (fun i => (i, sample_env))
    [AuthorizationRequest (as_bytes "00.00.30302e3030"); RpTrustResolved sample_trust; ConsentGranted;
     DeviceSignatureProduced [Byte.x2a]; DeviceSignatureProduced [Byte.x2b]; PresentationDelivered].

Definition sample_machine : Machine State Input Env Output :=
  @oid4vp_machine sample_json sample_value Samples.hex64 Samples.trunc_digest Samples.echo_verifier.

Lemma vp_disclosure_history_witness :
  let h := fst (@run _ _ _ _ sample_machine sample_run) in
  len (sent h) = 1
  /\ exists req queue sigs,
       @carried sample_json sample_value Samples.hex64 Samples.trunc_digest Samples.echo_verifier
         h req queue [] sigs.
Proof.
  intros h. assert (len (sent h) = 1) as Hs by (vm_compute; reflexivity). split; [exact Hs|].
  destruct (@vp_disclosure_history sample_json sample_value Samples.hex64 Samples.trunc_digest
    Samples.echo_verifier h (snd (@run _ _ _ _ sample_machine sample_run))
    (@run_reaches _ _ _ _ sample_machine sample_run)) as [E|(req & queue & sigs & H & _)].
  - rewrite E in Hs. discriminate Hs.
  - exists req, queue, sigs. exact H.
Defined.
