(* ===== verification/Trust.v ===== *)
(** * Trust lists (crates/trust/src/lib.rs)

    Signed trust lists, their registrations, and the store that keeps the
    current list and refuses to go back.  [x509::parse_cert], which
    [parsed_anchors] maps over the granted anchors, is not part of this file. *)

From Stdlib Require Import Sorted.
From S2P Require Import Prelude Utf8 BTree Boundary Serde.

Open Scope Z_scope.
Open Scope rust_scope.

Inductive ServiceType : Type :=
| PidProvider | AttestationProvider | RelyingPartyAccessCa | StatusProvider.

Inductive ServiceStatus : Type := Granted | Withdrawn.

#[export] Instance service_eq_decision : EqDecision ServiceType.
Proof. solve_decision. Defined.
#[export] Instance service_status_eq_decision : EqDecision ServiceStatus.
Proof. solve_decision. Defined.

Definition service_parse (s : string) : option ServiceType :=
  if bool_decide (s = "pid"%string) then Some PidProvider
  else if bool_decide (s = "attestation"%string) then Some AttestationProvider
  else if bool_decide (s = "rp-access-ca"%string) then Some RelyingPartyAccessCa
  else if bool_decide (s = "status"%string) then Some StatusProvider
  else None.

Record TrustAnchor : Type := {
  certificate_der : bytes;
  service_type : ServiceType;
  anchor_status : ServiceStatus;
}.

Definition MAX_RP_REGISTRATIONS : Z := 1024.
Definition MAX_RP_TEXT_BYTES : Z := 256.
Definition MAX_RP_CLAIMS : Z := 64.
Definition MAX_RP_REDIRECT_URIS : Z := 16.
Definition MAX_ISSUER_REGISTRATIONS : Z := 1024.

Inductive TrustMark : Type := EudiWallet.

Inductive RetentionPolicy : Type := NotStored | Days (n : Z) | Unspecified.

Record RelyingPartyRegistration : Type := {
  client_id : string;
  rp_display_name : string;
  trust_mark : option TrustMark;
  retention : RetentionPolicy;
  allowed_claims : list string;
  redirect_uris : list string;
}.

Record CredentialIssuerRegistration : Type := {
  issuer_id : string;
  issuer_display_name : string;
}.

Record TrustList : Type := {
  sequence_number : Z;
  valid_from : Z;
  valid_until : Z;
  anchors : list TrustAnchor;
  relying_parties : list RelyingPartyRegistration;
  credential_issuers : list CredentialIssuerRegistration;
}.

Inductive TrustError : Type := BadSignature | Expired | Rollback | Malformed | UnsupportedAlg.

(** ** Reading the payload *)

Definition v_get_u64 (v : Value) (k : string) : option Z :=
  match v_get v k with Some x => v_as_u64 x | None => None end.
Definition v_get_i64 (v : Value) (k : string) : option Z :=
  match v_get v k with Some x => v_as_i64 x | None => None end.
Definition v_get_array (v : Value) (k : string) : option (list Value) :=
  match v_get v k with Some x => json_array x | None => None end.

Definition text_ok (value : string) : bool :=
  negb (sis_empty value) && (slen value <=? MAX_RP_TEXT_BYTES) && negb (any_control value).

Definition bounded_text (registration : Value) (name : string) : result string TrustError :=
  let? value := ok_or (v_get_str registration name) Malformed in
  if text_ok value then Ok value else Err Malformed.

Fixpoint bounded_values (parsed : list string) (values : list Value)
  : result (list string) TrustError :=
  match values with
  | [] => Ok parsed
  | value :: rest =>
      let? value := ok_or (json_str value) Malformed in
      if negb (text_ok value) || existsb (fun existing => bool_decide (existing = value)) parsed
      then Err Malformed
      else bounded_values (parsed ++ [value]) rest
  end.

Definition bounded_list (registration : Value) (name : string) (maximum : Z)
  : result (list string) TrustError :=
  let? values := ok_or (v_get_array registration name) Malformed in
  if maximum <? len values then Err Malformed else bounded_values [] values.

Definition parse_trust_mark (registration : Value) : result (option TrustMark) TrustError :=
  match v_get registration "trust_mark" with
  | None | Some VNull => Ok None
  | Some (VString value) =>
      if bool_decide (value = "eudi-wallet"%string) then Ok (Some EudiWallet) else Err Malformed
  | _ => Err Malformed
  end.

Definition parse_retention (registration : Value) : result RetentionPolicy TrustError :=
  match v_get registration "retention" with
  | None | Some VNull => Ok Unspecified
  | Some (VString value) =>
      if bool_decide (value = "not-stored"%string) then Ok NotStored else Err Malformed
  | Some (VObject value) =>
      if len value =? 1 then
        match bt_get value "days" with
        | Some d =>
            match v_as_u64 d with
            | Some days => if (days <=? U16_MAX) && (0 <? days) then Ok (Days days) else Err Malformed
            | None => Err Malformed
            end
        | None => Err Malformed
        end
      else Err Malformed
  | _ => Err Malformed
  end.

Definition parse_relying_party (relying_parties : list RelyingPartyRegistration)
    (registration : Value) : result RelyingPartyRegistration TrustError :=
  if MAX_RP_REGISTRATIONS <=? len relying_parties then Err Malformed
  else
    let? id := bounded_text registration "client_id" in
    if existsb (fun existing => bool_decide (client_id existing = id)) relying_parties
    then Err Malformed
    else
      let? display_name := bounded_text registration "display_name" in
      let? trust_mark := parse_trust_mark registration in
      let? retention := parse_retention registration in
      let? allowed := bounded_list registration "allowed_claims" MAX_RP_CLAIMS in
      let? redirects := bounded_list registration "redirect_uris" MAX_RP_REDIRECT_URIS in
      Ok {| client_id := id; rp_display_name := display_name; trust_mark := trust_mark;
            retention := retention; allowed_claims := allowed; redirect_uris := redirects |}.

Fixpoint parse_relying_parties (parsed : list RelyingPartyRegistration) (l : list Value)
  : result (list RelyingPartyRegistration) TrustError :=
  match l with
  | [] => Ok parsed
  | registration :: rest =>
      let? rp := parse_relying_party parsed registration in
      parse_relying_parties (parsed ++ [rp]) rest
  end.

Fixpoint parse_credential_issuers (parsed : list CredentialIssuerRegistration) (l : list Value)
  : result (list CredentialIssuerRegistration) TrustError :=
  match l with
  | [] => Ok parsed
  | registration :: rest =>
      let? id := bounded_text registration "issuer_id" in
      if existsb (fun existing => bool_decide (issuer_id existing = id)) parsed then Err Malformed
      else
        let? display_name := bounded_text registration "display_name" in
        parse_credential_issuers
          (parsed ++ [{| issuer_id := id; issuer_display_name := display_name |}]) rest
  end.

(** [match payload.get(k) { None => &[], Some(v) => v.as_array().ok_or(..)? }]. *)
Definition optional_array (payload : Value) (k : string) : result (list Value) TrustError :=
  match v_get payload k with
  | None => Ok []
  | Some value => ok_or (json_array value) Malformed
  end.

Definition known_alg (header : Value) : bool :=
  match v_get_str header "alg" with
  | Some alg =>
      bool_decide (alg = "ES256"%string) || bool_decide (alg = "ES384"%string)
      || bool_decide (alg = "EdDSA"%string)
  | None => false
  end.

Section trust.
Context {SJ : SerdeJson} `{B64 : Base64} `{V : Verifier}.

Definition b64 (s : string) : result bytes TrustError := ok_or (decode_vec s) Malformed.

Definition parse_anchor (a : Value) : result TrustAnchor TrustError :=
  let? cert_b64 := ok_or (v_get_str a "cert") Malformed in
  let? certificate_der := ok_or (decode_vec cert_b64) Malformed in
  let? service_type :=
    ok_or (let! s := v_get_str a "service" in service_parse s) Malformed in
  let? status := match v_get_str a "status" with
                 | Some s => if bool_decide (s = "granted"%string) then Ok Granted
                             else if bool_decide (s = "withdrawn"%string) then Ok Withdrawn
                             else Err Malformed
                 | None => Err Malformed
                 end in
  Ok {| certificate_der := certificate_der; service_type := service_type; anchor_status := status |}.

Fixpoint parse_anchors (l : list Value) : result (list TrustAnchor) TrustError :=
  match l with
  | [] => Ok []
  | a :: rest =>
      let? a := parse_anchor a in
      let? rest := parse_anchors rest in
      Ok (a :: rest)
  end.

(** The payload of a list whose signature has been verified. *)
Definition parse_payload (payload : Value) (now : Z) : result TrustList TrustError :=
  let? sequence_number := ok_or (v_get_u64 payload "seq") Malformed in
  let? valid_from := ok_or (v_get_i64 payload "valid_from") Malformed in
  let? valid_until := ok_or (v_get_i64 payload "valid_until") Malformed in
  if (now <? valid_from) || (valid_until <? now) then Err Expired
  else
    let? anchor_values := ok_or (v_get_array payload "anchors") Malformed in
    let? anchors := parse_anchors anchor_values in
    let? registrations := optional_array payload "relying_parties" in
    let? relying_parties := parse_relying_parties [] registrations in
    let? issuer_registrations := optional_array payload "credential_issuers" in
    if MAX_ISSUER_REGISTRATIONS <? len issuer_registrations then Err Malformed
    else
      let? credential_issuers := parse_credential_issuers [] issuer_registrations in
      Ok {| sequence_number := sequence_number; valid_from := valid_from;
            valid_until := valid_until; anchors := anchors;
            relying_parties := relying_parties; credential_issuers := credential_issuers |}.

Definition parse_and_verify (signed_list operator_public_key : bytes) (alg : Alg) (now : Z)
  : result TrustList TrustError :=
  let? s := ok_or (from_utf8 signed_list) Malformed in
  match str_split Byte.x2e s with
  | [p0; p1; p2] =>
      let? header_bytes := b64 p0 in
      let? header := ok_or (value_from_slice header_bytes) Malformed in
      if negb (known_alg header) then Err UnsupportedAlg
      else
        let signing_input := (p0 ++ "." ++ p1)%string in
        let? sig := b64 p2 in
        let? _ := map_err (verify alg operator_public_key (as_bytes signing_input) sig)
                    (fun _ => BadSignature) in
        let? payload_bytes := b64 p1 in
        let? payload := ok_or (value_from_slice payload_bytes) Malformed in
        parse_payload payload now
  | _ => Err Malformed
  end.
End trust.

(** ** The store *)

Record TrustStore : Type := { current : option TrustList }.

Definition store_new : TrustStore := {| current := None |}.

(** [update] returns what [&mut self] is left as, and its result. *)
Definition update (self : TrustStore) (l : TrustList) : TrustStore * result unit TrustError :=
  match current self with
  | Some cur =>
      if sequence_number l <=? sequence_number cur then (self, Err Rollback)
      else ({| current := Some l |}, Ok tt)
  | None => ({| current := Some l |}, Ok tt)
  end.

Definition store_sequence_number (self : TrustStore) : option Z :=
  option_map sequence_number (current self).

Definition is_valid_at (self : TrustStore) (now : Z) : bool :=
  match current self with
  | Some l => (valid_from l <=? now) && (now <=? valid_until l)
  | None => false
  end.

Definition granted_anchors (self : TrustStore) (service : ServiceType) : list bytes :=
  match current self with
  | Some l =>
      map certificate_der
        (List.filter (fun a => bool_decide (service_type a = service)
                               && bool_decide (anchor_status a = Granted)) (anchors l))
  | None => []
  end.

Definition granted_anchors_at (self : TrustStore) (service : ServiceType) (now : Z) : list bytes :=
  if is_valid_at self now then granted_anchors self service else [].

Definition relying_party_at (self : TrustStore) (id : string) (now : Z)
  : option RelyingPartyRegistration :=
  if is_valid_at self now then
    let! l := current self in
    find (fun r => bool_decide (client_id r = id)) (relying_parties l)
  else None.

Definition credential_issuer_at (self : TrustStore) (id : string) (now : Z)
  : option CredentialIssuerRegistration :=
  if is_valid_at self now then
    let! l := current self in
    find (fun r => bool_decide (issuer_id r = id)) (credential_issuers l)
  else None.

(** ** What a list contains *)

Definition list_ok (maximum : Z) (l : list string) : Prop :=
  len l <= maximum /\ List.NoDup l /\ List.Forall (fun s => text_ok s = true) l.

Definition rp_ok (r : RelyingPartyRegistration) : Prop :=
  text_ok (client_id r) = true /\ text_ok (rp_display_name r) = true
  /\ match retention r with Days n => 0 < n <= U16_MAX | _ => True end
  /\ list_ok MAX_RP_CLAIMS (allowed_claims r) /\ list_ok MAX_RP_REDIRECT_URIS (redirect_uris r).

Definition issuer_ok (r : CredentialIssuerRegistration) : Prop :=
  text_ok (issuer_id r) = true /\ text_ok (issuer_display_name r) = true.

Definition registrations_ok (l : TrustList) : Prop :=
  len (relying_parties l) <= MAX_RP_REGISTRATIONS
  /\ List.NoDup (map client_id (relying_parties l)) /\ List.Forall rp_ok (relying_parties l)
  /\ len (credential_issuers l) <= MAX_ISSUER_REGISTRATIONS
  /\ List.NoDup (map issuer_id (credential_issuers l))
  /\ List.Forall issuer_ok (credential_issuers l).

Lemma NoDup_snoc {A} (l : list A) x : List.NoDup l -> ~ In x l -> List.NoDup (l ++ [x]).
Proof.
  intros Hl Hx. apply NoDup_ListNoDup, list.NoDup_app. split; [by apply NoDup_ListNoDup|].
  split; [|by apply NoDup_singleton]. by intros y Hy%list_elem_of_In ->%list_elem_of_singleton.
Qed.

Lemma absent_existsb {A} (f : A -> string) l k :
  existsb (fun e => bool_decide (f e = k)) l = false -> ~ In k (map f l).
Proof.
  intros H (e & <- & He)%in_map_iff.
  assert (existsb (fun e0 => bool_decide (f e0 = f e)) l = true) as E; [|congruence].
  apply existsb_exists. exists e. split; [done|]. by apply bool_decide_eq_true.
Qed.

Lemma bounded_text_Ok v k s : bounded_text v k = Ok s -> text_ok s = true.
Proof.
  unfold bounded_text. destruct (v_get_str v k) as [t|]; [|done]. cbn [ok_or].
  destruct (text_ok t) eqn:E; [|done]. by intros [= <-].
Qed.

Lemma bounded_values_Ok acc vs l :
  List.NoDup acc -> List.Forall (fun s => text_ok s = true) acc -> bounded_values acc vs = Ok l ->
  len l = len acc + len vs /\ List.NoDup l /\ List.Forall (fun s => text_ok s = true) l.
Proof.
  revert acc. induction vs as [|v vs IH]; intros acc Hd Ht; cbn.
  { intros [= <-]. rewrite len_nil. split; [lia|done]. }
  destruct (json_str v) as [s|]; [|done]. cbn.
  destruct (text_ok s) eqn:E; [|done]. cbn. destruct (existsb _ acc) eqn:Ee; [done|].
  intros H. apply IH in H as (Hl & Hn & Hf).
  - rewrite len_app, len_cons, len_nil in Hl. rewrite len_cons. split; [lia|done].
  - apply NoDup_snoc; [done|]. intros Hin. apply (absent_existsb (fun s => s)) in Ee.
    by rewrite map_id in Ee.
  - apply List.Forall_app. split; [done|constructor; [done|constructor]].
Qed.

Lemma bounded_list_Ok v k n l : bounded_list v k n = Ok l -> list_ok n l.
Proof.
  unfold bounded_list. destruct (v_get_array v k) as [vs|]; [|done]. cbn [ok_or].
  destruct (n <? len vs) eqn:E; [done|]. bool_prop.
  intros (Hl & Hd & Hf)%bounded_values_Ok; [|constructor..]. rewrite len_nil in Hl.
  split; [lia|done].
Qed.

Lemma parse_retention_Ok v r :
  parse_retention v = Ok r -> match r with Days n => 0 < n <= U16_MAX | _ => True end.
Proof.
  unfold parse_retention. destruct (v_get v _) as [[| | |s| |m]|]; try done; try by intros [= <-].
  - case_bool_decide; [|done]. by intros [= <-].
  - destruct (len m =? 1); [|done]. destruct (bt_get m _) as [d|]; [|done].
    destruct (v_as_u64 d) as [n|]; [|done]. destruct (_ && _) eqn:E; [|done]. bool_prop.
    intros [= <-]. lia.
Qed.

Lemma parse_relying_party_Ok acc v r :
  parse_relying_party acc v = Ok r ->
  len acc < MAX_RP_REGISTRATIONS /\ ~ In (client_id r) (map client_id acc) /\ rp_ok r.
Proof.
  unfold parse_relying_party. destruct (_ <=? _) eqn:El; [done|]. bool_prop.
  destruct (bounded_text v "client_id") as [id|] eqn:E1; [|done]. apply bounded_text_Ok in E1.
  destruct (existsb _ acc) eqn:Ee; [done|]. apply absent_existsb in Ee.
  destruct (bounded_text v "display_name") as [nm|] eqn:E2; [|done]. apply bounded_text_Ok in E2.
  destruct (parse_trust_mark v) as [tm|]; [|done].
  destruct (parse_retention v) as [rt|] eqn:E3; [|done]. apply parse_retention_Ok in E3.
  destruct (bounded_list v "allowed_claims" _) as [ac|] eqn:E4; [|done]. apply bounded_list_Ok in E4.
  destruct (bounded_list v "redirect_uris" _) as [ru|] eqn:E5; [|done]. apply bounded_list_Ok in E5.
  intros [= <-]. unfold rp_ok. cbn. auto 10.
Qed.

Lemma parse_relying_parties_Ok acc vs l :
  len acc <= MAX_RP_REGISTRATIONS -> List.NoDup (map client_id acc) -> List.Forall rp_ok acc ->
  parse_relying_parties acc vs = Ok l ->
  len l <= MAX_RP_REGISTRATIONS /\ List.NoDup (map client_id l) /\ List.Forall rp_ok l.
Proof.
  revert acc. induction vs as [|v vs IH]; intros acc Hl Hd Hf; cbn; [by intros [= <-]|].
  destruct (parse_relying_party acc v) as [r|] eqn:E; [|done].
  apply parse_relying_party_Ok in E as (Hl' & Hn & Hr). apply IH.
  - rewrite len_app, len_cons, len_nil. lia.
  - rewrite map_app. by apply NoDup_snoc.
  - apply List.Forall_app. split; [done|constructor; [done|constructor]].
Qed.

Lemma parse_issuers_Ok acc vs l :
  List.NoDup (map issuer_id acc) -> List.Forall issuer_ok acc ->
  parse_credential_issuers acc vs = Ok l ->
  len l = len acc + len vs /\ List.NoDup (map issuer_id l) /\ List.Forall issuer_ok l.
Proof.
  revert acc. induction vs as [|v vs IH]; intros acc Hd Hf; cbn.
  { intros [= <-]. rewrite len_nil. split; [lia|done]. }
  destruct (bounded_text v "issuer_id") as [id|] eqn:E1; [|done]. apply bounded_text_Ok in E1.
  destruct (existsb _ acc) eqn:Ee; [done|]. apply absent_existsb in Ee.
  destruct (bounded_text v "display_name") as [nm|] eqn:E2; [|done]. apply bounded_text_Ok in E2.
  intros H. apply IH in H as (Hl & Hn & Hg).
  - rewrite len_app, len_cons, len_nil in Hl. rewrite len_cons. split; [lia|done].
  - rewrite map_app. by apply NoDup_snoc.
  - apply List.Forall_app. split; [done|constructor; [done|constructor]].
Qed.

Section soundness.
Context {SJ : SerdeJson} `{B64 : Base64} `{V : Verifier}.

Lemma parse_payload_Ok payload now l :
  parse_payload payload now = Ok l ->
  v_get_u64 payload "seq" = Some (sequence_number l)
  /\ valid_from l <= now <= valid_until l /\ registrations_ok l.
Proof.
  unfold parse_payload.
  destruct (v_get_u64 payload "seq") as [sq|]; [|done].
  destruct (v_get_i64 payload "valid_from") as [vf|]; [|done].
  destruct (v_get_i64 payload "valid_until") as [vu|]; [|done]. cbn [ok_or].
  destruct (_ || _) eqn:Ew; [done|]. bool_prop.
  destruct (v_get_array payload "anchors") as [av|]; [|done]. cbn [ok_or].
  destruct (parse_anchors av) as [an|]; [|done].
  destruct (optional_array payload "relying_parties") as [rv|]; [|done].
  destruct (parse_relying_parties [] rv) as [rp|] eqn:Er; [|done].
  apply parse_relying_parties_Ok in Er as (R1 & R2 & R3); [|done|constructor..].
  destruct (optional_array payload "credential_issuers") as [iv|]; [|done].
  destruct (_ <? len iv) eqn:Ei; [done|]. bool_prop.
  destruct (parse_credential_issuers [] iv) as [ci|] eqn:Ec; [|done].
  apply parse_issuers_Ok in Ec as (I1 & I2 & I3); [|constructor..]. rewrite len_nil in I1.
  intros [= <-]. unfold registrations_ok. cbn. repeat split; try done; lia.
Qed.

(** A trust list that parses is signed by the list operator over exactly the
    header and payload it was read from, is inside its validity window, has the
    signed sequence number, and its registrations are bounded, printable and
    unambiguous: no client or issuer identifier has two. *)
Theorem trust_list_sound signed key alg now l :
  parse_and_verify signed key alg now = Ok l ->
  exists p0 p1 p2 sig pb payload,
    signed = as_bytes (p0 ++ "." ++ p1 ++ "." ++ p2)%string
    /\ decode_vec p2 = Some sig
    /\ verify alg key (as_bytes (p0 ++ "." ++ p1)%string) sig = Ok tt
    /\ decode_vec p1 = Some pb /\ value_from_slice pb = Some payload
    /\ v_get_u64 payload "seq" = Some (sequence_number l)
    /\ valid_from l <= now <= valid_until l /\ registrations_ok l.
Proof.
  unfold parse_and_verify. destruct (from_utf8 signed) as [s|] eqn:Eu; [|done]. cbn [ok_or].
  apply from_utf8_Some in Eu as [-> _].
  destruct (str_split Byte.x2e s) as [|p0 [|p1 [|p2 [|? ?]]]] eqn:Es; try done.
  apply str_split_three in Es as ->. unfold b64.
  destruct (decode_vec p0) as [hb|]; [|done]. cbn [ok_or].
  destruct (value_from_slice hb) as [hd|]; [|done]. cbn [ok_or].
  destruct (known_alg hd); [|done]. cbn [negb].
  destruct (decode_vec p2) as [sig|] eqn:E2; [|done]. cbn [ok_or].
  destruct (verify _ _ _ _) as [[]|] eqn:Ev; [|done]. cbn [map_err].
  destruct (decode_vec p1) as [pb|] eqn:E1; [|done]. cbn [ok_or].
  destruct (value_from_slice pb) as [pl|] eqn:Ep; [|done]. cbn [ok_or].
  intros (Hs & Hw & Hr)%parse_payload_Ok. by exists p0, p1, p2, sig, pb, pl.
Qed.
End soundness.

(** ** Rollback protection *)

(** The lists a store accepts of the ones it is offered, in order. *)
Fixpoint accepted (self : TrustStore) (offers : list TrustList) : list TrustList :=
  match offers with
  | [] => []
  | l :: offers =>
      match update self l with
      | (self, Ok _) => l :: accepted self offers
      | (self, Err _) => accepted self offers
      end
  end.

Definition after_updates (self : TrustStore) (offers : list TrustList) : TrustStore :=
  fold_left (fun s l => fst (update s l)) offers self.

Definition newer (a b : TrustList) : Prop := sequence_number a < sequence_number b.

Lemma update_cases self l :
  (update self l = ({| current := Some l |}, Ok tt)
   /\ forall c, current self = Some c -> newer c l)
  \/ (exists c, update self l = (self, Err Rollback) /\ current self = Some c /\ ~ newer c l).
Proof.
  unfold update, newer. destruct self as [[c|]]; cbn.
  - destruct (_ <=? _) eqn:E; bool_prop; [right; exists c; auto with lia|left].
    split; [done|]. intros d [= <-]. done.
  - by left.
Qed.

Lemma accepted_newer self offers c :
  current self = Some c -> List.Forall (newer c) (accepted self offers).
Proof.
  revert self c. induction offers as [|l offers IH]; intros self c Hc; cbn; [constructor|].
  destruct (update_cases self l) as [[-> Hn]|(d & -> & Hd & Hn)]; [|by apply IH].
  constructor; [by apply Hn|]. eapply List.Forall_impl; [|by apply (IH _ l)].
  intros d Hd. specialize (Hn c Hc). unfold newer in *. lia.
Qed.

Lemma accepted_sorted self offers : StronglySorted newer (accepted self offers).
Proof.
  revert self. induction offers as [|l offers IH]; intros self; cbn; [constructor|].
  destruct (update_cases self l) as [[-> Hn]|(d & -> & Hd & Hn)]; [|done].
  constructor; [done|]. by apply accepted_newer.
Qed.

Lemma after_updates_last self offers :
  current (after_updates self offers)
  = match list.last (accepted self offers) with Some l => Some l | None => current self end.
Proof.
  revert self. induction offers as [|l offers IH]; intros self; cbn [accepted after_updates fold_left]; [done|].
  fold (after_updates (fst (update self l)) offers). rewrite IH.
  destruct (update_cases self l) as [[-> _]|(d & -> & _)]; cbn [fst]; [|done].
  rewrite last_cons. by destruct (list.last _).
Qed.

Lemma accepted_newer_than_last l k :
  StronglySorted newer l -> list.last l = Some k -> List.Forall (fun a => a = k \/ newer a k) l.
Proof.
  intros Hs Hl. induction Hs as [|a l Hs IH Ha]; [constructor|]. rewrite last_cons in Hl.
  destruct (list.last l) as [b|] eqn:E.
  - injection Hl as <-. constructor; [|by apply IH]. right. rewrite List.Forall_forall in Ha.
    apply Ha. apply list_elem_of_In. by apply last_Some_elem_of.
  - injection Hl as <-. apply last_None in E as ->. constructor; [by left|constructor].
Qed.

(** A trust store never goes back.  Over any sequence of offered lists the
    ones it installs have strictly increasing sequence numbers, the current
    list is the last of them, and a list that is no newer than one installed
    before is refused and leaves the store as it is. *)
Theorem trust_store_never_rolls_back offers :
  let s := after_updates store_new offers in
  StronglySorted newer (accepted store_new offers)
  /\ current s = list.last (accepted store_new offers)
  /\ forall old l, In old (accepted store_new offers) -> ~ newer old l ->
       update s l = (s, Err Rollback).
Proof.
  cbn zeta. pose proof (accepted_sorted store_new offers) as Hs.
  pose proof (after_updates_last store_new offers) as Hc. split; [done|].
  assert (current (after_updates store_new offers) = list.last (accepted store_new offers)) as Hc'
    by (rewrite Hc; by destruct (list.last _)).
  split; [done|]. intros old l Hin Hn.
  destruct (list.last (accepted store_new offers)) as [k|] eqn:E.
  - pose proof (accepted_newer_than_last _ _ Hs E) as Hf. rewrite List.Forall_forall in Hf.
    specialize (Hf old Hin).
    destruct (update_cases (after_updates store_new offers) l) as [[_ Hnew]|(d & -> & _)]; [|done].
    specialize (Hnew k Hc'). exfalso. apply Hn. destruct Hf as [->|Hf]; [done|].
    unfold newer in *. lia.
  - apply last_None in E. by rewrite E in Hin.
Qed.

(** ** What the store hands out *)

Lemma find_unique {A} (f : A -> string) (l : list A) r :
  List.NoDup (map f l) -> In r l -> find (fun x => bool_decide (f x = f r)) l = Some r.
Proof.
  induction l as [|x l IH]; cbn; intros Hd Hin; [done|]. inversion Hd as [|? ? Hx Hd']; subst.
  case_bool_decide as E.
  - destruct Hin as [->|Hin]; [done|]. destruct Hx. rewrite E. by apply in_map.
  - destruct Hin as [->|Hin]; [done|]. by apply IH.
Qed.

(** Security decisions read only current, granted, signed entries: outside
    the window nothing is handed out; inside it exactly the granted anchors of
    the service, and for an identifier of the list the one registration it
    has, whatever its position. *)
Theorem trust_store_hands_out self now :
  (is_valid_at self now = false ->
     (forall service, granted_anchors_at self service now = [])
     /\ (forall id, relying_party_at self id now = None)
     /\ forall id, credential_issuer_at self id now = None)
  /\ forall l, current self = Some l -> is_valid_at self now = true ->
     (forall service der, In der (granted_anchors_at self service now) <->
        exists a, In a (anchors l) /\ certificate_der a = der /\ service_type a = service
                  /\ anchor_status a = Granted)
     /\ (registrations_ok l ->
           (forall r, In r (relying_parties l) <-> relying_party_at self (client_id r) now = Some r)
           /\ forall r, In r (credential_issuers l)
                <-> credential_issuer_at self (issuer_id r) now = Some r).
Proof.
  unfold granted_anchors_at, relying_party_at, credential_issuer_at. split.
  { intros ->. auto. }
  intros l Hl ->. unfold granted_anchors. rewrite Hl. split.
  - intros service der. rewrite in_map_iff. split.
    + intros (a & Ha & Hin). apply filter_In in Hin as [Hin H]. apply andb_true_iff in H as [Hs Hg].
      apply bool_decide_eq_true in Hs, Hg. by exists a.
    + intros (a & Hin & Ha & Hs & Hg). exists a. split; [done|]. apply filter_In. split; [done|].
      apply andb_true_iff. by rewrite !bool_decide_eq_true.
  - intros (_ & Hd & _ & _ & Hd' & _). split; intros r; (split; [by apply find_unique|]);
      intros H; by apply find_some in H as [H _].
Qed.

(** ** Concrete lists *)

Module Examples.

Definition obj (l : list (string * Value)) : Value := VObject (bt_extend [] l).

Definition payload : Value :=
  obj [("seq", VNumber (PosInt 7)); ("valid_from", VNumber (PosInt 100));
       ("valid_until", VNumber (PosInt 200));
       ("anchors", VArray [obj [("cert", VString "00ff"); ("service", VString "pid");
                                ("status", VString "granted")]]);
       ("relying_parties", VArray [obj [("client_id", VString "rp"); ("display_name", VString "RP");
          ("retention", obj [("days", VNumber (PosInt 30))]); ("allowed_claims", VArray [VString "age"]);
          ("redirect_uris", VArray [])]])]%string.

Definition serde : SerdeJson := {|
  value_from_slice := fun b =>
    if bool_decide (b = as_bytes "H") then Some (obj [("alg", VString "ES384")]%string) else Some payload;
  value_to_vec := fun _ => [];
|}.

Definition signed : bytes :=
  as_bytes "48.50." ++ concat (map Samples.hex_byte (as_bytes "48.50")).

Definition verified : result TrustList TrustError :=
  @parse_and_verify serde Samples.hex64 Samples.echo_verifier signed [] Es256 150.

(** The header's algorithm is not the one the signature is checked under. *)
Example header_algorithm_not_compared : option_map sequence_number (ok verified) = Some 7.
Proof. vm_compute. reflexivity. Qed.

Definition listing (n : Z) : TrustList := {|
  sequence_number := n; valid_from := 0; valid_until := 10; anchors := []; relying_parties := [];
  credential_issuers := [];
|}.

Example installs :
  map sequence_number (accepted store_new (map listing [3; 2; 5; 5; 4; 9])) = [3; 5; 9].
Proof. reflexivity. Qed.
End Examples.

Lemma trust_list_sound_witness : exists l, Examples.verified = Ok l /\ registrations_ok l.
Proof.
  destruct Examples.verified as [l|] eqn:E; [|vm_compute in E; discriminate E]. exists l.
  split; [done|].
  destruct (@trust_list_sound Examples.serde Samples.hex64 Samples.echo_verifier _ _ _ _ _ E)
    as (p0 & p1 & p2 & sig & pb & pl & _ & _ & _ & _ & _ & _ & _ & H). exact H.
Defined.
