(* ===== verification/Catalogue.v ===== *)
(** * The attestation catalogue (crates/catalogue/src/lib.rs)

    The types of credential the wallet understands, the claims and the issuers
    of each, and the questions the facade asks of them.  A catalogue is the
    list of its types in the order they were registered; it is a finite map
    from type identifiers, which [register] updates. *)

From stdpp Require Import gmap.
From S2P Require Import Prelude.

Open Scope Z_scope.
Open Scope rust_scope.

Inductive ClaimPath : Type :=
| PathJson (path : string)
| PathMdoc (namespace element : string).

#[export] Instance claim_path_eq_decision : EqDecision ClaimPath.
Proof. solve_decision. Defined.

Definition request_path (self : ClaimPath) : string :=
  match self with
  | PathJson path => path
  | PathMdoc namespace element => (namespace ++ "." ++ element)%string
  end.

Definition matches_request (self : ClaimPath) (requested : string) : bool :=
  match self with
  | PathJson path => bool_decide (path = requested)
  | PathMdoc namespace element =>
      match strip_prefix (as_bytes namespace) (as_bytes requested) with
      | Some suffix =>
          match strip_prefix [Byte.x2e] suffix with
          | Some suffix => bool_decide (suffix = as_bytes element)
          | None => false
          end
      | None => false
      end
  end.

Record ClaimSpec : Type := {
  spec_path : ClaimPath;
  spec_display_name : string;
  mandatory : bool;
}.

Inductive IssuerTrustDomain : Type := Pid | Attestation.

Record AttestationType : Type := {
  type_id : string;
  type_display_name : string;
  format : string;
  type_trust_domain : IssuerTrustDomain;
  type_claims : list ClaimSpec;
  trusted_issuers : list string;
}.

Definition mandatory_claims (self : AttestationType) : list ClaimPath :=
  map spec_path (List.filter mandatory (type_claims self)).

Definition offers (self : AttestationType) (path : string) : bool :=
  existsb (fun c => matches_request (spec_path c) path) (type_claims self).

(** [Catalogue]: its only field. *)
Notation Catalogue := (list AttestationType).

Definition has_id (id : string) (t : AttestationType) : bool := bool_decide (type_id t = id).

(** [types.iter_mut().find]: the first type of that identifier is replaced in
    place; without one the new type comes last. *)
Fixpoint replace_first (types : Catalogue) (t : AttestationType) : option Catalogue :=
  match types with
  | [] => None
  | e :: rest =>
      if has_id (type_id t) e then Some (t :: rest)
      else match replace_first rest t with Some rest => Some (e :: rest) | None => None end
  end.

Definition register (self : Catalogue) (t : AttestationType) : Catalogue * bool :=
  match replace_first self t with
  | Some types => (types, true)
  | None => (self ++ [t], false)
  end.

Definition get (self : Catalogue) (id : string) : option AttestationType :=
  List.find (has_id id) self.

Definition types_offering (self : Catalogue) (path : string) : list string :=
  map type_id (List.filter (fun t => offers t path) self).

Definition types_satisfying (self : Catalogue) (requested : list string) : list string :=
  map type_id (List.filter (fun t => forallb (offers t) requested) self).

Definition issuer_allowed (self : Catalogue) (id issuer : string) : bool :=
  match get self id with
  | Some t => existsb (fun i => bool_decide (i = issuer)) (trusted_issuers t)
  | None => false
  end.

Definition issuer_trust_domain (self : Catalogue) (id : string) : option IssuerTrustDomain :=
  option_map type_trust_domain (get self id).

Definition holds_json (held : list string) (claim : ClaimPath) : bool :=
  match claim with
  | PathJson path => existsb (fun h => bool_decide (h = path)) held
  | PathMdoc _ _ => false
  end.

Definition satisfies_mandatory (self : Catalogue) (id : string) (held : list string) : bool :=
  match get self id with
  | Some t => forallb (holds_json held) (mandatory_claims t)
  | None => false
  end.

Definition holds_mdoc (held : list (string * string)) (claim : ClaimPath) : bool :=
  match claim with
  | PathMdoc namespace element =>
      existsb (fun '(n, e) => bool_decide (n = namespace) && bool_decide (e = element)) held
  | PathJson _ => false
  end.

Definition satisfies_mandatory_mdoc (self : Catalogue) (doc_type : string)
    (held : list (string * string)) : bool :=
  match get self doc_type with
  | Some t =>
      if bool_decide (format t = "mso_mdoc"%string)
      then forallb (holds_mdoc held) (mandatory_claims t)
      else false
  | None => false
  end.

(** ** The catalogue the wallet ships with *)

Definition claim (path display_name : string) (mandatory : bool) : ClaimSpec :=
  {| spec_path := PathJson path; spec_display_name := display_name; mandatory := mandatory |}.

Definition mdoc_claim (namespace element display_name : string) (mandatory : bool) : ClaimSpec :=
  {| spec_path := PathMdoc namespace element; spec_display_name := display_name;
     mandatory := mandatory |}.

Definition tlsn_type : AttestationType := {|
  type_id := "dev.advatar.tlsn.evidence.1";
  type_display_name := "TLSNotary web evidence (development)";
  format := "dc+sd-jwt";
  type_trust_domain := Attestation;
  type_claims := [claim "tlsn_evidence" "Versioned TLSNotary evidence provenance" true];
  trusted_issuers := ["https://issuer.advatar.systems"; "https://issuer.example"]%string;
|}.

Definition pid_type : AttestationType := {|
  type_id := "urn:eudi:pid:1";
  type_display_name := "Person Identification Data";
  format := "dc+sd-jwt";
  type_trust_domain := Pid;
  type_claims := [
    claim "family_name" "Family name" true;
    claim "given_name" "Given name" true;
    claim "birthdate" "Date of birth" true;
    claim "picture" "Portrait" true;
    claim "age_over_18" "Over 18" false];
  trusted_issuers := ["https://issuer.example"%string];
|}.

Definition mdoc_pid_type : AttestationType := {|
  type_id := "eu.europa.ec.eudi.pid.1";
  type_display_name := "Person Identification Data (mdoc)";
  format := "mso_mdoc";
  type_trust_domain := Pid;
  type_claims := [
    mdoc_claim "eu.europa.ec.eudi.pid.1" "family_name" "Family name" true;
    mdoc_claim "eu.europa.ec.eudi.pid.1" "given_name" "Given name" true;
    mdoc_claim "eu.europa.ec.eudi.pid.1" "birth_date" "Date of birth" true;
    mdoc_claim "eu.europa.ec.eudi.pid.1" "portrait" "Portrait" true];
  trusted_issuers := ["https://issuer.example"%string];
|}.

Definition mdl_type : AttestationType := {|
  type_id := "urn:eudi:mdl:1";
  type_display_name := "Mobile Driving Licence";
  format := "dc+sd-jwt";
  type_trust_domain := Attestation;
  type_claims := [
    claim "family_name" "Family name" true;
    claim "given_name" "Given name" true;
    claim "driving_privileges" "Driving categories" true;
    claim "issuing_country" "Issuing country" true;
    claim "age_over_18" "Over 18" false];
  trusted_issuers := ["https://issuer.example"%string];
|}.

Definition mdoc_mdl_type : AttestationType := {|
  type_id := "org.iso.18013.5.1.mDL";
  type_display_name := "Mobile Driving Licence (mdoc)";
  format := "mso_mdoc";
  type_trust_domain := Attestation;
  type_claims := [
    mdoc_claim "org.iso.18013.5.1" "family_name" "Family name" true;
    mdoc_claim "org.iso.18013.5.1" "given_name" "Given name" true;
    mdoc_claim "org.iso.18013.5.1" "age_over_18" "Over 18" false];
  trusted_issuers := ["https://issuer.example"%string];
|}.

Definition passport_type : AttestationType := {|
  type_id := "urn:eudi:passport:1";
  type_display_name := "Passport";
  format := "dc+sd-jwt";
  type_trust_domain := Attestation;
  type_claims := [
    claim "family_name" "Family name" true;
    claim "given_name" "Given name" true;
    claim "document_number" "Passport number" true;
    claim "nationality" "Nationality" true;
    claim "expiry_date" "Expiry date" true;
    claim "age_over_18" "Over 18" false];
  trusted_issuers := ["https://issuer.example"%string];
|}.

Definition nid_type : AttestationType := {|
  type_id := "urn:eudi:nid:1";
  type_display_name := "National ID Card";
  format := "dc+sd-jwt";
  type_trust_domain := Attestation;
  type_claims := [
    claim "family_name" "Family name" true;
    claim "given_name" "Given name" true;
    claim "document_number" "Document number" true;
    claim "issuing_country" "Issuing country" true;
    claim "expiry_date" "Expiry date" true;
    claim "age_over_18" "Over 18" false];
  trusted_issuers := ["https://issuer.example"%string];
|}.

Definition de_pid_type : AttestationType := {|
  type_id := "urn:eudi:pid:de:1";
  type_display_name := "German ID Card";
  format := "dc+sd-jwt";
  type_trust_domain := Pid;
  type_claims := [
    claim "family_name" "Family name" true;
    claim "given_name" "Given name" true;
    claim "birthdate" "Date of birth" true;
    claim "place_of_birth" "Place of birth" true;
    claim "resident_address" "Resident address" true;
    claim "issuing_country" "Issuing country" true;
    claim "age_over_18" "Over 18" false];
  trusted_issuers := ["https://issuer.example"%string];
|}.

Definition register_all (self : Catalogue) (ts : list AttestationType) : Catalogue :=
  fold_left (fun c t => fst (register c t)) ts self.

Definition default_catalogue : Catalogue :=
  register_all [] [tlsn_type; pid_type; mdoc_pid_type; mdl_type; mdoc_mdl_type; passport_type;
                   nid_type; de_pid_type].

(** ** Claim paths *)

(** A claim answers exactly the requests that spell it. *)
Lemma matches_request_iff p r : matches_request p r = true <-> request_path p = r.
Proof.
  destruct p as [s|n e]; [apply bool_decide_eq_true|]. unfold matches_request, request_path. split.
  - destruct (strip_prefix (as_bytes n) (as_bytes r)) as [s|] eqn:E1; [|done].
    destruct (strip_prefix [Byte.x2e] s) as [u|] eqn:E2; [|done].
    intros ->%bool_decide_eq_true. apply as_bytes_inj.
    apply strip_prefix_Some in E1 as ->, E2 as ->. by rewrite !as_bytes_app.
  - intros <-. rewrite as_bytes_app, strip_prefix_app.
    change (as_bytes ("." ++ e)%string) with ([Byte.x2e] ++ as_bytes e).
    rewrite strip_prefix_app. by apply bool_decide_eq_true.
Qed.

(** The spelling forgets where the namespace ends. *)
Lemma request_path_ambiguous :
  request_path (PathMdoc "a.b" "c") = request_path (PathMdoc "a" "b.c").
Proof. done. Qed.

Lemma offers_iff t r : offers t r = true <-> exists c, In c (type_claims t) /\ request_path (spec_path c) = r.
Proof.
  unfold offers. rewrite existsb_exists. by setoid_rewrite matches_request_iff.
Qed.

(** ** The catalogue is a map from type identifiers *)

(** The invariant: no identifier twice. *)
Definition catalogue_ok (c : Catalogue) : Prop := NoDup (map type_id c).

Definition view (c : Catalogue) : gmap string AttestationType :=
  list_to_map (map (fun t => (type_id t, t)) c).

Lemma has_id_true id t : has_id id t = true <-> type_id t = id.
Proof. apply bool_decide_eq_true. Qed.

Lemma view_get c id : view c !! id = get c id.
Proof.
  induction c as [|t c IH]; [done|].
  change (<[type_id t := t]> (view c) !! id = if has_id id t then Some t else get c id).
  unfold has_id. case_bool_decide as E; [by rewrite E, lookup_insert_eq|].
  by rewrite lookup_insert_ne, IH.
Qed.

Lemma replace_first_ids c t c' :
  replace_first c t = Some c' -> map type_id c' = map type_id c /\ type_id t ∈ map type_id c.
Proof.
  revert c'. induction c as [|e c IH]; intros c'; [done|]. cbn.
  destruct (has_id (type_id t) e) eqn:E.
  - intros [= <-]. apply has_id_true in E. cbn. rewrite E. split; [done|]. left.
  - destruct (replace_first c t) as [r|]; [|done]. intros [= <-]. cbn.
    destruct (IH _ eq_refl) as [-> H]. split; [done|]. by right.
Qed.

Lemma replace_first_None c t : replace_first c t = None <-> type_id t ∉ map type_id c.
Proof.
  induction c as [|e c IH]; cbn; [split; [intros _ H; by inversion H|done]|].
  rewrite not_elem_of_cons. destruct (has_id (type_id t) e) eqn:E.
  - apply has_id_true in E. split; [done|]. by intros [[] _].
  - assert (type_id t <> type_id e).
    { intros H. symmetry in H. apply has_id_true in H. congruence. }
    destruct (replace_first c t); rewrite <- IH; [split; [done|by intros []]|done].
Qed.

Lemma get_cons e c id : get (e :: c) id = if has_id id e then Some e else get c id.
Proof. done. Qed.

Lemma get_replace_first c t c' id :
  replace_first c t = Some c' -> get c' id = if has_id id t then Some t else get c id.
Proof.
  revert c'. induction c as [|e c IH]; intros c'; [done|]. cbn [replace_first].
  destruct (has_id (type_id t) e) eqn:E.
  - intros [= <-]. apply has_id_true in E. rewrite !get_cons. unfold has_id. rewrite E.
    by case_bool_decide.
  - destruct (replace_first c t) as [r|]; [|done]. intros [= <-]. rewrite !get_cons, (IH _ eq_refl).
    destruct (has_id id e) eqn:E1; [|done]. destruct (has_id id t) eqn:E2; [|done].
    apply has_id_true in E1, E2. subst id. apply has_id_true in E1. congruence.
Qed.

Lemma get_app c d id : get (c ++ d) id = match get c id with Some t => Some t | None => get d id end.
Proof. induction c as [|e c IH]; [done|]. cbn [app]. rewrite !get_cons, IH. by destruct (has_id id e). Qed.

Lemma get_None c id : get c id = None <-> id ∉ map type_id c.
Proof.
  rewrite <- view_get. unfold view. rewrite <- not_elem_of_list_to_map, map_map. done.
Qed.

(** Registering is inserting, and says whether the type was there. *)
Lemma register_view c t :
  view (fst (register c t)) = <[type_id t := t]> (view c) /\
  snd (register c t) = bool_decide (is_Some (view c !! type_id t)).
Proof.
  unfold register. destruct (replace_first c t) as [c'|] eqn:E; cbn [fst snd]; split.
  - apply map_eq. intros id. rewrite view_get, (get_replace_first _ _ _ _ E). unfold has_id.
    case_bool_decide as Eid; [by subst; rewrite lookup_insert_eq|].
    by rewrite lookup_insert_ne, view_get.
  - symmetry. apply bool_decide_eq_true. apply replace_first_ids in E as [_ E].
    rewrite view_get. destruct (get c (type_id t)) eqn:G; [by eexists|].
    by apply get_None in G.
  - apply replace_first_None, get_None in E. apply map_eq. intros id.
    rewrite view_get, get_app. destruct (decide (id = type_id t)) as [->|Hne].
    + rewrite lookup_insert_eq, E. cbn. unfold has_id. by rewrite bool_decide_true.
    + rewrite lookup_insert_ne, view_get by done. cbn. unfold has_id.
      rewrite bool_decide_false by done. by destruct (get c id).
  - symmetry. apply bool_decide_eq_false. apply replace_first_None, get_None in E.
    rewrite view_get, E. by intros [? [=]].
Qed.

Lemma register_ok c t : catalogue_ok c -> catalogue_ok (fst (register c t)).
Proof.
  unfold catalogue_ok, register. destruct (replace_first c t) as [c'|] eqn:E; cbn; intros H.
  - by rewrite (proj1 (replace_first_ids _ _ _ E)).
  - rewrite map_app. apply nodup_snoc; [done|]. by apply replace_first_None.
Qed.

Lemma register_all_spec c ts :
  catalogue_ok c ->
  catalogue_ok (register_all c ts) /\
  view (register_all c ts) = fold_left (fun m t => <[type_id t := t]> m) ts (view c).
Proof.
  revert c. induction ts as [|t ts IH]; intros c H; [done|].
  destruct (IH _ (register_ok c t H)) as [H1 H2]. split; [done|].
  cbn [fold_left]. by rewrite <- (proj1 (register_view c t)).
Qed.

(** Looking a type up finds the type of that identifier. *)
Lemma get_iff c id t : catalogue_ok c -> get c id = Some t <-> In t c /\ type_id t = id.
Proof.
  intros H. rewrite <- view_get. unfold view.
  rewrite <- elem_of_list_to_map; [|by rewrite <- list_fmap_compose].
  rewrite list_elem_of_fmap. split.
  - intros (u & [= -> ->] & Hu%list_elem_of_In). done.
  - intros [Hu <-]. exists t. split; [done|]. by apply list_elem_of_In.
Qed.

(** ** The catalogue's questions *)

(** The types that can prove every requested attribute: the registered types
    with a claim for each of them, in the order of registration. *)
Lemma types_satisfying_iff c requested id :
  catalogue_ok c ->
  In id (types_satisfying c requested) <->
  exists t, get c id = Some t /\
    forall r, In r requested -> exists cl, In cl (type_claims t) /\ request_path (spec_path cl) = r.
Proof.
  intros H. unfold types_satisfying. rewrite in_map_iff.
  setoid_rewrite filter_In. setoid_rewrite forallb_forall. setoid_rewrite offers_iff.
  setoid_rewrite (get_iff c id) at 1; [|done]. split; intros (t & A); exists t; tauto.
Qed.

Lemma types_offering_single c r : types_offering c r = types_satisfying c [r].
Proof.
  unfold types_offering, types_satisfying. f_equal. apply filter_ext. intros t. cbn.
  by rewrite andb_true_r.
Qed.

Lemma mandatory_iff t p :
  In p (mandatory_claims t) <-> exists c, In c (type_claims t) /\ mandatory c = true /\ spec_path c = p.
Proof.
  unfold mandatory_claims. rewrite in_map_iff. setoid_rewrite filter_In.
  split; intros (c & A); exists c; tauto.
Qed.

(** What the mandatory check of an SD-JWT type establishes. *)
Lemma satisfies_mandatory_iff c id held :
  satisfies_mandatory c id held = true <->
  exists t, get c id = Some t /\
    forall cl, In cl (type_claims t) -> mandatory cl = true ->
      exists path, spec_path cl = PathJson path /\ In path held.
Proof.
  unfold satisfies_mandatory. destruct (get c id) as [t|]; [|split; [done|by intros (t & [=] & _)]].
  rewrite forallb_forall. setoid_rewrite mandatory_iff. split.
  - intros H. exists t. split; [done|]. intros cl Hin Hm.
    specialize (H _ (ex_intro _ cl (conj Hin (conj Hm eq_refl)))).
    destruct (spec_path cl) as [path|n e]; [|done].
    exists path. split; [done|].
    apply existsb_exists in H as (h & Hh & ->%bool_decide_eq_true). done.
  - intros (u & [= <-] & H) p (cl & Hin & Hm & <-). destruct (H cl Hin Hm) as (path & -> & Hp).
    cbn. apply existsb_exists. exists path. split; [done|]. by apply bool_decide_eq_true.
Qed.

(** The same of an mdoc type: the namespace and the element are compared, not
    their spelling. *)
Lemma satisfies_mandatory_mdoc_iff c id held :
  satisfies_mandatory_mdoc c id held = true <->
  exists t, get c id = Some t /\ format t = "mso_mdoc"%string /\
    forall cl, In cl (type_claims t) -> mandatory cl = true ->
      exists n e, spec_path cl = PathMdoc n e /\ In (n, e) held.
Proof.
  unfold satisfies_mandatory_mdoc.
  destruct (get c id) as [t|]; [|split; [done|by intros (t & [=] & _)]].
  case_bool_decide as F; [|split; [done|by intros (u & [= <-] & ? & _)]].
  rewrite forallb_forall. setoid_rewrite mandatory_iff. split.
  - intros H. exists t. split_and!; [done..|]. intros cl Hin Hm.
    specialize (H _ (ex_intro _ cl (conj Hin (conj Hm eq_refl)))).
    destruct (spec_path cl) as [path|n e]; [done|].
    exists n, e. split; [done|].
    apply existsb_exists in H as ([a b] & Hh & Hx).
    apply andb_true_iff in Hx as [->%bool_decide_eq_true ->%bool_decide_eq_true]. done.
  - intros (u & [= <-] & _ & H) p (cl & Hin & Hm & <-). destruct (H cl Hin Hm) as (n & e & -> & Hp).
    cbn. apply existsb_exists. exists (n, e). split; [done|]. by rewrite !bool_decide_true.
Qed.

(** ** The default catalogue *)

(** The claims of a type are paths of its format, so that the check of that
    format can succeed; a passed check of one format is no check of the
    other. *)
Definition format_paths (t : AttestationType) : bool :=
  forallb (fun c => match spec_path c with
                    | PathMdoc _ _ => bool_decide (format t = "mso_mdoc"%string)
                    | PathJson _ => bool_decide (format t = "dc+sd-jwt"%string)
                    end) (type_claims t).

Lemma default_catalogue_ok :
  catalogue_ok default_catalogue /\ forallb format_paths default_catalogue = true /\
  Forall (fun t => mandatory_claims t <> []) default_catalogue.
Proof.
  split_and!.
  - apply register_all_spec. constructor.
  - reflexivity.
  - by repeat constructor.
Qed.

(** PIDs, and nothing else in it, are issued under the PID service. *)
Definition of_pid_service (t : AttestationType) : bool :=
  match type_trust_domain t with Pid => true | Attestation => false end.

Lemma default_pid_types :
  map type_id (List.filter of_pid_service default_catalogue) =
  ["urn:eudi:pid:1"; "eu.europa.ec.eudi.pid.1"; "urn:eudi:pid:de:1"]%string.
Proof. reflexivity. Qed.
