(* ===== verification/Presenter.v ===== *)
(** * The presenter (crates/presenter/src/lib.rs)

    The closed vocabulary of screens, the presentation function, claim
    minimisation, and the canonical encoding of a screen whose hash binds the
    user's consent to what was shown. *)

From S2P Require Import Cbor.
From S2P Require Import Prelude Utf8 Boundary.

Open Scope Z_scope.
Open Scope rust_scope.

(** ** Screens *)

Record PaymentScreen : Type := {
  creditor_name : string; creditor_account : string; amount_minor : Z; currency : string;
}.

Record SignScreen : Type := {
  sign_document_name : string; qtsp_id : string; document_hash_hex : string;
}.

Inductive CredentialFormat : Type := DcSdJwt | MsoMdoc.

Inductive DocumentStatus : Type := Preparing | Ready | NeedsAttention.

Record DocumentSummary : Type := {
  document_id : string;
  document_name : string;
  issuer_name : string;
  format : CredentialFormat;
  status : DocumentStatus;
  portrait_required : bool;
}.

Record DisplayAttribute : Type := { label : string; value : string }.

Record CredentialListScreen : Type := { documents : list DocumentSummary }.

Record CredentialDetailScreen : Type := {
  document : DocumentSummary; attributes : list DisplayAttribute;
}.

Record IssuanceOfferScreen : Type := {
  offer_issuer_name : string;
  offer_document_name : string;
  offer_format : CredentialFormat;
  offer_attributes : list string;
  offer_portrait_required : bool;
}.

Inductive NfcReadState : Type := WaitingForCard | Reading | ConnectionLost.

Inductive IssuanceRecovery : Type :=
| WrongPin | PinBlocked | NfcInterrupted | NfcUnavailable | IssuerRejected | NetworkInterrupted
| Delayed | SessionInterrupted.

Record IssuanceRecoveryScreen : Type := {
  reason : IssuanceRecovery;
  recovery_document_name : string;
  attempts_remaining : option Z;
  can_resume : bool;
}.

Record ActiveChainConsentContext : Type := {
  principal_id : string;
  chain_id : string;
  resource_commitment : string;
  action_id : string;
  purpose_commitment : string;
  audience_id : string;
  issuer_binding_commitment : string;
  credential_profile_commitment : string;
  assurance : string;
  policy_revision : Z;
  nonce_commitment : string;
  expires_at : Z;
  linkability : string;
  value_minor : Z;
  fee_minor : Z;
  capability_action_commitment : string;
}.

Inductive VerifierRegistration : Type := Registered | CertificateValidated.

Inductive VerifierTrustMark : Type := EudiWallet.

Inductive RetentionDisclosure : Type := NotStored | Days (days : Z) | Unspecified.

Inductive OverAskResult : Type :=
| WithinRegisteredScope
| ExceedsRegisteredScope (claims : list string)
| RegistrationScopeUnavailable.

Record ConsentScreen : Type := {
  rp_display_name : string;
  purpose : string;
  requested_claims : list string;
  not_shared_claims : list string;
  verifier_registration : VerifierRegistration;
  trust_mark : option VerifierTrustMark;
  retention : RetentionDisclosure;
  over_ask : OverAskResult;
  activechain : option ActiveChainConsentContext;
}.

(** [Default] of the derived and marked defaults. *)
Definition consent_default : ConsentScreen := {|
  rp_display_name := ""; purpose := ""; requested_claims := []; not_shared_claims := [];
  verifier_registration := CertificateValidated; trust_mark := None; retention := Unspecified;
  over_ask := RegistrationScopeUnavailable; activechain := None |}.

Inductive ScreenDescription : Type :=
| Loading
| ErrorScreen (code message : string)
| Consent (c : ConsentScreen)
| PaymentConfirmation (p : PaymentScreen)
| SignConfirmation (s : SignScreen)
| CredentialList (screen : CredentialListScreen)
| CredentialDetail (screen : CredentialDetailScreen)
| IssuanceOffer (screen : IssuanceOfferScreen)
| PinPreparation (document_name : string)
| PinHelp
| NfcReady (document_name : string)
| NfcReading (state : NfcReadState)
| IssuancePreparing (document : DocumentSummary)
| IssuanceReady (document : DocumentSummary)
| IssuanceNeedsAttention (document : DocumentSummary) (recovery : IssuanceRecovery)
| IssuanceRecoveryStep (screen : IssuanceRecoveryScreen)
| PresentQr
| ScanQr
| AuthPrompt
| TransactionHistory
| ProximityConsent (requested_claims : list string)
| DcApiConsent (origin : string) (requested_claims : list string).

(** ** The presentation function *)

Inductive ScreenKind : Type := KindLoading | KindConsent | KindCredentialList | KindError.

Record Snapshot : Type := {
  screen : option ScreenKind; consent : ConsentScreen; error : option (string * string);
}.

Definition present (snapshot : Snapshot) : ScreenDescription :=
  match screen snapshot with
  | Some KindConsent => Consent (consent snapshot)
  | Some KindCredentialList => CredentialList {| documents := [] |}
  | Some KindError =>
      let (c, m) := unwrap_or (error snapshot) (""%string, ""%string) in ErrorScreen c m
  | _ => Loading
  end.

Definition minimum_claim_set (requested held : list string) : list string :=
  dedup str_cmp (sort_with str_cmp (List.filter (fun r => bool_decide (r ∈ held)) requested)).

(** ** The canonical encoding *)

Definition texts (l : list string) : Value := Array (map Text l).

Definition credential_format_value (format : CredentialFormat) : Value :=
  Text (match format with DcSdJwt => "dcSdJwt" | MsoMdoc => "msoMdoc" end).

Definition document_status_value (status : DocumentStatus) : Value :=
  Text (match status with
        | Preparing => "preparing" | Ready => "ready" | NeedsAttention => "needsAttention"
        end).

Definition document_summary_value (d : DocumentSummary) : Value := Array [
  Text (document_id d); Text (document_name d); Text (issuer_name d);
  credential_format_value (format d); document_status_value (status d); Bool (portrait_required d)].

Definition document_summaries_value (documents : list DocumentSummary) : Value :=
  Array (map document_summary_value documents).

Definition issuance_recovery_value (recovery : IssuanceRecovery) : Value :=
  Text (match recovery with
        | WrongPin => "wrongPin"
        | PinBlocked => "pinBlocked"
        | NfcInterrupted => "nfcInterrupted"
        | NfcUnavailable => "nfcUnavailable"
        | IssuerRejected => "issuerRejected"
        | NetworkInterrupted => "networkInterrupted"
        | Delayed => "delayed"
        | SessionInterrupted => "sessionInterrupted"
        end).

Definition activechain_consent_value (c : ActiveChainConsentContext) : Value := Array [
  Text "activechain-v1"; Text (principal_id c); Text (chain_id c); Text (resource_commitment c);
  Text (action_id c); Text (purpose_commitment c); Text (audience_id c);
  Text (issuer_binding_commitment c); Text (credential_profile_commitment c); Text (assurance c);
  Uint (policy_revision c); Text (nonce_commitment c); Uint (expires_at c); Text (linkability c);
  Uint (value_minor c); Uint (fee_minor c); Text (capability_action_commitment c)].

Definition registration_value (r : VerifierRegistration) : Value :=
  Text (match r with Registered => "registered" | CertificateValidated => "certificateValidated" end).

Definition trust_mark_value (m : option VerifierTrustMark) : Value :=
  match m with Some EudiWallet => Text "eudiWallet" | None => Null end.

Definition retention_value (r : RetentionDisclosure) : Value :=
  match r with
  | NotStored => Array [Text "notStored"]
  | Days days => Array [Text "days"; Uint days]
  | Unspecified => Array [Text "unspecified"]
  end.

Definition over_ask_value (o : OverAskResult) : Value :=
  match o with
  | WithinRegisteredScope => Array [Text "withinRegisteredScope"]
  | ExceedsRegisteredScope claims => Array [Text "exceedsRegisteredScope"; texts claims]
  | RegistrationScopeUnavailable => Array [Text "registrationScopeUnavailable"]
  end.

Definition consent_value (c : ConsentScreen) : Value := Array [
  Text "consent"; Text (rp_display_name c); Text (purpose c); texts (requested_claims c);
  texts (not_shared_claims c); registration_value (verifier_registration c);
  trust_mark_value (trust_mark c); retention_value (retention c); over_ask_value (over_ask c);
  match activechain c with Some context => activechain_consent_value context | None => Null end].

Definition attribute_value (a : DisplayAttribute) : Value := Array [Text (label a); Text (value a)].

Definition nfc_state_value (state : NfcReadState) : Value :=
  Text (match state with
        | WaitingForCard => "waitingForCard" | Reading => "reading"
        | ConnectionLost => "connectionLost"
        end).

Definition to_value (screen : ScreenDescription) : Value :=
  match screen with
  | Loading => Array [Text "loading"]
  | ErrorScreen code message => Array [Text "error"; Text code; Text message]
  | Consent c => consent_value c
  | PaymentConfirmation p => Array [
      Text "paymentConfirmation"; Text (creditor_name p); Text (creditor_account p);
      Uint (amount_minor p); Text (currency p)]
  | SignConfirmation s => Array [
      Text "signConfirmation"; Text (sign_document_name s); Text (qtsp_id s);
      Text (document_hash_hex s)]
  | CredentialList screen => Array [
      Text "credentialList"; document_summaries_value (documents screen)]
  | CredentialDetail screen => Array [
      Text "credentialDetail"; document_summary_value (document screen);
      Array (map attribute_value (attributes screen))]
  | IssuanceOffer screen => Array [
      Text "issuanceOffer"; Text (offer_issuer_name screen); Text (offer_document_name screen);
      credential_format_value (offer_format screen); texts (offer_attributes screen);
      Bool (offer_portrait_required screen)]
  | PinPreparation document_name => Array [Text "pinPreparation"; Text document_name]
  | PinHelp => Array [Text "pinHelp"]
  | NfcReady document_name => Array [Text "nfcReady"; Text document_name]
  | NfcReading state => Array [Text "nfcReading"; nfc_state_value state]
  | IssuancePreparing document => Array [Text "issuancePreparing"; document_summary_value document]
  | IssuanceReady document => Array [Text "issuanceReady"; document_summary_value document]
  | IssuanceNeedsAttention document recovery => Array [
      Text "issuanceNeedsAttention"; document_summary_value document;
      issuance_recovery_value recovery]
  | IssuanceRecoveryStep screen => Array [
      Text "issuanceRecovery"; issuance_recovery_value (reason screen);
      Text (recovery_document_name screen);
      match attempts_remaining screen with Some attempts => Uint attempts | None => Null end;
      Bool (can_resume screen)]
  | PresentQr => Array [Text "presentQr"]
  | ScanQr => Array [Text "scanQr"]
  | AuthPrompt => Array [Text "authPrompt"]
  | TransactionHistory => Array [Text "transactionHistory"]
  | ProximityConsent requested_claims => Array [Text "proximityConsent"; texts requested_claims]
  | DcApiConsent origin requested_claims => Array [
      Text "dcApiConsent"; Text origin; texts requested_claims]
  end.

Definition canonical_bytes (screen : ScreenDescription) : bytes := to_canonical (to_value screen).

Definition consent_hash `{D : Digest} (screen : ScreenDescription) : bytes :=
  sha256 (canonical_bytes screen).

(** ** What the encoding says *)

(** The encoding of a screen contains no map: what Rust can build is encoded
    canonically. *)
Fixpoint map_free (v : Value) : bool :=
  match v with
  | Array items => forallb map_free items
  | Map _ => false
  | Tag _ inner => map_free inner
  | _ => true
  end.

Lemma typed_map_free v : typed v = true -> map_free v = true -> canonical v = true.
Proof.
  induction v as [n|n|b|s|items IH|pairs IH|t v IH|b|] using Value_nested_ind; cbn; try done.
  - rewrite !andb_true_iff. intros [Hl Ht] Hm. split; [done|].
    rewrite forallb_forall in *. rewrite List.Forall_forall in IH. intros x Hx.
    apply IH; auto.
  - rewrite !andb_true_iff. intros [Ht Hv] Hm. auto.
Qed.

#[local] Arguments texts : simpl never.

Lemma texts_map_free l : map_free (texts l) = true.
Proof. apply forallb_forall. by intros v (s & <- & _)%in_map_iff. Qed.

Lemma to_value_map_free s : map_free (to_value s) = true.
Proof.
  destruct s as [| |c| | |[ds]|[d l]|o| | | | | | | |r| | | | | |]; cbn;
    rewrite ?andb_true_r; try done; try apply texts_map_free.
  - destruct c as [? ? ? ? ? m r o a]. cbn. rewrite !andb_true_iff.
    split_and!; try apply texts_map_free; try done.
    + by destruct m as [[]|].
    + by destruct r.
    + destruct o; try done. cbn. by rewrite texts_map_free.
    + by destruct a.
  - apply forallb_forall. by intros v (x & <- & _)%in_map_iff.
  - apply forallb_forall. by intros v (x & <- & _)%in_map_iff.
  - by destruct (attempts_remaining r).
Qed.

Lemma map_inj {A B} (f : A -> B) : (forall x y, f x = f y -> x = y) -> forall l k, map f l = map f k -> l = k.
Proof.
  intros Hf l. induction l as [|x l IH]; intros [|y k] [=]; [done|]. f_equal; auto.
Qed.

Lemma texts_inj l k : texts l = texts k -> l = k.
Proof. intros [= H]. revert H. apply map_inj. by intros x y [=]. Qed.

Lemma format_value_inj a b : credential_format_value a = credential_format_value b -> a = b.
Proof. by destruct a, b. Qed.

Lemma status_value_inj a b : document_status_value a = document_status_value b -> a = b.
Proof. by destruct a, b. Qed.

Lemma recovery_value_inj a b : issuance_recovery_value a = issuance_recovery_value b -> a = b.
Proof. by destruct a, b. Qed.

Lemma nfc_value_inj a b : nfc_state_value a = nfc_state_value b -> a = b.
Proof. by destruct a, b. Qed.

Lemma summary_value_inj a b : document_summary_value a = document_summary_value b -> a = b.
Proof.
  destruct a as [? ? ? f s ?], b as [? ? ? f' s' ?].
  destruct f, f', s, s'; intros H; (discriminate H || (injection H; intros; by subst)).
Qed.

Lemma attribute_value_inj a b : attribute_value a = attribute_value b -> a = b.
Proof. destruct a, b. by intros [= -> ->]. Qed.

Lemma activechain_value_inj a b : activechain_consent_value a = activechain_consent_value b -> a = b.
Proof. destruct a, b. intros [=]. by subst. Qed.

Lemma registration_value_inj a b : registration_value a = registration_value b -> a = b.
Proof. by destruct a, b. Qed.

Lemma trust_mark_value_inj a b : trust_mark_value a = trust_mark_value b -> a = b.
Proof. by destruct a as [[]|], b as [[]|]. Qed.

Lemma retention_value_inj a b : retention_value a = retention_value b -> a = b.
Proof. destruct a, b; try done. by intros [= ->]. Qed.

Lemma over_ask_value_inj a b : over_ask_value a = over_ask_value b -> a = b.
Proof. destruct a, b; try done. intros [= H]. f_equal. apply texts_inj. unfold texts. by rewrite H. Qed.

(** Members of two equal arrays, without computing what they are. *)
Lemma member_inj v l w k : Array (v :: l) = Array (w :: k) -> v = w /\ Array l = Array k.
Proof. by intros [= -> ->]. Qed.

Ltac members H :=
  match type of H with
  | Array (_ :: _) = Array (_ :: _) => let E := fresh "E" in apply member_inj in H as [E H]; members H
  | _ => idtac
  end.

Ltac value_injs :=
  repeat match goal with
  | H : Text _ = Text _ |- _ => injection H as H
  | H : Uint _ = Uint _ |- _ => injection H as H
  | H : Bool _ = Bool _ |- _ => injection H as H
  | H : texts _ = texts _ |- _ => apply texts_inj in H
  | H : registration_value _ = registration_value _ |- _ => apply registration_value_inj in H
  | H : trust_mark_value _ = trust_mark_value _ |- _ => apply trust_mark_value_inj in H
  | H : retention_value _ = retention_value _ |- _ => apply retention_value_inj in H
  | H : over_ask_value _ = over_ask_value _ |- _ => apply over_ask_value_inj in H
  | H : credential_format_value _ = credential_format_value _ |- _ => apply format_value_inj in H
  | H : document_summary_value _ = document_summary_value _ |- _ => apply summary_value_inj in H
  | H : issuance_recovery_value _ = issuance_recovery_value _ |- _ => apply recovery_value_inj in H
  | H : nfc_state_value _ = nfc_state_value _ |- _ => apply nfc_value_inj in H
  end.

Lemma consent_value_inj a b : consent_value a = consent_value b -> a = b.
Proof.
  intros H. unfold consent_value in H. members H. destruct a as [? ? ? ? ? ? ? ? x], b as [? ? ? ? ? ? ? ? y].
  cbn [rp_display_name purpose requested_claims not_shared_claims verifier_registration trust_mark
    retention over_ask activechain] in *. value_injs.
  destruct x, y; try discriminate; [|by subst].
  match goal with E : activechain_consent_value _ = _ |- _ => apply activechain_value_inj in E end.
  by subst.
Qed.

Definition value_tag (v : Value) : string :=
  match v with Array (Text t :: _) => t | _ => "" end.

Lemma to_value_inj s t : to_value s = to_value t -> s = t.
Proof.
  intros H. pose proof (f_equal value_tag H) as Ht.
  destruct s, t; try discriminate Ht; clear Ht; [done|..]; cbn [to_value] in H;
    try (apply consent_value_inj in H; by subst); members H; value_injs; try (by subst).
  - destruct p, p0. cbn in *. by subst.
  - destruct s, s0. cbn in *. by subst.
  - destruct screen0 as [l], screen1 as [k]. cbn in *. f_equal. f_equal. injection E0 as E0.
    revert E0. apply map_inj, summary_value_inj.
  - destruct screen0 as [d l], screen1 as [e k]. cbn in *. subst. do 2 f_equal. injection E1 as E1.
    revert E1. apply map_inj, attribute_value_inj.
  - destruct screen0, screen1. cbn in *. by subst.
  - destruct screen0 as [? ? x ?], screen1 as [? ? y ?]. cbn in *. destruct x, y; simplify_eq; done.
Qed.

(** Only claims that were requested and are held, each once, in order. *)
Lemma minimum_claim_set_spec requested held :
  (forall c, In c (minimum_claim_set requested held) <-> In c requested /\ In c held)
  /\ StronglySorted (fun a b => str_cmp a b = Lt) (minimum_claim_set requested held).
Proof.
  unfold minimum_claim_set. split; [|apply dedup_sort_lt, str_cmp_laws]. intros c.
  by rewrite (dedup_sort_In _ str_cmp_laws), filter_In, bool_decide_eq_true, (list_elem_of_In held).
Qed.

Section binding.
Context `{D : Digest}.

(** What you see is what you sign.  The hash that a consent, a payment or a
    signature confirmation is bound to determines the screen: two screens with
    one hash are the same screen, every field of every archetype included, or
    their canonical encodings are a collision of the digest. *)
Theorem consent_hash_binds_screen (s t : ScreenDescription) :
  typed (to_value s) = true -> typed (to_value t) = true ->
  consent_hash s = consent_hash t -> s = t \/ collision.
Proof.
  intros Hs Ht [H|H]%bytes_or_collision; [left|by right].
  apply to_canonical_inj in H; [by apply to_value_inj|apply typed_map_free..];
    auto using to_value_map_free.
Qed.
End binding.

Definition sample_screen : ScreenDescription := Consent {| consent_default with
  rp_display_name := "Shop"; requested_claims := ["age_over_18"]; retention := Days 30;
  over_ask := ExceedsRegisteredScope ["portrait"] |}.

Lemma consent_hash_binds_screen_witness :
  sample_screen = sample_screen \/ @collision Samples.trunc_digest.
Proof.
  apply (@consent_hash_binds_screen Samples.trunc_digest sample_screen sample_screen);
    vm_compute; reflexivity.
Defined.
