(* ===== verification/X509.v ===== *)
(** * Certificates and their names (crates/x509/src/lib.rs)

    [parse_cert] reduces a certificate to the fields that path validation and
    the profiles read.  DER decoding is third-party (the der, x509-cert and
    pkcs1 crates): the data they return are types here, with object identifiers
    in their dotted form, and the decoders are the class [X509Der].  A string
    that is taken apart is taken apart as its UTF-8 bytes. *)

From S2P Require Import Prelude Utf8.

Open Scope Z_scope.
Open Scope rust_scope.

Definition EKU_MDOC_READER_AUTH : string := "1.0.18013.5.1.6".
Definition OID_EKU : string := "2.5.29.37".
Definition OID_POLICIES : string := "2.5.29.32".
Definition OID_BASIC_CONSTRAINTS : string := "2.5.29.19".
Definition OID_SUBJECT_ALT_NAME : string := "2.5.29.17".
Definition OID_KEY_USAGE : string := "2.5.29.15".
Definition OID_SUBJECT_KEY_IDENTIFIER : string := "2.5.29.14".
Definition OID_AUTHORITY_KEY_IDENTIFIER : string := "2.5.29.35".
Definition OID_NAME_CONSTRAINTS : string := "2.5.29.30".
Definition OID_POLICY_MAPPINGS : string := "2.5.29.33".
Definition OID_POLICY_CONSTRAINTS : string := "2.5.29.36".
Definition OID_INHIBIT_ANY_POLICY : string := "2.5.29.54".
Definition OID_ANY_POLICY : string := "2.5.29.32.0".
Definition OID_ECDSA_SHA256 : string := "1.2.840.10045.4.3.2".
Definition OID_ECDSA_SHA384 : string := "1.2.840.10045.4.3.3".
Definition OID_ED25519 : string := "1.3.101.112".
Definition OID_RSA_ENCRYPTION : string := "1.2.840.113549.1.1.1".
Definition OID_RSA_SHA256 : string := "1.2.840.113549.1.1.11".
Definition OID_RSA_SHA384 : string := "1.2.840.113549.1.1.12".
Definition OID_RSA_SHA512 : string := "1.2.840.113549.1.1.13".
Definition OID_EC_PUBLIC_KEY : string := "1.2.840.10045.2.1".
Definition OID_P256 : string := "1.2.840.10045.3.1.7".
Definition OID_P384 : string := "1.3.132.0.34".

Definition MAX_SUPPLIED_CERTIFICATES : Z := 8.
Definition MAX_TRUST_ANCHORS : Z := 64.
Definition MAX_CERTIFICATE_DER_BYTES : Z := 64 * 1024.
Definition MAX_EXTENSIONS_PER_CERTIFICATE : Z := 32.
Definition MAX_GENERAL_NAMES_PER_CERTIFICATE : Z := 64.
Definition MAX_NAME_CONSTRAINTS_PER_CERTIFICATE : Z := 64.
Definition MAX_POLICIES_PER_CERTIFICATE : Z := 32.
Definition MAX_POLICY_MAPPINGS_PER_CERTIFICATE : Z := 32.
Definition MAX_ISSUER_CANDIDATES : Z := 16.
Definition MAX_PATH_BUILD_STEPS : Z := 256.
Definition MAX_COMPLETE_PATHS : Z := MAX_PATH_BUILD_STEPS.

Inductive X509Error : Type :=
| DerError
| PathInvalid (why : string)
| ProfileViolation (why : string)
| UnsupportedSignatureAlg
| UnsupportedPublicKey.

(** ** crypto-traits: certificate algorithms *)

Inductive CertificateSignatureAlg : Type :=
| EcdsaSha256 | EcdsaSha384 | SigEd25519 | RsaPkcs1Sha256 | RsaPkcs1Sha384 | RsaPkcs1Sha512.

Inductive CertificatePublicKeyAlg : Type := EcP256 | EcP384 | KeyEd25519 | Rsa.

#[export] Instance key_alg_eq_decision : EqDecision CertificatePublicKeyAlg.
Proof. solve_decision. Defined.

(** The two certificate methods of the trait [Verifier]; whether they succeed
    is all that this crate looks at. *)
Class CertVerifier : Type := {
  verify_certificate : CertificateSignatureAlg -> bytes -> bytes -> bytes -> bool;
  validate_certificate_public_key : CertificatePublicKeyAlg -> bytes -> bool;
}.

(** ** What the DER crates return *)

(** The string tags that are read, [Null], and the others. *)
Inductive Tag : Type :=
| Utf8String | PrintableString | Ia5String | TeletexString | BmpString | Null | OtherTag (n : Z).

Record Any : Type := { tag : Tag; value : bytes }.
Record AlgorithmIdentifier : Type := { algorithm : string; parameters : option Any }.

#[export] Instance tag_eq_decision : EqDecision Tag.
Proof. solve_decision. Defined.
#[export] Instance any_eq_decision : EqDecision Any.
Proof. solve_decision. Defined.
#[export] Instance algorithm_identifier_eq_decision : EqDecision AlgorithmIdentifier.
Proof. solve_decision. Defined.

Record AttributeTypeAndValue : Type := { attribute_oid : string; attribute_value : Any }.
(** [Name]: a sequence of relative distinguished names. *)
Definition Name : Type := list (list AttributeTypeAndValue).

Inductive GeneralName : Type :=
| OtherName | EdiPartyName | RegisteredId
| Rfc822Name (email : string)
| DnsName (name : string)
| DirectoryName (name : Name)
| UniformResourceIdentifier (uri : string)
| IpAddress (address : bytes).

Record GeneralSubtree : Type := { base : GeneralName; minimum : Z; maximum : option Z }.
Record NameConstraints : Type := {
  permitted_subtrees : option (list GeneralSubtree);
  excluded_subtrees : option (list GeneralSubtree);
}.
Record BasicConstraints : Type := { ca : bool; bc_path_len_constraint : option Z }.
Record KeyUsage : Type := { ku_digital_signature : bool; ku_key_cert_sign : bool }.
Record PolicyInformation : Type := { policy_identifier : string; has_policy_qualifiers : bool }.
Record PolicyMapping : Type := { issuer_domain_policy : string; subject_domain_policy : string }.
Record PolicyConstraints : Type := {
  pc_require_explicit_policy : option Z; pc_inhibit_policy_mapping : option Z;
}.
Record RsaPublicKey : Type := { modulus : bytes; public_exponent : bytes }.
Record Extension : Type := { extn_id : string; critical : bool; extn_value : bytes }.
Record Spki : Type := { spki_algorithm : AlgorithmIdentifier; subject_public_key : option bytes }.

(** [TbsCertificate]; the times are [to_unix_duration().as_secs()], a [u64],
    and a bit string with unused bits has no bytes. *)
Record TbsCertificate : Type := {
  tbs_signature : AlgorithmIdentifier;
  tbs_issuer : Name;
  tbs_not_before : Z;
  tbs_not_after : Z;
  tbs_subject : Name;
  subject_public_key_info : Spki;
  extensions : option (list Extension);
}.

Record Certificate : Type := {
  tbs_certificate : TbsCertificate;
  signature_algorithm : AlgorithmIdentifier;
  cert_signature : option bytes;
}.

(** The decoders and printers of the DER crates, and [str::to_lowercase],
    which depends on the tables of Unicode. *)
Class X509Der : Type := {
  certificate_from_der : bytes -> option Certificate;
  tbs_to_der : TbsCertificate -> option bytes;
  spki_to_der : Spki -> option bytes;
  name_to_der : Name -> option bytes;
  name_to_string : Name -> string;
  decode_as_oid : Any -> option string;
  rsa_public_key_from_der : bytes -> option RsaPublicKey;
  basic_constraints_from_der : bytes -> option BasicConstraints;
  key_usage_from_der : bytes -> option KeyUsage;
  extended_key_usage_from_der : bytes -> option (list string);
  certificate_policies_from_der : bytes -> option (list PolicyInformation);
  policy_mappings_from_der : bytes -> option (list PolicyMapping);
  policy_constraints_from_der : bytes -> option PolicyConstraints;
  inhibit_any_policy_from_der : bytes -> option Z;
  subject_alt_name_from_der : bytes -> option (list GeneralName);
  name_constraints_from_der : bytes -> option NameConstraints;
  subject_key_identifier_from_der : bytes -> option bytes;
  authority_key_identifier_from_der : bytes -> option (option bytes);
  to_lowercase : string -> string;
}.

(** ** A reduced certificate *)

(** [Vec<Vec<(String, String)>>]. *)
Definition CanonicalName : Type := list (list (string * string)).

Inductive SupportedNameConstraint : Type :=
| Dns (name : string)
| Email (address : string)
| UriHost (host : string)
| Ip (address mask : bytes)
| Directory (name : CanonicalName).

Record ParsedNameConstraints : Type := {
  permitted : list SupportedNameConstraint; excluded : list SupportedNameConstraint;
}.

Record CertificateNames : Type := {
  dns : list string; emails : list string; uris : list string; ips : list bytes;
  directories : list CanonicalName;
}.

Record CertificatePolicyState : Type := {
  policy_set : option (list string);
  mappings : list (string * string);
  require_explicit_policy : option Z;
  inhibit_policy_mapping : option Z;
  inhibit_any_policy : option Z;
  policy_error : option string;
}.

Record CertificateConstraints : Type := {
  subject_der : bytes;
  issuer_der : bytes;
  canonical_subject : CanonicalName;
  canonical_issuer : CanonicalName;
  basic_constraints_present : bool;
  basic_constraints_critical : bool;
  path_len_constraint : option Z;
  key_usage_present : bool;
  digital_signature : bool;
  key_cert_sign : bool;
  subject_key_identifier : option bytes;
  authority_key_identifier : option bytes;
  unsupported_critical_extension : bool;
  signature_algorithms_match : bool;
  public_key_algorithm : option CertificatePublicKeyAlg;
  names : CertificateNames;
  name_constraints_present : bool;
  name_constraints : option ParsedNameConstraints;
  name_constraints_error : option string;
  policy : CertificatePolicyState;
}.

Record ParsedCert : Type := {
  tbs_der : bytes;
  signature : bytes;
  sig_alg : CertificateSignatureAlg;
  spki_der : bytes;
  public_key_raw : bytes;
  subject : string;
  issuer : string;
  uri_sans : list string;
  not_before : Z;
  not_after : Z;
  is_ca : bool;
  eku : list string;
  policies : list string;
  constraints : CertificateConstraints;
}.

(** ** Names *)

(** [char::decode_utf16] over big-endian units; an unpaired surrogate is an
    error. *)
Fixpoint decode_utf16 (units : list Z) : option (list Z) :=
  match units with
  | [] => Some []
  | u :: units =>
      if in_range 55296 56319 u then
        match units with
        | v :: units =>
            if in_range 56320 57343 v
            then let! cs := decode_utf16 units in
                 Some (65536 + (u - 55296) * 1024 + (v - 56320) :: cs)
            else None
        | [] => None
        end
      else if in_range 56320 57343 u then None
      else let! cs := decode_utf16 units in Some (u :: cs)
  end.

(** [value.chunks_exact(2)]; [None] when a byte remains. *)
Fixpoint units_be (bs : bytes) : option (list Z) :=
  match bs with
  | [] => Some []
  | a :: b :: bs => let! us := units_be bs in Some (from_be_bytes [a; b] :: us)
  | [_] => None
  end.

(** A [char] as UTF-8. *)
Definition encode_char (c : Z) : bytes :=
  map byte.of_Z
    (if c <? 128 then [c]
     else if c <? 2048 then [192 + c / 64; 128 + c mod 64]
     else if c <? 65536 then [224 + c / 4096; 128 + c / 64 mod 64; 128 + c mod 64]
     else [240 + c / 262144; 128 + c / 4096 mod 64; 128 + c / 64 mod 64; 128 + c mod 64]).

Definition string_of_chars (cs : list Z) : string :=
  string_of_list_byte (concat (map encode_char cs)).

(** [str::split_whitespace]: the maximal runs of other characters. *)
Fixpoint words (cs : list Z) : list (list Z) :=
  match cs with
  | [] => []
  | c :: cs =>
      if is_whitespace c then words cs
      else match cs with
           | [] => [[c]]
           | d :: _ =>
               if is_whitespace d then [c] :: words cs
               else match words cs with
                    | w :: ws => (c :: w) :: ws
                    | [] => [[c]]
                    end
           end
  end.

Fixpoint join_words (ws : list (list Z)) : list Z :=
  match ws with
  | [] => []
  | [w] => w
  | w :: ws => w ++ 32 :: join_words ws
  end.

Definition is_ascii (bs : bytes) : bool := forallb (fun b => byte.unsigned b <? 128) bs.

Definition decode_directory_string (v : Any) : option (list Z) :=
  match tag v with
  | Utf8String => chars (value v)
  | PrintableString | Ia5String | TeletexString =>
      if is_ascii (value v) then Some (map byte.unsigned (value v)) else None
  | BmpString => let! units := units_be (value v) in decode_utf16 units
  | Null | OtherTag _ => None
  end.

Section names.
Context `{X : X509Der}.

Definition canonical_directory_value (v : Any) : option string :=
  let! decoded := decode_directory_string v in
  let folded := to_lowercase (string_of_chars (join_words (words decoded))) in
  if sis_empty folded then None else Some folded.

(** The order of [(String, String)]. *)
Definition attribute_cmp (a b : string * string) : comparison :=
  match bytes_cmp (as_bytes (fst a)) (as_bytes (fst b)) with
  | Eq => bytes_cmp (as_bytes (snd a)) (as_bytes (snd b))
  | c => c
  end.

Definition name_count_ok {A} (l : list A) : bool :=
  negb (is_empty l || (MAX_GENERAL_NAMES_PER_CERTIFICATE <? len l)).

Definition canonical_rdn (rdn : list AttributeTypeAndValue) : option (list (string * string)) :=
  if negb (name_count_ok rdn) then None
  else
    let! attributes := mapM (fun attribute =>
      let! v := canonical_directory_value (attribute_value attribute) in
      Some (attribute_oid attribute, v)) rdn in
    Some (sort_with attribute_cmp attributes).

Definition canonical_name (name : Name) : option CanonicalName :=
  if negb (name_count_ok name) then None else mapM canonical_rdn name.
End names.

(** [rsplit_once] on one ASCII character: around its last occurrence. *)
Definition rsplit_once (c : byte) (bs : bytes) : option (bytes * bytes) :=
  match rev (split_byte c bs) with
  | last :: (_ :: _) as rest => Some (join_byte c (rev rest), last)
  | _ => None
  end.

Definition starts_with (c : byte) (bs : bytes) : bool :=
  bool_decide (List.hd_error bs = Some c).
Definition ends_with (c : byte) (bs : bytes) : bool :=
  bool_decide (List.hd_error (rev bs) = Some c).

Definition DOT : byte := Byte.x2e.
Definition COLON : byte := Byte.x3a.
Definition AT : byte := Byte.x40.
Definition HYPHEN : byte := Byte.x2d.

Definition opt_all {A} (p : A -> bool) (o : option A) : bool :=
  match o with Some a => p a | None => false end.

(** A label, given what its bytes may be. *)
Definition label_ok (allowed : byte -> bool) (label : bytes) : bool :=
  negb (is_empty label)
  && (len label <=? 63)
  && forallb (fun b => allowed b || Byte.eqb b HYPHEN) label
  && opt_all is_ascii_alphanumeric (List.hd_error label)
  && opt_all is_ascii_alphanumeric (List.hd_error (rev label)).

Definition canonical_dns_bytes (bs : bytes) : option bytes :=
  if is_empty bs || (253 <? len bs) || starts_with DOT bs || ends_with DOT bs || negb (is_ascii bs)
  then None
  else
    let canonical := map to_ascii_lowercase bs in
    if forallb (label_ok is_ascii_alphanumeric) (split_byte DOT canonical)
    then Some canonical else None.

(** [to_string] of the result; a string in, a string out. *)
Definition on_string (f : bytes -> option bytes) (s : string) : option string :=
  let! bs := f (as_bytes s) in Some (string_of_list_byte bs).

Definition canonical_dns_name : string -> option string := on_string canonical_dns_bytes.

Definition digits_value (ds : bytes) : Z :=
  fold_left (fun n d => n * 10 + (byte.unsigned d - 48)) ds 0.

(** [str::parse::<std::net::Ipv4Addr>().is_ok()]: four decimal octets without
    leading zeros. *)
Definition octet_ok (part : bytes) : bool :=
  negb (is_empty part) && (len part <=? 3) && forallb is_ascii_digit part
  && negb ((1 <? len part) && starts_with Byte.x30 part)
  && (digits_value part <=? 255).

Definition is_ipv4 (bs : bytes) : bool :=
  let parts := split_byte DOT bs in (len parts =? 4) && forallb octet_ok parts.

(** [str::parse::<u16>()]: an optional plus sign and at least one digit. *)
Definition parse_u16 (bs : bytes) : option Z :=
  let digits := match bs with Byte.x2b :: rest => rest | _ => bs end in
  if is_empty digits || negb (forallb is_ascii_digit digits) then None
  else let n := digits_value digits in if n <=? U16_MAX then Some n else None.

Definition canonical_uri_bytes (bs : bytes) : option bytes :=
  let (subdomains_only, host) :=
    match bs with Byte.x2e :: host => (true, host) | _ => (false, bs) end in
  let! host := canonical_dns_bytes host in
  if is_ipv4 host then None
  else Some (if subdomains_only then DOT :: host else host).

Definition canonical_uri_constraint : string -> option string := on_string canonical_uri_bytes.

Definition canonical_email_bytes (constraint : bool) (bs : bytes) : option bytes :=
  if is_empty bs || negb (is_ascii bs) || existsb is_ascii_whitespace bs then None
  else
    match rsplit_once AT bs with
    | Some (local, domain) =>
        if constraint && starts_with DOT bs || is_empty local then None
        else let! domain := canonical_dns_bytes domain in Some (local ++ AT :: domain)
    | None => if constraint then canonical_uri_bytes bs else None
    end.

Definition canonical_email (value : string) (constraint : bool) : option string :=
  on_string (canonical_email_bytes constraint) value.

(** The bits of the mask from the most significant one; [saw_zero] is the loop
    variable. *)
Fixpoint mask_ok (saw_zero : bool) (bits : list bool) : bool :=
  match bits with
  | [] => true
  | set :: bits => if saw_zero && set then false else mask_ok (saw_zero || negb set) bits
  end.

Definition byte_bits (b : byte) : list bool :=
  map (fun bit => negb (Z.land (byte.unsigned b) (Z.shiftl 1 bit) =? 0)) [7; 6; 5; 4; 3; 2; 1; 0].

(** [!mask] on a byte. *)
Definition byte_not (m : Z) : Z := Z.lxor m 255.

Definition valid_ip_constraint (address mask : bytes) : bool :=
  if negb (len address =? len mask) || negb ((len address =? 4) || (len address =? 16)) then false
  else
    mask_ok false (concat (map byte_bits mask))
    && forallb (fun '(a, m) => Z.land (byte.unsigned a) (byte_not (byte.unsigned m)) =? 0)
         (zip address mask).

Section parse.
Context `{X : X509Der}.

(** ** Name constraints *)

Definition parse_subtree (subtree : GeneralSubtree) : result SupportedNameConstraint string :=
  if negb (minimum subtree =? 0) || is_some (maximum subtree)
  then Err "unsupported name constraint distance"%string
  else
    match base subtree with
    | DnsName name =>
        let? name := ok_or (canonical_dns_name name) "malformed DNS name constraint"%string in
        Ok (Dns name)
    | UniformResourceIdentifier host =>
        let? host := ok_or (canonical_uri_constraint host) "malformed URI name constraint"%string in
        Ok (UriHost host)
    | Rfc822Name email =>
        let? email := ok_or (canonical_email email true) "malformed rfc822Name constraint"%string in
        Ok (Email email)
    | DirectoryName name =>
        let? name := ok_or (canonical_name name) "malformed directoryName constraint"%string in
        Ok (Directory name)
    | IpAddress bs =>
        let half := Nat.div (length bs) 2 in
        if negb ((len bs =? 8) || (len bs =? 32))
           || negb (valid_ip_constraint (take half bs) (drop half bs))
        then Err "malformed IP name constraint"%string
        else Ok (Ip (take half bs) (drop half bs))
    | OtherName | EdiPartyName | RegisteredId => Err "unsupported name constraint form"%string
    end.

Fixpoint parse_subtrees (subtrees : list GeneralSubtree)
  : result (list SupportedNameConstraint) string :=
  match subtrees with
  | [] => Ok []
  | subtree :: subtrees =>
      let? c := parse_subtree subtree in
      let? cs := parse_subtrees subtrees in
      Ok (c :: cs)
  end.

Definition parse_name_constraints (parsed : NameConstraints) : result ParsedNameConstraints string :=
  if match permitted_subtrees parsed with Some l => is_empty l | None => false end
     || match excluded_subtrees parsed with Some l => is_empty l | None => false end
  then Err "NameConstraints contains an empty GeneralSubtrees"%string
  else
    let permitted_subtrees := unwrap_or (permitted_subtrees parsed) [] in
    let excluded_subtrees := unwrap_or (excluded_subtrees parsed) [] in
    let? total := ok_or (checked_u64 (len permitted_subtrees + len excluded_subtrees))
                    "name constraints resource budget exceeded"%string in
    if total =? 0 then Err "NameConstraints is empty"%string
    else if MAX_NAME_CONSTRAINTS_PER_CERTIFICATE <? total
    then Err "name constraints resource budget exceeded"%string
    else
      let? permitted := parse_subtrees permitted_subtrees in
      let? excluded := parse_subtrees excluded_subtrees in
      Ok {| permitted := permitted; excluded := excluded |}.

(** ** Algorithms *)

Definition parameters_absent (a : AlgorithmIdentifier) : bool := is_none (parameters a).

Definition is_null (parameters : Any) : bool :=
  bool_decide (tag parameters = Null) && is_empty (value parameters).

Definition parameters_absent_or_null (a : AlgorithmIdentifier) : bool :=
  match parameters a with None => true | Some p => is_null p end.

Definition parameters_are_null (a : AlgorithmIdentifier) : bool :=
  match parameters a with None => false | Some p => is_null p end.

Definition map_sig_alg (a : AlgorithmIdentifier) : result CertificateSignatureAlg X509Error :=
  let oid := algorithm a in
  if String.eqb oid OID_ECDSA_SHA256 && parameters_absent a then Ok EcdsaSha256
  else if String.eqb oid OID_ECDSA_SHA384 && parameters_absent a then Ok EcdsaSha384
  else if String.eqb oid OID_ED25519 && parameters_absent a then Ok SigEd25519
  else if String.eqb oid OID_RSA_SHA256 && parameters_absent_or_null a then Ok RsaPkcs1Sha256
  else if String.eqb oid OID_RSA_SHA384 && parameters_absent_or_null a then Ok RsaPkcs1Sha384
  else if String.eqb oid OID_RSA_SHA512 && parameters_absent_or_null a then Ok RsaPkcs1Sha512
  else Err UnsupportedSignatureAlg.

(** [u8::leading_zeros]. *)
Definition leading_zeros (b : Z) : Z := if b =? 0 then 8 else 7 - Z.log2 b.

Definition modulus_bits (modulus : bytes) : Z :=
  match modulus with
  | [] => 0
  | first :: _ => (len modulus - 1) * 8 + (8 - leading_zeros (byte.unsigned first))
  end.

Definition parse_public_key (a : AlgorithmIdentifier) (public_key_raw : bytes)
  : result CertificatePublicKeyAlg X509Error :=
  let oid := algorithm a in
  if String.eqb oid OID_EC_PUBLIC_KEY then
    let? parameters := ok_or (parameters a) UnsupportedPublicKey in
    let? curve := ok_or (decode_as_oid parameters) UnsupportedPublicKey in
    if String.eqb curve OID_P256 && (len public_key_raw =? 65) && starts_with Byte.x04 public_key_raw
    then Ok EcP256
    else if String.eqb curve OID_P384 && (len public_key_raw =? 97)
            && starts_with Byte.x04 public_key_raw
    then Ok EcP384
    else Err UnsupportedPublicKey
  else if String.eqb oid OID_ED25519 && (parameters_absent a && (len public_key_raw =? 32))
  then Ok KeyEd25519
  else if String.eqb oid OID_RSA_ENCRYPTION && parameters_are_null a then
    let? key := ok_or (rsa_public_key_from_der public_key_raw) UnsupportedPublicKey in
    let bits := modulus_bits (modulus key) in
    if negb ((2048 <=? bits) && (bits <=? 8192))
       || negb (bool_decide (public_exponent key = [Byte.x01; Byte.x00; Byte.x01]))
    then Err UnsupportedPublicKey
    else Ok Rsa
  else Err UnsupportedPublicKey.

(** ** Extensions *)

(** The variables that the loop over the extensions assigns. *)
Record Extracted : Type := {
  e_is_ca : bool; e_eku : list string; e_policies : list string; e_uri_sans : list string;
  e_constraints : CertificateConstraints;
}.

Definition with_constraints (e : Extracted) (c : CertificateConstraints) : Extracted :=
  {| e with e_constraints := c |}.

Definition with_policy (e : Extracted) (p : CertificatePolicyState) : Extracted :=
  with_constraints e {| (e_constraints e) with policy := p |}.

Definition with_policy_error (e : Extracted) (why : string) : Extracted :=
  with_policy e {| (policy (e_constraints e)) with policy_error := Some why |}.

Definition read_basic_constraints (ext : Extension) (e : Extracted) : result Extracted X509Error :=
  let? bc := ok_or (basic_constraints_from_der (extn_value ext)) DerError in
  if negb (ca bc) && is_some (bc_path_len_constraint bc) then Err DerError
  else Ok {| e with e_is_ca := ca bc;
             e_constraints := {| (e_constraints e) with
               basic_constraints_present := true;
               basic_constraints_critical := critical ext;
               path_len_constraint := bc_path_len_constraint bc |} |}.

Definition read_key_usage (ext : Extension) (e : Extracted) : result Extracted X509Error :=
  let? usage := ok_or (key_usage_from_der (extn_value ext)) DerError in
  Ok (with_constraints e {| (e_constraints e) with
        key_usage_present := true;
        digital_signature := ku_digital_signature usage;
        key_cert_sign := ku_key_cert_sign usage |}).

Definition read_eku (ext : Extension) (e : Extracted) : result Extracted X509Error :=
  let? parsed := ok_or (extended_key_usage_from_der (extn_value ext)) DerError in
  Ok {| e with e_eku := parsed |}.

(** The policies up to the first one that breaks the loop, and its error. *)
Fixpoint collect_policies (critical : bool) (parsed : list PolicyInformation) (acc : list string)
  : list string * option string :=
  match parsed with
  | [] => (acc, None)
  | p :: parsed =>
      if critical && has_policy_qualifiers p
      then (acc, Some "certificate policy qualifiers are unsupported"%string)
      else if bool_decide (policy_identifier p ∈ acc)
      then (acc, Some "duplicate certificate policy"%string)
      else collect_policies critical parsed (acc ++ [policy_identifier p])
  end.

Definition or_error (o : option string) (before : option string) : option string :=
  match o with Some _ => o | None => before end.

Definition read_policies (ext : Extension) (e : Extracted) : result Extracted X509Error :=
  let? parsed := ok_or (certificate_policies_from_der (extn_value ext)) DerError in
  if is_empty parsed || (MAX_POLICIES_PER_CERTIFICATE <? len parsed)
  then Ok (with_policy_error e "certificate policy resource budget exceeded")
  else
    let (found, why) := collect_policies (critical ext) parsed [] in
    let p := policy (e_constraints e) in
    Ok (with_policy {| e with e_policies := found |}
          {| p with policy_set := Some found; policy_error := or_error why (policy_error p) |}).

Fixpoint collect_mappings (parsed : list PolicyMapping) (acc : list (string * string))
  : list (string * string) * option string :=
  match parsed with
  | [] => (acc, None)
  | m :: parsed =>
      let pair := (issuer_domain_policy m, subject_domain_policy m) in
      if String.eqb (fst pair) OID_ANY_POLICY || String.eqb (snd pair) OID_ANY_POLICY
      then (acc, Some "anyPolicy must not appear in PolicyMappings"%string)
      else if bool_decide (pair ∈ acc)
      then (acc, Some "duplicate certificate policy mapping"%string)
      else collect_mappings parsed (acc ++ [pair])
  end.

Definition read_policy_mappings (ext : Extension) (e : Extracted) : result Extracted X509Error :=
  let? parsed := ok_or (policy_mappings_from_der (extn_value ext)) DerError in
  if negb (critical ext) then Ok (with_policy_error e "PolicyMappings must be critical")
  else if is_empty parsed || (MAX_POLICY_MAPPINGS_PER_CERTIFICATE <? len parsed)
  then Ok (with_policy_error e "certificate policy mapping resource budget exceeded")
  else
    let (found, why) := collect_mappings parsed [] in
    let p := policy (e_constraints e) in
    Ok (with_policy e {| p with mappings := found; policy_error := or_error why (policy_error p) |}).

Definition read_policy_constraints (ext : Extension) (e : Extracted) : result Extracted X509Error :=
  let? parsed := ok_or (policy_constraints_from_der (extn_value ext)) DerError in
  if negb (critical ext) then Ok (with_policy_error e "PolicyConstraints must be critical")
  else if is_none (pc_require_explicit_policy parsed) && is_none (pc_inhibit_policy_mapping parsed)
  then Ok (with_policy_error e "PolicyConstraints is empty")
  else Ok (with_policy e {| (policy (e_constraints e)) with
             require_explicit_policy := pc_require_explicit_policy parsed;
             inhibit_policy_mapping := pc_inhibit_policy_mapping parsed |}).

Definition read_inhibit_any_policy (ext : Extension) (e : Extracted) : result Extracted X509Error :=
  let? parsed := ok_or (inhibit_any_policy_from_der (extn_value ext)) DerError in
  if negb (critical ext) then Ok (with_policy_error e "InhibitAnyPolicy must be critical")
  else Ok (with_policy e {| (policy (e_constraints e)) with inhibit_any_policy := Some parsed |}).

Definition add_general_name (e : Extracted) (name : GeneralName) : result Extracted X509Error :=
  let ns := names (e_constraints e) in
  let with_names e ns := with_constraints e {| (e_constraints e) with names := ns |} in
  match name with
  | DnsName name => Ok (with_names e {| ns with dns := dns ns ++ [name] |})
  | UniformResourceIdentifier uri =>
      Ok (with_names {| e with e_uri_sans := e_uri_sans e ++ [uri] |}
            {| ns with uris := uris ns ++ [uri] |})
  | IpAddress address => Ok (with_names e {| ns with ips := ips ns ++ [address] |})
  | Rfc822Name email => Ok (with_names e {| ns with emails := emails ns ++ [email] |})
  | DirectoryName name =>
      let? name := ok_or (canonical_name name) DerError in
      Ok (with_names e {| ns with directories := directories ns ++ [name] |})
  | OtherName | EdiPartyName | RegisteredId => Ok e
  end.

Fixpoint add_general_names (e : Extracted) (l : list GeneralName) : result Extracted X509Error :=
  match l with
  | [] => Ok e
  | name :: l => let? e := add_general_name e name in add_general_names e l
  end.

Definition read_subject_alt_name (ext : Extension) (e : Extracted) : result Extracted X509Error :=
  let? san := ok_or (subject_alt_name_from_der (extn_value ext)) DerError in
  if is_empty san || (MAX_GENERAL_NAMES_PER_CERTIFICATE <? len san) then Err DerError
  else add_general_names e san.

Definition read_name_constraints (ext : Extension) (e : Extracted) : result Extracted X509Error :=
  let? parsed := ok_or (name_constraints_from_der (extn_value ext)) DerError in
  let c := {| (e_constraints e) with name_constraints_present := true |} in
  Ok (with_constraints e
    (if negb (critical ext)
     then {| c with name_constraints_error := Some "NameConstraints must be critical"%string |}
     else
       match parse_name_constraints parsed with
       | Ok parsed => {| c with name_constraints := Some parsed |}
       | Err error => {| c with name_constraints_error := Some error |}
       end)).

Definition mark_critical (ext : Extension) (c : CertificateConstraints) : CertificateConstraints :=
  if critical ext then {| c with unsupported_critical_extension := true |} else c.

Definition read_subject_key_identifier (ext : Extension) (e : Extracted) : result Extracted X509Error :=
  let? identifier := ok_or (subject_key_identifier_from_der (extn_value ext)) DerError in
  Ok (with_constraints e
        (mark_critical ext {| (e_constraints e) with subject_key_identifier := Some identifier |})).

Definition read_authority_key_identifier (ext : Extension) (e : Extracted)
  : result Extracted X509Error :=
  let? identifier := ok_or (authority_key_identifier_from_der (extn_value ext)) DerError in
  Ok (with_constraints e
        (mark_critical ext {| (e_constraints e) with authority_key_identifier := identifier |})).

Definition read_extension (ext : Extension) (e : Extracted) : result Extracted X509Error :=
  let oid := extn_id ext in
  if String.eqb oid OID_BASIC_CONSTRAINTS then read_basic_constraints ext e
  else if String.eqb oid OID_KEY_USAGE then read_key_usage ext e
  else if String.eqb oid OID_EKU then read_eku ext e
  else if String.eqb oid OID_POLICIES then read_policies ext e
  else if String.eqb oid OID_POLICY_MAPPINGS then read_policy_mappings ext e
  else if String.eqb oid OID_POLICY_CONSTRAINTS then read_policy_constraints ext e
  else if String.eqb oid OID_INHIBIT_ANY_POLICY then read_inhibit_any_policy ext e
  else if String.eqb oid OID_SUBJECT_ALT_NAME then read_subject_alt_name ext e
  else if String.eqb oid OID_NAME_CONSTRAINTS then read_name_constraints ext e
  else if String.eqb oid OID_SUBJECT_KEY_IDENTIFIER then read_subject_key_identifier ext e
  else if String.eqb oid OID_AUTHORITY_KEY_IDENTIFIER then read_authority_key_identifier ext e
  else Ok (with_constraints e (mark_critical ext (e_constraints e))).

Fixpoint read_extensions (exts : list Extension) (seen_oids : list string) (e : Extracted)
  : result Extracted X509Error :=
  match exts with
  | [] => Ok e
  | ext :: exts =>
      if bool_decide (extn_id ext ∈ seen_oids) then Err DerError
      else
        let? e := read_extension ext e in
        read_extensions exts (extn_id ext :: seen_oids) e
  end.

(** ** [parse_cert] *)

Definition default_names : CertificateNames :=
  {| dns := []; emails := []; uris := []; ips := []; directories := [] |}.

Definition default_policy : CertificatePolicyState := {|
  policy_set := None; mappings := []; require_explicit_policy := None;
  inhibit_policy_mapping := None; inhibit_any_policy := None; policy_error := None;
|}.

Definition default_constraints : CertificateConstraints := {|
  subject_der := []; issuer_der := []; canonical_subject := []; canonical_issuer := [];
  basic_constraints_present := false; basic_constraints_critical := false;
  path_len_constraint := None; key_usage_present := false; digital_signature := false;
  key_cert_sign := false; subject_key_identifier := None; authority_key_identifier := None;
  unsupported_critical_extension := false; signature_algorithms_match := false;
  public_key_algorithm := None; names := default_names; name_constraints_present := false;
  name_constraints := None; name_constraints_error := None; policy := default_policy;
|}.

(** [as i64] on a [u64]. *)
Definition as_i64 (n : Z) : Z := if n <=? I64_MAX then n else n - 2 ^ 64.

(** What is done to the constraints after the loop. *)
Definition finish_constraints (e : Extracted) : CertificateConstraints :=
  let c := e_constraints e in
  let c := {| c with names := {| (names c) with
                directories := directories (names c) ++ [canonical_subject c] |} |} in
  if name_constraints_present c && negb (e_is_ca e) && is_none (name_constraints_error c)
  then {| c with name_constraints_error :=
            Some "NameConstraints only permitted in CA certificates"%string |}
  else c.

Definition parse_cert (der_bytes : bytes) : result ParsedCert X509Error :=
  if is_empty der_bytes || (MAX_CERTIFICATE_DER_BYTES <? len der_bytes) then Err DerError
  else
  let? cert := ok_or (certificate_from_der der_bytes) DerError in
  let tbs := tbs_certificate cert in
  let? tbs_der := ok_or (tbs_to_der tbs) DerError in
  let? signature := ok_or (cert_signature cert) DerError in
  let? sig_alg := map_sig_alg (signature_algorithm cert) in
  let? spki_der := ok_or (spki_to_der (subject_public_key_info tbs)) DerError in
  let? public_key_raw := ok_or (subject_public_key (subject_public_key_info tbs)) DerError in
  let? public_key_algorithm :=
    parse_public_key (spki_algorithm (subject_public_key_info tbs)) public_key_raw in
  let? subject_der := ok_or (name_to_der (tbs_subject tbs)) DerError in
  let? issuer_der := ok_or (name_to_der (tbs_issuer tbs)) DerError in
  let? canonical_subject := ok_or (canonical_name (tbs_subject tbs)) DerError in
  let? canonical_issuer := ok_or (canonical_name (tbs_issuer tbs)) DerError in
  let e := {|
    e_is_ca := false; e_eku := []; e_policies := []; e_uri_sans := [];
    e_constraints := {| default_constraints with
      subject_der := subject_der; issuer_der := issuer_der;
      canonical_subject := canonical_subject; canonical_issuer := canonical_issuer;
      signature_algorithms_match := bool_decide (tbs_signature tbs = signature_algorithm cert);
      public_key_algorithm := Some public_key_algorithm |} |} in
  let? e :=
    match extensions tbs with
    | None => Ok e
    | Some exts =>
        if MAX_EXTENSIONS_PER_CERTIFICATE <? len exts then Err DerError
        else read_extensions exts [] e
    end in
  Ok {| tbs_der := tbs_der; signature := signature; sig_alg := sig_alg; spki_der := spki_der;
        public_key_raw := public_key_raw;
        subject := name_to_string (tbs_subject tbs); issuer := name_to_string (tbs_issuer tbs);
        uri_sans := e_uri_sans e;
        not_before := as_i64 (tbs_not_before tbs); not_after := as_i64 (tbs_not_after tbs);
        is_ca := e_is_ca e; eku := e_eku e; policies := e_policies e;
        constraints := finish_constraints e |}.
End parse.

