(* ===== verification/X509Path.v ===== *)
(** * Certification paths (crates/x509/src/lib.rs)

    Path building over an unordered bundle, path validation with name
    constraints and certificate policies, and the relying-party and
    credential-issuer profiles.  Certificates are named by their index, as in
    the code; [explore_paths] has fuel, and [None] stands for running out of it
    or for an index out of bounds, neither of which happens. *)

From stdpp Require Import gmap strings.
From S2P Require Import Prelude Utf8 X509.

Open Scope Z_scope.
Open Scope rust_scope.

(** ** Path building *)

Record BuiltPath : Type := { supplied_indices : list nat; anchor_index : nat }.

Record PathSearch : Type := {
  complete : list BuiltPath; steps : Z; saw_loop : bool; saw_authority_key_mismatch : bool;
  budget_exceeded : bool;
}.

Definition new_search : PathSearch := {|
  complete := []; steps := 0; saw_loop := false; saw_authority_key_mismatch := false;
  budget_exceeded := false;
|}.

Definition certificate_eq (left right : ParsedCert) : bool :=
  bool_decide (tbs_der left = tbs_der right) && bool_decide (signature left = signature right).

Definition issuer_name_matches (child parent : ParsedCert) : bool :=
  bool_decide (canonical_issuer (constraints child) = canonical_subject (constraints parent)).

Definition authority_key_matches (child parent : ParsedCert) : bool :=
  match authority_key_identifier (constraints child), subject_key_identifier (constraints parent) with
  | Some authority, Some subject => bool_decide (authority = subject)
  | _, _ => true
  end.

Definition mark_exceeded (search : PathSearch) : PathSearch := {| search with budget_exceeded := true |}.
Definition mark_mismatch (search : PathSearch) : PathSearch :=
  {| search with saw_authority_key_mismatch := true |}.
Definition mark_loop (search : PathSearch) : PathSearch := {| search with saw_loop := true |}.

(** The search after the step, and whether it may go on. *)
Definition count_step (search : PathSearch) : PathSearch * bool :=
  let search := {| search with steps := steps search + 1 |} in
  if MAX_PATH_BUILD_STEPS <? steps search then (mark_exceeded search, false) else (search, true).

(** One more issuer candidate; [Err] is the early return. *)
Definition count_candidate (candidates : Z) (search : PathSearch)
  : result (Z * PathSearch) PathSearch :=
  let candidates := candidates + 1 in
  if MAX_ISSUER_CANDIDATES <? candidates then Err (mark_exceeded search)
  else
    let (search, go) := count_step search in
    if go then Ok (candidates, search) else Err (mark_exceeded search).

Fixpoint visit_anchors (child : ParsedCert) (path : list nat) (index : nat) (anchors : list ParsedCert)
    (candidates : Z) (search : PathSearch) : result (Z * PathSearch) PathSearch :=
  match anchors with
  | [] => Ok (candidates, search)
  | anchor :: anchors =>
      if negb (issuer_name_matches child anchor)
      then visit_anchors child path (S index) anchors candidates search
      else if negb (authority_key_matches child anchor)
      then visit_anchors child path (S index) anchors candidates (mark_mismatch search)
      else
        let? (candidates, search) := count_candidate candidates search in
        if MAX_COMPLETE_PATHS <=? len (complete search) then Err (mark_exceeded search)
        else
          visit_anchors child path (S index) anchors candidates
            {| search with complete := complete search ++
                 [{| supplied_indices := path; anchor_index := index |}] |}
  end.

Section explore.
Variable explore : nat -> list nat -> PathSearch -> option PathSearch.

(** The second loop of [explore_paths]; [explore] is the recursive call. *)
Fixpoint visit_parents (current : nat) (child : ParsedCert) (path : list nat) (index : nat)
    (parents : list ParsedCert) (candidates : Z) (search : PathSearch) : option PathSearch :=
  match parents with
  | [] => Some search
  | parent :: parents =>
      if Nat.eqb index current || negb (issuer_name_matches child parent)
      then visit_parents current child path (S index) parents candidates search
      else if negb (authority_key_matches child parent)
      then visit_parents current child path (S index) parents candidates (mark_mismatch search)
      else
        match count_candidate candidates search with
        | Err search => Some search
        | Ok (candidates, search) =>
            if bool_decide (index ∈ path)
            then visit_parents current child path (S index) parents candidates (mark_loop search)
            else
              let! search := explore index (path ++ [index]) search in
              if budget_exceeded search then Some search
              else visit_parents current child path (S index) parents candidates search
        end
  end.
End explore.

Fixpoint explore_paths (fuel : nat) (supplied anchors : list ParsedCert) (current : nat)
    (path : list nat) (search : PathSearch) : option PathSearch :=
  match fuel with
  | O => None
  | S fuel =>
      if budget_exceeded search then Some search
      else
        let (search, go) := count_step search in
        if negb go then Some search
        else
          let! child := supplied !! current in
          match visit_anchors child path 0 anchors 0 search with
          | Err search => Some search
          | Ok (candidates, search) =>
              visit_parents (explore_paths fuel supplied anchors) current child path 0 supplied
                candidates search
          end
  end.

(** ** Name constraints *)

Definition strip_suffix (suffix bs : bytes) : option bytes :=
  let! r := strip_prefix (rev suffix) (rev bs) in Some (rev r).

Definition dns_constraint_matches (name constraint : bytes) : bool :=
  bool_decide (name = constraint) || opt_all (ends_with DOT) (strip_suffix constraint name).

Definition uri_constraint_matches (host constraint : bytes) : bool :=
  match constraint with
  | Byte.x2e :: domain => negb (bool_decide (host = domain)) && is_some (strip_suffix constraint host)
  | _ => bool_decide (host = constraint)
  end.

(** [c.is_ascii_control() || c.is_whitespace()] on an ASCII character. *)
Definition control_or_space (b : byte) : bool :=
  is_ascii_control b || is_whitespace (byte.unsigned b).

Definition is_scheme_byte (b : byte) : bool :=
  is_ascii_alphanumeric b || Byte.eqb b Byte.x2b || Byte.eqb b HYPHEN || Byte.eqb b DOT.
Definition is_ascii_alphabetic (b : byte) : bool := is_ascii_upper b || is_ascii_lower b.

(** The bytes before the first one that satisfies [stop]. *)
Fixpoint before_any (stop : byte -> bool) (bs : bytes) : bytes :=
  match bs with
  | [] => []
  | b :: bs => if stop b then [] else b :: before_any stop bs
  end.

Definition ends_authority (b : byte) : bool :=
  Byte.eqb b Byte.x2f || Byte.eqb b Byte.x3f || Byte.eqb b Byte.x23.

Definition constrained_uri_host (uri : bytes) : option bytes :=
  if negb (is_ascii uri) || existsb control_or_space uri then None
  else
    let! (scheme, rest) := split_once [COLON] uri in
    if is_empty scheme || negb (opt_all is_ascii_alphabetic (List.hd_error scheme))
       || negb (forallb is_scheme_byte scheme)
    then None
    else
      let! authority_and_rest := strip_prefix [Byte.x2f; Byte.x2f] rest in
      let authority := before_any ends_authority authority_and_rest in
      if is_empty authority || (1 <? count_byte AT authority) then None
      else
        let host_and_port :=
          match rsplit_once AT authority with Some (_, host) => host | None => authority end in
        if starts_with Byte.x5b host_and_port || (1 <? count_byte COLON host_and_port) then None
        else
          let (host, port) :=
            match rsplit_once COLON host_and_port with
            | Some (host, port) => (host, Some port)
            | None => (host_and_port, None)
            end in
          if match port with
             | Some port => is_empty port || is_none (parse_u16 port)
             | None => false
             end
          then None
          else
            let! host := canonical_dns_bytes host in
            if is_ipv4 host then None else Some host.

Definition ip_constraint_matches (name address mask : bytes) : bool :=
  (len name =? len address) && (len address =? len mask)
  && forallb (fun '((n, a), m) =>
       Z.land (byte.unsigned n) (byte.unsigned m) =? Z.land (byte.unsigned a) (byte.unsigned m))
       (zip (zip name address) mask).

(** The pair that a constraint is collected as. *)
Definition ip_pair_matches (name : bytes) (c : bytes * bytes) : bool :=
  ip_constraint_matches name (fst c) (snd c).

Definition email_constraint_matches (email constraint : bytes) : bool :=
  if existsb (Byte.eqb AT) constraint then bool_decide (email = constraint)
  else
    match rsplit_once AT email with
    | None => false
    | Some (_, domain) =>
        uri_constraint_matches domain constraint
        || (negb (starts_with DOT constraint) && dns_constraint_matches domain constraint)
    end.

Definition directory_constraint_matches (name constraint : CanonicalName) : bool :=
  (len constraint <=? len name) && bool_decide (take (length constraint) name = constraint).

(** The names of one form against the constraints of that form: none of the
    excluded ones, and one of the permitted ones when there are any. *)
Section form.
Context {N C : Type} (canonical : N -> result N X509Error) (matches : N -> C -> bool).
Variables permitted excluded : list C.

Definition check_name (name : N) : result unit X509Error :=
  let? name := canonical name in
  if existsb (matches name) excluded
  then Err (PathInvalid "name constraints exclude certificate name")
  else if negb (is_empty permitted) && negb (existsb (matches name) permitted)
  then Err (PathInvalid "name constraints do not permit certificate name")
  else Ok tt.

Fixpoint check_names (names : list N) : result unit X509Error :=
  match names with
  | [] => Ok tt
  | name :: names => let? _ := check_name name in check_names names
  end.
End form.

Definition dns_of (c : SupportedNameConstraint) : option bytes :=
  match c with Dns v => Some (as_bytes v) | _ => None end.
Definition email_of (c : SupportedNameConstraint) : option bytes :=
  match c with Email v => Some (as_bytes v) | _ => None end.
Definition uri_of (c : SupportedNameConstraint) : option bytes :=
  match c with UriHost v => Some (as_bytes v) | _ => None end.
Definition ip_of (c : SupportedNameConstraint) : option (bytes * bytes) :=
  match c with Ip address mask => Some (address, mask) | _ => None end.
Definition directory_of (c : SupportedNameConstraint) : option CanonicalName :=
  match c with Directory v => Some v | _ => None end.

Definition canonical_dns (name : bytes) : result bytes X509Error :=
  ok_or (canonical_dns_bytes name) (PathInvalid "constrained DNS name is malformed").
Definition canonical_address (email : bytes) : result bytes X509Error :=
  ok_or (canonical_email_bytes false email) (PathInvalid "constrained rfc822Name is malformed").
Definition canonical_host (uri : bytes) : result bytes X509Error :=
  ok_or (constrained_uri_host uri) (PathInvalid "constrained URI has no canonical DNS host").
Definition canonical_ip (name : bytes) : result bytes X509Error :=
  if negb ((len name =? 4) || (len name =? 16))
  then Err (PathInvalid "constrained IP address is malformed") else Ok name.

(** The constraints of one form, handed to a check. *)
Definition on_form {C T} (get : SupportedNameConstraint -> option C) (cs : ParsedNameConstraints)
    (check : list C -> list C -> T) : T :=
  check (omap get (permitted cs)) (omap get (excluded cs)).

Definition enforce_name_constraints (ns : CertificateNames) (cs : ParsedNameConstraints)
  : result unit X509Error :=
  let? _ := on_form dns_of cs (check_names canonical_dns dns_constraint_matches) (map as_bytes (dns ns)) in
  let? _ := on_form email_of cs (check_names canonical_address email_constraint_matches)
              (map as_bytes (emails ns)) in
  let? _ :=
    on_form uri_of cs (fun permitted_uri excluded_uri =>
      if is_empty permitted_uri && is_empty excluded_uri then Ok tt
      else check_names canonical_host uri_constraint_matches permitted_uri excluded_uri
             (map as_bytes (uris ns))) in
  let? _ := on_form ip_of cs (check_names canonical_ip ip_pair_matches) (ips ns) in
  on_form directory_of cs (check_names Ok directory_constraint_matches) (directories ns).

Definition self_issued (c : ParsedCert) : bool :=
  bool_decide (canonical_subject (constraints c) = canonical_issuer (constraints c)).

(** The names below one issuer. *)
Fixpoint constrain_subjects (cs : ParsedNameConstraints) (subject_index : nat)
    (subjects : list ParsedCert) : result unit X509Error :=
  match subjects with
  | [] => Ok tt
  | subject :: subjects =>
      let? _ :=
        if negb (Nat.eqb subject_index 0) && self_issued subject then Ok tt
        else enforce_name_constraints (names (constraints subject)) cs in
      constrain_subjects cs (S subject_index) subjects
  end.

(** [below] is [path[..issuer_index]]. *)
Fixpoint constrain_path (below issuers : list ParsedCert) : result unit X509Error :=
  match issuers with
  | [] => Ok tt
  | issuer :: issuers =>
      let? _ :=
        match name_constraints (constraints issuer) with
        | None => Ok tt
        | Some cs => constrain_subjects cs 0 below
        end in
      constrain_path (below ++ [issuer]) issuers
  end.

Definition validate_name_constraints (path : list ParsedCert) : result unit X509Error :=
  constrain_path (take 1 path) (drop 1 path).

(** ** Certificate policies *)

(** [BTreeSet<String>]: an ordered set. *)
Definition PolicySet : Type := gset string.

(** The counters that constrain the next certificate, and the valid policies;
    [None] is any policy. *)
Record PolicyTree : Type := {
  explicit_policy : Z; policy_mapping : Z; any_policy : Z; valid : option PolicySet;
}.

(** [valid] after the policies of one certificate. *)
Definition intersect_policies (t : PolicyTree) (policies : option (list string)) : option PolicySet :=
  match policies with
  | None => Some ∅
  | Some policies =>
      let has_any := existsb (String.eqb OID_ANY_POLICY) policies && (0 <? any_policy t) in
      let concrete : PolicySet :=
        list_to_set (List.filter (fun p => negb (String.eqb p OID_ANY_POLICY)) policies) in
      match valid t with
      | None => if has_any then None else Some concrete
      | Some expected =>
          let next := expected ∩ concrete in
          Some (if has_any then next ∪ expected else next)
      end
  end.

(** The loop over the mappings; [issuer_policies] is the set before it. *)
Definition map_policies (mappings : list (string * string)) (issuer_policies : PolicySet) : PolicySet :=
  fold_left (fun (expected : PolicySet) '(issuer, subject) =>
    if bool_decide (issuer ∈ issuer_policies) then {[subject]} ∪ (expected ∖ {[issuer]})
    else expected) mappings issuer_policies.

Definition saturating_pred (n : Z) : Z := Z.max 0 (n - 1).

Definition limit (counter : Z) (l : option Z) : Z :=
  match l with Some l => Z.min counter l | None => counter end.

(** One certificate; [is_leaf] is [index == 0]. *)
Definition policy_step (t : PolicyTree) (is_leaf : bool) (c : ParsedCert)
  : result PolicyTree X509Error :=
  let p := policy (constraints c) in
  match policy_error p with
  | Some error => Err (PathInvalid error)
  | None =>
      if negb (is_empty (mappings p)) && negb (is_ca c)
      then Err (PathInvalid "PolicyMappings only permitted in CA certificates")
      else
        let valid := intersect_policies t (policy_set p) in
        if negb (is_empty (mappings p)) && (policy_mapping t =? 0)
        then Err (PathInvalid "certificate policy mapping is inhibited")
        else
          let valid := option_map (map_policies (mappings p)) valid in
          if (explicit_policy t =? 0) && bool_decide (valid = Some ∅)
          then Err (PathInvalid "explicit certificate policy is required")
          else
            let next counter := if negb (self_issued c) || is_leaf then saturating_pred counter
                                else counter in
            Ok {| explicit_policy := limit (next (explicit_policy t)) (require_explicit_policy p);
                  policy_mapping := limit (next (policy_mapping t)) (inhibit_policy_mapping p);
                  any_policy := limit (next (any_policy t)) (inhibit_any_policy p);
                  valid := valid |}
  end.

(** From the certificate below the anchor to the leaf. *)
Fixpoint policy_walk (t : PolicyTree) (downwards : list ParsedCert) : result PolicyTree X509Error :=
  match downwards with
  | [] => Ok t
  | c :: downwards =>
      let? t := policy_step t (is_empty downwards) c in policy_walk t downwards
  end.

(** [u32::try_from(..).unwrap_or(u32::MAX)]. *)
Definition to_u32 (n : Z) : Z := if n <=? U32_MAX then n else U32_MAX.

Definition concrete_policies (c : ParsedCert) : PolicySet :=
  list_to_set (List.filter (fun p => negb (String.eqb p OID_ANY_POLICY))
                 (unwrap_or (policy_set (policy (constraints c))) [])).

(** The path is not empty. *)
Definition validate_certificate_policies (leaf : ParsedCert) (issuers : list ParsedCert)
  : result PolicySet X509Error :=
  let initial := to_u32 (len issuers + 1) in
  let? t := policy_walk
    {| explicit_policy := initial; policy_mapping := initial; any_policy := initial; valid := None |}
    (rev (removelast (leaf :: issuers))) in
  Ok (unwrap_or (valid t) (concrete_policies leaf)).

(** ** Path validation *)

Definition signature_compatible_with_issuer (signature : CertificateSignatureAlg)
    (issuer_key : CertificatePublicKeyAlg) : bool :=
  match signature, issuer_key with
  | (EcdsaSha256 | EcdsaSha384), (EcP256 | EcP384) => true
  | SigEd25519, KeyEd25519 => true
  | (RsaPkcs1Sha256 | RsaPkcs1Sha384 | RsaPkcs1Sha512), Rsa => true
  | _, _ => false
  end.

Section validate.
Context `{V : CertVerifier}.

(** The first failing check, by its message. *)
Definition require (b : bool) (why : string) : result unit X509Error :=
  if b then Ok tt else Err (PathInvalid why).

Definition forbid (o : option string) : result unit X509Error :=
  match o with Some why => Err (PathInvalid why) | None => Ok tt end.

Definition check_certificate (now : Z) (c : ParsedCert) : result unit X509Error :=
  let cs := constraints c in
  let? _ := require (signature_algorithms_match cs)
              "TBSCertificate and outer signature algorithms differ" in
  let? _ := require (negb (unsupported_critical_extension cs))
              "unsupported critical certificate extension" in
  let? _ := forbid (name_constraints_error cs) in
  let? _ := forbid (policy_error (policy cs)) in
  let? key := ok_or (public_key_algorithm cs) (PathInvalid "certificate public key is unsupported") in
  let? _ := require (validate_certificate_public_key key (public_key_raw c))
              "certificate subject public key validation failed" in
  require (negb ((now <? not_before c) || (not_after c <? now)))
    "certificate expired or not yet valid".

Fixpoint each (check : ParsedCert -> result unit X509Error) (l : list ParsedCert)
  : result unit X509Error :=
  match l with
  | [] => Ok tt
  | c :: l => let? _ := check c in each check l
  end.

Definition check_leaf (leaf : ParsedCert) : result unit X509Error :=
  let? _ := require (negb (is_ca leaf)) "leaf certificate is a CA" in
  let? _ := require (key_usage_present (constraints leaf)) "leaf KeyUsage is missing" in
  require (digital_signature (constraints leaf)) "leaf KeyUsage lacks digitalSignature".

(** [below] is [path[1..index]]. *)
Definition check_issuer (below : list ParsedCert) (c : ParsedCert) : result unit X509Error :=
  let cs := constraints c in
  let? _ := require (basic_constraints_present cs && is_ca c)
              "issuer BasicConstraints does not authorize a CA" in
  let? _ := require (basic_constraints_critical cs) "issuer BasicConstraints is not critical" in
  let? _ := require (key_usage_present cs) "issuer KeyUsage is missing" in
  let? _ := require (key_cert_sign cs) "issuer KeyUsage lacks keyCertSign" in
  let non_self_issued_ca_below := len (List.filter (fun c => negb (self_issued c)) below) in
  require (negb (opt_all (fun limit => limit <? non_self_issued_ca_below) (path_len_constraint cs)))
    "BasicConstraints pathLenConstraint exceeded".

Fixpoint check_issuers (below issuers : list ParsedCert) : result unit X509Error :=
  match issuers with
  | [] => Ok tt
  | c :: issuers =>
      let? _ := check_issuer below c in check_issuers (below ++ [c]) issuers
  end.

Definition check_link (child parent : ParsedCert) : result unit X509Error :=
  let? _ := require (issuer_name_matches child parent) "issuer/subject mismatch" in
  let? _ := require (authority_key_matches child parent) "authority key identifier mismatch" in
  let? issuer_key := ok_or (public_key_algorithm (constraints parent))
                       (PathInvalid "issuer public key is unsupported") in
  let? _ := require (signature_compatible_with_issuer (sig_alg child) issuer_key)
              "certificate signature algorithm is incompatible with issuer public key" in
  require (verify_certificate (sig_alg child) (public_key_raw parent) (tbs_der child) (signature child))
    "signature verification failed".

(** [path.windows(2)]. *)
Fixpoint check_links (child : ParsedCert) (parents : list ParsedCert) : result unit X509Error :=
  match parents with
  | [] => Ok tt
  | parent :: parents =>
      let? _ := check_link child parent in check_links parent parents
  end.

Definition validate_built_path (path : list ParsedCert) (now : Z) : result PolicySet X509Error :=
  match path with
  | [] => Err (PathInvalid "empty constructed path")
  | leaf :: issuers =>
      let? _ := each (check_certificate now) path in
      let? _ := check_leaf leaf in
      let? _ := check_issuers [] issuers in
      let? _ := validate_name_constraints path in
      let? effective_policies := validate_certificate_policies leaf issuers in
      let? _ := check_links leaf issuers in
      Ok effective_policies
  end.

(** ** [validate_path] *)

Fixpoint repeats {A} (eqb : A -> A -> bool) (seen l : list A) : bool :=
  match l with
  | [] => false
  | x :: l => existsb (fun prior => eqb prior x) seen || repeats eqb (seen ++ [x]) l
  end.

Definition cert_cmp (left right : ParsedCert) : comparison :=
  match bytes_cmp (tbs_der left) (tbs_der right) with
  | Eq => bytes_cmp (signature left) (signature right)
  | c => c
  end.

Definition enumerate {A} (l : list A) : list (nat * A) := zip (seq 0 (length l)) l.

(** [is_parent[parent_index]] after the two loops. *)
Definition is_parent (supplied : list ParsedCert) (parent_index : nat) (parent : ParsedCert) : bool :=
  existsb (fun '(child_index, child) =>
    negb (Nat.eqb child_index parent_index) && issuer_name_matches child parent)
    (enumerate supplied).

Definition leaves (supplied : list ParsedCert) : list nat :=
  map fst (List.filter (fun '(i, c) => negb (is_parent supplied i c)) (enumerate supplied)).

Definition build (supplied anchors : list ParsedCert) (built : BuiltPath) : option (list ParsedCert) :=
  let! certificates := mapM (fun i => supplied !! i) (supplied_indices built) in
  let! anchor := anchors !! anchor_index built in
  Some (certificates ++ [anchor]).

(** The set in its order, as [into_iter().collect()] gives it. *)
Definition sorted_policies (ps : PolicySet) : list string :=
  sort_with (fun a b => bytes_cmp (as_bytes a) (as_bytes b)) (elements ps).

Definition set_leaf_policies (ps : PolicySet) (path : list ParsedCert) : list ParsedCert :=
  match path with
  | leaf :: issuers => {| leaf with policies := sorted_policies ps |} :: issuers
  | [] => []
  end.

(** The loop over the complete paths: [Err] is the early return. *)
Fixpoint select_path (candidates : list (list ParsedCert)) (now : Z)
    (valid_path : option (list ParsedCert)) (first_validation_error : option X509Error)
  : result (option (list ParsedCert) * option X509Error) X509Error :=
  match candidates with
  | [] => Ok (valid_path, first_validation_error)
  | candidate :: candidates =>
      match validate_built_path candidate now with
      | Ok effective_policies =>
          if is_none valid_path
          then select_path candidates now (Some (set_leaf_policies effective_policies candidate))
                 first_validation_error
          else Err (PathInvalid "certificate bundle has ambiguous trust paths")
      | Err error =>
          select_path candidates now valid_path
            (if is_none first_validation_error then Some error else first_validation_error)
      end
  end.

Definition conclude (valid_path : option (list ParsedCert)) (first_validation_error : option X509Error)
    (search : PathSearch) : result (list ParsedCert) X509Error :=
  match valid_path with
  | Some path => Ok path
  | None =>
      match first_validation_error with
      | Some error => Err error
      | None =>
          if saw_loop search then Err (PathInvalid "certificate path contains a loop")
          else if saw_authority_key_mismatch search
          then Err (PathInvalid "authority key identifier mismatch")
          else Err (PathInvalid "no trust anchor for chain")
      end
  end.

(** From the sorted bundle on. *)
Definition search_paths (supplied anchors : list ParsedCert) (now : Z)
  : result (list ParsedCert) X509Error :=
  match leaves supplied with
  | [] => Err (PathInvalid "certificate path contains a loop")
  | _ :: _ :: _ => Err (PathInvalid "certificate bundle has ambiguous leaves")
  | [leaf_index] =>
      match explore_paths (S (length supplied)) supplied anchors leaf_index [leaf_index] new_search with
      | None => Err (PathInvalid "out of fuel")
      | Some search =>
          if budget_exceeded search
          then Err (PathInvalid "certificate path resource budget exceeded")
          else
            let? (valid_path, first_validation_error) :=
              select_path (omap (build supplied anchors) (complete search)) now None None in
            conclude valid_path first_validation_error search
      end
  end.

Context `{X : X509Der}.

Fixpoint parse_certs (chain_der : list bytes) : result (list ParsedCert) X509Error :=
  match chain_der with
  | [] => Ok []
  | der :: chain_der =>
      let? c := parse_cert der in
      let? cs := parse_certs chain_der in
      Ok (c :: cs)
  end.

Definition validate_path (chain_der : list bytes) (trust_anchors : list ParsedCert) (now : Z)
  : result (list ParsedCert) X509Error :=
  if is_empty chain_der then Err (PathInvalid "empty chain")
  else if (MAX_SUPPLIED_CERTIFICATES <? len chain_der) || (MAX_TRUST_ANCHORS <? len trust_anchors)
  then Err (PathInvalid "certificate path resource budget exceeded")
  else if is_empty trust_anchors then Err (PathInvalid "no trust anchor for chain")
  else if repeats (fun a b => bool_decide (a = b)) [] chain_der
  then Err (PathInvalid "duplicate certificate in supplied chain")
  else if repeats certificate_eq [] trust_anchors
  then Err (PathInvalid "duplicate trust anchor")
  else
    let? supplied := parse_certs chain_der in
    let supplied := sort_with cert_cmp supplied in
    let anchors := sort_with cert_cmp trust_anchors in
    if existsb (fun c => existsb (certificate_eq c) anchors) supplied
    then Err (PathInvalid "trust anchor must not be supplied in the certificate chain")
    else search_paths supplied anchors now.

(** ** Profiles *)

Record RelyingPartyProfile : Type := {
  rp_subject : string; registered : bool; dns_sans : list string;
}.

Definition check_relying_party (chain_der : list bytes) (trust_anchors : list ParsedCert) (now : Z)
  : result RelyingPartyProfile X509Error :=
  let? path := validate_path chain_der trust_anchors now in
  let? leaf := ok_or (List.hd_error path) (PathInvalid "empty constructed path") in
  if is_ca leaf then Err (ProfileViolation "leaf must be an end-entity")
  else if negb (existsb (String.eqb EKU_MDOC_READER_AUTH) (eku leaf))
  then Err (ProfileViolation "missing mdoc reader-auth EKU")
  else if is_empty (policies leaf) then Err (ProfileViolation "missing RP certificate policy")
  else Ok {| rp_subject := subject leaf; registered := true;
             dns_sans := dns (names (constraints leaf)) |}.

Definition valid_canonical_dns_name (host : bytes) : bool :=
  if (253 <? len host) || negb (existsb (Byte.eqb DOT) host) || is_ipv4 host
     || existsb is_ascii_upper host
  then false
  else forallb (label_ok (fun b => is_ascii_lower b || is_ascii_digit b)) (split_byte DOT host).

(** The characters that an authority must not contain. *)
Definition not_in_authority (b : byte) : bool :=
  ends_authority b || Byte.eqb b AT || Byte.eqb b Byte.x5c || Byte.eqb b Byte.x5b
  || Byte.eqb b Byte.x5d.

Definition port_ok (port : bytes) : bool :=
  negb ((1 <? len port) && starts_with Byte.x30 port)
  && opt_all (fun n => negb (n =? 0) && negb (n =? 443)) (parse_u16 port).

Definition valid_https_issuer_identity (identity : string) : bool :=
  let identity := as_bytes identity in
  if negb (is_ascii identity) || existsb control_or_space identity then false
  else
    match strip_prefix (as_bytes "https://") identity with
    | None => false
    | Some authority =>
        if is_empty authority || existsb not_in_authority authority || (1 <? count_byte COLON authority)
        then false
        else
          let (host, port) :=
            match rsplit_once COLON authority with
            | Some (host, port) => (host, Some port)
            | None => (authority, None)
            end in
          if negb (valid_canonical_dns_name host) then false
          else match port with None => true | Some port => port_ok port end
    end.

Record ValidatedCredentialIssuer : Type := {
  identity : string; issuer_public_key_raw : bytes; issuer_not_before : Z; issuer_not_after : Z;
}.

Definition check_credential_issuer (chain_der : list bytes) (trust_anchors : list ParsedCert) (now : Z)
  : result ValidatedCredentialIssuer X509Error :=
  let? path := validate_path chain_der trust_anchors now in
  let? leaf := ok_or (List.hd_error path) (PathInvalid "empty constructed path") in
  if is_ca leaf then Err (ProfileViolation "credential issuer leaf must be an end-entity")
  else
    let? identity :=
      match uri_sans leaf with
      | [] => Err (ProfileViolation "credential issuer identity URI is missing")
      | [identity] =>
          if valid_https_issuer_identity identity then Ok identity
          else Err (ProfileViolation "credential issuer identity must be an HTTPS URI")
      | _ => Err (ProfileViolation "credential issuer identity is ambiguous")
      end in
    Ok {| identity := identity; issuer_public_key_raw := public_key_raw leaf;
          issuer_not_before := not_before leaf; issuer_not_after := not_after leaf |}.
End validate.
