(* ===== verification/X509Search.v ===== *)
(** * The path search is exact (crates/x509/src/lib.rs)

    Within its budgets, [explore_paths] finds every simple path from a
    certificate to an anchor, each once and in order; its cost is what decides
    whether it stays within them.  The fuel covers the longest simple path. *)

From stdpp Require Import gmap strings.
From S2P Require Import Prelude Utf8 X509 X509Path.

Open Scope Z_scope.
Open Scope rust_scope.

(** ** The search is exact *)

(** The indices of a list, from [index] on, that satisfy a test. *)
Fixpoint indices {A} (test : nat -> A -> bool) (index : nat) (l : list A) : list nat :=
  match l with
  | [] => []
  | x :: l => (if test index x then [index] else []) ++ indices test (S index) l
  end.

Lemma elem_of_indices {A} (test : nat -> A -> bool) index (l : list A) i :
  i ∈ indices test index l <-> exists x, (index <= i)%nat /\ l !! (i - index)%nat = Some x /\ test i x = true.
Proof.
  revert index. induction l as [|x l IH]; intros index; cbn [indices].
  { rewrite elem_of_nil. split; [done|]. intros (x & _ & H & _). by rewrite lookup_nil in H. }
  rewrite elem_of_app, IH. split.
  - intros [H|(y & Hle & Hy & Ht)].
    + destruct (test index x) eqn:E; [|by apply elem_of_nil in H].
      apply list_elem_of_singleton in H as ->. exists x. by rewrite Nat.sub_diag.
    + exists y. split; [lia|]. split; [|done].
      by replace (i - index)%nat with (S (i - S index)) by lia.
  - intros (y & Hle & Hy & Ht). destruct (decide (i = index)) as [->|Hne].
    + rewrite Nat.sub_diag in Hy. injection Hy as ->. rewrite Ht. left. by apply list_elem_of_singleton.
    + right. exists y. split; [lia|]. split; [|done].
      by replace (i - index)%nat with (S (i - S index)) in Hy by lia.
Qed.

Lemma indices_ge {A} (test : nat -> A -> bool) index (l : list A) i :
  i ∈ indices test index l -> (index <= i)%nat.
Proof. intros H. apply elem_of_indices in H as (x & H & _). exact H. Qed.

Lemma NoDup_indices {A} (test : nat -> A -> bool) index (l : list A) : NoDup (indices test index l).
Proof.
  revert index. induction l as [|x l IH]; intros index; cbn [indices]; [constructor|].
  destruct (test index x); [|apply IH]. cbn [app]. apply list.NoDup_cons. split; [|apply IH].
  intros H%indices_ge. lia.
Qed.

Section search.
Context (supplied anchors : list ParsedCert).

Definition issues (child parent : ParsedCert) : bool :=
  issuer_name_matches child parent && authority_key_matches child parent.

Definition anchors_above (child : ParsedCert) : list nat := indices (fun _ => issues child) 0 anchors.

Definition parent_test (current : nat) (child : ParsedCert) (index : nat) (parent : ParsedCert) : bool :=
  negb (Nat.eqb index current) && issues child parent.

Definition parents_above (current : nat) (child : ParsedCert) : list nat :=
  indices (parent_test current child) 0 supplied.

Definition unvisited (path ps : list nat) : list nat :=
  List.filter (fun j => negb (bool_decide (j ∈ path))) ps.

Definition ending (path : list nat) (a : nat) : BuiltPath :=
  {| supplied_indices := path; anchor_index := a |}.

(** Every simple path that extends [path], whose last certificate is
    [current]; their cost; and whether every issuer set on the way is small. *)
Fixpoint paths_from (fuel : nat) (path : list nat) (current : nat) : list BuiltPath :=
  match fuel, supplied !! current with
  | S fuel, Some child =>
      map (ending path) (anchors_above child)
      ++ flat_map (fun j => paths_from fuel (path ++ [j]) j)
           (unvisited path (parents_above current child))
  | _, _ => []
  end.

Definition sum_of {A} (f : A -> Z) (l : list A) : Z := fold_right (fun x n => f x + n) 0 l.

Definition width (current : nat) (child : ParsedCert) : Z :=
  len (anchors_above child) + len (parents_above current child).

Fixpoint cost_from (fuel : nat) (path : list nat) (current : nat) : Z :=
  match fuel, supplied !! current with
  | S fuel, Some child =>
      1 + width current child
      + sum_of (fun j => cost_from fuel (path ++ [j]) j) (unvisited path (parents_above current child))
  | _, _ => 0
  end.

Fixpoint narrow_from (fuel : nat) (path : list nat) (current : nat) : bool :=
  match fuel, supplied !! current with
  | S fuel, Some child =>
      (width current child <=? MAX_ISSUER_CANDIDATES)
      && forallb (fun j => narrow_from fuel (path ++ [j]) j)
           (unvisited path (parents_above current child))
  | _, _ => true
  end.

(** A search that has not run out of budget, and what it becomes. *)
Definition ready (s : PathSearch) : Prop :=
  budget_exceeded s = false /\ steps s <= MAX_PATH_BUILD_STEPS /\ len (complete s) <= steps s.

Definition grown (s s' : PathSearch) (ps : list BuiltPath) (cost : Z) : Prop :=
  ready s' /\ complete s' = complete s ++ ps /\ steps s' = steps s + cost.

Definition explored (s s' : PathSearch) (ps : list BuiltPath) (cost : Z) (narrow : bool) : Prop :=
  if narrow && (steps s + cost <=? MAX_PATH_BUILD_STEPS) then grown s s' ps cost
  else budget_exceeded s' = true.

Lemma explored_refl s : ready s -> explored s s [] 0 true.
Proof.
  intros (Hb & Hs & Hl). unfold explored. cbn [andb]. rewrite (proj2 (Z.leb_le _ _)) by lia.
  split; [done|]. rewrite app_nil_r. split; [done|lia].
Qed.

(** One piece of the search after another; the second one is skipped when the
    first one has run out of budget. *)
Lemma explored_seq s s1 s2 ps1 ps2 c1 c2 n1 n2 :
  explored s s1 ps1 c1 n1 -> 0 <= c2 ->
  (if budget_exceeded s1 then s2 = s1 else ready s1 -> explored s1 s2 ps2 c2 n2) ->
  explored s s2 (ps1 ++ ps2) (c1 + c2) (n1 && n2).
Proof.
  unfold explored. intros H1 Hc H2.
  destruct (n1 && (steps s + c1 <=? MAX_PATH_BUILD_STEPS)) eqn:E1.
  - destruct H1 as (R & Ec & Es). rewrite (proj1 R) in H2. specialize (H2 R). bool_prop. subst n1.
    rewrite Es in H2. cbn [andb]. replace (steps s + (c1 + c2)) with (steps s + c1 + c2) by lia.
    destruct (n2 && _); [|done]. destruct H2 as (R2 & Ec2 & Es2). split; [done|].
    rewrite Ec2, Ec, app_assoc. split; [done|lia].
  - rewrite H1 in H2. subst s2.
    assert (n1 && n2 && (steps s + (c1 + c2) <=? MAX_PATH_BUILD_STEPS) = false) as ->; [|done].
    destruct n1; [|done]. cbn [andb] in *. destruct n2; [|done]. bool_prop.
    apply Z.leb_gt. lia.
Qed.

Lemma explored_ext s s' ps c n ps' c' n' :
  explored s s' ps c n -> ps = ps' -> c = c' -> n = n' -> explored s s' ps' c' n'.
Proof. by intros H -> -> ->. Qed.

(** Marks do not matter. *)
Lemma explored_mark (mark : PathSearch -> PathSearch) s s' ps c n :
  (mark = mark_mismatch \/ mark = mark_loop) ->
  explored (mark s) s' ps c n -> explored s s' ps c n.
Proof. by intros [-> | ->]. Qed.

Lemma ready_mark (mark : PathSearch -> PathSearch) s :
  (mark = mark_mismatch \/ mark = mark_loop) -> ready s -> ready (mark s).
Proof. by intros [-> | ->]. Qed.

Lemma sum_of_nonneg {A} (f : A -> Z) l : (forall x, 0 <= f x) -> 0 <= sum_of f l.
Proof. intros H. induction l as [|x l IH]; [done|]. cbn. pose proof (H x). unfold sum_of in *. lia. Qed.

Lemma sum_of_cons {A} (f : A -> Z) x l : sum_of f (x :: l) = f x + sum_of f l.
Proof. done. Qed.

Lemma cost_nonneg fuel path current : 0 <= cost_from fuel path current.
Proof.
  revert path current. induction fuel as [|fuel IH]; intros path current; [done|]. cbn [cost_from].
  destruct (supplied !! current) as [child|]; [|done]. unfold width.
  assert (0 <= sum_of (fun j => cost_from fuel (path ++ [j]) j)
                 (unvisited path (parents_above current child))) by (apply sum_of_nonneg; auto).
  pose proof (len_nonneg (anchors_above child)). pose proof (len_nonneg (parents_above current child)). lia.
Qed.

Lemma count_step_spec s : ready s ->
  exists s1, explored s s1 [] 1 true /\ count_step s = (s1, negb (budget_exceeded s1))
    /\ complete s1 = complete s.
Proof.
  intros (Hb & Hs & Hl). unfold count_step. cbn [steps].
  destruct (Z.ltb_spec MAX_PATH_BUILD_STEPS (steps s + 1)).
  - exists (mark_exceeded {| s with steps := steps s + 1 |}). split; [|by split].
    unfold explored. cbn [andb]. by rewrite (proj2 (Z.leb_gt _ _)) by lia.
  - exists {| s with steps := steps s + 1 |}. cbn [budget_exceeded]. rewrite Hb.
    split; [|by split]. unfold explored. cbn [andb].
    rewrite (proj2 (Z.leb_le _ _)) by lia. unfold grown, ready. cbn. rewrite app_nil_r.
    repeat split; try done; lia.
Qed.

Lemma count_candidate_spec k s : ready s ->
  exists s1, explored s s1 [] 1 (k + 1 <=? MAX_ISSUER_CANDIDATES)
    /\ count_candidate k s = (if budget_exceeded s1 then Err s1 else Ok (k + 1, s1))
    /\ (budget_exceeded s1 = false -> len (complete s1) < MAX_COMPLETE_PATHS).
Proof.
  intros Hr. unfold count_candidate. rewrite Z.ltb_antisym.
  destruct (k + 1 <=? MAX_ISSUER_CANDIDATES); cbn [negb]; [|by exists (mark_exceeded s)].
  destruct (count_step_spec s Hr) as (s1 & He & -> & Ec).
  destruct (budget_exceeded s1) eqn:E; cbn [negb].
  - exists (mark_exceeded s1). split; [|done]. unfold explored in *.
    destruct (true && _); [|done]. destruct He as ((Hb & _) & _). by rewrite E in Hb.
  - exists s1. rewrite E. split; [done|]. split; [done|]. intros _.
    unfold explored in He. destruct (true && _) eqn:El; [|by rewrite E in He]. bool_prop.
    destruct Hr as (_ & _ & Hl). rewrite Ec. unfold MAX_COMPLETE_PATHS. lia.
Qed.

Lemma push_spec s s1 n b :
  explored s s1 [] 1 n -> budget_exceeded s1 = false -> ready s ->
  let s2 := {| s1 with complete := complete s1 ++ [b] |} in
  explored s s2 [b] 1 n /\ ready s2 /\ n = true.
Proof.
  intros H E (_ & _ & Hl). cbn zeta. unfold explored in *.
  destruct (_ && _) eqn:Eb; [|by rewrite E in H]. bool_prop.
  destruct H as ((Hb & Hs & Hl1) & Ec & Es). rewrite app_nil_r in Ec.
  assert (ready {| s1 with complete := complete s1 ++ [b] |}).
  { unfold ready. cbn. rewrite len_app, len_cons, len_nil, Ec in *. repeat split; try done; lia. }
  split; [|done]. split; [done|]. cbn. by rewrite Ec.
Qed.

(** The first loop. *)
Lemma visit_anchors_spec child path l : forall index k s,
  ready s -> k <= MAX_ISSUER_CANDIDATES ->
  let m := indices (fun _ => issues child) index l in
  exists s', explored s s' (map (ending path) m) (len m) (k + len m <=? MAX_ISSUER_CANDIDATES)
    /\ visit_anchors child path index l k s
       = if budget_exceeded s' then Err s' else Ok (k + len m, s').
Proof.
  induction l as [|a l IH]; intros index k s Hr Hk; cbn [indices visit_anchors].
  { exists s. rewrite len_nil, Z.add_0_r, (proj1 Hr), (proj2 (Z.leb_le _ _)) by lia.
    split; [by apply explored_refl|done]. }
  replace (issues child a) with (issuer_name_matches child a && authority_key_matches child a) by done.
  destruct (issuer_name_matches child a); cbn [negb andb app]; [|by apply IH].
  destruct (authority_key_matches child a); cbn [negb andb app].
  2: { destruct (IH (S index) k (mark_mismatch s) Hr Hk) as (s' & He & Hv). by exists s'. }
  destruct (count_candidate_spec k s Hr) as (s1 & H1 & -> & Hlt).
  set (m := indices (fun _ => issues child) (S index) l). rewrite len_cons.
  destruct (budget_exceeded s1) eqn:E1.
  { exists s1. rewrite E1. split; [|done].
    assert (Hs : explored s s1 ([] ++ map (ending path) (index :: m)) (1 + len m)
              ((k + 1 <=? MAX_ISSUER_CANDIDATES) && (k + (1 + len m) <=? MAX_ISSUER_CANDIDATES))).
    { eapply explored_seq; [exact H1|apply len_nonneg|by rewrite E1]. }
    eapply explored_ext; [exact Hs|done|done|].
    pose proof (len_nonneg m). destruct (Z.leb_spec (k + (1 + len m)) MAX_ISSUER_CANDIDATES).
    - rewrite (proj2 (Z.leb_le _ _)) by lia. done.
    - by rewrite andb_false_r. }
  rewrite (proj2 (Z.leb_gt _ _) (Hlt eq_refl)).
  destruct (push_spec s s1 (k + 1 <=? MAX_ISSUER_CANDIDATES) (ending path index) H1 E1 Hr)
    as (H2 & R2 & Hn). fold m.
  set (s2 := {| s1 with complete := complete s1 ++ _ |}) in *. apply Z.leb_le in Hn.
  destruct (IH (S index) (k + 1) s2 R2 Hn) as (s' & He & Hv). fold m in He, Hv.
  exists s'. replace (k + (1 + len m)) with (k + 1 + len m) by lia. split; [|exact Hv].
  eapply explored_ext.
  - eapply (explored_seq _ s2 _ _ _ _ (len m)); [exact H2|apply len_nonneg|].
    rewrite (proj1 R2). intros _. exact He.
  - done.
  - done.
  - rewrite (proj2 (Z.leb_le _ _)) by lia. done.
Qed.

(** The second loop, for a recursive call that explores what [P], [C] and [N]
    say. *)
Lemma visit_parents_spec explore P C N current child path l : forall index k s,
  ready s -> k <= MAX_ISSUER_CANDIDATES -> (forall j, 0 <= C j) ->
  (forall j s, (index <= j < index + length l)%nat -> j ∉ path -> ready s ->
     exists s', explore j (path ++ [j]) s = Some s' /\ explored s s' (P j) (C j) (N j)) ->
  let m := indices (parent_test current child) index l in
  let u := unvisited path m in
  exists s', visit_parents explore current child path index l k s = Some s'
    /\ explored s s' (flat_map P u) (len m + sum_of C u)
         ((k + len m <=? MAX_ISSUER_CANDIDATES) && forallb N u).
Proof.
  induction l as [|p l IH]; intros index k s Hr Hk HC Hrec; cbn [indices visit_parents].
  { exists s. split; [done|]. cbn. replace (k + len (@nil nat)) with k by (rewrite len_nil; lia).
    rewrite (proj2 (Z.leb_le _ _)) by lia. by apply explored_refl. }
  assert (Hrec' : forall j s, (S index <= j < S index + length l)%nat -> j ∉ path -> ready s ->
    exists s', explore j (path ++ [j]) s = Some s' /\ explored s s' (P j) (C j) (N j)).
  { intros j s0 Hj. apply Hrec. cbn [length]. lia. }
  replace (parent_test current child index p) with (negb (Nat.eqb index current)
    && (issuer_name_matches child p && authority_key_matches child p)) by done.
  destruct (Nat.eqb index current); cbn [negb orb andb app]; [by apply IH|].
  destruct (issuer_name_matches child p); cbn [negb orb andb app]; [|by apply IH].
  destruct (authority_key_matches child p); cbn [negb andb app].
  2: { destruct (IH (S index) k (mark_mismatch s) Hr Hk HC Hrec') as (s' & Hv & He). by exists s'. }
  destruct (count_candidate_spec k s Hr) as (s1 & H1 & -> & _).
  set (m := indices (parent_test current child) (S index) l) in *.
  assert (Hnn : 0 <= len m + sum_of C (unvisited path m)).
  { pose proof (len_nonneg m). pose proof (sum_of_nonneg C (unvisited path m) HC). lia. }
  assert (Hmax : (k + 1 <=? MAX_ISSUER_CANDIDATES) && (k + 1 + len m <=? MAX_ISSUER_CANDIDATES)
                 = (k + len (index :: m) <=? MAX_ISSUER_CANDIDATES)).
  { rewrite len_cons. pose proof (len_nonneg m).
    destruct (Z.leb_spec (k + (1 + len m)) MAX_ISSUER_CANDIDATES).
    - by rewrite !(proj2 (Z.leb_le _ _)) by lia.
    - by rewrite andb_comm, (proj2 (Z.leb_gt _ _)) by lia. }
  set (v := unvisited path (index :: m)).
  assert (Hv : v = (if bool_decide (index ∈ path) then [] else [index]) ++ unvisited path m).
  { subst v. unfold unvisited. cbn [List.filter]. by case_bool_decide. }
  assert (Hvn : 0 <= sum_of C v) by (apply sum_of_nonneg, HC).
  assert (Hgo : (if budget_exceeded s1 then True else ready s1 /\ k + 1 <= MAX_ISSUER_CANDIDATES)).
  { destruct (budget_exceeded s1) eqn:E1; [done|]. unfold explored in H1.
    destruct (_ && _) eqn:Eb in H1; [|by rewrite E1 in H1]. bool_prop. by destruct H1. }
  assert (Hfin : forall s', (if budget_exceeded s1 then s' = s1
      else ready s1 -> explored s1 s' (flat_map P v) (len m + sum_of C v)
                         ((k + 1 + len m <=? MAX_ISSUER_CANDIDATES) && forallb N v)) ->
    explored s s' (flat_map P v) (len (index :: m) + sum_of C v)
      ((k + len (index :: m) <=? MAX_ISSUER_CANDIDATES) && forallb N v)).
  { intros s' H. eapply explored_ext.
    - eapply (explored_seq _ s1 _ [] _ 1 (len m + sum_of C v)); [exact H1| |exact H].
      pose proof (len_nonneg m). lia.
    - done.
    - rewrite len_cons. lia.
    - by rewrite andb_assoc, Hmax. }
  destruct (budget_exceeded s1) eqn:E1; [exists s1; split; [done|by apply Hfin]|].
  destruct Hgo as [R1 Hk1]. clear Hmax. case_bool_decide as Hin.
  - cbn [app] in Hv.
    destruct (IH (S index) (k + 1) (mark_loop s1) R1 Hk1 HC Hrec') as (s' & Hv' & He).
    exists s'. split; [exact Hv'|]. apply Hfin. intros _. rewrite Hv. exact He.
  - cbn [app] in Hv. destruct (Hrec index s1 ltac:(cbn; lia) Hin R1) as (s2 & -> & H2).
    set (u := unvisited path m) in *. subst v. rewrite Hv in *.
    assert (Hu : 0 <= len m + sum_of C u).
    { pose proof (len_nonneg m). pose proof (sum_of_nonneg C u HC). lia. }
    assert (Hmid : forall s', (if budget_exceeded s2 then s' = s2
        else ready s2 -> explored s2 s' (flat_map P u) (len m + sum_of C u)
                           ((k + 1 + len m <=? MAX_ISSUER_CANDIDATES) && forallb N u)) ->
      explored s s' (flat_map P (index :: u)) (len (index :: m) + sum_of C (index :: u))
        ((k + len (index :: m) <=? MAX_ISSUER_CANDIDATES) && forallb N (index :: u))).
    { intros s' H. apply Hfin. intros _. eapply explored_ext.
      - eapply (explored_seq _ s2 _ _ _ (C index) (len m + sum_of C u)); [exact H2|exact Hu|exact H].
      - done.
      - rewrite sum_of_cons. lia.
      - cbn [forallb]. by destruct (N index); cbn [andb]; rewrite ?andb_false_r. }
    destruct (budget_exceeded s2) eqn:E2.
    + exists s2. split; [done|]. by apply Hmid.
    + assert (R2 : ready s2).
      { unfold explored in H2. destruct (_ && _) in H2; [by destruct H2|by rewrite E2 in H2]. }
      destruct (IH (S index) (k + 1) s2 R2 Hk1 HC Hrec') as (s' & Hv' & He).
      exists s'. split; [exact Hv'|]. apply Hmid. intros _. exact He.
Qed.

(** The search, with fuel for the certificates that the path does not have. *)
Lemma explore_paths_spec fuel : forall path current s,
  NoDup path -> (forall i, i ∈ path -> (i < length supplied)%nat) -> (current < length supplied)%nat ->
  (length supplied < fuel + length path)%nat -> ready s ->
  exists s', explore_paths fuel supplied anchors current path s = Some s'
    /\ explored s s' (paths_from fuel path current) (cost_from fuel path current)
         (narrow_from fuel path current).
Proof.
  induction fuel as [|fuel IH]; intros path current s Hnd Hin Hcur Hf Hr.
  { exfalso. assert (length path <= length (seq 0 (length supplied)))%nat.
    { apply submseteq_length, NoDup_submseteq; [done|]. intros i Hi%Hin. apply elem_of_seq. lia. }
    rewrite length_seq in *. lia. }
  cbn [explore_paths paths_from cost_from narrow_from]. rewrite (proj1 Hr).
  destruct (count_step_spec s Hr) as (s1 & H1 & -> & _).
  destruct (lookup_lt_is_Some_2 supplied current Hcur) as [child Hc]. rewrite Hc.
  set (ma := anchors_above child). set (mp := parents_above current child).
  set (C := fun j => cost_from fuel (path ++ [j]) j). set (N := fun j => narrow_from fuel (path ++ [j]) j).
  set (P := fun j => paths_from fuel (path ++ [j]) j).
  assert (HC : forall j, 0 <= C j) by (intros j; apply cost_nonneg).
  assert (Hsum : 0 <= len mp + sum_of C (unvisited path mp)).
  { pose proof (len_nonneg mp). pose proof (sum_of_nonneg C (unvisited path mp) HC). lia. }
  pose proof (len_nonneg ma) as Hma. pose proof (len_nonneg mp) as Hmp.
  assert (Hall : forall s', (if budget_exceeded s1 then s' = s1
      else ready s1 -> explored s1 s' (map (ending path) ma ++ flat_map P (unvisited path mp))
        (len ma + (len mp + sum_of C (unvisited path mp)))
        ((0 + len ma <=? MAX_ISSUER_CANDIDATES)
         && ((0 + len ma + len mp <=? MAX_ISSUER_CANDIDATES) && forallb N (unvisited path mp)))) ->
    explored s s' (map (ending path) ma ++ flat_map P (unvisited path mp))
      (1 + width current child + sum_of C (unvisited path mp))
      ((width current child <=? MAX_ISSUER_CANDIDATES) && forallb N (unvisited path mp))).
  { intros s' H. eapply explored_ext.
    - eapply (explored_seq _ s1 _ [] _ 1 (len ma + (len mp + sum_of C (unvisited path mp))));
        [exact H1|lia|exact H].
    - done.
    - unfold width. fold ma mp. lia.
    - unfold width. fold ma mp. cbn [andb].
      destruct (Z.leb_spec (len ma + len mp) MAX_ISSUER_CANDIDATES).
      + by rewrite !(proj2 (Z.leb_le _ _)) by lia.
      + by rewrite (proj2 (Z.leb_gt (0 + len ma + len mp) _)), andb_false_r by lia. }
  destruct (budget_exceeded s1) eqn:E1; cbn [negb].
  { exists s1. split; [done|by apply Hall]. }
  assert (R1 : ready s1).
  { unfold explored in H1. destruct (_ && _) in H1; [by destruct H1|by rewrite E1 in H1]. }
  destruct (visit_anchors_spec child path anchors 0 0 s1 R1 ltac:(done)) as (s2 & H2 & ->).
  fold (anchors_above child) in *. fold ma in H2 |- *.
  assert (Hafter : forall s', (if budget_exceeded s2 then s' = s2
      else ready s2 -> explored s2 s' (flat_map P (unvisited path mp))
        (len mp + sum_of C (unvisited path mp))
        ((0 + len ma + len mp <=? MAX_ISSUER_CANDIDATES) && forallb N (unvisited path mp))) ->
    explored s s' (map (ending path) ma ++ flat_map P (unvisited path mp))
      (1 + width current child + sum_of C (unvisited path mp))
      ((width current child <=? MAX_ISSUER_CANDIDATES) && forallb N (unvisited path mp))).
  { intros s' H. apply Hall. intros _.
    eapply (explored_seq _ s2 _ _ _ (len ma)); [exact H2|exact Hsum|exact H]. }
  destruct (budget_exceeded s2) eqn:E2.
  { exists s2. split; [done|by apply Hafter]. }
  assert (R2 : ready s2 /\ 0 + len ma <= MAX_ISSUER_CANDIDATES).
  { unfold explored in H2. destruct (_ && _) eqn:Eb in H2; [|by rewrite E2 in H2]. bool_prop.
    by destruct H2. }
  destruct R2 as [R2 Hk].
  destruct (visit_parents_spec (explore_paths fuel supplied anchors) P C N current child path supplied
    0 (0 + len ma) s2 R2 Hk HC) as (s' & Hv & He).
  { intros j s0 Hj Hjp Hr0. apply IH; [| |lia| |done].
    - apply nodup_snoc; [done|exact Hjp].
    - intros i [Hi | ->%list_elem_of_singleton]%elem_of_app; [by apply Hin|lia].
    - rewrite length_app. cbn [length]. lia. }
  exists s'. split; [exact Hv|]. apply Hafter. intros _. exact He.
Qed.
End search.
(** ** The enumerated paths *)

Section paths.
Context (supplied anchors : list ParsedCert).

(** Each certificate is issued by the next one. *)
Fixpoint issued_along (current : nat) (ext : list nat) : Prop :=
  match ext with
  | [] => True
  | j :: ext =>
      (exists child parent, supplied !! current = Some child /\ supplied !! j = Some parent
         /\ issues child parent = true)
      /\ issued_along j ext
  end.

(** A path that starts at [leaf], visits no certificate twice, and ends below
    an anchor. *)
Definition certification_path (leaf : nat) (b : BuiltPath) : Prop :=
  exists ext child anchor,
    supplied_indices b = leaf :: ext /\ NoDup (leaf :: ext) /\ issued_along leaf ext
    /\ supplied !! List.last ext leaf = Some child /\ anchors !! anchor_index b = Some anchor
    /\ issues child anchor = true.

Lemma issued_along_lt current ext i :
  issued_along current ext -> i ∈ ext -> (i < length supplied)%nat.
Proof.
  revert current. induction ext as [|j ext IH]; intros current; cbn.
  { intros _ H. by apply elem_of_nil in H. }
  intros ((c & p & _ & Hj & _) & H) [-> | Hi]%elem_of_cons; [by eapply lookup_lt_Some|by eapply IH].
Qed.

Lemma elem_of_unvisited path ps j : j ∈ unvisited path ps <-> j ∈ ps /\ j ∉ path.
Proof.
  unfold unvisited. rewrite !list_elem_of_In, filter_In, negb_true_iff, bool_decide_eq_false.
  by rewrite (list_elem_of_In path).
Qed.

Lemma elem_of_anchors_above child a :
  a ∈ anchors_above anchors child <-> exists anchor, anchors !! a = Some anchor /\ issues child anchor = true.
Proof.
  unfold anchors_above. rewrite elem_of_indices. rewrite Nat.sub_0_r.
  split; [intros (x & _ & H)|intros (x & H)]; exists x; auto with lia.
Qed.

Lemma elem_of_parents_above current child j :
  j ∈ parents_above supplied current child <->
  exists parent, supplied !! j = Some parent /\ j <> current /\ issues child parent = true.
Proof.
  unfold parents_above. rewrite elem_of_indices. rewrite Nat.sub_0_r. unfold parent_test.
  split; intros (x & H).
  - destruct H as (_ & H & Ht). apply andb_true_iff in Ht as [Hn Ht].
    apply negb_true_iff, Nat.eqb_neq in Hn. by exists x.
  - destruct H as (H & Hn & Ht). exists x. split; [lia|]. split; [done|].
    by rewrite (proj2 (Nat.eqb_neq _ _) Hn), Ht.
Qed.

Lemma elem_of_paths_from fuel : forall path current b,
  current ∈ path -> NoDup path -> (forall i, i ∈ path -> (i < length supplied)%nat) ->
  (length supplied < fuel + length path)%nat ->
  b ∈ paths_from supplied anchors fuel path current <->
  exists ext child anchor, supplied_indices b = path ++ ext /\ NoDup (path ++ ext)
    /\ issued_along current ext
    /\ supplied !! List.last ext current = Some child /\ anchors !! anchor_index b = Some anchor
    /\ issues child anchor = true.
Proof.
  induction fuel as [|fuel IH]; intros path current b Hc Hnd Hin Hf.
  { exfalso. assert (length path <= length (seq 0 (length supplied)))%nat.
    { apply submseteq_length, NoDup_submseteq; [done|]. intros i Hi%Hin. apply elem_of_seq. lia. }
    rewrite length_seq in *. lia. }
  cbn [paths_from]. destruct (lookup_lt_is_Some_2 supplied current (Hin _ Hc)) as [child Hch].
  rewrite Hch, elem_of_app, elem_of_flat_map.
  assert (Hstep : forall j, j ∉ path -> (j < length supplied)%nat ->
    b ∈ paths_from supplied anchors fuel (path ++ [j]) j <->
    exists ext child anchor, supplied_indices b = (path ++ [j]) ++ ext /\ NoDup ((path ++ [j]) ++ ext)
    /\ issued_along j ext
    /\ supplied !! List.last ext j = Some child /\ anchors !! anchor_index b = Some anchor
    /\ issues child anchor = true).
  { intros j Hj Hlt. apply IH.
    - apply elem_of_app. right. by apply list_elem_of_singleton.
    - by apply nodup_snoc.
    - intros i [Hi | ->%list_elem_of_singleton]%elem_of_app; [by apply Hin|done].
    - rewrite length_app. cbn [length]. lia. }
  split.
  - intros [H|(j & Hj & H)].
    + apply list_elem_of_fmap in H as (a & -> & (anchor & Ha & Hi)%elem_of_anchors_above).
      exists [], child, anchor. rewrite app_nil_r. done.
    + apply elem_of_unvisited in Hj as [(p & Hp & Hne & Hi)%elem_of_parents_above Hnp].
      apply Hstep in H as (ext & c & an & E & Hn & Hl & H); [|done|by eapply lookup_lt_Some].
      rewrite <- app_assoc in E, Hn. exists (j :: ext), c, an.
      rewrite last_shift. destruct H as (H & Ha & Hia). cbn [issued_along]. split_and!; try done. by exists child, p.
  - intros (ext & c & an & E & Hn & Hl & Hlast & Ha & Hi). destruct ext as [|j ext].
    + left. apply list_elem_of_fmap. exists (anchor_index b). split.
      * destruct b as [ixs ai]. cbn in *. by rewrite E, app_nil_r.
      * apply elem_of_anchors_above. exists an. cbn in Hlast. by simplify_eq.
    + right. exists j. destruct Hl as ((c' & p & Hc' & Hp & Hip) & Hl).
      rewrite Hch in Hc'. injection Hc' as <-.
      assert (j ∉ path).
      { apply list.NoDup_app in Hn as (_ & Hd & _). intros Hj. apply (Hd j Hj). apply elem_of_cons. by left. }
      split.
      * apply elem_of_unvisited. split; [|done]. apply elem_of_parents_above. exists p.
        split_and!; try done. intros ->. done.
      * apply Hstep; [done|by eapply lookup_lt_Some|]. exists ext, c, an. rewrite <- app_assoc.
        rewrite last_shift in Hlast. split_and!; done.
Qed.

Lemma paths_from_prefix fuel : forall path current b,
  b ∈ paths_from supplied anchors fuel path current -> exists ext, supplied_indices b = path ++ ext.
Proof.
  induction fuel as [|fuel IH]; intros path current b; cbn [paths_from];
    [by rewrite elem_of_nil|]. destruct (supplied !! current) as [child|]; [|by rewrite elem_of_nil].
  rewrite elem_of_app, elem_of_flat_map. intros [H|(j & _ & (ext & E)%IH)].
  - apply list_elem_of_fmap in H as (a & -> & _). exists []. by rewrite app_nil_r.
  - exists ([j] ++ ext). by rewrite E, app_assoc.
Qed.

Lemma NoDup_paths_from fuel : forall path current, NoDup (paths_from supplied anchors fuel path current).
Proof.
  induction fuel as [|fuel IH]; intros path current; cbn [paths_from]; [constructor|].
  destruct (supplied !! current) as [child|]; [|constructor]. apply list.NoDup_app. split_and!.
  - apply NoDup_fmap_2; [|apply NoDup_indices]. by intros a a' [= ->].
  - intros b (a & -> & _)%list_elem_of_fmap (j & _ & (ext & E)%paths_from_prefix)%elem_of_flat_map.
    cbn in E. rewrite <- app_assoc in E. apply (f_equal length) in E.
    rewrite !length_app in E. cbn in E. lia.
  - apply NoDup_flat_map; [|done|].
    + unfold unvisited. apply NoDup_ListNoDup, List.NoDup_filter, NoDup_ListNoDup, NoDup_indices.
    + intros x y z _ _ (e & E)%paths_from_prefix (e' & E')%paths_from_prefix.
      rewrite E in E'. rewrite <- !app_assoc in E'. apply app_inv_head in E'. by injection E'.
Qed.
End paths.
