(* ===== verification/X509Valid.v ===== *)
(** * What a validated path is (crates/x509/src/lib.rs)

    The checks of [validate_built_path] as properties of the certificates, and
    [validate_path] as the choice of the one path that has them. *)

From stdpp Require Import gmap strings.
From S2P Require Import Prelude Utf8 X509 X509Path X509Search.

Open Scope Z_scope.
Open Scope rust_scope.

(** ** What a validated path is *)

Lemma require_Ok b why u : require b why = Ok u <-> b = true.
Proof. destruct b, u; done. Qed.

Lemma forbid_Ok o u : forbid o = Ok u <-> o = None.
Proof. destruct o, u; done. Qed.

(** The names of one form within the constraints of that form. *)
Definition form_within {N C} (canonical : N -> result N X509Error) (matches : N -> C -> bool)
    (permitted excluded : list C) (ns : list N) : Prop :=
  forall n, n ∈ ns -> exists n', canonical n = Ok n'
    /\ (forall c, c ∈ excluded -> matches n' c = false)
    /\ (permitted = [] \/ exists c, c ∈ permitted /\ matches n' c = true).

Definition names_within (ns : CertificateNames) (cs : ParsedNameConstraints) : Prop :=
  let within {N C} (canonical : N -> result N X509Error) matches get :=
    form_within canonical matches (omap get (permitted cs)) (omap (M := list) (B := C) get (excluded cs)) in
  within canonical_dns dns_constraint_matches dns_of (map as_bytes (dns ns))
  /\ within canonical_address email_constraint_matches email_of (map as_bytes (emails ns))
  /\ (omap uri_of (permitted cs) = [] /\ omap uri_of (excluded cs) = []
      \/ within canonical_host uri_constraint_matches uri_of (map as_bytes (uris ns)))
  /\ within canonical_ip ip_pair_matches ip_of (ips ns)
  /\ within Ok directory_constraint_matches directory_of (directories ns).

Section spec.
Context `{V : CertVerifier}.

Record sound_certificate (now : Z) (c : ParsedCert) : Prop := {
  same_algorithms : signature_algorithms_match (constraints c) = true;
  extensions_known : unsupported_critical_extension (constraints c) = false;
  names_parsed : name_constraints_error (constraints c) = None;
  policies_parsed : policy_error (policy (constraints c)) = None;
  key_valid : exists key, public_key_algorithm (constraints c) = Some key
    /\ validate_certificate_public_key key (public_key_raw c) = true;
  in_time : not_before c <= now <= not_after c;
}.

Definition signing_end_entity (c : ParsedCert) : Prop :=
  is_ca c = false /\ key_usage_present (constraints c) = true
  /\ digital_signature (constraints c) = true.

(** An authority, given the authorities below it on the path. *)
Record certifying_authority (below : list ParsedCert) (c : ParsedCert) : Prop := {
  authority_constraints : basic_constraints_present (constraints c) = true /\ is_ca c = true
    /\ basic_constraints_critical (constraints c) = true;
  authority_usage : key_usage_present (constraints c) = true /\ key_cert_sign (constraints c) = true;
  path_length : forall limit, path_len_constraint (constraints c) = Some limit ->
    len (List.filter (fun c => negb (self_issued c)) below) <= limit;
}.

Record issued_by (child parent : ParsedCert) : Prop := {
  names_chain : canonical_issuer (constraints child) = canonical_subject (constraints parent);
  keys_chain : authority_key_matches child parent = true;
  signed : exists key, public_key_algorithm (constraints parent) = Some key
    /\ signature_compatible_with_issuer (sig_alg child) key = true
    /\ verify_certificate (sig_alg child) (public_key_raw parent) (tbs_der child) (signature child) = true;
}.

(** A leaf, its issuers up to the anchor, and the policies that hold for the
    leaf. *)
Definition sound_path (now : Z) (path : list ParsedCert) (ps : PolicySet) : Prop :=
  exists leaf issuers, path = leaf :: issuers
    /\ Forall (sound_certificate now) path
    /\ signing_end_entity leaf
    /\ (forall i c, issuers !! i = Some c -> certifying_authority (take i issuers) c)
    /\ (forall i c cs j s, path !! i = Some c -> name_constraints (constraints c) = Some cs ->
          path !! j = Some s -> (j < i)%nat -> (j = 0%nat \/ self_issued s = false) ->
          names_within (names (constraints s)) cs)
    /\ validate_certificate_policies leaf issuers = Ok ps
    /\ (forall i child parent, path !! i = Some child -> path !! S i = Some parent ->
          issued_by child parent).

Lemma check_certificate_iff now c : check_certificate now c = Ok tt <-> sound_certificate now c.
Proof.
  unfold check_certificate. rewrite !bind_unit_Ok, !require_Ok, !forbid_Ok, negb_true_iff.
  destruct (public_key_algorithm (constraints c)) as [key|] eqn:E; cbn [ok_or].
  - rewrite bind_unit_Ok, !require_Ok, negb_true_iff, orb_false_iff, !Z.ltb_ge. split.
    + intros (? & ? & ? & ? & ? & ? & ?). split; try done. exists key. by rewrite E.
    + intros [? ? ? ? (k & Hk & Hv) ?]. rewrite E in Hk. injection Hk as <-. tauto.
  - split; [by intros (_ & _ & _ & _ & ?)|]. intros [_ _ _ _ (k & Hk & _) _]. congruence.
Qed.

Lemma each_iff (P : ParsedCert -> Prop) check l :
  (forall c, check c = Ok tt <-> P c) -> each check l = Ok tt <-> Forall P l.
Proof.
  intros H. induction l as [|c l IH]; cbn; [by split; [constructor|]|].
  by rewrite bind_unit_Ok, H, IH, Forall_cons_iff.
Qed.

Lemma check_leaf_iff c : check_leaf c = Ok tt <-> signing_end_entity c.
Proof.
  unfold check_leaf, signing_end_entity. by rewrite !bind_unit_Ok, !require_Ok, negb_true_iff.
Qed.

Lemma check_issuer_iff below c : check_issuer below c = Ok tt <-> certifying_authority below c.
Proof.
  unfold check_issuer. rewrite !bind_unit_Ok, !require_Ok, negb_true_iff, andb_true_iff.
  set (n := len _). split.
  - intros ((? & ?) & ? & ? & ? & Hl). split; [done|done|]. intros limit E. rewrite E in Hl. cbn in Hl.
    by apply Z.ltb_ge in Hl.
  - intros [(? & ? & ?) (? & ?) Hl]. split_and!; try done.
    destruct (path_len_constraint (constraints c)) as [l|]; [|done]. cbn. by apply Z.ltb_ge, Hl.
Qed.

Lemma check_issuers_iff issuers : forall below,
  check_issuers below issuers = Ok tt <->
  forall i c, issuers !! i = Some c -> certifying_authority (below ++ take i issuers) c.
Proof.
  induction issuers as [|a issuers IH]; intros below; cbn [check_issuers].
  { split; [|done]. intros _ i c H. by rewrite lookup_nil in H. }
  rewrite bind_unit_Ok, check_issuer_iff, IH. split.
  - intros [Ha H] [|i] c Hc; cbn in *; [injection Hc as <-; by rewrite app_nil_r|].
    specialize (H i c Hc). by rewrite <- app_assoc in H.
  - intros H. split; [specialize (H 0%nat a eq_refl); by rewrite app_nil_r in H|].
    intros i c Hc. specialize (H (S i) c Hc). by rewrite <- app_assoc.
Qed.

Lemma check_link_iff child parent : check_link child parent = Ok tt <-> issued_by child parent.
Proof.
  unfold check_link. rewrite !bind_unit_Ok, !require_Ok. unfold issuer_name_matches.
  rewrite bool_decide_eq_true.
  destruct (public_key_algorithm (constraints parent)) as [key|] eqn:E; cbn [ok_or].
  - rewrite bind_unit_Ok, !require_Ok. split.
    + intros (? & ? & ? & ?). split; try done. exists key. by rewrite E.
    + intros [? ? (k & Hk & ? & ?)]. rewrite E in Hk. injection Hk as <-. tauto.
  - split; [by intros (_ & _ & ?)|]. intros [_ _ (k & Hk & _)]. congruence.
Qed.

Lemma check_links_iff parents : forall child,
  check_links child parents = Ok tt <->
  forall i c p, (child :: parents) !! i = Some c -> (child :: parents) !! S i = Some p -> issued_by c p.
Proof.
  induction parents as [|p parents IH]; intros child; cbn [check_links].
  { split; [|done]. intros _ i c p _ H. by rewrite lookup_cons, lookup_nil in H. }
  rewrite bind_unit_Ok, check_link_iff, IH. split.
  - intros [Hl H] [|i] c q Hc Hq; [cbn in *; by simplify_eq|]. by apply (H i).
  - intros H. split; [by apply (H 0%nat)|]. intros i c q Hc Hq. by apply (H (S i)).
Qed.
End spec.

Lemma check_names_iff {N C} canonical matches (permitted excluded : list C) (ns : list N) :
  check_names canonical matches permitted excluded ns = Ok tt
  <-> form_within canonical matches permitted excluded ns.
Proof.
  unfold form_within. induction ns as [|n ns IH]; cbn [check_names].
  { split; [|done]. intros _ n H. by apply elem_of_nil in H. }
  rewrite bind_unit_Ok, IH. setoid_rewrite elem_of_cons.
  assert (check_name canonical matches permitted excluded n = Ok tt <->
    exists n', canonical n = Ok n' /\ (forall c, c ∈ excluded -> matches n' c = false)
    /\ (permitted = [] \/ exists c, c ∈ permitted /\ matches n' c = true)) as ->.
  { unfold check_name. destruct (canonical n) as [n'|]; [|by split; [|intros (? & ? & _)]].
    assert (He : forall l, existsb (matches n') l = true <-> exists c, c ∈ l /\ matches n' c = true).
    { intros l. rewrite existsb_exists. by setoid_rewrite list_elem_of_In. }
    destruct (existsb (matches n') excluded) eqn:Ex.
    { split; [done|]. intros (n0 & [= <-] & H & _). apply He in Ex as (c & Hc & Hm).
      by rewrite H in Hm. }
    assert (Hx : forall c, c ∈ excluded -> matches n' c = false).
    { intros c Hc. destruct (matches n' c) eqn:Em; [|done]. rewrite <- Ex.
      symmetry. apply He. eauto. }
    destruct permitted as [|p permitted]; cbn [is_empty negb andb].
    { split; [|done]. intros _. exists n'. auto. }
    destruct (existsb (matches n') (p :: permitted)) eqn:Ep; cbn [negb].
    - split; [|done]. intros _. exists n'. split; [done|]. split; [done|]. right. by apply He.
    - split; [done|]. intros (n0 & [= <-] & _ & [? | H%He]); [done|congruence]. }
  split; [intros [H1 H2] m [-> | Hm]; auto|]. intros H. split; auto.
Qed.

Lemma enforce_name_constraints_iff ns cs :
  enforce_name_constraints ns cs = Ok tt <-> names_within ns cs.
Proof.
  unfold enforce_name_constraints, on_form, names_within. rewrite !bind_unit_Ok, !check_names_iff.
  assert ((if is_empty (omap uri_of (permitted cs)) && is_empty (omap uri_of (excluded cs)) then Ok tt
           else check_names canonical_host uri_constraint_matches (omap uri_of (permitted cs))
                  (omap uri_of (excluded cs)) (map as_bytes (uris ns))) = Ok tt <->
    omap uri_of (permitted cs) = [] /\ omap uri_of (excluded cs) = []
    \/ form_within canonical_host uri_constraint_matches (omap uri_of (permitted cs))
         (omap uri_of (excluded cs)) (map as_bytes (uris ns))) as ->; [|done].
  destruct (omap uri_of (permitted cs)), (omap uri_of (excluded cs)); cbn [is_empty andb];
    rewrite ?check_names_iff; intuition done.
Qed.

Lemma constrain_subjects_iff cs subjects : forall k,
  constrain_subjects cs k subjects = Ok tt <->
  forall j s, subjects !! j = Some s -> (k + j = 0)%nat \/ self_issued s = false ->
    names_within (names (constraints s)) cs.
Proof.
  induction subjects as [|a subjects IH]; intros k; cbn [constrain_subjects].
  { split; [|done]. intros _ j s H. by rewrite lookup_nil in H. }
  rewrite bind_unit_Ok, IH.
  assert ((if negb (Nat.eqb k 0) && self_issued a then Ok tt
           else enforce_name_constraints (names (constraints a)) cs) = Ok tt <->
          (k = 0%nat \/ self_issued a = false -> names_within (names (constraints a)) cs)) as ->.
  { rewrite <- enforce_name_constraints_iff. destruct (Nat.eqb_spec k 0), (self_issued a);
      cbn [negb andb]; intuition done. }
  split.
  - intros [H1 H2] [|j] s Hs Hor; cbn in Hs; [injection Hs as <-; apply H1; by rewrite Nat.add_0_r in Hor|].
    apply (H2 j s Hs). by rewrite Nat.add_succ_comm.
  - intros H. split; [intros Hor; apply (H 0%nat a eq_refl); by rewrite Nat.add_0_r|].
    intros j s Hs Hor. apply (H (S j) s Hs). by rewrite Nat.add_succ_r.
Qed.

Lemma constrain_path_iff issuers : forall below,
  constrain_path below issuers = Ok tt <->
  forall i c cs j s, issuers !! i = Some c -> name_constraints (constraints c) = Some cs ->
    (below ++ take i issuers) !! j = Some s -> j = 0%nat \/ self_issued s = false ->
    names_within (names (constraints s)) cs.
Proof.
  induction issuers as [|a issuers IH]; intros below; cbn [constrain_path].
  { split; [|done]. intros _ i c cs j s H. by rewrite lookup_nil in H. }
  rewrite bind_unit_Ok, IH. split.
  - intros [H1 H2] [|i] c cs j s Hc Hcs Hs Hor; cbn in Hc.
    + injection Hc as <-. rewrite Hcs, constrain_subjects_iff in H1. cbn in Hs. rewrite app_nil_r in Hs.
      by apply (H1 j).
    + apply (H2 i c cs j s Hc Hcs); [|done]. by rewrite <- app_assoc.
  - intros H. split.
    + destruct (name_constraints (constraints a)) as [cs|] eqn:E; [|done].
      apply constrain_subjects_iff. intros j s Hs Hor. apply (H 0%nat a cs j s); try done.
      cbn. by rewrite app_nil_r.
    + intros i c cs j s Hc Hcs Hs Hor. apply (H (S i) c cs j s Hc Hcs); [|done].
      cbn. by rewrite <- app_assoc in Hs.
Qed.

Section exact.
Context `{V : CertVerifier}.

Lemma validate_built_path_iff path now ps :
  validate_built_path path now = Ok ps <-> sound_path now path ps.
Proof.
  unfold validate_built_path, sound_path. destruct path as [|leaf issuers].
  { split; [done|]. by intros (l & i & ? & _). }
  set (path := leaf :: issuers).
  assert (forall (a : result unit X509Error) b, (let? _ := a in b) = Ok ps <-> a = Ok tt /\ b = Ok ps) as Hu.
  { intros [[]|] b; split; [by intros ->|by intros [_ ->]|done|by intros [? _]]. }
  rewrite !Hu, (each_iff (sound_certificate now)), check_leaf_iff, check_issuers_iff
    by apply check_certificate_iff.
  assert (Hn : validate_name_constraints path = Ok tt <->
    forall i c cs j s, path !! i = Some c -> name_constraints (constraints c) = Some cs ->
      path !! j = Some s -> (j < i)%nat -> j = 0%nat \/ self_issued s = false ->
      names_within (names (constraints s)) cs).
  { unfold validate_name_constraints, path. cbn [take drop]. rewrite take_0, constrain_path_iff. split.
    - intros H [|i] c cs j s Hc Hcs Hs Hj Hor; [lia|]. apply (H i c cs j s Hc Hcs); [|done].
      destruct j as [|j]; [done|].
      change (take i issuers !! j = Some s). change (issuers !! j = Some s) in Hs.
      by rewrite lookup_take_lt by lia.
    - intros H i c cs [|j] s Hc Hcs Hs Hor; [eapply (H (S i) c cs 0%nat); try done; lia|].
      change (take i issuers !! j = Some s) in Hs. apply lookup_take_Some in Hs as [Hs Hlt].
      eapply (H (S i) c cs (S j)); try done; lia. }
  rewrite Hn. cbn [app].
  assert ((let? e := validate_certificate_policies leaf issuers in
           let? _ := check_links leaf issuers in Ok e) = Ok ps <->
          validate_certificate_policies leaf issuers = Ok ps /\ check_links leaf issuers = Ok tt) as ->.
  { destruct (validate_certificate_policies leaf issuers) as [e|]; [|split; [done|by intros [? _]]].
    destruct (check_links leaf issuers) as [[]|]; split; congruence || (by intros [? ?]) || idtac.
    - intros [= ->]. done. }
  rewrite check_links_iff. split.
  - intros (H1 & H2 & H3 & H4 & H5 & H6). by exists leaf, issuers.
  - intros (l & iss & [= <- <-] & H). tauto.
Qed.

(** The candidates that are valid, as they are returned. *)
Definition valid_candidates (now : Z) (candidates : list (list ParsedCert)) : list (list ParsedCert) :=
  omap (fun c => match validate_built_path c now with
                 | Ok ps => Some (set_leaf_policies ps c)
                 | Err _ => None
                 end) candidates.

Lemma select_path_spec now candidates : forall v e,
  match option_list v ++ valid_candidates now candidates with
  | [] => exists e', select_path candidates now v e = Ok (None, e')
  | [path] => exists e', select_path candidates now v e = Ok (Some path, e')
  | _ => exists e', select_path candidates now v e = Err e'
  end.
Proof.
  unfold valid_candidates. induction candidates as [|c candidates IH]; intros v e; cbn [select_path].
  { destruct v; cbn; by exists e. }
  rewrite omap_step.
  destruct (validate_built_path c now) as [ps|err].
  - destruct v as [path|]; cbn [is_none is_some negb option_list app].
    + by eexists.
    + exact (IH (Some (set_leaf_policies ps c)) e).
  - exact (IH v _).
Qed.

Lemma select_path_Some now candidates path :
  (exists e', select_path candidates now None None = Ok (Some path, e'))
  <-> valid_candidates now candidates = [path].
Proof.
  pose proof (select_path_spec now candidates None None) as H. cbn [option_list app] in H.
  destruct (valid_candidates now candidates) as [|p [|q l]]; destruct H as [e0 H];
    (split; [intros [e' E]; congruence|intros E]); try done.
  injection E as ->. by exists e0.
Qed.

Lemma In_enumerate {A} (l : list A) i x : In (i, x) (enumerate l) <-> l !! i = Some x.
Proof.
  unfold enumerate. rewrite <- list_elem_of_In, list_elem_of_lookup. split.
  - intros [k Hk]. apply lookup_zip_Some in Hk as [H1 H2]. apply lookup_seq in H1 as [-> _].
    by rewrite Nat.add_0_l in *.
  - intros H. exists i. apply lookup_zip_Some. split; [|done].
    apply lookup_seq. split; [done|]. by eapply lookup_lt_Some.
Qed.

Lemma NoDup_fst_enumerate {A} (test : nat * A -> bool) (l : list A) :
  NoDup (map fst (List.filter test (enumerate l))).
Proof.
  apply NoDup_ListNoDup. unfold enumerate.
  assert (forall k (l : list A), List.NoDup (map fst (List.filter test (zip (seq k (length l)) l)))
    /\ forall i, In i (map fst (List.filter test (zip (seq k (length l)) l))) -> (k <= i)%nat) as H;
    [|apply H].
  clear l. intros k l. revert k. induction l as [|x l IH]; intros k; cbn.
  { split; [constructor|done]. }
  destruct (IH (S k)) as [H1 H2]. destruct (test (k, x)); cbn.
  - split; [constructor; [intros H%H2; lia|done]|]. intros i [<- | H%H2]; lia.
  - split; [done|]. intros i H%H2. lia.
Qed.

(** A certificate that issues no other one of the bundle. *)
Definition is_leaf (supplied : list ParsedCert) (i : nat) : Prop :=
  exists c, supplied !! i = Some c /\ forall j child, supplied !! j = Some child -> j <> i ->
    canonical_issuer (constraints child) <> canonical_subject (constraints c).

Lemma elem_of_leaves supplied i : i ∈ leaves supplied <-> is_leaf supplied i.
Proof.
  unfold leaves. rewrite list_elem_of_In, in_map_iff. split.
  - intros ((k & c) & E & [Hin Hp]%filter_In). cbn in E. subst k. apply In_enumerate in Hin. exists c. split; [done|].
    intros j child Hj Hne E'. apply negb_true_iff in Hp. unfold is_parent in Hp.
    assert (existsb (fun '(ci, ch) => negb (Nat.eqb ci i) && issuer_name_matches ch c)
              (enumerate supplied) = true); [|congruence].
    apply existsb_exists. exists (j, child). split; [by apply In_enumerate|].
    rewrite (proj2 (Nat.eqb_neq _ _) Hne). cbn. unfold issuer_name_matches. by rewrite bool_decide_true.
  - intros (c & Hc & Hno). exists (i, c). split; [done|]. apply filter_In.
    split; [by apply In_enumerate|]. apply negb_true_iff. unfold is_parent.
    apply not_true_iff_false. intros ((j & child) & Hj%In_enumerate & Ht)%existsb_exists.
    apply andb_true_iff in Ht as [Hne Hm]. apply negb_true_iff, Nat.eqb_neq in Hne.
    unfold issuer_name_matches in Hm. apply bool_decide_eq_true in Hm. by apply (Hno j child).
Qed.

Lemma leaves_singleton supplied leaf :
  leaves supplied = [leaf] <-> forall i, is_leaf supplied i <-> i = leaf.
Proof.
  split.
  - intros E i. rewrite <- elem_of_leaves, E. apply list_elem_of_singleton.
  - intros H. assert (Hl : forall i, i ∈ leaves supplied <-> i = leaf)
      by (intros i; by rewrite elem_of_leaves).
    pose proof (NoDup_fst_enumerate (fun '(i, c) => negb (is_parent supplied i c)) supplied) as Hn.
    fold (leaves supplied) in Hn.
    destruct (leaves supplied) as [|i [|j l]].
    + exfalso. assert (leaf ∈ @nil nat) by by apply Hl. by eapply elem_of_nil.
    + f_equal. apply Hl. apply elem_of_cons. by left.
    + exfalso. assert (i = leaf) by (apply Hl, elem_of_cons; by left).
      assert (j = leaf) by (apply Hl; rewrite !elem_of_cons; auto).
      subst. apply list.NoDup_cons in Hn as [Hn _]. apply Hn, elem_of_cons. by left.
Qed.

(** The search stays within its budgets. *)
Definition affordable (supplied anchors : list ParsedCert) (leaf : nat) : Prop :=
  let fuel := S (length supplied) in
  narrow_from supplied anchors fuel [leaf] leaf = true
  /\ cost_from supplied anchors fuel [leaf] leaf <= MAX_PATH_BUILD_STEPS.

Lemma search_paths_iff supplied anchors now path :
  search_paths supplied anchors now = Ok path <->
  exists leaf b certs ps,
    (forall i, is_leaf supplied i <-> i = leaf) /\ affordable supplied anchors leaf
    /\ certification_path supplied anchors leaf b /\ build supplied anchors b = Some certs
    /\ sound_path now certs ps /\ path = set_leaf_policies ps certs
    /\ forall b' certs' ps', certification_path supplied anchors leaf b' ->
         build supplied anchors b' = Some certs' -> sound_path now certs' ps' -> b' = b.
Proof.
  unfold search_paths.
  assert (Hone : leaves supplied = [] \/ (exists leaf, leaves supplied = [leaf])
    \/ exists i j l, leaves supplied = i :: j :: l).
  { destruct (leaves supplied) as [|i [|j l]]; eauto 6. }
  assert (Hno : (forall leaf, leaves supplied <> [leaf]) ->
    ~ exists leaf b certs ps, (forall i, is_leaf supplied i <-> i = leaf)
      /\ affordable supplied anchors leaf
      /\ certification_path supplied anchors leaf b /\ build supplied anchors b = Some certs
      /\ sound_path now certs ps /\ path = set_leaf_policies ps certs
      /\ forall b' certs' ps', certification_path supplied anchors leaf b' ->
         build supplied anchors b' = Some certs' -> sound_path now certs' ps' -> b' = b).
  { intros H (leaf & b & certs & ps & Hl & _). by apply (H leaf), leaves_singleton. }
  destruct Hone as [E | [(leaf & E) | (i & j & l & E)]]; rewrite E.
  1, 3: (split; [done|intros H; exfalso; revert H; apply Hno; intros leaf; rewrite E; discriminate]).
  pose proof (proj1 (leaves_singleton supplied leaf) E) as Hl.
  assert (Hlt : (leaf < length supplied)%nat).
  { destruct (proj2 (Hl leaf) eq_refl) as (c & Hc & _). by eapply lookup_lt_Some. }
  assert (Hmem : forall b, b ∈ paths_from supplied anchors (S (length supplied)) [leaf] leaf
                   <-> certification_path supplied anchors leaf b).
  { intros b. unfold certification_path. rewrite elem_of_paths_from; [done| | | |cbn; lia].
    - by apply list_elem_of_singleton.
    - by apply list.NoDup_singleton.
    - by intros i ->%list_elem_of_singleton. }
  destruct (explore_paths_spec supplied anchors (S (length supplied)) [leaf] leaf new_search)
    as (search & -> & He).
  { by apply list.NoDup_singleton. }
  { by intros i ->%list_elem_of_singleton. }
  { done. }
  { cbn. lia. }
  { by unfold ready, new_search. }
  unfold explored in He.
  destruct (narrow_from _ _ _ _ _ && _) eqn:Eb.
  2: { rewrite He. split; [done|]. intros (leaf' & b & certs & ps & Hl' & [Hn Hc] & _).
       assert (leaf' = leaf) as -> by exact (proj1 (Hl leaf') (proj2 (Hl' leaf') eq_refl)).
       apply andb_false_iff in Eb as [Eb|Eb]; [congruence|]. apply Z.leb_gt in Eb. cbn in Eb. cbn in Hc.
       lia. }
  apply andb_true_iff in Eb as [Hnar Hcost%Z.leb_le]. destruct He as ((Hb & _ & _) & Hcom & _).
  rewrite Hb, Hcom. cbn [complete new_search app].
  set (paths := paths_from supplied anchors (S (length supplied)) [leaf] leaf) in *.
  assert (Hsel : (let? (valid_path, e) := select_path (omap (build supplied anchors) paths) now None None in
                  conclude valid_path e search) = Ok path
                 <-> valid_candidates now (omap (build supplied anchors) paths) = [path]).
  { rewrite <- select_path_Some.
    destruct (select_path _ now None None) as [[[p|] e]|err].
    - cbn. split; [intros [= ->]; by exists e|intros [e' [= -> _]]; done].
    - split; [|by intros [e' ?]]. cbn. repeat case_match; done.
    - split; [done|by intros [e' ?]]. }
  rewrite Hsel. unfold valid_candidates. rewrite omap_omap.
  rewrite omap_singleton by apply NoDup_paths_from. split.
  - intros (b & Hbp & Hf & Hu). destruct (build supplied anchors b) as [certs|] eqn:Ebd; [|done].
    destruct (validate_built_path certs now) as [ps|] eqn:Ev; [|done]. injection Hf as <-.
    exists leaf, b, certs, ps. split_and!; try done; [by apply Hmem|by apply validate_built_path_iff|].
    intros b' certs' ps' Hb'%Hmem Ebd' Hs'%validate_built_path_iff.
    eapply Hu; [done|]. by rewrite Ebd', Hs'.
  - intros (leaf' & b & certs & ps & Hl' & _ & Hbp & Ebd & Hs & -> & Hu).
    assert (leaf' = leaf) as -> by exact (proj1 (Hl leaf') (proj2 (Hl' leaf') eq_refl)).
    exists b. split; [by apply Hmem|]. split.
    + rewrite Ebd. by apply validate_built_path_iff in Hs as ->.
    + intros b' y' Hb'%Hmem Hf. destruct (build supplied anchors b') as [certs'|] eqn:Ebd'; [|done].
      destruct (validate_built_path certs' now) as [ps'|] eqn:Ev'; [|done].
      eapply Hu; [done|done|by apply validate_built_path_iff].
Qed.


Context `{X : X509Der}.

Lemma repeats_iff {A B} `{EqDecision B} (f : A -> B) eqb l : (forall x y, eqb x y = bool_decide (f x = f y)) ->
  forall seen, repeats eqb seen l = false <->
    NoDup (map f l) /\ forall x y, x ∈ seen -> y ∈ l -> f x <> f y.
Proof.
  intros He. induction l as [|a l IH]; intros seen; cbn [repeats map].
  { split; [|done]. intros _. split; [constructor|]. intros x y _ H. by apply elem_of_nil in H. }
  rewrite orb_false_iff, IH, list.NoDup_cons.
  assert (existsb (fun prior => eqb prior a) seen = false <-> forall x, x ∈ seen -> f x <> f a) as ->.
  { rewrite <- not_true_iff_false, existsb_exists. split.
    - intros H x Hx E. apply H. exists x. rewrite <- list_elem_of_In, He, bool_decide_eq_true. done.
    - intros H (x & Hx%list_elem_of_In & E). rewrite He, bool_decide_eq_true in E. by apply (H x). }
  setoid_rewrite elem_of_app. setoid_rewrite list_elem_of_singleton. setoid_rewrite elem_of_cons.
  split.
  - intros (H1 & H2 & H3). split_and!; try done.
    + intros (y & E & Hy)%list_elem_of_fmap. by apply (H3 a y); auto.
    + intros x y Hx [-> | Hy]; auto.
  - intros ((H1 & H2) & H3). split_and!; try done; [auto|].
    intros x y [Hx | ->] Hy; [auto|]. intros E. apply H1, list_elem_of_fmap. eauto.
Qed.

Lemma parse_certs_iff chain_der cs :
  parse_certs chain_der = Ok cs <-> Forall2 (fun der c => parse_cert der = Ok c) chain_der cs.
Proof.
  revert cs. induction chain_der as [|der chain_der IH]; intros cs; cbn [parse_certs].
  { split; [intros [= <-]; constructor|intros H; by inversion H]. }
  destruct (parse_cert der) as [c|] eqn:E.
  - destruct (parse_certs chain_der) as [l|].
    + split.
      * intros [= <-]. constructor; [done|]. by apply IH.
      * intros H. inversion H as [|? c' ? l' Hc Hl]; subst. apply IH in Hl. congruence.
    + split; [done|]. intros H. inversion H as [|? c' ? l' Hc Hl]; subst. apply IH in Hl. done.
  - split; [done|]. intros H. inversion H; congruence.
Qed.

(** What [certificate_eq] compares. *)
Definition cert_id (c : ParsedCert) : bytes * bytes := (tbs_der c, signature c).

Lemma certificate_eq_spec a b : certificate_eq a b = bool_decide (cert_id a = cert_id b).
Proof.
  unfold certificate_eq, cert_id. destruct (decide (tbs_der a = tbs_der b)) as [E|E].
  - rewrite bool_decide_true by done. rewrite E. cbn [andb]. apply bool_decide_ext. split; congruence.
  - rewrite bool_decide_false by done. symmetry. apply bool_decide_false. congruence.
Qed.

(** The bundle as it is searched: a bounded set of distinct certificates, in
    the order of their bytes, none of which is one of the distinct anchors. *)
Record bundle (chain_der : list bytes) (trust_anchors supplied : list ParsedCert) : Prop := {
  chain_size : 0 < len chain_der <= MAX_SUPPLIED_CERTIFICATES;
  anchors_size : 0 < len trust_anchors <= MAX_TRUST_ANCHORS;
  chain_distinct : NoDup chain_der;
  anchors_distinct : NoDup (map cert_id trust_anchors);
  chain_parsed : exists cs, Forall2 (fun der c => parse_cert der = Ok c) chain_der cs
    /\ supplied = sort_with cert_cmp cs;
  no_anchor_supplied : forall c a, c ∈ supplied -> a ∈ trust_anchors -> cert_id c <> cert_id a;
}.

Lemma validate_path_bundle chain_der trust_anchors now path :
  validate_path chain_der trust_anchors now = Ok path <->
  exists supplied, bundle chain_der trust_anchors supplied
    /\ search_paths supplied (sort_with cert_cmp trust_anchors) now = Ok path.
Proof.
  unfold validate_path. split.
  - destruct (is_empty chain_der) eqn:E1; [done|].
    destruct (_ || _) eqn:E2; [done|]. destruct (is_empty trust_anchors) eqn:E3; [done|].
    destruct (repeats _ [] chain_der) eqn:E4; [done|].
    destruct (repeats _ [] trust_anchors) eqn:E5; [done|].
    destruct (parse_certs chain_der) as [cs|] eqn:E6; [|done].
    destruct (existsb _ _) eqn:E7; [done|]. intros Hs. exists (sort_with cert_cmp cs). split; [|done].
    bool_prop. apply is_empty_len in E1, E3.
    apply (repeats_iff id) in E4 as [E4 _]; [|done].
    apply (repeats_iff cert_id) in E5 as [E5 _]; [|apply certificate_eq_spec].
    apply parse_certs_iff in E6. split; try done.
    + by rewrite map_id in E4.
    + by exists cs.
    + intros c a Hc Ha E. apply not_true_iff_false in E7. apply E7.
      apply existsb_exists. exists c. split; [by apply list_elem_of_In|].
      apply existsb_exists. exists a. rewrite certificate_eq_spec, bool_decide_true by done.
      split; [|done]. apply list_elem_of_In. by rewrite sort_with_perm.
  - intros (s & [H1 H2 H3 H4 (cs & H5 & ->) H6] & Hs).
    rewrite (proj2 (is_empty_len _)) by lia. rewrite !(proj2 (Z.ltb_ge _ _)) by lia. cbn [orb].
    rewrite (proj2 (is_empty_len trust_anchors)) by lia.
    rewrite (proj2 (repeats_iff id _ chain_der (fun x y => eq_refl) []))
      by (rewrite map_id; split; [done|by intros ? ? ?%elem_of_nil]).
    rewrite (proj2 (repeats_iff cert_id _ trust_anchors certificate_eq_spec []))
      by (split; [done|by intros ? ? ?%elem_of_nil]).
    rewrite (proj2 (parse_certs_iff _ _) H5).
    destruct (existsb _ _) eqn:E7; [|done]. exfalso.
    apply existsb_exists in E7 as (c & Hc%list_elem_of_In & E7).
    apply existsb_exists in E7 as (a & Ha%list_elem_of_In & E7).
    rewrite certificate_eq_spec, bool_decide_eq_true in E7. rewrite sort_with_perm in Ha.
    by apply (H6 c a).
Qed.

(** C24: [validate_path] returns the one valid certification path, if there is
    exactly one.  From a bounded bundle of distinct certificates that holds no
    trust anchor and has a single leaf, it returns a path exactly when that is
    the leaf, its issuers and an anchor, every certificate in its time and
    within its profile, every authority a certification authority whose path
    length is respected, every name within the name constraints above it, every
    signature verified by the key above it, and no other path of the bundle
    passes the same checks.  The leaf carries the policies that are valid for
    the path. *)
Theorem validate_path_exact chain_der trust_anchors now path :
  validate_path chain_der trust_anchors now = Ok path <->
  exists supplied leaf b certs ps,
    let anchors := sort_with cert_cmp trust_anchors in
    bundle chain_der trust_anchors supplied
    /\ (forall i, is_leaf supplied i <-> i = leaf) /\ affordable supplied anchors leaf
    /\ certification_path supplied anchors leaf b /\ build supplied anchors b = Some certs
    /\ sound_path now certs ps /\ path = set_leaf_policies ps certs
    /\ forall b' certs' ps', certification_path supplied anchors leaf b' ->
         build supplied anchors b' = Some certs' -> sound_path now certs' ps' -> b' = b.
Proof.
  assert (Hsp : forall supplied, (exists leaf b certs ps, let anchors := sort_with cert_cmp trust_anchors in
     bundle chain_der trust_anchors supplied
    /\ (forall i, is_leaf supplied i <-> i = leaf) /\ affordable supplied anchors leaf
    /\ certification_path supplied anchors leaf b /\ build supplied anchors b = Some certs
    /\ sound_path now certs ps /\ path = set_leaf_policies ps certs
    /\ forall b' certs' ps', certification_path supplied anchors leaf b' ->
         build supplied anchors b' = Some certs' -> sound_path now certs' ps' -> b' = b)
    <-> bundle chain_der trust_anchors supplied
        /\ search_paths supplied (sort_with cert_cmp trust_anchors) now = Ok path).
  { intros supplied. rewrite search_paths_iff. split.
    - intros (leaf & b & certs & ps & Hb & H). split; [done|]. by exists leaf, b, certs, ps.
    - intros (Hb & leaf & b & certs & ps & H). by exists leaf, b, certs, ps. }
  rewrite validate_path_bundle. split; intros (s & H); exists s; by apply Hsp.
Qed.
End exact.
