(* ===== verification/X509Profiles.v ===== *)
(** * Issuer identities, policies and profiles (crates/x509/src/lib.rs)

    The grammar of an issuer identity, what the valid policies of a path mean,
    and the two profiles above path validation, with sample bundles. *)

From stdpp Require Import gmap strings.
From S2P Require Import Prelude Utf8 X509 X509Path X509Search X509Valid.

Open Scope Z_scope.
Open Scope rust_scope.

(** ** The issuer identity *)

(** [rsplit_once] on a text with at most one separator. *)
Lemma rsplit_once_free c bs : free_of c bs = true -> rsplit_once c bs = None.
Proof. intros H. unfold rsplit_once. by rewrite split_byte_free. Qed.

Lemma rsplit_once_pair c a b :
  free_of c a = true -> free_of c b = true -> rsplit_once c (a ++ c :: b) = Some (a, b).
Proof. intros Ha Hb. unfold rsplit_once. by rewrite split_byte_app, (split_byte_free c b). Qed.

Lemma at_most_one c bs : count_byte c bs <= 1 ->
  free_of c bs = true \/ exists a b, bs = a ++ c :: b /\ free_of c a = true /\ free_of c b = true.
Proof.
  intros H. pose proof (join_split c bs) as J. pose proof (split_free c bs) as F.
  pose proof (len_split c bs) as L. destruct (split_byte c bs) as [|a [|b [|d l]]] eqn:E.
  - destruct (split_byte_cons c bs) as (p & ps & Ep). congruence.
  - left. apply free_count. rewrite len_cons, len_nil in L. lia.
  - right. exists a, b. cbn [join_byte] in J. inversion F as [|? ? Ha F']; subst.
    inversion F'; subst. done.
  - exfalso. rewrite !len_cons in L. pose proof (len_nonneg l). lia.
Qed.

(** A lower-case label of letters, digits and inner hyphens. *)
Definition dns_label (l : bytes) : Prop :=
  0 < len l <= 63
  /\ Forall (fun b => is_ascii_lower b || is_ascii_digit b || Byte.eqb b HYPHEN = true) l
  /\ List.hd_error l <> Some HYPHEN /\ List.hd_error (rev l) <> Some HYPHEN.

(** A port as [str::parse::<u16>] reads it, which takes a plus sign. *)
Definition port_number (port : bytes) : Prop :=
  exists digits, (port = digits \/ port = Byte.x2b :: digits)
    /\ digits <> [] /\ Forall (fun b => is_ascii_digit b = true) digits
    /\ (1 < len port -> List.hd_error port <> Some Byte.x30)
    /\ digits_value digits <= U16_MAX /\ digits_value digits <> 0 /\ digits_value digits <> 443.

Definition https_origin (identity : string) : Prop :=
  exists labels port,
    as_bytes identity = as_bytes "https://" ++ join_byte DOT labels ++ port
    /\ Forall dns_label labels /\ 2 <= len labels /\ len (join_byte DOT labels) <= 253
    /\ is_ipv4 (join_byte DOT labels) = false
    /\ (port = [] \/ exists p, port = COLON :: p /\ port_number p).

Definition lower_or_digit (b : byte) : bool := is_ascii_lower b || is_ascii_digit b.

Lemma label_ok_iff l : label_ok lower_or_digit l = true <-> dns_label l.
Proof.
  unfold label_ok, dns_label. rewrite !andb_true_iff, negb_true_iff, is_empty_len, Z.leb_le.
  rewrite forallb_forall, List.Forall_forall. fold lower_or_digit.
  assert (Hend : forall o : option byte, (forall b, o = Some b -> lower_or_digit b || Byte.eqb b HYPHEN = true) ->
    o <> None -> opt_all is_ascii_alphanumeric o = true <-> o <> Some HYPHEN).
  { intros [b|] Hb Hn; [|done]. specialize (Hb b eq_refl). clear Hn. cbn [opt_all].
    split; [by intros H [= ->]|]. intros Hh. assert (Byte.eqb b HYPHEN = false) as Eb.
    { apply not_true_iff_false. intros E%Byte.byte_dec_bl. congruence. }
    rewrite Eb, orb_false_r in Hb. unfold lower_or_digit in Hb. unfold is_ascii_alphanumeric.
    destruct (is_ascii_digit b), (is_ascii_lower b), (is_ascii_upper b); done. }
  assert (Hhd : forall l : bytes, 0 < len l -> List.hd_error l <> None) by (by intros [|b k]).
  assert (Hin : forall (k : bytes) b, List.hd_error k = Some b -> In b k).
  { intros [|x k] b; cbn; [done|]. intros [= ->]. by left. }
  assert (Hr : forall l : bytes, 0 < len l -> 0 < len (rev l)).
  { intros k. unfold len. by rewrite length_rev. }
  split.
  - intros ((((H1 & H2) & H3) & H4) & H5). split; [done|]. split; [done|].
    apply Hend in H4; [|by intros b E; apply H3, Hin|by apply Hhd].
    apply Hend in H5; [done|intros b E; by apply H3, in_rev, Hin|by apply Hhd, Hr].
  - intros ((H1 & H2) & H3 & H4 & H5). split_and!; try done; apply Hend; try done.
    + intros b E. by apply H3, Hin.
    + by apply Hhd.
    + intros b E. by apply H3, in_rev, Hin.
    + by apply Hhd, Hr.
Qed.

Lemma port_ok_iff p : port_ok p = true <-> port_number p.
Proof.
  unfold port_ok, parse_u16, port_number.
  set (digits := match p with Byte.x2b :: rest => rest | _ => p end).
  rewrite andb_true_iff, negb_true_iff.
  assert (Hz : (1 <? len p) && starts_with Byte.x30 p = false <->
               (1 < len p -> List.hd_error p <> Some Byte.x30)).
  { unfold starts_with. destruct (Z.ltb_spec 1 (len p)); cbn [andb].
    - rewrite bool_decide_eq_false. intuition.
    - intuition lia. }
  rewrite Hz. clear Hz. split.
  - intros [Hp H]. destruct (is_empty digits || _) eqn:E; [done|].
    apply orb_false_iff in E as [E1 E2]. apply negb_false_iff in E2.
    destruct (Z.leb_spec (digits_value digits) U16_MAX) as [Hle|]; [|done].
    cbn [opt_all] in H. bool_prop. exists digits. split_and!; try done.
    + subst digits. destruct p as [|b p]; [by left|]. destruct b; auto.
    + by destruct digits.
    + apply List.Forall_forall, forallb_forall. exact E2.
  - intros (ds & Hd & Hne & Hf & Hp & Hle & H0 & H443).
    assert (digits = ds) as ->.
    { subst digits. destruct Hd as [-> | ->]; [|done]. destruct ds as [|b ds]; [done|].
      inversion Hf as [|? ? Hb _]; subst. by destruct b. }
    split; [done|].
    assert (forallb is_ascii_digit ds = true) as -> by (apply forallb_forall, List.Forall_forall, Hf).
    destruct ds; [done|]. cbn [is_empty negb orb]. rewrite (proj2 (Z.leb_le _ _)) by done.
    cbn [opt_all]. by rewrite (proj2 (Z.eqb_neq _ _) H0), (proj2 (Z.eqb_neq _ _) H443).
Qed.

(** The bytes of an origin. *)
Definition origin_byte (b : byte) : bool :=
  lower_or_digit b || Byte.eqb b HYPHEN || Byte.eqb b DOT || Byte.eqb b COLON || Byte.eqb b Byte.x2b.

Lemma origin_byte_plain b : origin_byte b = true ->
  byte.unsigned b <? 128 = true /\ control_or_space b = false /\ not_in_authority b = false.
Proof. by destruct b. Qed.

Lemma label_bytes_origin l : dns_label l -> forallb origin_byte l = true /\ free_of DOT l = true
  /\ free_of COLON l = true /\ existsb is_ascii_upper l = false.
Proof.
  intros (_ & H & _ & _). unfold free_of. rewrite !forallb_forall.
  rewrite List.Forall_forall in H.
  assert (Hb : forall b, is_ascii_lower b || is_ascii_digit b || Byte.eqb b HYPHEN = true ->
    origin_byte b = true /\ Byte.eqb b DOT = false /\ Byte.eqb b COLON = false
    /\ is_ascii_upper b = false) by by intros [].
  split_and!; try (intros b Hin; by rewrite ?negb_true_iff; apply Hb, H).
  apply not_true_iff_false. intros (b & Hin & Hu)%existsb_exists.
  apply H, Hb in Hin as (_ & _ & _ & Hin). congruence.
Qed.

Lemma join_labels_bytes labels : Forall dns_label labels ->
  forallb origin_byte (join_byte DOT labels) = true /\ free_of COLON (join_byte DOT labels) = true
  /\ existsb is_ascii_upper (join_byte DOT labels) = false.
Proof.
  induction labels as [|l [|l' labels] IH]; intros H; [done| |];
    inversion H as [|? ? Hl Hr]; subst; destruct (label_bytes_origin l Hl) as (H1 & _ & H2 & H3); [done|].
  destruct (IH Hr) as (I1 & I2 & I3).
  change (join_byte DOT (l :: l' :: labels)) with (l ++ DOT :: join_byte DOT (l' :: labels)).
  set (r := join_byte DOT (l' :: labels)) in *. unfold free_of in *.
  rewrite !forallb_app, existsb_app. cbn [forallb existsb]. by rewrite H1, H2, H3, I1, I2, I3.
Qed.

Lemma dns_labels_iff host :
  valid_canonical_dns_name host = true <->
  exists labels, host = join_byte DOT labels /\ Forall dns_label labels /\ 2 <= len labels
    /\ len host <= 253 /\ is_ipv4 host = false.
Proof.
  unfold valid_canonical_dns_name. fold lower_or_digit.
  assert (Hdot : existsb (Byte.eqb DOT) host = true <-> 2 <= len (split_byte DOT host)).
  { rewrite len_split. pose proof (len_nonneg (filter (fun b => Byte.eqb b DOT) host)) as Hn.
    fold (count_byte DOT host) in Hn. split.
    - intros (b & Hin & E)%existsb_exists. apply Byte.byte_dec_bl in E as <-.
      enough (count_byte DOT host <> 0) by lia. intros E%free_count.
      unfold free_of in E. rewrite forallb_forall in E. by specialize (E _ Hin).
    - intros H. destruct (existsb (Byte.eqb DOT) host) eqn:E; [done|].
      enough (count_byte DOT host = 0) by lia. apply free_count. unfold free_of. apply forallb_forall.
      intros b Hb. apply negb_true_iff, not_true_iff_false. intros Eb%Byte.byte_dec_bl. subst b.
      apply not_true_iff_false in E. apply E, existsb_exists. by exists DOT. }
  assert (Hall : forallb (label_ok (fun b => is_ascii_lower b || is_ascii_digit b)) (split_byte DOT host) = true
                 <-> Forall dns_label (split_byte DOT host)).
  { rewrite forallb_forall, List.Forall_forall. fold lower_or_digit. by setoid_rewrite label_ok_iff. }
  split.
  - destruct (_ || existsb is_ascii_upper host) eqn:E; [done|]. bool_prop. intros Hv.
    exists (split_byte DOT host). rewrite join_split. split_and!; try done; by apply Hall || by apply Hdot.
  - intros (labels & -> & Hl & Hn & Hlen & Hip). destruct (join_labels_bytes labels Hl) as (_ & _ & Hu).
    assert (Hs : split_byte DOT (join_byte DOT labels) = labels).
    { apply split_join; [intros ->; rewrite len_nil in Hn; lia|].
      eapply Forall_impl; [|exact Hl]. intros l Hd. by apply label_bytes_origin in Hd as (_ & ? & _). }
    rewrite Hs in *. rewrite (proj2 Hdot Hn), Hip, Hu, (proj2 (Z.ltb_ge _ _)) by lia. cbn [negb orb].
    by apply Hall.
Qed.

Lemma port_bytes_origin p : port_number p ->
  forallb origin_byte p = true /\ free_of COLON p = true.
Proof.
  intros (ds & Hd & _ & Hf & _). unfold free_of. rewrite !forallb_forall. rewrite List.Forall_forall in Hf.
  assert (Hb : forall b, is_ascii_digit b = true \/ b = Byte.x2b ->
    origin_byte b = true /\ negb (Byte.eqb b COLON) = true) by by intros [] [|]; split; done.
  assert (Hin : forall b, In b p -> is_ascii_digit b = true \/ b = Byte.x2b).
  { intros b H. destruct Hd as [-> | ->]; [left; by apply Hf|]. destruct H as [<- | H]; auto. }
  split; intros b H; by apply Hb, Hin.
Qed.

Lemma origin_bytes_ok bs : forallb origin_byte bs = true ->
  is_ascii bs = true /\ existsb control_or_space bs = false /\ existsb not_in_authority bs = false.
Proof.
  intros H. rewrite forallb_forall in H. unfold is_ascii. rewrite forallb_forall.
  split_and!; [intros b Hb; by apply origin_byte_plain, H| |];
    apply not_true_iff_false; intros (b & Hb & Ht)%existsb_exists;
    destruct (origin_byte_plain b (H b Hb)) as (_ & H1 & H2); congruence.
Qed.

Lemma issuer_identity_iff identity :
  valid_https_issuer_identity identity = true <-> https_origin identity.
Proof.
  unfold valid_https_issuer_identity, https_origin. set (bs := as_bytes identity).
  set (pre := as_bytes "https://"). split.
  - destruct (_ || existsb control_or_space bs); [done|].
    destruct (strip_prefix pre bs) as [authority|] eqn:Es; [|done]. apply strip_prefix_Some in Es.
    destruct (_ || (1 <? count_byte COLON authority)) eqn:E; [done|]. bool_prop.
    destruct (at_most_one COLON authority ltac:(lia)) as [Hfree | (h & p & -> & Hh & Hp)].
    + rewrite rsplit_once_free by done. destruct (valid_canonical_dns_name authority) eqn:Ed; [|done].
      intros _. apply dns_labels_iff in Ed as (labels & -> & Hl & Hn & Hlen & Hip).
      exists labels, []. rewrite app_nil_r. split_and!; auto.
    + rewrite rsplit_once_pair by done. destruct (valid_canonical_dns_name h) eqn:Ed; [|done].
      intros Hpo. cbn [negb] in Hpo. apply dns_labels_iff in Ed as (labels & -> & Hl & Hn & Hlen & Hip).
      exists labels, (COLON :: p). split_and!; auto. right. exists p. split; [done|]. by apply port_ok_iff.
  - intros (labels & port & Eb & Hl & Hn & Hlen & Hip & Hport). rewrite Eb.
    destruct (join_labels_bytes labels Hl) as (H1 & H2 & H3).
    set (host := join_byte DOT labels) in *.
    assert (Hd : valid_canonical_dns_name host = true) by (apply dns_labels_iff; by exists labels).
    assert (Hpb : forallb origin_byte port = true).
    { destruct Hport as [-> | (p & -> & Hp)]; [done|]. cbn [forallb].
      by destruct (port_bytes_origin p Hp) as [-> _]. }
    assert (Ha : forallb origin_byte (host ++ port) = true) by by rewrite forallb_app, H1, Hpb.
    destruct (origin_bytes_ok _ Ha) as (A1 & A2 & A3).
    assert (is_ascii (pre ++ host ++ port) = true) as ->.
    { unfold is_ascii in *. by rewrite forallb_app, A1. }
    rewrite existsb_app, A2, strip_prefix_app, A3.
    replace (existsb control_or_space pre) with false by done. cbn [negb orb].
    assert (Hc : count_byte COLON (host ++ port) <= 1
      /\ rsplit_once COLON (host ++ port) = match port with [] => None | _ :: p => Some (host, p) end).
    { destruct Hport as [-> | (p & -> & Hp)].
      - rewrite app_nil_r. split; [|by apply rsplit_once_free]. apply free_count in H2. lia.
      - apply port_bytes_origin in Hp as [_ Hp]. split; [|by apply rsplit_once_pair].
        assert (E : len (split_byte COLON (host ++ COLON :: p)) = 2)
          by by rewrite split_byte_app, (split_byte_free COLON p).
        rewrite len_split in E. lia. }
    destruct Hc as [Hc ->]. rewrite (proj2 (Z.ltb_ge _ _)) by lia.
    assert (is_empty (host ++ port) = false) as ->.
    { apply is_empty_len. rewrite len_app. pose proof (len_nonneg port).
      destruct host; [|rewrite len_cons; pose proof (len_nonneg host); lia]. by vm_compute in Hd. }
    cbn [orb]. destruct Hport as [-> | (p & -> & Hp)]; cbn match; rewrite ?app_nil_r, Hd; cbn [negb]; [done|].
    by apply port_ok_iff.
Qed.

(** ** Policies and profiles *)

(** A policy that a certificate asserts, itself or as any policy. *)
Definition covers_policy (p : string) (c : ParsedCert) : Prop :=
  exists ps, policy_set (policy (constraints c)) = Some ps /\ (p ∈ ps \/ OID_ANY_POLICY ∈ ps).

Definition unmapped (c : ParsedCert) : Prop := mappings (policy (constraints c)) = [].

(** What the valid policies say of the certificates walked so far. *)
Definition policies_cover (valid : option PolicySet) (walked : list ParsedCert) : Prop :=
  match valid with
  | None => Forall (covers_policy OID_ANY_POLICY) walked
  | Some s => forall p, p ∈ s -> Forall (covers_policy p) walked
  end.

Lemma elem_of_concrete p ps :
  p ∈ (list_to_set (List.filter (fun p => negb (String.eqb p OID_ANY_POLICY)) ps) : PolicySet)
  <-> p ∈ ps /\ p <> OID_ANY_POLICY.
Proof.
  rewrite elem_of_list_to_set, !list_elem_of_In, filter_In, negb_true_iff.
  by rewrite String.eqb_neq.
Qed.

Lemma covers_any p c : covers_policy OID_ANY_POLICY c -> covers_policy p c.
Proof. intros (ps & E & H). exists ps. split; [done|]. right. by destruct H. Qed.

Lemma policy_step_cover t leaf c t' walked :
  unmapped c -> policies_cover (valid t) walked -> policy_step t leaf c = Ok t' ->
  policies_cover (valid t') (walked ++ [c]).
Proof.
  unfold unmapped, policy_step. intros Hm Hw. rewrite Hm. cbn [is_empty negb andb].
  destruct (policy_error _); [done|].
  assert (Hv : option_map (map_policies []) (intersect_policies t (policy_set (policy (constraints c))))
               = intersect_policies t (policy_set (policy (constraints c)))) by by destruct (intersect_policies _ _).
  rewrite Hv. clear Hv.
  destruct ((explicit_policy t =? 0) && _); [done|]. intros [= <-]. cbn [valid].
  unfold intersect_policies. destruct (policy_set (policy (constraints c))) as [ps|] eqn:Ep; [|done].
  set (any := existsb (String.eqb OID_ANY_POLICY) ps && (0 <? any_policy t)).
  assert (Hany : any = true -> OID_ANY_POLICY ∈ ps).
  { subst any. intros [H _]%andb_true_iff. apply existsb_exists in H as (x & Hx & ->%String.eqb_eq).
    by apply list_elem_of_In. }
  assert (Hsnoc : forall p, Forall (covers_policy p) walked -> p ∈ ps \/ OID_ANY_POLICY ∈ ps ->
    Forall (covers_policy p) (walked ++ [c])).
  { intros p H1 H2. apply Forall_app. split; [done|]. constructor; [by exists ps|constructor]. }
  destruct (valid t) as [s|]; cbn in Hw.
  - intros p Hp. destruct any eqn:Ea.
    + apply Hsnoc; [|by right; apply Hany]. apply Hw. set_solver.
    + apply elem_of_intersection in Hp as [H1 [H2 _]%elem_of_concrete]. apply Hsnoc; auto.
  - destruct any eqn:Ea.
    + apply Hsnoc; [done|]. left. by apply Hany.
    + intros p [H _]%elem_of_concrete. apply Hsnoc; [|by left].
      eapply Forall_impl; [|exact Hw]. intros x. apply covers_any.
Qed.

Lemma policy_walk_cover downwards : forall t t' walked,
  Forall unmapped downwards -> policies_cover (valid t) walked -> policy_walk t downwards = Ok t' ->
  policies_cover (valid t') (walked ++ downwards).
Proof.
  induction downwards as [|c ds IH]; intros t t' walked Hm Hw; cbn [policy_walk].
  { intros [= <-]. by rewrite app_nil_r. }
  destruct (policy_step t (is_empty ds) c) as [t1|] eqn:E; [|done]. intros Hr. inversion Hm; subst.
  replace (walked ++ c :: ds) with ((walked ++ [c]) ++ ds) by by rewrite <- app_assoc.
  eapply IH; [done| |done]. by eapply policy_step_cover.
Qed.

(** Without mappings, a policy that is valid for the path is asserted by every
    certificate below the anchor. *)
Lemma effective_policies_asserted leaf issuers ps p :
  Forall unmapped (removelast (leaf :: issuers)) ->
  validate_certificate_policies leaf issuers = Ok ps -> issuers <> [] -> p ∈ ps ->
  Forall (covers_policy p) (removelast (leaf :: issuers)).
Proof.
  unfold validate_certificate_policies. intros Hm. set (below := removelast (leaf :: issuers)) in *.
  destruct (policy_walk _ (rev below)) as [t|] eqn:E; [|done]. intros [= <-] Hne Hp.
  apply (policy_walk_cover _ _ _ []) in E; [|by apply List.Forall_rev|by cbn; constructor].
  cbn [app] in E. rewrite <- (rev_involutive below). apply List.Forall_rev.
  destruct (valid t) as [s|]; cbn [unwrap_or] in Hp; [by apply E|].
  cbn in E. eapply Forall_impl; [|exact E]. intros x. apply covers_any.
Qed.

Section profiles.
Context `{V : CertVerifier} `{X : X509Der}.

Lemma relying_party_iff chain_der trust_anchors now profile :
  check_relying_party chain_der trust_anchors now = Ok profile <->
  exists leaf issuers, validate_path chain_der trust_anchors now = Ok (leaf :: issuers)
    /\ is_ca leaf = false /\ EKU_MDOC_READER_AUTH ∈ eku leaf /\ policies leaf <> []
    /\ profile = {| rp_subject := subject leaf; registered := true;
                    dns_sans := dns (names (constraints leaf)) |}.
Proof.
  unfold check_relying_party.
  destruct (validate_path chain_der trust_anchors now) as [path|]; [|by split; [|intros (? & ? & ? & _)]].
  destruct path as [|leaf issuers]; [by split; [|intros (? & ? & ? & _)]|]. cbn [List.hd_error ok_or].
  assert (Hek : existsb (String.eqb EKU_MDOC_READER_AUTH) (eku leaf) = true <-> EKU_MDOC_READER_AUTH ∈ eku leaf).
  { rewrite existsb_exists, list_elem_of_In. split; [by intros (x & H & ->%String.eqb_eq)|].
    intros H. exists EKU_MDOC_READER_AUTH. split; [done|apply String.eqb_refl]. }
  split.
  - destruct (is_ca leaf) eqn:E1; [done|]. destruct (existsb _ _) eqn:E2; [|done]. cbn [negb].
    destruct (is_empty (policies leaf)) eqn:E3; [done|]. intros [= <-].
    exists leaf, issuers. split_and!; try done; [by apply Hek|]. by intros H; rewrite H in E3.
  - intros (l & i & [= <- <-] & -> & H%Hek & Hp & ->). rewrite H. cbn [negb].
    by destruct (policies leaf).
Qed.

(** A credential issuer is accepted exactly when its certificates form a
    valid path to one of the anchors, its leaf is an end entity, and the leaf
    carries one URI, which is an https origin: a lower-case DNS name of at
    least two labels that is not an IPv4 address, and optionally a port other
    than 0 and 443.  The issuer is known by that URI and by the key of the
    leaf. *)
Theorem credential_issuer_iff chain_der trust_anchors now v :
  check_credential_issuer chain_der trust_anchors now = Ok v <->
  exists leaf issuers, validate_path chain_der trust_anchors now = Ok (leaf :: issuers)
    /\ is_ca leaf = false /\ uri_sans leaf = [identity v] /\ https_origin (identity v)
    /\ issuer_public_key_raw v = public_key_raw leaf
    /\ issuer_not_before v = not_before leaf /\ issuer_not_after v = not_after leaf.
Proof.
  unfold check_credential_issuer.
  destruct (validate_path chain_der trust_anchors now) as [path|]; [|by split; [|intros (? & ? & ? & _)]].
  destruct path as [|leaf issuers]; [by split; [|intros (? & ? & ? & _)]|]. cbn [List.hd_error ok_or].
  split.
  - destruct (is_ca leaf) eqn:E1; [done|]. destruct (uri_sans leaf) as [|u [|u' us]] eqn:E2; try done.
    destruct (valid_https_issuer_identity u) eqn:E3; [|done]. intros [= <-]. cbn [identity].
    exists leaf, issuers. split_and!; try done. by apply issuer_identity_iff.
  - intros (l & i & [= <- <-] & -> & E & H%issuer_identity_iff & E1 & E2 & E3). rewrite E, H.
    destruct v. cbn in *. by subst.
Qed.

End profiles.

(** The DNS names under a constraint are those whose last labels are its
    labels. *)
Lemma dns_constraint_labels name constraint :
  dns_constraint_matches name constraint = true <->
  exists labels, split_byte DOT name = labels ++ split_byte DOT constraint.
Proof.
  unfold dns_constraint_matches, strip_suffix. rewrite orb_true_iff, bool_decide_eq_true.
  assert (Hs : forall r, strip_prefix (rev constraint) (rev name) = Some r <-> name = rev r ++ constraint).
  { intros r. split.
    - intros H%strip_prefix_Some. apply (f_equal (@rev byte)) in H.
      by rewrite rev_involutive, rev_app_distr, rev_involutive in H.
    - intros ->. rewrite rev_app_distr, rev_involutive. apply strip_prefix_app. }
  split.
  - intros [-> | H]; [by exists []|].
    destruct (strip_prefix (rev constraint) (rev name)) as [r|] eqn:Er; [|done]. pose proof (proj1 (Hs r) eq_refl) as E.
    cbn [mbind option_bind opt_all] in H. unfold ends_with in H. apply bool_decide_eq_true in H.
    rewrite rev_involutive in H. destruct r as [|d r]; [done|]. cbn in H. injection H as ->.
    cbn [rev] in E. rewrite <- app_assoc in E. cbn [app] in E. subst name.
    rewrite split_sep. by eexists.
  - intros (labels & E). pose proof (join_split DOT name) as J. rewrite E in J.
    destruct labels as [|l labels]; [left; cbn [app] in J; by rewrite join_split in J|]. right.
    assert (Hj : forall ls, ls <> [] -> forall ks, ks <> [] ->
      join_byte DOT (ls ++ ks) = join_byte DOT ls ++ DOT :: join_byte DOT ks).
    { intros ls. induction ls as [|a ls IH]; intros Hls ks Hks; [done|]. destruct ls as [|b ls].
      - cbn [app join_byte]. by destruct ks.
      - change (join_byte DOT ((a :: b :: ls) ++ ks)) with (a ++ DOT :: join_byte DOT ((b :: ls) ++ ks)).
        rewrite IH by done. change (join_byte DOT (a :: b :: ls)) with (a ++ DOT :: join_byte DOT (b :: ls)).
        by rewrite <- app_assoc. }
    rewrite Hj in J; [|done|destruct (split_byte_cons DOT constraint) as (p & ps & ->); done].
    rewrite join_split in J.
    rewrite (proj2 (Hs (rev (join_byte DOT (l :: labels) ++ [DOT]))));
      [|rewrite rev_involutive, <- app_assoc; by rewrite <- J].
    cbn [mbind option_bind opt_all]. rewrite rev_involutive. unfold ends_with.
    rewrite rev_app_distr. cbn. by rewrite bool_decide_true.
Qed.

(** ** A bundle with a decoy *)

Module Examples.
Definition name_of (s : string) : Name :=
  [[{| attribute_oid := "2.5.4.3"; attribute_value := {| tag := Utf8String; value := as_bytes s |} |}]].

Definition key_of (b : byte) : bytes := Byte.x04 :: repeat b 64.

Definition ecdsa : AlgorithmIdentifier := {| algorithm := OID_ECDSA_SHA256; parameters := None |}.

Definition ext (oid : string) (v : bytes) : Extension :=
  {| extn_id := oid; critical := true; extn_value := v |}.

(** A certificate for [subject] with key [k], signed with key [s]. *)
Definition certificate (subject issuer : string) (k s : byte) (exts : list Extension) : Certificate := {|
  tbs_certificate := {|
    tbs_signature := ecdsa; tbs_issuer := name_of issuer; tbs_not_before := 100; tbs_not_after := 200;
    tbs_subject := name_of subject;
    subject_public_key_info := {|
      spki_algorithm := {| algorithm := OID_EC_PUBLIC_KEY;
                           parameters := Some {| tag := OtherTag 6; value := [] |} |};
      subject_public_key := Some (key_of k) |};
    extensions := Some exts |};
  signature_algorithm := ecdsa;
  cert_signature := Some (key_of s);
|}.

Definition ca_exts : list Extension := [ext OID_BASIC_CONSTRAINTS []; ext OID_KEY_USAGE [Byte.x01]].
Definition leaf_exts : list Extension := [ext OID_KEY_USAGE [Byte.x00]; ext OID_SUBJECT_ALT_NAME []].

Definition der_leaf : bytes := [Byte.x01].
Definition der_ca : bytes := [Byte.x02].
Definition der_decoy : bytes := [Byte.x03].
Definition der_root : bytes := [Byte.x04].

#[export] Instance sample_der : X509Der := {|
  certificate_from_der b :=
    match b with
    | [Byte.x01] => Some (certificate "Issuer" "CA" Byte.x11 Byte.x22 leaf_exts)
    | [Byte.x02] => Some (certificate "ca" "Root" Byte.x22 Byte.x44 ca_exts)
    | [Byte.x03] => Some (certificate "CA" "Root" Byte.x33 Byte.x44 ca_exts)
    | [Byte.x04] => Some (certificate "Root" "Root" Byte.x44 Byte.x44 ca_exts)
    | _ => None
    end;
  tbs_to_der t := subject_public_key (subject_public_key_info t);
  spki_to_der p := subject_public_key p;
  name_to_der _ := Some [];
  name_to_string _ := "CN"%string;
  decode_as_oid _ := Some OID_P256;
  rsa_public_key_from_der _ := None;
  basic_constraints_from_der _ := Some {| ca := true; bc_path_len_constraint := None |};
  key_usage_from_der b := Some {| ku_digital_signature := is_empty (List.filter (Byte.eqb Byte.x01) b);
                                  ku_key_cert_sign := negb (is_empty (List.filter (Byte.eqb Byte.x01) b)) |};
  extended_key_usage_from_der _ := None;
  certificate_policies_from_der _ := None;
  policy_mappings_from_der _ := None;
  policy_constraints_from_der _ := None;
  inhibit_any_policy_from_der _ := None;
  subject_alt_name_from_der _ := Some [UniformResourceIdentifier "https://issuer.example:8443"];
  name_constraints_from_der _ := None;
  subject_key_identifier_from_der _ := None;
  authority_key_identifier_from_der _ := None;
  to_lowercase s := string_of_list_byte (map to_ascii_lowercase (as_bytes s));
|}.

#[export] Instance sample_verifier : CertVerifier := {|
  verify_certificate _ key _ sig := bool_decide (key = sig);
  validate_certificate_public_key _ _ := true;
|}.

Definition roots : list ParsedCert :=
  match parse_cert der_root with Ok c => [c] | Err _ => [] end.

(** The decoy has the name of the authority, but not its key: the other path is
    found, whatever the order of the bundle.  Without the authority, or late,
    there is none; with the root in the bundle it is refused. *)
Example issuer_accepted :
  check_credential_issuer [der_decoy; der_ca; der_leaf] roots 150
  = Ok {| identity := "https://issuer.example:8443"; issuer_public_key_raw := key_of Byte.x11;
          issuer_not_before := 100; issuer_not_after := 200 |}
  /\ check_credential_issuer [der_leaf; der_ca; der_decoy] roots 150
     = check_credential_issuer [der_decoy; der_ca; der_leaf] roots 150.
Proof. split; by vm_compute. Qed.

Example issuer_refused :
  check_credential_issuer [der_decoy; der_leaf] roots 150
    = Err (PathInvalid "signature verification failed")
  /\ check_credential_issuer [der_ca; der_leaf] roots 201
    = Err (PathInvalid "certificate expired or not yet valid")
  /\ check_credential_issuer [der_ca; der_leaf; der_root] roots 150
    = Err (PathInvalid "trust anchor must not be supplied in the certificate chain")
  /\ check_credential_issuer [der_ca] roots 150 = Err (PathInvalid "leaf certificate is a CA").
Proof. split_and!; by vm_compute. Qed.

(** ** What the code does with ... *)

(** ... a port with a plus sign, which [u16::from_str] reads: two spellings of
    one origin are accepted, and a leading zero with them. *)
Lemma two_spellings_of_a_port :
  valid_https_issuer_identity "https://issuer.example:8443" = true
  /\ valid_https_issuer_identity "https://issuer.example:+8443" = true
  /\ valid_https_issuer_identity "https://issuer.example:+08443" = true
  /\ valid_https_issuer_identity "https://issuer.example:08443" = false.
Proof. split_and!; by vm_compute. Qed.

Definition policy_cert (p : CertificatePolicyState) (ca : bool) : ParsedCert := {|
  tbs_der := []; signature := []; sig_alg := EcdsaSha256; spki_der := []; public_key_raw := [];
  subject := ""; issuer := ""; uri_sans := []; not_before := 0; not_after := 0; is_ca := ca;
  eku := []; policies := [];
  constraints := {| default_constraints with
    policy := p; canonical_subject := [[("cn", "a")]]; canonical_issuer := [[("cn", "b")]] |};
|}.

(** ... a path of which an explicit policy is required after one more
    certificate (requireExplicitPolicy = 1), when that is the leaf: the counter
    reaches 0 after the leaf, where it is not looked at again, so a path without
    any valid policy is accepted. *)
Lemma explicit_policy_after_leaf :
  let ca := policy_cert {| default_policy with require_explicit_policy := Some 1 |} true in
  validate_certificate_policies (policy_cert default_policy false) [ca; ca] = Ok ∅.
Proof. by vm_compute. Qed.

(** ... mappings whose subject is itself mapped: of A to B and B to C only C
    remains. *)
Lemma chained_mappings :
  map_policies [("A", "B"); ("B", "C")]%string {["A"; "B"]} = {["C"%string]}.
Proof. by vm_compute. Qed.
End Examples.
