(* ===== verification/PidProfile.v ===== *)
(** * The PID portrait profile (crates/oid4vci/src/pid_profile.rs)

    The [picture] claim of an SD-JWT PID and the [portrait] element of an mdoc
    PID: absent it is refused, empty it is the holder's opt-out, and otherwise
    it must be a JPEG of bounded size. *)

From S2P Require Import Prelude Utf8 BTree Cbor Mdoc Serde.

Open Scope Z_scope.
Open Scope rust_scope.

(** base64ct's [Base64]: the standard alphabet, with padding. *)
Class StdBase64 : Type := { std_decode_vec : string -> option bytes }.

Definition PID_MDOC_DOCTYPE : string := "eu.europa.ec.eudi.pid.1".
Definition PID_MDOC_NAMESPACE : string := "eu.europa.ec.eudi.pid.1".
Definition PID_SD_JWT_VCT : string := "urn:eudi:pid:1".
Definition MAX_PID_PORTRAIT_BYTES : Z := 2 * 1024 * 1024.
Definition JPEG_DATA_URL_PREFIX : string := "data:image/jpeg;base64,".

Inductive PidPortraitError : Type :=
| Missing | Duplicate | WrongType | TooLarge | InvalidDataUrl | InvalidJpeg.

Definition encoded_len_limit (bytes : Z) : Z := (bytes + 2) / 3 * 4.

Definition starts_with (p b : bytes) : bool := is_some (strip_prefix p b).
Definition ends_with (p b : bytes) : bool := starts_with (rev p) (rev b).

Definition validate_jpeg (bytes : bytes) : result unit PidPortraitError :=
  if MAX_PID_PORTRAIT_BYTES <? len bytes then Err TooLarge
  else if (len bytes <? 4) || negb (starts_with [Byte.xff; Byte.xd8; Byte.xff] bytes)
          || negb (ends_with [Byte.xff; Byte.xd9] bytes)
  then Err InvalidJpeg
  else Ok tt.

Definition validate_sd_jwt_pid_portrait `{SB : StdBase64} (claims : BTreeMap string Serde.Value)
  : result unit PidPortraitError :=
  let? picture := ok_or (bt_get claims "picture") Missing in
  let? picture := ok_or (json_str picture) WrongType in
  if sis_empty picture then Ok tt
  else
    let? encoded := ok_or (strip_prefix (as_bytes JPEG_DATA_URL_PREFIX) (as_bytes picture))
                      InvalidDataUrl in
    if is_empty encoded || (encoded_len_limit MAX_PID_PORTRAIT_BYTES <? len encoded)
    then Err TooLarge
    else
      let? bytes := ok_or (std_decode_vec (string_of_list_byte encoded)) InvalidDataUrl in
      validate_jpeg bytes.

(** The elements that the iterator yields, in order. *)
Definition portraits (credential : IssuerSigned) : list IssuerSignedItem :=
  List.filter (fun item => bool_decide (element_id item = "portrait"%string))
    (flat_map snd
       (List.filter (fun e => bool_decide (fst e = PID_MDOC_NAMESPACE)) (name_spaces credential))).

Definition validate_mdoc_pid_portrait (credential : IssuerSigned) : result unit PidPortraitError :=
  match portraits credential with
  | [] => Err Missing
  | _ :: _ :: _ => Err Duplicate
  | [portrait] =>
      match element_value portrait with
      | Cbor.Bytes bytes => if is_empty bytes then Ok tt else validate_jpeg bytes
      | _ => Err WrongType
      end
  end.

(** ** What is accepted *)

Lemma starts_with_iff p b : starts_with p b = true <-> exists r, b = p ++ r.
Proof.
  unfold starts_with. split.
  - destruct (strip_prefix p b) as [r|] eqn:E; [|done]. apply strip_prefix_Some in E. by exists r.
  - intros [r ->]. by rewrite strip_prefix_app.
Qed.

Lemma ends_with_iff p b : ends_with p b = true <-> exists r, b = r ++ p.
Proof.
  unfold ends_with. rewrite starts_with_iff. split; intros [r E]; exists (rev r).
  - apply (f_equal (@rev _)) in E. by rewrite rev_involutive, rev_app_distr, rev_involutive in E.
  - by rewrite E, rev_app_distr.
Qed.

Lemma validate_jpeg_iff b :
  validate_jpeg b = Ok tt <->
  len b <= MAX_PID_PORTRAIT_BYTES /\ 4 <= len b /\
  (exists r, b = [Byte.xff; Byte.xd8; Byte.xff] ++ r) /\ (exists r, b = r ++ [Byte.xff; Byte.xd9]).
Proof.
  unfold validate_jpeg. rewrite <- starts_with_iff, <- ends_with_iff.
  destruct (Z.ltb_spec MAX_PID_PORTRAIT_BYTES (len b)); [split; [done|lia]|].
  destruct (Z.ltb_spec (len b) 4); [split; [done|lia]|]. cbn [orb].
  destruct (starts_with _ b), (ends_with _ b); cbn; intuition (try done; try lia).
Qed.

(** An mdoc portrait is accepted exactly when the namespace has one, a byte
    string that is empty or a JPEG. *)
Lemma mdoc_portrait_iff credential :
  validate_mdoc_pid_portrait credential = Ok tt <->
  exists portrait b, portraits credential = [portrait] /\ element_value portrait = Cbor.Bytes b /\
    (b = [] \/ validate_jpeg b = Ok tt).
Proof.
  unfold validate_mdoc_pid_portrait.
  destruct (portraits credential) as [|x [|y l]].
  - split; [done|by intros (? & ? & [=] & _)].
  - split.
    + destruct (element_value x) as [| |b| | | | | |] eqn:E; try done. intros H. exists x, b.
      split_and!; [done..|]. destruct b; [by left|by right].
    + intros (z & b & [= <-] & -> & [->|H]); [done|]. destruct b; [done|exact H].
  - split; [done|by intros (? & ? & [=] & _)].
Qed.

Lemma sd_jwt_portrait_iff `{SB : StdBase64} claims :
  validate_sd_jwt_pid_portrait claims = Ok tt <->
  exists picture, bt_get claims "picture" = Some (Serde.VString picture) /\
    (picture = ""%string \/
     exists encoded b,
       picture = (JPEG_DATA_URL_PREFIX ++ encoded)%string /\ encoded <> ""%string /\
       slen encoded <= encoded_len_limit MAX_PID_PORTRAIT_BYTES /\
       std_decode_vec encoded = Some b /\ validate_jpeg b = Ok tt).
Proof.
  unfold validate_sd_jwt_pid_portrait.
  destruct (bt_get claims "picture") as [v|]; [|split; [done|by intros (? & [=] & _)]].
  cbn [ok_or]. destruct v as [| | |s| |]; cbn [json_str ok_or];
    try (split; [done|by intros (? & [=] & _)]).
  destruct (sis_empty s) eqn:Es.
  { split; [|done]. intros _. exists s. split; [done|]. left. apply as_bytes_inj.
    unfold sis_empty in Es. by destruct (as_bytes s). }
  split.
  - destruct (strip_prefix _ (as_bytes s)) as [e|] eqn:E; [|done]. cbn [ok_or].
    destruct (is_empty e || _) eqn:El; [done|]. apply orb_false_iff in El as [E1 E2].
    destruct (std_decode_vec _) as [b|] eqn:Ed; [|done]. cbn [ok_or]. intros H.
    exists s. split; [done|]. right. exists (string_of_list_byte e), b.
    apply strip_prefix_Some in E. split_and!; [|..|done|done].
    + apply as_bytes_inj. by rewrite as_bytes_app, as_bytes_of_list.
    + intros F. apply (f_equal as_bytes) in F. rewrite as_bytes_of_list in F. by subst e.
    + unfold slen. rewrite as_bytes_of_list. by apply Z.ltb_ge in E2.
  - intros (p & [= <-] & [->|(e & b & -> & Hne & Hl & Hd & H)]); [done|].
    rewrite as_bytes_app, strip_prefix_app. cbn [ok_or].
    replace (is_empty (as_bytes e)) with false.
    2: { symmetry. destruct (as_bytes e) eqn:F; [|done]. destruct Hne. by apply as_bytes_inj. }
    cbn [orb]. unfold slen in Hl. apply Z.ltb_ge in Hl. rewrite Hl.
    unfold as_bytes. rewrite string_of_list_byte_of_string. by rewrite Hd.
Qed.
