(* ===== verification/Holdings.v ===== *)
(** * What the wallet holds (crates/wallet-core/src/lib.rs)

    The holding of an SD-JWT VC, the view of a verified one as a holding, and
    the reasons for which a received credential is refused.  Ingestion,
    delegation and the durable checkpoint share them. *)

From S2P Require Import Prelude Utf8 BTree Boundary Serde SdJwt SdJwtProcess.

Open Scope Z_scope.
Open Scope rust_scope.

Inductive CredentialIngestionError : Type :=
| ClockNotSet | UnsupportedFormat | UntrustedIssuer | MalformedCredential | UnsupportedAlgorithm
| SignatureInvalid | IssuerMismatch | IssuerServiceMismatch | UnknownCredentialType
| CredentialTypeFormatMismatch | IssuerNotAllowedForType | MandatoryClaimsMissing
| TlsEvidenceInvalid | PidPortraitInvalid | CredentialNotYetValid | CredentialExpired
| DeviceBindingMissing | DeviceBindingMismatch | DuplicateClaim | UnsupportedStatusReference.

Record StatusReference : Type := { status_list_uri : string; status_index : Z }.

Record HeldCredential : Type := {
  held_issuer_jwt : string;
  disclosures_by_claim : BTreeMap string string;
  held_status : option StatusReference;
}.

#[export] Instance status_reference_eq_decision : EqDecision StatusReference.
Proof. solve_decision. Defined.
#[export] Instance held_credential_eq_decision : EqDecision HeldCredential.
Proof. solve_decision. Defined.

(** The compatibility view of a verified SD-JWT: its top-level disclosures. *)
Fixpoint flatten (m : BTreeMap string string) (l : list VerifiedDisclosure)
  : result (BTreeMap string string) CredentialIngestionError :=
  match l with
  | [] => Ok m
  | x :: rest =>
      match path x with
      | [Name name] =>
          if bt_contains m name then Err DuplicateClaim
          else flatten (bt_insert name (raw x) m) rest
      | _ => flatten m rest
      end
  end.

Definition held_credential_from_verified_sd (sd : SdJwtVc) (processed : ProcessedSdJwt)
    (status : option StatusReference) : result HeldCredential CredentialIngestionError :=
  let? disclosures := flatten [] (verified_disclosures processed) in
  Ok {| held_issuer_jwt := issuer_jwt sd; disclosures_by_claim := disclosures;
        held_status := status |}.
