(* ===== verification/CredentialChecks.v ===== *)
(** * The checks of a received credential (crates/wallet-core/src/lib.rs)

    The pure checks that ingestion applies to an authenticated SD-JWT VC or
    mdoc: control claims, validity times, device binding, status references
    and the TLSNotary evidence profile. *)

From S2P Require Import Prelude Utf8 BTree Boundary Cbor Cose Mdoc Serde SdJwt SdJwtProcess Holdings.

Open Scope Z_scope.
Open Scope rust_scope.

(** ** The control claims of an SD-JWT VC *)

Definition SDJWT_CONTROL_CLAIMS : list string :=
  ["iss"; "vct"; "cnf"; "iat"; "nbf"; "exp"; "status"; "vct#integrity"]%string.

Fixpoint contains_sdjwt_placeholder (value : Serde.Value) : bool :=
  match value with
  | VObject object =>
      bt_contains object "_sd" || bt_contains object "..."
      || existsb (fun '(_, v) => contains_sdjwt_placeholder v) object
  | VArray values => existsb contains_sdjwt_placeholder values
  | _ => false
  end.

(** [disclosure.path.first()] is this name. *)
Definition starts_at (control : string) (disclosure : VerifiedDisclosure) : bool :=
  match SdJwtProcess.path disclosure with
  | Name name :: _ => bool_decide (name = control)
  | _ => false
  end.

(** One iteration of the loop over the control claims. *)
Definition control_claim_ok (issuer_payload : BTreeMap string Serde.Value)
    (processed : ProcessedSdJwt) (control : string) : bool :=
  match bt_get issuer_payload control, bt_get (claims processed) control with
  | None, None => true
  | Some issuer_value, Some processed_value =>
      Serde.value_eqb processed_value issuer_value
      && negb (contains_sdjwt_placeholder issuer_value)
      && negb (existsb (starts_at control) (verified_disclosures processed))
  | _, _ => false
  end.

Definition validate_sdjwt_issuer_profile (sd : SdJwtVc) (issuer_payload : BTreeMap string Serde.Value)
    (processed : ProcessedSdJwt) : result unit CredentialIngestionError :=
  if is_some (key_binding_jwt sd) then Err MalformedCredential
  else if negb (forallb (fun required => bt_contains issuer_payload required
                                         && bt_contains (claims processed) required)
                  ["iss"; "vct"; "cnf"]%string)
  then Err MalformedCredential
  else if forallb (control_claim_ok issuer_payload processed) SDJWT_CONTROL_CLAIMS
  then Ok tt
  else Err MalformedCredential.

(** ** Validity *)

Definition json_epoch_claim (claims : BTreeMap string Serde.Value) (name : string)
  : result (option Z) CredentialIngestionError :=
  match bt_get claims name with
  | None => Ok None
  | Some value => let? t := ok_or (v_as_i64 value) MalformedCredential in Ok (Some t)
  end.

Record CredentialValidity : Type := {
  issued_at : option Z;
  v_not_before : option Z;
  expires_at : option Z;
}.

#[export] Instance validity_eq_decision : EqDecision CredentialValidity.
Proof. solve_decision. Defined.

Definition IAT_CLOCK_SKEW_SECONDS : Z := 300.

(** [Option::is_some_and]. *)
Definition is_some_and {A} (o : option A) (f : A -> bool) : bool :=
  match o with Some a => f a | None => false end.

Definition validate_at (self : CredentialValidity) (now : Z) : result unit CredentialIngestionError :=
  if is_some_and (issued_at self) (fun iat => sat_i64 (now + IAT_CLOCK_SKEW_SECONDS) <? iat)
     || is_some_and (v_not_before self) (fun nbf => now <? nbf)
  then Err CredentialNotYetValid
  else if is_some_and (expires_at self) (fun exp => exp <=? now) then Err CredentialExpired
  else Ok tt.

Definition json_validity (claims : BTreeMap string Serde.Value) (now : Z)
  : result CredentialValidity CredentialIngestionError :=
  let? iat := json_epoch_claim claims "iat" in
  let? nbf := json_epoch_claim claims "nbf" in
  let? exp := json_epoch_claim claims "exp" in
  let validity := {| issued_at := iat; v_not_before := nbf; expires_at := exp |} in
  let? _ := validate_at validity now in
  Ok validity.

Definition tdate_gt (a b : TDate) : bool :=
  match tdate_cmp a b with Gt => true | _ => false end.

Definition mdoc_validity (validity : ValidityInfo) (now : Z)
  : result CredentialValidity CredentialIngestionError :=
  let? signed := ok_or (tdate_parse (signed validity)) MalformedCredential in
  let? valid_from := ok_or (tdate_parse (valid_from validity)) MalformedCredential in
  let? valid_until := ok_or (tdate_parse (valid_until validity)) MalformedCredential in
  if tdate_gt signed valid_until || tdate_gt valid_from valid_until
  then Err MalformedCredential
  else
    let validity := {| issued_at := Some (unix_seconds_ceil signed);
                       v_not_before := Some (unix_seconds_ceil valid_from);
                       expires_at := Some (unix_seconds_ceil valid_until) |} in
    let? _ := validate_at validity now in
    Ok validity.

(** ** Device binding *)

(** An uncompressed point: [0x04], then [key[1..33]] and [key[33..65]]. *)
Definition is_uncompressed_p256 (key : bytes) : bool :=
  (len key =? 65) && bool_decide (List.hd_error key = Some Byte.x04).
Definition key_x (key : bytes) : bytes := firstn 32 (skipn 1 key).
Definition key_y (key : bytes) : bytes := skipn 33 key.

Section json.
Context `{B64 : Base64}.

Definition jwk_coordinate (jwk : BTreeMap string Serde.Value) (name : string) : option bytes :=
  let! v := m_get_str jwk name in decode_vec v.

Definition sdjwt_device_binding_matches (claims : BTreeMap string Serde.Value) (key : bytes) : bool :=
  if negb (is_uncompressed_p256 key) then false
  else
    match (let! cnf := bt_get claims "cnf" in let! jwk := v_get cnf "jwk" in json_object jwk) with
    | None => false
    | Some jwk =>
        if negb (bool_decide (m_get_str jwk "kty" = Some "EC"%string))
           || negb (bool_decide (m_get_str jwk "crv" = Some "P-256"%string))
           || bt_contains jwk "d" || bt_contains jwk "jku" || bt_contains jwk "x5u"
        then false
        else
          match jwk_coordinate jwk "x", jwk_coordinate jwk "y" with
          | Some x, Some y =>
              (len x =? 32) && (len y =? 32)
              && bool_decide (key_x key = x) && bool_decide (key_y key = y)
          | _, _ => false
          end
    end.
End json.

(** The first entry of a COSE key with this label. *)
Definition cose_get (pairs : list (Cbor.Value * Cbor.Value)) (label : Cbor.Value)
  : option Cbor.Value :=
  option_map snd (find (fun '(candidate, _) => Cbor.value_eqb candidate label) pairs).

Definition is_bytes (o : option Cbor.Value) (b : bytes) : bool :=
  match o with Some (Bytes x) => bool_decide (x = b) | _ => false end.

Definition mdoc_device_binding_matches (device_key : Cbor.Value) (key : bytes) : bool :=
  if negb (is_uncompressed_p256 key) then false
  else
    match device_key with
    | Map pairs =>
        negb (existsb (fun '(label, _) => Cbor.value_eqb label (Nint 3)) pairs)
        && bool_decide (cose_get pairs (Uint 1) = Some (Uint 2))
        && bool_decide (cose_get pairs (Nint 0) = Some (Uint 1))
        && is_bytes (cose_get pairs (Nint 1)) (key_x key)
        && is_bytes (cose_get pairs (Nint 2)) (key_y key)
    | _ => false
    end.

(** ** Status references *)

Definition MAX_STATUS_URI_BYTES : Z := 2048.

(** The part of a text before the first byte of a set. *)
Fixpoint take_until (stop : byte -> bool) (b : bytes) : bytes :=
  match b with
  | [] => []
  | c :: b => if stop c then [] else c :: take_until stop b
  end.

Definition digits_only (port : bytes) : bool := negb (is_empty port) && forallb is_ascii_digit port.

Definition host_byte (b : byte) : bool :=
  is_ascii_alphanumeric b || Byte.eqb b Byte.x2e || Byte.eqb b Byte.x2d.

(** What follows the closing bracket of an address literal. *)
Definition bracket_suffix_ok (suffix : bytes) : bool :=
  is_empty suffix
  || match strip_prefix [Byte.x3a] suffix with Some port => digits_only port | None => false end.

Definition authority_ok (authority : bytes) : bool :=
  if is_empty authority || existsb (Byte.eqb Byte.x40) authority then false
  else if bool_decide (List.hd_error authority = Some Byte.x5b) then
    match split_once [Byte.x5d] authority with
    | Some (literal, suffix) => if len literal <=? 1 then false else bracket_suffix_ok suffix
    | None => false
    end
  else if 1 <? count_byte Byte.x3a authority then false
  else
    let (host, port) :=
      match split_once [Byte.x3a] authority with
      | Some (host, port) => (host, Some port)
      | None => (authority, None)
      end in
    negb (is_empty host) && forallb host_byte host
    && match port with None => true | Some port => digits_only port end.

Definition forbidden_in_uri (b : byte) : bool :=
  is_ascii_control b || Byte.eqb b Byte.x20 || Byte.eqb b Byte.x5c || Byte.eqb b Byte.x23.

Definition ends_status_authority (b : byte) : bool := Byte.eqb b Byte.x2f || Byte.eqb b Byte.x3f.

Definition valid_status_uri (uri : string) : bool :=
  let uri := as_bytes uri in
  if is_empty uri || (MAX_STATUS_URI_BYTES <? len uri)
     || negb (forallb (fun b => byte.unsigned b <=? 127) uri) || existsb forbidden_in_uri uri
  then false
  else
    match strip_prefix (as_bytes "https://") uri with
    | None => false
    | Some remainder => authority_ok (take_until ends_status_authority remainder)
    end.

Definition status_reference_from_claims (claims : BTreeMap string Serde.Value)
  : result (option StatusReference) CredentialIngestionError :=
  match bt_get claims "status" with
  | None => Ok None
  | Some status =>
      let? reference :=
        ok_or (let! l := v_get status "status_list" in json_object l) UnsupportedStatusReference in
      let? uri := ok_or (m_get_str reference "uri") UnsupportedStatusReference in
      if negb (valid_status_uri uri) then Err UnsupportedStatusReference
      else
        let? index := ok_or (let! i := bt_get reference "idx" in v_as_u64 i)
                        UnsupportedStatusReference in
        Ok (Some {| status_list_uri := uri; status_index := index |})
  end.

(** ** TLSNotary evidence *)

(** [foundation::TLSNOTARY_EVIDENCE_VCT]. *)
Definition TLSNOTARY_EVIDENCE_VCT : string := "dev.advatar.tlsn.evidence.1".

Definition commitment_fields : list string :=
  ["notary_identity_commitment"; "server_identity_commitment"; "transcript_commitment";
   "disclosed_fields_commitment"; "holder_binding_commitment"; "schema_commitment";
   "status_commitment"]%string.

(** A SHA-384 digest in lower-case hexadecimal that is not all zeroes. *)
Definition is_digest (value : string) : bool :=
  (slen value =? 96)
  && forallb (fun b => is_ascii_digit b || in_range 97 102 (byte.unsigned b)) (as_bytes value)
  && existsb (fun b => negb (Byte.eqb b Byte.x30)) (as_bytes value).

Definition valid_digest (evidence : BTreeMap string Serde.Value) (field : string) : bool :=
  is_some_and (m_get_str evidence field) is_digest.

Definition is_null (v : Serde.Value) : bool := match v with VNull => true | _ => false end.

Definition assurance_ok (assurance : string) (evidence : BTreeMap string Serde.Value) : bool :=
  if bool_decide (assurance = "tlsNotarizedEvidence"%string)
     || bool_decide (assurance = "holderSelfIssued"%string)
  then is_some_and (bt_get evidence "issuer_authorization_commitment") is_null
  else if bool_decide (assurance = "issuerUpgraded"%string)
          || bool_decide (assurance = "regulatedAttestation"%string)
  then valid_digest evidence "issuer_authorization_commitment"
  else false.

Definition validate_tlsnotary_evidence_claim (claims : BTreeMap string Serde.Value) (now_epoch : Z)
  : result unit CredentialIngestionError :=
  let? evidence := ok_or (let! v := bt_get claims "tlsn_evidence" in json_object v)
                     TlsEvidenceInvalid in
  if negb (len evidence =? 12)
     || negb (bool_decide ((let! v := bt_get evidence "version" in v_as_u64 v) = Some 1))
     || negb (forallb (valid_digest evidence) commitment_fields)
  then Err TlsEvidenceInvalid
  else
    let? observed_at := ok_or (m_get_i64 evidence "observed_at") TlsEvidenceInvalid in
    let? fresh_until := ok_or (m_get_i64 evidence "fresh_until") TlsEvidenceInvalid in
    if (observed_at <=? 0) || (now_epoch <? observed_at) || (fresh_until <=? now_epoch)
    then Err TlsEvidenceInvalid
    else
      let? assurance := ok_or (m_get_str evidence "assurance") TlsEvidenceInvalid in
      if assurance_ok assurance evidence then Ok tt else Err TlsEvidenceInvalid.

(** ** What the checks establish *)

Lemma is_some_and_false {A} (o : option A) f :
  is_some_and o f = false <-> forall a, o = Some a -> f a = false.
Proof. destruct o; naive_solver. Qed.

(** A credential is within its times: issued no later than the permitted skew,
    not before its start, before its end. *)
Definition in_time (v : CredentialValidity) (now : Z) : Prop :=
  (forall t, issued_at v = Some t -> t <= sat_i64 (now + IAT_CLOCK_SKEW_SECONDS)) /\
  (forall t, v_not_before v = Some t -> t <= now) /\
  (forall t, expires_at v = Some t -> now < t).

Lemma validate_at_iff v now : validate_at v now = Ok tt <-> in_time v now.
Proof.
  unfold validate_at, in_time.
  destruct (is_some_and (issued_at v) _) eqn:E1; cbn [orb].
  { split; [done|]. intros (H & _). destruct (issued_at v) as [t|]; [|done]. cbn in E1.
    apply Z.ltb_lt in E1. specialize (H t eq_refl). lia. }
  destruct (is_some_and (v_not_before v) _) eqn:E2; cbn [orb].
  { split; [done|]. intros (_ & H & _). destruct (v_not_before v) as [t|]; [|done]. cbn in E2.
    apply Z.ltb_lt in E2. specialize (H t eq_refl). lia. }
  destruct (is_some_and (expires_at v) _) eqn:E3.
  { split; [done|]. intros (_ & _ & H). destruct (expires_at v) as [t|]; [|done]. cbn in E3.
    apply Z.leb_le in E3. specialize (H t eq_refl). lia. }
  split; [|done]. intros _. rewrite is_some_and_false in E1, E2, E3.
  split_and!; intros t Ht; [specialize (E1 t Ht)|specialize (E2 t Ht)|specialize (E3 t Ht)];
    cbn in *; bool_prop; lia.
Qed.

Lemma json_validity_in_time claims now v : json_validity claims now = Ok v -> in_time v now.
Proof.
  unfold json_validity. destruct (json_epoch_claim claims "iat") as [iat|]; [|done].
  destruct (json_epoch_claim claims "nbf") as [nbf|]; [|done].
  destruct (json_epoch_claim claims "exp") as [exp|]; [|done].
  destruct (validate_at _ now) as [[]|] eqn:E; [|done]. intros [= <-]. by apply validate_at_iff.
Qed.

Lemma mdoc_validity_in_time i now v : mdoc_validity i now = Ok v -> in_time v now.
Proof.
  unfold mdoc_validity. destruct (tdate_parse (signed i)) as [a|]; [|done]. cbn [ok_or].
  destruct (tdate_parse (valid_from i)) as [b|]; [|done]. cbn [ok_or].
  destruct (tdate_parse (valid_until i)) as [c|]; [|done]. cbn [ok_or].
  destruct (_ || _); [done|].
  destruct (validate_at _ now) as [[]|] eqn:E; [|done]. intros [= <-]. by apply validate_at_iff.
Qed.

(** The control claims are the issuer's own: none of them comes out of a
    disclosure, in whole or in part. *)
Lemma control_claim_iff payload p control :
  control_claim_ok payload p control = true <->
  (bt_get payload control = None /\ bt_get (claims p) control = None) \/
  exists v w, bt_get payload control = Some v /\ bt_get (claims p) control = Some w
    /\ Serde.value_eqb w v = true /\ contains_sdjwt_placeholder v = false
    /\ forall x, In x (verified_disclosures p) -> starts_at control x = false.
Proof.
  unfold control_claim_ok. destruct (bt_get payload control) as [v|], (bt_get (claims p) control) as [w|].
  - rewrite !andb_true_iff, !negb_true_iff. split.
    + intros [[H1 H2] H3]. right. exists v, w. split_and!; try done. intros x Hx.
      destruct (starts_at control x) eqn:E; [|done].
      assert (existsb (starts_at control) (verified_disclosures p) = true); [|congruence].
      apply existsb_exists. by exists x.
    + intros [[? _]|(v' & w' & [= <-] & [= <-] & H1 & H2 & H3)]; [done|]. split_and!; try done.
      destruct (existsb _ _) eqn:E; [|done]. apply existsb_exists in E as (x & Hx & Ex).
      by rewrite H3 in Ex.
  - split; [done|]. intros [[? _]|(? & ? & _ & ? & _)]; done.
  - split; [done|]. intros [[_ ?]|(? & ? & ? & _)]; done.
  - split; [by left|done].
Qed.

Lemma issuer_profile_iff sd payload p :
  validate_sdjwt_issuer_profile sd payload p = Ok tt <->
  key_binding_jwt sd = None
  /\ Forall (fun k => bt_contains payload k = true /\ bt_contains (claims p) k = true)
       ["iss"; "vct"; "cnf"]%string
  /\ Forall (fun k => control_claim_ok payload p k = true) SDJWT_CONTROL_CLAIMS.
Proof.
  unfold validate_sdjwt_issuer_profile.
  destruct (key_binding_jwt sd) as [kb|]; cbn [is_some]; [by split; [|intros [? _]]|].
  destruct (forallb _ ["iss"; "vct"; "cnf"]%string) eqn:E1; cbn [negb].
  - rewrite forallb_forall in E1. assert (Forall (fun k => bt_contains payload k = true
      /\ bt_contains (claims p) k = true) ["iss"; "vct"; "cnf"]%string) as H1.
    { apply List.Forall_forall. intros k Hk. by apply andb_true_iff, E1. }
    destruct (forallb (control_claim_ok payload p) _) eqn:E2.
    + split; [|done]. intros _. split_and!; [done..|]. rewrite forallb_forall in E2.
      by apply List.Forall_forall.
    + split; [done|]. intros (_ & _ & H). rewrite List.Forall_forall, <- forallb_forall in H.
      congruence.
  - split; [done|]. intros (_ & H & _). rewrite List.Forall_forall in H.
    assert (forallb (fun k => bt_contains payload k && bt_contains (claims p) k)
      ["iss"; "vct"; "cnf"]%string = true); [|congruence].
    apply forallb_forall. intros k Hk. by apply andb_true_iff, H.
Qed.

(** ** Device keys *)

Definition point (x y : bytes) : bytes := Byte.x04 :: x ++ y.

Lemma uncompressed_iff key :
  is_uncompressed_p256 key = true <-> exists x y, len x = 32 /\ len y = 32 /\ key = point x y.
Proof.
  unfold is_uncompressed_p256, point. rewrite andb_true_iff, Z.eqb_eq, bool_decide_eq_true. split.
  - intros [Hl Hh]. destruct key as [|b key]; [done|]. injection Hh as ->. rewrite len_cons in Hl.
    exists (firstn 32 key), (skipn 32 key).
    unfold len in *. rewrite length_firstn, length_skipn, firstn_skipn. split_and!; [lia..|done].
  - intros (x & y & Hx & Hy & ->). rewrite len_cons, len_app. split; [lia|done].
Qed.

Lemma point_x x y : len x = 32 -> key_x (point x y) = x.
Proof.
  intros H. change (take 32 (x ++ y) = x). apply take_app_length'. unfold len in H. lia.
Qed.

Lemma point_y x y : len x = 32 -> key_y (point x y) = y.
Proof.
  intros H. change (drop 32 (x ++ y) = y). apply drop_app_length'. unfold len in H. lia.
Qed.

(** The claims confirm exactly one key: the P-256 point of [cnf.jwk]. *)
Lemma sdjwt_binding_iff `{B64 : Base64} claims key :
  sdjwt_device_binding_matches claims key = true <->
  exists cnf jwk x y,
    key = point x y /\ len x = 32 /\ len y = 32
    /\ bt_get claims "cnf" = Some cnf /\ v_get cnf "jwk" = Some (VObject jwk)
    /\ m_get_str jwk "kty" = Some "EC"%string /\ m_get_str jwk "crv" = Some "P-256"%string
    /\ bt_get jwk "d" = None /\ bt_get jwk "jku" = None /\ bt_get jwk "x5u" = None
    /\ jwk_coordinate jwk "x" = Some x /\ jwk_coordinate jwk "y" = Some y.
Proof.
  unfold sdjwt_device_binding_matches, bt_contains. split.
  - destruct (is_uncompressed_p256 key) eqn:Ek; [|done]. cbn [negb].
    apply uncompressed_iff in Ek as (x & y & Hx & Hy & ->).
    destruct (bt_get claims "cnf") as [cnf|] eqn:Ec; [|done].
    destruct (v_get cnf "jwk") as [v|] eqn:Ev; [|done]. destruct v as [| | | | |jwk]; try done.
    cbn [json_object]. rewrite !point_x, !point_y by done.
    case_bool_decide; [|done]. case_bool_decide; [|done]. cbn [negb orb].
    destruct (bt_get jwk "d") eqn:E1; [done|]. destruct (bt_get jwk "jku") eqn:E2; [done|].
    destruct (bt_get jwk "x5u") eqn:E3; [done|]. cbn [is_some orb].
    destruct (jwk_coordinate jwk "x") as [a|] eqn:Ea; [|done].
    destruct (jwk_coordinate jwk "y") as [b|] eqn:Eb; [|done].
    rewrite !andb_true_iff, !bool_decide_eq_true. intros [[_ Exa] Eyb]. subst a b.
    exists cnf, jwk, x, y. by split_and!.
  - intros (cnf & jwk & x & y & -> & Hx & Hy & -> & Hj & H1 & H2 & H3 & H4 & H5 & H6 & H7).
    assert (is_uncompressed_p256 (point x y) = true) as -> by (apply uncompressed_iff; eauto).
    cbn [negb]. rewrite Hj. cbn [json_object]. rewrite H1, H2, H3, H4, H5, H6, H7.
    rewrite point_x, point_y, Hx, Hy by done. by rewrite !bool_decide_true.
Qed.

Lemma cose_get_public pairs label v :
  cose_get pairs label = Some v -> exists k, In (k, v) pairs /\ Cbor.value_eqb k label = true.
Proof.
  unfold cose_get. destruct (find _ pairs) as [[k w]|] eqn:E; [|done]. intros [= <-].
  apply find_some in E as [H1 H2]. by exists k.
Qed.

(** The device key of an mdoc, the same. *)
Lemma mdoc_binding_iff device_key key :
  mdoc_device_binding_matches device_key key = true <->
  exists pairs x y,
    key = point x y /\ len x = 32 /\ len y = 32 /\ device_key = Map pairs
    /\ (forall k v, In (k, v) pairs -> k <> Nint 3)
    /\ cose_get pairs (Uint 1) = Some (Uint 2) /\ cose_get pairs (Nint 0) = Some (Uint 1)
    /\ cose_get pairs (Nint 1) = Some (Bytes x) /\ cose_get pairs (Nint 2) = Some (Bytes y).
Proof.
  unfold mdoc_device_binding_matches, is_bytes. split.
  - destruct (is_uncompressed_p256 key) eqn:Ek; [|done]. cbn [negb].
    apply uncompressed_iff in Ek as (x & y & Hx & Hy & ->). rewrite point_x, point_y by done.
    destruct device_key as [| | | | |pairs| | |]; try done.
    rewrite !andb_true_iff, negb_true_iff, !bool_decide_eq_true. intros [[[[Hd H1] H2] H3] H4].
    destruct (cose_get pairs (Nint 1)) as [[| |a| | | | | |]|] eqn:Ea; try done.
    destruct (cose_get pairs (Nint 2)) as [[| |b| | | | | |]|] eqn:Eb; try done.
    apply bool_decide_eq_true in H3, H4. subst a b. exists pairs, x, y. split_and!; try done.
    intros k v Hin ->.
    assert (existsb (fun '(label, _) => Cbor.value_eqb label (Nint 3)) pairs = true); [|congruence].
    apply existsb_exists. by exists (Nint 3, v).
  - intros (pairs & x & y & -> & Hx & Hy & -> & Hd & H1 & H2 & H3 & H4).
    assert (is_uncompressed_p256 (point x y) = true) as -> by (apply uncompressed_iff; eauto).
    cbn [negb]. rewrite H1, H2, H3, H4, point_x, point_y by done. rewrite !bool_decide_true by done.
    rewrite !andb_true_r. apply negb_true_iff. destruct (existsb _ pairs) eqn:E; [|done].
    apply existsb_exists in E as ([k v] & Hin & Ek). apply Cbor.value_eqb_eq in Ek as ->.
    by destruct (Hd _ _ Hin).
Qed.

(** No credential is bound to two keys. *)
Lemma sdjwt_binding_unique `{B64 : Base64} claims k1 k2 :
  sdjwt_device_binding_matches claims k1 = true -> sdjwt_device_binding_matches claims k2 = true ->
  k1 = k2.
Proof.
  intros (c & j & x & y & -> & _ & _ & Hc & Hj & _ & _ & _ & _ & _ & Hx & Hy)%sdjwt_binding_iff.
  intros (c' & j' & x' & y' & -> & _ & _ & Hc' & Hj' & _ & _ & _ & _ & _ & Hx' & Hy')%sdjwt_binding_iff.
  congruence.
Qed.

Lemma mdoc_binding_unique device_key k1 k2 :
  mdoc_device_binding_matches device_key k1 = true ->
  mdoc_device_binding_matches device_key k2 = true -> k1 = k2.
Proof.
  intros (p & x & y & -> & _ & _ & -> & _ & _ & _ & Hx & Hy)%mdoc_binding_iff.
  intros (p' & x' & y' & -> & _ & _ & [= ->] & _ & _ & _ & Hx' & Hy')%mdoc_binding_iff.
  congruence.
Qed.
