(* ===== verification/Delegation.v ===== *)
(** * Delegated presentations (crates/wallet-core/src/delegation.rs)

    Power-of-representation mandates: recognising one, verifying one on
    receipt, and choosing the one that backs a delegated presentation. *)

From Stdlib Require Import Sorted.
From stdpp Require Import gmap.
From S2P Require Import Prelude Utf8 BTree Boundary Serde SdJwt SdJwtProcess Holdings.

Open Scope Z_scope.
Open Scope rust_scope.

Definition MANDATE_VCT : string := "urn:eudi:mandate:1".

Record HeldMandate : Type := {
  mandator : string;
  scope : gset string;
  mandate_jti : option string;
  delegate_cnf_jwk : option Value;
}.

Inductive DelegationError : Type :=
| NotAMandate
| MandatorMissing
| ScopeMissing
| AgentKeyMismatch
| ScopeInsufficient
| MalformedMandate
| SignatureInvalid
| Expired
| NotYetValid.

Record DelegationPlan : Type := {
  plan_mandator : string;
  exercised_scope : gset string;
  plan_mandate_jti : option string;
}.

Record DelegatedPresentation : Type := { mandate : HeldMandate; plan : DelegationPlan }.

Record DelegationConsent : Type := { on_behalf_of : string; consent_scope : gset string }.

Definition consent (self : DelegatedPresentation) : DelegationConsent :=
  {| on_behalf_of := plan_mandator (plan self); consent_scope := exercised_scope (plan self) |}.

(** ** The identity of a key *)

Definition JWK_FIELDS : list string := ["kty"; "crv"; "x"; "y"; "n"; "e"]%string.

Fixpoint jwk_members (object : BTreeMap string Value) (fields : list string)
    (identity : BTreeMap string string) : BTreeMap string string :=
  match fields with
  | [] => identity
  | field :: rest =>
      jwk_members object rest
        (match m_get_str object field with
         | Some value => bt_insert field value identity
         | None => identity
         end)
  end.

Definition jwk_identity (jwk : Value) : option (BTreeMap string string) :=
  let! object := json_object jwk in
  let identity := jwk_members object JWK_FIELDS [] in
  if bt_contains identity "x" || bt_contains identity "n" then Some identity else None.

Definition is_bound_to (self : HeldMandate) (agent_jwk : Value) : bool :=
  match (let! jwk := delegate_cnf_jwk self in jwk_identity jwk), jwk_identity agent_jwk with
  | Some mandate_key, Some agent_key => bool_decide (mandate_key = agent_key)
  | _, _ => false
  end.

Definition covers (self : HeldMandate) (required : gset string) : bool :=
  bool_decide (required ⊆ scope self).

(** [.iter().filter_map(as_str).collect::<BTreeSet<_>>()]. *)
Definition string_set (l : list Value) : gset string :=
  list_to_set (omap json_str l).

Section delegation.
Context {SJ : SerdeJson} `{B64 : Base64} `{D : Digest} `{V : Verifier}.

(** [issuer_jwt.split('.').nth(1)?], decoded. *)
Definition jwt_payload (issuer_jwt : string) : option Value :=
  let! payload_b64 := nth_error (str_split Byte.x2e issuer_jwt) 1 in
  let! bytes := decode_vec payload_b64 in
  value_from_slice bytes.

Definition disclosed_claim (held : HeldCredential) (name : string) : option Value :=
  let! disclosure := bt_get (disclosures_by_claim held) name in
  let! bytes := decode_vec disclosure in
  let! array := value_from_slice bytes in
  let! array := json_array array in
  nth_error array 2.

Definition read_scope (held : HeldCredential) : option (gset string) :=
  let! value := disclosed_claim held "scope" in
  let! array := json_array value in
  let urns := string_set array in
  if bool_decide (urns = ∅) then None else Some urns.

Definition read_mandator (held : HeldCredential) : option string :=
  let! value := disclosed_claim held "mandator" in
  let! delegator := json_str value in
  if sis_empty delegator then None else Some delegator.

Definition parse_mandate (held : HeldCredential) : result HeldMandate DelegationError :=
  let? payload := ok_or (jwt_payload (held_issuer_jwt held)) NotAMandate in
  if negb (bool_decide (v_get_str payload "vct" = Some MANDATE_VCT)) then Err NotAMandate
  else
    let? scope := ok_or (read_scope held) ScopeMissing in
    let? mandator := ok_or (read_mandator held) MandatorMissing in
    let mandate_jti := let! v := disclosed_claim held "mandate_jti" in json_str v in
    let delegate_cnf_jwk := let! cnf := v_get payload "cnf" in v_get cnf "jwk" in
    Ok {| mandator := mandator; scope := scope; mandate_jti := mandate_jti;
          delegate_cnf_jwk := delegate_cnf_jwk |}.

(** The issuer-signed validity window. *)
Definition check_window (payload : Value) (now_unix_secs : Z) : result unit DelegationError :=
  let get_u64 k := let! v := v_get payload k in v_as_u64 v in
  let? exp := ok_or (get_u64 "exp"%string) Expired in
  if exp <=? now_unix_secs then Err Expired
  else
    match get_u64 "nbf"%string with
    | Some nbf => if now_unix_secs <? nbf then Err NotYetValid else Ok tt
    | None => Ok tt
    end.

Definition verify_and_hold_mandate (compact_sdjwt : string) (issuer_public_key_raw : bytes)
    (now_unix_secs : Z) : result HeldCredential DelegationError :=
  let? sd := map_err (SdJwt.parse compact_sdjwt) (fun _ => MalformedMandate) in
  let? alg := map_err (issuer_algorithm sd) (fun _ => MalformedMandate) in
  if negb (bool_decide (alg = Es256)) then Err MalformedMandate
  else
    let? processed := map_err (verify_and_process sd issuer_public_key_raw Es256)
                        (fun _ => SignatureInvalid) in
    let? held := map_err (held_credential_from_verified_sd sd processed None)
                   (fun _ => MalformedMandate) in
    let? payload := ok_or (jwt_payload (held_issuer_jwt held)) MalformedMandate in
    if negb (bool_decide (v_get_str payload "vct" = Some MANDATE_VCT)) then Err MalformedMandate
    else
      let? _ := check_window payload now_unix_secs in
      Ok held.

Definition plan_delegated_presentation (mandate : HeldMandate) (agent_jwk : Value)
    (required : gset string) : result DelegationPlan DelegationError :=
  if negb (is_bound_to mandate agent_jwk) then Err AgentKeyMismatch
  else if negb (covers mandate required) then Err ScopeInsufficient
  else Ok {| plan_mandator := mandator mandate; exercised_scope := required;
             plan_mandate_jti := mandate_jti mandate |}.

(** The scan over the holdings, with the closest failure so far. *)
Fixpoint select_from (closest : DelegationError) (held : list HeldCredential) (agent_jwk : Value)
    (required : gset string) : result DelegatedPresentation DelegationError :=
  match held with
  | [] => Err closest
  | credential :: rest =>
      match parse_mandate credential with
      | Ok mandate =>
          match plan_delegated_presentation mandate agent_jwk required with
          | Ok plan => Ok {| mandate := mandate; plan := plan |}
          | Err error => select_from error rest agent_jwk required
          end
      | Err NotAMandate => select_from closest rest agent_jwk required
      | Err error => select_from error rest agent_jwk required
      end
  end.

Definition select_delegated_presentation (held : list HeldCredential) (agent_jwk : Value)
    (required : gset string) : result DelegatedPresentation DelegationError :=
  select_from NotAMandate held agent_jwk required.
End delegation.

(** ** Keys *)

Definition jwk_field (jwk : Value) (field : string) : option string := v_get_str jwk field.

Lemma jwk_members_get object fields identity k :
  bt_get (jwk_members object fields identity) k
  = if bool_decide (k ∈ fields) then
      match m_get_str object k with Some v => Some v | None => bt_get identity k end
    else bt_get identity k.
Proof.
  revert identity. induction fields as [|f fields IH]; intros identity; cbn [jwk_members].
  { by rewrite bool_decide_eq_false_2 by (by intros ?%elem_of_nil). }
  rewrite IH. destruct (decide (k = f)) as [->|Hne].
  - rewrite (bool_decide_eq_true_2 (f ∈ f :: fields)) by set_solver.
    destruct (m_get_str object f) as [v|] eqn:E.
    + rewrite bt_get_insert, key_cmp_refl. by case_bool_decide.
    + by case_bool_decide.
  - assert (bt_get match m_get_str object f with Some v => bt_insert f v identity | None => identity end k
            = bt_get identity k) as ->.
    { destruct (m_get_str object f); [|done]. rewrite bt_get_insert.
      destruct (key_cmp k f) eqn:E; [|done..]. by apply key_cmp_eq in E. }
    assert (bool_decide (k ∈ f :: fields) = bool_decide (k ∈ fields)) as ->; [|done].
    apply bool_decide_ext. set_solver.
Qed.

Lemma jwk_members_ok object fields identity : bt_ok identity -> bt_ok (jwk_members object fields identity).
Proof.
  revert identity. induction fields as [|f fields IH]; intros identity H; cbn [jwk_members]; [done|].
  apply IH. destruct (m_get_str object f); [by apply bt_insert_ok|done].
Qed.

Lemma bt_ext_get {V} (m n : BTreeMap string V) :
  bt_ok m -> bt_ok n -> (forall k, bt_get m k = bt_get n k) -> m = n.
Proof.
  intros Hm Hn H. apply bt_ext; [done..|]. intros [k v]. by rewrite <- !bt_get_In, H.
Qed.

(** Two identities agree exactly when the identifying members do. *)
Lemma jwk_identity_eq a b i j :
  jwk_identity a = Some i -> jwk_identity b = Some j ->
  (i = j <-> forall f, f ∈ JWK_FIELDS -> jwk_field a f = jwk_field b f).
Proof.
  unfold jwk_identity, jwk_field, v_get_str, v_get.
  destruct a as [| | | | |m]; try done. destruct b as [| | | | |n]; try done. cbn [json_object].
  destruct (_ || _); [|done]. intros <-%(inj Some). destruct (_ || _); [|done]. intros <-%(inj Some).
  pose proof (jwk_members_ok m JWK_FIELDS [] (SSorted_nil _)) as Hm.
  pose proof (jwk_members_ok n JWK_FIELDS [] (SSorted_nil _)) as Hn. split.
  - intros E f Hf. apply (f_equal (fun i => bt_get i f)) in E. cbv beta in E. rewrite !jwk_members_get in E.
    rewrite bool_decide_eq_true_2 in E by done. unfold m_get_str in E.
    destruct (bt_get m f) as [x|], (bt_get n f) as [y|]; cbn [bt_get] in *;
      try destruct (json_str x); try destruct (json_str y); congruence.
  - intros H. apply bt_ext_get; [done..|]. intros k. rewrite !jwk_members_get.
    case_bool_decide as Hk; [|done]. specialize (H k Hk). unfold m_get_str.
    destruct (bt_get m k) as [x|], (bt_get n k) as [y|]; cbn [bt_get] in *;
      try destruct (json_str x); try destruct (json_str y); congruence.
Qed.

(** What a binding between a mandate and an agent key is. *)
Definition same_key (a b : Value) : Prop :=
  (forall f, f ∈ JWK_FIELDS -> jwk_field a f = jwk_field b f)
  /\ (is_some (jwk_field a "x") = true \/ is_some (jwk_field a "n") = true).

Lemma jwk_identity_some a :
  is_some (jwk_identity a) = true
  <-> (exists m, a = VObject m)
      /\ (is_some (jwk_field a "x") = true \/ is_some (jwk_field a "n") = true).
Proof.
  unfold jwk_identity, jwk_field, v_get_str, v_get.
  destruct a as [| | | | |m]; cbn [json_object]; try (split; [done|intros [[m Hm] _]; done]).
  unfold bt_contains. rewrite !jwk_members_get, !bool_decide_eq_true_2 by (unfold JWK_FIELDS; set_solver).
  unfold m_get_str. cbn [bt_get].
  destruct (bt_get m "x") as [x|], (bt_get m "n") as [y|];
    try destruct (json_str x); try destruct (json_str y); cbn; split; intros H; eauto;
    destruct H as [_ [H|H]]; done.
Qed.

Lemma is_bound_to_iff self agent :
  is_bound_to self agent = true
  <-> exists jwk, delegate_cnf_jwk self = Some jwk /\ same_key jwk agent.
Proof.
  unfold is_bound_to, same_key. destruct (delegate_cnf_jwk self) as [jwk|];
    [|split; [done|by intros (j & ? & _)]].
  pose proof (jwk_identity_some jwk) as Hj. pose proof (jwk_identity_some agent) as Ha.
  destruct (jwk_identity jwk) as [i|] eqn:Ei.
  - destruct (proj1 Hj eq_refl) as [[m ->] Hx]. destruct (jwk_identity agent) as [j|] eqn:Ej.
    + rewrite bool_decide_eq_true, (jwk_identity_eq _ _ _ _ Ei Ej). split; [eauto|].
      by intros (k & [= <-] & H & _).
    + split; [done|]. intros (k & [= <-] & H & Hk). destruct (proj2 Ha); [|done].
      rewrite <- !H in * by (unfold JWK_FIELDS; set_solver). split; [|done].
      destruct agent as [| | | | |n]; eauto; exfalso; destruct Hk as [Hk|Hk];
        rewrite H in Hk by (unfold JWK_FIELDS; set_solver); done.
  - split; [done|]. intros (k & [= <-] & H & Hk). destruct (proj2 Hj); [|done]. split; [|done].
    destruct jwk as [| | | | |n]; eauto; exfalso; by destruct Hk.
Qed.

(** ** Choosing a mandate *)

Section choosing.
Context {SJ : SerdeJson} `{B64 : Base64} `{D : Digest} `{V : Verifier}.

(** A holding that can back the presentation. *)
Definition backs (agent : Value) (required : gset string) (c : HeldCredential) (m : HeldMandate) : Prop :=
  parse_mandate c = Ok m /\ is_bound_to m agent = true /\ required ⊆ scope m.

Lemma plan_Ok m agent required p :
  plan_delegated_presentation m agent required = Ok p
  <-> is_bound_to m agent = true /\ required ⊆ scope m
      /\ p = {| plan_mandator := mandator m; exercised_scope := required;
                plan_mandate_jti := mandate_jti m |}.
Proof.
  unfold plan_delegated_presentation, covers. destruct (is_bound_to m agent); cbn [negb];
    [|split; [done|intros (? & _); done]].
  case_bool_decide; cbn [negb]; [|split; [done|intros (_ & ? & _); done]].
  split; [intros [= <-]; auto|]. by intros (_ & _ & ->).
Qed.

(** What stands in the way of a mandate: it cannot be read, it is another
    agent's, or it does not grant all the powers. *)
Inductive fails (agent : Value) (required : gset string) (c : HeldCredential) : DelegationError -> Prop :=
| fails_unreadable e :
    parse_mandate c = Err e -> e <> NotAMandate -> fails agent required c e
| fails_key m :
    parse_mandate c = Ok m -> ~ (exists jwk, delegate_cnf_jwk m = Some jwk /\ same_key jwk agent) ->
    fails agent required c AgentKeyMismatch
| fails_scope m jwk :
    parse_mandate c = Ok m -> delegate_cnf_jwk m = Some jwk -> same_key jwk agent -> ~ required ⊆ scope m ->
    fails agent required c ScopeInsufficient.

(** The last holding that is a mandate at all, and what stands in its way. *)
Definition last_failure (agent : Value) (required : gset string) (held : list HeldCredential)
    (e : DelegationError) : Prop :=
  exists pre c post, held = pre ++ c :: post /\ fails agent required c e
    /\ Forall (fun c' => parse_mandate c' = Err NotAMandate) post.

Lemma plan_Err c m agent required e :
  parse_mandate c = Ok m -> plan_delegated_presentation m agent required = Err e -> fails agent required c e.
Proof.
  intros Hm. unfold plan_delegated_presentation, covers. destruct (is_bound_to m agent) eqn:Hb; cbn [negb].
  - apply is_bound_to_iff in Hb as (jwk & Hj & Hk). case_bool_decide; cbn [negb]; [done|].
    intros [= <-]. by eapply fails_scope.
  - intros [= <-]. eapply fails_key; [done|]. intros H%is_bound_to_iff. congruence.
Qed.

Lemma last_failure_cons agent required c held e :
  last_failure agent required held e -> last_failure agent required (c :: held) e.
Proof. intros (pre & c0 & post & -> & H). by exists (c :: pre), c0, post. Qed.

Definition select_outcome (closest : DelegationError) (held : list HeldCredential) (agent : Value)
    (required : gset string) (r : result DelegatedPresentation DelegationError) : Prop :=
  match r with
  | Ok dp => exists pre c post, held = pre ++ c :: post /\ backs agent required c (mandate dp)
      /\ plan_delegated_presentation (mandate dp) agent required = Ok (plan dp)
      /\ forall c' m, In c' pre -> ~ backs agent required c' m
  | Err e => (forall c m, In c held -> ~ backs agent required c m)
      /\ (last_failure agent required held e
          \/ Forall (fun c => parse_mandate c = Err NotAMandate) held /\ e = closest)
  end.

(** A holding that is passed over. *)
Lemma select_skip closest closest' c held agent required r :
  (forall m, ~ backs agent required c m) ->
  (parse_mandate c = Err NotAMandate /\ closest' = closest) \/ fails agent required c closest' ->
  select_outcome closest' held agent required r -> select_outcome closest (c :: held) agent required r.
Proof.
  intros Hc He. destruct r as [dp|e]; cbn.
  - intros (pre & c0 & post & -> & Hb & Hp & Hpre). exists (c :: pre), c0, post.
    split; [done|]. split; [done|]. split; [done|]. intros c' m [<-|Hin]; eauto.
  - intros [Hn Hl]. split; [intros c' m [<-|Hin]; eauto|].
    destruct Hl as [Hl|[Hl ->]]; [left; by apply last_failure_cons|].
    destruct He as [[Hm ->]|Hf]; [right; split; [by constructor|done]|left; by exists [], c, held].
Qed.

Lemma select_from_spec closest held agent required :
  select_outcome closest held agent required (select_from closest held agent required).
Proof.
  revert closest. induction held as [|c held IH]; intros closest; cbn [select_from].
  { split; [by intros ? ? []|by right]. }
  destruct (parse_mandate c) as [m|err] eqn:Em.
  - destruct (plan_delegated_presentation m agent required) as [p|err] eqn:Ep.
    + exists [], c, held. pose proof Ep as Ep'. apply plan_Ok in Ep' as (Hb & Hs & _).
      split; [done|]. split; [done|]. split; [done|]. by intros ? ? [].
    + eapply select_skip; [|right; by eapply plan_Err|apply IH]. intros m' (E & Hb & Hs).
      rewrite Em in E. injection E as <-.
      assert (plan_delegated_presentation m agent required
              = Ok {| plan_mandator := mandator m; exercised_scope := required;
                      plan_mandate_jti := mandate_jti m |}) by (by apply plan_Ok). congruence.
  - assert (forall m, ~ backs agent required c m) as Hc by (intros m (E & _); congruence).
    destruct err;
      first [eapply select_skip; [done|by left|apply IH]
            |eapply select_skip; [done|right; by apply fails_unreadable|apply IH]].
Qed.

Lemma parse_mandate_Ok c m :
  parse_mandate c = Ok m ->
  exists payload array v,
    jwt_payload (held_issuer_jwt c) = Some payload
    /\ v_get_str payload "vct" = Some MANDATE_VCT
    /\ disclosed_claim c "scope" = Some (VArray array) /\ scope m = string_set array /\ scope m <> ∅
    /\ disclosed_claim c "mandator" = Some v /\ json_str v = Some (mandator m)
    /\ sis_empty (mandator m) = false
    /\ delegate_cnf_jwk m = (let! cnf := v_get payload "cnf" in v_get cnf "jwk").
Proof.
  unfold parse_mandate. destruct (jwt_payload _) as [pl|] eqn:Ep; [|done]. cbn [ok_or].
  case_bool_decide as Ev; [|done]. cbn [negb]. unfold read_scope, read_mandator.
  destruct (disclosed_claim c "scope") as [s|] eqn:Es; [|done]. cbn.
  destruct s as [| | | |l|]; try done. cbn. case_bool_decide as Ee; [done|]. cbn.
  destruct (disclosed_claim c "mandator") as [v|] eqn:Em; [|done]. cbn.
  destruct (json_str v) as [d|] eqn:Ed; [|done]. cbn. destruct (sis_empty d) eqn:E0; [done|]. cbn.
  intros [= <-]. exists pl, l, v. cbn. auto 10.
Qed.

(** C17: A delegated presentation never exceeds its mandate.  The one that is
    chosen is the first holding that can back it; it is a mandate bound to the
    agent's key (the same identifying members, with key material), its plan
    exercises exactly the required powers, all of them granted, on behalf of
    its non-empty delegator, and the consent shows just that.  An error is
    returned only if no holding can back the presentation: it is what stands in
    the way of the last holding that is a mandate (an unreadable claim, another
    agent's key, or missing powers), and [NotAMandate] when there is none. *)
Theorem delegation_within_mandate held agent required :
  match select_delegated_presentation held agent required with
  | Ok dp =>
      exists pre c post, held = pre ++ c :: post
      /\ parse_mandate c = Ok (mandate dp)
      /\ (exists jwk, delegate_cnf_jwk (mandate dp) = Some jwk /\ same_key jwk agent)
      /\ exercised_scope (plan dp) = required /\ required ⊆ scope (mandate dp)
      /\ sis_empty (plan_mandator (plan dp)) = false
      /\ consent dp = {| on_behalf_of := mandator (mandate dp); consent_scope := required |}
      /\ forall c' m, In c' pre -> ~ backs agent required c' m
  | Err e =>
      (forall c m, In c held -> ~ backs agent required c m)
      /\ (last_failure agent required held e
          \/ Forall (fun c => parse_mandate c = Err NotAMandate) held /\ e = NotAMandate)
  end.
Proof.
  pose proof (select_from_spec NotAMandate held agent required) as H.
  unfold select_delegated_presentation. destruct (select_from _ _ _ _) as [dp|]; [|done].
  destruct H as (pre & c & post & -> & (Hp & Hb & Hs) & Hplan & Hpre). exists pre, c, post.
  apply plan_Ok in Hplan as (_ & _ & Hplan).
  destruct (parse_mandate_Ok _ _ Hp) as (pl & l & v & _ & _ & _ & _ & _ & _ & _ & Hm & _).
  unfold consent. rewrite Hplan. cbn. apply is_bound_to_iff in Hb. auto 10.
Qed.

(** ** Receiving a mandate *)

Lemma flatten_get m l m' k r :
  flatten m l = Ok m' -> bt_get m' k = Some r ->
  bt_get m k = Some r \/ exists x, In x l /\ path x = [Name k] /\ raw x = r.
Proof.
  revert m. induction l as [|x l IH]; intros m; cbn; [intros [= <-]; by left|].
  assert (forall m0, flatten m0 l = Ok m' -> bt_get m' k = Some r ->
    bt_get m0 k = Some r \/ exists y, (x = y \/ In y l) /\ path y = [Name k] /\ raw y = r) as Hskip.
  { intros m0 H Hg. destruct (IH m0 H Hg) as [|(y & Hy & ?)]; [by left|right; eauto]. }
  destruct (path x) as [|[n|i] [|? ?]] eqn:Ex; try apply Hskip.
  destruct (bt_contains m n); [done|]. intros H Hg. destruct (Hskip _ H Hg) as [Hm|]; [|by right].
  rewrite bt_get_insert in Hm. destruct (key_cmp k n) eqn:E; [|by left..].
  injection Hm as <-. apply key_cmp_eq in E as ->. right. eauto.
Qed.

(** Reading a disclosure again gives the value it was parsed to. *)
Lemma disclosed_claim_value held name v disc r :
  bt_get (disclosures_by_claim held) name = Some r -> disclosed_claim held name = Some v ->
  disclosure_parse r = Ok disc -> v = d_value disc.
Proof.
  unfold disclosed_claim, disclosure_parse. intros ->. destruct (_ <? _); [done|].
  destruct (decode_vec r) as [b|]; [|done]. cbn. destruct (value_from_slice b) as [w|]; [|done]. cbn.
  destruct (json_array w) as [l|]; [|done]. cbn.
  destruct l as [|s [|n [|x [|y l]]]]; try done; cbn.
  intros [= <-]. destruct (json_str s); [|done]. cbn. destruct (json_str n); [|done]. by intros [= <-].
Qed.

Lemma verify_and_hold_Ok compact key now held :
  verify_and_hold_mandate compact key now = Ok held ->
  exists sd processed payload,
    SdJwt.parse compact = Ok sd /\ verify_and_process sd key Es256 = Ok processed
    /\ held_credential_from_verified_sd sd processed None = Ok held
    /\ jwt_payload (issuer_jwt sd) = Some payload
    /\ v_get_str payload "vct" = Some MANDATE_VCT /\ check_window payload now = Ok tt.
Proof.
  unfold verify_and_hold_mandate. destruct (SdJwt.parse compact) as [sd|] eqn:Es; [|done].
  cbn [map_err]. destruct (issuer_algorithm sd) as [a|]; [|done]. cbn [map_err].
  case_bool_decide; [|done]. cbn [negb].
  destruct (verify_and_process sd key Es256) as [p|] eqn:Ep; [|done]. cbn [map_err].
  destruct (held_credential_from_verified_sd sd p None) as [h|] eqn:Eh; [|done]. cbn [map_err].
  assert (held_issuer_jwt h = issuer_jwt sd) as ->.
  { unfold held_credential_from_verified_sd in Eh. destruct (flatten _ _); [|done]. by injection Eh as <-. }
  destruct (jwt_payload _) as [pl|] eqn:Epl; [|done]. cbn [ok_or].
  case_bool_decide; [|done]. cbn [negb]. destruct (check_window pl now) as [[]|] eqn:Ew; [|done].
  intros [= <-]. by exists sd, p, pl.
Qed.

Lemma check_window_Ok payload now :
  check_window payload now = Ok tt ->
  (exists exp, (let! v := v_get payload "exp" in v_as_u64 v) = Some exp /\ now < exp)
  /\ forall nbf, (let! v := v_get payload "nbf" in v_as_u64 v) = Some nbf -> nbf <= now.
Proof.
  unfold check_window. destruct (let! v := v_get payload "exp" in v_as_u64 v) as [e|]; [|done].
  cbn [ok_or]. destruct (_ <=? _) eqn:E; [done|]. bool_prop.
  destruct (let! v := v_get payload "nbf" in v_as_u64 v) as [n|].
  - destruct (_ <? _) eqn:En; [done|]. bool_prop. intros _. split; [eauto|]. by intros ? [= <-].
  - intros _. split; [eauto|done].
Qed.

Context {ST : SerdeTypes}.

(** What a received mandate grants was signed by its issuer.  If the wallet
    accepts a mandate and then reads it, the credential is inside its signed
    window and of the mandate type, and the delegator and every power in its
    scope come from top-level disclosures whose digests the verified issuer
    payload contains. *)
Theorem received_mandate_is_issuer_signed compact key now held m :
  verify_and_hold_mandate compact key now = Ok held -> parse_mandate held = Ok m ->
  exists sd processed payload,
    SdJwt.parse compact = Ok sd /\ verify_and_process sd key Es256 = Ok processed
    /\ jwt_payload (issuer_jwt sd) = Some payload
    /\ v_get_str payload "vct" = Some MANDATE_VCT
    /\ (exists exp, (let! v := v_get payload "exp" in v_as_u64 v) = Some exp /\ now < exp)
    /\ (exists x array, In x (verified_disclosures processed) /\ path x = [Name "scope"%string]
          /\ value x = VArray array /\ scope m = string_set array)
    /\ (exists x, In x (verified_disclosures processed) /\ path x = [Name "mandator"%string]
          /\ value x = VString (mandator m)).
Proof.
  intros (sd & p & pl & Hs & Hp & Hh & Hpl & Hv & Hw)%verify_and_hold_Ok Hm.
  exists sd, p, pl. apply check_window_Ok in Hw as [He _].
  apply parse_mandate_Ok in Hm as (_ & array & v & _ & _ & Hsc & -> & _ & Hmd & Hj & _ & _).
  assert (forall name w, disclosed_claim held name = Some w ->
    exists x, In x (verified_disclosures p) /\ path x = [Name name] /\ value x = w) as Hclaim.
  { intros name w Hd. destruct (bt_get (disclosures_by_claim held) name) as [r|] eqn:Er;
      [|unfold disclosed_claim in Hd; by rewrite Er in Hd].
    assert (exists x, In x (verified_disclosures p) /\ path x = [Name name] /\ raw x = r)
      as (x & Hx & Hpath & Hr).
    { unfold held_credential_from_verified_sd in Hh. destruct (flatten _ _) as [f|] eqn:Ef; [|done].
      injection Hh as <-. cbn in Er. by destruct (flatten_get _ _ _ _ _ Ef Er) as [|]. }
    exists x. split; [done|]. split; [done|].
    apply verify_and_process_Ok in Hp as (jws & obj & _ & _ & _ & _ & Hfs & _ & _ & Hproc).
    apply payload_ok in Hproc as (_ & _ & _ & _ & _ & _ & _ & Hreach); [|by eapply from_slice_wf].
    apply in_split in Hx as (pre & post & Hsplit). destruct (Hreach _ _ _ Hsplit) as
      ((_ & _ & disc & Hdp & Hval) & _). rewrite Hr in Hdp. rewrite Hval. symmetry.
    by apply (disclosed_claim_value held name w disc r). }
  repeat split; try done.
  - destruct (Hclaim _ _ Hsc) as (x & Hx & Hpath & Hval). by exists x, array.
  - destruct (Hclaim _ _ Hmd) as (x & Hx & Hpath & Hval). exists x. repeat split; [done..|].
    destruct v; try done. cbn in Hj. by injection Hj as ->.
Qed.
End choosing.

(** ** A concrete mandate *)

Module Examples.

Import SdJwtProcess.Examples.

Definition agent_jwk : Value :=
  obj [("kty", vstr "EC"); ("crv", vstr "P-256"); ("x", vstr "AX"); ("y", vstr "AY")]%string.

Definition documents : list (string * Value) := [
  ("H", obj [("alg", vstr "ES256"); ("typ", vstr "dc+sd-jwt")]);
  ("P", obj [("_sd", VArray [vstr (dig "D1"); vstr (dig "D2")]); ("vct", vstr MANDATE_VCT);
             ("exp", VNumber (PosInt 2000)); ("cnf", obj [("jwk", agent_jwk)])]);
  ("D1", VArray [vstr "s1"; vstr "mandator"; vstr "acme"]);
  ("D2", VArray [vstr "s2"; vstr "scope"; VArray [vstr "sign"; vstr "present"]])]%string.

Definition mandate_serde : SerdeJson := {|
  value_from_slice := fun b => assoc (string_of_list_byte b) documents;
  value_to_vec := fun _ => []
|}.

#[export] Instance mandate_types : @SerdeTypes mandate_serde.
Proof.
  constructor. intros b v H. apply assoc_In in H. cbn [documents In] in H.
  repeat match type of H with
  | _ \/ _ => destruct H as [H|H]
  end; try done; apply (f_equal snd) in H; cbn [snd] in H; subst v; clear;
    repeat first [apply obj_wf | constructor].
Qed.

Definition compact : string := (jwt "H" "P" ++ "~" ++ hex "D1" ++ "~" ++ hex "D2" ++ "~")%string.

Definition received : result HeldCredential DelegationError :=
  @verify_and_hold_mandate mandate_serde Samples.hex64 Samples.trunc_digest Samples.echo_verifier
    compact [] 1000.

Definition chosen : option DelegatedPresentation :=
  match received with
  | Ok held => ok (@select_delegated_presentation mandate_serde Samples.hex64 [held] agent_jwk
                     {[ "sign"%string ]})
  | Err _ => None
  end.

Example acts_for_acme : option_map (fun d => on_behalf_of (consent d)) chosen = Some "acme"%string.
Proof. vm_compute. reflexivity. Qed.

Example expired_mandate :
  @verify_and_hold_mandate mandate_serde Samples.hex64 Samples.trunc_digest Samples.echo_verifier
    compact [] 2000 = Err Expired.
Proof. vm_compute. reflexivity. Qed.
End Examples.

Lemma received_mandate_is_issuer_signed_witness :
  exists held m, Examples.received = Ok held
    /\ @parse_mandate Examples.mandate_serde Samples.hex64 held = Ok m
    /\ exists p x, In x (verified_disclosures p) /\ value x = VString (mandator m).
Proof.
  destruct Examples.received as [held|] eqn:E; [|vm_compute in E; discriminate E].
  destruct (@parse_mandate Examples.mandate_serde Samples.hex64 held) as [m|] eqn:Em;
    [|vm_compute in E; injection E as <-; vm_compute in Em; discriminate Em].
  exists held, m. split; [done|]. split; [done|].
  destruct (@received_mandate_is_issuer_signed Examples.mandate_serde Samples.hex64
    Samples.trunc_digest Samples.echo_verifier Examples.mandate_types _ _ _ _ _ E Em)
    as (sd & p & pl & _ & _ & _ & _ & _ & _ & x & Hx & _ & Hv).
  by exists p, x.
Defined.
