(* ===== verification/Agent.v ===== *)
(** * The headless agent (crates/wallet-core/src/agent.rs)

    The decision and audit core of an agent that acts under a delegation plan:
    assurance of its key, human approval, and the hash-chained receipts of its
    actions. *)

From stdpp Require Import gmap.
From S2P Require Import Prelude Utf8 Boundary Serde Delegation.

Open Scope Z_scope.
Open Scope rust_scope.

Inductive KeyProtection : Type := Software | Kms | AttestedTee | SecureElement.

Inductive AssuranceTier : Type := T0 | T1 | T2 | T3.

(** The derived order of the tiers. *)
Definition tier_rank (t : AssuranceTier) : Z :=
  match t with T0 => 0 | T1 => 1 | T2 => 2 | T3 => 3 end.

Definition tier_lt (a b : AssuranceTier) : bool := tier_rank a <? tier_rank b.
Definition tier_ge (a b : AssuranceTier) : bool := tier_rank b <=? tier_rank a.

Record AgentUnitAttestation : Type := { protection : KeyProtection; remotely_attested : bool }.

Definition assurance_ceiling (self : AgentUnitAttestation) : AssuranceTier :=
  match protection self with
  | Software => T0
  | Kms => T1
  | AttestedTee => if remotely_attested self then T3 else T1
  | SecureElement => T3
  end.

Record HappEvidence : Type := { fresh : bool; happ_tier : AssuranceTier }.

Record ActionRequest : Type := {
  required_powers : gset string;
  required_tier : AssuranceTier;
  action_payload : bytes;
}.

Definition HAPP_REQUIRED_FROM : AssuranceTier := T2.

Definition requires_happ (self : ActionRequest) : bool :=
  match required_tier self with T2 | T3 => true | _ => false end.

Inductive AgentError : Type := ScopeExceeded | InsufficientAssurance | ApprovalRequired.

Record Receipt : Type := {
  seq : Z;
  receipt_jti : option string;
  on_behalf_of : string;
  action_hash : bytes;
  prev_hash : bytes;
  chain_hash : bytes;
}.

Record ReceiptLog : Type := { head : bytes; next_seq : Z; entries : list Receipt }.

Definition ZERO : bytes := repeat Byte.x00 32.

Definition log_new : ReceiptLog := {| head := ZERO; next_seq := 0; entries := [] |}.

(** The buffer that [link] hashes. *)
Definition link_preimage (prev_hash : bytes) (seq : Z) (action_hash : bytes)
    (mandate_jti : option string) (on_behalf_of : string) : bytes :=
  let jti := unwrap_or mandate_jti ""%string in
  prev_hash ++ action_hash ++ to_be_bytes 8 seq
  ++ to_be_bytes 8 (slen jti) ++ as_bytes jti
  ++ to_be_bytes 8 (slen on_behalf_of) ++ as_bytes on_behalf_of.

(** The attested keystore of the host. *)
Record AttestedSigner : Type := {
  agent_jwk : Value;
  attestation : AgentUnitAttestation;
  agent_sign : bytes -> bytes;
}.

Record AgentAction : Type := { signature : bytes; receipt : Receipt }.

Record AgentSession : Type := { signer : AttestedSigner; log : ReceiptLog }.

Definition session_new (signer : AttestedSigner) : AgentSession :=
  {| signer := signer; log := log_new |}.

Section agent.
Context `{D : Digest}.

Definition link (prev_hash : bytes) (seq : Z) (action_hash : bytes)
    (mandate_jti : option string) (on_behalf_of : string) : bytes :=
  sha256 (link_preimage prev_hash seq action_hash mandate_jti on_behalf_of).

(** [append] returns what [&mut self] is left as, and the receipt. *)
Definition append (self : ReceiptLog) (action_hash : bytes) (mandate_jti : option string)
    (on_behalf_of : string) : ReceiptLog * Receipt :=
  let seq := next_seq self in
  let prev_hash := head self in
  let chain_hash := link prev_hash seq action_hash mandate_jti on_behalf_of in
  let receipt := {| seq := seq; receipt_jti := mandate_jti; on_behalf_of := on_behalf_of;
                    action_hash := action_hash; prev_hash := prev_hash;
                    chain_hash := chain_hash |} in
  ({| head := chain_hash; next_seq := wrap64 (next_seq self + 1);
      entries := entries self ++ [receipt] |}, receipt).

(** The loop of [verify]: the hash of the last receipt, if all links hold. *)
Fixpoint verify_from (index : Z) (prev : bytes) (l : list Receipt) : option bytes :=
  match l with
  | [] => Some prev
  | r :: rest =>
      if negb (seq r =? index) || negb (bool_decide (prev_hash r = prev)) then None
      else
        let expected := link (prev_hash r) (seq r) (action_hash r) (receipt_jti r) (on_behalf_of r) in
        if negb (bool_decide (expected = chain_hash r)) then None
        else verify_from (index + 1) (chain_hash r) rest
  end.

Definition verify_log (self : ReceiptLog) : bool :=
  match verify_from 0 ZERO (entries self) with
  | Some prev => bool_decide (prev = head self)
  | None => false
  end.

(** [act] returns what [&mut self] is left as, and its result. *)
Definition act (self : AgentSession) (plan : DelegationPlan) (request : ActionRequest)
    (happ : option HappEvidence) : AgentSession * result AgentAction AgentError :=
  if negb (bool_decide (required_powers request ⊆ exercised_scope plan))
  then (self, Err ScopeExceeded)
  else if tier_lt (assurance_ceiling (attestation (signer self))) (required_tier request)
  then (self, Err InsufficientAssurance)
  else if requires_happ request
          && negb (match happ with
                   | Some evidence => fresh evidence && tier_ge (happ_tier evidence) (required_tier request)
                   | None => false
                   end)
  then (self, Err ApprovalRequired)
  else
    let signature := agent_sign (signer self) (action_payload request) in
    let action_hash := sha256 (action_payload request) in
    let '(log, receipt) := append (log self) action_hash (plan_mandate_jti plan) (plan_mandator plan) in
    ({| signer := signer self; log := log |}, Ok {| signature := signature; receipt := receipt |}).
End agent.

(** ** Acting *)

(** What authorises an action. *)
Definition authorised (s : AttestedSigner) (plan : DelegationPlan) (request : ActionRequest)
    (happ : option HappEvidence) : Prop :=
  required_powers request ⊆ exercised_scope plan
  /\ tier_rank (required_tier request) <= tier_rank (assurance_ceiling (attestation s))
  /\ (tier_rank HAPP_REQUIRED_FROM <= tier_rank (required_tier request) ->
      exists e, happ = Some e /\ fresh e = true
                /\ tier_rank (required_tier request) <= tier_rank (happ_tier e)).

(** One request of a session's history. *)
Record call : Type := { c_plan : DelegationPlan; c_request : ActionRequest; c_happ : option HappEvidence }.

Section acting.
Context `{D : Digest}.

Lemma requires_happ_rank request :
  requires_happ request = true <-> tier_rank HAPP_REQUIRED_FROM <= tier_rank (required_tier request).
Proof. unfold requires_happ. destruct (required_tier request); cbn; split; (done || lia). Qed.

(** The receipt an authorised call leaves on a log. *)
Definition receipt_of (l : ReceiptLog) (c : call) : Receipt :=
  snd (append l (sha256 (action_payload (c_request c))) (plan_mandate_jti (c_plan c))
         (plan_mandator (c_plan c))).

Lemma act_spec self plan request happ :
  match act self plan request happ with
  | (self', Ok a) =>
      authorised (signer self) plan request happ
      /\ signature a = agent_sign (signer self) (action_payload request)
      /\ receipt a = receipt_of (log self) {| c_plan := plan; c_request := request; c_happ := happ |}
      /\ self' = {| signer := signer self;
                    log := fst (append (log self) (sha256 (action_payload request))
                                  (plan_mandate_jti plan) (plan_mandator plan)) |}
  | (self', Err _) => self' = self /\ ~ authorised (signer self) plan request happ
  end.
Proof.
  unfold act, authorised. case_bool_decide as Hs; cbn [negb]; [|split; [done|by intros (? & _)]].
  destruct (tier_lt _ _) eqn:Et; unfold tier_lt in Et; bool_prop; [split; [done|lia]|].
  pose proof (requires_happ_rank request) as Hr.
  destruct (requires_happ request) eqn:Eh; cbn [andb].
  - destruct happ as [e|]; cbn [negb].
    + unfold tier_ge. destruct (fresh e) eqn:Ef; cbn [andb negb].
      * destruct (_ <=? _) eqn:Ee; bool_prop; cbn [negb].
        -- repeat split; try done. intros _. by exists e.
        -- split; [done|]. intros (_ & _ & H). destruct H as (e' & [= <-] & _ & H); [by apply Hr|lia].
      * split; [done|]. intros (_ & _ & H). destruct H as (e' & [= <-] & H & _); [by apply Hr|congruence].
    + split; [done|]. intros (_ & _ & H). by destruct H as (e' & H & _); [apply Hr|].
  - repeat split; try done. intros H. by apply Hr in H.
Qed.

(** ** Histories *)

Definition acts (self : AgentSession) (calls : list call) : AgentSession :=
  fold_left (fun s c => fst (act s (c_plan c) (c_request c) (c_happ c))) calls self.

(** The calls of a history that were carried out. *)
Definition carried_out (s : AttestedSigner) (c : call) : bool :=
  is_ok (snd (act {| signer := s; log := log_new |} (c_plan c) (c_request c) (c_happ c))).

Definition unchained (r : Receipt) : option string * string * bytes :=
  (receipt_jti r, on_behalf_of r, action_hash r).

Definition wanted (c : call) : option string * string * bytes :=
  (plan_mandate_jti (c_plan c), plan_mandator (c_plan c), sha256 (action_payload (c_request c))).

Lemma carried_out_iff s c :
  carried_out s c = true <-> authorised s (c_plan c) (c_request c) (c_happ c).
Proof.
  unfold carried_out. pose proof (act_spec (session_new s) (c_plan c) (c_request c) (c_happ c)) as H.
  unfold session_new in H. destruct (act _ _ _ _) as [s' [a|e]]; cbn [snd is_ok].
  - by destruct H as [H _].
  - destruct H as [_ H]. split; [done|]. by intros ?%H.
Qed.

(** The state of a log that only grew. *)
Definition chained (l : ReceiptLog) : Prop :=
  verify_from 0 ZERO (entries l) = Some (head l) /\ next_seq l = len (entries l).

Lemma verify_from_app i p l r h :
  verify_from i p l = Some h ->
  verify_from i p (l ++ [r]) = verify_from (i + len l) h [r].
Proof.
  revert i p. induction l as [|x l IH]; intros i p; cbn [app].
  - intros [= ->]. by rewrite len_nil, Z.add_0_r.
  - cbn [verify_from]. destruct (_ || _); [done|]. destruct (negb _); [done|]. intros H.
    rewrite (IH _ _ H), len_cons. by replace (i + (1 + len l)) with (i + 1 + len l) by lia.
Qed.

Lemma append_chained l ah jti b :
  chained l -> len (entries l) < U64_MAX -> chained (fst (append l ah jti b)).
Proof.
  intros [Hv Hn] Hl. unfold chained, append. cbn [fst entries head next_seq]. split.
  - rewrite (verify_from_app _ _ _ _ _ Hv). cbn. rewrite Hn, Z.eqb_refl.
    rewrite !bool_decide_eq_true_2 by done. done.
  - rewrite len_app, len_cons, len_nil, Hn. unfold wrap64. width. pose proof (len_nonneg (entries l)).
    rewrite Z.mod_small; [lia|]. change (2 ^ 64) with 18446744073709551616. lia.
Qed.

Lemma chained_verify l : chained l -> verify_log l = true.
Proof. intros [H _]. unfold verify_log. rewrite H. by apply bool_decide_eq_true. Qed.

Lemma carried_act s l c :
  carried_out s c = is_ok (snd (act {| signer := s; log := l |} (c_plan c) (c_request c) (c_happ c))).
Proof.
  apply eq_true_iff_eq. rewrite carried_out_iff.
  pose proof (act_spec {| signer := s; log := l |} (c_plan c) (c_request c) (c_happ c)) as H.
  cbn [signer] in H. destruct (act _ _ _ _) as [s' [a|e]]; cbn [snd is_ok].
  - by destruct H as [H _].
  - destruct H as [_ H]. split; [by intros ?%H|done].
Qed.

Lemma acts_log s calls l :
  let s' := acts {| signer := s; log := l |} calls in
  signer s' = s
  /\ map unchained (entries (log s'))
     = map unchained (entries l) ++ map wanted (List.filter (carried_out s) calls)
  /\ (chained l -> len (entries l) + len calls <= U64_MAX -> chained (log s')).
Proof.
  revert l. induction calls as [|c calls IH]; intros l; cbn zeta.
  - cbn. rewrite app_nil_r. auto.
  - cbn [acts fold_left List.filter].
    pose proof (act_spec {| signer := s; log := l |} (c_plan c) (c_request c) (c_happ c)) as H.
    rewrite (carried_act s l). destruct (act _ _ _ _) as [s1 [a|e]]; cbn [fst snd is_ok].
    + destruct H as (_ & _ & _ & ->). cbn [signer log].
      destruct (IH (fst (append l (sha256 (action_payload (c_request c)))
        (plan_mandate_jti (c_plan c)) (plan_mandator (c_plan c))))) as (Hs & Hm & Hc).
      unfold acts in Hs, Hm, Hc. split; [done|]. split.
      * rewrite Hm. unfold append. cbn [fst entries map]. rewrite map_app, <- app_assoc. done.
      * intros Hl Hlen. rewrite len_cons in Hlen. pose proof (len_nonneg calls).
        apply Hc; [by apply append_chained; [|lia]|].
        unfold append. cbn [fst entries]. rewrite len_app, len_cons, len_nil. lia.
    + destruct H as [-> _]. destruct (IH l) as (Hs & Hm & Hc). unfold acts in Hs, Hm, Hc.
      split; [done|]. split; [done|]. intros Hl Hlen. rewrite len_cons in Hlen. apply Hc; [done|lia].
Qed.

(** ** Tamper evidence *)

(** The receipts with one chain: the same, but for the difference between an
    absent and an empty identifier. *)
Definition same_receipt (a b : Receipt) : Prop :=
  seq a = seq b /\ unwrap_or (receipt_jti a) ""%string = unwrap_or (receipt_jti b) ""%string
  /\ on_behalf_of a = on_behalf_of b /\ action_hash a = action_hash b
  /\ prev_hash a = prev_hash b /\ chain_hash a = chain_hash b.

Definition typed_receipt (r : Receipt) : bool :=
  is_u64 (seq r) && match receipt_jti r with Some j => rust_string j | None => true end
  && rust_string (on_behalf_of r) && bool_decide (length (action_hash r) = 32%nat)
  && bool_decide (length (prev_hash r) = 32%nat).

Lemma sized_app s t x y :
  rust_string s = true -> rust_string t = true ->
  to_be_bytes 8 (slen s) ++ as_bytes s ++ x = to_be_bytes 8 (slen t) ++ as_bytes t ++ y ->
  s = t /\ x = y.
Proof.
  unfold rust_string. intros Hs Ht E. bool_prop.
  apply app_inv_len in E as [El E]; [|by rewrite !len_to_be_bytes].
  pose proof (len_nonneg (as_bytes s)). pose proof (len_nonneg (as_bytes t)).
  apply to_be_bytes_u64_inj in El; [|unfold slen in *; width; lia..].
  apply app_inv_len in E as [E ->]; [|done]. by apply as_bytes_inj in E.
Qed.

Lemma link_preimage_inj a b :
  typed_receipt a = true -> typed_receipt b = true ->
  link_preimage (prev_hash a) (seq a) (action_hash a) (receipt_jti a) (on_behalf_of a)
  = link_preimage (prev_hash b) (seq b) (action_hash b) (receipt_jti b) (on_behalf_of b) ->
  chain_hash a = chain_hash b -> same_receipt a b.
Proof.
  unfold typed_receipt, link_preimage. intros Ha Hb E Ec. bool_prop. rewrite !bool_decide_eq_true in *.
  apply app_inv_len in E as [Ep E]; [|unfold len; lia].
  apply app_inv_len in E as [Eh E]; [|unfold len; lia].
  apply app_inv_len in E as [Es E]; [|by rewrite !len_to_be_bytes].
  apply to_be_bytes_u64_inj in Es; [|done..].
  apply sized_app in E as [Ej E]; [|by destruct (receipt_jti a)|by destruct (receipt_jti b)].
  rewrite <- (app_nil_r (as_bytes (on_behalf_of a))), <- (app_nil_r (as_bytes (on_behalf_of b))) in E.
  apply sized_app in E as [Eo _]; [|done..]. by repeat split.
Qed.

Lemma verify_from_snoc i p l r h :
  verify_from i p (l ++ [r]) = Some h ->
  exists h', verify_from i p l = Some h' /\ seq r = i + len l /\ prev_hash r = h'
    /\ link (prev_hash r) (seq r) (action_hash r) (receipt_jti r) (on_behalf_of r) = h
    /\ chain_hash r = h.
Proof.
  revert i p. induction l as [|x l IH]; intros i p; cbn [app verify_from].
  - destruct (seq r =? i) eqn:Es; [|done]. case_bool_decide as Ep; [|done]. cbn [negb orb].
    case_bool_decide as Ec; [|done]. cbn [negb]. intros [= <-]. bool_prop. exists p.
    rewrite len_nil. repeat split; (done || lia).
  - destruct (_ || _); [done|]. destruct (negb _); [done|]. intros (h' & H & ? & ?)%IH.
    exists h'. rewrite len_cons. repeat split; try done; [lia|tauto..].
Qed.

Lemma logs_agree a b h :
  verify_from 0 ZERO a = Some h -> verify_from 0 ZERO b = Some h ->
  forallb typed_receipt a = true -> forallb typed_receipt b = true -> length a = length b ->
  Forall2 same_receipt a b \/ collision.
Proof.
  revert b h. induction a as [|x a IH] using rev_ind; intros b h Ha Hb Ta Tb Hlen.
  { destruct b; [left; constructor|done]. }
  destruct b as [|y b _] using rev_ind; [rewrite length_app in Hlen; cbn in Hlen; lia|].
  rewrite !length_app in Hlen. cbn in Hlen. rewrite forallb_app in Ta, Tb. cbn in Ta, Tb. bool_prop.
  apply verify_from_snoc in Ha as (ha & Ha & Sa & Pa & La & Ca).
  apply verify_from_snoc in Hb as (hb & Hb & Sb & Pb & Lb & Cb).
  unfold link in La, Lb. rewrite <- Lb in La.
  destruct (bytes_or_collision _ _ La) as [E|]; [|by right].
  assert (same_receipt x y) as Hxy by (apply link_preimage_inj; congruence).
  pose proof Hxy as (_ & _ & _ & _ & Ep & _).
  destruct (IH b ha) as [Hab|]; [done|congruence|done|done|lia| |by right].
  left. apply Forall2_app; [done|]. by constructor.
Qed.
End acting.

Section properties.
Context `{D : Digest}.

(** C18: An agent acts only within its mandate.  Over any sequence of requests
    the receipts are exactly, in order, those of the requests whose powers the
    plan grants, whose tier the attested key reaches and which, from T2 on,
    come with a fresh human approval of that tier; every other request leaves
    the session as it was, and the receipt chain verifies throughout. *)
Theorem agent_acts_within_mandate s calls :
  len calls <= U64_MAX ->
  let session := acts (session_new s) calls in
  map unchained (entries (log session)) = map wanted (List.filter (carried_out s) calls)
  /\ (forall c, carried_out s c = true <-> authorised s (c_plan c) (c_request c) (c_happ c))
  /\ verify_log (log session) = true
  /\ forall c session' e,
       act session (c_plan c) (c_request c) (c_happ c) = (session', Err e) -> session' = session.
Proof.
  intros Hlen. cbn zeta. destruct (acts_log s calls log_new) as (Hs & Hm & Hc).
  split; [exact Hm|]. split; [apply carried_out_iff|]. split.
  - apply chained_verify, Hc; [split; [reflexivity|done]|]. change (entries log_new) with (@nil Receipt).
    rewrite len_nil. lia.
  - intros c session' e H.
    pose proof (act_spec (acts (session_new s) calls) (c_plan c) (c_request c) (c_happ c)) as Hspec.
    rewrite H in Hspec. by destruct Hspec.
Qed.

(** Receipts are tamper evident up to the absence of an identifier: two
    verifying logs of one length with the same head have the same receipts
    (unless the digest has a collision), except that a receipt without a
    mandate identifier is not told apart from one with an empty identifier,
    for which both logs always verify alike. *)
Theorem receipts_tamper_evident a b :
  verify_log a = true -> verify_log b = true -> head a = head b ->
  forallb typed_receipt (entries a) = true -> forallb typed_receipt (entries b) = true ->
  length (entries a) = length (entries b) ->
  (Forall2 same_receipt (entries a) (entries b) \/ collision)
  /\ forall p n h o, link p n h None o = link p n h (Some ""%string) o.
Proof.
  unfold verify_log. destruct (verify_from 0 ZERO (entries a)) as [h|] eqn:Ea; [|done].
  destruct (verify_from 0 ZERO (entries b)) as [k|] eqn:Eb; [|done].
  intros ->%bool_decide_eq_true ->%bool_decide_eq_true E Ta Tb Hlen. split; [|done].
  rewrite E in Ea. by apply (logs_agree _ _ (head b)).
Qed.
End properties.

(** ** A concrete session *)

Module Examples.

Definition keystore (p : KeyProtection) : AttestedSigner := {|
  agent_jwk := VNull; attestation := {| protection := p; remotely_attested := false |};
  agent_sign := fun b => b |}.

Definition sample_plan : DelegationPlan := {|
  plan_mandator := "acme"; exercised_scope := {["sign"%string]}; plan_mandate_jti := Some "m1"%string |}.

Definition sample_call (powers : gset string) (t : AssuranceTier) (h : option HappEvidence) : call := {|
  c_plan := sample_plan;
  c_request := {| required_powers := powers; required_tier := t; action_payload := as_bytes "pay" |};
  c_happ := h |}.

Definition calls : list call := [
  sample_call {["sign"%string]} T1 None;
  sample_call {["pay"%string]} T0 None;
  sample_call {["sign"%string]} T2 None;
  sample_call {["sign"%string]} T2 (Some {| fresh := true; happ_tier := T3 |})].

Definition session : AgentSession :=
  @acts Samples.trunc_digest (session_new (keystore SecureElement)) calls.

Example receipts : map seq (entries (log session)) = [0; 1].
Proof. vm_compute. reflexivity. Qed.

Example kms_key_stays_low :
  map seq (entries (log (@acts Samples.trunc_digest (session_new (keystore Kms)) calls))) = [0].
Proof. vm_compute. reflexivity. Qed.
End Examples.

Lemma agent_acts_within_mandate_witness : @verify_log Samples.trunc_digest (log Examples.session) = true.
Proof. apply (@agent_acts_within_mandate Samples.trunc_digest). done. Defined.

Lemma receipts_tamper_evident_witness :
  Forall2 same_receipt (entries (log Examples.session)) (entries (log Examples.session))
  \/ @collision Samples.trunc_digest.
Proof.
  apply (@receipts_tamper_evident Samples.trunc_digest (log Examples.session) (log Examples.session));
    vm_compute; reflexivity.
Defined.
