(* ===== verification/Delivery.v ===== *)
(** * The durable delivery ledger (crates/wallet-core/src/delivery.rs)

    The bounded ledger of effects that the core hands to the shell: entries are
    prepared, enqueued, claimed in order, answered, and consumed into
    tombstones; a checkpoint is restored only after every derived value has
    been recomputed.  A ledger operation returns the ledger that [&mut self] is
    left as and its result, or [None] where an [expect] panics or an unsigned
    subtraction underflows. *)

From S2P Require Import Prelude Utf8 BTree Boundary.

Open Scope Z_scope.
Open Scope rust_scope.

Definition MAX_LIVE_DELIVERIES : Z := 32.
Definition MAX_RESERVED_DELIVERY_BYTES : Z := 4 * 1024 * 1024.
Definition MAX_DELIVERY_BLOB_BYTES : Z := 2 * 1024 * 1024.
Definition MAX_DELIVERY_TOMBSTONES : Z := 64.
Definition MAX_DELIVERY_SEQUENCE : Z := I64_MAX.
Definition MAX_DELIVERY_ATTEMPTS : Z := 3.

(** Both end with a NUL. *)
Definition DELIVERY_ID_DOMAIN : bytes := as_bytes "euwallet.delivery-ledger.id.v1" ++ [Byte.x00].
Definition DELIVERY_LEDGER_DIGEST_DOMAIN : bytes :=
  as_bytes "euwallet.delivery-ledger.digest.v1" ++ [Byte.x00].

(** [DeliveryId]: 32 bytes. *)
Notation DeliveryId := bytes (only parsing).

Inductive DeliveryKind : Type :=
| ResolveRpTrust | PersistNonce | Render | Sign | Http | PushPar | OpenAuthBrowser
| PromptTxCode | RequestToken | RequestCredential | FetchStatusList | PublishTransferOffer | Close.

Inductive RecoveryPolicy : Type := ReplaySafe | ReconcileBeforeRetry | NeverReplay | AwaitCallback.
Inductive DeliveryState : Type := Queued | Dispatching | ResultReady | Ambiguous.
Inductive TombstoneDisposition : Type := ResultConsumed.

#[export] Instance delivery_kind_eq_decision : EqDecision DeliveryKind.
Proof. solve_decision. Defined.
#[export] Instance policy_eq_decision : EqDecision RecoveryPolicy.
Proof. solve_decision. Defined.
#[export] Instance delivery_state_eq_decision : EqDecision DeliveryState.
Proof. solve_decision. Defined.

Definition kind_tag (k : DeliveryKind) : Z :=
  match k with
  | ResolveRpTrust => 1 | PersistNonce => 2 | Render => 3 | Sign => 4 | Http => 5 | PushPar => 6
  | OpenAuthBrowser => 7 | PromptTxCode => 8 | RequestToken => 9 | RequestCredential => 10
  | FetchStatusList => 11 | PublishTransferOffer => 12 | Close => 13
  end.

Definition kind_from_tag (tag : Z) : option DeliveryKind :=
  match tag with
  | 1 => Some ResolveRpTrust | 2 => Some PersistNonce | 3 => Some Render | 4 => Some Sign
  | 5 => Some Http | 6 => Some PushPar | 7 => Some OpenAuthBrowser | 8 => Some PromptTxCode
  | 9 => Some RequestToken | 10 => Some RequestCredential | 11 => Some FetchStatusList
  | 12 => Some PublishTransferOffer | 13 => Some Close
  | _ => None
  end.

Definition recovery_policy (k : DeliveryKind) : RecoveryPolicy :=
  match k with
  | PersistNonce | Render | FetchStatusList | Close => ReplaySafe
  | OpenAuthBrowser | PromptTxCode => AwaitCallback
  | Sign | RequestCredential => NeverReplay
  | ResolveRpTrust | Http | PushPar | RequestToken | PublishTransferOffer => ReconcileBeforeRetry
  end.

Definition policy_tag (p : RecoveryPolicy) : Z :=
  match p with ReplaySafe => 1 | ReconcileBeforeRetry => 2 | NeverReplay => 3 | AwaitCallback => 4 end.

Definition policy_from_tag (tag : Z) : option RecoveryPolicy :=
  match tag with
  | 1 => Some ReplaySafe | 2 => Some ReconcileBeforeRetry | 3 => Some NeverReplay
  | 4 => Some AwaitCallback | _ => None
  end.

Definition state_tag (s : DeliveryState) : Z :=
  match s with Queued => 1 | Dispatching => 2 | ResultReady => 3 | Ambiguous => 4 end.

Definition state_from_tag (tag : Z) : option DeliveryState :=
  match tag with
  | 1 => Some Queued | 2 => Some Dispatching | 3 => Some ResultReady | 4 => Some Ambiguous
  | _ => None
  end.

Definition disposition_tag (d : TombstoneDisposition) : Z := match d with ResultConsumed => 1 end.

Definition disposition_from_tag (tag : Z) : option TombstoneDisposition :=
  match tag with 1 => Some ResultConsumed | _ => None end.

Record DeliveryCorrelation : Type := {
  c_id : DeliveryId; c_request_hash : bytes; c_attempt : Z; c_contract : Z;
}.

Record DeliverySpec : Type := { s_kind : DeliveryKind; s_request : bytes; s_capacity : Z }.

Record PreparedDelivery : Type := {
  p_namespace : bytes; p_id : DeliveryId; p_sequence : Z; p_kind : DeliveryKind;
  p_policy : RecoveryPolicy; p_request : bytes; p_request_hash : bytes; p_capacity : Z;
}.

Record DeliveryEntry : Type := {
  id : DeliveryId; sequence : Z; kind : DeliveryKind; policy : RecoveryPolicy;
  state : DeliveryState; request : bytes; request_hash : bytes; result_capacity : Z;
  result_bytes : option bytes; result_hash : option bytes; attempt : Z; contract : option Z;
}.

Record ClaimedDelivery : Type := {
  correlation : DeliveryCorrelation; cl_sequence : Z; cl_kind : DeliveryKind;
  cl_policy : RecoveryPolicy; cl_request : bytes; cl_capacity : Z;
}.

Inductive RecordResultOutcome : Type := Recorded | AlreadyRecorded.

Record DeliveryTombstone : Type := {
  t_id : DeliveryId; t_sequence : Z; t_kind : DeliveryKind; t_policy : RecoveryPolicy;
  t_request_hash : bytes; t_capacity : Z; t_attempt : Z; t_contract : Z; t_result_hash : bytes;
  t_disposition : TombstoneDisposition;
}.

(** [RestoredDelivery] and [RestoredTombstone] have the fields of the live and
    terminal records, unchecked. *)
Notation RestoredDelivery := DeliveryEntry (only parsing).
Notation RestoredTombstone := DeliveryTombstone (only parsing).

Inductive DeliveryLedgerError : Type :=
| LiveCapacity | ByteCapacity | SequenceExhausted | AttemptsExhausted | DuplicateId
| StalePreparation | EmptyBatch | InvalidAdapterContract | AdapterContractMismatch | StaleAttempt
| DispatchInProgress | NoQueuedDelivery | HeadOfLineBlocked (state : DeliveryState)
| UnknownDelivery | ResultConsumedError | CorrelationMismatch
| InvalidTransition (from : DeliveryState) (operation : string)
| RecoveryPolicyDenied (policy : RecoveryPolicy) | ResultTooLarge | ConflictingResult
| InvalidSnapshot | SnapshotDigestMismatch.

Record DeliveryLedger : Type := {
  namespace : bytes; next_sequence : Z; live : list DeliveryEntry;
  tombstones : list DeliveryTombstone; reserved_bytes : Z;
}.

(** [with_random], on the bytes that the random source fills in. *)
Definition with_random (namespace : bytes) : DeliveryLedger := {|
  namespace := namespace; next_sequence := 1; live := []; tombstones := []; reserved_bytes := 0;
|}.

Definition is_pristine (self : DeliveryLedger) : bool :=
  (next_sequence self =? 1) && is_empty (live self) && is_empty (tombstones self)
  && (reserved_bytes self =? 0).

(** [NonZeroU64::new]. *)
Definition non_zero (n : Z) : option Z := if n =? 0 then None else Some n.

Definition usize_add (a b : Z) : option Z := checked_u64 (a + b).

Definition entry_correlation (self : DeliveryEntry) : option DeliveryCorrelation :=
  let! contract := contract self in
  Some {| c_id := id self; c_request_hash := request_hash self; c_attempt := attempt self;
          c_contract := contract |}.

Definition reservation_size (request_len result_capacity : Z) : result Z DeliveryLedgerError :=
  ok_or (usize_add request_len result_capacity) ByteCapacity.

Definition ensure_budget (current additional : Z) : result unit DeliveryLedgerError :=
  let? total := ok_or (usize_add current additional) ByteCapacity in
  if MAX_RESERVED_DELIVERY_BYTES <? total then Err ByteCapacity else Ok tt.

Definition validate_correlation (c : DeliveryCorrelation) (request_hash : bytes) (attempt : Z)
    (contract : option Z) : result unit DeliveryLedgerError :=
  if negb (bool_decide (c_request_hash c = request_hash)) then Err CorrelationMismatch
  else if negb (bool_decide (Some (c_contract c) = contract)) then Err AdapterContractMismatch
  else if negb (c_attempt c =? attempt) then Err StaleAttempt
  else Ok tt.

(** What is hashed into a delivery's identifier. *)
Definition id_preimage (namespace : bytes) (sequence : Z) (kind : DeliveryKind)
    (policy : RecoveryPolicy) (request_hash : bytes) (capacity : Z) : bytes :=
  DELIVERY_ID_DOMAIN ++ namespace ++ to_be_bytes 8 sequence
  ++ [byte.of_Z (kind_tag kind)] ++ [byte.of_Z (policy_tag policy)]
  ++ request_hash ++ to_be_bytes 8 capacity.

Definition put_hash (o : option bytes) : bytes :=
  match o with Some h => [Byte.x01] ++ h | None => [Byte.x00] end.

Definition put_contract (o : option Z) : bytes :=
  match o with Some c => [Byte.x01] ++ to_be_bytes 8 c | None => [Byte.x00] end.

Definition put_entry (e : DeliveryEntry) : bytes :=
  id e ++ to_be_bytes 8 (sequence e) ++ [byte.of_Z (kind_tag (kind e))]
  ++ [byte.of_Z (policy_tag (policy e))] ++ [byte.of_Z (state_tag (state e))]
  ++ request_hash e ++ to_be_bytes 8 (result_capacity e)
  ++ put_hash (result_hash e) ++ [byte.of_Z (attempt e)] ++ put_contract (contract e).

Definition put_tombstone (t : DeliveryTombstone) : bytes :=
  t_id t ++ to_be_bytes 8 (t_sequence t) ++ [byte.of_Z (kind_tag (t_kind t))]
  ++ [byte.of_Z (policy_tag (t_policy t))] ++ t_request_hash t ++ to_be_bytes 8 (t_capacity t)
  ++ [byte.of_Z (t_attempt t)] ++ to_be_bytes 8 (t_contract t) ++ t_result_hash t
  ++ [byte.of_Z (disposition_tag (t_disposition t))].

(** What is hashed into a ledger's digest. *)
Definition ledger_preimage (l : DeliveryLedger) : bytes :=
  DELIVERY_LEDGER_DIGEST_DOMAIN ++ namespace l ++ to_be_bytes 8 (next_sequence l)
  ++ to_be_bytes 8 (reserved_bytes l)
  ++ to_be_bytes 8 (len (live l)) ++ concat (map put_entry (live l))
  ++ to_be_bytes 8 (len (tombstones l)) ++ concat (map put_tombstone (tombstones l)).

Definition contains_id (self : DeliveryLedger) (i : DeliveryId) : bool :=
  existsb (fun e => bool_decide (id e = i)) (live self)
  || existsb (fun t => bool_decide (t_id t = i)) (tombstones self).

Definition delivery_state (self : DeliveryLedger) (i : DeliveryId) : option DeliveryState :=
  let! e := find (fun e => bool_decide (id e = i)) (live self) in Some (state e).

(** Where a correlated delivery is: its index and record. *)
Inductive CorrelatedLocation : Type :=
| Live (index : nat) (e : DeliveryEntry)
| Tombstone (index : nat) (t : DeliveryTombstone).

Definition correlated_location (self : DeliveryLedger) (c : DeliveryCorrelation)
  : result CorrelatedLocation DeliveryLedgerError :=
  match list_find (fun e => id e = c_id c) (live self) with
  | Some (index, e) =>
      let? _ := validate_correlation c (request_hash e) (attempt e) (contract e) in
      Ok (Live index e)
  | None =>
      match list_find (fun t => t_id t = c_id c) (tombstones self) with
      | Some (index, t) =>
          let? _ := validate_correlation c (t_request_hash t) (t_attempt t) (Some (t_contract t)) in
          Ok (Tombstone index t)
      | None => Err UnknownDelivery
      end
  end.

Definition live_location (self : DeliveryLedger) (c : DeliveryCorrelation)
  : result (nat * DeliveryEntry) DeliveryLedgerError :=
  let? location := correlated_location self c in
  match location with
  | Live index e => Ok (index, e)
  | Tombstone _ _ => Err ResultConsumedError
  end.

(** The entries of the ledger with one of them replaced. *)
Definition set_live (self : DeliveryLedger) (index : nat) (e : DeliveryEntry) : DeliveryLedger := {|
  namespace := namespace self; next_sequence := next_sequence self;
  live := <[index := e]> (live self); tombstones := tombstones self;
  reserved_bytes := reserved_bytes self;
|}.

(** The fields of an entry that the machine changes. *)
Definition set_state (e : DeliveryEntry) (s : DeliveryState) : DeliveryEntry := {|
  id := id e; sequence := sequence e; kind := kind e; policy := policy e; state := s;
  request := request e; request_hash := request_hash e; result_capacity := result_capacity e;
  result_bytes := result_bytes e; result_hash := result_hash e; attempt := attempt e;
  contract := contract e;
|}.

Definition claim_entry (e : DeliveryEntry) (adapter_contract : Z) : DeliveryEntry := {|
  id := id e; sequence := sequence e; kind := kind e; policy := policy e; state := Dispatching;
  request := request e; request_hash := request_hash e; result_capacity := result_capacity e;
  result_bytes := result_bytes e; result_hash := result_hash e; attempt := attempt e + 1;
  contract := Some (unwrap_or (contract e) adapter_contract);
|}.

Definition answer_entry (e : DeliveryEntry) (r h : bytes) : DeliveryEntry := {|
  id := id e; sequence := sequence e; kind := kind e; policy := policy e; state := ResultReady;
  request := request e; request_hash := request_hash e; result_capacity := result_capacity e;
  result_bytes := Some r; result_hash := Some h; attempt := attempt e; contract := contract e;
|}.

Section ledger.
Context `{D : Digest}.

Definition derive_id (namespace : bytes) (sequence : Z) (kind : DeliveryKind)
    (policy : RecoveryPolicy) (request_hash : bytes) (capacity : Z) : DeliveryId :=
  sha256 (id_preimage namespace sequence kind policy request_hash capacity).

Definition digest (l : DeliveryLedger) : bytes := sha256 (ledger_preimage l).

Definition prepare (self : DeliveryLedger) (kind : DeliveryKind) (request : bytes)
    (result_capacity : Z) : result PreparedDelivery DeliveryLedgerError :=
  if (MAX_DELIVERY_BLOB_BYTES <? len request) || (MAX_DELIVERY_BLOB_BYTES <? result_capacity)
  then Err ByteCapacity
  else if MAX_LIVE_DELIVERIES <=? len (live self) then Err LiveCapacity
  else
    let? reservation := reservation_size (len request) result_capacity in
    let? _ := ensure_budget (reserved_bytes self) reservation in
    if (next_sequence self =? 0) || (MAX_DELIVERY_SEQUENCE <? next_sequence self)
    then Err SequenceExhausted
    else
      let policy := recovery_policy kind in
      let request_hash := sha256 request in
      let i := derive_id (namespace self) (next_sequence self) kind policy request_hash result_capacity in
      if contains_id self i then Err DuplicateId
      else Ok {| p_namespace := namespace self; p_id := i; p_sequence := next_sequence self;
                 p_kind := kind; p_policy := policy; p_request := request;
                 p_request_hash := request_hash; p_capacity := result_capacity |}.

(** The entry and the reservation that [enqueue] commits. *)
Definition check_enqueue (self : DeliveryLedger) (p : PreparedDelivery)
  : result Z DeliveryLedgerError :=
  if contains_id self (p_id p) then Err DuplicateId
  else if negb (bool_decide (p_namespace p = namespace self))
          || negb (p_sequence p =? next_sequence self)
  then Err StalePreparation
  else if MAX_LIVE_DELIVERIES <=? len (live self) then Err LiveCapacity
  else
    let? reservation := reservation_size (len (p_request p)) (p_capacity p) in
    let? _ := ensure_budget (reserved_bytes self) reservation in
    if (p_sequence p =? 0) || (MAX_DELIVERY_SEQUENCE <? p_sequence p) then Err SequenceExhausted
    else
      let request_hash := sha256 (p_request p) in
      let expected_id := derive_id (namespace self) (p_sequence p) (p_kind p) (p_policy p)
                           request_hash (p_capacity p) in
      if negb (bool_decide (request_hash = p_request_hash p))
         || negb (bool_decide (expected_id = p_id p))
      then Err CorrelationMismatch
      else Ok reservation.

Definition queued_entry (p : PreparedDelivery) : DeliveryEntry := {|
  id := p_id p; sequence := p_sequence p; kind := p_kind p; policy := p_policy p;
  state := Queued; request := p_request p; request_hash := p_request_hash p;
  result_capacity := p_capacity p; result_bytes := None; result_hash := None; attempt := 0;
  contract := None;
|}.

Definition enqueue (self : DeliveryLedger) (p : PreparedDelivery)
  : DeliveryLedger * result DeliveryId DeliveryLedgerError :=
  match check_enqueue self p with
  | Err e => (self, Err e)
  | Ok reservation =>
      ({| namespace := namespace self; next_sequence := next_sequence self + 1;
          live := live self ++ [queued_entry p]; tombstones := tombstones self;
          reserved_bytes := reserved_bytes self + reservation |}, Ok (p_id p))
  end.

Fixpoint prepare_specs (staged : DeliveryLedger) (specs : list DeliverySpec)
  : result (list PreparedDelivery) DeliveryLedgerError :=
  match specs with
  | [] => Ok []
  | spec :: rest =>
      let? prepared := prepare staged (s_kind spec) (s_request spec) (s_capacity spec) in
      match enqueue staged prepared with
      | (_, Err e) => Err e
      | (staged, Ok _) =>
          let? entries := prepare_specs staged rest in
          Ok (prepared :: entries)
      end
  end.

Definition prepare_batch (self : DeliveryLedger) (specs : list DeliverySpec)
  : result (list PreparedDelivery) DeliveryLedgerError :=
  if is_empty specs then Err EmptyBatch
  else
    match checked_u64 (MAX_LIVE_DELIVERIES - len (live self)) with
    | None => Err LiveCapacity
    | Some remaining =>
        if remaining <? len specs then Err LiveCapacity else prepare_specs self specs
    end.

Fixpoint enqueue_all (staged : DeliveryLedger) (batch : list PreparedDelivery)
  : result (DeliveryLedger * list DeliveryId) DeliveryLedgerError :=
  match batch with
  | [] => Ok (staged, [])
  | prepared :: rest =>
      match enqueue staged prepared with
      | (_, Err e) => Err e
      | (staged, Ok i) =>
          let? (staged, ids) := enqueue_all staged rest in
          Ok (staged, i :: ids)
      end
  end.

Definition enqueue_batch (self : DeliveryLedger) (batch : list PreparedDelivery)
  : DeliveryLedger * result (list DeliveryId) DeliveryLedgerError :=
  if is_empty batch then (self, Err EmptyBatch)
  else
    match enqueue_all self batch with
    | Ok (staged, ids) => (staged, Ok ids)
    | Err e => (self, Err e)
    end.

(** [.iter().enumerate().min_by_key(sequence)]: the first of the smallest. *)
Fixpoint oldest (index : nat) (l : list DeliveryEntry) : option (nat * DeliveryEntry) :=
  match l with
  | [] => None
  | e :: rest =>
      match oldest (S index) rest with
      | Some (j, m) => if sequence e <=? sequence m then Some (index, e) else Some (j, m)
      | None => Some (index, e)
      end
  end.

Definition claim_oldest (self : DeliveryLedger) (adapter_contract : Z)
  : option (DeliveryLedger * result ClaimedDelivery DeliveryLedgerError) :=
  match non_zero adapter_contract with
  | None => Some (self, Err InvalidAdapterContract)
  | Some adapter_contract =>
      if existsb (fun e => bool_decide (state e = Dispatching)) (live self)
      then Some (self, Err DispatchInProgress)
      else
      match oldest 0 (live self) with
      | None => Some (self, Err NoQueuedDelivery)
      | Some (index, e) =>
          if negb (bool_decide (state e = Queued)) then Some (self, Err (HeadOfLineBlocked (state e)))
          else if match contract e with
                  | Some expected => negb (expected =? adapter_contract)
                  | None => false
                  end
          then Some (self, Err AdapterContractMismatch)
          else if MAX_DELIVERY_ATTEMPTS <=? attempt e then Some (self, Err AttemptsExhausted)
          else
            let e := claim_entry e adapter_contract in
            let! correlation := entry_correlation e in
            Some (set_live self index e,
                  Ok {| correlation := correlation; cl_sequence := sequence e; cl_kind := kind e;
                        cl_policy := policy e; cl_request := request e;
                        cl_capacity := result_capacity e |})
      end
  end.

Definition location_capacity (l : CorrelatedLocation) : Z :=
  match l with Live _ e => result_capacity e | Tombstone _ t => t_capacity t end.

Definition record_result (self : DeliveryLedger) (c : DeliveryCorrelation) (r : bytes)
  : DeliveryLedger * result RecordResultOutcome DeliveryLedgerError :=
  if MAX_DELIVERY_BLOB_BYTES <? len r then (self, Err ResultTooLarge)
  else
  match correlated_location self c with
  | Err e => (self, Err e)
  | Ok location =>
      if location_capacity location <? len r then (self, Err ResultTooLarge)
      else
      let h := sha256 r in
      match location with
      | Tombstone _ t =>
          if bool_decide (t_result_hash t = h) then (self, Ok AlreadyRecorded)
          else (self, Err ConflictingResult)
      | Live index e =>
          match state e with
          | ResultReady =>
              if bool_decide (result_bytes e = Some r) && bool_decide (result_hash e = Some h)
              then (self, Ok AlreadyRecorded)
              else (self, Err ConflictingResult)
          | Queued => (self, Err (InvalidTransition Queued "recordResult"))
          | Dispatching | Ambiguous => (set_live self index (answer_entry e r h), Ok Recorded)
          end
      end
  end.

Definition mark_ambiguous (self : DeliveryLedger) (c : DeliveryCorrelation)
  : DeliveryLedger * result unit DeliveryLedgerError :=
  match live_location self c with
  | Err e => (self, Err e)
  | Ok (index, e) =>
      match state e with
      | Dispatching => (set_live self index (set_state e Ambiguous), Ok tt)
      | from => (self, Err (InvalidTransition from "markAmbiguous"))
      end
  end.

Definition replayable (p : RecoveryPolicy) : bool :=
  match p with ReplaySafe | ReconcileBeforeRetry => true | _ => false end.

Definition resolve_not_performed (self : DeliveryLedger) (c : DeliveryCorrelation)
  : DeliveryLedger * result unit DeliveryLedgerError :=
  match live_location self c with
  | Err e => (self, Err e)
  | Ok (index, e) =>
      if negb (bool_decide (state e = Ambiguous))
      then (self, Err (InvalidTransition (state e) "resolveNotPerformed"))
      else if negb (replayable (policy e)) then (self, Err (RecoveryPolicyDenied (policy e)))
      else if MAX_DELIVERY_ATTEMPTS <=? attempt e then (self, Err AttemptsExhausted)
      else (set_live self index (set_state e Queued), Ok tt)
  end.

Definition ready_result (self : DeliveryLedger) (c : DeliveryCorrelation)
  : option (result bytes DeliveryLedgerError) :=
  match live_location self c with
  | Err e => Some (Err e)
  | Ok (_, e) =>
      if negb (bool_decide (state e = ResultReady))
      then Some (Err (InvalidTransition (state e) "readyResult"))
      else let! r := result_bytes e in Some (Ok r)
  end.

Definition consume_ready (self : DeliveryLedger) (c : DeliveryCorrelation)
  : option (DeliveryLedger * result (option DeliveryId) DeliveryLedgerError) :=
  match live_location self c with
  | Err e => Some (self, Err e)
  | Ok (index, e) =>
      if negb (bool_decide (state e = ResultReady))
      then Some (self, Err (InvalidTransition (state e) "consumeReady"))
      else
        let! reservation := ok (reservation_size (len (request e)) (result_capacity e)) in
        let! reserved := checked_u64 (reserved_bytes self - reservation) in
        let rotates := len (tombstones self) =? MAX_DELIVERY_TOMBSTONES in
        let rotated_out := if rotates then option_map t_id (List.hd_error (tombstones self)) else None in
        let kept := if rotates then List.tl (tombstones self) else tombstones self in
        let! contract := contract e in
        let! hash := result_hash e in
        Some ({| namespace := namespace self; next_sequence := next_sequence self;
                 live := delete index (live self);
                 tombstones := kept ++
                   [{| t_id := id e; t_sequence := sequence e; t_kind := kind e; t_policy := policy e;
                       t_request_hash := request_hash e; t_capacity := result_capacity e;
                       t_attempt := attempt e; t_contract := contract; t_result_hash := hash;
                       t_disposition := ResultConsumed |}];
                 reserved_bytes := reserved |}, Ok rotated_out)
  end.

(** ** Restoring a checkpoint *)

Definition retained_bounds (next_sequence retained_count : Z) : bool :=
  if retained_count =? 0 then next_sequence =? 1 else retained_count <? next_sequence.

Definition attempts_in (n : Z) : bool := (1 <=? n) && (n <=? MAX_DELIVERY_ATTEMPTS).

Definition restore_tombstone (namespace : bytes) (expected : Z) (ids : BTreeMap bytes unit)
    (t : RestoredTombstone) : bool :=
  (t_sequence t =? expected) && negb (t_sequence t =? 0) && (t_sequence t <=? MAX_DELIVERY_SEQUENCE)
  && bool_decide (t_policy t = recovery_policy (t_kind t))
  && (t_capacity t <=? MAX_DELIVERY_BLOB_BYTES) && attempts_in (t_attempt t)
  && is_some (non_zero (t_contract t))
  && bool_decide (t_id t = derive_id namespace (t_sequence t) (t_kind t) (t_policy t)
                             (t_request_hash t) (t_capacity t))
  && negb (existsb (fun e => bool_decide (fst e = t_id t)) ids).

Fixpoint restore_tombstones (namespace : bytes) (expected : Z) (ids : BTreeMap bytes unit)
    (l : list RestoredTombstone) : option (Z * BTreeMap bytes unit) :=
  match l with
  | [] => Some (expected, ids)
  | t :: rest =>
      if restore_tombstone namespace expected ids t
      then restore_tombstones namespace (expected + 1) ((t_id t, tt) :: ids) rest
      else None
  end.

Definition valid_state (e : RestoredDelivery) : bool :=
  match state e with
  | Queued =>
      is_none (result_bytes e) && is_none (result_hash e)
      && (((attempt e =? 0) && is_none (contract e))
          || ((1 <=? attempt e) && (attempt e <? MAX_DELIVERY_ATTEMPTS)
              && is_some (contract e) && replayable (policy e)))
  | Dispatching | Ambiguous =>
      attempts_in (attempt e) && is_some (contract e)
      && is_none (result_bytes e) && is_none (result_hash e)
  | ResultReady =>
      attempts_in (attempt e) && is_some (contract e)
      && is_some (result_bytes e) && is_some (result_hash e)
  end.

Definition pristine (e : RestoredDelivery) : bool :=
  bool_decide (state e = Queued) && (attempt e =? 0) && is_none (contract e)
  && is_none (result_bytes e) && is_none (result_hash e).

Definition result_fits (e : RestoredDelivery) : bool :=
  match result_bytes e with
  | Some r => (len r <=? MAX_DELIVERY_BLOB_BYTES) && (len r <=? result_capacity e)
  | None => true
  end.

Definition result_hashed (e : RestoredDelivery) : bool :=
  match result_bytes e, result_hash e with
  | Some r, Some h => bool_decide (sha256 r = h)
  | _, _ => true
  end.

(** One live entry: its checks, in order; the reserved bytes after it. *)
Definition restore_entry (namespace : bytes) (index : nat) (expected reserved : Z)
    (ids : BTreeMap bytes unit) (e : RestoredDelivery) : result Z DeliveryLedgerError :=
  if negb (sequence e =? expected) || (sequence e =? 0) || (MAX_DELIVERY_SEQUENCE <? sequence e)
     || negb (bool_decide (policy e = recovery_policy (kind e)))
     || (MAX_DELIVERY_BLOB_BYTES <? len (request e))
     || (MAX_DELIVERY_BLOB_BYTES <? result_capacity e)
  then Err InvalidSnapshot
  else
    let? reservation := reservation_size (len (request e)) (result_capacity e) in
    let? _ := ensure_budget reserved reservation in
    if negb (bool_decide (sha256 (request e) = request_hash e)) then Err InvalidSnapshot
    else if negb (bool_decide (id e = derive_id namespace (sequence e) (kind e) (policy e)
                                        (request_hash e) (result_capacity e)))
            || existsb (fun x => bool_decide (fst x = id e)) ids
    then Err InvalidSnapshot
    else if match contract e with Some c => is_none (non_zero c) | None => false end
    then Err InvalidSnapshot
    else if negb (result_fits e) || negb (Bool.eqb (is_some (result_bytes e)) (is_some (result_hash e)))
    then Err InvalidSnapshot
    else if negb (result_hashed e) then Err InvalidSnapshot
    else if negb (valid_state e) || negb ((index =? 0)%nat || pristine e) then Err InvalidSnapshot
    else Ok (reserved + reservation).

Fixpoint restore_entries (namespace : bytes) (index : nat) (expected reserved : Z)
    (ids : BTreeMap bytes unit) (l : list RestoredDelivery) : result (Z * Z) DeliveryLedgerError :=
  match l with
  | [] => Ok (expected, reserved)
  | e :: rest =>
      let? reserved := restore_entry namespace index expected reserved ids e in
      restore_entries namespace (S index) (expected + 1) reserved ((id e, tt) :: ids) rest
  end.

Definition restore_checked (namespace : bytes) (next_sequence : Z)
    (restored_live : list RestoredDelivery) (restored_tombstones : list RestoredTombstone)
    (expected_digest : bytes) : result DeliveryLedger DeliveryLedgerError :=
  if (MAX_LIVE_DELIVERIES <? len restored_live)
     || (MAX_DELIVERY_TOMBSTONES <? len restored_tombstones)
     || (next_sequence =? 0) || (MAX_DELIVERY_SEQUENCE + 1 <? next_sequence)
  then Err InvalidSnapshot
  else
    let retained_count := len restored_live + len restored_tombstones in
    if negb (retained_bounds next_sequence retained_count) then Err InvalidSnapshot
    else
      match restore_tombstones namespace (next_sequence - retained_count) [] restored_tombstones with
      | None => Err InvalidSnapshot
      | Some (expected, ids) =>
          let? (expected, reserved) := restore_entries namespace 0 expected 0 ids restored_live in
          if negb (expected =? next_sequence) then Err InvalidSnapshot
          else
            let ledger := {| namespace := namespace; next_sequence := next_sequence;
                             live := restored_live; tombstones := restored_tombstones;
                             reserved_bytes := reserved |} in
            if negb (bool_decide (digest ledger = expected_digest)) then Err SnapshotDigestMismatch
            else Ok ledger
      end.
End ledger.

(** ** Well-formed ledgers *)

Fixpoint ordered (from : Z) (l : list Z) : Prop :=
  match l with [] => True | x :: rest => x = from /\ ordered (from + 1) rest end.

Definition weight (e : DeliveryEntry) : Z := len (request e) + result_capacity e.
Definition total (l : list DeliveryEntry) : Z := foldr (fun e n => weight e + n) 0 l.

Definition contract_ok (o : option Z) : Prop :=
  match o with Some c => 1 <= c <= U64_MAX | None => True end.

(** The Rust types of the fields that a checkpoint supplies. *)
Definition entry_typed (e : DeliveryEntry) : Prop :=
  0 <= result_capacity e /\ match contract e with Some c => is_u64 c = true | None => True end.
Definition tombstone_typed (t : DeliveryTombstone) : Prop :=
  0 <= t_capacity t /\ is_u64 (t_contract t) = true
  /\ length (t_request_hash t) = 32%nat /\ length (t_result_hash t) = 32%nat.

Section invariant.
Context `{D : Digest}.

Definition tombstone_ok (ns : bytes) (t : DeliveryTombstone) : Prop :=
  t_policy t = recovery_policy (t_kind t)
  /\ 0 <= t_capacity t <= MAX_DELIVERY_BLOB_BYTES
  /\ 1 <= t_attempt t <= MAX_DELIVERY_ATTEMPTS
  /\ 1 <= t_contract t <= U64_MAX
  /\ length (t_request_hash t) = 32%nat /\ length (t_result_hash t) = 32%nat
  /\ t_id t = derive_id ns (t_sequence t) (t_kind t) (t_policy t) (t_request_hash t) (t_capacity t).

Definition entry_ok (ns : bytes) (e : DeliveryEntry) : Prop :=
  policy e = recovery_policy (kind e)
  /\ len (request e) <= MAX_DELIVERY_BLOB_BYTES
  /\ 0 <= result_capacity e <= MAX_DELIVERY_BLOB_BYTES
  /\ request_hash e = sha256 (request e)
  /\ id e = derive_id ns (sequence e) (kind e) (policy e) (request_hash e) (result_capacity e)
  /\ contract_ok (contract e)
  /\ result_fits e = true /\ result_hashed e = true /\ valid_state e = true.

Record ledger_ok (l : DeliveryLedger) : Prop := {
  ok_next : 1 <= next_sequence l <= MAX_DELIVERY_SEQUENCE + 1;
  ok_retained : len (tombstones l) + len (live l) < next_sequence l;
  ok_fresh : live l = [] -> tombstones l = [] -> next_sequence l = 1;
  ok_live : len (live l) <= MAX_LIVE_DELIVERIES;
  ok_tombstones : len (tombstones l) <= MAX_DELIVERY_TOMBSTONES;
  ok_ordered : ordered (next_sequence l - (len (tombstones l) + len (live l)))
                 (map t_sequence (tombstones l) ++ map sequence (live l));
  ok_ids : NoDup (map t_id (tombstones l) ++ map id (live l));
  ok_terminal : Forall (tombstone_ok (namespace l)) (tombstones l);
  ok_entries : Forall (entry_ok (namespace l)) (live l);
  ok_followers : Forall (fun e => pristine e = true) (List.tl (live l));
  ok_reserved : reserved_bytes l = total (live l);
  ok_budget : reserved_bytes l <= MAX_RESERVED_DELIVERY_BYTES;
}.
End invariant.

Ltac bounds := unfold MAX_RESERVED_DELIVERY_BYTES, MAX_DELIVERY_BLOB_BYTES, MAX_DELIVERY_SEQUENCE,
  MAX_LIVE_DELIVERIES, MAX_DELIVERY_TOMBSTONES, MAX_DELIVERY_ATTEMPTS in *; width.

Lemma ordered_app from l k : ordered from (l ++ k) <-> ordered from l /\ ordered (from + len l) k.
Proof.
  revert from. induction l as [|x l IH]; intros from; cbn [app ordered].
  - rewrite len_nil, Z.add_0_r. tauto.
  - rewrite IH, len_cons. replace (from + (1 + len l)) with (from + 1 + len l) by lia. tauto.
Qed.

Lemma total_cons e l : total (e :: l) = weight e + total l.
Proof. done. Qed.

Lemma total_app l k : total (l ++ k) = total l + total k.
Proof.
  induction l as [|e l IH]; [by cbn|]. change ((e :: l) ++ k) with (e :: (l ++ k)).
  rewrite !total_cons. lia.
Qed.

Lemma usize_add_Some a b : 0 <= a + b <= U64_MAX -> usize_add a b = Some (a + b).
Proof.
  intros H. unfold usize_add, checked_u64. replace (is_u64 (a + b)) with true; [done|].
  unfold is_u64. symmetry. apply andb_true_iff. split; apply Z.leb_le; lia.
Qed.

Lemma ensure_budget_iff current additional :
  0 <= current -> 0 <= additional <= U64_MAX ->
  ensure_budget current additional = Ok tt <-> current + additional <= MAX_RESERVED_DELIVERY_BYTES.
Proof.
  intros Hc Ha. unfold ensure_budget, usize_add, checked_u64.
  destruct (is_u64 (current + additional)) eqn:E.
  - cbn. destruct (Z.ltb_spec MAX_RESERVED_DELIVERY_BYTES (current + additional));
      split; (done || lia).
  - cbn. split; [done|]. unfold is_u64 in E. bounds. lia.
Qed.

Lemma reservation_size_ok n m :
  0 <= n <= MAX_DELIVERY_BLOB_BYTES -> 0 <= m <= MAX_DELIVERY_BLOB_BYTES ->
  reservation_size n m = Ok (n + m).
Proof. intros. unfold reservation_size. rewrite usize_add_Some; [done|]. bounds. lia. Qed.

Lemma valid_state_results e :
  valid_state e = true -> Bool.eqb (is_some (result_bytes e)) (is_some (result_hash e)) = true.
Proof. unfold valid_state. destruct (state e), (result_bytes e), (result_hash e); cbn; try done; by rewrite ?andb_false_r. Qed.

Lemma total_nonneg `{D : Digest} ns l : Forall (entry_ok ns) l -> 0 <= total l.
Proof.
  induction 1 as [|e l He _ IH]; [done|]. rewrite total_cons.
  destruct He as (_ & _ & ? & _). pose proof (len_nonneg (request e)). unfold weight. lia.
Qed.

(** ** What a checkpoint restore accepts *)
Section restoring.
Context `{D : Digest}.

Lemma contract_checked e :
  entry_typed e ->
  match contract e with Some c => is_none (non_zero c) | None => false end = false
  <-> contract_ok (contract e).
Proof.
  unfold entry_typed, contract_ok, non_zero. intros [_ H]. destruct (contract e) as [c|]; [|done].
  unfold is_u64 in H. bool_prop. destruct (Z.eqb_spec c 0); cbn; split; (done || lia).
Qed.

Lemma not_seen (ids : BTreeMap bytes unit) i :
  existsb (fun x => bool_decide (fst x = i)) ids = false <-> ~ In i (map fst ids).
Proof.
  rewrite <- not_true_iff_false, existsb_exists, in_map_iff.
  split; intros H (x & ? & ?); apply H; exists x; rewrite ?bool_decide_eq_true in *; tauto.
Qed.

Lemma restore_entry_iff ns i expected reserved ids e reserved' :
  entry_typed e -> 0 <= reserved -> 1 <= expected <= MAX_DELIVERY_SEQUENCE ->
  restore_entry ns i expected reserved ids e = Ok reserved' <->
  sequence e = expected /\ entry_ok ns e /\ (i = 0%nat \/ pristine e = true)
  /\ ~ In (id e) (map fst ids) /\ reserved' = reserved + weight e
  /\ reserved' <= MAX_RESERVED_DELIVERY_BYTES.
Proof.
  intros Ht Hr Hexp. pose proof (contract_checked e Ht) as Hc. destruct Ht as [Hcap _].
  pose proof (len_nonneg (request e)). unfold restore_entry.
  destruct (_ || _) eqn:G1; cycle 1.
  2:{ split; [done|]. intros (Hs & (Hp & Hl & Hm & _) & _). rewrite (bool_decide_true _ Hp) in G1.
      cbn in G1. bounds. lia. }
  bool_prop. rewrite bool_decide_eq_true in *.
  rewrite reservation_size_ok by lia. cbn [ok_or]. fold (weight e).
  pose proof (ensure_budget_iff reserved (weight e)) as Hbud. unfold weight in Hbud at 1 2. 
  destruct (ensure_budget reserved (weight e)) as [[]|] eqn:Eb.
  2:{ split; [done|]. intros (_ & _ & _ & _ & -> & Hle). apply Hbud in Hle; [done|lia|bounds; lia]. }
  assert (reserved + weight e <= MAX_RESERVED_DELIVERY_BYTES) as Hle by (apply Hbud; [lia|bounds; lia|done]).
  unfold entry_ok.
  case_bool_decide as Hh; cbn [negb]; [|split; [done|intros (_ & (_&_&_&?&_) & _); congruence]].
  case_bool_decide as Hi; cbn [negb orb]; [|split; [done|intros (_ & (_&_&_&_&?&_) & _); congruence]].
  destruct (existsb (fun x => bool_decide (fst x = id e)) ids) eqn:Es.
  { split; [done|]. intros (_ & _ & _ & Hn & _). apply not_seen in Hn. discriminate (eq_trans (eq_sym Hn) Es). }
  apply not_seen in Es. destruct (match contract e with Some c => _ | None => false end) eqn:Ec.
  { split; [done|]. intros (_ & (_&_&_&_&_&Hk&_) & _). by apply Hc in Hk. }
  pose proof (proj1 Hc eq_refl) as Hk. clear Hc Ec. split.
  - destruct (result_fits e), (Bool.eqb _ _), (result_hashed e), (valid_state e); try done. cbn [negb orb].
    destruct (_ || _) eqn:Ep; cbn [negb]; [|done]. intros [= <-]. 
    repeat split; try done; try lia. apply orb_true_iff in Ep as [?%Nat.eqb_eq|]; auto.
  - intros (_ & (_&_&_&_&_&_&-> & -> & Hv) & Hp & _ & -> & _).
    rewrite (valid_state_results e Hv), Hv. cbn [negb orb].
    replace ((i =? 0)%nat || pristine e) with true; [done|].
    symmetry. apply orb_true_iff. destruct Hp as [->|]; auto.
Qed.
Lemma restore_entries_iff ns l : forall i expected reserved (ids : BTreeMap bytes unit) r,
  Forall entry_typed l -> 0 <= reserved <= MAX_RESERVED_DELIVERY_BYTES ->
  1 <= expected -> expected + len l <= MAX_DELIVERY_SEQUENCE + 1 ->
  restore_entries ns i expected reserved ids l = Ok r <->
  r = (expected + len l, reserved + total l)
  /\ ordered expected (map sequence l) /\ Forall (entry_ok ns) l
  /\ Forall (fun e => pristine e = true) (if (i =? 0)%nat then List.tl l else l)
  /\ NoDup (map id l) /\ (forall x, In x (map fst ids) -> ~ In x (map id l))
  /\ reserved + total l <= MAX_RESERVED_DELIVERY_BYTES.
Proof.
  induction l as [|e l IH]; intros i expected reserved ids r Ht Hr He Hmax.
  { cbn. rewrite len_nil, !Z.add_0_r. split; [intros [= <-]|by intros (-> & _)].
    split; [done|]. split; [done|]. split; [constructor|].
    split; [by destruct (i =? 0)%nat|]. split; [apply NoDup_nil_2|]. split; [auto|lia]. }
  apply Forall_cons_iff in Ht as [Hte Ht]. rewrite len_cons in Hmax. pose proof (len_nonneg l).
  cbn [restore_entries map ordered]. rewrite len_cons, total_cons.
  pose proof (fun r' => restore_entry_iff ns i expected reserved ids e r' Hte ltac:(lia) ltac:(lia)) as Hent.
  split.
  - destruct (restore_entry ns i expected reserved ids e) as [reserved'|] eqn:E; [|done].
    pose proof (proj1 (Hent reserved') eq_refl) as (Hs & Hok & Hp & Hn & -> & Hb).
    assert (0 <= weight e) as Hw by (pose proof (total_nonneg ns [e] ltac:(by constructor)); cbn in *; lia).
    intros H1. apply IH in H1 as (-> & Ho & Hf & Hpr & Hnd & Hdis & Htot); [|done|lia|lia|lia].
    cbn in Hpr. split; [f_equal; lia|]. split; [done|]. split; [by constructor|]. split.
    { destruct i; cbn; [done|]. destruct Hp as [|]; [done|]. by constructor. }
    split; [|split; [|lia]].
    + constructor; [|done]. rewrite list_elem_of_In. intros Hin. apply (Hdis (id e)); [by left|done].
    + intros x Hx [<-|Hin]; [done|]. apply (Hdis x); [by right|done].
  - intros (-> & (Hs & Ho) & Hf & Hpr & Hnd & Hdis & Htot). apply Forall_cons_iff in Hf as [Hok Hf].
    apply list.NoDup_cons in Hnd as [Hn Hnd]. rewrite list_elem_of_In in Hn.
    pose proof (total_nonneg ns l Hf) as Hw.
    rewrite (proj2 (Hent (reserved + weight e))).
    + apply IH; [done| |lia|lia|].
      { pose proof (total_nonneg ns [e] ltac:(by constructor)); cbn in *; lia. }
      split; [f_equal; lia|]. split; [done|]. split; [done|]. split.
      { cbn. destruct i; cbn in Hpr; [done|]. by apply Forall_cons_iff in Hpr as [_ Hpr]. }
      split; [done|]. split; [|lia]. cbn [map fst]. intros x [<-|Hx]; [done|].
      intros Hin. apply (Hdis x Hx). by right.
    + split; [done|]. split; [done|]. split; [|split; [|split; [done|lia]]].
      * destruct i; [by left|right]. by apply Forall_cons_iff in Hpr as [Hpr _].
      * intros Hin. apply (Hdis _ Hin). by left.
Qed.

Lemma restore_tombstone_iff ns expected (ids : BTreeMap bytes unit) t :
  tombstone_typed t -> 1 <= expected <= MAX_DELIVERY_SEQUENCE ->
  restore_tombstone ns expected ids t = true <->
  t_sequence t = expected /\ tombstone_ok ns t /\ ~ In (t_id t) (map fst ids).
Proof.
  intros (Hcap & Hc & Hlq & Hlr) Hexp. unfold restore_tombstone, tombstone_ok, attempts_in, non_zero, is_u64 in *.
  rewrite !andb_true_iff, !bool_decide_eq_true, !negb_true_iff, not_seen in *.
  rewrite !Z.leb_le, !Z.eqb_eq, !Z.eqb_neq in *.
  destruct (Z.eqb_spec (t_contract t) 0); cbn; split; try (intuition (done || lia)).
Qed.

Lemma restore_tombstones_iff ns l : forall expected (ids : BTreeMap bytes unit) r,
  Forall tombstone_typed l -> 1 <= expected -> expected + len l <= MAX_DELIVERY_SEQUENCE + 1 ->
  restore_tombstones ns expected ids l = Some r <->
  r = (expected + len l, rev (map (fun t => (t_id t, tt)) l) ++ ids)
  /\ ordered expected (map t_sequence l) /\ Forall (tombstone_ok ns) l
  /\ NoDup (map t_id l) /\ (forall x, In x (map fst ids) -> ~ In x (map t_id l)).
Proof.
  induction l as [|t l IH]; intros expected ids r Ht He Hmax.
  { cbn. rewrite len_nil, Z.add_0_r. split; [intros [= <-]|by intros (-> & _)].
    split; [done|]. split; [done|]. split; [constructor|]. split; [apply NoDup_nil_2|auto]. }
  apply Forall_cons_iff in Ht as [Htt Ht]. rewrite len_cons in Hmax. pose proof (len_nonneg l).
  cbn [restore_tombstones map ordered rev]. rewrite len_cons, <- app_assoc.
  pose proof (restore_tombstone_iff ns expected ids t Htt ltac:(lia)) as Hent.
  split.
  - destruct (restore_tombstone ns expected ids t) eqn:E; [|done].
    pose proof (proj1 Hent eq_refl) as (Hs & Hok & Hn).
    intros H1. apply IH in H1 as (-> & Ho & Hf & Hnd & Hdis); [|done|lia|lia].
    split; [f_equal; lia|]. split; [done|]. split; [by constructor|]. split.
    + constructor; [|done]. rewrite list_elem_of_In. intros Hin. apply (Hdis (t_id t)); [by left|done].
    + intros x Hx [<-|Hin]; [done|]. apply (Hdis x); [by right|done].
  - intros (-> & (Hs & Ho) & Hf & Hnd & Hdis). apply Forall_cons_iff in Hf as [Hok Hf].
    apply list.NoDup_cons in Hnd as [Hn Hnd]. rewrite list_elem_of_In in Hn.
    rewrite (proj2 Hent).
    + apply IH; [done|lia|lia|].
      split; [f_equal; lia|]. split; [done|]. split; [done|]. split; [done|].
      cbn [map fst]. intros x [<-|Hx]; [done|]. intros Hin. apply (Hdis x Hx). by right.
    + split; [done|]. split; [done|]. intros Hin. apply (Hdis _ Hin). by left.
Qed.

Lemma restore_checked_iff ns n entries ts d l :
  is_u64 n = true -> Forall entry_typed entries -> Forall tombstone_typed ts ->
  restore_checked ns n entries ts d = Ok l <->
  ledger_ok l /\ namespace l = ns /\ next_sequence l = n /\ live l = entries
  /\ tombstones l = ts /\ digest l = d.
Proof.
  intros Hn He Ht. unfold is_u64 in Hn. apply andb_true_iff in Hn as [Hn0 Hn1].
  rewrite Z.leb_le in *. pose proof (len_nonneg entries). pose proof (len_nonneg ts).
  unfold restore_checked, retained_bounds. destruct (_ || _) eqn:G.
  { split; [done|]. intros ([Hnext _ _ Hlive Htomb] & <- & <- & <- & <- & _).
    rewrite !orb_true_iff, !Z.ltb_lt, Z.eqb_eq in G. exfalso. bounds. lia. }
  bool_prop. destruct (negb _) eqn:Gr.
  { split; [done|]. intros ([_ Hret Hfr] & <- & <- & <- & <- & _).
    destruct (Z.eqb_spec (len (live l) + len (tombstones l)) 0); bool_prop; [|lia].
    unfold len in *. rewrite Hfr in Gr; [done|apply nil_length_inv; lia..]. }
  assert (len entries + len ts < n /\ (entries = [] -> ts = [] -> n = 1)) as [Hret Hfresh].
  { destruct (Z.eqb_spec (len entries + len ts) 0); bool_prop; [split; lia|].
    split; [done|]. intros -> ->. by rewrite len_nil in *. }
  set (start := n - (len entries + len ts)). assert (1 <= start) by (unfold start; lia).
  pose proof (fun r => restore_tombstones_iff ns ts start [] r Ht ltac:(lia) ltac:(unfold start; lia)) as HT.
  pose proof (fun ids r => restore_entries_iff ns entries 0 (start + len ts) 0 ids r He
    ltac:(bounds; lia) ltac:(lia) ltac:(unfold start; lia)) as HE.
  split.
  - destruct (restore_tombstones _ _ _ _) as [[expected ids]|] eqn:Et; [|done].
    pose proof (proj1 (HT (expected, ids)) eq_refl) as ([= -> ->] & Ho & Hft & Hnd & _).
    destruct (restore_entries _ _ _ _ _ _) as [[expected' reserved]|] eqn:Ee; [|done].
    apply HE in Ee as ([= -> ->] & Ho' & Hfe & Hp & Hnd' & Hdis & Htot).
    clear Gr. destruct (negb _) eqn:En; [done|]. case_bool_decide as Ed; cbn [negb]; [|done].
    intros [= <-]. cbn [namespace next_sequence live tombstones]. split; [|done].
    constructor; cbn [namespace next_sequence live tombstones reserved_bytes]; try done; try lia; try (bounds; lia).
    + rewrite ordered_app, len_map. split; [|].
      * by replace (n - (len ts + len entries)) with start by (unfold start; lia).
      * by replace (n - (len ts + len entries) + len ts) with (start + len ts) by (unfold start; lia).
    + apply list.NoDup_app. split; [done|]. split; [|done]. intros x Hx. rewrite list_elem_of_In in *.
      apply Hdis. rewrite app_nil_r, map_rev, <- in_rev, map_map. done.
  - intros (Hok & <- & <- & <- & <- & <-). destruct Hok. 
    rewrite ordered_app, len_map in ok_ordered0. destruct ok_ordered0 as [Ho Ho'].
    replace (next_sequence l - (len (tombstones l) + len (live l))) with start in * by (unfold start; lia).
    apply list.NoDup_app in ok_ids0 as (Hnd & Hdis & Hnd').
    rewrite (proj2 (HT (start + len (tombstones l), rev (map (fun t => (t_id t, tt)) (tombstones l)) ++ []))).
    2:{ repeat split; (done || intros ? []). }
    rewrite (proj2 (HE _ (start + len (tombstones l) + len (live l), 0 + total (live l)))).
    2:{ repeat split; try done; [|lia]. intros x. rewrite app_nil_r, map_rev, <- in_rev, map_map.
        specialize (Hdis x). rewrite !list_elem_of_In in Hdis. done. }
    cbn [negb]. replace (start + len (tombstones l) + len (live l)) with (next_sequence l) by (unfold start; lia).
    rewrite Z.eqb_refl. cbn [negb]. rewrite Z.add_0_l, <- ok_reserved0.
    replace {| namespace := namespace l; next_sequence := next_sequence l; live := live l;
               tombstones := tombstones l; reserved_bytes := reserved_bytes l |} with l by (by destruct l).
    by rewrite bool_decide_true.
Qed.
End restoring.
