(* ===== verification/DeliveryRun.v ===== *)
(** * What a delivery ledger does (crates/wallet-core/src/delivery.rs)

    The ledger of Delivery.v as a machine that appends pristine entries, moves
    its oldest entry, or turns that entry into a tombstone: every operation is
    a run of these steps.  From this the theorems on whole lives of a ledger:
    it stays well formed and never panics, it claims nothing twice against a
    delivery's policy, it can be drained, its retries end, and its checkpoint
    restores only itself. *)

From Stdlib Require Import Sorted.
From stdpp Require Import relations.
From S2P Require Import Prelude BTree Boundary Delivery.

Open Scope Z_scope.
Open Scope rust_scope.

(** ** The head-of-line machine

    What an operation does to a well-formed ledger: it appends a pristine
    entry, moves the oldest one, or turns it into a tombstone. *)
Section machine.
Context `{D : Digest} {DL : DigestLaws}.

(** How the oldest entry moves. *)
Inductive head_step (e : DeliveryEntry) : DeliveryEntry -> Prop :=
| Claimed c :
    state e = Queued -> attempt e < MAX_DELIVERY_ATTEMPTS -> 1 <= c <= U64_MAX ->
    match contract e with Some expected => expected = c | None => True end ->
    head_step e (claim_entry e c)
| Answered r :
    state e = Dispatching \/ state e = Ambiguous ->
    len r <= MAX_DELIVERY_BLOB_BYTES -> len r <= result_capacity e ->
    head_step e (answer_entry e r (sha256 r))
| MarkedAmbiguous : state e = Dispatching -> head_step e (set_state e Ambiguous)
| Requeued :
    state e = Ambiguous -> replayable (policy e) = true -> attempt e < MAX_DELIVERY_ATTEMPTS ->
    head_step e (set_state e Queued).

(** A preparation that [prepare] made, of this or another ledger. *)
Definition made (p : PreparedDelivery) : Prop :=
  exists l k r c, 0 <= c /\ prepare l k r c = Ok p.

Definition tombstone_of (e : DeliveryEntry) (c : Z) (h : bytes) : DeliveryTombstone := {|
  t_id := id e; t_sequence := sequence e; t_kind := kind e; t_policy := policy e;
  t_request_hash := request_hash e; t_capacity := result_capacity e; t_attempt := attempt e;
  t_contract := c; t_result_hash := h; t_disposition := ResultConsumed;
|}.

Definition rotated (ts : list DeliveryTombstone) : list DeliveryTombstone :=
  if len ts =? MAX_DELIVERY_TOMBSTONES then List.tl ts else ts.

Definition consumed (l : DeliveryLedger) (e : DeliveryEntry) (rest : list DeliveryEntry) (c : Z)
    (h : bytes) : DeliveryLedger := {|
  namespace := namespace l; next_sequence := next_sequence l; live := rest;
  tombstones := rotated (tombstones l) ++ [tombstone_of e c h];
  reserved_bytes := reserved_bytes l - weight e;
|}.

Definition pushed (l : DeliveryLedger) (p : PreparedDelivery) : DeliveryLedger := {|
  namespace := namespace l; next_sequence := next_sequence l + 1;
  live := live l ++ [queued_entry p]; tombstones := tombstones l;
  reserved_bytes := reserved_bytes l + weight (queued_entry p);
|}.

(** A move of the oldest entry, or its consumption. *)
Inductive retire_step (l : DeliveryLedger) : DeliveryLedger -> Prop :=
| Moved e rest e' : live l = e :: rest -> head_step e e' -> retire_step l (set_live l 0 e')
| Consumed e rest c h :
    live l = e :: rest -> state e = ResultReady -> contract e = Some c -> result_hash e = Some h ->
    retire_step l (consumed l e rest c h).

Inductive ledger_step (l : DeliveryLedger) : DeliveryLedger -> Prop :=
| Pushed p : made p -> check_enqueue l p = Ok (weight (queued_entry p)) -> ledger_step l (pushed l p)
| Retired l' : retire_step l l' -> ledger_step l l'.

Lemma head_step_ok ns e e' :
  head_step e e' -> entry_ok ns e ->
  entry_ok ns e' /\ id e' = id e /\ sequence e' = sequence e /\ weight e' = weight e
  /\ request e' = request e /\ policy e' = policy e.
Proof.
  intros Hs (Hp & Hl & Hc & Hh & Hi & Hk & Hf & Hr & Hv). unfold entry_ok.
  destruct Hs as [c Hq Ha Hcr Hm|r Hq Hb Hcap|Hq|Hq Hpol Ha]; cbn; (split; [|done]);
    do 5 (split; [done|]); unfold valid_state, attempts_in in *; rewrite ?Hq in *;
    unfold result_fits, result_hashed in *; cbn in *.
  - split; [by destruct (contract e) as [k|]; cbn in *; subst|]. split; [done|]. split; [done|].
    bool_prop. destruct (result_bytes e), (result_hash e); try done. cbn. rewrite !andb_true_r.
    bounds. apply orb_true_iff in H0 as [|]; bool_prop; apply andb_true_iff; rewrite !Z.leb_le; lia.
  - split; [done|]. split; [|split; [by rewrite bool_decide_true|]].
    { apply andb_true_iff. by rewrite !Z.leb_le. }
    destruct Hq as [Hq|Hq]; rewrite Hq in Hv; bool_prop; by rewrite !andb_true_iff, !Z.leb_le.
  - done.
  - split; [done|]. split; [done|]. split; [done|]. bool_prop. bounds.
    destruct (result_bytes e), (result_hash e); try done. cbn. apply orb_true_iff. right.
    rewrite !andb_true_iff, Z.leb_le, Z.ltb_lt. auto.
Qed.

Lemma pristine_queued e : pristine e = true -> state e = Queued /\ attempt e = 0.
Proof. unfold pristine. intros H. bool_prop. by rewrite bool_decide_eq_true in *. Qed.

(** Only the oldest entry can be anything but queued. *)
Lemma not_queued_head l i e :
  ledger_ok l -> live l !! i = Some e -> state e <> Queued ->
  i = 0%nat /\ live l = e :: List.tl (live l).
Proof.
  intros Hok Hi Hs. pose proof (ok_followers l Hok) as Hf.
  destruct (live l) as [|e0 rest]; [done|]. destruct i as [|i]; [cbn in Hi; by simplify_eq|].
  cbn in Hi, Hf. rewrite Forall_lookup in Hf. apply Hf in Hi. by apply pristine_queued in Hi as [].
Qed.

Lemma oldest_head l k : ordered k (map sequence l) ->
  forall i, oldest i l = match l with [] => None | e :: _ => Some (i, e) end.
Proof.
  revert k. induction l as [|e l IH]; intros k; [done|]. cbn [map ordered oldest]. intros [He Ho] i.
  rewrite (IH _ Ho). destruct l as [|e2 l]; [done|]. cbn in Ho. destruct Ho as [H2 _].
  by rewrite (proj2 (Z.leb_le _ _)) by lia.
Qed.

Lemma live_ordered l : ledger_ok l ->
  ordered (next_sequence l - len (live l)) (map sequence (live l)).
Proof.
  intros Hok. pose proof (ok_ordered l Hok) as Ho. rewrite ordered_app, len_map in Ho.
  destruct Ho as [_ Ho]. by replace (next_sequence l - len (live l)) with
    (next_sequence l - (len (tombstones l) + len (live l)) + len (tombstones l)) by lia.
Qed.
Lemma made_ok p : made p ->
  p_policy p = recovery_policy (p_kind p)
  /\ len (p_request p) <= MAX_DELIVERY_BLOB_BYTES /\ 0 <= p_capacity p <= MAX_DELIVERY_BLOB_BYTES.
Proof.
  intros (l & k & r & c & Hc & H). unfold prepare in H. destruct (_ || _) eqn:G; [done|].
  apply orb_false_iff in G as [G1%Z.ltb_ge G2%Z.ltb_ge]. destruct (_ <=? _); [done|].
  destruct (reservation_size _ _); [|done]. destruct (ensure_budget _ _); [|done].
  destruct (_ || _); [done|]. destruct (contains_id _ _); [done|]. injection H as <-. cbn. auto.
Qed.

Lemma contains_id_false l i :
  contains_id l i = false <-> i ∉ map t_id (tombstones l) ++ map id (live l).
Proof.
  unfold contains_id. rewrite orb_false_iff, elem_of_app.
  assert (forall (A : Type) (f : A -> bytes) k,
    existsb (fun e => bool_decide (f e = i)) k = false <-> i ∉ map f k) as H.
  { intros A f k. rewrite <- not_true_iff_false, existsb_exists, list_elem_of_In, in_map_iff.
    split; intros Hn (x & ? & ?); apply Hn; exists x; by rewrite ?bool_decide_eq_true in *. }
  rewrite !H. tauto.
Qed.

Lemma check_enqueue_ok l p r :
  0 <= reserved_bytes l -> made p -> check_enqueue l p = Ok r ->
  r = weight (queued_entry p) /\ len (live l) < MAX_LIVE_DELIVERIES
  /\ p_sequence p = next_sequence l /\ p_sequence p <= MAX_DELIVERY_SEQUENCE
  /\ reserved_bytes l + weight (queued_entry p) <= MAX_RESERVED_DELIVERY_BYTES
  /\ p_id p ∉ map t_id (tombstones l) ++ map id (live l)
  /\ entry_ok (namespace l) (queued_entry p).
Proof.
  intros Hr0 Hm H. apply made_ok in Hm as (Hp & Hl & Hc). pose proof (len_nonneg (p_request p)).
  unfold check_enqueue in H. destruct (contains_id l (p_id p)) eqn:Hid; [done|].
  apply contains_id_false in Hid.
  destruct (_ || _) eqn:G1; [done|]. bool_prop. rewrite bool_decide_eq_true in *.
  destruct (_ <=? _) eqn:G2; [done|]. rewrite reservation_size_ok in H by lia. cbn [ok_or] in H.
  destruct (ensure_budget _ _) as [[]|] eqn:Eb; [|done].
  apply ensure_budget_iff in Eb; [|lia|bounds; lia].
  destruct (_ || _) eqn:G3; [done|]. case_bool_decide as Hh; [|done]. case_bool_decide as Hi; [|done].
  injection H as <-. bool_prop.
  split; [done|]. split; [lia|]. split; [done|]. split; [lia|]. split; [done|]. split; [done|].
  repeat split; cbn; try (done || lia || congruence).
Qed.

Lemma reserved_nonneg l : ledger_ok l -> 0 <= reserved_bytes l.
Proof. intros Hok. rewrite (ok_reserved l Hok). by eapply total_nonneg, ok_entries. Qed.

Lemma pushed_ok l p :
  ledger_ok l -> made p -> check_enqueue l p = Ok (weight (queued_entry p)) -> ledger_ok (pushed l p).
Proof.
  intros Hok Hm H. apply check_enqueue_ok in H as (_ & Hn & Hs & Hmax & Hb & Hid & He);
    [|by apply reserved_nonneg|done].
  destruct Hok. constructor; cbn [namespace next_sequence live tombstones reserved_bytes pushed];
    rewrite ?len_app, ?len_cons, ?len_nil, ?map_app; cbn [map]; try (lia || done).
  - by destruct (live l).
  - rewrite app_assoc, ordered_app. split.
    + by replace (next_sequence l + 1 - (len (tombstones l) + (len (live l) + (1 + 0)))) with
        (next_sequence l - (len (tombstones l) + len (live l))) by lia.
    + rewrite len_app, !len_map. cbn. split; [lia|done].
  - rewrite app_assoc. apply list.NoDup_app. split; [done|]. split; [|apply NoDup_singleton].
    intros x Hx ->%list_elem_of_singleton. done.
  - apply Forall_app. auto.
  - destruct (live l) as [|e0 rest]; cbn in *; [done|]. apply Forall_app. split; [done|]. by constructor.
  - rewrite total_app. cbn. lia.
Qed.

Lemma moved_ok l e rest e' :
  ledger_ok l -> live l = e :: rest -> head_step e e' -> ledger_ok (set_live l 0 e').
Proof.
  intros Hok Hl Hs. destruct Hok. rewrite Hl in *. apply Forall_cons_iff in ok_entries as [He Hrest].
  apply (head_step_ok (namespace l)) in Hs as (He' & Hi & Hsq & Hw & _); [|done].
  constructor; cbn [namespace next_sequence live tombstones reserved_bytes set_live]; rewrite ?Hl;
    try change (<[0%nat := e']> (e :: rest)) with (e' :: rest); rewrite ?len_cons in *;
    cbn [map total foldr] in *; rewrite ?Hi, ?Hsq, ?Hw; try done.
  by constructor.
Qed.

Lemma rotated_ok ts : exists dropped, ts = dropped ++ rotated ts
  /\ (len ts <= MAX_DELIVERY_TOMBSTONES -> len (rotated ts) < MAX_DELIVERY_TOMBSTONES).
Proof.
  unfold rotated. destruct (Z.eqb_spec (len ts) MAX_DELIVERY_TOMBSTONES) as [E|].
  - destruct ts as [|t ts]; [done|]. exists [t]. rewrite len_cons in E. cbn. split; [done|lia].
  - exists []. split; [done|lia].
Qed.

Lemma valid_ready ns e : entry_ok ns e -> state e = ResultReady ->
  exists c h r, contract e = Some c /\ result_hash e = Some h /\ result_bytes e = Some r
    /\ 1 <= c <= U64_MAX /\ 1 <= attempt e <= MAX_DELIVERY_ATTEMPTS
    /\ h = sha256 r /\ len r <= MAX_DELIVERY_BLOB_BYTES /\ len r <= result_capacity e.
Proof.
  intros (_ & _ & _ & _ & _ & Hk & Hf & Hh & Hv) Hs. unfold valid_state, attempts_in in Hv.
  rewrite Hs in Hv. bool_prop. unfold result_fits, result_hashed in *.
  destruct (contract e) as [c|], (result_hash e) as [h|], (result_bytes e) as [r|]; try done.
  cbn in *. bool_prop. rewrite bool_decide_eq_true in *. exists c, h, r. repeat split; (done || lia).
Qed.

Lemma consumed_ok l e rest c h :
  ledger_ok l -> live l = e :: rest -> state e = ResultReady -> contract e = Some c ->
  result_hash e = Some h -> ledger_ok (consumed l e rest c h).
Proof.
  intros Hok Hl Hs Hc Hh. destruct Hok. rewrite Hl in *.
  destruct (rotated_ok (tombstones l)) as (dropped & Hts & Hlen).
  apply Forall_cons_iff in ok_entries as [He Hrest].
  pose proof (len_nonneg dropped). pose proof (len_nonneg rest). pose proof (len_nonneg (rotated (tombstones l))).
  rewrite Hts, map_app in ok_ids.
  assert (map t_sequence (tombstones l) = map t_sequence dropped ++ map t_sequence (rotated (tombstones l)))
    as Hseq by (rewrite Hts at 1; apply map_app). rewrite Hseq in ok_ordered.
  rewrite <- !app_assoc in ok_ordered, ok_ids.
  rewrite Hts in ok_terminal. apply Forall_app in ok_terminal as [_ Hterm].
  apply list.NoDup_app in ok_ids as (_ & _ & Hids). apply ordered_app in ok_ordered as [_ Hord].
  rewrite len_map in Hord. rewrite len_cons in *. assert (len (tombstones l) = len dropped + len (rotated (tombstones l))) as Hlts
    by (rewrite Hts at 1; by rewrite len_app).
  pose proof (total_nonneg _ _ Hrest).
  assert (0 <= weight e) by (pose proof (total_nonneg (namespace l) [e] ltac:(by constructor)); cbn in *; lia).
  constructor; cbn [namespace next_sequence live tombstones reserved_bytes consumed];
    rewrite ?len_app, ?len_cons, ?len_nil, ?map_app; cbn [map tombstone_of t_id t_sequence];
    rewrite <- ?app_assoc; cbn [app]; try (done || lia).
  - intros _. by destruct (rotated _).
  - replace (next_sequence l - (len (rotated (tombstones l)) + (1 + 0) + len rest)) with
      (next_sequence l - (len (tombstones l) + (1 + len rest)) + len dropped) by lia. done.
  - apply Forall_app. split; [done|]. constructor; [|done].
    destruct (valid_ready _ _ He Hs) as (c' & h' & r & Hc' & Hh' & _ & Hcr & Ha & Hhr & _).
    assert (h' = h) as -> by congruence. assert (c' = c) as -> by congruence. subst h.
    destruct He as (Hp & _ & Hcap & Hq & Hi & _).
    repeat split; cbn; (done || lia || (rewrite ?Hq; apply sha256_length)).
  - cbn in ok_followers. destruct rest; [done|]. by apply Forall_cons_iff in ok_followers as [_ ?].
  - rewrite total_cons in ok_reserved. lia.
Qed.

Lemma ledger_step_ok l l' : ledger_ok l -> ledger_step l l' -> ledger_ok l'.
Proof.
  intros Hok [p Hm H|_ [e rest e' Hl Hs|e rest c h Hl Hs Hc Hh]].
  - by apply pushed_ok.
  - by eapply moved_ok.
  - by apply consumed_ok.
Qed.

Lemma with_random_ok ns : ledger_ok (with_random ns).
Proof.
  constructor; cbn; rewrite ?len_nil; try (done || (bounds; lia)).
  all: try constructor.
Qed.

(** *** Each operation is a step of the machine, or changes nothing *)

Definition step_or_same (l l' : DeliveryLedger) : Prop := l' = l \/ retire_step l l'.

Lemma enqueue_step l p : ledger_ok l -> made p ->
  fst (enqueue l p) = l \/ ledger_step l (fst (enqueue l p)).
Proof.
  intros Hok Hm. unfold enqueue. destruct (check_enqueue l p) as [r|] eqn:E; [|by left]. right.
  pose proof (check_enqueue_ok l p r (reserved_nonneg l Hok) Hm E) as (-> & _). cbn [fst].
  by apply (Pushed l p).
Qed.

Lemma claim_spec l k : ledger_ok l -> is_u64 k = true ->
  exists l' r, claim_oldest l k = Some (l', r) /\
    match r with
    | Err _ => l' = l
    | Ok cl => exists e rest, live l = e :: rest /\ state e = Queued /\ head_step e (claim_entry e k)
        /\ l' = set_live l 0 (claim_entry e k) /\ unwrap_or (contract e) k = k
        /\ correlation cl = {| c_id := id e; c_request_hash := request_hash e;
                               c_attempt := attempt e + 1; c_contract := k |}
        /\ cl_sequence cl = sequence e /\ cl_policy cl = policy e /\ cl_request cl = request e
    end.
Proof.
  intros Hok Hk. unfold is_u64 in Hk. apply andb_true_iff in Hk as [Hk0%Z.leb_le Hk1%Z.leb_le].
  unfold claim_oldest, non_zero. destruct (Z.eqb_spec k 0); [by eexists _, _|].
  destruct (existsb _ _); [by eexists _, _|]. rewrite (oldest_head _ _ (live_ordered l Hok)).
  destruct (live l) as [|e rest] eqn:Hl; [by eexists _, _|].
  case_bool_decide as Hs; cbn [negb]; [|by eexists _, _].
  destruct (match contract e with Some _ => _ | None => _ end) eqn:Hc; [by eexists _, _|].
  destruct (Z.leb_spec MAX_DELIVERY_ATTEMPTS (attempt e)); [by eexists _, _|].
  cbn [entry_correlation claim_entry contract]. eexists _, _. split; [done|].
  exists e, rest. split; [done|]. split; [done|].
  assert (match contract e with Some expected => expected = k | None => True end) as Hm.
  { destruct (contract e); [|done]. by apply negb_false_iff, Z.eqb_eq in Hc. }
  split; [by constructor; (done || lia)|]. split; [done|]. cbn.
  split; [by destruct (contract e)|]. split; [|done].
  f_equal. by destruct (contract e); cbn; subst.
Qed.

Lemma correlated_live l c i e :
  correlated_location l c = Ok (Live i e) ->
  live l !! i = Some e /\ id e = c_id c /\ attempt e = c_attempt c /\ contract e = Some (c_contract c).
Proof.
  unfold correlated_location, validate_correlation.
  destruct (list_find (fun e => id e = c_id c) (live l)) as [[j x]|] eqn:E.
  - apply list_find_Some in E as (Hl & Hi & _). case_bool_decide; [|done]. case_bool_decide; [|done].
    cbn [negb]. destruct (Z.eqb_spec (c_attempt c) (attempt x)); [|done]. intros [= <- <-]. auto.
  - clear E. destruct (list_find _ _) as [[j t]|]; [|done]. by repeat (destruct (negb _)).
Qed.

Lemma live_location_live l c i e : live_location l c = Ok (i, e) -> correlated_location l c = Ok (Live i e).
Proof. unfold live_location. destruct (correlated_location l c) as [[]|]; [|done..]. by intros [= -> ->]. Qed.

(** A located entry that is not queued is the head. *)
Lemma located_head l c i e :
  ledger_ok l -> correlated_location l c = Ok (Live i e) -> state e <> Queued ->
  i = 0%nat /\ live l = e :: List.tl (live l).
Proof. intros Hok (Hl & _)%correlated_live Hs. by eapply not_queued_head. Qed.

Lemma record_step l c r : ledger_ok l -> step_or_same l (fst (record_result l c r)).
Proof.
  intros Hok. unfold record_result. destruct (Z.ltb_spec MAX_DELIVERY_BLOB_BYTES (len r)); [by left|].
  destruct (correlated_location l c) as [[i e|i t]|] eqn:E; [| |by left]; cbn [location_capacity].
  2:{ destruct (_ <? _); [by left|]. case_bool_decide; by left. }
  destruct (Z.ltb_spec (result_capacity e) (len r)); [by left|].
  assert (state e <> Queued -> i = 0%nat /\ live l = e :: List.tl (live l)) as Hh
    by (by eapply located_head).
  destruct (state e) eqn:Hs; [by left| |by case_match; left|]; destruct (Hh ltac:(done)) as [-> Hl];
    right; apply (Moved l e (List.tl (live l))); [done| |done|];
    (apply Answered; [by auto|lia|lia]).
Qed.

Lemma mark_step l c : ledger_ok l -> step_or_same l (fst (mark_ambiguous l c)).
Proof.
  intros Hok. unfold mark_ambiguous. destruct (live_location l c) as [[i e]|] eqn:E; [|by left].
  apply live_location_live in E. destruct (state e) eqn:Hs; try by left.
  destruct (located_head l c i e Hok E ltac:(congruence)) as [-> Hl]. right.
  by eapply Moved; [|constructor].
Qed.

Lemma resolve_step l c : ledger_ok l -> step_or_same l (fst (resolve_not_performed l c)).
Proof.
  intros Hok. unfold resolve_not_performed. destruct (live_location l c) as [[i e]|] eqn:E; [|by left].
  apply live_location_live in E. case_bool_decide as Hs; [|by left]. cbn [negb].
  destruct (replayable (policy e)) eqn:Hp; [|by left]. cbn [negb].
  destruct (Z.leb_spec MAX_DELIVERY_ATTEMPTS (attempt e)); [by left|].
  destruct (located_head l c i e Hok E ltac:(congruence)) as [-> Hl]. right.
  by eapply Moved; [|apply Requeued].
Qed.

Lemma head_entry_ok l e rest : ledger_ok l -> live l = e :: rest -> entry_ok (namespace l) e.
Proof. intros Hok Hl. pose proof (ok_entries l Hok) as H. rewrite Hl in H. by apply Forall_cons_iff in H as []. Qed.

Lemma consume_spec l c : ledger_ok l ->
  exists l' r, consume_ready l c = Some (l', r) /\
    match r with
    | Err _ => l' = l
    | Ok _ => exists e rest k h, live l = e :: rest /\ state e = ResultReady /\ contract e = Some k
        /\ result_hash e = Some h /\ id e = c_id c /\ l' = consumed l e rest k h
    end.
Proof.
  intros Hok. unfold consume_ready. destruct (live_location l c) as [[i e]|] eqn:E; [|by eexists _, _].
  apply live_location_live in E. case_bool_decide as Hs; [|by eexists _, _]. cbn [negb].
  destruct (located_head l c i e Hok E ltac:(congruence)) as [-> Hl].
  pose proof (head_entry_ok l e _ Hok Hl) as He. apply correlated_live in E as (_ & Hid & _).
  destruct (valid_ready _ _ He Hs) as (k & h & r & Hc & Hh & _).
  destruct He as (_ & Hlen & Hcap & _). pose proof (len_nonneg (request e)).
  rewrite reservation_size_ok, Hc, Hh by lia. cbn [ok].
  pose proof (reserved_nonneg _ (consumed_ok l e _ k h Hok Hl Hs Hc Hh)) as Hr. cbn in Hr.
  pose proof (ok_budget l Hok). unfold checked_u64, is_u64. fold (weight e).
  assert (0 <= weight e) by (unfold weight; lia).
  rewrite (proj2 (Z.leb_le _ _) Hr), (proj2 (Z.leb_le (reserved_bytes l - weight e) U64_MAX))
    by (bounds; lia). cbn [andb].
  eexists _, _. split; [done|]. exists e, (List.tl (live l)), k, h.
  repeat split; try done. rewrite Hl at 1. done.
Qed.

Lemma consume_step l c l' r : ledger_ok l -> consume_ready l c = Some (l', r) -> step_or_same l l'.
Proof.
  intros Hok H. destruct (consume_spec l c Hok) as (l1 & r1 & E & Hr). rewrite E in H.
  injection H as -> ->. destruct r; [|by left]. destruct Hr as (e & rest & k & h & ? & ? & ? & ? & _ & ->).
  right. by apply Consumed.
Qed.

Lemma enqueue_all_steps ps : forall l,
  ledger_ok l -> Forall made ps ->
  match enqueue_all l ps with Ok (l', _) => rtc ledger_step l l' | Err _ => True end.
Proof.
  induction ps as [|p ps IH]; intros l Hok Hm; cbn [enqueue_all]; [apply rtc_refl|].
  apply Forall_cons_iff in Hm as [Hp Hm]. pose proof (enqueue_step l p Hok Hp) as Hs.
  destruct (enqueue l p) as [l1 [i|e]]; [|done]. cbn in Hs.
  assert (rtc ledger_step l l1 /\ ledger_ok l1) as [H1 Hok1].
  { destruct Hs as [->|Hs]; [split; [apply rtc_refl|done]|].
    split; [by apply rtc_once|by eapply ledger_step_ok]. }
  specialize (IH l1 Hok1 Hm). destruct (enqueue_all l1 ps) as [[l2 ids]|]; [|done].
  by etrans.
Qed.

Lemma enqueue_batch_steps l ps : ledger_ok l -> Forall made ps ->
  rtc ledger_step l (fst (enqueue_batch l ps)).
Proof.
  intros Hok Hm. unfold enqueue_batch. destruct (is_empty ps); [apply rtc_refl|].
  pose proof (enqueue_all_steps ps l Hok Hm) as H.
  by destruct (enqueue_all l ps) as [[l' ids]|]; [|apply rtc_refl].
Qed.

(** ** Runs of a ledger *)

Inductive Op : Type :=
| Enqueue (p : PreparedDelivery)
| EnqueueBatch (ps : list PreparedDelivery)
| Claim (adapter_contract : Z)
| RecordResult (c : DeliveryCorrelation) (r : bytes)
| MarkAmbiguous (c : DeliveryCorrelation)
| ResolveNotPerformed (c : DeliveryCorrelation)
| ConsumeReady (c : DeliveryCorrelation)
| Restart.

(** A restart saves the ledger's parts with its digest and restores them. *)
Definition restart (l : DeliveryLedger) : result DeliveryLedger DeliveryLedgerError :=
  restore_checked (namespace l) (next_sequence l) (live l) (tombstones l) (digest l).

(** The ledger after an operation and the delivery that it claimed; [None] for
    a panic, or a checkpoint that is not accepted. *)
Definition apply (l : DeliveryLedger) (op : Op) : option (DeliveryLedger * list ClaimedDelivery) :=
  match op with
  | Enqueue p => Some (fst (enqueue l p), [])
  | EnqueueBatch ps => Some (fst (enqueue_batch l ps), [])
  | Claim k =>
      let! (l', r) := claim_oldest l k in
      Some (l', match r with Ok c => [c] | Err _ => [] end)
  | RecordResult c r => Some (fst (record_result l c r), [])
  | MarkAmbiguous c => Some (fst (mark_ambiguous l c), [])
  | ResolveNotPerformed c => Some (fst (resolve_not_performed l c), [])
  | ConsumeReady c => let! (l', _) := consume_ready l c in Some (l', [])
  | Restart => let! l' := ok (restart l) in Some (l', [])
  end.

Fixpoint run (l : DeliveryLedger) (ops : list Op) : option (DeliveryLedger * list ClaimedDelivery) :=
  match ops with
  | [] => Some (l, [])
  | op :: rest =>
      let! (l', claims) := apply l op in
      let! (l'', later) := run l' rest in
      Some (l'', claims ++ later)
  end.

Definition typed_op (op : Op) : Prop :=
  match op with
  | Enqueue p => made p
  | EnqueueBatch ps => Forall made ps
  | Claim k => is_u64 k = true
  | _ => True
  end.

Lemma restart_ok l : ledger_ok l -> restart l = Ok l.
Proof.
  intros Hok. apply restore_checked_iff; [| | |done]; destruct Hok.
  - unfold is_u64. apply andb_true_iff. rewrite !Z.leb_le. bounds. lia.
  - eapply Forall_impl; [|exact ok_entries]. intros e (_ & _ & Hc & _ & _ & Hk & _).
    split; [lia|]. destruct (contract e); [|done]. cbn in Hk. unfold is_u64.
    apply andb_true_iff. rewrite !Z.leb_le. lia.
  - eapply Forall_impl; [|exact ok_terminal]. intros t (_ & Hc & _ & Hk & ? & ? & _).
    split; [lia|]. split; [|done]. unfold is_u64. apply andb_true_iff. rewrite !Z.leb_le. lia.
Qed.

(** An operation of a well-formed ledger: steps of the machine; a claim comes
    with the claim that it reports, and nothing else reports one. *)
Lemma apply_spec l op : ledger_ok l -> typed_op op ->
  exists l' claims, apply l op = Some (l', claims) /\ rtc ledger_step l l' /\
    (claims = [] \/
     exists e rest k cl, claims = [cl] /\ live l = e :: rest /\ state e = Queued
       /\ head_step e (claim_entry e k) /\ l' = set_live l 0 (claim_entry e k)
       /\ unwrap_or (contract e) k = k /\ correlation cl = {| c_id := id e; c_request_hash := request_hash e;
                              c_attempt := attempt e + 1; c_contract := k |}
       /\ cl_sequence cl = sequence e /\ cl_policy cl = policy e /\ cl_request cl = request e).
Proof.
  intros Hok Ht.
  assert (forall l', step_or_same l l' -> rtc ledger_step l l') as Hstep.
  { intros l' [->|?]; [apply rtc_refl|by apply rtc_once, Retired]. }
  destruct op as [p|ps|k|c r|c|c|c|]; cbn [apply typed_op] in *.
  - eexists _, _. split; [done|]. split; [|by left]. 
    by destruct (enqueue_step l p Hok Ht) as [->|?]; [apply rtc_refl|apply rtc_once].
  - eexists _, _. split; [done|]. split; [|by left]. by apply enqueue_batch_steps.
  - destruct (claim_spec l k Hok Ht) as (l' & r & -> & Hr). eexists _, _. split; [done|].
    destruct r as [cl|]; [|subst; split; [apply rtc_refl|by left]].
    destruct Hr as (e & rest & Hl & Hs & Hst & -> & Hrest).
    split; [by apply rtc_once, Retired, (Moved l e rest)|]. right. by exists e, rest, k, cl.
  - eexists _, _. split; [done|]. split; [|by left]. by apply Hstep, record_step.
  - eexists _, _. split; [done|]. split; [|by left]. by apply Hstep, mark_step.
  - eexists _, _. split; [done|]. split; [|by left]. by apply Hstep, resolve_step.
  - destruct (consume_spec l c Hok) as (l' & r & E & _). rewrite E. eexists _, _. split; [done|].
    split; [|by left]. by eapply Hstep, consume_step.
  - rewrite restart_ok by done. eexists _, _. split; [done|]. split; [apply rtc_refl|by left].
Qed.

Lemma steps_ok l l' : rtc ledger_step l l' -> ledger_ok l -> ledger_ok l'.
Proof. induction 1; eauto using ledger_step_ok. Qed.

Lemma run_ok ops : forall l, ledger_ok l -> Forall typed_op ops ->
  exists l' claims, run l ops = Some (l', claims) /\ ledger_ok l'.
Proof.
  induction ops as [|op ops IH]; intros l Hok Ht; [by eexists _, _|].
  apply Forall_cons_iff in Ht as [Ht Hts]. cbn [run].
  destruct (apply_spec l op Hok Ht) as (l1 & c1 & -> & Hs & _).
  destruct (IH l1 (steps_ok _ _ Hs Hok) Hts) as (l2 & c2 & -> & Hok2). by eexists _, _.
Qed.

(** *** What has been claimed *)

(** [a] was claimed before [b]: an older delivery, or an earlier attempt at
    the same one, which its policy allows to repeat. *)
Definition claimed_before (a b : ClaimedDelivery) : Prop :=
  cl_sequence a < cl_sequence b
  \/ cl_sequence a = cl_sequence b
     /\ c_id (correlation a) = c_id (correlation b) /\ cl_request a = cl_request b
     /\ c_contract (correlation a) = c_contract (correlation b)
     /\ c_attempt (correlation a) < c_attempt (correlation b)
     /\ replayable (cl_policy b) = true.

Definition claim_ok (a : ClaimedDelivery) : Prop :=
  1 <= c_attempt (correlation a) <= MAX_DELIVERY_ATTEMPTS
  /\ c_request_hash (correlation a) = sha256 (cl_request a).

(** What a ledger still holds of a claim. *)
Definition claim_held (l : DeliveryLedger) (a : ClaimedDelivery) : Prop :=
  cl_sequence a < next_sequence l - len (live l)
  \/ exists e rest, live l = e :: rest /\ cl_sequence a = sequence e
       /\ c_id (correlation a) = id e /\ cl_request a = request e
       /\ contract e = Some (c_contract (correlation a))
       /\ 1 <= c_attempt (correlation a) <= attempt e.

Lemma live_head_sequence l e rest : ledger_ok l -> live l = e :: rest ->
  sequence e = next_sequence l - len (live l).
Proof. intros Hok Hl. pose proof (live_ordered l Hok) as Ho. rewrite Hl in *. apply Ho. Qed.

Lemma head_step_held e e' : head_step e e' ->
  attempt e <= attempt e' /\ forall k, contract e = Some k -> contract e' = Some k.
Proof.
  intros [c _ _ _ Hm|r _ _ _|_|_ _ _]; cbn; (split; [lia|]); try done. intros k Hk.
  rewrite Hk. done.
Qed.

Lemma step_held l l' a : ledger_ok l -> ledger_step l l' -> claim_held l a -> claim_held l' a.
Proof.
  intros Hok Hs Hh. destruct Hs as [p _ _|_ [e rest e' Hl Hs|e rest c h Hl _ _ _]].
  - unfold claim_held, pushed; cbn [live next_sequence]. rewrite len_app, len_cons, len_nil.
    destruct Hh as [Hlt|(e & rest & Hl & Hh)]; [left; lia|right]. rewrite Hl. by exists e, (rest ++ [queued_entry p]).
  - unfold claim_held, set_live; cbn [live next_sequence]. rewrite Hl.
    change (<[0%nat := e']> (e :: rest)) with (e' :: rest). rewrite len_cons.
    destruct Hh as [Hlt|(e0 & rest0 & Hl0 & Hsq & Hi & Hr & Hc & Ha)].
    { left. rewrite Hl, len_cons in Hlt. done. }
    assert (e0 = e) as -> by congruence. right. exists e', rest.
    destruct (head_step_held _ _ Hs) as [Hle Hk].
    apply (head_step_ok (namespace l)) in Hs as (_ & -> & -> & _ & -> & _); [|by eapply head_entry_ok].
    repeat split; (done || auto || lia).
  - pose proof (live_head_sequence l e rest Hok Hl) as Hsq.
    unfold claim_held, consumed; cbn [live next_sequence]. rewrite Hl, len_cons in Hsq. left.
    destruct Hh as [Hlt|(e0 & rest0 & Hl0 & Hs0 & _)]; [rewrite Hl, len_cons in Hlt; lia|].
    assert (e0 = e) as -> by congruence. lia.
Qed.

Lemma steps_held l l' a : rtc ledger_step l l' -> ledger_ok l -> claim_held l a -> claim_held l' a.
Proof. induction 1; eauto using ledger_step_ok, step_held. Qed.

Lemma queued_retry ns e : entry_ok ns e -> state e = Queued -> 1 <= attempt e -> replayable (policy e) = true.
Proof.
  intros (_ & _ & _ & _ & _ & _ & _ & _ & Hv) Hs Ha. unfold valid_state in Hv. rewrite Hs in Hv.
  bool_prop. match goal with H : _ || _ = true |- _ => apply orb_true_iff in H as [H|H] end; bool_prop; [lia|done].
Qed.

Lemma run_claims ops : forall l l' claims, ledger_ok l -> Forall typed_op ops ->
  run l ops = Some (l', claims) ->
  StronglySorted claimed_before claims /\ Forall claim_ok claims
  /\ forall a, claim_held l a -> Forall (claimed_before a) claims.
Proof.
  induction ops as [|op ops IH]; intros l l' claims Hok Ht H.
  { injection H as <- <-. repeat split; constructor. }
  apply Forall_cons_iff in Ht as [Ht Hts]. cbn [run] in H.
  destruct (apply_spec l op Hok Ht) as (l1 & c1 & Ea & Hs & Hc). rewrite Ea in H.
  pose proof (steps_ok _ _ Hs Hok) as Hok1.
  destruct (run l1 ops) as [[l2 c2]|] eqn:Er; [|done]. injection H as -> <-.
  destruct (IH l1 l' c2 Hok1 Hts Er) as (Hsort & Hall & Hheld).
  destruct Hc as [->|(e & rest & k & cl & -> & Hl & Hq & Hst & -> & Hk & Hcor & Hsq & Hpol & Hreq)].
  { split; [done|]. split; [done|]. intros a Ha. by apply Hheld, (steps_held l). }
  assert (claim_held (set_live l 0 (claim_entry e k)) cl /\ claim_ok cl
          /\ forall a, claim_held l a -> claimed_before a cl) as (Hcl & Hclok & Hbefore).
  { pose proof (head_entry_ok l e rest Hok Hl) as He.
    assert (0 <= attempt e < MAX_DELIVERY_ATTEMPTS) as Hatt.
    { destruct He as (_ & _ & _ & _ & _ & _ & _ & _ & Hv). unfold valid_state in Hv. rewrite Hq in Hv.
      bool_prop. bounds. match goal with H : _ || _ = true |- _ => apply orb_true_iff in H as [H|H] end; bool_prop; lia. }
    split; [|split].
    - right. exists (claim_entry e k), rest. cbn. rewrite Hl, Hcor, Hk. cbn. repeat split; try done; lia.
    - unfold claim_ok. rewrite Hcor, Hreq. cbn. destruct He as (_ & _ & _ & Hh & _). split; [lia|done].
    - intros a [Hlt|(e0 & rest0 & Hl0 & Hs0 & Hi0 & Hr0 & Hc0 & Ha0)].
      + left. rewrite Hsq, (live_head_sequence l e rest Hok Hl). done.
      + assert (e0 = e) as -> by congruence. right. rewrite Hsq, Hcor, Hreq, Hpol. cbn.
        rewrite Hc0 in Hk. cbn in Hk. repeat split; try done; [lia|].
        eapply queued_retry; [done|done|lia]. }
  cbn [app]. split; [constructor; [done|by apply Hheld]|]. split; [by constructor|].
  intros a Ha. constructor; [by apply Hbefore|]. by apply Hheld, (steps_held l).
Qed.

(** *** How much can still happen *)

(** The moves left to an entry. *)
Definition moves (e : DeliveryEntry) : Z :=
  match state e with
  | Queued => 3 * (MAX_DELIVERY_ATTEMPTS - attempt e) + 1
  | Dispatching => 3 * (MAX_DELIVERY_ATTEMPTS - attempt e) + 3
  | Ambiguous => 3 * (MAX_DELIVERY_ATTEMPTS - attempt e) + 2
  | ResultReady => 1
  end.

Definition moves_left (l : DeliveryLedger) : Z := foldr (fun e n => moves e + n) 0 (live l).

Definition enqueues (op : Op) : bool :=
  match op with Enqueue _ | EnqueueBatch _ => true | _ => false end.

#[export] Instance entry_eq_decision : EqDecision DeliveryEntry.
Proof. solve_decision. Defined.
#[export] Instance disposition_eq_decision : EqDecision TombstoneDisposition.
Proof. solve_decision. Defined.
#[export] Instance tombstone_eq_decision : EqDecision DeliveryTombstone.
Proof. solve_decision. Defined.
#[export] Instance ledger_eq_decision : EqDecision DeliveryLedger.
Proof. solve_decision. Defined.

(** How many of the operations change the ledger. *)
Fixpoint changes (l : DeliveryLedger) (ops : list Op) : option Z :=
  match ops with
  | [] => Some 0
  | op :: rest =>
      let! (l', _) := apply l op in
      let! n := changes l' rest in
      Some (n + if bool_decide (l' = l) then 0 else 1)
  end.

Lemma moves_bounds ns e : entry_ok ns e -> 1 <= moves e <= 10.
Proof.
  intros (_ & _ & _ & _ & _ & _ & _ & _ & Hv). unfold valid_state, attempts_in, moves in *. bounds.
  destruct (state e); bool_prop; lia.
Qed.

Lemma head_step_moves ns e e' : entry_ok ns e -> head_step e e' -> moves e' < moves e.
Proof.
  intros Hok Hs. pose proof (moves_bounds ns e Hok) as Hm.
  assert (Hok' := Hok). destruct Hok' as (_ & _ & _ & _ & _ & _ & _ & _ & Hv).
  unfold moves, valid_state, attempts_in in *.
  destruct Hs as [c Hq|r [Hq|Hq]|Hq|Hq]; cbn; rewrite Hq in *; bool_prop; bounds; lia.
Qed.

Lemma retire_step_moves l l' : ledger_ok l -> retire_step l l' -> moves_left l' < moves_left l.
Proof.
  intros Hok [e rest e' Hl Hs|e rest c h Hl _ _ _]; pose proof (head_entry_ok l e rest Hok Hl) as He;
    unfold moves_left, set_live, consumed; cbn [live]; rewrite Hl.
  - pose proof (head_step_moves _ _ _ He Hs). change (<[0%nat := e']> (e :: rest)) with (e' :: rest). cbn. lia.
  - pose proof (moves_bounds _ _ He). cbn. lia.
Qed.

Lemma apply_retires l op l' claims : ledger_ok l -> typed_op op -> enqueues op = false ->
  apply l op = Some (l', claims) -> step_or_same l l'.
Proof.
  intros Hok Ht Hn H. destruct op as [p|ps|k|c r|c|c|c|]; cbn [apply typed_op enqueues] in *; try done.
  - destruct (claim_spec l k Hok Ht) as (l1 & r & E & Hr). rewrite E in H. injection H as -> _.
    destruct r; [|by left]. destruct Hr as (e & rest & Hl & _ & Hs & -> & _). right. by eapply Moved.
  - injection H as <- _. by apply record_step.
  - injection H as <- _. by apply mark_step.
  - injection H as <- _. by apply resolve_step.
  - destruct (consume_ready l c) as [[l1 r]|] eqn:E; [|done]. injection H as -> _. by eapply consume_step.
  - rewrite restart_ok in H by done. injection H as <- _. by left.
Qed.

Lemma moves_left_bounds l : ledger_ok l -> 0 <= moves_left l <= 10 * len (live l).
Proof.
  intros Hok. pose proof (ok_entries l Hok) as H. unfold moves_left.
  induction H as [|e k He _ IH]; [done|]. rewrite len_cons. pose proof (moves_bounds _ _ He). cbn. lia.
Qed.

Lemma changes_bounded ops : forall l n, ledger_ok l -> Forall typed_op ops ->
  Forall (fun op => enqueues op = false) ops -> changes l ops = Some n -> n <= moves_left l.
Proof.
  induction ops as [|op ops IH]; intros l n Hok Ht Hn H.
  { injection H as <-. apply moves_left_bounds, Hok. }
  apply Forall_cons_iff in Ht as [Ht Hts]. apply Forall_cons_iff in Hn as [Hn Hns]. cbn [changes] in H.
  destruct (apply l op) as [[l1 c]|] eqn:E; [|done]. destruct (changes l1 ops) as [m|] eqn:Em; [|done].
  injection H as <-. apply apply_retires in E; [|done..].
  destruct E as [->|Hs].
  - rewrite bool_decide_true by done. specialize (IH l m Hok Hts Hns Em). lia.
  - pose proof (retire_step_moves l l1 Hok Hs).
    assert (ledger_ok l1) as Hok1 by (by eapply ledger_step_ok, Retired).
    specialize (IH l1 m Hok1 Hts Hns Em). case_bool_decide; lia.
Qed.

Lemma changes_total ops : forall l, ledger_ok l -> Forall typed_op ops -> exists n, changes l ops = Some n.
Proof.
  induction ops as [|op ops IH]; intros l Hok Ht; [by eexists|].
  apply Forall_cons_iff in Ht as [Ht Hts]. cbn [changes].
  destruct (apply_spec l op Hok Ht) as (l1 & c & -> & Hs & _).
  destruct (IH l1 (steps_ok _ _ Hs Hok) Hts) as [n ->]. by eexists.
Qed.

(** *** Draining a ledger *)

Definition head_correlation (e : DeliveryEntry) (attempt : Z) : DeliveryCorrelation := {|
  c_id := id e; c_request_hash := request_hash e; c_attempt := attempt;
  c_contract := unwrap_or (contract e) 1;
|}.

(** Claim the oldest delivery, answer it with nothing, and consume the answer. *)
Definition drain_head (e : DeliveryEntry) : list Op :=
  match state e with
  | Queued =>
      let c := head_correlation e (attempt e + 1) in
      [Claim (c_contract c); RecordResult c []; ConsumeReady c]
  | Dispatching | Ambiguous =>
      let c := head_correlation e (attempt e) in [RecordResult c []; ConsumeReady c]
  | ResultReady => [ConsumeReady (head_correlation e (attempt e))]
  end.

Lemma locate_head l e rest c : live l = e :: rest ->
  c_id c = id e -> c_request_hash c = request_hash e -> c_attempt c = attempt e ->
  contract e = Some (c_contract c) -> correlated_location l c = Ok (Live 0 e).
Proof.
  intros Hl Hi Hh Ha Hc. unfold correlated_location, validate_correlation. rewrite Hl. cbn.
  rewrite decide_True by done. rewrite bool_decide_true by done. cbn. rewrite Hc, bool_decide_true by done.
  cbn. rewrite Ha, Z.eqb_refl. done.
Qed.

Lemma consume_head l e rest c : ledger_ok l -> live l = e :: rest -> state e = ResultReady ->
  c = head_correlation e (attempt e) ->
  exists l', run l [ConsumeReady c] = Some (l', []) /\ ledger_ok l' /\ live l' = rest.
Proof.
  intros Hok Hl Hs ->. pose proof (head_entry_ok l e rest Hok Hl) as He.
  destruct (valid_ready _ _ He Hs) as (k & h & r & Hc & _).
  set (c := head_correlation e (attempt e)).
  assert (correlated_location l c = Ok (Live 0 e)) as Hloc
    by (eapply locate_head; cbn; try done; by rewrite Hc).
  destruct (consume_spec l c Hok) as (l' & o & E & Ho).
  destruct o as [o|err].
  - destruct Ho as (e0 & rest0 & k0 & h0 & Hl0 & Hs0 & Hc0 & Hh0 & _ & ->).
    exists (consumed l e0 rest0 k0 h0). cbn [run apply]. rewrite E. split; [done|].
    split; [by apply consumed_ok|]. cbn. congruence.
  - exfalso. unfold consume_ready, live_location in E. rewrite Hloc in E.
    rewrite bool_decide_true in E by done. cbn [negb] in E. repeat case_match; simplify_eq.
Qed.

Lemma record_head l e rest c : ledger_ok l -> live l = e :: rest ->
  state e = Dispatching \/ state e = Ambiguous -> c = head_correlation e (attempt e) ->
  exists l', run l [RecordResult c []; ConsumeReady c] = Some (l', []) /\ ledger_ok l' /\ live l' = rest.
Proof.
  intros Hok Hl Hs ->. pose proof (head_entry_ok l e rest Hok Hl) as He.
  assert (is_some (contract e) = true /\ 0 <= result_capacity e) as [Hk Hcap].
  { destruct He as (_ & _ & ? & _ & _ & _ & _ & _ & Hv). unfold valid_state in Hv. split; [|lia].
    by destruct Hs as [Hs|Hs]; rewrite Hs in Hv; bool_prop. }
  destruct (contract e) as [k|] eqn:Hc; [clear Hk|done].
  set (c := head_correlation e (attempt e)).
  assert (correlated_location l c = Ok (Live 0 e)) as Hloc
    by (eapply locate_head; cbn; try done; by rewrite Hc).
  set (e' := answer_entry e [] (sha256 [])).
  assert (fst (record_result l c []) = set_live l 0 e') as Hrec.
  { unfold record_result. rewrite Hloc. cbn [location_capacity]. rewrite len_nil.
    rewrite (proj2 (Z.ltb_ge MAX_DELIVERY_BLOB_BYTES 0)), (proj2 (Z.ltb_ge _ 0)) by (bounds; lia).
    by destruct Hs as [-> | ->]. }
  assert (live (set_live l 0 e') = e' :: rest) as Hl' by (cbn; by rewrite Hl).
  destruct (consume_head (set_live l 0 e') e' rest c) as (l' & Hrun & Hok' & Hrest); try done.
  { eapply moved_ok; [done|done|]. apply Answered; [done|rewrite len_nil; bounds; lia..]. }
  exists l'. split; [|done]. cbn [run apply] in *. rewrite Hrec. by rewrite Hrun.
Qed.

Lemma drain_head_ok l e rest : ledger_ok l -> live l = e :: rest ->
  Forall typed_op (drain_head e)
  /\ exists l' claims, run l (drain_head e) = Some (l', claims) /\ ledger_ok l' /\ live l' = rest.
Proof.
  intros Hok Hl. pose proof (head_entry_ok l e rest Hok Hl) as He. unfold drain_head.
  destruct (state e) eqn:Hs.
  2,4: split; [by repeat constructor|]; destruct (record_head l e rest _ Hok Hl ltac:(by auto) eq_refl)
    as (l' & ? & ? & ?); by exists l', [].
  2:{ split; [by repeat constructor|]. destruct (consume_head l e rest _ Hok Hl Hs eq_refl)
    as (l' & ? & ? & ?). by exists l', []. }
  set (k := unwrap_or (contract e) 1). change (c_contract (head_correlation e (attempt e + 1))) with k.
  assert (1 <= k <= U64_MAX /\ attempt e < MAX_DELIVERY_ATTEMPTS /\ unwrap_or (contract e) k = k) as (Hk & Ha & Huk).
  { destruct He as (_ & _ & _ & _ & _ & Hk & _ & _ & Hv). unfold valid_state in Hv. rewrite Hs in Hv.
    bool_prop. unfold k. split; [destruct (contract e); cbn in *; [done|bounds; lia]|].
    split; [|by destruct (contract e)]. bounds.
    match goal with H : _ || _ = true |- _ => apply orb_true_iff in H as [H|H] end; bool_prop; lia. }
  split; [repeat constructor; cbn; unfold is_u64; by rewrite andb_true_iff, !Z.leb_le; lia|].
  set (e' := claim_entry e k).
  assert (live (set_live l 0 e') = e' :: rest) as Hl' by (cbn; by rewrite Hl).
  assert (head_step e e') as Hst.
  { apply Claimed; try done. unfold k. by destruct (contract e). }
  destruct (record_head (set_live l 0 e') e' rest (head_correlation e (attempt e + 1)))
    as (l' & Hrun & Hok' & Hrest); [by eapply moved_ok|done|by left| |].
  { unfold head_correlation, e', claim_entry. cbn. by rewrite Huk. }
  exists l'.
  destruct (claim_spec l k Hok) as (l1 & r & E & Hr).
  { unfold is_u64. rewrite andb_true_iff, !Z.leb_le. lia. }
  destruct r as [cl|err].
  - destruct Hr as (e0 & rest0 & Hl0 & _ & _ & -> & _). assert (e0 = e) as -> by congruence.
    exists [cl]. split; [|done]. cbn [run apply] in *. rewrite E. fold e'. by rewrite Hrun.
  - exfalso. clear Hrun. unfold claim_oldest, non_zero in E.
    rewrite (proj2 (Z.eqb_neq k 0)), (oldest_head _ _ (live_ordered l Hok)), Hl in E by lia.
    cbn [existsb] in E. rewrite Hs, bool_decide_false in E by done. cbn [orb] in E.
    replace (existsb _ rest) with false in E.
    2:{ symmetry. apply not_true_iff_false. rewrite existsb_exists. intros (x & Hx & Hd).
        apply bool_decide_eq_true in Hd. pose proof (ok_followers l Hok) as Hf. rewrite Hl in Hf. cbn in Hf.
        rewrite List.Forall_forall in Hf. apply Hf, pristine_queued in Hx as []. congruence. }
    rewrite bool_decide_true in E by done. cbn [negb] in E.
    replace (match contract e with Some _ => _ | None => _ end) with false in E.
    2:{ destruct (contract e) as [x|]; [|done]. symmetry. by apply negb_false_iff, Z.eqb_eq. }
    by rewrite (proj2 (Z.leb_gt _ _)) in E by lia.
Qed.

Lemma run_app a b : forall l l1 c1 l2 c2,
  run l a = Some (l1, c1) -> run l1 b = Some (l2, c2) -> run l (a ++ b) = Some (l2, c1 ++ c2).
Proof.
  induction a as [|op a IH]; intros l l1 c1 l2 c2 Ha Hb; [by injection Ha as <- <-|].
  cbn [run app] in *. destruct (apply l op) as [[l0 c0]|]; [|done].
  destruct (run l0 a) as [[l0' c0']|] eqn:E; [|done]. injection Ha as -> <-.
  rewrite (IH l0 l1 c0' l2 c2 E Hb). by rewrite app_assoc.
Qed.

Lemma drain k : forall l, ledger_ok l -> live l = k ->
  exists ops l' claims, Forall typed_op ops /\ Forall (fun op => enqueues op = false) ops
    /\ len ops <= 3 * len k /\ run l ops = Some (l', claims) /\ live l' = [] /\ ledger_ok l'.
Proof.
  induction k as [|e k IH]; intros l Hok Hl.
  { exists [], l, []. split; [constructor|]. split; [constructor|]. by rewrite !len_nil. }
  destruct (drain_head_ok l e k Hok Hl) as (Ht & l1 & c1 & Hr & Hok1 & Hl1).
  destruct (IH l1 Hok1 Hl1) as (ops & l2 & c2 & Hts & Hns & Hlen & Hr2 & Hl2 & Hok2).
  exists (drain_head e ++ ops), l2, (c1 ++ c2). split; [by apply Forall_app|].
  split; [apply Forall_app; split; [|done]|].
  { unfold drain_head. destruct (state e); repeat (apply List.Forall_cons; [done|]); apply List.Forall_nil. }
  split; [|split; [by eapply run_app|done]]. rewrite len_app, len_cons.
  unfold drain_head. destruct (state e); rewrite ?len_cons, len_nil; lia.
Qed.

(** *** What the digest commits to *)

Lemma kind_from_to k : kind_from_tag (byte.unsigned (byte.of_Z (kind_tag k))) = Some k.
Proof. by destruct k. Qed.
Lemma policy_from_to p : policy_from_tag (byte.unsigned (byte.of_Z (policy_tag p))) = Some p.
Proof. by destruct p. Qed.
Lemma state_from_to s : state_from_tag (byte.unsigned (byte.of_Z (state_tag s))) = Some s.
Proof. by destruct s. Qed.

Lemma tag_app {A} (tag : A -> Z) (from : Z -> option A) a b (x y : bytes) :
  (forall k, from (byte.unsigned (byte.of_Z (tag k))) = Some k) ->
  [byte.of_Z (tag a)] ++ x = [byte.of_Z (tag b)] ++ y -> a = b /\ x = y.
Proof.
  intros H [= E ->]. split; [|done]. pose proof (H a) as Ha. rewrite E, H in Ha. by injection Ha.
Qed.

Lemma attempt_app a b (x y : bytes) : 0 <= a <= U8_MAX -> 0 <= b <= U8_MAX ->
  [byte.of_Z a] ++ x = [byte.of_Z b] ++ y -> a = b /\ x = y.
Proof.
  width. intros Ha Hb [= E ->]. split; [|done]. apply (f_equal byte.unsigned) in E.
  rewrite !byte.unsigned_of_Z in E. unfold byte.wrap in E. by rewrite !Z.mod_small in E by lia.
Qed.

(** The widths of what [put_entry] and [put_tombstone] write. *)
Definition entry_widths (e : DeliveryEntry) : Prop :=
  len (id e) = 32 /\ is_u64 (sequence e) = true /\ len (request_hash e) = 32
  /\ is_u64 (result_capacity e) = true
  /\ match result_hash e with Some h => len h = 32 | None => True end
  /\ 0 <= attempt e <= U8_MAX
  /\ match contract e with Some c => is_u64 c = true | None => True end.

Definition tombstone_widths (t : DeliveryTombstone) : Prop :=
  len (t_id t) = 32 /\ is_u64 (t_sequence t) = true /\ len (t_request_hash t) = 32
  /\ is_u64 (t_capacity t) = true /\ 0 <= t_attempt t <= U8_MAX /\ is_u64 (t_contract t) = true
  /\ len (t_result_hash t) = 32.

(** Two entries that differ at most in the bytes their hashes stand for. *)
Definition same_metadata (a b : DeliveryEntry) : Prop :=
  id a = id b /\ sequence a = sequence b /\ kind a = kind b /\ policy a = policy b
  /\ state a = state b /\ request_hash a = request_hash b /\ result_capacity a = result_capacity b
  /\ result_hash a = result_hash b /\ attempt a = attempt b /\ contract a = contract b.

Lemma put_entry_app a b x y : entry_widths a -> entry_widths b ->
  put_entry a ++ x = put_entry b ++ y -> same_metadata a b /\ x = y.
Proof.
  intros (Ai & As & Ah & Ac & Ar & Aa & Ak) (Bi & Bs & Bh & Bc & Br & Ba & Bk).
  unfold put_entry. rewrite <- !app_assoc. intros E.
  apply app_inv_len in E as [Ei E]; [|congruence]. apply be_u64_app in E as [Es E]; [|done..].
  apply (tag_app _ _ _ _ _ _ kind_from_to) in E as [Ek E].
  apply (tag_app _ _ _ _ _ _ policy_from_to) in E as [Ep E].
  apply (tag_app _ _ _ _ _ _ state_from_to) in E as [Et E].
  apply app_inv_len in E as [Eh E]; [|congruence]. apply be_u64_app in E as [Ec E]; [|done..].
  assert (result_hash a = result_hash b /\
    [byte.of_Z (attempt a)] ++ put_contract (contract a) ++ x
    = [byte.of_Z (attempt b)] ++ put_contract (contract b) ++ y) as [Er E'].
  { unfold put_hash in E. destruct (result_hash a), (result_hash b); try done.
    - rewrite <- !app_assoc in E. apply app_inv_head in E. apply app_inv_len in E as [-> E]; [by split|congruence].
    - apply app_inv_head in E. by split. }
  apply attempt_app in E' as [Ea E']; [|done..].
  assert (contract a = contract b /\ x = y) as [Eq Exy].
  { unfold put_contract in E'. destruct (contract a), (contract b); try done.
    - rewrite <- !app_assoc in E'. apply app_inv_head in E'. by apply be_u64_app in E' as [-> ->].
    - apply app_inv_head in E'. by split. }
  by repeat split.
Qed.

Lemma put_tombstone_app a b x y : tombstone_widths a -> tombstone_widths b ->
  put_tombstone a ++ x = put_tombstone b ++ y -> a = b /\ x = y.
Proof.
  intros (Ai & As & Ah & Ac & Aa & Ak & Ar) (Bi & Bs & Bh & Bc & Ba & Bk & Br).
  unfold put_tombstone. rewrite <- !app_assoc. intros E.
  apply app_inv_len in E as [Ei E]; [|congruence]. apply be_u64_app in E as [Es E]; [|done..].
  apply (tag_app _ _ _ _ _ _ kind_from_to) in E as [Ek E].
  apply (tag_app _ _ _ _ _ _ policy_from_to) in E as [Ep E].
  apply app_inv_len in E as [Eh E]; [|congruence]. apply be_u64_app in E as [Ec E]; [|done..].
  apply attempt_app in E as [Ea E]; [|done..]. apply be_u64_app in E as [Eq E]; [|done..].
  apply app_inv_len in E as [Er E]; [|congruence]. injection E as E.
  destruct a as [? ? ? ? ? ? ? ? ? []], b as [? ? ? ? ? ? ? ? ? []]. cbn in *. by subst.
Qed.

Lemma concat_put_app {A} (put : A -> bytes) (R : A -> A -> Prop) (ok : A -> Prop) l k (x y : bytes) :
  (forall a b x y, ok a -> ok b -> put a ++ x = put b ++ y -> R a b /\ x = y) ->
  Forall ok l -> Forall ok k -> len l = len k ->
  concat (map put l) ++ x = concat (map put k) ++ y -> Forall2 R l k /\ x = y.
Proof.
  intros H Hl. revert k. induction Hl as [|a l Ha Hl IH]; intros k Hk Hlen E; destruct Hk as [|b k Hb Hk];
    rewrite ?len_cons, ?len_nil in Hlen;
    try pose proof (len_nonneg l); try pose proof (len_nonneg k); try lia.
  - split; [constructor|done].
  - cbn in E. rewrite <- !app_assoc in E. apply H in E as [Hr E]; [|done..].
    apply IH in E as [Hrest ->]; [|done|lia]. split; [by constructor|done].
Qed.

Lemma ordered_bounds from l x : ordered from l -> In x l -> from <= x < from + len l.
Proof.
  revert from. induction l as [|y l IH]; intros from Ho Hx; [done|]. rewrite len_cons.
  pose proof (len_nonneg l). destruct Ho as [-> Ho], Hx as [<-|Hx]; [lia|]. specialize (IH _ Ho Hx). lia.
Qed.

Lemma ok_widths l : ledger_ok l ->
  Forall entry_widths (live l) /\ Forall tombstone_widths (tombstones l).
Proof.
  intros Hok. destruct Hok.
  assert (forall x, In x (map t_sequence (tombstones l) ++ map sequence (live l)) -> is_u64 x = true) as Hseq.
  { intros x Hx. apply (ordered_bounds _ _ _ ok_ordered) in Hx. rewrite len_app, !len_map in Hx.
    unfold is_u64. rewrite andb_true_iff, !Z.leb_le. bounds. lia. }
  assert (forall b : bytes, len (sha256 b) = 32) as Hsha by (intros; unfold len; by rewrite sha256_length).
  assert (forall n, 0 <= n <= U64_MAX -> is_u64 n = true) as Hu
    by (intros; unfold is_u64; rewrite andb_true_iff, !Z.leb_le; lia).
  rewrite !List.Forall_forall in *. split.
  - intros e He. assert (is_u64 (sequence e) = true)
      by (apply Hseq, in_app_iff; right; by apply in_map).
    destruct (ok_entries e He) as (_ & _ & Hc & Hh & Hi & Hk & _ & Hr & Hv).
    unfold entry_widths. rewrite Hi, Hh. unfold derive_id. rewrite !Hsha. do 3 (split; [done|]).
    split; [apply Hu; bounds; lia|]. unfold valid_state, attempts_in, result_hashed in *.
    split; [|split; [|destruct (contract e); [cbn in Hk; apply Hu; lia|done]]].
    + destruct (result_hash e) as [h|], (result_bytes e); cbn in *; try done.
      * apply bool_decide_eq_true in Hr. by rewrite <- Hr.
      * exfalso. destruct (state e); by rewrite ?andb_false_r in Hv.
    + bounds. destruct (state e); bool_prop; lia.
  - intros t Ht. assert (is_u64 (t_sequence t) = true)
      by (apply Hseq, in_app_iff; left; by apply in_map).
    destruct (ok_terminal t Ht) as (_ & Hc & Ha & Hk & Hq & Hr & Hi).
    unfold tombstone_widths. rewrite Hi. unfold derive_id. rewrite Hsha. unfold len. rewrite Hq, Hr.
    do 3 (split; [done|]). split; [apply Hu; bounds; lia|]. split; [bounds; lia|].
    split; [apply Hu; lia|done].
Qed.

Lemma same_entry ns ns' a b : entry_ok ns a -> entry_ok ns' b -> same_metadata a b -> a = b \/ collision.
Proof.
  intros (_ & _ & _ & Ha & _ & _ & _ & Hra & Hva) (_ & _ & _ & Hb & _ & _ & _ & Hrb & Hvb)
    (E1 & E2 & E3 & E4 & E5 & E6 & E7 & E8 & E9 & E10).
  apply valid_state_results in Hva, Hvb. unfold result_hashed in *.
  destruct (bytes_or_collision (request a) (request b)) as [Eq|]; [congruence| |by right].
  assert (result_bytes a = result_bytes b \/ collision) as [Er|]; [| |by right].
  { rewrite E8 in *. destruct (result_hash b), (result_bytes a) as [x|], (result_bytes b) as [y|]; try done; try by left.
    apply bool_decide_eq_true in Hra, Hrb.
    destruct (bytes_or_collision x y) as [->|]; [congruence|by left|by right]. }
  left. destruct a, b. cbn in *. by subst.
Qed.

Lemma same_entries ns ns' a b : Forall (entry_ok ns) a -> Forall (entry_ok ns') b ->
  Forall2 same_metadata a b -> a = b \/ collision.
Proof.
  intros Ha Hb H. induction H as [|x y a b Hxy _ IH]; [by left|].
  apply Forall_cons_iff in Ha as [Hx Ha], Hb as [Hy Hb].
  destruct (same_entry _ _ _ _ Hx Hy Hxy) as [->|]; [|by right].
  destruct (IH Ha Hb) as [->|]; [by left|by right].
Qed.

Lemma digest_commits a b :
  ledger_ok a -> ledger_ok b -> len (namespace a) = 32 -> len (namespace b) = 32 ->
  digest a = digest b -> a = b \/ collision.
Proof.
  intros Ha Hb Na Nb E. unfold digest in E. apply bytes_or_collision in E as [E|]; [|by right].
  destruct (ok_widths a Ha) as [Wa Ta], (ok_widths b Hb) as [Wb Tb].
  pose proof (reserved_nonneg a Ha). pose proof (reserved_nonneg b Hb).
  destruct (Ha), (Hb). pose proof (len_nonneg (live a)). pose proof (len_nonneg (live b)).
  pose proof (len_nonneg (tombstones a)). pose proof (len_nonneg (tombstones b)).
  assert (forall n, 0 <= n <= U64_MAX -> is_u64 n = true) as Hu
    by (intros; unfold is_u64; rewrite andb_true_iff, !Z.leb_le; lia).
  unfold ledger_preimage in E. apply app_inv_head in E. apply app_inv_len in E as [En E]; [|lia].
  apply be_u64_app in E as [Ex E]; [|apply Hu; bounds; lia..].
  apply be_u64_app in E as [Er E]; [|apply Hu; bounds; lia..].
  apply be_u64_app in E as [El E]; [|apply Hu; bounds; lia..].
  apply (concat_put_app put_entry same_metadata entry_widths) in E as [Hlive E]; try done;
    [|intros; by apply put_entry_app].
  apply be_u64_app in E as [Et E]; [|apply Hu; bounds; lia..].
  rewrite <- (app_nil_r (concat (map put_tombstone (tombstones a)))),
    <- (app_nil_r (concat (map put_tombstone (tombstones b)))) in E.
  apply (concat_put_app put_tombstone eq tombstone_widths) in E as [Htomb _]; try done;
    [|intros; by apply put_tombstone_app].
  apply list_eq_Forall2 in Htomb.
  destruct (same_entries _ _ _ _ ok_entries ok_entries0 Hlive) as [Elive|]; [|by right].
  left. destruct a, b. cbn in *. by subst.
Qed.
End machine.

Lemma sorted_lookup {A} (R : A -> A -> Prop) l i j a b :
  StronglySorted R l -> (i < j)%nat -> l !! i = Some a -> l !! j = Some b -> R a b.
Proof.
  intros H. revert i j. induction H as [|x l H IH Hx]; intros i j Hij Ha Hb; [done|].
  destruct j as [|j]; [lia|]. cbn in Hb. destruct i as [|i]; cbn in Ha; [|eapply IH; [|done..]; lia].
  injection Ha as ->. rewrite Forall_lookup in Hx. by apply (Hx j).
Qed.

Section properties.
Context `{D : Digest} {DL : DigestLaws}.

Lemma ready_result_total l c : ledger_ok l -> ready_result l c <> None.
Proof.
  intros Hok. unfold ready_result. destruct (live_location l c) as [[i e]|] eqn:E; [|done].
  apply live_location_live in E. case_bool_decide as Hs; [|done]. cbn [negb].
  destruct (located_head l c i e Hok E ltac:(congruence)) as [-> Hl].
  destruct (valid_ready _ _ (head_entry_ok l e _ Hok Hl) Hs) as (k & h & r & _ & _ & Hr & _).
  by rewrite Hr.
Qed.

(** C19: The delivery ledger stays well formed and never panics.  Whatever
    deliveries are prepared, enqueued, claimed, answered, reconciled, consumed
    and restored, every operation returns: at most 32 live entries and 64
    tombstones with consecutive sequences up to the next one, distinct derived
    identifiers, exact reservations within 4 MiB, at most three attempts, and
    nothing but pristine entries behind the oldest. *)
Theorem delivery_ledger_well_formed ns ops :
  Forall typed_op ops ->
  exists l claims, run (with_random ns) ops = Some (l, claims) /\ ledger_ok l
    /\ forall c, ready_result l c <> None.
Proof.
  intros Ht. destruct (run_ok ops _ (with_random_ok ns) Ht) as (l & claims & Hr & Hok).
  exists l, claims. split; [done|]. split; [done|]. intros c. by apply ready_result_total.
Qed.

(** A checkpoint is accepted exactly when it is the parts of a well-formed
    ledger with that ledger's digest.  So a saved ledger is restored to itself,
    and under its digest no other parts are accepted, request and result bytes
    included, unless SHA-256 has a collision. *)
Theorem checkpoint_restores_its_ledger ns n entries ts :
  is_u64 n = true -> Forall entry_typed entries -> Forall tombstone_typed ts -> len ns = 32 ->
  (forall d l, restore_checked ns n entries ts d = Ok l <->
     ledger_ok l /\ namespace l = ns /\ next_sequence l = n /\ live l = entries
     /\ tombstones l = ts /\ digest l = d)
  /\ forall saved, ledger_ok saved -> len (namespace saved) = 32 ->
     restart saved = Ok saved
     /\ forall l, restore_checked ns n entries ts (digest saved) = Ok l -> l = saved \/ collision.
Proof.
  intros Hn He Ht Hns. split; [by intros; apply restore_checked_iff|]. intros saved Hok Hs.
  split; [by apply restart_ok|]. intros l H. apply restore_checked_iff in H as (Hl & <- & _ & _ & _ & Hd); [|done..].
  by apply digest_commits.
Qed.

(** C20: No effect is handed out twice against its policy.  Over the life of a
    ledger, restarts included, the claims come in order: a later claim is of a
    later delivery, or it is a further attempt, at most the third, at the same
    request under the same adapter contract, of a delivery whose policy allows
    replay; so a delivery that must never be replayed is claimed at most once. *)
Theorem claims_never_replayed ns ops l claims :
  Forall typed_op ops -> run (with_random ns) ops = Some (l, claims) ->
  StronglySorted claimed_before claims /\ Forall claim_ok claims
  /\ forall i j a b, (i < j)%nat -> claims !! i = Some a -> claims !! j = Some b ->
       replayable (cl_policy b) = false -> cl_sequence a < cl_sequence b.
Proof.
  intros Ht H. destruct (run_claims ops _ _ _ (with_random_ok ns) Ht H) as (Hs & Hc & _).
  split; [done|]. split; [done|]. intros i j a b Hij Ha Hb Hr.
  pose proof (sorted_lookup claimed_before claims i j a b Hs Hij Ha Hb) as [?|Hab]; [done|].
  destruct Hab as (_ & _ & _ & _ & _ & ?). congruence.
Qed.

(** C21: A ledger is never stuck.  From any ledger that a run leaves, claiming,
    answering and consuming the oldest delivery, at most three operations per
    live entry and nothing enqueued, empties it and releases every reserved
    byte. *)
Theorem deliveries_can_drain ns ops l claims :
  Forall typed_op ops -> run (with_random ns) ops = Some (l, claims) ->
  exists more l' later, Forall typed_op more /\ Forall (fun op => enqueues op = false) more
    /\ len more <= 3 * len (live l) /\ run l more = Some (l', later)
    /\ live l' = [] /\ reserved_bytes l' = 0.
Proof.
  intros Ht H. destruct (run_ok ops _ (with_random_ok ns) Ht) as (l0 & c0 & Hr & Hok).
  rewrite H in Hr. injection Hr as <- <-.
  destruct (drain (live l) l Hok eq_refl) as (more & l' & later & ? & ? & ? & ? & Hl & Hok').
  exists more, l', later. do 5 (split; [done|]). by rewrite (ok_reserved l' Hok'), Hl.
Qed.

(** C22: Retries end.  From any ledger that a run leaves, however its operations
    are ordered and repeated, at most ten of those that enqueue nothing change
    it per live entry: at most 320 in all. *)
Theorem delivery_retries_end ns ops l claims more :
  Forall typed_op ops -> run (with_random ns) ops = Some (l, claims) ->
  Forall typed_op more -> Forall (fun op => enqueues op = false) more ->
  exists n, changes l more = Some n /\ n <= 10 * len (live l) <= 320.
Proof.
  intros Ht H Hm He. destruct (run_ok ops _ (with_random_ok ns) Ht) as (l0 & c0 & Hr & Hok).
  rewrite H in Hr. injection Hr as <- <-.
  destruct (changes_total more l Hok Hm) as [n Hn]. exists n. split; [done|].
  pose proof (changes_bounded more l n Hok Hm He Hn). pose proof (moves_left_bounds l Hok).
  pose proof (ok_live l Hok). bounds. lia.
Qed.
End properties.

Module Examples.
Definition ns : bytes := repeat Byte.x07 32.

#[local] Existing Instance Samples.fold_digest.
#[local] Existing Instance Samples.fold_digest_laws.

Definition prepared (kind : DeliveryKind) (sequence : Z) (request : bytes) : PreparedDelivery := {|
  p_namespace := ns;
  p_id := derive_id ns sequence kind (recovery_policy kind) (sha256 request) 10;
  p_sequence := sequence; p_kind := kind; p_policy := recovery_policy kind; p_request := request;
  p_request_hash := sha256 request; p_capacity := 10;
|}.

Definition http : PreparedDelivery := prepared Http 1 [Byte.x01].
Definition sign : PreparedDelivery := prepared Sign 2 [Byte.x02].

Definition sent (attempt contract : Z) : DeliveryCorrelation := {|
  c_id := p_id http; c_request_hash := p_request_hash http; c_attempt := attempt; c_contract := contract;
|}.

(** An ambiguous dispatch, a restart, a retry, its answer, and the next claim. *)
Definition ops : list Op :=
  [Enqueue http; EnqueueBatch [sign]; Claim 7; MarkAmbiguous (sent 1 7); Restart;
   ResolveNotPerformed (sent 1 7); Claim 7; RecordResult (sent 2 7) [Byte.xff]; ConsumeReady (sent 2 7);
   Claim 7].

Lemma ops_typed : Forall typed_op ops.
Proof.
  assert (made http) as Hh by (exists (with_random ns), Http, [Byte.x01], 10; split; [lia|by vm_compute]).
  assert (made sign) as Hs
    by (exists (pushed (with_random ns) http), Sign, [Byte.x02], 10; split; [lia|by vm_compute]).
  unfold ops. repeat (apply List.Forall_cons; [by cbn; auto|]). apply List.Forall_nil.
Qed.

Definition after : DeliveryLedger * list ClaimedDelivery :=
  match run (with_random ns) ops with Some r => r | None => (with_random ns, []) end.

Example ops_claims :
  run (with_random ns) ops = Some after
  /\ map (fun c => (cl_sequence c, c_attempt (correlation c))) (snd after) = [(1, 1); (1, 2); (2, 1)].
Proof. split; by vm_compute. Qed.
End Examples.

#[local] Existing Instance Samples.fold_digest.
#[local] Existing Instance Samples.fold_digest_laws.

Lemma delivery_ledger_well_formed_witness :
  exists l claims, run (with_random Examples.ns) Examples.ops = Some (l, claims) /\ ledger_ok l.
Proof.
  destruct (delivery_ledger_well_formed Examples.ns Examples.ops Examples.ops_typed) as (l & c & H & Hok & _).
  exists l, c. split; [exact H|exact Hok].
Defined.

Lemma checkpoint_restores_its_ledger_witness :
  restart (with_random Examples.ns) = Ok (with_random Examples.ns).
Proof.
  destruct (checkpoint_restores_its_ledger Examples.ns 1 [] [] eq_refl
    (List.Forall_nil _) (List.Forall_nil _) eq_refl) as [_ H1].
  by destruct (H1 (with_random Examples.ns) (with_random_ok Examples.ns) eq_refl) as [H2 _].
Defined.

Lemma claims_never_replayed_witness :
  StronglySorted claimed_before (snd Examples.after) /\ length (snd Examples.after) = 3%nat.
Proof.
  split; [|by vm_compute].
  refine (proj1 (claims_never_replayed Examples.ns Examples.ops (fst Examples.after) (snd Examples.after)
    Examples.ops_typed _)).
  by vm_compute.
Defined.

Lemma deliveries_can_drain_witness :
  exists more l' later, run (fst Examples.after) more = Some (l', later)
    /\ live l' = [] /\ len more <= 3 * len (live (fst Examples.after)).
Proof.
  destruct (deliveries_can_drain Examples.ns Examples.ops (fst Examples.after) (snd Examples.after)
    Examples.ops_typed ltac:(by vm_compute)) as (more & l' & later & _ & _ & Hn & Hr & Hl & _).
  exists more, l', later. split; [exact Hr|]. split; [exact Hl|exact Hn].
Defined.

Lemma delivery_retries_end_witness :
  exists n, changes (fst Examples.after) [Claim 7; MarkAmbiguous (Examples.sent 1 7)] = Some n
    /\ n <= 320.
Proof.
  destruct (delivery_retries_end Examples.ns Examples.ops (fst Examples.after) (snd Examples.after)
    [Claim 7; MarkAmbiguous (Examples.sent 1 7)] Examples.ops_typed ltac:(by vm_compute)
    ltac:(by repeat constructor) ltac:(by repeat constructor)) as (n & Hn & Hb1 & Hb2).
  exists n. split; [exact Hn|]. exact (Z.le_trans _ _ _ Hb1 Hb2).
Defined.
