(* ===== verification/Durable.v ===== *)
(** * The durable checkpoint codec (crates/wallet-core/src/durable.rs)

    The versioned checkpoint as canonical CBOR: the bounded encoder, the
    structural scan that runs before anything is allocated, and the typed
    decoder.  [Encoder] is the bytes written so far.  A [Cursor] is the input
    from its position on, which is always within the input.  A [?] leaves the
    whole decoder, so what it had read by then is not kept. *)

From S2P Require Import Prelude Utf8 Cbor Boundary TxnLog Holdings.

Open Scope Z_scope.
Open Scope rust_scope.

Definition MAX_CHECKPOINT_BYTES : Z := 32 * 1024 * 1024.
Definition MAX_CREDENTIALS : Z := 128.
Definition MAX_RAW_CREDENTIAL_BYTES : Z := 2 * 1024 * 1024.
Definition MAX_ISSUER_ID_BYTES : Z := 2 * 1024.
Definition MAX_CERTIFICATES_PER_PATH : Z := 16.
Definition MAX_CERTIFICATE_BYTES : Z := 256 * 1024.
Definition MAX_CREDENTIAL_EVIDENCE_BYTES : Z := 24 * 1024 * 1024.
Definition MAX_REPLAY_VALUES : Z := 65536.
Definition MAGIC : bytes := as_bytes "EUWALLET-CHECKPOINT".
Definition VERSION : Z := 3.
(** [oid4vp::MAX_NONCE_BYTES]. *)
Definition MAX_NONCE_BYTES : Z := 256.
Definition MAX_CONTEXT_VALUE_BYTES : Z := 16 * 1024.
Definition MAX_SCHEMA_DEPTH : Z := 8.
Definition MAX_CONTAINER_ITEMS : Z := MAX_REPLAY_VALUES.
Definition MAX_MAP_PAIRS : Z := 16.
Definition MAX_STRUCTURAL_NODES : Z := 1000000.
Definition MAX_DECODED_PAYLOAD_BYTES : Z := MAX_CHECKPOINT_BYTES.
Definition CONTEXT_HASH_DOMAIN : bytes := as_bytes "eudi-wallet-checkpoint-context-v1".

Inductive ContextField : Type := WalletClientId | DeviceKeyReference | DevicePublicKey.

Inductive Resource : Type :=
| CheckpointBytes | ContextValue | StructuralDepth | StructuralNodes | ContainerItems
| DecodedPayloadBytes | Credentials | RawCredentialBytes | IssuerIdentityBytes | Certificates
| CertificateBytes | CredentialEvidenceBytes | ReplayValues | EncodingBytes.

Inductive DurableCheckpointError : Type :=
| ResourceLimit (resource : Resource) (max actual : Z)
| SizeOverflow
| Truncated
| NonCanonical
| Malformed
| UnsupportedVersion (version : Z)
| InvalidGeneration
| GenerationMismatch (envelope embedded : Z)
| ContextMismatch (field : ContextField)
| ClockUnavailable
| ClockRollback (checkpoint current : Z)
| DeviceKeyUnavailable
| DeviceKeyInvalid
| TrustListUnavailable
| TrustListExpired
| TrustListRollback (checkpoint current : Z)
| WuaUnavailable
| WuaInvalid
| AuditLogUnavailable
| AuditTimestampAfterClock (seq epoch clock_high_water : Z)
| CredentialInvalid (index : Z) (error : CredentialIngestionError)
| CredentialEvidenceMismatch (index : Z)
| DuplicateCredential
| TransactionLogError (e : TxnLog.Error).

Record ContextHashes : Type := {
  wallet_client_id : bytes; device_key_ref : bytes; device_public_key : bytes;
}.

Record CredentialRecord : Type := {
  format : Z; raw : bytes; issuer_identity : string; certificate_path : list bytes;
}.

Record ReplaySets : Type := {
  r_presentation : list string; r_payment : list Z; r_issuance : list Z; r_qes : list Z;
}.

Record Checkpoint : Type := {
  generation : Z; context : ContextHashes; clock_high_water : Z; trust_sequence_high_water : Z;
  credentials : list CredentialRecord; replay : ReplaySets;
  transaction_entries : list TxnLog.Entry; transaction_head : bytes; issuance_interrupted : bool;
}.

Definition checked_total (total add : Z) : result Z DurableCheckpointError :=
  let? total := ok_or (checked_u64 (total + add)) SizeOverflow in
  if MAX_CREDENTIAL_EVIDENCE_BYTES <? total
  then Err (ResourceLimit CredentialEvidenceBytes MAX_CREDENTIAL_EVIDENCE_BYTES total)
  else Ok total.

Definition charge_transaction_payload (total add : Z) : result Z DurableCheckpointError :=
  let? total := ok_or (checked_u64 (total + add)) SizeOverflow in
  if MAX_AGGREGATE_BYTES <? total
  then Err (ResourceLimit DecodedPayloadBytes MAX_AGGREGATE_BYTES total)
  else Ok total.

(** The derived order of [Vec<Vec<u8>>]. *)
Fixpoint paths_cmp (a b : list bytes) : comparison :=
  match a, b with
  | [], [] => Eq
  | [], _ :: _ => Lt
  | _ :: _, [] => Gt
  | x :: a, y :: b => match bytes_cmp x y with Eq => paths_cmp a b | c => c end
  end.

Definition then_with (c : comparison) (next : comparison) : comparison :=
  match c with Eq => next | c => c end.

Definition cmp_canonical (self other : CredentialRecord) : comparison :=
  then_with (Z.compare (format self) (format other))
    (then_with (bytes_cmp (raw self) (raw other))
      (then_with (bytes_cmp (as_bytes (issuer_identity self)) (as_bytes (issuer_identity other)))
        (paths_cmp (certificate_path self) (certificate_path other)))).

(** ** Taking the durable state out of a core *)

Definition sorted_replay (values : list Z) : result (list Z) DurableCheckpointError :=
  if MAX_REPLAY_VALUES <? len values
  then Err (ResourceLimit ReplayValues MAX_REPLAY_VALUES (len values))
  else Ok (dedup Z.compare (sort_with Z.compare values)).

Definition sorted_replay_str (values : list string) : result (list string) DurableCheckpointError :=
  if MAX_REPLAY_VALUES <? len values
  then Err (ResourceLimit ReplayValues MAX_REPLAY_VALUES (len values))
  else
    match find (fun value => MAX_NONCE_BYTES <? slen value) values with
    | Some value => Err (ResourceLimit ReplayValues MAX_NONCE_BYTES (slen value))
    | None => Ok (dedup str_cmp (sort_with str_cmp values))
    end.

Definition validate_transaction_clock (entries : list TxnLog.Entry) (clock_high_water : Z)
  : result unit DurableCheckpointError :=
  match find (fun entry => negb (redacted entry) && (clock_high_water <? epoch (content entry))) entries with
  | Some entry => Err (AuditTimestampAfterClock (seq entry) (epoch (content entry)) clock_high_water)
  | None => Ok tt
  end.

Fixpoint validate_certificates (path : list bytes) (aggregate : Z) : result Z DurableCheckpointError :=
  match path with
  | [] => Ok aggregate
  | certificate :: path =>
      if is_empty certificate || (MAX_CERTIFICATE_BYTES <? len certificate)
      then Err (ResourceLimit CertificateBytes MAX_CERTIFICATE_BYTES (len certificate))
      else
        let? aggregate := checked_total aggregate (len certificate) in
        validate_certificates path aggregate
  end.

(** The aggregate that [&mut usize] is left as. *)
Definition validate_record_parts (raw : bytes) (issuer_identity : string)
    (certificate_path : list bytes) (aggregate : Z) : result Z DurableCheckpointError :=
  if MAX_RAW_CREDENTIAL_BYTES <? len raw
  then Err (ResourceLimit RawCredentialBytes MAX_RAW_CREDENTIAL_BYTES (len raw))
  else
    let? aggregate := checked_total aggregate (len raw) in
    if sis_empty issuer_identity || (MAX_ISSUER_ID_BYTES <? slen issuer_identity)
    then Err (ResourceLimit IssuerIdentityBytes MAX_ISSUER_ID_BYTES (slen issuer_identity))
    else
      let? aggregate := checked_total aggregate (slen issuer_identity) in
      if is_empty certificate_path || (MAX_CERTIFICATES_PER_PATH <? len certificate_path)
      then Err (ResourceLimit Certificates MAX_CERTIFICATES_PER_PATH (len certificate_path))
      else validate_certificates certificate_path aggregate.

(** What is hashed into a context value. *)
Definition context_preimage (label : byte) (value : bytes) : bytes :=
  CONTEXT_HASH_DOMAIN ++ [label] ++ to_be_bytes 8 (len value) ++ value.

Definition context_hash `{D : Digest} (label : byte) (value : bytes) : bytes :=
  sha256 (context_preimage label value).

Definition context_value_ok (value : bytes) : result unit DurableCheckpointError :=
  if is_empty value || (MAX_CONTEXT_VALUE_BYTES <? len value)
  then Err (ResourceLimit ContextValue MAX_CONTEXT_VALUE_BYTES (len value))
  else Ok tt.

(** [current_context], on the fields of the core that it reads. *)
Definition current_context `{D : Digest} (wallet_client_id device_key_ref : string)
    (device_public_key : bytes) : result ContextHashes DurableCheckpointError :=
  let? _ := context_value_ok (as_bytes wallet_client_id) in
  let? _ := context_value_ok (as_bytes device_key_ref) in
  if is_empty device_public_key then Err DeviceKeyUnavailable
  else if negb (len device_public_key =? 65)
          || negb (bool_decide (List.hd_error device_public_key = Some Byte.x04))
  then Err DeviceKeyInvalid
  else Ok {| wallet_client_id := context_hash Byte.x01 (as_bytes wallet_client_id);
             device_key_ref := context_hash Byte.x02 (as_bytes device_key_ref);
             device_public_key := context_hash Byte.x03 device_public_key |}.

(** ** The encoder *)

Definition Encoder : Type := bytes.
Definition writer : Type := Encoder -> result Encoder DurableCheckpointError.

Definition extend (value : bytes) : writer := fun self =>
  let? next := ok_or (checked_u64 (len self + len value)) SizeOverflow in
  if MAX_CHECKPOINT_BYTES <? next
  then Err (ResourceLimit EncodingBytes MAX_CHECKPOINT_BYTES next)
  else Ok (self ++ value).

(** Writes in sequence, each behind a [?]. *)
Fixpoint write_all (ws : list writer) : writer := fun out =>
  match ws with
  | [] => Ok out
  | w :: ws => let? out := w out in write_all ws out
  end.

Definition put_each {A} (w : A -> writer) (l : list A) : writer := write_all (map w l).

Definition put_head (major argument : Z) : writer := extend (write_head [] major argument).
Definition put_uint (value : Z) : writer := put_head 0 value.
Definition put_int (value : Z) : writer :=
  if 0 <=? value then put_uint value else put_head 1 (-1 - value).
Definition put_bytes (value : bytes) : writer := write_all [put_head 2 (len value); extend value].
Definition put_text (value : string) : writer :=
  write_all [put_head 3 (slen value); extend (as_bytes value)].
Definition put_array (n : Z) : writer := put_head 4 n.
Definition put_map (n : Z) : writer := put_head 5 n.
Definition put_bool (value : bool) : writer := extend [if value then Byte.xf5 else Byte.xf4].
Definition put_null : writer := extend [Byte.xf6].

Definition encode_credential (credential : CredentialRecord) : writer := write_all [
  put_map 4;
  put_uint 1; put_uint (format credential);
  put_uint 2; put_bytes (raw credential);
  put_uint 3; put_text (issuer_identity credential);
  put_uint 4; put_array (len (certificate_path credential));
  put_each put_bytes (certificate_path credential)].

Definition encode_replay (key : Z) (values : list Z) : writer := write_all [
  put_uint key; put_array (len values); put_each put_uint values].

Definition kind_code (k : Kind) : Z :=
  match k with Presentation => 1 | Issuance => 2 | Payment => 3 | Transfer => 4 end.

Definition outcome_code (o : Outcome) : Z :=
  match o with Completed => 1 | Declined => 2 | Aborted => 3 end.

Definition encode_payment (o : option PaymentSummary) : writer :=
  match o with
  | Some payment => write_all [
      put_map 3;
      put_uint 1; put_text (payee payment);
      put_uint 2; put_uint (amount_minor payment);
      put_uint 3; put_text (currency payment)]
  | None => put_null
  end.

Definition encode_transaction_entry (entry : TxnLog.Entry) : writer := write_all [
  put_map 11;
  put_uint 1; put_uint (seq entry);
  put_uint 2; put_int (epoch (content entry));
  put_uint 3; put_uint (kind_code (kind (content entry)));
  put_uint 4; put_text (counterparty (content entry));
  put_uint 5; put_bytes (consent_hash (content entry));
  put_uint 6; put_array (len (claim_paths (content entry)));
  put_each put_text (claim_paths (content entry));
  put_uint 7; put_uint (outcome_code (outcome (content entry)));
  put_uint 8; encode_payment (payment (content entry));
  put_uint 9; put_bytes (prev_hash entry);
  put_uint 10; put_bytes (entry_hash entry);
  put_uint 11; put_bool (redacted entry)].

Definition write_checkpoint (checkpoint : Checkpoint) : writer := write_all [
  put_map 9;
  put_uint 1; put_bytes MAGIC;
  put_uint 2; put_uint VERSION;
  put_uint 3; put_uint (generation checkpoint);
  put_uint 4; put_map 3;
  put_uint 1; put_bytes (wallet_client_id (context checkpoint));
  put_uint 2; put_bytes (device_key_ref (context checkpoint));
  put_uint 3; put_bytes (device_public_key (context checkpoint));
  put_uint 5; put_map 2;
  put_uint 1; put_int (clock_high_water checkpoint);
  put_uint 2; put_uint (trust_sequence_high_water checkpoint);
  put_uint 6; put_array (len (credentials checkpoint));
  put_each encode_credential (credentials checkpoint);
  put_uint 7; put_map 4;
  put_uint 1; put_array (len (r_presentation (replay checkpoint)));
  put_each put_text (r_presentation (replay checkpoint));
  encode_replay 2 (r_payment (replay checkpoint));
  encode_replay 3 (r_issuance (replay checkpoint));
  encode_replay 4 (r_qes (replay checkpoint));
  put_uint 8; put_map 2;
  put_uint 1; put_array (len (transaction_entries checkpoint));
  put_each encode_transaction_entry (transaction_entries checkpoint);
  put_uint 2; put_bytes (transaction_head checkpoint);
  put_uint 9; put_bool (issuance_interrupted checkpoint)].

Definition encode_checkpoint (checkpoint : Checkpoint) : result bytes DurableCheckpointError :=
  write_checkpoint checkpoint [].

(** ** The structural scan *)

Record ScanBudget : Type := { remaining_nodes : Z; payload_bytes : Z }.

Definition cbor_error (error : CborError) : DurableCheckpointError :=
  match error with
  | Cbor.Truncated => Truncated
  | NotShortestForm | IndefiniteLength | MapKeysNotSorted | DuplicateMapKey => NonCanonical
  | Reserved | InvalidUtf8 | TrailingBytes | UnsupportedSimple | TooDeep => Malformed
  end.

Definition usize_argument (value : Z) : result Z DurableCheckpointError :=
  ok_or (checked_u64 value) SizeOverflow.

Definition out_of_nodes : DurableCheckpointError :=
  ResourceLimit StructuralNodes MAX_STRUCTURAL_NODES (MAX_STRUCTURAL_NODES + 1).

(** The bytes between two positions of the input. *)
Definition consumed (input rest : bytes) : bytes := firstn (length input - length rest) input.

Definition scanner : Type := ScanBudget -> bytes -> result (ScanBudget * bytes) DurableCheckpointError.

Fixpoint scan_items (scan : scanner) (n : nat) : scanner := fun budget input =>
  match n with
  | O => Ok (budget, input)
  | S n =>
      let? (budget, input) := scan budget input in
      scan_items scan n budget input
  end.

Fixpoint scan_pairs (scan : scanner) (n : nat) (previous_key : option bytes) : scanner :=
  fun budget input =>
  match n with
  | O => Ok (budget, input)
  | S n =>
      let? (budget, rest) := scan budget input in
      let key := consumed input rest in
      if match previous_key with
         | Some previous => match bytes_cmp previous key with Lt => false | _ => true end
         | None => false
         end
      then Err NonCanonical
      else
        let? (budget, rest) := scan budget rest in
        scan_pairs scan n (Some key) budget rest
  end.

Definition scan_string (major length : Z) : scanner := fun budget rest =>
  if MAX_RAW_CREDENTIAL_BYTES <? length
  then Err (ResourceLimit DecodedPayloadBytes MAX_RAW_CREDENTIAL_BYTES length)
  else
    let? payload := ok_or (checked_u64 (payload_bytes budget + length)) SizeOverflow in
    if MAX_DECODED_PAYLOAD_BYTES <? payload
    then Err (ResourceLimit DecodedPayloadBytes MAX_DECODED_PAYLOAD_BYTES payload)
    else
      let? (body, rest) := ok_or (split_at_checked length rest) Truncated in
      if (major =? 3) && is_none (from_utf8 body) then Err Malformed
      else Ok ({| remaining_nodes := remaining_nodes budget; payload_bytes := payload |}, rest).

(** [levels] counts down from the depth that is still allowed, so that depth
    [MAX_SCHEMA_DEPTH + 1] is reached at zero. *)
Fixpoint scan_item (levels : nat) : scanner := fun budget input =>
  match levels with
  | O => Err (ResourceLimit StructuralDepth MAX_SCHEMA_DEPTH (MAX_SCHEMA_DEPTH + 1))
  | S levels =>
      if remaining_nodes budget =? 0 then Err out_of_nodes
      else
      let budget := {| remaining_nodes := remaining_nodes budget - 1;
                       payload_bytes := payload_bytes budget |} in
      match input with
      | [] => Err Truncated
      | first :: _ =>
          let? (major, argument, rest) := map_err (read_head input) cbor_error in
          match major with
          | 0 | 1 => Ok (budget, rest)
          | 2 | 3 =>
              let? length := usize_argument argument in
              scan_string major length budget rest
          | 4 =>
              let? length := usize_argument argument in
              if MAX_CONTAINER_ITEMS <? length
              then Err (ResourceLimit ContainerItems MAX_CONTAINER_ITEMS length)
              else if remaining_nodes budget <? length then Err out_of_nodes
              else scan_items (scan_item levels) (Z.to_nat length) budget rest
          | 5 =>
              let? length := usize_argument argument in
              if MAX_MAP_PAIRS <? length
              then Err (ResourceLimit ContainerItems MAX_MAP_PAIRS length)
              else
                let? minimum_nodes := ok_or (checked_u64 (length * 2)) SizeOverflow in
                if remaining_nodes budget <? minimum_nodes then Err out_of_nodes
                else scan_pairs (scan_item levels) (Z.to_nat length) None budget rest
          | 6 => scan_item levels budget rest
          | 7 =>
              match first with
              | Byte.xf4 | Byte.xf5 | Byte.xf6 => Ok (budget, rest)
              | _ => Err Malformed
              end
          | _ => Err Malformed
          end
      end
  end.

Definition SCHEMA_LEVELS : nat := 9.

Definition structural_preflight (bs : bytes) : result unit DurableCheckpointError :=
  if MAX_CHECKPOINT_BYTES <? len bs
  then Err (ResourceLimit CheckpointBytes MAX_CHECKPOINT_BYTES (len bs))
  else
    let budget := {| remaining_nodes := MAX_STRUCTURAL_NODES; payload_bytes := 0 |} in
    let? (_, rest) := scan_item SCHEMA_LEVELS budget bs in
    if is_empty rest then Ok tt else Err NonCanonical.

(** ** The decoder *)

Definition Cursor : Type := bytes.
Definition reader (A : Type) : Type := Cursor -> result (A * Cursor) DurableCheckpointError.

Definition take_head (expected_major : Z) : reader Z := fun input =>
  let? (major, value, rest) := map_err (read_head input) cbor_error in
  if negb (major =? expected_major) then Err Malformed else Ok (value, rest).

Definition take_uint : reader Z := take_head 0.

Definition take_int : reader Z := fun input =>
  let? (major, value, rest) := map_err (read_head input) cbor_error in
  match major with
  | 0 => if value <=? I64_MAX then Ok (value, rest) else Err Malformed
  | 1 => if value <=? I64_MAX then Ok (-1 - value, rest) else Err Malformed
  | _ => Err Malformed
  end.

Definition container (major max : Z) : reader Z := fun input =>
  let? (value, input) := take_head major input in
  let? length := usize_argument value in
  if max <? length then Err (ResourceLimit ContainerItems max length) else Ok (length, input).

Definition exact_map (n : Z) : reader unit := fun input =>
  let? (length, input) := container 5 n input in
  if negb (length =? n) then Err Malformed else Ok (tt, input).

Definition key (expected : Z) : reader unit := fun input =>
  let? (value, input) := take_uint input in
  if negb (value =? expected) then Err Malformed else Ok (tt, input).

(** The body of a byte or text string. *)
Definition borrowed (major max : Z) : reader bytes := fun input =>
  let? (value, input) := take_head major input in
  let? length := usize_argument value in
  if max <? length then Err (ResourceLimit DecodedPayloadBytes max length)
  else ok_or (split_at_checked length input) Truncated.

Definition borrowed_bytes (max : Z) : reader bytes := borrowed 2 max.

Definition hash : reader bytes := fun input =>
  let? (value, input) := borrowed_bytes 32 input in
  if len value =? 32 then Ok (value, input) else Err Malformed.

Definition borrowed_text (max : Z) : reader string := fun input =>
  let? (value, input) := borrowed 3 max input in
  let? text := ok_or (from_utf8 value) Malformed in
  Ok (text, input).

Definition take_bool : reader bool := fun input =>
  match input with
  | [] => Err Truncated
  | Byte.xf4 :: input => Ok (false, input)
  | Byte.xf5 :: input => Ok (true, input)
  | _ => Err Malformed
  end.

Definition null_or_payment (total : Z) : reader (option PaymentSummary * Z) := fun input =>
  match input with
  | Byte.xf6 :: input => Ok (None, total, input)
  | _ =>
      let? (_, input) := exact_map 3 input in
      let? (_, input) := key 1 input in
      let? (payee, input) := borrowed_text MAX_PAYMENT_PAYEE_BYTES input in
      let? total := charge_transaction_payload total (slen payee) in
      let? (_, input) := key 2 input in
      let? (amount_minor, input) := take_uint input in
      let? (_, input) := key 3 input in
      let? (currency, input) := borrowed_text 3 input in
      let? total := charge_transaction_payload total (slen currency) in
      Ok (Some {| payee := payee; amount_minor := amount_minor; currency := currency |}, total, input)
  end.

Fixpoint take_certificates (n : nat) (total : Z) : reader (list bytes * Z) := fun input =>
  match n with
  | O => Ok ([], total, input)
  | S n =>
      let? (certificate, input) := borrowed_bytes MAX_CERTIFICATE_BYTES input in
      if is_empty certificate then Err (ResourceLimit CertificateBytes MAX_CERTIFICATE_BYTES 0)
      else
        let? total := checked_total total (len certificate) in
        let? (path, total, input) := take_certificates n total input in
        Ok (certificate :: path, total, input)
  end.

Definition take_credential (total : Z) : reader (CredentialRecord * Z) := fun input =>
  let? (_, input) := exact_map 4 input in
  let? (_, input) := key 1 input in
  let? (format, input) := take_uint input in
  if U8_MAX <? format then Err Malformed
  else if negb ((format =? 1) || (format =? 2)) then Err Malformed
  else
    let? (_, input) := key 2 input in
    let? (raw, input) := borrowed_bytes MAX_RAW_CREDENTIAL_BYTES input in
    let? total := checked_total total (len raw) in
    let? (_, input) := key 3 input in
    let? (issuer_identity, input) := borrowed_text MAX_ISSUER_ID_BYTES input in
    if sis_empty issuer_identity then Err (ResourceLimit IssuerIdentityBytes MAX_ISSUER_ID_BYTES 0)
    else
      let? total := checked_total total (slen issuer_identity) in
      let? (_, input) := key 4 input in
      let? (path_len, input) := container 4 MAX_CERTIFICATES_PER_PATH input in
      if path_len =? 0 then Err (ResourceLimit Certificates MAX_CERTIFICATES_PER_PATH 0)
      else
        let? (certificate_path, total, input) := take_certificates (Z.to_nat path_len) total input in
        Ok ({| format := format; raw := raw; issuer_identity := issuer_identity;
               certificate_path := certificate_path |}, total, input).

(** [previous] is [credentials.last()]. *)
Fixpoint take_credentials (n : nat) (previous : option CredentialRecord) (total : Z)
  : reader (list CredentialRecord) := fun input =>
  match n with
  | O => Ok ([], input)
  | S n =>
      let? (record, total, input) := take_credential total input in
      if match previous with
         | Some previous => match cmp_canonical previous record with Lt => false | _ => true end
         | None => false
         end
      then Err DuplicateCredential
      else
        let? (credentials, input) := take_credentials n (Some record) total input in
        Ok (record :: credentials, input)
  end.

Fixpoint take_replay (n : nat) (previous : option Z) : reader (list Z) := fun input =>
  match n with
  | O => Ok ([], input)
  | S n =>
      let? (value, input) := take_uint input in
      if match previous with Some previous => value <=? previous | None => false end
      then Err NonCanonical
      else
        let? (values, input) := take_replay n (Some value) input in
        Ok (value :: values, input)
  end.

Definition decode_replay : reader (list Z) := fun input =>
  let? (n, input) := container 4 MAX_REPLAY_VALUES input in
  take_replay (Z.to_nat n) None input.

Fixpoint take_replay_str (n : nat) (previous : option string) : reader (list string) := fun input =>
  match n with
  | O => Ok ([], input)
  | S n =>
      let? (value, input) := borrowed_text MAX_NONCE_BYTES input in
      if match previous with
         | Some previous => match bytes_cmp (as_bytes previous) (as_bytes value) with Lt => false | _ => true end
         | None => false
         end
      then Err NonCanonical
      else
        let? (values, input) := take_replay_str n (Some value) input in
        Ok (value :: values, input)
  end.

Definition decode_replay_str : reader (list string) := fun input =>
  let? (n, input) := container 4 MAX_REPLAY_VALUES input in
  take_replay_str (Z.to_nat n) None input.

Fixpoint take_claims (n : nat) (total : Z) : reader (list string * Z) := fun input =>
  match n with
  | O => Ok ([], total, input)
  | S n =>
      let? (claim, input) := borrowed_text MAX_CLAIM_PATH_BYTES input in
      let? total := charge_transaction_payload total (slen claim) in
      let? (claims, total, input) := take_claims n total input in
      Ok (claim :: claims, total, input)
  end.

Definition kind_of_code (code : Z) : option Kind :=
  match code with
  | 1 => Some Presentation | 2 => Some Issuance | 3 => Some Payment | 4 => Some Transfer | _ => None
  end.

Definition outcome_of_code (code : Z) : option Outcome :=
  match code with 1 => Some Completed | 2 => Some Declined | 3 => Some Aborted | _ => None end.

Definition decode_transaction_entry (total : Z) : reader (TxnLog.Entry * Z) := fun input =>
  let? (_, input) := exact_map 11 input in
  let? (_, input) := key 1 input in
  let? (seq, input) := take_uint input in
  let? (_, input) := key 2 input in
  let? (epoch, input) := take_int input in
  let? (_, input) := key 3 input in
  let? (code, input) := take_uint input in
  let? kind := ok_or (kind_of_code code) Malformed in
  let? (_, input) := key 4 input in
  let? (counterparty, input) := borrowed_text MAX_COUNTERPARTY_BYTES input in
  let? total := charge_transaction_payload total (slen counterparty) in
  let? (_, input) := key 5 input in
  let? (consent_hash, input) := hash input in
  let? (_, input) := key 6 input in
  let? (claims_len, input) := container 4 MAX_CLAIM_PATHS_PER_ENTRY input in
  let? (claim_paths, total, input) := take_claims (Z.to_nat claims_len) total input in
  let? (_, input) := key 7 input in
  let? (code, input) := take_uint input in
  let? outcome := ok_or (outcome_of_code code) Malformed in
  let? (_, input) := key 8 input in
  let? (payment, total, input) := null_or_payment total input in
  let? (_, input) := key 9 input in
  let? (prev_hash, input) := hash input in
  let? (_, input) := key 10 input in
  let? (entry_hash, input) := hash input in
  let? (_, input) := key 11 input in
  let? (redacted, input) := take_bool input in
  Ok ({| seq := seq;
         content := {| epoch := epoch; kind := kind; counterparty := counterparty;
                       consent_hash := consent_hash; claim_paths := claim_paths;
                       outcome := outcome; payment := payment |};
         prev_hash := prev_hash; entry_hash := entry_hash; redacted := redacted |}, total, input).

Fixpoint take_entries (n : nat) (total : Z) : reader (list TxnLog.Entry) := fun input =>
  match n with
  | O => Ok ([], input)
  | S n =>
      let? (entry, total, input) := decode_transaction_entry total input in
      let? (entries, input) := take_entries n total input in
      Ok (entry :: entries, input)
  end.

Definition take_context : reader ContextHashes := fun input =>
  let? (_, input) := exact_map 3 input in
  let? (_, input) := key 1 input in
  let? (wallet_client_id, input) := hash input in
  let? (_, input) := key 2 input in
  let? (device_key_ref, input) := hash input in
  let? (_, input) := key 3 input in
  let? (device_public_key, input) := hash input in
  Ok ({| wallet_client_id := wallet_client_id; device_key_ref := device_key_ref;
         device_public_key := device_public_key |}, input).

Definition take_replay_sets : reader ReplaySets := fun input =>
  let? (_, input) := exact_map 4 input in
  let? (_, input) := key 1 input in
  let? (presentation, input) := decode_replay_str input in
  let? (_, input) := key 2 input in
  let? (payment, input) := decode_replay input in
  let? (_, input) := key 3 input in
  let? (issuance, input) := decode_replay input in
  let? (_, input) := key 4 input in
  let? (qes, input) := decode_replay input in
  Ok ({| r_presentation := presentation; r_payment := payment; r_issuance := issuance;
         r_qes := qes |}, input).

Definition take_checkpoint : reader Checkpoint := fun input =>
  let? (_, input) := exact_map 9 input in
  let? (_, input) := key 1 input in
  let? (magic, input) := borrowed_bytes (len MAGIC) input in
  if negb (bool_decide (magic = MAGIC)) then Err Malformed
  else
  let? (_, input) := key 2 input in
  let? (version, input) := take_uint input in
  if negb (version =? VERSION) then Err (UnsupportedVersion version)
  else
  let? (_, input) := key 3 input in
  let? (generation, input) := take_uint input in
  if generation =? 0 then Err InvalidGeneration
  else
  let? (_, input) := key 4 input in
  let? (context, input) := take_context input in
  let? (_, input) := key 5 input in
  let? (_, input) := exact_map 2 input in
  let? (_, input) := key 1 input in
  let? (clock_high_water, input) := take_int input in
  if clock_high_water <=? 0 then Err ClockUnavailable
  else
  let? (_, input) := key 2 input in
  let? (trust_sequence_high_water, input) := take_uint input in
  let? (_, input) := key 6 input in
  let? (credential_count, input) := container 4 MAX_CREDENTIALS input in
  let? (credentials, input) := take_credentials (Z.to_nat credential_count) None 0 input in
  let? (_, input) := key 7 input in
  let? (replay, input) := take_replay_sets input in
  let? (_, input) := key 8 input in
  let? (_, input) := exact_map 2 input in
  let? (_, input) := key 1 input in
  let? (entry_count, input) := container 4 MAX_ENTRIES input in
  let? (transaction_entries, input) := take_entries (Z.to_nat entry_count) 0 input in
  let? (_, input) := key 2 input in
  let? (transaction_head, input) := hash input in
  let? (_, input) := key 9 input in
  let? (issuance_interrupted, input) := take_bool input in
  Ok ({| generation := generation; context := context; clock_high_water := clock_high_water;
         trust_sequence_high_water := trust_sequence_high_water; credentials := credentials;
         replay := replay; transaction_entries := transaction_entries;
         transaction_head := transaction_head; issuance_interrupted := issuance_interrupted |}, input).

Definition decode_checkpoint (bs : bytes) : result Checkpoint DurableCheckpointError :=
  let? _ := structural_preflight bs in
  let? (checkpoint, rest) := take_checkpoint bs in
  if is_empty rest then Ok checkpoint else Err NonCanonical.
