(* ===== verification/DurableCodec.v ===== *)
(** * What the checkpoint codec accepts (crates/wallet-core/src/durable.rs)

    A checkpoint as a tree of CBOR items: the encoder writes this tree within
    the size limit, the decoder reads exactly the trees of checkpoints within
    the domain budgets, and the structural scan lets every one of them
    through. *)

From S2P Require Import Prelude Utf8 Cbor Boundary TxnLog Durable.

Open Scope Z_scope.
Open Scope rust_scope.

(** ** Items *)

(** The items of the schema; the keys of a map are 1, 2, ... in order. *)
Inductive Item : Type :=
| IHead (major n : Z)
| IStr (major : Z) (body : bytes)
| IArr (l : list Item)
| IMap (l : list Item)
| ISimple (b : byte).

Section item_ind.
Variable P : Item -> Prop.
Hypothesis Hhead : forall m n, P (IHead m n).
Hypothesis Hstr : forall m b, P (IStr m b).
Hypothesis Harr : forall l, Forall P l -> P (IArr l).
Hypothesis Hmap : forall l, Forall P l -> P (IMap l).
Hypothesis Hsimple : forall b, P (ISimple b).

Fixpoint item_nested_ind (i : Item) : P i :=
  match i with
  | IHead m n => Hhead m n
  | IStr m b => Hstr m b
  | IArr l => Harr l (list_ind (Forall P) (List.Forall_nil P)
                        (fun x k H => @List.Forall_cons _ P x k (item_nested_ind x) H) l)
  | IMap l => Hmap l (list_ind (Forall P) (List.Forall_nil P)
                        (fun x k H => @List.Forall_cons _ P x k (item_nested_ind x) H) l)
  | ISimple b => Hsimple b
  end.
End item_ind.

Definition i_uint (n : Z) : Item := IHead 0 n.
Definition i_int (n : Z) : Item := if 0 <=? n then IHead 0 n else IHead 1 (-1 - n).
Definition i_bytes (b : bytes) : Item := IStr 2 b.
Definition i_text (s : string) : Item := IStr 3 (as_bytes s).
Definition i_bool (b : bool) : Item := ISimple (if b then Byte.xf5 else Byte.xf4).

Fixpoint keyed (k : Z) (l : list bytes) : bytes :=
  match l with [] => [] | x :: l => write_head [] 0 k ++ x ++ keyed (k + 1) l end.

Fixpoint emit (i : Item) : bytes :=
  match i with
  | IHead m n => write_head [] m n
  | IStr m b => write_head [] m (len b) ++ b
  | IArr l => write_head [] 4 (len l) ++ concat (map emit l)
  | IMap l => write_head [] 5 (len l) ++ keyed 1 (map emit l)
  | ISimple b => [b]
  end.

Definition total_of (f : Item -> Z) (l : list Item) : Z := foldr (fun i n => f i + n) 0 l.

Fixpoint nodes (i : Item) : Z :=
  match i with
  | IArr l => 1 + total_of nodes l
  | IMap l => 1 + len l + total_of nodes l
  | _ => 1
  end.

Fixpoint payload (i : Item) : Z :=
  match i with
  | IStr _ b => len b
  | IArr l | IMap l => total_of payload l
  | _ => 0
  end.

Fixpoint height (i : Item) : nat :=
  match i with
  | IArr l => S (list_max (map height l))
  | IMap l => S (Nat.max 1 (list_max (map height l)))
  | _ => 1
  end.

(** What the scan asks of an item. *)
Inductive wf : Item -> Prop :=
| WfHead m n : m = 0 \/ m = 1 -> is_u64 n = true -> wf (IHead m n)
| WfBytes b : len b <= MAX_RAW_CREDENTIAL_BYTES -> wf (IStr 2 b)
| WfText b : len b <= MAX_RAW_CREDENTIAL_BYTES -> utf8_valid b = true -> wf (IStr 3 b)
| WfArr l : len l <= MAX_CONTAINER_ITEMS -> Forall wf l -> wf (IArr l)
| WfMap l : len l <= MAX_MAP_PAIRS -> Forall wf l -> wf (IMap l)
| WfSimple b : b = Byte.xf4 \/ b = Byte.xf5 \/ b = Byte.xf6 -> wf (ISimple b).

Ltac limits := unfold MAX_CHECKPOINT_BYTES, MAX_CREDENTIALS, MAX_RAW_CREDENTIAL_BYTES,
  MAX_ISSUER_ID_BYTES, MAX_CERTIFICATES_PER_PATH, MAX_CERTIFICATE_BYTES,
  MAX_CREDENTIAL_EVIDENCE_BYTES, MAX_NONCE_BYTES, MAX_DECODED_PAYLOAD_BYTES, MAX_CHECKPOINT_BYTES,
  MAX_CONTAINER_ITEMS, MAX_MAP_PAIRS, MAX_REPLAY_VALUES, MAX_STRUCTURAL_NODES,
  MAX_ENTRIES, MAX_AGGREGATE_BYTES, MAX_COUNTERPARTY_BYTES, MAX_CLAIM_PATHS_PER_ENTRY,
  MAX_CLAIM_PATH_BYTES, MAX_PAYMENT_PAYEE_BYTES in *; width.

Lemma total_of_cons f i l : total_of f (i :: l) = f i + total_of f l.
Proof. done. Qed.

Lemma total_of_len f l : Forall (fun i => 1 <= f i) l -> len l <= total_of f l.
Proof. induction 1 as [|i l Hi _ IH]; [done|]. rewrite len_cons, total_of_cons. lia. Qed.

Lemma total_of_nonneg f l : Forall (fun i => 0 <= f i) l -> 0 <= total_of f l.
Proof. induction 1 as [|i l Hi _ IH]; [done|]. rewrite total_of_cons. lia. Qed.

Lemma nodes_pos i : 1 <= nodes i.
Proof.
  induction i as [| |l IH|l IH|] using item_nested_ind; cbn [nodes]; try lia;
    pose proof (len_nonneg l); pose proof (total_of_len nodes l IH); lia.
Qed.

Lemma payload_nonneg i : 0 <= payload i.
Proof.
  induction i as [| |l IH|l IH|] using item_nested_ind; cbn [payload];
    try (done || apply len_nonneg || by apply total_of_nonneg).
Qed.

Lemma nodes_len l : len l <= total_of nodes l.
Proof. apply total_of_len, List.Forall_forall. intros i _. apply nodes_pos. Qed.

Lemma payloads_nonneg l : 0 <= total_of payload l.
Proof. apply total_of_nonneg, List.Forall_forall. intros i _. apply payload_nonneg. Qed.

(** ** The scan lets well-formed items through *)

Lemma consumed_app x rest : consumed (x ++ rest) rest = x.
Proof. unfold consumed. rewrite length_app. rewrite Nat.add_sub. apply take_app_length. Qed.

Lemma write_head_byte m n : 0 <= m <= 7 -> is_u64 n = true ->
  exists b t, write_head [] m n = b :: t.
Proof. intros Hm Hn. unfold is_u64 in Hn. bool_prop. destruct (write_head_cons m n) as (b & t & Hw & _); [lia|width; lia|by exists b, t]. Qed.

Definition spend (b : ScanBudget) (n p : Z) : ScanBudget :=
  {| remaining_nodes := remaining_nodes b - n; payload_bytes := payload_bytes b + p |}.

Lemma spend_spend b n p n' p' : spend (spend b n p) n' p' = spend b (n + n') (p + p').
Proof. unfold spend. cbn. f_equal; lia. Qed.

Lemma spend_0 b : spend b 0 0 = b.
Proof. destruct b. unfold spend. cbn. f_equal; lia. Qed.

(** [scan] takes [i] off the input within the budget. *)
Definition scans (scan : scanner) (i : Item) : Prop := forall b rest,
  nodes i <= remaining_nodes b -> 0 <= payload_bytes b ->
  payload_bytes b + payload i <= MAX_DECODED_PAYLOAD_BYTES ->
  scan b (emit i ++ rest) = Ok (spend b (nodes i) (payload i), rest).

Lemma scan_items_ok scan l : Forall (scans scan) l -> forall b rest,
  total_of nodes l <= remaining_nodes b -> 0 <= payload_bytes b ->
  payload_bytes b + total_of payload l <= MAX_DECODED_PAYLOAD_BYTES ->
  scan_items scan (length l) b (concat (map emit l) ++ rest)
  = Ok (spend b (total_of nodes l) (total_of payload l), rest).
Proof.
  induction 1 as [|i l Hi Hl IH]; intros b rest Hn Hp0 Hp; [by rewrite spend_0|].
  cbn [total_of foldr map concat length scan_items] in *. fold (total_of nodes l) in *.
  fold (total_of payload l) in *. rewrite <- app_assoc.
  pose proof (payload_nonneg i). pose proof (payloads_nonneg l).
  pose proof (nodes_len l). pose proof (len_nonneg l).
  rewrite Hi by lia. rewrite IH by (cbn; lia). by rewrite spend_spend.
Qed.

Lemma key_ascends k : 1 <= k <= 22 -> bytes_cmp (write_head [] 0 k) (write_head [] 0 (k + 1)) = Lt.
Proof.
  intros H. rewrite !write_head_tiny by lia.
  assert (forall j, 0 <= j <= 23 -> byte.unsigned (head_byte 0 j) = j) as Hb.
  { intros j Hj. unfold head_byte. rewrite Z.lor_0_l. apply unsigned_of_Z_small. lia. }
  cbn [bytes_cmp]. rewrite !Hb by lia. by rewrite (proj2 (Z.compare_lt_iff _ _)) by lia.
Qed.

Lemma scan_pairs_ok scan l : Forall (scans scan) l ->
  (forall k, 1 <= k <= 23 -> scans scan (i_uint k)) -> forall k b rest previous,
  1 <= k -> k + len l <= 23 ->
  previous = None \/ previous = Some (write_head [] 0 (k - 1)) /\ 2 <= k ->
  len l + total_of nodes l <= remaining_nodes b -> 0 <= payload_bytes b ->
  payload_bytes b + total_of payload l <= MAX_DECODED_PAYLOAD_BYTES ->
  scan_pairs scan (length l) previous b (keyed k (map emit l) ++ rest)
  = Ok (spend b (len l + total_of nodes l) (total_of payload l), rest).
Proof.
  intros Hl Hkey. induction Hl as [|i l Hi Hl IH]; intros k b rest previous Hk Hk' Hprev Hn Hp0 Hp;
    [by rewrite spend_0|].
  rewrite len_cons in *. cbn [total_of foldr map keyed length scan_pairs] in *.
  fold (total_of nodes l) in *. fold (total_of payload l) in *. rewrite <- !app_assoc.
  pose proof (payload_nonneg i). pose proof (payloads_nonneg l).
  pose proof (nodes_len l). pose proof (len_nonneg l).
  pose proof (nodes_pos i).
  change (write_head [] 0 k) with (emit (i_uint k)). rewrite (Hkey k) by (cbn; lia).
  rewrite consumed_app. cbn [emit i_uint].
  replace (match previous with Some p => _ | None => false end) with false.
  2:{ destruct Hprev as [->|[-> Hk2]]; [done|].
      pose proof (key_ascends (k - 1) ltac:(lia)) as E. replace (k - 1 + 1) with k in E by lia. by rewrite E. }
  cbn [nodes payload]. rewrite Hi by (cbn; lia).
  rewrite IH; [|lia|lia|right; split; [by replace (k + 1 - 1) with k by lia|lia]|cbn; lia|cbn; lia|cbn; lia].
  rewrite !spend_spend. cbn [nodes payload i_uint]. do 3 f_equal; lia.
Qed.

Lemma scan_item_ok i : wf i -> forall levels, (height i <= levels)%nat -> scans (scan_item levels) i.
Proof.
  assert (forall levels b, (1 <= levels)%nat -> 1 <= remaining_nodes b ->
    exists n, levels = S n /\ (remaining_nodes b =? 0) = false) as Hlev.
  { intros levels b H Hb. exists (pred levels). split; [lia|]. by apply Z.eqb_neq; lia. }
  induction i as [m n|m body|l IH|l IH|b] using item_nested_ind; intros Hwf levels Hh b' rest Hn Hp0 Hp;
    cbn [height nodes payload emit] in *.
  - inversion Hwf as [? ? Hm Hu| | | | | ]; subst. destruct (Hlev levels b' ltac:(lia) ltac:(lia)) as (k & -> & E0).
    destruct (write_head_byte m n) as (b0 & t & Hw); [lia|done|]. cbn [scan_item]. rewrite E0, Hw. cbn [app].
    rewrite app_comm_cons, <- Hw, read_write_head by (done || lia). cbn [map_err].
    unfold spend. rewrite Z.add_0_r. by destruct Hm as [-> | ->].
  - assert ((m = 2 \/ m = 3) /\ len body <= MAX_RAW_CREDENTIAL_BYTES /\ (m = 3 -> utf8_valid body = true))
      as (Hm & Hlen & Hutf) by (inversion Hwf; subst; (split; [by auto|]); split; done).
    destruct (Hlev levels b' ltac:(lia) ltac:(lia)) as (k & -> & E0). pose proof (len_nonneg body).
    assert (is_u64 (len body) = true) as Hu
      by (unfold is_u64; rewrite andb_true_iff, !Z.leb_le; limits; lia).
    destruct (write_head_byte m (len body)) as (b0 & t & Hw); [lia|done|]. cbn [scan_item].
    rewrite E0, Hw. cbn [app]. rewrite !app_comm_cons, <- Hw, <- app_assoc, read_write_head by (done || lia).
    assert (is_u64 (payload_bytes b' + len body) = true) as Hu2
      by (unfold is_u64; rewrite andb_true_iff, !Z.leb_le; limits; lia).
    assert (scan_string m (len body) {| remaining_nodes := remaining_nodes b' - 1;
              payload_bytes := payload_bytes b' |} (body ++ rest)
            = Ok (spend b' 1 (len body), rest)) as Hs.
    { unfold scan_string. rewrite (proj2 (Z.ltb_ge _ _)) by lia. cbn [payload_bytes remaining_nodes].
      unfold checked_u64. rewrite Hu2. cbn [ok_or]. rewrite (proj2 (Z.ltb_ge _ _)) by lia.
      rewrite split_at_checked_app. cbn [ok_or].
      destruct Hm as [-> | ->]; [done|]. unfold from_utf8. by rewrite Hutf. }
    cbn [map_err]. unfold usize_argument, checked_u64. rewrite Hu. cbn [ok_or].
    by destruct Hm as [-> | ->].
  - inversion Hwf as [ | | |? Hlen Hall| | ]; subst.
    pose proof (nodes_len l). pose proof (len_nonneg l).
    destruct (Hlev levels b' ltac:(lia) ltac:(lia)) as (k & -> & E0).
    assert (is_u64 (len l) = true) as Hu
      by (unfold is_u64; rewrite andb_true_iff, !Z.leb_le; limits; lia).
    destruct (write_head_byte 4 (len l)) as (b0 & t & Hw); [lia|done|]. cbn [scan_item].
    rewrite E0, Hw. cbn [app]. rewrite !app_comm_cons, <- Hw, <- app_assoc, read_write_head by (done || lia).
    cbn [map_err]. unfold usize_argument, checked_u64. rewrite Hu. cbn [ok_or].
    rewrite (proj2 (Z.ltb_ge _ _)) by lia. cbn [remaining_nodes].
    rewrite (proj2 (Z.ltb_ge _ _)) by lia. unfold len at 1. rewrite Nat2Z.id.
    assert (Forall (scans (scan_item k)) l) as Hsc.
    { rewrite List.Forall_forall in *. intros x Hx. apply IH; [done|by apply Hall|].
      pose proof (list_max_le (map height l) k) as [Hmax _]. 
      rewrite List.Forall_forall in Hmax. apply Hmax; [lia|]. by apply in_map. }
    rewrite (scan_items_ok _ l Hsc) by (cbn; lia). unfold spend. cbn. do 3 f_equal; lia.
  - inversion Hwf as [ | | | |? Hlen Hall| ]; subst.
    pose proof (nodes_len l). pose proof (len_nonneg l).
    destruct (Hlev levels b' ltac:(lia) ltac:(lia)) as (k & -> & E0).
    assert (is_u64 (len l) = true) as Hu
      by (unfold is_u64; rewrite andb_true_iff, !Z.leb_le; limits; lia).
    destruct (write_head_byte 5 (len l)) as (b0 & t & Hw); [lia|done|]. cbn [scan_item].
    rewrite E0, Hw. cbn [app]. rewrite !app_comm_cons, <- Hw, <- app_assoc, read_write_head by (done || lia).
    cbn [map_err]. unfold usize_argument, checked_u64. rewrite Hu. cbn [ok_or].
    rewrite (proj2 (Z.ltb_ge _ _)) by lia.
    replace (is_u64 (len l * 2)) with true
      by (symmetry; unfold is_u64; rewrite andb_true_iff, !Z.leb_le; limits; lia). cbn [ok_or remaining_nodes].
    rewrite (proj2 (Z.ltb_ge _ _)) by lia. unfold len at 1. rewrite Nat2Z.id.
    assert (Forall (scans (scan_item k)) l) as Hsc.
    { rewrite List.Forall_forall in *. intros x Hx. apply IH; [done|by apply Hall|].
      pose proof (list_max_le (map height l) k) as [Hmax _].
      rewrite List.Forall_forall in Hmax. apply Hmax; [lia|]. by apply in_map. }
    rewrite (scan_pairs_ok _ l Hsc); [|..|lia|limits; lia|by left|cbn; lia|cbn; lia|cbn; lia].
    + unfold spend. cbn. do 3 f_equal; lia.
    + intros j Hj b1 rest1 Hn1 Hp1 Hp2. cbn [nodes i_uint] in Hn1.
      destruct k as [|k]; [lia|]. cbn [scan_item emit i_uint nodes payload].
      rewrite (proj2 (Z.eqb_neq _ _)) by lia.
      destruct (write_head_byte 0 j) as (b2 & t2 & Hw2); [lia|unfold is_u64; rewrite andb_true_iff, !Z.leb_le; width; lia|].
      rewrite Hw2. cbn [app]. rewrite app_comm_cons, <- Hw2, read_write_head
        by (lia || (unfold is_u64; rewrite andb_true_iff, !Z.leb_le; width; lia)).
      unfold spend. cbn. by rewrite Z.add_0_r.
  - inversion Hwf as [ | | | | |? Hb]; subst. destruct (Hlev levels b' ltac:(lia) ltac:(lia)) as (k & -> & E0).
    cbn [scan_item app]. rewrite E0. unfold spend. rewrite Z.add_0_r. by destruct Hb as [->|[-> | ->]].
Qed.

(** ** The items of a checkpoint *)

Definition credential_item (c : CredentialRecord) : Item := IMap [
  i_uint (format c); i_bytes (raw c); i_text (issuer_identity c);
  IArr (map i_bytes (certificate_path c))].

Definition payment_item (o : option PaymentSummary) : Item :=
  match o with
  | Some p => IMap [i_text (payee p); i_uint (amount_minor p); i_text (currency p)]
  | None => ISimple Byte.xf6
  end.

Definition entry_item (e : TxnLog.Entry) : Item := IMap [
  i_uint (seq e); i_int (epoch (content e)); i_uint (kind_code (kind (content e)));
  i_text (counterparty (content e)); i_bytes (consent_hash (content e));
  IArr (map i_text (claim_paths (content e))); i_uint (outcome_code (outcome (content e)));
  payment_item (payment (content e)); i_bytes (prev_hash e); i_bytes (entry_hash e);
  i_bool (redacted e)].

Definition context_item (c : ContextHashes) : Item :=
  IMap [i_bytes (wallet_client_id c); i_bytes (device_key_ref c); i_bytes (device_public_key c)].

Definition replay_item (r : ReplaySets) : Item := IMap [
  IArr (map i_text (r_presentation r)); IArr (map i_uint (r_payment r));
  IArr (map i_uint (r_issuance r)); IArr (map i_uint (r_qes r))].

Definition checkpoint_item (c : Checkpoint) : Item := IMap [
  i_bytes MAGIC; i_uint VERSION; i_uint (generation c); context_item (context c);
  IMap [i_int (clock_high_water c); i_uint (trust_sequence_high_water c)];
  IArr (map credential_item (credentials c)); replay_item (replay c);
  IMap [IArr (map entry_item (transaction_entries c)); i_bytes (transaction_head c)];
  i_bool (issuance_interrupted c)].

(** ** The encoder writes these items, within the size limit *)

Definition writes (w : writer) (x : bytes) : Prop := forall out r,
  len out <= MAX_CHECKPOINT_BYTES ->
  w out = Ok r <-> r = out ++ x /\ len r <= MAX_CHECKPOINT_BYTES.

Lemma writes_extend v : writes (extend v) v.
Proof.
  intros out r Hout. unfold extend, checked_u64. pose proof (len_nonneg out). pose proof (len_nonneg v).
  destruct (is_u64 (len out + len v)) eqn:E.
  - cbn [ok_or]. destruct (Z.ltb_spec MAX_CHECKPOINT_BYTES (len out + len v)).
    + split; [done|]. intros [-> Hl]. rewrite len_app in Hl. lia.
    + split; [intros [= <-]; split; [done|]; rewrite len_app; lia|by intros [-> _]].
  - split; [done|]. intros [-> Hl]. rewrite len_app in Hl. unfold is_u64 in E.
    apply andb_false_iff in E. rewrite !Z.leb_gt in E. limits. lia.
Qed.

Lemma writes_all ws xs : Forall2 writes ws xs -> writes (write_all ws) (concat xs).
Proof.
  induction 1 as [|w x ws xs Hw _ IH]; intros out r Hout; cbn [write_all concat].
  - rewrite app_nil_r. split; [by intros [= <-]|by intros [-> _]].
  - destruct (w out) as [o|e] eqn:E.
    + apply (Hw out o Hout) in E as [-> Ho]. rewrite (IH _ r Ho), app_assoc. done.
    + split; [done|]. intros [-> Hl]. rewrite !len_app in Hl. pose proof (len_nonneg (concat xs)).
      pose proof (proj2 (Hw out (out ++ x) Hout)) as Hok. rewrite E, len_app in Hok.
      discriminate Hok. split; [done|lia].
Qed.

Lemma writes_each {A} (w : A -> writer) (e : A -> bytes) l :
  (forall a, writes (w a) (e a)) -> writes (put_each w l) (concat (map e l)).
Proof. intros H. apply writes_all. induction l; cbn; by constructor. Qed.

Lemma writes_eq w x y : writes w x -> x = y -> writes w y.
Proof. by intros H <-. Qed.

Lemma writes_string m b : writes (write_all [put_head m (len b); extend b]) (emit (IStr m b)).
Proof.
  eapply writes_eq; [apply writes_all; repeat (constructor; [apply writes_extend|]); constructor|].
  cbn. by rewrite app_nil_r.
Qed.

Lemma writes_int n : writes (put_int n) (emit (i_int n)).
Proof. unfold put_int, i_int. destruct (0 <=? n); apply writes_extend. Qed.

Lemma writes_bool b : writes (put_bool b) (emit (i_bool b)).
Proof. apply writes_extend. Qed.

Ltac writer := apply writes_all; repeat (constructor;
  [first [apply writes_extend | apply writes_string | apply writes_int | apply writes_bool
         | eassumption]|]); constructor.

Ltac flatten := unfold i_uint, i_bytes, i_text; cbn [concat emit keyed map app]; rewrite ?len_map, ?app_nil_r, <- ?app_assoc;
  cbn [app]; rewrite ?app_nil_r; reflexivity.

Lemma writes_bytes_each l : writes (put_each put_bytes l) (concat (map emit (map i_bytes l))).
Proof. rewrite map_map. apply writes_each. intros b. apply writes_string. Qed.

Lemma writes_text_each l : writes (put_each put_text l) (concat (map emit (map i_text l))).
Proof. rewrite map_map. apply writes_each. intros s. apply writes_string. Qed.

Lemma writes_uint_each l : writes (put_each put_uint l) (concat (map emit (map i_uint l))).
Proof. rewrite map_map. apply writes_each. intros n. apply writes_extend. Qed.

Lemma writes_credential c : writes (encode_credential c) (emit (credential_item c)).
Proof.
  pose proof (writes_bytes_each (certificate_path c)).
  eapply writes_eq; [writer|]. unfold credential_item. flatten.
Qed.

Lemma writes_payment o : writes (encode_payment o) (emit (payment_item o)).
Proof.
  destruct o as [p|]; cbn [encode_payment payment_item]; [|apply writes_extend].
  eapply writes_eq; [writer|]. flatten.
Qed.

Lemma writes_entry e : writes (encode_transaction_entry e) (emit (entry_item e)).
Proof.
  pose proof (writes_text_each (claim_paths (content e))). pose proof (writes_payment (payment (content e))).
  eapply writes_eq; [writer|]. unfold entry_item. flatten.
Qed.

Lemma writes_replay k l : writes (encode_replay k l) (write_head [] 0 k ++ emit (IArr (map i_uint l))).
Proof. pose proof (writes_uint_each l). eapply writes_eq; [writer|]. flatten. Qed.

Lemma writes_checkpoint c : writes (write_checkpoint c) (emit (checkpoint_item c)).
Proof.
  pose proof (writes_text_each (r_presentation (replay c))).
  pose proof (writes_replay 2 (r_payment (replay c))).
  pose proof (writes_replay 3 (r_issuance (replay c))).
  pose proof (writes_replay 4 (r_qes (replay c))).
  pose proof (writes_each encode_credential (fun x => emit (credential_item x)) (credentials c) writes_credential).
  pose proof (writes_each encode_transaction_entry (fun x => emit (entry_item x)) (transaction_entries c) writes_entry).
  eapply writes_eq; [writer|]. unfold checkpoint_item, replay_item, context_item.
  cbn [concat emit keyed map app]. rewrite !map_map. flatten.
Qed.

Lemma encode_checkpoint_iff c bs :
  encode_checkpoint c = Ok bs <->
  bs = emit (checkpoint_item c) /\ len bs <= MAX_CHECKPOINT_BYTES.
Proof. unfold encode_checkpoint. apply (writes_checkpoint c []). by vm_compute. Qed.

(** ** What each reader takes *)

Lemma head_iff m input n rest : 0 <= m <= 7 ->
  take_head m input = Ok (n, rest) <-> is_u64 n = true /\ input = write_head [] m n ++ rest.
Proof.
  intros Hm. unfold take_head. split.
  - destruct (read_head input) as [[[m' v] r]|] eqn:E; [|done]. cbn [map_err].
    destruct (Z.eqb_spec m' m) as [->|]; [|done]. intros [= -> ->].
    apply read_head_inv in E as (-> & _ & Hu & _). done.
  - intros [Hu ->]. rewrite read_write_head by done. cbn [map_err]. by rewrite Z.eqb_refl.
Qed.

Lemma uint_iff input n rest :
  take_uint input = Ok (n, rest) <-> is_u64 n = true /\ input = emit (i_uint n) ++ rest.
Proof. by apply head_iff. Qed.

Lemma int_iff input n rest :
  take_int input = Ok (n, rest) <-> is_i64 n = true /\ input = emit (i_int n) ++ rest.
Proof.
  unfold take_int, i_int. split.
  - destruct (read_head input) as [[[m v] r]|] eqn:E; [|done]. cbn [map_err].
    apply read_head_inv in E as (-> & Hm & Hu & _). unfold is_u64 in Hu. apply andb_true_iff in Hu as [H0%Z.leb_le _].
    assert (m = 0 \/ m = 1 \/ 2 <= m) as [->|[->|H2]] by lia.
    + destruct (Z.leb_spec v I64_MAX); [|done]. intros [= <- <-]. rewrite (proj2 (Z.leb_le 0 v)) by lia.
      split; [|done]. unfold is_i64. rewrite andb_true_iff, !Z.leb_le. width. lia.
    + destruct (Z.leb_spec v I64_MAX); [|done]. intros [= <- <-].
      rewrite (proj2 (Z.leb_gt 0 (-1 - v))) by lia. replace (-1 - (-1 - v)) with v by lia.
      split; [|done]. unfold is_i64. rewrite andb_true_iff, !Z.leb_le. width. lia.
    + destruct m as [|p|p]; [lia| |lia]. by destruct p.
  - unfold is_i64. rewrite andb_true_iff, !Z.leb_le. intros [[Hlo Hhi] ->].
    destruct (Z.leb_spec 0 n); cbn [emit]; rewrite read_write_head;
      try (lia || (unfold is_u64; rewrite andb_true_iff, !Z.leb_le; width; lia)); cbn [map_err].
    + by rewrite (proj2 (Z.leb_le _ _)) by lia.
    + rewrite (proj2 (Z.leb_le _ _)) by (width; lia). do 2 f_equal. lia.
Qed.

Lemma usize_argument_ok n : is_u64 n = true -> usize_argument n = Ok n.
Proof. unfold usize_argument, checked_u64. by intros ->. Qed.

Lemma container_iff m max input n rest : 0 <= m <= 7 -> max <= U64_MAX ->
  container m max input = Ok (n, rest) <-> 0 <= n <= max /\ input = write_head [] m n ++ rest.
Proof.
  intros Hm Hmax. unfold container. split.
  - destruct (take_head m input) as [[v r]|] eqn:E; [|done]. apply head_iff in E as [Hu ->]; [|done].
    rewrite usize_argument_ok by done. destruct (Z.ltb_spec max v); [done|]. intros [= <- <-].
    unfold is_u64 in Hu. bool_prop. split; [lia|done].
  - intros [Hn ->]. assert (is_u64 n = true) as Hu by (unfold is_u64; rewrite andb_true_iff, !Z.leb_le; lia).
    rewrite (proj2 (head_iff m _ n rest Hm)), usize_argument_ok by done.
    by rewrite (proj2 (Z.ltb_ge _ _)) by lia.
Qed.

Lemma exact_map_iff n input u rest : 0 <= n <= U64_MAX ->
  exact_map n input = Ok (u, rest) <-> input = write_head [] 5 n ++ rest.
Proof.
  intros Hn. unfold exact_map. split.
  - destruct (container 5 n input) as [[v r]|] eqn:E; [|done]. apply container_iff in E as [_ ->]; [|lia..].
    destruct (Z.eqb_spec v n) as [->|]; [|done]. by intros [= _ <-].
  - intros ->. rewrite (proj2 (container_iff 5 n _ n rest ltac:(lia) ltac:(lia))) by (split; [lia|done]).
    rewrite Z.eqb_refl. by destruct u.
Qed.

Lemma key_iff k input u rest : 0 <= k <= U64_MAX ->
  key k input = Ok (u, rest) <-> input = write_head [] 0 k ++ rest.
Proof.
  intros Hk. unfold key. split.
  - destruct (take_uint input) as [[v r]|] eqn:E; [|done]. apply uint_iff in E as [_ ->].
    destruct (Z.eqb_spec v k) as [->|]; [|done]. by intros [= _ <-].
  - intros ->. rewrite (proj2 (uint_iff _ k rest)).
    + rewrite Z.eqb_refl. by destruct u.
    + split; [unfold is_u64; by rewrite andb_true_iff, !Z.leb_le|done].
Qed.

Lemma borrowed_iff m max input b rest : 0 <= m <= 7 -> max <= U64_MAX ->
  borrowed m max input = Ok (b, rest) <-> len b <= max /\ input = emit (IStr m b) ++ rest.
Proof.
  intros Hm Hmax. unfold borrowed. cbn [emit]. split.
  - destruct (take_head m input) as [[v r]|] eqn:E; [|done]. apply head_iff in E as [Hu ->]; [|done].
    rewrite usize_argument_ok by done. destruct (Z.ltb_spec max v); [done|].
    destruct (split_at_checked v r) as [[p q]|] eqn:Es; [|done]. cbn [ok_or]. intros [= <- <-].
    apply split_at_checked_Some in Es as [-> <-];
      [|unfold is_u64 in Hu; apply andb_true_iff in Hu as [Hv%Z.leb_le _]; exact Hv].
    split; [done|]. by rewrite <- app_assoc.
  - intros [Hb ->]. pose proof (len_nonneg b). rewrite <- app_assoc.
    assert (is_u64 (len b) = true) as Hu by (unfold is_u64; rewrite andb_true_iff, !Z.leb_le; lia).
    rewrite (proj2 (head_iff m _ (len b) (b ++ rest) Hm)), usize_argument_ok by done.
    rewrite (proj2 (Z.ltb_ge _ _)) by lia. by rewrite split_at_checked_app.
Qed.

Lemma hash_iff input b rest :
  hash input = Ok (b, rest) <-> len b = 32 /\ input = emit (i_bytes b) ++ rest.
Proof.
  unfold hash, borrowed_bytes. split.
  - destruct (borrowed 2 32 input) as [[v r]|] eqn:E; [|done]. apply borrowed_iff in E as [_ ->]; [|lia|width; lia].
    destruct (Z.eqb_spec (len v) 32); [|done]. by intros [= <- <-].
  - intros [Hb ->]. rewrite (proj2 (borrowed_iff 2 32 _ b rest ltac:(lia) ltac:(width; lia))).
    + by rewrite Hb.
    + split; [lia|done].
Qed.

Lemma text_iff max input s rest : max <= U64_MAX ->
  borrowed_text max input = Ok (s, rest) <->
  (is_str s = true /\ slen s <= max) /\ input = emit (i_text s) ++ rest.
Proof.
  intros Hmax. unfold borrowed_text. split.
  - destruct (borrowed 3 max input) as [[v r]|] eqn:E; [|done]. apply borrowed_iff in E as [Hl ->]; [|lia..].
    destruct (from_utf8 v) as [s'|] eqn:Eu; [|done]. cbn [ok_or]. intros [= <- <-].
    apply from_utf8_Some in Eu as [-> Hs]. by repeat split.
  - intros [[Hs Hl] ->]. rewrite (proj2 (borrowed_iff 3 max _ (as_bytes s) rest ltac:(lia) Hmax)).
    + by rewrite from_utf8_as_bytes.
    + done.
Qed.

Lemma bool_iff input b rest : take_bool input = Ok (b, rest) <-> input = emit (i_bool b) ++ rest.
Proof.
  unfold take_bool, i_bool. cbn [emit]. split.
  - destruct input as [|x input]; [done|]. destruct x; try done; by intros [= <- <-].
  - intros ->. by destruct b.
Qed.

Lemma charge_iff total add total' :
  0 <= total <= MAX_AGGREGATE_BYTES -> 0 <= add <= MAX_CHECKPOINT_BYTES ->
  charge_transaction_payload total add = Ok total' <->
  total' = total + add /\ total' <= MAX_AGGREGATE_BYTES.
Proof.
  intros Ht Ha. unfold charge_transaction_payload, checked_u64.
  replace (is_u64 (total + add)) with true
    by (symmetry; unfold is_u64; rewrite andb_true_iff, !Z.leb_le; limits; lia).
  cbn [ok_or]. destruct (Z.ltb_spec MAX_AGGREGATE_BYTES (total + add)).
  - split; [done|]. intros [-> ?]. lia.
  - split; [by intros [= <-]|by intros [-> _]].
Qed.

Lemma evidence_iff total add total' :
  0 <= total <= MAX_CREDENTIAL_EVIDENCE_BYTES -> 0 <= add <= MAX_CHECKPOINT_BYTES ->
  checked_total total add = Ok total' <->
  total' = total + add /\ total' <= MAX_CREDENTIAL_EVIDENCE_BYTES.
Proof.
  intros Ht Ha. unfold checked_total, checked_u64.
  replace (is_u64 (total + add)) with true
    by (symmetry; unfold is_u64; rewrite andb_true_iff, !Z.leb_le; limits; lia).
  cbn [ok_or]. destruct (Z.ltb_spec MAX_CREDENTIAL_EVIDENCE_BYTES (total + add)).
  - split; [done|]. intros [-> ?]. lia.
  - split; [by intros [= <-]|by intros [-> _]].
Qed.

(** ** Checkpoints within the domain budgets *)

Definition sum (l : list Z) : Z := foldr Z.add 0 l.

Definition certificate_ok (b : bytes) : Prop := 0 < len b <= MAX_CERTIFICATE_BYTES.

Definition credential_ok (c : CredentialRecord) : Prop :=
  (format c = 1 \/ format c = 2) /\ len (raw c) <= MAX_RAW_CREDENTIAL_BYTES
  /\ is_str (issuer_identity c) = true /\ 0 < slen (issuer_identity c) <= MAX_ISSUER_ID_BYTES
  /\ 0 < len (certificate_path c) <= MAX_CERTIFICATES_PER_PATH
  /\ Forall certificate_ok (certificate_path c).

Definition evidence (c : CredentialRecord) : Z :=
  len (raw c) + slen (issuer_identity c) + sum (map len (certificate_path c)).

Definition payment_ok (o : option PaymentSummary) : Prop :=
  match o with
  | Some p => is_str (payee p) = true /\ slen (payee p) <= MAX_PAYMENT_PAYEE_BYTES
      /\ is_u64 (amount_minor p) = true /\ is_str (currency p) = true /\ slen (currency p) <= 3
  | None => True
  end.

Definition claim_ok (s : string) : Prop := is_str s = true /\ slen s <= MAX_CLAIM_PATH_BYTES.

Definition entry_ok (e : TxnLog.Entry) : Prop :=
  is_u64 (seq e) = true /\ is_i64 (epoch (content e)) = true
  /\ is_str (counterparty (content e)) = true
  /\ slen (counterparty (content e)) <= MAX_COUNTERPARTY_BYTES
  /\ len (consent_hash (content e)) = 32
  /\ len (claim_paths (content e)) <= MAX_CLAIM_PATHS_PER_ENTRY
  /\ Forall claim_ok (claim_paths (content e)) /\ payment_ok (payment (content e))
  /\ len (prev_hash e) = 32 /\ len (entry_hash e) = 32.

Definition payment_bytes (o : option PaymentSummary) : Z :=
  match o with Some p => slen (payee p) + slen (currency p) | None => 0 end.

Definition entry_bytes (e : TxnLog.Entry) : Z :=
  slen (counterparty (content e)) + sum (map slen (claim_paths (content e)))
  + payment_bytes (payment (content e)).

(** Each element is above the one before it, starting from [previous]. *)
Fixpoint ascending {A} (lt : A -> A -> Prop) (previous : option A) (l : list A) : Prop :=
  match l with
  | [] => True
  | x :: l => match previous with Some p => lt p x | None => True end /\ ascending lt (Some x) l
  end.

Definition credential_lt (a b : CredentialRecord) : Prop := cmp_canonical a b = Lt.
Definition text_lt (a b : string) : Prop := bytes_cmp (as_bytes a) (as_bytes b) = Lt.

Definition nonce_ok (s : string) : Prop := is_str s = true /\ slen s <= MAX_NONCE_BYTES.

Definition numbers_ok (l : list Z) : Prop :=
  len l <= MAX_REPLAY_VALUES /\ Forall (fun n => is_u64 n = true) l /\ ascending Z.lt None l.

Definition replay_ok (r : ReplaySets) : Prop :=
  (len (r_presentation r) <= MAX_REPLAY_VALUES /\ Forall nonce_ok (r_presentation r)
   /\ ascending text_lt None (r_presentation r))
  /\ numbers_ok (r_payment r) /\ numbers_ok (r_issuance r) /\ numbers_ok (r_qes r).

Definition context_ok (c : ContextHashes) : Prop :=
  len (wallet_client_id c) = 32 /\ len (device_key_ref c) = 32 /\ len (device_public_key c) = 32.

Definition credentials_ok (l : list CredentialRecord) : Prop :=
  len l <= MAX_CREDENTIALS /\ Forall credential_ok l /\ ascending credential_lt None l
  /\ sum (map evidence l) <= MAX_CREDENTIAL_EVIDENCE_BYTES.

Definition entries_ok (l : list TxnLog.Entry) : Prop :=
  len l <= MAX_ENTRIES /\ Forall entry_ok l /\ sum (map entry_bytes l) <= MAX_AGGREGATE_BYTES.

Definition checkpoint_ok (c : Checkpoint) : Prop :=
  (is_u64 (generation c) = true /\ generation c <> 0) /\ context_ok (context c)
  /\ (is_i64 (clock_high_water c) = true /\ 0 < clock_high_water c)
  /\ is_u64 (trust_sequence_high_water c) = true
  /\ credentials_ok (credentials c) /\ replay_ok (replay c)
  /\ entries_ok (transaction_entries c) /\ len (transaction_head c) = 32.

(** ** Reading them *)

Lemma sum_cons x l : sum (x :: l) = x + sum l.
Proof. done. Qed.

Lemma sum_nonneg l : Forall (fun x => 0 <= x) l -> 0 <= sum l.
Proof. induction 1 as [|x l Hx _ IH]; [done|]. rewrite sum_cons. lia. Qed.

Lemma sum_lens l : 0 <= sum (map (@len byte) l).
Proof. apply sum_nonneg, Forall_map, List.Forall_forall. intros b _. apply len_nonneg. Qed.

Lemma sum_slens l : 0 <= sum (map slen l).
Proof. apply sum_nonneg, Forall_map, List.Forall_forall. intros b _. apply len_nonneg. Qed.

Hint Resolve sum_lens sum_slens slen_nonneg : wallet.

Lemma evidence_nonneg c : 0 <= evidence c.
Proof. unfold evidence. pose proof (len_nonneg (raw c)). pose proof (sum_lens (certificate_path c)).
  pose proof (slen_nonneg (issuer_identity c)). lia. Qed.

Lemma evidences_nonneg l : 0 <= sum (map evidence l).
Proof. apply sum_nonneg, Forall_map, List.Forall_forall. intros b _. apply evidence_nonneg. Qed.

Lemma payment_bytes_nonneg o : 0 <= payment_bytes o.
Proof. destruct o as [p|]; cbn; [|lia]. pose proof (slen_nonneg (payee p)). pose proof (slen_nonneg (currency p)). lia. Qed.

Lemma entry_bytes_nonneg e : 0 <= entry_bytes e.
Proof. unfold entry_bytes. pose proof (slen_nonneg (counterparty (content e))).
  pose proof (sum_slens (claim_paths (content e))). pose proof (payment_bytes_nonneg (payment (content e))). lia. Qed.

Lemma entries_bytes_nonneg l : 0 <= sum (map entry_bytes l).
Proof. apply sum_nonneg, Forall_map, List.Forall_forall. intros b _. apply entry_bytes_nonneg. Qed.

Lemma certificates_iff n : forall total input l total' rest,
  0 <= total <= MAX_CREDENTIAL_EVIDENCE_BYTES ->
  take_certificates n total input = Ok (l, total', rest) <->
  length l = n /\ Forall certificate_ok l /\ total' = total + sum (map len l)
  /\ total' <= MAX_CREDENTIAL_EVIDENCE_BYTES /\ input = concat (map emit (map i_bytes l)) ++ rest.
Proof.
  induction n as [|n IH]; intros total input l total' rest Ht; cbn [take_certificates].
  - split.
    + intros [= <- <- <-]. cbn. repeat split; (done || lia || constructor).
    + intros (Hl & _ & -> & _ & ->). destruct l; [|done]. cbn. do 3 f_equal. lia.
  - split.
    + destruct (borrowed_bytes _ input) as [[b r]|] eqn:E; [|done].
      apply borrowed_iff in E as [Hb ->]; [|lia|limits; lia]. destruct b as [|x b]; [done|]. cbn [is_empty].
      remember (x :: b) as c eqn:Ec. assert (0 < len c) by (subst; rewrite len_cons; pose proof (len_nonneg b); lia).
      destruct (checked_total total (len c)) as [t|] eqn:E; [|done].
      apply evidence_iff in E as [-> Ht']; [|done|limits; lia].
      destruct (take_certificates n (total + len c) r) as [[[l' t'] r']|] eqn:E; [|done].
      apply IH in E as (Hn & Hf & -> & Hmax & ->); [|lia]. intros [= <- <- <-].
      cbn [map concat length]. rewrite sum_cons, <- app_assoc.
      split; [by rewrite Hn|]. split; [by constructor|]. split; [lia|]. split; [lia|done].
    + intros (Hn & Hf & -> & Hmax & ->). destruct l as [|c l]; [done|]. cbn [map concat length] in *.
      rewrite sum_cons in *. apply Forall_cons_iff in Hf as [Hc Hf]. pose proof (sum_lens l). destruct Hc as [Hc0 Hc1].
      unfold borrowed_bytes. rewrite <- app_assoc. cbn [i_bytes].
      rewrite (proj2 (borrowed_iff 2 MAX_CERTIFICATE_BYTES _ c _ ltac:(lia) ltac:(limits; lia))) by done.
      replace (is_empty c) with false by (by destruct c).
      rewrite (proj2 (evidence_iff total (len c) (total + len c) Ht ltac:(limits; lia))) by lia.
      rewrite (proj2 (IH (total + len c) _ l (total + len c + sum (map len l)) rest ltac:(lia))).
      * do 3 f_equal. lia.
      * repeat split; (done || lia).
Qed.

Lemma replay_numbers_iff n : forall previous input l rest,
  take_replay n previous input = Ok (l, rest) <->
  length l = n /\ Forall (fun x => is_u64 x = true) l /\ ascending Z.lt previous l
  /\ input = concat (map emit (map i_uint l)) ++ rest.
Proof.
  induction n as [|n IH]; intros previous input l rest; cbn [take_replay].
  - split.
    + intros [= <- <-]. by repeat split.
    + intros (Hl & _ & _ & ->). by destruct l.
  - assert (forall v, match previous with Some p => v <=? p | None => false end = false
              <-> match previous with Some p => p < v | None => True end) as Hlt.
    { intros v. destruct previous; [apply Z.leb_gt|done]. }
    split.
    + destruct (take_uint input) as [[v r]|] eqn:E; [|done]. apply uint_iff in E as [Hv ->].
      destruct (match previous with Some p => v <=? p | None => false end) eqn:Ep; [done|]. apply Hlt in Ep.
      destruct (take_replay n (Some v) r) as [[l' r']|] eqn:E; [|done].
      apply IH in E as (Hn & Hf & Ha & ->). intros [= <- <-]. cbn [map concat length ascending].
      rewrite <- app_assoc. repeat split; try done; [by rewrite Hn|by constructor].
    + intros (Hn & Hf & Ha & ->). destruct l as [|v l]; [done|]. cbn [map concat length ascending] in *.
      apply Forall_cons_iff in Hf as [Hv Hf]. destruct Ha as [Hp Ha]. rewrite <- app_assoc.
      rewrite (proj2 (uint_iff _ v _)) by done. apply Hlt in Hp. rewrite Hp.
      rewrite (proj2 (IH (Some v) _ l rest)); [done|]. by injection Hn.
Qed.

Lemma replay_texts_iff n : forall previous input l rest,
  take_replay_str n previous input = Ok (l, rest) <->
  length l = n /\ Forall nonce_ok l /\ ascending text_lt previous l
  /\ input = concat (map emit (map i_text l)) ++ rest.
Proof.
  induction n as [|n IH]; intros previous input l rest; cbn [take_replay_str].
  - split.
    + intros [= <- <-]. by repeat split.
    + intros (Hl & _ & _ & ->). by destruct l.
  - assert (forall v, match previous with
                      | Some p => match bytes_cmp (as_bytes p) (as_bytes v) with Lt => false | _ => true end
                      | None => false end = false
              <-> match previous with Some p => text_lt p v | None => True end) as Hlt.
    { intros v. destruct previous; [|done]. unfold text_lt. by destruct (bytes_cmp _ _). }
    split.
    + destruct (borrowed_text _ input) as [[v r]|] eqn:E; [|done]. apply text_iff in E as [Hv ->]; [|limits; lia].
      destruct (match previous with Some p => _ | None => false end) eqn:Ep; [done|]. apply Hlt in Ep.
      destruct (take_replay_str n (Some v) r) as [[l' r']|] eqn:E; [|done].
      apply IH in E as (Hn & Hf & Ha & ->). intros [= <- <-]. cbn [map concat length ascending].
      rewrite <- app_assoc. repeat split; try done; [by rewrite Hn|by constructor].
    + intros (Hn & Hf & Ha & ->). destruct l as [|v l]; [done|]. cbn [map concat length ascending] in *.
      apply Forall_cons_iff in Hf as [Hv Hf]. destruct Ha as [Hp Ha]. rewrite <- app_assoc.
      rewrite (proj2 (text_iff MAX_NONCE_BYTES _ v _ ltac:(limits; lia))) by done. apply Hlt in Hp. rewrite Hp.
      rewrite (proj2 (IH (Some v) _ l rest)); [done|]. by injection Hn.
Qed.

Lemma claims_iff n : forall total input l total' rest,
  0 <= total <= MAX_AGGREGATE_BYTES ->
  take_claims n total input = Ok (l, total', rest) <->
  length l = n /\ Forall claim_ok l /\ total' = total + sum (map slen l)
  /\ total' <= MAX_AGGREGATE_BYTES /\ input = concat (map emit (map i_text l)) ++ rest.
Proof.
  induction n as [|n IH]; intros total input l total' rest Ht; cbn [take_claims].
  - split.
    + intros [= <- <- <-]. cbn. repeat split; (done || lia || constructor).
    + intros (Hl & _ & -> & _ & ->). destruct l; [|done]. cbn. do 3 f_equal. lia.
  - split.
    + destruct (borrowed_text _ input) as [[b r]|] eqn:E; [|done].
      apply text_iff in E as [[Hs Hb] ->]; [|limits; lia]. pose proof (slen_nonneg b).
      destruct (charge_transaction_payload total (slen b)) as [t|] eqn:E; [|done].
      apply charge_iff in E as [-> Ht']; [|done|limits; lia].
      destruct (take_claims n (total + slen b) r) as [[[l' t'] r']|] eqn:E; [|done].
      apply IH in E as (Hn & Hf & -> & Hmax & ->); [|lia]. intros [= <- <- <-].
      cbn [map concat length]. rewrite sum_cons, <- app_assoc.
      split; [by rewrite Hn|]. split; [by constructor|]. split; [lia|]. split; [lia|done].
    + intros (Hn & Hf & -> & Hmax & ->). destruct l as [|c l]; [done|]. cbn [map concat length] in *.
      rewrite sum_cons in *. apply Forall_cons_iff in Hf as [Hc Hf]. pose proof (sum_slens l).
      destruct Hc as [Hc0 Hc1]. pose proof (slen_nonneg c). rewrite <- app_assoc.
      rewrite (proj2 (text_iff MAX_CLAIM_PATH_BYTES _ c _ ltac:(limits; lia))) by done.
      rewrite (proj2 (charge_iff total (slen c) (total + slen c) Ht ltac:(limits; lia))) by lia.
      rewrite (proj2 (IH (total + slen c) _ l (total + slen c + sum (map slen l)) rest ltac:(lia))).
      * do 3 f_equal. lia.
      * repeat split; (done || lia).
Qed.

Lemma to_nat_len {A} (l : list A) n : 0 <= n -> length l = Z.to_nat n <-> len l = n.
Proof. unfold len. lia. Qed.

Lemma decode_replay_iff input l rest :
  decode_replay input = Ok (l, rest) <->
  numbers_ok l /\ input = emit (IArr (map i_uint l)) ++ rest.
Proof.
  unfold decode_replay, numbers_ok. cbn [emit]. rewrite len_map. split.
  - destruct (container 4 _ input) as [[n r]|] eqn:E; [|done].
    apply container_iff in E as [Hn ->]; [|lia|limits; lia]. intros (Hl & Hf & Ha & ->)%replay_numbers_iff.
    apply to_nat_len in Hl; [|lia]. rewrite Hl, <- app_assoc. repeat split; (done || lia).
  - intros [(Hl & Hf & Ha) ->]. pose proof (len_nonneg l). rewrite <- app_assoc.
    rewrite (proj2 (container_iff 4 MAX_REPLAY_VALUES _ (len l) _ ltac:(lia) ltac:(limits; lia))) by done.
    apply replay_numbers_iff. repeat split; try done. unfold len. lia.
Qed.

Lemma decode_replay_str_iff input l rest :
  decode_replay_str input = Ok (l, rest) <->
  (len l <= MAX_REPLAY_VALUES /\ Forall nonce_ok l /\ ascending text_lt None l)
  /\ input = emit (IArr (map i_text l)) ++ rest.
Proof.
  unfold decode_replay_str. cbn [emit]. rewrite len_map. split.
  - destruct (container 4 _ input) as [[n r]|] eqn:E; [|done].
    apply container_iff in E as [Hn ->]; [|lia|limits; lia]. intros (Hl & Hf & Ha & ->)%replay_texts_iff.
    apply to_nat_len in Hl; [|lia]. rewrite Hl, <- app_assoc. repeat split; (done || lia).
  - intros [(Hl & Hf & Ha) ->]. pose proof (len_nonneg l). rewrite <- app_assoc.
    rewrite (proj2 (container_iff 4 MAX_REPLAY_VALUES _ (len l) _ ltac:(lia) ltac:(limits; lia))) by done.
    apply replay_texts_iff. repeat split; try done. unfold len. lia.
Qed.

(** One step of a reader that succeeded, and what that says of its input. *)
Ltac read_step H :=
  match type of H with
  | match ?c with Ok _ => _ | Err _ => _ end = Ok _ =>
      let x := fresh "v" in let E := fresh "E" in
      destruct c as [x|] eqn:E; [|discriminate H];
      repeat match type of x with (_ * _)%type => destruct x as [x ?] end
  | (if ?c then _ else _) = Ok _ => let E := fresh "E" in destruct c eqn:E; [discriminate H|]
  end; cbn beta iota in H.

Ltac range := first [done | lia | limits; lia].

Ltac read_facts := repeat match goal with
  | E : key _ _ = Ok _ |- _ => apply key_iff in E; [subst|range]
  | E : exact_map _ _ = Ok _ |- _ => apply exact_map_iff in E; [subst|range]
  | E : take_uint _ = Ok _ |- _ => apply uint_iff in E as [? ->]
  | E : take_int _ = Ok _ |- _ => apply int_iff in E as [? ->]
  | E : hash _ = Ok _ |- _ => apply hash_iff in E as [? ->]
  | E : borrowed_text _ _ = Ok _ |- _ => apply text_iff in E as [[? ?] ->]; [|range]
  | E : borrowed_bytes _ _ = Ok _ |- _ => apply borrowed_iff in E as [? ->]; [|range..]
  | E : container _ _ _ = Ok _ |- _ => apply container_iff in E as [? ->]; [|range..]
  | E : take_bool _ = Ok _ |- _ => apply bool_iff in E as ->
  end.

Lemma key_run k k' rest : k' = k -> 0 <= k <= U64_MAX -> key k (write_head [] 0 k' ++ rest) = Ok (tt, rest).
Proof. intros -> H. by apply key_iff. Qed.
Lemma exact_map_run n n' rest : n' = n -> 0 <= n <= U64_MAX ->
  exact_map n (write_head [] 5 n' ++ rest) = Ok (tt, rest).
Proof. intros -> H. by apply exact_map_iff. Qed.
Lemma uint_run n rest : is_u64 n = true -> take_uint (emit (i_uint n) ++ rest) = Ok (n, rest).
Proof. intros H. by apply uint_iff. Qed.
Lemma int_run n rest : is_i64 n = true -> take_int (emit (i_int n) ++ rest) = Ok (n, rest).
Proof. intros H. by apply int_iff. Qed.
Lemma hash_run b rest : len b = 32 -> hash (emit (i_bytes b) ++ rest) = Ok (b, rest).
Proof. intros H. by apply hash_iff. Qed.
Lemma text_run max s rest : is_str s = true -> slen s <= max -> max <= U64_MAX ->
  borrowed_text max (emit (i_text s) ++ rest) = Ok (s, rest).
Proof. intros H1 H2 H3. by apply text_iff. Qed.
Lemma bytes_run max b rest : len b <= max -> max <= U64_MAX ->
  borrowed_bytes max (emit (i_bytes b) ++ rest) = Ok (b, rest).
Proof. intros H1 H2. by apply borrowed_iff. Qed.
Lemma container_run max n rest : 0 <= n <= max -> max <= U64_MAX ->
  container 4 max (write_head [] 4 n ++ rest) = Ok (n, rest).
Proof. intros H1 H2. by apply container_iff. Qed.
Lemma bool_run b rest : take_bool (emit (i_bool b) ++ rest) = Ok (b, rest).
Proof. by apply bool_iff. Qed.

Ltac read_run := cbn beta iota; repeat (first
  [ rewrite key_run by first [reflexivity | range]
  | rewrite exact_map_run by first [reflexivity | range]
  | rewrite uint_run by first [assumption | reflexivity]
  | rewrite int_run by assumption
  | rewrite hash_run by assumption
  | rewrite text_run by first [assumption | range]
  | rewrite bytes_run by first [assumption | range]
  | rewrite bool_run ]; cbn beta iota).

(** The bytes of a map, entry by entry. *)
Lemma emit_map l rest : emit (IMap l) ++ rest = write_head [] 5 (len l) ++ keyed 1 (map emit l) ++ rest.
Proof. cbn [emit]. by rewrite <- app_assoc. Qed.

Lemma keyed_cons k i l rest :
  keyed k (map emit (i :: l)) ++ rest = write_head [] 0 k ++ emit i ++ keyed (k + 1) (map emit l) ++ rest.
Proof. cbn [map keyed]. by rewrite <- !app_assoc. Qed.

Lemma keyed_nil k (rest : bytes) : keyed k (map emit []) ++ rest = rest.
Proof. done. Qed.

Lemma emit_array l rest :
  emit (IArr l) ++ rest = write_head [] 4 (len l) ++ concat (map emit l) ++ rest.
Proof. cbn [emit]. by rewrite <- app_assoc. Qed.

Ltac entries_of := rewrite emit_map, !keyed_cons, keyed_nil.

Lemma sis_empty_false s : sis_empty s = false <-> 0 < slen s.
Proof.
  unfold sis_empty, slen. destruct (as_bytes s) as [|b t]; cbn [is_empty]; [by split|].
  rewrite len_cons. pose proof (len_nonneg t). split; [lia|done].
Qed.

Lemma credential_iff total input c total' rest :
  0 <= total <= MAX_CREDENTIAL_EVIDENCE_BYTES ->
  take_credential total input = Ok (c, total', rest) <->
  credential_ok c /\ total' = total + evidence c /\ total' <= MAX_CREDENTIAL_EVIDENCE_BYTES
  /\ input = emit (credential_item c) ++ rest.
Proof.
  intros Ht. unfold take_credential, credential_item, credential_ok, evidence.
  rewrite emit_map, !keyed_cons, keyed_nil, emit_array, len_map. split.
  - intros H. repeat read_step H. injection H as <- <- <-. read_facts.
    cbn [format raw issuer_identity certificate_path].
    pose proof (len_nonneg v3). pose proof (slen_nonneg v6).
    apply evidence_iff in E6 as [-> ?]; [|lia|limits; lia].
    apply evidence_iff in E10 as [-> ?]; [|lia|limits; lia].
    apply sis_empty_false in E9. apply certificates_iff in E14 as (Hl & Hf & -> & Hmax & ->); [|lia].
    apply to_nat_len in Hl; [|lia]. rewrite Hl. bool_prop.
    repeat split; try (done || lia).
  - intros ((Hf & Hr & Hs & Hi & Hl & Hc) & -> & Hmax & ->). pose proof (len_nonneg (raw c)).
    pose proof (sum_lens (certificate_path c)).
    assert (is_u64 (format c) = true) by (by destruct Hf as [-> | ->]).
    read_run. replace (U8_MAX <? format c) with false by (symmetry; apply Z.ltb_ge; width; lia).
    replace ((format c =? 1) || (format c =? 2)) with true
      by (symmetry; apply orb_true_iff; rewrite !Z.eqb_eq; done). cbn [negb].
    read_run. rewrite (proj2 (evidence_iff total (len (raw c)) _ Ht ltac:(limits; lia))) by (split; [done|lia]).
    read_run. rewrite (proj2 (sis_empty_false _)) by lia.
    rewrite (proj2 (evidence_iff (total + len (raw c)) (slen (issuer_identity c)) _ ltac:(lia) ltac:(limits; lia)))
      by (split; [done|lia]).
    read_run. rewrite container_run by range. replace (len (certificate_path c) =? 0) with false
      by (symmetry; apply Z.eqb_neq; lia).
    rewrite (proj2 (certificates_iff (Z.to_nat (len (certificate_path c)))
      (total + len (raw c) + slen (issuer_identity c)) _ (certificate_path c)
      (total + (len (raw c) + slen (issuer_identity c) + sum (map len (certificate_path c)))) rest ltac:(lia))).
    + by destruct c.
    + repeat split; try (done || lia). by apply to_nat_len; lia.
Qed.

(** The payment map, behind the test for null. *)
Definition take_payment (total : Z) : reader (option PaymentSummary * Z) := fun input =>
  let? (_, input) := exact_map 3 input in
  let? (_, input) := key 1 input in
  let? (payee, input) := borrowed_text MAX_PAYMENT_PAYEE_BYTES input in
  let? total := charge_transaction_payload total (slen payee) in
  let? (_, input) := key 2 input in
  let? (amount_minor, input) := take_uint input in
  let? (_, input) := key 3 input in
  let? (currency, input) := borrowed_text 3 input in
  let? total := charge_transaction_payload total (slen currency) in
  Ok (Some {| payee := payee; amount_minor := amount_minor; currency := currency |}, total, input).

Lemma null_or_payment_eq total input : null_or_payment total input =
  match input with
  | b :: rest => if Byte.eqb b Byte.xf6 then Ok (None, total, rest) else take_payment total input
  | [] => take_payment total []
  end.
Proof. destruct input as [|b rest]; [done|]. by destruct b. Qed.

Ltac charged := repeat match goal with
  | E : charge_transaction_payload _ (slen ?s) = Ok _ |- _ =>
      pose proof (slen_nonneg s); apply charge_iff in E as [-> ?]; [|lia|limits; lia]
  end.

Lemma take_payment_iff total input o total' rest :
  0 <= total <= MAX_AGGREGATE_BYTES ->
  take_payment total input = Ok (o, total', rest) <->
  o <> None /\ payment_ok o /\ total' = total + payment_bytes o /\ total' <= MAX_AGGREGATE_BYTES
  /\ input = emit (payment_item o) ++ rest.
Proof.
  intros Ht. unfold take_payment. split.
  - intros H. repeat read_step H. injection H as <- <- <-. read_facts.
    charged.
    cbn [payment_ok payment_bytes payment_item payee amount_minor currency].
    rewrite emit_map, !keyed_cons, keyed_nil. repeat split; try (done || lia).
  - intros (Ho & Hp & -> & Hmax & ->). destruct o as [p|]; [|done].
    destruct Hp as (H1 & H2 & H3 & H4 & H5). cbn [payment_item payment_bytes] in *.
    pose proof (slen_nonneg (payee p)). pose proof (slen_nonneg (currency p)).
    rewrite emit_map, !keyed_cons, keyed_nil. read_run.
    rewrite (proj2 (charge_iff total (slen (payee p)) _ Ht ltac:(limits; lia))) by (split; [done|lia]).
    read_run.
    rewrite (proj2 (charge_iff (total + slen (payee p)) (slen (currency p)) _ ltac:(lia) ltac:(limits; lia)))
      by (split; [done|lia]).
    destruct p. cbn. do 3 f_equal. lia.
Qed.

Lemma payment_iff total input o total' rest :
  0 <= total <= MAX_AGGREGATE_BYTES ->
  null_or_payment total input = Ok (o, total', rest) <->
  payment_ok o /\ total' = total + payment_bytes o /\ total' <= MAX_AGGREGATE_BYTES
  /\ input = emit (payment_item o) ++ rest.
Proof.
  intros Ht. rewrite null_or_payment_eq. split.
  - destruct input as [|b input]; [intros H; by apply take_payment_iff in H as (_ & H)|].
    destruct (Byte.eqb b Byte.xf6) eqn:Eb; [|by intros (_ & ? & ? & ? & ?)%take_payment_iff].
    apply Byte.byte_dec_bl in Eb as ->. intros [= <- <- <-]. cbn. repeat split; lia.
  - intros (Hp & -> & Hmax & ->). destruct o as [p|]; [|cbn; do 3 f_equal; lia].
    destruct (emit (payment_item (Some p)) ++ rest) as [|b t] eqn:E; [done|].
    assert (b = Byte.xa3) as -> by (cbn in E; by injection E as <- _).
    change (Byte.eqb Byte.xa3 Byte.xf6) with false. cbn iota. apply take_payment_iff; [done|]. by rewrite E.
Qed.

Lemma kind_codes k code : kind_of_code code = Some k <-> code = kind_code k.
Proof.
  split; [|by intros ->; destruct k].
  unfold kind_of_code. intros H. repeat case_match; simplify_eq; done.
Qed.

Lemma outcome_codes o code : outcome_of_code code = Some o <-> code = outcome_code o.
Proof.
  split; [|by intros ->; destruct o].
  unfold outcome_of_code. intros H. repeat case_match; simplify_eq; done.
Qed.

Lemma entry_iff total input e total' rest :
  0 <= total <= MAX_AGGREGATE_BYTES ->
  decode_transaction_entry total input = Ok (e, total', rest) <->
  entry_ok e /\ total' = total + entry_bytes e /\ total' <= MAX_AGGREGATE_BYTES
  /\ input = emit (entry_item e) ++ rest.
Proof.
  intros Ht. unfold decode_transaction_entry, entry_item, entry_ok, entry_bytes.
  rewrite emit_map, !keyed_cons, keyed_nil, emit_array, len_map. split.
  - intros H. repeat read_step H. injection H as <- <- <-. read_facts.
    cbn [seq content prev_hash entry_hash redacted epoch kind counterparty consent_hash claim_paths outcome payment].
    repeat match goal with E : ok_or _ _ = Ok _ |- _ => apply ok_or_Ok in E end.
    repeat match goal with
    | E : kind_of_code _ = Some _ |- _ => apply kind_codes in E; subst
    | E : outcome_of_code _ = Some _ |- _ => apply outcome_codes in E; subst end.
    repeat match goal with
    | E : charge_transaction_payload _ (slen ?s) = Ok _ |- _ =>
        pose proof (slen_nonneg s); apply charge_iff in E as [-> ?]; [|lia|limits; lia]
    | E : take_claims _ _ _ = Ok (?l, _, _) |- _ =>
        pose proof (sum_slens l); apply claims_iff in E as (Hl & ? & -> & ? & ->); [|lia];
        apply to_nat_len in Hl; [|lia]; subst
    | E : null_or_payment _ _ = Ok (?o, _, _) |- _ =>
        pose proof (payment_bytes_nonneg o); apply payment_iff in E as (? & -> & ? & ->); [|lia]
    end.
    repeat split; try (done || lia).
  - intros ((H1 & H2 & H3 & H4 & H5 & H6 & H7 & H8 & H9 & H10) & -> & Hmax & ->).
    pose proof (slen_nonneg (counterparty (content e))). pose proof (sum_slens (claim_paths (content e))).
    pose proof (payment_bytes_nonneg (payment (content e))). pose proof (len_nonneg (claim_paths (content e))).
    assert (is_u64 (kind_code (kind (content e))) = true) by (by destruct (kind (content e))).
    assert (is_u64 (outcome_code (outcome (content e))) = true) by (by destruct (outcome (content e))).
    read_run. rewrite (proj2 (kind_codes _ _) eq_refl). cbn [ok_or]. read_run.
    rewrite (proj2 (charge_iff total (slen (counterparty (content e))) _ Ht ltac:(limits; lia))) by (split; [done|lia]).
    read_run. rewrite container_run by range. cbn beta iota.
    rewrite (proj2 (claims_iff (Z.to_nat (len (claim_paths (content e))))
      (total + slen (counterparty (content e))) _ (claim_paths (content e)) _ _ ltac:(lia)))
      by (split; [by apply to_nat_len; lia|]; split; [done|]; split; [reflexivity|]; split; [lia|reflexivity]).
    read_run. rewrite (proj2 (outcome_codes _ _) eq_refl). cbn [ok_or]. read_run.
    rewrite (proj2 (payment_iff
      (total + slen (counterparty (content e)) + sum (map slen (claim_paths (content e)))) _
      (payment (content e)) _ _ ltac:(lia)))
      by (split; [done|]; split; [reflexivity|]; split; [lia|reflexivity]).
    read_run. destruct e as [? []]. cbn. do 3 f_equal. lia.
Qed.

Lemma credentials_iff n : forall previous total input l rest,
  0 <= total <= MAX_CREDENTIAL_EVIDENCE_BYTES ->
  take_credentials n previous total input = Ok (l, rest) <->
  length l = n /\ Forall credential_ok l /\ ascending credential_lt previous l
  /\ total + sum (map evidence l) <= MAX_CREDENTIAL_EVIDENCE_BYTES
  /\ input = concat (map emit (map credential_item l)) ++ rest.
Proof.
  induction n as [|n IH]; intros previous total input l rest Ht; cbn [take_credentials].
  - split.
    + intros [= <- <-]. cbn. repeat split; (done || lia || constructor).
    + intros (Hl & _ & _ & _ & ->). by destruct l.
  - assert (forall c, match previous with
                      | Some p => match cmp_canonical p c with Lt => false | _ => true end
                      | None => false end = false
              <-> match previous with Some p => credential_lt p c | None => True end) as Hlt.
    { intros c. destruct previous; [|done]. unfold credential_lt. by destruct (cmp_canonical _ _). }
    split.
    + destruct (take_credential total input) as [[[c t] r]|] eqn:E; [|done].
      apply credential_iff in E as (Hc & -> & Hmax & ->); [|done]. pose proof (evidence_nonneg c).
      destruct (match previous with Some p => _ | None => false end) eqn:Ep; [done|]. apply Hlt in Ep.
      destruct (take_credentials n (Some c) _ r) as [[l' r']|] eqn:E; [|done].
      apply IH in E as (Hn & Hf & Ha & Hm & ->); [|lia]. intros [= <- <-]. cbn [map concat length ascending].
      rewrite sum_cons, <- app_assoc. split; [by rewrite Hn|]. split; [by constructor|]. split; [done|].
      split; [lia|done].
    + intros (Hn & Hf & Ha & Hm & ->). destruct l as [|c l]; [done|]. cbn [map concat length ascending] in *.
      apply Forall_cons_iff in Hf as [Hc Hf]. destruct Ha as [Hp Ha]. rewrite sum_cons in Hm.
      pose proof (evidence_nonneg c). pose proof (evidences_nonneg l). rewrite <- app_assoc.
      rewrite (proj2 (credential_iff total _ c (total + evidence c) _ Ht))
        by (split; [done|]; split; [done|]; split; [lia|done]).
      apply Hlt in Hp. rewrite Hp.
      rewrite (proj2 (IH (Some c) (total + evidence c) _ l rest ltac:(lia))); [done|].
      split; [by injection Hn|]. split; [done|]. split; [done|]. split; [lia|done].
Qed.

Lemma entries_iff n : forall total input l rest,
  0 <= total <= MAX_AGGREGATE_BYTES ->
  take_entries n total input = Ok (l, rest) <->
  length l = n /\ Forall entry_ok l /\ total + sum (map entry_bytes l) <= MAX_AGGREGATE_BYTES
  /\ input = concat (map emit (map entry_item l)) ++ rest.
Proof.
  induction n as [|n IH]; intros total input l rest Ht; cbn [take_entries].
  - split.
    + intros [= <- <-]. cbn. repeat split; (done || lia || constructor).
    + intros (Hl & _ & _ & ->). by destruct l.
  - split.
    + destruct (decode_transaction_entry total input) as [[[e t] r]|] eqn:E; [|done].
      apply entry_iff in E as (He & -> & Hmax & ->); [|done]. pose proof (entry_bytes_nonneg e).
      destruct (take_entries n _ r) as [[l' r']|] eqn:E; [|done].
      apply IH in E as (Hn & Hf & Hm & ->); [|lia]. intros [= <- <-]. cbn [map concat length].
      rewrite sum_cons, <- app_assoc. split; [by rewrite Hn|]. split; [by constructor|]. split; [lia|done].
    + intros (Hn & Hf & Hm & ->). destruct l as [|e l]; [done|]. cbn [map concat length] in *.
      apply Forall_cons_iff in Hf as [He Hf]. rewrite sum_cons in Hm.
      pose proof (entry_bytes_nonneg e). pose proof (entries_bytes_nonneg l). rewrite <- app_assoc.
      rewrite (proj2 (entry_iff total _ e (total + entry_bytes e) _ Ht))
        by (split; [done|]; split; [done|]; split; [lia|done]).
      rewrite (proj2 (IH (total + entry_bytes e) _ l rest ltac:(lia))); [done|].
      split; [by injection Hn|]. split; [done|]. split; [lia|done].
Qed.

Lemma context_iff input c rest :
  take_context input = Ok (c, rest) <-> context_ok c /\ input = emit (context_item c) ++ rest.
Proof.
  unfold take_context, context_item, context_ok. rewrite emit_map, !keyed_cons, keyed_nil. split.
  - intros H. repeat read_step H. injection H as <- <-. by read_facts.
  - intros [(H1 & H2 & H3) ->]. read_run. by destruct c.
Qed.

Lemma replay_sets_iff input r rest :
  take_replay_sets input = Ok (r, rest) <-> replay_ok r /\ input = emit (replay_item r) ++ rest.
Proof.
  unfold take_replay_sets, replay_item, replay_ok. rewrite emit_map, !keyed_cons, keyed_nil. split.
  - intros H. repeat read_step H. injection H as <- <-.
    repeat match goal with
    | E : decode_replay _ = Ok _ |- _ => apply decode_replay_iff in E as [? ->]
    | E : decode_replay_str _ = Ok _ |- _ => apply decode_replay_str_iff in E as [? ->] end.
    read_facts. split; [exact (conj H2 (conj H1 (conj H0 H)))|done].
  - intros [(H1 & H2 & H3 & H4) ->]. read_run. rewrite (proj2 (decode_replay_str_iff _ (r_presentation r) _)) by done.
    read_run. rewrite (proj2 (decode_replay_iff _ (r_payment r) _)) by done. read_run.
    rewrite (proj2 (decode_replay_iff _ (r_issuance r) _)) by done. read_run.
    rewrite (proj2 (decode_replay_iff _ (r_qes r) _)) by done. by destruct r.
Qed.

Lemma read_checkpoint_iff input c rest :
  take_checkpoint input = Ok (c, rest) <->
  checkpoint_ok c /\ input = emit (checkpoint_item c) ++ rest.
Proof.
  unfold take_checkpoint, checkpoint_item, checkpoint_ok, credentials_ok, entries_ok.
  rewrite emit_map, !keyed_cons, keyed_nil. rewrite !emit_map, !keyed_cons, !keyed_nil, !emit_array, !len_map. split.
  - intros H. repeat read_step H. injection H as <- <-.
    repeat match goal with
    | E : take_context _ = Ok _ |- _ => apply context_iff in E as [? ->]
    | E : take_replay_sets _ = Ok _ |- _ => apply replay_sets_iff in E as [? ->]
    | E : take_credentials _ _ _ _ = Ok _ |- _ =>
        apply credentials_iff in E as (? & ? & ? & ? & ->); [|limits; lia]
    | E : take_entries _ _ _ = Ok _ |- _ => apply entries_iff in E as (? & ? & ? & ->); [|limits; lia]
    end.
    read_facts. cbn [generation context clock_high_water trust_sequence_high_water credentials replay
      transaction_entries transaction_head issuance_interrupted].
    repeat match goal with E : length _ = Z.to_nat _ |- _ => apply to_nat_len in E; [|lia]; subst end.
    bool_prop. rewrite bool_decide_eq_true in *. subst.
    repeat match goal with E : 0 + _ <= _ |- _ => rewrite Z.add_0_l in E end.
    split_and!; done || lia.
  - intros (([Hg Hg0] & Hctx & [Hc Hc0] & Ht & (Hl1 & Hl2 & Hl3 & Hl4) & Hr & (He1 & He2 & He3) & Hh) & ->).
    pose proof (len_nonneg (credentials c)). pose proof (len_nonneg (transaction_entries c)).
    read_run. rewrite bool_decide_true by done. cbn [negb]. read_run. rewrite Z.eqb_refl. cbn [negb].
    read_run. rewrite (proj2 (Z.eqb_neq _ _) Hg0). read_run.
    rewrite (proj2 (context_iff _ (context c) _)) by done. read_run.
    rewrite (proj2 (Z.leb_gt _ _)) by lia. read_run. rewrite container_run by range. cbn beta iota.
    rewrite (proj2 (credentials_iff _ None 0 _ (credentials c) _ ltac:(limits; lia)))
      by (split; [by apply to_nat_len; lia|]; split; [done|]; split; [done|]; split; [lia|reflexivity]).
    read_run. rewrite (proj2 (replay_sets_iff _ (replay c) _)) by done. read_run.
    rewrite container_run by range. cbn beta iota.
    rewrite (proj2 (entries_iff _ 0 _ (transaction_entries c) _ ltac:(limits; lia)))
      by (split; [by apply to_nat_len; lia|]; split; [done|]; split; [lia|reflexivity]).
    read_run. by destruct c.
Qed.

(** ** Every checkpoint within the budgets passes the scan *)

Lemma payload_emit i : payload i <= len (emit i).
Proof.
  assert (forall l, Forall (fun i => payload i <= len (emit i)) l ->
    total_of payload l <= len (concat (map emit l))) as Harr.
  { induction 1 as [|i0 l Hi _ IH]; [done|]. cbn [map concat]. rewrite total_of_cons, len_app. lia. }
  assert (forall l, Forall (fun i => payload i <= len (emit i)) l ->
    forall k, total_of payload l <= len (keyed k (map emit l))) as Hmap.
  { induction 1 as [|i0 l Hi _ IH]; intros k; [done|]. cbn [map keyed]. rewrite total_of_cons, !len_app.
    pose proof (IH (k + 1)). pose proof (len_nonneg (write_head [] 0 k)). lia. }
  induction i as [m n|m b|l IH|l IH|b] using item_nested_ind; cbn [payload emit]; rewrite ?len_app.
  - apply len_nonneg.
  - pose proof (len_nonneg (write_head [] m (len b))). lia.
  - pose proof (len_nonneg (write_head [] 4 (len l))). pose proof (Harr l IH). lia.
  - pose proof (len_nonneg (write_head [] 5 (len l))). pose proof (Hmap l IH 1). lia.
  - by rewrite len_cons.
Qed.

(** An item that the scan takes within [k] levels and [n] nodes. *)
Definition fits (k : nat) (n : Z) (i : Item) : Prop := wf i /\ (height i <= k)%nat /\ nodes i <= n.

Lemma fits_le k k' n n' i : fits k n i -> (k <= k')%nat -> n <= n' -> fits k' n' i.
Proof. intros (? & ? & ?) ? ?. repeat split; (done || lia). Qed.

Lemma fits_uint n : is_u64 n = true -> fits 1 1 (i_uint n).
Proof. intros H. repeat split; cbn; try lia. constructor; auto. Qed.

Lemma fits_int n : is_i64 n = true -> fits 1 1 (i_int n).
Proof.
  unfold is_i64. rewrite andb_true_iff, !Z.leb_le. intros H. unfold i_int.
  destruct (Z.leb_spec 0 n); repeat split; cbn; try lia; constructor; auto;
    unfold is_u64; rewrite andb_true_iff, !Z.leb_le; width; lia.
Qed.

Lemma fits_bytes b : len b <= MAX_RAW_CREDENTIAL_BYTES -> fits 1 1 (i_bytes b).
Proof. intros H. repeat split; cbn; try lia. by constructor. Qed.

Lemma fits_text s : is_str s = true -> slen s <= MAX_RAW_CREDENTIAL_BYTES -> fits 1 1 (i_text s).
Proof. intros Hs H. repeat split; cbn; try lia. by constructor. Qed.

Lemma fits_bool b : fits 1 1 (i_bool b).
Proof. repeat split; cbn; try lia. constructor. destruct b; auto. Qed.

Lemma fits_all k n l : Forall (fits k n) l ->
  Forall wf l /\ (list_max (map height l) <= k)%nat /\ total_of nodes l <= n * len l.
Proof.
  induction 1 as [|i l (Hw & Hh & Hn) _ (IHw & IHh & IHn)].
  - split; [constructor|]. split; [cbn; lia|]. change (len (@nil Item)) with 0. cbn. lia.
  - rewrite total_of_cons, len_cons. cbn [map list_max foldr]. split; [by constructor|].
    split; [change (foldr Init.Nat.max 0%nat (map height l)) with (list_max (map height l)); lia|lia].
Qed.

Lemma fits_array k n l m : Forall (fits k n) l -> len l <= m -> m <= MAX_CONTAINER_ITEMS -> 0 <= n ->
  fits (S k) (1 + n * m) (IArr l).
Proof.
  intros Hl Hlen Hm Hn. apply fits_all in Hl as (Hw & Hh & Ht).
  split; [constructor; [lia|done]|]. split; [cbn; lia|]. cbn [nodes]. nia.
Qed.

(** A map whose values fit, with the sum of their nodes. *)
Lemma fits_map k ns l : Forall2 (fits k) ns l -> (1 <= k)%nat -> len l <= MAX_MAP_PAIRS ->
  fits (S k) (1 + len l + sum ns) (IMap l).
Proof.
  intros Hl Hk Hlen.
  assert (Forall wf l /\ (list_max (map height l) <= k)%nat /\ total_of nodes l <= sum ns) as (Hw & Hh & Ht).
  { clear Hlen. induction Hl as [|n i ns l (Hw & Hh & Hn) _ (IHw & IHh & IHn)]; [split; [constructor|]; split; [cbn; lia|by vm_compute]|].
    rewrite total_of_cons, sum_cons. cbn [map list_max foldr]. split; [by constructor|].
    split; [change (foldr Init.Nat.max 0%nat (map height l)) with (list_max (map height l)); lia|lia]. }
  split; [by constructor|]. split; [cbn; lia|]. cbn [nodes]. lia.
Qed.

Lemma fits_each {A} (P : A -> Prop) (f : A -> Item) k n l :
  (forall a, P a -> fits k n (f a)) -> Forall P l -> Forall (fits k n) (map f l).
Proof. intros H Hl. apply Forall_map. eapply Forall_impl; [|exact Hl]. done. Qed.

Ltac fit := first
  [ apply fits_uint; first [assumption | reflexivity]
  | apply fits_int; assumption
  | apply fits_bool
  | apply fits_bytes; range
  | apply fits_text; [assumption|range]
  | eassumption ].

(** Lifts what is known of the values of a map to one bound on their levels. *)
Ltac fit_map k := eapply fits_le; [eapply (fits_map k);
  [repeat (constructor; [eapply fits_le; [fit|range|reflexivity]|]); constructor|lia|by vm_compute]| |].

Lemma fits_credential c : credential_ok c -> fits 3 25 (credential_item c).
Proof.
  intros (Hf & Hr & Hs & Hi & Hl & Hc). unfold credential_item.
  assert (is_u64 (format c) = true) by (by destruct Hf as [-> | ->]).
  assert (fits 2 17 (IArr (map i_bytes (certificate_path c)))).
  { eapply fits_le; [apply (fits_array 1 1 _ 16); [|rewrite len_map; range|range|lia]|lia|lia].
    eapply fits_each; [|exact Hc]. intros b [_ Hb]. apply fits_bytes. range. }
  fit_map 2%nat; [lia|by vm_compute].
Qed.

Lemma fits_payment o : payment_ok o -> fits 2 7 (payment_item o).
Proof.
  destruct o as [p|]; cbn [payment_ok payment_item].
  - intros (H1 & H2 & H3 & H4 & H5). fit_map 1%nat; [lia|by vm_compute].
  - intros _. repeat split; cbn; try lia. constructor. auto.
Qed.

Lemma fits_entry e : entry_ok e -> fits 3 157 (entry_item e).
Proof.
  intros (H1 & H2 & H3 & H4 & H5 & H6 & H7 & H8 & H9 & H10). unfold entry_item.
  assert (is_u64 (kind_code (kind (content e))) = true) by (by destruct (kind (content e))).
  assert (is_u64 (outcome_code (outcome (content e))) = true) by (by destruct (outcome (content e))).
  pose proof (fits_payment _ H8).
  assert (fits 2 129 (IArr (map i_text (claim_paths (content e))))).
  { eapply fits_le; [apply (fits_array 1 1 _ 128); [|rewrite len_map; range|range|lia]|lia|lia].
    eapply fits_each; [|exact H7]. intros s [Hs Hn]. apply fits_text; range. }
  fit_map 2%nat; [lia|by vm_compute].
Qed.

Lemma fits_numbers l : numbers_ok l -> fits 2 65537 (IArr (map i_uint l)).
Proof.
  intros (Hl & Hf & _).
  eapply fits_le; [apply (fits_array 1 1 _ 65536); [|rewrite len_map; range|range|lia]|lia|lia].
  eapply fits_each; [|exact Hf]. intros n Hn. by apply fits_uint.
Qed.

Lemma fits_replay r : replay_ok r -> fits 3 262153 (replay_item r).
Proof.
  intros ((Hl & Hf & _) & H2 & H3 & H4). unfold replay_item.
  pose proof (fits_numbers _ H2). pose proof (fits_numbers _ H3). pose proof (fits_numbers _ H4).
  assert (fits 2 65537 (IArr (map i_text (r_presentation r)))).
  { eapply fits_le; [apply (fits_array 1 1 _ 65536); [|rewrite len_map; range|range|lia]|lia|lia].
    eapply fits_each; [|exact Hf]. intros s [Hs Hn]. apply fits_text; range. }
  fit_map 2%nat; [lia|by vm_compute].
Qed.

Lemma fits_checkpoint c : checkpoint_ok c -> fits SCHEMA_LEVELS MAX_STRUCTURAL_NODES (checkpoint_item c).
Proof.
  intros ([Hg Hg0] & (C1 & C2 & C3) & [Hc Hc0] & Ht & (Hl1 & Hl2 & _) & Hr & (He1 & He2 & _) & Hh).
  unfold checkpoint_item. pose proof (fits_replay _ Hr).
  assert (len MAGIC <= 32) by (by vm_compute).
  assert (fits 2 7 (context_item (context c))) by (unfold context_item; fit_map 1%nat; [lia|by vm_compute]).
  assert (fits 2 5 (IMap [i_int (clock_high_water c); i_uint (trust_sequence_high_water c)]))
    by (fit_map 1%nat; [lia|by vm_compute]).
  assert (fits 4 3201 (IArr (map credential_item (credentials c)))).
  { eapply fits_le; [apply (fits_array 3 25 _ 128); [|rewrite len_map; range|range|lia]|lia|lia].
    eapply fits_each; [|exact Hl2]. apply fits_credential. }
  assert (fits 4 643073 (IArr (map entry_item (transaction_entries c)))).
  { eapply fits_le; [apply (fits_array 3 157 _ 4096); [|rewrite len_map; range|range|lia]|lia|lia].
    eapply fits_each; [|exact He2]. apply fits_entry. }
  assert (fits 5 643077 (IMap [IArr (map entry_item (transaction_entries c)); i_bytes (transaction_head c)]))
    by (fit_map 4%nat; [lia|by vm_compute]).
  fit_map 8%nat; [unfold SCHEMA_LEVELS; lia|by vm_compute].
Qed.

Lemma preflight_ok c : checkpoint_ok c -> len (emit (checkpoint_item c)) <= MAX_CHECKPOINT_BYTES ->
  structural_preflight (emit (checkpoint_item c)) = Ok tt.
Proof.
  intros Hok Hlen. destruct (fits_checkpoint c Hok) as (Hw & Hh & Hn).
  pose proof (payload_emit (checkpoint_item c)). unfold structural_preflight.
  rewrite (proj2 (Z.ltb_ge _ _)) by lia.
  pose proof (scan_item_ok _ Hw SCHEMA_LEVELS Hh
    {| remaining_nodes := MAX_STRUCTURAL_NODES; payload_bytes := 0 |} []) as Hs.
  rewrite app_nil_r in Hs. rewrite Hs; [done|done|done|]. cbn [payload_bytes]. limits. lia.
Qed.

(** ** The codec *)

Lemma decode_encode_iff bs c :
  decode_checkpoint bs = Ok c <-> checkpoint_ok c /\ encode_checkpoint c = Ok bs.
Proof.
  rewrite encode_checkpoint_iff. unfold decode_checkpoint. split.
  - destruct (structural_preflight bs) as [[]|] eqn:Es; [|done].
    destruct (take_checkpoint bs) as [[c' rest]|] eqn:E; [|done].
    apply read_checkpoint_iff in E as [Hok ->]. destruct rest; [|done]. intros [= ->].
    rewrite app_nil_r in *. split; [done|]. split; [done|]. unfold structural_preflight in Es.
    destruct (Z.ltb_spec MAX_CHECKPOINT_BYTES (len (emit (checkpoint_item c)))); [done|lia].
  - intros (Hok & -> & Hlen). rewrite (preflight_ok c Hok Hlen).
    by rewrite (proj2 (read_checkpoint_iff _ c [])) by (by rewrite app_nil_r).
Qed.

(** C23: A checkpoint has one encoding, and only that is accepted.  Decoding
    succeeds exactly on the bytes that the encoder writes for a checkpoint
    within the domain budgets, and returns that checkpoint: every one of them
    passes the structural scan of depth, nodes and payload, and no other byte
    string, however it is laid out, decodes to anything. *)
Theorem checkpoint_decode_iff bs c :
  decode_checkpoint bs = Ok c <-> checkpoint_ok c /\ encode_checkpoint c = Ok bs.
Proof. apply decode_encode_iff. Qed.

Module Examples.
Definition digest_of (b : byte) : bytes := repeat b 32.

Definition credential : CredentialRecord := {|
  format := 1; raw := as_bytes "jwt~d~"; issuer_identity := "https://issuer.example";
  certificate_path := [[Byte.x30; Byte.x01]; [Byte.x30]];
|}.

Definition entry : TxnLog.Entry := {|
  seq := 0;
  content := {| epoch := 1700000000; kind := Payment; counterparty := "Shop";
    consent_hash := digest_of Byte.x01; claim_paths := ["age"; "name"]; outcome := Completed;
    payment := Some {| payee := "Shop"; amount_minor := 1250; currency := "EUR" |} |};
  prev_hash := digest_of Byte.x00; entry_hash := digest_of Byte.x02; redacted := false;
|}.

Definition checkpoint : Checkpoint := {|
  generation := 7;
  context := {| wallet_client_id := digest_of Byte.x03; device_key_ref := digest_of Byte.x04;
                device_public_key := digest_of Byte.x05 |};
  clock_high_water := 1700000001; trust_sequence_high_water := 3;
  credentials := [credential];
  replay := {| r_presentation := ["a"; "b"]; r_payment := [1; 300]; r_issuance := []; r_qes := [70000] |};
  transaction_entries := [entry]; transaction_head := digest_of Byte.x02;
  issuance_interrupted := true;
|}.

Example checkpoint_round_trip :
  (let? bs := encode_checkpoint checkpoint in decode_checkpoint bs) = Ok checkpoint.
Proof. by vm_compute. Qed.

(** The same items with the last byte cut off, and with one byte more. *)
Example checkpoint_exact :
  (let? bs := encode_checkpoint checkpoint in decode_checkpoint (removelast bs)) = Err Truncated
  /\ (let? bs := encode_checkpoint checkpoint in decode_checkpoint (bs ++ [Byte.x00])) = Err NonCanonical.
Proof. split; by vm_compute. Qed.
End Examples.
