(* ===== verification/WalletCore.v ===== *)
(** * The wallet core's state (crates/wallet-core/src/lib.rs)

    [Core] and the types of its fields, and how flows begin, end and are
    reset.  The machines of the flows keep the types of their own files. *)

From S2P Require Import Sealing ProximitySession.
From S2P Require Import Cbor Cose Mdoc Oid4vp Dcql Payment Oid4vci Qes W2w Proximity Status Wua.
From S2P Require Import TxnLog Trust.
From S2P Require Import Prelude Utf8 BTree Boundary Serde SdJwtProcess Catalogue X509 X509Path.
From S2P Require Import Holdings CredentialChecks.

Open Scope Z_scope.
Open Scope rust_scope.

(** ** Flows and operations *)

Inductive ActiveFlow : Type :=
| NoFlow | Presentation | Payment | Issuance | QesFlow | WalletTransfer | ProximityFlowKind | DcApi.

#[export] Instance active_flow_eq_decision : EqDecision ActiveFlow.
Proof. solve_decision. Defined.

Inductive HybridSignatureProfile : Type := Es256MlDsa65V1.

Inductive OperationResultKind : Type :=
| RpCertChain | Persisted | Signature
| HybridSignature (profile : HybridSignatureProfile)
| PresentationDelivery | PaymentDelivery | QesDelivery | Par | AuthorizationCode
| TransactionCode | Token | Credential
| StatusList (uri : string)
| TransferOfferPublished | PresentationDecision | PaymentDecision | QesDecision
| IssuanceDecision | ProximityDecision | DcApiDecision.

Record PendingOperation : Type := {
  op_flow : ActiveFlow;
  op_result : OperationResultKind;
  authorization_hash : option bytes;
}.

(** ** Holdings with their evidence *)

Record MdocHolding : Type := { doctype : string; issuer_signed : Mdoc.IssuerSigned }.

Record CredentialIssuerEvidence : Type := {
  evidence_identity : string;
  service : IssuerTrustDomain;
  evidence_public_key_raw : bytes;
  evidence_certificate_path : list bytes;
  evidence_not_before : Z;
  evidence_not_after : Z;
}.

Record CredentialProvenance : Type := {
  provenance_format : Oid4vci.CredentialFormat;
  raw_credential : bytes;
  provenance_issuer : CredentialIssuerEvidence;
}.

Inductive StoredProvenance : Type := Authenticated (p : CredentialProvenance) | TestFixture.

Record AuthenticatedSdJwtHolding : Type := { processed : ProcessedSdJwt }.

Record StoredSdJwtCredential : Type := {
  sd_holding : HeldCredential;
  sd_authenticated : option AuthenticatedSdJwtHolding;
  sd_validity : CredentialValidity;
  sd_provenance : StoredProvenance;
}.

Record StoredMdocCredential : Type := {
  mdoc_holding : MdocHolding;
  mdoc_stored_validity : CredentialValidity;
  mdoc_provenance : StoredProvenance;
}.

Inductive VerifiedCredential : Type :=
| VerifiedSdJwt (holding : HeldCredential) (authenticated : AuthenticatedSdJwtHolding)
    (validity : CredentialValidity)
| VerifiedMdoc (holding : MdocHolding) (validity : CredentialValidity).

Definition verified_format (self : VerifiedCredential) : Oid4vci.CredentialFormat :=
  match self with
  | VerifiedSdJwt _ _ _ => Oid4vci.DcSdJwt
  | VerifiedMdoc _ _ => Oid4vci.MsoMdoc
  end.

Record AuthenticatedCredential : Type := {
  credential : VerifiedCredential;
  provenance : CredentialProvenance;
}.

Inductive PresentationCredentialReference : Type :=
| RefSdJwt (holding : HeldCredential) (authenticated : option AuthenticatedSdJwtHolding)
| RefMdoc (holding : MdocHolding).

Inductive PresentationEligibilityError : Type :=
| EligibilityExpired | EligibilityNotYetValid | ProvenanceInvalid | TrustEvidenceInvalid
| NoEligibleCredential.

#[export] Existing Instance Oid4vci.format_eq_decision.
#[export] Existing Instance Cbor.value_eq_decision.
#[export] Instance domain_eq_decision : EqDecision IssuerTrustDomain.
Proof. solve_decision. Defined.
#[export] Instance evidence_eq_decision : EqDecision CredentialIssuerEvidence.
Proof. solve_decision. Defined.
#[export] Instance provenance_eq_decision : EqDecision CredentialProvenance.
Proof. solve_decision. Defined.
#[export] Instance x5chain_eq_decision : EqDecision Cose.X5Chain.
Proof. solve_decision. Defined.
#[export] Instance unprotected_eq_decision : EqDecision Cose.UnprotectedHeader.
Proof. solve_decision. Defined.
#[export] Instance sign1_eq_decision : EqDecision Cose.CoseSign1.
Proof. solve_decision. Defined.
#[export] Instance item_eq_decision : EqDecision Mdoc.IssuerSignedItem.
Proof. solve_decision. Defined.
#[export] Instance issuer_signed_eq_decision : EqDecision Mdoc.IssuerSigned.
Proof. solve_decision. Defined.
#[export] Instance mdoc_holding_eq_decision : EqDecision MdocHolding.
Proof. solve_decision. Defined.
#[export] Instance path_element_eq_decision : EqDecision ClaimPathElement.
Proof. solve_decision. Defined.

(** [PartialEq] of processed documents, on the equality of JSON values. *)
Definition disclosure_eqb (a b : VerifiedDisclosure) : bool :=
  bool_decide (raw a = raw b) && bool_decide (digest a = digest b)
  && bool_decide (path a = path b) && bool_decide (parent_digest a = parent_digest b)
  && value_eqb (SdJwtProcess.value a) (SdJwtProcess.value b).

Fixpoint list_eqb {A} (eqb : A -> A -> bool) (l k : list A) : bool :=
  match l, k with
  | [], [] => true
  | x :: l, y :: k => eqb x y && list_eqb eqb l k
  | _, _ => false
  end.

Definition authenticated_eqb (a b : AuthenticatedSdJwtHolding) : bool :=
  value_eqb (VObject (claims (processed a))) (VObject (claims (processed b)))
  && list_eqb disclosure_eqb (verified_disclosures (processed a)) (verified_disclosures (processed b)).

Definition option_eqb {A} (eqb : A -> A -> bool) (a b : option A) : bool :=
  match a, b with
  | Some a, Some b => eqb a b
  | None, None => true
  | _, _ => false
  end.

(** ** The state *)

Record RelyingPartyProvenance : Type := { certificate_chain : list bytes; rp_key : bytes }.

Record WalletConfig : Type := { wallet_client_id : string; device_key_ref : string }.

Record SessionInfo : Type := {
  rp_client_id : string;
  rp_registration : option Trust.RelyingPartyRegistration;
  purpose : string;
  requested_claims : list string;
  nonce : string;
  response_uri : string;
  response_mode : string;
  response_encryption_key : option bytes;
  dcql : option Dcql.DcqlQuery;
  selected_credentials : list Oid4vp.SelectedCredential;
  selected_sources : list PresentationCredentialReference;
  selected_revealed_claims : list string;
  rp_provenance : option RelyingPartyProvenance;
  consent_hash : bytes;
  shared_claims : list string;
}.

Record ProximityPresentation : Type := {
  prox_doctype : string;
  prox_issuer_signed : Mdoc.IssuerSigned;
  prox_device_namespaces_bytes : bytes;
  prox_protected_header : bytes;
  prox_signing_input : bytes;
  prox_disclosed : list string;
}.

Record ProximityFlow : Type := {
  prox_state : Proximity.State;
  device_key : option P256AgreementKey;
  cipher : option SessionCipher;
  pending_request : option bytes;
  prox_presentation : option ProximityPresentation;
  last_signature : option bytes;
  prox_consent_hash : bytes;
}.

Definition ZERO32 : bytes := repeat Byte.x00 32.

Definition proximity_idle : ProximityFlow := {|
  prox_state := Proximity.Idle; device_key := None; cipher := None; pending_request := None; prox_presentation := None;
  last_signature := None; prox_consent_hash := ZERO32 |}.

Record DcApiPresentation : Type := {
  dc_dcql_id : string;
  dc_doctype : string;
  dc_issuer_signed : Mdoc.IssuerSigned;
  dc_device_namespaces_bytes : bytes;
  dc_protected_header : bytes;
  dc_signing_input : bytes;
  dc_disclosed : list string;
}.

Record DcApiFlow : Type := {
  dc_presentation : option DcApiPresentation;
  dc_consent_hash : bytes;
}.

Definition dcapi_default : DcApiFlow := {| dc_presentation := None; dc_consent_hash := ZERO32 |}.

Record CachedStatusList : Type := {
  cached_list : Status.StatusList;
  provider_cert_chain : list bytes;
}.

Definition MAX_CACHED_STATUS_LISTS : Z := 8.
Definition MAX_STATUS_LISTS_PER_PRESENTATION : Z := 8.
Definition MAX_PENDING_OPERATIONS : Z := 32.

Record Core : Type := {
  config : WalletConfig;
  vp : Oid4vp.State;
  seen_nonces : list string;
  credentials : list StoredSdJwtCredential;
  mdoc_holdings : list StoredMdocCredential;
  session : option SessionInfo;
  pending_rp_provenance : option RelyingPartyProvenance;
  now_epoch : Z;
  payment : Payment.State;
  pay_seen_nonces : list Z;
  pay_pending : option (string * Z);
  active : ActiveFlow;
  next_operation_id : Z;
  pending_operations : BTreeMap Z PendingOperation;
  trust_store : Trust.TrustStore;
  issuance : Oid4vci.State;
  durable_issuance_interrupted : bool;
  iss_seen_c_nonces : list Z;
  device_public_key : bytes;
  wua : option Wua.WalletUnitAttestation;
  issuer_trusted_current : bool;
  issuer_id_current : string;
  issuer_cert_chain_current : list bytes;
  issuer_id_assertion_current : string;
  issuer_candidates_current : list CredentialIssuerEvidence;
  pending_verified_credential : option AuthenticatedCredential;
  last_credential_ingestion_error : option CredentialIngestionError;
  issuance_consent_hash : bytes;
  status_lists : BTreeMap string CachedStatusList;
  pending_status_references : list StatusReference;
  log : TxnLog.TransactionLog;
  audit_log_available : bool;
  pay_summary : option TxnLog.PaymentSummary;
  pay_consent_hash : bytes;
  catalogue : Catalogue;
  qes : Qes.QesState;
  qes_seen_nonces : list Z;
  qes_consent_hash : bytes;
  w2w : W2w.State;
  w2w_credential : option bytes;
  proximity : ProximityFlow;
  dcapi : DcApiFlow;
}.

(** Eight random bytes into [1..=2^62]. *)
Definition operation_id_seed (random : bytes) : Z :=
  Z.land (from_be_bytes random) (Z.shiftl 1 62 - 1) + 1.

Definition new (wallet_client_id device_key_ref : string) (random : bytes) : Core := {|
  config := {| wallet_client_id := wallet_client_id; device_key_ref := device_key_ref |};
  vp := Oid4vp.Idle;
  seen_nonces := [];
  credentials := [];
  mdoc_holdings := [];
  session := None;
  pending_rp_provenance := None;
  now_epoch := 0;
  payment := Payment.Idle;
  pay_seen_nonces := [];
  pay_pending := None;
  active := NoFlow;
  next_operation_id := operation_id_seed random;
  pending_operations := [];
  trust_store := Trust.store_new;
  issuance := Oid4vci.Idle;
  durable_issuance_interrupted := false;
  iss_seen_c_nonces := [];
  device_public_key := [];
  wua := None;
  issuer_trusted_current := false;
  issuer_id_current := "";
  issuer_cert_chain_current := [];
  issuer_id_assertion_current := "";
  issuer_candidates_current := [];
  pending_verified_credential := None;
  last_credential_ingestion_error := None;
  issuance_consent_hash := ZERO32;
  status_lists := [];
  pending_status_references := [];
  log := TxnLog.new;
  audit_log_available := true;
  pay_summary := None;
  pay_consent_hash := ZERO32;
  catalogue := default_catalogue;
  qes := Qes.Idle;
  qes_seen_nonces := [];
  qes_consent_hash := ZERO32;
  w2w := W2w.Idle;
  w2w_credential := None;
  proximity := proximity_idle;
  dcapi := dcapi_default;
|}.

(** ** Flows *)

Definition clear_pending_operations (self : Core) (flow : ActiveFlow) : Core :=
  {| self with pending_operations :=
       List.filter (fun '(_, pending) => negb (bool_decide (op_flow pending = flow)))
         (pending_operations self) |}.

(** [if self.active == flow { self.active = ActiveFlow::None }]. *)
Definition deactivate (self : Core) (flow : ActiveFlow) : Core :=
  if bool_decide (active self = flow) then {| self with active := NoFlow |} else self.

Definition reset_flow (self : Core) (flow : ActiveFlow) : Core :=
  let self := clear_pending_operations self flow in
  let self :=
    match flow with
    | Presentation =>
        {| self with vp := Oid4vp.Idle; session := None; pending_rp_provenance := None;
                     pending_status_references := [] |}
    | Payment =>
        {| self with payment := Payment.Idle; pay_pending := None; pay_summary := None;
                     pay_consent_hash := ZERO32 |}
    | Issuance =>
        {| self with issuance := Oid4vci.Idle; issuer_trusted_current := false;
                     issuer_id_current := ""%string; issuer_cert_chain_current := [];
                     issuer_candidates_current := []; pending_verified_credential := None;
                     issuance_consent_hash := ZERO32 |}
    | QesFlow => {| self with qes := Qes.Idle; qes_consent_hash := ZERO32 |}
    | WalletTransfer => {| self with w2w := W2w.Idle |}
    | ProximityFlowKind => {| self with proximity := proximity_idle |}
    | DcApi => {| self with dcapi := dcapi_default |}
    | NoFlow => self
    end in
  deactivate self flow.

Definition begin_flow (self : Core) (flow : ActiveFlow) : Core :=
  let self := if bool_decide (active self = NoFlow) then self else reset_flow self (active self) in
  let self := reset_flow self flow in
  {| self with active := flow |}.

Definition finish_flow (self : Core) (flow : ActiveFlow) : Core :=
  let self := clear_pending_operations self flow in
  let self :=
    match flow with
    | Presentation =>
        {| self with session := None; pending_rp_provenance := None;
                     pending_status_references := [] |}
    | Payment =>
        {| self with pay_pending := None; pay_summary := None; pay_consent_hash := ZERO32 |}
    | Issuance =>
        {| self with issuer_trusted_current := false; issuer_id_current := ""%string;
                     issuer_cert_chain_current := []; issuer_candidates_current := [];
                     pending_verified_credential := None; issuance_consent_hash := ZERO32 |}
    | QesFlow => {| self with qes_consent_hash := ZERO32 |}
    | ProximityFlowKind =>
        {| self with proximity :=
             {| (proximity self) with device_key := None; cipher := None; pending_request := None;
                prox_presentation := None; last_signature := None |} |}
    | DcApi => {| self with dcapi := dcapi_default |}
    | WalletTransfer | NoFlow => self
    end in
  deactivate self flow.
