(* ===== verification/Ingestion.v ===== *)
(** * Credential ingestion (crates/wallet-core/src/lib.rs)

    How a received credential is authenticated against the trust list, the
    catalogue and the device key, stored with its evidence, and authenticated
    again before it is presented. *)

From S2P Require Import SdJwt Cbor Cose Mdoc Oid4vci Trust.
From S2P Require Import Prelude Utf8 BTree Boundary Serde SdJwtProcess Catalogue X509 X509Path.
From S2P Require Import PidProfile Holdings CredentialChecks WalletCore.

Open Scope Z_scope.
Open Scope rust_scope.

(** The [experimental-pq] feature of the build, and the ML-DSA-65 verifier of
    crypto_backend that it enables. *)
Class MlDsa : Type := {
  experimental_pq : bool;
  verify_ml_dsa_65 : bytes -> bytes -> bytes -> bool;
}.

Definition HYBRID_PQ_MDOC_SIGNATURE_LABEL : Z := -65537.
Definition HYBRID_PQ_MDOC_PUBLIC_KEY_LABEL : Z := -65538.
Definition HYBRID_PQ_REQUIRED_MDOC_DOCTYPES : list string := ["eu.europa.ec.eudi.pid.1"%string].

Definition parse_format (s : string) : option Oid4vci.CredentialFormat :=
  if bool_decide (s = "mso_mdoc"%string) then Some Oid4vci.MsoMdoc
  else if bool_decide (s = "dc+sd-jwt"%string) || bool_decide (s = "vc+sd-jwt"%string)
  then Some Oid4vci.DcSdJwt
  else None.

(** [str::trim]: the characters in white space at either end are dropped. *)
Fixpoint trim_front (fuel : nat) (b : bytes) : bytes :=
  match fuel with
  | O => b
  | S fuel =>
      match next_char b with
      | Some (c, rest) => if is_whitespace c then trim_front fuel rest else b
      | None => b
      end
  end.

(** The length of the text up to its last character that is no white space. *)
Fixpoint trimmed_length (fuel : nat) (at_ : nat) (kept : nat) (b : bytes) : nat :=
  match fuel with
  | O => kept
  | S fuel =>
      match next_char b with
      | Some (c, rest) =>
          let at_ := (at_ + (length b - length rest))%nat in
          trimmed_length fuel at_ (if is_whitespace c then kept else at_) rest
      | None => kept
      end
  end.

Definition trim (s : bytes) : bytes :=
  let s := trim_front (length s) s in firstn (trimmed_length (length s) 0 0 s) s.

(** ** Issuers *)

Definition is_internally_consistent (self : CredentialIssuerEvidence) : bool :=
  negb (sis_empty (evidence_identity self)) && negb (is_empty (evidence_public_key_raw self))
  && negb (is_empty (evidence_certificate_path self))
  && (evidence_not_before self <=? evidence_not_after self).

(** The fields that every candidate shares with the first. *)
Definition agrees_with (first issuer : CredentialIssuerEvidence) : bool :=
  is_internally_consistent issuer
  && bool_decide (evidence_identity issuer = evidence_identity first)
  && bool_decide (evidence_public_key_raw issuer = evidence_public_key_raw first)
  && bool_decide (evidence_certificate_path issuer = evidence_certificate_path first)
  && (evidence_not_before issuer =? evidence_not_before first)
  && (evidence_not_after issuer =? evidence_not_after first).

Definition issuer_candidates_are_consistent (issuers : list CredentialIssuerEvidence) : bool :=
  match issuers with
  | [] => false
  | first :: _ => is_internally_consistent first && forallb (agrees_with first) issuers
  end.

Definition trust_service (service : IssuerTrustDomain) : Trust.ServiceType :=
  match service with Pid => Trust.PidProvider | Attestation => Trust.AttestationProvider end.

Definition issuer_for_type (self : Core) (issuers : list CredentialIssuerEvidence)
    (credential_type : string) : result CredentialIssuerEvidence CredentialIngestionError :=
  let? required := ok_or (issuer_trust_domain (catalogue self) credential_type) UnknownCredentialType in
  ok_or (List.find (fun issuer => bool_decide (service issuer = required)) issuers)
    IssuerServiceMismatch.

Section ingestion.
Context {SJ : SerdeJson} `{B64 : Base64} `{D : Digest} `{V : Verifier} `{X : X509Der}
  `{CV : CertVerifier} `{SB : StdBase64} `{PQ : MlDsa}.

(** [TrustStore::parsed_anchors_at]. *)
Definition parsed_anchors_at (self : Trust.TrustStore) (service : Trust.ServiceType) (now : Z)
  : list ParsedCert :=
  omap (fun der => ok (parse_cert der)) (Trust.granted_anchors_at self service now).

(** The evidence for one service, as the closure of [filter_map] makes it. *)
Definition issuer_evidence (self : Core) (chain : list bytes) (service : IssuerTrustDomain)
  : option CredentialIssuerEvidence :=
  let anchors := parsed_anchors_at (trust_store self) (trust_service service) (now_epoch self) in
  if is_empty anchors then None
  else
    match check_credential_issuer chain anchors (now_epoch self) with
    | Ok validated =>
        Some {| evidence_identity := identity validated; service := service;
                evidence_public_key_raw := issuer_public_key_raw validated;
                evidence_certificate_path := chain;
                evidence_not_before := issuer_not_before validated;
                evidence_not_after := issuer_not_after validated |}
    | Err _ => None
    end.

Definition resolve_credential_issuers (self : Core) (chain : list bytes)
  : list CredentialIssuerEvidence :=
  omap (issuer_evidence self chain) [Pid; Attestation].

(** ** SD-JWT VC *)

Definition processing_error (error : SdJwt.SdJwtError) : CredentialIngestionError :=
  match error with SdJwt.Crypto _ => SignatureInvalid | _ => MalformedCredential end.

Definition type_profile (vct : string) (claims : BTreeMap string Value) (now : Z)
  : result unit CredentialIngestionError :=
  if bool_decide (vct = PID_SD_JWT_VCT)
  then map_err (validate_sd_jwt_pid_portrait claims) (fun _ => PidPortraitInvalid)
  else if bool_decide (vct = TLSNOTARY_EVIDENCE_VCT)
  then validate_tlsnotary_evidence_claim claims now
  else Ok tt.

(** [issuers[0]] of no issuers panics; the caller has checked that there are. *)
Definition verify_sdjwt_credential (self : Core) (bytes : bytes)
    (issuers : list CredentialIssuerEvidence) (issuer_id_assertion : string)
  : result (VerifiedCredential * CredentialIssuerEvidence) CredentialIngestionError :=
  let? compact := ok_or (from_utf8 bytes) MalformedCredential in
  let? sd := map_err (SdJwt.parse compact) (fun _ => MalformedCredential) in
  let? alg := map_err (issuer_algorithm sd) (fun _ => MalformedCredential) in
  if negb (bool_decide (alg = Es256)) then Err UnsupportedAlgorithm
  else
    let? first := ok_or (List.hd_error issuers) UntrustedIssuer in
    let? processed :=
      map_err (verify_and_process sd (evidence_public_key_raw first) alg) processing_error in
    let? payload := map_err (issuer_payload sd) (fun _ => MalformedCredential) in
    let? _ := validate_sdjwt_issuer_profile sd payload processed in
    let claims := claims processed in
    let? issuer := ok_or (m_get_str claims "iss") MalformedCredential in
    let? vct := ok_or (m_get_str claims "vct") UnknownCredentialType in
    if sis_empty vct then Err UnknownCredentialType
    else
      let? credential_type := ok_or (get (catalogue self) vct) UnknownCredentialType in
      if negb (bool_decide (format credential_type = "dc+sd-jwt"%string))
      then Err CredentialTypeFormatMismatch
      else
        let? _ := type_profile vct claims (now_epoch self) in
        let? authenticated_issuer := issuer_for_type self issuers vct in
        if sis_empty issuer || negb (bool_decide (issuer = evidence_identity authenticated_issuer))
           || negb (bool_decide (issuer_id_assertion = evidence_identity authenticated_issuer))
        then Err IssuerMismatch
        else if negb (issuer_allowed (catalogue self) vct (evidence_identity authenticated_issuer))
        then Err IssuerNotAllowedForType
        else if negb (satisfies_mandatory (catalogue self) vct (map fst claims))
        then Err MandatoryClaimsMissing
        else
          let? validity := json_validity claims (now_epoch self) in
          if negb (bt_contains claims "cnf") then Err DeviceBindingMissing
          else if negb (sdjwt_device_binding_matches claims (device_public_key self))
          then Err DeviceBindingMismatch
          else
            let? status := status_reference_from_claims claims in
            let? holding := held_credential_from_verified_sd sd processed status in
            Ok (VerifiedSdJwt holding {| processed := processed |} validity, authenticated_issuer).

(** ** mdoc *)

Definition decode_mdoc_credential (bytes : bytes)
  : result Mdoc.IssuerSigned CredentialIngestionError :=
  let? compact := ok_or (from_utf8 bytes) MalformedCredential in
  let? cbor := ok_or (decode_vec (string_of_list_byte (trim (as_bytes compact)))) MalformedCredential in
  map_err (Mdoc.issuer_signed_parse cbor) (fun _ => MalformedCredential).

Definition embedded_mdoc_issuer_chain (issuer_signed : Mdoc.IssuerSigned)
  : result (list bytes) CredentialIngestionError :=
  let? chain := map_err (Cose.x5chain (Mdoc.issuer_auth issuer_signed)) (fun _ => MalformedCredential) in
  let? chain := ok_or chain UntrustedIssuer in
  Ok (Cose.certificates chain).

Definition verify_hybrid_pq_issuer_auth (issued : Mdoc.IssuerSigned) (required : bool)
  : result unit CredentialIngestionError :=
  let auth := Mdoc.issuer_auth issued in
  match Cose.private_label (Cose.unprotected auth) HYBRID_PQ_MDOC_SIGNATURE_LABEL,
        Cose.private_label (Cose.unprotected auth) HYBRID_PQ_MDOC_PUBLIC_KEY_LABEL with
  | None, None => if required then Err SignatureInvalid else Ok tt
  | Some signature, Some public_key =>
      let? payload := ok_or (Cose.payload auth) MalformedCredential in
      let signed := Cose.sig_structure (Cose.protected auth) [] payload in
      if verify_ml_dsa_65 public_key signed signature then Ok tt else Err SignatureInvalid
  | _, _ => Err MalformedCredential
  end.

(** Every namespace and element that the credential holds. *)
Definition held_elements (issuer_signed : Mdoc.IssuerSigned) : list (string * string) :=
  flat_map (fun '(namespace, items) => map (fun item => (namespace, Mdoc.element_id item)) items)
    (Mdoc.name_spaces issuer_signed).

Definition verify_mdoc_credential (self : Core) (issuer_signed : Mdoc.IssuerSigned)
    (issuers : list CredentialIssuerEvidence) (issuer_id_assertion : string)
  : result (VerifiedCredential * CredentialIssuerEvidence) CredentialIngestionError :=
  let? first := ok_or (List.hd_error issuers) UntrustedIssuer in
  let? mso := map_err (Mdoc.verify_issuer_signed issuer_signed (evidence_public_key_raw first) Es256)
                (fun _ => SignatureInvalid) in
  let? _ :=
    if experimental_pq
    then verify_hybrid_pq_issuer_auth issuer_signed
           (bool_decide (Mdoc.doc_type mso ∈ HYBRID_PQ_REQUIRED_MDOC_DOCTYPES))
    else Ok tt in
  if negb (bool_decide (Mdoc.version mso = "1.0"%string))
     || negb (bool_decide (Mdoc.digest_algorithm mso = "SHA-256"%string))
     || sis_empty (Mdoc.doc_type mso)
  then Err MalformedCredential
  else
    let? credential_type := ok_or (get (catalogue self) (Mdoc.doc_type mso)) UnknownCredentialType in
    if negb (bool_decide (format credential_type = "mso_mdoc"%string))
    then Err CredentialTypeFormatMismatch
    else
      let? _ :=
        if bool_decide (Mdoc.doc_type mso = PID_MDOC_DOCTYPE)
        then map_err (validate_mdoc_pid_portrait issuer_signed) (fun _ => PidPortraitInvalid)
        else Ok tt in
      let? authenticated_issuer := issuer_for_type self issuers (Mdoc.doc_type mso) in
      if negb (bool_decide (issuer_id_assertion = evidence_identity authenticated_issuer))
      then Err IssuerMismatch
      else if negb (issuer_allowed (catalogue self) (Mdoc.doc_type mso)
                      (evidence_identity authenticated_issuer))
      then Err IssuerNotAllowedForType
      else if negb (satisfies_mandatory_mdoc (catalogue self) (Mdoc.doc_type mso)
                      (held_elements issuer_signed))
      then Err MandatoryClaimsMissing
      else
        let? validity := mdoc_validity (Mdoc.validity_info mso) (now_epoch self) in
        if bool_decide (Mdoc.device_key mso = Cbor.Null) then Err DeviceBindingMissing
        else if negb (mdoc_device_binding_matches (Mdoc.device_key mso) (device_public_key self))
        then Err DeviceBindingMismatch
        else
          Ok (VerifiedMdoc {| doctype := Mdoc.doc_type mso; issuer_signed := issuer_signed |} validity,
              authenticated_issuer).

(** ** The boundary *)

Definition consistent_issuers (self : Core) (chain : list bytes)
  : result (list CredentialIssuerEvidence) CredentialIngestionError :=
  let issuers := resolve_credential_issuers self chain in
  if issuer_candidates_are_consistent issuers then Ok issuers else Err UntrustedIssuer.

Definition authenticate_format (self : Core) (format : Oid4vci.CredentialFormat) (bytes : bytes)
    (issuer_cert_chain : list Prelude.bytes) (issuer_id_assertion : string)
  : result (VerifiedCredential * CredentialIssuerEvidence) CredentialIngestionError :=
  match format with
  | Oid4vci.DcSdJwt =>
      let? issuers := consistent_issuers self issuer_cert_chain in
      verify_sdjwt_credential self bytes issuers issuer_id_assertion
  | Oid4vci.MsoMdoc =>
      let? issuer_signed := decode_mdoc_credential bytes in
      let? embedded_chain := embedded_mdoc_issuer_chain issuer_signed in
      let? issuers := consistent_issuers self embedded_chain in
      verify_mdoc_credential self issuer_signed issuers issuer_id_assertion
  end.

Definition authenticate_received_credential (self : Core) (format : Oid4vci.CredentialFormat)
    (bytes : bytes) (issuer_cert_chain : list Prelude.bytes) (issuer_id_assertion : string)
  : result AuthenticatedCredential CredentialIngestionError :=
  if now_epoch self <=? 0 then Err ClockNotSet
  else if is_empty (device_public_key self) then Err DeviceBindingMissing
  else
    let? (credential, issuer) :=
      authenticate_format self format bytes issuer_cert_chain issuer_id_assertion in
    Ok {| credential := credential;
          provenance := {| provenance_format := format; raw_credential := bytes;
                           provenance_issuer := issuer |} |}.

(** ** Storage *)

(** The first entry with this holding is overwritten; without one the new
    entry comes last. *)
Fixpoint store_sd (l : list StoredSdJwtCredential) (c : StoredSdJwtCredential)
  : list StoredSdJwtCredential :=
  match l with
  | [] => [c]
  | stored :: l =>
      if bool_decide (sd_holding stored = sd_holding c) then c :: l else stored :: store_sd l c
  end.

Fixpoint store_mdoc (l : list StoredMdocCredential) (c : StoredMdocCredential)
  : list StoredMdocCredential :=
  match l with
  | [] => [c]
  | stored :: l =>
      if bool_decide (mdoc_holding stored = mdoc_holding c) then c :: l else stored :: store_mdoc l c
  end.

Definition store_verified_credential (self : Core) (a : AuthenticatedCredential) : Core :=
  match credential a with
  | VerifiedSdJwt holding authenticated validity =>
      {| self with credentials :=
           store_sd (credentials self)
             {| sd_holding := holding; sd_authenticated := Some authenticated;
                sd_validity := validity; sd_provenance := Authenticated (provenance a) |} |}
  | VerifiedMdoc holding validity =>
      {| self with mdoc_holdings :=
           store_mdoc (mdoc_holdings self)
             {| mdoc_holding := holding; mdoc_stored_validity := validity;
                mdoc_provenance := Authenticated (provenance a) |} |}
  end.

Definition ingest_credential (self : Core) (format : string) (bytes : bytes)
    (issuer_cert_chain : list Prelude.bytes) (issuer_id : string)
  : Core * result unit CredentialIngestionError :=
  match
    (let? format := ok_or (parse_format format) UnsupportedFormat in
     authenticate_received_credential self format bytes issuer_cert_chain issuer_id)
  with
  | Ok verified =>
      ({| (store_verified_credential self verified) with last_credential_ingestion_error := None |},
       Ok tt)
  | Err e => (self, Err e)
  end.

(** The loaders of the Rust test fixtures. *)
Definition load_unverified_credential_for_testing (self : Core) (c : HeldCredential) : Core :=
  if existsb (fun stored => bool_decide (sd_holding stored = c)) (credentials self) then self
  else {| self with credentials :=
            credentials self ++
            [{| sd_holding := c; sd_authenticated := None;
                sd_validity := {| issued_at := None; v_not_before := None; expires_at := None |};
                sd_provenance := TestFixture |}] |}.

Definition load_unverified_mdoc_for_testing (self : Core) (holding : MdocHolding) : Core :=
  if existsb (fun stored => bool_decide (mdoc_holding stored = holding)) (mdoc_holdings self) then self
  else {| self with mdoc_holdings :=
            mdoc_holdings self ++
            [{| mdoc_holding := holding;
                mdoc_stored_validity := {| issued_at := None; v_not_before := None; expires_at := None |};
                mdoc_provenance := TestFixture |}] |}.

(** ** Before a presentation *)

Definition eligibility_from_ingestion_error (error : CredentialIngestionError)
  : PresentationEligibilityError :=
  match error with
  | CredentialExpired => EligibilityExpired
  | CredentialNotYetValid => EligibilityNotYetValid
  | _ => ProvenanceInvalid
  end.

(** The credential of a provenance, authenticated again in the current
    environment. *)
Definition authenticate_again (self : Core) (p : CredentialProvenance)
  : result AuthenticatedCredential CredentialIngestionError :=
  authenticate_received_credential self (provenance_format p) (raw_credential p)
    (evidence_certificate_path (provenance_issuer p)) (evidence_identity (provenance_issuer p)).

Definition same_sd (stored : StoredSdJwtCredential) (c : VerifiedCredential) : bool :=
  match c with
  | VerifiedSdJwt holding authenticated validity =>
      bool_decide (holding = sd_holding stored)
      && option_eqb authenticated_eqb (sd_authenticated stored) (Some authenticated)
      && bool_decide (validity = sd_validity stored)
  | VerifiedMdoc _ _ => false
  end.

Definition same_mdoc (stored : StoredMdocCredential) (c : VerifiedCredential) : bool :=
  match c with
  | VerifiedMdoc holding validity =>
      bool_decide (holding = mdoc_holding stored)
      && bool_decide (validity = mdoc_stored_validity stored)
  | VerifiedSdJwt _ _ _ => false
  end.

Definition sdjwt_credential_is_current (self : Core) (stored : StoredSdJwtCredential)
  : result unit PresentationEligibilityError :=
  let? _ := map_err (validate_at (sd_validity stored) (now_epoch self))
              eligibility_from_ingestion_error in
  match sd_provenance stored with
  | TestFixture => Ok tt
  | Authenticated p =>
      let? a := map_err (authenticate_again self p) eligibility_from_ingestion_error in
      if negb (bool_decide (provenance a = p)) then Err ProvenanceInvalid
      else if same_sd stored (credential a) then Ok tt else Err ProvenanceInvalid
  end.

Definition mdoc_credential_is_current (self : Core) (stored : StoredMdocCredential)
  : result unit PresentationEligibilityError :=
  let? _ := map_err (validate_at (mdoc_stored_validity stored) (now_epoch self))
              eligibility_from_ingestion_error in
  match mdoc_provenance stored with
  | TestFixture => Ok tt
  | Authenticated p =>
      let? a := map_err (authenticate_again self p) eligibility_from_ingestion_error in
      if negb (bool_decide (provenance a = p)) then Err ProvenanceInvalid
      else if same_mdoc stored (credential a) then Ok tt else Err ProvenanceInvalid
  end.

(** ** The relying party *)

Definition resolve_rp (self : Core) (chain : list bytes) : bool * bytes * list string :=
  let anchors := parsed_anchors_at (trust_store self) Trust.RelyingPartyAccessCa (now_epoch self) in
  match check_relying_party chain anchors (now_epoch self) with
  | Ok profile =>
      let key :=
        unwrap_or (let! der := List.hd_error chain in
                   let! c := ok (parse_cert der) in Some (public_key_raw c)) [] in
      (true, key, dns_sans profile)
  | Err _ => (false, [], [])
  end.

Definition presentation_trust_is_current (self : Core) (session : SessionInfo)
  : result unit PresentationEligibilityError :=
  if negb (Trust.is_valid_at (trust_store self) (now_epoch self)) then Err TrustEvidenceInvalid
  else
    let? provenance := ok_or (rp_provenance session) TrustEvidenceInvalid in
    let '(registered, public_key, _) := resolve_rp self (certificate_chain provenance) in
    if negb registered || negb (bool_decide (public_key = rp_key provenance))
    then Err TrustEvidenceInvalid
    else Ok tt.

Definition source_is_current (self : Core) (source : PresentationCredentialReference)
  : result unit PresentationEligibilityError :=
  match source with
  | RefSdJwt holding authenticated =>
      let? stored :=
        ok_or (List.find (fun stored => bool_decide (sd_holding stored = holding)
                                        && option_eqb authenticated_eqb (sd_authenticated stored)
                                             authenticated) (credentials self)) ProvenanceInvalid in
      sdjwt_credential_is_current self stored
  | RefMdoc holding =>
      let? stored :=
        ok_or (List.find (fun stored => bool_decide (mdoc_holding stored = holding))
                 (mdoc_holdings self)) ProvenanceInvalid in
      mdoc_credential_is_current self stored
  end.

Fixpoint sources_are_current (self : Core) (l : list PresentationCredentialReference)
  : result unit PresentationEligibilityError :=
  match l with
  | [] => Ok tt
  | source :: l => let? _ := source_is_current self source in sources_are_current self l
  end.

Definition presentation_evidence_is_current (self : Core)
  : result unit PresentationEligibilityError :=
  let? session := ok_or (session self) TrustEvidenceInvalid in
  let? _ := presentation_trust_is_current self session in
  if is_empty (selected_sources session)
     || negb (len (selected_sources session) =? len (selected_credentials session))
  then Err NoEligibleCredential
  else sources_are_current self (selected_sources session).

Definition resolve_status_provider_key (self : Core) (chain : list bytes) : option bytes :=
  let anchors := parsed_anchors_at (trust_store self) Trust.StatusProvider (now_epoch self) in
  if is_empty anchors then None
  else
    let! path := ok (validate_path chain anchors (now_epoch self)) in
    let! leaf := List.hd_error path in
    if is_ca leaf then None else Some (public_key_raw leaf).
End ingestion.
