(* ===== verification/IngestionSpec.v ===== *)
(** * What ingestion guarantees

    The certificate bundle of an issuer names one end entity, whatever service
    it is validated for; acceptance of a credential, condition by condition;
    and the storage of accepted credentials. *)

From S2P Require Import SdJwt Cbor Cose Mdoc Oid4vci Oid4vp Trust X509Search X509Profiles.
From S2P Require Import Prelude Utf8 BTree Boundary Serde SdJwtProcess Catalogue X509 X509Path.
From S2P Require Import X509Valid PidProfile Holdings CredentialChecks WalletCore Ingestion.

Open Scope Z_scope.
Open Scope rust_scope.

(** ** The end entity of a bundle *)

Section leaf.
Context `{X : X509Der} `{CV : CertVerifier}.

(** The one certificate of a bundle that issued no other. *)
Definition chain_leaf (chain_der : list bytes) : option ParsedCert :=
  match parse_certs chain_der with
  | Ok cs =>
      let supplied := sort_with cert_cmp cs in
      match leaves supplied with [i] => supplied !! i | _ => None end
  | Err _ => None
  end.

Lemma build_head supplied anchors leaf b certs :
  X509Search.certification_path supplied anchors leaf b -> build supplied anchors b = Some certs ->
  exists c cs, supplied !! leaf = Some c /\ certs = c :: cs.
Proof.
  intros (ext & _ & _ & Hb & _) H. unfold build in H. rewrite Hb in H.
  destruct (mapM (fun i => supplied !! i) (leaf :: ext)) as [l|] eqn:E; [|done].
  apply mapM_Some in E. apply Forall2_cons_inv_l in E as (c & cs & Hc & _ & ->).
  destruct (anchors !! anchor_index b) as [a|]; [|done]. injection H as <-.
  by exists c, (cs ++ [a]).
Qed.

(** A valid path starts at the bundle's end entity, which is within its
    dates. *)
Lemma validate_path_leaf chain anchors now path :
  validate_path chain anchors now = Ok path ->
  exists c ps issuers, chain_leaf chain = Some c /\ path = {| c with policies := ps |} :: issuers
    /\ not_before c <= now <= not_after c.
Proof.
  intros (supplied & Hb & Hs)%validate_path_bundle.
  apply search_paths_iff in Hs as (leaf & b & certs & ps & Hl & _ & Hp & Hc & Hv & -> & _).
  destruct (chain_parsed _ _ _ Hb) as (cs & Hcs%parse_certs_iff & ->).
  destruct (build_head _ _ _ _ _ Hp Hc) as (c & issuers & Hi & ->).
  exists c, (sorted_policies ps), issuers. split_and!.
  - unfold chain_leaf. rewrite Hcs. apply leaves_singleton in Hl. by rewrite Hl.
  - done.
  - destruct Hv as (l & rest & [= <- <-] & Hf & _). apply Forall_cons_iff in Hf as [Hf _].
    destruct Hf. lia.
  - destruct Hv as (l & rest & [= <- <-] & Hf & _). apply Forall_cons_iff in Hf as [Hf _].
    destruct Hf. lia.
Qed.

(** What an accepted issuer is: the end entity and its only URI. *)
Lemma issuer_is_leaf chain anchors now v :
  check_credential_issuer chain anchors now = Ok v ->
  exists c, chain_leaf chain = Some c /\ uri_sans c = [identity v]
    /\ issuer_public_key_raw v = public_key_raw c
    /\ issuer_not_before v = not_before c /\ issuer_not_after v = not_after c
    /\ issuer_not_before v <= now <= issuer_not_after v /\ chain <> []
    /\ valid_https_issuer_identity (identity v) = true.
Proof.
  unfold check_credential_issuer. destruct (validate_path chain anchors now) as [path|] eqn:E; [|done].
  assert (chain <> []) as Hne by (intros ->; by cbn in E).
  destruct (validate_path_leaf _ _ _ _ E) as (c & ps & issuers & Hc & -> & Hd).
  cbn [List.hd_error ok_or is_ca uri_sans public_key_raw not_before not_after].
  destruct (is_ca c); [done|].
  destruct (uri_sans c) as [|u [|? ?]] eqn:Eu; try done.
  destruct (valid_https_issuer_identity u) eqn:Eh; [|done]. intros [= <-].
  exists c. cbn [identity issuer_public_key_raw issuer_not_before issuer_not_after].
  split_and!; try done; lia.
Qed.

(** The services cannot disagree about who the issuer is. *)
Lemma issuer_unique chain a1 a2 now v1 v2 :
  check_credential_issuer chain a1 now = Ok v1 -> check_credential_issuer chain a2 now = Ok v2 ->
  v1 = v2.
Proof.
  intros (c & Hc & Hu & Hk & Hb & Ha & _)%issuer_is_leaf.
  intros (c' & Hc' & Hu' & Hk' & Hb' & Ha' & _)%issuer_is_leaf.
  rewrite Hc in Hc'. injection Hc' as <-. rewrite Hu in Hu'. injection Hu' as Hi.
  destruct v1, v2. cbn in *. congruence.
Qed.

Lemma https_identity_nonempty u : valid_https_issuer_identity u = true -> sis_empty u = false.
Proof. by destruct u. Qed.
End leaf.

Section issuers.
Context {SJ : SerdeJson} `{B64 : Base64} `{D : Digest} `{V : Verifier} `{X : X509Der}
  `{CV : CertVerifier} `{SB : StdBase64} `{PQ : MlDsa}.

(** The anchors that may certify the issuers of a service. *)
Definition issuer_anchors (self : Core) (s : IssuerTrustDomain) : list ParsedCert :=
  parsed_anchors_at (trust_store self) (trust_service s) (now_epoch self).

(** An issuer that the trust list admits to a service, with a usable key. *)
Definition admitted (self : Core) (chain : list bytes) (s : IssuerTrustDomain)
    (v : ValidatedCredentialIssuer) : Prop :=
  check_credential_issuer chain (issuer_anchors self s) (now_epoch self) = Ok v
  /\ issuer_public_key_raw v <> [].

Definition evidence_of (chain : list bytes) (s : IssuerTrustDomain) (v : ValidatedCredentialIssuer)
  : CredentialIssuerEvidence :=
  {| evidence_identity := identity v; service := s;
     evidence_public_key_raw := issuer_public_key_raw v; evidence_certificate_path := chain;
     evidence_not_before := issuer_not_before v; evidence_not_after := issuer_not_after v |}.

Lemma no_anchors_no_path chain now : check_credential_issuer chain [] now = Err (PathInvalid "empty chain")
  \/ exists e, check_credential_issuer chain [] now = Err e.
Proof.
  right. unfold check_credential_issuer, validate_path. destruct (is_empty chain); [by eexists|].
  destruct (_ || _); by eexists.
Qed.

Lemma issuer_evidence_iff self chain s e :
  issuer_evidence self chain s = Some e <->
  exists v, check_credential_issuer chain (issuer_anchors self s) (now_epoch self) = Ok v
    /\ e = evidence_of chain s v.
Proof.
  unfold issuer_evidence. fold (issuer_anchors self s). destruct (is_empty (issuer_anchors self s)) eqn:Ea.
  - destruct (issuer_anchors self s); [|done]. split; [done|]. intros (v & Hv & _).
    destruct (no_anchors_no_path chain (now_epoch self)) as [H|[e' H]]; congruence.
  - destruct (check_credential_issuer _ _ _) as [v|]; split; try done.
    + intros [= <-]. by exists v.
    + by intros (w & [= <-] & ->).
    + by intros (w & [=] & _).
Qed.

Lemma evidence_consistent self chain s v :
  check_credential_issuer chain (issuer_anchors self s) (now_epoch self) = Ok v ->
  is_internally_consistent (evidence_of chain s v) = negb (is_empty (issuer_public_key_raw v)).
Proof.
  intros H. destruct (issuer_is_leaf _ _ _ _ H) as (c & _ & _ & _ & _ & _ & Hd & Hne & Hi).
  unfold is_internally_consistent, evidence_of. cbn.
  rewrite (https_identity_nonempty _ Hi). destruct chain; [done|].
  replace (_ <=? _) with true by (symmetry; apply Z.leb_le; lia). cbn. by rewrite !andb_true_r.
Qed.

(** The consistency check refuses an issuer without a key and nothing else:
    the candidates come from one bundle. *)
Lemma consistent_issuers_iff self chain l :
  consistent_issuers self chain = Ok l <->
  l = resolve_credential_issuers self chain /\
  exists s v, admitted self chain s v.
Proof.
  unfold consistent_issuers. set (issuers := resolve_credential_issuers self chain).
  assert (Hin : forall e, In e issuers -> exists s v, check_credential_issuer chain (issuer_anchors self s) (now_epoch self) = Ok v
    /\ e = evidence_of chain s v).
  { intros e He. apply list_elem_of_In, list_elem_of_omap in He as (s & _ & Hs%issuer_evidence_iff).
    by exists s. }
  destruct (issuer_candidates_are_consistent issuers) eqn:E.
  - split; [|by intros [-> _]]. intros [= <-]. split; [done|].
    unfold issuer_candidates_are_consistent in E. destruct issuers as [|e r]; [done|].
    destruct (Hin e (or_introl eq_refl)) as (s & v & Hv & ->). apply andb_true_iff in E as [E _].
    rewrite (evidence_consistent _ _ _ _ Hv) in E. exists s, v. split; [done|].
    intros F. by rewrite F in E.
  - split; [done|]. intros (-> & s & v & Hv & Hk). exfalso.
    assert (Hs : In (evidence_of chain s v) issuers).
    { apply list_elem_of_In, list_elem_of_omap. exists s. split; [|apply issuer_evidence_iff; eauto].
      destruct s; rewrite !elem_of_cons; auto. }
    unfold issuer_candidates_are_consistent in E. destruct issuers as [|e r]; [done|].
    destruct (Hin e (or_introl eq_refl)) as (s0 & v0 & Hv0 & He).
    assert (v0 = v) as -> by (by eapply issuer_unique). subst e.
    rewrite (evidence_consistent _ _ _ _ Hv0) in E.
    assert (is_empty (issuer_public_key_raw v) = false) as Hf by (by destruct (issuer_public_key_raw v)).
    rewrite Hf in E. cbn [negb andb] in E.
    assert (forallb (agrees_with (evidence_of chain s0 v)) (evidence_of chain s0 v :: r) = true); [|congruence].
    apply forallb_forall. intros e He. destruct (Hin e He) as (s' & v' & Hv' & ->).
    assert (v' = v) as -> by (by eapply issuer_unique). unfold agrees_with.
    rewrite (evidence_consistent _ _ _ _ Hv'), Hf. cbn.
    by rewrite !bool_decide_true, !Z.eqb_refl.
Qed.
End issuers.

(** ** Acceptance *)

Section accepted.
Context {SJ : SerdeJson} `{B64 : Base64} `{D : Digest} `{V : Verifier} `{X : X509Der}
  `{CV : CertVerifier} `{SB : StdBase64} `{PQ : MlDsa}.

Lemma get_id c id t : get c id = Some t -> type_id t = id.
Proof. intros [_ H]%find_some. by apply has_id_true. Qed.

(** The evidence for a type is the issuer that the service of the type
    admits. *)
Lemma issuer_for_type_iff self chain id e :
  issuer_for_type self (resolve_credential_issuers self chain) id = Ok e <->
  exists t v, get (catalogue self) id = Some t
    /\ check_credential_issuer chain (issuer_anchors self (type_trust_domain t)) (now_epoch self) = Ok v
    /\ e = evidence_of chain (type_trust_domain t) v.
Proof.
  unfold issuer_for_type, issuer_trust_domain.
  destruct (get (catalogue self) id) as [t|]; [|by split; [|intros (? & ? & ? & _)]].
  cbn [option_map ok_or]. rewrite ok_or_Ok.
  assert (H : List.find (fun i => bool_decide (service i = type_trust_domain t))
                (resolve_credential_issuers self chain) = issuer_evidence self chain (type_trust_domain t)).
  { unfold resolve_credential_issuers.
    assert (Hs : forall s e', issuer_evidence self chain s = Some e' -> service e' = s)
      by (intros s e' (v & _ & ->)%issuer_evidence_iff; done).
    destruct (type_trust_domain t); cbn [omap list_omap];
      destruct (issuer_evidence self chain Pid) as [p|] eqn:Ep,
        (issuer_evidence self chain Attestation) as [a|] eqn:Ea; cbn; try apply Hs in Ep;
      try apply Hs in Ea; by rewrite ?Ep, ?Ea. }
  rewrite H, issuer_evidence_iff. split.
  - intros (v & Hv & ->). by exists t, v.
  - intros (t' & v & [= <-] & Hv & ->). by exists v.
Qed.

(** The key of the first candidate is the key of every one. *)
Lemma first_issuer_key self chain l :
  consistent_issuers self chain = Ok l ->
  exists first, List.hd_error l = Some first /\
    forall s v, check_credential_issuer chain (issuer_anchors self s) (now_epoch self) = Ok v ->
      evidence_public_key_raw first = issuer_public_key_raw v /\ issuer_public_key_raw v <> [].
Proof.
  intros (-> & s & v & Hv & Hk)%consistent_issuers_iff.
  destruct (resolve_credential_issuers self chain) as [|e r] eqn:E.
  - exfalso. assert (H : evidence_of chain s v ∈ resolve_credential_issuers self chain).
    { apply list_elem_of_omap. exists s. split; [destruct s; rewrite !elem_of_cons; auto|].
      apply issuer_evidence_iff. by exists v. }
    rewrite E in H. by apply elem_of_nil in H.
  - exists e. split; [done|]. assert (H : e ∈ resolve_credential_issuers self chain)
      by (rewrite E; apply elem_of_cons; by left).
    apply list_elem_of_omap in H as (s0 & _ & (v0 & H0 & ->)%issuer_evidence_iff).
    intros s1 v1 H1. assert (v0 = v1) as -> by (by eapply issuer_unique).
    assert (v1 = v) as -> by (by eapply issuer_unique). done.
Qed.

(** What an accepted SD-JWT VC is: issued by the holder of a certificate that
    the service of its type admits and that the type allows, signed with the
    key of that certificate, complete, in time and bound to the device. *)
Record sd_accepted (self : Core) (bytes : bytes) (chain : list Prelude.bytes) (id : string)
    (p : ProcessedSdJwt) (t : AttestationType) (v : ValidatedCredentialIssuer)
    (holding : HeldCredential) (validity : CredentialValidity) : Prop := {
  sd_document : exists compact sd status payload,
    from_utf8 bytes = Some compact /\ SdJwt.parse compact = Ok sd
    /\ issuer_algorithm sd = Ok Es256
    /\ verify_and_process sd (issuer_public_key_raw v) Es256 = Ok p
    /\ issuer_payload sd = Ok payload /\ validate_sdjwt_issuer_profile sd payload p = Ok tt
    /\ status_reference_from_claims (claims p) = Ok status
    /\ held_credential_from_verified_sd sd p status = Ok holding;
  sd_issuer : admitted self chain (type_trust_domain t) v;
  sd_issuer_named : m_get_str (claims p) "iss" = Some id /\ identity v = id /\ id <> ""%string;
  sd_type : m_get_str (claims p) "vct" = Some (type_id t) /\ type_id t <> ""%string;
  sd_type_known : get (catalogue self) (type_id t) = Some t /\ format t = "dc+sd-jwt"%string;
  sd_issuer_allowed : issuer_allowed (catalogue self) (type_id t) id = true;
  sd_complete : satisfies_mandatory (catalogue self) (type_id t) (map fst (claims p)) = true;
  sd_profile : type_profile (type_id t) (claims p) (now_epoch self) = Ok tt;
  sd_in_time : json_validity (claims p) (now_epoch self) = Ok validity;
  sd_bound : sdjwt_device_binding_matches (claims p) (device_public_key self) = true;
}.

Lemma sis_empty_iff s : sis_empty s = true <-> s = ""%string.
Proof. by destruct s. Qed.

Lemma sis_empty_false_iff s : sis_empty s = false <-> s <> ""%string.
Proof. by destruct s. Qed.

Lemma binding_has_cnf claims key :
  sdjwt_device_binding_matches claims key = true -> bt_contains claims "cnf" = true.
Proof.
  intros (cnf & _ & _ & _ & _ & _ & _ & H & _)%sdjwt_binding_iff. unfold bt_contains. by rewrite H.
Qed.

Lemma verify_sdjwt_iff self bytes chain l id c e :
  consistent_issuers self chain = Ok l ->
  verify_sdjwt_credential self bytes l id = Ok (c, e) <->
  exists p t v holding validity, sd_accepted self bytes chain id p t v holding validity
    /\ c = VerifiedSdJwt holding {| processed := p |} validity
    /\ e = evidence_of chain (type_trust_domain t) v.
Proof.
  intros Hl. destruct (first_issuer_key _ _ _ Hl) as (first & Hf & Hkey).
  apply consistent_issuers_iff in Hl as (-> & _). unfold verify_sdjwt_credential. split.
  - intros H. ok_steps H. injection H as <- <-.
    match goal with H : issuer_for_type _ _ _ = Ok ?x |- _ =>
      apply issuer_for_type_iff in H as (t & v & Ht & Hv & ->) end.
    destruct (Hkey _ _ Hv) as [Hk Hne]. cbn [evidence_identity evidence_of] in *.
    pose proof (get_id _ _ _ Ht) as Hid. ok_norm. simplify_eq.
    eexists _, _, _, _, _. split; [|by split].
    rewrite Hk in *. constructor; try done.
    + eexists _, _, _, _. by split_and!.
    + split_and!; try done. by apply sis_empty_false_iff.
    + split; [done|]. by apply sis_empty_false_iff.
  - intros (p & t & v & holding & validity & [Hdoc Hi Hn Hty Hk Hal Hc Hp Ht Hb] & -> & ->).
    destruct Hdoc as (compact & sd & status & payload & E0 & E1 & E2 & E3 & E4 & E5 & E6 & E7).
    destruct Hi as [Hv Hne], Hn as (Hiss & <- & Hid), Hty as [Hvct Hty], Hk as [Hk Hfm].
    destruct (Hkey _ _ Hv) as [Hkf _]. rewrite <- Hkf in E3.
    assert (issuer_for_type self (resolve_credential_issuers self chain) (type_id t)
            = Ok (evidence_of chain (type_trust_domain t) v)) as Hft
      by (apply issuer_for_type_iff; by exists t, v).
    rewrite E0. cbn [ok_or]. rewrite E1. cbn [map_err]. rewrite E2. cbn [map_err].
    rewrite Hf. cbn [ok_or negb]. rewrite bool_decide_true by done. cbn [negb].
    rewrite E3. cbn [map_err]. rewrite E4. cbn [map_err]. rewrite E5, Hiss, Hvct.
    cbn [ok_or].
    apply sis_empty_false_iff in Hty, Hid. rewrite Hty, Hk. cbn [ok_or].
    rewrite Hfm, bool_decide_true by done. cbn [negb]. rewrite Hp, Hft.
    cbn [evidence_identity evidence_of]. rewrite Hid, bool_decide_true by done. cbn [negb orb].
    rewrite Hal, Hc, Ht. cbn [negb]. rewrite (binding_has_cnf _ _ Hb), Hb. cbn [negb].
    by rewrite E6, E7.
Qed.
(** What an accepted mdoc is: the same, with the certificates that the
    credential itself carries. *)
Record mdoc_accepted (self : Core) (issued : Mdoc.IssuerSigned) (id : string)
    (mso : Mdoc.MobileSecurityObject) (t : AttestationType) (v : ValidatedCredentialIssuer)
    (chain : list bytes) (validity : CredentialValidity) : Prop := {
  md_issuer : admitted self chain (type_trust_domain t) v;
  md_signed : Mdoc.verify_issuer_signed issued (issuer_public_key_raw v) Es256 = Ok mso;
  md_hybrid : experimental_pq = true ->
    verify_hybrid_pq_issuer_auth issued
      (bool_decide (type_id t ∈ HYBRID_PQ_REQUIRED_MDOC_DOCTYPES)) = Ok tt;
  md_version : Mdoc.version mso = "1.0"%string /\ Mdoc.digest_algorithm mso = "SHA-256"%string;
  md_type : Mdoc.doc_type mso = type_id t /\ type_id t <> ""%string;
  md_type_known : get (catalogue self) (type_id t) = Some t /\ format t = "mso_mdoc"%string;
  md_portrait : type_id t = PID_MDOC_DOCTYPE -> validate_mdoc_pid_portrait issued = Ok tt;
  md_issuer_named : identity v = id;
  md_issuer_allowed : issuer_allowed (catalogue self) (type_id t) id = true;
  md_complete : satisfies_mandatory_mdoc (catalogue self) (type_id t) (held_elements issued) = true;
  md_in_time : mdoc_validity (Mdoc.validity_info mso) (now_epoch self) = Ok validity;
  md_bound : mdoc_device_binding_matches (Mdoc.device_key mso) (device_public_key self) = true;
}.

Lemma binding_not_null device_key key :
  mdoc_device_binding_matches device_key key = true -> device_key <> Cbor.Null.
Proof. by intros (pairs & x & y & _ & _ & _ & -> & _)%mdoc_binding_iff. Qed.

Lemma verify_mdoc_iff self issued chain l id c e :
  consistent_issuers self chain = Ok l ->
  verify_mdoc_credential self issued l id = Ok (c, e) <->
  exists mso t v validity, mdoc_accepted self issued id mso t v chain validity
    /\ c = VerifiedMdoc {| doctype := type_id t; issuer_signed := issued |} validity
    /\ e = evidence_of chain (type_trust_domain t) v.
Proof.
  intros Hl. destruct (first_issuer_key _ _ _ Hl) as (first & Hf & Hkey).
  apply consistent_issuers_iff in Hl as (-> & _). unfold verify_mdoc_credential. split.
  - intros H. ok_steps H. injection H as <- <-.
    match goal with H : issuer_for_type _ _ _ = Ok ?x |- _ =>
      apply issuer_for_type_iff in H as (t & v & Ht & Hv & ->) end.
    destruct (Hkey _ _ Hv) as [Hk Hne]. cbn [evidence_identity evidence_of] in *.
    pose proof (get_id _ _ _ Ht) as Hid. ok_norm. simplify_eq.
    match goal with H : Mdoc.verify_issuer_signed _ _ _ = Ok ?x |- _ => rename x into mso end.
    rewrite <- Hid in *. eexists _, _, _, _. split; [|by split].
    rewrite Hk in *. constructor; try done.
    + by intros Hq; rewrite Hq in *.
    + split; [done|]. by apply sis_empty_false_iff.
    + intros Hp. match goal with H : context [bool_decide (_ = PID_MDOC_DOCTYPE)] |- _ =>
        rewrite bool_decide_true in H by done; by apply map_err_Ok in H end.
  - intros (mso & t & v & validity & [Hi Hs Hh Hv Ht Hk Hp <- Ha Hc Hti Hb] & -> & ->).
    destruct Hi as [Hc' Hne], Hv as [Hv1 Hv2], Ht as [Ht Hne'], Hk as [Hk Hfm].
    destruct (Hkey _ _ Hc') as [Hkf _]. rewrite <- Hkf in Hs.
    assert (issuer_for_type self (resolve_credential_issuers self chain) (type_id t)
            = Ok (evidence_of chain (type_trust_domain t) v)) as Hft
      by (apply issuer_for_type_iff; by exists t, v).
    rewrite Hf. cbn [ok_or]. rewrite Hs. cbn [map_err]. rewrite Ht, Hv1, Hv2.
    assert ((if experimental_pq then verify_hybrid_pq_issuer_auth issued
              (bool_decide (type_id t ∈ HYBRID_PQ_REQUIRED_MDOC_DOCTYPES)) else Ok tt) = Ok tt) as ->
      by (destruct experimental_pq; auto).
    rewrite !bool_decide_true by done. apply sis_empty_false_iff in Hne'. rewrite Hne', Hk.
    cbn [ok_or negb orb]. rewrite Hfm, bool_decide_true by done. cbn [negb].
    assert ((if bool_decide (type_id t = PID_MDOC_DOCTYPE) then
              map_err (validate_mdoc_pid_portrait issued) (fun _ => PidPortraitInvalid) else Ok tt)
            = Ok tt) as ->.
    { destruct (decide (type_id t = PID_MDOC_DOCTYPE)) as [Hpd|Hpd];
        [rewrite bool_decide_true by done; by rewrite (Hp Hpd)|by rewrite bool_decide_false]. }
    rewrite Hft. cbn [evidence_identity evidence_of]. rewrite bool_decide_true by done.
    rewrite Ha, Hc, Hti. cbn [negb]. rewrite bool_decide_false by by eapply binding_not_null.
    by rewrite Hb.
Qed.

(** The credential that an authentication returns. *)
Definition accepted (self : Core) (f : Oid4vci.CredentialFormat) (bytes : bytes)
    (chain : list Prelude.bytes) (id : string) (c : VerifiedCredential)
    (e : CredentialIssuerEvidence) : Prop :=
  match f with
  | Oid4vci.DcSdJwt =>
      exists p t v holding validity, sd_accepted self bytes chain id p t v holding validity
        /\ c = VerifiedSdJwt holding {| processed := p |} validity
        /\ e = evidence_of chain (type_trust_domain t) v
  | Oid4vci.MsoMdoc =>
      exists issued embedded mso t v validity,
        decode_mdoc_credential bytes = Ok issued /\ embedded_mdoc_issuer_chain issued = Ok embedded
        /\ mdoc_accepted self issued id mso t v embedded validity
        /\ c = VerifiedMdoc {| doctype := type_id t; issuer_signed := issued |} validity
        /\ e = evidence_of embedded (type_trust_domain t) v
  end.

Lemma authenticate_format_iff self f bytes chain id c e :
  authenticate_format self f bytes chain id = Ok (c, e) <-> accepted self f bytes chain id c e.
Proof.
  assert (Hc : forall ch s v, admitted self ch s v ->
    consistent_issuers self ch = Ok (resolve_credential_issuers self ch)).
  { intros ch s v H. apply consistent_issuers_iff. split; [done|]. by exists s, v. }
  destruct f; cbn [authenticate_format accepted].
  - split.
    + intros H. ok_steps H.
      match goal with H' : embedded_mdoc_issuer_chain _ = Ok ?ch, H'' : consistent_issuers _ ?ch = Ok _ |- _ =>
        apply (verify_mdoc_iff _ _ _ _ _ _ _ H'') in H as (mso & t & v & validity & H & -> & ->) end.
      by eexists _, _, mso, t, v, validity.
    + intros (issued & emb & mso & t & v & validity & -> & -> & H & H1 & H2).
      rewrite (Hc _ _ _ (md_issuer _ _ _ _ _ _ _ _ H)).
      eapply verify_mdoc_iff; [by eapply Hc, md_issuer|]. by exists mso, t, v, validity.
  - split.
    + intros H. ok_steps H.
      match goal with H'' : consistent_issuers _ ?ch = Ok _ |- _ =>
        by apply (verify_sdjwt_iff _ _ _ _ _ _ _ H'') in H end.
    + intros (p & t & v & holding & validity & H & H1 & H2).
      rewrite (Hc _ _ _ (sd_issuer _ _ _ _ _ _ _ _ _ H)).
      eapply verify_sdjwt_iff; [by eapply Hc, sd_issuer|]. by exists p, t, v, holding, validity.
Qed.

Lemma authenticate_Ok self f bytes chain id a :
  authenticate_received_credential self f bytes chain id = Ok a <->
  0 < now_epoch self /\ device_public_key self <> []
  /\ accepted self f bytes chain id (credential a) (provenance_issuer (provenance a))
  /\ provenance_format (provenance a) = f /\ raw_credential (provenance a) = bytes.
Proof.
  unfold authenticate_received_credential.
  destruct (Z.leb_spec (now_epoch self) 0); [split; [done|lia]|].
  destruct (device_public_key self) as [|b k] eqn:Ek; [by split; [|intros (_ & ? & _)]|].
  cbn [is_empty]. destruct (authenticate_format _ _ _ _ _) as [[c e]|] eqn:E.
  - apply authenticate_format_iff in E. split.
    + intros [= <-]. by split_and!.
    + intros (_ & _ & Ha & Hf & Hb). apply authenticate_format_iff in E, Ha. destruct a as [c' [f' b' e']].
      cbn in *. congruence.
  - split; [done|]. intros (_ & _ & Ha%authenticate_format_iff & _). congruence.
Qed.
End accepted.

(** ** Storage and use *)

Section stored.
Context {SJ : SerdeJson} `{B64 : Base64} `{D : Digest} `{V : Verifier} `{X : X509Der}
  `{CV : CertVerifier} `{SB : StdBase64} `{PQ : MlDsa}.

(** Authentication depends on the clock, the device key, the trust list and
    the catalogue only. *)
Record same_environment (a b : Core) : Prop := {
  same_clock : now_epoch a = now_epoch b;
  same_key : device_public_key a = device_public_key b;
  same_trust : trust_store a = trust_store b;
  same_catalogue : catalogue a = catalogue b;
}.

Lemma authenticate_environment a b f bytes chain id :
  same_environment a b ->
  authenticate_received_credential a f bytes chain id = authenticate_received_credential b f bytes chain id.
Proof.
  intros [H1 H2 H3 H4]. destruct a, b. cbn in H1, H2, H3, H4. subst. reflexivity.
Qed.

Lemma store_environment self a : same_environment (store_verified_credential self a) self.
Proof. unfold store_verified_credential. by destruct (credential a). Qed.

Lemma list_eqb_refl {A} (eqb : A -> A -> bool) l : (forall x, eqb x x = true) -> list_eqb eqb l l = true.
Proof. intros H. induction l as [|x l IH]; cbn; [done|]. by rewrite H, IH. Qed.

Lemma disclosure_eqb_refl d : disclosure_eqb d d = true.
Proof. unfold disclosure_eqb. by rewrite !bool_decide_true, json_eqb_refl. Qed.

Lemma authenticated_eqb_refl a : authenticated_eqb a a = true.
Proof.
  unfold authenticated_eqb. by rewrite json_eqb_refl, (list_eqb_refl _ _ disclosure_eqb_refl).
Qed.

Lemma store_sd_In l c : In c (store_sd l c).
Proof. induction l as [|x l IH]; cbn; [by left|]. case_bool_decide; cbn; auto. Qed.

Lemma store_mdoc_In l c : In c (store_mdoc l c).
Proof. induction l as [|x l IH]; cbn; [by left|]. case_bool_decide; cbn; auto. Qed.

(** No holding is stored twice. *)
Definition holdings_distinct (self : Core) : Prop :=
  NoDup (map sd_holding (credentials self)) /\ NoDup (map mdoc_holding (mdoc_holdings self)).

Lemma store_sd_holdings l c x :
  x ∈ map sd_holding (store_sd l c) <-> x = sd_holding c \/ x ∈ map sd_holding l.
Proof.
  induction l as [|y l IH]; cbn; [rewrite list_elem_of_singleton; split; [auto|intros [?|H]; [done|by apply elem_of_nil in H]]|].
  case_bool_decide as E; cbn; rewrite !elem_of_cons; [rewrite E; tauto|]. rewrite IH. tauto.
Qed.

Lemma store_sd_distinct l c : NoDup (map sd_holding l) -> NoDup (map sd_holding (store_sd l c)).
Proof.
  induction l as [|y l IH]; cbn; [intros _; repeat constructor; by intros ?%elem_of_nil|].
  rewrite list.NoDup_cons. intros [H1 H2]. case_bool_decide as E; cbn; rewrite list.NoDup_cons.
  - by rewrite <- E.
  - split; [|by apply IH]. rewrite store_sd_holdings. by intros [?|?].
Qed.

Lemma store_mdoc_holdings l c x :
  x ∈ map mdoc_holding (store_mdoc l c) <-> x = mdoc_holding c \/ x ∈ map mdoc_holding l.
Proof.
  induction l as [|y l IH]; cbn; [rewrite list_elem_of_singleton; split; [auto|intros [?|H]; [done|by apply elem_of_nil in H]]|].
  case_bool_decide as E; cbn; rewrite !elem_of_cons; [rewrite E; tauto|]. rewrite IH. tauto.
Qed.

Lemma store_mdoc_distinct l c : NoDup (map mdoc_holding l) -> NoDup (map mdoc_holding (store_mdoc l c)).
Proof.
  induction l as [|y l IH]; cbn; [intros _; repeat constructor; by intros ?%elem_of_nil|].
  rewrite list.NoDup_cons. intros [H1 H2]. case_bool_decide as E; cbn; rewrite list.NoDup_cons.
  - by rewrite <- E.
  - split; [|by apply IH]. rewrite store_mdoc_holdings. by intros [?|?].
Qed.

Lemma ingest_distinct self f bytes chain id :
  holdings_distinct self -> holdings_distinct (fst (ingest_credential self f bytes chain id)).
Proof.
  intros [H1 H2]. unfold ingest_credential, store_verified_credential.
  destruct (let? format := _ in _) as [a|]; [|done]. cbn [fst].
  destruct (credential a); split; cbn; try done; [by apply store_sd_distinct|by apply store_mdoc_distinct].
Qed.

(** Authenticating the stored evidence again is authenticating the same
    credential again. *)
Lemma authenticate_again_same self f bytes chain id a :
  authenticate_received_credential self f bytes chain id = Ok a ->
  authenticate_again self (provenance a) = Ok a.
Proof.
  intros H. pose proof H as Hk. apply authenticate_Ok in Hk as (H1 & H2 & Ha & Hf & Hb).
  unfold authenticate_again. rewrite Hf, Hb. destruct f; cbn [accepted] in Ha.
  - destruct Ha as (issued & emb & mso & t & v & validity & _ & _ & Hm & _ & He). rewrite He.
    cbn [evidence_of evidence_identity]. by rewrite (md_issuer_named _ _ _ _ _ _ _ _ Hm).
  - destruct Ha as (p & t & v & holding & validity & Hm & _ & He). rewrite He.
    cbn [evidence_of evidence_identity evidence_certificate_path].
    by destruct (sd_issuer_named _ _ _ _ _ _ _ _ _ Hm) as (_ & -> & _).
Qed.

Lemma accepted_in_time self f bytes chain id c e :
  accepted self f bytes chain id c e ->
  match c with
  | VerifiedSdJwt _ _ v | VerifiedMdoc _ v => in_time v (now_epoch self)
  end.
Proof.
  destruct f.
  - intros (issued & emb & mso & t & v & validity & _ & _ & Hm & -> & _).
    by eapply mdoc_validity_in_time, md_in_time.
  - intros (p & t & v & holding & validity & Hm & -> & _). by eapply json_validity_in_time, sd_in_time.
Qed.

(** What is stored is current. *)
Definition some_current (self : Core) (p : CredentialProvenance) : Prop :=
  (exists stored, In stored (credentials self) /\ sd_provenance stored = Authenticated p
     /\ sdjwt_credential_is_current self stored = Ok tt) \/
  (exists stored, In stored (mdoc_holdings self) /\ mdoc_provenance stored = Authenticated p
     /\ mdoc_credential_is_current self stored = Ok tt).

(** A stored credential whose evidence gives just what is stored, in time. *)
Lemma fresh_sd_current self a h au v :
  authenticate_again self (provenance a) = Ok a -> credential a = VerifiedSdJwt h au v ->
  in_time v (now_epoch self) ->
  sdjwt_credential_is_current self {| sd_holding := h; sd_authenticated := Some au; sd_validity := v;
    sd_provenance := Authenticated (provenance a) |} = Ok tt.
Proof.
  intros Hag Ec Hv. unfold sdjwt_credential_is_current. cbn [sd_validity sd_provenance].
  rewrite (proj2 (validate_at_iff v _)) by done. cbn [map_err]. rewrite Hag. cbn [map_err].
  rewrite bool_decide_true by done. cbn [negb]. rewrite Ec. cbn.
  by rewrite authenticated_eqb_refl, !bool_decide_true.
Qed.

Lemma fresh_mdoc_current self a h v :
  authenticate_again self (provenance a) = Ok a -> credential a = VerifiedMdoc h v ->
  in_time v (now_epoch self) ->
  mdoc_credential_is_current self {| mdoc_holding := h; mdoc_stored_validity := v;
    mdoc_provenance := Authenticated (provenance a) |} = Ok tt.
Proof.
  intros Hag Ec Hv. unfold mdoc_credential_is_current. cbn [mdoc_stored_validity mdoc_provenance].
  rewrite (proj2 (validate_at_iff v _)) by done. cbn [map_err]. rewrite Hag. cbn [map_err].
  rewrite bool_decide_true by done. cbn [negb]. rewrite Ec. cbn. by rewrite !bool_decide_true.
Qed.

Lemma again_environment a b p : same_environment a b -> authenticate_again a p = authenticate_again b p.
Proof. intros H. unfold authenticate_again. by rewrite (authenticate_environment _ _ _ _ _ _ H). Qed.

Lemma stored_current self f bytes chain id a :
  authenticate_received_credential self f bytes chain id = Ok a ->
  some_current {| (store_verified_credential self a) with last_credential_ingestion_error := None |}
    (provenance a).
Proof.
  intros H. pose proof (authenticate_again_same _ _ _ _ _ _ H) as Hag.
  apply authenticate_Ok in H as (_ & _ & Hacc & _). apply accepted_in_time in Hacc.
  set (self' := {| (store_verified_credential self a) with last_credential_ingestion_error := None |}).
  assert (same_environment self' self) as Henv by (by destruct (store_environment self a)).
  rewrite <- (again_environment _ _ _ Henv) in Hag. rewrite <- (same_clock _ _ Henv) in Hacc.
  unfold some_current. destruct (credential a) as [h au v|h v] eqn:Ec; [left|right]; eexists; split_and!;
    try (unfold self', store_verified_credential; rewrite Ec; apply store_sd_In || apply store_mdoc_In);
    [done| |done|].
  - by apply fresh_sd_current.
  - by apply fresh_mdoc_current.
Qed.

(** A credential that passes the check before a presentation: its evidence is
    accepted in the environment of that moment, and gives what is stored. *)
Definition backed (self : Core) (p : CredentialProvenance) (same : VerifiedCredential -> bool) : Prop :=
  exists c, same c = true /\
    accepted self (provenance_format p) (raw_credential p)
      (evidence_certificate_path (provenance_issuer p)) (evidence_identity (provenance_issuer p))
      c (provenance_issuer p).

Definition source_backed (self : Core) (source : PresentationCredentialReference) : Prop :=
  match source with
  | RefSdJwt holding _ =>
      exists stored, In stored (credentials self) /\ sd_holding stored = holding
        /\ in_time (sd_validity stored) (now_epoch self)
        /\ forall p, sd_provenance stored = Authenticated p -> backed self p (same_sd stored)
  | RefMdoc holding =>
      exists stored, In stored (mdoc_holdings self) /\ mdoc_holding stored = holding
        /\ in_time (mdoc_stored_validity stored) (now_epoch self)
        /\ forall p, mdoc_provenance stored = Authenticated p -> backed self p (same_mdoc stored)
  end.

Lemma again_backed self p a same :
  authenticate_again self p = Ok a -> provenance a = p -> same (credential a) = true ->
  backed self p same.
Proof.
  intros H Hp Hs. exists (credential a). split; [done|].
  apply authenticate_Ok in H as (_ & _ & H & _). by rewrite Hp in H.
Qed.

Lemma source_current_backed self source :
  source_is_current self source = Ok tt -> source_backed self source.
Proof.
  destruct source as [holding auth|holding]; cbn [source_is_current source_backed]; intros H.
  - ok_step H. ok_norm. match goal with H : find _ _ = Some ?s |- _ => rename s into stored;
      apply find_some in H as [Hin Hs] end. apply andb_true_iff in Hs as [Hh%bool_decide_eq_true _].
    exists stored. unfold sdjwt_credential_is_current in H. ok_step H. ok_norm.
    split_and!; [done|done|by apply validate_at_iff|]. intros p Hp. rewrite Hp in H.
    ok_steps H. ok_norm. by eapply again_backed.
  - ok_step H. ok_norm. match goal with H : find _ _ = Some ?s |- _ => rename s into stored;
      apply find_some in H as [Hin Hh%bool_decide_eq_true] end.
    exists stored. unfold mdoc_credential_is_current in H. ok_step H. ok_norm.
    split_and!; [done|done|by apply validate_at_iff|]. intros p Hp. rewrite Hp in H.
    ok_steps H. ok_norm. by eapply again_backed.
Qed.

Lemma sources_current_backed self l :
  sources_are_current self l = Ok tt -> Forall (source_backed self) l.
Proof.
  induction l as [|s l IH]; cbn; [constructor|]. rewrite bind_unit_Ok. intros [H1 H2].
  constructor; [by apply source_current_backed|by apply IH].
Qed.
End stored.

(** ** The guarantees *)

Section guarantees.
Context {SJ : SerdeJson} `{B64 : Base64} `{D : Digest} `{V : Verifier} `{X : X509Der}
  `{CV : CertVerifier} `{SB : StdBase64} `{PQ : MlDsa}.

(** C25: A received credential is accepted exactly when the clock is set, a
    device key is registered and the credential is [accepted]: its issuer's
    certificates lead to an anchor that the current trust list grants to the
    service of the credential's own type; the credential is signed with the key
    of that end entity, whose only URI is the issuer it names and the caller
    expects and is one that the type allows; type, format, mandatory claims and
    profile are those of the catalogue; it is in time; and it is bound to the
    device key.  What is returned is the verified document with that evidence.
    For an mdoc the certificates are those that it carries. *)
Theorem authentication_iff self f bytes chain id a :
  authenticate_received_credential self f bytes chain id = Ok a <->
  0 < now_epoch self /\ device_public_key self <> []
  /\ accepted self f bytes chain id (credential a) (provenance_issuer (provenance a))
  /\ provenance_format (provenance a) = f /\ raw_credential (provenance a) = bytes.
Proof. apply authenticate_Ok. Qed.

(** A credential that was just ingested is held with its evidence, and the
    check that precedes a presentation accepts it: authenticating the stored
    bytes with the stored certificates and issuer gives the stored holding,
    document, validity and evidence again.  A refused credential changes
    nothing. *)
Theorem ingested_is_current self f bytes chain id :
  match ingest_credential self f bytes chain id with
  | (self', Ok tt) => exists p, raw_credential p = bytes /\ some_current self' p
      /\ same_environment self' self
  | (self', Err _) => self' = self
  end.
Proof.
  unfold ingest_credential. destruct (parse_format f) as [fmt|]; [|done]. cbn [ok_or].
  destruct (authenticate_received_credential self fmt bytes chain id) as [a|] eqn:E; [|done].
  exists (provenance a). split_and!; [|by eapply stored_current|by destruct (store_environment self a)].
  by apply authenticate_Ok in E as (_ & _ & _ & _ & ?).
Qed.

(** C26: Before consent is acted upon, before each signature and before
    delivery the core demands current evidence.  When it is granted, the trust
    list is valid at that moment, the relying party's certificates are accepted
    again and give the key its request was verified with, something is selected,
    and every selected credential is held, in time and, unless a test fixture
    loaded it, accepted again in the environment of that moment with the result
    that is stored. *)
Theorem presentation_is_backed self :
  presentation_evidence_is_current self = Ok tt ->
  exists s rp names,
    session self = Some s
    /\ Trust.is_valid_at (trust_store self) (now_epoch self) = true
    /\ rp_provenance s = Some rp /\ resolve_rp self (certificate_chain rp) = (true, rp_key rp, names)
    /\ selected_sources s <> [] /\ len (selected_sources s) = len (selected_credentials s)
    /\ Forall (source_backed self) (selected_sources s).
Proof.
  unfold presentation_evidence_is_current, presentation_trust_is_current.
  destruct (session self) as [s|]; [|done]. cbn [ok_or].
  destruct (Trust.is_valid_at _ _) eqn:Ev; [|done]. cbn [negb].
  destruct (rp_provenance s) as [rp|] eqn:Er; [|done]. cbn [ok_or].
  destruct (resolve_rp self _) as [[registered key] names] eqn:Err.
  destruct registered; [|done]. cbn [negb orb].
  case_bool_decide as Ek; [|done]. cbn [negb]. subst key.
  destruct (is_empty (selected_sources s)) eqn:Es; [done|]. cbn [orb].
  destruct (Z.eqb_spec (len (selected_sources s)) (len (selected_credentials s))); [|done]. cbn [negb].
  intros H%sources_current_backed. exists s, rp, names. split_and!; try done.
  intros F. by rewrite F in Es.
Qed.
End guarantees.

(** ** A wallet that ingests and presents *)

Module Examples.
Import X509Profiles.Examples.

Definition rp_exts : list Extension := [ext OID_KEY_USAGE [Byte.x00]; ext OID_EKU []; ext OID_POLICIES []].

Definition access_ca_exts : list Extension := ca_exts ++ [ext OID_POLICIES []].

Definition der_rp : bytes := [Byte.x05].
Definition der_access_ca : bytes := [Byte.x06].

#[export] Instance wallet_der : X509Der := {| sample_der with
  certificate_from_der := (fun b =>
    match b with
    | [Byte.x05] => Some (certificate "Shop" "Access" Byte.x55 Byte.x66 rp_exts)
    | [Byte.x06] => Some (certificate "Access" "Root" Byte.x66 Byte.x44 access_ca_exts)
    | _ => @certificate_from_der sample_der b
    end);
  subject_alt_name_from_der := (fun _ => Some [UniformResourceIdentifier "https://issuer.example"]);
  extended_key_usage_from_der := (fun _ => Some [EKU_MDOC_READER_AUTH]);
  certificate_policies_from_der :=
    (fun _ => Some [{| policy_identifier := "1.2.3"; has_policy_qualifiers := false |}]);
|}.

#[export] Instance no_base64 : StdBase64 := {| std_decode_vec := fun _ => None |}.
#[export] Instance no_pq : MlDsa := {| experimental_pq := false; verify_ml_dsa_65 := fun _ _ _ => false |}.

Definition half : bytes := repeat Byte.x61 32.

Definition hex_half : string := @encode_string Samples.hex64 half.

Definition documents : list (string * Value) := [
  ("H", SdJwtProcess.Examples.obj [("alg", VString "ES256"); ("typ", VString "dc+sd-jwt")]);
  ("P", SdJwtProcess.Examples.obj [
          ("iss", VString "https://issuer.example"); ("vct", VString "urn:eudi:mdl:1");
          ("exp", VNumber (PosInt 180));
          ("cnf", SdJwtProcess.Examples.obj [("jwk", SdJwtProcess.Examples.obj [
                    ("kty", VString "EC"); ("crv", VString "P-256"); ("x", VString hex_half);
                    ("y", VString hex_half)])]);
          ("_sd", VArray [VString (SdJwtProcess.Examples.dig "D1")]);
          ("given_name", VString "A"); ("driving_privileges", VArray []);
          ("issuing_country", VString "DE")]);
  ("D1", VArray [VString "s1"; VString "family_name"; VString "B"])]%string.

#[export] Instance wallet_serde : SerdeJson := {|
  value_from_slice := (fun b => assoc (string_of_list_byte b) documents); value_to_vec := fun _ => [] |}.

Definition compact : bytes :=
  as_bytes (SdJwtProcess.Examples.jwt "H" "P" ++ "~" ++ SdJwtProcess.Examples.hex "D1" ++ "~")%string.

Definition anchor (s : Trust.ServiceType) : Trust.TrustAnchor := {|
  Trust.certificate_der := der_root; Trust.service_type := s; Trust.anchor_status := Trust.Granted |}.

Definition trusted : Trust.TrustList := {|
  Trust.sequence_number := 1; Trust.valid_from := 100; Trust.valid_until := 200;
  Trust.anchors := [anchor Trust.AttestationProvider; anchor Trust.RelyingPartyAccessCa];
  Trust.relying_parties := []; Trust.credential_issuers := [] |}.

Definition wallet : Core := {| (new "wallet" "key" (repeat Byte.x00 8)) with
  now_epoch := 150; device_public_key := point half half;
  trust_store := {| Trust.current := Some trusted |} |}.

#[local] Existing Instances Samples.hex64 Samples.trunc_digest Samples.echo_verifier.

Definition ingested : Core * result unit CredentialIngestionError :=
  ingest_credential wallet "dc+sd-jwt" compact [der_leaf; der_ca] "https://issuer.example".

(** The credential is stored; asserting another issuer, a wrong time or a trust
    list that does not grant the root to the type's service is refused. *)
Example accepts_and_refuses :
  snd ingested = Ok tt
  /\ map (fun c => bt_get (disclosures_by_claim (sd_holding c)) "family_name") (credentials (fst ingested))
     = [Some (SdJwtProcess.Examples.hex "D1")]
  /\ snd (ingest_credential wallet "dc+sd-jwt" compact [der_leaf; der_ca] "https://other.example")
     = Err IssuerMismatch
  /\ snd (ingest_credential {| wallet with now_epoch := 181 |} "dc+sd-jwt" compact [der_leaf; der_ca]
            "https://issuer.example") = Err CredentialExpired
  /\ snd (ingest_credential {| wallet with trust_store := {| Trust.current := Some {| trusted with
              Trust.anchors := [anchor Trust.PidProvider] |} |} |} "dc+sd-jwt" compact
            [der_leaf; der_ca] "https://issuer.example") = Err IssuerServiceMismatch.
Proof. split_and!; vm_compute; reflexivity. Qed.

Definition request : SessionInfo := {|
  rp_client_id := "shop"; rp_registration := None; purpose := ""; requested_claims := [];
  nonce := "n"; response_uri := ""; response_mode := ""; response_encryption_key := None; dcql := None;
  selected_credentials := [Oid4vp.SelSdJwt "" [] None];
  selected_sources := map (fun c => RefSdJwt (sd_holding c) (sd_authenticated c)) (credentials (fst ingested));
  selected_revealed_claims := [];
  rp_provenance := Some {| certificate_chain := [der_rp; der_access_ca]; rp_key := key_of Byte.x55 |};
  consent_hash := []; shared_claims := [] |}.

Definition presenting : Core := {| (fst ingested) with session := Some request |}.

(** The key that is returned for a relying party is the one of the first
    supplied certificate, the names are those of the leaf of the path, which is
    found whatever the order of the bundle. *)
Example rp_key_follows_the_order :
  resolve_rp presenting [der_rp; der_access_ca] = (true, key_of Byte.x55, [])
  /\ resolve_rp presenting [der_access_ca; der_rp] = (true, key_of Byte.x66, []).
Proof. split; vm_compute; reflexivity. Qed.

(** The evidence is current now, and no longer when the list has expired. *)
Example evidence_expires :
  presentation_evidence_is_current presenting = Ok tt
  /\ presentation_evidence_is_current {| presenting with now_epoch := 201 |} = Err TrustEvidenceInvalid
  /\ presentation_evidence_is_current {| presenting with now_epoch := 190 |} = Err EligibilityExpired.
Proof. split_and!; vm_compute; reflexivity. Qed.
End Examples.

Lemma presentation_is_backed_witness :
  exists s, session Examples.presenting = Some s
    /\ Forall (@source_backed Examples.wallet_serde Samples.hex64 Samples.trunc_digest Samples.echo_verifier
         Examples.wallet_der X509Profiles.Examples.sample_verifier Examples.no_base64 Examples.no_pq
         Examples.presenting) (selected_sources s).
Proof.
  destruct (@presentation_is_backed Examples.wallet_serde Samples.hex64 Samples.trunc_digest
    Samples.echo_verifier Examples.wallet_der X509Profiles.Examples.sample_verifier Examples.no_base64
    Examples.no_pq Examples.presenting) as (s & rp & names & H1 & _ & _ & _ & _ & _ & H2).
  { vm_compute. reflexivity. }
  exists s. by split.
Defined.
