(* ===== verification/Summaries.v ===== *)
(** * Document summaries (crates/wallet-core/src/lib.rs)

    What the facade tells the shell about a document that is being issued. *)

From S2P Require Import Cbor Cose Mdoc Oid4vci Trust.
From S2P Require Import Prelude Utf8 BTree Boundary Serde Catalogue Presenter Holdings WalletCore.

Open Scope Z_scope.
Open Scope rust_scope.

(** [format!("{:02x}", b)] of every byte. *)
Definition hex_digit (n : Z) : byte :=
  byte.of_Z (if n <? 10 then 48 + n else 87 + n).

Definition hex_bytes (bytes : bytes) : string :=
  string_of_list_byte (flat_map (fun b =>
    [hex_digit (Z.shiftr (byte.unsigned b) 4); hex_digit (Z.land (byte.unsigned b) 15)]) bytes).

Definition format_name (f : Oid4vci.CredentialFormat) : string :=
  match f with Oid4vci.MsoMdoc => "mso_mdoc" | Oid4vci.DcSdJwt => "dc+sd-jwt" end.

Definition display_document (f : Oid4vci.CredentialFormat) : string * CredentialFormat :=
  match f with
  | Oid4vci.DcSdJwt => ("Digital identity document"%string, DcSdJwt)
  | Oid4vci.MsoMdoc => ("Mobile document"%string, MsoMdoc)
  end.

(** The name of the issuer of the current offer. *)
Definition issuer_display (self : Core) : string :=
  match Trust.credential_issuer_at (trust_store self) (issuer_id_current self) (now_epoch self) with
  | Some registration => Trust.issuer_display_name registration
  | None => "Verified credential issuer"
  end.

Definition portrait_is_required (self : Core) : bool :=
  match List.hd_error (issuer_candidates_current self) with
  | Some issuer => bool_decide (service issuer = Pid)
  | None => false
  end.

(** The format of the document, in every state but [Idle] and [Aborted]. *)
Definition issuance_format (s : Oid4vci.State) : option Oid4vci.CredentialFormat :=
  match s with
  | Oid4vci.ReviewingOffer _ format | Oid4vci.OfferParsed _ format | Oid4vci.Authorizing format
  | Oid4vci.AwaitingTxCode format | Oid4vci.RequestingToken format
  | Oid4vci.ProvingPossession format _ | Oid4vci.RequestingCredential format
  | Oid4vci.CredentialIssued format _ => Some format
  | Oid4vci.Idle | Oid4vci.Aborted _ => None
  end.

Definition issuance_document_summary `{D : Digest} (self : Core) (status : DocumentStatus)
  : option DocumentSummary :=
  let! f := issuance_format (issuance self) in
  let (document_name, display_format) := display_document f in
  Some {| document_id := hex_bytes (sha256 (as_bytes (issuer_id_current self) ++ as_bytes (format_name f)));
          document_name := document_name;
          issuer_name := issuer_display self;
          format := display_format;
          status := status;
          portrait_required := portrait_is_required self |}.
