(* ===== verification/Selection.v ===== *)
(** * Claim selection (crates/wallet-core/src/lib.rs)

    Requested claim paths, the values they match in an authenticated SD-JWT
    document, the disclosures that a match needs, what a set of disclosures
    makes visible, and the minimisation of mdocs. *)

From stdpp Require Import pretty.
From S2P Require Import SdJwt Cbor Cose Mdoc Dcql.
From S2P Require Import Prelude Utf8 BTree Boundary Serde SdJwtProcess Holdings CredentialChecks.
From S2P Require Import WalletCore Summaries.

Open Scope Z_scope.
Open Scope rust_scope.

(** ** mdoc values *)

(** A human-readable rendering for the card display. *)
Definition cbor_value_display (v : Cbor.Value) : string :=
  match v with
  | Cbor.Text s => s
  | Cbor.Bool b => if b then "true" else "false"
  | Cbor.Uint n => pretty n
  | Cbor.Nint n => ("-" ++ pretty (n + 1))%string
  | _ => string_of_list_byte [Byte.xe2; Byte.x80; Byte.xa6]
  end.

Fixpoint cbor_value_matches_json (cbor : Cbor.Value) (json : Value) : bool :=
  match cbor, json with
  | Cbor.Text lhs, VString rhs => String.eqb lhs rhs
  | Cbor.Bool lhs, VBool rhs => Bool.eqb lhs rhs
  | Cbor.Uint lhs, VNumber rhs => bool_decide (number_as_u64 rhs = Some lhs)
  | Cbor.Nint argument, VNumber rhs => bool_decide (number_as_i64 rhs = Some (-1 - argument))
  | Cbor.Null, VNull => true
  | Cbor.Array lhs, VArray rhs =>
      (len lhs =? len rhs)
      && (fix all l r :=
            match l, r with
            | x :: l, y :: r => cbor_value_matches_json x y && all l r
            | _, _ => true
            end) lhs rhs
  | Cbor.Map lhs, VObject rhs =>
      (len lhs =? len rhs)
      && forallb (fun '(key, value) =>
           match key with
           | Cbor.Text key =>
               match bt_get rhs key with
               | Some rhs => cbor_value_matches_json value rhs
               | None => false
               end
           | _ => false
           end) lhs
  | _, _ => false
  end.

Definition requested_mdoc_path (path : list Value) : option (string * string) :=
  match path with
  | [VString namespace; VString element] =>
      if sis_empty namespace || sis_empty element then None else Some (namespace, element)
  | _ => None
  end.

Fixpoint find_map {A B} (f : A -> option B) (l : list A) : option B :=
  match l with
  | [] => None
  | x :: l => match f x with Some y => Some y | None => find_map f l end
  end.

Definition mdoc_value_at (issued : Mdoc.IssuerSigned) (path : string * string) : option Cbor.Value :=
  find_map (fun '(namespace, items) =>
    if negb (String.eqb namespace (fst path)) then None
    else option_map Mdoc.element_value
           (find (fun item => String.eqb (Mdoc.element_id item) (snd path)) items))
    (Mdoc.name_spaces issued).

Definition is_requested (requested_claims : list (string * string)) (namespace : string)
    (item : Mdoc.IssuerSignedItem) : bool :=
  existsb (fun '(requested_ns, requested_element) =>
    String.eqb requested_ns namespace && String.eqb requested_element (Mdoc.element_id item))
    requested_claims.

Definition minimise_mdoc (issued : Mdoc.IssuerSigned) (requested_claims : list (string * string))
  : Mdoc.IssuerSigned := {|
  Mdoc.name_spaces := map (fun '(namespace, items) =>
    (namespace, List.filter (is_requested requested_claims namespace) items)) (Mdoc.name_spaces issued);
  Mdoc.issuer_auth := Mdoc.issuer_auth issued |}.

Definition mdoc_generated_nonce `{D : Digest} (nonce : string) : string :=
  ("mgn-" ++ hex_bytes (firstn 12 (sha256 (as_bytes ("eudi-mdoc-generated-nonce:" ++ nonce)))))%string.

(** ** Requested paths in a processed document *)

Inductive RequestedSdJwtPathElement : Type :=
| RName (name : string) | RIndex (index : Z) | RAnyIndex.

Definition requested_element (element : Value) : option RequestedSdJwtPathElement :=
  match element with
  | VString name => if sis_empty name then None else Some (RName name)
  | VNumber index => option_map RIndex (number_as_u64 index)
  | VNull => Some RAnyIndex
  | _ => None
  end.

Definition requested_sdjwt_path (path : list Value) : option (list RequestedSdJwtPathElement) :=
  if is_empty path then None else Dcql.map_option requested_element path.

(** [enumerate] from an index on. *)
Fixpoint each_indexed {A B} (f : Z -> A -> list B) (i : Z) (l : list A) : list B :=
  match l with
  | [] => []
  | x :: l => f i x ++ each_indexed f (i + 1) l
  end.

(** The matches below [current]; [current] is as it was when the call returns. *)
Fixpoint collect_matching_json_paths (value : Value) (requested : list RequestedSdJwtPathElement)
    (current : list ClaimPathElement) : list (list ClaimPathElement * Value) :=
  match requested with
  | [] => [(current, value)]
  | head :: tail =>
      match head, value with
      | RName name, VObject object =>
          match bt_get object name with
          | Some child => collect_matching_json_paths child tail (current ++ [Name name])
          | None => []
          end
      | RIndex index, VArray array =>
          match array !! Z.to_nat index with
          | Some child => collect_matching_json_paths child tail (current ++ [Index index])
          | None => []
          end
      | RAnyIndex, VArray array =>
          each_indexed (fun index child =>
            collect_matching_json_paths child tail (current ++ [Index index])) 0 array
      | _, _ => []
      end
  end.

Definition matching_sdjwt_values (authenticated : AuthenticatedSdJwtHolding)
    (requested : list RequestedSdJwtPathElement) : list (list ClaimPathElement * Value) :=
  collect_matching_json_paths (VObject (claims (processed authenticated))) requested [].

Definition element_eqb (a b : ClaimPathElement) : bool := bool_decide (a = b).

Fixpoint zip_all {A B} (f : A -> B -> bool) (l : list A) (k : list B) : bool :=
  match l, k with
  | x :: l, y :: k => f x y && zip_all f l k
  | _, _ => true
  end.

Definition claim_path_is_prefix (prefix path : list ClaimPathElement) : bool :=
  (len prefix <=? len path) && zip_all element_eqb prefix path.

(** ** Disclosures *)

(** A [BTreeSet<String>] is the map of its members to nothing. *)
Abbreviation BTreeSet := (BTreeMap string unit).

(** One selected digest: its parent is selected with it. *)
Definition add_parent (authenticated : AuthenticatedSdJwtHolding) (state : BTreeSet * bool)
    (digest : string) : BTreeSet * bool :=
  let (selected, changed) := state in
  match find (fun candidate => String.eqb (SdJwtProcess.digest candidate) digest)
          (verified_disclosures (processed authenticated)) with
  | Some disclosure =>
      match parent_digest disclosure with
      | Some parent => (bt_insert parent tt selected, changed || negb (bt_contains selected parent))
      | None => (selected, changed)
      end
  | None => (selected, changed)
  end.

Definition add_sdjwt_disclosure_dependencies (authenticated : AuthenticatedSdJwtHolding)
    (selected : BTreeSet) : BTreeSet * bool :=
  fold_left (add_parent authenticated) (map fst selected) (selected, false).

(** [while add_sdjwt_disclosure_dependencies(..) {}], for a number of rounds. *)
Fixpoint add_all_dependencies (rounds : nat) (authenticated : AuthenticatedSdJwtHolding)
    (selected : BTreeSet) : BTreeSet :=
  match rounds with
  | O => selected
  | S rounds =>
      let (selected, changed) := add_sdjwt_disclosure_dependencies authenticated selected in
      if changed then add_all_dependencies rounds authenticated selected else selected
  end.

Definition simple_name (name : string) : bool :=
  negb (sis_empty name)
  && forallb (fun b => is_ascii_alphanumeric b || Byte.eqb b Byte.x5f || Byte.eqb b Byte.x2d)
       (as_bytes name).

Section rendering.
Context {SJ : SerdeJson} `{B64 : Base64}.

Definition render_element (rendered : string) (element : ClaimPathElement) : string :=
  match element with
  | Name name =>
      if simple_name name then (if sis_empty rendered then name else rendered ++ "." ++ name)%string
      else (rendered ++ "[" ++ string_of_list_byte (value_to_vec (VString name)) ++ "]")%string
  | Index index => (rendered ++ "[" ++ pretty index ++ "]")%string
  end.

Definition sdjwt_path_string (path : list ClaimPathElement) : string :=
  fold_left render_element path ""%string.

Fixpoint collect_json_leaf_paths (value : Value) (path : list ClaimPathElement)
  : list (list ClaimPathElement) :=
  match value with
  | VObject ((_ :: _) as object) =>
      flat_map (fun '(name, child) => collect_json_leaf_paths child (path ++ [Name name])) object
  | VArray ((_ :: _) as array) =>
      each_indexed (fun index child => collect_json_leaf_paths child (path ++ [Index index])) 0 array
  | _ => if is_empty path then [] else [path]
  end.

(** The leaf is not a control claim and every disclosure it is part of is
    selected. *)
Definition leaf_visible (authenticated : AuthenticatedSdJwtHolding) (selected : BTreeSet)
    (path : list ClaimPathElement) : bool :=
  match path with
  | Name root_name :: _ =>
      negb (existsb (String.eqb root_name) SDJWT_CONTROL_CLAIMS || String.eqb root_name "_sd_alg")
      && forallb (fun disclosure => bt_contains selected (SdJwtProcess.digest disclosure))
           (List.filter (fun disclosure => claim_path_is_prefix (SdJwtProcess.path disclosure) path)
              (verified_disclosures (processed authenticated)))
  | _ => false
  end.

Definition visible_sdjwt_claims (authenticated : AuthenticatedSdJwtHolding) (selected : BTreeSet)
  : list string :=
  fold_left (fun visible path =>
      if leaf_visible authenticated selected path
      then Dcql.push_new visible (sdjwt_path_string path) else visible)
    (collect_json_leaf_paths (VObject (claims (processed authenticated))) []) [].

Record SdJwtDisclosureSelection : Type := {
  disclosures : list string; revealed_claims : list string;
}.

(** The digests of the disclosures on the way to a path, or below it. *)
Definition select_along (authenticated : AuthenticatedSdJwtHolding)
    (matched_paths : list (list ClaimPathElement)) : BTreeSet :=
  bt_extend [] (flat_map (fun matched_path =>
    map (fun disclosure => (SdJwtProcess.digest disclosure, tt))
      (List.filter (fun disclosure =>
         claim_path_is_prefix (SdJwtProcess.path disclosure) matched_path
         || claim_path_is_prefix matched_path (SdJwtProcess.path disclosure))
       (verified_disclosures (processed authenticated)))) matched_paths).

Definition selected_digests (authenticated : AuthenticatedSdJwtHolding)
    (matched_paths : list (list ClaimPathElement)) : BTreeSet :=
  add_all_dependencies (S (length (verified_disclosures (processed authenticated)))) authenticated
    (select_along authenticated matched_paths).

Definition select_authenticated_sdjwt_disclosures_for_paths (authenticated : AuthenticatedSdJwtHolding)
    (matched_paths : list (list ClaimPathElement)) : SdJwtDisclosureSelection :=
  let selected := selected_digests authenticated matched_paths in {|
  disclosures := map SdJwtProcess.raw
    (List.filter (fun disclosure => bt_contains selected (SdJwtProcess.digest disclosure))
       (verified_disclosures (processed authenticated)));
  revealed_claims := visible_sdjwt_claims authenticated selected |}.

(** [if !paths.contains(&path) { paths.push(path) }]. *)
Definition push_path (paths : list (list ClaimPathElement)) (path : list ClaimPathElement)
  : list (list ClaimPathElement) :=
  if bool_decide (path ∈ paths) then paths else paths ++ [path].

Fixpoint match_paths (authenticated : AuthenticatedSdJwtHolding)
    (requested_paths : list (list RequestedSdJwtPathElement)) (matched : list (list ClaimPathElement))
  : option (list (list ClaimPathElement)) :=
  match requested_paths with
  | [] => Some matched
  | requested :: requested_paths =>
      let matches := matching_sdjwt_values authenticated requested in
      if is_empty matches then None
      else match_paths authenticated requested_paths (fold_left push_path (map fst matches) matched)
  end.

Definition select_authenticated_sdjwt_disclosures (authenticated : AuthenticatedSdJwtHolding)
    (requested_paths : list (list RequestedSdJwtPathElement)) : option SdJwtDisclosureSelection :=
  option_map (select_authenticated_sdjwt_disclosures_for_paths authenticated)
    (match_paths authenticated requested_paths []).

(** ** Test fixtures *)

(** The value of a disclosure [salt, name, value]. *)
Definition sd_disclosure_value (b64 : string) : option Value :=
  let! raw := decode_vec b64 in
  match value_from_slice raw with
  | Some (VArray arr) => arr !! 2%nat
  | _ => None
  end.

Definition credential_vct_and_issuer (issuer_jwt : string) : string * string :=
  match
    (let! payload_b64 := split_byte Byte.x2e (as_bytes issuer_jwt) !! 1%nat in
     let! bytes := decode_vec (string_of_list_byte payload_b64) in
     value_from_slice bytes)
  with
  | Some json => (unwrap_or (v_get_str json "vct") ""%string, unwrap_or (v_get_str json "iss") ""%string)
  | None => (""%string, ""%string)
  end.
End rendering.
