(* ===== verification/QuerySelection.v ===== *)
(** * Answering a query (crates/wallet-core/src/lib.rs)

    The credentials that answer a DCQL query or a legacy request, and the plan
    that is frozen before consent is rendered. *)

From S2P Require Import SdJwt Cbor Cose Mdoc Dcql Oid4vp Oid4vci Trust.
From S2P Require Import Prelude Utf8 BTree Boundary Serde SdJwtProcess Catalogue X509 X509Path.
From S2P Require Import Presenter PidProfile Holdings CredentialChecks WalletCore Ingestion.
From S2P Require Import Summaries Selection.

Open Scope Z_scope.
Open Scope rust_scope.

Definition MAX_PRESENTATIONS_PER_DCQL_QUERY : Z := 16.

Record PreparedPresentationCredential : Type := {
  prepared_selected : Oid4vp.SelectedCredential;
  prepared_source : PresentationCredentialReference;
  prepared_revealed : list string;
}.

(** [Option::get_or_insert] on the first error. *)
Definition get_or_insert {A} (o : option A) (a : A) : option A :=
  match o with Some _ => o | None => Some a end.

(** [allowed.contains(&value)]. *)
Definition value_in (allowed : list Value) (v : Value) : bool := existsb (fun x => value_eqb x v) allowed.

(** What a stored credential is to a query: it does not match, it is refused
    (the error is kept and the loop continues), it has an unusable provenance,
    or it is chosen. *)
Inductive Candidate : Type :=
| NotMatching
| Refused (e : PresentationEligibilityError)
| Unusable
| Chosen (p : PreparedPresentationCredential).

Section selection.
Context {SJ : SerdeJson} `{B64 : Base64} `{D : Digest} `{V : Verifier} `{X : X509Der}
  `{CV : CertVerifier} `{SB : StdBase64} `{PQ : MlDsa}.

(** ** mdoc *)

Definition mdoc_claim_label (path : string * string) (claim : Dcql.ClaimQuery) : string :=
  let path := (fst path ++ "." ++ snd path)%string in
  if bool_decide (Dcql.intent_to_retain claim = Some true) then (path ++ " [retained]")%string else path.

Definition mdoc_value_allowed (issued : Mdoc.IssuerSigned) (claim : Dcql.ClaimQuery)
    (path : string * string) : bool :=
  match Dcql.values claim with
  | None => true
  | Some allowed =>
      match mdoc_value_at issued path with
      | Some value => existsb (cbor_value_matches_json value) allowed
      | None => false
      end
  end.

Definition mdoc_matches (doctype : string) (claims : list Dcql.ClaimQuery)
    (paths : list (string * string)) (stored : StoredMdocCredential) : bool :=
  let issued := issuer_signed (mdoc_holding stored) in
  String.eqb (WalletCore.doctype (mdoc_holding stored)) doctype
  && zip_all (mdoc_value_allowed issued) claims paths
  && forallb (fun path => is_some (mdoc_value_at issued path)) paths.

Definition prepare_mdoc (sess : SessionInfo) (q : Dcql.CredentialQuery)
    (paths : list (string * string)) (labels : list string) (holding : MdocHolding)
  : PreparedPresentationCredential :=
  let mgn := mdoc_generated_nonce (nonce sess) in {|
  prepared_selected :=
    Oid4vp.SelMdoc (WalletCore.doctype holding) (minimise_mdoc (issuer_signed holding) paths)
      (Mdoc.oid4vp_session_transcript (rp_client_id sess) (response_uri sess) (nonce sess) mgn)
      Mdoc.empty_device_namespaces_bytes mgn (Some (Dcql.id q));
  prepared_source := RefMdoc holding;
  prepared_revealed := labels |}.

Definition mdoc_candidate (self : Core) (sess : SessionInfo) (q : Dcql.CredentialQuery)
    (doctype : string) (claims : list Dcql.ClaimQuery) (paths : list (string * string))
    (stored : StoredMdocCredential) : Candidate :=
  if negb (mdoc_matches doctype claims paths stored) then NotMatching
  else
    match mdoc_credential_is_current self stored with
    | Err error => Refused error
    | Ok _ =>
        Chosen (prepare_mdoc sess q paths
          (map (fun '(path, claim) => mdoc_claim_label path claim) (combine paths claims))
          (mdoc_holding stored))
    end.

(** ** SD-JWT *)

(** The concrete paths of one claim whose value is allowed. *)
Definition allowed_paths (authenticated : AuthenticatedSdJwtHolding) (claim : Dcql.ClaimQuery)
    (requested : list RequestedSdJwtPathElement) : list (list ClaimPathElement) :=
  map fst (List.filter (fun '(_, value) =>
    match Dcql.values claim with
    | None => true
    | Some allowed => value_in allowed value
    end) (matching_sdjwt_values authenticated requested)).

(** [None] when some claim has no allowed match. *)
Fixpoint select_paths (authenticated : AuthenticatedSdJwtHolding)
    (l : list (Dcql.ClaimQuery * list RequestedSdJwtPathElement)) (paths : list (list ClaimPathElement))
  : option (list (list ClaimPathElement)) :=
  match l with
  | [] => Some paths
  | (claim, requested) :: l =>
      let matching := allowed_paths authenticated claim requested in
      if is_empty matching then None
      else select_paths authenticated l (fold_left push_path matching paths)
  end.

Definition prepare_sd (stored : StoredSdJwtCredential) (authenticated : option AuthenticatedSdJwtHolding)
    (disclosures revealed : list string) (dcql_id : option string) : PreparedPresentationCredential := {|
  prepared_selected :=
    Oid4vp.SelSdJwt (held_issuer_jwt (sd_holding stored)) disclosures dcql_id;
  prepared_source := RefSdJwt (sd_holding stored) authenticated;
  prepared_revealed := revealed |}.

(** The disclosures of a fixture, for claims it may not have. *)
Definition fixture_disclosures (credential : HeldCredential) (claims : list string) : list string :=
  omap (fun claim => bt_get (disclosures_by_claim credential) claim) claims.

Definition carries_all (credential : HeldCredential) (claims : list string) : bool :=
  forallb (bt_contains (disclosures_by_claim credential)) claims.

Definition prepare_fixture (stored : StoredSdJwtCredential) (claims : list string)
    (dcql_id : option string) : PreparedPresentationCredential :=
  let selected_claims :=
    minimum_claim_set claims (map fst (disclosures_by_claim (sd_holding stored))) in
  prepare_sd stored None (fixture_disclosures (sd_holding stored) selected_claims) selected_claims dcql_id.

Definition fixture_values_ok (claims : list Dcql.ClaimQuery) (c : HeldCredential) : bool :=
  forallb (fun cq =>
    match Dcql.values cq with
    | None => true
    | Some allowed =>
        match (let! d := bt_get (disclosures_by_claim c) (Dcql.path_string cq) in sd_disclosure_value d) with
        | Some v => value_in allowed v
        | None => false
        end
    end) claims.

Definition sd_type_matches (vcts : list string) (authenticated : AuthenticatedSdJwtHolding) : bool :=
  is_empty vcts
  || match m_get_str (claims (processed authenticated)) "vct" with
     | Some vct => existsb (String.eqb vct) vcts
     | None => false
     end.

Definition sd_candidate (self : Core) (q : Dcql.CredentialQuery) (vcts : list string)
    (requested_claims : list Dcql.ClaimQuery) (requested_paths : list (list RequestedSdJwtPathElement))
    (stored : StoredSdJwtCredential) : Candidate :=
  match sd_authenticated stored, sd_provenance stored with
  | Some authenticated, Authenticated _ =>
      if negb (sd_type_matches vcts authenticated) then NotMatching
      else
        match select_paths authenticated (combine requested_claims requested_paths) [] with
        | None => NotMatching
        | Some selected_paths =>
            let selection := select_authenticated_sdjwt_disclosures_for_paths authenticated selected_paths in
            match sdjwt_credential_is_current self stored with
            | Err error => Refused error
            | Ok _ =>
                Chosen (prepare_sd stored (Some authenticated) (disclosures selection)
                          (revealed_claims selection) (Some (Dcql.id q)))
            end
        end
  | None, TestFixture =>
      let claims :=
        List.filter (fun s => negb (sis_empty s)) (map Dcql.path_string requested_claims) in
      if negb (is_empty vcts
               || existsb (String.eqb (fst (credential_vct_and_issuer (held_issuer_jwt (sd_holding stored))))) vcts)
         || negb (fixture_values_ok requested_claims (sd_holding stored))
         || (negb (is_empty claims) && negb (carries_all (sd_holding stored) claims))
      then NotMatching
      else
        match sdjwt_credential_is_current self stored with
        | Err error => Refused error
        | Ok _ => Chosen (prepare_fixture stored claims (Some (Dcql.id q)))
        end
  | _, _ => Unusable
  end.

(** ** The loops *)

(** mdoc: the loop ends with the first choice, unless several are wanted. *)
Fixpoint choose_mdoc {A} (candidate : A -> Candidate) (multiple : bool) (l : list A)
    (selected : list PreparedPresentationCredential) (first_error : option PresentationEligibilityError)
  : result (list PreparedPresentationCredential * option PresentationEligibilityError)
      PresentationEligibilityError :=
  match l with
  | [] => Ok (selected, first_error)
  | stored :: l =>
      match candidate stored with
      | NotMatching => choose_mdoc candidate multiple l selected first_error
      | Refused error => choose_mdoc candidate multiple l selected (get_or_insert first_error error)
      | Unusable => choose_mdoc candidate multiple l selected first_error
      | Chosen p =>
          let selected := selected ++ [p] in
          if negb multiple then Ok (selected, first_error)
          else if MAX_PRESENTATIONS_PER_DCQL_QUERY <? len selected then Err NoEligibleCredential
          else choose_mdoc candidate multiple l selected first_error
      end
  end.

(** SD-JWT: the same checks after every iteration that was not left early. *)
Fixpoint choose_sd {A} (candidate : A -> Candidate) (multiple : bool) (l : list A)
    (selected : list PreparedPresentationCredential) (first_error : option PresentationEligibilityError)
  : result (list PreparedPresentationCredential * option PresentationEligibilityError)
      PresentationEligibilityError :=
  match l with
  | [] => Ok (selected, first_error)
  | stored :: l =>
      match candidate stored with
      | NotMatching => choose_sd candidate multiple l selected first_error
      | Refused error => choose_sd candidate multiple l selected (get_or_insert first_error error)
      | outcome =>
          let selected := match outcome with Chosen p => selected ++ [p] | _ => selected end in
          let first_error :=
            match outcome with
            | Unusable => get_or_insert first_error ProvenanceInvalid
            | _ => first_error
            end in
          if negb (is_empty selected) && negb multiple then Ok (selected, first_error)
          else if MAX_PRESENTATIONS_PER_DCQL_QUERY <? len selected then Err NoEligibleCredential
          else choose_sd candidate multiple l selected first_error
      end
  end.

(** The end of both loops. *)
Definition some_selected
    (r : result (list PreparedPresentationCredential * option PresentationEligibilityError)
           PresentationEligibilityError)
  : result (list PreparedPresentationCredential) PresentationEligibilityError :=
  let? (selected, first_error) := r in
  if is_empty selected then Err (unwrap_or first_error NoEligibleCredential) else Ok selected.

Definition select_for_query_claims (self : Core) (sess : SessionInfo) (q : Dcql.CredentialQuery)
    (requested_claims : list Dcql.ClaimQuery)
  : result (list PreparedPresentationCredential) PresentationEligibilityError :=
  let multiple := bool_decide (Dcql.multiple q = Some true) in
  if String.eqb (Dcql.format q) "mso_mdoc" then
    let? paths :=
      ok_or (Dcql.map_option (fun claim => requested_mdoc_path (Dcql.path claim)) requested_claims)
        NoEligibleCredential in
    let? doctype := ok_or (let! m := Dcql.meta q in Dcql.doctype_value m) NoEligibleCredential in
    some_selected (choose_mdoc (mdoc_candidate self sess q doctype requested_claims paths) multiple
                     (mdoc_holdings self) [] None)
  else if negb (String.eqb (Dcql.format q) "dc+sd-jwt") then Err NoEligibleCredential
  else
    let? requested_paths :=
      ok_or (Dcql.map_option (fun claim => requested_sdjwt_path (Dcql.path claim)) requested_claims)
        NoEligibleCredential in
    let vcts := match Dcql.meta q with Some m => Dcql.vct_values m | None => [] end in
    some_selected (choose_sd (sd_candidate self q vcts requested_claims requested_paths) multiple
                     (credentials self) [] None).

(** The first option that is answered; [options] holds positions of claims. *)
Fixpoint select_options (self : Core) (sess : SessionInfo) (q : Dcql.CredentialQuery)
    (options : list (list nat)) (first_error : option PresentationEligibilityError)
  : result (list PreparedPresentationCredential) PresentationEligibilityError :=
  match options with
  | [] => Err (unwrap_or first_error NoEligibleCredential)
  | option :: options =>
      match select_for_query_claims self sess q (omap (fun index => Dcql.claims q !! index) option) with
      | Ok selected => Ok selected
      | Err error => select_options self sess q options (get_or_insert first_error error)
      end
  end.

Definition select_for_query (self : Core) (sess : SessionInfo) (q : Dcql.CredentialQuery)
  : result (list PreparedPresentationCredential) PresentationEligibilityError :=
  let? options := ok_or (Dcql.claim_selection_options q) NoEligibleCredential in
  select_options self sess q options None.

(** ** The legacy request *)

Definition legacy_candidate (self : Core) (sess : SessionInfo) (stored : StoredSdJwtCredential)
  : Candidate :=
  match sd_authenticated stored, sd_provenance stored with
  | Some authenticated, Authenticated _ =>
      match select_authenticated_sdjwt_disclosures authenticated
              (map (fun claim => [RName claim]) (requested_claims sess)) with
      | None => NotMatching
      | Some selection =>
          match sdjwt_credential_is_current self stored with
          | Err error => Refused error
          | Ok _ =>
              Chosen (prepare_sd stored (Some authenticated) (disclosures selection)
                        (revealed_claims selection) None)
          end
      end
  | None, TestFixture =>
      if negb (is_empty (requested_claims sess))
         && negb (carries_all (sd_holding stored) (requested_claims sess))
      then NotMatching
      else
        match sdjwt_credential_is_current self stored with
        | Err error => Refused error
        | Ok _ => Chosen (prepare_fixture stored (requested_claims sess) None)
        end
  | _, _ => Unusable
  end.

Fixpoint first_chosen {A} (candidate : A -> Candidate) (l : list A)
    (first_error : option PresentationEligibilityError)
  : result PreparedPresentationCredential PresentationEligibilityError :=
  match l with
  | [] => Err (unwrap_or first_error NoEligibleCredential)
  | stored :: l =>
      match candidate stored with
      | NotMatching => first_chosen candidate l first_error
      | Refused error => first_chosen candidate l (get_or_insert first_error error)
      | Unusable => first_chosen candidate l (get_or_insert first_error ProvenanceInvalid)
      | Chosen p => Ok p
      end
  end.

Definition select_legacy_sdjwt (self : Core) (sess : SessionInfo)
  : result PreparedPresentationCredential PresentationEligibilityError :=
  first_chosen (legacy_candidate self sess) (credentials self) None.

(** ** The plan *)

Definition candidate_of {A E} (r : result A E) : option A := match r with Ok a => Some a | Err _ => None end.

(** The candidates at the indices of the plan; one that was taken is gone. *)
Fixpoint take_candidates (candidates : list (option (list PreparedPresentationCredential)))
    (indices : list nat)
  : result (list PreparedPresentationCredential) PresentationEligibilityError :=
  match indices with
  | [] => Ok []
  | index :: indices =>
      let? taken := ok_or (let! c := candidates !! index in c) NoEligibleCredential in
      let? rest := take_candidates (<[index := None]> candidates) indices in
      Ok (taken ++ rest)
  end.

Definition first_error {A E} (l : list (result A E)) : option E :=
  find_map (fun r => match r with Err e => Some e | Ok _ => None end) l.

Definition prepare_dcql (self : Core) (session : SessionInfo) (dcql : Dcql.DcqlQuery)
  : result (list PreparedPresentationCredential) PresentationEligibilityError :=
  let results := map (select_for_query self session) (Dcql.credentials dcql) in
  let candidates := map candidate_of results in
  let? indices :=
    ok_or (Dcql.credential_selection_plan dcql (map is_some candidates))
      (unwrap_or (first_error results) NoEligibleCredential) in
  if is_empty indices then Err NoEligibleCredential else take_candidates candidates indices.

Definition prepare (self : Core) (session : SessionInfo)
  : result (list PreparedPresentationCredential) PresentationEligibilityError :=
  match dcql session with
  | Some dcql =>
      if is_empty (Dcql.credentials dcql)
      then let? p := select_legacy_sdjwt self session in Ok [p]
      else prepare_dcql self session dcql
  | None => let? p := select_legacy_sdjwt self session in Ok [p]
  end.

Definition freeze (session : SessionInfo) (prepared : list PreparedPresentationCredential) : SessionInfo :=
  {| session with
     selected_credentials := map prepared_selected prepared;
     selected_revealed_claims := fold_left Dcql.push_new (flat_map prepared_revealed prepared) [];
     selected_sources := map prepared_source prepared |}.

Definition prepare_presentation_selection (self : Core)
  : Core * result unit PresentationEligibilityError :=
  match
    (let? sess := ok_or (session self) TrustEvidenceInvalid in
     let? _ := presentation_trust_is_current self sess in
     let? prepared := prepare self sess in
     if is_empty prepared then Err NoEligibleCredential else Ok (freeze sess prepared))
  with
  | Ok sess => ({| self with session := Some sess |}, Ok tt)
  | Err e => (self, Err e)
  end.

Definition select_credentials_for (self : Core) (input : Oid4vp.Input)
  : list Oid4vp.SelectedCredential :=
  match input with
  | Oid4vp.ConsentGranted =>
      match session self with Some session => selected_credentials session | None => [] end
  | _ => []
  end.
End selection.
