(* ===== verification/SelectionSpec.v ===== *)
(** * What selection guarantees

    Matched paths are the paths of the document that fit the request; the
    selected disclosures are the least set that reaches them; and the frozen
    plan answers the query with current credentials, and discloses nothing that
    was not asked for. *)

From S2P Require Import SdJwt Cbor Cose Mdoc Dcql Oid4vp Oid4vci Trust Catalogue X509 X509Path.
From S2P Require Import Prelude Utf8 BTree Boundary Serde SdJwtProcess.
From S2P Require Import Presenter PidProfile Holdings CredentialChecks WalletCore Ingestion.
From S2P Require Import IngestionSpec Summaries Selection QuerySelection.

Open Scope Z_scope.
Open Scope rust_scope.

(** ** Paths *)

Lemma zip_all_prefix p q : zip_all element_eqb p q = true -> (length p <= length q)%nat -> exists r, q = p ++ r.
Proof.
  revert q. induction p as [|x p IH]; intros q H Hl; [by exists q|].
  destruct q as [|y q]; [cbn in Hl; lia|]. cbn in H. apply andb_true_iff in H as [E%bool_decide_eq_true H].
  destruct (IH q H) as [r ->]; [cbn in Hl; lia|]. exists r. by subst.
Qed.

Lemma prefix_iff p q : claim_path_is_prefix p q = true <-> exists r, q = p ++ r.
Proof.
  unfold claim_path_is_prefix. rewrite andb_true_iff, Z.leb_le. unfold len. split.
  - intros [Hl H]. apply zip_all_prefix; [done|lia].
  - intros [r ->]. rewrite length_app. split; [lia|]. induction p as [|x p IH]; [done|]. cbn.
    unfold element_eqb at 1. by rewrite bool_decide_true.
Qed.

(** A concrete path that a requested path stands for. *)
Definition fits_element (r : RequestedSdJwtPathElement) (e : ClaimPathElement) : Prop :=
  match r, e with
  | RName n, Name m => n = m
  | RIndex i, Index j => i = j
  | RAnyIndex, Index j => 0 <= j
  | _, _ => False
  end.

Lemma each_indexed_In {A B} (f : Z -> A -> list B) i l x :
  0 <= i -> In x (each_indexed f i l) <-> exists j a, 0 <= j /\ l !! Z.to_nat j = Some a /\ In x (f (i + j) a).
Proof.
  revert i. induction l as [|a l IH]; intros i Hi; cbn [each_indexed].
  - split; [done|]. by intros (j & a & _ & ? & _).
  - rewrite in_app_iff, IH by lia. split.
    + intros [H|(j & b & Hj & Hb & H)].
      * exists 0, a. by rewrite Z.add_0_r.
      * exists (j + 1), b. split; [lia|]. replace (Z.to_nat (j + 1)) with (S (Z.to_nat j)) by lia.
        split; [done|]. by replace (i + (j + 1)) with (i + 1 + j) by lia.
    + intros (j & b & Hj & Hb & H). destruct (Z.eq_dec j 0) as [->|Hn].
      * left. cbn in Hb. injection Hb as ->. by rewrite Z.add_0_r in H.
      * right. exists (j - 1), b. replace (Z.to_nat j) with (S (Z.to_nat (j - 1))) in Hb by lia.
        split; [lia|]. split; [done|]. by replace (i + 1 + (j - 1)) with (i + j) by lia.
Qed.

(** The matches are the paths of the value that fit, with what they lead to. *)
Lemma collect_iff value requested current p v :
  In (p, v) (collect_matching_json_paths value requested current)
  <-> exists q, p = current ++ q /\ Forall2 fits_element requested q /\ lookup_path value q = Some v.
Proof.
  revert value current. induction requested as [|r requested IH]; intros value current; cbn.
  - split.
    + intros [[= <- <-]|[]]. exists []. by rewrite app_nil_r.
    + intros (q & -> & ->%Forall2_nil_inv_l & [= <-]). rewrite app_nil_r. by left.
  - assert (forall e child, In (p, v) (collect_matching_json_paths child requested (current ++ [e]))
      <-> exists q, p = current ++ e :: q /\ Forall2 fits_element requested q /\ lookup_path child q = Some v) as IHe.
    { intros e child. rewrite IH. by setoid_rewrite <- app_assoc. }
    split.
    + intros H. destruct r as [n|i|], value as [| | | |a|o]; try done.
      * destruct (bt_get o n) as [child|] eqn:E; [|done]. apply IHe in H as (q & -> & Hf & Hl).
        exists (Name n :: q). split_and!; [done|by constructor|]. cbn. by rewrite E.
      * destruct (a !! Z.to_nat i) as [child|] eqn:E; [|done]. apply IHe in H as (q & -> & Hf & Hl).
        exists (Index i :: q). split_and!; [done|by constructor|]. cbn. by rewrite E.
      * apply each_indexed_In in H as (j & child & Hj & E & H); [|done].
        rewrite Z.add_0_l in H. apply IHe in H as (q & -> & Hf & Hl). exists (Index j :: q). split_and!; [done|by constructor|]. cbn. by rewrite E.
    + intros (q & -> & (e & q' & Hf & Hr & ->)%Forall2_cons_inv_l & Hl).
      destruct r as [n|i|], e as [m|j]; try done; cbn in Hf; subst; cbn in Hl;
        destruct value as [| | | |a|o]; try done.
      * destruct (bt_get o m) as [child|]; [|done]. apply IHe. by exists q'.
      * destruct (a !! Z.to_nat j) as [child|]; [|done]. apply IHe. by exists q'.
      * destruct (a !! Z.to_nat j) as [child|] eqn:E; [|done]. apply each_indexed_In; [done|].
        exists j, child. split_and!; [done|done|]. apply IHe. by exists q'.
Qed.

Lemma matching_iff au requested p v :
  In (p, v) (matching_sdjwt_values au requested)
  <-> Forall2 fits_element requested p /\ lookup_path (VObject (claims (processed au))) p = Some v.
Proof.
  unfold matching_sdjwt_values. rewrite collect_iff. split; [by intros (q & -> & H)|].
  intros H. by exists p.
Qed.

(** ** The least selection *)

Definition find_digest (au : AuthenticatedSdJwtHolding) (d : string) : option VerifiedDisclosure :=
  find (fun candidate => String.eqb (SdJwtProcess.digest candidate) d) (verified_disclosures (processed au)).

(** A disclosure is needed when it is on the way to a path, or below one, or is
    the parent of one that is needed. *)
Inductive needed (au : AuthenticatedSdJwtHolding) (paths : list (list ClaimPathElement)) : string -> Prop :=
| needed_along d p :
    In d (verified_disclosures (processed au)) -> In p paths ->
    (exists r, p = SdJwtProcess.path d ++ r) \/ (exists r, SdJwtProcess.path d = p ++ r) ->
    needed au paths (SdJwtProcess.digest d)
| needed_parent x d y :
    needed au paths x -> find_digest au x = Some d -> parent_digest d = Some y -> needed au paths y.

Definition sin (x : string) (s : BTreeSet) : Prop := bt_contains s x = true.

Lemma sin_insert x y s : sin x (bt_insert y tt s) <-> x = y \/ sin x s.
Proof.
  unfold sin, bt_contains. rewrite bt_get_insert. destruct (decide (x = y)) as [->|Hn].
  - rewrite key_cmp_refl. cbn. intuition.
  - destruct (key_cmp x y) eqn:E; [by apply key_cmp_eq in E|intuition..].
Qed.

Lemma sin_extend x m l : sin x (bt_extend m l) <-> sin x m \/ In x (map fst l).
Proof.
  unfold bt_extend. revert m. induction l as [|[y []] l IH]; intros m; cbn; [tauto|].
  rewrite IH, sin_insert. intuition congruence.
Qed.

Lemma sin_keys x s : bt_ok s -> sin x s <-> In x (map fst s).
Proof.
  intros H. unfold sin, bt_contains. destruct (bt_get s x) as [[]|] eqn:E; cbn.
  - apply bt_get_In in E; [|done]. split; [|done]. intros _. by apply (in_map fst) in E.
  - split; [done|]. intros ([y []] & <- & Hy)%in_map_iff. apply bt_get_In in Hy; [|done]. cbn in E. congruence.
Qed.

Section closure.
Context (au : AuthenticatedSdJwtHolding).

Definition parent_of (x : string) : option string := let! d := find_digest au x in parent_digest d.

Lemma add_parent_eq s c x :
  add_parent au (s, c) x =
  match parent_of x with
  | Some y => (bt_insert y tt s, c || negb (bt_contains s y))
  | None => (s, c)
  end.
Proof. unfold add_parent, parent_of, find_digest. by destruct (find _ _) as [d|]. Qed.

(** One round adds the parents, and says whether one of them was missing. *)
Lemma round_spec l s c s' c' :
  fold_left (add_parent au) l (s, c) = (s', c') ->
  (bt_ok s -> bt_ok s')
  /\ (forall x, sin x s' <-> sin x s \/ exists z, In z l /\ parent_of z = Some x)
  /\ (c' = false <-> c = false /\ forall z y, In z l -> parent_of z = Some y -> sin y s).
Proof.
  revert s c. induction l as [|z l IH]; intros s c H; cbn [fold_left] in H.
  - injection H as <- <-. split_and!; [done|firstorder|naive_solver].
  - rewrite add_parent_eq in H. destruct (parent_of z) as [y|] eqn:Ey.
    + apply IH in H as (H1 & H2 & H3). split_and!.
      * intros Ho. by apply H1, bt_insert_ok.
      * intros x. rewrite H2, sin_insert. split.
        -- intros [[->|]|(w & Hw & Hp)]; [right|by left|right]; [exists z|exists w]; cbn; auto.
        -- intros [|(w & [<-|Hw] & Hp)]; [tauto| |]; [|right; by exists w]. left. left. congruence.
      * rewrite H3, orb_false_iff, negb_false_iff. fold (sin y s). split.
        -- intros [[-> Hy] Ha]. split; [done|]. intros w v [<-|Hw] Hp; [by rewrite Ey in Hp; simplify_eq|].
           specialize (Ha w v Hw Hp). apply sin_insert in Ha as [->|]; done.
        -- intros [-> Ha]. split_and!; [done|apply (Ha z); [by left|done]|].
           intros w v Hw Hp. apply sin_insert. right. apply (Ha w); [by right|done].
    + apply IH in H as (H1 & H2 & H3). split_and!; [done| |].
      * intros x. rewrite H2. split; intros [|(w & Hw & Hp)]; auto; right; exists w; [cbn; auto|].
        destruct Hw as [<-|Hw]; [congruence|done].
      * rewrite H3. split; intros [-> Ha]; (split; [done|]); intros w v Hw Hp.
        -- destruct Hw as [<-|Hw]; [congruence|by apply (Ha w)].
        -- apply (Ha w); [by right|done].
Qed.

(** The disclosures whose parent is not selected yet. *)
Definition missing (s : BTreeSet) : nat :=
  length (List.filter (fun d => match parent_digest d with
    | Some y => negb (bt_contains s y) | None => false end) (verified_disclosures (processed au))).

Lemma filter_less {A} (f g : A -> bool) l :
  (forall x, f x = true -> g x = true) -> (exists x, In x l /\ g x = true /\ f x = false) ->
  (length (List.filter f l) < length (List.filter g l))%nat.
Proof.
  intros Hfg. assert (forall k, (length (List.filter f k) <= length (List.filter g k))%nat) as Hle.
  { intros k. induction k as [|x k IH]; cbn; [done|]. destruct (f x) eqn:E; [rewrite (Hfg x E); cbn; lia|].
    destruct (g x); cbn; lia. }
  induction l as [|x l IH]; intros (y & Hy & Hg & Hf); [done|]. cbn. specialize (Hle l).
  destruct Hy as [->|Hy].
  - rewrite Hf, Hg. cbn. lia.
  - assert (length (List.filter f l) < length (List.filter g l))%nat by (apply IH; by exists y).
    destruct (f x) eqn:E; [rewrite (Hfg x E); cbn; lia|]. destruct (g x); cbn; lia.
Qed.

Lemma round_less s s' :
  bt_ok s -> add_sdjwt_disclosure_dependencies au s = (s', true) -> (missing s' < missing s)%nat.
Proof.
  intros Ho H. apply round_spec in H as (_ & H2 & H3).
  assert (exists z y, In z (map fst s) /\ parent_of z = Some y /\ ~ sin y s) as (z & y & Hz & Hp & Hy).
  { destruct (List.existsb (fun z => match parent_of z with Some y => negb (bt_contains s y) | None => false end)
      (map fst s)) eqn:E.
    - apply existsb_exists in E as (z & Hz & E). destruct (parent_of z) as [y|] eqn:Ey; [|done].
      exists z, y. unfold sin. apply negb_true_iff in E. rewrite E. by split_and!.
    - exfalso. assert (true = false) as [=]. apply H3. split; [done|]. intros z y Hz Hy.
      unfold sin. rewrite <- not_true_iff_false, existsb_exists in E.
      destruct (bt_contains s y) eqn:Ec; [done|]. destruct E. exists z. rewrite Hy, Ec. done. }
  pose proof Hp as Hz'. unfold parent_of in Hp. destruct (find_digest au z) as [d|] eqn:Ed; [|done].
  cbn in Hp. apply find_some in Ed as [Hd _]. apply filter_less.
  - intros x. destruct (parent_digest x) as [w|]; [|done]. rewrite !negb_true_iff, <- !not_true_iff_false.
    intros F G. apply F, H2. by left.
  - exists d. split; [done|]. rewrite Hp, negb_true_iff, negb_false_iff, <- not_true_iff_false. split; [done|].
    apply H2. right. by exists z.
Qed.

(** Enough rounds reach the least closed set. *)
Lemma dependencies_spec n s :
  bt_ok s -> (missing s < n)%nat ->
  let r := add_all_dependencies n au s in
  (forall x, sin x s -> sin x r)
  /\ (forall z y, sin z r -> parent_of z = Some y -> sin y r)
  /\ (forall P : string -> Prop, (forall x, sin x s -> P x) ->
       (forall z y, P z -> parent_of z = Some y -> P y) -> forall x, sin x r -> P x).
Proof.
  revert s. induction n as [|n IH]; intros s Ho Hn; [lia|]. cbn [add_all_dependencies].
  destruct (add_sdjwt_disclosure_dependencies au s) as [s' c] eqn:E.
  pose proof (round_spec _ _ _ _ _ E) as (Ho' & H2 & H3). specialize (Ho' Ho).
  assert (forall z y, sin z s -> parent_of z = Some y -> sin y s') as Hnext.
  { intros z y Hz Hy. apply H2. right. exists z. split; [|done]. by apply sin_keys. }
  destruct c.
  - pose proof (round_less _ _ Ho E). destruct (IH s' Ho' ltac:(lia)) as (I1 & I2 & I3). split_and!; [|done|].
    + intros x Hx. apply I1, H2. by left.
    + intros P Hs Hc. apply I3; [|done]. intros x [Hx|(z & Hz & Hy)]%H2; [by apply Hs|].
      apply (Hc z); [apply Hs; by apply sin_keys|done].
  - assert (forall z y, sin z s -> parent_of z = Some y -> sin y s) as Hcl.
    { destruct (proj1 H3 eq_refl) as [_ Ha]. intros z y Hz. apply Ha. by apply sin_keys. }
    assert (forall x, sin x s' <-> sin x s) as Heq.
    { intros x. rewrite H2. split; [|by left]. intros [|(z & Hz & Hy)]; [done|].
      apply (Hcl z); [by apply sin_keys|done]. }
    cbn zeta. split_and!.
    + intros x. by rewrite Heq.
    + intros z y. rewrite !Heq. apply Hcl.
    + intros P Hs _ x. rewrite Heq. apply Hs.
Qed.
End closure.

Lemma along_iff au paths x :
  sin x (select_along au paths)
  <-> exists d p, In d (verified_disclosures (processed au)) /\ In p paths /\ SdJwtProcess.digest d = x
      /\ ((exists r, p = SdJwtProcess.path d ++ r) \/ (exists r, SdJwtProcess.path d = p ++ r)).
Proof.
  unfold select_along. rewrite sin_extend. split.
  - intros [[=]|H]. apply in_map_iff in H as ([y u] & <- & (p & Hp & H)%in_flat_map).
    apply in_map_iff in H as (d & [= <- <-] & [Hd H]%filter_In). apply orb_true_iff in H.
    rewrite !prefix_iff in H. by exists d, p.
  - intros (d & p & Hd & Hp & <- & H). right. apply in_map_iff. exists (SdJwtProcess.digest d, tt).
    split; [done|]. apply in_flat_map. exists p. split; [done|]. apply in_map_iff. exists d. split; [done|].
    apply filter_In. split; [done|]. apply orb_true_iff. by rewrite !prefix_iff.
Qed.

(** The selected digests are the needed ones. *)
Lemma selected_iff au paths x : sin x (selected_digests au paths) <-> needed au paths x.
Proof.
  unfold selected_digests. destruct (dependencies_spec au (S (length (verified_disclosures (processed au))))
    (select_along au paths)) as (H1 & H2 & H3).
  { apply bt_extend_ok. constructor. }
  { unfold missing. pose proof (filter_length_le (fun d => match parent_digest d with
      | Some y => negb (bt_contains (select_along au paths) y) | None => false end)
      (verified_disclosures (processed au))). lia. }
  split.
  - apply H3.
    + intros y (d & p & Hd & Hp & <- & H)%along_iff. by eapply needed_along.
    + intros z y Hz Hy. unfold parent_of in Hy. destruct (find_digest au z) as [d|] eqn:Ed; [|done].
      by eapply needed_parent.
  - induction 1 as [d p Hd Hp H|z d y _ IH Hd Hy].
    + apply H1, along_iff. by exists d, p.
    + apply (H2 z); [done|]. unfold parent_of. by rewrite Hd.
Qed.

(** ** Answers to a query *)

Lemma push_path_In l acc p : In p (fold_left push_path l acc) <-> In p acc \/ In p l.
Proof.
  revert acc. induction l as [|q l IH]; intros acc; cbn; [tauto|]. rewrite IH. unfold push_path.
  case_bool_decide as E.
  - apply list_elem_of_In in E. split; [intuition|]. intros [|[<-|]]; auto.
  - rewrite in_app_iff. cbn. tauto.
Qed.

Definition allowed (claim : Dcql.ClaimQuery) (v : Value) : Prop :=
  match Dcql.values claim with None => True | Some l => value_in l v = true end.

(** A path of the document that answers a claim. *)
Definition answered_by (au : AuthenticatedSdJwtHolding) (claim : Dcql.ClaimQuery)
    (requested : list RequestedSdJwtPathElement) (p : list ClaimPathElement) : Prop :=
  Forall2 fits_element requested p
  /\ exists v, lookup_path (VObject (claims (processed au))) p = Some v /\ allowed claim v.

Lemma allowed_paths_iff au claim requested p :
  In p (allowed_paths au claim requested) <-> answered_by au claim requested p.
Proof.
  unfold allowed_paths, answered_by, allowed. rewrite in_map_iff. split.
  - intros ([q v] & <- & [H Ha]%filter_In). apply matching_iff in H as [Hf Hl]. split; [done|].
    exists v. split; [done|]. by destruct (Dcql.values claim).
  - intros (Hf & v & Hl & Ha). exists (p, v). split; [done|]. apply filter_In. split; [by apply matching_iff|].
    by destruct (Dcql.values claim).
Qed.

(** Exactly the paths that answer a claim, and at least one for each. *)
Definition answering (au : AuthenticatedSdJwtHolding)
    (l : list (Dcql.ClaimQuery * list RequestedSdJwtPathElement)) (paths : list (list ClaimPathElement)) : Prop :=
  (forall p, In p paths <-> exists claim requested, In (claim, requested) l /\ answered_by au claim requested p)
  /\ forall claim requested, In (claim, requested) l -> exists p, answered_by au claim requested p.

Lemma select_paths_Some au l acc paths :
  select_paths au l acc = Some paths ->
  (forall p, In p paths <-> In p acc \/
     exists claim requested, In (claim, requested) l /\ answered_by au claim requested p)
  /\ forall claim requested, In (claim, requested) l -> exists p, answered_by au claim requested p.
Proof.
  revert acc. induction l as [|[claim requested] l IH]; intros acc H; cbn [select_paths] in H.
  - injection H as <-. split; [|done]. intros p. split; [by left|]. by intros [|(? & ? & [] & _)].
  - destruct (allowed_paths au claim requested) as [|q qs] eqn:E; [done|]. cbn [is_empty] in H.
    rewrite <- E in H. apply IH in H as [H1 H2]. split.
    + intros p. rewrite H1, push_path_In, allowed_paths_iff. split.
      * intros [[|]|(c & r & Hi & Ha)]; [by left|right; exists claim, requested; cbn; auto|].
        right. exists c, r. cbn. auto.
      * intros [|(c & r & [[= <- <-]|Hi] & Ha)]; [tauto|tauto|]. right. by exists c, r.
    + intros c r [[= <- <-]|Hi]; [|by eapply H2]. exists q. apply allowed_paths_iff. rewrite E. by left.
Qed.

(** The disclosures that reach the paths, no more and no fewer. *)
Definition reaches (au : AuthenticatedSdJwtHolding) (paths : list (list ClaimPathElement))
    (ds : list string) : Prop :=
  forall r, In r ds <-> exists d, In d (verified_disclosures (processed au)) /\ SdJwtProcess.raw d = r
    /\ needed au paths (SdJwtProcess.digest d).

Section plan.
Context {SJ : SerdeJson} `{B64 : Base64} `{D : Digest} `{V : Verifier} `{X : X509Der}
  `{CV : CertVerifier} `{SB : StdBase64} `{PQ : MlDsa}.

Lemma selection_reaches au paths :
  reaches au paths (disclosures (select_authenticated_sdjwt_disclosures_for_paths au paths)).
Proof.
  intros r. cbn [disclosures select_authenticated_sdjwt_disclosures_for_paths]. rewrite in_map_iff. split.
  - intros (d & <- & [Hd H]%filter_In). exists d. split_and!; [done|done|]. by apply selected_iff.
  - intros (d & Hd & <- & H). exists d. split; [done|]. apply filter_In. split; [done|].
    by apply (selected_iff au paths).
Qed.

(** A held SD-JWT credential that is current answers the claims: it is of a
    wanted type, every claim has a value that is allowed, and it is presented
    with the disclosures that reach these values and with nothing else. *)
Definition sd_answers (self : Core) (q : Dcql.CredentialQuery) (claims : list Dcql.ClaimQuery)
    (p : PreparedPresentationCredential) : Prop :=
  Dcql.format q = "dc+sd-jwt"%string /\
  exists stored, In stored (credentials self) /\ sdjwt_credential_is_current self stored = Ok tt
    /\ prepared_source p = RefSdJwt (sd_holding stored) (sd_authenticated stored)
    /\ forall au, sd_authenticated stored = Some au ->
       (forall m, Dcql.meta q = Some m -> Dcql.vct_values m <> [] ->
          exists vct, m_get_str (SdJwtProcess.claims (processed au)) "vct" = Some vct
                      /\ In vct (Dcql.vct_values m))
       /\ exists requested paths ds,
          Dcql.map_option (fun claim => requested_sdjwt_path (Dcql.path claim)) claims = Some requested
          /\ answering au (combine claims requested) paths
          /\ prepared_selected p =
             Oid4vp.SelSdJwt (held_issuer_jwt (sd_holding stored)) ds (Some (Dcql.id q))
          /\ reaches au paths ds
          /\ prepared_revealed p = visible_sdjwt_claims au (selected_digests au paths).

Definition presents (issued : Mdoc.IssuerSigned) (namespace : string) (item : Mdoc.IssuerSignedItem) : Prop :=
  exists items, In (namespace, items) (Mdoc.name_spaces issued) /\ In item items.

Lemma minimise_presents issued paths ns item :
  presents (minimise_mdoc issued paths) ns item
  <-> presents issued ns item /\ In (ns, Mdoc.element_id item) paths.
Proof.
  unfold presents, minimise_mdoc. cbn. split.
  - intros (items & Hi & Hit). apply in_map_iff in Hi as ([n its] & [= <- <-] & Hn).
    apply filter_In in Hit as [Hit H]. apply existsb_exists in H as ([a b] & Hab & H).
    apply andb_true_iff in H as [->%String.eqb_eq ->%String.eqb_eq]. split; [by exists its|done].
  - intros ((items & Hi & Hit) & Hp). eexists. split; [apply in_map_iff; by exists (ns, items)|].
    apply filter_In. split; [done|]. apply existsb_exists. eexists. split; [done|].
    cbn. by rewrite !String.eqb_refl.
Qed.

(** A held mdoc that is current answers the claims: it is of the wanted
    document type, has every element with a value that is allowed, and is
    presented with the requested elements only. *)
Definition mdoc_answers (self : Core) (sess : SessionInfo) (q : Dcql.CredentialQuery)
    (claims : list Dcql.ClaimQuery) (p : PreparedPresentationCredential) : Prop :=
  Dcql.format q = "mso_mdoc"%string /\
  exists stored paths issued, In stored (mdoc_holdings self)
    /\ mdoc_credential_is_current self stored = Ok tt
    /\ prepared_source p = RefMdoc (mdoc_holding stored)
    /\ (exists m, Dcql.meta q = Some m /\ Dcql.doctype_value m = Some (doctype (mdoc_holding stored)))
    /\ Dcql.map_option (fun claim => requested_mdoc_path (Dcql.path claim)) claims = Some paths
    /\ (forall claim path, In (claim, path) (combine claims paths) ->
          exists v, mdoc_value_at (issuer_signed (mdoc_holding stored)) path = Some v
            /\ forall l, Dcql.values claim = Some l -> existsb (cbor_value_matches_json v) l = true)
    /\ (exists st ns mgn,
          prepared_selected p = Oid4vp.SelMdoc (doctype (mdoc_holding stored)) issued st ns mgn (Some (Dcql.id q))
          /\ st = Mdoc.oid4vp_session_transcript (rp_client_id sess) (response_uri sess) (nonce sess) mgn)
    /\ Mdoc.issuer_auth issued = Mdoc.issuer_auth (issuer_signed (mdoc_holding stored))
    /\ forall ns item, presents issued ns item
         <-> presents (issuer_signed (mdoc_holding stored)) ns item /\ In (ns, Mdoc.element_id item) paths.

Definition answers (self : Core) (sess : SessionInfo) (q : Dcql.CredentialQuery)
    (claims : list Dcql.ClaimQuery) (p : PreparedPresentationCredential) : Prop :=
  sd_answers self q claims p \/ mdoc_answers self sess q claims p.

(** ** The loops *)

Lemma choose_mdoc_Ok {A} (cand : A -> Candidate) m l sel e sel' e' :
  choose_mdoc cand m l sel e = Ok (sel', e') ->
  forall p, In p sel' -> In p sel \/ exists s, In s l /\ cand s = Chosen p.
Proof.
  revert sel e. induction l as [|s l IH]; intros sel e H p Hp; cbn [choose_mdoc] in H.
  - injection H as <- <-. by left.
  - destruct (cand s) as [|err| |x] eqn:Ec; [| | |destruct m; cbn [negb] in H; [ok_step H|]].
    1-4: apply (IH _ _ H) in Hp as [Hp|(s' & Hs & Hc)]; [|right; exists s'; cbn; auto]; try by left.
    + apply in_app_iff in Hp as [|[<-|[]]]; [by left|]. right. exists s. cbn. auto.
    + injection H as <- <-. apply in_app_iff in Hp as [|[<-|[]]]; [by left|]. right. exists s. cbn. auto.
Qed.

Lemma choose_sd_Ok {A} (cand : A -> Candidate) m l sel e sel' e' :
  choose_sd cand m l sel e = Ok (sel', e') ->
  forall p, In p sel' -> In p sel \/ exists s, In s l /\ cand s = Chosen p.
Proof.
  revert sel e. induction l as [|s l IH]; intros sel e H p Hp; cbn [choose_sd] in H.
  - injection H as <- <-. by left.
  - destruct (cand s) as [|err| |x] eqn:Ec.
    1,2: apply (IH _ _ H) in Hp as [Hp|(s' & Hs & Hc)]; [by left|right; exists s'; cbn; auto].
    + destruct (_ && _); [injection H as <- <-; by left|]. ok_step H.
      apply (IH _ _ H) in Hp as [Hp|(s' & Hs & Hc)]; [by left|right; exists s'; cbn; auto].
    + assert (In p (sel ++ [x]) -> In p sel \/ exists s', In s' (s :: l) /\ cand s' = Chosen p) as Hx.
      { intros [|[<-|[]]]%in_app_iff; [by left|]. right. exists s. cbn. auto. }
      destruct (_ && _); [injection H as <- <-; by apply Hx|]. ok_step H.
      apply (IH _ _ H) in Hp as [Hp|(s' & Hs & Hc)]; [by apply Hx|right; exists s'; cbn; auto].
Qed.

Lemma first_chosen_Ok {A} (cand : A -> Candidate) l e p :
  first_chosen cand l e = Ok p -> exists s, In s l /\ cand s = Chosen p.
Proof.
  revert e. induction l as [|s l IH]; intros e H; cbn [first_chosen] in H; [done|].
  destruct (cand s) as [|err| |x] eqn:Ec.
  1-3: apply IH in H as (s' & Hs & Hc); exists s'; cbn; auto.
  injection H as <-. exists s. cbn. auto.
Qed.

(** ** From choices to answers *)

Lemma zip_all_In {A B} (f : A -> B -> bool) l k x y :
  zip_all f l k = true -> In (x, y) (combine l k) -> f x y = true.
Proof.
  revert k. induction l as [|a l IH]; intros [|b k] H Hi; try done. cbn in H, Hi.
  apply andb_true_iff in H as [H1 H2]. destruct Hi as [[= -> ->]|Hi]; [done|by eapply IH].
Qed.

Lemma sd_candidate_answers self q claims requested stored p :
  Dcql.format q = "dc+sd-jwt"%string ->
  Dcql.map_option (fun claim => requested_sdjwt_path (Dcql.path claim)) claims = Some requested ->
  In stored (credentials self) ->
  sd_candidate self q (match Dcql.meta q with Some m => Dcql.vct_values m | None => [] end) claims requested
    stored = Chosen p ->
  sd_answers self q claims p.
Proof.
  intros Hf Hr Hi H. split; [done|]. exists stored. unfold sd_candidate in H.
  destruct (sd_authenticated stored) as [au|] eqn:Ea, (sd_provenance stored) as [pr|]; try discriminate H.
  - destruct (sd_type_matches _ au) eqn:Et; [|done]. cbn [negb] in H.
    destruct (select_paths au _ []) as [paths|] eqn:Es; [|done].
    destruct (sdjwt_credential_is_current self stored) as [[]|] eqn:Ec; [|done]. injection H as <-.
    apply select_paths_Some in Es as [H1 H2]. split_and!; [done|done|done|]. intros au' [= <-]. split.
    + intros m Hm Hne. rewrite Hm in Et. unfold sd_type_matches in Et.
      destruct (Dcql.vct_values m) as [|v vs] eqn:Ev; [done|]. cbn [is_empty orb] in Et.
      destruct (m_get_str _ "vct") as [vct|]; [|done]. exists vct. split; [done|].
      apply existsb_exists in Et as (x & Hx & ->%String.eqb_eq). done.
    + exists requested, paths, (disclosures (select_authenticated_sdjwt_disclosures_for_paths au paths)).
      split_and!; try done; [|apply selection_reaches].
      split; [|done]. intros x. rewrite H1. cbn. tauto.
  - destruct (_ || _); [done|]. destruct (sdjwt_credential_is_current self stored) as [[]|] eqn:Ec; [|done].
    injection H as <-. by split_and!.
Qed.

Lemma mdoc_candidate_answers self sess q doctype claims paths stored p :
  Dcql.format q = "mso_mdoc"%string ->
  (let! m := Dcql.meta q in Dcql.doctype_value m) = Some doctype ->
  Dcql.map_option (fun claim => requested_mdoc_path (Dcql.path claim)) claims = Some paths ->
  In stored (mdoc_holdings self) ->
  mdoc_candidate self sess q doctype claims paths stored = Chosen p ->
  mdoc_answers self sess q claims p.
Proof.
  intros Hf Hd Hp Hi H. split; [done|]. unfold mdoc_candidate in H.
  destruct (mdoc_matches doctype claims paths stored) eqn:Em; [|done]. cbn [negb] in H.
  destruct (mdoc_credential_is_current self stored) as [[]|] eqn:Ec; [|done]. injection H as <-.
  unfold mdoc_matches in Em. apply andb_true_iff in Em as [[Ed%String.eqb_eq Hz]%andb_true_iff Ha].
  exists stored, paths, (minimise_mdoc (issuer_signed (mdoc_holding stored)) paths).
  split_and!; try done.
  - destruct (Dcql.meta q) as [m|]; [|done]. exists m. split; [done|]. cbn in Hd. by rewrite Hd, Ed.
  - intros claim path Hcp. rewrite forallb_forall in Ha. pose proof (in_combine_r _ _ _ _ Hcp) as Hpi.
    specialize (Ha path Hpi). destruct (mdoc_value_at _ path) as [v|] eqn:Ev; [|done]. exists v. split; [done|].
    intros l Hl. apply (zip_all_In _ _ _ claim path) in Hz; [|done]. unfold mdoc_value_allowed in Hz.
    by rewrite Hl, Ev in Hz.
  - by eexists _, _, _.
  - intros ns item. apply minimise_presents.
Qed.

Lemma some_selected_Ok r l :
  some_selected r = Ok l -> l <> [] /\ exists e, r = Ok (l, e).
Proof.
  unfold some_selected. destruct r as [[sel e]|]; [|done]. destruct sel as [|x sel]; [done|].
  intros [= <-]. split; [done|]. by exists e.
Qed.

Lemma query_claims_answer self sess q claims l :
  select_for_query_claims self sess q claims = Ok l -> l <> [] /\ Forall (answers self sess q claims) l.
Proof.
  unfold select_for_query_claims. destruct (String.eqb_spec (Dcql.format q) "mso_mdoc") as [Hm|_].
  - intros H. ok_step H. ok_step H. ok_norm. apply some_selected_Ok in H as (Hne & e & H). split; [done|].
    apply List.Forall_forall. intros p Hp. right.
    apply (choose_mdoc_Ok _ _ _ _ _ _ _ H) in Hp as [[]|(s & Hs & Hc)].
    by eapply mdoc_candidate_answers.
  - destruct (String.eqb_spec (Dcql.format q) "dc+sd-jwt") as [Hs|]; [|done]. cbn [negb].
    intros H. ok_step H. ok_norm. apply some_selected_Ok in H as (Hne & e & H). split; [done|].
    apply List.Forall_forall. intros p Hp. left.
    apply (choose_sd_Ok _ _ _ _ _ _ _ H) in Hp as [[]|(s & Hi & Hc)].
    by eapply sd_candidate_answers.
Qed.

(** The claims of an option of the query. *)
Definition option_of (q : Dcql.CredentialQuery) (claims : list Dcql.ClaimQuery) : Prop :=
  exists options o, Dcql.claim_selection_options q = Some options /\ In o options
    /\ claims = omap (fun index => Dcql.claims q !! index) o.

Definition answered (self : Core) (sess : SessionInfo) (q : Dcql.CredentialQuery)
    (group : list PreparedPresentationCredential) : Prop :=
  group <> [] /\ exists claims, option_of q claims /\ Forall (answers self sess q claims) group.

Lemma select_options_Ok self sess q options e l :
  select_options self sess q options e = Ok l ->
  exists o, In o options
    /\ select_for_query_claims self sess q (omap (fun index => Dcql.claims q !! index) o) = Ok l.
Proof.
  revert e. induction options as [|o options IH]; intros e H; cbn [select_options] in H; [done|].
  destruct (select_for_query_claims self sess q _) as [sel|err] eqn:E.
  - injection H as <-. exists o. split; [by left|done].
  - apply IH in H as (o' & Ho & H). exists o'. split; [by right|done].
Qed.

Lemma query_answered self sess q l : select_for_query self sess q = Ok l -> answered self sess q l.
Proof.
  unfold select_for_query. intros H. ok_step H. ok_norm. apply select_options_Ok in H as (o & Ho & H).
  apply query_claims_answer in H as [Hne H]. split; [done|]. eexists. split; [|done]. by eexists _, o.
Qed.

(** ** The legacy request *)

Definition any_claim : Dcql.ClaimQuery := {|
  Dcql.claim_id := None; Dcql.path := []; Dcql.values := None; Dcql.intent_to_retain := None |}.

Lemma match_paths_select au l acc :
  match_paths au l acc = select_paths au (map (fun r => (any_claim, r)) l) acc.
Proof.
  revert acc. induction l as [|r l IH]; intros acc; [done|]. cbn [match_paths map select_paths].
  assert (allowed_paths au any_claim r = map fst (matching_sdjwt_values au r)) as ->.
  { unfold allowed_paths. cbn [Dcql.values any_claim]. f_equal.
    induction (matching_sdjwt_values au r) as [|[p v] k IHk]; [done|]. cbn. by rewrite IHk. }
  destruct (matching_sdjwt_values au r); [done|]. cbn [map is_empty fst]. apply IH.
Qed.

Definition legacy_answers (self : Core) (sess : SessionInfo) (p : PreparedPresentationCredential) : Prop :=
  exists stored, In stored (credentials self) /\ sdjwt_credential_is_current self stored = Ok tt
    /\ prepared_source p = RefSdJwt (sd_holding stored) (sd_authenticated stored)
    /\ forall au, sd_authenticated stored = Some au ->
       exists paths ds,
         answering au (map (fun claim => (any_claim, [RName claim])) (requested_claims sess)) paths
         /\ prepared_selected p = Oid4vp.SelSdJwt (held_issuer_jwt (sd_holding stored)) ds None
         /\ reaches au paths ds
         /\ prepared_revealed p = visible_sdjwt_claims au (selected_digests au paths).

Lemma legacy_answered self sess p : select_legacy_sdjwt self sess = Ok p -> legacy_answers self sess p.
Proof.
  intros (stored & Hi & H)%first_chosen_Ok. exists stored. unfold legacy_candidate in H.
  destruct (sd_authenticated stored) as [au|] eqn:Ea, (sd_provenance stored) as [pr|]; try discriminate H.
  - destruct (select_authenticated_sdjwt_disclosures au _) as [sel|] eqn:Es; [|done].
    destruct (sdjwt_credential_is_current self stored) as [[]|] eqn:Ec; [|done]. injection H as <-.
    unfold select_authenticated_sdjwt_disclosures in Es. rewrite match_paths_select, map_map in Es.
    destruct (select_paths au _ []) as [paths|] eqn:Ep; [|done]. injection Es as <-.
    apply select_paths_Some in Ep as [H1 H2]. split_and!; [done|done|done|]. intros au' [= <-].
    exists paths, (disclosures (select_authenticated_sdjwt_disclosures_for_paths au paths)).
    split_and!; try done; [|apply selection_reaches]. split; [|done]. intros x. rewrite H1. cbn. tauto.
  - destruct (_ && _); [done|]. destruct (sdjwt_credential_is_current self stored) as [[]|] eqn:Ec; [|done].
    injection H as <-. by split_and!.
Qed.

(** ** The plan *)

Lemma take_candidates_Ok (cs all : list (option (list PreparedPresentationCredential))) ixs l :
  (forall i g, cs !! i = Some (Some g) -> all !! i = Some (Some g)) ->
  take_candidates cs ixs = Ok l ->
  exists groups, l = concat groups /\ Forall2 (fun i g => all !! i = Some (Some g)) ixs groups.
Proof.
  revert cs l. induction ixs as [|i ixs IH]; intros cs l Hc H; cbn [take_candidates] in H.
  - injection H as <-. by exists [].
  - ok_step H. ok_step H. injection H as <-. ok_norm.
    match goal with E : (let! c := cs !! i in c) = Some ?t |- _ =>
      destruct (cs !! i) as [[g|]|] eqn:Ei; try discriminate E; cbn in E; injection E as <- end.
    match goal with E : take_candidates _ _ = Ok _ |- _ => apply IH in E as (groups & -> & Hg) end.
    + exists (g :: groups). split; [done|]. constructor; [by apply Hc|done].
    + intros j h Hj. apply Hc. destruct (decide (i = j)) as [<-|Hn].
      * apply list_lookup_insert_Some in Hj as [(_ & [=] & _)|(? & _)]; done.
      * by rewrite list_lookup_insert_ne in Hj.
Qed.

(** Which queries can be answered. *)
Definition satisfiable (self : Core) (sess : SessionInfo) (d : Dcql.DcqlQuery) : list bool :=
  map (fun q => is_ok (select_for_query self sess q)) (Dcql.credentials d).

Definition plan_answers (self : Core) (sess : SessionInfo) (d : Dcql.DcqlQuery)
    (prepared : list PreparedPresentationCredential) : Prop :=
  exists indices groups,
    Dcql.credential_selection_plan d (satisfiable self sess d) = Some indices
    /\ prepared = concat groups
    /\ Forall2 (fun i group => exists q, Dcql.credentials d !! i = Some q /\ answered self sess q group)
         indices groups.

Lemma prepare_dcql_answers self sess d l :
  prepare_dcql self sess d = Ok l -> l <> [] /\ plan_answers self sess d l.
Proof.
  unfold prepare_dcql. intros H. ok_step H. ok_step H. ok_norm.
  match goal with E : Dcql.credential_selection_plan _ _ = Some ?ixs, E' : is_empty ?ixs = false |- _ =>
    rename E into Ep; rename E' into Ee; rename ixs into indices end.
  apply (take_candidates_Ok _ (map candidate_of (map (select_for_query self sess) (Dcql.credentials d))))
    in H as (groups & -> & Hg); [|done].
  assert (Forall2 (fun i group => exists q, Dcql.credentials d !! i = Some q /\ answered self sess q group)
    indices groups) as Ha.
  { eapply Forall2_impl; [|exact Hg]. intros i g Hi. cbn in Hi.
    rewrite map_map, list_lookup_fmap in Hi.
    destruct (Dcql.credentials d !! i) as [q|]; [|done]. cbn in Hi. injection Hi as Hi. exists q.
    split; [done|]. apply query_answered. destruct (select_for_query self sess q); [|done].
    by injection Hi as ->. }
  split.
  - destruct Ha as [|i g ixs gs (q & _ & Hne & _) _]; [done|]. cbn. by destruct g.
  - exists indices, groups. split_and!; [|done|done]. rewrite <- Ep. f_equal. unfold satisfiable.
    rewrite !map_map. apply map_ext. intros q. by destruct (select_for_query self sess q).
Qed.

(** ** What is frozen is current *)

Lemma find_held {A B} `{EqDecision B} (h : A -> B) (g : A -> bool) l s :
  NoDup (map h l) -> In s l -> g s = true ->
  List.find (fun x => bool_decide (h x = h s) && g x) l = Some s.
Proof.
  induction l as [|x l IH]; intros Hd Hi Hg; [done|]. cbn [map] in Hd. apply list.NoDup_cons in Hd as [Hx Hd].
  cbn [List.find]. destruct Hi as [->|Hi]; [by rewrite bool_decide_true, Hg|].
  rewrite bool_decide_false; [by apply IH|]. intros E. apply Hx. rewrite E. by apply list_elem_of_In, in_map.
Qed.

Lemma current_environment a b stored :
  same_environment a b -> sdjwt_credential_is_current a stored = sdjwt_credential_is_current b stored.
Proof.
  intros H. unfold sdjwt_credential_is_current. rewrite (same_clock _ _ H).
  destruct (sd_provenance stored); [|done]. by rewrite (again_environment _ _ _ H).
Qed.

Lemma mdoc_current_environment a b stored :
  same_environment a b -> mdoc_credential_is_current a stored = mdoc_credential_is_current b stored.
Proof.
  intros H. unfold mdoc_credential_is_current. rewrite (same_clock _ _ H).
  destruct (mdoc_provenance stored); [|done]. by rewrite (again_environment _ _ _ H).
Qed.

Lemma option_eqb_refl o : option_eqb authenticated_eqb o o = true.
Proof. destruct o; [|done]. apply authenticated_eqb_refl. Qed.

(** The source of a prepared credential is held and current. *)
Definition source_held (self : Core) (source : PresentationCredentialReference) : Prop :=
  match source with
  | RefSdJwt holding au => exists stored, In stored (credentials self) /\ sd_holding stored = holding
      /\ sd_authenticated stored = au /\ sdjwt_credential_is_current self stored = Ok tt
  | RefMdoc holding => exists stored, In stored (mdoc_holdings self) /\ mdoc_holding stored = holding
      /\ mdoc_credential_is_current self stored = Ok tt
  end.

Lemma answers_held self sess q claims p : answers self sess q claims p -> source_held self (prepared_source p).
Proof.
  intros [(_ & s & Hi & Hc & -> & _)|(_ & s & ? & ? & Hi & Hc & -> & _)]; by exists s.
Qed.

Lemma plan_held self sess d l : plan_answers self sess d l -> Forall (source_held self) (map prepared_source l).
Proof.
  intros (ixs & groups & _ & -> & H). apply Forall_map, Forall_concat. induction H as [|i g ixs gs Hg _ IH]; constructor; [|done].
  destruct Hg as (q & _ & _ & claims & _ & Hg). eapply List.Forall_impl; [|exact Hg]. intros p. apply answers_held.
Qed.

Lemma held_is_current self core source :
  same_environment core self -> credentials core = credentials self -> mdoc_holdings core = mdoc_holdings self ->
  holdings_distinct self -> source_held self source -> source_is_current core source = Ok tt.
Proof.
  intros He Hc Hm [Hd1 Hd2]. destruct source as [h au|h]; cbn [source_held source_is_current].
  - intros (s & Hi & <- & <- & Hcur). rewrite Hc, find_held by (done || apply option_eqb_refl). cbn [ok_or].
    by rewrite (current_environment _ _ _ He).
  - intros (s & Hi & <- & Hcur). rewrite Hm.
    assert (List.find (fun x => bool_decide (mdoc_holding x = mdoc_holding s)) (mdoc_holdings self) = Some s) as ->.
    { rewrite <- (find_held mdoc_holding (fun _ => true) _ s Hd2 Hi eq_refl).
      clear. induction (mdoc_holdings self) as [|x l IH]; [done|]. cbn. by rewrite IH, andb_true_r. }
    cbn [ok_or]. by rewrite (mdoc_current_environment _ _ _ He).
Qed.

(** What the preparation does when it succeeds. *)
Lemma prepare_Ok self core :
  prepare_presentation_selection self = (core, Ok tt) ->
  exists sess prepared,
    session self = Some sess /\ core = {| self with session := Some (freeze sess prepared) |}
    /\ presentation_trust_is_current self sess = Ok tt /\ prepared <> []
    /\ match dcql sess with
       | Some d => if is_empty (Dcql.credentials d) then exists p, prepared = [p] /\ legacy_answers self sess p
                   else plan_answers self sess d prepared
       | None => exists p, prepared = [p] /\ legacy_answers self sess p
       end.
Proof.
  unfold prepare_presentation_selection.
  match goal with |- match ?r with Ok _ => _ | Err _ => _ end = _ -> _ => destruct r as [sess'|] eqn:H; [|done] end.
  intros [= <-]. ok_steps H. injection H as <-. ok_norm.
  match goal with E : session self = Some ?s, E' : prepare _ _ = Ok ?l |- _ =>
    rename E' into Hp; exists s, l; rename s into sess; rename l into prepared end.
  split_and!; try done.
  { by intros ->. }
  unfold prepare in Hp. destruct (dcql sess) as [d|]; [destruct (is_empty (Dcql.credentials d))|].
  - ok_step Hp. injection Hp as <-. eexists. split; [done|]. by apply legacy_answered.
  - by apply prepare_dcql_answers in Hp as [_ Hp].
  - ok_step Hp. injection Hp as <-. eexists. split; [done|]. by apply legacy_answered.
Qed.

Lemma prepare_Err self core e : prepare_presentation_selection self = (core, Err e) -> core = self.
Proof.
  unfold prepare_presentation_selection.
  match goal with |- match ?r with Ok _ => _ | Err _ => _ end = _ -> _ => destruct r; [done|] end.
  by intros [= <- _].
Qed.

(** C29: The plan that is frozen before consent answers the request and
    discloses nothing else.  A preparation that succeeds has checked the trust
    list and the relying party; it answers the queries of a least plan of the
    DCQL request, each with current credentials of the wanted type, under one
    of the query's claim options: every claim of the option has an allowed
    value, an SD-JWT credential comes with exactly the disclosures needed to
    reach these values, an mdoc with exactly the requested elements under the
    unchanged issuer signature and the transcript of this request.  A refusal
    changes nothing. *)
Theorem plan_answers_request self :
  match prepare_presentation_selection self with
  | (core, Err _) => core = self
  | (core, Ok _) =>
      exists sess prepared,
        session self = Some sess /\ core = {| self with session := Some (freeze sess prepared) |}
        /\ presentation_trust_is_current self sess = Ok tt /\ prepared <> []
        /\ match dcql sess with
           | Some d =>
               if is_empty (Dcql.credentials d)
               then exists p, prepared = [p] /\ legacy_answers self sess p
               else plan_answers self sess d prepared
           | None => exists p, prepared = [p] /\ legacy_answers self sess p
           end
  end.
Proof.
  destruct (prepare_presentation_selection self) as [core [[]|e]] eqn:H.
  - by apply prepare_Ok.
  - by eapply prepare_Err.
Qed.

(** What is frozen passes the check that precedes consent, every signature
    and the response, as long as clock and trust list have not changed: in a
    wallet without two holdings of one content, the evidence of a prepared
    presentation is current. *)
Theorem frozen_plan_is_current self core :
  holdings_distinct self -> prepare_presentation_selection self = (core, Ok tt) ->
  presentation_evidence_is_current core = Ok tt.
Proof.
  intros Hd (sess & prepared & Hs & -> & Ht & Hne & Ha)%prepare_Ok.
  assert (Forall (source_held self) (map prepared_source prepared)) as Hh.
  { assert ((exists p, prepared = [p] /\ legacy_answers self sess p) ->
      Forall (source_held self) (map prepared_source prepared)) as Hl.
    { intros (p & -> & s & Hi & Hc & Hsrc & _). constructor; [|done]. rewrite Hsrc. by exists s. }
    destruct (dcql sess) as [d|]; [destruct (is_empty _)|]; [by apply Hl|by eapply plan_held|by apply Hl]. }
  unfold presentation_evidence_is_current. cbn [session ok_or].
  replace (presentation_trust_is_current _ _) with (presentation_trust_is_current self sess) by done.
  rewrite Ht. cbn [freeze selected_sources selected_credentials].
  replace (is_empty (map prepared_source prepared)) with false by by destruct prepared.
  unfold len. rewrite !length_map, Z.eqb_refl. cbn [negb orb].
  induction Hh as [|source l Hsrc _ IH]; [done|]. cbn [sources_are_current].
  rewrite (held_is_current self _ source) by done. apply IH.
Qed.
End plan.

(** ** A request that is answered *)

Module Examples.
Import X509Profiles.Examples IngestionSpec.Examples.
#[local] Existing Instances Samples.hex64 Samples.trunc_digest Samples.echo_verifier.

Definition claim (name : string) : Dcql.ClaimQuery := {|
  Dcql.claim_id := None; Dcql.path := [VString name]; Dcql.values := None;
  Dcql.intent_to_retain := None |}.

Definition query (l : list Dcql.ClaimQuery) : Dcql.DcqlQuery := {|
  Dcql.credentials := [{|
    Dcql.id := "q"; Dcql.format := "dc+sd-jwt";
    Dcql.meta := Some {| Dcql.vct_values := ["urn:eudi:mdl:1"%string]; Dcql.doctype_value := None |};
    Dcql.claims := l; Dcql.claim_sets := None; Dcql.trusted_authorities := None;
    Dcql.require_cryptographic_holder_binding := None; Dcql.multiple := None |}];
  Dcql.credential_sets := None |}.

Definition asked (l : list Dcql.ClaimQuery) : Core :=
  {| presenting with session := Some {| request with
       dcql := Some (query l); selected_credentials := []; selected_sources := [] |} |}.

Definition frozen (l : list Dcql.ClaimQuery) : option (list (list string) * list string) :=
  match prepare_presentation_selection (asked l) with
  | (core, Ok _) =>
      let! s := session core in
      Some (map (fun c => match c with Oid4vp.SelSdJwt _ ds _ => ds | _ => [] end) (selected_credentials s),
            selected_revealed_claims s)
  | _ => None
  end.

(** The disclosure is sent when its claim is asked for, and only then; what is
    permanently in the credential is shown as revealed in any case. *)
Example minimal_disclosure :
  frozen [claim "family_name"]
    = Some ([[SdJwtProcess.Examples.hex "D1"]],
            ["driving_privileges"; "family_name"; "given_name"; "issuing_country"]%string)
  /\ frozen [claim "given_name"]
    = Some ([[]], ["driving_privileges"; "given_name"; "issuing_country"]%string)
  /\ frozen [claim "address"] = None
  /\ frozen [{| (claim "family_name") with Dcql.values := Some [VString "C"] |}] = None.
Proof. vm_compute. split_and!; reflexivity. Qed.
End Examples.

Lemma frozen_plan_is_current_witness :
  @presentation_evidence_is_current IngestionSpec.Examples.wallet_serde Samples.hex64 Samples.trunc_digest
    Samples.echo_verifier IngestionSpec.Examples.wallet_der X509Profiles.Examples.sample_verifier
    IngestionSpec.Examples.no_base64 IngestionSpec.Examples.no_pq
    (fst (@prepare_presentation_selection IngestionSpec.Examples.wallet_serde Samples.hex64
      Samples.trunc_digest Samples.echo_verifier IngestionSpec.Examples.wallet_der
      X509Profiles.Examples.sample_verifier IngestionSpec.Examples.no_base64 IngestionSpec.Examples.no_pq
      (Examples.asked [Examples.claim "family_name"]))) = Ok tt.
Proof.
  apply (@frozen_plan_is_current IngestionSpec.Examples.wallet_serde Samples.hex64
    Samples.trunc_digest Samples.echo_verifier IngestionSpec.Examples.wallet_der
    X509Profiles.Examples.sample_verifier IngestionSpec.Examples.no_base64 IngestionSpec.Examples.no_pq
    (Examples.asked [Examples.claim "family_name"])).
  - assert (length (credentials (Examples.asked [Examples.claim "family_name"])) = 1%nat) as H
      by (vm_compute; reflexivity).
    assert (mdoc_holdings (Examples.asked [Examples.claim "family_name"]) = []) as Hm
      by (vm_compute; reflexivity).
    split; [|rewrite Hm; constructor].
    destruct (credentials (Examples.asked [Examples.claim "family_name"])) as [|c [|c' l]];
      [discriminate H| |discriminate H]. apply NoDup_singleton.
  - vm_compute. reflexivity.
Defined.
