(* ===== verification/DurableCore.v ===== *)
(** * Durable checkpoints of the wallet (crates/wallet-core/src/durable.rs)

    Export of a core's durable state and its atomic restoration: what of
    durable.rs reads or writes the [Core], on the codec of [Durable].  A
    restoration reads eight random bytes for the new operation identifiers;
    they are its argument [random]. *)

From S2P Require Import Cbor Cose Mdoc Oid4vci Oid4vp Payment Qes W2w Trust Wua TxnLog Durable.
From S2P Require Import Prelude Utf8 BTree Boundary Serde SdJwtProcess Catalogue X509 X509Path.
From S2P Require Import Presenter PidProfile Holdings CredentialChecks WalletCore Ingestion Summaries.

Open Scope Z_scope.
Open Scope rust_scope.

Section durable.
Context {SJ : SerdeJson} `{B64 : Base64} `{D : Digest} `{V : Verifier} `{X : X509Der}
  `{CV : CertVerifier} `{SB : StdBase64} `{PQ : MlDsa}.

Definition require_current_environment (core : Core) : result Z DurableCheckpointError :=
  if now_epoch core <=? 0 then Err ClockUnavailable
  else
    let? sequence := ok_or (Trust.store_sequence_number (trust_store core)) TrustListUnavailable in
    if negb (Trust.is_valid_at (trust_store core) (now_epoch core)) then Err TrustListExpired
    else
      let? attestation := ok_or (wua core) WuaUnavailable in
      if negb (Wua.is_valid_for_at attestation (device_public_key core) Wua.High (now_epoch core))
      then Err WuaInvalid
      else Ok sequence.

Definition context_of (core : Core) : result ContextHashes DurableCheckpointError :=
  current_context (wallet_client_id (config core)) (device_key_ref (config core))
    (device_public_key core).

(** ** The records of the authenticated credentials *)

Definition is_authenticated (p : StoredProvenance) : bool :=
  match p with Authenticated _ => true | TestFixture => false end.

(** Some authenticated credential has the holding of a later one. *)
Fixpoint repeated_holding {A B} `{EqDecision B} (origin : A -> StoredProvenance) (holding : A -> B)
    (l : list A) : bool :=
  match l with
  | [] => false
  | stored :: l =>
      (is_authenticated (origin stored)
       && existsb (fun candidate => is_authenticated (origin candidate)
                     && bool_decide (holding candidate = holding stored)) l)
      || repeated_holding origin holding l
  end.

(** One authenticated credential: within the budgets, and authenticated again
    to what is stored. *)
Definition fresh_record (core : Core) (code : Z) (p : CredentialProvenance)
    (same : VerifiedCredential -> bool) (index aggregate : Z)
  : result (CredentialRecord * Z) DurableCheckpointError :=
  let identity := evidence_identity (provenance_issuer p) in
  let path := evidence_certificate_path (provenance_issuer p) in
  let? aggregate := validate_record_parts (raw_credential p) identity path aggregate in
  let? fresh :=
    map_err (authenticate_received_credential core (provenance_format p) (raw_credential p) path identity)
      (CredentialInvalid index) in
  if negb (bool_decide (provenance fresh = p) && same (credential fresh))
  then Err (CredentialEvidenceMismatch index)
  else Ok ({| Durable.format := code; Durable.raw := raw_credential p; issuer_identity := identity;
              certificate_path := path |}, aggregate).

Fixpoint push_records {A} (core : Core) (code : Z) (origin : A -> StoredProvenance)
    (same : A -> VerifiedCredential -> bool) (l : list A) (records : list CredentialRecord)
    (aggregate : Z) : result (list CredentialRecord * Z) DurableCheckpointError :=
  match l with
  | [] => Ok (records, aggregate)
  | stored :: l =>
      match origin stored with
      | TestFixture => push_records core code origin same l records aggregate
      | Authenticated p =>
          let? (record, aggregate) :=
            fresh_record core code p (same stored) (len records) aggregate in
          push_records core code origin same l (records ++ [record]) aggregate
      end
  end.

(** [windows(2)]: some neighbours are not strictly ascending. *)
Fixpoint not_ascending (records : list CredentialRecord) : bool :=
  match records with
  | a :: (b :: _) as rest =>
      match cmp_canonical a b with Lt => not_ascending rest | _ => true end
  | _ => false
  end.

Definition count_authenticated {A} (origin : A -> StoredProvenance) (l : list A) : Z :=
  len (List.filter (fun stored => is_authenticated (origin stored)) l).

Definition authenticated_records (core : Core) : result (list CredentialRecord) DurableCheckpointError :=
  let? authenticated_count :=
    ok_or (checked_u64 (count_authenticated sd_provenance (credentials core)
                        + count_authenticated mdoc_provenance (mdoc_holdings core))) SizeOverflow in
  if MAX_CREDENTIALS <? authenticated_count
  then Err (ResourceLimit Credentials MAX_CREDENTIALS authenticated_count)
  else if repeated_holding sd_provenance sd_holding (credentials core) then Err DuplicateCredential
  else if repeated_holding mdoc_provenance mdoc_holding (mdoc_holdings core)
  then Err DuplicateCredential
  else
    let? (records, aggregate) :=
      push_records core 1 sd_provenance same_sd (credentials core) [] 0 in
    let? (records, aggregate) :=
      push_records core 2 mdoc_provenance same_mdoc (mdoc_holdings core) records aggregate in
    let records := sort_with cmp_canonical records in
    if not_ascending records then Err DuplicateCredential else Ok records.

(** ** Export *)

Definition log_error {A} (r : result A TxnLog.Error) : result A DurableCheckpointError :=
  map_err r TransactionLogError.

(** The checkpoint that an export encodes. *)
Definition checkpoint_of (self : Core) (envelope_generation : Z)
  : result Checkpoint DurableCheckpointError :=
  if envelope_generation =? 0 then Err InvalidGeneration
  else
    let? context := context_of self in
    let? trust_sequence_high_water := require_current_environment self in
    if negb (audit_log_available self) then Err AuditLogUnavailable
    else
      let? credentials := authenticated_records self in
      let? presentation := sorted_replay_str (seen_nonces self) in
      let? payment := sorted_replay (pay_seen_nonces self) in
      let? issuance := sorted_replay (iss_seen_c_nonces self) in
      let? qes := sorted_replay (qes_seen_nonces self) in
      let entries := TxnLog.entries (log self) in
      if TxnLog.MAX_ENTRIES <? len entries
      then Err (TransactionLogError (TxnLog.EntryLimitExceeded TxnLog.MAX_ENTRIES))
      else
        let? _ := validate_transaction_clock entries (now_epoch self) in
        let transaction_head := TxnLog.head (log self) in
        let? _ := log_error (TxnLog.restore_checked entries transaction_head) in
        Ok {| generation := envelope_generation;
              context := context;
              clock_high_water := now_epoch self;
              trust_sequence_high_water := trust_sequence_high_water;
              Durable.credentials := credentials;
              replay := {| r_presentation := presentation; r_payment := payment;
                           r_issuance := issuance; r_qes := qes |};
              transaction_entries := entries;
              transaction_head := transaction_head;
              issuance_interrupted :=
                bool_decide (active self = Issuance)
                && is_some (issuance_document_summary self Preparing) |}.

Definition export_durable_checkpoint (self : Core) (envelope_generation : Z)
  : result bytes DurableCheckpointError :=
  let? checkpoint := checkpoint_of self envelope_generation in
  encode_checkpoint checkpoint.

(** ** Restoration *)

Definition record_format (self : CredentialRecord)
  : result Oid4vci.CredentialFormat DurableCheckpointError :=
  if Durable.format self =? 1 then Ok Oid4vci.DcSdJwt
  else if Durable.format self =? 2 then Ok Oid4vci.MsoMdoc
  else Err Malformed.

(** The record is evidence of exactly this provenance. *)
Definition record_matches (f : Oid4vci.CredentialFormat) (record : CredentialRecord)
    (p : CredentialProvenance) : bool :=
  bool_decide (provenance_format p = f)
  && bool_decide (raw_credential p = Durable.raw record)
  && bool_decide (evidence_identity (provenance_issuer p) = issuer_identity record)
  && bool_decide (evidence_certificate_path (provenance_issuer p) = certificate_path record).

Definition stage_credential (a : AuthenticatedCredential) (sd : list StoredSdJwtCredential)
    (mdoc : list StoredMdocCredential)
  : result (list StoredSdJwtCredential * list StoredMdocCredential) DurableCheckpointError :=
  match credential a with
  | VerifiedSdJwt holding authenticated validity =>
      if existsb (fun stored => bool_decide (sd_holding stored = holding)) sd
      then Err DuplicateCredential
      else Ok (sd ++ [{| sd_holding := holding; sd_authenticated := Some authenticated;
                         sd_validity := validity; sd_provenance := Authenticated (provenance a) |}], mdoc)
  | VerifiedMdoc holding validity =>
      if existsb (fun stored => bool_decide (mdoc_holding stored = holding)) mdoc
      then Err DuplicateCredential
      else Ok (sd, mdoc ++ [{| mdoc_holding := holding; mdoc_stored_validity := validity;
                               mdoc_provenance := Authenticated (provenance a) |}])
  end.

Fixpoint stage_records (self : Core) (index : Z) (records : list CredentialRecord)
    (sd : list StoredSdJwtCredential) (mdoc : list StoredMdocCredential)
  : result (list StoredSdJwtCredential * list StoredMdocCredential) DurableCheckpointError :=
  match records with
  | [] => Ok (sd, mdoc)
  | record :: records =>
      let? f := record_format record in
      let? authenticated :=
        map_err (authenticate_received_credential self f (Durable.raw record) (certificate_path record)
                   (issuer_identity record)) (CredentialInvalid index) in
      if negb (record_matches f record (provenance authenticated))
      then Err (CredentialEvidenceMismatch index)
      else
        let? (sd, mdoc) := stage_credential authenticated sd mdoc in
        stage_records self (index + 1) records sd mdoc
  end.

Definition fresh_operation_id (self : Core) (random : bytes) : Z :=
  let staged := operation_id_seed random in
  if staged =? next_operation_id self then staged mod 2 ^ 62 + 1 else staged.

(** The assignments after the last check. *)
Definition commit (self : Core) (c : Checkpoint) (sd : list StoredSdJwtCredential)
    (mdoc : list StoredMdocCredential) (staged_log : TxnLog.TransactionLog)
    (staged_next_operation_id : Z) : Core :=
  {| self with
     credentials := sd;
     mdoc_holdings := mdoc;
     seen_nonces := r_presentation (replay c);
     pay_seen_nonces := r_payment (replay c);
     iss_seen_c_nonces := r_issuance (replay c);
     qes_seen_nonces := r_qes (replay c);
     log := staged_log;
     vp := Oid4vp.Idle;
     session := None;
     pending_rp_provenance := None;
     payment := Payment.Idle;
     pay_pending := None;
     active := NoFlow;
     next_operation_id := staged_next_operation_id;
     pending_operations := [];
     issuance := Oid4vci.Idle;
     durable_issuance_interrupted := issuance_interrupted c;
     issuer_trusted_current := false;
     issuer_id_current := ""%string;
     issuer_cert_chain_current := [];
     issuer_id_assertion_current := ""%string;
     issuer_candidates_current := [];
     pending_verified_credential := None;
     last_credential_ingestion_error := None;
     issuance_consent_hash := ZERO32;
     status_lists := [];
     pending_status_references := [];
     pay_summary := None;
     pay_consent_hash := ZERO32;
     qes := Qes.Idle;
     qes_consent_hash := ZERO32;
     w2w := W2w.Idle;
     w2w_credential := None |}.

Definition same_context (embedded current : ContextHashes) : result unit DurableCheckpointError :=
  if negb (bool_decide (Durable.wallet_client_id embedded = Durable.wallet_client_id current))
  then Err (ContextMismatch WalletClientId)
  else if negb (bool_decide (Durable.device_key_ref embedded = Durable.device_key_ref current))
  then Err (ContextMismatch DeviceKeyReference)
  else if negb (bool_decide (Durable.device_public_key embedded = Durable.device_public_key current))
  then Err (ContextMismatch DevicePublicKey)
  else Ok tt.

(** Everything that can fail; nothing is written before it has succeeded. *)
Definition staged_restore (self : Core) (random : bytes) (bytes : Prelude.bytes)
    (authenticated_envelope_generation : Z) : result Core DurableCheckpointError :=
  if authenticated_envelope_generation =? 0 then Err InvalidGeneration
  else
    let? checkpoint := decode_checkpoint bytes in
    if negb (generation checkpoint =? authenticated_envelope_generation)
    then Err (GenerationMismatch authenticated_envelope_generation (generation checkpoint))
    else
      let? current := context_of self in
      let? _ := same_context (context checkpoint) current in
      let? current_trust_sequence := require_current_environment self in
      if now_epoch self <? clock_high_water checkpoint
      then Err (ClockRollback (clock_high_water checkpoint) (now_epoch self))
      else if current_trust_sequence <? trust_sequence_high_water checkpoint
      then Err (TrustListRollback (trust_sequence_high_water checkpoint) current_trust_sequence)
      else
        let? (sd, mdoc) := stage_records self 0 (Durable.credentials checkpoint) [] [] in
        let? _ := validate_transaction_clock (transaction_entries checkpoint)
                    (clock_high_water checkpoint) in
        let? staged_log :=
          log_error (TxnLog.restore_checked (transaction_entries checkpoint)
                       (transaction_head checkpoint)) in
        Ok (commit self checkpoint sd mdoc staged_log (fresh_operation_id self random)).

Definition restore_durable_checkpoint (self : Core) (random : bytes) (bytes : Prelude.bytes)
    (authenticated_envelope_generation : Z) : Core * result unit DurableCheckpointError :=
  match staged_restore self random bytes authenticated_envelope_generation with
  | Ok core => (core, Ok tt)
  | Err e => (self, Err e)
  end.
End durable.
