(* ===== verification/DurableSpec.v ===== *)
(** * What checkpoints guarantee

    Restoration brings back authenticated state only; an exported checkpoint
    restores to the state that was exported. *)

From S2P Require Import Cbor Cose Mdoc Oid4vci Oid4vp Payment Qes W2w Trust Wua TxnLog.
From S2P Require Import X509Search X509Profiles Durable DurableCodec.
From S2P Require Import Prelude Utf8 BTree Boundary Serde SdJwtProcess Catalogue X509 X509Path.
From S2P Require Import Presenter PidProfile Holdings CredentialChecks WalletCore Ingestion.
From S2P Require Import Summaries IngestionSpec DurableCore.

Open Scope Z_scope.
Open Scope rust_scope.

Section spec.
Context {SJ : SerdeJson} `{B64 : Base64} `{D : Digest} `{V : Verifier} `{X : X509Der}
  `{CV : CertVerifier} `{SB : StdBase64} `{PQ : MlDsa}.

(** ** Staging *)

(** What a record is restored as. *)
Definition restored_as (self : Core) (r : CredentialRecord) (a : AuthenticatedCredential) : Prop :=
  exists f, record_format r = Ok f
    /\ authenticate_received_credential self f (Durable.raw r) (certificate_path r) (issuer_identity r)
       = Ok a
    /\ record_matches f r (provenance a) = true.

Definition sd_of (a : AuthenticatedCredential) : list StoredSdJwtCredential :=
  match credential a with
  | VerifiedSdJwt holding authenticated validity =>
      [{| sd_holding := holding; sd_authenticated := Some authenticated; sd_validity := validity;
          sd_provenance := Authenticated (provenance a) |}]
  | VerifiedMdoc _ _ => []
  end.

Definition mdoc_of (a : AuthenticatedCredential) : list StoredMdocCredential :=
  match credential a with
  | VerifiedMdoc holding validity =>
      [{| mdoc_holding := holding; mdoc_stored_validity := validity;
          mdoc_provenance := Authenticated (provenance a) |}]
  | VerifiedSdJwt _ _ _ => []
  end.

Definition distinct (sd : list StoredSdJwtCredential) (mdoc : list StoredMdocCredential) : Prop :=
  NoDup (map sd_holding sd) /\ NoDup (map mdoc_holding mdoc).

Lemma no_holding {A B} `{EqDecision B} (h : A -> B) l x :
  existsb (fun s => bool_decide (h s = x)) l = false <-> x ∉ map h l.
Proof.
  rewrite <- not_true_iff_false, existsb_exists. split; intros H F; apply H.
  - apply list_elem_of_In, in_map_iff in F as (s & <- & Hs). exists s. by rewrite bool_decide_true.
  - destruct F as (s & Hs & <-%bool_decide_eq_true). apply list_elem_of_In. by apply in_map.
Qed.

Lemma nodup_last {A} (l : list A) x : NoDup (l ++ [x]) <-> NoDup l /\ x ∉ l.
Proof.
  rewrite list.NoDup_app. split.
  - intros (H1 & H2 & _). split; [done|]. intros F. apply (H2 x F). by apply list_elem_of_singleton.
  - intros (H1 & H2). split_and!; [done| |apply NoDup_singleton].
    intros y Hy ->%list_elem_of_singleton. done.
Qed.

Lemma stage_credential_iff a sd mdoc sd' mdoc' :
  distinct sd mdoc ->
  stage_credential a sd mdoc = Ok (sd', mdoc')
  <-> sd' = sd ++ sd_of a /\ mdoc' = mdoc ++ mdoc_of a /\ distinct sd' mdoc'.
Proof.
  intros [H1 H2]. unfold stage_credential, sd_of, mdoc_of, distinct.
  destruct (credential a) as [h au v|h v].
  - destruct (existsb _ sd) eqn:E.
    + split; [done|]. intros (-> & _ & Hd & _). rewrite map_app in Hd. cbn in Hd.
      apply nodup_last in Hd as [_ Hd]. apply no_holding in Hd. congruence.
    + apply no_holding in E. split.
      * intros [= <- <-]. rewrite app_nil_r. split_and!; try done. rewrite map_app. cbn. by apply nodup_last.
      * intros (-> & -> & _). by rewrite app_nil_r.
  - destruct (existsb _ mdoc) eqn:E.
    + split; [done|]. intros (_ & -> & _ & Hd). rewrite map_app in Hd. cbn in Hd.
      apply nodup_last in Hd as [_ Hd]. apply no_holding in Hd. congruence.
    + apply no_holding in E. split.
      * intros [= <- <-]. rewrite app_nil_r. split_and!; try done. rewrite map_app. cbn. by apply nodup_last.
      * intros (-> & -> & _). by rewrite app_nil_r.
Qed.

Lemma distinct_app sd x mdoc y : distinct (sd ++ x) (mdoc ++ y) -> distinct sd mdoc.
Proof. unfold distinct. rewrite !map_app. by intros [(? & _)%list.NoDup_app (? & _)%list.NoDup_app]. Qed.

Lemma stage_records_iff self i rs sd mdoc sd' mdoc' :
  distinct sd mdoc ->
  stage_records self i rs sd mdoc = Ok (sd', mdoc')
  <-> exists l, Forall2 (restored_as self) rs l /\ sd' = sd ++ flat_map sd_of l
      /\ mdoc' = mdoc ++ flat_map mdoc_of l /\ distinct sd' mdoc'.
Proof.
  revert i sd mdoc. induction rs as [|r rs IH]; intros i sd mdoc Hd; cbn [stage_records].
  - split.
    + intros [= <- <-]. exists []. cbn. rewrite !app_nil_r. by split_and!.
    + intros (l & ->%Forall2_nil_inv_l & -> & -> & _). cbn. by rewrite !app_nil_r.
  - split.
    + intros H. ok_steps H. ok_norm.
      match goal with p : (_ * _)%type |- _ => destruct p as [sd1 mdoc1] end.
      match goal with E : stage_credential _ _ _ = _ |- _ =>
        apply stage_credential_iff in E as (-> & -> & Hd1); [|done] end.
      apply IH in H as (l & Hl & -> & -> & Hd2); [|done]. rewrite <- !app_assoc in *.
      eexists (_ :: l). cbn [flat_map]. split_and!; [|done..]. constructor; [|done]. by eexists.
    + intros (l & (a & l' & (f & Hf & Ha & Hm) & Hl & ->)%Forall2_cons_inv_l & -> & -> & Hd2).
      cbn [flat_map] in *. rewrite !app_assoc in *. rewrite Hf, Ha. cbn [map_err]. rewrite Hm. cbn [negb].
      assert (distinct (sd ++ sd_of a) (mdoc ++ mdoc_of a)) as Hd1 by (by eapply distinct_app).
      assert (stage_credential a sd mdoc = Ok (sd ++ sd_of a, mdoc ++ mdoc_of a)) as ->
        by (by apply stage_credential_iff).
      apply IH; [done|]. by exists l'.
Qed.

(** ** What a restored core holds *)

Definition sd_current (self : Core) (stored : StoredSdJwtCredential) : Prop :=
  is_authenticated (sd_provenance stored) = true /\ sdjwt_credential_is_current self stored = Ok tt.

Definition mdoc_current (self : Core) (stored : StoredMdocCredential) : Prop :=
  is_authenticated (mdoc_provenance stored) = true /\ mdoc_credential_is_current self stored = Ok tt.

Lemma restored_current self core r a :
  same_environment core self -> restored_as self r a ->
  Forall (sd_current core) (sd_of a) /\ Forall (mdoc_current core) (mdoc_of a).
Proof.
  intros He (f & _ & Ha & _). pose proof (authenticate_again_same _ _ _ _ _ _ Ha) as Hag.
  apply authenticate_Ok in Ha as (_ & _ & Hacc & _). apply accepted_in_time in Hacc.
  rewrite <- (again_environment _ _ _ He) in Hag. rewrite <- (same_clock _ _ He) in Hacc.
  unfold sd_of, mdoc_of, sd_current, mdoc_current. destruct (credential a) as [h au v|h v] eqn:Ec; split;
    [constructor; [|done]|done|done|constructor; [|done]]; (split; [done|]).
  - by apply fresh_sd_current.
  - by apply fresh_mdoc_current.
Qed.

Lemma forall_flat_map {A B} (P : B -> Prop) (f : A -> list B) l :
  Forall (fun x => Forall P (f x)) l -> Forall P (flat_map f l).
Proof. induction 1; cbn; [done|]. by apply Forall_app. Qed.

Lemma all_restored_current self core rs l :
  same_environment core self -> Forall2 (restored_as self) rs l ->
  Forall (sd_current core) (flat_map sd_of l) /\ Forall (mdoc_current core) (flat_map mdoc_of l).
Proof.
  intros He H. split; apply forall_flat_map; induction H as [|r a rs l Hr _ IH]; constructor; try done;
    by eapply restored_current.
Qed.

(** No machine runs but those of proximity and of the Digital Credentials API,
    of which this says nothing; no operation is pending, no session, issuer,
    verifier, payment or status list is remembered. *)
Record quiescent (self : Core) : Prop := {
  q_active : active self = NoFlow;
  q_operations : pending_operations self = [];
  q_presentation : vp self = Oid4vp.Idle /\ session self = None;
  q_issuance : issuance self = Oid4vci.Idle /\ pending_verified_credential self = None;
  q_payment : payment self = Payment.Idle /\ pay_pending self = None;
  q_signing : qes self = Qes.Idle;
  q_transfer : w2w self = W2w.Idle /\ w2w_credential self = None;
  q_status : status_lists self = [] /\ pending_status_references self = [];
  q_verifier : pending_rp_provenance self = None /\ pay_summary self = None;
  q_issuer : issuer_trusted_current self = false /\ issuer_cert_chain_current self = []
    /\ issuer_candidates_current self = [];
}.

Lemma same_context_iff a b : same_context a b = Ok tt <-> a = b.
Proof.
  unfold same_context. destruct a as [a1 a2 a3], b as [b1 b2 b3]. cbn. split.
  - intros H. ok_steps H. ok_norm. by subst.
  - intros [= -> -> ->]. by rewrite !bool_decide_true.
Qed.

Lemma clock_iff l n :
  validate_transaction_clock l n = Ok tt
  <-> Forall (fun e => TxnLog.redacted e = false -> TxnLog.epoch (TxnLog.content e) <= n) l.
Proof.
  unfold validate_transaction_clock. rewrite List.Forall_forall. destruct (find _ l) as [e|] eqn:E.
  - apply find_some in E as [Hi He]. apply andb_true_iff in He as [Hr He%Z.ltb_lt].
    apply negb_true_iff in Hr. split; [done|]. intros F. specialize (F e Hi Hr). lia.
  - split; [|done]. intros _ e Hi Hr. pose proof (find_none _ _ E e Hi) as F. cbn in F. rewrite Hr in F.
    cbn in F. lia.
Qed.

(** C27: Restoration brings back authenticated state only.  A checkpoint is
    restored only under the generation that the platform authenticated, by the
    wallet and device key it was made for, with a current trust list and
    wallet unit attestation and neither clock nor trust list rolled back.
    Then every restored credential authenticates against the present trust
    list and clock, no two share a holding, the transaction log verifies and
    ends in the checkpoint's head with no live entry after its clock.  The
    presentation, issuance, payment, signature and transfer machines are idle,
    and no operation, session or cached status is left; the proximity and
    Digital Credentials flows of the wallet that restores are not touched, so
    one that was under way survives.  A refusal leaves the wallet as it was. *)
Theorem restored_is_authentic self random bytes g :
  match restore_durable_checkpoint self random bytes g with
  | (core, Err _) => core = self
  | (core, Ok _) =>
      exists c sequence,
        decode_checkpoint bytes = Ok c /\ generation c = g /\ g <> 0
        /\ context_of self = Ok (context c)
        /\ require_current_environment self = Ok sequence
        /\ trust_sequence_high_water c <= sequence /\ clock_high_water c <= now_epoch self
        /\ Forall (sd_current core) (credentials core)
        /\ Forall (mdoc_current core) (mdoc_holdings core) /\ holdings_distinct core
        /\ TxnLog.verify_integrity (log core) = true /\ TxnLog.head (log core) = transaction_head c
        /\ Forall (fun e => TxnLog.redacted e = false ->
             TxnLog.epoch (TxnLog.content e) <= clock_high_water c) (TxnLog.entries (log core))
        /\ quiescent core /\ proximity core = proximity self /\ dcapi core = dcapi self
        /\ same_environment core self
  end.
Proof.
  unfold restore_durable_checkpoint. destruct (staged_restore self random bytes g) as [core|e] eqn:H; [|done].
  unfold staged_restore in H. ok_steps H.
  match goal with p : (list _ * list _)%type |- _ => destruct p as [sd mdoc] end.
  ok_steps H. injection H as <-. ok_norm. unfold log_error in *. ok_norm.
  repeat match goal with
  | E : same_context _ _ = Ok _ |- _ => apply same_context_iff in E
  | E : validate_transaction_clock _ _ = Ok _ |- _ => apply clock_iff in E
  | E : TxnLog.restore_checked _ _ = Ok _ |- _ => apply TxnLog.restore_Ok in E as (? & ? & ?)
  | E : stage_records _ _ _ _ _ = Ok _ |- _ =>
      apply stage_records_iff in E as (l & Hl & -> & -> & Hd); [|split; constructor]
  | E : (_ =? _) = true |- _ => apply Z.eqb_eq in E
  | E : (_ =? _) = false |- _ => apply Z.eqb_neq in E
  | E : (_ <? _) = false |- _ => apply Z.ltb_ge in E
  end.
  match goal with |- context [commit self ?c ?sd ?mdoc ?lg ?n] => set (core := commit self c sd mdoc lg n) end.
  assert (same_environment core self) as He by done.
  destruct (all_restored_current self core _ _ He Hl) as [Hsd Hmd].
  eexists _, _. split_and!; try done; try by subst.
  - by apply TxnLog.verify_integrity_iff.
  - match goal with E : TxnLog.entries ?l = _ |- _ => change (log core) with l; by rewrite E end.
Qed.

(** ** What an export records *)

Lemma checked_total_Ok total add n :
  0 <= total -> 0 <= add -> checked_total total add = Ok n ->
  n = total + add /\ n <= MAX_CREDENTIAL_EVIDENCE_BYTES.
Proof.
  intros H1 H2 H. unfold checked_total, checked_u64 in H. destruct (is_u64 _); [|done]. cbn [ok_or] in H.
  destruct (Z.ltb_spec MAX_CREDENTIAL_EVIDENCE_BYTES (total + add)); [done|]. by injection H as <-.
Qed.

Lemma validate_certificates_Ok path n m :
  0 <= n <= MAX_CREDENTIAL_EVIDENCE_BYTES -> validate_certificates path n = Ok m ->
  Forall certificate_ok path /\ m = n + sum (map len path) /\ m <= MAX_CREDENTIAL_EVIDENCE_BYTES.
Proof.
  revert n. induction path as [|c path IH]; intros n Hn H.
  - injection H as <-. cbn. split_and!; [done|lia|lia].
  - cbn [validate_certificates] in H. ok_steps H. ok_norm. pose proof (len_nonneg c).
    match goal with E : checked_total _ _ = Ok _ |- _ => apply checked_total_Ok in E as [-> ?]; [|lia|done] end.
    apply IH in H as (Hp & -> & Ht); [|lia]. cbn [map]. rewrite sum_cons. split_and!; [|lia|done].
    constructor; [|done]. unfold certificate_ok. match goal with E : is_empty c = false |- _ =>
      apply is_empty_len in E end. lia.
Qed.

Lemma record_parts_Ok rw id path n m :
  0 <= n <= MAX_CREDENTIAL_EVIDENCE_BYTES -> is_str id = true ->
  validate_record_parts rw id path n = Ok m ->
  forall code, code = 1 \/ code = 2 ->
  let r := {| Durable.format := code; Durable.raw := rw; issuer_identity := id; certificate_path := path |} in
  credential_ok r /\ m = n + evidence r /\ m <= MAX_CREDENTIAL_EVIDENCE_BYTES.
Proof.
  intros Hn Hid H code Hc r. unfold validate_record_parts in H. ok_steps H. ok_norm.
  pose proof (len_nonneg rw). pose proof (len_nonneg (as_bytes id)) as Hi. fold (slen id) in Hi.
  do 2 match goal with E : checked_total _ _ = Ok _ |- _ =>
    apply checked_total_Ok in E as [-> ?]; [|lia|done] end.
  apply validate_certificates_Ok in H as (Hp & -> & Ht); [|lia].
  unfold credential_ok, evidence, r. cbn.
  repeat match goal with
  | E : is_empty _ = false |- _ => apply is_empty_len in E
  | E : sis_empty _ = false |- _ => apply sis_empty_false in E
  end.
  fold (sum (map len path)). split_and!; try done; lia.
Qed.

Section push.
Context {A} (origin : A -> StoredProvenance) (same : A -> VerifiedCredential -> bool) (code : Z)
  (Hcode : code = 1 \/ code = 2).

Definition record_of (p : CredentialProvenance) : CredentialRecord := {|
  Durable.format := code; Durable.raw := raw_credential p;
  issuer_identity := evidence_identity (provenance_issuer p);
  certificate_path := evidence_certificate_path (provenance_issuer p) |}.

(** The record of a stored credential, and what its evidence gives. *)
Definition recorded (core : Core) (stored : A) (ra : CredentialRecord * AuthenticatedCredential) : Prop :=
  origin stored = Authenticated (provenance (snd ra)) /\ fst ra = record_of (provenance (snd ra))
  /\ authenticate_again core (provenance (snd ra)) = Ok (snd ra)
  /\ same stored (credential (snd ra)) = true.

Lemma push_records_Ok core l rs n rs' n' :
  (forall s p, In s l -> origin s = Authenticated p ->
     is_str (evidence_identity (provenance_issuer p)) = true) ->
  0 <= n <= MAX_CREDENTIAL_EVIDENCE_BYTES ->
  push_records core code origin same l rs n = Ok (rs', n') ->
  exists new, rs' = rs ++ map fst new
    /\ Forall2 (recorded core) (List.filter (fun s => is_authenticated (origin s)) l) new
    /\ Forall credential_ok (map fst new)
    /\ n' = n + sum (map evidence (map fst new)) /\ n' <= MAX_CREDENTIAL_EVIDENCE_BYTES.
Proof.
  revert rs n. induction l as [|s l IH]; intros rs n Hid Hn H; cbn [push_records] in H.
  - injection H as <- <-. exists []. cbn. rewrite app_nil_r. split_and!; try done; lia.
  - cbn [List.filter]. destruct (origin s) as [p|] eqn:Eo; cbn [is_authenticated].
    + ok_step H. match goal with x : (_ * Z)%type |- _ => destruct x as [r m] end.
      unfold fresh_record in *. match goal with E : _ = Ok (r, m) |- _ => rename E into E1 end.
      ok_steps E1. injection E1 as <- <-. ok_norm.
      match goal with E : _ && _ = true |- _ => apply andb_true_iff in E as [E2%bool_decide_eq_true E3] end.
      match goal with E : validate_record_parts _ _ _ _ = Ok _ |- _ => rename E into Ev end.
      assert (is_str (evidence_identity (provenance_issuer p)) = true) as Hs by (apply (Hid s); [by left|done]).
      destruct (record_parts_Ok _ _ _ _ _ Hn Hs Ev code Hcode) as (C1 & C2 & C3).
      match goal with E : authenticate_received_credential _ _ _ _ _ = Ok ?a |- _ => rename E into Ha; rename a into fresh end.
      assert (0 <= evidence (record_of p)) as Hev by apply evidence_nonneg.
      apply IH in H as (new & -> & H2 & H3 & -> & H5);
        [|intros s' p' Hs'; apply Hid; by right|unfold record_of in Hev; lia].
      exists ((record_of p, fresh) :: new). cbn [map fst]. rewrite <- app_assoc. split_and!; try done.
      * constructor; [|done]. unfold recorded. cbn [fst snd]. subst p. by split_and!.
      * by constructor.
      * rewrite sum_cons. unfold record_of. lia.
    + apply IH in H as (new & -> & H2 & H3 & H4 & H5); [|intros s' p' Hs'; apply Hid; by right|done].
      by exists new.
Qed.
End push.

(** ** An exported checkpoint is within the budgets *)

Lemma ascending_sorted {B} (lt : B -> B -> Prop) l o :
  StronglySorted lt l -> match o with Some p => Forall (lt p) l | None => True end -> ascending lt o l.
Proof.
  intros H. revert o. induction H as [|x l _ IH Hx]; intros o Ho; cbn; [done|]. split.
  - destruct o; [|done]. by inversion Ho.
  - by apply IH.
Qed.

Lemma sorted_replay_ok l r :
  Forall (fun n => is_u64 n = true) l -> sorted_replay l = Ok r ->
  numbers_ok r /\ forall n, In n r <-> In n l.
Proof.
  unfold sorted_replay. intros Hl H. destruct (Z.ltb_spec MAX_REPLAY_VALUES (len l)) as [|Hn]; [done|].
  injection H as <-. split; [|apply dedup_sort_In, z_compare_laws]. unfold numbers_ok. split_and!.
  - etrans; [apply dedup_sort_len|done].
  - rewrite List.Forall_forall in *. intros n Hn'. apply Hl. by rewrite (dedup_sort_In _ z_compare_laws) in Hn'.
  - apply ascending_sorted; [|done].
    pose proof (dedup_sort_lt _ z_compare_laws l) as Hs. induction Hs; constructor; [done|].
    eapply List.Forall_impl; [|done]. intros k. cbn. by rewrite Z.compare_lt_iff.
Qed.

Lemma sorted_replay_str_ok l r :
  Forall (fun s => is_str s = true) l -> sorted_replay_str l = Ok r ->
  len r <= MAX_REPLAY_VALUES /\ Forall nonce_ok r /\ ascending text_lt None r
  /\ forall s, In s r <-> In s l.
Proof.
  unfold sorted_replay_str. intros Hl H. destruct (Z.ltb_spec MAX_REPLAY_VALUES (len l)) as [|Hn]; [done|].
  destruct (find _ l) eqn:Ef; [done|]. injection H as <-. split_and!.
  - etrans; [apply dedup_sort_len|done].
  - rewrite List.Forall_forall in *. intros s Hs. rewrite (dedup_sort_In _ str_cmp_laws) in Hs.
    split; [by apply Hl|]. pose proof (find_none _ _ Ef s Hs) as F. cbn in F. lia.
  - apply ascending_sorted; [|done]. apply (dedup_sort_lt _ str_cmp_laws).
  - apply (dedup_sort_In _ str_cmp_laws).
Qed.

Definition entry_typed (e : TxnLog.Entry) : Prop :=
  TxnLog.typed_committed e = true /\ len (TxnLog.entry_hash e) = 32.

Lemma text_bound s f m b : TxnLog.validate_text s f m b = Ok tt -> slen s <= m.
Proof.
  unfold TxnLog.validate_text. destruct (_ && _); [done|].
  destruct (Z.ltb_spec m (slen s)); [done|lia].
Qed.

Lemma entry_within i p e : is_ok (TxnLog.validate_entry i p e) = true -> entry_typed e -> entry_ok e.
Proof.
  intros H [Ht He]. unfold TxnLog.typed_committed, TxnLog.typed_entry in Ht.
  repeat match goal with E : _ && _ = true |- _ => apply andb_true_iff in E as [E ?] end.
  rewrite bool_decide_eq_true in *. unfold rust_string in *.
  repeat match goal with E : _ && _ = true |- _ => apply andb_true_iff in E as [E ?] end.
  rewrite forallb_forall in *.
  destruct (TxnLog.validate_entry i p e) as [n|] eqn:Ev; [|done]. clear H.
  assert (slen (TxnLog.counterparty (TxnLog.content e)) <= TxnLog.MAX_COUNTERPARTY_BYTES
    /\ len (TxnLog.claim_paths (TxnLog.content e)) <= TxnLog.MAX_CLAIM_PATHS_PER_ENTRY
    /\ Forall (fun s => slen s <= TxnLog.MAX_CLAIM_PATH_BYTES) (TxnLog.claim_paths (TxnLog.content e))
    /\ match TxnLog.payment (TxnLog.content e) with
       | Some y => slen (TxnLog.payee y) <= TxnLog.MAX_PAYMENT_PAYEE_BYTES /\ slen (TxnLog.currency y) <= 3
       | None => True
       end) as (B1 & B2 & B3 & B4).
  { unfold TxnLog.validate_entry in Ev. ok_step Ev. ok_step Ev. ok_step Ev.
    destruct (TxnLog.redacted e).
    - ok_step Ev. ok_norm. unfold TxnLog.redacted_entry_is_canonical in *.
      repeat match goal with E : _ && _ = true |- _ => apply andb_true_iff in E as [E ?] end.
      destruct (TxnLog.content e) as [t k c h l o y]. cbn in *. destruct c; [|done]. destruct l; [|done].
      destruct y; [done|]. by split_and!.
    - ok_step Ev. clear Ev. match goal with E : TxnLog.validate_entry_fields _ _ _ = Ok _ |- _ =>
        unfold TxnLog.validate_entry_fields, TxnLog.validate_claim_paths in E; ok_steps E; clear E end.
      ok_norm.
      match goal with E : (if TxnLog.MAX_CLAIM_PATHS_PER_ENTRY <? _ then _ else _) = Ok _ |- _ =>
        ok_steps E; ok_norm end.
      repeat match goal with E : TxnLog.validate_text _ _ _ _ = Ok _ |- _ => apply text_bound in E end.
      match goal with E : TxnLog.validate_each _ = Ok _ |- _ => apply TxnLog.validate_each_Ok in E end.
      split_and!; [done|lia| |].
      + eapply List.Forall_impl; [|done]. intros s. apply text_bound.
      + destruct (TxnLog.payment (TxnLog.content e)) as [y|]; [|done].
        destruct (TxnLog.kind (TxnLog.content e)); try done.
        match goal with E : TxnLog.validate_payment _ _ _ _ = Ok _ |- _ =>
          unfold TxnLog.validate_payment in E; ok_steps E; ok_norm end.
        repeat match goal with E : TxnLog.validate_text _ _ _ _ = Ok _ |- _ => apply text_bound in E end.
        done. }
  unfold entry_ok. split_and!; try done; try (unfold len; lia).
  - rewrite List.Forall_forall in *. intros s Hs. split; [|by apply B3].
    match goal with F : forall x, In x _ -> _ = true |- _ => specialize (F s Hs) end.
    match goal with F : is_str s && _ = true |- _ => by apply andb_true_iff in F as [F _] end.
  - destruct (TxnLog.payment (TxnLog.content e)) as [y|]; [|done]. unfold TxnLog.typed_summary, rust_string in *.
    repeat match goal with E : _ && _ = true |- _ => apply andb_true_iff in E as [E ?] end.
    destruct B4. cbn. by split_and!.
Qed.

Lemma entry_bytes_le e : entry_bytes e <= TxnLog.entry_size (TxnLog.content e).
Proof.
  unfold entry_bytes, TxnLog.entry_size, TxnLog.ACCOUNTED_ENTRY_FIXED_BYTES.
  assert (sum (map slen (TxnLog.claim_paths (TxnLog.content e)))
          <= TxnLog.paths_size (TxnLog.claim_paths (TxnLog.content e))).
  { induction (TxnLog.claim_paths (TxnLog.content e)) as [|s l IH]; [done|]. cbn [map].
    rewrite sum_cons. cbn. fold (TxnLog.paths_size l). lia. }
  destruct (TxnLog.payment (TxnLog.content e)) as [y|]; cbn; lia.
Qed.

Lemma links_within l i p : Forall entry_typed l -> TxnLog.links i p l -> Forall entry_ok l.
Proof.
  intros Ht. revert i p. induction Ht as [|e l He Hl IH]; intros i p Hk; [constructor|].
  destruct Hk as [Hv Hk]. constructor; [|by eapply IH]. by eapply entry_within.
Qed.

Lemma log_within lg :
  TxnLog.intact lg -> Forall entry_typed (TxnLog.entries lg) -> entries_ok (TxnLog.entries lg).
Proof.
  intros (H1 & H2 & H3 & H4) Ht. split_and!; [done| |].
  - by eapply links_within.
  - rewrite H3 in H4. etrans; [|exact H4]. clear. induction (TxnLog.entries lg) as [|e l IH]; [done|].
    cbn [map]. rewrite sum_cons. cbn. fold (TxnLog.total_size l). pose proof (entry_bytes_le e). lia.
Qed.

Lemma head_len lg : Forall entry_typed (TxnLog.entries lg) -> len (TxnLog.head lg) = 32.
Proof.
  unfold TxnLog.head. intros H. destruct (list.last (TxnLog.entries lg)) as [e|] eqn:E; [|done].
  apply last_Some_elem_of, list_elem_of_In in E. rewrite List.Forall_forall in H. by apply H.
Qed.

(** ** Records and what they restore to *)

Definition same_stored (a b : StoredSdJwtCredential) : Prop :=
  sd_holding a = sd_holding b /\ sd_validity a = sd_validity b /\ sd_provenance a = sd_provenance b
  /\ option_eqb authenticated_eqb (sd_authenticated a) (sd_authenticated b) = true.

Lemma again_format core p a :
  authenticate_again core p = Ok a -> provenance_format p = verified_format (credential a).
Proof.
  intros H. apply authenticate_Ok in H as (_ & _ & H & _ & _). destruct (provenance_format p); cbn in H.
  - by destruct H as (? & ? & ? & ? & ? & ? & _ & _ & _ & -> & _).
  - by destruct H as (? & ? & ? & ? & ? & _ & -> & _).
Qed.

Lemma recorded_restores {A} (origin : A -> StoredProvenance) same code core self stored ra :
  recorded origin same code core stored ra ->
  code = (match credential (snd ra) with VerifiedSdJwt _ _ _ => 1 | VerifiedMdoc _ _ => 2 end) ->
  authenticate_again self (provenance (snd ra)) = authenticate_again core (provenance (snd ra)) ->
  restored_as self (fst ra) (snd ra).
Proof.
  destruct ra as [r a]. unfold recorded. cbn [fst snd]. intros (_ & -> & Ha & _) Hc He.
  pose proof (again_format _ _ _ Ha) as Hf.
  exists (provenance_format (provenance a)). unfold record_matches. cbn. rewrite !bool_decide_true by done.
  split_and!; [|etrans; [exact He|exact Ha]|done].
  rewrite Hf. unfold record_format. cbn. rewrite Hc. by destruct (credential a).
Qed.

Lemma recorded_sd core stored ra :
  recorded sd_provenance same_sd 1 core stored ra ->
  exists x, sd_of (snd ra) = [x] /\ same_stored stored x /\ mdoc_of (snd ra) = []
    /\ 1 = (match credential (snd ra) with VerifiedSdJwt _ _ _ => 1 | VerifiedMdoc _ _ => 2 end).
Proof.
  destruct ra as [r a]. cbn [snd]. intros (Ho & _ & _ & Hs). cbn [snd] in *. unfold sd_of, mdoc_of.
  destruct (credential a) as [h au v|]; [|done]. cbn in Hs.
  apply andb_true_iff in Hs as [Hs Hv%bool_decide_eq_true].
  apply andb_true_iff in Hs as [Hh%bool_decide_eq_true Hau].
  eexists. split; [done|]. split; [|done]. by split_and!.
Qed.

Lemma recorded_mdoc core stored ra :
  recorded mdoc_provenance same_mdoc 2 core stored ra ->
  mdoc_of (snd ra) = [stored] /\ sd_of (snd ra) = []
    /\ 2 = (match credential (snd ra) with VerifiedSdJwt _ _ _ => 1 | VerifiedMdoc _ _ => 2 end).
Proof.
  destruct ra as [r a]. cbn [snd]. intros (Ho & _ & _ & Hs). cbn [snd] in *. unfold sd_of, mdoc_of.
  destruct (credential a) as [|h v]; [done|]. cbn in Hs.
  apply andb_true_iff in Hs as [Hh%bool_decide_eq_true Hv%bool_decide_eq_true].
  destruct stored as [h' v' o]. cbn in *. by subst.
Qed.

Lemma all_recorded_sd core l new :
  Forall2 (recorded sd_provenance same_sd 1 core) l new ->
  Forall2 same_stored l (flat_map sd_of (map snd new)) /\ flat_map mdoc_of (map snd new) = [].
Proof.
  induction 1 as [|s ra l new Hr _ (IH1 & IH2)]; [done|]. cbn [map flat_map].
  apply recorded_sd in Hr as (x & -> & Hx & -> & _). rewrite IH2. split; [by constructor|done].
Qed.

Lemma all_recorded_mdoc core l new :
  Forall2 (recorded mdoc_provenance same_mdoc 2 core) l new ->
  flat_map mdoc_of (map snd new) = l /\ flat_map sd_of (map snd new) = [].
Proof.
  induction 1 as [|s ra l new Hr _ (IH1 & IH2)]; [done|]. cbn [map flat_map].
  apply recorded_mdoc in Hr as (-> & -> & _). by rewrite IH1, IH2.
Qed.

Lemma unrepeated {A B} `{EqDecision B} (origin : A -> StoredProvenance) (holding : A -> B) l :
  repeated_holding origin holding l = false ->
  NoDup (map holding (List.filter (fun s => is_authenticated (origin s)) l)).
Proof.
  induction l as [|s l IH]; cbn [repeated_holding List.filter]; [constructor|].
  intros [H1 H2]%orb_false_iff. destruct (is_authenticated (origin s)); [|by apply IH].
  cbn [andb map] in *. constructor; [|by apply IH].
  rewrite <- not_true_iff_false, existsb_exists in H1. intros F. apply H1.
  apply list_elem_of_In, in_map_iff in F as (c & Hc & [Hi Ha]%filter_In). exists c.
  rewrite Ha, bool_decide_true by done. done.
Qed.

Lemma same_stored_holdings l k : Forall2 same_stored l k -> map sd_holding l = map sd_holding k.
Proof. induction 1 as [|a b l k (E & _) _ IH]; [done|]. cbn. by rewrite E, IH. Qed.

Lemma sum_perm l k : Permutation l k -> sum l = sum k.
Proof. induction 1; rewrite ?sum_cons; try lia. Qed.

Lemma ascends l o :
  not_ascending l = false -> match o, l with Some p, x :: _ => credential_lt p x | _, _ => True end ->
  ascending credential_lt o l.
Proof.
  revert o. induction l as [|a l IH]; intros o H Ho; [done|]. cbn [ascending]. split; [by destruct o|].
  destruct l as [|b l]; [done|]. cbn [not_ascending] in H. destruct (cmp_canonical a b) eqn:E; try done.
  by apply IH.
Qed.

(** ** The round trip *)

Definition held (self : Core) (p : CredentialProvenance) : Prop :=
  (exists s, In s (credentials self) /\ sd_provenance s = Authenticated p)
  \/ (exists s, In s (mdoc_holdings self) /\ mdoc_provenance s = Authenticated p).

(** What the Rust types of the fields guarantee. *)
Record core_typed (self : Core) : Prop := {
  ct_clock : is_i64 (now_epoch self) = true;
  ct_sequence : forall n, Trust.store_sequence_number (trust_store self) = Some n -> is_u64 n = true;
  ct_presentation : Forall (fun s => is_str s = true) (seen_nonces self);
  ct_payment : Forall (fun n => is_u64 n = true) (pay_seen_nonces self);
  ct_issuance : Forall (fun n => is_u64 n = true) (iss_seen_c_nonces self);
  ct_signing : Forall (fun n => is_u64 n = true) (qes_seen_nonces self);
  ct_entries : Forall entry_typed (TxnLog.entries (log self));
  ct_identities : forall p, held self p -> is_str (evidence_identity (provenance_issuer p)) = true;
}.

Definition authentic {A} (origin : A -> StoredProvenance) (l : list A) : list A :=
  List.filter (fun s => is_authenticated (origin s)) l.

(** The records of an export, and the fresh credentials they stand for. *)
Lemma authenticated_records_Ok core rs :
  core_typed core -> authenticated_records core = Ok rs ->
  credentials_ok rs
  /\ exists sd mdoc,
    Permutation rs (map fst sd ++ map fst mdoc)
    /\ Forall2 (recorded sd_provenance same_sd 1 core) (authentic sd_provenance (credentials core)) sd
    /\ Forall2 (recorded mdoc_provenance same_mdoc 2 core)
         (authentic mdoc_provenance (mdoc_holdings core)) mdoc
    /\ NoDup (map sd_holding (authentic sd_provenance (credentials core)))
    /\ NoDup (map mdoc_holding (authentic mdoc_provenance (mdoc_holdings core))).
Proof.
  intros Ht H. unfold authenticated_records in H. ok_step H. ok_step H. ok_step H. ok_step H. ok_norm.
  match goal with E : checked_u64 _ = Some _ |- _ => unfold checked_u64 in E;
    destruct (is_u64 _); [injection E as <-|done] end.
  ok_step H. match goal with x : (list _ * Z)%type |- _ => destruct x as [r1 n1] end.
  ok_step H. match goal with x : (list _ * Z)%type |- _ => destruct x as [r2 n2] end.
  ok_step H. injection H as <-.
  match goal with E : push_records _ 1 _ _ _ _ _ = _ |- _ =>
    apply push_records_Ok in E as (sd & -> & H1 & K1 & -> & B1);
      [|by left|intros s p Hs Hp; apply (ct_identities core Ht); left; by exists s|by vm_compute] end.
  match goal with E : push_records _ 2 _ _ _ _ _ = _ |- _ =>
    apply push_records_Ok in E as (mdoc & -> & H2 & K2 & -> & B2);
      [|by right|intros s p Hs Hp; apply (ct_identities core Ht); right; by exists s|] end.
  2: { split; [|done]. pose proof (sum_nonneg (map evidence (map fst sd))) as Hn. cbn. apply Hn.
       apply Forall_map, List.Forall_forall. intros x _. apply evidence_nonneg. }
  cbn [app] in *. pose proof (sort_with_perm cmp_canonical (map fst sd ++ map fst mdoc)) as Hp.
  split.
  - unfold credentials_ok. split_and!.
    + unfold len. rewrite Hp, length_app, !length_map, <- (Forall2_length H1), <- (Forall2_length H2).
      unfold count_authenticated, len in *. lia.
    + rewrite Hp. by apply Forall_app.
    + by apply ascends.
    + rewrite (sum_perm _ (map evidence (map fst sd) ++ map evidence (map fst mdoc))).
      * assert (forall a b, sum (a ++ b) = sum a + sum b) as Hs.
        { intros a b. induction a as [|x a IH]; [done|]. cbn [app]. rewrite !sum_cons. lia. }
        rewrite Hs. lia.
      * by rewrite Hp, map_app.
  - exists sd, mdoc. split_and!; try done; by apply unrepeated.
Qed.

Lemma require_sequence core n :
  require_current_environment core = Ok n ->
  0 < now_epoch core /\ Trust.store_sequence_number (trust_store core) = Some n.
Proof.
  unfold require_current_environment. intros H. ok_steps H. injection H as <-. ok_norm. split; [lia|done].
Qed.

Lemma context_within `{DL : !DigestLaws} core c : context_of core = Ok c -> context_ok c.
Proof.
  unfold context_of, current_context. intros H. ok_steps H. injection H as <-.
  unfold context_ok, context_hash, len. cbn. by rewrite !sha256_length.
Qed.

Lemma checkpoint_of_Ok `{DL : !DigestLaws} core g c :
  core_typed core -> is_u64 g = true -> checkpoint_of core g = Ok c ->
  checkpoint_ok c /\ generation c = g /\ g <> 0 /\ context_of core = Ok (context c)
  /\ require_current_environment core = Ok (trust_sequence_high_water c)
  /\ clock_high_water c = now_epoch core
  /\ authenticated_records core = Ok (Durable.credentials c)
  /\ (forall s, In s (r_presentation (replay c)) <-> In s (seen_nonces core))
  /\ (forall n, In n (r_payment (replay c)) <-> In n (pay_seen_nonces core))
  /\ (forall n, In n (r_issuance (replay c)) <-> In n (iss_seen_c_nonces core))
  /\ (forall n, In n (r_qes (replay c)) <-> In n (qes_seen_nonces core))
  /\ transaction_entries c = TxnLog.entries (log core)
  /\ validate_transaction_clock (transaction_entries c) (clock_high_water c) = Ok tt
  /\ is_ok (TxnLog.restore_checked (transaction_entries c) (transaction_head c)) = true.
Proof.
  intros Ht Hg H. unfold checkpoint_of in H. ok_steps H. injection H as <-. unfold log_error in *. ok_norm.
  cbn [generation context clock_high_water trust_sequence_high_water Durable.credentials replay
    r_presentation r_payment r_issuance r_qes transaction_entries transaction_head].
  repeat match goal with
  | E : sorted_replay_str _ = Ok _ |- _ =>
      apply sorted_replay_str_ok in E as (? & ? & ? & ?); [|apply Ht]
  | E : sorted_replay _ = Ok _ |- _ =>
      apply sorted_replay_ok in E as [? ?]; [|apply Ht]
  end.
  match goal with E : context_of _ = Ok _ |- _ => pose proof (context_within _ _ E) end.
  match goal with E : require_current_environment _ = Ok _ |- _ =>
    pose proof (require_sequence _ _ E) as [? ?] end.
  match goal with E : authenticated_records _ = Ok _ |- _ =>
    pose proof (authenticated_records_Ok _ _ Ht E) as [? _] end.
  match goal with E : TxnLog.restore_checked _ _ = Ok _ |- _ =>
    pose proof (proj1 (TxnLog.restore_Ok _ _ _) E) as (El & Hi & _); rewrite E end.
  split_and!; try done; try (by apply Z.eqb_neq).
  unfold checkpoint_ok, replay_ok. cbn. split_and!; try done; try (by apply Z.eqb_neq); try (by eapply Ht).
  - rewrite <- El. apply log_within; [done|]. rewrite El. apply Ht.
  - apply head_len, Ht.
Qed.

Lemma held_sd core s p :
  In s (authentic sd_provenance (credentials core)) -> sd_provenance s = Authenticated p -> held core p.
Proof. intros [Hi _]%filter_In Hp. left. by exists s. Qed.

Lemma held_mdoc core s p :
  In s (authentic mdoc_provenance (mdoc_holdings core)) -> mdoc_provenance s = Authenticated p -> held core p.
Proof. intros [Hi _]%filter_In Hp. right. by exists s. Qed.

Lemma all_restore {A} (origin : A -> StoredProvenance) same code core self l new :
  (forall s ra, In s l -> recorded origin same code core s ra -> restored_as self (fst ra) (snd ra)) ->
  Forall2 (recorded origin same code core) l new ->
  Forall2 (restored_as self) (map fst new) (map snd new).
Proof.
  intros Hr H. induction H as [|s ra l new Hs _ IH]; constructor.
  - apply (Hr s); [by left|done].
  - apply IH. intros s' ra' Hi. apply Hr. by right.
Qed.

(** Records of an export, staged where their evidence still gives the same. *)
Lemma records_stage core self rs :
  core_typed core -> authenticated_records core = Ok rs ->
  (forall p, held core p -> authenticate_again self p = authenticate_again core p) ->
  exists sd mdoc,
    stage_records self 0 rs [] [] = Ok (sd, mdoc)
    /\ (exists l, Permutation l (authentic sd_provenance (credentials core)) /\ Forall2 same_stored l sd)
    /\ Permutation mdoc (authentic mdoc_provenance (mdoc_holdings core)).
Proof.
  intros Ht H Ha. apply authenticated_records_Ok in H as (_ & sd & mdoc & Hp & H1 & H2 & N1 & N2); [|done].
  assert (Forall2 (restored_as self) (map fst sd ++ map fst mdoc) (map snd sd ++ map snd mdoc)) as Hr.
  { apply Forall2_app; eapply all_restore; try done.
    - intros s ra Hi Hs. eapply recorded_restores; [done|by apply recorded_sd in Hs as (_ & _ & _ & _ & E)|].
      apply Ha. eapply held_sd; [done|]. by destruct Hs.
    - intros s ra Hi Hs. eapply recorded_restores; [done|by apply recorded_mdoc in Hs as (_ & _ & E)|].
      apply Ha. eapply held_mdoc; [done|]. by destruct Hs. }
  destruct (Permutation_Forall2 (Permutation_sym Hp) Hr) as (fresh & Hf & Hr').
  apply all_recorded_sd in H1 as [S1 S2]. apply all_recorded_mdoc in H2 as [M1 M2].
  assert (Permutation (flat_map sd_of fresh) (flat_map sd_of (map snd sd))) as Ps.
  { rewrite <- Hf, flat_map_app, M2. by rewrite app_nil_r. }
  assert (Permutation (flat_map mdoc_of fresh) (authentic mdoc_provenance (mdoc_holdings core))) as Pm.
  { by rewrite <- Hf, flat_map_app, S2, M1. }
  exists (flat_map sd_of fresh), (flat_map mdoc_of fresh). split; [|split; [|done]].
  - apply stage_records_iff; [split; constructor|]. exists fresh. split_and!; try done. split.
    + rewrite Ps, <- (same_stored_holdings _ _ S1). done.
    + by rewrite Pm.
  - destruct (Permutation_Forall2 (P := fun b a => same_stored a b) (Permutation_sym Ps)
      (l2 := authentic sd_provenance (credentials core))) as (l & Hl & Hs).
    { by apply Forall2_flip. }
    exists l. split; [by symmetry|by apply Forall2_flip].
Qed.

(** C28: An exported checkpoint restores to the state that was exported, as long
    as its credentials do.  Let the export of a wallet succeed, and let the same
    wallet and device key, with a current attestation and a trust list no
    older, at no earlier time, still authenticate every held credential to what
    it was: none has expired since, none has lost its issuer's trust.  Then the
    checkpoint is accepted under its generation, and the restored wallet holds
    exactly the authenticated credentials, the same replay sets and the same
    transaction log; test fixtures are not carried over.  One credential that
    no longer authenticates makes the whole checkpoint be refused
    ([restores] in [Examples]). *)
Theorem exported_checkpoint_restores `{DL : !DigestLaws} core g bytes self random sequence :
  core_typed core -> is_u64 g = true -> export_durable_checkpoint core g = Ok bytes ->
  context_of self = context_of core -> require_current_environment self = Ok sequence ->
  (forall n, require_current_environment core = Ok n -> n <= sequence) ->
  now_epoch core <= now_epoch self ->
  (forall p, held core p -> authenticate_again self p = authenticate_again core p) ->
  exists restored, restore_durable_checkpoint self random bytes g = (restored, Ok tt)
    /\ (exists l, Permutation l (authentic sd_provenance (credentials core))
          /\ Forall2 same_stored l (credentials restored))
    /\ Permutation (mdoc_holdings restored) (authentic mdoc_provenance (mdoc_holdings core))
    /\ (forall s, In s (seen_nonces restored) <-> In s (seen_nonces core))
    /\ (forall n, In n (pay_seen_nonces restored) <-> In n (pay_seen_nonces core))
    /\ (forall n, In n (iss_seen_c_nonces restored) <-> In n (iss_seen_c_nonces core))
    /\ (forall n, In n (qes_seen_nonces restored) <-> In n (qes_seen_nonces core))
    /\ TxnLog.entries (log restored) = TxnLog.entries (log core).
Proof.
  intros Ht Hg He Hc Hs Hseq Hnow Ha. unfold export_durable_checkpoint in He. ok_step He.
  match goal with E : checkpoint_of _ _ = Ok ?c |- _ => rename c into ck;
    apply checkpoint_of_Ok in E
      as (Hok & Hgen & Hg0 & Hctx & Henv & Hclk & Hrec & R1 & R2 & R3 & R4 & Hent & Hvc & Hlog);
    [|done|done] end.
  assert (decode_checkpoint bytes = Ok ck) as Hd by (by apply decode_encode_iff).
  apply (records_stage core self) in Hrec as (sd & mdoc & Hst & Hsd & Hmd); [|done|done].
  destruct (TxnLog.restore_checked _ _) as [lg|] eqn:El; [|done].
  pose proof (proj1 (TxnLog.restore_Ok _ _ _) El) as (Hle & _).
  exists (commit self ck sd mdoc lg (fresh_operation_id self random)).
  split; [|by split_and!; [..|rewrite <- Hent, <- Hle]].
  unfold restore_durable_checkpoint, staged_restore.
  rewrite (proj2 (Z.eqb_neq g 0)) by done. rewrite Hd, Hgen, Z.eqb_refl. cbn [negb].
  rewrite Hc, Hctx, (proj2 (same_context_iff _ _)) by done. rewrite Hs.
  rewrite (proj2 (Z.ltb_ge _ _)) by (by rewrite Hclk).
  rewrite (proj2 (Z.ltb_ge _ _)) by (by apply Hseq).
  rewrite Hst, Hvc, El. done.
Qed.

End spec.

(** ** A wallet that is saved and restored *)

Module Examples.
Import X509Profiles.Examples IngestionSpec.Examples.
#[local] Existing Instances Samples.hex64 Samples.trunc_digest Samples.echo_verifier.

Definition attestation (key : bytes) : Wua.WalletUnitAttestation := {|
  Wua.device_public_key := key; Wua.assurance_level := Wua.High; Wua.valid_until := 1000 |}.

Definition saved : Core := {| (fst ingested) with
  wua := Some (attestation (point half half)); seen_nonces := ["n2"; "n1"; "n2"]%string;
  pay_seen_nonces := [9; 3] |}.

Definition saved_bytes : bytes :=
  match export_durable_checkpoint saved 7 with Ok b => b | Err _ => [] end.

(** A fresh process, at a later time. *)
Definition started : Core := {| wallet with
  now_epoch := 160; wua := Some (attestation (point half half)) |}.

(** It is restored under its own generation, once the clock is right, the
    device key is known, and while the credential has not expired. *)
Example restores :
  (let (core, r) := restore_durable_checkpoint started (repeat Byte.x01 8) saved_bytes 7 in
   r = Ok tt /\ seen_nonces core = ["n1"; "n2"]%string /\ pay_seen_nonces core = [3; 9]
   /\ map sd_holding (credentials core) = map sd_holding (credentials saved))
  /\ snd (restore_durable_checkpoint started [] saved_bytes 8) = Err (GenerationMismatch 8 7)
  /\ snd (restore_durable_checkpoint {| started with now_epoch := 149 |} [] saved_bytes 7)
     = Err (ClockRollback 150 149)
  /\ snd (restore_durable_checkpoint {| started with device_public_key := [] |} [] saved_bytes 7)
     = Err DeviceKeyUnavailable
  /\ snd (restore_durable_checkpoint {| started with now_epoch := 181 |} [] saved_bytes 7)
     = Err (CredentialInvalid 0 CredentialExpired).
Proof. vm_compute. split_and!; reflexivity. Qed.

Definition resumed : Core := {| started with now_epoch := 150 |}.

Lemma saved_typed : core_typed saved.
Proof.
  assert (forallb (fun s => match sd_provenance s with
            | Authenticated p => is_str (evidence_identity (provenance_issuer p)) | TestFixture => true
            end) (credentials saved) = true) as H by (vm_compute; reflexivity).
  rewrite forallb_forall in H.
  assert (seen_nonces saved = ["n2"; "n1"; "n2"]%string /\ pay_seen_nonces saved = [9; 3]
    /\ iss_seen_c_nonces saved = [] /\ qes_seen_nonces saved = [] /\ TxnLog.entries (log saved) = []
    /\ mdoc_holdings saved = [] /\ Trust.store_sequence_number (trust_store saved) = Some 1)
    as (E1 & E2 & E3 & E4 & E5 & E6 & E7) by (vm_compute; by split_and!).
  split.
  - vm_compute. reflexivity.
  - intros n. rewrite E7. by intros [= <-].
  - rewrite E1. by repeat constructor.
  - rewrite E2. by repeat constructor.
  - by rewrite E3.
  - by rewrite E4.
  - by rewrite E5.
  - intros p [(s & Hs & Hp)|(s & Hs & _)]; [|rewrite E6 in Hs; destruct Hs].
    specialize (H s Hs). rewrite Hp in H. exact H.
Qed.
End Examples.

Lemma exported_checkpoint_restores_witness :
  exists restored,
    @restore_durable_checkpoint IngestionSpec.Examples.wallet_serde Samples.hex64 Samples.trunc_digest
      Samples.echo_verifier IngestionSpec.Examples.wallet_der X509Profiles.Examples.sample_verifier
      IngestionSpec.Examples.no_base64 IngestionSpec.Examples.no_pq
      Examples.resumed [] Examples.saved_bytes 7 = (restored, Ok tt)
    /\ forall s, In s (seen_nonces restored) <-> In s (seen_nonces Examples.saved).
Proof.
  destruct (@exported_checkpoint_restores IngestionSpec.Examples.wallet_serde Samples.hex64
    Samples.trunc_digest Samples.echo_verifier IngestionSpec.Examples.wallet_der
    X509Profiles.Examples.sample_verifier IngestionSpec.Examples.no_base64 IngestionSpec.Examples.no_pq
    Samples.trunc_digest_laws Examples.saved 7 Examples.saved_bytes Examples.resumed [] 1)
    as (restored & H & _ & _ & Hs & _).
  - exact Examples.saved_typed.
  - reflexivity.
  - vm_compute. reflexivity.
  - vm_compute. reflexivity.
  - vm_compute. reflexivity.
  - intros n. assert (@require_current_environment Examples.saved = Ok 1) as -> by (vm_compute; reflexivity).
    intros [= <-]. reflexivity.
  - vm_compute. discriminate.
  - intros p _. apply again_environment. by split.
  - exists restored. split; [exact H|exact Hs].
Defined.
