(* ===== verification/Effects.v ===== *)
(** * Events and effects (crates/wallet-core/src/lib.rs)

    What happens to the core and what it asks the shell to do; the loaders of
    trust lists, attestations and status lists; and the ways in which a flow
    ends early: audit, eligibility and operation failures. *)

From S2P Require Import Cbor Cose Mdoc Oid4vp Dcql Payment Oid4vci Qes W2w Proximity Status Wua.
From S2P Require Import TxnLog Trust Presenter.
From S2P Require Import Prelude Utf8 BTree Boundary Serde SdJwtProcess Catalogue X509 X509Path.
From S2P Require Import PidProfile Holdings CredentialChecks WalletCore Ingestion Summaries.

Open Scope Z_scope.
Open Scope rust_scope.

Inductive OperationFailure : Type :=
| FailTrust | FailStorage | FailSigning | FailTransport | FailHttpStatus | FailIssuer | FailStatus
| FailRendering | FailMissingDependency | FailUnsupported.

Inductive HybridSignPurpose : Type :=
| CredentialBinding | PresentationPurpose | WalletAuthentication | WalletExport.

Inductive HttpDeliveryProfile : Type :=
| Openid4vpDirectPost | PaymentAuthorization | QesAuthorization.

#[export] Instance delivery_profile_eq_decision : EqDecision HttpDeliveryProfile.
Proof. solve_decision. Defined.
#[export] Instance signature_profile_eq_decision : EqDecision HybridSignatureProfile.
Proof. solve_decision. Defined.

Inductive Event : Type :=
| SetClock (epoch : Z)
| RedactTransaction (seq : Z)
| WipeTransactionLog
| AuthorizationRequestReceived (request : bytes)
| RpCertChainResolved (rp_cert_chain : list bytes) (registered_redirect_uris : list string)
| UserConsented
| UserDeclined
| DeviceSignatureProduced (signature : bytes)
| HybridSignatureProduced (operation_id : Z) (profile : HybridSignatureProfile)
    (classical_signature post_quantum_signature : bytes)
| PresentationDelivered
| PaymentAuthorizationDelivered
| QesAuthorizationDelivered
| OperationSucceeded (operation_id : Z)
| OperationFailed (operation_id : Z) (failure : OperationFailure)
| OperationCancelled (operation_id : Z)
| PaymentAuthorizationRequestReceived (request : bytes)
| PaymentApproved
| PaymentDeclined
| QesSignRequestReceived (request : bytes)
| QesAuthorized
| QesDeclined
| CredentialOfferReceived (offer : bytes) (issuer_cert_chain : list bytes) (issuer_id : string)
| CredentialOfferAccepted
| CredentialOfferDeclined
| ParPushed (pkce_s256 : bool)
| AuthorizationCodeReturned (code : bytes)
| TransactionCodeEntered (code : bytes)
| TokenReceived (bound : bool) (c_nonce : Z)
| CredentialReceived (format : string) (credential : bytes)
| StatusListReceived (uri : string) (http_status : Z) (token : bytes) (provider_cert_chain : list bytes)
| WalletTransferOfferCreated
| WalletTransferReceived (credential : bytes) (issuer_cert_chain : list bytes)
    (sender_public_key sender_signature sender_consent_hash : bytes) (nonce : Z)
| ProximityEngagementRequested (ble_uuid : bytes)
| ProximityReaderEstablishment (session_establishment : bytes)
| ProximityReaderTermination
| DcApiRequestReceived (request : bytes) (origin : string).

Inductive Effect : Type :=
| ResolveRpTrust (client_id : string)
| PersistNonce (nonce : string)
| Render (screen : ScreenDescription)
| Sign (key_ref : string) (payload : bytes)
| HybridSign (profile : HybridSignatureProfile) (key_ref : string) (purpose : HybridSignPurpose)
    (payload : bytes)
| Http (profile : HttpDeliveryProfile) (url : string) (body : bytes)
| PushPar
| OpenAuthBrowser
| PromptTxCode
| RequestToken
| RequestCredential (proof_jwt : bytes)
| FetchStatusList (uri : string)
| PublishTransferOffer (offered_key : bytes)
| EmitDeviceEngagement (engagement : bytes)
| EmitDeviceResponse (response : bytes)
| EmitDcApiResponse (response : bytes)
| Close.

(** What an operation of the core returns: its state and the effects. *)
Abbreviation Reply := (Core * list Effect)%type.

Definition is_close (e : Effect) : bool := match e with Close => true | _ => false end.

(** The stable error screen that ends an exchange. *)
Definition error_effects (code message : string) : list Effect :=
  [Render (ErrorScreen code message); Close].

(** ** The audit log *)

Definition redact_transaction (self : Core) (seq : Z) : Core :=
  {| self with log := fst (TxnLog.redact (log self) seq) |}.

Definition wipe_transaction_log (self : Core) : Core :=
  {| self with log := TxnLog.wipe (log self); audit_log_available := true |}.

Definition check_audit_entry (self : Core) (entry : TxnLog.NewEntry) : result unit TxnLog.Error :=
  TxnLog.check_append (log self) entry.

Definition append_audit_entry `{D : Digest} (self : Core) (entry : TxnLog.NewEntry)
  : Core * result unit TxnLog.Error :=
  match TxnLog.append (log self) entry with
  | (log', Ok _) => ({| self with log := log' |}, Ok tt)
  | (log', Err error) => ({| self with log := log'; audit_log_available := false |}, Err error)
  end.

(** An entry of a completed interaction. *)
Definition completed_entry (self : Core) (kind : TxnLog.Kind) (counterparty : string)
    (consent_hash : bytes) (claim_paths : list string) (payment : option TxnLog.PaymentSummary)
  : TxnLog.NewEntry := {|
  TxnLog.epoch := now_epoch self; TxnLog.kind := kind; TxnLog.counterparty := counterparty;
  TxnLog.consent_hash := consent_hash; TxnLog.claim_paths := claim_paths;
  TxnLog.outcome := TxnLog.Completed; TxnLog.payment := payment |}.

Definition record_presentation `{D : Digest} (self : Core) : Core * result unit TxnLog.Error :=
  match session self with
  | Some sess =>
      append_audit_entry self
        (completed_entry self TxnLog.Presentation (rp_client_id sess) (consent_hash sess)
           (shared_claims sess) None)
  | None => (self, Ok tt)
  end.

Definition record_payment `{D : Digest} (self : Core) : Core * result unit TxnLog.Error :=
  match pay_summary self with
  | Some summary =>
      append_audit_entry self
        (completed_entry self TxnLog.Payment (TxnLog.payee summary) (pay_consent_hash self) []
           (Some summary))
  | None => (self, Ok tt)
  end.

Definition record_issuance `{D : Digest} (self : Core) (format : string)
  : Core * result unit TxnLog.Error :=
  append_audit_entry self
    (completed_entry self TxnLog.Issuance (issuer_id_current self) ZERO32 [format] None).

Definition audited_flow_started_by (event : Event) : option ActiveFlow :=
  match event with
  | AuthorizationRequestReceived _ => Some Presentation
  | PaymentAuthorizationRequestReceived _ => Some Payment
  | CredentialOfferReceived _ _ _ => Some Issuance
  | WalletTransferOfferCreated | WalletTransferReceived _ _ _ _ _ _ => Some WalletTransfer
  | _ => None
  end.

Definition terminate_audited_flow (self : Core) (flow : ActiveFlow) (code message : string) : Reply :=
  let self :=
    if negb (bool_decide (active self = NoFlow)) && negb (bool_decide (active self = flow))
    then reset_flow self (active self) else self in
  (reset_flow self flow, error_effects code message).

Definition audit_log_fault_effects (self : Core) (flow : ActiveFlow) : Reply :=
  terminate_audited_flow {| self with audit_log_available := false |} flow "audit_log_unavailable"
    "The wallet cannot securely record this operation. No further auditable operation is allowed until the wallet history is repaired or reset.".

Definition audit_log_capacity_effects (self : Core) (flow : ActiveFlow) : Reply :=
  terminate_audited_flow self flow "audit_log_capacity_exhausted"
    "The wallet history does not have enough capacity for this operation. Review or erase history before trying again.".

Definition audit_log_candidate_rejection_effects (self : Core) (flow : ActiveFlow) : Reply :=
  terminate_audited_flow self flow "audit_log_entry_invalid"
    "This operation contains activity details that cannot be recorded safely.".

Definition wallet_transfer_in_progress_effects : list Effect :=
  [Render (ErrorScreen "wallet_transfer_in_progress"
     "A credential transfer cannot replace another wallet operation.")].

(** ** Failed operations *)

Definition recovery_reason (failure : option OperationFailure) : IssuanceRecovery :=
  match failure with
  | Some (FailIssuer | FailTrust) => IssuerRejected
  | Some (FailMissingDependency | FailUnsupported) => NfcUnavailable
  | Some (FailTransport | FailHttpStatus) => NetworkInterrupted
  | _ => SessionInterrupted
  end.

Definition failure_effects (failure : option OperationFailure) : list Effect :=
  match failure with
  | None =>
      error_effects "operation_cancelled" "The wallet operation was cancelled before it completed."
  | Some FailTrust =>
      error_effects "operation_trust_failed"
        "Current authenticated trust information could not be resolved."
  | Some FailStorage =>
      error_effects "operation_storage_failed" "Required wallet state could not be stored securely."
  | Some FailSigning =>
      error_effects "operation_signing_failed"
        "The protected device key could not complete the operation."
  | Some (FailTransport | FailHttpStatus) =>
      error_effects "operation_delivery_failed"
        "The remote service did not acknowledge the wallet operation."
  | Some FailIssuer =>
      error_effects "operation_issuer_failed" "The credential issuer operation failed."
  | Some FailStatus =>
      error_effects "operation_status_failed"
        "Current authenticated credential status could not be obtained."
  | Some FailRendering =>
      error_effects "operation_rendering_failed"
        "The wallet could not show the confirmation securely."
  | Some FailMissingDependency =>
      error_effects "operation_dependency_missing" "A required wallet service is not available."
  | Some FailUnsupported =>
      error_effects "operation_unsupported"
        "This wallet operation is not supported by the native client."
  end.

Definition operation_terminal_effects `{D : Digest} (self : Core) (pending : PendingOperation)
    (failure : option OperationFailure) : Reply :=
  let issuance_document :=
    if bool_decide (op_flow pending = Issuance)
    then issuance_document_summary self NeedsAttention else None in
  let self := reset_flow self (op_flow pending) in
  match issuance_document with
  | Some document =>
      (self, [Render (IssuanceRecoveryStep {|
                reason := recovery_reason failure;
                recovery_document_name := document_name document;
                attempts_remaining := None;
                can_resume := false |}); Close])
  | None => (self, failure_effects failure)
  end.

(** ** Presentations that end early *)

Definition presentation_error_effects (reason : Oid4vp.AbortReason) : option (list Effect) :=
  match reason with
  | Oid4vp.MalformedRequest =>
      Some (error_effects "presentation_request_malformed"
              "The relying party sent a malformed presentation request.")
  | Oid4vp.ResponseModeUnsupported =>
      Some (error_effects "presentation_response_mode_unsupported"
              "The relying party requested an unsupported response mode.")
  | Oid4vp.ResponseUriInvalid =>
      Some (error_effects "presentation_response_uri_invalid"
              "The relying party did not provide a valid HTTPS response endpoint.")
  | Oid4vp.ResponseUriNotRegistered =>
      Some (error_effects "presentation_response_uri_not_registered"
              "The response endpoint is not registered for this relying party.")
  | Oid4vp.ResponseEncryptionMetadataInvalid =>
      Some (error_effects "presentation_response_encryption_metadata_invalid"
              "The relying party did not provide valid response-encryption metadata.")
  | Oid4vp.ResponseEncryptionFailed =>
      Some (error_effects "presentation_response_encryption_failed"
              "The presentation response could not be encrypted safely.")
  | Oid4vp.ClockRollback =>
      Some (error_effects "clock_rollback_rejected" "The trusted wallet clock cannot move backwards.")
  | Oid4vp.CredentialExpired =>
      Some (error_effects "credential_expired"
              "A selected credential expired before it could be shared.")
  | Oid4vp.CredentialNotYetValid =>
      Some (error_effects "credential_not_yet_valid" "A selected credential is not currently valid.")
  | Oid4vp.CredentialProvenanceInvalid =>
      Some (error_effects "credential_provenance_invalid"
              "A selected credential no longer has valid authenticated provenance.")
  | Oid4vp.PresentationTrustInvalid =>
      Some (error_effects "presentation_trust_invalid"
              "Current trusted relying-party evidence is required before sharing.")
  | Oid4vp.NoCredential =>
      Some (error_effects "no_eligible_credential"
              "No current credential satisfies the complete presentation request.")
  | Oid4vp.CredentialStatusInvalid =>
      Some (error_effects "credential_revoked"
              "This credential is revoked or suspended and cannot be shared.")
  | Oid4vp.CredentialStatusUnavailable =>
      Some (error_effects "credential_status_unavailable"
              "A fresh, trusted status assertion is required before this credential can be shared.")
  | _ => None
  end.

Definition abort_presentation (self : Core) (reason : Oid4vp.AbortReason) : Reply :=
  let self := {| self with vp := Oid4vp.Aborted reason; session := None;
                           pending_rp_provenance := None; pending_status_references := [] |} in
  let self := clear_pending_operations self Presentation in
  ({| self with active := NoFlow |}, unwrap_or (presentation_error_effects reason) []).

Definition eligibility_abort_reason (error : PresentationEligibilityError) : Oid4vp.AbortReason :=
  match error with
  | EligibilityExpired => Oid4vp.CredentialExpired
  | EligibilityNotYetValid => Oid4vp.CredentialNotYetValid
  | ProvenanceInvalid => Oid4vp.CredentialProvenanceInvalid
  | TrustEvidenceInvalid => Oid4vp.PresentationTrustInvalid
  | NoEligibleCredential => Oid4vp.NoCredential
  end.

Definition abort_presentation_eligibility (self : Core) (error : PresentationEligibilityError) : Reply :=
  abort_presentation self (eligibility_abort_reason error).

Definition status_block_effects (self : Core) (revoked : bool) : Reply :=
  abort_presentation self
    (if revoked then Oid4vp.CredentialStatusInvalid else Oid4vp.CredentialStatusUnavailable).

(** ** Loaders *)

Inductive StatusLoadError : Type :=
| StatusClockNotSet | StatusInvalidUri | StatusUntrustedProvider
| StatusInvalidToken (e : Status.StatusError)
| StatusCacheFull.

Inductive StatusGate : Type :=
| GateReady
| GateFetch (all_references : list StatusReference) (uris : list string)
| GateRevoked
| GateIndeterminate.

Definition load_device_key (self : Core) (key : bytes) : Core := {| self with device_public_key := key |}.

Section loaders.
Context `{JL : JsonLib} {SJ : SerdeJson} `{B64 : Base64} `{D : Digest} `{V : Verifier} `{X : X509Der}
  `{CV : CertVerifier} `{SB : StdBase64} `{PQ : MlDsa} `{INF : Inflate}.

Definition load_wua (self : Core) (wua_jwt provider_public_key : bytes)
  : Core * result unit Wua.WuaError :=
  match Wua.parse_and_verify wua_jwt provider_public_key Es256 (now_epoch self) with
  | Ok att => ({| self with wua := Some att |}, Ok tt)
  | Err e => (self, Err e)
  end.

Definition load_trust_list (self : Core) (signed_list operator_public_key : bytes)
  : Core * result unit Trust.TrustError :=
  match Trust.parse_and_verify signed_list operator_public_key Es256 (now_epoch self) with
  | Ok l =>
      let '(store, r) := Trust.update (trust_store self) l in
      ({| self with trust_store := store |}, r)
  | Err e => (self, Err e)
  end.

Definition load_status_list (self : Core) (uri : string) (token : bytes)
    (provider_cert_chain : list bytes) : Core * result unit StatusLoadError :=
  if now_epoch self <=? 0 then (self, Err StatusClockNotSet)
  else if negb (valid_status_uri uri) then (self, Err StatusInvalidUri)
  else
    match resolve_status_provider_key self provider_cert_chain with
    | None => (self, Err StatusUntrustedProvider)
    | Some provider_public_key =>
        match Status.parse_and_verify token uri provider_public_key Es256 (now_epoch self) with
        | Err e => (self, Err (StatusInvalidToken e))
        | Ok l =>
            let fresh :=
              List.filter (fun '(_, cached) => Status.is_fresh_at (cached_list cached) (now_epoch self))
                (status_lists self) in
            let self := {| self with status_lists := fresh |} in
            if negb (bt_contains fresh uri) && (MAX_CACHED_STATUS_LISTS <=? len fresh)
            then (self, Err StatusCacheFull)
            else
              ({| self with status_lists :=
                    bt_insert uri {| cached_list := l; provider_cert_chain := provider_cert_chain |} fresh |},
               Ok tt)
        end
    end.

(** The status reference of a selected source; an error when it cannot be
    read. *)
Definition source_reference (source : PresentationCredentialReference)
  : result (option StatusReference) unit :=
  match source with
  | RefSdJwt holding _ => Ok (held_status holding)
  | RefMdoc holding =>
      match Mdoc.decode_mso (issuer_signed holding) with
      | Ok mso =>
          match Mdoc.status mso with
          | Some status =>
              if valid_status_uri (Mdoc.uri status)
              then Ok (Some {| status_list_uri := Mdoc.uri status; status_index := Mdoc.index status |})
              else Err tt
          | None => Ok None
          end
      | Err _ => Err tt
      end
  end.

Definition push_unseen {A} `{EqDecision A} (l : list A) (x : A) : list A :=
  if bool_decide (x ∈ l) then l else l ++ [x].

Fixpoint source_references (l : list PresentationCredentialReference) (references : list StatusReference)
  : result (list StatusReference) unit :=
  match l with
  | [] => Ok references
  | source :: l =>
      let? reference := source_reference source in
      source_references l
        (match reference with Some r => push_unseen references r | None => references end)
  end.

(** The cached list of a reference, when it is fresh and its provider is still
    trusted. *)
Definition usable_list (self : Core) (uri : string) : option Status.StatusList :=
  let! cached := bt_get (status_lists self) uri in
  if negb (Status.is_fresh_at (cached_list cached) (now_epoch self))
     || negb (is_some (resolve_status_provider_key self (provider_cert_chain cached)))
  then None else Some (cached_list cached).

Fixpoint check_references (self : Core) (l all : list StatusReference) (fetch : list string)
  : StatusGate :=
  match l with
  | [] => if is_empty fetch then GateReady else GateFetch all fetch
  | reference :: l =>
      match usable_list self (status_list_uri reference) with
      | None => check_references self l all (push_unseen fetch (status_list_uri reference))
      | Some s =>
          match Status.status_at s (status_index reference) with
          | Status.Valid => check_references self l all fetch
          | Status.Invalid | Status.Suspended => GateRevoked
          | Status.Unknown => GateIndeterminate
          end
      end
  end.

Definition presentation_status_gate (self : Core) : StatusGate :=
  match session self with
  | None => GateIndeterminate
  | Some sess =>
      match source_references (selected_sources sess) [] with
      | Err _ => GateIndeterminate
      | Ok references =>
          if MAX_STATUS_LISTS_PER_PRESENTATION <? len references then GateIndeterminate
          else check_references self references references []
      end
  end.

Definition presentation_sensitive_abort_reason (self : Core) : option Oid4vp.AbortReason :=
  match presentation_evidence_is_current self with
  | Err error => Some (eligibility_abort_reason error)
  | Ok _ =>
      match presentation_status_gate self with
      | GateReady => None
      | GateRevoked => Some Oid4vp.CredentialStatusInvalid
      | GateFetch _ _ | GateIndeterminate => Some Oid4vp.CredentialStatusUnavailable
      end
  end.
End loaders.
