(* ===== verification/Responses.v ===== *)
(** * Encrypted form bodies (crates/wallet-core/src/lib.rs)

    Reading a form field back from a [direct_post] body, and turning such a
    body into a [direct_post.jwt] one. *)

From S2P Require Import Oid4vp Sealing.
From S2P Require Import Prelude Utf8 BTree Boundary Serde Jwe.

Open Scope Z_scope.
Open Scope rust_scope.

(** ** [String::from_utf8_lossy] *)

(** The bytes of an ill-formed sequence that one replacement character stands
    for: as long as they could have been completed. *)
Definition ill_formed_length (bs : bytes) : nat :=
  match bs with
  | b0 :: b1 :: r =>
      let x0 := byte.unsigned b0 in
      let x1 := byte.unsigned b1 in
      if in_range 224 239 x0
         && in_range (if x0 =? 224 then 160 else 128) (if x0 =? 237 then 159 else 191) x1
      then 2%nat
      else if in_range 240 244 x0
              && in_range (if x0 =? 240 then 144 else 128) (if x0 =? 244 then 143 else 191) x1
      then match r with b2 :: _ => if is_cont (byte.unsigned b2) then 3%nat else 2%nat | [] => 2%nat end
      else 1%nat
  | _ => 1%nat
  end.

Definition REPLACEMENT : bytes := [Byte.xef; Byte.xbf; Byte.xbd].

Fixpoint lossy (fuel : nat) (bs : bytes) : bytes :=
  match fuel, bs with
  | O, _ | _, [] => []
  | S fuel, _ =>
      match next_char bs with
      | Some (_, rest) => firstn (length bs - length rest) bs ++ lossy fuel rest
      | None => REPLACEMENT ++ lossy fuel (skipn (ill_formed_length bs) bs)
      end
  end.

Definition from_utf8_lossy (bs : bytes) : string := string_of_list_byte (lossy (length bs) bs).

(** ** Form fields *)

Fixpoint percent_bytes (b : bytes) : bytes :=
  match b with
  | [] => []
  | c :: rest =>
      match rest with
      | hi :: lo :: r =>
          if Byte.eqb c Byte.x25 then
            match Oid4vp.hex_digit hi, Oid4vp.hex_digit lo with
            | Some h, Some l => byte.of_Z (h * 16 + l) :: percent_bytes r
            | _, _ => c :: percent_bytes rest
            end
          else c :: percent_bytes rest
      | _ => c :: percent_bytes rest
      end
  end.

Definition percent_decode (s : string) : string := from_utf8_lossy (percent_bytes (as_bytes s)).

Fixpoint first_field (prefix : bytes) (l : list bytes) : option string :=
  match l with
  | [] => None
  | kv :: l =>
      match strip_prefix prefix kv with
      | Some v => Some (percent_decode (string_of_list_byte v))
      | None => first_field prefix l
      end
  end.

Definition form_field (body key : string) : option string :=
  first_field (as_bytes (key ++ "=")) (split_byte Byte.x26 (as_bytes body)).

(** ** [direct_post.jwt] *)

(** The random bytes one call of the core may draw: an agreement key and a
    nonce. *)
Record Draws : Type := { key_random : bytes; iv_random : bytes }.

Section responses.
Context {SJ : SerdeJson} `{B64 : Base64} `{D : Digest} {A : Aead} {E : Ecdh}.

Definition response_object (vp_token : Value) (state : option string) : Value :=
  let obj := bt_insert "vp_token" vp_token [] in
  VObject (match state with Some s => bt_insert "state" (VString s) obj | None => obj end).

Definition encrypt_direct_post_jwt (rnd : Draws) (nonce : string) (form_body recipient_key : bytes)
  : option bytes :=
  let! body := from_utf8 form_body in
  let! vp_token_raw := form_field body "vp_token" in
  let! vp_token := value_from_slice (as_bytes vp_token_raw) in
  let plaintext := value_to_vec (response_object vp_token (form_field body "state")) in
  let apu := unwrap_or (form_field body "mdoc_generated_nonce") "" in
  let! jwe :=
    ok (encrypt_ecdh_es_a256gcm (key_random rnd) (iv_random rnd) plaintext recipient_key
          (as_bytes apu) (as_bytes nonce)) in
  Some (as_bytes ("response=" ++ jwe)).
End responses.
