(* ===== verification/Facade.v ===== *)
(** * The flows of the facade (crates/wallet-core/src/lib.rs)

    One driver per flow: it builds the environment of the flow's machine from
    the state, runs one step, and turns the outputs into effects, with the
    gates before consent, signature and delivery. *)

From S2P Require Import Cbor Cose Mdoc Oid4vp Dcql Payment Oid4vci Qes W2w Proximity Status Wua.
From S2P Require Import TxnLog Trust SdJwt Presenter Sealing ProximitySession DcApiRequests.
From S2P Require Import Prelude Utf8 BTree Boundary Serde SdJwtProcess Catalogue X509 X509Path.
From S2P Require Import PidProfile Holdings CredentialChecks WalletCore Ingestion Summaries.
From S2P Require Import Selection QuerySelection Responses Effects.

Open Scope Z_scope.
Open Scope rust_scope.

(** [outputs.into_iter().flat_map(|o| self.translate(o)).collect()]. *)
Fixpoint translate_each {O} (translate : Core -> O -> Reply) (self : Core) (outputs : list O) : Reply :=
  match outputs with
  | [] => (self, [])
  | o :: outputs =>
      let '(self, effects) := translate self o in
      let '(self, rest) := translate_each translate self outputs in
      (self, effects ++ rest)
  end.

Definition has_close (effects : list Effect) : bool := existsb is_close effects.

Section facade.
Context `{JL : JsonLib} {JV : JsonValue} {SJ : SerdeJson} `{B64 : Base64} `{D : Digest} `{V : Verifier}
  `{X : X509Der} `{CV : CertVerifier} `{SB : StdBase64} `{PQ : MlDsa} `{INF : Inflate}
  {A : Aead} {K : Kdf} {E : Ecdh}.

(** ** The consent screen *)

(** The claims of a source, all disclosures included. *)
Definition source_claims (source : PresentationCredentialReference) : list string :=
  match source with
  | RefSdJwt _ (Some authenticated) =>
      visible_sdjwt_claims authenticated
        (bt_extend [] (map (fun disclosure => (SdJwtProcess.digest disclosure, tt))
                         (verified_disclosures (processed authenticated))))
  | RefSdJwt holding None => map fst (disclosures_by_claim holding)
  | RefMdoc holding =>
      flat_map (fun '(namespace, items) =>
        map (fun item => (namespace ++ "." ++ Mdoc.element_id item)%string) items)
        (Mdoc.name_spaces (issuer_signed holding))
  end.

Definition RETAINED : bytes := as_bytes " [retained]".

(** The path of a claim, without the mark of retention. *)
Definition claim_path (claim : string) : string :=
  match strip_suffix RETAINED (as_bytes claim) with
  | Some path => string_of_list_byte path
  | None => claim
  end.

Definition over_ask_of (registration : Trust.RelyingPartyRegistration) (revealed : list string)
  : OverAskResult :=
  match List.filter (fun claim =>
          negb (existsb (String.eqb (claim_path claim)) (Trust.allowed_claims registration))) revealed with
  | [] => WithinRegisteredScope
  | claims => ExceedsRegisteredScope claims
  end.

Definition retention_of (policy : Trust.RetentionPolicy) : RetentionDisclosure :=
  match policy with
  | Trust.NotStored => Presenter.NotStored
  | Trust.Days days => Presenter.Days days
  | Trust.Unspecified => Presenter.Unspecified
  end.

Definition consent_of (self : Core) : ConsentScreen :=
  match session self with
  | None => consent_default
  | Some session =>
      let held :=
        sort_with str_cmp
          (fold_left push_unseen (flat_map source_claims (selected_sources session)) []) in
      let shared := map claim_path (selected_revealed_claims session) in
      let not_shared := List.filter (fun claim => negb (existsb (String.eqb claim) shared)) held in
      match rp_registration session with
      | Some registration => {|
          Presenter.rp_display_name := Trust.rp_display_name registration;
          Presenter.purpose := purpose session;
          Presenter.requested_claims := selected_revealed_claims session;
          Presenter.not_shared_claims := not_shared;
          Presenter.verifier_registration := Presenter.Registered;
          Presenter.trust_mark :=
            option_map (fun '(Trust.EudiWallet) => Presenter.EudiWallet) (Trust.trust_mark registration);
          Presenter.retention := retention_of (Trust.retention registration);
          Presenter.over_ask := over_ask_of registration (selected_revealed_claims session);
          Presenter.activechain := None |}
      | None => {|
          Presenter.rp_display_name := rp_client_id session;
          Presenter.purpose := purpose session;
          Presenter.requested_claims := selected_revealed_claims session;
          Presenter.not_shared_claims := not_shared;
          Presenter.verifier_registration := CertificateValidated;
          Presenter.trust_mark := None;
          Presenter.retention := Presenter.Unspecified;
          Presenter.over_ask := RegistrationScopeUnavailable;
          Presenter.activechain := None |}
      end
  end.

Definition consent_screen (self : Core) : ScreenDescription := Consent (consent_of self).

(** ** Remote presentation *)

(** The response of a presentation, in the mode of the request. *)
Definition deliver_response (rnd : Draws) (self : Core) (body : bytes) : Reply :=
  match session self with
  | None => abort_presentation self Oid4vp.ResponseUriInvalid
  | Some sess =>
      if String.eqb (response_mode sess) "direct_post"
      then (self, [Http Openid4vpDirectPost (response_uri sess) body])
      else if String.eqb (response_mode sess) "direct_post.jwt" then
        match response_encryption_key sess with
        | None => abort_presentation self Oid4vp.ResponseEncryptionMetadataInvalid
        | Some key =>
            match encrypt_direct_post_jwt rnd (nonce sess) body key with
            | Some encrypted => (self, [Http Openid4vpDirectPost (response_uri sess) encrypted])
            | None => abort_presentation self Oid4vp.ResponseEncryptionFailed
            end
        end
      else abort_presentation self Oid4vp.ResponseModeUnsupported
  end.

Definition translate (rnd : Draws) (self : Core) (output : Oid4vp.Output) : Reply :=
  match output with
  | Oid4vp.ResolveRpTrust client_id => (self, [ResolveRpTrust client_id])
  | Oid4vp.PersistNonce nonce =>
      ({| self with seen_nonces := seen_nonces self ++ [nonce] |}, [PersistNonce nonce])
  | Oid4vp.RenderConsent _ _ =>
      match presentation_evidence_is_current self with
      | Err error => abort_presentation_eligibility self error
      | Ok _ =>
          let screen := consent_screen self in
          let self :=
            match session self with
            | Some sess =>
                {| self with session := Some {| sess with
                     consent_hash := Presenter.consent_hash screen;
                     shared_claims := Presenter.requested_claims (consent_of self) |} |}
            | None => self
            end in
          (self, [Render screen])
      end
  | Oid4vp.SignKeyBinding key_ref signing_input =>
      match presentation_sensitive_abort_reason self with
      | Some reason => abort_presentation self reason
      | None => (self, [Sign key_ref signing_input])
      end
  | Oid4vp.SendVpToken body =>
      match presentation_sensitive_abort_reason self with
      | Some reason => abort_presentation self reason
      | None => deliver_response rnd self body
      end
  | Oid4vp.Close => (self, [Close])
  end.

(** The session of a validated request. *)
Definition new_session (self : Core) (req : Oid4vp.AuthRequest) : SessionInfo := {|
  rp_client_id := Oid4vp.client_id req;
  rp_registration := Trust.relying_party_at (trust_store self) (Oid4vp.client_id req) (now_epoch self);
  purpose := unwrap_or (Oid4vp.purpose req) "";
  requested_claims := Oid4vp.requested_claims req;
  nonce := Oid4vp.nonce req;
  response_uri := Oid4vp.response_uri req;
  response_mode := Oid4vp.response_mode req;
  response_encryption_key := Oid4vp.response_encryption_key req;
  dcql := Oid4vp.r_dcql req;
  selected_credentials := [];
  selected_sources := [];
  selected_revealed_claims := [];
  rp_provenance := pending_rp_provenance self;
  consent_hash := ZERO32;
  shared_claims := [] |}.

(** [Ok]: the session with its frozen selection; [Err]: the early return. *)
Definition admit_request (self : Core) (req : Oid4vp.AuthRequest) : result Core Reply :=
  let self := {| self with session := Some (new_session self req) |} in
  match prepare_presentation_selection self with
  | (self, Err error) => Err (abort_presentation_eligibility self error)
  | (self, Ok _) =>
      match session self with
      | Some session =>
          let audit_candidate :=
            completed_entry self TxnLog.Presentation (rp_client_id session) ZERO32
              (selected_revealed_claims session) None in
          if is_ok (check_audit_entry self audit_candidate) then Ok self
          else Err (audit_log_candidate_rejection_effects self Presentation)
      | None => Ok self
      end
  end.

Definition vp_env (self : Core) (input : Oid4vp.Input) : Oid4vp.Env := {|
  Oid4vp.wallet_client_id := wallet_client_id (config self);
  Oid4vp.seen_nonces := seen_nonces self;
  Oid4vp.now_epoch := now_epoch self;
  Oid4vp.selected_credentials := select_credentials_for self input;
  Oid4vp.device_key_ref := device_key_ref (config self) |}.

Definition is_done (s : Oid4vp.State) : bool := match s with Oid4vp.Done => true | _ => false end.

Definition newly_aborted (before after : Oid4vp.State) : option Oid4vp.AbortReason :=
  match before, after with
  | Oid4vp.Aborted _, _ => None
  | _, Oid4vp.Aborted reason => Some reason
  | _, _ => None
  end.

(** Delivery-policy failures before consent have an error screen of their own. *)
Definition surface_abort (self : Core) (effects : list Effect) (reason : option Oid4vp.AbortReason)
  : Reply :=
  match (let! r := reason in presentation_error_effects r) with
  | Some error_effects => ({| self with session := None |}, effects ++ error_effects)
  | None => (self, effects)
  end.

Definition drive (rnd : Draws) (self : Core) (input : Oid4vp.Input) : Reply :=
  let '(next, outputs) := Oid4vp.step (vp self) input (vp_env self input) in
  let was_done := is_done (vp self) in
  let aborted := newly_aborted (vp self) next in
  let self := {| self with vp := next |} in
  match (match next with Oid4vp.RequestValidated req => admit_request self req | _ => Ok self end) with
  | Err reply => reply
  | Ok self =>
      let '(self, effects) := translate_each (translate rnd) self outputs in
      let '(self, effects) := surface_abort self effects aborted in
      if negb was_done && is_done (vp self) then
        match record_presentation self with
        | (self, Ok _) => (self, effects)
        | (self, Err _) => audit_log_fault_effects self Presentation
        end
      else (self, effects)
  end.

(** ** Issuance *)

Definition credential_issuance_rejection_effects : list Effect :=
  error_effects "credential_issuance_rejected"
    "The credential response could not be authenticated and stored.".

Definition is_requesting_credential (s : Oid4vci.State) : bool :=
  match s with Oid4vci.RequestingCredential _ => true | _ => false end.

Definition reject_unexpected_credential_response (self : Core) : Reply :=
  let self := {| self with pending_verified_credential := None;
                           last_credential_ingestion_error := Some MalformedCredential |} in
  let closes_current_flow :=
    bool_decide (active self = NoFlow) || bool_decide (active self = Issuance) in
  let self :=
    if bool_decide (active self = Issuance) || is_requesting_credential (issuance self)
    then finish_flow {| self with issuance := Oid4vci.Aborted Oid4vci.CredentialInvalid |} Issuance
    else self in
  (self, if closes_current_flow then credential_issuance_rejection_effects
         else List.filter (fun e => negb (is_close e)) credential_issuance_rejection_effects).

Definition offer_screen (self : Core) (format : Oid4vci.CredentialFormat) : ScreenDescription :=
  let (document_name, display_format) := display_document format in
  IssuanceOffer {|
    offer_issuer_name := issuer_display self;
    offer_document_name := document_name;
    offer_format := display_format;
    offer_attributes :=
      if portrait_is_required self then ["family_name"; "given_name"; "portrait"]%string else [];
    offer_portrait_required := portrait_is_required self |}.

Definition translate_issuance (self : Core) (output : Oid4vci.Output) : Reply :=
  match output with
  | Oid4vci.ReviewOffer format =>
      let screen := offer_screen self format in
      ({| self with issuance_consent_hash := Presenter.consent_hash screen |}, [Render screen])
  | Oid4vci.PushPar => (self, [PushPar])
  | Oid4vci.OpenAuthBrowser => (self, [OpenAuthBrowser])
  | Oid4vci.PromptTxCode => (self, [PromptTxCode])
  | Oid4vci.RequestToken => (self, [RequestToken])
  | Oid4vci.SignProof key_ref signing_input => (self, [Sign key_ref signing_input])
  | Oid4vci.RequestCredential proof_jwt => (self, [RequestCredential proof_jwt])
  | Oid4vci.Close => (self, [Close])
  end.

Definition proof_key_attested (self : Core) : bool :=
  match wua self with
  | Some w => Wua.is_valid_for_at w (device_public_key self) Wua.High (now_epoch self)
  | None => false
  end.

Definition issuer_trusted_now (self : Core) : bool :=
  let current_issuers := resolve_credential_issuers self (issuer_cert_chain_current self) in
  issuer_candidates_are_consistent current_issuers
  && bool_decide (current_issuers = issuer_candidates_current self)
  && match List.hd_error current_issuers with
     | Some issuer => bool_decide (evidence_identity issuer = issuer_id_current self)
     | None => false
     end
  && bool_decide (issuer_id_assertion_current self = issuer_id_current self).

Definition issuance_env (self : Core) : Oid4vci.Env := {|
  Oid4vci.issuer_trusted := issuer_trusted_current self;
  Oid4vci.env_proof_key_attested := proof_key_attested self;
  Oid4vci.seen_c_nonces := iss_seen_c_nonces self;
  Oid4vci.device_key_ref := device_key_ref (config self);
  Oid4vci.device_public_key := device_public_key self;
  Oid4vci.issuer_id := issuer_id_current self;
  Oid4vci.now_epoch := now_epoch self |}.

Definition is_issued (s : Oid4vci.State) : bool :=
  match s with Oid4vci.CredentialIssued _ _ => true | _ => false end.

Definition is_vci_aborted (s : Oid4vci.State) : bool :=
  match s with Oid4vci.Aborted _ => true | _ => false end.

(** Whether the log could take the entry of this issuance. *)
Definition issuance_is_admissible (self : Core) : bool :=
  match issuance_format (issuance self) with
  | Some format =>
      is_ok (check_audit_entry self
        (completed_entry self TxnLog.Issuance (issuer_id_current self) ZERO32 [format_name format] None))
  | None => true
  end.

Definition is_accept (input : Oid4vci.Input) : bool :=
  match input with Oid4vci.AcceptOffer => true | _ => false end.

Definition preparing_effects (self : Core) (input : Oid4vci.Input) : list Effect :=
  if is_accept input && negb (is_vci_aborted (issuance self)) then
    match issuance_document_summary self Preparing with
    | Some document => [Render (IssuancePreparing document)]
    | None => []
    end
  else [].

(** The credential that was authenticated is recorded and stored the moment
    the machine has issued it; [Err]: the early return. *)
Definition store_issued (self : Core) : result Core Reply :=
  match issuance self with
  | Oid4vci.CredentialIssued issued_format _ =>
      let pending := pending_verified_credential self in
      let self := {| self with pending_verified_credential := None |} in
      match pending with
      | Some verified =>
          if bool_decide (verified_format (credential verified) = issued_format) then
            match record_issuance self (format_name issued_format) with
            | (self, Err _) => Err (audit_log_fault_effects self Issuance)
            | (self, Ok _) => Ok (store_verified_credential self verified)
            end
          else
            Ok {| self with issuance := Oid4vci.Aborted Oid4vci.CredentialInvalid;
                            last_credential_ingestion_error := Some MalformedCredential |}
      | None =>
          Ok {| self with issuance := Oid4vci.Aborted Oid4vci.CredentialInvalid;
                          last_credential_ingestion_error := Some MalformedCredential |}
      end
  | _ => Ok self
  end.

(** [effects.insert(close_index, ready)], or at the end without a [Close]. *)
Fixpoint before_close (ready : Effect) (effects : list Effect) : list Effect :=
  match effects with
  | [] => [ready]
  | e :: effects => if is_close e then ready :: e :: effects else e :: before_close ready effects
  end.

Definition ready_effects (self : Core) (effects : list Effect) : list Effect :=
  match issuance_document_summary self Ready with
  | Some document => before_close (Render (IssuanceReady document)) effects
  | None => effects
  end.

(** The end of a step: terminal states finish the flow. *)
Definition settle_issuance (self : Core) (was_issued was_aborted : bool) (effects : list Effect) : Reply :=
  match issuance self with
  | Oid4vci.CredentialIssued _ _ =>
      let effects := if was_issued then effects else ready_effects self effects in
      (finish_flow self Issuance, effects)
  | Oid4vci.Aborted reason =>
      let self := finish_flow self Issuance in
      if was_aborted then (self, effects)
      else
        (self, match reason with
               | Oid4vci.UserDeclined => [Close]
               | _ => credential_issuance_rejection_effects
               end)
  | _ => (self, effects)
  end.

Definition drive_issuance (self : Core) (input : Oid4vci.Input) : Reply :=
  let self := {| self with issuer_trusted_current := issuer_trusted_now self |} in
  let '(next, outputs) := Oid4vci.step (issuance self) input (issuance_env self) in
  let was_issued := is_issued (issuance self) in
  let was_aborted := is_vci_aborted (issuance self) in
  let self := {| self with issuance := next |} in
  if negb (issuance_is_admissible self) then audit_log_candidate_rejection_effects self Issuance
  else
    let '(self, effects) := translate_each translate_issuance self outputs in
    let effects := preparing_effects self input ++ effects in
    match (if was_issued then Ok self else store_issued self) with
    | Err reply => reply
    | Ok self => settle_issuance self was_issued was_aborted effects
    end.

(** ** Payment *)

Definition translate_payment (self : Core) (output : Payment.Output) : Reply :=
  match output with
  | Payment.RenderPaymentConfirmation creditor_name creditor_account amount_minor currency =>
      let screen := PaymentConfirmation {|
        Presenter.creditor_name := creditor_name; Presenter.creditor_account := creditor_account;
        Presenter.amount_minor := amount_minor; Presenter.currency := currency |} in
      let hash := Presenter.consent_hash screen in
      let summary := {| TxnLog.payee := creditor_name; TxnLog.amount_minor := amount_minor;
                        TxnLog.currency := currency |} in
      let audit_candidate :=
        completed_entry self TxnLog.Payment (TxnLog.payee summary) hash [] (Some summary) in
      if is_ok (check_audit_entry self audit_candidate)
      then ({| self with pay_consent_hash := hash; pay_summary := Some summary |}, [Render screen])
      else audit_log_candidate_rejection_effects self Payment
  | Payment.SignAuthCode key_ref signing_input => (self, [Sign key_ref signing_input])
  | Payment.SendAuthorization code =>
      (self, [Http PaymentAuthorization
                (match pay_pending self with Some (u, _) => u | None => ""%string end) code])
  | Payment.Close =>
      (self, match payment self with Payment.Authorized _ => [] | _ => [Close] end)
  end.

(** The endpoint and nonce of the payment on the screen, and the nonce used by
    an authorised one. *)
Definition note_payment (self : Core) : Core :=
  match payment self with
  | Payment.AwaitingConfirmation req =>
      {| self with pay_pending := Some (Payment.response_uri req, Payment.nonce req) |}
  | Payment.Authorized _ =>
      match pay_pending self with
      | Some (_, nonce) => {| self with pay_seen_nonces := push_unseen (pay_seen_nonces self) nonce |}
      | None => self
      end
  | _ => self
  end.

Definition abort_effects (effects : list Effect) (declined : bool) : list Effect :=
  if has_close effects then effects
  else
    effects
      ++ (if declined then []
          else [Render (ErrorScreen "payment_aborted"
                          "The payment authorization could not be completed.")])
      ++ [Close].

Definition drive_payment (self : Core) (input : Payment.Input) : Reply :=
  let env := {| Payment.seen_nonces := pay_seen_nonces self;
                Payment.device_key_ref := device_key_ref (config self) |} in
  let '(next, outputs) := Payment.step (payment self) input env in
  let self := note_payment {| self with payment := next |} in
  let '(self, effects) := translate_each translate_payment self outputs in
  match payment self with
  | Payment.Aborted reason =>
      (reset_flow self Payment,
       abort_effects effects match reason with Payment.ReasonUserDeclined => true | _ => false end)
  | _ => (self, effects)
  end.

(** ** Qualified signatures *)

Definition translate_qes (self : Core) (output : Qes.Output) : Reply :=
  match output with
  | Qes.RenderSignConfirmation document_name qtsp_id document_hash =>
      let screen := SignConfirmation {|
        sign_document_name := document_name; Presenter.qtsp_id := qtsp_id;
        document_hash_hex := hex_bytes document_hash |} in
      ({| self with qes_consent_hash := Presenter.consent_hash screen |}, [Render screen])
  | Qes.SignAuthorization key_ref signing_input => (self, [Sign key_ref signing_input])
  | Qes.SendToQtsp body => (self, [Http QesAuthorization "" body])
  | Qes.Close => (self, match qes self with Qes.Signed _ => [] | _ => [Close] end)
  end.

Definition note_qes (self : Core) : Core :=
  match qes self with
  | Qes.AwaitingAuthorization req =>
      {| self with qes_seen_nonces := push_unseen (qes_seen_nonces self) (Qes.nonce req) |}
  | _ => self
  end.

Definition drive_qes (self : Core) (input : Qes.Input) : Reply :=
  let env := {| Qes.seen_nonces := qes_seen_nonces self;
                Qes.device_key_ref := device_key_ref (config self);
                Qes.consent_hash := qes_consent_hash self |} in
  let '(next, outputs) := Qes.step (qes self) input env in
  let self := note_qes {| self with qes := next |} in
  let '(self, effects) := translate_each translate_qes self outputs in
  match qes self with
  | Qes.Aborted reason =>
      let effects :=
        effects ++
        match reason with
        | Qes.ReasonUserDeclined => []
        | _ => [Render (ErrorScreen "qes_aborted"
                  "The qualified-signature authorization could not be completed.")]
        end in
      (reset_flow self QesFlow, if has_close effects then effects else effects ++ [Close])
  | _ => (self, effects)
  end.

(** ** Wallet-to-wallet transfer *)

Definition transfer_entry (self : Core) (hash : bytes) : TxnLog.NewEntry :=
  completed_entry self TxnLog.Transfer "peer-wallet" hash [] None.

Definition translate_w2w (self : Core) (output : W2w.Output) : Reply :=
  match output with
  | W2w.PublishOffer => (self, [PublishTransferOffer (device_public_key self)])
  | W2w.StoreCredential credential =>
      match append_audit_entry self (transfer_entry self (sha256 credential)) with
      | (self, Err _) => audit_log_fault_effects self WalletTransfer
      | (self, Ok _) => ({| self with w2w_credential := Some credential |}, [])
      end
  | W2w.Close => (self, [Close])
  end.

Definition drive_w2w (self : Core) (input : W2w.Input) : Reply :=
  let '(next, outputs) := W2w.step (w2w self) input in
  let self := {| self with w2w := next |} in
  let '(self, effects) := translate_each translate_w2w self outputs in
  match w2w self with
  | W2w.Accepted _ => (finish_flow self WalletTransfer, effects)
  | W2w.Rejected _ =>
      (finish_flow self WalletTransfer,
       error_effects "wallet_transfer_rejected" "The credential transfer could not be authenticated.")
  | W2w.Idle | W2w.AwaitingTransfer => (self, effects)
  end.

Definition received_credential_issuer_valid (self : Core) (credential : bytes)
    (issuer_chain : list bytes) : bool :=
  let issuers := resolve_credential_issuers self issuer_chain in
  issuer_candidates_are_consistent issuers
  && match
       (let! signing_issuer := List.hd_error issuers in
        let! s := from_utf8 credential in
        let! vc := ok (SdJwt.parse s) in
        let! alg := ok (issuer_algorithm vc) in
        if negb (bool_decide (alg = Es256)) then None
        else
          let! processed :=
            ok (verify_and_process vc (evidence_public_key_raw signing_issuer) alg) in
          let! issuer_payload := ok (issuer_payload vc) in
          let! _ := ok (validate_sdjwt_issuer_profile vc issuer_payload processed) in
          let! issuer_id := m_get_str (claims processed) "iss" in
          let! credential_type := m_get_str (claims processed) "vct" in
          let! authenticated_issuer := ok (issuer_for_type self issuers credential_type) in
          Some (bool_decide (issuer_id = evidence_identity authenticated_issuer)
                && issuer_allowed (catalogue self) credential_type
                     (evidence_identity authenticated_issuer)))
     with
     | Some valid => valid
     | None => false
     end.

Definition transfer_is_peer_bound (self : Core)
    (credential sender_public_key sender_signature sender_consent_hash : bytes) (nonce : Z) : bool :=
  if negb (len sender_consent_hash =? 32) then false
  else
    let binding :=
      W2w.transfer_authorization_binding (wallet_client_id (config self)) (device_public_key self)
        credential sender_consent_hash nonce in
    is_ok (verify Es256 sender_public_key binding sender_signature).

(** ** Proximity *)

(** The first current mdoc of a document type. *)
Definition current_mdoc (self : Core) (wanted : string) : option Mdoc.IssuerSigned :=
  let! stored :=
    List.find (fun stored => String.eqb (doctype (mdoc_holding stored)) wanted
                             && is_ok (mdoc_credential_is_current self stored)) (mdoc_holdings self) in
  Some (issuer_signed (mdoc_holding stored)).

Definition disclosed_labels (claims : list (string * string)) : list string :=
  map (fun '(namespace, element) => (namespace ++ "/" ++ element)%string) claims.

Definition device_auth (protected signature : bytes) : Cose.CoseSign1 := {|
  Cose.protected := protected; Cose.unprotected := Cose.default_unprotected;
  Cose.payload := None; Cose.signature := signature |}.

Definition build_proximity_presentation (self : Core) (summary : DeviceRequestSummary)
    (transcript : bytes) : option ProximityPresentation :=
  let! held := current_mdoc self (request_doctype summary) in
  let minimised := minimise_mdoc held (request_claims summary) in
  let namespaces := Mdoc.empty_device_namespaces_bytes in
  let! auth := ok (Mdoc.device_authentication_bytes transcript (request_doctype summary) namespaces) in
  let header := Cose.encode_protected_header Es256 in
  Some {| prox_doctype := request_doctype summary;
          prox_issuer_signed := minimised;
          prox_device_namespaces_bytes := namespaces;
          prox_protected_header := header;
          prox_signing_input := Cose.sig_structure header [] auth;
          prox_disclosed := disclosed_labels (request_claims summary) |}.

(** The session of an establishment: the cipher and the transcript. *)
Definition derive_session (self : Core) (e_reader_key_cose : bytes) : option (SessionCipher * bytes) :=
  match prox_state (proximity self), device_key (proximity self) with
  | Proximity.Engaged engagement, Some device_key =>
      let! sec1 := ok (cose_ec2_to_sec1 e_reader_key_cose) in
      let! z := ok (agree device_key sec1) in
      let transcript := Proximity.session_transcript engagement e_reader_key_cose in
      Some (cipher_new (derive_session_keys z transcript), transcript)
  | _, _ => None
  end.

(** The reader's request, opened and answered by a holding. *)
Definition open_request (self : Core) (cipher : SessionCipher) (transcript : bytes)
  : SessionCipher * option ProximityPresentation :=
  match pending_request (proximity self) with
  | None => (cipher, None)
  | Some ct =>
      let '(cipher, request) := open_from_reader cipher ct in
      (cipher,
       let! request := ok request in
       let! summary := ok (parse_device_request request) in
       build_proximity_presentation self summary transcript)
  end.

Definition establish (self : Core) (input : Proximity.Input) : Core * bool :=
  match input with
  | Proximity.ReaderEstablishment e_reader_key_cose =>
      match derive_session self e_reader_key_cose with
      | Some (cipher, transcript) =>
          let '(cipher, presentation) := open_request self cipher transcript in
          ({| self with proximity := {| (proximity self) with
                pending_request := None; cipher := Some cipher; prox_presentation := presentation |} |},
           true)
      | None => (self, false)
      end
  | _ => (self, false)
  end.

Definition capture_signature (self : Core) (input : Proximity.Input) : Core :=
  match input with
  | Proximity.DeviceSignatureProduced signature =>
      {| self with proximity := {| (proximity self) with last_signature := Some signature |} |}
  | _ => self
  end.

(** The encrypted response; the cipher counts it even when sealing fails. *)
Definition seal_response (self : Core) (signature : option bytes) : Core * option bytes :=
  match prox_presentation (proximity self), signature, cipher (proximity self) with
  | Some p, Some signature, Some c =>
      let response :=
        Mdoc.device_response (prox_doctype p) (prox_issuer_signed p) (prox_device_namespaces_bytes p)
          (device_auth (prox_protected_header p) signature) in
      let '(c, sealed) := seal_from_device c response in
      ({| self with proximity := {| (proximity self) with cipher := Some c |} |},
       option_map session_data (ok sealed))
  | _, _, _ => (self, None)
  end.

Definition translate_proximity (self : Core) (output : Proximity.Output) : Reply :=
  match output with
  | Proximity.EmitDeviceEngagement engagement => (self, [EmitDeviceEngagement engagement])
  | Proximity.RenderConsent =>
      let screen := ProximityConsent
        match prox_presentation (proximity self) with Some p => prox_disclosed p | None => [] end in
      ({| self with proximity := {| (proximity self) with
            prox_consent_hash := Presenter.consent_hash screen |} |}, [Render screen])
  | Proximity.SignDeviceAuth key_ref _ =>
      match prox_presentation (proximity self) with
      | Some p => (self, [Sign key_ref (prox_signing_input p)])
      | None => (self, [Close])
      end
  | Proximity.EmitDeviceResponse _ =>
      let signature := last_signature (proximity self) in
      let self := {| self with proximity := {| (proximity self) with last_signature := None |} |} in
      match seal_response self signature with
      | (self, Some response) => (self, [EmitDeviceResponse response])
      | (self, None) => (self, [Close])
      end
  | Proximity.EmitTermination => (self, [Close])
  end.

Definition drive_proximity (self : Core) (input : Proximity.Input) : Reply :=
  let '(self, bound) := establish self input in
  let self := capture_signature self input in
  let env := {| Proximity.reader_key_on_curve := bound; Proximity.transcript_bound := bound;
                Proximity.reader_auth_present := false; Proximity.env_reader_auth_valid := false;
                Proximity.device_key_ref := device_key_ref (config self) |} in
  let '(next, outputs) := Proximity.step (prox_state (proximity self)) input env in
  let self := {| self with proximity := {| (proximity self) with prox_state := next |} |} in
  let '(self, effects) := translate_each translate_proximity self outputs in
  match prox_state (proximity self) with
  | Proximity.Aborted _ =>
      (reset_flow self ProximityFlowKind, if has_close effects then effects else effects ++ [Close])
  | _ => (self, effects)
  end.

(** ** Digital Credentials API *)

Definition build_dcapi_presentation (self : Core) (req : DcApiRequest) (origin : string)
  : option DcApiPresentation :=
  let! held := current_mdoc self (dc_request_doctype req) in
  let minimised := minimise_mdoc held (dc_claims req) in
  let namespaces := Mdoc.empty_device_namespaces_bytes in
  let transcript := Mdoc.oid4vp_dcapi_session_transcript origin (dc_nonce req) None in
  let! auth := ok (Mdoc.device_authentication_bytes transcript (dc_request_doctype req) namespaces) in
  let header := Cose.encode_protected_header Es256 in
  Some {| dc_dcql_id := dc_query_id req;
          dc_doctype := dc_request_doctype req;
          dc_issuer_signed := minimised;
          dc_device_namespaces_bytes := namespaces;
          dc_protected_header := header;
          dc_signing_input := Cose.sig_structure header [] auth;
          dc_disclosed := disclosed_labels (dc_claims req) |}.

Definition dcapi_request_received (self : Core) (request : bytes) (origin : string) : Reply :=
  let self := begin_flow self DcApi in
  match
    (let! parsed := ok (parse_dcapi_request request) in build_dcapi_presentation self parsed origin)
  with
  | None => (reset_flow self DcApi, [Close])
  | Some presentation =>
      let screen := DcApiConsent origin (dc_disclosed presentation) in
      ({| self with dcapi := {| dc_presentation := Some presentation;
                                dc_consent_hash := Presenter.consent_hash screen |} |},
       [Render screen])
  end.

Definition dcapi_consent_granted (self : Core) : Reply :=
  match dc_presentation (dcapi self) with
  | Some p => (self, [Sign (device_key_ref (config self)) (dc_signing_input p)])
  | None => (reset_flow self DcApi, [Close])
  end.

Definition dcapi_signature_produced (self : Core) (signature : bytes) : Reply :=
  let effects :=
    match dc_presentation (dcapi self) with
    | Some p =>
        [EmitDcApiResponse (vp_token_response (dc_dcql_id p)
           (Mdoc.device_response (dc_doctype p) (dc_issuer_signed p) (dc_device_namespaces_bytes p)
              (device_auth (dc_protected_header p) signature)))]
    | None => [Close]
    end in
  (finish_flow self DcApi, effects).
End facade.
