(* ===== verification/Dispatch.v ===== *)
(** * The entry point of the core (crates/wallet-core/src/lib.rs)

    [handle_event]: every event, routed to the flow it belongs to. *)

From S2P Require Import Cbor Cose Mdoc Oid4vp Dcql Payment Oid4vci Qes W2w Proximity Status Wua.
From S2P Require Import TxnLog Trust SdJwt Presenter Sealing ProximitySession DcApiRequests.
From S2P Require Import Prelude Utf8 BTree Boundary Serde SdJwtProcess Catalogue X509 X509Path.
From S2P Require Import PidProfile Holdings CredentialChecks WalletCore Ingestion Summaries.
From S2P Require Import Selection QuerySelection Responses Effects Facade.

Open Scope Z_scope.
Open Scope rust_scope.

Section dispatch.
Context `{JL : JsonLib} {JV : JsonValue} {SJ : SerdeJson} `{B64 : Base64} `{D : Digest} `{V : Verifier}
  `{X : X509Der} `{CV : CertVerifier} `{SB : StdBase64} `{PQ : MlDsa} `{INF : Inflate}
  {A : Aead} {K : Kdf} {E : Ecdh}.

Definition set_clock (self : Core) (epoch : Z) : Reply :=
  if epoch <? now_epoch self then
    if bool_decide (active self = Presentation)
    then abort_presentation self Oid4vp.ClockRollback
    else (self, unwrap_or (presentation_error_effects Oid4vp.ClockRollback) [])
  else ({| self with now_epoch := epoch |}, []).

Definition rp_cert_chain_resolved (rnd : Draws) (self : Core) (rp_cert_chain : list bytes)
    (registered_redirect_uris : list string) : Reply :=
  let '(registered, rp_public_key, leaf_dns_sans) := resolve_rp self rp_cert_chain in
  let authenticated_redirect_uris :=
    match vp self with
    | Oid4vp.ResolvingTrust request =>
        match Trust.relying_party_at (trust_store self) (Oid4vp.client_id request) (now_epoch self) with
        | Some registration => Trust.redirect_uris registration
        | None => registered_redirect_uris
        end
    | _ => registered_redirect_uris
    end in
  let self :=
    {| self with pending_rp_provenance :=
         if registered
         then Some {| certificate_chain := rp_cert_chain; rp_key := rp_public_key |} else None |} in
  drive rnd self (Oid4vp.RpTrustResolved {|
    Oid4vp.registered := registered; Oid4vp.rp_public_key := rp_public_key;
    Oid4vp.registered_redirect_uris := authenticated_redirect_uris;
    Oid4vp.leaf_dns_sans := leaf_dns_sans |}).

Definition user_consented (rnd : Draws) (self : Core) : Reply :=
  match active self with
  | ProximityFlowKind => drive_proximity self Proximity.ConsentGranted
  | DcApi => dcapi_consent_granted self
  | Presentation =>
      match presentation_evidence_is_current self with
      | Err error => abort_presentation_eligibility self error
      | Ok _ =>
          match presentation_status_gate self with
          | GateReady =>
              drive rnd {| self with pending_status_references := [] |} Oid4vp.ConsentGranted
          | GateFetch all_references uris =>
              ({| self with pending_status_references := all_references |}, map FetchStatusList uris)
          | GateRevoked => status_block_effects self true
          | GateIndeterminate => status_block_effects self false
          end
      end
  | _ => drive rnd self Oid4vp.ConsentGranted
  end.

Definition user_declined (rnd : Draws) (self : Core) : Reply :=
  match active self with
  | ProximityFlowKind => drive_proximity self Proximity.ConsentDeclined
  | DcApi => (reset_flow self DcApi, [Close])
  | _ =>
      let '(self, effects) :=
        drive rnd {| self with pending_status_references := [] |} Oid4vp.ConsentDeclined in
      match vp self with
      | Oid4vp.Aborted Oid4vp.UserDeclined => (reset_flow self Presentation, effects)
      | _ => (self, effects)
      end
  end.

Definition device_signature_produced (rnd : Draws) (self : Core) (signature : bytes) : Reply :=
  match active self with
  | Payment => drive_payment self (Payment.AuthCodeSignatureProduced signature)
  | Issuance => drive_issuance self (Oid4vci.ProofSignatureProduced signature)
  | QesFlow => drive_qes self (Qes.AuthorizationSignatureProduced signature)
  | Presentation =>
      match presentation_sensitive_abort_reason self with
      | Some reason => abort_presentation self reason
      | None => drive rnd self (Oid4vp.DeviceSignatureProduced signature)
      end
  | ProximityFlowKind => drive_proximity self (Proximity.DeviceSignatureProduced signature)
  | DcApi => dcapi_signature_produced self signature
  | _ => drive rnd self (Oid4vp.DeviceSignatureProduced signature)
  end.

Definition presentation_delivered (rnd : Draws) (self : Core) : Reply :=
  let '(self, effects) := drive rnd self Oid4vp.PresentationDelivered in
  (if is_done (vp self) then finish_flow self Presentation else self, effects).

Definition payment_delivered (self : Core) : Reply :=
  match active self, payment self with
  | Payment, Payment.Authorized _ =>
      match record_payment self with
      | (self, Err _) => audit_log_fault_effects self Payment
      | (self, Ok _) => (finish_flow self Payment, [Close])
      end
  | _, _ => (self, [])
  end.

Definition qes_delivered (self : Core) : Reply :=
  match active self, qes self with
  | QesFlow, Qes.Signed _ => (finish_flow self QesFlow, [Close])
  | _, _ => (self, [])
  end.

Definition remove_pending (self : Core) (operation_id : Z) : Core :=
  {| self with pending_operations := bt_remove operation_id (pending_operations self) |}.

Definition operation_ended (self : Core) (operation_id : Z) (failure : option OperationFailure) : Reply :=
  match bt_get (pending_operations self) operation_id with
  | Some pending => operation_terminal_effects (remove_pending self operation_id) pending failure
  | None => (self, [])
  end.

Definition transfer_may_start (self : Core) : bool :=
  bool_decide (active self = NoFlow) || bool_decide (active self = WalletTransfer).

Definition transfer_offer_created (self : Core) : Reply :=
  if negb (transfer_may_start self) then (self, wallet_transfer_in_progress_effects)
  else if negb (is_ok (check_audit_entry self (transfer_entry self ZERO32)))
  then audit_log_candidate_rejection_effects self WalletTransfer
  else drive_w2w (begin_flow self WalletTransfer) W2w.CreateOffer.

Definition transfer_received (self : Core) (credential : bytes) (issuer_cert_chain : list bytes)
    (sender_public_key sender_signature sender_consent_hash : bytes) (nonce : Z) : Reply :=
  if negb (transfer_may_start self) then (self, wallet_transfer_in_progress_effects)
  else
    let self := if bool_decide (active self = NoFlow) then begin_flow self WalletTransfer else self in
    let issuer_valid := received_credential_issuer_valid self credential issuer_cert_chain in
    let peer_bound :=
      transfer_is_peer_bound self credential sender_public_key sender_signature sender_consent_hash nonce in
    drive_w2w {| self with active := WalletTransfer |}
      (W2w.TransferReceived issuer_valid peer_bound credential).

Definition engagement_requested (rnd : Draws) (self : Core) (ble_uuid : bytes) : Reply :=
  if negb (len ble_uuid =? 16) then (self, [Close])
  else
    match generate (key_random rnd) with
    | Err _ => (self, [Close])
    | Ok key =>
        match sec1_to_cose_ec2 (public_raw key) with
        | Err _ => (self, [Close])
        | Ok device_key_cose =>
            let self := begin_flow self ProximityFlowKind in
            drive_proximity
              {| self with proximity := {| (proximity self) with device_key := Some key |} |}
              (Proximity.StartEngagement device_key_cose ble_uuid)
        end
    end.

Definition reader_establishment (self : Core) (session_establishment : bytes) : Reply :=
  match parse_session_establishment session_establishment with
  | Ok est =>
      drive_proximity
        {| self with proximity := {| (proximity self) with pending_request := Some (data est) |} |}
        (Proximity.ReaderEstablishment (e_reader_key_cose est))
  | Err _ => drive_proximity self (Proximity.ReaderEstablishment [])
  end.

Definition credential_offer_received (self : Core) (offer : bytes) (issuer_cert_chain : list bytes)
    (issuer_id : string) : Reply :=
  let self := begin_flow self Issuance in
  let self := {| self with issuance := Oid4vci.Idle; issuer_cert_chain_current := issuer_cert_chain |} in
  let issuers := resolve_credential_issuers self issuer_cert_chain in
  let identity := match List.hd_error issuers with Some i => evidence_identity i | None => ""%string end in
  let consistent_path := issuer_candidates_are_consistent issuers in
  drive_issuance
    {| self with
       issuer_trusted_current :=
         negb (is_empty issuers) && consistent_path && String.eqb issuer_id identity;
       issuer_id_current := identity;
       issuer_id_assertion_current := issuer_id;
       issuer_candidates_current := if consistent_path then issuers else [];
       pending_verified_credential := None;
       last_credential_ingestion_error := None |}
    (Oid4vci.CredentialOffer offer).

Definition token_received (self : Core) (bound : bool) (c_nonce : Z) : Reply :=
  let '(self, effects) := drive_issuance self (Oid4vci.TokenResponse bound c_nonce) in
  (match issuance self with
   | Oid4vci.ProvingPossession _ _ =>
       {| self with iss_seen_c_nonces := push_unseen (iss_seen_c_nonces self) c_nonce |}
   | _ => self
   end, effects).

Definition credential_received (self : Core) (format : string) (credential : bytes) : Reply :=
  if negb (is_requesting_credential (issuance self)) then reject_unexpected_credential_response self
  else
    match parse_format format with
    | Some f =>
        match authenticate_received_credential self f credential (issuer_cert_chain_current self)
                (issuer_id_assertion_current self) with
        | Ok verified =>
            drive_issuance
              {| self with pending_verified_credential := Some verified;
                           last_credential_ingestion_error := None |}
              (Oid4vci.CredentialResponse f credential true)
        | Err error =>
            drive_issuance
              {| self with pending_verified_credential := None;
                           last_credential_ingestion_error := Some error |}
              (Oid4vci.CredentialResponse f credential false)
        end
    | None =>
        drive_issuance
          {| self with pending_verified_credential := None;
                       last_credential_ingestion_error := Some UnsupportedFormat |}
          Oid4vci.CredentialResponseRejected
    end.

Definition status_list_received (rnd : Draws) (self : Core) (uri : string) (http_status : Z)
    (token : bytes) (provider_cert_chain : list bytes) : Reply :=
  match presentation_evidence_is_current self with
  | Err error => abort_presentation_eligibility self error
  | Ok _ =>
      let expected :=
        existsb (fun reference => String.eqb (status_list_uri reference) uri)
          (pending_status_references self) in
      if negb expected || negb (in_range 200 299 http_status)
      then status_block_effects {| self with pending_status_references := [] |} false
      else
        match load_status_list self uri token provider_cert_chain with
        | (self, Err _) => status_block_effects {| self with pending_status_references := [] |} false
        | (self, Ok _) =>
            match presentation_status_gate self with
            | GateReady => drive rnd {| self with pending_status_references := [] |} Oid4vp.ConsentGranted
            | GateFetch all_references _ =>
                ({| self with pending_status_references := all_references |}, [])
            | GateRevoked => status_block_effects {| self with pending_status_references := [] |} true
            | GateIndeterminate =>
                status_block_effects {| self with pending_status_references := [] |} false
            end
        end
  end.

Definition dispatch (rnd : Draws) (self : Core) (event : Event) : Reply :=
  match event with
  | SetClock epoch => set_clock self epoch
  | RedactTransaction seq => (redact_transaction self seq, [])
  | WipeTransactionLog => (wipe_transaction_log self, [])
  | AuthorizationRequestReceived request =>
      drive rnd (begin_flow self Presentation) (Oid4vp.AuthorizationRequest request)
  | RpCertChainResolved rp_cert_chain registered_redirect_uris =>
      rp_cert_chain_resolved rnd self rp_cert_chain registered_redirect_uris
  | UserConsented => user_consented rnd self
  | UserDeclined => user_declined rnd self
  | DeviceSignatureProduced signature => device_signature_produced rnd self signature
  | HybridSignatureProduced _ _ _ _ => (self, [])
  | PresentationDelivered => presentation_delivered rnd self
  | PaymentAuthorizationDelivered => payment_delivered self
  | QesAuthorizationDelivered => qes_delivered self
  | OperationSucceeded operation_id => (remove_pending self operation_id, [])
  | OperationFailed operation_id failure => operation_ended self operation_id (Some failure)
  | OperationCancelled operation_id => operation_ended self operation_id None
  | PaymentAuthorizationRequestReceived request =>
      drive_payment (begin_flow self Payment) (Payment.PaymentAuthorizationRequest request)
  | PaymentApproved => drive_payment self Payment.UserApproved
  | PaymentDeclined => drive_payment self Payment.UserDeclined
  | QesSignRequestReceived request =>
      drive_qes (begin_flow self QesFlow) (Qes.SignatureRequest request)
  | QesAuthorized => drive_qes self Qes.UserAuthorized
  | QesDeclined => drive_qes self Qes.UserDeclined
  | CredentialOfferReceived offer issuer_cert_chain issuer_id =>
      credential_offer_received self offer issuer_cert_chain issuer_id
  | CredentialOfferAccepted => drive_issuance self Oid4vci.AcceptOffer
  | CredentialOfferDeclined => drive_issuance self Oid4vci.Decline
  | ParPushed pkce_s256 => drive_issuance self (Oid4vci.ParPushed pkce_s256)
  | AuthorizationCodeReturned code => drive_issuance self (Oid4vci.AuthCodeReturned code)
  | TransactionCodeEntered code => drive_issuance self (Oid4vci.TxCodeEntered code)
  | TokenReceived bound c_nonce => token_received self bound c_nonce
  | CredentialReceived format credential => credential_received self format credential
  | StatusListReceived uri http_status token provider_cert_chain =>
      status_list_received rnd self uri http_status token provider_cert_chain
  | WalletTransferOfferCreated => transfer_offer_created self
  | WalletTransferReceived credential issuer_cert_chain sender_public_key sender_signature
      sender_consent_hash nonce =>
      transfer_received self credential issuer_cert_chain sender_public_key sender_signature
        sender_consent_hash nonce
  | ProximityEngagementRequested ble_uuid => engagement_requested rnd self ble_uuid
  | ProximityReaderEstablishment session_establishment =>
      reader_establishment self session_establishment
  | ProximityReaderTermination => drive_proximity self Proximity.ReaderTermination
  | DcApiRequestReceived request origin => dcapi_request_received self request origin
  end.

(** The single entry point: an audited flow is not started when it could not be
    recorded. *)
Definition handle_event (rnd : Draws) (self : Core) (event : Event) : Reply :=
  match audited_flow_started_by event with
  | Some flow =>
      if negb (audit_log_available self) then audit_log_fault_effects self flow
      else if negb (TxnLog.can_guarantee_max_entry (log self)) then audit_log_capacity_effects self flow
      else dispatch rnd self event
  | None => dispatch rnd self event
  end.
End dispatch.
