(* ===== verification/Wire.v ===== *)
(** * The wire boundary of the core (crates/wallet-core/src/lib.rs)

    [handle_event_json]: an event arrives as JSON and, when it is the result of
    an operation, has to name one that is pending, of its kind, in the active
    flow, and for a decision under the hash of the screen that was rendered;
    the effects leave with an operation each.  Deserialising an [Event] and
    serialising an [Effect] is code that serde derives; it is the class
    [WireCodec].  The errors keep what they report, not their wording. *)

From S2P Require Import Cbor Cose Mdoc Oid4vp Dcql Payment Oid4vci Qes W2w Proximity Status Wua.
From S2P Require Import TxnLog Trust SdJwt Presenter Sealing ProximitySession HybridPq.
From S2P Require Import Prelude Utf8 BTree Boundary Serde SdJwtProcess Catalogue X509 X509Path.
From S2P Require Import PidProfile Holdings CredentialChecks WalletCore Ingestion Summaries.
From S2P Require Import Selection QuerySelection Responses Effects Facade Dispatch.

Open Scope Z_scope.
Open Scope rust_scope.

(** ** Events and their tags *)

Definition event_type (e : Event) : string :=
  match e with
  | SetClock _ => "setClock"
  | RedactTransaction _ => "redactTransaction"
  | WipeTransactionLog => "wipeTransactionLog"
  | AuthorizationRequestReceived _ => "authorizationRequestReceived"
  | RpCertChainResolved _ _ => "rpCertChainResolved"
  | UserConsented => "userConsented"
  | UserDeclined => "userDeclined"
  | DeviceSignatureProduced _ => "deviceSignatureProduced"
  | HybridSignatureProduced _ _ _ _ => "hybridSignatureProduced"
  | PresentationDelivered => "presentationDelivered"
  | PaymentAuthorizationDelivered => "paymentAuthorizationDelivered"
  | QesAuthorizationDelivered => "qesAuthorizationDelivered"
  | OperationSucceeded _ => "operationSucceeded"
  | OperationFailed _ _ => "operationFailed"
  | OperationCancelled _ => "operationCancelled"
  | PaymentAuthorizationRequestReceived _ => "paymentAuthorizationRequestReceived"
  | PaymentApproved => "paymentApproved"
  | PaymentDeclined => "paymentDeclined"
  | QesSignRequestReceived _ => "qesSignRequestReceived"
  | QesAuthorized => "qesAuthorized"
  | QesDeclined => "qesDeclined"
  | CredentialOfferReceived _ _ _ => "credentialOfferReceived"
  | CredentialOfferAccepted => "credentialOfferAccepted"
  | CredentialOfferDeclined => "credentialOfferDeclined"
  | ParPushed _ => "parPushed"
  | AuthorizationCodeReturned _ => "authorizationCodeReturned"
  | TransactionCodeEntered _ => "transactionCodeEntered"
  | TokenReceived _ _ => "tokenReceived"
  | CredentialReceived _ _ => "credentialReceived"
  | StatusListReceived _ _ _ _ => "statusListReceived"
  | WalletTransferOfferCreated => "walletTransferOfferCreated"
  | WalletTransferReceived _ _ _ _ _ _ => "walletTransferReceived"
  | ProximityEngagementRequested _ => "proximityEngagementRequested"
  | ProximityReaderEstablishment _ => "proximityReaderEstablishment"
  | ProximityReaderTermination => "proximityReaderTermination"
  | DcApiRequestReceived _ _ => "dcApiRequestReceived"
  end.

Class WireCodec : Type := {
  event_from_value : Value -> option Event;
  effect_to_value : Effect -> Value;
}.

(** Internally tagged enums: the [type] member selects the variant, and the
    members of an event are those of its variant. *)
Class WireLaws `{WireCodec} : Prop := {
  event_tag : forall v e, event_from_value v = Some e -> v_get_str v "type" = Some (event_type e);
  event_operation_id : forall v e, event_from_value v = Some e ->
    match e with
    | OperationSucceeded id | OperationFailed id _ | OperationCancelled id =>
        (let! x := v_get v "operationId" in v_as_u64 x) = Some id
    | _ => True
    end;
  effect_object : forall e, is_some (json_object (effect_to_value e)) = true;
}.

Inductive WireError : Type :=
| NotJson
| TypeMissing
| EventInvalid
| OperationIdMissing (event_type : string)
| OperationUnknown (operation_id : Z)
| FlowInactive (operation_id : Z)
| ResultUnexpected (operation_id : Z) (expected got : string)
| HashNotBound (operation_id : Z)
| HashMissing (event_type : string)
| HashByteInvalid (index : Z)
| HashMismatch (operation_id : Z)
| StateInvalid (operation_id : Z) (event_type : string)
| ResourceMismatch (operation_id : Z)
| ProfileMismatch (operation_id : Z)
| SignatureMalformed (operation_id : Z)
| HttpFlowUnsupported (flow : ActiveFlow)
| HttpProfileMismatch (profile : HttpDeliveryProfile) (flow : ActiveFlow)
| RenderUnbound
| RenderInconsistent
| TooManyOperations
| IdsExhausted
| NotAnObject.

(** ** What an operation waits for *)

Definition result_type (self : OperationResultKind) : string :=
  match self with
  | RpCertChain => "rpCertChainResolved"
  | Persisted | TransferOfferPublished => "operationSucceeded"
  | Signature => "deviceSignatureProduced"
  | HybridSignature _ => "hybridSignatureProduced"
  | PresentationDelivery => "presentationDelivered"
  | PaymentDelivery => "paymentAuthorizationDelivered"
  | QesDelivery => "qesAuthorizationDelivered"
  | Par => "parPushed"
  | AuthorizationCode => "authorizationCodeReturned"
  | TransactionCode => "transactionCodeEntered"
  | Token => "tokenReceived"
  | Credential => "credentialReceived"
  | StatusList _ => "statusListReceived"
  | PresentationDecision => "presentationDecision"
  | PaymentDecision => "paymentDecision"
  | QesDecision => "qesDecision"
  | IssuanceDecision => "issuanceDecision"
  | ProximityDecision => "proximityDecision"
  | DcApiDecision => "dcApiDecision"
  end.

Definition one_of (l : list string) (s : string) : bool := existsb (String.eqb s) l.

Definition accepts_event (self : OperationResultKind) (event_type : string) : bool :=
  match self with
  | PresentationDecision | ProximityDecision | DcApiDecision =>
      one_of ["userConsented"; "userDeclined"]%string event_type
  | PaymentDecision => one_of ["paymentApproved"; "paymentDeclined"]%string event_type
  | QesDecision => one_of ["qesAuthorized"; "qesDeclined"]%string event_type
  | IssuanceDecision =>
      one_of ["credentialOfferAccepted"; "credentialOfferDeclined"]%string event_type
  | _ => String.eqb (result_type self) event_type
  end.

Definition is_operation_result_event : string -> bool := one_of [
  "rpCertChainResolved"; "deviceSignatureProduced"; "hybridSignatureProduced";
  "presentationDelivered"; "paymentAuthorizationDelivered"; "qesAuthorizationDelivered";
  "parPushed"; "authorizationCodeReturned"; "transactionCodeEntered"; "tokenReceived";
  "credentialReceived"; "statusListReceived"; "userConsented"; "userDeclined"; "paymentApproved";
  "paymentDeclined"; "qesAuthorized"; "qesDeclined"; "credentialOfferAccepted";
  "credentialOfferDeclined"; "operationSucceeded"; "operationFailed"; "operationCancelled"]%string.

Definition is_approval : string -> bool := one_of
  ["userConsented"; "paymentApproved"; "qesAuthorized"; "credentialOfferAccepted"]%string.

Definition operation_result_state_is_valid (self : Core) (event_type : string) : bool :=
  if String.eqb event_type "presentationDelivered" then
    match vp self with Oid4vp.Presenting => true | _ => false end
  else if String.eqb event_type "paymentAuthorizationDelivered" then
    match payment self with Payment.Authorized _ => true | _ => false end
  else if String.eqb event_type "qesAuthorizationDelivered" then
    match qes self with Qes.Signed _ => true | _ => false end
  else true.

Definition is_terminal (e : Event) : bool :=
  match e with OperationFailed _ _ | OperationCancelled _ => true | _ => false end.

(** Events that remove their operation themselves. *)
Definition is_generic (e : Event) : bool :=
  match e with OperationSucceeded _ => true | _ => is_terminal e end.

Fixpoint hash_bytes (index : Z) (l : list Value) : result bytes WireError :=
  match l with
  | [] => Ok []
  | byte :: l =>
      let? b := ok_or (let! n := v_as_u64 byte in if n <=? U8_MAX then Some n else None)
                  (HashByteInvalid index) in
      let? rest := hash_bytes (index + 1) l in
      Ok (byte.of_Z b :: rest)
  end.

Definition wire_authorization_hash (value : Value) (event_type : string) : result bytes WireError :=
  let? l := ok_or (let! h := v_get value "authorizationHash" in json_array h) (HashMissing event_type) in
  if negb (len l =? 32) then Err (HashMissing event_type) else hash_bytes 0 l.

(** The checks of a result against the operation it names. *)
Definition check_resource (id : Z) (pending : PendingOperation) (event : Event) : result unit WireError :=
  match op_result pending, event with
  | StatusList expected, StatusListReceived actual _ _ _ =>
      if String.eqb expected actual then Ok tt else Err (ResourceMismatch id)
  | HybridSignature expected, HybridSignatureProduced _ actual classical post_quantum =>
      if negb (bool_decide (expected = actual)) then Err (ProfileMismatch id)
      else if negb (len classical =? ES256_SIGNATURE_BYTES)
              || negb (len post_quantum =? ML_DSA_65_SIGNATURE_BYTES)
      then Err (SignatureMalformed id)
      else Ok tt
  | _, _ => Ok tt
  end.

Definition check_authorization (id : Z) (pending : PendingOperation) (value : Value)
    (event_type : string) : result unit WireError :=
  if is_approval event_type then
    let? expected_hash := ok_or (authorization_hash pending) (HashNotBound id) in
    let? actual_hash := wire_authorization_hash value event_type in
    if bool_decide (actual_hash = expected_hash) then Ok tt else Err (HashMismatch id)
  else Ok tt.

Definition check_result (self : Core) (value : Value) (event : Event) (event_type : string)
  : result Z WireError :=
  let? id := ok_or (let! x := v_get value "operationId" in v_as_u64 x) (OperationIdMissing event_type) in
  let? pending := ok_or (bt_get (pending_operations self) id) (OperationUnknown id) in
  if negb (bool_decide (op_flow pending = active self)) then Err (FlowInactive id)
  else if negb (is_terminal event) && negb (accepts_event (op_result pending) event_type)
  then Err (ResultUnexpected id (result_type (op_result pending)) event_type)
  else
    let? _ := check_authorization id pending value event_type in
    if negb (is_terminal event) && negb (operation_result_state_is_valid self event_type)
    then Err (StateInvalid id event_type)
    else
      let? _ := check_resource id pending event in
      Ok id.

(** ** Effects and their operations *)

Section wire.
Context `{JL : JsonLib} {JV : JsonValue} {SJ : SerdeJson} `{B64 : Base64} `{D : Digest} `{V : Verifier}
  `{X : X509Der} `{CV : CertVerifier} `{SB : StdBase64} `{PQ : MlDsa} `{INF : Inflate}
  {A : Aead} {K : Kdf} {E : Ecdh} {W : WireCodec}.

(** The decision a screen asks for, and the hash the core keeps of it. *)
Definition screen_decision (self : Core) (screen : ScreenDescription)
  : option (OperationResultKind * option bytes) :=
  match screen with
  | Consent _ =>
      Some (PresentationDecision, option_map (fun s => consent_hash s) (session self))
  | PaymentConfirmation _ => Some (PaymentDecision, Some (pay_consent_hash self))
  | SignConfirmation _ => Some (QesDecision, Some (qes_consent_hash self))
  | IssuanceOffer _ => Some (IssuanceDecision, Some (issuance_consent_hash self))
  | ProximityConsent _ => Some (ProximityDecision, Some (prox_consent_hash (proximity self)))
  | DcApiConsent _ _ => Some (DcApiDecision, Some (dc_consent_hash (dcapi self)))
  | _ => None
  end.

Definition http_delivery (self : Core) : result (HttpDeliveryProfile * OperationResultKind) WireError :=
  match active self with
  | Presentation => Ok (Openid4vpDirectPost, PresentationDelivery)
  | Payment => Ok (PaymentAuthorization, PaymentDelivery)
  | QesFlow => Ok (QesAuthorization, QesDelivery)
  | flow => Err (HttpFlowUnsupported flow)
  end.

Definition pending_of (self : Core) (result : OperationResultKind) (hash : option bytes)
  : option PendingOperation :=
  Some {| op_flow := active self; op_result := result; authorization_hash := hash |}.

Definition operation_result_for_effect (self : Core) (effect : Effect)
  : result (option PendingOperation) WireError :=
  match effect with
  | ResolveRpTrust _ => Ok (pending_of self RpCertChain None)
  | PersistNonce _ => Ok (pending_of self Persisted None)
  | Sign _ _ => Ok (pending_of self Signature None)
  | HybridSign profile _ _ _ => Ok (pending_of self (HybridSignature profile) None)
  | Http profile _ _ =>
      let? (expected_profile, r) := http_delivery self in
      if bool_decide (profile = expected_profile) then Ok (pending_of self r None)
      else Err (HttpProfileMismatch profile (active self))
  | PushPar => Ok (pending_of self Par None)
  | OpenAuthBrowser => Ok (pending_of self AuthorizationCode None)
  | PromptTxCode => Ok (pending_of self TransactionCode None)
  | RequestToken => Ok (pending_of self Token None)
  | RequestCredential _ => Ok (pending_of self Credential None)
  | FetchStatusList uri => Ok (pending_of self (StatusList uri) None)
  | PublishTransferOffer _ => Ok (pending_of self TransferOfferPublished None)
  | Render screen =>
      match screen_decision self screen with
      | None => Ok None
      | Some (r, stored_hash) =>
          let? stored_hash := ok_or stored_hash RenderUnbound in
          if bool_decide (stored_hash = Presenter.consent_hash screen)
          then Ok (pending_of self r (Some stored_hash))
          else Err RenderInconsistent
      end
  | EmitDeviceEngagement _ | EmitDeviceResponse _ | EmitDcApiResponse _ | Close => Ok None
  end.

Fixpoint prepare_effects (self : Core) (effects : list Effect)
  : result (list (Effect * option PendingOperation)) WireError :=
  match effects with
  | [] => Ok []
  | effect :: effects =>
      let? pending := operation_result_for_effect self effect in
      let? rest := prepare_effects self effects in
      Ok ((effect, pending) :: rest)
  end.

Definition operations_of (prepared : list (Effect * option PendingOperation)) : list PendingOperation :=
  omap snd prepared.

(** The members an operation adds to the object of its effect. *)
Definition decorate (object : BTreeMap string Value) (id : Z) (pending : PendingOperation)
  : BTreeMap string Value :=
  let object := bt_insert "operationId" (VNumber (PosInt id)) object in
  let object := bt_insert "resultType" (VString (result_type (op_result pending))) object in
  match authorization_hash pending with
  | Some hash =>
      bt_insert "authorizationHash"
        (VArray (map (fun b => VNumber (PosInt (byte.unsigned b))) hash)) object
  | None => object
  end.

Fixpoint stage (next_id : Z) (prepared : list (Effect * option PendingOperation))
  : result (list Value * list (Z * PendingOperation)) WireError :=
  match prepared with
  | [] => Ok ([], [])
  | (effect, None) :: prepared =>
      let? (values, staged) := stage next_id prepared in
      Ok (effect_to_value effect :: values, staged)
  | (effect, Some pending) :: prepared =>
      let? object := ok_or (json_object (effect_to_value effect)) NotAnObject in
      let? (values, staged) := stage (next_id + 1) prepared in
      Ok (VObject (decorate object next_id pending) :: values, (next_id, pending) :: staged)
  end.

Definition serialize_wire_effects (self : Core) (effects : list Effect)
  : Core * result bytes WireError :=
  match
    (let? prepared := prepare_effects self effects in
     let count := len (operations_of prepared) in
     if MAX_PENDING_OPERATIONS <? len (pending_operations self) + count then Err TooManyOperations
     else
       let next_after_batch := next_operation_id self + count in
       if U64_MAX <? next_after_batch then Err IdsExhausted
       else if (0 <? count) && (I64_MAX <? next_after_batch - 1) then Err IdsExhausted
       else
         let? (values, staged) := stage (next_operation_id self) prepared in
         Ok (next_after_batch, staged, value_to_vec (VArray values)))
  with
  | Ok (next_after_batch, staged, json) =>
      ({| self with next_operation_id := next_after_batch;
                    pending_operations := bt_extend (pending_operations self) staged |}, Ok json)
  | Err e => (self, Err e)
  end.

(** ** [handle_event_json] *)

(** Reading and checking; the core after a result has been consumed. *)
Definition admit_event (self : Core) (event_json : bytes) : result (Core * Event) WireError :=
  let? value := ok_or (value_from_slice event_json) NotJson in
  let? event_type := ok_or (v_get_str value "type") TypeMissing in
  let? event := ok_or (event_from_value value) EventInvalid in
  if is_operation_result_event event_type then
    let? id := check_result self value event event_type in
    Ok (if is_generic event then self else remove_pending self id, event)
  else Ok (self, event).

(** Effects that cannot leave tear the flow down. *)
Definition tear_down (self : Core) : Core :=
  let self := if bool_decide (active self = NoFlow) then self else reset_flow self (active self) in
  {| self with pending_operations := [] |}.

Definition handle_event_json (rnd : Draws) (self : Core) (event_json : bytes)
  : Core * result bytes WireError :=
  match admit_event self event_json with
  | Err e => (self, Err e)
  | Ok (self, event) =>
      let '(self, effects) := handle_event rnd self event in
      match serialize_wire_effects self effects with
      | (self, Ok json) => (self, Ok json)
      | (self, Err error) => (tear_down self, Err error)
      end
  end.
End wire.
