(* ===== verification/Engine.v ===== *)
(** * The engine handle (crates/wallet-core/src/lib.rs, [WalletEngine])

    The object the native shell holds: a core behind a mutex, so that its
    operations run one at a time, and the phase of its durable life cycle.  An
    environment is prepared only once and only on a fresh engine, a checkpoint
    is restored only into a prepared one, and an engine that was used before it
    was prepared stays without durability.  Every call that draws randomness
    takes it as an argument; the texts of errors are not modelled. *)

From S2P Require Import Cbor Cose Mdoc Oid4vp Dcql Payment Oid4vci Qes W2w Proximity Status Wua.
From S2P Require Import TxnLog Trust SdJwt Presenter Sealing ProximitySession DcApiRequests Durable.
From S2P Require Import Prelude Utf8 BTree Boundary Serde SdJwtProcess Catalogue X509 X509Path.
From S2P Require Import PidProfile Holdings CredentialChecks WalletCore Ingestion Summaries DurableCore.
From S2P Require Import Selection QuerySelection Responses Effects Facade Dispatch Wire.

Open Scope Z_scope.
Open Scope rust_scope.

Inductive DurableFfiError : Type :=
| FfiInvalidLifecycleState | FfiInvalidEnvironment | FfiTrustEnvironmentRejected
| FfiWuaEnvironmentRejected | FfiInvalidGeneration | FfiResourceLimit | FfiMalformedCheckpoint
| FfiUnsupportedCheckpointVersion | FfiContextRejected | FfiClockRejected | FfiDeviceKeyRejected
| FfiTrustRejected | FfiWuaRejected | FfiAuditLogRejected | FfiCredentialRejected.

Definition ffi_error (error : DurableCheckpointError) : DurableFfiError :=
  match error with
  | ResourceLimit _ _ _ | SizeOverflow => FfiResourceLimit
  | Truncated | NonCanonical | Malformed => FfiMalformedCheckpoint
  | UnsupportedVersion _ => FfiUnsupportedCheckpointVersion
  | InvalidGeneration | GenerationMismatch _ _ => FfiInvalidGeneration
  | ContextMismatch _ => FfiContextRejected
  | ClockUnavailable | Durable.ClockRollback _ _ => FfiClockRejected
  | DeviceKeyUnavailable | DeviceKeyInvalid => FfiDeviceKeyRejected
  | TrustListUnavailable | TrustListExpired | TrustListRollback _ _ => FfiTrustRejected
  | WuaUnavailable | WuaInvalid => FfiWuaRejected
  | AuditLogUnavailable | AuditTimestampAfterClock _ _ _ | TransactionLogError _ => FfiAuditLogRejected
  | Durable.CredentialInvalid _ _ | CredentialEvidenceMismatch _ | DuplicateCredential =>
      FfiCredentialRejected
  end.

Inductive DurableEnginePhase : Type := Fresh | Prepared | Running | Legacy.

#[export] Instance engine_phase_eq_decision : EqDecision DurableEnginePhase.
Proof. solve_decision. Defined.

Record WalletEngine : Type := { core : Core; durable_phase : DurableEnginePhase }.

Definition mark_legacy_if_fresh (self : WalletEngine) : WalletEngine :=
  match durable_phase self with
  | Fresh => {| core := core self; durable_phase := Legacy |}
  | _ => self
  end.

Definition MAX_DURABLE_TRUST_LIST_BYTES : Z := 4 * 1024 * 1024.
Definition MAX_DURABLE_WUA_BYTES : Z := 64 * 1024.

(** [matches!(key.as_slice(), [0x04, ..] if key.len() == 65)]. *)
Definition is_raw_point (key : bytes) : bool :=
  match key with Byte.x04 :: _ => len key =? 65 | _ => false end.

Section engine.
Context `{JL : JsonLib} {JV : JsonValue} {SJ : SerdeJson} `{B64 : Base64} `{D : Digest} `{V : Verifier}
  `{X : X509Der} `{CV : CertVerifier} `{SB : StdBase64} `{PQ : MlDsa} `{INF : Inflate}
  {A : Aead} {K : Kdf} {E : Ecdh} {W : WireCodec}.

Definition engine_new (wallet_client_id device_key_ref : string) (random : bytes) : WalletEngine :=
  {| core := new wallet_client_id device_key_ref random; durable_phase := Fresh |}.

(** The environment of a durable engine: a clock, a trusted list, the device
    key and its attestation, installed into a core of its own. *)
Definition staged_environment (self : Core) (random : bytes) (rnd : Draws) (clock_epoch : Z)
    (signed_trust_list operator_public_key device_public_key wua_jwt wua_provider_public_key : bytes)
  : result Core DurableFfiError :=
  let staged := new (wallet_client_id (config self)) (device_key_ref (config self)) random in
  match handle_event rnd staged (SetClock clock_epoch) with
  | (staged, []) =>
      match load_trust_list staged signed_trust_list operator_public_key with
      | (_, Err _) => Err FfiTrustEnvironmentRejected
      | (staged, Ok _) =>
          match load_wua (load_device_key staged device_public_key) wua_jwt wua_provider_public_key with
          | (_, Err _) => Err FfiWuaEnvironmentRejected
          | (staged, Ok _) => Ok staged
          end
      end
  | (_, _ :: _) => Err FfiInvalidEnvironment
  end.

Definition prepare_durable_environment (self : WalletEngine) (random : bytes) (rnd : Draws)
    (clock_epoch : Z)
    (signed_trust_list operator_public_key device_public_key wua_jwt wua_provider_public_key : bytes)
  : WalletEngine * result unit DurableFfiError :=
  if (clock_epoch <=? 0)
     || is_empty signed_trust_list || (MAX_DURABLE_TRUST_LIST_BYTES <? len signed_trust_list)
     || is_empty wua_jwt || (MAX_DURABLE_WUA_BYTES <? len wua_jwt)
     || negb (is_raw_point operator_public_key) || negb (is_raw_point device_public_key)
     || negb (is_raw_point wua_provider_public_key)
  then (self, Err FfiInvalidEnvironment)
  else if negb (bool_decide (durable_phase self = Fresh)) then (self, Err FfiInvalidLifecycleState)
  else
    match staged_environment (core self) random rnd clock_epoch signed_trust_list operator_public_key
            device_public_key wua_jwt wua_provider_public_key with
    | Ok staged => ({| core := staged; durable_phase := Prepared |}, Ok tt)
    | Err e => (self, Err e)
    end.

Definition is_durable (phase : DurableEnginePhase) : bool :=
  match phase with Prepared | Running => true | _ => false end.

Definition engine_export (self : WalletEngine) (generation : Z) : result bytes DurableFfiError :=
  if negb (is_durable (durable_phase self)) then Err FfiInvalidLifecycleState
  else map_err (export_durable_checkpoint (core self) generation) ffi_error.

Definition engine_restore (self : WalletEngine) (random checkpoint : bytes) (generation : Z)
  : WalletEngine * result unit DurableFfiError :=
  if negb (bool_decide (durable_phase self = Prepared)) then (self, Err FfiInvalidLifecycleState)
  else
    match restore_durable_checkpoint (core self) random checkpoint generation with
    | (core', Ok _) => ({| core := core'; durable_phase := Running |}, Ok tt)
    | (core', Err e) => ({| core := core'; durable_phase := durable_phase self |}, Err (ffi_error e))
    end.

(** The only screen that may be recovered after the process has died. *)
Definition durable_resume_effects (self : Core) : list Effect :=
  if durable_issuance_interrupted self
  then [Render (IssuanceRecoveryStep {|
          reason := SessionInterrupted;
          recovery_document_name := "Digital identity document";
          attempts_remaining := None;
          can_resume := false |})]
  else [].

Definition engine_resume (self : WalletEngine) : list Effect :=
  match durable_phase self with Running => durable_resume_effects (core self) | _ => [] end.

(** ** Loaders *)

Definition engine_load_trust_list (self : WalletEngine) (signed_list operator_public_key : bytes)
  : WalletEngine * result unit Trust.TrustError :=
  let self := mark_legacy_if_fresh self in
  let '(core', r) := load_trust_list (core self) signed_list operator_public_key in
  ({| core := core'; durable_phase := durable_phase self |}, r).

Definition engine_load_device_key (self : WalletEngine) (key : bytes) : WalletEngine :=
  let self := mark_legacy_if_fresh self in
  {| core := load_device_key (core self) key; durable_phase := durable_phase self |}.

Definition engine_load_status_list (self : WalletEngine) (uri : string) (token : bytes)
    (provider_cert_chain : list bytes) : WalletEngine * result unit StatusLoadError :=
  let self := mark_legacy_if_fresh self in
  let '(core', r) := load_status_list (core self) uri token provider_cert_chain in
  ({| core := core'; durable_phase := durable_phase self |}, r).

Definition engine_load_wua (self : WalletEngine) (wua_jwt provider_public_key : bytes)
  : WalletEngine * result unit Wua.WuaError :=
  let self := mark_legacy_if_fresh self in
  let '(core', r) := load_wua (core self) wua_jwt provider_public_key in
  ({| core := core'; durable_phase := durable_phase self |}, r).

Definition engine_ingest_credential (self : WalletEngine) (format : string) (credential : bytes)
    (issuer_cert_chain : list bytes) (issuer_id : string)
  : WalletEngine * result unit CredentialIngestionError :=
  let self := mark_legacy_if_fresh self in
  let '(core', r) := ingest_credential (core self) format credential issuer_cert_chain issuer_id in
  ({| core := core'; durable_phase := durable_phase self |}, r).

(** Unauthenticated injection is disabled: the arguments are dropped. *)
Definition engine_load_credential (self : WalletEngine) (issuer_jwt disclosures_by_claim_json : string)
    (status_index : option Z) : WalletEngine := self.

(** ** The log and the events *)

Definition engine_redact_transaction (self : WalletEngine) (seq : Z) : WalletEngine * bool :=
  let self := if is_durable (durable_phase self) then self else mark_legacy_if_fresh self in
  ({| core := redact_transaction (core self) seq; durable_phase := durable_phase self |},
   snd (TxnLog.redact (log (core self)) seq)).

Definition engine_wipe_transaction_log (self : WalletEngine) : WalletEngine :=
  let self := if is_durable (durable_phase self) then self else mark_legacy_if_fresh self in
  {| core := wipe_transaction_log (core self); durable_phase := durable_phase self |}.

Definition phase_after_event (phase : DurableEnginePhase) : DurableEnginePhase :=
  match phase with Fresh => Legacy | Prepared => Running | phase => phase end.

Definition engine_handle_event_json (rnd : Draws) (self : WalletEngine) (event_json : bytes)
  : WalletEngine * result bytes WireError :=
  let '(core', r) := handle_event_json rnd (core self) event_json in
  ({| core := core'; durable_phase := phase_after_event (durable_phase self) |}, r).
End engine.
