(* ===== verification/Release.v ===== *)
(** * The gate in front of a presentation

    What holds when the core asks for a presentation signature or posts a
    response to a verifier: the evidence is current and no selected credential
    is revoked, at that moment.  The statements are on [handle_event], for
    every core and event. *)

From stdpp Require Import list.
From S2P Require Import Cbor Cose Mdoc Oid4vp Dcql Payment Oid4vci Qes W2w Proximity Status Wua.
From S2P Require Import TxnLog Trust SdJwt Presenter Sealing ProximitySession DcApiRequests.
From S2P Require Import Prelude Utf8 BTree Boundary Serde SdJwtProcess Catalogue X509 X509Path.
From S2P Require Import PidProfile Holdings CredentialChecks WalletCore Ingestion Summaries.
From S2P Require Import Selection QuerySelection Responses Effects Facade Dispatch.
From S2P Require X509Profiles IngestionSpec.

Open Scope Z_scope.
Open Scope rust_scope.

(** ** Effects that reach a verifier *)

Definition is_post (e : Effect) : bool :=
  match e with Http Openid4vpDirectPost _ _ => true | _ => false end.

Definition is_sign (e : Effect) : bool := match e with Sign _ _ => true | _ => false end.

Definition no_post (effects : list Effect) : Prop := Forall (fun e => is_post e = false) effects.

Definition needs_gate (o : Oid4vp.Output) : bool :=
  match o with Oid4vp.SignKeyBinding _ _ | Oid4vp.SendVpToken _ => true | _ => false end.

Lemma no_post_app a b : no_post a -> no_post b -> no_post (a ++ b).
Proof. intros Ha Hb. by apply Forall_app. Qed.

Lemma no_post_close effects : no_post effects -> no_post (if has_close effects then effects else effects ++ [Close]).
Proof. intros H. destruct (has_close effects); [done|]. by apply no_post_app; [|repeat constructor]. Qed.

Lemma no_post_before_close x effects : is_post x = false -> no_post effects -> no_post (before_close x effects).
Proof.
  intros Hx. induction 1 as [|e effects He Hs IH]; cbn; [by repeat constructor|].
  destruct (is_close e); by repeat constructor.
Qed.

Lemma translate_each_no_post {O} (tr : Core -> O -> Reply) c outputs :
  (forall c o, no_post (snd (tr c o))) -> no_post (snd (translate_each tr c outputs)).
Proof.
  intros Ht. revert c. induction outputs as [|o outputs IH]; intros c; cbn; [constructor|].
  pose proof (Ht c o) as H. destruct (tr c o) as [c1 e1]. pose proof (IH c1) as H1.
  destruct (translate_each tr c1 outputs) as [c2 e2]. by apply no_post_app.
Qed.

#[local] Ltac plain := cbn; repeat constructor.

Section release.
Context `{JL : JsonLib} {JV : JsonValue} {SJ : SerdeJson} `{B64 : Base64} `{D : Digest} `{V : Verifier}
  `{X : X509Der} `{CV : CertVerifier} `{SB : StdBase64} `{PQ : MlDsa} `{INF : Inflate}
  {A : Aead} {K : Kdf} {E : Ecdh}.

(** ** The other flows post nothing to a verifier *)

Lemma error_no_post reason : no_post (unwrap_or (presentation_error_effects reason) []).
Proof. destruct reason; plain. Qed.

Lemma abort_no_post c reason : no_post (snd (abort_presentation c reason)).
Proof. apply error_no_post. Qed.

Lemma payment_no_post c i : no_post (snd (drive_payment c i)).
Proof.
  unfold drive_payment. destruct (Payment.step _ _ _) as [next outputs]. cbv zeta.
  pose proof (translate_each_no_post translate_payment (note_payment {| c with payment := next |}) outputs) as H.
  destruct (translate_each _ _ _) as [c1 effects]. cbn [snd] in H.
  assert (no_post effects) as He.
  { apply H. clear. intros c o. destruct o; cbn; try plain; repeat case_match; plain. }
  destruct (payment c1); try done. cbn [snd]. unfold abort_effects. destruct (has_close effects); [done|].
  apply no_post_app; [done|]. destruct reason; plain.
Qed.

Lemma qes_no_post c i : no_post (snd (drive_qes c i)).
Proof.
  unfold drive_qes. destruct (Qes.step _ _ _) as [next outputs]. cbv zeta.
  pose proof (translate_each_no_post translate_qes (note_qes {| c with qes := next |}) outputs) as H.
  destruct (translate_each _ _ _) as [c1 effects]. cbn [snd] in H.
  assert (no_post effects) as He.
  { apply H. clear. intros c o. destruct o; cbn; try plain; repeat case_match; plain. }
  destruct (qes c1); try done. cbn [snd]. apply no_post_close, no_post_app; [done|]. destruct reason; plain.
Qed.

Lemma w2w_no_post c i : no_post (snd (drive_w2w c i)).
Proof.
  unfold drive_w2w. destruct (W2w.step _ _) as [next outputs]. cbv zeta.
  pose proof (translate_each_no_post translate_w2w {| c with w2w := next |} outputs) as H.
  destruct (translate_each _ _ _) as [c1 effects]. cbn [snd] in H.
  assert (no_post effects) as He.
  { apply H. clear. intros c o. destruct o; cbn [translate_w2w]; try plain.
    destruct (append_audit_entry _ _) as [? []]; plain. }
  destruct (w2w c1); try done. plain.
Qed.

Lemma proximity_no_post c i : no_post (snd (drive_proximity c i)).
Proof.
  unfold drive_proximity. destruct (establish c i) as [c0 bound]. destruct (Proximity.step _ _ _) as [next outputs].
  cbv zeta. match goal with |- context [translate_each _ ?x _] => set (c2 := x) end. clearbody c2.
  pose proof (translate_each_no_post translate_proximity c2 outputs) as H.
  destruct (translate_each _ _ _) as [c1 effects]. cbn [snd] in H.
  assert (no_post effects) as He.
  { apply H. clear. intros c o. destruct o; cbn [translate_proximity]; try plain.
    - by destruct (prox_presentation _); plain.
    - cbv zeta. destruct (seal_response _ _) as [? []]; plain. }
  destruct (prox_state (proximity c1)); try done. by apply no_post_close.
Qed.

Lemma settle_no_post c was_issued was_aborted effects :
  no_post effects -> no_post (snd (settle_issuance c was_issued was_aborted effects)).
Proof.
  intros H. unfold settle_issuance. destruct (issuance c); try done.
  - cbn [snd]. destruct was_issued; [done|]. unfold ready_effects.
    destruct (issuance_document_summary c Ready); [|done]. by apply no_post_before_close.
  - destruct was_aborted; [done|]. destruct reason; plain.
Qed.

Lemma issuance_no_post c i : no_post (snd (drive_issuance c i)).
Proof.
  unfold drive_issuance. cbv zeta. set (c0 := {| c with issuer_trusted_current := _ |}). clearbody c0.
  destruct (Oid4vci.step _ _ _) as [next outputs].
  set (c1 := {| c0 with issuance := next |}). clearbody c1.
  destruct (negb (issuance_is_admissible c1)); [plain|].
  pose proof (translate_each_no_post translate_issuance c1 outputs) as H.
  destruct (translate_each _ _ _) as [c2 effects]. cbn [snd] in H.
  assert (no_post effects) as He by (apply H; clear; intros c o; destruct o; plain).
  assert (no_post (preparing_effects c2 i ++ effects)) as Hp.
  { apply no_post_app; [|done]. unfold preparing_effects. destruct (_ && _); [|plain].
    destruct (issuance_document_summary c2 Preparing); plain. }
  destruct (is_issued (issuance c0)); [by apply settle_no_post|].
  destruct (store_issued c2) as [c3|reply] eqn:Hs; [by apply settle_no_post|].
  unfold store_issued in Hs. destruct (issuance c2); try done.
  destruct (pending_verified_credential c2); [|done]. case_bool_decide; [|done].
  destruct (record_issuance _ _) as [c3 []]; [done|]. injection Hs as <-. plain.
Qed.

(** ** The presentation flow *)

(** An output that needs the gate comes alone, from a machine that has
    consent. *)
Lemma gated_step s i e o :
  In o (snd (Oid4vp.step s i e)) -> needs_gate o = true ->
  snd (Oid4vp.step s i e) = [o]
  /\ ((exists body p signature, o = Oid4vp.SendVpToken body /\ s = Oid4vp.AwaitingDeviceSignature p
         /\ i = Oid4vp.DeviceSignatureProduced signature /\ fst (Oid4vp.step s i e) = Oid4vp.Presenting)
      \/ (exists key b p, o = Oid4vp.SignKeyBinding key b
         /\ fst (Oid4vp.step s i e) = Oid4vp.AwaitingDeviceSignature p)).
Proof.
  destruct s, i; cbn [Oid4vp.step]; try done; repeat case_match; cbn [fst snd]; intros Hin Ho; try done;
    repeat (destruct Hin as [<-|Hin]; try done); split; eauto 10.
Qed.

(** Every other output stays clear of the verifier. *)
Lemma translate_no_post rnd c o :
  needs_gate o = false -> no_post (snd (translate rnd c o)) /\ Forall (fun e => is_sign e = false) (snd (translate rnd c o)).
Proof.
  intros H. destruct o; try done; cbn [translate]; try (by plain).
  destruct (presentation_evidence_is_current c); [by plain|]. split; [apply abort_no_post|].
  cbn. by destruct (eligibility_abort_reason e); plain.
Qed.

Lemma translate_each_plain rnd c outputs :
  Forall (fun o => needs_gate o = false) outputs ->
  Forall (fun e => is_post e = false /\ is_sign e = false) (snd (translate_each (translate rnd) c outputs)).
Proof.
  intros H. revert c. induction H as [|o outputs Ho _ IH]; intros c; cbn [translate_each]; [constructor|].
  destruct (translate_no_post rnd c o Ho) as [H1 H2]. destruct (translate rnd c o) as [c1 e1].
  pose proof (IH c1) as H3. destruct (translate_each _ c1 outputs) as [c2 e2]. cbn in *.
  apply Forall_app. split; [|done]. unfold no_post in H1. rewrite List.Forall_forall in *. auto.
Qed.

(** ** What the gate says *)

(** The status of a source was read from a fresh list of a provider that is
    trusted now, and is valid; or it has none. *)
Definition status_checked (self : Core) (source : PresentationCredentialReference) : Prop :=
  exists reference, source_reference source = Ok reference
    /\ forall r, reference = Some r ->
       exists cached, bt_get (status_lists self) (status_list_uri r) = Some cached
         /\ Status.is_fresh_at (cached_list cached) (now_epoch self) = true
         /\ is_some (resolve_status_provider_key self (provider_cert_chain cached)) = true
         /\ Status.status_at (cached_list cached) (status_index r) = Status.Valid.

Record gated (self : Core) (s : SessionInfo) : Prop := {
  gated_session : session self = Some s;
  gated_evidence : presentation_evidence_is_current self = Ok tt;
  gated_status : Forall (status_checked self) (selected_sources s);
}.

Lemma push_unseen_In {B} `{EqDecision B} (l : list B) x y : In y (push_unseen l x) <-> y = x \/ In y l.
Proof.
  unfold push_unseen. case_bool_decide as H.
  - apply list_elem_of_In in H. split; [by right|]. by intros [->|].
  - rewrite in_app_iff. cbn. firstorder congruence.
Qed.

Lemma references_complete l acc refs :
  source_references l acc = Ok refs ->
  (forall r, In r acc -> In r refs)
  /\ Forall (fun source => exists r, source_reference source = Ok r /\ forall x, r = Some x -> In x refs) l.
Proof.
  revert acc. induction l as [|source l IH]; intros acc; cbn [source_references].
  { intros [= <-]. by split; [|constructor]. }
  destruct (source_reference source) as [r|] eqn:Hr; [|done]. cbn. intros [Hs Hl]%IH. split.
  - intros x Hx. apply Hs. destruct r; [|done]. apply push_unseen_In. by right.
  - constructor; [|done]. exists r. split; [done|]. intros x ->. apply Hs, push_unseen_In. by left.
Qed.

Lemma check_ready self l all fetch :
  check_references self l all fetch = GateReady ->
  fetch = []
  /\ Forall (fun r => exists s, usable_list self (status_list_uri r) = Some s
                      /\ Status.status_at s (status_index r) = Status.Valid) l.
Proof.
  revert fetch. induction l as [|r l IH]; intros fetch; cbn [check_references].
  { destruct fetch; [|done]. by split. }
  destruct (usable_list self (status_list_uri r)) as [s|] eqn:Hu.
  - destruct (Status.status_at s (status_index r)) eqn:Ht; try done. intros [-> Hl]%IH. split; [done|].
    constructor; [|done]. by exists s.
  - intros [Hn _]%IH. exfalso. assert (In (status_list_uri r) (push_unseen fetch (status_list_uri r))) as Hin.
    { apply push_unseen_In. by left. }
    by rewrite Hn in Hin.
Qed.

Lemma usable_is_cached self uri s :
  usable_list self uri = Some s ->
  exists cached, bt_get (status_lists self) uri = Some cached /\ cached_list cached = s
    /\ Status.is_fresh_at (cached_list cached) (now_epoch self) = true
    /\ is_some (resolve_status_provider_key self (provider_cert_chain cached)) = true.
Proof.
  unfold usable_list. destruct (bt_get (status_lists self) uri) as [cached|]; [|done]. cbn.
  destruct (negb _ || negb _) eqn:Hn; [done|]. intros [= <-].
  apply orb_false_iff in Hn as [H1 H2]. apply negb_false_iff in H1, H2. by exists cached.
Qed.

Lemma gate_is_open self :
  presentation_sensitive_abort_reason self = None -> exists s, gated self s.
Proof.
  unfold presentation_sensitive_abort_reason.
  destruct (presentation_evidence_is_current self) as [[]|] eqn:He; [|done].
  destruct (presentation_status_gate self) eqn:Hg; try done. intros _. unfold presentation_status_gate in Hg.
  destruct (session self) as [s|] eqn:Hs; [|done].
  destruct (source_references (selected_sources s) []) as [refs|] eqn:Hr; [|done].
  destruct (_ <? _); [done|]. apply check_ready in Hg as [_ Hv]. apply references_complete in Hr as [_ Hl].
  exists s. split; [done..|]. rewrite List.Forall_forall in *. intros source (r & Hr & Hin)%Hl.
  exists r. split; [done|]. intros x Hx. destruct (Hv x (Hin x Hx)) as (l & Hu & Hok).
  apply usable_is_cached in Hu as (cached & ? & <- & ? & ?). by exists cached.
Qed.

(** ** Driving the machine *)

(** The response of a session: in the clear, or sealed to the verifier's key. *)
Definition answers (rnd : Draws) (s : SessionInfo) (token body : bytes) : Prop :=
  (response_mode s = "direct_post"%string /\ body = token)
  \/ (response_mode s = "direct_post.jwt"%string
      /\ exists key, response_encryption_key s = Some key
         /\ encrypt_direct_post_jwt rnd (nonce s) token key = Some body).

Definition clear (effects : list Effect) : Prop :=
  Forall (fun e => is_post e = false /\ is_sign e = false) effects.

Lemma error_clear reason : clear (unwrap_or (presentation_error_effects reason) []).
Proof. destruct reason; cbn; repeat constructor. Qed.

Lemma surface_clear c effects reason : clear effects -> clear (snd (surface_abort c effects reason)).
Proof.
  intros H. unfold surface_abort. destruct reason as [r|]; [|done]. cbn.
  pose proof (error_clear r) as He. destruct (presentation_error_effects r); [|done]. by apply Forall_app.
Qed.

Lemma admit_err_clear c r reply : admit_request c r = Err reply -> clear (snd reply).
Proof.
  unfold admit_request. destruct (prepare_presentation_selection _) as [c1 [[]|e]].
  - destruct (session c1); [|done]. destruct (is_ok _); [done|]. intros [= <-]. cbn. repeat constructor.
  - intros [= <-]. apply error_clear.
Qed.

Lemma clear_not effects x : clear effects -> In x effects -> is_post x || is_sign x = false.
Proof. intros H Hin. unfold clear in H. rewrite List.Forall_forall in H. by destruct (H x Hin) as [-> ->]. Qed.

Lemma drive_clear rnd c i :
  Forall (fun o => needs_gate o = false) (snd (Oid4vp.step (vp c) i (vp_env c i))) ->
  clear (snd (drive rnd c i)).
Proof.
  unfold drive. destruct (Oid4vp.step _ _ _) as [next outputs]. cbn [snd]. intros Ho. cbv zeta.
  destruct (match next with Oid4vp.RequestValidated req => admit_request _ req | _ => _ end) as [c1|reply] eqn:Ha.
  - pose proof (translate_each_plain rnd c1 outputs Ho) as Ht. destruct (translate_each _ c1 outputs) as [c2 effects].
    pose proof (surface_clear c2 effects (newly_aborted (vp c) next) Ht) as Hs.
    destruct (surface_abort _ _ _) as [c3 eff]. destruct (_ && _); [|done].
    destruct (record_presentation c3) as [c4 []]; [done|]. cbn. repeat constructor.
  - destruct next; try done. by eapply admit_err_clear.
Qed.

(** A step whose machine asks for a signature or a delivery is that request
    alone. *)
Lemma drive_gated_step rnd c i next o :
  Oid4vp.step (vp c) i (vp_env c i) = (next, [o]) ->
  next = Oid4vp.Presenting \/ (exists p, next = Oid4vp.AwaitingDeviceSignature p) ->
  is_done (vp (fst (translate rnd {| c with vp := next |} o))) = false ->
  drive rnd c i = translate rnd {| c with vp := next |} o.
Proof.
  intros Hst Hn Hd. unfold drive. rewrite Hst. cbv zeta.
  set (c1 := {| c with vp := next |}) in *. clearbody c1.
  assert (match next with Oid4vp.RequestValidated req => admit_request c1 req | _ => Ok c1 end = Ok c1) as ->
    by (by destruct Hn as [->|[p ->]]).
  cbn [translate_each]. destruct (translate rnd c1 o) as [c2 eff]. rewrite app_nil_r. cbn [fst] in Hd.
  assert (newly_aborted (vp c) next = None) as -> by (destruct Hn as [->|[p ->]]; by destruct (vp c)).
  cbn [surface_abort]. by rewrite Hd, andb_false_r.
Qed.

Lemma deliver_answers rnd c token x :
  In x (snd (deliver_response rnd c token)) -> is_post x || is_sign x = true ->
  exists s body, session c = Some s /\ x = Http Openid4vpDirectPost (response_uri s) body
    /\ answers rnd s token body /\ fst (deliver_response rnd c token) = c.
Proof.
  assert (forall r, In x (snd (abort_presentation c r)) -> is_post x || is_sign x = true -> False) as Habort.
  { intros r Hin Hx. pose proof (clear_not _ _ (error_clear r) Hin). congruence. }
  unfold deliver_response. destruct (session c) as [s|]; [|intros Hin Hx; by destruct (Habort _ Hin Hx)].
  destruct (String.eqb (response_mode s) "direct_post") eqn:Hm; cbn [fst snd].
  - apply String.eqb_eq in Hm. intros [<-|[]] _. exists s, token. split_and!; try done. by left.
  - destruct (String.eqb (response_mode s) "direct_post.jwt") eqn:Hj; [|intros Hin Hx; by destruct (Habort _ Hin Hx)].
    apply String.eqb_eq in Hj. destruct (response_encryption_key s) as [key|] eqn:Hk;
      [|intros Hin Hx; by destruct (Habort _ Hin Hx)].
    destruct (encrypt_direct_post_jwt rnd (nonce s) token key) as [body|] eqn:He;
      [|intros Hin Hx; by destruct (Habort _ Hin Hx)].
    intros [<-|[]] _. exists s, body. split_and!; try done. right. eauto.
Qed.

(** What a step that reaches a verifier has passed. *)
Lemma drive_releases rnd c i x :
  In x (snd (drive rnd c i)) -> is_post x || is_sign x = true ->
  exists s, gated (fst (drive rnd c i)) s
  /\ (is_post x = true ->
      exists p signature token body,
        vp c = Oid4vp.AwaitingDeviceSignature p /\ i = Oid4vp.DeviceSignatureProduced signature
        /\ Oid4vp.step (vp c) i (vp_env c i) = (Oid4vp.Presenting, [Oid4vp.SendVpToken token])
        /\ session c = Some s /\ vp (fst (drive rnd c i)) = Oid4vp.Presenting
        /\ x = Http Openid4vpDirectPost (response_uri s) body /\ answers rnd s token body).
Proof.
  intros Hin Hx.
  destruct (existsb needs_gate (snd (Oid4vp.step (vp c) i (vp_env c i)))) eqn:Hg.
  2: { assert (clear (snd (drive rnd c i))) as Hc.
       { apply drive_clear. apply List.Forall_forall. intros o Ho. apply not_true_iff_false. intros Hn.
         apply not_true_iff_false in Hg. apply Hg, existsb_exists. by exists o. }
       pose proof (clear_not _ _ Hc Hin). congruence. }
  apply existsb_exists in Hg as (o & Ho & Hn). destruct (gated_step _ _ _ _ Ho Hn) as [Hs Hcase].
  destruct (Oid4vp.step (vp c) i (vp_env c i)) as [next outputs] eqn:Hst. cbn [fst snd] in Hs, Hcase. subst outputs.
  assert (forall c r, In x (snd (abort_presentation c r)) -> False) as Habort.
  { intros c' r Hi. pose proof (clear_not _ _ (error_clear r) Hi). congruence. }
  destruct Hcase as [(token & p & signature & -> & Hv & -> & ->)|(key & b & p & -> & ->)].
  - assert (is_done (vp (fst (translate rnd {| c with vp := Oid4vp.Presenting |} (Oid4vp.SendVpToken token)))) = false) as Hd.
    { cbn [translate]. destruct (presentation_sensitive_abort_reason _); [done|]. unfold deliver_response.
      repeat case_match; done. }
    rewrite (drive_gated_step rnd c _ _ _ Hst (or_introl eq_refl) Hd) in Hin |- *. clear Hd. cbn [translate] in Hin |- *.
    set (c1 := {| c with vp := Oid4vp.Presenting |}) in *.
    assert (vp c1 = Oid4vp.Presenting) as Hv1 by done. assert (session c1 = session c) as Hs1 by done. clearbody c1.
    destruct (presentation_sensitive_abort_reason c1) eqn:Hr; [by destruct (Habort _ _ Hin)|].
    destruct (gate_is_open _ Hr) as [s Hgs].
    destruct (deliver_answers _ _ _ _ Hin Hx) as (s' & body & He & -> & Hans & ->).
    assert (s' = s) as -> by (destruct Hgs; congruence).
    exists s. split; [done|]. intros _. exists p, signature, token, body. by rewrite <- Hs1.
  - assert (is_done (vp (fst (translate rnd {| c with vp := Oid4vp.AwaitingDeviceSignature p |} (Oid4vp.SignKeyBinding key b)))) = false) as Hd.
    { cbn [translate]. by destruct (presentation_sensitive_abort_reason _). }
    rewrite (drive_gated_step rnd c _ _ _ Hst (or_intror (ex_intro _ p eq_refl)) Hd) in Hin |- *.
    clear Hd. cbn [translate] in Hin |- *. set (c1 := {| c with vp := _ |}) in *. clearbody c1.
    destruct (presentation_sensitive_abort_reason c1) eqn:Hr; [by destruct (Habort _ _ Hin)|].
    destruct (gate_is_open _ Hr) as [s Hgs]. exists s. split; [done|]. destruct Hin as [<-|[]]. done.
Qed.

(** ** Every event *)

Definition is_signature (i : Oid4vp.Input) : bool :=
  match i with Oid4vp.DeviceSignatureProduced _ => true | _ => false end.

Lemma drive_no_post rnd c i : is_signature i = false -> no_post (snd (drive rnd c i)).
Proof.
  intros Hi. apply List.Forall_forall. intros x Hx. apply not_true_iff_false. intros Hp.
  destruct (drive_releases rnd c i x Hx) as (s & _ & H); [by rewrite Hp|].
  destruct (H Hp) as (p & signature & token & body & _ & -> & _). done.
Qed.

Lemma consented_no_post rnd c : no_post (snd (user_consented rnd c)).
Proof.
  unfold user_consented. destruct (active c); try (by apply drive_no_post); try apply proximity_no_post.
  - destruct (presentation_evidence_is_current c); [|apply abort_no_post].
    destruct (presentation_status_gate c); [by apply drive_no_post| |apply abort_no_post..].
    cbn [snd]. induction uris; by constructor.
  - unfold dcapi_consent_granted. destruct (dc_presentation _); plain.
Qed.

Lemma declined_no_post rnd c : no_post (snd (user_declined rnd c)).
Proof.
  assert (no_post (snd (let '(self, effects) := drive rnd {| c with pending_status_references := [] |} Oid4vp.ConsentDeclined in
      match vp self with
      | Oid4vp.Aborted Oid4vp.UserDeclined => (reset_flow self Presentation, effects)
      | _ => (self, effects)
      end))) as H.
  { pose proof (drive_no_post rnd {| c with pending_status_references := [] |} Oid4vp.ConsentDeclined eq_refl) as H.
    destruct (drive _ _ _) as [c1 eff]. by destruct (vp c1) as [| | | | | |[]]. }
  unfold user_declined. destruct (active c); try exact H; [apply proximity_no_post|plain].
Qed.

Lemma status_no_post rnd c uri http token chain :
  no_post (snd (status_list_received rnd c uri http token chain)).
Proof.
  unfold status_list_received. destruct (presentation_evidence_is_current c); [|apply abort_no_post].
  cbv zeta. destruct (_ || _); [apply abort_no_post|].
  destruct (load_status_list c uri token chain) as [c1 []]; [|apply abort_no_post].
  destruct (presentation_status_gate c1); [by apply drive_no_post|plain|apply abort_no_post..].
Qed.

Lemma credential_no_post c format b : no_post (snd (credential_received c format b)).
Proof.
  unfold credential_received. destruct (negb _).
  - unfold reject_unexpected_credential_response. cbn [snd]. destruct (_ || _); plain.
  - destruct (parse_format format); [destruct (authenticate_received_credential _ _ _ _ _)|]; apply issuance_no_post.
Qed.

Lemma failure_no_post failure : no_post (failure_effects failure).
Proof. destruct failure as [[]|]; plain. Qed.

Lemma ended_no_post c id failure : no_post (snd (operation_ended c id failure)).
Proof.
  unfold operation_ended. destruct (bt_get _ _) as [op|]; [|plain]. unfold operation_terminal_effects.
  destruct (if bool_decide (op_flow op = Issuance) then _ else _); [plain|apply failure_no_post].
Qed.

Definition is_signed (e : Event) : bool := match e with DeviceSignatureProduced _ => true | _ => false end.

Lemma dispatch_no_post rnd c e :
  is_signed e = false -> no_post (snd (dispatch rnd c e)).
Proof.
  intros He. destruct e; try done; cbn [dispatch]; try (by plain); clear He;
    try apply payment_no_post; try apply qes_no_post; try apply issuance_no_post; try apply proximity_no_post;
    try apply consented_no_post; try apply declined_no_post; try apply status_no_post;
    try apply credential_no_post; try apply ended_no_post; try (by apply drive_no_post).
  - unfold set_clock. repeat case_match; try apply abort_no_post; plain.
  - unfold rp_cert_chain_resolved. destruct (resolve_rp _ _) as [[? ?] ?]. by apply drive_no_post.
  - unfold presentation_delivered. pose proof (drive_no_post rnd c Oid4vp.PresentationDelivered eq_refl) as H.
    by destruct (drive _ _ _).
  - unfold payment_delivered. destruct (active c); try plain. destruct (payment c); try plain.
    destruct (record_payment c) as [? []]; plain.
  - unfold qes_delivered. destruct (active c); try plain. destruct (qes c); plain.
  - unfold token_received. pose proof (issuance_no_post c (Oid4vci.TokenResponse bound c_nonce)) as H.
    by destruct (drive_issuance _ _).
  - unfold transfer_offer_created. destruct (negb _); [plain|]. destruct (negb _); [plain|]. apply w2w_no_post.
  - unfold transfer_received. destruct (negb _); [plain|]. apply w2w_no_post.
  - unfold engagement_requested. destruct (negb _); [plain|]. destruct (generate _); [|plain].
    destruct (sec1_to_cose_ec2 _); [|plain]. apply proximity_no_post.
  - unfold reader_establishment. destruct (parse_session_establishment _); apply proximity_no_post.
  - unfold dcapi_request_received. cbv zeta. destruct (let! _ := _ in _); plain.
Qed.

(** The events that carry a presentation towards its signatures. *)
Definition carries (e : Event) : bool :=
  match e with UserConsented | StatusListReceived _ _ _ _ | DeviceSignatureProduced _ => true | _ => false end.

Lemma carried_signature_gated rnd c e x :
  active c = Presentation -> carries e = true ->
  In x (snd (dispatch rnd c e)) -> is_sign x = true -> exists s, gated (fst (dispatch rnd c e)) s.
Proof.
  intros Ha He Hin Hx. assert (is_post x || is_sign x = true) as Hr by (by rewrite Hx, orb_true_r).
  assert (forall c r, In x (snd (abort_presentation c r)) -> False) as Habort.
  { intros c' r Hi. pose proof (clear_not _ _ (error_clear r) Hi). congruence. }
  assert (forall c i, In x (snd (drive rnd c i)) -> exists s, gated (fst (drive rnd c i)) s) as Hdrive.
  { intros c' i Hi. destruct (drive_releases rnd c' i x Hi Hr) as (s & Hs & _). by exists s. }
  destruct e; try done; cbn [dispatch] in *.
  - unfold user_consented in *. revert Hin. destruct (active c); try done. intros Hin. clear Ha.
    destruct (presentation_evidence_is_current c); [|by destruct (Habort _ _ Hin)].
    destruct (presentation_status_gate c); [by apply Hdrive| |by destruct (Habort _ _ Hin)..].
    apply in_map_iff in Hin as (u & <- & _). done.
  - unfold device_signature_produced in *. revert Hin. destruct (active c); try done. intros Hin. clear Ha.
    destruct (presentation_sensitive_abort_reason c); [by destruct (Habort _ _ Hin)|]. by apply Hdrive.
  - unfold status_list_received in *.
    destruct (presentation_evidence_is_current c); [|by destruct (Habort _ _ Hin)].
    cbv zeta in *. destruct (_ || _); [by destruct (Habort _ _ Hin)|].
    destruct (load_status_list c uri token provider_cert_chain) as [c1 []]; [|by destruct (Habort _ _ Hin)].
    destruct (presentation_status_gate c1); [by apply Hdrive|done|by destruct (Habort _ _ Hin)..].
Qed.

Lemma dispatch_post rnd c e x :
  In x (snd (dispatch rnd c e)) -> is_post x = true ->
  exists signature p s token body,
    e = DeviceSignatureProduced signature
    /\ vp c = Oid4vp.AwaitingDeviceSignature p
    /\ Oid4vp.step (vp c) (Oid4vp.DeviceSignatureProduced signature)
         (vp_env c (Oid4vp.DeviceSignatureProduced signature))
       = (Oid4vp.Presenting, [Oid4vp.SendVpToken token])
    /\ session c = Some s /\ gated (fst (dispatch rnd c e)) s
    /\ x = Http Openid4vpDirectPost (response_uri s) body /\ answers rnd s token body.
Proof.
  intros Hin Hp.
  assert (forall f : Reply, no_post (snd f) -> In x (snd f) -> False) as Hno.
  { intros f Hf Hi. unfold no_post in Hf. rewrite List.Forall_forall in Hf. specialize (Hf x Hi). congruence. }
  destruct (is_signed e) eqn:He; [|by destruct (Hno _ (dispatch_no_post rnd c e He) Hin)].
  destruct e as [| | | | | | |signature| | | | | | | | | | | | | | | | | | | | | | | | | | | |]; try done.
  cbn [dispatch] in *. clear He.
  assert (In x (snd (drive rnd c (Oid4vp.DeviceSignatureProduced signature))) ->
    device_signature_produced rnd c signature = drive rnd c (Oid4vp.DeviceSignatureProduced signature) ->
    exists p s token body, vp c = Oid4vp.AwaitingDeviceSignature p
      /\ Oid4vp.step (vp c) (Oid4vp.DeviceSignatureProduced signature)
           (vp_env c (Oid4vp.DeviceSignatureProduced signature))
         = (Oid4vp.Presenting, [Oid4vp.SendVpToken token])
      /\ session c = Some s /\ gated (fst (device_signature_produced rnd c signature)) s
      /\ x = Http Openid4vpDirectPost (response_uri s) body /\ answers rnd s token body) as Hd.
  { intros Hi ->. destruct (drive_releases rnd c _ x Hi) as (s & Hs & H); [by rewrite Hp|].
    destruct (H Hp) as (p & sg & token & body & Hv & [= <-] & Hst & Hse & _ & -> & Hans).
    by exists p, s, token, body. }
  exists signature. unfold device_signature_produced in Hin, Hd |- *.
  destruct (active c) eqn:Ha; try (by destruct (Hd Hin eq_refl) as (p & s & token & body & ?); exists p, s, token, body).
  - destruct (presentation_sensitive_abort_reason c); [by destruct (Hno _ (abort_no_post c _) Hin)|].
    by destruct (Hd Hin eq_refl) as (p & s & token & body & ?); exists p, s, token, body.
  - by destruct (Hno _ (payment_no_post c _) Hin).
  - by destruct (Hno _ (issuance_no_post c _) Hin).
  - by destruct (Hno _ (qes_no_post c _) Hin).
  - by destruct (Hno _ (proximity_no_post c _) Hin).
  - exfalso. apply (Hno (dcapi_signature_produced c signature)); [|done].
    unfold dcapi_signature_produced. cbn [snd]. destruct (dc_presentation _); plain.
Qed.

Lemma audit_gate_clear c e f :
  audited_flow_started_by e = Some f -> forall x effects,
  In x effects -> effects = snd (audit_log_fault_effects c f) \/ effects = snd (audit_log_capacity_effects c f) ->
  is_post x || is_sign x = false.
Proof. intros _ x effects Hin [-> | ->]; cbn in Hin; by destruct Hin as [<-|[<-|[]]]. Qed.

(** C3: Whatever the state and the event, the core posts to a verifier only when a device signature
    completes the presentation of the session's request: the response goes to that request's response
    address, in the clear or sealed to the key of the request as its response mode says, and in the
    resulting state the evidence of the presentation is current and the status of every selected
    credential is read from a fresh list of a trusted provider and valid.  In a presentation, a
    signature is asked for only when the same holds. *)
Theorem presentation_release_gated rnd c e x :
  In x (snd (handle_event rnd c e)) ->
  (is_post x = true ->
   exists signature p s token body,
     e = DeviceSignatureProduced signature
     /\ vp c = Oid4vp.AwaitingDeviceSignature p
     /\ Oid4vp.step (vp c) (Oid4vp.DeviceSignatureProduced signature)
          (vp_env c (Oid4vp.DeviceSignatureProduced signature))
        = (Oid4vp.Presenting, [Oid4vp.SendVpToken token])
     /\ session c = Some s /\ gated (fst (handle_event rnd c e)) s
     /\ x = Http Openid4vpDirectPost (response_uri s) body /\ answers rnd s token body)
  /\ (is_sign x = true -> active c = Presentation -> carries e = true ->
      exists s, gated (fst (handle_event rnd c e)) s).
Proof.
  unfold handle_event. destruct (audited_flow_started_by e) as [f|] eqn:Hf.
  - pose proof (audit_gate_clear c e f Hf x) as Hc.
    destruct (negb (audit_log_available c));
      [intros Hin; specialize (Hc _ Hin (or_introl eq_refl)); by apply orb_false_iff in Hc as [-> ->]|].
    destruct (negb _); [intros Hin; specialize (Hc _ Hin (or_intror eq_refl)); by apply orb_false_iff in Hc as [-> ->]|].
    intros Hin. split; [by apply dispatch_post|]. intros. by eapply carried_signature_gated.
  - intros Hin. split; [by apply dispatch_post|]. intros. by eapply carried_signature_gated.
Qed.
End release.

(** ** A presentation that is delivered *)

Module Examples.
Import X509Profiles.Examples IngestionSpec.Examples.
#[local] Existing Instances Samples.hex64 Samples.trunc_digest Samples.echo_verifier Samples.stored_inflate.
#[local] Existing Instances Oid4vp.sample_json Oid4vp.sample_value.
#[local] Existing Instances Sealing.Samples.tagging Sealing.Samples.adding Sealing.Samples.concat_kdf.

(** One credential is left to be signed. *)
Definition signing : Core := {| presenting with
  active := Presentation;
  session := Some {| request with response_uri := "https://shop.example/cb"; response_mode := "direct_post" |};
  vp := Oid4vp.AwaitingDeviceSignature {|
    Oid4vp.p_queue := [Oid4vp.SubSdJwt "sd~" "h.p" None]; Oid4vp.p_done := []; Oid4vp.p_state := None |} |}.

Definition draws : Draws := {| key_random := []; iv_random := [] |}.

Definition replies (c : Core) : list Effect := snd (handle_event draws c (DeviceSignatureProduced [Byte.x01])).

(** The response leaves; with an expired trust list the flow ends instead. *)
Example delivered_or_ended :
  existsb is_post (replies signing) = true
  /\ existsb is_post (replies {| signing with now_epoch := 201 |}) = false.
Proof. split; vm_compute; reflexivity. Qed.

Definition produced : Event := DeviceSignatureProduced [Byte.x01].

Lemma posted_response : exists x, In x (snd (handle_event draws signing produced)) /\ is_post x = true.
Proof. apply existsb_exists. vm_compute. reflexivity. Qed.

Lemma presentation_release_gated_witness :
  exists x s, In x (snd (handle_event draws signing produced)) /\ is_post x = true
    /\ session signing = Some s /\ gated (fst (handle_event draws signing produced)) s.
Proof.
  destruct posted_response as (x & Hin & Hp).
  destruct (presentation_release_gated draws signing produced x Hin) as [H _].
  destruct (H Hp) as (signature & p & s & token & body & _ & _ & _ & Hs & Hg & _).
  exact (ex_intro _ x (ex_intro _ s (conj Hin (conj Hp (conj Hs Hg))))).
Defined.
End Examples.
