(* ===== verification/WireOps.v ===== *)
(** * Pending operations and what the flows wait for

    The operations the shell has been asked for, in the order of their
    identifiers; which of them the machine of the active flow is waiting for;
    and how effects that leave extend them.  The flows are in WireFlows, the
    theorems on whole histories in WireSpec. *)

From stdpp Require Import list.
From S2P Require Import Cbor Cose Mdoc Oid4vp Dcql Payment Oid4vci Qes W2w Proximity Status Wua.
From S2P Require Import TxnLog Trust SdJwt Presenter Sealing ProximitySession DcApiRequests.
From S2P Require Import Prelude Utf8 BTree Boundary Serde SdJwtProcess Catalogue X509 X509Path.
From S2P Require Import PidProfile Holdings CredentialChecks WalletCore Ingestion Summaries.
From S2P Require Import Selection QuerySelection Responses Effects Facade Dispatch Wire.

Open Scope Z_scope.
Open Scope rust_scope.

(** ** Operations in the order of their identifiers *)

Fixpoint number (n : Z) (ops : list PendingOperation) : list (Z * PendingOperation) :=
  match ops with
  | [] => []
  | op :: ops => (n, op) :: number (n + 1) ops
  end.

Lemma number_snd n ops : map snd (number n ops) = ops.
Proof. revert n. induction ops as [|op ops IH]; intros n; cbn; [done|]. by rewrite IH. Qed.

Lemma number_range n ops : Forall (fun e => n <= fst e < n + len ops) (number n ops).
Proof.
  revert n. induction ops as [|op ops IH]; intros n; cbn; [constructor|].
  rewrite len_cons. pose proof (len_nonneg ops). constructor; cbn; [lia|].
  eapply List.Forall_impl; [|apply IH]. cbn. intros [] ?; cbn in *. lia.
Qed.

Lemma number_sorted n ops : bt_ok (number n ops).
Proof.
  revert n. induction ops as [|op ops IH]; intros n; cbn; [constructor|]. constructor; [apply IH|].
  eapply List.Forall_impl; [|apply number_range]. intros [] ?. unfold key_lt. cbn in *.
  apply Z.compare_lt_iff. lia.
Qed.

Lemma insert_last (m : BTreeMap Z PendingOperation) n op :
  Forall (fun e => fst e < n) m -> bt_insert n op m = m ++ [(n, op)].
Proof.
  induction 1 as [|[a b] m Ha _ IH]; cbn in *; [done|].
  rewrite (proj2 (Z.compare_gt_iff n a)) by lia. by rewrite IH.
Qed.

Lemma extend_numbered (m : BTreeMap Z PendingOperation) n ops :
  Forall (fun e => fst e < n) m -> bt_extend m (number n ops) = m ++ number n ops.
Proof.
  revert m n. induction ops as [|op ops IH]; intros m n Hm; cbn; [by rewrite app_nil_r|].
  rewrite insert_last by done. unfold bt_extend in IH. rewrite IH.
  - by rewrite <- app_assoc.
  - apply Forall_app. split; [|repeat constructor; cbn; lia].
    eapply List.Forall_impl; [|exact Hm]. cbn. lia.
Qed.

Lemma sorted_append (m k : BTreeMap Z PendingOperation) n :
  bt_ok m -> bt_ok k -> Forall (fun e => fst e < n) m -> Forall (fun e => n <= fst e) k -> bt_ok (m ++ k).
Proof.
  intros Hm Hk Hl Hg. induction Hm as [|[a b] m Hm IH Ha]; [done|]. apply Forall_cons_1 in Hl as [Hl Hls].
  constructor; [by apply IH|]. apply List.Forall_app. split; [done|].
  eapply List.Forall_impl; [|exact Hg]. intros [] ?. unfold key_lt. cbn in *. apply Z.compare_lt_iff. lia.
Qed.

Lemma sorted_sublist (m k : BTreeMap Z PendingOperation) : sublist k m -> bt_ok m -> bt_ok k.
Proof.
  unfold bt_ok. induction 1 as [|x k m Hs IH|x k m Hs IH]; intros H; inversion H as [|? ? Hm Hx]; subst; auto.
  constructor; [by apply IH|]. rewrite List.Forall_forall in *. intros y Hy. apply Hx.
  apply list_elem_of_In. eapply elem_of_sublist; [by apply list_elem_of_In|done].
Qed.

Lemma Forall_sublist {B} (P : B -> Prop) (k m : list B) : sublist k m -> Forall P m -> Forall P k.
Proof.
  intros Hs Hm. rewrite List.Forall_forall in *. intros x Hx. apply Hm, list_elem_of_In.
  eapply elem_of_sublist; [by apply list_elem_of_In|done].
Qed.

Lemma filter_sublist {B} (f : B -> bool) (l : list B) : sublist (List.filter f l) l.
Proof. induction l as [|x l IH]; cbn; [done|]. destruct (f x); by constructor. Qed.

Lemma filter_of_sublist {B} (f : B -> bool) (k l : list B) :
  sublist k l -> sublist (List.filter f k) (List.filter f l).
Proof.
  induction 1 as [|x k l Hs IH|x k l Hs IH]; cbn; [done| |].
  - destruct (f x); [by constructor|done].
  - destruct (f x); [by constructor|done].
Qed.

Lemma map_sublist {B C} (f : B -> C) (k l : list B) : sublist k l -> sublist (map f k) (map f l).
Proof. induction 1; by constructor. Qed.

Lemma remove_sublist (m : BTreeMap Z PendingOperation) id : sublist (bt_remove id m) m.
Proof.
  induction m as [|[a b] m IH]; cbn; [done|]. destruct (Z.compare id a); [|by constructor..].
  by apply sublist_cons.
Qed.

Lemma remove_split (m : BTreeMap Z PendingOperation) id op :
  bt_get m id = Some op -> exists k l, m = k ++ (id, op) :: l /\ bt_remove id m = k ++ l.
Proof.
  induction m as [|[a b] m IH]; cbn; [done|]. destruct (Z.compare id a) eqn:E.
  - apply Z.compare_eq in E as ->. intros [= ->]. by exists [], m.
  - intros (k & l & -> & ->)%IH. by exists ((a, b) :: k), l.
  - intros (k & l & -> & ->)%IH. by exists ((a, b) :: k), l.
Qed.


(** ** What a machine waits for *)

(** Results that do not drive a machine: a stored nonce, a fetched status
    list. *)
Definition is_side (op : PendingOperation) : bool :=
  match op_result op with Persisted | StatusList _ => true | _ => false end.

Definition main (op : PendingOperation) : bool := negb (is_side op).

(** A nonce persisted by an exchange that has ended. *)
Definition stale (op : PendingOperation) : Prop := op_flow op = NoFlow /\ op_result op = Persisted.

Definition is_validated (s : Oid4vp.State) : bool :=
  match s with Oid4vp.RequestValidated _ => true | _ => false end.

(** A proximity session between engagement and response. *)
Definition prox_busy (s : Proximity.State) : bool :=
  match s with
  | Proximity.Engaged _ | Proximity.SessionEstablished _ | Proximity.SigningResponse _ => true
  | _ => false
  end.

Section wire.
Context `{JL : JsonLib} {JV : JsonValue} {SJ : SerdeJson} `{B64 : Base64} `{D : Digest} `{V : Verifier}
  `{X : X509Der} `{CV : CertVerifier} `{SB : StdBase64} `{PQ : MlDsa} `{INF : Inflate}
  {A : Aead} {K : Kdf} {E : Ecdh} {W : WireCodec}.

(** The session that was captured from a request. *)
Definition session_of (r : Oid4vp.AuthRequest) (s : SessionInfo) : Prop :=
  rp_client_id s = Oid4vp.client_id r /\ nonce s = Oid4vp.nonce r
  /\ response_uri s = Oid4vp.response_uri r /\ response_mode s = Oid4vp.response_mode r
  /\ response_encryption_key s = Oid4vp.response_encryption_key r.

Definition payment_screen (r : Payment.PaymentRequest) : ScreenDescription :=
  PaymentConfirmation {|
    Presenter.creditor_name := Payment.creditor_name r;
    Presenter.creditor_account := Payment.creditor_account r;
    Presenter.amount_minor := Payment.amount_minor r;
    Presenter.currency := Payment.currency r |}.

Definition signing_screen (r : Qes.SignRequest) : ScreenDescription :=
  SignConfirmation {|
    sign_document_name := Qes.document_name r;
    Presenter.qtsp_id := Qes.qtsp_id r;
    document_hash_hex := hex_bytes (Qes.document_hash r) |}.

(** The offer that was shown: what it says of the document is what the machine
    holds; the issuer's display name is that of the moment it was shown. *)
Definition offers (self : Core) (format : Oid4vci.CredentialFormat) (s : IssuanceOfferScreen) : Prop :=
  display_document format = (offer_document_name s, offer_format s)
  /\ offer_portrait_required s = portrait_is_required self.

Definition proximity_screen (self : Core) : ScreenDescription :=
  ProximityConsent
    match prox_presentation (proximity self) with Some p => prox_disclosed p | None => [] end.

(** The screen whose approval an operation waits for, given the machine of the
    active flow. *)
Definition describes (self : Core) (kind : OperationResultKind) (screen : ScreenDescription) : Prop :=
  match kind with
  | PresentationDecision =>
      active self = Presentation
      /\ (exists r s, vp self = Oid4vp.RequestValidated r /\ session self = Some s /\ session_of r s)
      /\ screen = consent_screen self
  | PaymentDecision =>
      active self = Payment
      /\ (exists r, payment self = Payment.AwaitingConfirmation r
                    /\ pay_pending self = Some (Payment.response_uri r, Payment.nonce r)
                    /\ screen = payment_screen r)
  | QesDecision =>
      active self = QesFlow
      /\ (exists r, qes self = Qes.AwaitingAuthorization r /\ screen = signing_screen r)
      /\ qes_consent_hash self = Presenter.consent_hash screen
  | IssuanceDecision =>
      active self = Issuance
      /\ (exists g f s, issuance self = Oid4vci.ReviewingOffer g f /\ offers self f s
                        /\ screen = IssuanceOffer s)
  | ProximityDecision =>
      active self = ProximityFlowKind
      /\ (exists t, prox_state (proximity self) = Proximity.SessionEstablished t)
      /\ screen = proximity_screen self
  | DcApiDecision =>
      active self = DcApi
      /\ (exists p origin, dc_presentation (dcapi self) = Some p
                           /\ screen = DcApiConsent origin (dc_disclosed p))
  | _ => False
  end.

(** The machine of the active flow is where the result of the operation takes
    it further. *)
Definition expects (self : Core) (kind : OperationResultKind) : Prop :=
  match kind, active self with
  | RpCertChain, Presentation => exists r, vp self = Oid4vp.ResolvingTrust r
  | Signature, Presentation => exists p, vp self = Oid4vp.AwaitingDeviceSignature p
  | PresentationDelivery, Presentation => vp self = Oid4vp.Presenting
  | Signature, Payment =>
      exists p, payment self = Payment.AwaitingSca p
        /\ pay_pending self
           = Some (Payment.response_uri (Payment.request p), Payment.nonce (Payment.request p))
  | PaymentDelivery, Payment => exists b, payment self = Payment.Authorized b
  | Signature, QesFlow =>
      exists p, qes self = Qes.AwaitingSca p
        /\ Qes.pending_consent_hash p = Presenter.consent_hash (signing_screen (Qes.request p))
  | QesDelivery, QesFlow => exists b, qes self = Qes.Signed b
  | Par, Issuance => exists g f, issuance self = Oid4vci.OfferParsed g f
  | AuthorizationCode, Issuance => exists f, issuance self = Oid4vci.Authorizing f
  | TransactionCode, Issuance => exists f, issuance self = Oid4vci.AwaitingTxCode f
  | Token, Issuance => exists f, issuance self = Oid4vci.RequestingToken f
  | Signature, Issuance => exists f p, issuance self = Oid4vci.ProvingPossession f p
  | Credential, Issuance => exists f, issuance self = Oid4vci.RequestingCredential f
  | TransferOfferPublished, WalletTransfer => w2w self = W2w.AwaitingTransfer
  | Signature, ProximityFlowKind =>
      exists t, prox_state (proximity self) = Proximity.SigningResponse t
  | Signature, DcApi => exists p, dc_presentation (dcapi self) = Some p
  | _, _ => False
  end.

(** A reader may hang up while a decision or a signature is pending. *)
Definition hung_up (self : Core) (kind : OperationResultKind) : Prop :=
  active self = ProximityFlowKind /\ prox_state (proximity self) = Proximity.Terminated
  /\ (kind = ProximityDecision \/ kind = Signature).

Definition awaits (self : Core) (op : PendingOperation) : Prop :=
  op_flow op = active self
  /\ ((exists screen, describes self (op_result op) screen
          /\ authorization_hash op = Some (Presenter.consent_hash screen))
      \/ expects self (op_result op)
      \/ hung_up self (op_result op)).

(** An operation belongs to the active flow, or is left over. *)
Definition placed (self : Core) (op : PendingOperation) : Prop :=
  stale op
  \/ (op_flow op = active self /\ active self <> NoFlow
      /\ (forall uri, op_result op = StatusList uri -> active self = Presentation)).

Definition mains (l : list PendingOperation) : list PendingOperation := List.filter main l.

(** The operations [l] fit the state: each belongs to the active flow, at most
    one drives a machine and that machine waits for it; status lists are
    awaited only between consent and signature; a reader session is part of the
    proximity flow. *)
Record fits (self : Core) (l : list PendingOperation) : Prop := {
  fits_placed : Forall (placed self) l;
  fits_main : mains l = [] \/ exists op, mains l = [op] /\ awaits self op;
  fits_status : pending_status_references self = []
    \/ (active self = Presentation /\ mains l = [] /\ is_validated (vp self) = true);
  fits_reader : prox_busy (prox_state (proximity self)) = true -> active self = ProximityFlowKind;
  fits_prox : forall r, prox_state (proximity self) <> Proximity.Aborted r;
}.

Definition pend (self : Core) : list PendingOperation := map snd (pending_operations self).

(** Identifiers grow and are never reused; at most 32 operations wait. *)
Record ids_ok (self : Core) : Prop := {
  ids_sorted : bt_ok (pending_operations self);
  ids_below : Forall (fun e => fst e < next_operation_id self) (pending_operations self);
  ids_few : len (pending_operations self) <= MAX_PENDING_OPERATIONS;
}.

Definition Inv (self : Core) : Prop := ids_ok self /\ fits self (pend self).

(** ** States between two operations *)

(** Enough to end the active flow or to start another. *)
Record base (self : Core) : Prop := {
  base_placed : Forall (placed self) (pend self);
  base_status : pending_status_references self = [] \/ active self = Presentation;
  base_reader : prox_busy (prox_state (proximity self)) = true -> active self = ProximityFlowKind;
  base_prox : forall r, prox_state (proximity self) <> Proximity.Aborted r;
}.

(** No operation drives a machine. *)
Record calm (self : Core) : Prop := {
  calm_base : base self;
  calm_main : mains (pend self) = [];
  calm_status : pending_status_references self = [];
}.

(** Nothing of a flow is left. *)
Record fresh (self : Core) : Prop := {
  fresh_stale : Forall stale (pend self);
  fresh_status : pending_status_references self = [];
  fresh_reader : prox_busy (prox_state (proximity self)) = false;
  fresh_prox : forall r, prox_state (proximity self) <> Proximity.Aborted r;
}.

(** Operations are only removed. *)
Definition kept (c c' : Core) : Prop :=
  sublist (pending_operations c') (pending_operations c) /\ next_operation_id c' = next_operation_id c.

#[export] Instance kept_preorder : PreOrder kept.
Proof.
  split.
  - intros c. by split.
  - intros a b c [H1 E1] [H2 E2]. split; [by etrans|congruence].
Qed.

Lemma ids_kept c c' : kept c c' -> ids_ok c -> ids_ok c'.
Proof.
  intros [Hs Hn] [H1 H2 H3]. split.
  - by eapply sorted_sublist.
  - rewrite Hn. by eapply Forall_sublist.
  - apply sublist_length in Hs. unfold len in *. lia.
Qed.

Lemma mains_app l k : mains (l ++ k) = mains l ++ mains k.
Proof. apply List.filter_app. Qed.

Lemma stale_not_main op : stale op -> main op = false.
Proof. intros [_ H]. unfold main, is_side. by rewrite H. Qed.

Lemma stale_no_mains l : Forall stale l -> mains l = [].
Proof. induction 1 as [|op l H _ IH]; cbn; [done|]. by rewrite stale_not_main. Qed.

Lemma fits_base self : fits self (pend self) -> base self.
Proof. intros [H1 H2 H3 H4 H5]. split; try done. destruct H3 as [|[]]; auto. Qed.

Lemma fresh_calm self : fresh self -> calm self.
Proof.
  intros [H1 H2 H3 H4]. split; [split| |]; auto using stale_no_mains.
  - eapply List.Forall_impl; [|exact H1]. by left.
  - by rewrite H3.
Qed.

Lemma calm_frame c c' :
  active c' = active c -> pending_operations c' = pending_operations c ->
  pending_status_references c' = pending_status_references c ->
  prox_state (proximity c') = prox_state (proximity c) -> calm c -> calm c'.
Proof.
  intros Ha Ho Hr Hp [[H1 H2 H3 H4] H5 H6]. unfold pend, placed in *.
  split; [split| |]; unfold pend, placed; rewrite ?Ha, ?Ho, ?Hr, ?Hp; done.
Qed.

(** ** Effects that leave *)

Definition is_silent (e : Effect) : bool :=
  match e with
  | Render (Consent _ | PaymentConfirmation _ | SignConfirmation _ | IssuanceOffer _
           | ProximityConsent _ | DcApiConsent _ _) => false
  | Render _ | EmitDeviceEngagement _ | EmitDeviceResponse _ | EmitDcApiResponse _ | Close => true
  | _ => false
  end.

Lemma silent_prepare self effects p :
  forallb is_silent effects = true -> prepare_effects self effects = Ok p -> operations_of p = [].
Proof.
  revert p. induction effects as [|e effects IH]; intros p H; [by intros [= <-]|].
  cbn in H. apply andb_prop in H as [He Hs]. cbn.
  assert (operation_result_for_effect self e = Ok None) as -> by (destruct e as [| |[]| | | | | | | | | | | | | |]; done).
  cbn. destruct (prepare_effects self effects) as [q|]; [|done]. intros [= <-]. cbn. by apply IH.
Qed.

(** What a step of a flow leaves behind: its effects, once they have left,
    again fit the state. *)
Definition settled (c : Core) (r : Reply) : Prop :=
  kept c (fst r) /\ base (fst r)
  /\ forall p, prepare_effects (fst r) (snd r) = Ok p -> fits (fst r) (pend (fst r) ++ operations_of p).

Lemma settle_ops c c' effects :
  kept c c' -> calm c' ->
  (forall p, prepare_effects c' effects = Ok p ->
     Forall (placed c') (operations_of p)
     /\ (mains (operations_of p) = [] \/ exists op, mains (operations_of p) = [op] /\ awaits c' op)) ->
  settled c (c', effects).
Proof.
  intros Hk [[H1 H2 H3 H4] H5 H6] Hp. split; [done|]. split; [done|]. cbn. intros p [Hf Hm]%Hp. split; try done.
  - by apply Forall_app.
  - by rewrite mains_app, H5.
  - by left.
Qed.

Lemma settle_quiet c c' effects :
  kept c c' -> calm c' -> forallb is_silent effects = true -> settled c (c', effects).
Proof.
  intros Hk Hc Hs. apply settle_ops; [done..|]. intros p Hp.
  rewrite (silent_prepare _ _ _ Hs Hp). split; [constructor|by left].
Qed.

(** A step that asks for one result of its flow. *)
Lemma settle_asks c c' effects op :
  kept c c' -> calm c' -> awaits c' op -> active c' <> NoFlow -> main op = true ->
  (forall p, prepare_effects c' effects = Ok p -> operations_of p = [op]) -> settled c (c', effects).
Proof.
  intros Hk Hc Ha Hn Hm Hp. apply settle_ops; [done..|]. intros p Eo%Hp. rewrite Eo. split.
  - constructor; [|constructor]. right. split; [apply Ha|]. split; [done|]. intros uri Hu.
    unfold main, is_side in Hm. by rewrite Hu in Hm.
  - right. exists op. cbn. by rewrite Hm.
Qed.

Lemma settled_same c c1 r : kept c c1 -> settled c1 r -> settled c r.
Proof. intros Hk (H1 & H2 & H3). split; [by etrans|done]. Qed.
End wire.

(** ** The boundaries of a flow *)

Definition other_flow (f : ActiveFlow) (e : Z * PendingOperation) : bool :=
  let '(_, pending) := e in negb (bool_decide (op_flow pending = f)).

Ltac flow_field := unfold reset_flow, finish_flow, clear_pending_operations, deactivate; cbn;
  match goal with |- context [match ?f with NoFlow => _ | _ => _ end] => destruct f end; cbn;
  try case_bool_decide; reflexivity.

Lemma reset_ops c f : pending_operations (reset_flow c f) = List.filter (other_flow f) (pending_operations c).
Proof. flow_field. Qed.
Lemma reset_next c f : next_operation_id (reset_flow c f) = next_operation_id c.
Proof. flow_field. Qed.
Lemma reset_active c f :
  active (reset_flow c f) = if bool_decide (active c = f) then NoFlow else active c.
Proof. flow_field. Qed.
Lemma reset_status c f :
  pending_status_references (reset_flow c f)
  = match f with Presentation => [] | _ => pending_status_references c end.
Proof. flow_field. Qed.
Lemma reset_prox c f :
  proximity (reset_flow c f) = match f with ProximityFlowKind => proximity_idle | _ => proximity c end.
Proof. flow_field. Qed.

Lemma finish_ops c f : pending_operations (finish_flow c f) = List.filter (other_flow f) (pending_operations c).
Proof. flow_field. Qed.
Lemma finish_next c f : next_operation_id (finish_flow c f) = next_operation_id c.
Proof. flow_field. Qed.
Lemma finish_active c f :
  active (finish_flow c f) = if bool_decide (active c = f) then NoFlow else active c.
Proof. flow_field. Qed.
Lemma finish_status c f :
  pending_status_references (finish_flow c f)
  = match f with Presentation => [] | _ => pending_status_references c end.
Proof. flow_field. Qed.
Lemma finish_prox_state c f : prox_state (proximity (finish_flow c f)) = prox_state (proximity c).
Proof. flow_field. Qed.

Lemma kept_reset c f : kept c (reset_flow c f).
Proof. split; [rewrite reset_ops; apply filter_sublist|apply reset_next]. Qed.

Lemma kept_finish c f : kept c (finish_flow c f).
Proof. split; [rewrite finish_ops; apply filter_sublist|apply finish_next]. Qed.

Lemma kept_remove c id : kept c (remove_pending c id).
Proof. split; [apply remove_sublist|done]. Qed.

Section boundaries.
Context `{JL : JsonLib} {JV : JsonValue} {SJ : SerdeJson} `{B64 : Base64} `{D : Digest} `{V : Verifier}
  `{X : X509Der} `{CV : CertVerifier} `{SB : StdBase64} `{PQ : MlDsa} `{INF : Inflate}
  {A : Aead} {K : Kdf} {E : Ecdh} {W : WireCodec}.

Lemma kept_begin c f : kept c (begin_flow c f).
Proof.
  unfold begin_flow. case_bool_decide.
  - change (kept c (reset_flow c f)). apply kept_reset.
  - transitivity (reset_flow c (active c)); [apply kept_reset|].
    change (kept (reset_flow c (active c)) (reset_flow (reset_flow c (active c)) f)). apply kept_reset.
Qed.

Lemma cleared_stale c ops :
  Forall (placed c) (map snd ops) -> Forall stale (map snd (List.filter (other_flow (active c)) ops)).
Proof.
  induction ops as [|[id op] ops IH]; cbn; intros H; [done|].
  apply Forall_cons_1 in H as [Ho Hs]. case_bool_decide as Hf; cbn; [by apply IH|].
  constructor; [|by apply IH]. destruct Ho as [Ho|[Ho _]]; [done|]. by rewrite Ho in Hf.
Qed.

Lemma not_busy c :
  base c -> active c <> ProximityFlowKind -> prox_busy (prox_state (proximity c)) = false.
Proof. intros H Hn. apply not_true_iff_false. intros Hb%(base_reader _ H). done. Qed.

Lemma reset_fresh c : base c -> fresh (reset_flow c (active c)).
Proof.
  intros H. pose proof H as [H1 H2 H3 H4]. split.
  - unfold pend. rewrite reset_ops. by apply cleared_stale.
  - rewrite reset_status. destruct H2 as [->| ->]; [|done]. by destruct (active c).
  - rewrite reset_prox. destruct (active c) eqn:Ea; try done; apply not_busy; congruence || done.
  - rewrite reset_prox. destruct (active c); done.
Qed.

Lemma reset_of c f : active c = f -> base c -> fresh (reset_flow c f).
Proof. intros <-. apply reset_fresh. Qed.

Lemma finish_of c f : active c = f -> f <> ProximityFlowKind -> base c -> fresh (finish_flow c f).
Proof.
  intros <- Hn H. pose proof H as [H1 H2 H3 H4]. split.
  - unfold pend. rewrite finish_ops. by apply cleared_stale.
  - rewrite finish_status. destruct H2 as [->| ->]; [|done]. by destruct (active c).
  - rewrite finish_prox_state. by apply not_busy.
  - by rewrite finish_prox_state.
Qed.

(** Any other flow may be reset as well. *)
Lemma reset_fresh_again c f : fresh c -> fresh (reset_flow c f).
Proof.
  intros [H1 H2 H3 H4]. split.
  - unfold pend. rewrite reset_ops. eapply Forall_sublist; [apply map_sublist, filter_sublist|done].
  - rewrite reset_status. by destruct f.
  - rewrite reset_prox. by destruct f.
  - rewrite reset_prox. by destruct f.
Qed.

Lemma idle_fresh c : active c = NoFlow -> base c -> fresh c.
Proof.
  intros Ha H. pose proof H as [H1 H2 H3 H4]. split; [| | |done].
  - eapply List.Forall_impl; [|exact H1]. intros op [Ho|(_ & Ho & _)]; [done|]. by rewrite Ha in Ho.
  - destruct H2 as [|H2]; [done|]. by rewrite Ha in H2.
  - apply not_busy; [done|]. by rewrite Ha.
Qed.

Lemma begin_fresh c f : base c -> fresh (begin_flow c f).
Proof.
  intros H. unfold begin_flow.
  assert (fresh (if bool_decide (active c = NoFlow) then c else reset_flow c (active c))) as Hf.
  { case_bool_decide; [by apply idle_fresh|by apply reset_fresh]. }
  destruct (reset_fresh_again _ f Hf) as [H1 H2 H3 H4]. by split.
Qed.

Lemma terminate_kept c f code message : kept c (fst (terminate_audited_flow c f code message)).
Proof.
  cbn. case_match; [|apply kept_reset]. transitivity (reset_flow c (active c)); apply kept_reset.
Qed.

Lemma terminate_fresh c f code message : base c -> fresh (fst (terminate_audited_flow c f code message)).
Proof.
  intros H. cbn. case_match eqn:Hn; [by apply reset_fresh_again, reset_fresh|].
  apply andb_false_iff in Hn as [Hn|Hn]; apply negb_false_iff, bool_decide_eq_true in Hn.
  - by apply reset_fresh_again, idle_fresh.
  - by apply reset_of.
Qed.

Lemma terminate_settles c f code message :
  base c -> settled c (terminate_audited_flow c f code message).
Proof.
  intros H. apply settle_quiet; [apply (terminate_kept c f code message)| |done]. apply fresh_calm. by apply (terminate_fresh c f code message).
Qed.

Lemma error_silent reason : forallb is_silent (unwrap_or (presentation_error_effects reason) []) = true.
Proof. by destruct reason. Qed.

Lemma abort_kept c reason : kept c (fst (abort_presentation c reason)).
Proof. split; [apply filter_sublist|done]. Qed.

Lemma abort_fresh c reason :
  active c = Presentation -> base c -> fresh (fst (abort_presentation c reason)).
Proof.
  intros Ha [H1 H2 H3 H4]. split; [|done| |done].
  - change (Forall stale (map snd (List.filter (other_flow Presentation) (pending_operations c)))).
    rewrite <- Ha. by apply cleared_stale.
  - cbn. apply not_true_iff_false. intros Hb%H3. congruence.
Qed.

Lemma abort_settles c reason :
  active c = Presentation -> base c -> settled c (abort_presentation c reason).
Proof.
  intros Ha Hb. apply settle_quiet; [apply (abort_kept c reason)| |apply error_silent].
  by apply fresh_calm, (abort_fresh c reason).
Qed.
End boundaries.

(** ** Serialising effects *)

(** A core that agrees on what the flows wait for. *)
Record alike (c c' : Core) : Prop := {
  alike_active : active c' = active c;
  alike_status : pending_status_references c' = pending_status_references c;
  alike_vp : vp c' = vp c;
  alike_session : session c' = session c;
  alike_payment : payment c' = payment c;
  alike_pay : pay_pending c' = pay_pending c;
  alike_qes : qes c' = qes c;
  alike_qes_hash : qes_consent_hash c' = qes_consent_hash c;
  alike_issuance : issuance c' = issuance c;
  alike_issuers : issuer_candidates_current c' = issuer_candidates_current c;
  alike_w2w : w2w c' = w2w c;
  alike_prox : prox_state (proximity c') = prox_state (proximity c);
  alike_shown : prox_presentation (proximity c') = prox_presentation (proximity c);
  alike_dcapi : dcapi c' = dcapi c;
}.

Section serialising.
Context `{JL : JsonLib} {JV : JsonValue} {SJ : SerdeJson} `{B64 : Base64} `{D : Digest} `{V : Verifier}
  `{X : X509Der} `{CV : CertVerifier} `{SB : StdBase64} `{PQ : MlDsa} `{INF : Inflate}
  {A : Aead} {K : Kdf} {E : Ecdh} {W : WireCodec}.

Lemma alike_describes c c' kind screen : alike c c' -> describes c kind screen -> describes c' kind screen.
Proof.
  intros [Ha Hr Hv Hs Hp Hpp Hq Hqh Hi Hc Hw Hx Hy Hd].
  unfold describes, offers, portrait_is_required, proximity_screen, consent_screen, consent_of.
  by rewrite Ha, Hv, Hs, Hp, Hpp, Hq, Hqh, Hi, Hc, Hx, Hy, Hd.
Qed.

Lemma alike_awaits c c' op : alike c c' -> awaits c op -> awaits c' op.
Proof.
  intros H [Hf Ha]. split; [by rewrite (alike_active _ _ H)|].
  destruct Ha as [(screen & Hd & Hh)|[He|Hu]].
  - left. exists screen. split; [by eapply alike_describes|done].
  - right. left. destruct H as [Ha Hr Hv Hs Hp Hpp Hq Hqh Hi Hc Hw Hx Hy Hd]. unfold expects.
    by rewrite Ha, Hv, Hp, Hpp, Hq, Hi, Hw, Hx, Hd.
  - right. right. destruct H. unfold hung_up in *. by rewrite alike_active0, alike_prox0.
Qed.

Lemma alike_fits c c' l : alike c c' -> fits c l -> fits c' l.
Proof.
  intros H [H1 H2 H3 H4 H5]. pose proof H as [Ha Hr Hv Hs Hp Hpp Hq Hqh Hi Hc Hw Hx Hy Hd]. split.
  - eapply List.Forall_impl; [|exact H1]. unfold placed. by rewrite Ha.
  - destruct H2 as [|(op & E1 & E2)]; [by left|right]. exists op. eauto using alike_awaits.
  - by rewrite Ha, Hr, Hv.
  - by rewrite Ha, Hx.
  - by rewrite Hx.
Qed.

Lemma stage_numbered n prepared values staged :
  stage n prepared = Ok (values, staged) -> staged = number n (operations_of prepared).
Proof.
  revert n values staged. induction prepared as [|[e [op|]] prepared IH]; intros n values staged; cbn.
  - by intros [= _ <-].
  - destruct (json_object (effect_to_value e)); [|done]. cbn.
    destruct (stage (n + 1) prepared) as [[vs st]|] eqn:Es; [|done]. intros [= _ <-].
    by rewrite (IH _ _ _ Es).
  - destruct (stage n prepared) as [[vs st]|] eqn:Es; [|done]. intros [= _ <-]. by eapply IH.
Qed.

(** What leaves is appended under the next identifiers, and leaves whole or
    not at all. *)
Lemma serialize_ok c effects c' json :
  ids_ok c -> serialize_wire_effects c effects = (c', Ok json) ->
  exists p, prepare_effects c effects = Ok p
    /\ c' = {| c with next_operation_id := next_operation_id c + len (operations_of p);
                      pending_operations := pending_operations c
                        ++ number (next_operation_id c) (operations_of p) |}
    /\ len (pending_operations c) + len (operations_of p) <= MAX_PENDING_OPERATIONS.
Proof.
  intros Hi. unfold serialize_wire_effects.
  destruct (prepare_effects c effects) as [p|] eqn:Ep; [|done]. cbn.
  destruct (MAX_PENDING_OPERATIONS <? _) eqn:Em; [done|].
  destruct (U64_MAX <? _); [done|]. destruct (_ && _); [done|].
  destruct (stage _ p) as [[vs st]|] eqn:Es; [|done]. cbn. intros [= <- _].
  exists p. split; [done|]. apply stage_numbered in Es as ->.
  rewrite extend_numbered by apply Hi. split; [done|]. lia.
Qed.

Lemma serialize_err c effects c' e : serialize_wire_effects c effects = (c', Err e) -> c' = c.
Proof.
  unfold serialize_wire_effects. destruct (let? _ := _ in _) as [[[n st] j]|]; [done|]. by intros [= ->].
Qed.

Lemma serialize_Inv c r c' json :
  ids_ok c -> settled c r -> serialize_wire_effects (fst r) (snd r) = (c', Ok json) ->
  Inv c' /\ next_operation_id c <= next_operation_id c'.
Proof.
  intros Hi (Hk & _ & Hs) H. pose proof (ids_kept _ _ Hk Hi) as Hi'.
  apply (serialize_ok _ _ _ _ Hi') in H as (p & Hp & -> & Hm). destruct Hk as [Hk Hn].
  specialize (Hs p Hp). pose proof (len_nonneg (operations_of p)). split; [|cbn; lia]. destruct Hi' as [I1 I2 I3]. split.
  - split; cbn.
    + eapply sorted_append; [done|apply number_sorted|done|].
      eapply List.Forall_impl; [|apply number_range]. cbn. lia.
    + apply Forall_app. split.
      * eapply List.Forall_impl; [|exact I2]. cbn. lia.
      * eapply List.Forall_impl; [|apply number_range]. cbn. lia.
    + rewrite len_app. rewrite <- (number_snd (next_operation_id (fst r)) (operations_of p)) in Hm.
      unfold len in *. rewrite length_map in Hm. lia.
  - unfold pend. cbn. rewrite map_app, number_snd. eapply alike_fits; [|exact Hs]. by split.
Qed.

(** Tearing down leaves a state that fits, with nothing pending. *)
Lemma tear_down_Inv c : base c -> Inv (tear_down c).
Proof.
  intros Hb. unfold tear_down.
  assert (fresh (if bool_decide (active c = NoFlow) then c else reset_flow c (active c))) as Hf.
  { case_bool_decide; [by apply idle_fresh|by apply reset_fresh]. }
  destruct Hf as [H1 H2 H3 H4]. split.
  - split; cbn; [constructor..|done].
  - split; cbn; [constructor|by left|by left|by rewrite H3|done].
Qed.
End serialising.
