(* ===== verification/WireFlows.v ===== *)
(** * The flows and their operations

    Each driver of the facade, started where its machine waits for the input,
    leaves effects that fit the state again: what it asks the shell for is what
    the machine now waits for. *)

From stdpp Require Import list.
From S2P Require Import Cbor Cose Mdoc Oid4vp Dcql Payment Oid4vci Qes W2w Proximity Status Wua.
From S2P Require Import TxnLog Trust SdJwt Presenter Sealing ProximitySession DcApiRequests.
From S2P Require Import Prelude Utf8 BTree Boundary Serde SdJwtProcess Catalogue X509 X509Path.
From S2P Require Import PidProfile Holdings CredentialChecks WalletCore Ingestion Summaries.
From S2P Require Import Selection QuerySelection Responses Effects Facade Dispatch Wire WireOps.

Open Scope Z_scope.
Open Scope rust_scope.

(** Fields that every flow shares. *)
Record framed (c c' : Core) : Prop := {
  framed_active : active c' = active c;
  framed_ops : pending_operations c' = pending_operations c;
  framed_next : next_operation_id c' = next_operation_id c;
  framed_status : pending_status_references c' = pending_status_references c;
  framed_prox : prox_state (proximity c') = prox_state (proximity c);
}.

Lemma framed_kept c c' : framed c c' -> kept c c'.
Proof. intros [H1 H2 H3 H4 H5]. split; [by rewrite H2|done]. Qed.

#[export] Instance framed_preorder : PreOrder framed.
Proof. split; [by split|]. intros a b c [] []. split; congruence. Qed.

Section flows.
Context `{JL : JsonLib} {JV : JsonValue} {SJ : SerdeJson} `{B64 : Base64} `{D : Digest} `{V : Verifier}
  `{X : X509Der} `{CV : CertVerifier} `{SB : StdBase64} `{PQ : MlDsa} `{INF : Inflate}
  {A : Aead} {K : Kdf} {E : Ecdh} {W : WireCodec}.

Lemma framed_calm c c' : framed c c' -> calm c -> calm c'.
Proof. intros [H1 H2 H3 H4 H5]. by apply calm_frame. Qed.

Lemma framed_quiet c c' effects :
  framed c c' -> calm c -> forallb is_silent effects = true -> settled c (c', effects).
Proof. intros Hf Hc. apply settle_quiet; [by apply framed_kept|by eapply framed_calm]. Qed.

(** The flow ends. *)
Lemma reset_quiet c c' f effects :
  framed c c' -> calm c -> active c = f -> forallb is_silent effects = true ->
  settled c (reset_flow c' f, effects).
Proof.
  intros Hf Hc Ha. apply settle_quiet.
  - transitivity c'; [by apply framed_kept|apply kept_reset].
  - apply fresh_calm, reset_of; [by rewrite (framed_active _ _ Hf)|].
    by apply calm_base, (framed_calm c).
Qed.

Lemma framed_base c c' : framed c c' -> base c -> base c'.
Proof.
  intros [F1 F2 F3 F4 F5] [H1 H2 H3 H4]. unfold pend, placed in *.
  split; unfold pend, placed; rewrite ?F1, ?F2, ?F4, ?F5; done.
Qed.

Lemma finish_base c c' f effects :
  framed c c' -> base c -> active c = f -> f <> ProximityFlowKind -> forallb is_silent effects = true ->
  settled c (finish_flow c' f, effects).
Proof.
  intros Hf Hb Ha Hn. apply settle_quiet.
  - transitivity c'; [by apply framed_kept|apply kept_finish].
  - apply fresh_calm, finish_of; [by rewrite (framed_active _ _ Hf)|done|by eapply framed_base].
Qed.

Lemma finish_quiet c c' f effects :
  framed c c' -> calm c -> active c = f -> f <> ProximityFlowKind -> forallb is_silent effects = true ->
  settled c (finish_flow c' f, effects).
Proof. intros Hf Hc. by apply finish_base, calm_base. Qed.

Lemma terminate_quiet c c' f code message :
  framed c c' -> calm c -> settled c (terminate_audited_flow c' f code message).
Proof.
  intros Hf Hc. eapply settled_same; [by apply framed_kept|]. apply terminate_settles.
  by apply calm_base, (framed_calm c).
Qed.

(** The log is at fault: nothing of the flow is left. *)
Lemma fault_fresh c c' f :
  framed c c' -> base c ->
  let r := audit_log_fault_effects c' f in
  kept c (fst r) /\ fresh (fst r) /\ forallb is_silent (snd r) = true.
Proof.
  intros Hf Hc. unfold audit_log_fault_effects.
  set (c1 := {| c' with audit_log_available := false |}).
  assert (framed c c1) as Hf1 by (destruct Hf; by split). clearbody c1.
  split; [|split; [|done]].
  - transitivity c1; [by apply framed_kept|apply terminate_kept].
  - by apply terminate_fresh, (framed_base c).
Qed.

Lemma fault_settles c c' f : framed c c' -> calm c -> settled c (audit_log_fault_effects c' f).
Proof.
  intros Hf Hc. destruct (fault_fresh c c' f Hf (calm_base _ Hc)) as (H1 & H2 & H3).
  rewrite (surjective_pairing (audit_log_fault_effects c' f)).
  apply settle_quiet; [done|by apply fresh_calm|done].
Qed.

Lemma prepare_screen c screen kind hash p :
  screen_decision c screen = Some (kind, hash) -> prepare_effects c [Render screen] = Ok p ->
  operations_of p = [{| op_flow := active c; op_result := kind;
                        authorization_hash := Some (Presenter.consent_hash screen) |}].
Proof.
  intros Hs. cbn -[Presenter.consent_hash screen_decision]. rewrite Hs. cbn -[Presenter.consent_hash].
  destruct hash as [h|]; [|done]. cbn -[Presenter.consent_hash]. case_bool_decide as He; [|done].
  intros [= <-]. cbn -[Presenter.consent_hash]. by rewrite He.
Qed.

(** The step asks for a decision on a screen. *)
Lemma settle_screen c c' screen kind hash :
  kept c c' -> calm c' -> active c' <> NoFlow -> describes c' kind screen ->
  screen_decision c' screen = Some (kind, hash) -> settled c (c', [Render screen]).
Proof.
  intros Hk Hc Hn Hd Hs.
  eapply settle_asks with (op := {| op_flow := active c'; op_result := kind;
    authorization_hash := Some (Presenter.consent_hash screen) |}); [done|done| |done| |].
  - split; [done|]. left. by exists screen.
  - by destruct kind.
  - intros p. by apply (prepare_screen _ _ _ hash).
Qed.

(** The step asks for a result its machine expects. *)
Lemma settle_expects c c' effects kind :
  kept c c' -> calm c' -> active c' <> NoFlow -> expects c' kind ->
  (forall p, prepare_effects c' effects = Ok p ->
     operations_of p = [{| op_flow := active c'; op_result := kind; authorization_hash := None |}]) ->
  settled c (c', effects).
Proof.
  intros Hk Hc Hn He Hp. eapply settle_asks; [done|done| |done| |exact Hp].
  - split; [done|]. right. by left.
  - destruct kind; try done; unfold expects in He; by destruct (active c').
Qed.

(** ** Payment *)

Lemma note_payment_frame c s :
  let c1 := note_payment {| c with payment := s |} in
  framed c c1 /\ payment c1 = s
  /\ pay_pending c1 = match s with
                      | Payment.AwaitingConfirmation r => Some (Payment.response_uri r, Payment.nonce r)
                      | _ => pay_pending c
                      end.
Proof. unfold note_payment. cbn. destruct s; cbn; try done. by destruct (pay_pending c) as [[u n]|]. Qed.

Lemma reset_payment c : payment (reset_flow c Payment) = Payment.Idle.
Proof. unfold reset_flow, deactivate. by case_match. Qed.

Lemma candidate_payment c :
  active c = Payment -> payment (fst (audit_log_candidate_rejection_effects c Payment)) = Payment.Idle.
Proof. intros _. apply reset_payment. Qed.

(** The moves of the payment machine. *)
Inductive pay_move (s : Payment.State) : Payment.State -> list Payment.Output -> Prop :=
| pay_stays : pay_move s s []
| pay_aborts reason outputs :
    outputs = [] \/ outputs = [Payment.Close] -> pay_move s (Payment.Aborted reason) outputs
| pay_confirms r : pay_move s (Payment.AwaitingConfirmation r) [Payment.confirmation r]
| pay_signs r b key :
    s = Payment.AwaitingConfirmation r ->
    pay_move s (Payment.AwaitingSca {| Payment.request := r; Payment.binding := b |})
      [Payment.SignAuthCode key b]
| pay_sends sig : pay_move s (Payment.Authorized sig) [Payment.SendAuthorization sig; Payment.Close].

Lemma pay_moves s i e : pay_move s (fst (Payment.step s i e)) (snd (Payment.step s i e)).
Proof.
  destruct s, i; cbn; try constructor; auto. case_match; [|constructor; auto].
  repeat (case_match; [constructor; auto|]). constructor.
Qed.

Lemma drive_payment_settles c input :
  calm c -> active c = Payment ->
  (forall r, payment c = Payment.AwaitingConfirmation r ->
             pay_pending c = Some (Payment.response_uri r, Payment.nonce r)) ->
  settled c (drive_payment c input).
Proof.
  intros Hc Ha Hp. unfold drive_payment.
  pose proof (pay_moves (payment c) input {| Payment.seen_nonces := pay_seen_nonces c;
                Payment.device_key_ref := device_key_ref (config c) |}) as Hm.
  destruct (Payment.step _ _ _) as [next outputs]. cbn in Hm.
  destruct (note_payment_frame c next) as (Hf & Hs & Hq). revert Hf Hs Hq.
  generalize (note_payment {| c with payment := next |}). intros c1 Hf Hs Hq.
  pose proof (framed_calm _ _ Hf Hc) as Hc1. pose proof (framed_kept _ _ Hf) as Hk1.
  assert (active c1 = Payment) as Ha1 by (rewrite <- Ha; apply Hf).
  destruct Hm as [|reason outputs Ho|r|r b key Hr|sig].
  - cbn. rewrite Hs. destruct (payment c) as [|r|p|b|reason]; try by apply framed_quiet.
    apply reset_quiet; [done..|]. by destruct reason.
  - destruct Ho as [-> | ->]; cbn; rewrite !Hs; apply reset_quiet; try done; by destruct reason.
  - cbn -[check_audit_entry]. destruct (is_ok (check_audit_entry c1 _)).
    + cbn. rewrite Hs. eapply settle_screen; [done| | | |done].
      * by eapply framed_calm; [|exact Hc1].
      * cbn. by rewrite Ha1.
      * split; [done|]. by exists r.
    + pose proof (terminate_quiet c c1 Payment "audit_log_entry_invalid"
        "This operation contains activity details that cannot be recorded safely." Hf Hc) as Ht.
      fold (audit_log_candidate_rejection_effects c1 Payment) in Ht.
      pose proof (candidate_payment c1 Ha1) as Hi.
      destruct (audit_log_candidate_rejection_effects c1 Payment) as [c2 eff]. cbn in Hi |- *.
      rewrite Hi, app_nil_r. done.
  - cbn. rewrite Hs. eapply settle_expects with (kind := Signature); [done..|by rewrite Ha1| |].
    + unfold expects. rewrite Ha1. eexists. split; [exact Hs|]. cbn. rewrite Hq. by apply Hp.
    + intros p. cbn. by intros [= <-].
  - cbn. rewrite !Hs. cbn. eapply settle_expects with (kind := PaymentDelivery); [done..|by rewrite Ha1| |].
    + unfold expects. rewrite Ha1. by exists sig.
    + intros p. cbn. unfold http_delivery. rewrite Ha1. cbn. case_bool_decide; [|done]. intros [= <-]. cbn. by rewrite Ha1.
Qed.

(** ** Qualified signatures *)

Inductive qes_move (s : Qes.QesState) (hash : bytes) : Qes.QesState -> list Qes.Output -> Prop :=
| qes_stays : qes_move s hash s []
| qes_aborts reason : qes_move s hash (Qes.Aborted reason) []
| qes_confirms r : qes_move s hash (Qes.AwaitingAuthorization r) [Qes.confirmation r]
| qes_signs r key b :
    s = Qes.AwaitingAuthorization r ->
    qes_move s hash (Qes.AwaitingSca {| Qes.request := r; Qes.pending_consent_hash := hash |})
      [Qes.SignAuthorization key b]
| qes_sends sig : qes_move s hash (Qes.Signed sig) [Qes.SendToQtsp sig; Qes.Close].

Lemma qes_moves s i e :
  qes_move s (Qes.consent_hash e) (fst (Qes.step s i e)) (snd (Qes.step s i e)).
Proof.
  destruct s, i; cbn; try constructor; auto. case_match; [|constructor; auto].
  repeat (case_match; [constructor; auto|]). constructor.
Qed.

Lemma note_qes_frame c s :
  let c1 := note_qes {| c with qes := s |} in
  framed c c1 /\ qes c1 = s /\ qes_consent_hash c1 = qes_consent_hash c.
Proof. unfold note_qes. cbn. by destruct s. Qed.

Lemma drive_qes_settles c input :
  calm c -> active c = QesFlow ->
  (forall r, qes c = Qes.AwaitingAuthorization r ->
             qes_consent_hash c = Presenter.consent_hash (signing_screen r)) ->
  settled c (drive_qes c input).
Proof.
  intros Hc Ha Hp. unfold drive_qes.
  pose proof (qes_moves (qes c) input {| Qes.seen_nonces := qes_seen_nonces c;
    Qes.device_key_ref := device_key_ref (config c); Qes.consent_hash := qes_consent_hash c |}) as Hm.
  destruct (Qes.step _ _ _) as [next outputs]. cbn in Hm.
  destruct (note_qes_frame c next) as (Hf & Hs & Hq). revert Hf Hs Hq.
  generalize (note_qes {| c with qes := next |}). intros c1 Hf Hs Hq.
  pose proof (framed_calm _ _ Hf Hc) as Hc1. pose proof (framed_kept _ _ Hf) as Hk1.
  assert (active c1 = QesFlow) as Ha1 by (rewrite <- Ha; apply Hf).
  destruct Hm as [|reason|r|r key b Hr|sig].
  - cbn. rewrite Hs. destruct (qes c) as [|r|p|b|reason]; try by apply framed_quiet.
    destruct reason; by apply reset_quiet.
  - cbn. rewrite Hs. destruct reason; by apply reset_quiet.
  - cbn. rewrite Hs. eapply settle_screen; [done| | | |done].
    + by eapply framed_calm; [|exact Hc1].
    + cbn. by rewrite Ha1.
    + split; [done|]. split; [|done]. by exists r.
  - cbn. rewrite Hs. eapply settle_expects with (kind := Signature); [done..|by rewrite Ha1| |].
    + unfold expects. rewrite Ha1. eexists. split; [exact Hs|]. cbn. by apply Hp.
    + intros p. cbn. by intros [= <-].
  - cbn. rewrite !Hs. cbn. eapply settle_expects with (kind := QesDelivery); [done..|by rewrite Ha1| |].
    + unfold expects. rewrite Ha1. by exists sig.
    + intros p. cbn. unfold http_delivery. rewrite Ha1. cbn. case_bool_decide; [|done].
      intros [= <-]. cbn. by rewrite Ha1.
Qed.

(** ** Wallet-to-wallet transfer *)

Lemma reset_w2w c : w2w (reset_flow c WalletTransfer) = W2w.Idle.
Proof. unfold reset_flow, deactivate. by case_match. Qed.

Lemma fault_w2w c : w2w (fst (audit_log_fault_effects c WalletTransfer)) = W2w.Idle.
Proof. apply reset_w2w. Qed.

Lemma append_frame c entry : framed c (fst (append_audit_entry c entry)) /\ w2w (fst (append_audit_entry c entry)) = w2w c
  /\ issuance (fst (append_audit_entry c entry)) = issuance c.
Proof. unfold append_audit_entry. by destruct (TxnLog.append (log c) entry) as [l [[]|e]]. Qed.

(** A transfer that arrives ends the flow, whatever it waited for. *)
Lemma receive_settles c issuer_valid peer_bound b :
  base c -> active c = WalletTransfer ->
  settled c (drive_w2w c (W2w.TransferReceived issuer_valid peer_bound b)).
Proof.
  intros Hb Ha. unfold drive_w2w. destruct (W2w.step _ _) as [next outputs] eqn:Es.
  set (c1 := {| c with w2w := next |}).
  assert (framed c c1) as Hf by done. assert (w2w c1 = next) as Hs by done. clearbody c1.
  assert ((outputs = [] /\ next <> W2w.Idle /\ next <> W2w.AwaitingTransfer)
          \/ exists b, next = W2w.Accepted b /\ outputs = [W2w.StoreCredential b; W2w.Close]) as Hm.
  { destruct (w2w c), issuer_valid, peer_bound; cbn in Es; injection Es as <- <-; eauto; by left. }
  destruct Hm as [(-> & Hi & Hw)|(b' & -> & ->)].
  - cbn. rewrite Hs. destruct next; try done; by apply finish_base.
  - cbn [translate_each translate_w2w].
    pose proof (append_frame c1 (transfer_entry c1 (sha256 b'))) as (Hg & Hw & _).
    destruct (append_audit_entry c1 _) as [c2 [[]|e]]; cbn [fst] in Hg, Hw; cbn [app w2w].
    + rewrite Hw, Hs. apply finish_base; try done. etrans; [exact Hf|]. etrans; [exact Hg|]. by split.
    + destruct (fault_fresh c c2 WalletTransfer) as (H1 & H2 & H3); [by etrans|done|].
      pose proof (fault_w2w c2) as Hi.
      destruct (audit_log_fault_effects c2 WalletTransfer) as [c3 eff]. cbn [fst snd] in H1, H2, H3, Hi.
      rewrite Hi. apply settle_quiet; [done|by apply fresh_calm|]. by rewrite forallb_app, H3.
Qed.

Lemma offer_settles c :
  calm c -> active c = WalletTransfer -> settled c (drive_w2w c W2w.CreateOffer).
Proof.
  intros Hc Ha. unfold drive_w2w. destruct (w2w c) eqn:Ew; cbn.
  - eapply settle_expects with (kind := TransferOfferPublished); [done| | | |intros q; cbn; by intros [= <-]].
    + by eapply framed_calm; [|exact Hc].
    + cbn. by rewrite Ha.
    + unfold expects. cbn. by rewrite Ha.
  - by apply framed_quiet.
  - by apply finish_quiet.
  - by apply finish_quiet.
Qed.

(** ** Digital Credentials API *)

Lemma dcapi_request_settles c request origin :
  base c -> settled c (dcapi_request_received c request origin).
Proof.
  intros Hb. unfold dcapi_request_received.
  pose proof (kept_begin c DcApi) as Hk. pose proof (fresh_calm _ (begin_fresh c DcApi Hb)) as Hc.
  assert (active (begin_flow c DcApi) = DcApi) as Ha by done.
  revert Hk Hc Ha. generalize (begin_flow c DcApi). intros c1 Hk Hc Ha. eapply settled_same; [exact Hk|].
  destruct (let! _ := _ in _) as [p|].
  - eapply settle_screen; [done| | | |done].
    + by eapply framed_calm; [|exact Hc].
    + cbn. by rewrite Ha.
    + split; [done|]. by exists p, origin.
  - by apply reset_quiet.
Qed.

Lemma dcapi_consent_settles c :
  calm c -> active c = DcApi -> settled c (dcapi_consent_granted c).
Proof.
  intros Hc Ha. unfold dcapi_consent_granted. destruct (dc_presentation (dcapi c)) as [p|] eqn:Ep.
  - eapply settle_expects with (kind := Signature); [done..|by rewrite Ha| |].
    + unfold expects. rewrite Ha. by exists p.
    + intros q. cbn. by intros [= <-].
  - by apply reset_quiet.
Qed.

Lemma dcapi_signature_settles c signature :
  calm c -> active c = DcApi -> settled c (dcapi_signature_produced c signature).
Proof.
  intros Hc Ha. unfold dcapi_signature_produced. apply finish_quiet; try done.
  by destruct (dc_presentation (dcapi c)).
Qed.

(** ** Issuance *)

Inductive vci_move (s : Oid4vci.State) : Oid4vci.State -> list Oid4vci.Output -> Prop :=
| vci_stays : vci_move s s []
| vci_aborts reason outputs :
    outputs = [] \/ outputs = [Oid4vci.Close] -> vci_move s (Oid4vci.Aborted reason) outputs
| vci_issues f b : vci_move s (Oid4vci.CredentialIssued f b) [Oid4vci.Close]
| vci_reviews g f : vci_move s (Oid4vci.ReviewingOffer g f) [Oid4vci.ReviewOffer f]
| vci_pushes g f : vci_move s (Oid4vci.OfferParsed g f) [Oid4vci.PushPar]
| vci_opens f : vci_move s (Oid4vci.Authorizing f) [Oid4vci.OpenAuthBrowser]
| vci_prompts f : vci_move s (Oid4vci.AwaitingTxCode f) [Oid4vci.PromptTxCode]
| vci_tokens f : vci_move s (Oid4vci.RequestingToken f) [Oid4vci.RequestToken]
| vci_proves f p key b : vci_move s (Oid4vci.ProvingPossession f p) [Oid4vci.SignProof key b]
| vci_requests f b : vci_move s (Oid4vci.RequestingCredential f) [Oid4vci.RequestCredential b].

Lemma vci_moves s i e : vci_move s (fst (Oid4vci.step s i e)) (snd (Oid4vci.step s i e)).
Proof.
  destruct s as [|g f|g f| | | | | | |], i; cbn; try (constructor; auto; fail).
  all: repeat case_match; cbn; constructor; auto.
Qed.

Lemma before_close_silent e effects :
  is_silent e = true -> forallb is_silent effects = true -> forallb is_silent (before_close e effects) = true.
Proof.
  intros He. induction effects as [|x effects IH]; cbn; [by rewrite He|].
  intros [Hx Hs]%andb_prop. destruct (is_close x); cbn; rewrite ?He, Hx; cbn; auto.
Qed.

Lemma preparing_silent c input : forallb is_silent (preparing_effects c input) = true.
Proof. unfold preparing_effects. case_match; [|done]. by case_match. Qed.

Definition is_over (s : Oid4vci.State) : bool := is_issued s || is_vci_aborted s.

Lemma settle_over c c' issued aborted effects :
  framed c c' -> calm c -> active c = Issuance -> is_over (issuance c') = true ->
  forallb is_silent effects = true -> settled c (settle_issuance c' issued aborted effects).
Proof.
  intros Hf Hc Ha Ho Hs. unfold settle_issuance. destruct (issuance c'); try done.
  - apply finish_quiet; try done. destruct issued; [done|]. unfold ready_effects.
    case_match; [|done]. by apply before_close_silent.
  - destruct aborted; [by apply finish_quiet|]. apply finish_quiet; try done. by destruct reason.
Qed.

(** The issued credential is stored, refused, or the log cannot take it. *)
Lemma store_issued_settles c c' f b issued aborted effects :
  framed c c' -> calm c -> active c = Issuance -> issuance c' = Oid4vci.CredentialIssued f b ->
  forallb is_silent effects = true ->
  settled c match store_issued c' with
            | Err reply => reply
            | Ok self => settle_issuance self issued aborted effects
            end.
Proof.
  intros Hf Hc Ha Hi Hs. unfold store_issued. rewrite Hi. cbv zeta.
  destruct (pending_verified_credential c') as [v|].
  2: { apply settle_over; try done. etrans; [exact Hf|by split]. }
  case_bool_decide.
  2: { apply settle_over; try done. etrans; [exact Hf|by split]. }
  set (c1 := {| c' with issuance := Oid4vci.CredentialIssued f b; pending_verified_credential := None |}).
  unfold record_issuance.
  assert (framed c c1) as Hf1 by (etrans; [exact Hf|by split]).
  assert (is_over (issuance c1) = true) as Ho by done. clearbody c1.
  destruct (append_frame c1 (completed_entry c1 TxnLog.Issuance (issuer_id_current c1) ZERO32
    [format_name f] None)) as (Hg & _ & Hii).
  destruct (append_audit_entry c1 _) as [c2 [[]|e]]; cbn [fst] in Hg, Hii.
  - apply settle_over; try done.
    + etrans; [exact Hf1|]. etrans; [exact Hg|]. unfold store_verified_credential. by case_match.
    + unfold store_verified_credential. destruct (credential v); cbn; by rewrite Hii.
  - apply fault_settles; [|done]. by etrans.
Qed.

Lemma settled_after_silent c c' before effects :
  forallb is_silent before = true -> settled c (c', effects) -> settled c (c', before ++ effects).
Proof.
  intros Hb (H1 & H2 & H3). split; [done|]. split; [done|]. cbn in *. intros p Hp.
  assert (exists q, prepare_effects c' effects = Ok q /\ operations_of p = operations_of q) as (q & Hq & ->);
    [|by apply H3].
  revert p Hp. induction before as [|e before IH]; intros p Hp; [by exists p|].
  cbn in Hb. apply andb_prop in Hb as [He Hb]. cbn in Hp.
  assert (operation_result_for_effect c' e = Ok None) as Hn
    by (destruct e as [| |[]| | | | | | | | | | | | | |]; done).
  rewrite Hn in Hp. cbn in Hp. destruct (prepare_effects c' (before ++ effects)) as [q|] eqn:Eq; [|done].
  injection Hp as <-. exact (IH Hb q eq_refl).
Qed.

(** Only a credential that has just been issued is stored. *)
Lemma nothing_stored c' issued :
  issued = true \/ is_issued (issuance c') = false ->
  (if issued : bool then Ok c' else store_issued c') = Ok c'.
Proof. intros [-> | H]; [done|]. destruct issued; [done|]. unfold store_issued. by destruct (issuance c'). Qed.

(** A state that is not terminal keeps its effects. *)
Lemma proceeds c' issued aborted effects :
  is_over (issuance c') = false ->
  match (if issued : bool then Ok c' else store_issued c') with
  | Err reply => reply
  | Ok self => settle_issuance self issued aborted effects
  end = (c', effects).
Proof.
  intros Ho. rewrite nothing_stored.
  - unfold settle_issuance. by destruct (issuance c').
  - right. by destruct (issuance c').
Qed.

Lemma offer_screen_offers c f : exists s, offer_screen c f = IssuanceOffer s /\ offers c f s.
Proof. unfold offer_screen, offers. destruct (display_document f) as [d fm]. eauto. Qed.

Lemma vci_asks c c' before effects kind issued aborted :
  framed c c' -> calm c -> active c = Issuance -> expects c' kind -> is_over (issuance c') = false ->
  forallb is_silent before = true ->
  (forall p, prepare_effects c' effects = Ok p ->
     operations_of p = [{| op_flow := active c'; op_result := kind; authorization_hash := None |}]) ->
  settled c match (if issued : bool then Ok c' else store_issued c') with
            | Err reply => reply
            | Ok self => settle_issuance self issued aborted (before ++ effects)
            end.
Proof.
  intros Hf Hc Ha He Ho Hb Hp. rewrite proceeds by done. apply settled_after_silent; [done|].
  eapply settle_expects with (kind := kind); try done.
  - by apply framed_kept.
  - by eapply framed_calm.
  - by rewrite (framed_active _ _ Hf), Ha.
Qed.

Lemma drive_issuance_settles c input :
  calm c -> active c = Issuance -> settled c (drive_issuance c input).
Proof.
  intros Hc Ha. unfold drive_issuance.
  set (c0 := {| c with issuer_trusted_current := issuer_trusted_now c |}).
  pose proof (vci_moves (issuance c0) input (issuance_env c0)) as Hm.
  destruct (Oid4vci.step _ _ _) as [next outputs]. cbn [fst snd] in Hm.
  set (c1 := {| c0 with issuance := next |}).
  assert (framed c c1) as Hf by done. assert (issuance c1 = next) as Hs by done.
  assert (issuance c0 = issuance c) as E0 by done. rewrite E0 in *. clear E0.
  clearbody c1. clear c0.
  pose proof (framed_calm _ _ Hf Hc) as Hc1. pose proof (framed_kept _ _ Hf) as Hk1.
  assert (active c1 = Issuance) as Ha1 by (rewrite <- Ha; apply Hf).
  destruct (issuance_is_admissible c1); cbn [negb]; [|by apply terminate_quiet].
  assert (forallb is_silent (preparing_effects c1 input) = true) as Hq by apply preparing_silent.
  destruct Hm as [|reason outputs Ho|f b|g f|g f|f|f|f|f p key b|f b];
    cbn [translate_each translate_issuance app].
  - rewrite app_nil_r. destruct (is_over (issuance c)) eqn:Eo.
    + rewrite nothing_stored by (rewrite Hs; destruct (issuance c); auto).
      apply settle_over; try done. by rewrite Hs.
    + rewrite proceeds by (by rewrite Hs). by apply framed_quiet.
  - destruct Ho as [-> | ->]; cbn [translate_each translate_issuance app];
      rewrite nothing_stored by (rewrite Hs; auto); apply settle_over; try done; try (by rewrite Hs);
      rewrite forallb_app, Hq; done.
  - destruct (is_issued (issuance c)).
    + apply settle_over; [done..|by rewrite Hs|]. rewrite forallb_app, Hq. done.
    + eapply store_issued_settles; [done..|by rewrite forallb_app, Hq].
  - destruct (offer_screen_offers c1 f) as (s & Es & Hof). rewrite Es.
    rewrite proceeds by (cbn; by rewrite Hs).
    apply settled_after_silent; [done|]. eapply settle_screen; [done| | | |done].
    + by eapply framed_calm; [|exact Hc1].
    + cbn. by rewrite Ha1.
    + split; [done|]. exists g, f, s. done.
  - eapply vci_asks with (kind := Par); try done; [|by rewrite Hs|intros q; cbn; by intros [= <-]].
    unfold expects. rewrite Ha1. by exists g, f.
  - eapply vci_asks with (kind := AuthorizationCode); try done; [|by rewrite Hs|intros q; cbn; by intros [= <-]].
    unfold expects. rewrite Ha1. by exists f.
  - eapply vci_asks with (kind := TransactionCode); try done; [|by rewrite Hs|intros q; cbn; by intros [= <-]].
    unfold expects. rewrite Ha1. by exists f.
  - eapply vci_asks with (kind := Token); try done; [|by rewrite Hs|intros q; cbn; by intros [= <-]].
    unfold expects. rewrite Ha1. by exists f.
  - eapply vci_asks with (kind := Signature); try done; [|by rewrite Hs|intros q; cbn; by intros [= <-]].
    unfold expects. rewrite Ha1. by exists f, p.
  - eapply vci_asks with (kind := Credential); try done; [|by rewrite Hs|intros q; cbn; by intros [= <-]].
    unfold expects. rewrite Ha1. by exists f.
Qed.

(** ** Proximity *)

Inductive prox_move (s : Proximity.State) : Proximity.State -> list Proximity.Output -> Prop :=
| prox_stays : prox_move s s []
| prox_aborts reason outputs :
    outputs = [] \/ outputs = [Proximity.EmitTermination] ->
    prox_move s (Proximity.Aborted reason) outputs
| prox_engages de : prox_move s (Proximity.Engaged de) [Proximity.EmitDeviceEngagement de]
| prox_establishes t : prox_move s (Proximity.SessionEstablished t) [Proximity.RenderConsent]
| prox_signs t key b : prox_move s (Proximity.SigningResponse t) [Proximity.SignDeviceAuth key b]
| prox_responds b : prox_move s Proximity.Responded [Proximity.EmitDeviceResponse b]
| prox_terminates : prox_move s Proximity.Terminated [Proximity.EmitTermination].

Lemma prox_moves s i e : prox_move s (fst (Proximity.step s i e)) (snd (Proximity.step s i e)).
Proof.
  destruct s, i; cbn; try (constructor; auto; fail). repeat (case_match; [constructor; auto|]). constructor.
Qed.

(** The proximity flow keeps the shared fields. *)
Record prox_frame (c c' : Core) : Prop := {
  pf_active : active c' = active c;
  pf_ops : pending_operations c' = pending_operations c;
  pf_next : next_operation_id c' = next_operation_id c;
  pf_status : pending_status_references c' = pending_status_references c;
}.

Lemma prox_frame_calm c c' :
  prox_frame c c' -> active c = ProximityFlowKind ->
  (forall r, prox_state (proximity c') <> Proximity.Aborted r) -> calm c -> calm c'.
Proof.
  intros [Ha Ho Hn Hr] Hp Hx [[H1 H2 H3 H4] H5 H6]. unfold pend, placed in *.
  split; [split| |]; unfold pend, placed; rewrite ?Ha, ?Ho, ?Hr; done.
Qed.

Lemma prox_frame_kept c c' : prox_frame c c' -> kept c c'.
Proof. intros [Ha Ho Hn Hr]. split; [by rewrite Ho|done]. Qed.

Lemma establish_frame c input :
  let c1 := capture_signature (fst (establish c input)) input in
  prox_frame c c1 /\ prox_state (proximity c1) = prox_state (proximity c).
Proof.
  unfold establish, capture_signature. destruct input; cbn; try done.
  destruct (derive_session c e_reader_key_cose) as [[ci t]|]; [|done].
  by destruct (open_request c ci t).
Qed.

Lemma seal_frame c signature :
  prox_frame c (fst (seal_response c signature))
  /\ prox_state (proximity (fst (seal_response c signature))) = prox_state (proximity c).
Proof.
  unfold seal_response. destruct (prox_presentation (proximity c)), signature, (cipher (proximity c)); try done.
  by destruct (seal_from_device _ _).
Qed.

Lemma prox_reset c c' effects :
  prox_frame c c' -> active c = ProximityFlowKind -> calm c -> forallb is_silent effects = true ->
  settled c (reset_flow c' ProximityFlowKind, effects).
Proof.
  intros Hf Ha Hc Hs. apply settle_quiet; [| |done].
  - transitivity c'; [by apply prox_frame_kept|apply kept_reset].
  - apply fresh_calm. destruct Hf as [F1 F2 F3 F4], Hc as [[H1 H2 H3 H4] H5 H6]. split.
    + unfold pend, placed in *. rewrite reset_ops, F2, <- Ha. by apply cleared_stale.
    + by rewrite reset_status, F4.
    + by rewrite reset_prox.
    + by rewrite reset_prox.
Qed.

Lemma prox_frame_trans a b c : prox_frame a b -> prox_frame b c -> prox_frame a c.
Proof. intros [] []. split; congruence. Qed.

Lemma prox_quiet c c' effects s :
  prox_frame c c' -> active c = ProximityFlowKind -> calm c -> prox_state (proximity c') = s ->
  (forall r, s <> Proximity.Aborted r) -> forallb is_silent effects = true -> settled c (c', effects).
Proof.
  intros Hf Ha Hc Hs Hn He. apply settle_quiet; [by apply prox_frame_kept| |done].
  apply (prox_frame_calm c); [done..| |done]. by rewrite Hs.
Qed.

Lemma drive_proximity_settles c input :
  calm c -> active c = ProximityFlowKind -> settled c (drive_proximity c input).
Proof.
  intros Hc Ha. unfold drive_proximity. destruct (establish_frame c input) as [Hf Hs].
  destruct (establish c input) as [c0 bound]. cbn [fst] in Hf, Hs.
  revert Hf Hs. generalize (capture_signature c0 input). clear c0. intros c0 Hf Hs. cbv zeta.
  pose proof (prox_moves (prox_state (proximity c0)) input {| Proximity.reader_key_on_curve := bound;
    Proximity.transcript_bound := bound; Proximity.reader_auth_present := false;
    Proximity.env_reader_auth_valid := false; Proximity.device_key_ref := device_key_ref (config c0) |}) as Hm.
  destruct (Proximity.step _ _ _) as [next outputs]. cbn [fst snd] in Hm. rewrite Hs in Hm.
  set (c1 := {| c0 with proximity := {| (proximity c0) with prox_state := next |} |}).
  assert (prox_frame c c1) as Hf1 by (destruct Hf; by split).
  assert (prox_state (proximity c1) = next) as Hs1 by done. clearbody c1. clear c0 Hf Hs.
  assert (active c1 = ProximityFlowKind) as Ha1 by (rewrite <- Ha; apply Hf1).
  pose proof (prox_frame_kept _ _ Hf1) as Hk1.
  destruct Hm as [|reason outputs Ho|de|t|t key b|b|]; cbn [translate_each translate_proximity app].
  - rewrite Hs1. pose proof (base_prox _ (calm_base _ Hc)) as Hx.
    destruct (prox_state (proximity c)) as [| | | | | |reason]; try by eapply prox_quiet.
    by destruct (Hx reason).
  - destruct Ho as [-> | ->]; cbn [translate_each translate_proximity app]; rewrite Hs1; by apply prox_reset.
  - rewrite Hs1. by eapply prox_quiet.
  - cbn [proximity prox_state]. rewrite Hs1. eapply settle_screen; [done| | | |done].
    + apply (prox_frame_calm c); [destruct Hf1; by split|done| |done]. by cbn.
    + cbn. by rewrite Ha1.
    + split; [done|]. split; [|done]. by exists t.
  - destruct (prox_presentation (proximity c1)) as [p|]; cbn [app]; rewrite Hs1; [|by eapply prox_quiet].
    eapply settle_expects with (kind := Signature); [done| |by rewrite Ha1| |intros q; cbn; by intros [= <-]].
    + apply (prox_frame_calm c); [done..| |done]. by rewrite Hs1.
    + unfold expects. rewrite Ha1. by exists t.
  - set (c2 := {| c1 with proximity := {| (proximity c1) with last_signature := None |} |}).
    assert (prox_frame c c2) as Hf2 by (destruct Hf1; by split).
    assert (prox_state (proximity c2) = Proximity.Responded) as Hs2 by done. clearbody c2.
    destruct (seal_frame c2 (last_signature (proximity c1))) as [Hf3 Hs3].
    destruct (seal_response c2 _) as [c3 [response|]]; cbn [fst] in Hf3, Hs3; cbn [app]; rewrite Hs3, Hs2;
      (apply (prox_quiet c c3 _ Proximity.Responded); [by eapply prox_frame_trans|done|done| |done|done]);
      congruence.
  - rewrite Hs1. by eapply prox_quiet.
Qed.

(** A reader may hang up in any state: decisions and signatures that are
    pending stay so, and nothing follows from them. *)
Lemma hang_up_settles c :
  fits c (pend c) -> settled c (drive_proximity c Proximity.ReaderTermination).
Proof.
  intros Hc.
  assert (drive_proximity c Proximity.ReaderTermination
    = ({| c with proximity := {| (proximity c) with prox_state := Proximity.Terminated |} |}, [Close])) as ->.
  { unfold drive_proximity. cbn. by destruct (prox_state (proximity c)). }
  set (c1 := {| c with proximity := _ |}).
  assert (fits c1 (pend c)) as Hf.
  { destruct Hc as [H1 H2 H3 H4 H5]. split; try done. destruct H2 as [|(op & Hm & Hf & Ha)]; [by left|].
    right. exists op. split; [done|]. split; [done|].
    destruct (decide (active c = ProximityFlowKind)) as [Hp|Hp].
    - right. right. split; [done|]. split; [done|].
      destruct Ha as [(s & Hd & _)|[He|(_ & _ & He)]]; [..|done].
      + unfold describes in Hd. destruct (op_result op); try done; destruct Hd as [Hd _]; auto; congruence.
      + unfold expects in He. rewrite Hp in He. destruct (op_result op); auto; done.
    - destruct Ha as [(s & Hd & Hh)|[He|(Hu & _)]]; [| |done].
      + left. exists s. split; [|done]. unfold describes in *. destruct (op_result op); try done. by destruct Hd.
      + right. left. unfold expects in *. cbn. destruct (active c); try done. }
  split; [done|]. split; [by apply fits_base|]. cbn. intros p [= <-]. cbn. by rewrite app_nil_r.
Qed.

(** The reader opens its session: only a wallet that has engaged answers. *)
Lemma engaged_calm c de :
  fits c (pend c) -> prox_state (proximity c) = Proximity.Engaged de ->
  calm c /\ active c = ProximityFlowKind.
Proof.
  intros Hf Hp. pose proof (fits_reader _ _ Hf) as Hr. rewrite Hp in Hr. specialize (Hr eq_refl).
  split; [|done]. split; [by apply fits_base| |].
  - destruct (fits_main _ _ Hf) as [|(op & Hm & _ & Ha)]; [done|]. exfalso.
    destruct Ha as [(s & Hd & _)|[He|(_ & Hu & _)]]; [| |congruence].
    + unfold describes in Hd. destruct (op_result op); try done; destruct Hd as [Hd Hd']; try congruence.
      destruct Hd' as [[t Ht] _]. congruence.
    + unfold expects in He. rewrite Hr in He. destruct (op_result op); try done. destruct He. congruence.
  - destruct (fits_status _ _ Hf) as [|[Ha _]]; [done|]. congruence.
Qed.

Lemma silent_fits c c' effects :
  fits c (pend c) -> kept c c' -> alike c c' -> pending_operations c' = pending_operations c ->
  forallb is_silent effects = true -> settled c (c', effects).
Proof.
  intros Hf Hk Ha Ho Hs. assert (fits c' (pend c')) as Hf'.
  { unfold pend. rewrite Ho. by eapply alike_fits. }
  split; [done|]. split; [by apply fits_base|]. cbn. intros p Hp.
  by rewrite (silent_prepare _ _ _ Hs Hp), app_nil_r.
Qed.

Lemma establishment_settles c key :
  fits c (pend c) -> settled c (drive_proximity c (Proximity.ReaderEstablishment key)).
Proof.
  intros Hf.
  assert ((exists de, prox_state (proximity c) = Proximity.Engaged de)
          \/ exists p, prox_state p = prox_state (proximity c)
               /\ prox_presentation p = prox_presentation (proximity c)
               /\ drive_proximity c (Proximity.ReaderEstablishment key) = ({| c with proximity := p |}, []))
    as [[de Hp]|(p & Hp & Hq & ->)].
  { pose proof (fits_prox _ _ Hf) as Hx. unfold drive_proximity, establish, derive_session. cbn.
    destruct (prox_state (proximity c)) as [|de| | | | |r] eqn:Ep; cbn; rewrite ?Ep; try (by left; eexists);
      try (right; eexists; split; [|split; [|reflexivity]]; done). by destruct (Hx r). }
  - destruct (engaged_calm _ _ Hf Hp) as [Hc Ha]. by apply drive_proximity_settles.
  - by apply silent_fits.
Qed.

(** ** Remote presentation *)

(** An input that a validated request waits for: only a decision moves it. *)
Definition decides (s : Oid4vp.State) (i : Oid4vp.Input) : bool :=
  match s, i with
  | Oid4vp.RequestValidated _, (Oid4vp.ConsentGranted | Oid4vp.ConsentDeclined) => true
  | Oid4vp.RequestValidated _, _ => false
  | _, _ => true
  end.

Inductive vp_move (s : Oid4vp.State) : Oid4vp.State -> list Oid4vp.Output -> Prop :=
| vp_stays : is_validated s = false -> vp_move s s []
| vp_aborts reason outputs :
    outputs = [] \/ outputs = [Oid4vp.Close] -> vp_move s (Oid4vp.Aborted reason) outputs
| vp_resolves r client : vp_move s (Oid4vp.ResolvingTrust r) [Oid4vp.ResolveRpTrust client]
| vp_validates r n client purpose :
    vp_move s (Oid4vp.RequestValidated r) [Oid4vp.PersistNonce n; Oid4vp.RenderConsent client purpose]
| vp_signs p key b : vp_move s (Oid4vp.AwaitingDeviceSignature p) [Oid4vp.SignKeyBinding key b]
| vp_sends body : vp_move s Oid4vp.Presenting [Oid4vp.SendVpToken body]
| vp_finishes : vp_move s Oid4vp.Done [Oid4vp.Close].

Lemma vp_moves s i e :
  decides s i = true -> vp_move s (fst (Oid4vp.step s i e)) (snd (Oid4vp.step s i e)).
Proof.
  intros H. destruct s, i; try done; cbn; try (constructor; auto; fail).
  all: repeat case_match; cbn; constructor; auto.
Qed.

Lemma newly_aborted_same s : newly_aborted s s = None.
Proof. by destruct s. Qed.

Lemma newly_aborted_none s s' : (forall r, s' <> Oid4vp.Aborted r) -> newly_aborted s s' = None.
Proof. intros H. destruct s, s'; try done; by destruct (H reason) || by destruct (H reason0). Qed.

Lemma abort_vp c reason : vp (fst (abort_presentation c reason)) = Oid4vp.Aborted reason.
Proof. done. Qed.

Lemma abort_quiet c c' reason :
  framed c c' -> calm c -> active c = Presentation -> settled c (abort_presentation c' reason).
Proof.
  intros Hf Hc Ha. eapply settled_same; [by apply framed_kept|]. apply abort_settles.
  - by rewrite (framed_active _ _ Hf).
  - by apply calm_base, (framed_calm c).
Qed.

Definition in_flight (s : Oid4vp.State) : bool :=
  match s with Oid4vp.Done | Oid4vp.Aborted _ => false | _ => true end.

(** What follows the outputs of a step that neither aborts nor completes. *)
Lemma drive_rest s next self effects :
  (forall x, next <> Oid4vp.Aborted x) -> is_done (vp self) = false ->
  (let '(self, effects) := surface_abort self effects (newly_aborted s next) in
   if negb (is_done s) && is_done (vp self) then
     match record_presentation self with
     | (self, Ok _) => (self, effects)
     | (self, Err _) => audit_log_fault_effects self Presentation
     end
   else (self, effects)) = (self, effects).
Proof. intros Hn Hd. rewrite newly_aborted_none by done. cbn. by rewrite Hd, andb_false_r. Qed.

(** The session is captured with its plan, or the exchange ends. *)
Lemma admit_frame c r :
  calm c -> active c = Presentation ->
  match admit_request c r with
  | Ok c' => framed c c' /\ vp c' = vp c /\ (exists s, session c' = Some s /\ session_of r s)
  | Err reply => settled c reply
  end.
Proof.
  intros Hc Ha. unfold admit_request. set (c1 := {| c with session := Some (new_session c r) |}).
  assert (framed c c1) as Hf1 by done.
  unfold prepare_presentation_selection. change (session c1) with (Some (new_session c r)). cbn [ok_or].
  destruct (presentation_trust_is_current c1 (new_session c r)); [|by apply abort_quiet].
  destruct (prepare c1 (new_session c r)) as [prepared|e]; [|by apply abort_quiet].
  destruct (is_empty prepared); [by apply abort_quiet|]. cbn [session].
  match goal with |- context [is_ok ?x] => destruct (is_ok x) end; [|by apply terminate_quiet].
  split; [by split|]. split; [done|]. eexists. split; [done|]. by repeat split.
Qed.

(** The consent screen commits to the session, not to the hash kept in it. *)
Lemma consent_screen_hash c s h l :
  session c = Some s ->
  consent_screen {| c with session := Some {| s with consent_hash := h; shared_claims := l |} |}
  = consent_screen c.
Proof. intros Hs. unfold consent_screen, consent_of. cbn. by rewrite Hs. Qed.

Lemma deliver_settles c rnd body :
  calm c -> active c = Presentation -> vp c = Oid4vp.Presenting ->
  settled c (deliver_response rnd c body) /\ is_done (vp (fst (deliver_response rnd c body))) = false.
Proof.
  intros Hc Ha Hv.
  assert (forall b url, settled c (c, [Http Openid4vpDirectPost url b])) as Hh.
  { intros b url. eapply settle_expects with (kind := PresentationDelivery); [done..|by rewrite Ha| |].
    - unfold expects. by rewrite Ha.
    - intros p. cbn. unfold http_delivery. rewrite Ha. cbn. case_bool_decide; [|done].
      intros [= <-]. cbn. by rewrite Ha. }
  unfold deliver_response. destruct (session c) as [s|]; [|split; [by apply abort_quiet|done]].
  destruct (String.eqb (response_mode s) "direct_post"); [split; [done|cbn; by rewrite Hv]|].
  destruct (String.eqb (response_mode s) "direct_post.jwt"); [|split; [by apply abort_quiet|done]].
  destruct (response_encryption_key s); [|split; [by apply abort_quiet|done]].
  destruct (encrypt_direct_post_jwt _ _ _ _); [split; [done|cbn; by rewrite Hv]|split; [by apply abort_quiet|done]].
Qed.
Lemma prepare_nonce c n effects p :
  prepare_effects c (PersistNonce n :: effects) = Ok p ->
  exists q, prepare_effects c effects = Ok q
    /\ operations_of p = {| op_flow := active c; op_result := Persisted; authorization_hash := None |}
                         :: operations_of q.
Proof. cbn. destruct (prepare_effects c effects) as [q|]; [|done]. intros [= <-]. by exists q. Qed.

Lemma error_silent_app reason :
  forallb is_silent (unwrap_or (presentation_error_effects reason) [] ++ []) = true.
Proof. rewrite app_nil_r. apply error_silent. Qed.

(** The first screen of a presentation: the nonce is spent and the holder is
    asked about the session that was captured. *)
Lemma consent_settles c rnd r s n client purpose :
  calm c -> active c = Presentation -> vp c = Oid4vp.RequestValidated r ->
  session c = Some s -> session_of r s ->
  let reply := translate_each (translate rnd) c [Oid4vp.PersistNonce n; Oid4vp.RenderConsent client purpose] in
  settled c reply /\ is_done (vp (fst reply)) = false.
Proof.
  intros Hc Ha Hv Hs Hr. cbn [translate_each translate].
  set (c1 := {| c with seen_nonces := seen_nonces c ++ [n] |}).
  assert (framed c c1) as Hf by done. assert (vp c1 = vp c) as Hv1 by done.
  assert (session c1 = Some s) as Hs1 by done. clearbody c1.
  pose proof (framed_calm _ _ Hf Hc) as Hc1.
  assert (active c1 = Presentation) as Ha1 by (rewrite <- Ha; apply Hf).
  destruct (presentation_evidence_is_current c1) as [[]|e].
  - rewrite Hs1. cbn [app fst].
    set (c2 := {| c1 with session := Some _ |}).
    assert (consent_screen c1 = consent_screen c2) as Hscreen by (symmetry; by apply consent_screen_hash).
    split; [|cbn; by rewrite Hv1, Hv]. rewrite Hscreen.
    apply settle_ops; [by apply framed_kept; destruct Hf; split| |].
    + by eapply framed_calm; [|exact Hc1].
    + intros p Hp. apply prepare_nonce in Hp as (q & Hq & ->).
      assert (screen_decision c2 (consent_screen c2)
        = Some (PresentationDecision, option_map (fun x => consent_hash x) (session c2))) as Hd by done.
      rewrite (prepare_screen _ _ _ _ _ Hd Hq). split.
      * repeat apply List.Forall_cons; [..|constructor]; right; (split; [done|]; split; [|done]); cbn; by rewrite Ha1.
      * right. eexists. split; [done|]. split; [done|]. left. eexists. split; [|done].
        split; [done|]. split; [|done]. eexists r, _. split; [cbn; by rewrite Hv1, Hv|]. split; [done|].
        unfold session_of in *. cbn. done.
  - split; [|done]. apply settle_ops.
    + transitivity c1; [by apply framed_kept|apply abort_kept].
    + by apply fresh_calm, abort_fresh, calm_base.
    + intros p Hp. apply prepare_nonce in Hp as (q & Hq & ->).
      rewrite (silent_prepare _ _ _ (error_silent_app _) Hq). split; [|by left].
      apply List.Forall_cons; [by left|constructor].
Qed.

Lemma translate_one rnd c o : translate_each (translate rnd) c [o] = translate rnd c o.
Proof. cbn. destruct (translate rnd c o). by rewrite app_nil_r. Qed.

Lemma sign_settles c rnd p key b :
  calm c -> active c = Presentation -> vp c = Oid4vp.AwaitingDeviceSignature p ->
  settled c (translate rnd c (Oid4vp.SignKeyBinding key b))
  /\ is_done (vp (fst (translate rnd c (Oid4vp.SignKeyBinding key b)))) = false.
Proof.
  intros Hc Ha Hv. cbn [translate]. destruct (presentation_sensitive_abort_reason c); [split; [by apply abort_quiet|done]|].
  split; [|cbn; by rewrite Hv].
  eapply settle_expects with (kind := Signature); [done..|by rewrite Ha| |intros q; cbn; by intros [= <-]].
  unfold expects. rewrite Ha. by exists p.
Qed.

Lemma send_settles c rnd body :
  calm c -> active c = Presentation -> vp c = Oid4vp.Presenting ->
  settled c (translate rnd c (Oid4vp.SendVpToken body))
  /\ is_done (vp (fst (translate rnd c (Oid4vp.SendVpToken body)))) = false.
Proof.
  intros Hc Ha Hv. cbn [translate]. destruct (presentation_sensitive_abort_reason c);
    [split; [by apply abort_quiet|done]|by apply deliver_settles].
Qed.

Lemma surfaced_silent reason :
  forallb is_silent match presentation_error_effects reason with Some e => e | None => [] end = true.
Proof. by destruct reason. Qed.

Lemma surface_frame c effects reason :
  framed c (fst (surface_abort c effects reason)) /\ vp (fst (surface_abort c effects reason)) = vp c
  /\ (forallb is_silent effects = true -> forallb is_silent (snd (surface_abort c effects reason)) = true).
Proof.
  unfold surface_abort. destruct reason as [r|]; cbn; [|done].
  pose proof (surfaced_silent r) as Hs. destruct (presentation_error_effects r); [|done]. cbn.
  split; [by split|]. split; [done|]. intros He. by rewrite forallb_app, He.
Qed.

Lemma append_vp c entry : vp (fst (append_audit_entry c entry)) = vp c.
Proof. unfold append_audit_entry. by destruct (TxnLog.append (log c) entry) as [l [[]|e]]. Qed.

Lemma reset_vp c : vp (reset_flow c Presentation) = Oid4vp.Idle.
Proof. unfold reset_flow, deactivate. by case_match. Qed.

Lemma fault_vp c : vp (fst (audit_log_fault_effects c Presentation)) = Oid4vp.Idle.
Proof. apply reset_vp. Qed.

Lemma drive_settles c rnd input :
  calm c -> active c = Presentation -> decides (vp c) input = true ->
  settled c (drive rnd c input).
Proof.
  intros Hc Ha Hd. unfold drive. pose proof (vp_moves _ _ (vp_env c input) Hd) as Hm.
  destruct (Oid4vp.step _ _ _) as [next outputs]. cbn [fst snd] in Hm. cbv zeta.
  set (c1 := {| c with vp := next |}).
  assert (framed c c1) as Hf by done. assert (vp c1 = next) as Hv by done. clearbody c1.
  pose proof (framed_calm _ _ Hf Hc) as Hc1. pose proof (framed_kept _ _ Hf) as Hk1.
  assert (active c1 = Presentation) as Ha1 by (rewrite <- Ha; apply Hf).
  destruct Hm as [Hn|reason outputs Ho|r client|r n client pu|p key b|body|].
  - assert (match vp c with Oid4vp.RequestValidated req => admit_request c1 req | _ => Ok c1 end = Ok c1) as ->
      by (by destruct (vp c)).
    cbn [translate_each]. rewrite newly_aborted_same. cbn. rewrite Hv. destruct (is_done (vp c)); by apply framed_quiet.
  - assert (translate_each (translate rnd) c1 outputs = (c1, if is_empty outputs then [] else [Close])) as ->
      by (by destruct Ho as [-> | ->]).
    destruct (surface_frame c1 (if is_empty outputs then [] else [Close]) (newly_aborted (vp c) (Oid4vp.Aborted reason)))
      as (Hg & Hw & Hq).
    destruct (surface_abort _ _ _) as [c2 eff]. cbn [fst snd] in Hg, Hw, Hq. rewrite Hw, Hv, andb_false_r.
    apply framed_quiet; [by etrans|done|]. apply Hq. by destruct Ho as [-> | ->].
  - rewrite translate_one. cbn [translate]. rewrite drive_rest by (done || by rewrite Hv).
    eapply settle_expects with (kind := RpCertChain); [done..|by rewrite Ha1| |intros q; cbn; by intros [= <-]].
    unfold expects. rewrite Ha1. by exists r.
  - pose proof (admit_frame c1 r Hc1 Ha1) as Had.
    destruct (admit_request c1 r) as [c2|reply]; [|by eapply settled_same].
    destruct Had as (Hg & Hw & s & Hs & Hr).
    destruct (consent_settles c2 rnd r s n client pu) as [H1 H2]; try done.
    + by eapply framed_calm.
    + rewrite <- Ha1. apply Hg.
    + by rewrite Hw.
    + destruct (translate_each _ _ _) as [c3 eff]. cbn [fst] in H2. rewrite drive_rest by done.
      eapply settled_same; [|exact H1]. transitivity c1; [done|by apply framed_kept].
  - rewrite translate_one. destruct (sign_settles c1 rnd p key b Hc1 Ha1 Hv) as [H1 H2].
    destruct (translate _ _ _) as [c3 eff]. cbn [fst] in H2. rewrite drive_rest by done.
    by eapply settled_same.
  - rewrite translate_one. destruct (send_settles c1 rnd body Hc1 Ha1 Hv) as [H1 H2].
    destruct (translate _ _ _) as [c3 eff]. cbn [fst] in H2. rewrite drive_rest by done.
    by eapply settled_same.
  - rewrite translate_one. cbn [translate]. rewrite newly_aborted_none by done. cbn [surface_abort]. rewrite Hv.
    destruct (negb (is_done (vp c)) && is_done Oid4vp.Done); [|by apply framed_quiet].
    unfold record_presentation. destruct (session c1) as [s|]; [|by apply framed_quiet].
    pose proof (append_frame c1 (completed_entry c1 TxnLog.Presentation (rp_client_id s) (consent_hash s)
           (shared_claims s) None)) as (Hg & _ & _).
    destruct (append_audit_entry c1 _) as [c2 [[]|e]]; cbn [fst] in Hg.
    + apply framed_quiet; [by etrans|done|done].
    + apply fault_settles; [by etrans|done].
Qed.
End flows.
