(* ===== verification/WireSpec.v ===== *)
(** * What the wire boundary guarantees

    Theorems on every history of the engine: the operations that are pending
    are the ones the machines wait for, an approval binds the screen that
    describes what is approved, a result is accepted once, and a presentation
    is signed and delivered only past its gates. *)

From stdpp Require Import list relations.
From S2P Require Import Cbor Cose Mdoc Oid4vp Dcql Payment Oid4vci Qes W2w Proximity Status Wua.
From S2P Require Import TxnLog Trust SdJwt Presenter Sealing ProximitySession DcApiRequests Durable.
From S2P Require Import Prelude Utf8 BTree Boundary Serde SdJwtProcess Catalogue X509 X509Path.
From S2P Require Import PidProfile Holdings CredentialChecks WalletCore Ingestion Summaries DurableCore.
From S2P Require Import Selection QuerySelection Responses Effects Facade Dispatch Wire Engine.
From S2P Require Import WireOps WireFlows.

Open Scope Z_scope.
Open Scope rust_scope.

Section results.
Context `{JL : JsonLib} {JV : JsonValue} {SJ : SerdeJson} `{B64 : Base64} `{D : Digest} `{V : Verifier}
  `{X : X509Der} `{CV : CertVerifier} `{SB : StdBase64} `{PQ : MlDsa} `{INF : Inflate}
  {A : Aead} {K : Kdf} {E : Ecdh} {W : WireCodec}.

(** ** Consuming an operation *)

Lemma consume_main c id op :
  fits c (pend c) -> bt_get (pending_operations c) id = Some op -> main op = true ->
  awaits c op /\ calm (remove_pending c id).
Proof.
  intros Hf Hg Hm. destruct (remove_split _ _ _ Hg) as (k & l & Ho & Hr). pose proof (fits_base _ Hf) as Hb.
  assert (mains (pend c) = mains (map snd k) ++ op :: mains (map snd l)) as Hp.
  { unfold pend. rewrite Ho, map_app, mains_app. cbn. by rewrite Hm. }
  destruct (fits_main _ _ Hf) as [He|(op' & He & Ha)].
  { rewrite He in Hp. by destruct (mains (map snd k)). }
  assert (op' = op /\ mains (map snd k) = [] /\ mains (map snd l) = []) as (-> & Hk & Hl).
  { rewrite He in Hp. destruct (mains (map snd k)) as [|x [|]]; cbn in Hp; try done.
    by destruct (mains (map snd l)); injection Hp as ->. }
  split; [done|]. split.
  - destruct Hb as [H1 H2 H3 H4]. split; try done. unfold pend. cbn. rewrite Hr, map_app.
    unfold pend in H1. rewrite Ho, map_app in H1. cbn in H1.
    apply Forall_app in H1 as [Hx [_ Hy]%Forall_cons_1]. by apply Forall_app.
  - unfold pend. cbn. by rewrite Hr, map_app, mains_app, Hk, Hl.
  - destruct (fits_status _ _ Hf) as [|(_ & Hn & _)]; [done|]. by rewrite He in Hn.
Qed.

Lemma consume_side c id op :
  fits c (pend c) -> bt_get (pending_operations c) id = Some op -> main op = false ->
  fits (remove_pending c id) (pend (remove_pending c id)).
Proof.
  intros Hf Hg Hm. destruct (remove_split _ _ _ Hg) as (k & l & Ho & Hr).
  assert (mains (pend (remove_pending c id)) = mains (pend c)) as Hp.
  { unfold pend. cbn. rewrite Hr, Ho, !map_app, !mains_app. cbn. by rewrite Hm. }
  destruct Hf as [H1 H2 H3 H4 H5]. split; try done; rewrite ?Hp; try done.
  eapply Forall_sublist; [|exact H1]. apply map_sublist, remove_sublist.
Qed.

(** What a kind of operation says of the state. *)
Lemma awaits_decision c op :
  awaits c op ->
  match op_result op with
  | PresentationDecision | PaymentDecision | QesDecision | IssuanceDecision | DcApiDecision =>
      exists screen, describes c (op_result op) screen
        /\ authorization_hash op = Some (Presenter.consent_hash screen)
  | ProximityDecision => active c = ProximityFlowKind
  | Persisted | StatusList _ | HybridSignature _ => False
  | Signature => active c <> NoFlow /\ (active c = ProximityFlowKind \/ expects c Signature)
  | kind => expects c kind
  end.
Proof.
  intros [_ H]. destruct H as [H|[He|(Ha & Hp & Hk)]].
  - destruct H as (screen & Hd & Hh). destruct (op_result op); try done; try (by exists screen). by destruct Hd.
  - unfold expects in *. destruct (op_result op); try done; try (by destruct (active c)).
    split; [by destruct (active c)|by right].
  - destruct Hk as [-> | ->]; [done|]. split; [by rewrite Ha|by left].
Qed.

(** ** Each result, in the state that waits for it *)

Lemma delivered_settles c rnd :
  calm c -> active c = Presentation -> vp c = Oid4vp.Presenting ->
  settled c (presentation_delivered rnd c).
Proof.
  intros Hc Ha Hv. unfold presentation_delivered, drive. rewrite Hv. cbn [Oid4vp.step]. cbv zeta.
  set (c1 := {| c with vp := Oid4vp.Done |}).
  assert (framed c c1) as Hf by done. assert (vp c1 = Oid4vp.Done) as Hw by done. clearbody c1.
  rewrite translate_one. cbn. rewrite Hw. cbn.
  unfold record_presentation. destruct (session c1) as [s|].
  2: { rewrite Hw. by apply finish_quiet. }
  pose proof (append_frame c1 (completed_entry c1 TxnLog.Presentation (rp_client_id s) (consent_hash s)
         (shared_claims s) None)) as (Hg & _ & _).
  pose proof (append_vp c1 (completed_entry c1 TxnLog.Presentation (rp_client_id s) (consent_hash s)
         (shared_claims s) None)) as Hx.
  destruct (append_audit_entry c1 _) as [c2 [[]|e]]; cbn [fst] in Hg, Hx.
  - rewrite Hx, Hw. apply finish_quiet; try done. by etrans.
  - pose proof (fault_vp c2) as Hy. destruct (fault_fresh c c2 Presentation) as (H1 & H2 & H3);
      [by etrans|by apply calm_base|].
    destruct (audit_log_fault_effects c2 Presentation) as [c3 eff]. cbn [fst snd] in *. rewrite Hy. cbn.
    by apply settle_quiet; [|apply fresh_calm|].
Qed.

(** Status lists are awaited: the decision has been taken, nothing is signed. *)
Lemma fetch_settles c c' references uris :
  kept c c' -> base c' -> mains (pend c') = [] -> active c' = Presentation -> is_validated (vp c') = true ->
  settled c ({| c' with pending_status_references := references |}, map FetchStatusList uris).
Proof.
  intros Hk Hb Hm Ha Hv. split; [done|]. destruct Hb as [H1 H2 H3 H4]. cbn [fst snd].
  split; [split; try done; by right|]. intros p Hp.
  set (c2 := {| c' with pending_status_references := references |}) in *.
  assert (Forall (placed c2) (operations_of p) /\ mains (operations_of p) = []) as [Hf Hn].
  { revert p Hp. induction uris as [|uri uris IH]; intros p; cbn; [intros [= <-]; by split; [constructor|]|].
    destruct (prepare_effects c2 (map FetchStatusList uris)) as [q|] eqn:Eq; [|done]. intros [= <-].
    destruct (IH q eq_refl) as [Hf Hn]. split; [|done]. cbn. apply List.Forall_cons; [|done].
    right. cbn. by rewrite Ha. }
  change (pend c2) with (pend c'). split; try done.
  - by apply Forall_app.
  - left. by rewrite mains_app, Hm.
  - right. by rewrite mains_app, Hm.
Qed.

Lemma consented_settles c rnd :
  calm c -> active c = Presentation -> is_validated (vp c) = true -> settled c (user_consented rnd c).
Proof.
  intros Hc Ha Hv. unfold user_consented. rewrite Ha at 1.
  destruct (presentation_evidence_is_current c); [|by apply abort_quiet].
  destruct (presentation_status_gate c) as [|all uris| |]; try by apply abort_quiet.
  - apply (settled_same _ {| c with pending_status_references := [] |}); [done|].
    apply drive_settles; [|done|by destruct (vp c)]. destruct Hc as [[H1 H2 H3 H4] H5 H6].
    split; [split|..]; try done. by left.
  - apply fetch_settles; try done; apply Hc.
Qed.

Lemma drive_declined c rnd r :
  vp c = Oid4vp.RequestValidated r ->
  drive rnd c Oid4vp.ConsentDeclined = ({| c with vp := Oid4vp.Aborted Oid4vp.UserDeclined |}, [Close]).
Proof. intros Hv. unfold drive. by rewrite Hv. Qed.

Lemma declined_settles c rnd :
  calm c -> active c = Presentation -> is_validated (vp c) = true -> settled c (user_declined rnd c).
Proof.
  intros Hc Ha Hv. unfold user_declined. rewrite Ha at 1.
  set (c0 := {| c with pending_status_references := [] |}).
  assert (framed c c0) as Hf by (split; try done; by rewrite (calm_status _ Hc)).
  assert (vp c0 = vp c) as Hw by done. clearbody c0.
  destruct (vp c) as [| |r| | | |]; try done. rewrite (drive_declined c0 rnd r Hw). cbn [vp].
  apply reset_quiet; try done. etrans; [exact Hf|by split].
Qed.

Lemma load_status_frame c uri token chain :
  framed c (fst (load_status_list c uri token chain)) /\ vp (fst (load_status_list c uri token chain)) = vp c
  /\ alike c (fst (load_status_list c uri token chain)).
Proof.
  unfold load_status_list. destruct (now_epoch c <=? 0); [done|]. destruct (negb (valid_status_uri uri)); [done|].
  destruct (resolve_status_provider_key c chain); [|done].
  destruct (Status.parse_and_verify token uri _ Es256 (now_epoch c)); [|done]. by case_match.
Qed.

Lemma block_settles c c' revoked :
  framed c c' -> base c -> active c = Presentation ->
  settled c (status_block_effects {| c' with pending_status_references := [] |} revoked).
Proof.
  intros Hf Hb Ha. unfold status_block_effects.
  apply (settled_same _ {| c' with pending_status_references := [] |}); [transitivity c'; [by apply framed_kept|by split]|].
  pose proof (framed_base _ _ Hf Hb) as [H1 H2 H3 H4]. apply abort_settles.
  - cbn. by rewrite (framed_active _ _ Hf).
  - split; try done. by left.
Qed.

Lemma status_settles c rnd uri http token chain :
  fits c (pend c) -> active c = Presentation ->
  settled c (status_list_received rnd c uri http token chain).
Proof.
  intros Hf Ha. pose proof (fits_base _ Hf) as Hb. unfold status_list_received.
  destruct (presentation_evidence_is_current c); [|by apply abort_settles].
  destruct (negb _ || negb _) eqn:Hn; [by apply block_settles|].
  assert (mains (pend c) = [] /\ is_validated (vp c) = true) as [Hm Hv].
  { destruct (fits_status _ _ Hf) as [He|(_ & ? & ?)]; [|done]. by rewrite He in Hn. }
  destruct (load_status_frame c uri token chain) as (Hg & Hw & _).
  destruct (load_status_list c uri token chain) as [c1 [[]|e]]; cbn [fst] in Hg, Hw; [|by apply block_settles].
  pose proof (framed_base _ _ Hg Hb) as Hb1. pose proof (framed_kept _ _ Hg) as Hk1.
  assert (active c1 = Presentation) as Ha1 by (rewrite <- Ha; apply Hg).
  assert (mains (pend c1) = []) as Hm1 by (unfold pend; by rewrite (framed_ops _ _ Hg)).
  destruct (presentation_status_gate c1) as [|all uris| |]; try by apply block_settles.
  - apply (settled_same _ {| c1 with pending_status_references := [] |}); [done|].
    apply drive_settles; [|done|cbn; rewrite Hw; by destruct (vp c)]. destruct Hb1 as [H1 H2 H3 H4].
    split; [split|..]; try done. by left.
  - apply (fetch_settles c c1 all []); try done. by rewrite Hw.
Qed.

(** ** Results and their kinds *)

Definition kind_fits (k : OperationResultKind) (e : Event) : bool :=
  match e, k with
  | RpCertChainResolved _ _, RpCertChain
  | (UserConsented | UserDeclined), (PresentationDecision | ProximityDecision | DcApiDecision)
  | DeviceSignatureProduced _, Signature
  | HybridSignatureProduced _ _ _ _, HybridSignature _
  | PresentationDelivered, PresentationDelivery
  | PaymentAuthorizationDelivered, PaymentDelivery
  | QesAuthorizationDelivered, QesDelivery
  | OperationSucceeded _, (Persisted | TransferOfferPublished)
  | (PaymentApproved | PaymentDeclined), PaymentDecision
  | (QesAuthorized | QesDeclined), QesDecision
  | (CredentialOfferAccepted | CredentialOfferDeclined), IssuanceDecision
  | ParPushed _, Par
  | AuthorizationCodeReturned _, AuthorizationCode
  | TransactionCodeEntered _, TransactionCode
  | TokenReceived _ _, Token
  | CredentialReceived _ _, Credential
  | StatusListReceived _ _ _ _, StatusList _ => true
  | _, _ => false
  end.

Lemma accepts_kind k e : accepts_event k (event_type e) = kind_fits k e.
Proof. destruct k, e; reflexivity. Qed.

Lemma awaits_flow c op : awaits c op -> op_flow op = active c.
Proof. by intros [H _]. Qed.

Lemma signature_settles c rnd signature :
  calm c -> active c <> NoFlow -> active c = ProximityFlowKind \/ expects c Signature ->
  settled c (device_signature_produced rnd c signature).
Proof.
  intros Hc Hn Hx. unfold device_signature_produced, expects in *. destruct (active c) eqn:Ha; try (by destruct Hx).
  - destruct Hx as [Hx|[p Hp]]; [done|]. destruct (presentation_sensitive_abort_reason c); [by apply abort_quiet|].
    apply drive_settles; [done..|]. by rewrite Hp.
  - destruct Hx as [Hx|(p & Hp & Hq)]; [done|]. apply drive_payment_settles; [done..|]. by rewrite Hp.
  - by apply drive_issuance_settles.
  - destruct Hx as [Hx|(p & Hp & Hq)]; [done|]. apply drive_qes_settles; [done..|]. by rewrite Hp.
  - by apply drive_proximity_settles.
  - by apply dcapi_signature_settles.
Qed.

Lemma prepare_c_nonces c l effects :
  prepare_effects {| c with iss_seen_c_nonces := l |} effects = prepare_effects c effects.
Proof. induction effects as [|e effects IH]; [done|]. cbn [prepare_effects]. by rewrite IH. Qed.

Lemma token_settles c bound n :
  calm c -> active c = Issuance -> settled c (token_received c bound n).
Proof.
  intros Hc Ha. pose proof (drive_issuance_settles c (Oid4vci.TokenResponse bound n) Hc Ha) as H.
  assert (exists c1 eff l, drive_issuance c (Oid4vci.TokenResponse bound n) = (c1, eff)
    /\ (token_received c bound n = (c1, eff)
        \/ token_received c bound n = ({| c1 with iss_seen_c_nonces := l |}, eff))) as (c1 & eff & l & Hd & Ht).
  { unfold token_received. destruct (drive_issuance c _) as [c1 eff]. exists c1, eff, (push_unseen (iss_seen_c_nonces c1) n).
    destruct (issuance c1); eauto. }
  rewrite Hd in H. destruct Ht as [-> | ->]; [done|]. destruct H as (Hk & Hb & Hs).
  set (c2 := {| c1 with iss_seen_c_nonces := l |}).
  assert (alike c1 c2) as Hl by done. assert (framed c1 c2) as Hf by done.
  split; [done|]. split; [by eapply framed_base|].
  intros p Hq. eapply alike_fits; [exact Hl|]. apply Hs. by rewrite <- Hq, <- (prepare_c_nonces c1 l).
Qed.

Lemma credential_settles c format b :
  calm c -> active c = Issuance -> is_requesting_credential (issuance c) = true ->
  settled c (credential_received c format b).
Proof.
  intros Hc Ha Hr. unfold credential_received. rewrite Hr. cbn [negb].
  assert (forall v e i, settled c (drive_issuance {| c with pending_verified_credential := v;
    last_credential_ingestion_error := e |} i)) as Hd.
  { intros v e i. set (c1 := {| c with pending_verified_credential := v; last_credential_ingestion_error := e |}).
    assert (framed c c1) as Hf by done. apply (settled_same _ c1); [by apply framed_kept|].
    apply drive_issuance_settles; [by eapply framed_calm|done]. }
  destruct (parse_format format); [|apply Hd]. by destruct (authenticate_received_credential _ _ _ _ _).
Qed.

Lemma trust_settles c rnd chain uris :
  calm c -> active c = Presentation -> is_validated (vp c) = false ->
  settled c (rp_cert_chain_resolved rnd c chain uris).
Proof.
  intros Hc Ha Hv. unfold rp_cert_chain_resolved. destruct (resolve_rp c chain) as [[registered key] sans]. cbv zeta.
  set (c1 := {| c with pending_rp_provenance := _ |}). assert (framed c c1) as Hf by done.
  apply (settled_same _ c1); [by apply framed_kept|].
  apply drive_settles; [by eapply framed_calm|done|]. change (vp c1) with (vp c). by destruct (vp c).
Qed.

(** A result that names the operation its kind of event answers. *)
Lemma main_result_settles c rnd op e :
  calm c -> awaits c op -> kind_fits (op_result op) e = true -> is_generic e = false ->
  settled c (dispatch rnd c e).
Proof.
  intros Hc Ha Hk Hg. pose proof (awaits_decision c op Ha) as Hx.
  destruct e, (op_result op) eqn:Ek; try done; cbn [dispatch].
  - unfold expects in Hx. destruct (active c) eqn:Hac; try done. destruct Hx as [r Hr].
    apply trust_settles; [done..|]. by rewrite Hr.
  - destruct Hx as (s & (Hac & (r & q & Hv & _) & _) & _). apply consented_settles; [done..|]. by rewrite Hv.
  - unfold user_consented. rewrite Hx at 1. by apply drive_proximity_settles.
  - destruct Hx as (s & (Hac & _) & _). unfold user_consented. rewrite Hac at 1. by apply dcapi_consent_settles.
  - destruct Hx as (s & (Hac & (r & q & Hv & _) & _) & _). apply declined_settles; [done..|]. by rewrite Hv.
  - unfold user_declined. rewrite Hx at 1. by apply drive_proximity_settles.
  - destruct Hx as (s & (Hac & _) & _). unfold user_declined. rewrite Hac at 1. by apply reset_quiet.
  - destruct Hx as [Hn Hx]. by apply signature_settles.
  - unfold expects in Hx. destruct (active c) eqn:Hac; try done. by apply delivered_settles.
  - unfold expects in Hx. destruct (active c) eqn:Hac; try done. destruct Hx as [b Hb].
    unfold payment_delivered. rewrite Hac, Hb. unfold record_payment.
    destruct (pay_summary c) as [summary|]; [|by apply finish_quiet].
    destruct (append_frame c (completed_entry c TxnLog.Payment (TxnLog.payee summary) (pay_consent_hash c) []
           (Some summary))) as (Hf & _ & _).
    destruct (append_audit_entry c _) as [c2 [[]|err]]; cbn [fst] in Hf; [by apply finish_quiet|by apply fault_settles].
  - unfold expects in Hx. destruct (active c) eqn:Hac; try done. destruct Hx as [b Hb].
    unfold qes_delivered. rewrite Hac, Hb. by apply finish_quiet.
  - destruct Hx as (s & (Hac & r & Hp & Hq & _) & _). apply drive_payment_settles; [done..|].
    intros r'. rewrite Hp. by intros [= <-].
  - destruct Hx as (s & (Hac & r & Hp & Hq & _) & _). apply drive_payment_settles; [done..|].
    intros r'. rewrite Hp. by intros [= <-].
  - destruct Hx as (s & (Hac & (r & Hp & ->) & Hq) & _). apply drive_qes_settles; [done..|].
    intros r'. rewrite Hp. by intros [= <-].
  - destruct Hx as (s & (Hac & (r & Hp & ->) & Hq) & _). apply drive_qes_settles; [done..|].
    intros r'. rewrite Hp. by intros [= <-].
  - destruct Hx as (s & (Hac & _) & _). by apply drive_issuance_settles.
  - destruct Hx as (s & (Hac & _) & _). by apply drive_issuance_settles.
  - unfold expects in Hx. destruct (active c) eqn:Hac; try done. by apply drive_issuance_settles.
  - unfold expects in Hx. destruct (active c) eqn:Hac; try done. by apply drive_issuance_settles.
  - unfold expects in Hx. destruct (active c) eqn:Hac; try done. by apply drive_issuance_settles.
  - unfold expects in Hx. destruct (active c) eqn:Hac; try done. by apply token_settles.
  - unfold expects in Hx. destruct (active c) eqn:Hac; try done. destruct Hx as [f Hf].
    apply credential_settles; [done..|]. by rewrite Hf.
Qed.

Lemma failure_silent failure : forallb is_silent (failure_effects failure) = true.
Proof. by destruct failure as [[]|]. Qed.

(** An operation that fails or is cancelled ends its flow. *)
Lemma ended_settles c id op failure :
  fits c (pend c) -> bt_get (pending_operations c) id = Some op -> op_flow op = active c ->
  settled (remove_pending c id) (operation_ended c id failure).
Proof.
  intros Hf Hg Hfl. unfold operation_ended. rewrite Hg.
  set (c1 := remove_pending c id).
  assert (base c1) as Hb.
  { destruct (fits_base _ Hf) as [H1 H2 H3 H4]. split; try done.
    eapply Forall_sublist; [|exact H1]. apply map_sublist, remove_sublist. }
  assert (active c1 = op_flow op) as Ha by (by rewrite Hfl). clearbody c1.
  unfold operation_terminal_effects.
  destruct (if bool_decide (op_flow op = Issuance) then issuance_document_summary c1 NeedsAttention else None).
  - apply settle_quiet; [apply kept_reset|by apply fresh_calm, reset_of|done].
  - apply settle_quiet; [apply kept_reset|by apply fresh_calm, reset_of|apply failure_silent].
Qed.

Lemma clock_settles c epoch : fits c (pend c) -> settled c (set_clock c epoch).
Proof.
  intros Hf. unfold set_clock. case_match.
  - case_bool_decide; [by apply abort_settles, fits_base|]. by apply silent_fits.
  - by apply silent_fits.
Qed.

(** A flow starts from a clean slate. *)
Lemma begun c f :
  fits c (pend c) ->
  kept c (begin_flow c f) /\ calm (begin_flow c f) /\ active (begin_flow c f) = f.
Proof.
  intros Hf. split; [apply kept_begin|]. split; [|done]. by apply fresh_calm, begin_fresh, fits_base.
Qed.

Lemma begin_resets {T} (field : Core -> T) (v : T) c f :
  (forall c, field (reset_flow c f) = v) -> (forall c g, field {| c with active := g |} = field c) ->
  field (begin_flow c f) = v.
Proof.
  intros Hr Ha. unfold begin_flow. cbv zeta.
  pose proof (Hr (if bool_decide (active c = NoFlow) then c else reset_flow c (active c))) as H.
  revert H. generalize (reset_flow (if bool_decide (active c = NoFlow) then c else reset_flow c (active c)) f).
  intros c1 <-. apply Ha.
Qed.

Lemma begin_vp c : vp (begin_flow c Presentation) = Oid4vp.Idle.
Proof. apply begin_resets; [apply reset_vp|done]. Qed.

Lemma begin_payment c : payment (begin_flow c Payment) = Payment.Idle.
Proof. apply begin_resets; [apply reset_payment|done]. Qed.

Lemma reset_qes c : qes (reset_flow c QesFlow) = Qes.Idle.
Proof. unfold reset_flow, deactivate. by case_match. Qed.

Lemma begin_qes c : qes (begin_flow c QesFlow) = Qes.Idle.
Proof. apply begin_resets; [apply reset_qes|done]. Qed.

Lemma offer_received_settles c offer chain issuer :
  fits c (pend c) -> settled c (credential_offer_received c offer chain issuer).
Proof.
  intros Hf. destruct (begun c Issuance Hf) as (Hk & Hc & Ha). unfold credential_offer_received. cbv zeta.
  revert Hk Hc Ha. generalize (begin_flow c Issuance). intros c1 Hk Hc Ha.
  match goal with |- settled _ (drive_issuance ?x _) => set (c2 := x) end.
  assert (framed c1 c2) as Hg by done. assert (active c2 = Issuance) as Ha2 by done. clearbody c2.
  apply (settled_same _ c2).
  - transitivity c1; [done|by apply framed_kept].
  - by apply drive_issuance_settles; [eapply framed_calm|].
Qed.

Lemma transfer_settles c credential chain key signature hash n :
  fits c (pend c) -> settled c (transfer_received c credential chain key signature hash n).
Proof.
  intros Hf. unfold transfer_received. destruct (negb (transfer_may_start c)) eqn:Hn; [by apply silent_fits|].
  cbv zeta. set (c1 := if bool_decide (active c = NoFlow) then begin_flow c WalletTransfer else c).
  assert (kept c c1 /\ base c1 /\ active c1 = WalletTransfer) as (Hk & Hb & Ha).
  { unfold c1. case_bool_decide as Ha.
    - destruct (begun c WalletTransfer Hf) as (? & ? & ?). split; [done|]. split; [by apply calm_base|done].
    - split; [done|]. split; [by apply fits_base|]. apply negb_false_iff, orb_true_iff in Hn as [Hn|Hn];
        by apply bool_decide_eq_true in Hn. }
  clearbody c1.
  match goal with |- settled _ (drive_w2w ?x _) => set (c2 := x) end.
  assert (framed c1 c2) as Hg by (split; try done; by rewrite Ha).
  apply (settled_same _ c2); [transitivity c1; [done|by apply framed_kept]|].
  apply receive_settles; [by eapply framed_base|done].
Qed.

Lemma engagement_settles c rnd uuid : fits c (pend c) -> settled c (engagement_requested rnd c uuid).
Proof.
  intros Hf. unfold engagement_requested. destruct (negb (len uuid =? 16)); [by apply silent_fits|].
  destruct (generate (key_random rnd)) as [key|]; [|by apply silent_fits].
  destruct (sec1_to_cose_ec2 (public_raw key)) as [cose|]; [|by apply silent_fits].
  destruct (begun c ProximityFlowKind Hf) as (Hk & Hc & Ha). cbv zeta.
  revert Hk Hc Ha. generalize (begin_flow c ProximityFlowKind). intros c1 Hk Hc Ha.
  match goal with |- settled _ (drive_proximity ?x _) => set (c2 := x) end.
  assert (framed c1 c2) as Hg by done. assert (active c2 = ProximityFlowKind) as Ha2 by done. clearbody c2.
  apply (settled_same _ c2); [transitivity c1; [done|by apply framed_kept]|].
  by apply drive_proximity_settles; [eapply framed_calm|].
Qed.

Lemma reader_settles c b : fits c (pend c) -> settled c (reader_establishment c b).
Proof.
  intros Hf. unfold reader_establishment. destruct (parse_session_establishment b) as [est|];
    [|by apply establishment_settles].
  set (c1 := {| c with proximity := _ |}). assert (alike c c1) as Hl by done.
  apply (settled_same _ c1); [done|]. apply establishment_settles. by apply (alike_fits c).
Qed.

(** ** Events that answer nothing *)

Lemma unsolicited_settles c rnd e :
  fits c (pend c) -> is_operation_result_event (event_type e) = false -> settled c (dispatch rnd c e).
Proof.
  intros Hf Hn. destruct e; try done; cbn [dispatch]; clear Hn.
  - by apply clock_settles.
  - by apply silent_fits.
  - by apply silent_fits.
  - destruct (begun c Presentation Hf) as (Hk & Hc & Ha). apply (settled_same _ _ _ Hk).
    apply drive_settles; [done..|]. by rewrite begin_vp.
  - destruct (begun c Payment Hf) as (Hk & Hc & Ha). apply (settled_same _ _ _ Hk).
    apply drive_payment_settles; [done..|]. by rewrite begin_payment.
  - destruct (begun c QesFlow Hf) as (Hk & Hc & Ha). apply (settled_same _ _ _ Hk).
    apply drive_qes_settles; [done..|]. by rewrite begin_qes.
  - by apply offer_received_settles.
  - unfold transfer_offer_created. destruct (negb (transfer_may_start c)); [by apply silent_fits|].
    destruct (negb _); [by apply terminate_settles, fits_base|].
    destruct (begun c WalletTransfer Hf) as (Hk & Hc & Ha). apply (settled_same _ _ _ Hk). by apply offer_settles.
  - by apply transfer_settles.
  - by apply engagement_settles.
  - by apply reader_settles.
  - by apply hang_up_settles.
  - by apply dcapi_request_settles, fits_base.
Qed.

(** The audit gate in front of the flows it covers. *)
Lemma event_settles c rnd e :
  base c -> settled c (dispatch rnd c e) -> settled c (handle_event rnd c e).
Proof.
  intros Hb Hd. unfold handle_event. destruct (audited_flow_started_by e) as [f|]; [|done].
  destruct (negb (audit_log_available c)); [|case_match; [by apply terminate_settles|done]].
  unfold audit_log_fault_effects. set (c1 := {| c with audit_log_available := false |}).
  assert (framed c c1) as Hf by done. apply (settled_same _ c1); [by apply framed_kept|].
  apply terminate_settles. by apply (framed_base c).
Qed.

(** ** Admission *)

(** How an event passes the boundary: it answers nothing, or it answers a
    pending operation of the active flow, which is named here. *)
Inductive admitted (c : Core) (value : Value) : Event -> Core -> option Z -> Prop :=
| adm_unsolicited e :
    is_operation_result_event (event_type e) = false -> admitted c value e c None
| adm_result e id op :
    bt_get (pending_operations c) id = Some op -> op_flow op = active c ->
    kind_fits (op_result op) e = true -> is_generic e = false ->
    check_authorization id op value (event_type e) = Ok tt ->
    check_resource id op e = Ok tt ->
    admitted c value e (remove_pending c id) (Some id)
| adm_succeeded id op :
    bt_get (pending_operations c) id = Some op -> op_flow op = active c ->
    kind_fits (op_result op) (OperationSucceeded id) = true ->
    admitted c value (OperationSucceeded id) c (Some id)
| adm_failed id op failure :
    bt_get (pending_operations c) id = Some op -> op_flow op = active c ->
    admitted c value (OperationFailed id failure) c (Some id)
| adm_cancelled id op :
    bt_get (pending_operations c) id = Some op -> op_flow op = active c ->
    admitted c value (OperationCancelled id) c (Some id).

(** The operation a value names. *)
Definition operation_named (value : Value) : option Z :=
  let! x := v_get value "operationId" in v_as_u64 x.

Definition consume (c : Core) (id : option Z) : Core :=
  match id with Some id => remove_pending c id | None => c end.

Lemma check_result_ok c value e id :
  check_result c value e (event_type e) = Ok id ->
  (let! x := v_get value "operationId" in v_as_u64 x) = Some id
  /\ exists op, bt_get (pending_operations c) id = Some op /\ op_flow op = active c
       /\ (is_terminal e = false -> kind_fits (op_result op) e = true)
       /\ check_authorization id op value (event_type e) = Ok tt
       /\ check_resource id op e = Ok tt.
Proof.
  unfold check_result. destruct (let! x := v_get value "operationId" in v_as_u64 x) as [i|]; [|done]. cbn -[check_resource check_authorization].
  destruct (bt_get (pending_operations c) i) as [op|] eqn:Hg; [|done]. cbn -[check_resource check_authorization].
  case_bool_decide as Hf; [|done]. cbn -[check_resource check_authorization].
  destruct (negb (is_terminal e) && negb (accepts_event (op_result op) (event_type e))) eqn:Ha; [done|].
  destruct (check_authorization i op value (event_type e)) as [[]|] eqn:Hc; [|done]. cbn -[check_resource check_authorization].
  destruct (negb (is_terminal e) && negb (operation_result_state_is_valid _ _)); [done|].
  destruct (check_resource i op e) as [[]|] eqn:Hr; [|done]. cbn -[check_resource check_authorization]. intros [= <-]. split; [done|].
  exists op. split_and!; try done. intros Ht. rewrite accepts_kind, Ht in Ha. by destruct (kind_fits _ _).
Qed.

Lemma admit_admitted {L : WireLaws} c json c1 e :
  admit_event c json = Ok (c1, e) ->
  exists value id, value_from_slice json = Some value /\ event_from_value value = Some e
    /\ v_get_str value "type" = Some (event_type e) /\ admitted c value e c1 id
    /\ id = if is_operation_result_event (event_type e) then operation_named value else None.
Proof.
  unfold admit_event. destruct (value_from_slice json) as [value|] eqn:Hv; [|done]. cbn -[is_operation_result_event check_result operation_named].
  destruct (v_get_str value "type") as [t|] eqn:Ht; [|done]. cbn -[is_operation_result_event check_result operation_named].
  destruct (event_from_value value) as [e'|] eqn:He; [|done]. cbn -[is_operation_result_event check_result operation_named].
  pose proof (event_tag _ _ He) as Htag. rewrite Ht in Htag. injection Htag as ->.
  destruct (is_operation_result_event (event_type e')) eqn:Hr.
  2: { intros Heq. injection Heq as <- <-. exists value, None. rewrite Hr. split_and!; try done. by apply adm_unsolicited. }
  destruct (check_result c value e' (event_type e')) as [id|] eqn:Hc; [|done].
  cbn -[is_generic remove_pending is_operation_result_event operation_named]. intros Heq. injection Heq as <- <-.
  apply check_result_ok in Hc as (Hid & op & Hg & Hf & Hk & Hca & Hcr).
  exists value, (Some id). rewrite Hr. split_and!; try done.
  pose proof (event_operation_id _ _ He) as Hop.
  destruct (is_generic e') eqn:Hgen.
  - destruct e'; try done; rewrite Hop in Hid; injection Hid as <-.
    + eapply adm_succeeded; [done..|]. by apply Hk.
    + by eapply adm_failed.
    + by eapply adm_cancelled.
  - eapply adm_result; try done. apply Hk. by destruct e'.
Qed.

(** What an admitted event does settles, and its operation is gone. *)
Lemma admitted_settles c value e c1 id rnd :
  fits c (pend c) -> admitted c value e c1 id -> settled (consume c id) (handle_event rnd c1 e).
Proof.
  intros Hf. destruct 1 as [e Hn|e id op Hg Hfl Hk Hgen Ha Hr|id op Hg Hfl Hk|id op failure Hg Hfl|id op Hg Hfl];
    cbn [consume].
  - apply event_settles; [by apply fits_base|]. by apply unsolicited_settles.
  - destruct (main op) eqn:Hm.
    + destruct (consume_main _ _ _ Hf Hg Hm) as [Haw Hc].
      apply event_settles; [by apply calm_base|]. by apply (main_result_settles _ _ op).
    + pose proof (consume_side _ _ _ Hf Hg Hm) as Hf1.
      apply event_settles; [by apply fits_base|]. unfold main, is_side in Hm.
      destruct (op_result op) as [| | | | | | | | | | | |uri| | | | | | |] eqn:Ek; try done; destruct e; try done.
      cbn [dispatch]. apply status_settles; [done|]. cbn [active remove_pending].
      pose proof (fits_placed _ _ Hf) as Hp. rewrite List.Forall_forall in Hp.
      destruct (remove_split _ _ _ Hg) as (k & l & Ho & _).
      destruct (Hp op) as [[_ Hs]|(_ & _ & Hs)]; [|congruence|by eapply Hs].
      unfold pend. rewrite Ho, map_app. apply in_or_app. right. by left.
  - change (handle_event rnd c (OperationSucceeded id)) with (remove_pending c id, @nil Effect).
    destruct (main op) eqn:Hm.
    + destruct (consume_main _ _ _ Hf Hg Hm) as [_ Hc]. by apply settle_quiet.
    + pose proof (consume_side _ _ _ Hf Hg Hm) as Hf1. split; [done|]. split; [by apply fits_base|].
      intros p [= <-]. by rewrite app_nil_r.
  - by apply (ended_settles _ _ op).
  - by apply (ended_settles _ _ op).
Qed.

(** What an event leaves pending: what was, without the operation it answers,
    and operations under identifiers that are new. *)
Record advances (c : Core) (id : option Z) (c' : Core) : Prop := {
  adv_next : next_operation_id c <= next_operation_id c';
  adv_pending : forall i op, bt_get (pending_operations c') i = Some op ->
    (bt_get (pending_operations c) i = Some op /\ id <> Some i) \/ next_operation_id c <= i;
}.

Lemma consume_ids c id : ids_ok c -> ids_ok (consume c id).
Proof. destruct id; [|done]. apply ids_kept, kept_remove. Qed.

Lemma consume_get c id i op :
  ids_ok c -> bt_get (pending_operations (consume c id)) i = Some op ->
  bt_get (pending_operations c) i = Some op /\ id <> Some i.
Proof.
  intros Hi. destruct id as [id|]; [|done]. cbn [consume remove_pending pending_operations].
  rewrite bt_get_remove by apply Hi. destruct (key_cmp i id) eqn:Hc; [done|..].
  - split; [done|]. intros [= ->]. by rewrite key_cmp_refl in Hc.
  - split; [done|]. intros [= ->]. by rewrite key_cmp_refl in Hc.
Qed.

Lemma sublist_get (k m : BTreeMap Z PendingOperation) i op :
  sublist k m -> bt_ok m -> bt_get k i = Some op -> bt_get m i = Some op.
Proof.
  intros Hs Hm Hg. apply bt_get_In in Hg; [|by eapply sorted_sublist]. apply bt_get_In; [done|].
  apply list_elem_of_In. eapply elem_of_sublist; [by apply list_elem_of_In|done].
Qed.

Lemma serialize_advances c id r c' json :
  ids_ok c -> settled (consume c id) r -> serialize_wire_effects (fst r) (snd r) = (c', Ok json) ->
  Inv c' /\ advances c id c'.
Proof.
  intros Hi Hs H. pose proof (consume_ids c id Hi) as Hi1.
  destruct (serialize_Inv _ _ _ _ Hi1 Hs H) as [Hv Hn]. split; [done|].
  assert (next_operation_id (consume c id) = next_operation_id c) as Hc by (by destruct id).
  rewrite Hc in Hn. split; [done|]. intros i op Hg.
  destruct Hs as ((Hk & Hkn) & _). pose proof (ids_kept _ _ (conj Hk Hkn) Hi1) as Hi2.
  pose proof (serialize_ok _ _ _ _ Hi2 H) as (p & _ & -> & _). cbn [pending_operations] in Hg.
  apply bt_get_In in Hg; [|apply Hv]. apply in_app_iff in Hg as [Hg|Hg].
  - left. apply (consume_get _ _ _ _ Hi). eapply sublist_get; [exact Hk|apply Hi1|].
    apply bt_get_In; [apply Hi2|done].
  - right. pose proof (number_range (next_operation_id (fst r)) (operations_of p)) as Hr.
    rewrite List.Forall_forall in Hr. specialize (Hr _ Hg). cbn in Hr. lia.
Qed.

(** ** One event over the wire *)

Lemma admitted_advances {L : WireLaws} c rnd json c1 e value id :
  Inv c -> admit_event c json = Ok (c1, e) -> admitted c value e c1 id ->
  Inv (fst (handle_event_json rnd c json)) /\ advances c id (fst (handle_event_json rnd c json)).
Proof.
  intros [Hids Hf] Ha Hadm. unfold handle_event_json. rewrite Ha.
  pose proof (admitted_settles _ _ _ _ _ rnd Hf Hadm) as Hs.
  destruct (handle_event rnd c1 e) as [c2 effects].
  destruct (serialize_wire_effects c2 effects) as [c3 [json'|err]] eqn:Hser; cbn [fst].
  - by apply (serialize_advances c id (c2, effects) c3 json').
  - apply serialize_err in Hser as ->. destruct Hs as ((_ & Hn) & Hb & _). cbn [fst] in *.
    split; [by apply tear_down_Inv|]. split.
    + assert (next_operation_id (consume c id) = next_operation_id c) as Hc by (by destruct id).
      unfold tear_down. case_bool_decide; cbn; rewrite ?reset_next; lia.
    + intros i op Hg. unfold tear_down in Hg. by case_bool_decide.
Qed.

Lemma handle_event_json_advances {L : WireLaws} c rnd json :
  Inv c ->
  Inv (fst (handle_event_json rnd c json))
  /\ (fst (handle_event_json rnd c json) = c
      \/ exists c1 e value id, admit_event c json = Ok (c1, e) /\ admitted c value e c1 id
           /\ advances c id (fst (handle_event_json rnd c json))).
Proof.
  intros Hi. destruct (admit_event c json) as [[c1 e]|] eqn:Ha.
  - pose proof (admit_admitted _ _ _ _ Ha) as (value & id & _ & _ & _ & Hadm & _).
    destruct (admitted_advances c rnd json c1 e value id Hi Ha Hadm) as [H1 H2].
    split; [done|]. right. by exists c1, e, value, id.
  - unfold handle_event_json. rewrite Ha. split; [done|by left].
Qed.
End results.
