(* ===== verification/EngineSpec.v ===== *)
(** * Histories of the engine

    Whatever the host calls, in whatever order, the pending operations are the
    ones the machines wait for; an approval is bound to the screen that
    describes what is approved; and a result is accepted once. *)

From stdpp Require Import list relations.
From S2P Require Import Cbor Cose Mdoc Oid4vp Dcql Payment Oid4vci Qes W2w Proximity Status Wua.
From S2P Require Import TxnLog Trust SdJwt Presenter Sealing ProximitySession DcApiRequests Durable.
From S2P Require Import Prelude Utf8 BTree Boundary Serde SdJwtProcess Catalogue X509 X509Path.
From S2P Require Import PidProfile Holdings CredentialChecks WalletCore Ingestion Summaries DurableCore.
From S2P Require Import Selection QuerySelection Responses Effects Facade Dispatch Wire Engine.
From S2P Require Import WireOps WireFlows WireSpec.
From S2P Require X509Profiles IngestionSpec.

Open Scope Z_scope.
Open Scope rust_scope.

(** ** Loaders leave the flows alone *)

(** A core with the same operations, waiting for the same results. *)
Definition untouched (c c' : Core) : Prop :=
  alike c c' /\ pending_operations c' = pending_operations c
  /\ next_operation_id c' = next_operation_id c.

(** Nothing has been started. *)
Record idle (c : Core) : Prop := {
  idle_active : active c = NoFlow;
  idle_operations : pending_operations c = [];
  idle_status : pending_status_references c = [];
  idle_reader : prox_state (proximity c) = Proximity.Idle;
}.

Lemma untouched_idle c c' : untouched c c' -> idle c -> idle c'.
Proof. intros ([] & Ho & _) []. split; congruence. Qed.

Section history.
Context `{JL : JsonLib} {JV : JsonValue} {SJ : SerdeJson} `{B64 : Base64} `{D : Digest} `{V : Verifier}
  `{X : X509Der} `{CV : CertVerifier} `{SB : StdBase64} `{PQ : MlDsa} `{INF : Inflate}
  {A : Aead} {K : Kdf} {E : Ecdh} {W : WireCodec}.

Lemma untouched_Inv c c' : untouched c c' -> Inv c -> Inv c'.
Proof.
  intros (Hl & Ho & Hn) [[H1 H2 H3] Hf]. split.
  - split; by rewrite ?Ho, ?Hn.
  - unfold pend. rewrite Ho. by eapply alike_fits.
Qed.

Lemma idle_Inv c : idle c -> Inv c.
Proof.
  intros [Ha Ho Hs Hr]. split.
  - split; rewrite Ho; [constructor..|done].
  - unfold pend. rewrite Ho. split; rewrite ?Hs, ?Hr; [constructor|by left|by left|done|done].
Qed.

Lemma trust_untouched c l k : untouched c (fst (load_trust_list c l k)).
Proof.
  unfold load_trust_list. destruct (Trust.parse_and_verify _ _ _ _) as [t|]; [|done].
  by destruct (Trust.update _ _).
Qed.

Lemma wua_untouched c w k : untouched c (fst (load_wua c w k)).
Proof. unfold load_wua. by destruct (Wua.parse_and_verify _ _ _ _). Qed.

Lemma status_untouched c uri token chain : untouched c (fst (load_status_list c uri token chain)).
Proof.
  unfold load_status_list. destruct (now_epoch c <=? 0); [done|]. destruct (negb (valid_status_uri uri)); [done|].
  destruct (resolve_status_provider_key c chain); [|done].
  destruct (Status.parse_and_verify token uri _ Es256 (now_epoch c)); [|done]. by case_match.
Qed.

Lemma ingest_untouched c format b chain issuer : untouched c (fst (ingest_credential c format b chain issuer)).
Proof.
  unfold ingest_credential. destruct (let? _ := _ in _) as [a|]; [|done].
  unfold store_verified_credential. by destruct (credential a).
Qed.

(** ** Steps of the host *)

Inductive engine_step (e : WalletEngine) : WalletEngine -> Prop :=
| step_prepare random rnd clock list operator device wua provider :
    engine_step e (fst (prepare_durable_environment e random rnd clock list operator device wua provider))
| step_restore random checkpoint generation :
    engine_step e (fst (engine_restore e random checkpoint generation))
| step_trust list key : engine_step e (fst (engine_load_trust_list e list key))
| step_device key : engine_step e (engine_load_device_key e key)
| step_status uri token chain : engine_step e (fst (engine_load_status_list e uri token chain))
| step_wua jwt key : engine_step e (fst (engine_load_wua e jwt key))
| step_ingest format b chain issuer : engine_step e (fst (engine_ingest_credential e format b chain issuer))
| step_inject jwt disclosures index : engine_step e (engine_load_credential e jwt disclosures index)
| step_redact seq : engine_step e (fst (engine_redact_transaction e seq))
| step_wipe : engine_step e (engine_wipe_transaction_log e)
| step_event rnd json : engine_step e (fst (engine_handle_event_json rnd e json)).

(** The engines a host can have. *)
Definition engine_reached (e : WalletEngine) : Prop :=
  exists wallet key random, rtc engine_step (engine_new wallet key random) e.

(** An engine whose checkpoint may still be restored has started nothing. *)
Definition engine_ok (e : WalletEngine) : Prop :=
  Inv (core e)
  /\ match durable_phase e with Fresh | Prepared => idle (core e) | _ => True end.

Lemma loaded_ok e c :
  engine_ok e -> untouched (core e) c ->
  engine_ok {| core := c; durable_phase := durable_phase (mark_legacy_if_fresh e) |}.
Proof.
  intros [Hi Hp] Hu. split; cbn [core durable_phase]; [by eapply untouched_Inv|].
  unfold mark_legacy_if_fresh. destruct (durable_phase e) eqn:Hd; cbn [durable_phase]; rewrite ?Hd; try done.
  by eapply untouched_idle.
Qed.

Lemma logged_ok e c :
  engine_ok e -> untouched (core e) c ->
  engine_ok {| core := c; durable_phase :=
    durable_phase (if is_durable (durable_phase e) then e else mark_legacy_if_fresh e) |}.
Proof.
  intros Hok Hu. pose proof (loaded_ok e c Hok Hu) as H. unfold mark_legacy_if_fresh in *.
  by destruct (durable_phase e).
Qed.

Lemma mark_core e : core (mark_legacy_if_fresh e) = core e.
Proof. unfold mark_legacy_if_fresh. by destruct (durable_phase e). Qed.

Lemma durable_core e : core (if is_durable (durable_phase e) then e else mark_legacy_if_fresh e) = core e.
Proof. destruct (is_durable _); [done|]. apply mark_core. Qed.

Lemma staged_idle c random rnd clock l operator device w provider c' :
  staged_environment c random rnd clock l operator device w provider = Ok c' -> idle c'.
Proof.
  unfold staged_environment. cbn [handle_event audited_flow_started_by dispatch].
  set (c0 := new _ _ random). assert (idle c0) as H0 by done.
  assert (active c0 = NoFlow) as Ha by done. clearbody c0.
  unfold set_clock. destruct (clock <? now_epoch c0).
  { rewrite Ha. cbn. done. }
  set (c1 := {| c0 with now_epoch := clock |}). assert (idle c1) as H1 by (by destruct H0). clearbody c1.
  pose proof (trust_untouched c1 l operator) as H2. destruct (load_trust_list c1 l operator) as [c2 []]; [|done].
  cbn [fst] in H2. set (c3 := load_device_key c2 device).
  assert (idle c3) as H3 by (apply (untouched_idle c2); [done|by eapply untouched_idle]). clearbody c3.
  pose proof (wua_untouched c3 w provider) as H4. destruct (load_wua c3 w provider) as [c4 []]; [|done].
  cbn [fst] in H4. intros [= <-]. by eapply untouched_idle.
Qed.

Lemma prepare_ok e random rnd clock l operator device w provider :
  engine_ok e ->
  engine_ok (fst (prepare_durable_environment e random rnd clock l operator device w provider)).
Proof.
  intros Hok. unfold prepare_durable_environment. destruct (_ || _); [done|]. destruct (negb _); [done|].
  destruct (staged_environment _ _ _ _ _ _ _ _ _) as [c|] eqn:Hs; [|done].
  apply staged_idle in Hs. split; cbn; [by apply idle_Inv|done].
Qed.

Lemma restore_idle c random checkpoint g c' :
  idle c -> staged_restore c random checkpoint g = Ok c' -> idle c'.
Proof.
  intros [_ _ _ Hr]. unfold staged_restore. intros H. ok_steps H.
  match goal with p : (list _ * list _)%type |- _ => destruct p as [sd mdoc] end.
  ok_steps H. injection H as <-. by split.
Qed.

Lemma restore_ok e random checkpoint g : engine_ok e -> engine_ok (fst (engine_restore e random checkpoint g)).
Proof.
  intros [Hi Hp]. unfold engine_restore. case_bool_decide as Hd; [|done]. cbn [negb]. unfold restore_durable_checkpoint.
  destruct (staged_restore _ _ _ _) as [c|] eqn:Hs; cbn [fst].
  - rewrite Hd in Hp. apply restore_idle in Hs; [|done]. split; [by apply idle_Inv|done].
  - by split.
Qed.

Lemma step_ok {L : WireLaws} e e' : engine_step e e' -> engine_ok e -> engine_ok e'.
Proof.
  intros Hst Hok. destruct Hst.
  - by apply prepare_ok.
  - by apply restore_ok.
  - pose proof (loaded_ok e _ Hok (trust_untouched (core e) list key)) as H. unfold engine_load_trust_list.
    rewrite mark_core. by destruct (load_trust_list _ _ _).
  - unfold engine_load_device_key. rewrite mark_core. by apply loaded_ok.
  - pose proof (loaded_ok e _ Hok (status_untouched (core e) uri token chain)) as H. unfold engine_load_status_list.
    rewrite mark_core. by destruct (load_status_list _ _ _ _).
  - pose proof (loaded_ok e _ Hok (wua_untouched (core e) jwt key)) as H. unfold engine_load_wua.
    rewrite mark_core. by destruct (load_wua _ _ _).
  - pose proof (loaded_ok e _ Hok (ingest_untouched (core e) format b chain issuer)) as H.
    unfold engine_ingest_credential. rewrite mark_core. by destruct (ingest_credential _ _ _ _ _).
  - done.
  - unfold engine_redact_transaction. cbn [fst]. rewrite durable_core. by apply logged_ok.
  - unfold engine_wipe_transaction_log. rewrite durable_core. by apply logged_ok.
  - unfold engine_handle_event_json. pose proof (handle_event_json_advances (core e) rnd json (proj1 Hok)) as [H _].
    destruct (handle_event_json _ _ _) as [c r]. split; [done|]. cbn. by destruct (durable_phase e).
Qed.

Lemma new_ok wallet key random : engine_ok (engine_new wallet key random).
Proof. assert (idle (core (engine_new wallet key random))) as H by done. split; [by apply idle_Inv|done]. Qed.

Lemma reached_ok {L : WireLaws} e : engine_reached e -> engine_ok e.
Proof.
  intros (wallet & key & random & H). remember (engine_new wallet key random) as e0 eqn:He.
  assert (engine_ok e0) as Hok by (subst; apply new_ok). clear He.
  induction H as [|e0 e1 e2 Hs _ IH]; [done|]. apply IH. by eapply step_ok.
Qed.

(** ** What is pending *)

(** C4: In every engine a host can bring about, by any order of calls and any events over the wire, the
    pending operations are those the machines wait for: their identifiers are below the next one and at
    most 32 wait; each belongs to the active flow or is the stale persistence of a nonce; at most one
    drives a machine, and then the machine of the active flow is in the state that its result takes
    further, or a decision is bound to the hash of the screen that describes that state; status lists are
    awaited only in a validated presentation; a reader session is open only in the proximity flow. *)
Theorem engine_operations_fit {L : WireLaws} e :
  engine_reached e -> ids_ok (core e) /\ fits (core e) (pend (core e)).
Proof. intros [H _]%reached_ok. exact H. Qed.

(** ** Approvals *)

Lemma approval_kind e : is_approval (event_type e) = true ->
  e = UserConsented \/ e = PaymentApproved \/ e = QesAuthorized \/ e = CredentialOfferAccepted.
Proof. destruct e; try done; auto. Qed.

Lemma approval_main op e :
  is_approval (event_type e) = true -> kind_fits (op_result op) e = true ->
  main op = true /\ (forall c, ~ expects c (op_result op)) /\ op_result op <> Signature.
Proof.
  intros [->|[->|[->| ->]]]%approval_kind; unfold main, is_side, expects;
    destruct (op_result op); try done; intros _; (split; [done|]); (split; [|done]);
    intros c H; by destruct (active c).
Qed.

(** A consent that comes after the reader has hung up does nothing. *)
Lemma hung_up_silent rnd c :
  active c = ProximityFlowKind -> prox_state (proximity c) = Proximity.Terminated ->
  snd (handle_event rnd c UserConsented) = [].
Proof.
  intros Ha Hp. unfold handle_event. cbn [audited_flow_started_by dispatch]. unfold user_consented. rewrite Ha.
  unfold drive_proximity. cbn [establish capture_signature]. rewrite Hp. cbn [Proximity.step translate_each].
  done.
Qed.

(** C2: What you approve is what you saw.  When an approval is admitted - of a presentation, a payment, a
    signature, an offer, a proximity or browser request - it names a pending operation and carries the
    hash of the screen that describes what the machine of the active flow will carry out: the request,
    payee and amount, document or claims it holds now.  The only exception is a consent to a reader that
    has hung up, and it has no effect. *)
Theorem approval_binds_screen {L : WireLaws} rnd e json c1 event :
  engine_reached e ->
  admit_event (core e) json = Ok (c1, event) -> is_approval (event_type event) = true ->
  exists value id op,
    value_from_slice json = Some value /\ operation_named value = Some id
    /\ bt_get (pending_operations (core e)) id = Some op /\ c1 = remove_pending (core e) id
    /\ ((exists screen, describes (core e) (op_result op) screen
           /\ wire_authorization_hash value (event_type event) = Ok (Presenter.consent_hash screen))
        \/ (active (core e) = ProximityFlowKind
            /\ prox_state (proximity (core e)) = Proximity.Terminated
            /\ snd (handle_event rnd c1 event) = [])).
Proof.
  intros [[_ Hf] _]%reached_ok Ha Hap.
  apply admit_admitted in Ha as (value & id & Hv & _ & _ & Hadm & Hid).
  destruct Hadm as [ev Hn|ev id op Hg Hfl Hk Hgen Hauth Hr| | |];
    [exfalso; by destruct (approval_kind _ Hap) as [->|[->|[->| ->]]]| |done..].
  assert (is_operation_result_event (event_type ev) = true) as Hres
    by (by destruct (approval_kind _ Hap) as [->|[->|[->| ->]]]).
  rewrite Hres in Hid. exists value, id, op. split_and!; try done.
  destruct (approval_main _ _ Hap Hk) as (Hm & Hx & Hs).
  destruct (consume_main _ _ _ Hf Hg Hm) as [[_ Hw] _].
  destruct Hw as [(screen & Hd & Hh)|[He|(Hac & Hp & Hop)]].
  - left. exists screen. split; [done|]. unfold check_authorization in Hauth. rewrite Hap, Hh in Hauth. cbn in Hauth.
    destruct (wire_authorization_hash value (event_type ev)) as [h|]; [|done]. cbn in Hauth.
    case_bool_decide; [|done]. by f_equal.
  - by destruct (Hx (core e)).
  - right. split_and!; try done. destruct Hop as [Hop|Hop]; [|done]. rewrite Hop in Hk.
    assert (ev = UserConsented) as -> by (by destruct (approval_kind _ Hap) as [->|[->|[->| ->]]]).
    by apply hung_up_silent.
Qed.

(** ** Results are used once *)

Definition started (e : WalletEngine) : bool :=
  match durable_phase e with Running | Legacy => true | _ => false end.

(** The identifier was issued and is not pending, and cannot be issued again. *)
Record spent (e : WalletEngine) (id : Z) : Prop := {
  spent_started : started e = true;
  spent_below : id < next_operation_id (core e);
  spent_gone : bt_get (pending_operations (core e)) id = None;
}.

Lemma started_mark e : started e = true -> mark_legacy_if_fresh e = e.
Proof. unfold started, mark_legacy_if_fresh. by destruct (durable_phase e). Qed.

Lemma untouched_spent e id c :
  spent e id -> untouched (core e) c -> spent {| core := c; durable_phase := durable_phase e |} id.
Proof. intros [H1 H2 H3] (_ & Ho & Hn). split; cbn; [done|by rewrite Hn|by rewrite Ho]. Qed.

Lemma step_spent {L : WireLaws} e e' id : engine_ok e -> engine_step e e' -> spent e id -> spent e' id.
Proof.
  intros Hok Hst Hsp. pose proof (spent_started _ _ Hsp) as Hs.
  assert ((if is_durable (durable_phase e) then e else mark_legacy_if_fresh e) = e) as Hd.
  { rewrite started_mark by done. by destruct (is_durable _). }
  destruct Hst.
  - unfold prepare_durable_environment. destruct (_ || _); [done|]. case_bool_decide as Hf; [|done].
    unfold started in Hs. by rewrite Hf in Hs.
  - unfold engine_restore. case_bool_decide as Hf; [|done]. unfold started in Hs. by rewrite Hf in Hs.
  - pose proof (untouched_spent e id _ Hsp (trust_untouched (core e) list key)) as H. unfold engine_load_trust_list.
    rewrite started_mark by done. by destruct (load_trust_list _ _ _).
  - unfold engine_load_device_key. rewrite started_mark by done. by apply untouched_spent.
  - pose proof (untouched_spent e id _ Hsp (status_untouched (core e) uri token chain)) as H. unfold engine_load_status_list.
    rewrite started_mark by done. by destruct (load_status_list _ _ _ _).
  - pose proof (untouched_spent e id _ Hsp (wua_untouched (core e) jwt key)) as H. unfold engine_load_wua.
    rewrite started_mark by done. by destruct (load_wua _ _ _).
  - pose proof (untouched_spent e id _ Hsp (ingest_untouched (core e) format b chain issuer)) as H.
    unfold engine_ingest_credential. rewrite started_mark by done. by destruct (ingest_credential _ _ _ _ _).
  - done.
  - unfold engine_redact_transaction. rewrite Hd. by apply untouched_spent.
  - unfold engine_wipe_transaction_log. rewrite Hd. by apply untouched_spent.
  - unfold engine_handle_event_json.
    pose proof (handle_event_json_advances (core e) rnd json (proj1 Hok)) as [_ H].
    destruct (handle_event_json _ _ _) as [c r]. cbn [fst] in *. destruct Hsp as [H1 H2 H3].
    assert (started {| core := c; durable_phase := phase_after_event (durable_phase e) |} = true) as Hst
      by (unfold started; cbn; by destruct (durable_phase e)).
    destruct H as [->|(c1 & ev & value & i & _ & _ & Hn & Hp)]; [by split|].
    split; cbn; [done|lia|]. destruct (bt_get (pending_operations c) id) as [op|] eqn:Hg; [|done].
    destruct (Hp _ _ Hg) as [[Hq _]|Hq]; [congruence|lia].
Qed.

Lemma steps_spent {L : WireLaws} e e' id :
  engine_ok e -> rtc engine_step e e' -> spent e id -> spent e' id.
Proof.
  intros Hok H. induction H as [|e e1 e2 Hs _ IH]; [done|]. intros Hp. apply IH; [by eapply step_ok|].
  by eapply step_spent.
Qed.

(** A result for an operation that is not pending is refused and changes
    nothing. *)
Lemma unknown_refused rnd c json value t id :
  value_from_slice json = Some value -> v_get_str value "type" = Some t ->
  is_operation_result_event t = true -> operation_named value = Some id ->
  bt_get (pending_operations c) id = None ->
  exists err, handle_event_json rnd c json = (c, Err err).
Proof.
  intros Hv Ht Hr Hid Hg. unfold handle_event_json.
  assert (exists err, admit_event c json = Err err) as [err ->]; [|by exists err].
  unfold admit_event. rewrite Hv. cbn -[is_operation_result_event check_result]. rewrite Ht.
  cbn -[is_operation_result_event check_result].
  destruct (event_from_value value) as [ev|]; [|by eexists]. cbn -[is_operation_result_event check_result].
  rewrite Hr. unfold operation_named in Hid. unfold check_result. rewrite Hid. cbn. rewrite Hg. by eexists.
Qed.

(** C5: A result is used once.  After an engine has admitted a result for an operation - a decision, a
    signature, a delivery, a fetched document, a failure or cancellation - every later message that names
    this operation as its own is refused without any change of the wallet, whatever the host calls in
    between: the identifier is never pending again. *)
Theorem result_single_use {L : WireLaws} rnd rnd' e e' json json' c1 event value value' id t :
  engine_reached e ->
  admit_event (core e) json = Ok (c1, event) -> is_operation_result_event (event_type event) = true ->
  value_from_slice json = Some value -> operation_named value = Some id ->
  rtc engine_step (fst (engine_handle_event_json rnd e json)) e' ->
  value_from_slice json' = Some value' -> v_get_str value' "type" = Some t ->
  is_operation_result_event t = true -> operation_named value' = Some id ->
  bt_get (pending_operations (core e')) id = None
  /\ exists err, handle_event_json rnd' (core e') json' = (core e', Err err).
Proof.
  intros Hok%reached_ok Ha Hres Hv Hid Hsteps Hv' Ht Hr Hid'.
  assert (spent (fst (engine_handle_event_json rnd e json)) id) as Hsp.
  { pose proof (admit_admitted _ _ _ _ Ha) as (v & i & Hv2 & _ & _ & Hadm & Hi).
    rewrite Hres in Hi. rewrite Hv2 in Hv. injection Hv as ->. rewrite Hid in Hi. subst i.
    assert (exists op, bt_get (pending_operations (core e)) id = Some op) as [op Hop]
      by (inversion Hadm; subst; eauto).
    destruct Hok as [[Hids Hfit] _].
    assert (id < next_operation_id (core e)) as Hlt.
    { pose proof (ids_below _ Hids) as Hb. rewrite List.Forall_forall in Hb.
      apply bt_get_In in Hop; [|apply Hids]. by specialize (Hb _ Hop). }
    assert (advances (core e) (Some id) (fst (handle_event_json rnd (core e) json))) as [Hn Hp]
      by (by eapply admitted_advances; [split|..]).
    unfold engine_handle_event_json. destruct (handle_event_json _ _ _) as [c r]. cbn [fst] in *.
    split; cbn; [unfold started; cbn; by destruct (durable_phase e)|lia|].
    destruct (bt_get (pending_operations c) id) as [op'|] eqn:Hg; [|done].
    destruct (Hp _ _ Hg) as [[_ Hq]|Hq]; [done|lia]. }
  assert (engine_ok (fst (engine_handle_event_json rnd e json))) as Hok1.
  { eapply step_ok; [apply step_event|done]. }
  pose proof (steps_spent _ _ _ Hok1 Hsteps Hsp) as [_ _ Hgone]. split; [done|]. by eapply unknown_refused.
Qed.
End history.

(** ** A payment, from request to approval *)

Module Examples.
Import X509Profiles.Examples IngestionSpec.Examples.
#[local] Existing Instances Samples.hex64 Samples.trunc_digest Samples.echo_verifier Samples.stored_inflate.
#[local] Existing Instances Sealing.Samples.tagging Sealing.Samples.adding Sealing.Samples.concat_kdf.

#[export] Instance shop_json : JsonLib := {|
  Boundary.Json := Samples.doc;
  Boundary.from_slice := @Boundary.from_slice Payment.sample_json;
  Boundary.get := Samples.doc_get;
  Boundary.as_str := Samples.doc_str;
  Boundary.as_u64 := Samples.doc_u64;
  Boundary.as_i64 := Samples.doc_i64;
  Boundary.as_bool := fun d => match d with Samples.DBool b => Some b | _ => None end;
  Boundary.as_array := fun d => match d with Samples.DArr l => Some l | _ => None end;
  Boundary.to_string := (fun d => match d with Samples.DStr s => s | _ => ""%string end);
  Boundary.j_string := Samples.DStr;
  Boundary.j_int := Samples.DInt;
  Boundary.j_array := Samples.DArr;
  Boundary.j_object := Samples.DObj;
|}.
#[export] Instance shop_value : JsonValue := {| json_value := fun _ => VNull |}.

(** Two kinds of events, told apart by their tag. *)
Definition read_event (v : Value) : option Event :=
  let! t := v_get_str v "type" in
  if String.eqb t "paymentAuthorizationRequestReceived" then Some (PaymentAuthorizationRequestReceived [])
  else if String.eqb t "paymentApproved" then Some PaymentApproved
  else None.

#[export] Instance shop_codec : WireCodec := {|
  event_from_value := read_event;
  effect_to_value := fun _ => VObject [("type"%string, VString "effect")] |}.

#[export] Instance shop_laws : WireLaws.
Proof.
  assert (forall v e, read_event v = Some e ->
    (e = PaymentAuthorizationRequestReceived [] \/ e = PaymentApproved) /\ v_get_str v "type" = Some (event_type e)) as H.
  { intros v e. unfold read_event. destruct (v_get_str v "type") as [t|]; [|done]. cbn -[String.eqb].
    destruct (String.eqb_spec t "paymentAuthorizationRequestReceived") as [->|_]; [intros [= <-]; auto|].
    destruct (String.eqb_spec t "paymentApproved") as [->|_]; [intros [= <-]; auto|done]. }
  split; [by intros v e [_ He]%H|by intros v e [[->| ->] _]%H|done].
Qed.

Definition engine0 : WalletEngine := engine_new "wallet" "key" (repeat Byte.x00 8).

Definition shown : bytes :=
  match Payment.parse_request [] with
  | Some r => Presenter.consent_hash (payment_screen r)
  | None => []
  end.

Definition message (kind : string) : Value :=
  VObject [("authorizationHash"%string, VArray (map (fun b => VNumber (PosInt (byte.unsigned b))) shown));
           ("operationId"%string, VNumber (PosInt (next_operation_id (core engine0))));
           ("type"%string, VString kind)].

#[export] Instance shop_serde : SerdeJson := {|
  value_from_slice := (fun b =>
    match b with
    | [Byte.x52] => Some (message "paymentAuthorizationRequestReceived")
    | [Byte.x41] => Some (message "paymentApproved")
    | _ => None
    end);
  value_to_vec := fun _ => [] |}.

Definition draws : Draws := {| key_random := []; iv_random := [] |}.
Definition asked : WalletEngine := fst (engine_handle_event_json draws engine0 [Byte.x52]).
Definition approved : WalletEngine := fst (engine_handle_event_json draws asked [Byte.x41]).

Lemma asked_reached : engine_reached asked.
Proof. exists "wallet"%string, "key"%string, (repeat Byte.x00 8). apply rtc_once, (step_event engine0 draws [Byte.x52]). Qed.

Definition is_approved (r : result (Core * Event) WireError) : bool :=
  match r with Ok (_, PaymentApproved) => true | _ => false end.

Lemma is_approved_inv r : is_approved r = true -> exists c, r = Ok (c, PaymentApproved).
Proof. destruct r as [[c []]|]; try done. by exists c. Qed.

(** The approval is admitted once, and not under another hash or for a request
    that was not made. *)
Example approval_is_checked :
  is_approved (admit_event (core asked) [Byte.x41]) = true
  /\ is_approved (admit_event (core approved) [Byte.x41]) = false
  /\ is_approved (admit_event (core engine0) [Byte.x41]) = false.
Proof. split_and!; vm_compute; reflexivity. Qed.

Lemma approval_admitted : exists c, admit_event (core asked) [Byte.x41] = Ok (c, PaymentApproved).
Proof. apply is_approved_inv, approval_is_checked. Qed.

Lemma engine_operations_fit_witness :
  length (pend (core asked)) = 1%nat /\ fits (core asked) (pend (core asked)).
Proof. split; [vm_compute; reflexivity|]. exact (proj2 (engine_operations_fit _ asked_reached)). Defined.

Lemma approval_binds_screen_witness :
  exists value id op screen,
    value_from_slice [Byte.x41] = Some value /\ bt_get (pending_operations (core asked)) id = Some op
    /\ describes (core asked) (op_result op) screen
    /\ wire_authorization_hash value "paymentApproved" = Ok (Presenter.consent_hash screen).
Proof.
  destruct approval_admitted as [c1 Ha].
  destruct (approval_binds_screen draws _ _ _ _ asked_reached Ha eq_refl)
    as (value & id & op & Hv & Hid & Hop & _ & [(screen & Hd & Hh)|(Hp & _)]).
  - exact (ex_intro _ value (ex_intro _ id (ex_intro _ op (ex_intro _ screen (conj Hv (conj Hop (conj Hd Hh))))))).
  - assert (active (core asked) = Payment) as Hpay by (vm_compute; reflexivity).
    rewrite Hpay in Hp. discriminate Hp.
Defined.

Lemma result_single_use_witness :
  exists err, handle_event_json draws (core approved) [Byte.x41] = (core approved, Err err).
Proof.
  destruct approval_admitted as [c1 Ha].
  refine (proj2 (result_single_use draws draws asked approved [Byte.x41] [Byte.x41] c1 PaymentApproved
    (message "paymentApproved") (message "paymentApproved") (next_operation_id (core engine0))
    "paymentApproved" asked_reached Ha eq_refl eq_refl _ (rtc_refl _ _) eq_refl _ eq_refl _));
    vm_compute; reflexivity.
Defined.
End Examples.
