(* ===== verification/BoundedJson.v ===== *)
(** * The bounded JSON boundary (crates/oid4vci/src/bounded_json.rs)

    The lexical pass over a protocol document before a DOM is built: it
    enforces the limits and refuses repeated member names at every depth.  A
    scanner is the input that is left.  [serde_json::from_slice], which builds
    the DOM afterwards, is the parameter [value_from_slice] of [SerdeJson]. *)

From stdpp Require Import list.
From S2P Require Import Prelude Utf8 BTree Serde.

Open Scope Z_scope.
Open Scope rust_scope.

(** ** Limits and errors *)

Definition ABSOLUTE_MAX_JSON_BYTES : Z := 256 * 1024.
Definition ABSOLUTE_MAX_JSON_DEPTH : Z := 16.
Definition ABSOLUTE_MAX_CONTAINER_ENTRIES : Z := 128.
Definition ABSOLUTE_MAX_STRING_BYTES : Z := ABSOLUTE_MAX_JSON_BYTES.
Definition DEFAULT_MAX_STRING_BYTES : Z := 8 * 1024.

Record JsonLimits : Type := {
  max_bytes : Z;
  max_depth : Z;
  max_container_entries : Z;
  max_string_bytes : Z;
}.

Definition DEFAULT_JSON_LIMITS : JsonLimits := {|
  max_bytes := ABSOLUTE_MAX_JSON_BYTES;
  max_depth := ABSOLUTE_MAX_JSON_DEPTH;
  max_container_entries := ABSOLUTE_MAX_CONTAINER_ENTRIES;
  max_string_bytes := DEFAULT_MAX_STRING_BYTES |}.

Inductive JsonBoundaryError : Type :=
| LimitsExceedHardMaximum
| InputTooLarge
| DepthExceeded
| ContainerEntriesExceeded
| StringTooLong
| DuplicateMember
| InvalidJson
| NonObjectRoot.

Inductive ValueKind : Type := KObject | KOther.

(** ** Bytes *)

Definition is_json_whitespace (b : byte) : bool :=
  Byte.eqb b Byte.x20 || Byte.eqb b Byte.x0a || Byte.eqb b Byte.x0d || Byte.eqb b Byte.x09.

Fixpoint skip_whitespace (s : bytes) : bytes :=
  match s with
  | b :: r => if is_json_whitespace b then skip_whitespace r else s
  | [] => []
  end.

Definition expect (expected : byte) (s : bytes) : result bytes JsonBoundaryError :=
  match s with
  | b :: r => if Byte.eqb b expected then Ok r else Err InvalidJson
  | [] => Err InvalidJson
  end.

Definition consume_if (expected : byte) (s : bytes) : option bytes :=
  match s with
  | b :: r => if Byte.eqb b expected then Some r else None
  | [] => None
  end.

Definition consume_literal (expected s : bytes) : result bytes JsonBoundaryError :=
  ok_or (strip_prefix expected s) InvalidJson.

Definition hex_value (b : byte) : option Z :=
  let x := byte.unsigned b in
  if in_range 48 57 x then Some (x - 48)
  else if in_range 97 102 x then Some (x - 97 + 10)
  else if in_range 65 70 x then Some (x - 65 + 10)
  else None.

Definition utf8_width (first : byte) : option nat :=
  let x := byte.unsigned first in
  if in_range 194 223 x then Some 2%nat
  else if in_range 224 239 x then Some 3%nat
  else if in_range 240 244 x then Some 4%nat
  else None.

(** [String::push]: the UTF-8 encoding of a scalar value. *)
Definition encode_utf8 (c : Z) : bytes :=
  if c <=? 127 then [byte.of_Z c]
  else if c <=? 2047 then [byte.of_Z (192 + c / 64); byte.of_Z (128 + c mod 64)]
  else if c <=? 65535 then
    [byte.of_Z (224 + c / 4096); byte.of_Z (128 + c / 64 mod 64); byte.of_Z (128 + c mod 64)]
  else
    [byte.of_Z (240 + c / 262144); byte.of_Z (128 + c / 4096 mod 64);
     byte.of_Z (128 + c / 64 mod 64); byte.of_Z (128 + c mod 64)].

(** [char::from_u32]. *)
Definition char_from_u32 (c : Z) : option Z :=
  if in_range 55296 57343 c || (1114111 <? c) then None else Some c.

(** ** Strings *)

Definition checked_u16 (v : Z) : option Z := if v <=? U16_MAX then Some v else None.

Fixpoint hex_digits (n : nat) (value : Z) (s : bytes) : result (Z * bytes) JsonBoundaryError :=
  match n with
  | O => Ok (value, s)
  | S n =>
      match s with
      | [] => Err InvalidJson
      | digit :: r =>
          let? value := ok_or (let! v := checked_u16 (value * 16) in
                               let! d := hex_value digit in checked_u16 (v + d)) InvalidJson in
          hex_digits n value r
      end
  end.

Definition parse_hex_quad (s : bytes) : result (Z * bytes) JsonBoundaryError := hex_digits 4 0 s.

Definition parse_unicode_escape (s : bytes) : result (bytes * bytes) JsonBoundaryError :=
  let? (first, s) := parse_hex_quad s in
  let? (scalar, s) :=
    if in_range 55296 56319 first then
      let? s := expect Byte.x5c s in
      let? s := expect Byte.x75 s in
      let? (second, s) := parse_hex_quad s in
      if negb (in_range 56320 57343 second) then Err InvalidJson
      else Ok (65536 + Z.shiftl (first - 55296) 10 + (second - 56320), s)
    else if in_range 56320 57343 first then Err InvalidJson
    else Ok (first, s) in
  let? c := ok_or (char_from_u32 scalar) InvalidJson in
  Ok (encode_utf8 c, s).

(** What a backslash introduces. *)
Definition parse_escape (s : bytes) : result (bytes * bytes) JsonBoundaryError :=
  match s with
  | [] => Err InvalidJson
  | escaped :: r =>
      match escaped with
      | Byte.x22 => Ok ([Byte.x22], r)
      | Byte.x5c => Ok ([Byte.x5c], r)
      | Byte.x2f => Ok ([Byte.x2f], r)
      | Byte.x62 => Ok ([Byte.x08], r)
      | Byte.x66 => Ok ([Byte.x0c], r)
      | Byte.x6e => Ok ([Byte.x0a], r)
      | Byte.x72 => Ok ([Byte.x0d], r)
      | Byte.x74 => Ok ([Byte.x09], r)
      | Byte.x75 => parse_unicode_escape r
      | _ => Err InvalidJson
      end
  end.

(** One element of a string that starts with [b], not a quote: what it decodes
    to and the rest. *)
Definition parse_element (b : byte) (r : bytes) : result (bytes * bytes) JsonBoundaryError :=
  let x := byte.unsigned b in
  if Byte.eqb b Byte.x5c then parse_escape r
  else if x <=? 31 then Err InvalidJson
  else if x <=? 127 then Ok ([b], r)
  else
    let? width := ok_or (utf8_width b) InvalidJson in
    if (length (b :: r) <? width)%nat then Err InvalidJson
    else
      let scalar := firstn width (b :: r) in
      let? _ := ok_or (from_utf8 scalar) InvalidJson in
      Ok (scalar, skipn width (b :: r)).

Section scanner.
Context (limits : JsonLimits).

Fixpoint string_loop (fuel : nat) (decoded s : bytes) : result (bytes * bytes) JsonBoundaryError :=
  match fuel with
  | O => Err InvalidJson
  | S fuel =>
      match s with
      | [] => Err InvalidJson
      | b :: r =>
          if Byte.eqb b Byte.x22 then Ok (decoded, r)
          else
            let? (scalar, r) := parse_element b r in
            let decoded := decoded ++ scalar in
            if max_string_bytes limits <? len decoded then Err StringTooLong
            else string_loop fuel decoded r
      end
  end.

(** Every round takes a byte. *)
Definition parse_string (s : bytes) : result (bytes * bytes) JsonBoundaryError :=
  let? s := expect Byte.x22 s in
  string_loop (S (length s)) [] s.

(** ** Numbers *)

Fixpoint skip_digits (s : bytes) : bytes :=
  match s with
  | b :: r => if is_ascii_digit b then skip_digits r else s
  | [] => []
  end.

Definition starts_digit (s : bytes) : bool :=
  match s with b :: _ => is_ascii_digit b | [] => false end.

(** [matches!(self.next(), Some(b'0'..=b'9'))] and the digits that follow. *)
Definition some_digits (s : bytes) : result bytes JsonBoundaryError :=
  match s with
  | b :: r => if is_ascii_digit b then Ok (skip_digits r) else Err InvalidJson
  | [] => Err InvalidJson
  end.

Definition integer_part (s : bytes) : result bytes JsonBoundaryError :=
  match s with
  | b :: r =>
      if Byte.eqb b Byte.x30 then (if starts_digit r then Err InvalidJson else Ok r)
      else if is_ascii_digit b then Ok (skip_digits r)
      else Err InvalidJson
  | [] => Err InvalidJson
  end.

Definition fraction_part (s : bytes) : result bytes JsonBoundaryError :=
  match consume_if Byte.x2e s with Some r => some_digits r | None => Ok s end.

Definition is_exponent (b : byte) : bool := Byte.eqb b Byte.x65 || Byte.eqb b Byte.x45.
Definition is_sign (b : byte) : bool := Byte.eqb b Byte.x2b || Byte.eqb b Byte.x2d.

Definition exponent_part (s : bytes) : result bytes JsonBoundaryError :=
  match s with
  | b :: r =>
      if is_exponent b then
        some_digits (match r with c :: r' => if is_sign c then r' else r | [] => r end)
      else Ok s
  | [] => Ok s
  end.

Definition parse_number (s : bytes) : result bytes JsonBoundaryError :=
  let s := match consume_if Byte.x2d s with Some r => r | None => s end in
  let? s := integer_part s in
  let? s := fraction_part s in
  exponent_part s.

(** ** Values *)

Definition check_depth (depth : Z) : result unit JsonBoundaryError :=
  if max_depth limits <? depth then Err DepthExceeded else Ok tt.

Definition other (r : result bytes JsonBoundaryError) : result (ValueKind * bytes) JsonBoundaryError :=
  let? s := r in Ok (KOther, s).

(** [members] and [elements] are the loops of [parse_object] and
    [parse_array], which end with the closing bracket. *)
Fixpoint parse_value (fuel : nat) (parent_depth : Z) (s : bytes) {struct fuel}
  : result (ValueKind * bytes) JsonBoundaryError :=
  match fuel with
  | O => Err InvalidJson
  | S fuel =>
      match skip_whitespace s with
      | [] => Err InvalidJson
      | b :: r =>
          if Byte.eqb b Byte.x7b then
            let? _ := check_depth (parent_depth + 1) in
            let r := skip_whitespace r in
            match consume_if Byte.x7d r with
            | Some r => Ok (KObject, r)
            | None => let? r := members fuel (parent_depth + 1) [] r in Ok (KObject, r)
            end
          else if Byte.eqb b Byte.x5b then
            let? _ := check_depth (parent_depth + 1) in
            let r := skip_whitespace r in
            other match consume_if Byte.x5d r with
                  | Some r => Ok r
                  | None => elements fuel (parent_depth + 1) 0 r
                  end
          else if Byte.eqb b Byte.x22 then
            let? (_, r) := parse_string (b :: r) in Ok (KOther, r)
          else if Byte.eqb b Byte.x2d || is_ascii_digit b then other (parse_number (b :: r))
          else if Byte.eqb b Byte.x74 then other (consume_literal (as_bytes "true") (b :: r))
          else if Byte.eqb b Byte.x66 then other (consume_literal (as_bytes "false") (b :: r))
          else if Byte.eqb b Byte.x6e then other (consume_literal (as_bytes "null") (b :: r))
          else Err InvalidJson
      end
  end
with members (fuel : nat) (depth : Z) (names : list bytes) (s : bytes) {struct fuel}
  : result bytes JsonBoundaryError :=
  match fuel with
  | O => Err InvalidJson
  | S fuel =>
      let? (name, s) := parse_string s in
      if bool_decide (name ∈ names) then Err DuplicateMember
      else
        let names := names ++ [name] in
        if max_container_entries limits <? len names then Err ContainerEntriesExceeded
        else
          let? s := expect Byte.x3a (skip_whitespace s) in
          let? (_, s) := parse_value fuel depth s in
          let s := skip_whitespace s in
          match consume_if Byte.x7d s with
          | Some s => Ok s
          | None =>
              let? s := expect Byte.x2c s in
              members fuel depth names (skip_whitespace s)
          end
  end
with elements (fuel : nat) (depth : Z) (entries : Z) (s : bytes) {struct fuel}
  : result bytes JsonBoundaryError :=
  match fuel with
  | O => Err InvalidJson
  | S fuel =>
      let entries := entries + 1 in
      if max_container_entries limits <? entries then Err ContainerEntriesExceeded
      else
        let? (_, s) := parse_value fuel depth s in
        let s := skip_whitespace s in
        match consume_if Byte.x5d s with
        | Some s => Ok s
        | None =>
            let? s := expect Byte.x2c s in
            elements fuel depth entries (skip_whitespace s)
        end
  end.

(** Two units of fuel for every byte are enough ([scan_complete]). *)
Definition scan (input : bytes) : result ValueKind JsonBoundaryError :=
  let? (root, s) := parse_value (2 * length input + 2) 0 (skip_whitespace input) in
  match skip_whitespace s with
  | [] => Ok root
  | _ :: _ => Err InvalidJson
  end.

Definition limits_ok : bool :=
  (max_bytes limits <=? ABSOLUTE_MAX_JSON_BYTES) && (max_depth limits <=? ABSOLUTE_MAX_JSON_DEPTH)
  && (max_container_entries limits <=? ABSOLUTE_MAX_CONTAINER_ENTRIES)
  && (max_string_bytes limits <=? ABSOLUTE_MAX_STRING_BYTES).

Definition parse_object `{SJ : SerdeJson} (input : bytes)
  : result (BTreeMap string Value) JsonBoundaryError :=
  if negb limits_ok then Err LimitsExceedHardMaximum
  else if max_bytes limits <? len input then Err InputTooLarge
  else if negb (utf8_valid input) then Err InvalidJson
  else
    let? root := scan input in
    match root with
    | KOther => Err NonObjectRoot
    | KObject =>
        let? v := ok_or (value_from_slice input) InvalidJson in
        match v with VObject object => Ok object | _ => Err NonObjectRoot end
    end.
End scanner.

(** ** The grammar (RFC 8259) *)

Inductive json : Type :=
| JNull | JTrue | JFalse
| JNumber
| JString (decoded : bytes)
| JArray (l : list json)
| JObject (l : list (bytes * json)).

Definition blank (w : bytes) : Prop := forallb is_json_whitespace w = true.
Definition digits (d : bytes) : Prop := forallb is_ascii_digit d = true.

Inductive integer_text : bytes -> Prop :=
| int_zero : integer_text [Byte.x30]
| int_digits b d : is_ascii_digit b = true -> b <> Byte.x30 -> digits d -> integer_text (b :: d).

Inductive fraction_text : bytes -> Prop :=
| frac_none : fraction_text []
| frac_some b d : is_ascii_digit b = true -> digits d -> fraction_text (Byte.x2e :: b :: d).

Inductive exponent_text : bytes -> Prop :=
| exp_none : exponent_text []
| exp_plain e b d : is_exponent e = true -> is_ascii_digit b = true -> digits d -> exponent_text (e :: b :: d)
| exp_signed e s b d :
    is_exponent e = true -> is_sign s = true -> is_ascii_digit b = true -> digits d ->
    exponent_text (e :: s :: b :: d).

Inductive number_text : bytes -> Prop :=
| num_text sign i f e :
    sign = [] \/ sign = [Byte.x2d] -> integer_text i -> fraction_text f -> exponent_text e ->
    number_text (sign ++ i ++ f ++ e).

(** The short escapes and what they stand for. *)
Definition short_escape (b : byte) : option byte :=
  match b with
  | Byte.x22 => Some Byte.x22 | Byte.x5c => Some Byte.x5c | Byte.x2f => Some Byte.x2f
  | Byte.x62 => Some Byte.x08 | Byte.x66 => Some Byte.x0c | Byte.x6e => Some Byte.x0a
  | Byte.x72 => Some Byte.x0d | Byte.x74 => Some Byte.x09
  | _ => None
  end.

(** The value of four hexadecimal digits. *)
Definition quad (a b c d : byte) : option Z :=
  let! w := hex_value a in
  let! x := hex_value b in
  let! y := hex_value c in
  let! z := hex_value d in
  Some (w * 4096 + x * 256 + y * 16 + z).

(** One element of a string: what it stands for, and its text. *)
Inductive char_text : bytes -> bytes -> Prop :=
| char_ascii b :
    32 <= byte.unsigned b <= 127 -> b <> Byte.x22 -> b <> Byte.x5c -> char_text [b] [b]
| char_scalar s c : next_char s = Some (c, []) -> 127 < c -> char_text s s
| char_short b x : short_escape b = Some x -> char_text [x] [Byte.x5c; b]
| char_unicode a b c d x :
    quad a b c d = Some x -> in_range 55296 57343 x = false ->
    char_text (encode_utf8 x) [Byte.x5c; Byte.x75; a; b; c; d]
| char_pair a b c d a' b' c' d' x y :
    quad a b c d = Some x -> quad a' b' c' d' = Some y ->
    in_range 55296 56319 x = true -> in_range 56320 57343 y = true ->
    char_text (encode_utf8 (65536 + (x - 55296) * 1024 + (y - 56320)))
      [Byte.x5c; Byte.x75; a; b; c; d; Byte.x5c; Byte.x75; a'; b'; c'; d'].

Inductive chars_text : bytes -> bytes -> Prop :=
| chars_nil : chars_text [] []
| chars_cons x t xs ts : char_text x t -> chars_text xs ts -> chars_text (x ++ xs) (t ++ ts).

Definition string_text (decoded text : bytes) : Prop :=
  exists t, chars_text decoded t /\ text = Byte.x22 :: t ++ [Byte.x22].

Inductive value_text : json -> bytes -> Prop :=
| text_null : value_text JNull (as_bytes "null")
| text_true : value_text JTrue (as_bytes "true")
| text_false : value_text JFalse (as_bytes "false")
| text_number b : number_text b -> value_text JNumber b
| text_string d b : string_text d b -> value_text (JString d) b
| text_empty_array w : blank w -> value_text (JArray []) (Byte.x5b :: w ++ [Byte.x5d])
| text_array v l w b :
    blank w -> elements_text (v :: l) b -> value_text (JArray (v :: l)) (Byte.x5b :: w ++ b ++ [Byte.x5d])
| text_empty_object w : blank w -> value_text (JObject []) (Byte.x7b :: w ++ [Byte.x7d])
| text_object m l w b :
    blank w -> members_text (m :: l) b -> value_text (JObject (m :: l)) (Byte.x7b :: w ++ b ++ [Byte.x7d])
with elements_text : list json -> bytes -> Prop :=
| elements_one v b w : value_text v b -> blank w -> elements_text [v] (b ++ w)
| elements_cons v b w w' l r :
    value_text v b -> blank w -> blank w' -> elements_text l r ->
    elements_text (v :: l) (b ++ w ++ Byte.x2c :: w' ++ r)
with members_text : list (bytes * json) -> bytes -> Prop :=
| members_one n v b w1 w2 t w3 :
    string_text n b -> blank w1 -> blank w2 -> value_text v t -> blank w3 ->
    members_text [(n, v)] (b ++ w1 ++ Byte.x3a :: w2 ++ t ++ w3)
| members_cons n v b w1 w2 t w3 w4 l r :
    string_text n b -> blank w1 -> blank w2 -> value_text v t -> blank w3 -> blank w4 ->
    members_text l r ->
    members_text ((n, v) :: l) (b ++ w1 ++ Byte.x3a :: w2 ++ t ++ w3 ++ Byte.x2c :: w4 ++ r).

Scheme value_text_mut := Induction for value_text Sort Prop
with elements_text_mut := Induction for elements_text Sort Prop
with members_text_mut := Induction for members_text Sort Prop.
Combined Scheme json_text_ind from value_text_mut, elements_text_mut, members_text_mut.

Definition document_text (t : json) (b : bytes) : Prop :=
  exists w v w', blank w /\ value_text t v /\ blank w' /\ b = w ++ v ++ w'.

(** A document within the limits, without a repeated member name anywhere. *)
Fixpoint within (l : JsonLimits) (depth : Z) (t : json) : bool :=
  match t with
  | JNull | JTrue | JFalse | JNumber => true
  | JString d => len d <=? max_string_bytes l
  | JArray vs =>
      (depth + 1 <=? max_depth l) && (len vs <=? max_container_entries l)
      && forallb (within l (depth + 1)) vs
  | JObject ms =>
      (depth + 1 <=? max_depth l) && (len ms <=? max_container_entries l)
      && bool_decide (NoDup (map fst ms))
      && forallb (fun m => (len (fst m) <=? max_string_bytes l) && within l (depth + 1) (snd m)) ms
  end.

Definition kind_of (t : json) : ValueKind := match t with JObject _ => KObject | _ => KOther end.

(** ** Bytes and white space *)

Lemma skip_split s : exists w, blank w /\ s = w ++ skip_whitespace s.
Proof.
  induction s as [|b s (w & Hw & E)]; [by exists []|]. cbn. destruct (is_json_whitespace b) eqn:Hb.
  - exists (b :: w). split; [unfold blank; cbn; by rewrite Hb|]. cbn. by f_equal.
  - by exists [].
Qed.

Lemma skip_blank w s : blank w -> skip_whitespace (w ++ s) = skip_whitespace s.
Proof.
  unfold blank. induction w as [|b w IH]; cbn; [done|]. intros [Hb Hw]%andb_prop. rewrite Hb. by apply IH.
Qed.

Lemma skip_stop b s : is_json_whitespace b = false -> skip_whitespace (b :: s) = b :: s.
Proof. intros H. cbn. by rewrite H. Qed.

Lemma skip_idem s : skip_whitespace (skip_whitespace s) = skip_whitespace s.
Proof. induction s as [|b s IH]; cbn; [done|]. destruct (is_json_whitespace b) eqn:H; [done|]. cbn. by rewrite H. Qed.

Lemma expect_iff c s r : expect c s = Ok r <-> s = c :: r.
Proof.
  destruct s as [|b s]; cbn; [done|]. destruct (Byte.eqb b c) eqn:H.
  - apply Byte.byte_dec_bl in H as ->. split; [by intros [= ->]|by intros [= ->]].
  - split; [done|]. intros [= -> ->]. by rewrite Byte.byte_dec_lb in H.
Qed.

Lemma consume_if_Some c s r : consume_if c s = Some r <-> s = c :: r.
Proof.
  destruct s as [|b s]; cbn; [done|]. destruct (Byte.eqb b c) eqn:H.
  - apply Byte.byte_dec_bl in H as ->. split; [by intros [= ->]|by intros [= ->]].
  - split; [done|]. intros [= -> ->]. by rewrite Byte.byte_dec_lb in H.
Qed.

Lemma consume_if_None c s : consume_if c s = None <-> forall r, s <> c :: r.
Proof.
  split.
  - intros H r ->. cbn in H. by rewrite Byte.byte_dec_lb in H.
  - intros H. destruct (consume_if c s) as [r|] eqn:E; [|done]. apply consume_if_Some in E. by destruct (H r).
Qed.

Lemma eqb_iff a b : Byte.eqb a b = true <-> a = b.
Proof. split; [apply Byte.byte_dec_bl|apply Byte.byte_dec_lb]. Qed.

Lemma eqb_neq a b : a <> b -> Byte.eqb a b = false.
Proof. intros H. apply not_true_iff_false. by rewrite eqb_iff. Qed.

(** ** Elements of strings *)

Lemma hex_value_range b v : hex_value b = Some v -> 0 <= v <= 15.
Proof.
  unfold hex_value. cbv zeta.
  destruct (in_range 48 57 _) eqn:H1; [unfold in_range in H1; intros [= <-]; lia|]. clear H1.
  destruct (in_range 97 102 _) eqn:H1; [unfold in_range in H1; intros [= <-]; lia|]. clear H1.
  destruct (in_range 65 70 _) eqn:H1; [unfold in_range in H1; intros [= <-]; lia|done].
Qed.

Lemma hex_step n v d r :
  0 <= v <= 4095 ->
  hex_digits (S n) v (d :: r)
  = match hex_value d with Some x => hex_digits n (v * 16 + x) r | None => Err InvalidJson end.
Proof.
  intros Hv. cbn [hex_digits]. unfold checked_u16, U16_MAX.
  rewrite (proj2 (Z.leb_le (v * 16) 65535)) by lia.
  destruct (hex_value d) as [x|] eqn:Hx; [|done]. apply hex_value_range in Hx.
  change (let! v := Some (v * 16) in let! d := Some x in if v + d <=? 65535 then Some (v + d) else None)
    with (if v * 16 + x <=? 65535 then Some (v * 16 + x) else None).
  rewrite (proj2 (Z.leb_le (v * 16 + x) 65535)) by lia. done.
Qed.

Lemma hex_quad_eq a b c d r :
  parse_hex_quad (a :: b :: c :: d :: r)
  = match quad a b c d with Some x => Ok (x, r) | None => Err InvalidJson end.
Proof.
  unfold parse_hex_quad, quad. rewrite hex_step by lia.
  destruct (hex_value a) as [w|] eqn:Ha; [|done]. apply hex_value_range in Ha.
  rewrite hex_step by lia. destruct (hex_value b) as [x|] eqn:Hb; [|done]. apply hex_value_range in Hb.
  rewrite hex_step by lia. destruct (hex_value c) as [y|] eqn:Hc; [|done]. apply hex_value_range in Hc.
  rewrite hex_step by lia. destruct (hex_value d) as [z|] eqn:Hd; [|done].
  cbn [hex_digits]. change (Ok ((((0 * 16 + w) * 16 + x) * 16 + y) * 16 + z, r) = Ok (w * 4096 + x * 256 + y * 16 + z, r) :> result (Z * bytes) JsonBoundaryError).
  do 2 f_equal. lia.
Qed.

Lemma hex_quad_inv s x r :
  parse_hex_quad s = Ok (x, r) -> exists a b c d, s = a :: b :: c :: d :: r /\ quad a b c d = Some x.
Proof.
  intros H. assert (exists a b c d t, s = a :: b :: c :: d :: t) as (a & b & c & d & t & ->).
  { unfold parse_hex_quad in H.
    destruct s as [|a s]; [done|]. cbn [hex_digits] in H. destruct (ok_or _ _); [|done]. cbn -[hex_digits] in H.
    destruct s as [|b s]; [done|]. cbn [hex_digits] in H. destruct (ok_or _ _); [|done]. cbn -[hex_digits] in H.
    destruct s as [|c s]; [done|]. cbn [hex_digits] in H. destruct (ok_or _ _); [|done]. cbn -[hex_digits] in H.
    destruct s as [|d s]; [done|]. by exists a, b, c, d, s. }
  rewrite hex_quad_eq in H. exists a, b, c, d. destruct (quad a b c d); [|done]. by injection H as -> ->.
Qed.

Lemma quad_range a b c d x : quad a b c d = Some x -> 0 <= x <= 65535.
Proof.
  unfold quad. destruct (hex_value a) as [w|] eqn:Ha; [|done]. destruct (hex_value b) as [y|] eqn:Hb; [|done].
  destruct (hex_value c) as [z|] eqn:Hc; [|done]. destruct (hex_value d) as [u|] eqn:Hd; [|done].
  apply hex_value_range in Ha, Hb, Hc, Hd. intros [= <-]. lia.
Qed.

Lemma unicode_sound s x r :
  parse_unicode_escape s = Ok (x, r) ->
  exists t, s = t ++ r /\ char_text x (Byte.x5c :: Byte.x75 :: t).
Proof.
  unfold parse_unicode_escape. destruct (parse_hex_quad s) as [[first s1]|] eqn:Hq; [|done].
  apply hex_quad_inv in Hq as (a & b & c & d & -> & Hq). pose proof (quad_range _ _ _ _ _ Hq) as Hr.
  cbv iota beta.
  destruct (in_range 55296 56319 first) eqn:Hh.
  - destruct (expect Byte.x5c s1) as [s2|] eqn:E1; [|done]. apply expect_iff in E1 as ->. cbv iota beta.
    destruct (expect Byte.x75 s2) as [s3|] eqn:E2; [|done]. apply expect_iff in E2 as ->. cbv iota beta.
    destruct (parse_hex_quad s3) as [[second s4]|] eqn:Hq2; [|done].
    apply hex_quad_inv in Hq2 as (a' & b' & c' & d' & -> & Hq2). cbv iota beta.
    destruct (in_range 56320 57343 second) eqn:Hl; [|done]. cbn [negb].
    unfold char_from_u32. match goal with |- context [if ?b then None else _] => destruct b end; [done|]. cbn [ok_or]. intros H. injection H as <- <-.
    exists [a; b; c; d; Byte.x5c; Byte.x75; a'; b'; c'; d']. split; [done|].
    rewrite Z.shiftl_mul_pow2 by lia. change (2 ^ 10) with 1024. by eapply char_pair.
  - destruct (in_range 56320 57343 first) eqn:Hl; [done|]. cbv iota beta.
    unfold char_from_u32. destruct (in_range 55296 57343 first || _) eqn:Hs; [done|]. cbn [ok_or]. intros H. injection H as <- <-.
    exists [a; b; c; d]. split; [done|]. apply orb_false_iff in Hs as [Hs _]. by apply char_unicode.
Qed.

Lemma unicode_complete x t r :
  char_text x (Byte.x5c :: Byte.x75 :: t) -> parse_unicode_escape (t ++ r) = Ok (x, r).
Proof.
  remember (Byte.x5c :: Byte.x75 :: t) as u eqn:Hu. destruct 1 as [b Hb Hq Hs|s c Hn Hc|b y Hy|a b c d y Hy Hs|a b c d a' b' c' d' y z Hy Hz Hh Hl].
  - done.
  - subst s. done.
  - injection Hu as -> _. done.
  - injection Hu as <-. unfold parse_unicode_escape. cbn [app]. rewrite hex_quad_eq, Hy.
    assert (in_range 55296 56319 y = false /\ in_range 56320 57343 y = false) as [-> ->]
      by (unfold in_range in *; lia).
    apply quad_range in Hy. unfold char_from_u32. rewrite Hs. cbn [orb].
    rewrite (proj2 (Z.ltb_ge 1114111 y)) by lia. done.
  - injection Hu as <-. unfold parse_unicode_escape. cbn [app]. rewrite hex_quad_eq, Hy, Hh.
    rewrite (proj2 (expect_iff _ _ _)) by done. rewrite (proj2 (expect_iff _ _ _)) by done.
    rewrite hex_quad_eq, Hz, Hl. cbn [negb]. rewrite Z.shiftl_mul_pow2 by lia. change (2 ^ 10) with 1024.
    unfold char_from_u32. unfold in_range in *.
    assert (0 <= y - 55296 <= 1023 /\ 0 <= z - 56320 <= 1023) as [H1 H2] by lia.
    destruct ((_ <=? _) && (_ <=? _) || (_ <? _)) eqn:Hb; [lia|]. done.
Qed.

Lemma escape_eq b r :
  parse_escape (b :: r)
  = match short_escape b with
    | Some x => Ok ([x], r)
    | None => if Byte.eqb b Byte.x75 then parse_unicode_escape r else Err InvalidJson
    end.
Proof. destruct b; reflexivity. Qed.

(** A multi-byte sequence takes the bytes its first byte announces. *)
Lemma next_char_width b r c r' w :
  utf8_width b = Some w -> next_char (b :: r) = Some (c, r') ->
  127 < c /\ (w <= length (b :: r))%nat /\ r' = skipn w (b :: r).
Proof.
  unfold utf8_width, next_char. cbv zeta.
  destruct (in_range 194 223 (byte.unsigned b)) eqn:H2.
  { intros [= <-]. unfold in_range in H2. rewrite (proj2 (Z.leb_gt _ 127)) by lia.
    destruct r as [|b1 r]; [done|]. destruct (is_cont _) eqn:Hc; [|done]. unfold is_cont, in_range in Hc.
    intros [= <- <-]. split; [lia|]. cbn. split; [lia|done]. }
  destruct (in_range 224 239 (byte.unsigned b)) eqn:H3.
  { intros [= <-]. unfold in_range in H3. rewrite (proj2 (Z.leb_gt _ 127)) by lia.
    destruct r as [|b1 [|b2 r]]; [done..|]. destruct (_ && is_cont _) eqn:Hc; [|done].
    apply andb_prop in Hc as [Hc Hd]. unfold is_cont, in_range in Hc, Hd.
    intros [= <- <-]. split; [|cbn; split; [lia|done]].
    destruct (byte.unsigned b =? 224) eqn:E; lia. }
  destruct (in_range 240 244 (byte.unsigned b)) eqn:H4; [|done].
  intros [= <-]. unfold in_range in H4. rewrite (proj2 (Z.leb_gt _ 127)) by lia.
  destruct r as [|b1 [|b2 [|b3 r]]]; [done..|]. destruct (_ && is_cont _) eqn:Hc; [|done].
  apply andb_prop in Hc as [Hc Hd]. apply andb_prop in Hc as [Hc He]. unfold is_cont, in_range in Hc, Hd, He.
  intros [= <- <-]. split; [|cbn; split; [lia|done]].
  destruct (byte.unsigned b =? 240) eqn:E; lia.
Qed.

Lemma next_char_first s c :
  next_char s = Some (c, []) -> 127 < c ->
  exists b t, s = b :: t /\ utf8_width b = Some (length s) /\ 127 < byte.unsigned b.
Proof.
  destruct s as [|b t]; [done|]. unfold next_char, utf8_width. cbv zeta.
  destruct (byte.unsigned b <=? 127) eqn:H1; [intros [= <- ->] ?; lia|].
  exists b, t. split; [done|].
  destruct (in_range 194 223 (byte.unsigned b)) eqn:H2.
  { destruct t as [|b1 t]; [done|]. destruct (is_cont _); [|done]. injection H as _ ->. split; [done|lia]. }
  destruct (in_range 224 239 (byte.unsigned b)) eqn:H3.
  { destruct t as [|b1 [|b2 t]]; [done..|]. destruct (_ && _); [|done]. injection H as _ ->. split; [done|lia]. }
  destruct (in_range 240 244 (byte.unsigned b)) eqn:H4; [|done].
  destruct t as [|b1 [|b2 [|b3 t]]]; [done..|]. destruct (_ && _); [|done]. injection H as _ ->. split; [done|lia].
Qed.

Lemma utf8_next s : utf8_valid s = true -> s <> [] -> exists c r, next_char s = Some (c, r).
Proof.
  unfold utf8_valid. rewrite chars_step. destruct s; [done|]. intros H _.
  destruct (next_char _) as [[c r]|]; [by exists c, r|done].
Qed.

Lemma next_utf8 s c : next_char s = Some (c, []) -> utf8_valid s = true.
Proof. unfold utf8_valid. rewrite chars_step. destruct s; [done|]. by intros ->. Qed.

Lemma element_sound b r x r' :
  b <> Byte.x22 -> parse_element b r = Ok (x, r') ->
  exists t, char_text x t /\ b :: r = t ++ r' /\ t <> [].
Proof.
  intros Hq. unfold parse_element. cbv zeta. destruct (Byte.eqb b Byte.x5c) eqn:Hb.
  { apply eqb_iff in Hb as ->. destruct r as [|e r]; [done|]. rewrite escape_eq.
    destruct (short_escape e) as [y|] eqn:He.
    - intros [= <- <-]. exists [Byte.x5c; e]. split; [by apply char_short|done].
    - destruct (Byte.eqb e Byte.x75) eqn:Hu; [|done]. apply eqb_iff in Hu as ->.
      intros (t & -> & Ht)%unicode_sound. by exists (Byte.x5c :: Byte.x75 :: t). }
  assert (b <> Byte.x5c) as Hs by (intros ->; done).
  destruct (byte.unsigned b <=? 31) eqn:H1; [done|]. destruct (byte.unsigned b <=? 127) eqn:H2.
  { intros [= <- <-]. exists [b]. split; [apply char_ascii; [lia|done..]|done]. }
  destruct (utf8_width b) as [w|] eqn:Hw; [|done]. cbn [ok_or].
  destruct (length (b :: r) <? w)%nat eqn:Hl; [done|]. apply Nat.ltb_ge in Hl.
  destruct (from_utf8 (firstn w (b :: r))) as [u|] eqn:Hu; [|done]. cbn [ok_or]. intros [= <- <-].
  assert (utf8_valid (firstn w (b :: r)) = true) as Hv.
  { unfold from_utf8 in Hu. by destruct (utf8_valid _). }
  assert (exists k, firstn w (b :: r) = b :: k) as [k Hk].
  { unfold utf8_width in Hw. cbv zeta in Hw. repeat (destruct (in_range _ _ _); [injection Hw as <-; by eexists|]). done. }
  destruct (utf8_next _ Hv) as (c & r2 & Hn); [by rewrite Hk|].
  pose proof Hn as Hn'. rewrite Hk in Hn'. destruct (next_char_width _ _ _ _ _ Hw Hn') as (Hc & _ & Hr2).
  assert (r2 = []) as ->.
  { rewrite Hr2, <- Hk. apply skipn_all2. rewrite length_firstn. lia. }
  exists (firstn w (b :: r)). split; [by eapply char_scalar|]. split; [by rewrite firstn_skipn|by rewrite Hk].
Qed.

Lemma element_complete x t r :
  char_text x t -> exists b t', t = b :: t' /\ b <> Byte.x22 /\ parse_element b (t' ++ r) = Ok (x, r).
Proof.
  intros Ht. pose proof Ht as Ht'. destruct Ht as [b Hb Hq Hs|s c Hn Hc|b y Hy|a b c d y Hy Hs|a b c d a' b' c' d' y z Hy Hz Hh Hl].
  - exists b, []. split; [done|]. split; [done|]. unfold parse_element. cbv zeta. rewrite eqb_neq by done.
    rewrite (proj2 (Z.leb_gt _ 31)) by lia. by rewrite (proj2 (Z.leb_le _ 127)) by lia.
  - destruct (next_char_first _ _ Hn Hc) as (b & t' & -> & Hw & Hb). exists b, t'. split; [done|].
    split; [intros ->; by cbn in Hb|]. unfold parse_element. cbv zeta.
    rewrite eqb_neq by (intros ->; by cbn in Hb). rewrite (proj2 (Z.leb_gt _ 31)) by lia.
    rewrite (proj2 (Z.leb_gt _ 127)) by lia. rewrite Hw. cbn [ok_or].
    rewrite (proj2 (Nat.ltb_ge _ _)) by (cbn; rewrite length_app; lia).
    change (b :: t' ++ r) with ((b :: t') ++ r). rewrite take_app_length, drop_app_length.
    unfold from_utf8. rewrite (next_utf8 _ _ Hn). done.
  - exists Byte.x5c, [b]. split; [done|]. split; [done|].
    change (parse_element Byte.x5c ([b] ++ r)) with (parse_escape (b :: r)). by rewrite escape_eq, Hy.
  - exists Byte.x5c, [Byte.x75; a; b; c; d]. split; [done|]. split; [done|].
    exact (unicode_complete _ _ r Ht').
  - exists Byte.x5c, [Byte.x75; a; b; c; d; Byte.x5c; Byte.x75; a'; b'; c'; d']. split; [done|]. split; [done|].
    exact (unicode_complete _ _ r Ht').
Qed.

(** ** Strings and numbers *)

Section texts.
Context (limits : JsonLimits).

Lemma string_loop_sound fuel decoded s d r :
  string_loop limits fuel decoded s = Ok (d, r) ->
  exists x t, chars_text x t /\ s = t ++ Byte.x22 :: r /\ d = decoded ++ x
    /\ (len decoded <= max_string_bytes limits -> len d <= max_string_bytes limits).
Proof.
  revert decoded s. induction fuel as [|fuel IH]; intros decoded s; cbn [string_loop]; [done|].
  destruct s as [|b s]; [done|]. destruct (Byte.eqb b Byte.x22) eqn:Hb.
  { apply eqb_iff in Hb as ->. intros [= <- <-]. exists [], []. rewrite app_nil_r. by split; [constructor|]. }
  destruct (parse_element b s) as [[x s']|] eqn:He; [|done].
  apply element_sound in He as (t & Ht & Hs & _); [|intros ->; done].
  destruct (max_string_bytes limits <? len (decoded ++ x)) eqn:Hl; [done|].
  intros (y & u & Hu & -> & -> & Hy)%IH. exists (x ++ y), (t ++ u). split; [by constructor|].
  rewrite Hs, <- !app_assoc. split; [done|]. split; [done|]. intros _. rewrite <- app_assoc in Hy. apply Hy. lia.
Qed.

Lemma string_loop_complete x t :
  chars_text x t -> forall fuel decoded r,
  (length t < fuel)%nat -> len (decoded ++ x) <= max_string_bytes limits ->
  string_loop limits fuel decoded (t ++ Byte.x22 :: r) = Ok (decoded ++ x, r).
Proof.
  induction 1 as [|x t xs ts Hx Hxs IH]; intros [|fuel] decoded r Hf Hl; try lia.
  { cbn. by rewrite app_nil_r. }
  destruct (element_complete x t (ts ++ Byte.x22 :: r) Hx) as (b & t' & -> & Hb & He).
  rewrite <- app_assoc. cbn [app string_loop]. rewrite eqb_neq by done. rewrite He.
  rewrite app_assoc in Hl. pose proof (len_nonneg xs). assert (len (decoded ++ x) <= max_string_bytes limits) as Hd.
  { rewrite len_app in Hl. lia. }
  rewrite (proj2 (Z.ltb_ge _ _) Hd). rewrite IH; [by rewrite app_assoc| |done].
  rewrite length_app in Hf. cbn in Hf. lia.
Qed.

Lemma string_sound s d r :
  0 <= max_string_bytes limits -> parse_string limits s = Ok (d, r) ->
  exists t, string_text d t /\ s = t ++ r /\ len d <= max_string_bytes limits.
Proof.
  intros H0. unfold parse_string. destruct (expect Byte.x22 s) as [s'|] eqn:Hs; [|done]. apply expect_iff in Hs as ->.
  intros (x & t & Ht & -> & -> & Hl)%string_loop_sound. exists (Byte.x22 :: t ++ [Byte.x22]).
  split; [by exists t|]. cbn [app]. rewrite <- app_assoc. split; [done|]. by apply Hl.
Qed.

Lemma string_complete d t r :
  string_text d t -> len d <= max_string_bytes limits -> parse_string limits (t ++ r) = Ok (d, r).
Proof.
  intros (u & Hu & ->) Hl. unfold parse_string. cbn [app]. rewrite (proj2 (expect_iff _ _ _)) by done.
  rewrite <- app_assoc. apply (string_loop_complete d u Hu); [|done]. rewrite length_app. lia.
Qed.
End texts.

Lemma string_text_nonempty d t : string_text d t -> exists b t', t = b :: t' /\ b = Byte.x22.
Proof. intros (u & _ & ->). by eexists _, _. Qed.

(** A number ends where none of its characters could follow. *)
Definition stops (r : bytes) : bool :=
  match r with
  | b :: _ => negb (is_ascii_digit b || Byte.eqb b Byte.x2e || is_exponent b)
  | [] => true
  end.

Lemma skip_digits_split s : exists d, digits d /\ s = d ++ skip_digits s.
Proof.
  induction s as [|b s (d & Hd & E)]; [by exists []|]. cbn. destruct (is_ascii_digit b) eqn:Hb.
  - exists (b :: d). split; [unfold digits; cbn; by rewrite Hb|]. cbn. by f_equal.
  - by exists [].
Qed.

Lemma skip_digits_all d r : digits d -> starts_digit r = false -> skip_digits (d ++ r) = r.
Proof.
  unfold digits. induction d as [|b d IH]; cbn.
  - intros _. destruct r as [|c r]; [done|]. cbn. by intros ->.
  - intros [Hb Hd]%andb_prop Hr. rewrite Hb. by apply IH.
Qed.

Lemma stops_digit r : stops r = true -> starts_digit r = false.
Proof. destruct r as [|b r]; [done|]. cbn. by destruct (is_ascii_digit b). Qed.

Lemma some_digits_sound s r :
  some_digits s = Ok r -> exists b d, is_ascii_digit b = true /\ digits d /\ s = b :: d ++ r.
Proof.
  destruct s as [|b s]; [done|]. cbn. destruct (is_ascii_digit b) eqn:Hb; [|done]. intros [= <-].
  destruct (skip_digits_split s) as (d & Hd & E). exists b, d. by rewrite <- E.
Qed.

Lemma some_digits_complete b d r :
  is_ascii_digit b = true -> digits d -> starts_digit r = false -> some_digits (b :: d ++ r) = Ok r.
Proof. intros Hb Hd Hr. cbn. rewrite Hb. f_equal. by apply skip_digits_all. Qed.

Lemma integer_sound s r : integer_part s = Ok r -> exists i, integer_text i /\ s = i ++ r.
Proof.
  destruct s as [|b s]; [done|]. cbn. destruct (Byte.eqb b Byte.x30) eqn:Hz.
  - apply eqb_iff in Hz as ->. destruct (starts_digit s); [done|]. intros [= <-]. by exists [Byte.x30]; split; [constructor|].
  - destruct (is_ascii_digit b) eqn:Hb; [|done]. intros [= <-].
    destruct (skip_digits_split s) as (d & Hd & E). exists (b :: d). split; [|cbn; by rewrite <- E].
    constructor; try done. intros ->. done.
Qed.

Lemma integer_complete i r : integer_text i -> starts_digit r = false -> integer_part (i ++ r) = Ok r.
Proof.
  intros [|b d Hb Hz Hd] Hr; cbn.
  - by rewrite Hr.
  - rewrite eqb_neq by done. rewrite Hb. f_equal. by apply skip_digits_all.
Qed.

Lemma fraction_sound s r : fraction_part s = Ok r -> exists f, fraction_text f /\ s = f ++ r.
Proof.
  unfold fraction_part. destruct (consume_if Byte.x2e s) as [s'|] eqn:Hc.
  - apply consume_if_Some in Hc as ->. intros (b & d & Hb & Hd & ->)%some_digits_sound.
    exists (Byte.x2e :: b :: d). by split; [constructor|].
  - intros [= <-]. exists []. by split; [constructor|].
Qed.

Lemma fraction_complete f r :
  fraction_text f -> starts_digit r = false -> consume_if Byte.x2e r = None -> fraction_part (f ++ r) = Ok r.
Proof.
  intros [|b d Hb Hd] Hr Hc; unfold fraction_part.
  - cbn [app]. by rewrite Hc.
  - rewrite (proj2 (consume_if_Some _ _ (b :: d ++ r))) by done. by apply some_digits_complete.
Qed.

Lemma exponent_sound s r : exponent_part s = Ok r -> exists e, exponent_text e /\ s = e ++ r.
Proof.
  unfold exponent_part. destruct s as [|e s]; [intros [= <-]; exists []; by split; [constructor|]|].
  destruct (is_exponent e) eqn:He; [|intros [= <-]; exists []; by split; [constructor|]].
  destruct s as [|c s]; [done|]. destruct (is_sign c) eqn:Hc.
  - intros (b & d & Hb & Hd & ->)%some_digits_sound. exists (e :: c :: b :: d). by split; [constructor|].
  - intros (b & d & Hb & Hd & E)%some_digits_sound. exists (e :: b :: d). split; [by constructor|]. cbn. by rewrite E.
Qed.

Lemma digit_not_sign b : is_ascii_digit b = true -> is_sign b = false.
Proof. by destruct b. Qed.

Lemma digit_not_minus b : is_ascii_digit b = true -> b <> Byte.x2d.
Proof. by intros H ->. Qed.

Lemma exponent_complete e r : exponent_text e -> stops r = true -> exponent_part (e ++ r) = Ok r.
Proof.
  intros He Hr. pose proof (stops_digit _ Hr) as Hd'. destruct He as [|e b d He Hb Hd|e s b d He Hs Hb Hd]; unfold exponent_part; cbn [app].
  - destruct r as [|c r]; [done|]. cbn in Hr. apply negb_true_iff, orb_false_iff in Hr as [_ ->]. done.
  - rewrite He, (digit_not_sign _ Hb). by apply some_digits_complete.
  - rewrite He, Hs. by apply some_digits_complete.
Qed.

Lemma number_sound s r : parse_number s = Ok r -> exists b, number_text b /\ s = b ++ r.
Proof.
  unfold parse_number. cbv zeta.
  assert (exists sign s0, (sign = [] \/ sign = [Byte.x2d]) /\ s = sign ++ s0
    /\ match consume_if Byte.x2d s with Some r => r | None => s end = s0) as (sign & s0 & Hsign & Hs & ->).
  { destruct (consume_if Byte.x2d s) as [s'|] eqn:Hc; [|exists [], s; auto].
    apply consume_if_Some in Hc as ->. exists [Byte.x2d], s'. auto. }
  subst s. destruct (integer_part s0) as [s1|] eqn:H1; [|done]. apply integer_sound in H1 as (i & Hi & ->).
  destruct (fraction_part s1) as [s2|] eqn:H2; [|done]. apply fraction_sound in H2 as (f & Hf & ->).
  intros (e & He & ->)%exponent_sound. exists (sign ++ i ++ f ++ e). split; [by constructor|]. by rewrite <- !app_assoc.
Qed.

Lemma exponent_head e r :
  exponent_text e -> stops r = true -> starts_digit (e ++ r) = false /\ consume_if Byte.x2e (e ++ r) = None.
Proof.
  intros He Hr. assert (forall c : byte, is_exponent c = true -> is_ascii_digit c = false /\ Byte.eqb c Byte.x2e = false) as Hx
    by (intros c; by destruct c).
  destruct He as [|c b d Hc Hb Hd|c s b d Hc Hs Hb Hd]; cbn.
  - destruct r as [|c r]; [done|]. cbn in *. apply negb_true_iff, orb_false_iff in Hr as [Hr _].
    apply orb_false_iff in Hr as [-> ->]. done.
  - by destruct (Hx _ Hc) as [-> ->].
  - by destruct (Hx _ Hc) as [-> ->].
Qed.

Lemma number_complete b r : number_text b -> stops r = true -> parse_number (b ++ r) = Ok r.
Proof.
  intros [sign i f e Hsign Hi Hf He] Hr. rewrite <- !app_assoc.
  destruct (exponent_head e r He Hr) as [H1 H2].
  assert (starts_digit (f ++ e ++ r) = false) as H3 by (by destruct Hf).
  assert (exists b i', i = b :: i' /\ b <> Byte.x2d) as (h & i' & -> & Hm).
  { destruct Hi as [|h d Hb _ _]; [by exists Byte.x30, []|]. exists h, d. split; [done|]. by apply digit_not_minus. }
  unfold parse_number. cbv zeta.
  assert (match consume_if Byte.x2d (sign ++ (h :: i') ++ f ++ e ++ r) with
          | Some r => r | None => sign ++ (h :: i') ++ f ++ e ++ r end = (h :: i') ++ f ++ e ++ r) as ->.
  { destruct Hsign as [->| ->]; cbn; [by rewrite eqb_neq by done|done]. }
  rewrite integer_complete by done. rewrite fraction_complete by done. by apply exponent_complete.
Qed.

Lemma number_head b :
  number_text b -> exists c t, b = c :: t /\ (c = Byte.x2d \/ is_ascii_digit c = true).
Proof.
  intros [sign i f e Hsign Hi _ _]. destruct Hsign as [->| ->]; [|by eexists _, _; split; [|left]].
  destruct Hi as [|h d Hb _ _]; eexists _, _; (split; [done|by right]).
Qed.

(** ** Values *)

(** The limits are of type [usize]. *)
Record usize_limits (l : JsonLimits) : Prop := {
  depth_usize : 0 <= max_depth l;
  entries_usize : 0 <= max_container_entries l;
  string_usize : 0 <= max_string_bytes l;
}.

Lemma value_head t b : value_text t b -> exists c b', b = c :: b' /\ is_json_whitespace c = false.
Proof.
  destruct 1 as [| | |b Hb|d b Hb| | | |]; try (by eexists _, _).
  - destruct (number_head _ Hb) as (c & b' & -> & Hc). exists c, b'. split; [done|].
    destruct Hc as [->|Hc]; [done|]. by destruct c.
  - destruct (string_text_nonempty _ _ Hb) as (c & b' & -> & ->). by exists Byte.x22, b'.
Qed.

Lemma stops_blank w c r :
  blank w -> stops (c :: r) = true -> stops (w ++ c :: r) = true.
Proof.
  unfold blank. destruct w as [|b w]; [done|]. cbn. intros [Hb _]%andb_prop _. by destruct b.
Qed.

Lemma blank_nil : blank [].
Proof. done. Qed.

Section values.
Context (limits : JsonLimits) (HL : usize_limits limits).
Notation max := (max_container_entries limits).

Definition value_sound (fuel : nat) : Prop := forall depth s k r,
  parse_value limits fuel depth s = Ok (k, r) ->
  exists w t b, blank w /\ value_text t b /\ s = w ++ b ++ r
    /\ within limits depth t = true /\ k = kind_of t.

Definition member_ok (depth : Z) (m : bytes * json) : bool :=
  (len (fst m) <=? max_string_bytes limits) && within limits depth (snd m).

Definition members_sound (fuel : nat) : Prop := forall depth names s r,
  members limits fuel depth names s = Ok r ->
  exists m ms b, members_text (m :: ms) b /\ s = b ++ Byte.x7d :: r
    /\ NoDup (map fst (m :: ms)) /\ (forall n, n ∈ map fst (m :: ms) -> n ∉ names)
    /\ len names + len (m :: ms) <= max /\ forallb (member_ok depth) (m :: ms) = true.

Definition elements_sound (fuel : nat) : Prop := forall depth entries s r,
  elements limits fuel depth entries s = Ok r ->
  exists v vs w b, blank w /\ elements_text (v :: vs) b /\ s = w ++ b ++ Byte.x5d :: r
    /\ entries + len (v :: vs) <= max /\ forallb (within limits depth) (v :: vs) = true.

Lemma other_Ok r k s : other r = Ok (k, s) <-> r = Ok s /\ k = KOther.
Proof. unfold other. destruct r; split; [intros [= <- <-]; done|intros [[= ->] ->]; done|done|by intros [? _]]. Qed.

Lemma check_depth_Ok depth : check_depth limits depth = Ok tt <-> (depth <=? max_depth limits) = true.
Proof. unfold check_depth. destruct (Z.ltb_spec (max_depth limits) depth); split; try done; lia. Qed.

Lemma literal_sound t lit s r :
  value_text t (as_bytes lit) -> consume_literal (as_bytes lit) s = Ok r -> within limits 0 t = true ->
  exists b, value_text t b /\ s = b ++ r.
Proof.
  intros Ht Hs _. unfold consume_literal in Hs. apply ok_or_Ok in Hs. apply strip_prefix_Some in Hs as ->.
  by exists (as_bytes lit).
Qed.

Lemma value_step fuel : members_sound fuel -> elements_sound fuel -> value_sound (S fuel).
Proof.
  intros Hm He depth s k r H. cbn [parse_value] in H. destruct (skip_split s) as (w & Hw & Es).
  destruct (skip_whitespace s) as [|b s1]; [done|].
  assert (forall t b', value_text t b' -> b :: s1 = b' ++ r -> within limits depth t = true -> k = kind_of t ->
    exists w t b, blank w /\ value_text t b /\ s = w ++ b ++ r /\ within limits depth t = true /\ k = kind_of t) as Hdone.
  { intros t b' Ht Hb Hwi Hk. exists w, t, b'. rewrite <- Hb. done. }
  destruct (Byte.eqb b Byte.x7b) eqn:B1.
  { apply eqb_iff in B1 as ->. destruct (check_depth limits (depth + 1)) as [[]|] eqn:Hd; [|done]. apply check_depth_Ok in Hd.
    destruct (skip_split s1) as (w1 & Hw1 & E1). destruct (consume_if Byte.x7d (skip_whitespace s1)) as [r'|] eqn:Hc.
    - apply consume_if_Some in Hc. rewrite Hc in E1. injection H as <- <-.
      apply (Hdone (JObject []) (Byte.x7b :: w1 ++ [Byte.x7d])); [by constructor| | |done].
      + rewrite E1. cbn. by rewrite <- app_assoc.
      + cbn -[Z.leb len]. rewrite Hd. apply andb_true_iff. split; [|done]. apply andb_true_iff. split; [|done].
        apply Z.leb_le. cbn. apply HL.
    - destruct (members limits fuel (depth + 1) [] (skip_whitespace s1)) as [r'|] eqn:Hms; [|done]. injection H as <- <-.
      apply Hm in Hms as (m & ms & b & Hb & Eb & Hnd & _ & Hlen & Hok). rewrite Eb in E1.
      apply (Hdone (JObject (m :: ms)) (Byte.x7b :: w1 ++ b ++ [Byte.x7d])); [by constructor| | |done].
      + rewrite E1. cbn. by rewrite <- !app_assoc.
      + cbn -[Z.leb len forallb map]. rewrite Hd. rewrite bool_decide_true by done. rewrite andb_true_r.
        cbn [len length] in Hlen. apply andb_true_iff. split; [|exact Hok]. apply andb_true_iff. split; [done|].
        apply Z.leb_le. unfold len in *. cbn in *. lia. }
  destruct (Byte.eqb b Byte.x5b) eqn:B2.
  { apply eqb_iff in B2 as ->. destruct (check_depth limits (depth + 1)) as [[]|] eqn:Hd; [|done]. apply check_depth_Ok in Hd.
    apply other_Ok in H as [H ->].
    destruct (skip_split s1) as (w1 & Hw1 & E1). destruct (consume_if Byte.x5d (skip_whitespace s1)) as [r'|] eqn:Hc.
    - apply consume_if_Some in Hc. rewrite Hc in E1. injection H as <-.
      apply (Hdone (JArray []) (Byte.x5b :: w1 ++ [Byte.x5d])); [by constructor| | |done].
      + rewrite E1. cbn. by rewrite <- app_assoc.
      + cbn -[Z.leb len]. rewrite Hd, andb_true_r. apply andb_true_iff. split; [done|].
        apply Z.leb_le. cbn. apply HL.
    - apply He in H as (v & vs & w2 & b & Hw2 & Hb & Eb & Hlen & Hok). rewrite Eb in E1.
      apply (Hdone (JArray (v :: vs)) (Byte.x5b :: (w1 ++ w2) ++ b ++ [Byte.x5d])).
      + constructor; [|done]. unfold blank in *. by rewrite forallb_app, Hw1, Hw2.
      + rewrite E1. cbn. by rewrite <- !app_assoc.
      + cbn -[Z.leb len forallb]. rewrite Hd. apply andb_true_iff. split; [|exact Hok]. apply andb_true_iff. split; [done|].
        apply Z.leb_le. lia.
      + done. }
  destruct (Byte.eqb b Byte.x22) eqn:B3.
  { destruct (parse_string limits (b :: s1)) as [[d r']|] eqn:Hs; [|done]. injection H as <- <-.
    apply string_sound in Hs as (t & Ht & Eb & Hl); [|apply HL].
    apply (Hdone (JString d) t); [by constructor|done| |done]. by apply Z.leb_le. }
  destruct (Byte.eqb b Byte.x2d || is_ascii_digit b).
  { apply other_Ok in H as [H ->]. apply number_sound in H as (t & Ht & Eb).
    by apply (Hdone JNumber t); [constructor|..]. }
  destruct (Byte.eqb b Byte.x74).
  { apply other_Ok in H as [H ->]. apply (literal_sound JTrue) in H as (t & Ht & Eb); [|constructor|done].
    by apply (Hdone JTrue t). }
  destruct (Byte.eqb b Byte.x66).
  { apply other_Ok in H as [H ->]. apply (literal_sound JFalse) in H as (t & Ht & Eb); [|constructor|done].
    by apply (Hdone JFalse t). }
  destruct (Byte.eqb b Byte.x6e); [|done].
  apply other_Ok in H as [H ->]. apply (literal_sound JNull) in H as (t & Ht & Eb); [|constructor|done].
  by apply (Hdone JNull t).
Qed.

Lemma members_step fuel : value_sound fuel -> members_sound fuel -> members_sound (S fuel).
Proof.
  intros Hv IH depth names s r H. cbn [members] in H.
  destruct (parse_string limits s) as [[name s1]|] eqn:Hs; [|done].
  apply string_sound in Hs as (t & Ht & -> & Hl); [|apply HL].
  case_bool_decide as Hn; [done|]. destruct (max <? len (names ++ [name])) eqn:Hmax; [done|].
  destruct (skip_split s1) as (w1 & Hw1 & E1).
  destruct (expect Byte.x3a (skip_whitespace s1)) as [s2|] eqn:Hx; [|done]. apply expect_iff in Hx. rewrite Hx in E1.
  destruct (parse_value limits fuel depth s2) as [[k s3]|] eqn:Hval; [|done].
  apply Hv in Hval as (w2 & v & bv & Hw2 & Hbv & -> & Hwi & _).
  destruct (skip_split s3) as (w3 & Hw3 & E3).
  assert (member_ok depth (name, v) = true) as Hmo.
  { unfold member_ok. cbn. apply andb_true_iff. split; [by apply Z.leb_le|done]. }
  rewrite len_app in Hmax. change (len [name]) with 1 in Hmax.
  destruct (consume_if Byte.x7d (skip_whitespace s3)) as [s4|] eqn:Hc.
  - apply consume_if_Some in Hc. injection H as <-. rewrite Hc in E3.
    exists (name, v), [], (t ++ w1 ++ Byte.x3a :: w2 ++ bv ++ w3).
    split; [by constructor|]. split; [rewrite E1, E3; repeat (rewrite <- app_assoc; cbn [app]); done|].
    split; [apply NoDup_singleton|]. split; [by intros n ->%list_elem_of_singleton|].
    split; [change (len [(name, v)]) with 1; lia|]. cbn. by rewrite Hmo.
  - destruct (expect Byte.x2c (skip_whitespace s3)) as [s4|] eqn:Hx2; [|done]. apply expect_iff in Hx2. rewrite Hx2 in E3.
    destruct (skip_split s4) as (w4 & Hw4 & E4).
    apply IH in H as (m & ms & b & Hb & Eb & Hnd & Hnew & Hlen & Hok). rewrite Eb in E4.
    exists (name, v), (m :: ms), (t ++ w1 ++ Byte.x3a :: w2 ++ bv ++ w3 ++ Byte.x2c :: w4 ++ b).
    split; [by constructor|]. split; [rewrite E1, E3, E4; repeat (rewrite <- app_assoc; cbn [app]); done|].
    split.
    { cbn [map fst]. constructor; [|done]. intros Hin%Hnew. apply Hin. apply elem_of_app. right. by apply list_elem_of_singleton. }
    split.
    { cbn [map fst]. intros n [->|Hin]%elem_of_cons; [done|]. intros Hold. apply (Hnew n Hin). apply elem_of_app. by left. }
    split; [rewrite len_app in Hlen; change (len [name]) with 1 in Hlen; rewrite len_cons; lia|].
    change (forallb (member_ok depth) ((name, v) :: m :: ms)) with (member_ok depth (name, v) && forallb (member_ok depth) (m :: ms)).
    by rewrite Hmo.
Qed.

Lemma elements_step fuel : value_sound fuel -> elements_sound fuel -> elements_sound (S fuel).
Proof.
  intros Hv IH depth entries s r H. cbn [elements] in H. destruct (max <? entries + 1) eqn:Hmax; [done|].
  destruct (parse_value limits fuel depth s) as [[k s3]|] eqn:Hval; [|done].
  apply Hv in Hval as (w2 & v & bv & Hw2 & Hbv & -> & Hwi & _).
  destruct (skip_split s3) as (w3 & Hw3 & E3).
  destruct (consume_if Byte.x5d (skip_whitespace s3)) as [s4|] eqn:Hc.
  - apply consume_if_Some in Hc. injection H as <-. rewrite Hc in E3.
    exists v, [], w2, (bv ++ w3). split; [done|]. split; [by constructor|].
    split; [rewrite E3; repeat (rewrite <- app_assoc; cbn [app]); done|].
    split; [change (len [v]) with 1; lia|]. cbn. by rewrite Hwi.
  - destruct (expect Byte.x2c (skip_whitespace s3)) as [s4|] eqn:Hx2; [|done]. apply expect_iff in Hx2. rewrite Hx2 in E3.
    destruct (skip_split s4) as (w4 & Hw4 & E4).
    apply IH in H as (v' & vs & w5 & b & Hw5 & Hb & Eb & Hlen & Hok). rewrite Eb in E4.
    exists v, (v' :: vs), w2, (bv ++ w3 ++ Byte.x2c :: (w4 ++ w5) ++ b). split; [done|].
    split; [constructor; try done; unfold blank in *; by rewrite forallb_app, Hw4, Hw5|].
    split; [rewrite E3, E4; repeat (rewrite <- app_assoc; cbn [app]); done|].
    split; [rewrite len_cons; lia|].
    change (forallb (within limits depth) (v :: v' :: vs)) with (within limits depth v && forallb (within limits depth) (v' :: vs)).
    by rewrite Hwi.
Qed.

Lemma values_sound fuel : value_sound fuel /\ members_sound fuel /\ elements_sound fuel.
Proof.
  induction fuel as [|fuel (IHv & IHm & IHe)]; [by split_and!|].
  auto using value_step, members_step, elements_step.
Qed.
End values.

#[local] Ltac lens H := repeat progress (rewrite ?length_app in H; cbn [length] in H); cbn [length]; lia.

Section complete.
Context (limits : JsonLimits).
Notation max := (max_container_entries limits).

Definition value_complete (t : json) (b : bytes) : Prop := forall fuel depth w r,
  blank w -> within limits depth t = true -> stops r = true -> (2 * length b + 1 <= fuel)%nat ->
  parse_value limits fuel depth (w ++ b ++ r) = Ok (kind_of t, r).

Definition elements_complete (vs : list json) (b : bytes) : Prop := forall fuel depth entries w r,
  blank w -> forallb (within limits depth) vs = true -> 0 <= entries -> entries + len vs <= max ->
  (2 * length b + 2 <= fuel)%nat ->
  elements limits fuel depth entries (w ++ b ++ Byte.x5d :: r) = Ok r.

Definition members_complete (ms : list (bytes * json)) (b : bytes) : Prop := forall fuel depth names r,
  forallb (member_ok limits depth) ms = true -> NoDup (map fst ms) ->
  (forall n, n ∈ map fst ms -> n ∉ names) -> len names + len ms <= max ->
  (2 * length b + 2 <= fuel)%nat ->
  members limits fuel depth names (b ++ Byte.x7d :: r) = Ok r.

(** After white space and before anything else, a value begins where its text
    begins. *)
Lemma value_at fuel depth w c r :
  blank w -> is_json_whitespace c = false ->
  parse_value limits fuel depth (w ++ c :: r) = parse_value limits fuel depth (c :: r).
Proof. intros Hw Hc. destruct fuel; [done|]. cbn [parse_value]. rewrite skip_blank by done. done. Qed.

Lemma blank_end w c r :
  blank w -> is_json_whitespace c = false -> skip_whitespace (w ++ c :: r) = c :: r.
Proof. intros Hw Hc. rewrite skip_blank by done. by apply skip_stop. Qed.

Lemma eqb_refl c : Byte.eqb c c = true.
Proof. by apply eqb_iff. Qed.

Lemma consume_same c s : consume_if c (c :: s) = Some s.
Proof. by apply consume_if_Some. Qed.

Lemma expect_same c s : expect c (c :: s) = Ok s.
Proof. by apply expect_iff. Qed.

Lemma literal_complete lit r : consume_literal (as_bytes lit) (as_bytes lit ++ r) = Ok r.
Proof. unfold consume_literal. by rewrite strip_prefix_app. Qed.

Lemma elements_head vs b : elements_text vs b -> exists c b', b = c :: b' /\ is_json_whitespace c = false /\ c <> Byte.x5d.
Proof.
  assert (forall t b, value_text t b -> exists c b', b = c :: b' /\ is_json_whitespace c = false /\ c <> Byte.x5d) as Hv.
  { intros t v Ht. destruct (value_head _ _ Ht) as (c & b' & -> & Hc). exists c, b'. split; [done|]. split; [done|].
    intros ->. inversion Ht as [| | |v Hb|d v Hb| | | |]; subst.
    - destruct (number_head _ Hb) as (c & b2 & [= <- <-] & [Hd|Hd]); done.
    - by destruct (string_text_nonempty _ _ Hb) as (c & b2 & [= <- <-] & Hd). }
  destruct 1 as [v t w Ht Hw|v t w w' l r Ht Hw Hw' Hl]; destruct (Hv _ _ Ht) as (c & b' & -> & ?); by eexists c, _.
Qed.

Lemma members_head ms b : members_text ms b -> exists b', b = Byte.x22 :: b'.
Proof.
  destruct 1 as [n v t w1 w2 tv w3 Ht|n v t w1 w2 tv w3 w4 l r Ht];
    destruct (string_text_nonempty _ _ Ht) as (c & b' & -> & ->); by eexists.
Qed.

Lemma texts_complete :
  (forall t b, value_text t b -> value_complete t b)
  /\ (forall vs b, elements_text vs b -> elements_complete vs b)
  /\ (forall ms b, members_text ms b -> members_complete ms b).
Proof.
  apply json_text_ind.
  - intros [|fuel] depth w r Hw _ _ Hf; [lia|]. change (as_bytes "null" ++ r) with (Byte.x6e :: (skipn 1 (as_bytes "null") ++ r)).
    rewrite value_at by done. change (parse_value limits (S fuel) depth (Byte.x6e :: (skipn 1 (as_bytes "null") ++ r)))
      with (other (consume_literal (as_bytes "null") (as_bytes "null" ++ r))). by rewrite literal_complete.
  - intros [|fuel] depth w r Hw _ _ Hf; [lia|]. change (as_bytes "true" ++ r) with (Byte.x74 :: (skipn 1 (as_bytes "true") ++ r)).
    rewrite value_at by done. change (parse_value limits (S fuel) depth (Byte.x74 :: (skipn 1 (as_bytes "true") ++ r)))
      with (other (consume_literal (as_bytes "true") (as_bytes "true" ++ r))). by rewrite literal_complete.
  - intros [|fuel] depth w r Hw _ _ Hf; [lia|]. change (as_bytes "false" ++ r) with (Byte.x66 :: (skipn 1 (as_bytes "false") ++ r)).
    rewrite value_at by done. change (parse_value limits (S fuel) depth (Byte.x66 :: (skipn 1 (as_bytes "false") ++ r)))
      with (other (consume_literal (as_bytes "false") (as_bytes "false" ++ r))). by rewrite literal_complete.
  - intros b Hb [|fuel] depth w r Hw _ Hr Hf; [lia|]. pose proof (number_complete _ _ Hb Hr) as Hn.
    destruct (number_head _ Hb) as (c & b' & -> & Hc). cbn [app] in *.
    assert (is_json_whitespace c = false /\ Byte.eqb c Byte.x7b = false /\ Byte.eqb c Byte.x5b = false
      /\ Byte.eqb c Byte.x22 = false /\ Byte.eqb c Byte.x2d || is_ascii_digit c = true) as (H1 & H2 & H3 & H4 & H5).
    { destruct Hc as [->|Hc]; [done|]. by destruct c. }
    rewrite value_at by done. cbn [parse_value]. rewrite skip_stop by done. by rewrite H2, H3, H4, H5, Hn.
  - intros d b Hb [|fuel] depth w r Hw Hl%Z.leb_le Hr Hf; [lia|]. pose proof (string_complete limits d b r Hb Hl) as Hn.
    destruct (string_text_nonempty _ _ Hb) as (c & b' & -> & ->). cbn [app] in *. rewrite value_at by done.
    cbn [parse_value]. rewrite skip_stop by done. by rewrite Hn.
  - intros w1 Hw1 [|fuel] depth w r Hw Hl Hr Hf; [lia|]. cbn [app]. rewrite value_at by done. cbn [parse_value].
    rewrite skip_stop by done. cbn -[Z.leb len] in Hl. apply andb_prop in Hl as [[Hd _]%andb_prop _].
    change (Byte.eqb Byte.x5b Byte.x7b) with false. rewrite eqb_refl. rewrite (proj2 (check_depth_Ok _ _)) by done.
    rewrite <- app_assoc. cbn [app]. rewrite blank_end by done. by rewrite consume_same.
  - intros v vs w1 b Hw1 Hb IH [|fuel] depth w r Hw Hl Hr Hf; [lia|]. cbn [app]. rewrite value_at by done.
    cbn [parse_value]. rewrite skip_stop by done. cbn -[Z.leb len forallb] in Hl.
    apply andb_prop in Hl as [[Hd Hn%Z.leb_le]%andb_prop Hok].
    change (Byte.eqb Byte.x5b Byte.x7b) with false. rewrite eqb_refl. rewrite (proj2 (check_depth_Ok _ _)) by done.
    rewrite <- !app_assoc. cbn [app]. destruct (elements_head _ _ Hb) as (c & b' & -> & Hc & Hx). cbn [app] in *.
    rewrite blank_end by done. rewrite (proj2 (consume_if_None Byte.x5d _)) by (by intros r' [= -> _]).
    specialize (IH fuel (depth + 1) 0 [] r). cbn [app] in IH. rewrite IH; [done|done|exact Hok|lia|lia|].
    lens Hf.
  - intros w1 Hw1 [|fuel] depth w r Hw Hl Hr Hf; [lia|]. cbn [app]. rewrite value_at by done. cbn [parse_value].
    rewrite skip_stop by done. cbn -[Z.leb len] in Hl. apply andb_prop in Hl as [[[Hd _]%andb_prop _]%andb_prop _].
    rewrite eqb_refl. rewrite (proj2 (check_depth_Ok _ _)) by done.
    rewrite <- app_assoc. cbn [app]. rewrite blank_end by done. by rewrite consume_same.
  - intros m ms w1 b Hw1 Hb IH [|fuel] depth w r Hw Hl Hr Hf; [lia|]. cbn [app]. rewrite value_at by done.
    cbn [parse_value]. rewrite skip_stop by done. cbn -[Z.leb len forallb map] in Hl.
    apply andb_prop in Hl as [[[Hd Hn%Z.leb_le]%andb_prop Hnd%bool_decide_eq_true]%andb_prop Hok].
    rewrite eqb_refl. rewrite (proj2 (check_depth_Ok _ _)) by done.
    rewrite <- !app_assoc. cbn [app]. destruct (members_head _ _ Hb) as (b' & ->). cbn [app] in *.
    rewrite blank_end by done. rewrite (proj2 (consume_if_None Byte.x7d _)) by done.
    specialize (IH fuel (depth + 1) [] r). cbn [app] in IH. rewrite IH; [done|exact Hok|exact Hnd|intros n _; apply not_elem_of_nil|exact Hn|].
    lens Hf.
  - intros v b w1 Hb IH Hw1 [|fuel] depth entries w r Hw Hl He Hmax Hf; [lia|]. cbn [elements].
    change (len [v]) with 1 in Hmax. rewrite (proj2 (Z.ltb_ge _ _)) by lia.
    cbn [forallb] in Hl. apply andb_prop in Hl as [Hl _]. rewrite <- app_assoc.
    rewrite (IH fuel depth w (w1 ++ Byte.x5d :: r)); [|done|done|by apply stops_blank|lens Hf].
    rewrite blank_end by done. by rewrite consume_same.
  - intros v b w1 w2 l t Hb IH Hw1 Hw2 Ht IHt [|fuel] depth entries w r Hw Hl He Hmax Hf; [lia|]. cbn [elements].
    rewrite len_cons in Hmax. pose proof (len_nonneg l). rewrite (proj2 (Z.ltb_ge _ _)) by lia.
    cbn [forallb] in Hl. apply andb_prop in Hl as [Hl Hls].
    assert (w ++ (b ++ w1 ++ Byte.x2c :: w2 ++ t) ++ Byte.x5d :: r
            = w ++ b ++ w1 ++ Byte.x2c :: w2 ++ t ++ Byte.x5d :: r) as ->.
    { repeat (rewrite <- app_assoc; cbn [app]). done. }
    rewrite (IH fuel depth w _); [|done|done|by apply stops_blank|lens Hf].
    rewrite blank_end by done. change (consume_if Byte.x5d (Byte.x2c :: w2 ++ t ++ Byte.x5d :: r)) with (@None bytes).
    rewrite expect_same. destruct (elements_head _ _ Ht) as (c & t' & -> & Hc & _). cbn [app].
    rewrite blank_end by done. specialize (IHt fuel depth (entries + 1) [] r). cbn [app] in IHt.
    apply IHt; try done; try lia. lens Hf.
  - intros n v b w1 w2 t w3 Hb Hw1 Hw2 Ht IH Hw3 [|fuel] depth names r Hl Hnd Hnew Hmax Hf; [lia|]. cbn [members].
    cbn [forallb] in Hl. apply andb_prop in Hl as [[Hn%Z.leb_le Hv]%andb_prop _]. cbn [fst snd] in Hn, Hv.
    rewrite <- app_assoc. rewrite (string_complete limits n b _ Hb Hn).
    rewrite bool_decide_false by (apply Hnew; by left). rewrite len_app. change (len [(n, v)]) with 1 in Hmax. change (len [n]) with 1.
    rewrite (proj2 (Z.ltb_ge _ _)) by lia. rewrite <- app_assoc. cbn [app]. rewrite blank_end by done. rewrite expect_same.
    repeat (rewrite <- app_assoc; cbn [app]).
    rewrite (IH fuel depth w2 _); [|done|done|by apply stops_blank|].
    2: lens Hf.
    rewrite blank_end by done. by rewrite consume_same.
  - intros n v b w1 w2 t w3 w4 l u Hb Hw1 Hw2 Ht IH Hw3 Hw4 Hu IHu [|fuel] depth names r Hl Hnd Hnew Hmax Hf; [lia|].
    cbn [members]. cbn [forallb] in Hl. apply andb_prop in Hl as [[Hn%Z.leb_le Hv]%andb_prop Hls]. cbn [fst snd] in Hn, Hv.
    cbn [map fst] in Hnd, Hnew. inversion Hnd as [|? ? Hnin Hnd']; subst.
    rewrite <- app_assoc. rewrite (string_complete limits n b _ Hb Hn).
    rewrite bool_decide_false by (apply Hnew; by left). rewrite len_app. rewrite len_cons in Hmax. pose proof (len_nonneg l).
    change (len [n]) with 1. rewrite (proj2 (Z.ltb_ge _ _)) by lia.
    rewrite <- app_assoc. cbn [app]. rewrite blank_end by done. rewrite expect_same.
    repeat (rewrite <- app_assoc; cbn [app]).
    assert (length b <> 0%nat) as Hb0 by (by destruct (string_text_nonempty _ _ Hb) as (? & ? & -> & _)).
    rewrite (IH fuel depth w2 _); [|done|done|by apply stops_blank|lens Hf].
    rewrite blank_end by done. change (consume_if Byte.x7d (Byte.x2c :: w4 ++ u ++ Byte.x7d :: r)) with (@None bytes).
    rewrite expect_same. destruct (members_head _ _ Hu) as (u' & ->). cbn [app]. rewrite blank_end by done.
    apply (IHu fuel depth (names ++ [n]) r); [exact Hls|exact Hnd'|..].
    + intros m Hm [Hin| ->%list_elem_of_singleton]%elem_of_app; [|done]. apply (Hnew m); [by right|done].
    + rewrite len_app. change (len [n]) with 1. lia.
    + lens Hf.
Qed.
End complete.

(** ** The boundary *)

Section boundary.
Context {SJ : SerdeJson} (limits : JsonLimits).

Lemma stops_end w : blank w -> stops w = true.
Proof. unfold blank. destruct w as [|b w]; [done|]. cbn. intros [Hb _]%andb_prop. by destruct b. Qed.

Lemma scan_iff input k :
  usize_limits limits ->
  scan limits input = Ok k
  <-> exists t, document_text t input /\ within limits 0 t = true /\ k = kind_of t.
Proof.
  intros HL. unfold scan. split.
  - destruct (parse_value limits _ 0 (skip_whitespace input)) as [[root s]|] eqn:Hv; [|done].
    apply (values_sound limits HL) in Hv as (w & t & b & Hw & Ht & E & Hwi & ->).
    destruct (skip_split s) as (w' & Hw' & Es). destruct (skip_whitespace s); [|done]. intros [= <-].
    rewrite app_nil_r in Es. subst s. exists t. split; [|done].
    destruct (skip_split input) as (w0 & Hw0 & ->). rewrite E. exists (w0 ++ w), b, w'.
    split; [unfold blank in *; by rewrite forallb_app, Hw0, Hw|]. by rewrite <- app_assoc.
  - intros (t & (w & v & w' & Hw & Hv & Hw' & ->) & Hwi & ->).
    destruct (value_head _ _ Hv) as (c & v' & -> & Hc).
    assert (skip_whitespace (w ++ (c :: v') ++ w') = (c :: v') ++ w') as -> by (cbn [app]; by apply blank_end).
    pose proof (proj1 (texts_complete limits) _ _ Hv (2 * length (w ++ (c :: v') ++ w') + 2)%nat 0 [] w'
      blank_nil Hwi (stops_end _ Hw')) as H. rewrite app_nil_l in H. rewrite H by (rewrite !length_app; cbn [length]; lia).
    rewrite <- (app_nil_r w'), skip_blank by done. done.
Qed.

(** C32: The boundary accepts exactly the JSON documents of its grammar: the limits are at most the hard
    ones, the bytes are within the limit and valid UTF-8, and they are the text of an object in which
    every container, nesting and decoded string is within the limits and no object, at any depth, has
    two members of one name after their escapes are decoded; the result is what serde_json reads.  So no
    document is refused for want of fuel and none is accepted with a repeated name. *)
Theorem bounded_json_iff input object :
  usize_limits limits ->
  parse_object limits input = Ok object
  <-> limits_ok limits = true /\ len input <= max_bytes limits /\ utf8_valid input = true
      /\ exists ms, document_text (JObject ms) input /\ within limits 0 (JObject ms) = true
         /\ value_from_slice input = Some (VObject object).
Proof.
  intros HL. unfold parse_object. destruct (limits_ok limits); [|by split; [|intros [? _]]]. cbn [negb].
  destruct (Z.ltb_spec (max_bytes limits) (len input)); [split; [done|lia]|].
  destruct (utf8_valid input); [|by split; [|intros (_ & _ & ? & _)]]. cbn [negb]. split.
  - intros Hs. destruct (scan limits input) as [k|] eqn:Hk; [|done].
    apply scan_iff in Hk as (t & Ht & Hwi & ->); [|done]. destruct t; try done. cbn [kind_of] in Hs.
    destruct (value_from_slice input) as [v|]; [|done]. cbn [ok_or] in Hs. destruct v; try done.
    injection Hs as ->. split_and!; try done. by exists l.
  - intros (_ & _ & _ & ms & Ht & Hwi & ->).
    assert (scan limits input = Ok KObject) as -> by (apply scan_iff; [done|]; by exists (JObject ms)). done.
Qed.
End boundary.

(** ** Samples *)

Module Examples.

#[export] Instance empty_serde : SerdeJson := {|
  value_from_slice := fun _ => Some (VObject []); value_to_vec := fun _ => [] |}.

Definition outcome (s : bytes) : option JsonBoundaryError :=
  match parse_object DEFAULT_JSON_LIMITS s with Ok _ => None | Err e => Some e end.

Definition q : bytes := [Byte.x22].

(** [{"a" : 1, "b" : [true]}] is accepted; [{"a":1,"\u0061":2}] repeats a name. *)
Definition good : bytes :=
  as_bytes "{" ++ q ++ as_bytes "a" ++ q ++ as_bytes " : -1.5e3, " ++ q ++ as_bytes "b" ++ q ++ as_bytes " : [true]} ".

Example boundary_accepts :
  outcome good = None
  /\ outcome (as_bytes "{" ++ q ++ as_bytes "a" ++ q ++ as_bytes ":1," ++ q ++ as_bytes "\u0061" ++ q ++ as_bytes ":2}")
     = Some DuplicateMember
  /\ outcome (as_bytes "[1]") = Some NonObjectRoot
  /\ outcome (as_bytes "{" ++ q ++ as_bytes "a" ++ q ++ as_bytes ":01}") = Some InvalidJson
  /\ outcome (as_bytes "{" ++ q ++ as_bytes "a" ++ q ++ as_bytes ":" ++ repeat Byte.x5b 17) = Some DepthExceeded.
Proof. split_and!; vm_compute; reflexivity. Qed.
End Examples.

Lemma default_usize : usize_limits DEFAULT_JSON_LIMITS.
Proof. split; vm_compute; discriminate. Qed.

Lemma bounded_json_iff_witness :
  exists ms, document_text (JObject ms) Examples.good /\ within DEFAULT_JSON_LIMITS 0 (JObject ms) = true.
Proof.
  assert (@parse_object DEFAULT_JSON_LIMITS Examples.empty_serde Examples.good = Ok []) as H
    by (vm_compute; reflexivity).
  destruct (proj1 (@bounded_json_iff Examples.empty_serde DEFAULT_JSON_LIMITS Examples.good [] default_usize) H)
    as (_ & _ & _ & ms & Ht & Hw & _).
  exact (ex_intro _ ms (conj Ht Hw)).
Defined.
