(* ===== verification/HttpsUrls.v ===== *)
(** * Canonical HTTPS URLs (crates/oid4vci/src/foundation.rs)

    Issuer identifiers and endpoints: [validate_https_url] and what it calls,
    the addresses of the standard library with their [FromStr] and [Display]
    included, and the well-known locations of metadata. *)

From stdpp Require Import list pretty.
From S2P Require Oid4vp.
From S2P Require Import Prelude Utf8.

Open Scope Z_scope.
Open Scope rust_scope.

Definition MAX_IDENTIFIER_BYTES : Z := 2048.
Definition MAX_ENDPOINT_BYTES : Z := 4096.

Inductive UrlSyntaxError : Type :=
| Empty | TooLong | NotHttps | CredentialsForbidden | QueryForbidden | FragmentForbidden
| InvalidAuthority | InvalidHost | InvalidPort | InvalidPath | InvalidQuery | NonCanonical.

Inductive UrlKind : Type := Identifier | Endpoint.

(** ** [std::net]: IPv4 and IPv6 addresses *)

Definition read_octet (b : bytes) : option (Z * bytes) :=
  let! (count, n, r) := Oid4vp.read_dec 0 0 b in
  if (count =? 0)%nat || (bool_decide (head b = Some Byte.x30) && (1 <? count)%nat) then None
  else Some (n, r).

(** [read_separator(c, index, inner)]. *)
Definition read_separator {A} (c : byte) (index : nat) (inner : bytes -> option (A * bytes)) (b : bytes)
  : option (A * bytes) :=
  match index with
  | O => inner b
  | S _ => let! r := Oid4vp.read_char c b in inner r
  end.

Definition read_ipv4 (b : bytes) : option (list Z * bytes) :=
  let! (o0, r) := read_octet b in
  let! (o1, r) := read_separator Byte.x2e 1 read_octet r in
  let! (o2, r) := read_separator Byte.x2e 2 read_octet r in
  let! (o3, r) := read_separator Byte.x2e 3 read_octet r in
  Some ([o0; o1; o2; o3], r).

(** [Ipv4Addr::from_str]: at most 15 bytes, all of them. *)
Definition parse_ipv4 (b : bytes) : option (list Z) :=
  if 15 <? len b then None
  else match read_ipv4 b with Some (octets, []) => Some octets | _ => None end.

Fixpoint hex_group (count : nat) (n : Z) (b : bytes) : option (nat * Z * bytes) :=
  match b with
  | x :: r =>
      match Oid4vp.hex_digit x with
      | Some d => if (count <? 4)%nat then hex_group (S count) (n * 16 + d) r else None
      | None => Some (count, n, b)
      end
  | [] => Some (count, n, [])
  end.

Definition read_group (b : bytes) : option (Z * bytes) :=
  let! (count, n, r) := hex_group 0 0 b in
  if (count =? 0)%nat then None else Some (n, r).

(** [read_groups]: the groups that are read from the [i]-th on, whether an IPv4
    part ended them, the rest. *)
Fixpoint read_groups (fuel i limit : nat) (b : bytes) : list Z * bool * bytes :=
  match fuel with
  | O => ([], false, b)
  | S fuel =>
      match (if (i <? limit - 1)%nat then read_separator Byte.x3a i read_ipv4 b else None) with
      | Some ([one; two; three; four], r) => ([one * 256 + two; three * 256 + four], true, r)
      | _ =>
          match read_separator Byte.x3a i read_group b with
          | Some (g, r) =>
              let '(groups, ipv4, r) := read_groups fuel (S i) limit r in (g :: groups, ipv4, r)
          | None => ([], false, b)
          end
      end
  end.

Definition read_ipv6 (b : bytes) : option (list Z * bytes) :=
  let '(head, head_ipv4, r) := read_groups 8 0 8 b in
  if (length head =? 8)%nat then Some (head, r)
  else if head_ipv4 then None
  else
    let! r := Oid4vp.read_char Byte.x3a r in
    let! r := Oid4vp.read_char Byte.x3a r in
    let limit := (8 - (length head + 1))%nat in
    let '(tail, _, r) := read_groups limit 0 limit r in
    Some (head ++ repeat 0 (8 - length head - length tail) ++ tail, r).

Definition parse_ipv6 (b : bytes) : option (list Z) :=
  match read_ipv6 b with Some (segments, []) => Some segments | _ => None end.

(** [Display]: decimal octets; hexadecimal groups without leading zeros, the
    first longest run of at least two zero groups as two colons, and an
    IPv4-mapped address in its mixed form. *)
Definition ipv4_to_string (octets : list Z) : bytes :=
  join_byte Byte.x2e (map (fun o => as_bytes (pretty o)) octets).

Definition lower_hex_digit (n : Z) : byte := byte.of_Z (if n <=? 9 then 48 + n else 87 + n).

Fixpoint lower_hex_fuel (fuel : nat) (n : Z) : bytes :=
  match fuel with
  | O => []
  | S fuel => (if n <? 16 then [] else lower_hex_fuel fuel (n / 16)) ++ [lower_hex_digit (n mod 16)]
  end.

(** A group has at most four digits. *)
Definition lower_hex (n : Z) : bytes := lower_hex_fuel 4 n.

(** The longest run of zeros so far, and the one that is open: start and
    length. *)
Fixpoint zero_span (segments : list Z) (i : nat) (current longest : nat * nat) : nat * nat :=
  match segments with
  | [] => longest
  | s :: segments =>
      if s =? 0 then
        let current := (if (snd current =? 0)%nat then i else fst current, S (snd current)) in
        zero_span segments (S i) current (if (snd longest <? snd current)%nat then current else longest)
      else zero_span segments (S i) (0%nat, 0%nat) longest
  end.

Definition fmt_subslice (chunk : list Z) : bytes := join_byte Byte.x3a (map lower_hex chunk).

Definition ipv6_to_string (segments : list Z) : bytes :=
  match segments with
  | [0; 0; 0; 0; 0; 65535; a; b] =>
      as_bytes "::ffff:" ++ ipv4_to_string [a / 256; a mod 256; b / 256; b mod 256]
  | _ =>
      let '(start, run) := zero_span segments 0 (0%nat, 0%nat) (0%nat, 0%nat) in
      if (1 <? run)%nat
      then fmt_subslice (firstn start segments) ++ as_bytes "::" ++ fmt_subslice (skipn (start + run) segments)
      else fmt_subslice segments
  end.

(** ** Components *)

Definition one_of_bytes (l : bytes) (b : byte) : bool := existsb (Byte.eqb b) l.

Definition is_unreserved (b : byte) : bool := is_ascii_alphanumeric b || one_of_bytes (as_bytes "-._~") b.

Definition is_upper_hex (b : byte) : bool := is_ascii_digit b || in_range 65 70 (byte.unsigned b).

Definition hex (b : byte) : Z :=
  let x := byte.unsigned b in
  if in_range 48 57 x then x - 48 else if in_range 65 70 x then x - 65 + 10 else 0.

(** The characters a percent-encoding must not stand for. *)
Definition encoding_is_needless (decoded : byte) : bool :=
  is_unreserved decoded || (byte.unsigned decoded <? 32) || (byte.unsigned decoded =? 127)
  || one_of_bytes [Byte.x2f; Byte.x5c; Byte.x3f; Byte.x23] decoded.

Definition component_byte (query : bool) (b : byte) : bool :=
  is_unreserved b || one_of_bytes (as_bytes "!$&'()*+,;=:@") b || Byte.eqb b Byte.x2f
  || (query && Byte.eqb b Byte.x3f).

Definition component_error (query : bool) : UrlSyntaxError := if query then InvalidQuery else InvalidPath.

Fixpoint validate_uri_component (component : bytes) (query : bool) : result unit UrlSyntaxError :=
  match component with
  | [] => Ok tt
  | Byte.x25 :: component =>
      match component with
      | high :: low :: component =>
          if negb (is_upper_hex high) || negb (is_upper_hex low) then Err NonCanonical
          else if encoding_is_needless (byte.of_Z (Z.lor (Z.shiftl (hex high) 4) (hex low)))
          then Err NonCanonical
          else validate_uri_component component query
      | _ => Err (component_error query)
      end
  | b :: component =>
      if negb (component_byte query b) then Err (component_error query)
      else validate_uri_component component query
  end.

Definition label_is_valid (label : bytes) : bool :=
  negb (is_empty label || (63 <? len label)
        || bool_decide (head label = Some Byte.x2d) || bool_decide (head (rev label) = Some Byte.x2d)
        || negb (forallb (fun b => is_ascii_lower b || is_ascii_digit b || Byte.eqb b Byte.x2d) label)).

Definition validate_reg_name (host : bytes) : result unit UrlSyntaxError :=
  if (253 <? len host) || bool_decide (head (rev host) = Some Byte.x2e) || existsb is_ascii_upper host
  then Err NonCanonical
  else if forallb (fun b => is_ascii_digit b || Byte.eqb b Byte.x2e) host then
    let? address := ok_or (parse_ipv4 host) InvalidHost in
    if bool_decide (ipv4_to_string address = host) then Ok tt else Err NonCanonical
  else if forallb label_is_valid (split_byte Byte.x2e host) then Ok tt
  else Err InvalidHost.

Definition validate_port (port : bytes) : result unit UrlSyntaxError :=
  if is_empty port || negb (forallb is_ascii_digit port)
     || ((1 <? len port) && bool_decide (head port = Some Byte.x30))
  then Err InvalidPort
  else
    let? port := ok_or (Oid4vp.parse_u16 port) InvalidPort in
    if port =? 0 then Err InvalidPort
    else if port =? 443 then Err NonCanonical
    else Ok tt.

Definition validate_authority (authority : bytes) : result unit UrlSyntaxError :=
  match strip_prefix [Byte.x5b] authority with
  | Some ip_literal =>
      let? (host, rest) := ok_or (Oid4vp.split_at_byte Byte.x5d ip_literal) InvalidHost in
      let? parsed := ok_or (parse_ipv6 host) InvalidHost in
      if negb (bool_decide (ipv6_to_string parsed = host)) then Err NonCanonical
      else if is_empty rest then Ok tt
      else
        let? port := ok_or (strip_prefix [Byte.x3a] rest) InvalidAuthority in
        validate_port port
  | None =>
      let? (host, port) :=
        match Oid4vp.rsplit_at_byte Byte.x3a authority with
        | Some (host, port) =>
            if Oid4vp.has_byte Byte.x3a host then Err InvalidHost else Ok (host, Some port)
        | None => Ok (authority, None)
        end in
      if is_empty host then Err InvalidHost
      else
        let? _ := match port with Some port => validate_port port | None => Ok tt end in
        validate_reg_name host
  end.

(** ** URLs *)

Definition SCHEME : bytes := as_bytes "https://".

Definition is_identifier (kind : UrlKind) : bool := match kind with Identifier => true | Endpoint => false end.

Definition validate_query (kind : UrlKind) (query : bytes) : result unit UrlSyntaxError :=
  if is_identifier kind then Err QueryForbidden
  else if is_empty query then Err NonCanonical
  else validate_uri_component query true.

Definition validate_https_url (value : bytes) (kind : UrlKind) : result unit UrlSyntaxError :=
  if is_empty value then Err Empty
  else if (match kind with Identifier => MAX_IDENTIFIER_BYTES | Endpoint => MAX_ENDPOINT_BYTES end) <? len value
  then Err TooLong
  else if negb (forallb (fun b => byte.unsigned b <=? 127) value) then Err NonCanonical
  else
    let? remainder := ok_or (strip_prefix SCHEME value) NotHttps in
    if Oid4vp.has_byte Byte.x23 value then Err FragmentForbidden
    else if is_identifier kind && Oid4vp.has_byte Byte.x3f value then Err QueryForbidden
    else
      let authority_end := Oid4vp.authority_end remainder in
      let authority := firstn authority_end remainder in
      if is_empty authority then Err InvalidAuthority
      else if Oid4vp.has_byte Byte.x40 authority then Err CredentialsForbidden
      else
        let? _ := validate_authority authority in
        let suffix := skipn authority_end remainder in
        let '(path, query) :=
          match Oid4vp.split_at_byte Byte.x3f suffix with
          | Some (path, query) => (path, Some query)
          | None => (suffix, None)
          end in
        if negb (is_empty path) && negb (bool_decide (head path = Some Byte.x2f)) then Err InvalidPath
        else
          let? _ := validate_uri_component path false in
          if existsb (fun segment => bool_decide (segment = as_bytes ".") || bool_decide (segment = as_bytes ".."))
               (split_byte Byte.x2f path)
          then Err NonCanonical
          else match query with Some query => validate_query kind query | None => Ok tt end.

(** The newtypes hold the text they were parsed from. *)
Record HttpsIdentifier : Type := { identifier : string }.
Record HttpsEndpoint : Type := { endpoint : string }.

#[export] Instance identifier_eq_decision : EqDecision HttpsIdentifier.
Proof. solve_decision. Defined.
#[export] Instance endpoint_eq_decision : EqDecision HttpsEndpoint.
Proof. solve_decision. Defined.

Definition identifier_parse (value : string) : result HttpsIdentifier UrlSyntaxError :=
  let? _ := validate_https_url (as_bytes value) Identifier in Ok {| identifier := value |}.

Definition endpoint_parse (value : string) : result HttpsEndpoint UrlSyntaxError :=
  let? _ := validate_https_url (as_bytes value) Endpoint in Ok {| endpoint := value |}.

Definition strip_last_slash (path : bytes) : bytes :=
  match rev path with Byte.x2f :: r => rev r | _ => path end.

Definition well_known_url (id suffix : bytes) (remove_terminating_slash : bool) : bytes :=
  let after_scheme := skipn (length SCHEME) id in
  let authority_end := unwrap_or (Oid4vp.find_byte Byte.x2f after_scheme) (length after_scheme) in
  let origin_end := (length SCHEME + authority_end)%nat in
  let origin := firstn origin_end id in
  let path := skipn origin_end id in
  let path := if remove_terminating_slash then strip_last_slash path else path in
  if is_empty path then origin ++ as_bytes "/.well-known/" ++ suffix
  else origin ++ as_bytes "/.well-known/" ++ suffix ++ path.

Definition credential_issuer_metadata_url (self : HttpsIdentifier) : bytes :=
  well_known_url (as_bytes (identifier self)) (as_bytes "openid-credential-issuer") false.

Definition authorization_server_metadata_url (self : HttpsIdentifier) : bytes :=
  well_known_url (as_bytes (identifier self)) (as_bytes "oauth-authorization-server") true.

(** ** What is accepted *)

Lemma has_byte_free c b : Oid4vp.has_byte c b = false <-> free_of c b = true.
Proof.
  unfold Oid4vp.has_byte, free_of. induction b as [|x b IH]; cbn; [done|].
  destruct (Byte.eqb x c); cbn; [done|exact IH].
Qed.

Lemma has_byte_app c a b : Oid4vp.has_byte c (a ++ b) = Oid4vp.has_byte c a || Oid4vp.has_byte c b.
Proof. apply existsb_app. Qed.

Lemma find_byte_app c a b : free_of c a = true -> Oid4vp.find_byte c (a ++ c :: b) = Some (length a).
Proof.
  unfold free_of. induction a as [|x a IH]; cbn.
  - intros _. replace (Byte.eqb c c) with true; [done|]. symmetry. by apply Byte.byte_dec_lb.
  - intros [Hx%negb_true_iff Ha]%andb_prop. by rewrite Hx, IH.
Qed.

Lemma find_byte_free c b : free_of c b = true -> Oid4vp.find_byte c b = None.
Proof.
  unfold free_of. induction b as [|x b IH]; cbn; [done|].
  intros [Hx%negb_true_iff Hb]%andb_prop. by rewrite Hx, IH.
Qed.

Lemma find_byte_cases c b :
  (Oid4vp.find_byte c b = None /\ free_of c b = true)
  \/ exists p r, Oid4vp.find_byte c b = Some (length p) /\ b = p ++ c :: r /\ free_of c p = true.
Proof.
  induction b as [|x b IH]; cbn; [by left|]. destruct (Byte.eqb x c) eqn:Hx.
  - apply Byte.byte_dec_bl in Hx as ->. right. by exists [], b.
  - destruct IH as [[-> Hf]|(p & r & -> & -> & Hf)].
    + left. split; [done|]. unfold free_of in *. cbn. rewrite ?Hx. exact Hf.
    + right. exists (x :: p), r. split; [done|]. split; [done|]. unfold free_of in *. cbn. rewrite ?Hx. exact Hf.
Qed.

Definition is_dot_segment (segment : bytes) : bool :=
  bool_decide (segment = as_bytes ".") || bool_decide (segment = as_bytes "..").

(** The parts of a URL without a query. *)
Record parts (v authority path : bytes) : Prop := {
  p_eq : v = SCHEME ++ authority ++ path;
  p_slash : free_of Byte.x2f authority = true;
  p_nonempty : authority <> [];
  p_path : path = [] \/ exists r, path = Byte.x2f :: r;
  p_authority : validate_authority authority = Ok tt;
  p_at : Oid4vp.has_byte Byte.x40 authority = false;
  p_component : validate_uri_component path false = Ok tt;
  p_segments : existsb is_dot_segment (split_byte Byte.x2f path) = false;
  p_ascii : forallb (fun b => byte.unsigned b <=? 127) v = true;
  p_hash : Oid4vp.has_byte Byte.x23 v = false;
  p_query : Oid4vp.has_byte Byte.x3f v = false;
}.

Lemma authority_of v authority path :
  parts v authority path -> Oid4vp.authority_end (authority ++ path) = length authority.
Proof.
  intros H. destruct (p_path _ _ _ H) as [->|[r ->]]; unfold Oid4vp.authority_end.
  - rewrite app_nil_r. rewrite (find_byte_free Byte.x2f) by apply H. rewrite find_byte_free; [done|].
    apply has_byte_free. pose proof (p_query _ _ _ H) as Hq. rewrite (p_eq _ _ _ H), !has_byte_app in Hq.
    apply orb_false_iff in Hq as [_ Hq]. by apply orb_false_iff in Hq as [Hq _].
  - rewrite (find_byte_app Byte.x2f) by apply H. rewrite find_byte_free; [done|].
    apply has_byte_free. pose proof (p_query _ _ _ H) as Hq. rewrite (p_eq _ _ _ H), has_byte_app in Hq.
    by apply orb_false_iff in Hq as [_ Hq].
Qed.

Lemma no_query_split path : Oid4vp.has_byte Byte.x3f path = false -> Oid4vp.split_at_byte Byte.x3f path = None.
Proof. intros H%has_byte_free. unfold Oid4vp.split_at_byte. by rewrite find_byte_free. Qed.

Definition max_of (kind : UrlKind) : Z :=
  match kind with Identifier => MAX_IDENTIFIER_BYTES | Endpoint => MAX_ENDPOINT_BYTES end.

Lemma parts_accepted v authority path kind :
  parts v authority path -> len v <= max_of kind -> validate_https_url v kind = Ok tt.
Proof.
  intros H Hl. unfold validate_https_url. fold (max_of kind).
  assert (is_empty v = false) as -> by (by rewrite (p_eq _ _ _ H)).
  rewrite (proj2 (Z.ltb_ge _ _) Hl), (p_ascii _ _ _ H). cbn [negb].
  assert (strip_prefix SCHEME v = Some (authority ++ path)) as ->.
  { rewrite (p_eq _ _ _ H). apply strip_prefix_app. }
  cbn [ok_or]. rewrite (p_hash _ _ _ H), (p_query _ _ _ H), andb_false_r. cbv zeta.
  rewrite (authority_of v) by done. rewrite take_app_length, drop_app_length.
  assert (is_empty authority = false) as -> by (destruct authority; [by destruct (p_nonempty _ _ _ H)|done]).
  rewrite (p_at _ _ _ H), (p_authority _ _ _ H).
  assert (Oid4vp.has_byte Byte.x3f path = false) as Hq.
  { pose proof (p_query _ _ _ H) as Hq. rewrite (p_eq _ _ _ H), !has_byte_app in Hq.
    apply orb_false_iff in Hq as [_ Hq]. by apply orb_false_iff in Hq as [_ Hq]. }
  rewrite (no_query_split _ Hq).
  assert (negb (is_empty path) && negb (bool_decide (head path = Some Byte.x2f)) = false) as ->.
  { by destruct (p_path _ _ _ H) as [->|[r ->]]. }
  rewrite (p_component _ _ _ H). pose proof (p_segments _ _ _ H) as Hs. unfold is_dot_segment in Hs. by rewrite Hs.
Qed.

(** An identifier is accepted exactly when it has these parts. *)
Lemma identifier_iff v :
  validate_https_url v Identifier = Ok tt
  <-> len v <= MAX_IDENTIFIER_BYTES /\ exists authority path, parts v authority path.
Proof.
  split; [|intros (Hl & a & p & H); by eapply parts_accepted]. unfold validate_https_url.
  destruct (is_empty v); [done|]. destruct (Z.ltb_spec MAX_IDENTIFIER_BYTES (len v)) as [|Hl]; [done|].
  destruct (forallb _ v) eqn:Ha; [|done]. cbn [negb].
  destruct (strip_prefix SCHEME v) as [rest|] eqn:Hs; [|done]. apply strip_prefix_Some in Hs. cbn [ok_or is_identifier andb].
  destruct (Oid4vp.has_byte Byte.x23 v) eqn:Hh; [done|]. destruct (Oid4vp.has_byte Byte.x3f v) eqn:Hq; [done|]. cbv zeta.
  assert (Oid4vp.has_byte Byte.x3f rest = false) as Hqr.
  { rewrite Hs, has_byte_app in Hq. by apply orb_false_iff in Hq as [_ Hq]. }
  assert (exists authority path, rest = authority ++ path /\ Oid4vp.authority_end rest = length authority
    /\ free_of Byte.x2f authority = true /\ (path = [] \/ exists r, path = Byte.x2f :: r)) as (authority & path & Er & He & Hf & Hp).
  { unfold Oid4vp.authority_end. rewrite (find_byte_free Byte.x3f) by by apply has_byte_free.
    destruct (find_byte_cases Byte.x2f rest) as [[-> Hf]|(p & r & -> & -> & Hf)].
    - exists rest, []. rewrite app_nil_r. split_and!; try done. by left.
    - exists p, (Byte.x2f :: r). split_and!; try done. right. by exists r. }
  rewrite He, Er, take_app_length, drop_app_length.
  destruct (is_empty authority) eqn:Hn; [done|]. destruct (Oid4vp.has_byte Byte.x40 authority) eqn:Hat; [done|].
  destruct (validate_authority authority) as [[]|] eqn:Hva; [|done].
  rewrite no_query_split by (rewrite Er, has_byte_app in Hqr; by apply orb_false_iff in Hqr as [_ Hqr]).
  destruct (_ && _); [done|]. destruct (validate_uri_component path false) as [[]|] eqn:Hc; [|done].
  destruct (existsb _ _) eqn:Hseg; [done|]. intros _. split; [done|]. exists authority, path.
  split; try done; [by rewrite Hs, Er|by intros ->].
Qed.

(** ** Well-known locations *)

Lemma component_app a b query :
  validate_uri_component a query = Ok tt ->
  validate_uri_component (a ++ b) query = validate_uri_component b query.
Proof.
  remember (length a) as n eqn:Hn. revert a Hn. induction n as [n IH] using lt_wf_ind. intros a Hn.
  destruct a as [|x a]; [done|]. cbn [app]. destruct (decide (x = Byte.x25)) as [->|Hx].
  - cbn [validate_uri_component]. destruct a as [|h [|l a]]; [done..|]. cbn [app].
    destruct (_ || _); [done|]. destruct (encoding_is_needless _); [done|]. apply (IH (length a)); [cbn in Hn; lia|done].
  - assert (forall t, validate_uri_component (x :: t) query
      = if negb (component_byte query x) then Err (component_error query) else validate_uri_component t query) as E
      by (intros t; destruct x; done).
    rewrite !E. destruct (negb _); [done|]. apply (IH (length a)); [cbn in Hn; lia|done].
Qed.

Lemma well_known_parts v authority path suffix remove :
  parts v authority path ->
  well_known_url v suffix remove
  = SCHEME ++ authority ++ as_bytes "/.well-known/" ++ suffix
    ++ (if remove then strip_last_slash path else path).
Proof.
  intros H. unfold well_known_url. cbv zeta. rewrite (p_eq _ _ _ H).
  assert (skipn (length SCHEME) (SCHEME ++ authority ++ path) = authority ++ path) as -> by apply drop_app_length.
  assert (unwrap_or (Oid4vp.find_byte Byte.x2f (authority ++ path)) (length (authority ++ path)) = length authority) as ->.
  { destruct (p_path _ _ _ H) as [->|[r ->]].
    - rewrite app_nil_r, find_byte_free by apply H. done.
    - by rewrite find_byte_app by apply H. }
  rewrite <- length_app, app_assoc, take_app_length, drop_app_length.
  generalize (if remove then strip_last_slash path else path). intros p.
  destruct p; cbn [is_empty]; rewrite <- ?app_assoc; [by rewrite app_nil_r|done].
Qed.

Lemma strip_last_slash_cases path :
  strip_last_slash path = path \/ path = strip_last_slash path ++ [Byte.x2f].
Proof.
  unfold strip_last_slash. destruct (rev path) as [|x r] eqn:E; [by left|].
  destruct (decide (x = Byte.x2f)) as [->|Hx]; [right|left; by destruct x].
  by rewrite <- (rev_involutive path), E.
Qed.

Lemma forallb_prefix (f : byte -> bool) a b : forallb f (a ++ b) = true -> forallb f a = true.
Proof. rewrite forallb_app. by intros [? _]%andb_prop. Qed.

Lemma component_prefix a query :
  validate_uri_component (a ++ [Byte.x2f]) query = Ok tt -> validate_uri_component a query = Ok tt.
Proof.
  remember (length a) as n eqn:Hn. revert a Hn. induction n as [n IH] using lt_wf_ind. intros a Hn.
  destruct a as [|x a]; [done|]. cbn [app]. destruct (decide (x = Byte.x25)) as [->|Hx].
  - cbn [validate_uri_component]. destruct a as [|h [|l a]]; [done|cbn; by destruct (is_upper_hex h)|]. cbn [app].
    destruct (_ || _); [done|]. destruct (encoding_is_needless _); [done|]. apply (IH (length a)); [cbn in Hn; lia|done].
  - assert (forall t, validate_uri_component (x :: t) query
      = if negb (component_byte query x) then Err (component_error query) else validate_uri_component t query) as E
      by (intros t; destruct x; done).
    rewrite !E. destruct (negb _); [done|]. apply (IH (length a)); [cbn in Hn; lia|done].
Qed.

Lemma strip_parts v authority path :
  parts v authority path -> strip_last_slash path <> path -> validate_uri_component (strip_last_slash path) false = Ok tt.
Proof.
  intros H Hn. destruct (strip_last_slash_cases path) as [E|E]; [done|].
  apply component_prefix. rewrite <- E. apply H.
Qed.

Lemma segments_slash p q :
  existsb is_dot_segment (split_byte Byte.x2f (p ++ Byte.x2f :: q))
  = existsb is_dot_segment (split_byte Byte.x2f p) || existsb is_dot_segment (split_byte Byte.x2f q).
Proof. by rewrite split_sep, existsb_app. Qed.

(** The fixed middle of a well-known location. *)
Definition well_known_middle (suffix : bytes) : Prop :=
  validate_uri_component (as_bytes "/.well-known/" ++ suffix) false = Ok tt
  /\ existsb is_dot_segment (split_byte Byte.x2f (as_bytes "/.well-known/" ++ suffix)) = false
  /\ forallb (fun b => byte.unsigned b <=? 127) (as_bytes "/.well-known/" ++ suffix) = true
  /\ Oid4vp.has_byte Byte.x23 (as_bytes "/.well-known/" ++ suffix) = false
  /\ Oid4vp.has_byte Byte.x3f (as_bytes "/.well-known/" ++ suffix) = false.

Lemma well_known_is_url v authority path suffix remove :
  parts v authority path -> well_known_middle suffix ->
  exists tail, parts (well_known_url v suffix remove) authority tail
    /\ len (well_known_url v suffix remove) <= len v + 13 + len suffix.
Proof.
  intros H (M1 & M2 & M3 & M4 & M5). rewrite (well_known_parts _ _ _ _ _ H).
  set (p := if remove then strip_last_slash path else path).
  assert (p = path \/ path = p ++ [Byte.x2f]) as Hp.
  { unfold p. destruct remove; [|by left]. apply strip_last_slash_cases. }
  assert (validate_uri_component p false = Ok tt) as Hc.
  { destruct Hp as [->|E]; [apply H|]. apply component_prefix. rewrite <- E. apply H. }
  assert (p = [] \/ exists r, p = Byte.x2f :: r) as Hh.
  { destruct Hp as [->|E]; [apply H|]. destruct (p_path _ _ _ H) as [Hx|[r Hx]].
    - rewrite Hx in E. by destruct p.
    - destruct p as [|b p']; [by left|]. right. rewrite Hx in E. injection E as -> _. by eexists. }
  assert (existsb is_dot_segment (split_byte Byte.x2f p) = false) as Hs.
  { pose proof (p_segments _ _ _ H) as Hs. destruct Hp as [->|E]; [done|].
    rewrite E, segments_slash in Hs. by apply orb_false_iff in Hs as [Hs _]. }
  assert (exists z, path = p ++ z /\ len z <= 1) as (z & Hz & Hlz).
  { destruct Hp as [->|E]; [exists []; by rewrite app_nil_r|by exists [Byte.x2f]]. }
  clearbody p.
  pose proof (p_ascii _ _ _ H) as Ha. pose proof (p_hash _ _ _ H) as Hha. pose proof (p_query _ _ _ H) as Hqu.
  rewrite (p_eq _ _ _ H), Hz in Ha, Hha, Hqu. rewrite !has_byte_app in Hha, Hqu. rewrite !forallb_app in Ha.
  rewrite !has_byte_app in M4, M5. rewrite !forallb_app in M3.
  exists (as_bytes "/.well-known/" ++ suffix ++ p). split.
  - split; try apply H; try done.
    + right. by eexists.
    + rewrite app_assoc, component_app by done. done.
    + destruct Hh as [->|[r ->]]; [by rewrite app_nil_r|]. rewrite app_assoc, segments_slash, M2.
      change (Byte.x2f :: r) with ([] ++ Byte.x2f :: r) in Hs. rewrite segments_slash in Hs.
      by apply orb_false_iff in Hs as [_ Hs].
    + rewrite !forallb_app. repeat (apply andb_prop in Ha as [? Ha]). apply andb_prop in M3 as [-> ->].
      repeat (apply andb_true_iff; split; [done|]). done.
    + rewrite !has_byte_app. repeat (apply orb_false_iff in Hha as [? Hha]). apply orb_false_iff in M4 as [-> ->].
      repeat (apply orb_false_iff; split; [done|]). done.
    + rewrite !has_byte_app. repeat (apply orb_false_iff in Hqu as [? Hqu]). apply orb_false_iff in M5 as [-> ->].
      repeat (apply orb_false_iff; split; [done|]). done.
  - rewrite (p_eq _ _ _ H), Hz, !len_app. change (len (as_bytes "/.well-known/")) with 13.
    pose proof (len_nonneg z). lia.
Qed.

(** The issuer that a location belongs to. *)
Lemma well_known_inj v1 a1 p1 v2 a2 p2 suffix remove :
  parts v1 a1 p1 -> parts v2 a2 p2 ->
  well_known_url v1 suffix remove = well_known_url v2 suffix remove ->
  a1 = a2 /\ (if remove then strip_last_slash p1 else p1) = (if remove then strip_last_slash p2 else p2).
Proof.
  intros H1 H2. rewrite (well_known_parts _ _ _ _ _ H1), (well_known_parts _ _ _ _ _ H2).
  generalize (if remove then strip_last_slash p1 else p1) (if remove then strip_last_slash p2 else p2).
  intros q1 q2 E%app_inv_head.
  assert (a1 = a2) as ->.
  { assert (forall a q, free_of Byte.x2f a = true ->
      Oid4vp.find_byte Byte.x2f (a ++ as_bytes "/.well-known/" ++ suffix ++ q) = Some (length a)) as Hf.
    { intros a q Ha. change (as_bytes "/.well-known/" ++ suffix ++ q)
        with (Byte.x2f :: (skipn 1 (as_bytes "/.well-known/") ++ suffix ++ q)). by apply find_byte_app. }
    pose proof (Hf a1 q1 (p_slash _ _ _ H1)) as F1. pose proof (Hf a2 q2 (p_slash _ _ _ H2)) as F2.
    rewrite E, F2 in F1. injection F1 as F. by apply app_inj_1 in E as [-> _]. }
  by apply app_inv_head, app_inv_head, app_inv_head in E.
Qed.

Lemma middle_issuer : well_known_middle (as_bytes "openid-credential-issuer").
Proof. split_and!; vm_compute; reflexivity. Qed.

Lemma middle_server : well_known_middle (as_bytes "oauth-authorization-server").
Proof. split_and!; vm_compute; reflexivity. Qed.

Lemma identifier_parse_Ok s a :
  identifier_parse s = Ok a ->
  identifier a = s /\ len (as_bytes s) <= MAX_IDENTIFIER_BYTES /\ exists authority path, parts (as_bytes s) authority path.
Proof.
  unfold identifier_parse. destruct (validate_https_url (as_bytes s) Identifier) as [[]|] eqn:H; [|done].
  intros [= <-]. by apply identifier_iff in H.
Qed.

(** The metadata of an issuer is looked up in its own place.  For an accepted identifier both
    well-known locations are again canonical HTTPS endpoints, at the same authority; two accepted
    identifiers with one location of issuer metadata are the same identifier, and with one location of
    authorization-server metadata they differ at most in a trailing slash. *)
Theorem metadata_locations s t a b :
  identifier_parse s = Ok a -> identifier_parse t = Ok b ->
  validate_https_url (credential_issuer_metadata_url a) Endpoint = Ok tt
  /\ validate_https_url (authorization_server_metadata_url a) Endpoint = Ok tt
  /\ (credential_issuer_metadata_url a = credential_issuer_metadata_url b -> a = b)
  /\ (authorization_server_metadata_url a = authorization_server_metadata_url b ->
      exists base, (as_bytes s = base \/ as_bytes s = base ++ [Byte.x2f])
        /\ (as_bytes t = base \/ as_bytes t = base ++ [Byte.x2f])).
Proof.
  intros (Ha & La & u1 & p1 & H1)%identifier_parse_Ok (Hb & Lb & u2 & p2 & H2)%identifier_parse_Ok.
  destruct a as [a], b as [b]. cbn in Ha, Hb. subst a b.
  unfold credential_issuer_metadata_url, authorization_server_metadata_url. cbn [identifier]. split_and!.
  - destruct (well_known_is_url _ _ _ _ false H1 middle_issuer) as (q & Hq & Hl). eapply parts_accepted; [exact Hq|].
    change (len (as_bytes "openid-credential-issuer")) with 24 in Hl. unfold max_of, MAX_ENDPOINT_BYTES, MAX_IDENTIFIER_BYTES in *. lia.
  - destruct (well_known_is_url _ _ _ _ true H1 middle_server) as (q & Hq & Hl). eapply parts_accepted; [exact Hq|].
    change (len (as_bytes "oauth-authorization-server")) with 26 in Hl. unfold max_of, MAX_ENDPOINT_BYTES, MAX_IDENTIFIER_BYTES in *. lia.
  - intros (-> & ->)%(well_known_inj _ _ _ _ _ _ _ false H1 H2). f_equal. apply as_bytes_inj.
    by rewrite (p_eq _ _ _ H1), (p_eq _ _ _ H2).
  - intros (-> & E)%(well_known_inj _ _ _ _ _ _ _ true H1 H2). exists (SCHEME ++ u2 ++ strip_last_slash p1).
    rewrite (p_eq _ _ _ H1), (p_eq _ _ _ H2). rewrite <- !app_assoc.
    split; [destruct (strip_last_slash_cases p1) as [->|Hp]|rewrite E; destruct (strip_last_slash_cases p2) as [->|Hp]];
      try (by left); right; by rewrite Hp at 1.
Qed.

Lemma metadata_locations_witness :
  validate_https_url (credential_issuer_metadata_url {| identifier := "https://issuer.example/tenant/" |}) Endpoint
  = Ok tt.
Proof.
  exact (proj1 (metadata_locations "https://issuer.example/tenant/" "https://issuer.example"
    {| identifier := "https://issuer.example/tenant/" |} {| identifier := "https://issuer.example" |}
    ltac:(vm_compute; reflexivity) ltac:(vm_compute; reflexivity))).
Defined.

Definition accepted (s : string) : bool := is_ok (identifier_parse s).

(** Addresses have one spelling, ports are not the default one, dot segments
    and needless encodings are refused. *)
Example identifiers_are_canonical :
  map accepted ["https://issuer.example/a"; "https://[2001:db8::1]:8443/x"; "https://[::ffff:1.2.3.4]";
    "https://127.0.0.1:80"; "https://[1:0:0:2::3]"; "https://a/%20"]%string = repeat true 6
  /\ map accepted ["https://[0:0::1]"; "https://[1:0:0:2:0:0:0:3]"; "https://127.0.0.01"; "https://A.b";
       "https://a/../b"; "https://a/%41"; "https://a:443"; "http://a"; "https://a@b"; "https://a?x"]%string
     = repeat false 10.
Proof. split; vm_compute; reflexivity. Qed.
