(* ===== verification/Metadata.v ===== *)
(** * Credential offers and issuer metadata (crates/oid4vci/src/foundation.rs)

    The documents of OpenID4VCI discovery: the Credential Offer, the issuer's
    and the authorization server's metadata, each read through the bounded JSON
    boundary into typed records.  Opaque values and identifiers hold the text
    they were read from. *)

From stdpp Require Import list.
From S2P Require Import Prelude Utf8 BTree Boundary Serde BoundedJson HttpsUrls.

Open Scope Z_scope.
Open Scope rust_scope.

Definition MAX_CONFIGURATION_IDS : Z := 32.
Definition MAX_CONFIGURATION_ID_BYTES : Z := 256.
Definition MAX_AUTHORIZATION_SERVERS : Z := 8.
Definition MAX_CONFIGURATIONS : Z := 32.
Definition MAX_LIST_VALUES : Z := 32.
Definition MAX_PROOF_TYPES : Z := 8.
Definition MAX_SCOPE_BYTES : Z := 512.
Definition MAX_OPAQUE_VALUE_BYTES : Z := 2048.
Definition MAX_TRANSACTION_CODE_LENGTH : Z := 64.
Definition MAX_BATCH_SIZE : Z := 64.

Definition AUTHORIZATION_CODE_GRANT : string := "authorization_code".
Definition PRE_AUTHORIZED_CODE_GRANT : string := "urn:ietf:params:oauth:grant-type:pre-authorized_code".

(** [option.map(f).transpose()?]. *)
Definition opt_map {A B E} (f : A -> result B E) (o : option A) : result (option B) E :=
  match o with Some x => let? y := f x in Ok (Some y) | None => Ok None end.

Definition as_bool (v : Value) : option bool := match v with VBool b => Some b | _ => None end.

(** [values.iter().any(|value| value == expected)]. *)
Definition contains (expected : string) (values : list string) : bool := existsb (String.eqb expected) values.

(** ** Text *)

Inductive TextIssue : Type := TextEmpty | TextTooLong | TextControl.

Definition validate_bounded_text (value : string) (max : Z) (allow_empty : bool) : result unit TextIssue :=
  if sis_empty value && negb allow_empty then Err TextEmpty
  else if max <? slen value then Err TextTooLong
  else if any_control value then Err TextControl
  else Ok tt.

(** ** Credential offers *)

Inductive TransactionCodeInputMode : Type := Numeric | Text.

Record TransactionCode : Type := {
  input_mode : TransactionCodeInputMode;
  length_ : option Z;
  description : option string;
}.

Record AuthorizationCodeGrant : Type := {
  issuer_state : option string;
  auth_server_hint : option HttpsIdentifier;
}.

Record PreAuthorizedCodeGrant : Type := {
  pre_authorized_code : string;
  transaction_code : option TransactionCode;
  pre_server_hint : option HttpsIdentifier;
}.

Inductive OfferGrantSource : Type := Explicit | AuthorizationServerMetadataSource.

#[export] Instance grant_source_eq_decision : EqDecision OfferGrantSource.
Proof. solve_decision. Defined.

Record CredentialOffer : Type := {
  offer_issuer : HttpsIdentifier;
  credential_configuration_ids : list string;
  authorization_code : option AuthorizationCodeGrant;
  pre_authorized_grant : option PreAuthorizedCodeGrant;
  grant_source : OfferGrantSource;
}.

Definition authorization_code_eligible (self : CredentialOffer) : bool :=
  is_some (authorization_code self)
  || bool_decide (grant_source self = AuthorizationServerMetadataSource).

Inductive OfferError : Type :=
| OfferJson (e : JsonBoundaryError)
| OfferMissingField (field : string)
| OfferInvalidField (field : string)
| OfferEmptyCollection (field : string)
| OfferTooManyValues (field : string)
| OfferDuplicateValue (field : string)
| OfferValueTooLong (field : string)
| OfferInvalidIssuer (e : UrlSyntaxError).

Definition offer_text_error (field : string) (issue : TextIssue) : OfferError :=
  match issue with
  | TextTooLong => OfferValueTooLong field
  | TextEmpty | TextControl => OfferInvalidField field
  end.

Definition offer_required_string (object : BTreeMap string Value) (field : string) : result string OfferError :=
  let? v := ok_or (bt_get object field) (OfferMissingField field) in
  ok_or (json_str v) (OfferInvalidField field).

Definition offer_opaque (value : Value) (field : string) (allow_empty : bool) : result string OfferError :=
  let? value := ok_or (json_str value) (OfferInvalidField field) in
  let? _ := map_err (validate_bounded_text value MAX_OPAQUE_VALUE_BYTES allow_empty) (offer_text_error field) in
  Ok value.

Definition offer_identifier (value : Value) (field : string) : result HttpsIdentifier OfferError :=
  let? value := ok_or (json_str value) (OfferInvalidField field) in
  map_err (identifier_parse value) OfferInvalidIssuer.

Definition transaction_input_mode (mode : option Value) : result TransactionCodeInputMode OfferError :=
  match mode with
  | None => Ok Numeric
  | Some (VString value) =>
      if String.eqb value "numeric" then Ok Numeric
      else if String.eqb value "text" then Ok Text
      else Err (OfferInvalidField "tx_code.input_mode")
  | Some _ => Err (OfferInvalidField "tx_code.input_mode")
  end.

Definition transaction_length (value : Value) : result Z OfferError :=
  let? value := ok_or (v_as_u64 value) (OfferInvalidField "tx_code.length") in
  if (value =? 0) || (MAX_TRANSACTION_CODE_LENGTH <? value) then Err (OfferInvalidField "tx_code.length")
  else Ok value.

Definition transaction_description (value : Value) : result string OfferError :=
  let? value := ok_or (json_str value) (OfferInvalidField "tx_code.description") in
  if 300 <? len (str_chars value) then Err (OfferValueTooLong "tx_code.description")
  else
    let? _ := map_err (validate_bounded_text value MAX_OPAQUE_VALUE_BYTES true)
                (offer_text_error "tx_code.description") in
    Ok value.

Definition parse_transaction_code (value : Value) : result TransactionCode OfferError :=
  let? object := ok_or (json_object value) (OfferInvalidField "tx_code") in
  let? mode := transaction_input_mode (bt_get object "input_mode") in
  let? length := opt_map transaction_length (bt_get object "length") in
  let? description := opt_map transaction_description (bt_get object "description") in
  Ok {| input_mode := mode; length_ := length; description := description |}.

Definition parse_authorization_code_grant (value : Value) : result AuthorizationCodeGrant OfferError :=
  let? object := ok_or (json_object value) (OfferInvalidField "authorization_code") in
  let? state := opt_map (fun v => offer_opaque v "issuer_state" true) (bt_get object "issuer_state") in
  let? server := opt_map (fun v => offer_identifier v "authorization_server")
                   (bt_get object "authorization_server") in
  Ok {| issuer_state := state; auth_server_hint := server |}.

Definition parse_pre_authorized_code_grant (value : Value) : result PreAuthorizedCodeGrant OfferError :=
  let? object := ok_or (json_object value) (OfferInvalidField "pre-authorized_code_grant") in
  let? v := ok_or (bt_get object "pre-authorized_code") (OfferMissingField "pre-authorized_code") in
  let? code := offer_opaque v "pre-authorized_code" false in
  let? tx := opt_map parse_transaction_code (bt_get object "tx_code") in
  let? server := opt_map (fun v => offer_identifier v "authorization_server")
                   (bt_get object "authorization_server") in
  Ok {| pre_authorized_code := code; transaction_code := tx; pre_server_hint := server |}.

(** The loop over the offered configurations. *)
Fixpoint configuration_ids (values : list Value) (ids : list string) : result (list string) OfferError :=
  match values with
  | [] => Ok ids
  | value :: values =>
      let? id := ok_or (json_str value) (OfferInvalidField "credential_configuration_ids") in
      let? _ := map_err (validate_bounded_text id MAX_CONFIGURATION_ID_BYTES false)
                  (offer_text_error "credential_configuration_ids") in
      if contains id ids then Err (OfferDuplicateValue "credential_configuration_ids")
      else configuration_ids values (ids ++ [id])
  end.

Section offers.
Context {SJ : SerdeJson}.

Definition parse_credential_offer_with_limits (input : bytes) (limits : JsonLimits)
  : result CredentialOffer OfferError :=
  let? object := map_err (parse_object limits input) OfferJson in
  let? issuer_text := offer_required_string object "credential_issuer" in
  let? credential_issuer := map_err (identifier_parse issuer_text) OfferInvalidIssuer in
  let? v := ok_or (bt_get object "credential_configuration_ids")
              (OfferMissingField "credential_configuration_ids") in
  let? values := ok_or (json_array v) (OfferInvalidField "credential_configuration_ids") in
  if is_empty values then Err (OfferEmptyCollection "credential_configuration_ids")
  else if MAX_CONFIGURATION_IDS <? len values then Err (OfferTooManyValues "credential_configuration_ids")
  else
    let? ids := configuration_ids values [] in
    let? (source, authorization, pre_authorized) :=
      match bt_get object "grants" with
      | None => Ok (AuthorizationServerMetadataSource, None, None)
      | Some grants =>
          let? grants := ok_or (json_object grants) (OfferInvalidField "grants") in
          let source := if is_empty grants then AuthorizationServerMetadataSource else Explicit in
          let? authorization := opt_map parse_authorization_code_grant (bt_get grants AUTHORIZATION_CODE_GRANT) in
          let? pre_authorized :=
            opt_map parse_pre_authorized_code_grant (bt_get grants PRE_AUTHORIZED_CODE_GRANT) in
          Ok (source, authorization, pre_authorized)
      end in
    Ok {| offer_issuer := credential_issuer; credential_configuration_ids := ids;
          authorization_code := authorization; pre_authorized_grant := pre_authorized;
          grant_source := source |}.

Definition parse_credential_offer (input : bytes) : result CredentialOffer OfferError :=
  parse_credential_offer_with_limits input DEFAULT_JSON_LIMITS.
End offers.

(** ** Issuer metadata *)

Inductive AlgorithmIdentifier : Type := Jose (name : string) | Cose (id : Z).

#[export] Instance algorithm_eq_decision : EqDecision AlgorithmIdentifier.
Proof. solve_decision. Defined.

Record KeyAttestationRequirement : Type := {
  key_storage : option (list string);
  user_authentication : option (list string);
}.

Record ProofTypeMetadata : Type := {
  signing_algorithms : list AlgorithmIdentifier;
  key_attestations_required : option KeyAttestationRequirement;
}.

Record CredentialConfiguration : Type := {
  configuration_format : string;
  scope : option string;
  cryptographic_binding_methods_supported : option (list string);
  credential_signing_algorithms : option (list AlgorithmIdentifier);
  proof_types_supported : option (BTreeMap string ProofTypeMetadata);
  configuration_doctype : option string;
  configuration_vct : option string;
}.

Record IssuerFeatureFlags : Type := {
  has_nonce_endpoint : bool;
  has_deferred_credential_endpoint : bool;
  has_notification_endpoint : bool;
  batch_credential_issuance : bool;
  credential_request_encryption_required : bool;
  credential_response_encryption_required : bool;
}.

Record CredentialIssuerMetadata : Type := {
  credential_issuer : HttpsIdentifier;
  authorization_servers : list HttpsIdentifier;
  credential_endpoint : HttpsEndpoint;
  nonce_endpoint : option HttpsEndpoint;
  deferred_credential_endpoint : option HttpsEndpoint;
  notification_endpoint : option HttpsEndpoint;
  credential_configurations_supported : BTreeMap string CredentialConfiguration;
  issuer_features : IssuerFeatureFlags;
}.

Inductive MetadataError : Type :=
| MetaJson (e : JsonBoundaryError)
| MissingField (field : string)
| InvalidField (field : string)
| EmptyCollection (field : string)
| TooManyValues (field : string)
| DuplicateValue (field : string)
| ValueTooLong (field : string)
| InvalidUrl (field : string) (e : UrlSyntaxError)
| IdentifierMismatch.

Definition metadata_text_error (field : string) (issue : TextIssue) : MetadataError :=
  match issue with
  | TextTooLong => ValueTooLong field
  | TextEmpty | TextControl => InvalidField field
  end.

Definition metadata_required_string (object : BTreeMap string Value) (field : string)
  : result string MetadataError :=
  let? v := ok_or (bt_get object field) (MissingField field) in
  ok_or (json_str v) (InvalidField field).

Definition metadata_bounded_string (value : Value) (field : string) (max : Z) : result string MetadataError :=
  let? value := ok_or (json_str value) (InvalidField field) in
  let? _ := map_err (validate_bounded_text value max false) (metadata_text_error field) in
  Ok value.

Definition metadata_endpoint (object : BTreeMap string Value) (field : string) (required : bool)
  : result (option HttpsEndpoint) MetadataError :=
  match bt_get object field with
  | None => if required then Err (MissingField field) else Ok None
  | Some value =>
      let? value := ok_or (json_str value) (InvalidField field) in
      let? e := map_err (endpoint_parse value) (InvalidUrl field) in
      Ok (Some e)
  end.

Definition scope_byte (b : byte) : bool :=
  let x := byte.unsigned b in (x =? 33) || in_range 35 91 x || in_range 93 126 x.

Definition validate_scope_token (value field : string) : result unit MetadataError :=
  if forallb scope_byte (as_bytes value) then Ok tt else Err (InvalidField field).

(** ** Lists *)

(** The frame of the list readers: a non-empty, bounded array whose elements
    are read and are distinct. *)
Fixpoint read_distinct {A} `{EqDecision A} (read : Value -> result A MetadataError) (field : string)
    (values : list Value) (acc : list A) : result (list A) MetadataError :=
  match values with
  | [] => Ok acc
  | value :: values =>
      let? x := read value in
      if bool_decide (x ∈ acc) then Err (DuplicateValue field)
      else read_distinct read field values (acc ++ [x])
  end.

Definition parse_list {A} `{EqDecision A} (read : Value -> result A MetadataError) (value : Value)
    (field : string) (max : Z) : result (list A) MetadataError :=
  let? values := ok_or (json_array value) (InvalidField field) in
  if is_empty values then Err (EmptyCollection field)
  else if max <? len values then Err (TooManyValues field)
  else read_distinct read field values [].

Definition read_identifier (field : string) (value : Value) : result HttpsIdentifier MetadataError :=
  let? value := ok_or (json_str value) (InvalidField field) in
  map_err (identifier_parse value) (InvalidUrl field).

Definition parse_identifier_list (value : Value) (field : string) (max : Z)
  : result (list HttpsIdentifier) MetadataError :=
  parse_list (read_identifier field) value field max.

Definition parse_string_list (value : Value) (field : string) (max_values max_value_bytes : Z)
  : result (list string) MetadataError :=
  parse_list (fun value => metadata_bounded_string value field max_value_bytes) value field max_values.

Definition read_algorithm (field : string) (value : Value) : result AlgorithmIdentifier MetadataError :=
  match json_str value with
  | Some value =>
      let? _ := map_err (validate_bounded_text value 128 false) (metadata_text_error field) in
      Ok (Jose value)
  | None =>
      match v_as_i64 value with
      | Some value => Ok (Cose value)
      | None => Err (InvalidField field)
      end
  end.

Definition parse_algorithm_list (value : Value) (field : string) (max_values : Z)
  : result (list AlgorithmIdentifier) MetadataError :=
  parse_list (read_algorithm field) value field max_values.

Definition validate_nonempty_object_array (value : Value) (field : string) : result unit MetadataError :=
  let? values := ok_or (json_array value) (InvalidField field) in
  if is_empty values then Err (EmptyCollection field)
  else if MAX_LIST_VALUES <? len values then Err (TooManyValues field)
  else if existsb (fun value => negb (is_some (json_object value))) values then Err (InvalidField field)
  else Ok tt.

(** ** Members of issuer metadata *)

Definition parse_key_attestation_requirement (value : Value) : result KeyAttestationRequirement MetadataError :=
  let? object := ok_or (json_object value) (InvalidField "key_attestations_required") in
  let? storage := opt_map (fun v => parse_string_list v "key_storage" MAX_LIST_VALUES 128)
                    (bt_get object "key_storage") in
  let? authentication := opt_map (fun v => parse_string_list v "user_authentication" MAX_LIST_VALUES 128)
                           (bt_get object "user_authentication") in
  match bt_get object "preferred_key_storage_status_period" with
  | Some period =>
      if negb (is_some (v_as_u64 period)) then Err (InvalidField "preferred_key_storage_status_period")
      else Ok {| key_storage := storage; user_authentication := authentication |}
  | None => Ok {| key_storage := storage; user_authentication := authentication |}
  end.

Definition parse_proof_type (name : string) (value : Value) : result ProofTypeMetadata MetadataError :=
  let? _ := map_err (validate_bounded_text name 64 false) (metadata_text_error "proof_type") in
  let? proof := ok_or (json_object value) (InvalidField "proof_type") in
  let? v := ok_or (bt_get proof "proof_signing_alg_values_supported")
              (MissingField "proof_signing_alg_values_supported") in
  let? algorithms := parse_algorithm_list v "proof_signing_alg_values_supported" MAX_LIST_VALUES in
  let? attestations := opt_map parse_key_attestation_requirement (bt_get proof "key_attestations_required") in
  Ok {| signing_algorithms := algorithms; key_attestations_required := attestations |}.

(** The frame of the member readers: every member of an object, by name. *)
Fixpoint read_members {V} (read : string -> Value -> result V MetadataError) (object : BTreeMap string Value)
    (acc : BTreeMap string V) : result (BTreeMap string V) MetadataError :=
  match object with
  | [] => Ok acc
  | (name, value) :: object =>
      let? v := read name value in
      read_members read object (bt_insert name v acc)
  end.

Definition parse_proof_types (value : Value) : result (BTreeMap string ProofTypeMetadata) MetadataError :=
  let? object := ok_or (json_object value) (InvalidField "proof_types_supported") in
  if is_empty object then Err (EmptyCollection "proof_types_supported")
  else if MAX_PROOF_TYPES <? len object then Err (TooManyValues "proof_types_supported")
  else read_members parse_proof_type object [].

Definition parse_credential_configuration (value : Value) : result CredentialConfiguration MetadataError :=
  let? object := ok_or (json_object value) (InvalidField "credential_configuration") in
  let? format := metadata_required_string object "format" in
  let? _ := map_err (validate_bounded_text format 64 false) (metadata_text_error "format") in
  let? scope := opt_map (fun v => metadata_bounded_string v "scope" MAX_SCOPE_BYTES) (bt_get object "scope") in
  let? _ := match scope with Some scope => validate_scope_token scope "scope" | None => Ok tt end in
  let? bindings :=
    opt_map (fun v => parse_string_list v "cryptographic_binding_methods_supported" MAX_LIST_VALUES 128)
      (bt_get object "cryptographic_binding_methods_supported") in
  let? algorithms :=
    opt_map (fun v => parse_algorithm_list v "credential_signing_alg_values_supported" MAX_LIST_VALUES)
      (bt_get object "credential_signing_alg_values_supported") in
  let? proofs := opt_map parse_proof_types (bt_get object "proof_types_supported") in
  if negb (Bool.eqb (is_some bindings) (is_some proofs)) then Err (InvalidField "proof_types_supported")
  else
    let? doctype := opt_map (fun v => metadata_bounded_string v "doctype" MAX_CONFIGURATION_ID_BYTES)
                      (bt_get object "doctype") in
    let? vct := opt_map (fun v => metadata_bounded_string v "vct" MAX_CONFIGURATION_ID_BYTES)
                  (bt_get object "vct") in
    Ok {| configuration_format := format; scope := scope;
          cryptographic_binding_methods_supported := bindings;
          credential_signing_algorithms := algorithms; proof_types_supported := proofs;
          configuration_doctype := doctype; configuration_vct := vct |}.

Fixpoint encryption_kids (keys : list Value) (kids : list string) : result unit MetadataError :=
  match keys with
  | [] => Ok tt
  | key :: keys =>
      let? key := ok_or (json_object key) (InvalidField "credential_request_encryption.jwks.keys") in
      let? kid := metadata_required_string key "kid" in
      let? _ := map_err (validate_bounded_text kid 256 false) (metadata_text_error "kid") in
      if bool_decide (kid ∈ kids) then Err (DuplicateValue "kid") else encryption_kids keys (kid :: kids)
  end.

Definition required_list (object : BTreeMap string Value) (field : string) : result (list string) MetadataError :=
  let? v := ok_or (bt_get object field) (MissingField field) in
  parse_string_list v field MAX_LIST_VALUES 128.

(** The optional compression list, and the flag that ends both encryption
    objects. *)
Definition encryption_required (object : BTreeMap string Value) : result bool MetadataError :=
  let? _ := opt_map (fun zip => parse_string_list zip "zip_values_supported" MAX_LIST_VALUES 128)
              (bt_get object "zip_values_supported") in
  ok_or (let! v := bt_get object "encryption_required" in as_bool v) (MissingField "encryption_required").

Definition validate_request_encryption (value : Value) : result bool MetadataError :=
  let? object := ok_or (json_object value) (InvalidField "credential_request_encryption") in
  let? jwks := ok_or (let! v := bt_get object "jwks" in json_object v)
                 (MissingField "credential_request_encryption.jwks") in
  let? keys := ok_or (let! v := bt_get jwks "keys" in json_array v)
                 (MissingField "credential_request_encryption.jwks.keys") in
  if is_empty keys then Err (EmptyCollection "credential_request_encryption.jwks.keys")
  else if MAX_LIST_VALUES <? len keys then Err (TooManyValues "credential_request_encryption.jwks.keys")
  else
    let? _ := encryption_kids keys [] in
    let? _ := required_list object "enc_values_supported" in
    encryption_required object.

Definition validate_response_encryption (value : Value) : result bool MetadataError :=
  let? object := ok_or (json_object value) (InvalidField "credential_response_encryption") in
  let? _ := required_list object "alg_values_supported" in
  let? _ := required_list object "enc_values_supported" in
  encryption_required object.

Definition validate_batch_issuance (value : Value) : result Z MetadataError :=
  let? object := ok_or (json_object value) (InvalidField "batch_credential_issuance") in
  let? size := ok_or (let! v := bt_get object "batch_size" in v_as_u64 v) (MissingField "batch_size") in
  if negb (in_range 2 MAX_BATCH_SIZE size) then Err (InvalidField "batch_size") else Ok size.

Definition read_configuration (id : string) (value : Value) : result CredentialConfiguration MetadataError :=
  let? _ := map_err (validate_bounded_text id MAX_CONFIGURATION_ID_BYTES false)
              (metadata_text_error "credential_configuration_id") in
  parse_credential_configuration value.

Definition parse_configurations (object : BTreeMap string Value)
  : result (BTreeMap string CredentialConfiguration) MetadataError :=
  let? v := ok_or (bt_get object "credential_configurations_supported")
              (MissingField "credential_configurations_supported") in
  let? object := ok_or (json_object v) (InvalidField "credential_configurations_supported") in
  if is_empty object then Err (EmptyCollection "credential_configurations_supported")
  else if MAX_CONFIGURATIONS <? len object then Err (TooManyValues "credential_configurations_supported")
  else read_members read_configuration object [].

Section issuer.
Context {SJ : SerdeJson}.

(** The document and its identifier, which is the expected one. *)
Definition identified_document (input : bytes) (expected_issuer member : string) (limits : JsonLimits)
  : result (BTreeMap string Value * HttpsIdentifier) MetadataError :=
  let? expected := map_err (identifier_parse expected_issuer) (InvalidUrl "expected_issuer") in
  let? object := map_err (parse_object limits input) MetaJson in
  let? issuer_text := metadata_required_string object member in
  let? issuer := map_err (identifier_parse issuer_text) (InvalidUrl member) in
  if negb (String.eqb (identifier issuer) (identifier expected)) then Err IdentifierMismatch
  else Ok (object, issuer).

Definition parse_credential_issuer_metadata_with_limits (input : bytes) (expected_issuer : string)
    (limits : JsonLimits) : result CredentialIssuerMetadata MetadataError :=
  let? (object, issuer) := identified_document input expected_issuer "credential_issuer" limits in
  let? servers :=
    match bt_get object "authorization_servers" with
    | Some value => parse_identifier_list value "authorization_servers" MAX_AUTHORIZATION_SERVERS
    | None => Ok [issuer]
    end in
  let? endpoint := metadata_endpoint object "credential_endpoint" true in
  let? endpoint := ok_or endpoint (MissingField "credential_endpoint") in
  let? nonce := metadata_endpoint object "nonce_endpoint" false in
  let? deferred := metadata_endpoint object "deferred_credential_endpoint" false in
  let? notification := metadata_endpoint object "notification_endpoint" false in
  let? request_encryption :=
    opt_map validate_request_encryption (bt_get object "credential_request_encryption") in
  let? response_encryption :=
    opt_map validate_response_encryption (bt_get object "credential_response_encryption") in
  let? batch := opt_map validate_batch_issuance (bt_get object "batch_credential_issuance") in
  let? _ := opt_map (fun display => validate_nonempty_object_array display "display") (bt_get object "display") in
  let? configurations := parse_configurations object in
  Ok {| credential_issuer := issuer; authorization_servers := servers; credential_endpoint := endpoint;
        nonce_endpoint := nonce; deferred_credential_endpoint := deferred;
        notification_endpoint := notification; credential_configurations_supported := configurations;
        issuer_features := {|
          has_nonce_endpoint := is_some nonce;
          has_deferred_credential_endpoint := is_some deferred;
          has_notification_endpoint := is_some notification;
          batch_credential_issuance := is_some batch;
          credential_request_encryption_required := unwrap_or request_encryption false;
          credential_response_encryption_required := unwrap_or response_encryption false |} |}.

Definition parse_credential_issuer_metadata (input : bytes) (expected_issuer : string)
  : result CredentialIssuerMetadata MetadataError :=
  parse_credential_issuer_metadata_with_limits input expected_issuer DEFAULT_JSON_LIMITS.
End issuer.

(** ** Authorization server metadata *)

Record AuthorizationServerFeatureFlags : Type := {
  f_authorization_code : bool;
  f_response_type_code : bool;
  f_par : bool;
  f_par_required : bool;
  f_pkce_s256 : bool;
  f_dpop_es256 : bool;
  f_authorization_response_issuer : bool;
}.

Definition supports_auto_selected_authorization_code (self : AuthorizationServerFeatureFlags) : bool :=
  f_authorization_code self && f_response_type_code self && f_par self && f_pkce_s256 self
  && f_dpop_es256 self && f_authorization_response_issuer self.

Record AuthorizationServerMetadata : Type := {
  issuer : HttpsIdentifier;
  authorization_endpoint : option HttpsEndpoint;
  token_endpoint : option HttpsEndpoint;
  pushed_authorization_request_endpoint : option HttpsEndpoint;
  jwks_uri : option HttpsEndpoint;
  scopes_supported : option (list string);
  grant_types_supported : list string;
  response_types_supported : list string;
  code_challenge_methods_supported : list string;
  dpop_signing_alg_values_supported : list string;
  features : AuthorizationServerFeatureFlags;
}.

Fixpoint validate_scopes (scopes : list string) : result unit MetadataError :=
  match scopes with
  | [] => Ok tt
  | scope :: scopes =>
      let? _ := validate_scope_token scope "scopes_supported" in validate_scopes scopes
  end.

Definition parse_scopes (value : Value) : result (list string) MetadataError :=
  let? scopes := parse_string_list value "scopes_supported" MAX_LIST_VALUES MAX_SCOPE_BYTES in
  let? _ := validate_scopes scopes in
  Ok scopes.

Definition optional_list (object : BTreeMap string Value) (field : string) : result (list string) MetadataError :=
  let? l := opt_map (fun v => parse_string_list v field MAX_LIST_VALUES 128) (bt_get object field) in
  Ok (unwrap_or l []).

Definition optional_bool (object : BTreeMap string Value) (field : string) : result bool MetadataError :=
  let? b := opt_map (fun v => ok_or (as_bool v) (InvalidField field)) (bt_get object field) in
  Ok (unwrap_or b false).

Section server.
Context {SJ : SerdeJson}.

Definition parse_authorization_server_metadata_with_limits (input : bytes) (expected_issuer : string)
    (limits : JsonLimits) : result AuthorizationServerMetadata MetadataError :=
  let? (object, issuer) := identified_document input expected_issuer "issuer" limits in
  let? authorization := metadata_endpoint object "authorization_endpoint" false in
  let? token := metadata_endpoint object "token_endpoint" false in
  let? par := metadata_endpoint object "pushed_authorization_request_endpoint" false in
  let? jwks := metadata_endpoint object "jwks_uri" false in
  let? response_types := required_list object "response_types_supported" in
  let? grant_types :=
    match bt_get object "grant_types_supported" with
    | Some value => parse_string_list value "grant_types_supported" MAX_LIST_VALUES 128
    | None => Ok ["authorization_code"; "implicit"]%string
    end in
  let? scopes := opt_map parse_scopes (bt_get object "scopes_supported") in
  let? challenges := optional_list object "code_challenge_methods_supported" in
  let? dpop := optional_list object "dpop_signing_alg_values_supported" in
  let? par_required := optional_bool object "require_pushed_authorization_requests" in
  let? response_issuer := optional_bool object "authorization_response_iss_parameter_supported" in
  Ok {| issuer := issuer; authorization_endpoint := authorization; token_endpoint := token;
        pushed_authorization_request_endpoint := par; jwks_uri := jwks; scopes_supported := scopes;
        grant_types_supported := grant_types; response_types_supported := response_types;
        code_challenge_methods_supported := challenges; dpop_signing_alg_values_supported := dpop;
        features := {|
          f_authorization_code := contains AUTHORIZATION_CODE_GRANT grant_types;
          f_response_type_code := contains "code" response_types;
          f_par := is_some par;
          f_par_required := par_required;
          f_pkce_s256 := contains "S256" challenges;
          f_dpop_es256 := contains "ES256" dpop;
          f_authorization_response_issuer := response_issuer |} |}.

Definition parse_authorization_server_metadata (input : bytes) (expected_issuer : string)
  : result AuthorizationServerMetadata MetadataError :=
  parse_authorization_server_metadata_with_limits input expected_issuer DEFAULT_JSON_LIMITS.
End server.

(** ** What the parsers establish *)

Definition option_ok {A} (P : A -> Prop) (o : option A) : Prop := forall x, o = Some x -> P x.

Definition text_ok (max : Z) (s : string) : Prop := s <> ""%string /\ slen s <= max /\ any_control s = false.

Definition list_ok {A} (max : Z) (P : A -> Prop) (l : list A) : Prop :=
  l <> [] /\ len l <= max /\ base.NoDup l /\ forall x, x ∈ l -> P x.

Definition algorithm_ok (a : AlgorithmIdentifier) : Prop :=
  match a with Jose name => text_ok 128 name | Cose _ => True end.

Record proof_type_ok (p : ProofTypeMetadata) : Prop := {
  proof_algorithms : list_ok MAX_LIST_VALUES algorithm_ok (signing_algorithms p);
  proof_storage : option_ok (fun a => option_ok (list_ok MAX_LIST_VALUES (text_ok 128)) (key_storage a))
                    (key_attestations_required p);
  proof_authentication :
    option_ok (fun a => option_ok (list_ok MAX_LIST_VALUES (text_ok 128)) (user_authentication a))
      (key_attestations_required p);
}.

Definition map_ok {V} (max key_bytes : Z) (P : V -> Prop) (m : BTreeMap string V) : Prop :=
  bt_ok m /\ m <> [] /\ len m <= max /\ forall k v, bt_get m k = Some v -> text_ok key_bytes k /\ P v.

(** A configuration states holder bindings and proof types together or not at
    all; its scope is one token of an OAuth scope list. *)
Record configuration_ok (c : CredentialConfiguration) : Prop := {
  ok_format : text_ok 64 (configuration_format c);
  ok_scope : option_ok (fun s => text_ok MAX_SCOPE_BYTES s /\ forallb scope_byte (as_bytes s) = true) (scope c);
  ok_bindings : option_ok (list_ok MAX_LIST_VALUES (text_ok 128)) (cryptographic_binding_methods_supported c);
  ok_algorithms : option_ok (list_ok MAX_LIST_VALUES algorithm_ok) (credential_signing_algorithms c);
  ok_proofs : option_ok (map_ok MAX_PROOF_TYPES 64 proof_type_ok) (proof_types_supported c);
  ok_together : is_some (cryptographic_binding_methods_supported c) = is_some (proof_types_supported c);
  ok_doctype : option_ok (text_ok MAX_CONFIGURATION_ID_BYTES) (configuration_doctype c);
  ok_vct : option_ok (text_ok MAX_CONFIGURATION_ID_BYTES) (configuration_vct c);
}.

Definition identifier_ok (i : HttpsIdentifier) : Prop :=
  validate_https_url (as_bytes (identifier i)) Identifier = Ok tt.
Definition endpoint_ok (e : HttpsEndpoint) : Prop :=
  validate_https_url (as_bytes (endpoint e)) Endpoint = Ok tt.

Record issuer_metadata_ok (m : CredentialIssuerMetadata) : Prop := {
  ok_issuer : identifier_ok (credential_issuer m);
  ok_servers : list_ok MAX_AUTHORIZATION_SERVERS identifier_ok (authorization_servers m);
  ok_endpoint : endpoint_ok (credential_endpoint m);
  ok_nonce : option_ok endpoint_ok (nonce_endpoint m);
  ok_deferred : option_ok endpoint_ok (deferred_credential_endpoint m);
  ok_notification : option_ok endpoint_ok (notification_endpoint m);
  ok_configurations :
    map_ok MAX_CONFIGURATIONS MAX_CONFIGURATION_ID_BYTES configuration_ok (credential_configurations_supported m);
}.

Lemma opt_map_ok {A B E} (f : A -> result B E) (P : B -> Prop) o r :
  (forall x y, f x = Ok y -> P y) -> opt_map f o = Ok r -> option_ok P r.
Proof. intros Hf H. destruct o as [x|]; cbn in H; [ok_steps H|]; injection H as <-; intros ? [= <-]. eauto. Qed.

Lemma bounded_text_ok s max : validate_bounded_text s max false = Ok tt -> text_ok max s.
Proof.
  unfold validate_bounded_text. intros H. ok_steps H. rewrite andb_true_r in *. bool_prop.
  split_and!; [|lia|done]. by intros ->.
Qed.

Lemma bounded_string_ok v field max s : metadata_bounded_string v field max = Ok s -> text_ok max s.
Proof.
  unfold metadata_bounded_string. intros H. ok_steps H. ok_norm. injection H as <-. by apply bounded_text_ok.
Qed.

Lemma read_distinct_ok {A} `{EqDecision A} (read : Value -> result A MetadataError) field values acc l
    (P : A -> Prop) :
  (forall v x, read v = Ok x -> P x) -> read_distinct read field values acc = Ok l ->
  base.NoDup acc -> (forall x, x ∈ acc -> P x) ->
  base.NoDup l /\ (forall x, x ∈ l -> P x) /\ len l = len acc + len values.
Proof.
  intros Hr. revert acc. induction values as [|v values IH]; intros acc H Hd Hp; cbn in H.
  { injection H as <-. rewrite len_nil. split_and!; [done|done|lia]. }
  ok_steps H. apply IH in H as (? & ? & Hl).
  - split_and!; [done|done|]. rewrite Hl, len_app, !len_cons, len_nil. lia.
  - apply list.NoDup_app. split_and!; [done| |by apply NoDup_singleton].
    intros x Hx ->%list_elem_of_singleton. by apply bool_decide_eq_false in Heqb.
  - intros x [?| ->%list_elem_of_singleton]%elem_of_app; eauto.
Qed.

Lemma parse_list_ok {A} `{EqDecision A} (read : Value -> result A MetadataError) v field max l (P : A -> Prop) :
  (forall v x, read v = Ok x -> P x) -> parse_list read v field max = Ok l -> list_ok max P l.
Proof.
  unfold parse_list. intros Hr H. ok_steps H.
  eapply read_distinct_ok in H as (? & ? & Hl); [|exact Hr|constructor|by intros ? ?%elem_of_nil].
  rewrite len_nil in Hl. bool_prop. repeat split; [|lia|done|done].
  intros ->. rewrite len_nil in Hl. destruct a; [done|]. rewrite len_cons in Hl. pose proof (len_nonneg a). lia.
Qed.

Lemma read_algorithm_ok field v a : read_algorithm field v = Ok a -> algorithm_ok a.
Proof.
  unfold read_algorithm. destruct (json_str v) as [s|].
  - intros H. ok_steps H. ok_norm. injection H as <-. by apply bounded_text_ok.
  - destruct (v_as_i64 v); [by intros [= <-]|done].
Qed.

Lemma string_list_ok v field max bytes l :
  parse_string_list v field max bytes = Ok l -> list_ok max (text_ok bytes) l.
Proof. apply parse_list_ok. intros ? ?. apply bounded_string_ok. Qed.

Lemma algorithm_list_ok v field max l : parse_algorithm_list v field max = Ok l -> list_ok max algorithm_ok l.
Proof. apply parse_list_ok. intros ? ?. apply read_algorithm_ok. Qed.

Lemma read_members_ok {V} (read : string -> Value -> result V MetadataError) (Q : string -> V -> Prop) object acc m :
  (forall k v x, read k v = Ok x -> Q k x) -> read_members read object acc = Ok m -> bt_ok acc ->
  (forall k x, bt_get acc k = Some x -> Q k x) ->
  bt_ok m /\ len acc <= len m <= len acc + len object
  /\ (object <> [] -> m <> []) /\ forall k x, bt_get m k = Some x -> Q k x.
Proof.
  intros Hr. revert acc. induction object as [|[k v] object IH]; intros acc H Ha Hq; cbn in H.
  { injection H as <-. rewrite len_nil. by split_and!; [|lia|lia| |]. }
  ok_steps H. assert (Hi : bt_ok (bt_insert k a acc)) by by apply bt_insert_ok.
  assert (Hl : len acc <= len (bt_insert k a acc) <= len acc + 1 /\ 1 <= len (bt_insert k a acc)).
  { unfold len. rewrite bt_insert_length by done. destruct (bt_contains acc k) eqn:Hc; [|lia].
    destruct acc; [done|]. simpl length. lia. }
  apply IH in H as (Hm & Hlen & _ & Hall); [|done|].
  - rewrite len_cons. split_and!; [done|lia|lia| |done]. intros _ ->. rewrite len_nil in Hlen. lia.
  - intros k' x. rewrite bt_get_insert. destruct (key_cmp k' k) eqn:E; [|by apply Hq|by apply Hq].
    apply key_cmp_eq in E as ->. intros [= <-]. eauto.
Qed.

Lemma key_attestation_reads v r :
  parse_key_attestation_requirement v = Ok r ->
  option_ok (list_ok MAX_LIST_VALUES (text_ok 128)) (key_storage r)
  /\ option_ok (list_ok MAX_LIST_VALUES (text_ok 128)) (user_authentication r).
Proof.
  unfold parse_key_attestation_requirement. intros H. ok_steps H.
  match type of H with match _ with Some _ => _ | None => Ok ?d end = _ =>
    assert (r = d) as -> by (repeat case_match; by simplify_eq/=) end.
  cbn [key_storage user_authentication].
  split; (eapply opt_map_ok; [|eassumption]); intros ? ?; apply string_list_ok.
Qed.

Lemma proof_type_reads name v p : parse_proof_type name v = Ok p -> text_ok 64 name /\ proof_type_ok p.
Proof.
  unfold parse_proof_type. intros H. ok_steps H. ok_norm. injection H as <-.
  split; [by apply bounded_text_ok|].
  split; cbn [signing_algorithms key_attestations_required]; [by eapply algorithm_list_ok| |];
    (eapply opt_map_ok; [|eassumption]); intros ? ?; apply key_attestation_reads.
Qed.

Lemma proof_types_read v m : parse_proof_types v = Ok m -> map_ok MAX_PROOF_TYPES 64 proof_type_ok m.
Proof.
  unfold parse_proof_types. intros H. ok_steps H. bool_prop.
  eapply (read_members_ok _ (fun k p => text_ok 64 k /\ proof_type_ok p)) in H as (? & [_ ?] & Hn & Hall);
    [|intros ? ? ?; apply proof_type_reads|constructor|done].
  rewrite len_nil in *. split_and!; [done| |lia|done]. apply Hn. by destruct a.
Qed.

Lemma configuration_reads v c : parse_credential_configuration v = Ok c -> configuration_ok c.
Proof.
  unfold parse_credential_configuration. intros H. ok_steps H. ok_norm. injection H as <-.
  assert (Hs : forall s, a2 = Some s -> forallb scope_byte (as_bytes s) = true).
  { intros s ->. unfold validate_scope_token in *. by destruct (forallb _ _). }
  split; cbn [configuration_format scope cryptographic_binding_methods_supported
    credential_signing_algorithms proof_types_supported configuration_doctype configuration_vct].
  - by apply bounded_text_ok.
  - intros s ->. split; [|by apply Hs].
    match goal with Ho : opt_map _ _ = Ok (Some s) |- _ =>
      by apply (opt_map_ok _ (text_ok MAX_SCOPE_BYTES) _ _ (fun v x => bounded_string_ok v _ _ x) Ho) end.
  - eapply opt_map_ok; [|eassumption]. intros ? ?. apply string_list_ok.
  - eapply opt_map_ok; [|eassumption]. intros ? ?. apply algorithm_list_ok.
  - eapply opt_map_ok; [|eassumption]. apply proof_types_read.
  - by apply eqb_prop.
  - eapply opt_map_ok; [|eassumption]. intros ? ?. apply bounded_string_ok.
  - eapply opt_map_ok; [|eassumption]. intros ? ?. apply bounded_string_ok.
Qed.

Lemma configurations_read object m :
  parse_configurations object = Ok m ->
  map_ok MAX_CONFIGURATIONS MAX_CONFIGURATION_ID_BYTES configuration_ok m.
Proof.
  unfold parse_configurations. intros H. ok_steps H. bool_prop.
  eapply (read_members_ok _ (fun k c => text_ok MAX_CONFIGURATION_ID_BYTES k /\ configuration_ok c))
    in H as (? & [_ ?] & Hn & Hall); [| |constructor|done].
  - rewrite len_nil in *. split_and!; [done| |lia|done]. apply Hn. by destruct a0.
  - intros k w c Hr. unfold read_configuration in Hr. ok_steps Hr. ok_norm.
    split; [by apply bounded_text_ok|by eapply configuration_reads].
Qed.

Lemma identifier_reads s i : identifier_parse s = Ok i -> identifier i = s /\ identifier_ok i.
Proof.
  unfold identifier_parse, identifier_ok. intros H. ok_steps H. ok_norm. by injection H as <-.
Qed.

Lemma endpoint_reads s e : endpoint_parse s = Ok e -> endpoint e = s /\ endpoint_ok e.
Proof.
  unfold endpoint_parse, endpoint_ok. intros H. ok_steps H. ok_norm. by injection H as <-.
Qed.

Lemma metadata_endpoint_ok object field required o :
  metadata_endpoint object field required = Ok o -> option_ok endpoint_ok o.
Proof.
  unfold metadata_endpoint. destruct (bt_get object field) as [v|].
  - intros H. ok_steps H. ok_norm. injection H as <-. intros ? [= <-]. by eapply endpoint_reads.
  - intros H. ok_steps H. injection H as <-. by intros ?.
Qed.

(** What a document says under a name, as the wallet was told to expect. *)
Lemma identified input expected member limits object i `{SerdeJson} :
  identified_document input expected member limits = Ok (object, i) ->
  identifier i = expected /\ identifier_ok i /\ parse_object limits input = Ok object
  /\ bt_get object member = Some (VString expected).
Proof.
  unfold identified_document. intros H'. ok_steps H'. ok_norm. injection H' as <- <-.
  match goal with He : identifier_parse expected = Ok _ |- _ => apply identifier_reads in He as [<- _] end.
  match goal with Hi : identifier_parse a1 = Ok _ |- _ => apply identifier_reads in Hi as [Hi1 Hi2] end.
  apply String.eqb_eq in Heqb. split_and!; [done|done|done|].
  unfold metadata_required_string in *. rewrite <- Heqb, Hi1.
  match goal with Hm : match ok_or _ _ with Ok _ => _ | Err _ => _ end = _ |- _ => ok_steps Hm end. ok_norm.
  match goal with Hg : bt_get a0 member = Some ?v, Hj : json_str ?v = Some _ |- _ => rewrite Hg; by destruct v; simplify_eq/= end.
Qed.

Section documents.
Context {SJ : SerdeJson}.

(** issuer metadata is accepted only for the issuer it was asked for, as
    itself names it, and is well formed: identifiers and endpoints are
    canonical HTTPS addresses, every list and map is non-empty, bounded and
    without repetition, scopes are single tokens, and a configuration states
    holder bindings and proof types together.  Without a list of servers the
    issuer is its own, and the feature flags repeat the members they
    summarise. *)
Theorem issuer_metadata_is_expected input expected limits m :
  parse_credential_issuer_metadata_with_limits input expected limits = Ok m ->
  issuer_metadata_ok m
  /\ identifier (credential_issuer m) = expected
  /\ (exists object, parse_object limits input = Ok object
        /\ bt_get object "credential_issuer" = Some (VString expected)
        /\ (bt_get object "authorization_servers" = None -> authorization_servers m = [credential_issuer m]))
  /\ has_nonce_endpoint (issuer_features m) = is_some (nonce_endpoint m)
  /\ has_deferred_credential_endpoint (issuer_features m) = is_some (deferred_credential_endpoint m)
  /\ has_notification_endpoint (issuer_features m) = is_some (notification_endpoint m).
Proof.
  unfold parse_credential_issuer_metadata_with_limits. intros H.
  destruct (identified_document _ _ _ _) as [[object i]|] eqn:Hd; [|done]. cbv beta iota in H.
  apply identified in Hd as (Hi & Hio & Hp & Hg). ok_steps H. injection H as <-. ok_norm.
  split; [|split_and!; try done; exists object; split_and!; [done|done|]].
  - split; cbn [credential_issuer authorization_servers credential_endpoint nonce_endpoint
      deferred_credential_endpoint notification_endpoint credential_configurations_supported].
    + done.
    + match goal with Hs : match bt_get object "authorization_servers" with _ => _ end = Ok _ |- _ =>
        revert Hs; destruct (bt_get object "authorization_servers") as [v|] end.
      * apply parse_list_ok. intros w x Hr. unfold read_identifier in Hr. ok_steps Hr. ok_norm.
        by eapply identifier_reads.
      * intros [= <-]. split_and!; [done|done|apply NoDup_singleton|]. by intros x ->%list_elem_of_singleton.
    + match goal with Hm : metadata_endpoint object "credential_endpoint" true = Ok _ |- _ =>
        apply (metadata_endpoint_ok _ _ _ _ Hm) end. done.
    + by eapply metadata_endpoint_ok.
    + by eapply metadata_endpoint_ok.
    + by eapply metadata_endpoint_ok.
    + by eapply configurations_read.
  - cbn [authorization_servers credential_issuer]. intros Hn.
    match goal with Hs : match bt_get object "authorization_servers" with _ => _ end = Ok _ |- _ =>
      rewrite Hn in Hs; by injection Hs as <- end.
Qed.
End documents.

(** ** A sample issuer *)

Module Examples.

(** Text in which an apostrophe stands for a quotation mark. *)
Definition quoted (s : string) : bytes :=
  map (fun b => if Byte.eqb b Byte.x27 then Byte.x22 else b) (as_bytes s).

Definition document : bytes := quoted
  "{'credential_issuer':'https://issuer.example','credential_endpoint':'https://issuer.example/c','nonce_endpoint':'https://issuer.example/n','credential_configurations_supported':{'pid':{'format':'dc+sd-jwt','scope':'pid','vct':'urn:eudi:pid:1','cryptographic_binding_methods_supported':['jwk'],'credential_signing_alg_values_supported':['ES256'],'proof_types_supported':{'jwt':{'proof_signing_alg_values_supported':['ES256'],'key_attestations_required':{'key_storage':['iso_18045_high'],'user_authentication':['iso_18045_high']}}}}}}".

Definition high : Value := VArray [VString "iso_18045_high"].

Definition pid_configuration : Value := VObject (bt_extend [] [
  ("format", VString "dc+sd-jwt"); ("scope", VString "pid"); ("vct", VString "urn:eudi:pid:1");
  ("cryptographic_binding_methods_supported", VArray [VString "jwk"]);
  ("credential_signing_alg_values_supported", VArray [VString "ES256"]);
  ("proof_types_supported", VObject [("jwt", VObject (bt_extend [] [
     ("proof_signing_alg_values_supported", VArray [VString "ES256"]);
     ("key_attestations_required", VObject [("key_storage", high); ("user_authentication", high)])]))])])%string.

Definition document_value : Value := VObject (bt_extend [] [
  ("credential_issuer", VString "https://issuer.example");
  ("credential_endpoint", VString "https://issuer.example/c");
  ("nonce_endpoint", VString "https://issuer.example/n");
  ("credential_configurations_supported", VObject [("pid", pid_configuration)])])%string.

(** A reader that knows this document. *)
#[export] Instance issuer_serde : SerdeJson := {|
  value_from_slice := fun s => if bool_decide (s = document) then Some document_value else None;
  value_to_vec := fun _ => [] |}.

Definition sample : result CredentialIssuerMetadata MetadataError :=
  parse_credential_issuer_metadata document "https://issuer.example".

Definition unexpected : result CredentialIssuerMetadata MetadataError :=
  parse_credential_issuer_metadata document "https://issuer.example/tenant".

Example sample_is_read :
  is_ok sample = true /\ unexpected = Err IdentifierMismatch.
Proof. split; vm_compute; reflexivity. Qed.
End Examples.

Lemma issuer_metadata_is_expected_witness :
  exists m, Examples.sample = Ok m /\ issuer_metadata_ok m.
Proof.
  destruct Examples.sample as [m|] eqn:H; [|vm_compute in H; discriminate H].
  exact (ex_intro _ m (conj eq_refl (proj1 (issuer_metadata_is_expected (SJ := Examples.issuer_serde)
    Examples.document "https://issuer.example" DEFAULT_JSON_LIMITS m H)))).
Defined.
