(* ===== verification/ProfileSelection.v ===== *)
(** * Selection of an issuance profile (crates/oid4vci/src/foundation.rs)

    From an offer and the metadata of its issuer and authorization servers to
    an issuance plan: German PID first enrolment, and credentials that a policy
    of the wallet admits. *)

From stdpp Require Import list.
From S2P Require Import Prelude Utf8 BTree Boundary Serde BoundedJson HttpsUrls Metadata.

Open Scope Z_scope.
Open Scope rust_scope.

Definition MDOC_PID_DOCTYPE : string := "eu.europa.ec.eudi.pid.1".
Definition SD_JWT_PID_VCT : string := "urn:eudi:pid:1".
Definition TLSNOTARY_EVIDENCE_CONFIGURATION_ID : string := "dev.advatar.tlsn.evidence.sd-jwt".
Definition TLSNOTARY_EVIDENCE_VCT : string := "dev.advatar.tlsn.evidence.1".

Inductive GermanPidFormat : Type := MsoMdoc | DcSdJwt.
Inductive HolderBindingMethod : Type := CoseKey | Jwk.
Inductive CredentialSigningAlgorithm : Type := CoseEs256 | JoseEs256.
Inductive PidProviderTrust : Type := Unresolved.
Inductive CredentialAssuranceClass : Type := DevelopmentUnregulated.
Inductive PidPrerequisite : Type := NoPrerequisite | ValidPidPresent | PidBoundProofRequired.

Record GermanPidIssuancePlan : Type := {
  plan_issuer : HttpsIdentifier;
  plan_server : HttpsIdentifier;
  plan_configuration_id : string;
  plan_format : GermanPidFormat;
  plan_scope : string;
  plan_holder_binding : HolderBindingMethod;
  plan_credential_signing_algorithm : CredentialSigningAlgorithm;
  plan_proof_signing_algorithm : string;
  plan_credential_endpoint : HttpsEndpoint;
  plan_nonce_endpoint : HttpsEndpoint;
  plan_deferred_credential_endpoint : option HttpsEndpoint;
  plan_authorization_endpoint : HttpsEndpoint;
  plan_token_endpoint : HttpsEndpoint;
  plan_par_endpoint : HttpsEndpoint;
  plan_pid_provider_trust : PidProviderTrust;
}.

Record SdJwtCredentialPolicy : Type := {
  policy_configuration_id : string;
  policy_vct : string;
  policy_assurance : CredentialAssuranceClass;
  policy_pid_prerequisite : PidPrerequisite;
}.

Definition tlsnotary_development_policy : SdJwtCredentialPolicy := {|
  policy_configuration_id := TLSNOTARY_EVIDENCE_CONFIGURATION_ID;
  policy_vct := TLSNOTARY_EVIDENCE_VCT;
  policy_assurance := DevelopmentUnregulated;
  policy_pid_prerequisite := NoPrerequisite |}.

Record GenericCredentialIssuancePlan : Type := {
  generic_issuer : HttpsIdentifier;
  generic_server : HttpsIdentifier;
  generic_configuration_id : string;
  generic_expected_vct : string;
  generic_scope : string;
  generic_credential_endpoint : HttpsEndpoint;
  generic_nonce_endpoint : HttpsEndpoint;
  generic_deferred_credential_endpoint : option HttpsEndpoint;
  generic_authorization_endpoint : HttpsEndpoint;
  generic_token_endpoint : HttpsEndpoint;
  generic_par_endpoint : HttpsEndpoint;
  generic_assurance : CredentialAssuranceClass;
  generic_pid_prerequisite : PidPrerequisite;
}.

Inductive ProfileSelectionError : Type :=
| OfferIssuerMismatch | AuthorizationCodeRequired | ConfigurationNotOffered | ConfigurationUnknown
| UnsupportedPidConfiguration | MixedAlgorithmIdentifiers | ScopeMissing | BindingMethodMissing
| CredentialSigningAlgorithmMissing | JwtProofMissing | ProofAlgorithmMissing | KeyAttestationMissing
| HighKeyStorageMissing | HighUserAuthenticationMissing | NonceEndpointMissing
| CredentialRequestEncryptionRequired | CredentialResponseEncryptionRequired
| AuthorizationServerHintNotAllowed | AuthorizationServerHintMismatch | AuthorizationServerNotAdvertised
| AuthorizationServerMetadataMissing | AmbiguousAuthorizationServer | AuthorizationCodeUnsupported
| ResponseTypeCodeUnsupported | AuthorizationEndpointMissing | TokenEndpointMissing | ParUnsupported
| PkceS256Unsupported | DpopEs256Unsupported | AuthorizationResponseIssuerUnsupported
| ScopeUnsupportedByAuthorizationServer.

(** ** Helpers *)

Definition contains_value (values : option (list string)) (expected : string) : bool :=
  contains expected (unwrap_or values []).

Definition authorization_server_supports_scope (server : AuthorizationServerMetadata)
    (required_scope : option string) : bool :=
  match required_scope with
  | None => true
  | Some required_scope =>
      match scopes_supported server with
      | None => true
      | Some scopes => contains required_scope scopes
      end
  end.

Arguments authorization_server_supports_scope : simpl never.

Definition is_jose (a : AlgorithmIdentifier) : bool := match a with Jose _ => true | Cose _ => false end.

Definition is_jose_es256 (a : AlgorithmIdentifier) : bool :=
  match a with Jose name => String.eqb name "ES256" | Cose _ => false end.

(** [option.filter(|scope| !scope.is_empty())]. *)
Definition nonempty_scope (c : CredentialConfiguration) : option string :=
  let! s := scope c in if sis_empty s then None else Some s.

(** ** The authorization server *)

Fixpoint check_servers (advertised : list HttpsIdentifier) (servers : list AuthorizationServerMetadata)
    (seen : list HttpsIdentifier) : result unit ProfileSelectionError :=
  match servers with
  | [] => Ok tt
  | server :: servers =>
      if negb (bool_decide (issuer server ∈ advertised)) then Err AuthorizationServerNotAdvertised
      else if bool_decide (issuer server ∈ seen) then Err AmbiguousAuthorizationServer
      else check_servers advertised servers (issuer server :: seen)
  end.

Definition is_candidate (required_scope : option string) (server : AuthorizationServerMetadata) : bool :=
  supports_auto_selected_authorization_code (features server)
  && is_some (authorization_endpoint server) && is_some (token_endpoint server)
  && authorization_server_supports_scope server required_scope.

(** The server the offer names, the only advertised one, or the only one that
    supports the flow. *)
Definition target_server (offer : CredentialOffer) (metadata : CredentialIssuerMetadata)
    (servers : list AuthorizationServerMetadata) (required_scope : option string)
  : result HttpsIdentifier ProfileSelectionError :=
  let advertised := authorization_servers metadata in
  match (let! grant := authorization_code offer in auth_server_hint grant) with
  | Some hint =>
      if len advertised <=? 1 then Err AuthorizationServerHintNotAllowed
      else if negb (bool_decide (hint ∈ advertised)) then Err AuthorizationServerHintMismatch
      else Ok hint
  | None =>
      match advertised with
      | [only] => Ok only
      | _ =>
          if negb (len servers =? len advertised)
             || existsb (fun a => negb (existsb (fun s => bool_decide (issuer s = a)) servers)) advertised
          then Err AuthorizationServerMetadataMissing
          else
            match List.filter (is_candidate required_scope) servers with
            | [candidate] => Ok (issuer candidate)
            | _ => Err AmbiguousAuthorizationServer
            end
      end
  end.

Definition select_authorization_server (offer : CredentialOffer) (metadata : CredentialIssuerMetadata)
    (servers : list AuthorizationServerMetadata) (required_scope : option string)
  : result AuthorizationServerMetadata ProfileSelectionError :=
  if negb (bool_decide (offer_issuer offer = credential_issuer metadata)) then Err OfferIssuerMismatch
  else if negb (authorization_code_eligible offer) then Err AuthorizationCodeRequired
  else
    let? _ := check_servers (authorization_servers metadata) servers [] in
    let? target := target_server offer metadata servers required_scope in
    let? selected := ok_or (List.find (fun s => bool_decide (issuer s = target)) servers)
                       AuthorizationServerMetadataMissing in
    if negb (authorization_server_supports_scope selected required_scope)
    then Err ScopeUnsupportedByAuthorizationServer
    else Ok selected.

(** ** German PID first enrolment *)

(** The format of the configuration, with its binding and algorithm. *)
Definition pid_profile (c : CredentialConfiguration) (bindings : list string)
    (algorithms : list AlgorithmIdentifier)
  : result (GermanPidFormat * HolderBindingMethod * CredentialSigningAlgorithm) ProfileSelectionError :=
  if String.eqb (configuration_format c) "mso_mdoc"
     && bool_decide (configuration_doctype c = Some MDOC_PID_DOCTYPE) && negb (is_some (configuration_vct c))
  then
    if negb (contains "cose_key" bindings) then Err BindingMethodMissing
    else if existsb is_jose algorithms then Err MixedAlgorithmIdentifiers
    else if negb (bool_decide (Cose (-7) ∈ algorithms)) then Err CredentialSigningAlgorithmMissing
    else Ok (MsoMdoc, CoseKey, CoseEs256)
  else if String.eqb (configuration_format c) "dc+sd-jwt"
          && bool_decide (configuration_vct c = Some SD_JWT_PID_VCT) && negb (is_some (configuration_doctype c))
  then
    if negb (contains "jwk" bindings) then Err BindingMethodMissing
    else if existsb (fun a => negb (is_jose a)) algorithms then Err MixedAlgorithmIdentifiers
    else if negb (existsb is_jose_es256 algorithms) then Err CredentialSigningAlgorithmMissing
    else Ok (DcSdJwt, Jwk, JoseEs256)
  else Err UnsupportedPidConfiguration.

(** The requirements on the JWT proof and its key attestation. *)
Definition check_jwt_proof (jwt : ProofTypeMetadata) : result unit ProfileSelectionError :=
  if negb (existsb is_jose_es256 (signing_algorithms jwt)) then Err ProofAlgorithmMissing
  else if existsb (fun a => negb (is_jose a)) (signing_algorithms jwt) then Err MixedAlgorithmIdentifiers
  else
    let? key_attestation := ok_or (key_attestations_required jwt) KeyAttestationMissing in
    if negb (contains_value (key_storage key_attestation) "iso_18045_high") then Err HighKeyStorageMissing
    else if negb (contains_value (user_authentication key_attestation) "iso_18045_high")
    then Err HighUserAuthenticationMissing
    else Ok tt.

Definition select_german_first_enrolment (offer : CredentialOffer) (metadata : CredentialIssuerMetadata)
    (servers : list AuthorizationServerMetadata) (selected_configuration_id : string)
  : result GermanPidIssuancePlan ProfileSelectionError :=
  if negb (authorization_code_eligible offer) then Err AuthorizationCodeRequired
  else if negb (bool_decide (offer_issuer offer = credential_issuer metadata)) then Err OfferIssuerMismatch
  else if negb (contains selected_configuration_id (credential_configuration_ids offer))
  then Err ConfigurationNotOffered
  else
    let? configuration :=
      ok_or (bt_get (credential_configurations_supported metadata) selected_configuration_id)
        ConfigurationUnknown in
    if credential_request_encryption_required (issuer_features metadata)
    then Err CredentialRequestEncryptionRequired
    else if credential_response_encryption_required (issuer_features metadata)
    then Err CredentialResponseEncryptionRequired
    else
      let? nonce := ok_or (nonce_endpoint metadata) NonceEndpointMissing in
      let? scope := ok_or (nonempty_scope configuration) ScopeMissing in
      let? bindings := ok_or (cryptographic_binding_methods_supported configuration) BindingMethodMissing in
      let? algorithms :=
        ok_or (credential_signing_algorithms configuration) CredentialSigningAlgorithmMissing in
      let? types := ok_or (proof_types_supported configuration) JwtProofMissing in
      let? jwt := ok_or (bt_get types "jwt") JwtProofMissing in
      let? _ := check_jwt_proof jwt in
      let? (format, binding, algorithm) := pid_profile configuration bindings algorithms in
      let? server := select_authorization_server offer metadata servers (Some scope) in
      if negb (f_authorization_code (features server)) then Err AuthorizationCodeUnsupported
      else if negb (f_response_type_code (features server)) then Err ResponseTypeCodeUnsupported
      else
        let? authorization := ok_or (authorization_endpoint server) AuthorizationEndpointMissing in
        let? token := ok_or (token_endpoint server) TokenEndpointMissing in
        let? par := ok_or (pushed_authorization_request_endpoint server) ParUnsupported in
        if negb (f_pkce_s256 (features server)) then Err PkceS256Unsupported
        else if negb (f_dpop_es256 (features server)) then Err DpopEs256Unsupported
        else if negb (f_authorization_response_issuer (features server))
        then Err AuthorizationResponseIssuerUnsupported
        else Ok {|
          plan_issuer := credential_issuer metadata;
          plan_server := issuer server;
          plan_configuration_id := selected_configuration_id;
          plan_format := format;
          plan_scope := scope;
          plan_holder_binding := binding;
          plan_credential_signing_algorithm := algorithm;
          plan_proof_signing_algorithm := "ES256";
          plan_credential_endpoint := credential_endpoint metadata;
          plan_nonce_endpoint := nonce;
          plan_deferred_credential_endpoint := deferred_credential_endpoint metadata;
          plan_authorization_endpoint := authorization;
          plan_token_endpoint := token;
          plan_par_endpoint := par;
          plan_pid_provider_trust := Unresolved |}.

(** ** Credentials a policy admits *)

Definition policy_is_bounded (policy : SdJwtCredentialPolicy) : bool :=
  negb (sis_empty (policy_configuration_id policy)
        || (MAX_CONFIGURATION_ID_BYTES <? slen (policy_configuration_id policy))
        || sis_empty (policy_vct policy) || (MAX_CONFIGURATION_ID_BYTES <? slen (policy_vct policy))).

Definition select_policy_registered_sd_jwt (offer : CredentialOffer) (metadata : CredentialIssuerMetadata)
    (servers : list AuthorizationServerMetadata) (policy : SdJwtCredentialPolicy)
  : result GenericCredentialIssuancePlan ProfileSelectionError :=
  if negb (bool_decide (offer_issuer offer = credential_issuer metadata)) then Err OfferIssuerMismatch
  else if negb (authorization_code_eligible offer) then Err AuthorizationCodeRequired
  else if negb (contains (policy_configuration_id policy) (credential_configuration_ids offer))
  then Err ConfigurationNotOffered
  else if negb (policy_is_bounded policy) then Err UnsupportedPidConfiguration
  else
    let? configuration :=
      ok_or (bt_get (credential_configurations_supported metadata) (policy_configuration_id policy))
        ConfigurationUnknown in
    if negb (String.eqb (configuration_format configuration) "dc+sd-jwt")
       || negb (bool_decide (configuration_vct configuration = Some (policy_vct policy)))
       || is_some (configuration_doctype configuration)
    then Err UnsupportedPidConfiguration
    else
      let? scope := ok_or (nonempty_scope configuration) ScopeMissing in
      if negb (contains_value (cryptographic_binding_methods_supported configuration) "jwk")
      then Err BindingMethodMissing
      else if negb (existsb is_jose_es256 (unwrap_or (credential_signing_algorithms configuration) []))
      then Err CredentialSigningAlgorithmMissing
      else
        let? jwt := ok_or (let! types := proof_types_supported configuration in bt_get types "jwt")
                      JwtProofMissing in
        if negb (existsb is_jose_es256 (signing_algorithms jwt)) then Err ProofAlgorithmMissing
        else
          let? server := select_authorization_server offer metadata servers (Some scope) in
          if negb (f_authorization_code (features server)) then Err AuthorizationCodeUnsupported
          else if negb (f_response_type_code (features server)) then Err ResponseTypeCodeUnsupported
          else if negb (f_pkce_s256 (features server)) then Err PkceS256Unsupported
          else if negb (f_dpop_es256 (features server)) then Err DpopEs256Unsupported
          else if negb (f_authorization_response_issuer (features server))
          then Err AuthorizationResponseIssuerUnsupported
          else
            let? nonce := ok_or (nonce_endpoint metadata) NonceEndpointMissing in
            let? authorization := ok_or (authorization_endpoint server) AuthorizationEndpointMissing in
            let? token := ok_or (token_endpoint server) TokenEndpointMissing in
            let? par := ok_or (pushed_authorization_request_endpoint server) ParUnsupported in
            Ok {|
              generic_issuer := credential_issuer metadata;
              generic_server := issuer server;
              generic_configuration_id := policy_configuration_id policy;
              generic_expected_vct := policy_vct policy;
              generic_scope := scope;
              generic_credential_endpoint := credential_endpoint metadata;
              generic_nonce_endpoint := nonce;
              generic_deferred_credential_endpoint := deferred_credential_endpoint metadata;
              generic_authorization_endpoint := authorization;
              generic_token_endpoint := token;
              generic_par_endpoint := par;
              generic_assurance := policy_assurance policy;
              generic_pid_prerequisite := policy_pid_prerequisite policy |}.

(** ** When a server is selected *)

Lemma contains_In v l : contains v l = true <-> v ∈ l.
Proof.
  unfold contains. rewrite existsb_exists, list_elem_of_In. split.
  - intros (x & Hx & ->%String.eqb_eq). done.
  - intros Hx. exists v. split; [done|]. by apply String.eqb_eq.
Qed.

Lemma is_some_iff {A} (o : option A) : is_some o = true <-> exists x, o = Some x.
Proof. destruct o; split; [eauto|done|done|]. by intros (? & ?). Qed.

Lemma nonempty_scope_iff c s : nonempty_scope c = Some s <-> scope c = Some s /\ s <> ""%string.
Proof.
  unfold nonempty_scope. destruct (scope c) as [t|]; [|split; [done|by intros [? _]]].
  destruct (sis_empty t) eqn:E.
  - split; [done|]. intros [[= ->] Hne]. unfold sis_empty in E. by destruct s.
  - split; [intros [= ->]|by intros [[= ->] _]]. split; [done|]. by intros ->.
Qed.

Lemma supports_scope_iff server s :
  authorization_server_supports_scope server (Some s) = true
  <-> forall scopes, scopes_supported server = Some scopes -> s ∈ scopes.
Proof.
  unfold authorization_server_supports_scope. destruct (scopes_supported server) as [l|].
  - rewrite contains_In. split; [by intros ? ? [= <-]|auto].
  - done.
Qed.

Lemma check_servers_iff advertised servers seen :
  check_servers advertised servers seen = Ok tt
  <-> (forall s, s ∈ servers -> issuer s ∈ advertised /\ issuer s ∉ seen)
      /\ base.NoDup (map issuer servers).
Proof.
  revert seen. induction servers as [|s servers IH]; intros seen; simpl.
  - split; [|done]. intros _. split; [|constructor]. by intros s ?%elem_of_nil.
  - destruct (bool_decide_reflect (issuer s ∈ advertised)) as [Ha|Ha]; simpl.
    2:{ split; [done|]. intros [H _]. destruct (H s) as [? _]; [apply list_elem_of_here|done]. }
    destruct (bool_decide_reflect (issuer s ∈ seen)) as [Hs|Hs].
    { split; [done|]. intros [H _]. destruct (H s) as [_ ?]; [apply list_elem_of_here|done]. }
    rewrite IH. split.
    + intros [H Hd]. split.
      * intros x [->|Hx]%elem_of_cons; [done|]. specialize (H x Hx) as [? Hn].
        split; [done|]. intros ?. apply Hn. by apply list_elem_of_further.
      * constructor; [|done]. intros (x & Hi & Hx)%list_elem_of_fmap.
        apply (H x Hx). rewrite Hi. apply list_elem_of_here.
    + intros [H Hd]. inversion Hd as [|? ? Hn Hd']; subst. split; [|done].
      intros x Hx. destruct (H x) as [? Hn']; [by apply list_elem_of_further|]. split; [done|].
      intros [He|?]%elem_of_cons; [|done]. apply Hn. rewrite <- He. by apply list_elem_of_fmap_2.
Qed.

(** The offer's hint, which is only allowed where there is a choice. *)
Definition server_hint (offer : CredentialOffer) : option HttpsIdentifier :=
  let! grant := authorization_code offer in auth_server_hint grant.

(** The server the documents determine: the one the offer names among several,
    the only one, or the only one that supports the flow when the metadata of
    all of them is known. *)
Definition determined (offer : CredentialOffer) (metadata : CredentialIssuerMetadata)
    (servers : list AuthorizationServerMetadata) (s : string) (server : AuthorizationServerMetadata) : Prop :=
  match server_hint offer with
  | Some hint => 1 < len (authorization_servers metadata) /\ issuer server = hint
  | None =>
      authorization_servers metadata = [issuer server]
      \/ (len (authorization_servers metadata) <> 1
          /\ len servers = len (authorization_servers metadata)
          /\ (forall a, a ∈ authorization_servers metadata -> a ∈ map issuer servers)
          /\ is_candidate (Some s) server = true
          /\ (forall other, other ∈ servers -> is_candidate (Some s) other = true -> other = server))
  end.

Record ServerSelected (offer : CredentialOffer) (metadata : CredentialIssuerMetadata)
    (servers : list AuthorizationServerMetadata) (s : string) (server : AuthorizationServerMetadata) : Prop := {
  selected_issuer : offer_issuer offer = credential_issuer metadata;
  selected_grant : authorization_code_eligible offer = true;
  selected_advertised : forall x, x ∈ servers -> issuer x ∈ authorization_servers metadata;
  selected_distinct : base.NoDup (map issuer servers);
  selected_known : server ∈ servers;
  selected_determined : determined offer metadata servers s server;
  selected_scope : forall scopes, scopes_supported server = Some scopes -> s ∈ scopes;
}.

Lemma find_issuer servers t server :
  base.NoDup (map issuer servers) ->
  List.find (fun s => bool_decide (issuer s = t)) servers = Some server
  <-> server ∈ servers /\ issuer server = t.
Proof.
  induction servers as [|s servers IH]; simpl; intros Hd.
  - split; [done|by intros [?%elem_of_nil _]].
  - inversion Hd as [|? ? Hn Hd']; subst. destruct (bool_decide_reflect (issuer s = t)) as [<-|Hne].
    + split; [intros [= ->]; split; [apply list_elem_of_here|done]|].
      intros [[->|Hin]%elem_of_cons He]; [done|]. exfalso. apply Hn. rewrite <- He.
      by apply list_elem_of_fmap_2.
    + rewrite (IH Hd'). split; [intros [? ?]; split; [by apply list_elem_of_further|done]|].
      by intros [[->|Hin]%elem_of_cons He].
Qed.

Lemma filter_single {A} (f : A -> bool) l (x : A) :
  base.NoDup l ->
  List.filter f l = [x] <-> x ∈ l /\ f x = true /\ (forall y, y ∈ l -> f y = true -> y = x).
Proof.
  intros Hd. split.
  - intros Hf. assert (Hin : forall y, y ∈ l /\ f y = true <-> y = x).
    { intros y. rewrite list_elem_of_In, <- filter_In, Hf. simpl. naive_solver. }
    destruct (Hin x) as [_ [? ?]]; [done|]. split_and!; [done|done|].
    intros y ? ?. by apply Hin.
  - intros (Hx & Hf & Hu). induction Hd as [|y l Hn Hd IH]; [by apply elem_of_nil in Hx|]. simpl.
    destruct (f y) eqn:Hy.
    + assert (y = x) as -> by (apply Hu; [apply list_elem_of_here|done]). f_equal.
      destruct (List.filter f l) as [|z r] eqn:Hz; [done|]. exfalso.
      assert (In z (List.filter f l)) as [Hl Hf']%filter_In by (rewrite Hz; by left).
      apply list_elem_of_In in Hl. apply Hn. rewrite <- (Hu z); [done|by apply list_elem_of_further|done].
    + apply IH; [|intros z ? ?; apply Hu; [by apply list_elem_of_further|done]].
      apply elem_of_cons in Hx as [->|?]; [congruence|done].
Qed.

Lemma elem_of_existsb {A} `{EqDecision A} (a : A) (g : AuthorizationServerMetadata -> A) l :
  existsb (fun s => bool_decide (g s = a)) l = true <-> a ∈ map g l.
Proof.
  rewrite existsb_exists, list_elem_of_fmap. split.
  - intros (s & ? & <-%bool_decide_eq_true). exists s. by rewrite list_elem_of_In.
  - intros (s & -> & Hs). exists s. rewrite bool_decide_eq_true, <- list_elem_of_In. done.
Qed.

Lemma target_known offer metadata servers s server :
  (forall x, x ∈ servers -> issuer x ∈ authorization_servers metadata) ->
  base.NoDup (map issuer servers) -> server ∈ servers ->
  (forall scopes, scopes_supported server = Some scopes -> s ∈ scopes) ->
  target_server offer metadata servers (Some s) = Ok (issuer server)
  <-> determined offer metadata servers s server.
Proof.
  intros Ha Hd Hin Hs. unfold target_server, determined. fold (server_hint offer).
  destruct (server_hint offer) as [hint|].
  - destruct (Z.leb_spec (len (authorization_servers metadata)) 1); [split; [done|lia]|].
    destruct (bool_decide_reflect (hint ∈ authorization_servers metadata)) as [Hh|Hh]; simpl.
    + split; [by intros [= ->]|by intros [_ ->]].
    + split; [done|]. intros [_ <-]. by destruct Hh; apply Ha.
  - destruct (authorization_servers metadata) as [|only [|a2 rest]] eqn:E.
    + specialize (Ha _ Hin). by apply elem_of_nil in Ha.
    + split; [intros [= ->]; by left|]. intros [[= ->]|[Hl _]]; [done|]. by exfalso.
    + rewrite <- E. assert (Hl : len (authorization_servers metadata) <> 1).
      { rewrite E. rewrite !len_cons. pose proof (len_nonneg rest). lia. }
      destruct (Z.eqb_spec (len servers) (len (authorization_servers metadata))) as [He|Hne]; simpl.
      2:{ split; [done|]. intros [Hone|(_ & ? & _)]; [by destruct Hl; rewrite Hone|done]. }
      destruct (existsb _ _) eqn:Hex.
      { split; [done|]. apply existsb_exists in Hex as (a & Hin' & Hn%negb_true_iff).
        intros [Hone|(_ & _ & Hall & _)]; [by destruct Hl; rewrite Hone|]. exfalso.
        apply not_true_iff_false in Hn. apply Hn, elem_of_existsb, Hall. by apply list_elem_of_In. }
      assert (Hall : forall a, a ∈ authorization_servers metadata -> a ∈ map issuer servers).
      { intros a Hi. apply elem_of_existsb. apply not_false_iff_true. intros Hf.
        apply not_true_iff_false in Hex. apply Hex, existsb_exists. exists a.
        rewrite <- list_elem_of_In, Hf. done. }
      assert (Hdl : base.NoDup servers) by (by eapply NoDup_fmap_1).
      pose proof (filter_single (is_candidate (Some s)) servers) as Hf.
      transitivity (List.filter (is_candidate (Some s)) servers = [server]).
      * destruct (List.filter _ servers) as [|c [|c2 r]] eqn:Hc; [done| |done].
        split; [|by intros [= ->]]. intros [= Hi]. f_equal.
        assert (c ∈ servers) as Hcin.
        { apply list_elem_of_In, (filter_In (is_candidate (Some s))). rewrite Hc. by left. }
        pose proof (find_issuer servers (issuer server) c Hd) as [_ H1].
        pose proof (find_issuer servers (issuer server) server Hd) as [_ H2].
        specialize (H1 (conj Hcin Hi)). specialize (H2 (conj Hin eq_refl)). congruence.
      * rewrite (Hf server Hdl). split; [intros (_ & ? & ?); right; by split_and!|].
        intros [Hone|(_ & _ & _ & ? & ?)]; [by destruct Hl; rewrite Hone|by split_and!].
Qed.

Lemma server_selected_iff offer metadata servers s server :
  select_authorization_server offer metadata servers (Some s) = Ok server
  <-> ServerSelected offer metadata servers s server.
Proof.
  unfold select_authorization_server.
  destruct (bool_decide_reflect (offer_issuer offer = credential_issuer metadata)) as [Hi|Hi]; simpl;
    [|by split; [done|intros []]].
  destruct (authorization_code_eligible offer) eqn:Hg; simpl;
    [|by split; [done|intros []; congruence]].
  destruct (check_servers _ servers []) as [[]|e] eqn:Hc.
  2:{ split; [done|]. intros [_ _ Ha Hd _ _ _].
      assert (Ok tt = (Err e : result unit ProfileSelectionError)); [|done].
      rewrite <- Hc. symmetry. apply check_servers_iff. split; [|done].
      intros x Hx. split; [by apply Ha|]. apply not_elem_of_nil. }
  apply check_servers_iff in Hc as [Ha' Hd].
  assert (Ha : forall x, x ∈ servers -> issuer x ∈ authorization_servers metadata).
  { intros x Hx. by apply (Ha' x). }
  clear Ha'. cbn beta iota. split.
  - intros H. ok_steps H. ok_norm. injection H as <-.
    match goal with Hf : List.find _ _ = Some _ |- _ => apply find_issuer in Hf as [Hin Ht]; [|done] end.
    match goal with Hs : authorization_server_supports_scope _ _ = true |- _ =>
      pose proof (proj1 (supports_scope_iff _ _) Hs) as Hscope end.
    split; try done. apply target_known; [done..|]. by rewrite Ht.
  - intros [_ _ _ _ Hin Ht Hs].
    rewrite (proj2 (target_known offer metadata servers s server Ha Hd Hin Hs) Ht).
    rewrite (proj2 (find_issuer servers (issuer server) server Hd) (conj Hin eq_refl)). cbn [ok_or].
    by rewrite (proj2 (supports_scope_iff server s) Hs).
Qed.

(** ** When there is a plan *)

(** What first enrolment asks of a configuration: one of the two formats with
    its type, binding and signature algorithm, and a proof by an attested key. *)
Definition es256_only (l : list AlgorithmIdentifier) : Prop :=
  Jose "ES256" ∈ l /\ forall a, a ∈ l -> is_jose a = true.

Definition offers_binding (c : CredentialConfiguration) (binding : string) : Prop :=
  exists l, cryptographic_binding_methods_supported c = Some l /\ binding ∈ l.

Inductive PidProfile (c : CredentialConfiguration)
  : GermanPidFormat -> HolderBindingMethod -> CredentialSigningAlgorithm -> Prop :=
| mdoc_pid algorithms :
    configuration_format c = "mso_mdoc"%string ->
    configuration_doctype c = Some MDOC_PID_DOCTYPE -> configuration_vct c = None ->
    offers_binding c "cose_key" ->
    credential_signing_algorithms c = Some algorithms -> Cose (-7) ∈ algorithms ->
    (forall a, a ∈ algorithms -> is_jose a = false) ->
    PidProfile c MsoMdoc CoseKey CoseEs256
| sd_jwt_pid algorithms :
    configuration_format c = "dc+sd-jwt"%string ->
    configuration_vct c = Some SD_JWT_PID_VCT -> configuration_doctype c = None ->
    offers_binding c "jwk" ->
    credential_signing_algorithms c = Some algorithms -> es256_only algorithms ->
    PidProfile c DcSdJwt Jwk JoseEs256.

Definition includes_high (values : option (list string)) : Prop :=
  exists l, values = Some l /\ "iso_18045_high"%string ∈ l.

Definition jwt_proof (c : CredentialConfiguration) (jwt : ProofTypeMetadata) : Prop :=
  exists types, proof_types_supported c = Some types /\ bt_get types "jwt" = Some jwt.

Definition AttestedProof (c : CredentialConfiguration) : Prop :=
  exists jwt attestation,
    jwt_proof c jwt /\ es256_only (signing_algorithms jwt)
    /\ key_attestations_required jwt = Some attestation
    /\ includes_high (key_storage attestation) /\ includes_high (user_authentication attestation).

(** The features of a server that a plan relies on. *)
Definition hardened (f : AuthorizationServerFeatureFlags) : bool :=
  f_authorization_code f && f_response_type_code f && f_pkce_s256 f && f_dpop_es256 f
  && f_authorization_response_issuer f.

(** A plan takes its parties, scope and endpoints from the documents. *)
Record Planned (offer : CredentialOffer) (metadata : CredentialIssuerMetadata)
    (servers : list AuthorizationServerMetadata) (id : string) (c : CredentialConfiguration)
    (server : AuthorizationServerMetadata) : Prop := {
  planned_offered : id ∈ credential_configuration_ids offer;
  planned_configuration : bt_get (credential_configurations_supported metadata) id = Some c;
  planned_server : exists s, scope c = Some s /\ s <> ""%string /\ ServerSelected offer metadata servers s server;
  planned_hardened : hardened (features server) = true;
  planned_nonce : is_some (nonce_endpoint metadata) = true;
  planned_authorization : is_some (authorization_endpoint server) = true;
  planned_token : is_some (token_endpoint server) = true;
  planned_par : is_some (pushed_authorization_request_endpoint server) = true;
}.

(** The plan of the German profile, member by member. *)
Definition german_members (metadata : CredentialIssuerMetadata) (id : string) (c : CredentialConfiguration)
    (server : AuthorizationServerMetadata) (plan : GermanPidIssuancePlan) : Prop :=
  plan_issuer plan = credential_issuer metadata /\ plan_server plan = issuer server
  /\ plan_configuration_id plan = id /\ scope c = Some (plan_scope plan)
  /\ plan_proof_signing_algorithm plan = "ES256"%string
  /\ plan_credential_endpoint plan = credential_endpoint metadata
  /\ nonce_endpoint metadata = Some (plan_nonce_endpoint plan)
  /\ plan_deferred_credential_endpoint plan = deferred_credential_endpoint metadata
  /\ authorization_endpoint server = Some (plan_authorization_endpoint plan)
  /\ token_endpoint server = Some (plan_token_endpoint plan)
  /\ pushed_authorization_request_endpoint server = Some (plan_par_endpoint plan)
  /\ plan_pid_provider_trust plan = Unresolved.

Definition generic_members (metadata : CredentialIssuerMetadata) (policy : SdJwtCredentialPolicy)
    (c : CredentialConfiguration) (server : AuthorizationServerMetadata)
    (plan : GenericCredentialIssuancePlan) : Prop :=
  generic_issuer plan = credential_issuer metadata /\ generic_server plan = issuer server
  /\ generic_configuration_id plan = policy_configuration_id policy
  /\ generic_expected_vct plan = policy_vct policy /\ scope c = Some (generic_scope plan)
  /\ generic_credential_endpoint plan = credential_endpoint metadata
  /\ nonce_endpoint metadata = Some (generic_nonce_endpoint plan)
  /\ generic_deferred_credential_endpoint plan = deferred_credential_endpoint metadata
  /\ authorization_endpoint server = Some (generic_authorization_endpoint plan)
  /\ token_endpoint server = Some (generic_token_endpoint plan)
  /\ pushed_authorization_request_endpoint server = Some (generic_par_endpoint plan)
  /\ generic_assurance plan = policy_assurance policy
  /\ generic_pid_prerequisite plan = policy_pid_prerequisite policy.

(** The configuration a policy admits. *)
Definition PolicyProfile (c : CredentialConfiguration) (policy : SdJwtCredentialPolicy) : Prop :=
  configuration_format c = "dc+sd-jwt"%string /\ configuration_vct c = Some (policy_vct policy)
  /\ configuration_doctype c = None /\ offers_binding c "jwk"
  /\ (exists l, credential_signing_algorithms c = Some l /\ Jose "ES256" ∈ l)
  /\ (exists jwt, jwt_proof c jwt /\ Jose "ES256" ∈ signing_algorithms jwt).

Lemma es256_In l : existsb is_jose_es256 l = true <-> Jose "ES256" ∈ l.
Proof.
  rewrite existsb_exists, list_elem_of_In. split; [|intros ?; by exists (Jose "ES256")].
  intros ([name|n] & Hx & He); [|done]. by apply String.eqb_eq in He as ->.
Qed.

Lemma existsb_negb_forall {A} (f : A -> bool) l :
  existsb (fun a => negb (f a)) l = false <-> forall a, a ∈ l -> f a = true.
Proof.
  rewrite <- not_true_iff_false, existsb_exists. split.
  - intros H a Ha. apply not_false_iff_true. intros Hf. apply H. exists a.
    rewrite <- list_elem_of_In, Hf. done.
  - intros H (a & Ha & Hf%negb_true_iff). apply list_elem_of_In in Ha. rewrite H in Hf; done.
Qed.

Lemma existsb_false_forall {A} (f : A -> bool) l :
  existsb f l = false <-> forall a, a ∈ l -> f a = false.
Proof.
  rewrite <- not_true_iff_false, existsb_exists. split.
  - intros H a Ha. apply not_true_iff_false. intros Hf. apply H. exists a. by rewrite <- list_elem_of_In.
  - intros H (a & Ha & Hf). apply list_elem_of_In in Ha. rewrite H in Hf; done.
Qed.

Lemma contains_value_iff values : contains_value values "iso_18045_high" = true <-> includes_high values.
Proof.
  unfold contains_value, includes_high. rewrite contains_In. destruct values as [l|]; simpl.
  - split; [eauto|by intros (? & [= <-] & ?)].
  - split; [by intros ?%elem_of_nil|by intros (? & ? & _)].
Qed.

Lemma check_jwt_proof_iff jwt :
  check_jwt_proof jwt = Ok tt
  <-> es256_only (signing_algorithms jwt)
      /\ exists attestation, key_attestations_required jwt = Some attestation
         /\ includes_high (key_storage attestation) /\ includes_high (user_authentication attestation).
Proof.
  unfold check_jwt_proof, es256_only. rewrite <- es256_In, <- existsb_negb_forall. split.
  - intros H. ok_steps H. ok_norm. split; [done|]. eexists. split; [done|].
    by rewrite <- !contains_value_iff.
  - intros [[-> ->] (a & -> & Hs & Hu)]. cbn [negb ok_or].
    by rewrite (proj2 (contains_value_iff _) Hs), (proj2 (contains_value_iff _) Hu).
Qed.

Lemma pid_profile_iff c bindings algorithms f b a :
  cryptographic_binding_methods_supported c = Some bindings ->
  credential_signing_algorithms c = Some algorithms ->
  pid_profile c bindings algorithms = Ok (f, b, a) <-> PidProfile c f b a.
Proof.
  intros Hb Ha. unfold pid_profile. split.
  - intros H. destruct (_ && _ && _) eqn:E1 in H; [|destruct (_ && _ && _) eqn:E2 in H; [|done]].
    + ok_steps H. bool_prop. ok_norm. injection H as <- <- <-.
      econstructor; try first [done|by apply String.eqb_eq|by destruct (configuration_vct c)].
      * exists bindings. by rewrite <- contains_In.
      * by apply existsb_false_forall.
    + ok_steps H. bool_prop. ok_norm. injection H as <- <- <-.
      econstructor; try first [done|by apply String.eqb_eq|by destruct (configuration_doctype c)].
      * exists bindings. by rewrite <- contains_In.
      * split; [by apply es256_In|by apply existsb_negb_forall].
  - destruct 1 as [l Hf Ht Hv (l' & Hl & Hk) Hl2 Hc Hall | l Hf Hv Ht (l' & Hl & Hk) Hl2 [Hc Hall]].
    + rewrite Hf, Ht, Hv, bool_decide_eq_true_2 by done. cbn. simplify_eq.
      rewrite (proj2 (contains_In _ _) Hk), (proj2 (existsb_false_forall _ _) Hall).
      by rewrite bool_decide_eq_true_2.
    + rewrite Hf, Hv, Ht, (bool_decide_eq_true_2 (Some SD_JWT_PID_VCT = _)) by done. cbn. simplify_eq.
      by rewrite (proj2 (contains_In _ _) Hk), (proj2 (existsb_negb_forall _ _) Hall), (proj2 (es256_In _) Hc).
Qed.

Lemma hardened_iff f :
  hardened f = true
  <-> f_authorization_code f = true /\ f_response_type_code f = true /\ f_pkce_s256 f = true
      /\ f_dpop_es256 f = true /\ f_authorization_response_issuer f = true.
Proof. unfold hardened. rewrite !andb_true_iff. tauto. Qed.

Lemma attested_iff c :
  AttestedProof c
  <-> exists types jwt, proof_types_supported c = Some types /\ bt_get types "jwt" = Some jwt
                        /\ check_jwt_proof jwt = Ok tt.
Proof.
  unfold AttestedProof, jwt_proof. split.
  - intros (jwt & a & (types & ? & ?) & ? & ? & ? & ?). exists types, jwt. split_and!; [done|done|].
    apply check_jwt_proof_iff. eauto.
  - intros (types & jwt & ? & ? & [? (a & ? & ? & ?)]%check_jwt_proof_iff). exists jwt, a. eauto 10.
Qed.

(** Discharges the tests that a success of the selection has passed. *)
Ltac use_tests :=
  repeat match goal with
  | H : ?b = true |- context [negb ?b] => rewrite H; cbn [negb]
  | H : ?b = false |- context [if ?b then _ else _] => rewrite H; cbv iota
  | H : ?o = Some _ |- context [ok_or ?o _] => rewrite H; cbn [ok_or]
  | H : ?r = Ok _ |- context [match ?r with Ok _ => _ | Err _ => _ end] => rewrite H; cbv beta iota
  end.

(** C33: first enrolment in Germany gets a plan exactly when the documents agree:
    the offer, of the issuer whose metadata this is, allows the code flow and
    names the chosen configuration; that configuration has the type, holder
    binding and signature algorithm of one of the two PID formats and a proof
    by a key with high attested assurance; no message encryption is required;
    and the one server they determine supports PKCE, DPoP, pushed requests and
    issuer identification for the configuration's scope.  The plan holds the
    addresses of those documents. *)
Theorem german_plan_iff offer metadata servers id plan :
  select_german_first_enrolment offer metadata servers id = Ok plan
  <-> exists c server, Planned offer metadata servers id c server
      /\ credential_request_encryption_required (issuer_features metadata) = false
      /\ credential_response_encryption_required (issuer_features metadata) = false
      /\ AttestedProof c
      /\ PidProfile c (plan_format plan) (plan_holder_binding plan) (plan_credential_signing_algorithm plan)
      /\ german_members metadata id c server plan.
Proof.
  unfold select_german_first_enrolment. split.
  - intros H. ok_steps H. match type of H with context [let (_, _) := ?t in _] => destruct t as [[f b] al] end. ok_steps H. ok_norm. injection H as <-.
    match goal with Hn : nonempty_scope _ = Some _ |- _ => apply nonempty_scope_iff in Hn as [Hsc Hne] end.
    match goal with Hs : select_authorization_server _ _ _ _ = Ok _ |- _ => apply server_selected_iff in Hs as Hsel end.
    match goal with Hc : contains _ _ = true |- _ => apply contains_In in Hc end.
    do 2 eexists. split_and!.
    + split; try done; eauto. 1: by apply hardened_iff. all: apply is_some_iff; eauto.
    + done.
    + done.
    + apply attested_iff. eauto.
    + cbn [plan_format plan_holder_binding plan_credential_signing_algorithm]. by eapply pid_profile_iff.
    + by split_and!.
  - intros (c & server & [Hid Hc (s & Hs & Hne & Hsel) Hh _ _ _ _] & Hq & Hr & Hatt & Hp & Hm).
    assert (bool_decide (offer_issuer offer = credential_issuer metadata) = true) as Hi
      by (apply bool_decide_eq_true_2; by destruct Hsel).
    pose proof (selected_grant _ _ _ _ _ Hsel) as Hg.
    apply server_selected_iff in Hsel. apply contains_In in Hid.
    apply attested_iff in Hatt as (types & jwt & Ht & Hj & Hjc).
    pose proof (proj2 (nonempty_scope_iff c s) (conj Hs Hne)) as Hns.
    apply hardened_iff in Hh as (Hh1 & Hh2 & Hh3 & Hh4 & Hh5).
    assert (exists l k, cryptographic_binding_methods_supported c = Some l
                        /\ credential_signing_algorithms c = Some k) as (l & k & Hl & Hk)
      by (destruct Hp as [? ? ? ? (? & ? & ?)|? ? ? ? (? & ? & ?)]; eauto).
    apply (pid_profile_iff c l k _ _ _ Hl Hk) in Hp.
    destruct Hm as (M1 & M2 & M3 & M4 & M5 & M6 & M7 & M8 & M9 & M10 & M11 & M12).
    use_tests. destruct plan. cbn in *. by simplify_eq.
Qed.

Lemma contains_value_In values v :
  contains_value values v = true <-> exists l, values = Some l /\ v ∈ l.
Proof.
  unfold contains_value. rewrite contains_In. destruct values as [l|]; simpl.
  - split; [eauto|by intros (? & [= <-] & ?)].
  - split; [by intros ?%elem_of_nil|by intros (? & ? & _)].
Qed.

Lemma es256_default o :
  existsb is_jose_es256 (unwrap_or o []) = true <-> exists l, o = Some l /\ Jose "ES256" ∈ l.
Proof.
  rewrite es256_In. destruct o as [l|]; simpl.
  - split; [eauto|by intros (? & [= <-] & ?)].
  - split; [by intros ?%elem_of_nil|by intros (? & ? & _)].
Qed.

(** a credential is planned under a policy of the wallet exactly when the
    offer names the policy's configuration and the issuer's metadata gives it
    the policy's type, with a key binding and ES256 signatures and proofs, at
    the one server that the documents determine.  Class and prerequisite of the
    plan are the policy's, never the issuer's. *)
Theorem policy_plan_iff offer metadata servers policy plan :
  select_policy_registered_sd_jwt offer metadata servers policy = Ok plan
  <-> policy_is_bounded policy = true
      /\ exists c server, Planned offer metadata servers (policy_configuration_id policy) c server
         /\ PolicyProfile c policy /\ generic_members metadata policy c server plan.
Proof.
  unfold select_policy_registered_sd_jwt. split.
  - intros H. ok_steps H. ok_norm. injection H as <-.
    match goal with Hn : nonempty_scope _ = Some _ |- _ => apply nonempty_scope_iff in Hn as [Hsc Hne] end.
    match goal with Hs : select_authorization_server _ _ _ _ = Ok _ |- _ => apply server_selected_iff in Hs as Hsel end.
    match goal with Hc : contains _ _ = true |- _ => apply contains_In in Hc end.
    ok_norm. split; [done|]. do 2 eexists. split_and!.
    + split; try done; eauto. 1: by apply hardened_iff. all: apply is_some_iff; eauto.
    + match goal with Hj : (let! types := proof_types_supported ?c in _) = Some ?j |- _ =>
        destruct (proof_types_supported c) as [types|] eqn:Hty; [|done] end.
      split_and!; [by apply String.eqb_eq|done|by destruct (configuration_doctype _)| | |].
      * by apply contains_value_In.
      * by apply es256_default.
      * eexists. split; [by exists types|]. by apply es256_In.
    + by split_and!.
  - intros (Hb & c & server & [Hid Hc (s & Hs & Hne & Hsel) Hh _ _ _ _] & Hp & Hm).
    assert (bool_decide (offer_issuer offer = credential_issuer metadata) = true) as Hi
      by (apply bool_decide_eq_true_2; by destruct Hsel).
    pose proof (selected_grant _ _ _ _ _ Hsel) as Hg.
    apply server_selected_iff in Hsel. apply contains_In in Hid.
    pose proof (proj2 (nonempty_scope_iff c s) (conj Hs Hne)) as Hns.
    apply hardened_iff in Hh as (Hh1 & Hh2 & Hh3 & Hh4 & Hh5).
    destruct Hp as (P1 & P2 & P3 & P4%contains_value_In & P5%es256_default & jwt & (types & P6 & P7) & P8%es256_In).
    destruct Hm as (M1 & M2 & M3 & M4 & M5 & M6 & M7 & M8 & M9 & M10 & M11 & M12 & M13).
    use_tests. rewrite P1, P2, P3, bool_decide_eq_true_2, P6 by done. cbn [negb orb is_some String.eqb].
    use_tests. destruct plan. cbn in *. by simplify_eq.
Qed.
(** ** A sample enrolment *)

Module Examples.

Definition home : HttpsIdentifier := {| identifier := "https://issuer.example" |}.

Definition offer : CredentialOffer := {|
  offer_issuer := home; credential_configuration_ids := ["pid"%string];
  authorization_code := Some {| issuer_state := None; auth_server_hint := None |};
  pre_authorized_grant := None; grant_source := Explicit |}.

Definition server (par : bool) : AuthorizationServerMetadata := {|
  issuer := home;
  authorization_endpoint := Some {| endpoint := "https://issuer.example/a" |};
  token_endpoint := Some {| endpoint := "https://issuer.example/t" |};
  pushed_authorization_request_endpoint := if par then Some {| endpoint := "https://issuer.example/p" |} else None;
  jwks_uri := None; scopes_supported := Some ["pid"%string];
  grant_types_supported := ["authorization_code"]%string; response_types_supported := ["code"]%string;
  code_challenge_methods_supported := ["S256"]%string; dpop_signing_alg_values_supported := ["ES256"]%string;
  features := {| f_authorization_code := true; f_response_type_code := true; f_par := par; f_par_required := false;
                 f_pkce_s256 := true; f_dpop_es256 := true; f_authorization_response_issuer := true |} |}.

Definition enrol (servers : list AuthorizationServerMetadata) (id : string) : result string ProfileSelectionError :=
  match Metadata.Examples.sample with
  | Ok metadata =>
      let? plan := select_german_first_enrolment offer metadata servers id in
      Ok (endpoint (plan_par_endpoint plan))
  | Err _ => Err ConfigurationUnknown
  end.

Example enrolments :
  enrol [server true] "pid" = Ok "https://issuer.example/p"%string
  /\ enrol [server false] "pid" = Err ParUnsupported
  /\ enrol [server true; server false] "pid" = Err AmbiguousAuthorizationServer
  /\ enrol [] "pid" = Err AuthorizationServerMetadataMissing
  /\ enrol [server true] "mdoc" = Err ConfigurationNotOffered.
Proof. split_and!; vm_compute; reflexivity. Qed.
End Examples.
