(* ===== verification/OAuthText.v ===== *)
(** * Text of the OAuth requests and responses (crates/oid4vci/src/authorization.rs)

    The lexical checks of the authorization-code transport: percent encoding
    and forms, compact JWTs, header values, media types and the character
    classes of OAuth.  A string is taken as its UTF-8 bytes. *)

From stdpp Require Import list.
From S2P Require Import Prelude Utf8 BTree Boundary Oid4vp BoundedJson HttpsUrls.

Open Scope Z_scope.
Open Scope rust_scope.

Definition MAX_WALLET_ATTESTATION_BYTES : Z := 32 * 1024.
Definition MAX_WALLET_ATTESTATION_POP_BYTES : Z := 16 * 1024.
Definition MAX_DPOP_NONCE_BYTES : Z := 2048.
Definition MAX_REQUEST_URI_BYTES : Z := 2048.

Inductive AuthorizationError : Type :=
| InvalidConfiguration | OfferPlanMismatch | InvalidClock | RandomnessFailure | UnexpectedInput
| CorrelationMismatch | ClientAuthenticationBindingMismatch | ClientAuthenticationInvalid
| ClientAuthenticationReused | DpopSigningResultMismatch | DpopSignatureInvalid | DpopNonceInvalid
| DpopNonceStale | DpopNonceRetryLimit | TransportBindingMismatch | InvalidMediaType | CachePolicyMissing
| InvalidParResponse | ParRejected | RedirectMismatch | InvalidAuthorizationCallback | StateMismatch
| AuthorizationIssuerMismatch | AuthorizationDenied | InvalidTokenResponse | TokenTypeDowngrade
| TokenRejected | AlreadyTerminal.

#[export] Instance authorization_error_eq_decision : EqDecision AuthorizationError.
Proof. solve_decision. Defined.

(** ** Character classes *)

Definition is_nqchar (b : byte) : bool := in_range 33 126 (byte.unsigned b).

Definition is_base64url_unpadded (value : bytes) : bool := negb (is_empty value) && forallb is_b64url value.

(** [%x20-21 / %x23-5B / %x5D-7E]. *)
Definition error_byte (b : byte) : bool :=
  let x := byte.unsigned b in in_range 32 33 x || in_range 35 91 x || in_range 93 126 x.

Definition scope_token_byte (b : byte) : bool :=
  let x := byte.unsigned b in (x =? 33) || in_range 35 91 x || in_range 93 126 x.

Definition valid_bounded_text (value : string) (max : Z) (allow_empty : bool) : bool :=
  (allow_empty || negb (sis_empty value)) && (slen value <=? max) && negb (any_control value).

Definition valid_scope (value : string) : bool :=
  valid_bounded_text value 512 false && forallb scope_token_byte (as_bytes value).

Definition valid_token_value (value : string) : bool :=
  negb (sis_empty value) && forallb is_nqchar (as_bytes value).

Definition valid_oauth_error_code (value : string) : bool :=
  negb (sis_empty value) && (slen value <=? 128) && forallb error_byte (as_bytes value).

Definition from_hex (value : byte) : option Z := hex_value value.

Definition is_ascii (b : bytes) : bool := forallb (fun x => byte.unsigned x <=? 127) b.

(** [str::trim] of an ASCII string. *)
Definition ascii_whitespace (b : byte) : bool :=
  let x := byte.unsigned b in in_range 9 13 x || (x =? 32).

Fixpoint trim_start (b : bytes) : bytes :=
  match b with
  | x :: r => if ascii_whitespace x then trim_start r else b
  | [] => []
  end.

Definition trim_ascii (b : bytes) : bytes := rev (trim_start (rev (trim_start b))).

(** Every byte is compared, whatever the ones before it were. *)
Fixpoint difference (max : nat) (a b : bytes) : Z :=
  match max with
  | O => 0
  | S max =>
      Z.lor (Z.lxor (byte.unsigned (List.hd Byte.x00 a)) (byte.unsigned (List.hd Byte.x00 b)))
        (difference max (List.tl a) (List.tl b))
  end.

Definition ct_eq (a b : bytes) : bool :=
  Z.lor (Z.lxor (len a) (len b)) (difference (Nat.max (length a) (length b)) a b) =? 0.

(** ** Percent encoding and forms *)

Definition upper_hex_digit (n : Z) : byte := byte.of_Z (if n <? 10 then 48 + n else 55 + n).

Definition percent_byte (b : byte) : bytes :=
  if is_unreserved b then [b]
  else [Byte.x25; upper_hex_digit (Z.shiftr (byte.unsigned b) 4); upper_hex_digit (Z.land (byte.unsigned b) 15)].

Definition percent_encode (value : bytes) : bytes := flat_map percent_byte value.

Definition append_percent_encoded (output value : bytes) : bytes := output ++ percent_encode value.

(** The loop of [percent_decode]. *)
Fixpoint percent_loop (max : Z) (output input : bytes) {struct input} : result bytes AuthorizationError :=
  match input with
  | [] => Ok output
  | b :: r =>
      if max <=? len output then Err InvalidAuthorizationCallback
      else if Byte.eqb b Byte.x2b then percent_loop max (output ++ [Byte.x20]) r
      else if Byte.eqb b Byte.x25 then
        match r with
        | h :: l :: r =>
            match from_hex h, from_hex l with
            | Some high, Some low =>
                percent_loop max (output ++ [byte.of_Z (Z.lor (Z.shiftl high 4) low)]) r
            | _, _ => Err InvalidAuthorizationCallback
            end
        | _ => Err InvalidAuthorizationCallback
        end
      else percent_loop max (output ++ [b]) r
  end.

Definition percent_decode (input : bytes) (max : Z) : result string AuthorizationError :=
  let? output := percent_loop max [] input in
  ok_or (from_utf8 output) InvalidAuthorizationCallback.

Fixpoint form_fields (index : nat) (fields : list (string * string)) (output : bytes) : bytes :=
  match fields with
  | [] => output
  | (name, value) :: fields =>
      let output := if Nat.eqb index 0 then output else output ++ [Byte.x26] in
      let output := append_percent_encoded output (as_bytes name) in
      let output := output ++ [Byte.x3d] in
      form_fields (S index) fields (append_percent_encoded output (as_bytes value))
  end.

Definition encode_form (fields : list (string * string)) : result bytes AuthorizationError :=
  if is_empty fields || (16 <? len fields) then Err InvalidConfiguration
  else
    let output := form_fields 0 fields [] in
    if 64 * 1024 <? len output then Err InvalidConfiguration else Ok output.

Definition field_name_ok (name : string) : bool :=
  negb (sis_empty name) && is_ascii (as_bytes name) && negb (any_control name).

Fixpoint parse_pairs (max_fields max_value_bytes : Z) (pairs : list bytes) (result_ : BTreeMap string string)
  : result (BTreeMap string string) AuthorizationError :=
  match pairs with
  | [] => Ok result_
  | field :: pairs =>
      if is_empty field || (max_fields <=? len result_) then Err InvalidAuthorizationCallback
      else
        let? (name, value) := ok_or (split_at_byte Byte.x3d field) InvalidAuthorizationCallback in
        let? name := percent_decode name 128 in
        let? value := percent_decode value max_value_bytes in
        if negb (field_name_ok name) || bt_contains result_ name then Err InvalidAuthorizationCallback
        else parse_pairs max_fields max_value_bytes pairs (bt_insert name value result_)
  end.

Definition parse_form (input : bytes) (max_bytes max_fields max_value_bytes : Z)
  : result (BTreeMap string string) AuthorizationError :=
  if is_empty input || (max_bytes <? len input) then Err InvalidAuthorizationCallback
  else parse_pairs max_fields max_value_bytes (split_byte Byte.x26 input) [].

Definition contains_query (endpoint : bytes) : bool := has_byte Byte.x3f endpoint.

Definition build_authorization_url (endpoint client_id request_uri : string) : bytes :=
  let separator := if contains_query (as_bytes endpoint) then as_bytes "&" else as_bytes "?" in
  as_bytes endpoint ++ separator ++ as_bytes "client_id=" ++ percent_encode (as_bytes client_id)
  ++ as_bytes "&request_uri=" ++ percent_encode (as_bytes request_uri).

(** The endpoint without its query. *)
Definition dpop_htu (endpoint : string) : string :=
  match split_at_byte Byte.x3f (as_bytes endpoint) with
  | Some (base, _) => string_of_list_byte base
  | None => endpoint
  end.

(** ** Compact JWTs and URI references *)

Section jwt.
Context `{B64 : Base64}.

Definition base64url (b : bytes) : string := encode_string b.

(** One segment of a compact JWT: canonical base64url of something. *)
Definition segment_valid (segment : bytes) (max : Z) : bool :=
  negb (is_empty segment) && is_base64url_unpadded segment && negb (max <? len segment)
  && match decode_vec (string_of_list_byte segment) with
     | Some decoded =>
         negb (is_empty decoded) && bool_decide (as_bytes (encode_string decoded) = segment)
     | None => false
     end.

Definition validate_compact_jwt (value : string) (max : Z) : result unit AuthorizationError :=
  if sis_empty value || (max <? slen value) then Err ClientAuthenticationInvalid
  else
    match split_byte Byte.x2e (as_bytes value) with
    | [a; b; c] =>
        if segment_valid a max && segment_valid b max && segment_valid c max then Ok tt
        else Err ClientAuthenticationInvalid
    | _ => Err ClientAuthenticationInvalid
    end.
End jwt.

Definition is_uri_character (b : byte) : bool :=
  is_unreserved b || one_of_bytes (as_bytes ":/?@!$&'()*+,;=") b.

Fixpoint uri_characters (b : bytes) : bool :=
  match b with
  | [] => true
  | x :: r =>
      if Byte.eqb x Byte.x25 then
        match r with
        | h :: l :: r => is_some (from_hex h) && is_some (from_hex l) && uri_characters r
        | _ => false
        end
      else is_uri_character x && uri_characters r
  end.

Definition scheme_byte (b : byte) : bool := is_ascii_alphanumeric b || one_of_bytes (as_bytes "+-.") b.

Definition valid_uri_reference (value : string) : bool :=
  let v := as_bytes value in
  valid_bounded_text value MAX_REQUEST_URI_BYTES false && is_ascii v && negb (has_byte Byte.x23 v)
  && negb (existsb (fun b => Byte.eqb b Byte.x20 || Byte.eqb b Byte.x5c) v)
  && match split_at_byte Byte.x3a v with
     | Some (scheme, remainder) =>
         negb (is_empty remainder)
         && match scheme with b :: _ => is_ascii_upper b || is_ascii_lower b | [] => false end
         && forallb scheme_byte scheme && uri_characters remainder
     | None => false
     end.

(** ** Header values *)

Definition same_word (b : bytes) (word : string) : bool := eq_ignore_ascii_case b (as_bytes word).

Definition is_utf8_charset (value : bytes) : bool :=
  same_word value "utf-8"
  || eq_ignore_ascii_case value ([Byte.x22] ++ as_bytes "utf-8" ++ [Byte.x22]).

(** The loop over the parameters of a media type. *)
Fixpoint charset_parameters (saw_charset : bool) (parameters : list bytes) : bool :=
  match parameters with
  | [] => true
  | parameter :: parameters =>
      match split_at_byte Byte.x3d (trim_ascii parameter) with
      | Some (name, value) =>
          if saw_charset || negb (same_word (trim_ascii name) "charset") then false
          else if negb (is_utf8_charset (trim_ascii value)) then false
          else charset_parameters true parameters
      | None => false
      end
  end.

Definition is_json_media_type (value : bytes) : bool :=
  match split_byte Byte.x3b value with
  | media_type :: parameters =>
      same_word (trim_ascii media_type) "application/json" && charset_parameters false parameters
  | [] => false
  end.

Definition valid_json_content_type (value : string) : bool :=
  negb (sis_empty value) && (slen value <=? 128) && is_ascii (as_bytes value) && negb (any_control value)
  && is_json_media_type (as_bytes value).

Definition header_byte (b : byte) : bool := Byte.eqb b Byte.x09 || in_range 32 126 (byte.unsigned b).

Definition raw_header_ok (value : string) : bool :=
  negb (sis_empty value) && (slen value <=? 1024) && is_ascii (as_bytes value)
  && forallb header_byte (as_bytes value).

Definition validate_raw_header_values (values : list string) : result unit AuthorizationError :=
  if is_empty values || (8 <? len values) || existsb (fun value => negb (raw_header_ok value)) values
  then Err CachePolicyMissing else Ok tt.

(** [value.split(',').map(str::trim)]. *)
Definition directives (value : string) : list bytes := map trim_ascii (split_byte Byte.x2c (as_bytes value)).

Definition has_directive (values : list string) (required : string) : bool :=
  existsb (fun value => existsb (fun d => same_word d required) (directives value)) values.

Definition cache_control_has (values : list string) (required : string) : result bool AuthorizationError :=
  let? _ := validate_raw_header_values values in Ok (has_directive values required).

Definition pragma_has_no_cache (values : list string) : result bool AuthorizationError :=
  let? _ := validate_raw_header_values values in Ok (has_directive values "no-cache").

Definition parse_single_dpop_nonce (values : list string) : result (option string) AuthorizationError :=
  match values with
  | [] => Ok None
  | [value] =>
      if negb (sis_empty value) && (slen value <=? MAX_DPOP_NONCE_BYTES) && forallb is_nqchar (as_bytes value)
      then Ok (Some value) else Err DpopNonceInvalid
  | _ => Err DpopNonceInvalid
  end.

Definition validate_clock (now_epoch_seconds : Z) : result unit AuthorizationError :=
  if now_epoch_seconds <=? 0 then Err InvalidClock else Ok tt.

(** ** Comparison *)

Lemma byte_unsigned_inj x y : byte.unsigned x = byte.unsigned y -> x = y.
Proof. intros H. rewrite <- (byte.of_Z_unsigned x), <- (byte.of_Z_unsigned y). by rewrite H. Qed.

Lemma lor_zero a b : Z.lor a b = 0 <-> a = 0 /\ b = 0.
Proof. apply Z.lor_eq_0_iff. Qed.

Lemma difference_same a b n : length a = length b -> length a = n -> difference n a b = 0 <-> a = b.
Proof.
  revert a b. induction n as [|n IH]; intros [|x a] [|y b] Hl Hn; simpl in *; try lia; [done|].
  rewrite lor_zero, IH by lia. rewrite Z.lxor_eq_0_iff. split.
  - by intros [->%byte_unsigned_inj ->].
  - by intros [= -> ->].
Qed.

Lemma ct_eq_iff a b : ct_eq a b = true <-> a = b.
Proof.
  unfold ct_eq. rewrite Z.eqb_eq, lor_zero, Z.lxor_eq_0_iff. split.
  - intros [Hl H]. unfold len in Hl. assert (E : length a = length b) by lia.
    rewrite E, Nat.max_id in H. by apply difference_same in H.
  - intros ->. split; [done|]. rewrite Nat.max_id. by apply difference_same.
Qed.

Lemma ct_eq_false a b : ct_eq a b = false <-> a <> b.
Proof. rewrite <- not_true_iff_false, ct_eq_iff. done. Qed.

(** ** Forms *)

Lemma upper_hex_digits b :
  exists h l, percent_byte b = [b] /\ is_unreserved b = true
    \/ percent_byte b = [Byte.x25; h; l] /\ is_unreserved b = false
       /\ is_unreserved h = true /\ is_unreserved l = true
       /\ exists x y, from_hex h = Some x /\ from_hex l = Some y /\ byte.of_Z (Z.lor (Z.shiftl x 4) y) = b.
Proof.
  exists (upper_hex_digit (Z.shiftr (byte.unsigned b) 4)), (upper_hex_digit (Z.land (byte.unsigned b) 15)).
  destruct b; first [left; split; reflexivity|right; split_and!; try reflexivity; do 2 eexists; split_and!; reflexivity].
Qed.

(** What an encoded value cannot contain. *)
Definition form_special (b : byte) : bool := one_of_bytes [Byte.x25; Byte.x26; Byte.x2b; Byte.x3d] b.

Lemma unreserved_plain b : is_unreserved b = true -> form_special b = false.
Proof. by destruct b. Qed.

Lemma percent_free c v : form_special c = true -> c <> Byte.x25 -> free_of c (percent_encode v) = true.
Proof.
  intros Hs Hc. unfold free_of, percent_encode. induction v as [|b v IH]; [done|].
  cbn [flat_map]. rewrite forallb_app, IH, andb_true_r.
  assert (Hu : forall x, is_unreserved x = true -> negb (Byte.eqb x c) = true).
  { intros x Hx. apply negb_true_iff, not_true_iff_false. intros ->%Byte.byte_dec_bl.
    by rewrite (unreserved_plain c Hx) in Hs. }
  destruct (upper_hex_digits b) as (h & l & [[-> Hb]|(-> & _ & Hh & Hl & _)]); cbn [forallb].
  - by rewrite (Hu b Hb).
  - rewrite (Hu h Hh), (Hu l Hl), !andb_true_r. apply negb_true_iff, not_true_iff_false.
    by intros He%Byte.byte_dec_bl.
Qed.

Lemma percent_encode_nil v : percent_encode v = [] -> v = [].
Proof.
  destruct v as [|b v]; [done|]. cbn. intros [H _]%app_eq_nil. exfalso.
  destruct (upper_hex_digits b) as (h & l & [[E _]|(E & _)]); by rewrite E in H.
Qed.

Lemma percent_loop_hex max out h l r x y :
  (max <=? len out) = false -> from_hex h = Some x -> from_hex l = Some y ->
  percent_loop max out (Byte.x25 :: h :: l :: r)
  = percent_loop max (out ++ [byte.of_Z (Z.lor (Z.shiftl x 4) y)]) r.
Proof.
  intros H1 H2 H3. cbn [percent_loop]. rewrite H1.
  change (Byte.eqb Byte.x25 Byte.x2b) with false. change (Byte.eqb Byte.x25 Byte.x25) with true. cbv iota.
  by rewrite H2, H3.
Qed.

Lemma percent_loop_encode max out v :
  len out + len v <= max -> percent_loop max out (percent_encode v) = Ok (out ++ v).
Proof.
  revert out. induction v as [|b v IH]; intros out Hm; cbn [percent_encode flat_map].
  { by rewrite app_nil_r. }
  rewrite len_cons in Hm. pose proof (len_nonneg v).
  assert (Hl : (max <=? len out) = false) by lia.
  assert (Hn : forall x, len (out ++ [x]) + len v <= max) by (intros; rewrite len_app, len_cons, len_nil; lia).
  destruct (upper_hex_digits b) as (h & l & [[-> Hb]|(-> & _ & _ & _ & x & y & Hx & Hy & He)]).
  - cbn [app percent_loop]. rewrite Hl. apply unreserved_plain in Hb.
    assert (Byte.eqb b Byte.x2b = false /\ Byte.eqb b Byte.x25 = false) as [-> ->] by (by destruct b).
    fold (percent_encode v). rewrite IH by apply Hn. by rewrite <- app_assoc.
  - fold (percent_encode v). cbn [app]. rewrite (percent_loop_hex _ _ _ _ _ x y), He by done.
    rewrite IH by apply Hn. by rewrite <- app_assoc.
Qed.

Lemma percent_decode_encode s max :
  is_str s = true -> slen s <= max -> percent_decode (percent_encode (as_bytes s)) max = Ok s.
Proof.
  intros Hs Hl. unfold percent_decode. rewrite percent_loop_encode by (rewrite len_nil; unfold slen in Hl; lia).
  cbn [app]. by rewrite from_utf8_as_bytes.
Qed.

(** One field, and the text of all. *)
Definition field_text (f : string * string) : bytes :=
  percent_encode (as_bytes (fst f)) ++ Byte.x3d :: percent_encode (as_bytes (snd f)).

Lemma form_fields_text index fields out :
  fields <> [] ->
  form_fields index fields out
  = out ++ (if Nat.eqb index 0 then [] else [Byte.x26]) ++ join_byte Byte.x26 (map field_text fields).
Proof.
  revert index out. induction fields as [|[n v] fields IH]; intros index out Hne; [done|].
  cbn [form_fields map]. unfold append_percent_encoded.
  destruct fields as [|f fields].
  - cbn [form_fields map join_byte]. unfold field_text. cbn [fst snd].
    destruct (Nat.eqb index 0); cbn [app]; rewrite <- ?app_assoc; done.
  - rewrite IH by done. cbn [Nat.eqb map].
    change (field_text (n, v)) with (percent_encode (as_bytes n) ++ Byte.x3d :: percent_encode (as_bytes v)).
    destruct (Nat.eqb index 0); cbn [app join_byte]; rewrite <- ?app_assoc; cbn [app]; rewrite <- ?app_assoc; done.
Qed.

Record field_ok (max_value : Z) (f : string * string) : Prop := {
  field_name : field_name_ok (fst f) = true;
  field_name_str : is_str (fst f) = true;
  field_name_len : slen (fst f) <= 128;
  field_value_str : is_str (snd f) = true;
  field_value_len : slen (snd f) <= max_value;
}.

Lemma field_text_parts max f :
  field_ok max f ->
  is_empty (field_text f) = false
  /\ split_at_byte Byte.x3d (field_text f)
     = Some (percent_encode (as_bytes (fst f)), percent_encode (as_bytes (snd f))).
Proof.
  intros [Hn _ _ _ _]. unfold field_text. split.
  - destruct (percent_encode (as_bytes (fst f))) eqn:E; [|done]. apply percent_encode_nil in E.
    unfold field_name_ok, sis_empty in Hn. by rewrite E in Hn.
  - unfold split_at_byte. rewrite find_byte_app by (by apply percent_free).
    rewrite take_app_length. f_equal. f_equal.
    change (Byte.x3d :: ?l) with ([Byte.x3d] ++ l). rewrite app_assoc, drop_app_length'; [done|].
    rewrite length_app. simpl. lia.
Qed.

Lemma parse_pairs_fields max_fields max_value fields m :
  List.Forall (field_ok max_value) fields -> base.NoDup (map fst fields) ->
  (forall f, In f fields -> bt_contains m (fst f) = false) -> bt_ok m ->
  len m + len fields <= max_fields ->
  parse_pairs max_fields max_value (map field_text fields) m = Ok (bt_extend m fields).
Proof.
  intros Hf. revert m. induction Hf as [|[n v] fields Hok Hf IH]; intros m Hd Hm Hb Hl; [done|].
  rewrite len_cons in Hl. pose proof (len_nonneg fields). cbn [map parse_pairs].
  destruct (field_text_parts _ _ Hok) as [-> ->]. destruct Hok as [H1 H2 H3 H4 H5]. cbn [fst snd] in *.
  destruct (Z.leb_spec max_fields (len m)); [lia|]. cbn [orb ok_or].
  assert (Hc : bt_contains m n = false) by (apply (Hm (n, v)); by left).
  rewrite !percent_decode_encode by done. rewrite H1, Hc. cbn [negb orb].
  inversion Hd as [|? ? Hn Hd']; subst. apply IH; [done| |by apply bt_insert_ok|].
  - intros f Hin. unfold bt_contains. rewrite bt_get_insert. destruct (key_cmp (fst f) n) eqn:E.
    + apply key_cmp_eq in E. exfalso. apply Hn. rewrite <- E. apply list_elem_of_fmap.
      exists f. by rewrite list_elem_of_In.
    + apply (Hm f). by right.
    + apply (Hm f). by right.
  - unfold len in *. rewrite bt_insert_length by done. rewrite Hc. lia.
Qed.

Lemma field_text_free f : free_of Byte.x26 (field_text f) = true.
Proof.
  assert (Hp : forall v, free_of Byte.x26 (percent_encode v) = true) by (intros; by apply percent_free).
  unfold field_text, free_of in *. rewrite forallb_app. cbn [forallb]. by rewrite !Hp.
Qed.

(** The parameters of a request survive the form encoding: the body that
    encode_form writes for distinct names is read back, by the reader that the
    redirect goes through, as exactly those names and values.  No value can
    add, drop or change another parameter. *)
Theorem form_roundtrip fields body max_bytes max_fields max_value :
  encode_form fields = Ok body -> List.Forall (field_ok max_value) fields -> base.NoDup (map fst fields) ->
  len body <= max_bytes -> len fields <= max_fields ->
  parse_form body max_bytes max_fields max_value = Ok (bt_extend [] fields).
Proof.
  unfold encode_form. intros H Hf Hd Hb Hn. ok_steps H. ok_norm. injection H as <-.
  assert (Hne : fields <> []) by (by destruct fields). rewrite form_fields_text in * by done.
  cbn [Nat.eqb app] in *. unfold parse_form.
  assert (Hs : split_byte Byte.x26 (join_byte Byte.x26 (map field_text fields)) = map field_text fields).
  { apply split_join; [by destruct fields|]. apply Forall_map, List.Forall_forall. intros f _. apply field_text_free. }
  destruct (is_empty (join_byte Byte.x26 (map field_text fields))) eqn:E.
  - destruct (join_byte _ _); [|done]. destruct Hf as [|f fields Hok _]; [done|].
    destruct (field_text_parts _ _ Hok) as [He _]. destruct fields; simpl in Hs; by destruct (field_text f).
  - destruct (Z.ltb_spec max_bytes (len (join_byte Byte.x26 (map field_text fields)))); [lia|]. cbn [orb].
    rewrite Hs. apply parse_pairs_fields; [done|done|done|constructor|by rewrite len_nil].
Qed.

Module Examples.

Definition fields : list (string * string) := [("code", "a&b=c"); ("state", "x+y 100%")]%string.

Definition body : bytes := as_bytes "code=a%26b%3Dc&state=x%2By%20100%25".

Definition json_type (s : string) : bool := valid_json_content_type s.

Example header_values :
  encode_form fields = Ok body
  /\ map json_type ["application/json"; "Application/JSON; charset=UTF-8"; " application/json ;charset=utf-8"]%string
     = [true; true; true]
  /\ map json_type ["text/html"; "application/json; charset=latin1"; "application/json; q=1"]%string
     = [false; false; false]
  /\ cache_control_has ["private, No-Store"]%string "no-store" = Ok true
  /\ cache_control_has ["private, no-store"; "no-cache"]%string "no-cache" = Ok true
  /\ cache_control_has [] "no-store" = Err CachePolicyMissing.
Proof. split_and!; vm_compute; reflexivity. Qed.
End Examples.

Lemma form_roundtrip_witness :
  parse_form Examples.body 16384 16 8192 = Ok (bt_extend [] Examples.fields).
Proof.
  apply (form_roundtrip Examples.fields Examples.body 16384 16 8192).
  - vm_compute. reflexivity.
  - repeat constructor; vm_compute; first [reflexivity|discriminate].
  - apply (bool_decide_unpack _). vm_compute. exact I.
  - vm_compute. discriminate.
  - vm_compute. discriminate.
Defined.
