(* ===== verification/Authorization.v ===== *)
(** * The authorization-code transport (crates/oid4vci/src/authorization.rs)

    The machine that obtains an access token for a plan: pushed authorization
    request, browser authorization, token request, each with fresh client
    authentication, and DPoP on the token request.  A handler works on the
    [Context] of the flow, which a failure keeps as it was left, and returns it
    with its result.  [env_random env i] is what the [i]-th [fill] of a call
    writes.  Secrets are the texts they hold; what is zeroed on drop has no
    counterpart. *)

From stdpp Require Import list.
From S2P Require Import Prelude Utf8 BTree Boundary Serde Oid4vp BoundedJson HttpsUrls Metadata ProfileSelection OAuthText.

Open Scope Z_scope.
Open Scope rust_scope.

Definition PKCE_VERIFIER_CHARS : Z := 43.
Definition STATE_CHARS : Z := 43.
Definition MAX_CLIENT_ID_BYTES : Z := 2048.
Definition MAX_ISSUER_STATE_BYTES : Z := 2048.
Definition MAX_AUTHORIZATION_CODE_BYTES : Z := 4096.
Definition MAX_DPOP_SIGNING_INPUT_BYTES : Z := 16 * 1024.
Definition MAX_ACCESS_TOKEN_BYTES : Z := 8 * 1024.
Definition MAX_CREDENTIAL_IDENTIFIERS : Z := 32.
Definition MAX_CREDENTIAL_IDENTIFIER_BYTES : Z := 2048.
Definition MAX_TOKEN_RESPONSE_BYTES : Z := 64 * 1024.
Definition MAX_PAR_RESPONSE_BYTES : Z := 16 * 1024.
Definition MAX_CALLBACK_QUERY_BYTES : Z := 16 * 1024.
Definition MAX_PAR_EXPIRES_IN_SECONDS : Z := 599.
Definition MAX_DPOP_NONCE_RETRIES : Z := 2.

Definition PAR_JSON_LIMITS : JsonLimits := {|
  max_bytes := MAX_PAR_RESPONSE_BYTES; max_depth := 4; max_container_entries := 32;
  max_string_bytes := 8 * 1024 |}.

Definition TOKEN_JSON_LIMITS : JsonLimits := {|
  max_bytes := MAX_TOKEN_RESPONSE_BYTES; max_depth := 12; max_container_entries := 128;
  max_string_bytes := 8 * 1024 |}.

Inductive EndpointPurpose : Type := Par | Token.

#[export] Instance purpose_eq_decision : EqDecision EndpointPurpose.
Proof. solve_decision. Defined.

Inductive FlowStatus : Type :=
| StatusClientAuthentication (purpose : EndpointPurpose)
| StatusDpopSignature
| StatusParResponse
| StatusAuthorization
| StatusTokenResponse
| StatusComplete
| StatusFailed.

(** ** Data *)

(** [CorrelationId]: 32 random bytes. *)
Abbreviation CorrelationId := bytes.

Record Es256PublicJwk : Type := { jwk_x : string; jwk_y : string }.

#[export] Instance jwk_eq_decision : EqDecision Es256PublicJwk.
Proof. solve_decision. Defined.

Record DpopKeyBinding : Type := { key_ref : KeyRef; public_jwk : Es256PublicJwk }.

Record AuthorizationFlowConfig : Type := {
  cf_authorization_server : HttpsIdentifier;
  cf_credential_issuer : HttpsIdentifier;
  cf_configuration_id : string;
  cf_credential_endpoint : HttpsEndpoint;
  cf_nonce_endpoint : HttpsEndpoint;
  cf_authorization_endpoint : HttpsEndpoint;
  cf_token_endpoint : HttpsEndpoint;
  cf_par_endpoint : HttpsEndpoint;
  cf_scope : string;
  cf_client_id : string;
  cf_redirect_uri : HttpsIdentifier;
  cf_issuer_state : option string;
  cf_dpop_key : DpopKeyBinding;
}.

Record WalletClientAuthenticationRequest : Type := {
  car_request_id : CorrelationId;
  car_purpose : EndpointPurpose;
  car_client_id : string;
  car_audience : string;
  car_endpoint : string;
}.

Record WalletClientAuthentication : Type := {
  ca_request_id : CorrelationId;
  ca_purpose : EndpointPurpose;
  ca_client_id : string;
  ca_audience : string;
  ca_endpoint : string;
  attestation : string;
  proof_of_possession : string;
}.

Record DpopSigningRequest : Type := {
  dsr_request_id : CorrelationId;
  dsr_key_ref : KeyRef;
  dsr_signing_input : bytes;
}.

Record DpopSignature : Type := {
  ds_request_id : CorrelationId;
  ds_signing_input : bytes;
  ds_signature : bytes;
}.

Record ParRequest : Type := {
  par_request_id : CorrelationId;
  par_endpoint : string;
  par_body : bytes;
  par_attestation : string;
  par_attestation_pop : string;
}.

Record AuthorizationRequest : Type := {
  url : bytes;
  request_uri_expires_at_epoch_seconds : Z;
}.

Record TokenRequest : Type := {
  tok_request_id : CorrelationId;
  tok_endpoint : string;
  tok_body : bytes;
  tok_attestation : string;
  tok_attestation_pop : string;
  tok_dpop_proof : string;
}.

Inductive AuthorizationEffect : Type :=
| AcquireWalletClientAuthentication (r : WalletClientAuthenticationRequest)
| SignDpop (r : DpopSigningRequest)
| SendPar (r : ParRequest)
| OpenAuthorization (r : AuthorizationRequest)
| SendToken (r : TokenRequest).

Record EndpointResponse : Type := {
  rs_request_id : CorrelationId;
  rs_endpoint : string;
  rs_method : string;
  status : Z;
  content_type : string;
  cache_control_headers : list string;
  pragma_headers : list string;
  dpop_nonce_headers : list string;
  rs_body : bytes;
}.

Record AuthorizationRedirect : Type := { rd_redirect_uri : string; query : bytes }.

Inductive AuthorizationInput : Type :=
| InWalletClientAuthentication (a : WalletClientAuthentication)
| InDpopSignature (s : DpopSignature)
| InParResponse (r : EndpointResponse)
| InAuthorizationRedirect (r : AuthorizationRedirect)
| InTokenResponse (r : EndpointResponse).

Record AccessTokenGrant : Type := {
  access_token : string;
  issued_at_epoch_seconds : Z;
  expires_in_seconds : option Z;
  credential_identifiers : list string;
  token_endpoint_dpop_nonce : option string;
  gr_authorization_server : HttpsIdentifier;
  gr_token_endpoint : HttpsEndpoint;
  gr_credential_issuer : HttpsIdentifier;
  gr_configuration_id : string;
  gr_credential_endpoint : HttpsEndpoint;
  gr_nonce_endpoint : HttpsEndpoint;
  gr_dpop_key : DpopKeyBinding;
}.

Record Context : Type := {
  authorization_server : HttpsIdentifier;
  cx_credential_issuer : HttpsIdentifier;
  configuration_id : string;
  cx_credential_endpoint : HttpsEndpoint;
  cx_nonce_endpoint : HttpsEndpoint;
  cx_authorization_endpoint : HttpsEndpoint;
  cx_token_endpoint : HttpsEndpoint;
  cx_par_endpoint : HttpsEndpoint;
  cx_scope : string;
  client_id : string;
  redirect_uri : HttpsIdentifier;
  cx_issuer_state : option string;
  dpop_key : DpopKeyBinding;
  pkce_verifier : string;
  pkce_challenge : string;
  state : string;
  dpop_jkt : string;
  token_endpoint_nonce : option string;
  retired_token_endpoint_nonces : list string;
  used_client_auth_pop_hashes : list bytes;
  used_random_values : list bytes;
  last_now_epoch_seconds : Z;
}.

Inductive Stage : Type :=
| AwaitingClientAuthentication (purpose : EndpointPurpose) (request_id : CorrelationId)
    (authorization_code : option string) (nonce_retry_count : Z)
| SigningDpop (request_id : CorrelationId) (signing_input : bytes) (client_auth : WalletClientAuthentication)
    (authorization_code : string) (nonce_retry_count : Z)
| AwaitingParResponse (request_id : CorrelationId)
| AwaitingAuthorization
| AwaitingTokenResponse (request_id : CorrelationId) (authorization_code : string) (nonce_retry_count : Z)
| Complete (grant : AccessTokenGrant)
| Failed (e : AuthorizationError).

Record AuthorizationFlow : Type := { context : Context; stage : Stage }.

(** [random.fill]: the [i]-th call of it writes [env_random i]. *)
Record AuthorizationEnvironment : Type := {
  env_random : nat -> bytes;
  now_epoch_seconds : Z;
}.

(** A fallible step that changes its [&mut self] also when it fails, and one
    that does not touch it. *)
Notation "'let@' ( s , x ) ':=' m 'in' k" :=
  (match m with (s, Ok x) => k | (s, Err e) => (s, Err e) end)
  (at level 200, s name, x pattern, m at level 200, k at level 200, right associativity) : rust_scope.

Notation "'let~' x ':=' r 'for' s 'in' k" :=
  (match r with Ok x => k | Err e => (s, Err e) end)
  (at level 200, x pattern, r at level 200, s at level 10, k at level 200, right associativity) : rust_scope.

(** ** Keys and configuration *)

Definition quoted (s : string) : bytes := [Byte.x22] ++ as_bytes s ++ [Byte.x22].

(** ["name":"value"], as [format!] writes it: no escapes. *)
Definition raw_member (name value : string) : bytes := quoted name ++ as_bytes ":" ++ quoted value.

Definition braces (b : bytes) : bytes := as_bytes "{" ++ b ++ as_bytes "}".

Definition comma (a b : bytes) : bytes := a ++ as_bytes "," ++ b.

Definition raw_jwk (jwk : Es256PublicJwk) : bytes :=
  braces (comma (raw_member "crv" "P-256") (comma (raw_member "kty" "EC")
    (comma (raw_member "x" (jwk_x jwk)) (raw_member "y" (jwk_y jwk))))).

Section keys.
Context `{D : Digest} `{B64 : Base64}.

Definition validate_coordinate (value : string) : result unit AuthorizationError :=
  if negb (slen value =? 43) || negb (is_base64url_unpadded (as_bytes value)) then Err InvalidConfiguration
  else
    let? decoded := ok_or (decode_vec value) InvalidConfiguration in
    if negb (len decoded =? 32) || negb (String.eqb (encode_string decoded) value)
    then Err InvalidConfiguration else Ok tt.

Definition jwk_parse (x y : string) : result Es256PublicJwk AuthorizationError :=
  let? _ := validate_coordinate x in
  let? _ := validate_coordinate y in
  Ok {| jwk_x := x; jwk_y := y |}.

Definition thumbprint (self : Es256PublicJwk) : string := base64url (sha256 (raw_jwk self)).

Definition key_binding_new (key_ref_ : KeyRef) (jwk : Es256PublicJwk) : result DpopKeyBinding AuthorizationError :=
  if negb (valid_bounded_text (key_ref_name key_ref_) 1024 false) then Err InvalidConfiguration
  else Ok {| key_ref := key_ref_; public_jwk := jwk |}.
End keys.

Definition config_new (plan : GermanPidIssuancePlan) (issuer_state : option string) (client_id redirect_uri : string)
    (dpop_key : DpopKeyBinding) : result AuthorizationFlowConfig AuthorizationError :=
  if negb (valid_bounded_text client_id MAX_CLIENT_ID_BYTES false) || negb (valid_scope (plan_scope plan))
  then Err InvalidConfiguration
  else
    let? redirect_uri := map_err (identifier_parse redirect_uri) (fun _ => InvalidConfiguration) in
    if negb (has_byte Byte.x2f (drop (length SCHEME) (as_bytes (identifier redirect_uri))))
    then Err InvalidConfiguration
    else if contains_query (as_bytes (endpoint (plan_authorization_endpoint plan))) then Err InvalidConfiguration
    else
      let? issuer_state :=
        opt_map (fun value => if valid_bounded_text value MAX_ISSUER_STATE_BYTES true then Ok value
                              else Err InvalidConfiguration) issuer_state in
      Ok {| cf_authorization_server := plan_server plan;
            cf_credential_issuer := plan_issuer plan;
            cf_configuration_id := plan_configuration_id plan;
            cf_credential_endpoint := plan_credential_endpoint plan;
            cf_nonce_endpoint := plan_nonce_endpoint plan;
            cf_authorization_endpoint := plan_authorization_endpoint plan;
            cf_token_endpoint := plan_token_endpoint plan;
            cf_par_endpoint := plan_par_endpoint plan;
            cf_scope := plan_scope plan;
            cf_client_id := client_id;
            cf_redirect_uri := redirect_uri;
            cf_issuer_state := issuer_state;
            cf_dpop_key := dpop_key |}.

Definition offered_issuer_state (offer : CredentialOffer) : option string :=
  let! grant := authorization_code offer in issuer_state grant.

(** The transport's view of a plan under a policy. *)
Definition transport_plan (plan : GenericCredentialIssuancePlan) : GermanPidIssuancePlan := {|
  plan_issuer := generic_issuer plan;
  plan_server := generic_server plan;
  plan_configuration_id := generic_configuration_id plan;
  plan_format := DcSdJwt;
  plan_scope := generic_scope plan;
  plan_holder_binding := Jwk;
  plan_credential_signing_algorithm := JoseEs256;
  plan_proof_signing_algorithm := "ES256";
  plan_credential_endpoint := generic_credential_endpoint plan;
  plan_nonce_endpoint := generic_nonce_endpoint plan;
  plan_deferred_credential_endpoint := generic_deferred_credential_endpoint plan;
  plan_authorization_endpoint := generic_authorization_endpoint plan;
  plan_token_endpoint := generic_token_endpoint plan;
  plan_par_endpoint := generic_par_endpoint plan;
  plan_pid_provider_trust := Unresolved |}.

Definition from_generic_plan (plan : GenericCredentialIssuancePlan) (offer : CredentialOffer)
    (client_id redirect_uri : string) (dpop_key : DpopKeyBinding)
  : result AuthorizationFlowConfig AuthorizationError :=
  if negb (bool_decide (offer_issuer offer = generic_issuer plan))
     || negb (authorization_code_eligible offer)
     || negb (contains (generic_configuration_id plan) (credential_configuration_ids offer))
  then Err OfferPlanMismatch
  else config_new (transport_plan plan) (offered_issuer_state offer) client_id redirect_uri dpop_key.

(** The offer names another authorization server than the plan. *)
Definition other_server (offer : CredentialOffer) (server : HttpsIdentifier) : bool :=
  match server_hint offer with Some hint => negb (bool_decide (hint = server)) | None => false end.

Definition from_plan_and_offer (plan : GermanPidIssuancePlan) (offer : CredentialOffer)
    (client_id redirect_uri : string) (dpop_key : DpopKeyBinding)
  : result AuthorizationFlowConfig AuthorizationError :=
  if negb (bool_decide (offer_issuer offer = plan_issuer plan))
     || negb (authorization_code_eligible offer)
     || negb (contains (plan_configuration_id plan) (credential_configuration_ids offer))
     || other_server offer (plan_server plan)
  then Err OfferPlanMismatch
  else config_new plan (offered_issuer_state offer) client_id redirect_uri dpop_key.

(** ** Responses *)

Section responses.
Context {SJ : SerdeJson}.

Definition take_required_string (object : BTreeMap string Value) (field : string) (max : Z)
  : result (string * BTreeMap string Value) AuthorizationError :=
  match bt_get object field with
  | Some (VString value) =>
      if valid_bounded_text value max false then Ok (value, bt_remove field object) else Err InvalidTokenResponse
  | _ => Err InvalidTokenResponse
  end.

Record ParResponse : Type := { request_uri : string; par_expires_in : Z }.

Definition parse_par_response (input : bytes) : result ParResponse AuthorizationError :=
  let? object := map_err (BoundedJson.parse_object PAR_JSON_LIMITS input) (fun _ => InvalidParResponse) in
  if bt_contains object "error" then Err InvalidParResponse
  else
    let? (request_uri, object) :=
      map_err (take_required_string object "request_uri" MAX_REQUEST_URI_BYTES) (fun _ => InvalidParResponse) in
    if negb (valid_uri_reference request_uri) then Err InvalidParResponse
    else
      let? expires_in := ok_or (let! v := bt_get object "expires_in" in v_as_u64 v) InvalidParResponse in
      if negb (in_range 1 MAX_PAR_EXPIRES_IN_SECONDS expires_in) then Err InvalidParResponse
      else Ok {| request_uri := request_uri; par_expires_in := expires_in |}.

Inductive CallbackResult : Type := CallbackCode (code : string) | CallbackError.

Record AuthorizationCallback : Type := {
  cb_state : string;
  cb_issuer : string;
  cb_result : CallbackResult;
}.

(** The removed field, when it passes its filter. *)
Definition filtered (o : option string) (f : string -> bool) : option string :=
  let! v := o in if f v then Some v else None.

Definition code_ok (code : string) : bool :=
  valid_bounded_text code MAX_AUTHORIZATION_CODE_BYTES false && forallb is_nqchar (as_bytes code).

Definition parse_authorization_callback (input : bytes) : result AuthorizationCallback AuthorizationError :=
  let? fields := parse_form input MAX_CALLBACK_QUERY_BYTES 16 (8 * 1024) in
  let? state := ok_or (filtered (bt_get fields "state")
                         (fun v => (slen v =? STATE_CHARS) && is_base64url_unpadded (as_bytes v)))
                  InvalidAuthorizationCallback in
  let fields := bt_remove "state"%string fields in
  let? issuer := ok_or (filtered (bt_get fields "iss") (fun v => valid_bounded_text v 2048 false))
                   InvalidAuthorizationCallback in
  let fields := bt_remove "iss"%string fields in
  let code := bt_get fields "code" in
  let fields := bt_remove "code"%string fields in
  let error := bt_get fields "error" in
  let fields := bt_remove "error"%string fields in
  let? result_ :=
    match code, error with
    | Some code, None =>
        if code_ok code then
          if bt_contains fields "error_description" || bt_contains fields "error_uri"
          then Err InvalidAuthorizationCallback
          else Ok (CallbackCode code)
        else Err InvalidAuthorizationCallback
    | None, Some error =>
        if valid_oauth_error_code error then Ok CallbackError else Err InvalidAuthorizationCallback
    | _, _ => Err InvalidAuthorizationCallback
    end in
  Ok {| cb_state := state; cb_issuer := issuer; cb_result := result_ |}.

Inductive OAuthError : Type := UseDpopNonce | Other.

Definition parse_oauth_error (input : bytes) (limits : JsonLimits) : result OAuthError JsonBoundaryError :=
  let? object := BoundedJson.parse_object limits input in
  let? error := ok_or (filtered (m_get_str object "error") valid_oauth_error_code) InvalidJson in
  if bt_contains object "access_token" || bt_contains object "request_uri" then Err InvalidJson
  else Ok (if String.eqb error "use_dpop_nonce" then UseDpopNonce else Other).

Record ParsedAccessTokenGrant : Type := {
  pg_access_token : string;
  pg_expires_in_seconds : option Z;
  pg_credential_identifiers : list string;
}.

Fixpoint parse_identifiers (identifiers : list Value) (parsed : list string)
  : result (list string) AuthorizationError :=
  match identifiers with
  | [] => Ok parsed
  | identifier :: identifiers =>
      let? identifier :=
        ok_or (filtered (json_str identifier) (fun v => valid_bounded_text v MAX_CREDENTIAL_IDENTIFIER_BYTES false))
          InvalidTokenResponse in
      if existsb (fun seen => ct_eq (as_bytes seen) (as_bytes identifier)) parsed then Err InvalidTokenResponse
      else parse_identifiers identifiers (parsed ++ [identifier])
  end.

(** The location of a detail: absent, or the issuer and nothing else. *)
Definition locations_ok (detail : BTreeMap string Value) (expected_credential_issuer : string) : bool :=
  match bt_get detail "locations" with
  | None => true
  | Some (VArray [location]) => bool_decide (json_str location = Some expected_credential_issuer)
  | Some _ => false
  end.

(** The loop over the authorization details. *)
Fixpoint parse_details (expected_configuration_id expected_credential_issuer : string) (details : list Value)
    (result_ : option (list string)) : result (option (list string)) AuthorizationError :=
  match details with
  | [] => Ok result_
  | detail :: details =>
      let? detail := ok_or (json_object detail) InvalidTokenResponse in
      let? detail_type := ok_or (filtered (m_get_str detail "type") (fun v => valid_bounded_text v 128 false))
                            InvalidTokenResponse in
      if negb (String.eqb detail_type "openid_credential")
      then parse_details expected_configuration_id expected_credential_issuer details result_
      else if is_some result_
              || negb (bool_decide (m_get_str detail "credential_configuration_id" = Some expected_configuration_id))
      then Err InvalidTokenResponse
      else if negb (locations_ok detail expected_credential_issuer) then Err InvalidTokenResponse
      else
        let? identifiers := ok_or (let! v := bt_get detail "credential_identifiers" in json_array v)
                              InvalidTokenResponse in
        if is_empty identifiers || (MAX_CREDENTIAL_IDENTIFIERS <? len identifiers) then Err InvalidTokenResponse
        else
          let? parsed := parse_identifiers identifiers [] in
          parse_details expected_configuration_id expected_credential_issuer details (Some parsed)
  end.

Definition parse_credential_identifiers (authorization_details : option Value)
    (expected_configuration_id expected_credential_issuer : string) : result (list string) AuthorizationError :=
  match authorization_details with
  | None => Ok []
  | Some (VArray details) =>
      if is_empty details || (MAX_CREDENTIAL_IDENTIFIERS <? len details) then Err InvalidTokenResponse
      else
        let? result_ := parse_details expected_configuration_id expected_credential_issuer details None in
        ok_or result_ InvalidTokenResponse
  | Some _ => Err InvalidTokenResponse
  end.

Definition token_lifetime (value : Value) : result Z AuthorizationError :=
  let? n := ok_or (v_as_u64 value) InvalidTokenResponse in
  if (0 <? n) && (n <=? U32_MAX) then Ok n else Err InvalidTokenResponse.

Definition parse_access_token_response (input : bytes)
    (expected_scope expected_configuration_id expected_credential_issuer : string)
  : result ParsedAccessTokenGrant AuthorizationError :=
  let? object := map_err (BoundedJson.parse_object TOKEN_JSON_LIMITS input) (fun _ => InvalidTokenResponse) in
  if bt_contains object "error" then Err InvalidTokenResponse
  else
    let? (access_token, object) := take_required_string object "access_token" MAX_ACCESS_TOKEN_BYTES in
    if negb (valid_token_value access_token) then Err InvalidTokenResponse
    else
      let? (token_type, object) := take_required_string object "token_type" 16 in
      if negb (String.eqb token_type "DPoP") then Err TokenTypeDowngrade
      else
        let? expires_in_seconds := opt_map token_lifetime (bt_get object "expires_in") in
        if bt_contains object "refresh_token" then Err InvalidTokenResponse
        else
          let? _ :=
            match bt_get object "scope" with
            | None => Ok tt
            | Some (VString scope) => if String.eqb scope expected_scope then Ok tt else Err InvalidTokenResponse
            | Some _ => Err InvalidTokenResponse
            end in
          let? credential_identifiers :=
            parse_credential_identifiers (bt_get object "authorization_details")
              expected_configuration_id expected_credential_issuer in
          Ok {| pg_access_token := access_token; pg_expires_in_seconds := expires_in_seconds;
                pg_credential_identifiers := credential_identifiers |}.
End responses.

Definition validate_transport_binding (expected : CorrelationId) (expected_endpoint expected_method : string)
    (response : EndpointResponse) : result unit AuthorizationError :=
  if ct_eq expected (rs_request_id response) && String.eqb (rs_endpoint response) expected_endpoint
     && String.eqb (rs_method response) expected_method
  then Ok tt else Err TransportBindingMismatch.

Definition validate_json_transport (response : EndpointResponse) : result unit AuthorizationError :=
  if valid_json_content_type (content_type response) then Ok tt else Err InvalidMediaType.

(** ** Random values *)

Definition fresh_random_in (fill : bytes) (used : list bytes) : list bytes * result bytes AuthorizationError :=
  if 32 <=? len used then (used, Err RandomnessFailure)
  else if forallb (Byte.eqb Byte.x00) fill || existsb (fun seen => ct_eq seen fill) used
  then (used, Err RandomnessFailure)
  else (used ++ [fill], Ok fill).

Definition fresh_random (self : Context) (fill : bytes) : Context * result bytes AuthorizationError :=
  let '(used, r) := fresh_random_in fill (used_random_values self) in
  ({| self with used_random_values := used |}, r).

Definition endpoint_of (self : Context) (purpose : EndpointPurpose) : string :=
  match purpose with
  | Par => endpoint (cx_par_endpoint self)
  | Token => endpoint (cx_token_endpoint self)
  end.

Definition client_auth_stage (self : Context) (purpose : EndpointPurpose) (authorization_code : option string)
    (nonce_retry_count : Z) (fill : bytes) : Context * result (Stage * AuthorizationEffect) AuthorizationError :=
  let@ (self, request_id) := fresh_random self fill in
  (self, Ok (AwaitingClientAuthentication purpose request_id authorization_code nonce_retry_count,
             AcquireWalletClientAuthentication {|
               car_request_id := request_id;
               car_purpose := purpose;
               car_client_id := client_id self;
               car_audience := identifier (authorization_server self);
               car_endpoint := endpoint_of self purpose |})).

Definition rotate_token_endpoint_nonce (self : Context) (nonce : string)
  : Context * result unit AuthorizationError :=
  if existsb (fun value => ct_eq (as_bytes value) (as_bytes nonce)) (retired_token_endpoint_nonces self)
  then (self, Err DpopNonceStale)
  else
    match token_endpoint_nonce self with
    | Some current =>
        if ct_eq (as_bytes current) (as_bytes nonce) then (self, Err DpopNonceStale)
        else
          ({| self with token_endpoint_nonce := Some nonce;
                        retired_token_endpoint_nonces := retired_token_endpoint_nonces self ++ [current] |},
           Ok tt)
    | None => ({| self with token_endpoint_nonce := Some nonce |}, Ok tt)
    end.

(** [if let Some(nonce) = nonce { rotate(nonce)? }]. *)
Definition rotate_if_some (self : Context) (nonce : option string) : Context * result unit AuthorizationError :=
  match nonce with
  | Some nonce => rotate_token_endpoint_nonce self nonce
  | None => (self, Ok tt)
  end.

Section flow.
Context `{D : Digest} `{B64 : Base64} {SJ : SerdeJson}.

(** ** Requests *)

Definition par_fields (self : Context) : list (string * string) :=
  [("response_type", "code");
   ("client_id", client_id self);
   ("redirect_uri", identifier (redirect_uri self));
   ("scope", cx_scope self);
   ("resource", identifier (cx_credential_issuer self));
   ("state", state self);
   ("code_challenge", pkce_challenge self);
   ("code_challenge_method", "S256");
   ("dpop_jkt", dpop_jkt self)]%string
  ++ match cx_issuer_state self with
     | Some issuer_state => [("issuer_state"%string, issuer_state)]
     | None => []
     end.

Definition build_par_request (self : Context) (request_id : CorrelationId)
    (client_auth : WalletClientAuthentication) : result ParRequest AuthorizationError :=
  let? body := encode_form (par_fields self) in
  Ok {| par_request_id := request_id; par_endpoint := endpoint (cx_par_endpoint self); par_body := body;
        par_attestation := attestation client_auth; par_attestation_pop := proof_of_possession client_auth |}.

Definition dpop_header (jwk : Es256PublicJwk) : bytes :=
  braces (comma (raw_member "alg" "ES256")
    (comma (quoted "jwk" ++ as_bytes ":" ++ raw_jwk jwk) (raw_member "typ" "dpop+jwt"))).

(** [json!(n)] of an [i64]. *)
Definition json_int (n : Z) : Value := VNumber (if 0 <=? n then PosInt n else NegInt n).

Definition dpop_payload (htu jti : string) (iat : Z) (nonce : option string) : Value :=
  VObject (bt_extend []
    ([("htm", VString "POST"); ("htu", VString htu); ("iat", json_int iat); ("jti", VString jti)]%string
     ++ match nonce with Some nonce => [("nonce"%string, VString nonce)] | None => [] end)).

Definition build_dpop_signing_input (self : Context) (jti : string) (iat : Z) (nonce : option string)
  : result bytes AuthorizationError :=
  let header := dpop_header (public_jwk (dpop_key self)) in
  let htu := dpop_htu (endpoint (cx_token_endpoint self)) in
  let payload := value_to_vec (dpop_payload htu jti iat nonce) in
  let signing_input := as_bytes (base64url header) ++ as_bytes "." ++ as_bytes (base64url payload) in
  if MAX_DPOP_SIGNING_INPUT_BYTES <? len signing_input then Err InvalidConfiguration else Ok signing_input.

Definition token_fields (self : Context) (authorization_code : string) : list (string * string) :=
  [("grant_type", "authorization_code"); ("code", authorization_code);
   ("redirect_uri", identifier (redirect_uri self)); ("code_verifier", pkce_verifier self)]%string.

Definition build_token_request (self : Context) (request_id : CorrelationId) (authorization_code : string)
    (client_auth : WalletClientAuthentication) (dpop_proof : string) : result TokenRequest AuthorizationError :=
  let? body := encode_form (token_fields self authorization_code) in
  Ok {| tok_request_id := request_id; tok_endpoint := endpoint (cx_token_endpoint self); tok_body := body;
        tok_attestation := attestation client_auth; tok_attestation_pop := proof_of_possession client_auth;
        tok_dpop_proof := dpop_proof |}.

(** ** Handlers *)

Definition step_result : Type := Context * result (Stage * list AuthorizationEffect) AuthorizationError.

(** The binding of client authentication to the request it answers. *)
Definition client_auth_bound (self : Context) (purpose : EndpointPurpose)
    (client_auth : WalletClientAuthentication) : bool :=
  bool_decide (ca_purpose client_auth = purpose)
  && String.eqb (ca_client_id client_auth) (client_id self)
  && String.eqb (ca_audience client_auth) (identifier (authorization_server self))
  && String.eqb (ca_endpoint client_auth) (endpoint_of self purpose).

Definition accept_client_authentication (self : Context) (purpose : EndpointPurpose) (request_id : CorrelationId)
    (authorization_code : option string) (nonce_retry_count : Z) (client_auth : WalletClientAuthentication)
    (environment : AuthorizationEnvironment) : step_result :=
  if negb (ct_eq request_id (ca_request_id client_auth)) then (self, Err CorrelationMismatch)
  else if negb (client_auth_bound self purpose client_auth) then (self, Err ClientAuthenticationBindingMismatch)
  else
    let~ _ := validate_compact_jwt (attestation client_auth) MAX_WALLET_ATTESTATION_BYTES for self in
    let~ _ := validate_compact_jwt (proof_of_possession client_auth) MAX_WALLET_ATTESTATION_POP_BYTES for self in
    let pop_hash := sha256 (as_bytes (proof_of_possession client_auth)) in
    if existsb (fun seen => ct_eq seen pop_hash) (used_client_auth_pop_hashes self)
    then (self, Err ClientAuthenticationReused)
    else
      let self := {| self with used_client_auth_pop_hashes := used_client_auth_pop_hashes self ++ [pop_hash] |} in
      match purpose with
      | Par =>
          if is_some authorization_code || negb (nonce_retry_count =? 0) then (self, Err UnexpectedInput)
          else
            let@ (self, request_id) := fresh_random self (env_random environment 0) in
            let~ request := build_par_request self request_id client_auth for self in
            (self, Ok (AwaitingParResponse request_id, [SendPar request]))
      | Token =>
          let~ authorization_code := ok_or authorization_code UnexpectedInput for self in
          let@ (self, request_id) := fresh_random self (env_random environment 0) in
          let@ (self, jti) := fresh_random self (env_random environment 1) in
          let~ signing_input :=
            build_dpop_signing_input self (base64url jti) (now_epoch_seconds environment)
              (token_endpoint_nonce self) for self in
          (self, Ok (SigningDpop request_id signing_input client_auth authorization_code nonce_retry_count,
                     [SignDpop {| dsr_request_id := request_id; dsr_key_ref := key_ref (dpop_key self);
                                  dsr_signing_input := signing_input |}]))
      end.

Definition accept_dpop_signature (self : Context) (request_id : CorrelationId) (signing_input : bytes)
    (client_auth : WalletClientAuthentication) (authorization_code : string) (nonce_retry_count : Z)
    (signature : DpopSignature) (environment : AuthorizationEnvironment) : step_result :=
  if negb (ct_eq request_id (ds_request_id signature)) || negb (ct_eq signing_input (ds_signing_input signature))
  then (self, Err DpopSigningResultMismatch)
  else if negb (len (ds_signature signature) =? 64) then (self, Err DpopSignatureInvalid)
  else
    let~ proof := ok_or (from_utf8 (signing_input ++ as_bytes "." ++ as_bytes (base64url (ds_signature signature))))
                    DpopSignatureInvalid for self in
    let@ (self, request_id) := fresh_random self (env_random environment 0) in
    let~ request := build_token_request self request_id authorization_code client_auth proof for self in
    (self, Ok (AwaitingTokenResponse request_id authorization_code nonce_retry_count, [SendToken request])).

Definition accept_par_response (self : Context) (request_id : CorrelationId) (response : EndpointResponse)
    (now : Z) : step_result :=
  let~ _ := validate_transport_binding request_id (endpoint (cx_par_endpoint self)) "POST" response for self in
  let~ _ := validate_json_transport response for self in
  let~ nonce := parse_single_dpop_nonce (dpop_nonce_headers response) for self in
  if negb (status response =? 201) then
    let~ _ := map_err (parse_oauth_error (rs_body response) PAR_JSON_LIMITS) (fun _ => InvalidParResponse) for self in
    (self, Err ParRejected)
  else
    let~ no_store := cache_control_has (cache_control_headers response) "no-store" for self in
    if negb no_store then (self, Err CachePolicyMissing)
    else
      let~ no_cache := cache_control_has (cache_control_headers response) "no-cache" for self in
      if negb no_cache then (self, Err CachePolicyMissing)
      else
        let~ par := parse_par_response (rs_body response) for self in
        let@ (self, _) := rotate_if_some self nonce in
        let authorization_url :=
          build_authorization_url (endpoint (cx_authorization_endpoint self)) (client_id self) (request_uri par) in
        let~ expires := ok_or (checked_i64 (now + par_expires_in par)) InvalidParResponse for self in
        (self, Ok (AwaitingAuthorization,
                   [OpenAuthorization {| url := authorization_url;
                                         request_uri_expires_at_epoch_seconds := expires |}])).

Definition accept_authorization_redirect (self : Context) (redirect : AuthorizationRedirect)
    (environment : AuthorizationEnvironment) : step_result :=
  if negb (String.eqb (rd_redirect_uri redirect) (identifier (redirect_uri self)))
  then (self, Err RedirectMismatch)
  else
    let~ callback := parse_authorization_callback (query redirect) for self in
    if negb (ct_eq (as_bytes (cb_state callback)) (as_bytes (state self))) then (self, Err StateMismatch)
    else if negb (String.eqb (cb_issuer callback) (identifier (authorization_server self)))
    then (self, Err AuthorizationIssuerMismatch)
    else
      match cb_result callback with
      | CallbackError => (self, Err AuthorizationDenied)
      | CallbackCode code =>
          let@ (self, (stage, effect)) := client_auth_stage self Token (Some code) 0 (env_random environment 0) in
          (self, Ok (stage, [effect]))
      end.

Definition grant_of (self : Context) (parsed : ParsedAccessTokenGrant) (now : Z) : AccessTokenGrant := {|
  access_token := pg_access_token parsed;
  issued_at_epoch_seconds := now;
  expires_in_seconds := pg_expires_in_seconds parsed;
  credential_identifiers := pg_credential_identifiers parsed;
  token_endpoint_dpop_nonce := token_endpoint_nonce self;
  gr_authorization_server := authorization_server self;
  gr_token_endpoint := cx_token_endpoint self;
  gr_credential_issuer := cx_credential_issuer self;
  gr_configuration_id := configuration_id self;
  gr_credential_endpoint := cx_credential_endpoint self;
  gr_nonce_endpoint := cx_nonce_endpoint self;
  gr_dpop_key := dpop_key self |}.

Definition accept_token_response (self : Context) (request_id : CorrelationId) (authorization_code : string)
    (nonce_retry_count : Z) (response : EndpointResponse) (environment : AuthorizationEnvironment) : step_result :=
  let~ _ := validate_transport_binding request_id (endpoint (cx_token_endpoint self)) "POST" response for self in
  let~ _ := validate_json_transport response for self in
  let~ nonce := parse_single_dpop_nonce (dpop_nonce_headers response) for self in
  if status response =? 400 then
    let~ error := map_err (parse_oauth_error (rs_body response) TOKEN_JSON_LIMITS)
                    (fun _ => InvalidTokenResponse) for self in
    match error with
    | Other => (self, Err TokenRejected)
    | UseDpopNonce =>
        let~ nonce := ok_or nonce DpopNonceInvalid for self in
        if MAX_DPOP_NONCE_RETRIES <=? nonce_retry_count then (self, Err DpopNonceRetryLimit)
        else
          let@ (self, _) := rotate_token_endpoint_nonce self nonce in
          let@ (self, (stage, effect)) :=
            client_auth_stage self Token (Some authorization_code) (nonce_retry_count + 1)
              (env_random environment 0) in
          (self, Ok (stage, [effect]))
    end
  else if negb (status response =? 200) then (self, Err TokenRejected)
  else
    let~ no_store := cache_control_has (cache_control_headers response) "no-store" for self in
    if negb no_store then (self, Err CachePolicyMissing)
    else
      let~ no_cache := pragma_has_no_cache (pragma_headers response) for self in
      if negb no_cache then (self, Err CachePolicyMissing)
      else
        let@ (self, _) := rotate_if_some self nonce in
        let~ parsed :=
          parse_access_token_response (rs_body response) (cx_scope self) (configuration_id self)
            (identifier (cx_credential_issuer self)) for self in
        (self, Ok (Complete (grant_of self parsed (now_epoch_seconds environment)), [])).

(** ** The machine *)

Definition transition (self : Context) (stage : Stage) (input : AuthorizationInput)
    (environment : AuthorizationEnvironment) : step_result :=
  match stage, input with
  | AwaitingClientAuthentication purpose request_id code retries, InWalletClientAuthentication a =>
      accept_client_authentication self purpose request_id code retries a environment
  | SigningDpop request_id signing_input client_auth code retries, InDpopSignature s =>
      accept_dpop_signature self request_id signing_input client_auth code retries s environment
  | AwaitingParResponse request_id, InParResponse r =>
      accept_par_response self request_id r (now_epoch_seconds environment)
  | AwaitingAuthorization, InAuthorizationRedirect r => accept_authorization_redirect self r environment
  | AwaitingTokenResponse request_id code retries, InTokenResponse r =>
      accept_token_response self request_id code retries r environment
  | _, _ => (self, Err UnexpectedInput)
  end.

Definition latch (self : AuthorizationFlow) (e : AuthorizationError) : AuthorizationFlow :=
  {| context := context self; stage := Failed e |}.

Definition is_terminal (s : Stage) : bool := match s with Complete _ | Failed _ => true | _ => false end.

Definition step (self : AuthorizationFlow) (input : AuthorizationInput) (environment : AuthorizationEnvironment)
  : AuthorizationFlow * result (list AuthorizationEffect) AuthorizationError :=
  let now := now_epoch_seconds environment in
  match validate_clock now with
  | Err e => (latch self e, Err e)
  | Ok _ =>
      if now <? last_now_epoch_seconds (context self) then (latch self InvalidClock, Err InvalidClock)
      else
        let cx := {| (context self) with last_now_epoch_seconds := now |} in
        if is_terminal (stage self) then ({| context := cx; stage := stage self |}, Err AlreadyTerminal)
        else
          match transition cx (stage self) input environment with
          | (cx, Ok (stage, effects)) => ({| context := cx; stage := stage |}, Ok effects)
          | (cx, Err e) => ({| context := cx; stage := Failed e |}, Err e)
          end
  end.

Definition begin (config : AuthorizationFlowConfig) (environment : AuthorizationEnvironment)
  : result (AuthorizationFlow * AuthorizationEffect) AuthorizationError :=
  let? _ := validate_clock (now_epoch_seconds environment) in
  match fresh_random_in (env_random environment 0) [] with
  | (_, Err e) => Err e
  | (used, Ok verifier_entropy) =>
      match fresh_random_in (env_random environment 1) used with
      | (_, Err e) => Err e
      | (used, Ok state_entropy) =>
          let pkce_verifier := base64url verifier_entropy in
          let state := base64url state_entropy in
          if negb (slen pkce_verifier =? PKCE_VERIFIER_CHARS) || negb (slen state =? STATE_CHARS)
          then Err RandomnessFailure
          else
            let cx := {|
              authorization_server := cf_authorization_server config;
              cx_credential_issuer := cf_credential_issuer config;
              configuration_id := cf_configuration_id config;
              cx_credential_endpoint := cf_credential_endpoint config;
              cx_nonce_endpoint := cf_nonce_endpoint config;
              cx_authorization_endpoint := cf_authorization_endpoint config;
              cx_token_endpoint := cf_token_endpoint config;
              cx_par_endpoint := cf_par_endpoint config;
              cx_scope := cf_scope config;
              client_id := cf_client_id config;
              redirect_uri := cf_redirect_uri config;
              cx_issuer_state := cf_issuer_state config;
              dpop_key := cf_dpop_key config;
              pkce_verifier := pkce_verifier;
              pkce_challenge := base64url (sha256 (as_bytes pkce_verifier));
              state := state;
              dpop_jkt := thumbprint (public_jwk (cf_dpop_key config));
              token_endpoint_nonce := None;
              retired_token_endpoint_nonces := [];
              used_client_auth_pop_hashes := [];
              used_random_values := used;
              last_now_epoch_seconds := now_epoch_seconds environment |} in
            match client_auth_stage cx Par None 0 (env_random environment 2) with
            | (_, Err e) => Err e
            | (cx, Ok (stage, effect)) => Ok ({| context := cx; stage := stage |}, effect)
            end
      end
  end.

Definition flow_status (self : AuthorizationFlow) : FlowStatus :=
  match stage self with
  | AwaitingClientAuthentication purpose _ _ _ => StatusClientAuthentication purpose
  | SigningDpop _ _ _ _ _ => StatusDpopSignature
  | AwaitingParResponse _ => StatusParResponse
  | AwaitingAuthorization => StatusAuthorization
  | AwaitingTokenResponse _ _ _ => StatusTokenResponse
  | Complete _ => StatusComplete
  | Failed _ => StatusFailed
  end.

Definition failure (self : AuthorizationFlow) : option AuthorizationError :=
  match stage self with Failed e => Some e | _ => None end.

Definition into_token (self : AuthorizationFlow) : result AccessTokenGrant AuthorizationError :=
  match stage self with
  | Complete grant => Ok grant
  | Failed e => Err e
  | _ => Err UnexpectedInput
  end.
End flow.

(** ** For the theorems on flows *)

(** Case analysis on a handler that succeeds. *)
Ltac flow_step H :=
  match type of H with
  | match ?r with Ok _ => _ | Err _ => _ end = (_, Ok _) => destruct r eqn:?; [|discriminate H]
  | (let (_, _) := ?m in _) = (_, Ok _) =>
      let sf := fresh "self" in let r := fresh "r" in
      destruct m as [sf r] eqn:?; try (destruct r as [r|r]; [|discriminate H]); cbv beta iota in H
  | (if ?b then (_, Err _) else _) = (_, Ok _) => destruct b eqn:?; [discriminate H|]
  end.
Ltac flow_steps H := repeat flow_step H.

Lemma sublist_tail {A} (l tr k : list A) : sublist l tr -> sublist (l ++ k) (tr ++ k).
Proof. intros. by apply sublist_app. Qed.

Lemma sublist_more {A} (l tr k : list A) : sublist l tr -> sublist l (tr ++ k).
Proof. intros. by apply sublist_inserts_r. Qed.

Lemma sublist_last2 {A} (tr : list A) x y : sublist [x; y] (tr ++ [x; y]).
Proof. by apply sublist_inserts_l. Qed.
