(* ===== verification/AuthorizationSpec.v ===== *)
(** * What the authorization-code transport guarantees

    Histories of a flow: the inputs it was given and the effects it emitted, in
    order.  A token request is preceded by the whole chain of requests and
    answers that lead to it, bound to each other and to the configuration; the
    random values, correlations and client authentications of a flow do not
    repeat; and a flow ends. *)

From stdpp Require Import list pretty.
From S2P Require Import Prelude Utf8 BTree Boundary Serde Oid4vp Machine BoundedJson HttpsUrls Metadata ProfileSelection OAuthText Authorization.

Open Scope Z_scope.
Open Scope rust_scope.

Inductive happening : Type :=
| Received (i : AuthorizationInput) (now : Z)
| Emitted (e : AuthorizationEffect).

Section flows.
Context `{D : Digest} `{B64 : Base64} {SJ : SerdeJson}.

(** The histories of a flow that begins with a configuration. *)
Inductive flow_run (config : AuthorizationFlowConfig) : list happening -> AuthorizationFlow -> Prop :=
| run_begin environment flow e :
    begin config environment = Ok (flow, e) -> flow_run config [Emitted e] flow
| run_step tr flow i environment flow' r :
    flow_run config tr flow -> step flow i environment = (flow', r) ->
    flow_run config
      (tr ++ Received i (now_epoch_seconds environment)
          :: map Emitted (match r with Ok effects => effects | Err _ => [] end)) flow'.

(** ** What does not change *)

(** The context without the members that steps change. *)
Definition base (self : Context) : Context :=
  {| self with token_endpoint_nonce := None; retired_token_endpoint_nonces := [];
               used_client_auth_pop_hashes := []; used_random_values := []; last_now_epoch_seconds := 0 |}.

(** The one of a flow: its configuration, PKCE verifier and state. *)
Definition base_of (config : AuthorizationFlowConfig) (verifier st : string) : Context := {|
  authorization_server := cf_authorization_server config;
  cx_credential_issuer := cf_credential_issuer config;
  configuration_id := cf_configuration_id config;
  cx_credential_endpoint := cf_credential_endpoint config;
  cx_nonce_endpoint := cf_nonce_endpoint config;
  cx_authorization_endpoint := cf_authorization_endpoint config;
  cx_token_endpoint := cf_token_endpoint config;
  cx_par_endpoint := cf_par_endpoint config;
  cx_scope := cf_scope config;
  client_id := cf_client_id config;
  redirect_uri := cf_redirect_uri config;
  cx_issuer_state := cf_issuer_state config;
  dpop_key := cf_dpop_key config;
  pkce_verifier := verifier;
  pkce_challenge := base64url (sha256 (as_bytes verifier));
  state := st;
  dpop_jkt := thumbprint (public_jwk (cf_dpop_key config));
  token_endpoint_nonce := None;
  retired_token_endpoint_nonces := [];
  used_client_auth_pop_hashes := [];
  used_random_values := [];
  last_now_epoch_seconds := 0 |}.

(** ** The chain that leads to a token *)

Definition authenticated (b : Context) (purpose : EndpointPurpose) (ca : WalletClientAuthentication) : Prop :=
  ca_purpose ca = purpose /\ ca_client_id ca = client_id b
  /\ ca_audience ca = identifier (authorization_server b) /\ ca_endpoint ca = endpoint_of b purpose.

(** The pushed request carries the challenge, state and key thumbprint of the
    flow, and authentication for its endpoint. *)
Definition pushed (b : Context) (l : list happening) (p : ParRequest) : Prop :=
  exists ca n, l = [Received (InWalletClientAuthentication ca) n; Emitted (SendPar p)]
  /\ authenticated b Par ca /\ par_attestation p = attestation ca
  /\ par_attestation_pop p = proof_of_possession ca
  /\ par_endpoint p = endpoint (cx_par_endpoint b) /\ encode_form (par_fields b) = Ok (par_body p).

(** The browser is sent to the handle that the answer to it holds. *)
Definition opened (b : Context) (l : list happening) : Prop :=
  exists l0 p r n a par, l = l0 ++ [Received (InParResponse r) n; Emitted (OpenAuthorization a)]
  /\ pushed b l0 p
  /\ rs_request_id r = par_request_id p /\ rs_endpoint r = par_endpoint p /\ status r = 201
  /\ parse_par_response (rs_body r) = Ok par
  /\ url a = build_authorization_url (endpoint (cx_authorization_endpoint b)) (client_id b) (request_uri par)
  /\ request_uri_expires_at_epoch_seconds a = n + par_expires_in par.

(** The browser came back with a code, the state of the flow and the name of
    the server. *)
Definition authorised (b : Context) (l : list happening) (code : string) : Prop :=
  exists l0 rd n cb, l = l0 ++ [Received (InAuthorizationRedirect rd) n]
  /\ opened b l0
  /\ rd_redirect_uri rd = identifier (redirect_uri b)
  /\ parse_authorization_callback (query rd) = Ok cb
  /\ cb_state cb = state b /\ cb_issuer cb = identifier (authorization_server b)
  /\ cb_result cb = CallbackCode code.

(** A DPoP proof of the token endpoint was asked for. *)
Definition signing (b : Context) (l : list happening) (ca : WalletClientAuthentication) (code : string)
    (s : DpopSigningRequest) : Prop :=
  exists l0 n jti nonce, l = l0 ++ [Received (InWalletClientAuthentication ca) n; Emitted (SignDpop s)]
  /\ authorised b l0 code /\ authenticated b Token ca
  /\ dsr_key_ref s = key_ref (dpop_key b)
  /\ build_dpop_signing_input b (base64url jti) n nonce = Ok (dsr_signing_input s).

Definition token_requested (b : Context) (l : list happening) (t : TokenRequest) : Prop :=
  exists l0 ca code s sg n, l = l0 ++ [Received (InDpopSignature sg) n; Emitted (SendToken t)]
  /\ signing b l0 ca code s
  /\ ds_request_id sg = dsr_request_id s /\ ds_signing_input sg = dsr_signing_input s
  /\ len (ds_signature sg) = 64
  /\ as_bytes (tok_dpop_proof t)
     = dsr_signing_input s ++ as_bytes "." ++ as_bytes (base64url (ds_signature sg))
  /\ tok_endpoint t = endpoint (cx_token_endpoint b)
  /\ encode_form (token_fields b code) = Ok (tok_body t)
  /\ tok_attestation t = attestation ca /\ tok_attestation_pop t = proof_of_possession ca.

Definition token_granted (b : Context) (l : list happening) (g : AccessTokenGrant) : Prop :=
  exists l0 t r n parsed nonce, l = l0 ++ [Received (InTokenResponse r) n]
  /\ token_requested b l0 t
  /\ rs_request_id r = tok_request_id t /\ rs_endpoint r = tok_endpoint t /\ status r = 200
  /\ parse_access_token_response (rs_body r) (cx_scope b) (configuration_id b)
       (identifier (cx_credential_issuer b)) = Ok parsed
  /\ g = grant_of {| b with token_endpoint_nonce := nonce |} parsed n.

(** ** One step *)

Lemma fresh_random_Ok self fill self' v :
  fresh_random self fill = (self', Ok v) ->
  v = fill /\ fill ∉ used_random_values self /\ len (used_random_values self) < 32
  /\ self' = {| self with used_random_values := used_random_values self ++ [fill] |}.
Proof.
  unfold fresh_random, fresh_random_in. intros H.
  destruct (Z.leb_spec 32 (len (used_random_values self))); [done|].
  destruct (_ || _) eqn:E; [done|]. injection H as <- <-. apply orb_false_iff in E as [_ E].
  split_and!; [done| |done|done]. intros Hin. apply not_true_iff_false in E. apply E, existsb_exists.
  exists fill. rewrite <- list_elem_of_In, ct_eq_iff. done.
Qed.

Lemma client_auth_stage_Ok self purpose code retries fill self' stage effect :
  client_auth_stage self purpose code retries fill = (self', Ok (stage, effect)) ->
  fill ∉ used_random_values self /\ len (used_random_values self) < 32
  /\ self' = {| self with used_random_values := used_random_values self ++ [fill] |}
  /\ stage = AwaitingClientAuthentication purpose fill code retries
  /\ effect = AcquireWalletClientAuthentication {|
       car_request_id := fill; car_purpose := purpose; car_client_id := client_id self;
       car_audience := identifier (authorization_server self); car_endpoint := endpoint_of self purpose |}.
Proof.
  unfold client_auth_stage. intros H. flow_steps H.
  apply fresh_random_Ok in Heqp as (-> & ? & ? & ->). injection H as <- <- <-. by split_and!.
Qed.

(** Adopting a nonce: it is new, and the one it replaces is retired. *)
Lemma rotate_Ok self nonce self' :
  rotate_token_endpoint_nonce self nonce = (self', Ok tt) ->
  nonce ∉ retired_token_endpoint_nonces self /\ token_endpoint_nonce self <> Some nonce
  /\ self' = {| self with token_endpoint_nonce := Some nonce;
       retired_token_endpoint_nonces :=
         retired_token_endpoint_nonces self ++ option_list (token_endpoint_nonce self) |}.
Proof.
  unfold rotate_token_endpoint_nonce. intros H. destruct (existsb _ _) eqn:E; [done|].
  assert (Hn : nonce ∉ retired_token_endpoint_nonces self).
  { intros Hin. apply not_true_iff_false in E. apply E, existsb_exists. exists nonce.
    rewrite <- list_elem_of_In, ct_eq_iff. done. }
  destruct (token_endpoint_nonce self) as [c|] eqn:Hc.
  - destruct (ct_eq _ _) eqn:Ec; [done|]. injection H as <-. split_and!; [done| |done].
    intros [= ->]. by apply ct_eq_false in Ec.
  - injection H as <-. split_and!; [done|done|]. destruct self; cbn in *. by rewrite app_nil_r.
Qed.

Lemma rotate_if_some_Ok self nonce self' :
  rotate_if_some self nonce = (self', Ok tt) ->
  self' = self \/ exists n, nonce = Some n /\ rotate_token_endpoint_nonce self n = (self', Ok tt).
Proof. destruct nonce as [n|]; cbn; [eauto|]. intros [= <-]. by left. Qed.

Lemma rotate_base self nonce self' : rotate_if_some self nonce = (self', Ok tt) -> base self' = base self.
Proof.
  intros [->|(n & _ & (_ & _ & ->)%rotate_Ok)]%rotate_if_some_Ok; [done|]. by destruct self.
Qed.

Lemma base_random self l : base {| self with used_random_values := l |} = base self.
Proof. by destruct self. Qed.

Lemma base_hashes self l : base {| self with used_client_auth_pop_hashes := l |} = base self.
Proof. by destruct self. Qed.

Lemma base_clock self n : base {| self with last_now_epoch_seconds := n |} = base self.
Proof. by destruct self. Qed.

(** The history that a stage stands for. *)
Definition stage_history (b : Context) (tr : list happening) (s : Stage) : Prop :=
  match s with
  | AwaitingClientAuthentication Par _ _ _ | Failed _ => True
  | AwaitingClientAuthentication Token _ code _ =>
      exists c l, code = Some c /\ authorised b l c /\ sublist l tr
  | AwaitingParResponse id => exists p l, pushed b l p /\ par_request_id p = id /\ sublist l tr
  | AwaitingAuthorization => exists l, opened b l /\ sublist l tr
  | SigningDpop id input ca c _ =>
      exists s l, signing b l ca c s /\ dsr_request_id s = id /\ dsr_signing_input s = input /\ sublist l tr
  | AwaitingTokenResponse id c _ =>
      (exists l, authorised b l c /\ sublist l tr)
      /\ exists t l, token_requested b l t /\ tok_request_id t = id /\ sublist l tr
  | Complete g => exists l, token_granted b l g /\ sublist l tr
  end.

Definition requests_justified (b : Context) (tr : list happening) : Prop :=
  forall t, Emitted (SendToken t) ∈ tr -> exists l, token_requested b l t /\ sublist l tr.

Lemma client_auth_bound_iff self purpose ca :
  client_auth_bound self purpose ca = true -> authenticated (base self) purpose ca.
Proof.
  unfold client_auth_bound, authenticated. intros H. bool_prop. ok_norm.
  repeat match goal with E : String.eqb _ _ = true |- _ => apply String.eqb_eq in E end.
  split_and!; [done|done|done|]. by destruct purpose.
Qed.

(** What a successful handler does to the history. *)
Definition extends (b : Context) (tr : list happening) (i : AuthorizationInput) (n : Z) (self' : Context)
    (s : Stage) (effects : list AuthorizationEffect) : Prop :=
  let tr' := tr ++ Received i n :: map Emitted effects in
  base self' = b /\ stage_history b tr' s
  /\ forall t, SendToken t ∈ effects -> exists l, token_requested b l t /\ sublist l tr'.

Lemma no_token (effects : list AuthorizationEffect) b tr' :
  (forall t, SendToken t ∉ effects) ->
  forall t, SendToken t ∈ effects -> exists l, token_requested b l t /\ sublist l tr'.
Proof. intros H t Ht. by destruct (H t). Qed.

Lemma base_endpoint self purpose : endpoint_of (base self) purpose = endpoint_of self purpose.
Proof. by destruct purpose. Qed.

Lemma client_authentication_extends tr self purpose id code retries ca env self' s effects :
  accept_client_authentication self purpose id code retries ca env = (self', Ok (s, effects)) ->
  stage_history (base self) tr (AwaitingClientAuthentication purpose id code retries) ->
  extends (base self) tr (InWalletClientAuthentication ca) (now_epoch_seconds env) self' s effects.
Proof.
  unfold accept_client_authentication, extends. intros H Hs. flow_steps H.
  match goal with Hb : negb (client_auth_bound _ _ _) = false |- _ =>
    apply negb_false_iff, client_auth_bound_iff in Hb as Hauth end.
  destruct purpose; flow_steps H.
  - injection H as <- <- <-.
    match goal with Hf : fresh_random _ _ = _ |- _ => apply fresh_random_Ok in Hf as (_ & _ & _ & ->) end.
    split_and!; [by rewrite base_random, base_hashes| |apply no_token; intros t; by intros Ht%list_elem_of_singleton].
    match goal with Hb : build_par_request _ _ _ = Ok _ |- _ => unfold build_par_request in Hb; ok_steps Hb; injection Hb as <- end.
    cbn [map stage_history]. do 2 eexists. split_and!; [| |apply sublist_last2].
    + do 2 eexists. by split_and!.
    + done.
  - injection H as <- <- <-.
    do 2 match goal with Hf : fresh_random _ _ = _ |- _ => apply fresh_random_Ok in Hf as (_ & _ & _ & ->) end.
    split_and!; [by rewrite !base_random, base_hashes| |apply no_token; intros t; by intros Ht%list_elem_of_singleton].
    destruct Hs as (c & l & -> & Ha & Hl). cbn [ok_or] in *. simplify_eq.
    cbn [map stage_history]. do 2 eexists. split_and!; [| | |by apply sublist_tail].
    + do 4 eexists. by split_and!.
    + done.
    + done.
Qed.
Lemma dpop_signature_extends tr self id input ca code retries sg env self' s effects :
  accept_dpop_signature self id input ca code retries sg env = (self', Ok (s, effects)) ->
  stage_history (base self) tr (SigningDpop id input ca code retries) ->
  extends (base self) tr (InDpopSignature sg) (now_epoch_seconds env) self' s effects.
Proof.
  unfold accept_dpop_signature, extends. intros H (sr & l & Hsig & Hid & Hin & Hl). flow_steps H.
  injection H as <- <- <-.
  match goal with Hf : fresh_random _ _ = _ |- _ => apply fresh_random_Ok in Hf as (_ & _ & _ & ->) end.
  bool_prop. ok_norm.
  repeat match goal with E : ct_eq _ _ = true |- _ => apply ct_eq_iff in E end.
  match goal with Hu : from_utf8 _ = Some _ |- _ => apply from_utf8_Some in Hu as [Hproof _] end.
  match goal with Hb : build_token_request _ _ _ _ _ = Ok _ |- _ =>
    unfold build_token_request in Hb; ok_steps Hb; injection Hb as <- end.
  match type of Hsig with signing _ _ _ _ ?x =>
    assert (Hreq : forall t, tok_dpop_proof t = a -> tok_endpoint t = endpoint (cx_token_endpoint self) ->
        encode_form (token_fields self code) = Ok (tok_body t) ->
        tok_attestation t = attestation ca -> tok_attestation_pop t = proof_of_possession ca ->
        token_requested (base self)
          (l ++ [Received (InDpopSignature sg) (now_epoch_seconds env); Emitted (SendToken t)]) t)
  end.
  { intros t H1 H2 H3 H4 H5. do 6 eexists. split; [reflexivity|]. split; [exact Hsig|].
    split_and!; [congruence|congruence|done| |done|done|done|done]. rewrite H1, <- Hproof. by rewrite Hin. }
  cbn [map]. split_and!; [by rewrite base_random| |].
  - split.
    + destruct Hsig as (l0 & n & jti & nonce & -> & Ha & _). exists l0. split; [done|].
      apply sublist_more. etrans; [|exact Hl]. by apply sublist_inserts_r.
    + match goal with |- context [SendToken ?t] => exists t end.
      eexists. split; [by apply Hreq|]. split; [done|]. by apply sublist_tail.
  - intros t [= ->]%list_elem_of_singleton. eexists. split; [by apply Hreq|]. by apply sublist_tail.
Qed.

Lemma par_response_extends tr self id r now self' s effects :
  accept_par_response self id r now = (self', Ok (s, effects)) ->
  stage_history (base self) tr (AwaitingParResponse id) ->
  extends (base self) tr (InParResponse r) now self' s effects.
Proof.
  unfold accept_par_response, extends. intros H (p & l & Hp & Hid & Hl). flow_steps H.
  destruct (negb (status r =? 201)) eqn:Hst; [flow_steps H; discriminate H|]. flow_steps H.
  injection H as <- <- <-. bool_prop. ok_norm.
  match goal with Hr : rotate_if_some self _ = (?s, Ok ?u) |- _ =>
    destruct u; pose proof (rotate_base _ _ _ Hr) as Hb; set (self1 := s) in * end.
  assert (Hv : cx_authorization_endpoint self1 = cx_authorization_endpoint (base self)
               /\ client_id self1 = client_id (base self)).
  { rewrite <- Hb. done. }
  destruct Hv as [-> ->].
  match goal with Hv : validate_transport_binding _ _ _ _ = Ok _ |- _ =>
    unfold validate_transport_binding in Hv; ok_steps Hv end.
  bool_prop. repeat match goal with E : ct_eq _ _ = true |- _ => apply ct_eq_iff in E end.
  repeat match goal with E : String.eqb _ _ = true |- _ => apply String.eqb_eq in E end.
  split_and!; [done| |apply no_token; intros t; by intros Ht%list_elem_of_singleton].
  cbn [map stage_history]. eexists. split; [|by apply sublist_tail].
  destruct Hp as (ca & n & -> & Hau & Ha1 & Ha2 & Hpe & Hf). do 6 eexists. split; [reflexivity|].
  split; [do 2 eexists; by split_and!|]. split_and!; [congruence|by rewrite Hpe|done|done|done|].
  unfold checked_i64 in *. by repeat case_match; simplify_eq.
Qed.

Lemma redirect_extends tr self rd env self' s effects :
  accept_authorization_redirect self rd env = (self', Ok (s, effects)) ->
  stage_history (base self) tr AwaitingAuthorization ->
  extends (base self) tr (InAuthorizationRedirect rd) (now_epoch_seconds env) self' s effects.
Proof.
  unfold accept_authorization_redirect, extends. intros H (l & Ho & Hl). flow_steps H.
  destruct (cb_result a) as [code|] eqn:Hc; [|discriminate H]. flow_steps H.
  destruct r as [st ef]. injection H as <- <- <-. bool_prop.
  match goal with Hf : client_auth_stage _ _ _ _ _ = _ |- _ =>
    apply client_auth_stage_Ok in Hf as (_ & _ & -> & -> & ->) end.
  match goal with E : ct_eq _ _ = true |- _ => apply ct_eq_iff, as_bytes_inj in E end.
  repeat match goal with E : String.eqb _ _ = true |- _ => apply String.eqb_eq in E end.
  split_and!; [by rewrite base_random| |apply no_token; intros t; by intros Ht%list_elem_of_singleton].
  cbn [stage_history map]. exists code. eexists. split; [done|]. split.
  - do 4 eexists. split; [reflexivity|]. by split_and!.
  - apply sublist_app; [done|]. by apply sublist_skip, sublist_nil_l.
Qed.

Lemma token_response_extends tr self id code retries r env self' s effects :
  accept_token_response self id code retries r env = (self', Ok (s, effects)) ->
  stage_history (base self) tr (AwaitingTokenResponse id code retries) ->
  extends (base self) tr (InTokenResponse r) (now_epoch_seconds env) self' s effects.
Proof.
  unfold accept_token_response, extends. intros H ((l1 & Ha & Hl1) & t & l & Ht & Hid & Hl). flow_steps H.
  destruct (status r =? 400) eqn:Hst; flow_steps H.
  - match type of H with match ?e with UseDpopNonce => _ | Other => _ end = _ => destruct e; [|discriminate H] end.
    flow_steps H. injection H as <- <- <-.
    match goal with Hr : rotate_token_endpoint_nonce _ _ = (_, Ok ?u) |- _ =>
      destruct u; apply rotate_Ok in Hr as (_ & _ & ->) end.
    match goal with Hf : client_auth_stage _ _ _ _ _ = _ |- _ =>
      apply client_auth_stage_Ok in Hf as (_ & _ & -> & -> & ->) end.
    split_and!; [by destruct self| |apply no_token; intros t1; by intros Ht1%list_elem_of_singleton].
    cbn [stage_history]. exists code, l1. split_and!; [done|done|]. by apply sublist_more.
  - injection H as <- <- <-. bool_prop. ok_norm.
    match goal with Hr : rotate_if_some self _ = (?s, Ok ?u) |- _ =>
      destruct u; pose proof (rotate_base _ _ _ Hr) as Hb; set (self1 := s) in * end.
    match goal with Hv : validate_transport_binding _ _ _ _ = Ok _ |- _ =>
      unfold validate_transport_binding in Hv; ok_steps Hv end.
    bool_prop. repeat match goal with E : ct_eq _ _ = true |- _ => apply ct_eq_iff in E end.
    repeat match goal with E : String.eqb _ _ = true |- _ => apply String.eqb_eq in E end.
    split_and!; [done| |by intros ? ?%elem_of_nil].
    cbn [stage_history map]. eexists. split; [|apply sublist_app; [exact Hl|reflexivity]].
    do 5 eexists. exists (token_endpoint_nonce self1). split; [reflexivity|]. split; [exact Ht|].
    destruct Ht as (l0 & ca & c & s1 & sg & n & -> & _ & _ & _ & _ & _ & He & _).
    split_and!; [congruence|by rewrite He|done| |].
    + match goal with Hp : parse_access_token_response _ _ _ _ = Ok _ |- _ => rewrite <- Hp end.
      rewrite <- Hb. reflexivity.
    + rewrite <- Hb. reflexivity.
Qed.

Lemma transition_extends tr self s i env self' s' effects :
  transition self s i env = (self', Ok (s', effects)) ->
  stage_history (base self) tr s ->
  extends (base self) tr i (now_epoch_seconds env) self' s' effects.
Proof.
  destruct s, i; cbn [transition]; try discriminate; intros H Hs.
  - by eapply client_authentication_extends.
  - by eapply dpop_signature_extends.
  - by eapply par_response_extends.
  - by eapply redirect_extends.
  - by eapply token_response_extends.
Qed.

Lemma stage_history_more b tr k s : stage_history b tr s -> stage_history b (tr ++ k) s.
Proof.
  destruct s as [[] ? c ?| | | | | |]; cbn; [done| | | | | | |done].
  all: naive_solver eauto using sublist_more.
Qed.

(** What every history of a flow satisfies. *)
Definition flow_ok (b : Context) (tr : list happening) (flow : AuthorizationFlow) : Prop :=
  (failure flow = None -> base (context flow) = b) /\ stage_history b tr (stage flow) /\ requests_justified b tr.

Lemma flow_step_ok b tr flow i env flow' r :
  step flow i env = (flow', r) -> flow_ok b tr flow ->
  flow_ok b (tr ++ Received i (now_epoch_seconds env)
                :: map Emitted (match r with Ok effects => effects | Err _ => [] end)) flow'.
Proof.
  unfold step. intros H (Hb & Hs & Hj).
  assert (Hmore : forall k, (forall t, Emitted (SendToken t) ∉ k) -> requests_justified b (tr ++ k)).
  { intros k Hk t [Ht|Ht]%elem_of_app; [|by destruct (Hk t)].
    destruct (Hj t Ht) as (l & ? & ?). exists l. split; [done|]. by apply sublist_more. }
  assert (Hquiet : forall t, Emitted (SendToken t) ∉ Received i (now_epoch_seconds env) :: map Emitted []).
  { by intros t [?| ?%elem_of_nil]%elem_of_cons. }
  destruct (validate_clock _) as [[]|e]; [|injection H as <- <-; split_and!; [done|done|by apply Hmore]].
  destruct (_ <? _); [injection H as <- <-; split_and!; [done|done|by apply Hmore]|].
  destruct (is_terminal (stage flow)) eqn:Ht.
  { injection H as <- <-. split_and!; [|by apply stage_history_more|by apply Hmore].
    intros Hf. cbn [context]. rewrite base_clock. by apply Hb. }
  destruct (transition _ _ _ _) as [cx [[s effects]|e]] eqn:Htr; injection H as <- <-.
  - assert (Hb' : base (context flow) = b) by (apply Hb; unfold failure; by destruct (stage flow)).
    eapply transition_extends in Htr as (Hb'' & Hs' & Hj'); [|by rewrite base_clock, Hb'].
    rewrite base_clock, Hb' in *. split_and!; [done|done|].
    intros t [Hin|[?|Hin]%elem_of_cons]%elem_of_app; [|done|].
    + destruct (Hj t Hin) as (l & ? & ?). exists l. split; [done|]. by apply sublist_more.
    + apply list_elem_of_fmap in Hin as (e & [= <-] & Hin). by apply Hj'.
  - by split_and!; [done|done|apply Hmore].
Qed.

Lemma flow_begin_ok config env flow e :
  begin config env = Ok (flow, e) ->
  exists verifier st, verifier = base64url (env_random env 0) /\ st = base64url (env_random env 1)
  /\ flow_ok (base_of config verifier st) [Emitted e] flow
  /\ e = AcquireWalletClientAuthentication {|
       car_request_id := env_random env 2; car_purpose := Par; car_client_id := cf_client_id config;
       car_audience := identifier (cf_authorization_server config);
       car_endpoint := endpoint (cf_par_endpoint config) |}
  /\ stage flow = AwaitingClientAuthentication Par (env_random env 2) None 0
  /\ used_random_values (context flow) = [env_random env 0; env_random env 1; env_random env 2]
  /\ base.NoDup (used_random_values (context flow))
  /\ used_client_auth_pop_hashes (context flow) = []
  /\ token_endpoint_nonce (context flow) = None
  /\ retired_token_endpoint_nonces (context flow) = [].
Proof.
  unfold begin, fresh_random_in at 1. intros H. destruct (validate_clock _); [|done]. cbn [existsb orb] in H.
  rewrite len_nil in H. change (32 <=? 0) with false in H. cbv iota in H.
  destruct (_ || _); [done|].
  destruct (fresh_random_in (env_random env 1) _) as [used [v|]] eqn:E2; [|done].
  destruct (negb _ || negb _); [done|].
  match type of H with match ?m with _ => _ end = _ => destruct m as [cx [[s ef]|]] eqn:E3; [|done] end.
  injection H as <- <-.
  assert (H2 : v = env_random env 1 /\ env_random env 1 ∉ [env_random env 0] /\ used = [env_random env 0; env_random env 1]).
  { unfold fresh_random_in in E2. destruct (_ <=? _); [done|].
    destruct (_ || _) eqn:E; [done|]. injection E2 as <- <-. apply orb_false_iff in E as [_ E].
    split_and!; [done| |done]. intros Hin%list_elem_of_singleton. cbn in E. apply orb_false_iff in E as [E _].
    by apply ct_eq_false in E. }
  destruct H2 as (-> & Hn & ->).
  apply client_auth_stage_Ok in E3 as (Hf & _ & -> & -> & ->). cbn [used_random_values context stage] in *.
  do 2 eexists. split; [reflexivity|]. split; [reflexivity|]. split; [|split_and!; try reflexivity].
  - split_and!; [done|done|]. by intros t Ht%list_elem_of_singleton.
  - apply list.NoDup_cons; split; [|apply list.NoDup_cons; split; [|apply NoDup_singleton]].
    + intros [He|Hin]%elem_of_cons.
      * by apply Hn, list_elem_of_singleton.
      * apply Hf. apply elem_of_cons. left. by apply list_elem_of_singleton in Hin.
    + intros Hin%list_elem_of_singleton. apply Hf. rewrite <- Hin. apply elem_of_cons. right.
      apply list_elem_of_here.
Qed.

(** ** What does not repeat, and how long a flow is *)

Definition effect_id (e : AuthorizationEffect) : option CorrelationId :=
  match e with
  | AcquireWalletClientAuthentication r => Some (car_request_id r)
  | SignDpop s => Some (dsr_request_id s)
  | SendPar p => Some (par_request_id p)
  | OpenAuthorization _ => None
  | SendToken t => Some (tok_request_id t)
  end.

(** The proof of possession that a request carries. *)
Definition effect_pop (e : AuthorizationEffect) : option string :=
  match e with
  | SendPar p => Some (par_attestation_pop p)
  | SendToken t => Some (tok_attestation_pop t)
  | _ => None
  end.

Definition effects_of (tr : list happening) : list AuthorizationEffect :=
  omap (fun h => match h with Emitted e => Some e | Received _ _ => None end) tr.

Definition pop_hash (pop : string) : bytes := sha256 (as_bytes pop).

(** The client authentication that a stage still has to use. *)
Definition pending (s : Stage) : list string :=
  match s with SigningDpop _ _ ca _ _ => [proof_of_possession ca] | _ => [] end.

Definition retries_ok (s : Stage) : Prop :=
  match s with
  | AwaitingClientAuthentication Token _ _ n | SigningDpop _ _ _ _ n | AwaitingTokenResponse _ _ n =>
      0 <= n <= MAX_DPOP_NONCE_RETRIES
  | _ => True
  end.

(** How many random values a stage has used, and how many steps are left. *)
Definition drawn (s : Stage) : Z :=
  match s with
  | AwaitingClientAuthentication Par _ _ _ => 3
  | AwaitingParResponse _ | AwaitingAuthorization => 4
  | AwaitingClientAuthentication Token _ _ n => 5 + 4 * n
  | SigningDpop _ _ _ _ n => 7 + 4 * n
  | AwaitingTokenResponse _ _ n => 8 + 4 * n
  | Complete _ | Failed _ => 0
  end.

Definition rank (s : Stage) : Z :=
  match s with
  | AwaitingClientAuthentication Par _ _ _ => 12
  | AwaitingParResponse _ => 11
  | AwaitingAuthorization => 10
  | AwaitingClientAuthentication Token _ _ n => 9 - 3 * n
  | SigningDpop _ _ _ _ n => 8 - 3 * n
  | AwaitingTokenResponse _ _ n => 7 - 3 * n
  | Complete _ | Failed _ => 1
  end.

(** The DPoP nonces the flow has adopted, in order. *)
Definition adopted (cx : Context) : list string :=
  retired_token_endpoint_nonces cx ++ option_list (token_endpoint_nonce cx).

Record advance (cx : Context) (s : Stage) (cx' : Context) (s' : Stage) (effects : list AuthorizationEffect)
    (fresh : list bytes) : Prop := {
  a_used : used_random_values cx' = used_random_values cx ++ fresh;
  a_nodup : base.NoDup (used_random_values cx) -> base.NoDup (used_random_values cx');
  a_ids : exists k, omap effect_id effects ++ k = fresh;
  a_retries : retries_ok s -> retries_ok s';
  a_drawn : is_terminal s' = true \/ drawn s' = drawn s + len fresh;
  a_rank : retries_ok s -> rank s' + len effects <= rank s;
  a_pops : (used_client_auth_pop_hashes cx' = used_client_auth_pop_hashes cx
            /\ omap effect_pop effects ++ pending s' = pending s)
           \/ (exists p, used_client_auth_pop_hashes cx' = used_client_auth_pop_hashes cx ++ [pop_hash p]
               /\ pop_hash p ∉ used_client_auth_pop_hashes cx
               /\ pending s = [] /\ omap effect_pop effects ++ pending s' = [p]);
  a_nonces : base.NoDup (adopted cx) -> base.NoDup (adopted cx');
}.

Lemma new_hash cx ca :
  existsb (fun seen => ct_eq seen (sha256 (as_bytes (proof_of_possession ca)))) (used_client_auth_pop_hashes cx)
  = false ->
  pop_hash (proof_of_possession ca) ∉ used_client_auth_pop_hashes cx.
Proof.
  intros E Hin. apply not_true_iff_false in E. apply E, existsb_exists. eexists.
  rewrite <- list_elem_of_In, ct_eq_iff. done.
Qed.

Lemma client_authentication_advance self purpose id code retries ca env self' s effects :
  accept_client_authentication self purpose id code retries ca env = (self', Ok (s, effects)) ->
  exists fresh, advance self (AwaitingClientAuthentication purpose id code retries) self' s effects fresh.
Proof.
  unfold accept_client_authentication. intros H. flow_steps H.
  match goal with Hp : existsb _ _ = false |- _ => apply new_hash in Hp end.
  destruct purpose; flow_steps H; injection H as <- <- <-.
  - match goal with Hf : fresh_random _ _ = _ |- _ => apply fresh_random_Ok in Hf as (-> & Hn & _ & ->) end.
    match goal with Hb : build_par_request _ _ _ = Ok _ |- _ =>
      unfold build_par_request in Hb; ok_steps Hb; injection Hb as <- end.
    exists [env_random env 0]. split; try done.
    + intros Hd. by apply nodup_snoc.
    + by exists [].
    + by right.
    + right. exists (proof_of_possession ca). by split_and!.
  - do 2 match goal with Hf : fresh_random _ _ = _ |- _ => apply fresh_random_Ok in Hf as (-> & ? & _ & ->) end.
    exists [env_random env 0; env_random env 1]. split; try done.
    + cbn [used_random_values]. by rewrite <- app_assoc.
    + intros Hd. apply nodup_snoc; [|done]. by apply nodup_snoc.
    + by eexists [_].
    + right. cbn [drawn]. rewrite !len_cons, len_nil. lia.
    + intros _. cbn [rank]. rewrite !len_cons, len_nil. lia.
    + right. exists (proof_of_possession ca). by split_and!.
Qed.

Lemma dpop_signature_advance self id input ca code retries sg env self' s effects :
  accept_dpop_signature self id input ca code retries sg env = (self', Ok (s, effects)) ->
  exists fresh, advance self (SigningDpop id input ca code retries) self' s effects fresh.
Proof.
  unfold accept_dpop_signature. intros H. flow_steps H. injection H as <- <- <-.
  match goal with Hf : fresh_random _ _ = _ |- _ => apply fresh_random_Ok in Hf as (-> & ? & _ & ->) end.
  match goal with Hb : build_token_request _ _ _ _ _ = Ok _ |- _ =>
    unfold build_token_request in Hb; ok_steps Hb; injection Hb as <- end.
  exists [env_random env 0]. split; try done.
  - intros Hd. by apply nodup_snoc.
  - by exists [].
  - right. cbn [drawn]. rewrite !len_cons, len_nil. lia.
  - intros _. cbn [rank]. rewrite !len_cons, len_nil. lia.
  - by left.
Qed.

Lemma rotate_adopted cx nonce cx' :
  rotate_token_endpoint_nonce cx nonce = (cx', Ok tt) -> base.NoDup (adopted cx) -> base.NoDup (adopted cx').
Proof.
  intros (Hn & Hc & ->)%rotate_Ok Hd. unfold adopted in *. cbn [retired_token_endpoint_nonces token_endpoint_nonce option_list].
  apply nodup_snoc; [done|]. intros [?|Hin]%elem_of_app; [done|]. destruct (token_endpoint_nonce cx); cbn in Hin.
  - apply list_elem_of_singleton in Hin as ->. done.
  - by apply elem_of_nil in Hin.
Qed.

Lemma rotate_if_some_frame cx nonce cx' :
  rotate_if_some cx nonce = (cx', Ok tt) ->
  used_random_values cx' = used_random_values cx
  /\ used_client_auth_pop_hashes cx' = used_client_auth_pop_hashes cx
  /\ (base.NoDup (adopted cx) -> base.NoDup (adopted cx')).
Proof.
  intros [->|(n & _ & H)]%rotate_if_some_Ok; [done|]. pose proof (rotate_adopted _ _ _ H) as Ha.
  by apply rotate_Ok in H as (_ & _ & ->).
Qed.

Lemma par_response_advance self id r now self' s effects :
  accept_par_response self id r now = (self', Ok (s, effects)) ->
  exists fresh, advance self (AwaitingParResponse id) self' s effects fresh.
Proof.
  unfold accept_par_response. intros H. flow_steps H.
  destruct (negb (status r =? 201)); [flow_steps H; discriminate H|]. flow_steps H. injection H as <- <- <-.
  match goal with Hr : rotate_if_some self _ = (_, Ok ?u) |- _ =>
    destruct u; apply rotate_if_some_frame in Hr as (Hu & Hh & Hn) end.
  exists []. split; try done.
  - by rewrite app_nil_r.
  - by rewrite Hu.
  - by exists [].
  - by right.
  - by left.
Qed.

Lemma redirect_advance self rd env self' s effects :
  accept_authorization_redirect self rd env = (self', Ok (s, effects)) ->
  exists fresh, advance self AwaitingAuthorization self' s effects fresh.
Proof.
  unfold accept_authorization_redirect. intros H. flow_steps H.
  destruct (cb_result a) as [code|]; [|discriminate H]. flow_steps H.
  destruct r as [st ef]. injection H as <- <- <-.
  match goal with Hf : client_auth_stage _ _ _ _ _ = _ |- _ =>
    apply client_auth_stage_Ok in Hf as (? & _ & -> & -> & ->) end.
  exists [env_random env 0]. split; try done.
  - intros Hd. by apply nodup_snoc.
  - by exists [].
  - by right.
  - by left.
Qed.

Lemma token_response_advance self id code retries r env self' s effects :
  accept_token_response self id code retries r env = (self', Ok (s, effects)) ->
  exists fresh, advance self (AwaitingTokenResponse id code retries) self' s effects fresh.
Proof.
  unfold accept_token_response. intros H. flow_steps H.
  destruct (status r =? 400); flow_steps H.
  - match type of H with match ?e with UseDpopNonce => _ | Other => _ end = _ => destruct e; [|discriminate H] end.
    flow_steps H. injection H as <- <- <-. bool_prop.
    match goal with Hr : rotate_token_endpoint_nonce _ _ = (_, Ok ?u) |- _ =>
      destruct u; pose proof (rotate_adopted _ _ _ Hr) as Ha; apply rotate_Ok in Hr as (_ & _ & ->) end.
    match goal with Hf : client_auth_stage _ _ _ _ _ = _ |- _ =>
      apply client_auth_stage_Ok in Hf as (? & _ & -> & -> & ->) end.
    exists [env_random env 0]. split; try done.
    + intros Hd. by apply nodup_snoc.
    + by exists [].
    + cbn [retries_ok]. lia.
    + right. cbn [drawn]. rewrite len_cons, len_nil. lia.
    + intros _. cbn [rank]. rewrite len_cons, len_nil. lia.
    + by left.
  - injection H as <- <- <-.
    match goal with Hr : rotate_if_some self _ = (_, Ok ?u) |- _ =>
      destruct u; apply rotate_if_some_frame in Hr as (Hu & Hh & Hn) end.
    exists []. split; try done.
    + by rewrite app_nil_r.
    + by rewrite Hu.
    + by exists [].
    + by left.
    + intros [_ Hr]. cbn [rank]. change (len (@nil AuthorizationEffect)) with 0.
      unfold MAX_DPOP_NONCE_RETRIES in Hr. lia.
    + by left.
Qed.

Lemma transition_advance self s i env self' s' effects :
  transition self s i env = (self', Ok (s', effects)) ->
  is_terminal s = false /\ exists fresh, advance self s self' s' effects fresh.
Proof.
  destruct s, i; cbn [transition]; try discriminate; intros H; (split; [done|]).
  - by eapply client_authentication_advance.
  - by eapply dpop_signature_advance.
  - by eapply par_response_advance.
  - by eapply redirect_advance.
  - by eapply token_response_advance.
Qed.

(** *** Over a history *)

Lemma effects_of_app tr k : effects_of (tr ++ k) = effects_of tr ++ effects_of k.
Proof. apply omap_app. Qed.

Lemma effects_of_emitted effects : effects_of (map Emitted effects) = effects.
Proof. induction effects as [|e effects IH]; cbn; [done|]. f_equal. exact IH. Qed.

Definition emitted_pops (tr : list happening) : list bytes :=
  map pop_hash (omap effect_pop (effects_of tr)).

(** What holds while the flow has not failed. *)
Record flow_live (tr : list happening) (flow : AuthorizationFlow) : Prop := {
  l_used : base.NoDup (used_random_values (context flow));
  l_ids : sublist (omap effect_id (effects_of tr)) (used_random_values (context flow));
  l_hashes : base.NoDup (used_client_auth_pop_hashes (context flow));
  l_pops : emitted_pops tr ++ map pop_hash (pending (stage flow)) = used_client_auth_pop_hashes (context flow);
  l_nonces : base.NoDup (adopted (context flow));
  l_retries : retries_ok (stage flow);
  l_drawn : is_terminal (stage flow) = true \/ drawn (stage flow) = len (used_random_values (context flow));
}.

Record flow_history (tr : list happening) (flow : AuthorizationFlow) : Prop := {
  h_live : failure flow = None -> flow_live tr flow;
  h_ids : base.NoDup (omap effect_id (effects_of tr));
  h_pops : base.NoDup (emitted_pops tr);
  h_rank : len (effects_of tr) + rank (stage flow) <= 13;
}.

Lemma rank_positive s : retries_ok s -> 1 <= rank s.
Proof. unfold MAX_DPOP_NONCE_RETRIES. destruct s as [[]| | | | | |]; cbn; unfold MAX_DPOP_NONCE_RETRIES; lia. Qed.

Lemma nodup_prefix {A} (l k : list A) : base.NoDup (l ++ k) -> base.NoDup l.
Proof. intros H. by apply list.NoDup_app in H as (? & _ & _). Qed.

Lemma advance_live tr flow i n cx s effects fresh :
  flow_live tr flow -> is_terminal (stage flow) = false -> advance (context flow) (stage flow) cx s effects fresh ->
  flow_live (tr ++ Received i n :: map Emitted effects) {| context := cx; stage := s |}.
Proof.
  intros [Hu Hi Hh Hp Hn Hr Hd] Ht [Au And Ai Ar Ad Ak Ap An]. cbn [context stage] in *.
  assert (He : effects_of (tr ++ Received i n :: map Emitted effects) = effects_of tr ++ effects).
  { rewrite effects_of_app. f_equal. apply effects_of_emitted. }
  assert (Hq : emitted_pops (tr ++ Received i n :: map Emitted effects)
               = emitted_pops tr ++ map pop_hash (omap effect_pop effects)).
  { unfold emitted_pops. by rewrite He, omap_app, map_app. }
  assert (Hps : used_client_auth_pop_hashes cx
                = (emitted_pops tr ++ map pop_hash (omap effect_pop effects)) ++ map pop_hash (pending s)
                /\ base.NoDup (used_client_auth_pop_hashes cx)).
  { rewrite <- app_assoc, <- map_app. destruct Ap as [[-> ->]|(p & -> & Hnew & Hpe & ->)]; [done|].
    rewrite Hpe, app_nil_r in Hp. rewrite Hp. split; [done|]. by apply nodup_snoc. }
  split; cbn [context stage].
  - by apply And.
  - rewrite He, omap_app, Au. destruct Ai as [k <-]. apply sublist_app; [done|]. by apply sublist_inserts_r.
  - apply Hps.
  - rewrite Hq. symmetry. apply Hps.
  - by apply An.
  - by apply Ar.
  - destruct Ad as [Ad|Ad]; [by left|]. right. rewrite Ad, Au, len_app.
    destruct Hd as [Hd|Hd]; [congruence|lia].
Qed.

Lemma live_history tr flow :
  flow_live tr flow -> len (effects_of tr) + rank (stage flow) <= 13 -> flow_history tr flow.
Proof.
  intros Hl Hr. split; [done| | |done].
  - eapply sublist_NoDup; [apply (l_used _ _ Hl)|apply (l_ids _ _ Hl)].
  - eapply nodup_prefix. rewrite (l_pops _ _ Hl). apply (l_hashes _ _ Hl).
Qed.

Lemma flow_history_quiet tr flow i n flow' :
  flow_history tr flow -> rank (stage flow') <= rank (stage flow) ->
  (failure flow' = None -> failure flow = None /\ stage flow' = stage flow
     /\ exists m, context flow' = {| (context flow) with last_now_epoch_seconds := m |}) ->
  flow_history (tr ++ [Received i n]) flow'.
Proof.
  intros [Hl Hi Hp Hr] Hk Hf.
  assert (He : effects_of (tr ++ [Received i n]) = effects_of tr).
  { rewrite effects_of_app. apply app_nil_r. }
  split; unfold emitted_pops; rewrite ?He; [|done|done|lia].
  intros (H & Hs & m & Hc)%Hf. destruct (Hl H) as [H1 H2 H3 H4 H5 H6 H7].
  split; rewrite ?Hs, ?Hc; unfold emitted_pops; rewrite ?He; done.
Qed.

Lemma begin_history config env flow e : begin config env = Ok (flow, e) -> flow_history [Emitted e] flow.
Proof.
  intros (_ & _ & _ & _ & _ & -> & Hs & Hu & Hd & Hp & Hn & Hr)%flow_begin_ok.
  apply live_history; [|rewrite Hs; done]. split; unfold adopted; rewrite ?Hs, ?Hu, ?Hp, ?Hn, ?Hr; try done.
  - by rewrite <- Hu.
  - cbn. by do 2 apply sublist_cons.
  - constructor.
  - constructor.
  - by right.
Qed.

Lemma step_history tr flow i env flow' r :
  step flow i env = (flow', r) -> flow_history tr flow ->
  flow_history (tr ++ Received i (now_epoch_seconds env)
                   :: map Emitted (match r with Ok effects => effects | Err _ => [] end)) flow'.
Proof.
  unfold step. intros H Hh.
  assert (Hr1 : rank (Failed InvalidClock) <= rank (stage flow)).
  { cbn [rank]. destruct (failure flow) eqn:Hf.
    - unfold failure in Hf. by destruct (stage flow).
    - apply rank_positive, (l_retries _ _ (h_live _ _ Hh Hf)). }
  assert (Hfail : forall cx e, flow_history (tr ++ [Received i (now_epoch_seconds env)])
                                 {| context := cx; stage := Failed e |}).
  { intros cx e. by eapply flow_history_quiet. }
  destruct (validate_clock _) as [[]|e]; [|injection H as <- <-; apply Hfail].
  destruct (_ <? _); [injection H as <- <-; apply Hfail|].
  destruct (is_terminal (stage flow)) eqn:Ht.
  { injection H as <- <-. eapply flow_history_quiet; [done|done|]. intros Hf.
    split_and!; [done|done|by eexists]. }
  destruct (transition _ _ _ _) as [cx [[s effects]|e]] eqn:Htr; injection H as <- <-; [|apply Hfail].
  apply transition_advance in Htr as (_ & fresh & Ha).
  assert (Hf : failure flow = None) by (unfold failure; by destruct (stage flow)).
  pose proof (h_live _ _ Hh Hf) as Hl.
  apply live_history.
  - eapply advance_live; [exact Hl|exact Ht|]. destruct Ha as [A1 A2 A3 A4 A5 A6 A7 A8]. by split.
  - pose proof (a_rank _ _ _ _ _ _ Ha (l_retries _ _ Hl)). pose proof (h_rank _ _ Hh).
    rewrite effects_of_app, len_app. cbn [effects_of omap list_omap stage].
    change (omap _ (map Emitted effects)) with (effects_of (map Emitted effects)). rewrite effects_of_emitted. lia.
Qed.

Lemma run_history config tr flow : flow_run config tr flow -> flow_history tr flow.
Proof.
  induction 1 as [env flow e H|tr flow i env flow' r _ IH H].
  - by eapply begin_history.
  - by eapply step_history.
Qed.

(** ** The theorems *)

Lemma authorization_run_ok config tr flow :
  flow_run config tr flow -> exists verifier st, flow_ok (base_of config verifier st) tr flow.
Proof.
  induction 1 as [env flow e H|tr flow i env flow' r _ (v & st & IH) H].
  - apply flow_begin_ok in H as (v & st & _ & _ & H & _). eauto.
  - exists v, st. by eapply flow_step_ok.
Qed.

(** C34: a flow sends a token request only after it pushed an authorization
    request that carries the challenge of its PKCE verifier, its state and its
    key's thumbprint, the server answered that request, the browser was sent to
    the handle of the answer and came back with that state and server and a
    code, a client authentication for the token endpoint arrived and a DPoP
    proof of the token endpoint was signed: in that order, each bound to the one
    before; and it yields a token only after the answer to such a request that
    names the token's scope, configuration and issuer. *)
Theorem token_request_history config tr flow :
  flow_run config tr flow ->
  exists verifier st,
    (forall t, Emitted (SendToken t) ∈ tr ->
       exists l, token_requested (base_of config verifier st) l t /\ sublist l tr)
    /\ (forall g, into_token flow = Ok g ->
          exists l, token_granted (base_of config verifier st) l g /\ sublist l tr).
Proof.
  intros (v & st & _ & Hs & Hj)%authorization_run_ok.
  exists v, st. split; [exact Hj|]. unfold into_token. intros g Hg.
  destruct (stage flow); try discriminate Hg. by injection Hg as <-.
Qed.

(** the requests of a flow carry distinct correlation values, no two
    requests it sends carry the same proof of possession (even by digest), and
    a flow that has not failed has adopted no DPoP nonce of the token endpoint
    twice and drawn no random value twice. *)
Theorem flow_values_fresh config tr flow :
  flow_run config tr flow ->
  base.NoDup (omap effect_id (effects_of tr)) /\ base.NoDup (emitted_pops tr)
  /\ (failure flow = None ->
       base.NoDup (adopted (context flow)) /\ base.NoDup (used_random_values (context flow))).
Proof.
  intros H%run_history. split_and!; [apply H|apply H|]. intros Hf.
  pose proof (h_live _ _ H Hf) as Hl. split; apply Hl.
Qed.

(** whatever it is sent, a flow emits at most twelve effects, retries the
    token request at most twice, and draws at most sixteen random values before
    it ends: the limit of 32 that a draw checks is never what stops it. *)
Theorem flow_ends config tr flow :
  flow_run config tr flow ->
  len (effects_of tr) <= 12
  /\ (is_terminal (stage flow) = false ->
       retries_ok (stage flow) /\ len (used_random_values (context flow)) <= 16).
Proof.
  intros H%run_history. split.
  - pose proof (h_rank _ _ H). assert (1 <= rank (stage flow)); [|lia].
    destruct (failure flow) eqn:Hf; [unfold failure in Hf; by destruct (stage flow)|].
    apply rank_positive, (l_retries _ _ (h_live _ _ H Hf)).
  - intros Ht. assert (Hf : failure flow = None) by (unfold failure; by destruct (stage flow)).
    pose proof (h_live _ _ H Hf) as Hl. pose proof (l_retries _ _ Hl) as Hr. split; [done|].
    destruct (l_drawn _ _ Hl) as [Hd|<-]; [congruence|].
    destruct (stage flow) as [[]| | | | | |]; cbn in *; unfold MAX_DPOP_NONCE_RETRIES in *; lia.
Qed.
End flows.

(** ** A flow run to its end *)

Module Examples.

Definition char6 (n : Z) : byte :=
  byte.of_Z (if n <? 26 then 65 + n else if n <? 52 then 71 + n else if n <? 62 then n - 4
             else if n =? 62 then 45 else 95).

Definition sextet (b : byte) : Z :=
  let n := byte.unsigned b in
  if in_range 65 90 n then n - 65 else if in_range 97 122 n then n - 71
  else if in_range 48 57 n then n + 4 else if n =? 45 then 62 else 63.

Definition group (width size : Z) (n : Z) : list Z :=
  map (fun i => Z.land (Z.shiftr n (width * (size - 1 - i))) (Z.ones width)) (seqZ 0 size).

Definition number (width : Z) (l : list Z) : Z := fold_left (fun n x => Z.shiftl n width + x) l 0.

Fixpoint encode64 (b : list Z) : list Z :=
  match b with
  | x :: y :: z :: b => group 6 4 (number 8 [x; y; z]) ++ encode64 b
  | [x; y] => take 3 (group 6 4 (number 8 [x; y; 0]))
  | [x] => take 2 (group 6 4 (number 8 [x; 0; 0]))
  | [] => []
  end.

Fixpoint decode64 (l : list Z) : list Z :=
  match l with
  | a :: b :: c :: d :: l => group 8 3 (number 6 [a; b; c; d]) ++ decode64 l
  | [a; b; c] => take 2 (group 8 3 (number 6 [a; b; c; 0]))
  | [a; b] => take 1 (group 8 3 (number 6 [a; b; 0; 0]))
  | _ => []
  end.

#[export] Instance base64url_sample : Base64 := {|
  encode_string := fun b => string_of_list_byte (map char6 (encode64 (map byte.unsigned b)));
  decode_vec := fun s => Some (map byte.of_Z (decode64 (map sextet (as_bytes s))));
|}.

Example base64url_values :
  encode_string (as_bytes "M") = "TQ"%string /\ encode_string (as_bytes "Many hands") = "TWFueSBoYW5kcw"%string
  /\ decode_vec "TWFueSBoYW5kcw" = Some (as_bytes "Many hands").
Proof. split_and!; vm_compute; reflexivity. Qed.

#[export] Existing Instance Samples.trunc_digest.

Definition par_answer : bytes :=
  Metadata.Examples.quoted "{'request_uri':'urn:ietf:params:oauth:request_uri:7','expires_in':60}".
Definition retry_answer : bytes := Metadata.Examples.quoted "{'error':'use_dpop_nonce'}".
Definition token_answer : bytes :=
  Metadata.Examples.quoted "{'access_token':'secret','token_type':'DPoP','expires_in':300,'scope':'pid'}".

#[export] Instance documents : SerdeJson := {|
  value_from_slice := fun s =>
    if bool_decide (s = par_answer) then Some (VObject [
      ("expires_in", VNumber (PosInt 60));
      ("request_uri", VString "urn:ietf:params:oauth:request_uri:7")])%string
    else if bool_decide (s = retry_answer) then Some (VObject [("error", VString "use_dpop_nonce")])%string
    else if bool_decide (s = token_answer) then Some (VObject [
      ("access_token", VString "secret"); ("expires_in", VNumber (PosInt 300)); ("scope", VString "pid");
      ("token_type", VString "DPoP")])%string
    else None;
  value_to_vec := fun _ => as_bytes "{}" |}.

Definition home : HttpsIdentifier := {| identifier := "https://issuer.example" |}.

Definition at_home (path : string) : HttpsEndpoint := {| endpoint := "https://issuer.example/" ++ path |}%string.

Definition config : AuthorizationFlowConfig := {|
  cf_authorization_server := home; cf_credential_issuer := home; cf_configuration_id := "pid";
  cf_credential_endpoint := at_home "c"; cf_nonce_endpoint := at_home "n";
  cf_authorization_endpoint := at_home "a"; cf_token_endpoint := at_home "t"; cf_par_endpoint := at_home "p";
  cf_scope := "pid"; cf_client_id := "wallet"; cf_redirect_uri := {| identifier := "https://wallet.example/cb" |};
  cf_issuer_state := None;
  cf_dpop_key := {| key_ref := {| key_ref_name := "dpop" |}; public_jwk := {| jwk_x := "x"; jwk_y := "y" |} |} |}.

(** The [i]-th draw of a step is 32 bytes that name the step and the draw. *)
Definition env (n : Z) : AuthorizationEnvironment := {|
  env_random := fun i => repeat (byte.of_Z (16 * n + Z.of_nat i + 1)) 32;
  now_epoch_seconds := 1000 + n |}.

Definition jwt (s : string) : string :=
  (encode_string (as_bytes "{}") ++ "." ++ encode_string (as_bytes s) ++ "." ++ encode_string (as_bytes "sig"))%string.

(** What an honest environment answers to the last effect. *)
Definition answer (n : Z) (flow_state : string) (e : AuthorizationEffect) : AuthorizationInput :=
  match e with
  | AcquireWalletClientAuthentication r => InWalletClientAuthentication {|
      ca_request_id := car_request_id r; ca_purpose := car_purpose r; ca_client_id := car_client_id r;
      ca_audience := car_audience r; ca_endpoint := car_endpoint r;
      attestation := jwt "wallet attestation"; proof_of_possession := jwt (pretty n) |}
  | SignDpop r => InDpopSignature {|
      ds_request_id := dsr_request_id r; ds_signing_input := dsr_signing_input r;
      ds_signature := repeat Byte.x01 64 |}
  | SendPar r => InParResponse {|
      rs_request_id := par_request_id r; rs_endpoint := par_endpoint r; rs_method := "POST"; status := 201;
      content_type := "application/json"; cache_control_headers := ["no-cache, no-store"]%string;
      pragma_headers := []; dpop_nonce_headers := []; rs_body := par_answer |}
  | OpenAuthorization r => InAuthorizationRedirect {|
      rd_redirect_uri := "https://wallet.example/cb";
      query := as_bytes ("code=c0de&iss=https%3A%2F%2Fissuer.example&state=" ++ flow_state) |}
  | SendToken r =>
      let answered := 7 <=? n in
      InTokenResponse {|
        rs_request_id := tok_request_id r; rs_endpoint := tok_endpoint r; rs_method := "POST";
        status := if answered then 200 else 400;
        content_type := "application/json"; cache_control_headers := ["no-store"]%string;
        pragma_headers := ["no-cache"]%string; dpop_nonce_headers := if answered then [] else ["nonce"]%string;
        rs_body := if answered then token_answer else retry_answer |}
  end.

(** The flow against that environment, which asks once for a DPoP nonce. *)
Fixpoint drive (fuel : nat) (n : Z) (tr : list happening) (flow : AuthorizationFlow) (e : AuthorizationEffect)
  : list happening * AuthorizationFlow :=
  match fuel with
  | O => (tr, flow)
  | S fuel =>
      let i := answer n (state (context flow)) e in
      let '(flow', r) := step flow i (env n) in
      let effects := match r with Ok effects => effects | Err _ => [] end in
      let tr := tr ++ Received i (now_epoch_seconds (env n)) :: map Emitted effects in
      match effects with
      | e :: _ => drive fuel (n + 1) tr flow' e
      | [] => (tr, flow')
      end
  end.

Lemma authorization_drive fuel n tr flow e :
  flow_run config tr flow -> flow_run config (fst (drive fuel n tr flow e)) (snd (drive fuel n tr flow e)).
Proof.
  revert n tr flow e. induction fuel as [|fuel IH]; intros n tr flow e H; cbn [drive]; [done|].
  destruct (step _ _ _) as [flow' r] eqn:Hs. pose proof (run_step _ _ _ _ _ _ _ H Hs) as H'.
  destruct r as [[|e' effects]|err]; cbn [fst snd]; [done|by apply IH|done].
Qed.

Definition started : result (AuthorizationFlow * AuthorizationEffect) AuthorizationError := begin config (env 0).

Definition complete : list happening * AuthorizationFlow :=
  match started with
  | Ok (flow, e) => drive 12 1 [Emitted e] flow e
  | Err e => ([], {| context := base_of config "" ""; stage := Failed e |})
  end.

Lemma complete_run : flow_run config (fst complete) (snd complete).
Proof.
  unfold complete. destruct started as [[flow e]|] eqn:H; [|vm_compute in H; discriminate H].
  apply authorization_drive. exact (run_begin config (env 0) flow e H).
Qed.

Definition token_text (r : result AccessTokenGrant AuthorizationError) : option (string * option string) :=
  match r with Ok g => Some (access_token g, token_endpoint_dpop_nonce g) | Err _ => None end.

Example completes :
  token_text (into_token (snd complete)) = Some ("secret", Some "nonce")%string
  /\ len (effects_of (fst complete)) = 9
  /\ len (used_random_values (context (snd complete))) = 12.
Proof. split_and!; vm_compute; reflexivity. Qed.
End Examples.

Import Examples.

Lemma token_request_history_witness :
  exists verifier st,
    (forall t, Emitted (SendToken t) ∈ fst Examples.complete ->
       exists l, token_requested (base_of Examples.config verifier st) l t /\ sublist l (fst Examples.complete))
    /\ (forall g, into_token (snd Examples.complete) = Ok g ->
          exists l, token_granted (base_of Examples.config verifier st) l g /\ sublist l (fst Examples.complete)).
Proof. exact (token_request_history _ _ _ Examples.complete_run). Defined.

Lemma flow_values_fresh_witness :
  base.NoDup (omap effect_id (effects_of (fst Examples.complete))) /\ base.NoDup (emitted_pops (fst Examples.complete)).
Proof.
  pose proof (flow_values_fresh _ _ _ Examples.complete_run) as (H1 & H2 & _). exact (conj H1 H2).
Defined.

Lemma flow_ends_witness : len (effects_of (fst Examples.complete)) <= 12.
Proof. exact (proj1 (flow_ends _ _ _ Examples.complete_run)). Defined.
