(* ===== verification/Credential.v ===== *)
(** * The credential transport (crates/oid4vci/src/credential.rs)

    The machine that redeems an access token: a nonce, a key attestation, the
    proof of possession of the credential key, the credential request under
    DPoP, and the polling of an issuer that defers.  It is written like
    [Authorization], whose notations and texts ([OAuthText]) it uses: a handler
    works on the [Context] of the flow, which a failure keeps as it was left,
    and [ce_random env i] is what the [i]-th [fill] of a call writes. *)

From stdpp Require Import list.
From S2P Require Import Prelude Utf8 BTree Cbor Boundary Cose Mdoc X509 SdJwt PidProfile Serde Oid4vp BoundedJson HttpsUrls Metadata ProfileSelection OAuthText Authorization.

Open Scope Z_scope.
Open Scope rust_scope.

Definition MAX_C_NONCE_BYTES : Z := 2048.
Definition MAX_NONCE_RESPONSE_BYTES : Z := 16 * 1024.
Definition MAX_CREDENTIAL_RESPONSE_BYTES : Z := 256 * 1024.
Definition MAX_CREDENTIAL_BYTES : Z := 224 * 1024.
Definition MAX_KEY_ATTESTATION_BYTES : Z := 64 * 1024.
Definition MAX_KEY_ATTESTATION_SEGMENT_BYTES : Z := 32 * 1024.
Definition MAX_SIGNING_INPUT_BYTES : Z := 128 * 1024.
Definition MAX_CREDENTIAL_REQUEST_BYTES : Z := 160 * 1024.
Definition MAX_RESOURCE_DPOP_NONCE_RETRIES : Z := 1.
Definition MAX_SD_JWT_COMPONENT_SEPARATORS : Z := 257.

Definition NONCE_JSON_LIMITS : JsonLimits := {|
  max_bytes := MAX_NONCE_RESPONSE_BYTES; max_depth := 4; max_container_entries := 16;
  max_string_bytes := 8 * 1024 |}.

Definition CREDENTIAL_JSON_LIMITS : JsonLimits := {|
  max_bytes := MAX_CREDENTIAL_RESPONSE_BYTES; max_depth := 6; max_container_entries := 16;
  max_string_bytes := MAX_CREDENTIAL_BYTES |}.

Definition JWT_JSON_LIMITS : JsonLimits := {|
  max_bytes := MAX_KEY_ATTESTATION_SEGMENT_BYTES; max_depth := 8; max_container_entries := 32;
  max_string_bytes := 8 * 1024 |}.

Inductive CredentialError : Type :=
| InvalidConfiguration | PlanGrantMismatch | InvalidSelection | InvalidClock | TokenExpired
| RandomnessFailure | UnexpectedInput | AlreadyTerminal | CorrelationMismatch | TransportBindingMismatch
| InvalidStatus | InvalidMediaType | CachePolicyMissing | InvalidContentEncoding | InvalidNonceResponse
| CNonceReplayed | DpopNonceInvalid | DpopNonceStale | DpopNonceRetryLimit | DeferredPollTooEarly
| KeyAttestationBindingMismatch | KeyAttestationInvalid | CredentialProofSigningMismatch
| CredentialProofSignatureInvalid | DpopSigningMismatch | DpopSignatureInvalid | CredentialRejected
| DeferredIssuanceUnsupported | BatchIssuanceUnsupported | NotificationUnsupported | ReissuanceUnsupported
| ResponseEncryptionUnsupported | InvalidCredentialResponse | CredentialFormatMismatch.

Inductive FlowStatus : Type :=
| StatusNonceResponse | StatusKeyAttestation | StatusCredentialProofSignature | StatusDpopSignature
| StatusCredentialResponse | StatusDeferred | StatusDeferredDpopSignature | StatusDeferredResponse
| StatusComplete | StatusFailed.

(** The encoder of base64ct's [Base64]. *)
Class StdBase64Encode : Type := { std_encode_string : bytes -> string }.

(** ** Data *)

Inductive CredentialSelection : Type :=
| ConfigurationId
| CredentialIdentifier (identifier : string).

Inductive SelectedRequestTarget : Type :=
| TargetConfigurationId (identifier : string)
| TargetCredentialIdentifier (identifier : string).

Record CredentialKeyBinding : Type := { ckb_key_ref : KeyRef; ckb_public_jwk : Es256PublicJwk }.

Record CredentialFlowConfig : Type := {
  cc_access_token : string;
  cc_token_issued_at_epoch_seconds : Z;
  cc_token_expires_in_seconds : option Z;
  cc_credential_issuer : HttpsIdentifier;
  cc_configuration_id : string;
  cc_format : GermanPidFormat;
  cc_expected_vct : string;
  cc_credential_endpoint : HttpsEndpoint;
  cc_nonce_endpoint : HttpsEndpoint;
  cc_deferred_credential_endpoint : option HttpsEndpoint;
  cc_request_target : SelectedRequestTarget;
  cc_dpop_key_ref : KeyRef;
  cc_dpop_public_jwk : Es256PublicJwk;
  cc_credential_key_ref : KeyRef;
  cc_credential_public_jwk : Es256PublicJwk;
}.

Record NonceRequest : Type := { nr_request_id : CorrelationId; nr_endpoint : string }.

Record KeyAttestationRequest : Type := {
  kar_request_id : CorrelationId;
  kar_credential_issuer : string;
  kar_credential_endpoint : string;
  kar_key_ref : KeyRef;
  kar_public_jwk : Es256PublicJwk;
  kar_c_nonce : string;
}.

Record KeyAttestation : Type := {
  ka_request_id : CorrelationId;
  ka_credential_issuer : string;
  ka_credential_endpoint : string;
  ka_key_ref : KeyRef;
  ka_public_jwk : Es256PublicJwk;
  ka_c_nonce : string;
  ka_jwt : string;
}.

Record SigningRequest : Type := {
  sr_request_id : CorrelationId;
  sr_key_ref : KeyRef;
  sr_signing_input : bytes;
}.

Record SignatureResult : Type := {
  sg_request_id : CorrelationId;
  sg_signing_input : bytes;
  sg_signature : bytes;
}.

Record CredentialRequest : Type := {
  crq_request_id : CorrelationId;
  crq_endpoint : string;
  crq_authorization : string;
  crq_dpop_proof : string;
  crq_body : bytes;
}.

Inductive CredentialEffect : Type :=
| SendNonce (r : NonceRequest)
| AcquireKeyAttestation (r : KeyAttestationRequest)
| SignCredentialProof (r : SigningRequest)
| SignDpop (r : SigningRequest)
| SendCredential (r : CredentialRequest)
| SendDeferred (r : CredentialRequest).

Record EndpointResponse : Type := {
  er_request_id : CorrelationId;
  er_endpoint : string;
  er_method : string;
  er_status : Z;
  content_type_headers : list string;
  er_cache_control_headers : list string;
  er_pragma_headers : list string;
  content_encoding_headers : list string;
  er_dpop_nonce_headers : list string;
  www_authenticate_headers : list string;
  er_body : bytes;
}.

Inductive CredentialInput : Type :=
| InNonceResponse (r : EndpointResponse)
| InKeyAttestation (a : KeyAttestation)
| InCredentialProofSignature (s : SignatureResult)
| InDpopSignature (s : SignatureResult)
| InCredentialResponse (r : EndpointResponse)
| PollDeferred.

Record IssuedCredential : Type := {
  ic_format : GermanPidFormat;
  ic_raw : bytes;
  ic_c_nonce_hash : bytes;
}.

Record CredentialEnvironment : Type := {
  ce_random : nat -> bytes;
  ce_now_epoch_seconds : Z;
  seen_c_nonce_hashes : list bytes;
}.

Record Context : Type := {
  cr_access_token : string;
  cr_token_issued_at_epoch_seconds : Z;
  cr_token_expires_in_seconds : option Z;
  cr_credential_issuer : HttpsIdentifier;
  cr_format : GermanPidFormat;
  cr_expected_vct : string;
  cr_credential_endpoint : HttpsEndpoint;
  cr_nonce_endpoint : HttpsEndpoint;
  cr_deferred_credential_endpoint : option HttpsEndpoint;
  cr_request_target : SelectedRequestTarget;
  cr_dpop_key_ref : KeyRef;
  cr_dpop_public_jwk : Es256PublicJwk;
  cr_credential_key_ref : KeyRef;
  cr_credential_public_jwk : Es256PublicJwk;
  credential_endpoint_nonce : option string;
  retired_credential_endpoint_nonces : list string;
  cr_used_random_values : list bytes;
  cr_last_now_epoch_seconds : Z;
}.

Inductive Stage : Type :=
| AwaitingNonceResponse (request_id : CorrelationId)
| AwaitingKeyAttestation (request_id : CorrelationId) (c_nonce : string) (c_nonce_hash : bytes)
| SigningCredentialProof (request_id : CorrelationId) (c_nonce_hash : bytes) (signing_input : bytes)
| SigningDpop (request_id : CorrelationId) (c_nonce_hash : bytes) (credential_proof : string)
    (signing_input : bytes) (nonce_retry_count : Z)
| AwaitingCredentialResponse (request_id : CorrelationId) (c_nonce_hash : bytes) (credential_proof : string)
    (nonce_retry_count : Z)
| Deferred (transaction_id : string) (next_poll_epoch_seconds : Z) (c_nonce_hash : bytes)
| SigningDeferredDpop (request_id : CorrelationId) (transaction_id : string) (c_nonce_hash : bytes)
    (signing_input : bytes) (nonce_retry_count : Z)
| AwaitingDeferredResponse (request_id : CorrelationId) (transaction_id : string) (c_nonce_hash : bytes)
    (nonce_retry_count : Z)
| Complete (credential : IssuedCredential)
| Failed (e : CredentialError).

Record CredentialFlow : Type := { cf_context : Context; cf_stage : Stage }.

(** ** Configuration *)

Definition valid_bounded_text (value : string) (max : Z) : bool := OAuthText.valid_bounded_text value max false.

Definition credential_key_binding_new (key_ref : KeyRef) (public_jwk : Es256PublicJwk)
  : result CredentialKeyBinding CredentialError :=
  if negb (valid_bounded_text (key_ref_name key_ref) 1024) then Err InvalidConfiguration
  else Ok {| ckb_key_ref := key_ref; ckb_public_jwk := public_jwk |}.

#[export] Instance holder_binding_eq_decision : EqDecision HolderBindingMethod.
Proof. solve_decision. Defined.
#[export] Instance signing_algorithm_eq_decision : EqDecision CredentialSigningAlgorithm.
Proof. solve_decision. Defined.

Definition valid_pid_plan (plan : GermanPidIssuancePlan) : bool :=
  match plan_format plan with
  | MsoMdoc => bool_decide (plan_holder_binding plan = CoseKey)
               && bool_decide (plan_credential_signing_algorithm plan = CoseEs256)
  | DcSdJwt => bool_decide (plan_holder_binding plan = Jwk)
               && bool_decide (plan_credential_signing_algorithm plan = JoseEs256)
  end.

(** The grant was obtained under the plan. *)
Definition grant_matches_plan (grant : AccessTokenGrant) (plan : GermanPidIssuancePlan) : bool :=
  String.eqb (identifier (gr_credential_issuer grant)) (identifier (plan_issuer plan))
  && String.eqb (identifier (gr_authorization_server grant)) (identifier (plan_server plan))
  && String.eqb (endpoint (gr_token_endpoint grant)) (endpoint (plan_token_endpoint plan))
  && String.eqb (gr_configuration_id grant) (plan_configuration_id plan)
  && String.eqb (endpoint (gr_credential_endpoint grant)) (endpoint (plan_credential_endpoint plan))
  && String.eqb (endpoint (gr_nonce_endpoint grant)) (endpoint (plan_nonce_endpoint plan))
  && String.eqb (plan_proof_signing_algorithm plan) "ES256"
  && valid_pid_plan plan.

Definition select_target (authorized_identifiers : list string) (configuration_id : string)
    (selection : CredentialSelection) : result SelectedRequestTarget CredentialError :=
  match authorized_identifiers, selection with
  | [], ConfigurationId => Ok (TargetConfigurationId configuration_id)
  | [], CredentialIdentifier _ | _ :: _, ConfigurationId => Err InvalidSelection
  | identifiers, CredentialIdentifier identifier =>
      if valid_bounded_text identifier 2048
         && existsb (fun allowed => ct_eq (as_bytes allowed) (as_bytes identifier)) identifiers
      then Ok (TargetCredentialIdentifier identifier) else Err InvalidSelection
  end.

Definition from_authorization (grant : AccessTokenGrant) (plan : GermanPidIssuancePlan)
    (selection : CredentialSelection) (credential_key : CredentialKeyBinding)
  : result CredentialFlowConfig CredentialError :=
  if negb (grant_matches_plan grant plan) then Err PlanGrantMismatch
  else
    let? request_target := select_target (credential_identifiers grant) (plan_configuration_id plan) selection in
    Ok {| cc_access_token := access_token grant;
          cc_token_issued_at_epoch_seconds := issued_at_epoch_seconds grant;
          cc_token_expires_in_seconds := expires_in_seconds grant;
          cc_credential_issuer := plan_issuer plan;
          cc_configuration_id := plan_configuration_id plan;
          cc_format := plan_format plan;
          cc_expected_vct := SD_JWT_PID_VCT;
          cc_credential_endpoint := plan_credential_endpoint plan;
          cc_nonce_endpoint := plan_nonce_endpoint plan;
          cc_deferred_credential_endpoint := plan_deferred_credential_endpoint plan;
          cc_request_target := request_target;
          cc_dpop_key_ref := key_ref (gr_dpop_key grant);
          cc_dpop_public_jwk := public_jwk (gr_dpop_key grant);
          cc_credential_key_ref := ckb_key_ref credential_key;
          cc_credential_public_jwk := ckb_public_jwk credential_key |}.

(** The plan under a policy, as the transports see it, is [transport_plan]. *)
Definition from_generic_authorization (grant : AccessTokenGrant) (plan : GenericCredentialIssuancePlan)
    (selection : CredentialSelection) (credential_key : CredentialKeyBinding)
  : result CredentialFlowConfig CredentialError :=
  let? config := from_authorization grant (transport_plan plan) selection credential_key in
  Ok {| config with cc_expected_vct := generic_expected_vct plan |}.

(** ** Header values *)

Definition valid_header_value (value : string) : bool :=
  negb (sis_empty value) && (slen value <=? 4096) && is_ascii (as_bytes value)
  && forallb header_byte (as_bytes value).

Definition validate_header_values (values : list string) : result unit CredentialError :=
  if is_empty values || (8 <? len values) || existsb (fun value => negb (valid_header_value value)) values
  then Err CachePolicyMissing else Ok tt.

Definition parse_single_header (values : list string) : option string :=
  match values with
  | [value] => if valid_header_value value then Some value else None
  | _ => None
  end.

Definition valid_json_content_type (value : string) : bool :=
  valid_header_value value && negb (has_byte Byte.x2c (as_bytes value)) && is_json_media_type (as_bytes value).

(** A directive that lets a cache keep the response. *)
Definition directive_caches (directive : bytes) : bool :=
  let name := match split_at_byte Byte.x3d directive with Some (name, _) => name | None => directive end in
  existsb (same_word (trim_ascii name)) ["public"; "max-age"; "s-maxage"; "immutable"]%string.

Definition some_directive (values : list string) (f : bytes -> bool) : bool :=
  existsb (fun value => existsb f (directives value)) values.

Definition content_encoding_ok (values : list string) : bool :=
  match values with
  | [] => true
  | [value] => valid_header_value value && same_word (as_bytes value) "identity"
  | _ => false
  end.

Definition validate_common_response_headers (response : EndpointResponse) (require_no_store : bool)
  : result unit CredentialError :=
  let? content_type := ok_or (parse_single_header (content_type_headers response)) InvalidMediaType in
  if negb (valid_json_content_type content_type) then Err InvalidMediaType
  else
    let? _ := validate_header_values (er_cache_control_headers response) in
    if require_no_store && negb (has_directive (er_cache_control_headers response) "no-store")
    then Err CachePolicyMissing
    else if some_directive (er_cache_control_headers response) directive_caches then Err CachePolicyMissing
    else
      let? _ :=
        if is_empty (er_pragma_headers response) then Ok tt
        else
          let? _ := validate_header_values (er_pragma_headers response) in
          if forallb (fun value => forallb (fun d => same_word d "no-cache") (directives value))
               (er_pragma_headers response)
          then Ok tt else Err CachePolicyMissing in
      if content_encoding_ok (content_encoding_headers response) then Ok tt else Err InvalidContentEncoding.

Definition parse_single_dpop_nonce (values : list string) : result (option string) CredentialError :=
  match values with
  | [] => Ok None
  | [value] =>
      if (slen value <=? MAX_DPOP_NONCE_BYTES) && valid_header_value value && forallb is_nqchar (as_bytes value)
      then Ok (Some value) else Err DpopNonceInvalid
  | _ => Err DpopNonceInvalid
  end.

Definition validate_clock (now : Z) : result unit CredentialError :=
  if 0 <? now then Ok tt else Err InvalidClock.

Definition validate_token_lifetime (issued_at : Z) (expires_in : option Z) (now : Z)
  : result unit CredentialError :=
  if (issued_at <=? 0) || (now <? issued_at) then Err InvalidClock
  else
    match expires_in with
    | None => Ok tt
    | Some expires_in =>
        let? deadline := ok_or (checked_i64 (issued_at + expires_in)) TokenExpired in
        if deadline <=? now then Err TokenExpired else Ok tt
    end.

Definition validate_transport_binding (expected_request_id : CorrelationId)
    (expected_endpoint expected_method : string) (response : EndpointResponse) : result unit CredentialError :=
  if ct_eq expected_request_id (er_request_id response) && String.eqb (er_endpoint response) expected_endpoint
     && String.eqb (er_method response) expected_method
  then Ok tt else Err TransportBindingMismatch.

(** ** Challenges *)

Definition is_quote (b : byte) : bool := Byte.eqb b Byte.x22.
Definition is_backslash (b : byte) : bool := Byte.eqb b Byte.x5c.

(** The parts between commas that are not quoted, each with what was read of it
    so far; nothing when a quotation or an escape is not closed. *)
Fixpoint auth_parts (input part : bytes) (quoted escaped : bool) : option (list bytes) :=
  match input with
  | [] => if quoted || escaped then None else Some [part]
  | b :: input =>
      if escaped then auth_parts input (part ++ [b]) quoted false
      else if is_backslash b && quoted then auth_parts input (part ++ [b]) quoted true
      else if is_quote b then auth_parts input (part ++ [b]) (negb quoted) false
      else if Byte.eqb b Byte.x2c && negb quoted then
        let! parts := auth_parts input [] quoted false in Some (part :: parts)
      else auth_parts input (part ++ [b]) quoted false
  end.

(** The characters of a quoted string; all of them are ASCII. *)
Fixpoint quoted_text (inner output : bytes) (escaped : bool) : result bytes CredentialError :=
  match inner with
  | [] => if escaped || (2048 <? len output) then Err DpopNonceInvalid else Ok output
  | c :: inner =>
      if escaped then
        if negb (is_quote c) && negb (is_backslash c) then Err DpopNonceInvalid
        else quoted_text inner (output ++ [c]) false
      else if is_backslash c then quoted_text inner output true
      else if is_quote c || is_control (byte.unsigned c) then Err DpopNonceInvalid
      else quoted_text inner (output ++ [c]) false
  end.

(** What a pair of quotation marks encloses. *)
Definition unquote (value : bytes) : option bytes :=
  let! rest := strip_prefix [Byte.x22] value in
  match rev rest with
  | b :: inner => if is_quote b then Some (rev inner) else None
  | [] => None
  end.

Definition token_byte (b : byte) : bool := is_ascii_alphanumeric b || one_of_bytes (as_bytes "!#$%&'*+-.^_`|~") b.

Definition parse_auth_parameter_value (value : bytes) : result string CredentialError :=
  match unquote value with
  | Some inner => let? output := quoted_text inner [] false in Ok (string_of_list_byte output)
  | None =>
      if negb (is_empty value) && (len value <=? 2048) && forallb token_byte value
      then Ok (string_of_list_byte value) else Err DpopNonceInvalid
  end.

Definition parameter_name_byte (b : byte) : bool := is_ascii_alphanumeric b || one_of_bytes (as_bytes "-_") b.

(** The loop over the parts. *)
Fixpoint auth_parameters (parts : list bytes) (result_ : BTreeMap string string)
  : result (BTreeMap string string) CredentialError :=
  match parts with
  | [] => Ok result_
  | part :: parts =>
      let? (name, value) := ok_or (split_at_byte Byte.x3d (trim_ascii part)) DpopNonceInvalid in
      let name := map to_ascii_lowercase (trim_ascii name) in
      if is_empty name || negb (forallb parameter_name_byte name)
         || bt_contains result_ (string_of_list_byte name)
      then Err DpopNonceInvalid
      else
        let? value := parse_auth_parameter_value (trim_ascii value) in
        auth_parameters parts (bt_insert (string_of_list_byte name) value result_)
  end.

Definition parse_auth_parameters (input : bytes) : result (BTreeMap string string) CredentialError :=
  let? parts := ok_or (auth_parts input [] false false) DpopNonceInvalid in
  if is_empty parts || (16 <? len parts) then Err DpopNonceInvalid else auth_parameters parts [].

(** [split_once(char::is_whitespace)] of an ASCII string. *)
Fixpoint split_whitespace (value : bytes) : option (bytes * bytes) :=
  match value with
  | [] => None
  | b :: value =>
      if ascii_whitespace b then Some ([], value)
      else let! (scheme, rest) := split_whitespace value in Some (b :: scheme, rest)
  end.

Definition is_use_dpop_nonce_challenge (values : list string) : result bool CredentialError :=
  match values with
  | [] => Ok false
  | [challenge] =>
      if valid_header_value challenge then
        let? (scheme, parameters) := ok_or (split_whitespace (as_bytes challenge)) DpopNonceInvalid in
        if negb (same_word scheme "DPoP") then Ok false
        else
          let? parameters := parse_auth_parameters parameters in
          Ok (bool_decide (bt_get parameters "error" = Some "use_dpop_nonce"%string))
      else Err DpopNonceInvalid
  | _ => Err DpopNonceInvalid
  end.

(** ** Documents *)

(** The member [k] of an object is the string [s]. *)
Definition member_is (object : BTreeMap string Serde.Value) (k s : string) : bool :=
  bool_decide (m_get_str object k = Some s).

Record DecodedCompactJwt : Type := { dj_header : bytes; dj_payload : bytes; dj_signature : bytes }.

Section documents.
Context `{B64 : Base64} `{X : X509Der} `{SB : StdBase64} `{SE : StdBase64Encode} {SJ : SerdeJson}.

Definition decode_segment (segment : bytes) (max_segment_bytes : Z) : option bytes :=
  if is_empty segment || negb (is_base64url_unpadded segment) then None
  else
    let! value := decode_vec (string_of_list_byte segment) in
    if is_empty value || (max_segment_bytes <? len value)
       || negb (bool_decide (as_bytes (base64url value) = segment))
    then None else Some value.

(** The errors are all [()]. *)
Definition split_compact_jwt (compact : string) (max_compact max_segment_bytes : Z) : option DecodedCompactJwt :=
  if sis_empty compact || (max_compact <? slen compact) then None
  else
    match split_byte Byte.x2e (as_bytes compact) with
    | [h; p; s] =>
        let! header := decode_segment h max_segment_bytes in
        let! payload := decode_segment p max_segment_bytes in
        let! signature := decode_segment s max_segment_bytes in
        Some {| dj_header := header; dj_payload := payload; dj_signature := signature |}
    | _ => None
    end.

Definition parse_nonce_response (input : bytes) : result string CredentialError :=
  let? object := map_err (BoundedJson.parse_object NONCE_JSON_LIMITS input) (fun _ => InvalidNonceResponse) in
  if bt_contains object "error" then Err InvalidNonceResponse
  else
    match bt_get object "c_nonce" with
    | Some (VString value) =>
        if valid_bounded_text value MAX_C_NONCE_BYTES && forallb is_nqchar (as_bytes value) then Ok value
        else Err InvalidNonceResponse
    | _ => Err InvalidNonceResponse
    end.

(** *** Key attestations *)

Definition string_array_contains (object : BTreeMap string Serde.Value) (field expected : string) : bool :=
  match (let! v := bt_get object field in json_array v) with
  | Some values =>
      negb (is_empty values) && (len values <=? 16)
      && forallb (fun v => match json_str v with Some s => valid_bounded_text s 256 | None => false end) values
      && existsb (fun v => bool_decide (json_str v = Some expected)) values
  | None => false
  end.

(** One element of [x5c]: a canonical base64 text of a certificate. *)
Definition parse_certificate (certificate : Serde.Value) : result ParsedCert CredentialError :=
  let? certificate := ok_or (filtered (json_str certificate) (fun v => slen v <=? 16 * 1024))
                        KeyAttestationInvalid in
  let? decoded := ok_or (std_decode_vec certificate) KeyAttestationInvalid in
  if is_empty decoded || negb (String.eqb (std_encode_string decoded) certificate) then Err KeyAttestationInvalid
  else map_err (parse_cert decoded) (fun _ => KeyAttestationInvalid).

Fixpoint parse_certificates (certificates : list Serde.Value) : result (list ParsedCert) CredentialError :=
  match certificates with
  | [] => Ok []
  | certificate :: certificates =>
      let? parsed := parse_certificate certificate in
      let? rest := parse_certificates certificates in
      Ok (parsed :: rest)
  end.

Definition self_issued (certificate : ParsedCert) : bool :=
  String.eqb (X509.subject certificate) (X509.issuer certificate).

(** [iss] is absent or a bounded text. *)
Definition issuer_claim_ok (payload : BTreeMap string Serde.Value) : bool :=
  match bt_get payload "iss" with
  | None => true
  | Some v => match json_str v with Some s => valid_bounded_text s 2048 | None => false end
  end.

Definition attestation_dates_ok (issued_at expires_at now : Z) : bool :=
  (0 <? issued_at) && (issued_at <=? now) && (now <? expires_at) && (issued_at <? expires_at).

Definition nonce_claim_ok (payload : BTreeMap string Serde.Value) (expected_nonce : string) : bool :=
  match m_get_str payload "nonce" with
  | Some nonce => ct_eq (as_bytes nonce) (as_bytes expected_nonce)
  | None => false
  end.

(** The one attested key is the expected one. *)
Definition attested_key_ok (payload : BTreeMap string Serde.Value) (expected_jwk : Es256PublicJwk) : bool :=
  match (let! v := bt_get payload "attested_keys" in json_array v) with
  | Some [key] =>
      match json_object key with
      | Some key => member_is key "kty" "EC" && member_is key "crv" "P-256"
                    && member_is key "x" (jwk_x expected_jwk) && member_is key "y" (jwk_y expected_jwk)
      | None => false
      end
  | _ => false
  end.

Definition validate_key_attestation (compact expected_nonce : string) (expected_jwk : Es256PublicJwk) (now : Z)
  : result unit CredentialError :=
  let? jwt := ok_or (split_compact_jwt compact MAX_KEY_ATTESTATION_BYTES MAX_KEY_ATTESTATION_SEGMENT_BYTES)
                KeyAttestationInvalid in
  if negb (len (dj_signature jwt) =? 64) then Err KeyAttestationInvalid
  else
    let? header := map_err (BoundedJson.parse_object JWT_JSON_LIMITS (dj_header jwt))
                     (fun _ => KeyAttestationInvalid) in
    if negb (member_is header "alg" "ES256") || negb (member_is header "typ" "key-attestation+jwt")
    then Err KeyAttestationInvalid
    else
      let? certificates := ok_or (let! v := bt_get header "x5c" in json_array v) KeyAttestationInvalid in
      if is_empty certificates || (8 <? len certificates) then Err KeyAttestationInvalid
      else
        let? parsed_certificates := parse_certificates certificates in
        if existsb self_issued parsed_certificates then Err KeyAttestationInvalid
        else
          let? payload := map_err (BoundedJson.parse_object JWT_JSON_LIMITS (dj_payload jwt))
                            (fun _ => KeyAttestationInvalid) in
          if negb (issuer_claim_ok payload) then Err KeyAttestationInvalid
          else
            let? issued_at := ok_or (m_get_i64 payload "iat") KeyAttestationInvalid in
            let? expires_at := ok_or (m_get_i64 payload "exp") KeyAttestationInvalid in
            if negb (attestation_dates_ok issued_at expires_at now) then Err KeyAttestationInvalid
            else if negb (nonce_claim_ok payload expected_nonce)
                    || negb (string_array_contains payload "key_storage" "iso_18045_high")
                    || negb (string_array_contains payload "user_authentication" "iso_18045_high")
            then Err KeyAttestationInvalid
            else if attested_key_ok payload expected_jwk then Ok tt else Err KeyAttestationInvalid.

(** *** Credentials *)

Definition validate_sd_jwt (compact expected_issuer expected_vct : string) : result bytes CredentialError :=
  if negb (in_range 1 MAX_SD_JWT_COMPONENT_SEPARATORS (count_byte Byte.x7e (as_bytes compact)))
  then Err CredentialFormatMismatch
  else
    let? parsed := map_err (SdJwt.parse compact) (fun _ => CredentialFormatMismatch) in
    if is_some (key_binding_jwt parsed) then Err CredentialFormatMismatch
    else
      let? jwt := ok_or (split_compact_jwt (issuer_jwt parsed) MAX_CREDENTIAL_BYTES MAX_CREDENTIAL_BYTES)
                    CredentialFormatMismatch in
      if negb (len (dj_signature jwt) =? 64) then Err CredentialFormatMismatch
      else
        let? header := map_err (BoundedJson.parse_object CREDENTIAL_JSON_LIMITS (dj_header jwt))
                         (fun _ => CredentialFormatMismatch) in
        let? payload := map_err (BoundedJson.parse_object CREDENTIAL_JSON_LIMITS (dj_payload jwt))
                          (fun _ => CredentialFormatMismatch) in
        if member_is header "alg" "ES256" && member_is header "typ" "dc+sd-jwt"
           && member_is payload "vct" expected_vct && member_is payload "iss" expected_issuer
        then Ok (as_bytes compact) else Err CredentialFormatMismatch.

Definition cose_alg_is_es256 (protected : bytes) : bool :=
  match from_canonical_slice protected with
  | Ok (Map entries) => existsb (fun '(key, value) => bool_decide (key = Uint 1) && bool_decide (value = Nint 6)) entries
  | _ => false
  end.

Definition validate_mdoc_pid (encoded : string) : result bytes CredentialError :=
  if negb (is_base64url_unpadded (as_bytes encoded)) then Err CredentialFormatMismatch
  else
    let? decoded := ok_or (decode_vec encoded) CredentialFormatMismatch in
    if is_empty decoded || (MAX_CREDENTIAL_BYTES <? len decoded) || negb (String.eqb (base64url decoded) encoded)
    then Err CredentialFormatMismatch
    else
      let? issued := map_err (issuer_signed_parse decoded) (fun _ => CredentialFormatMismatch) in
      if negb (match issuer_signed_doc_type issued with
               | Ok doc_type => String.eqb doc_type MDOC_PID_DOCTYPE
               | Err _ => false
               end)
         || negb (len (Cose.signature (issuer_auth issued)) =? 64)
         || negb (cose_alg_is_es256 (protected (issuer_auth issued)))
      then Err CredentialFormatMismatch
      else Ok decoded.

Definition parse_immediate_credential (input : bytes) (format : GermanPidFormat)
    (expected_issuer expected_vct : string) : result bytes CredentialError :=
  let? object := map_err (BoundedJson.parse_object CREDENTIAL_JSON_LIMITS input)
                   (fun _ => InvalidCredentialResponse) in
  if bt_contains object "transaction_id" || bt_contains object "interval" || bt_contains object "acceptance_token"
  then Err DeferredIssuanceUnsupported
  else if bt_contains object "notification_id" then Err NotificationUnsupported
  else if bt_contains object "refresh_token" || bt_contains object "reissuance" then Err ReissuanceUnsupported
  else if bt_contains object "credential_response_encryption" then Err ResponseEncryptionUnsupported
  else
    let? credentials := ok_or (let! v := bt_get object "credentials" in json_array v) InvalidCredentialResponse in
    if 1 <? len credentials then Err BatchIssuanceUnsupported
    else
      let? credential :=
        ok_or (filtered (let! v := head credentials in let! object := json_object v in m_get_str object "credential")
                 (fun value => negb (sis_empty value) && (slen value <=? MAX_CREDENTIAL_BYTES)))
          InvalidCredentialResponse in
      match format with
      | DcSdJwt => validate_sd_jwt credential expected_issuer expected_vct
      | MsoMdoc => validate_mdoc_pid credential
      end.

Definition parse_deferred_credential (input : bytes) : result (string * Z) CredentialError :=
  let? object := map_err (BoundedJson.parse_object CREDENTIAL_JSON_LIMITS input)
                   (fun _ => InvalidCredentialResponse) in
  if bt_contains object "credentials" || bt_contains object "acceptance_token" then Err InvalidCredentialResponse
  else
    let? transaction_id :=
      ok_or (filtered (m_get_str object "transaction_id") (fun v => valid_bounded_text v 2048))
        InvalidCredentialResponse in
    let? interval := ok_or (let! v := bt_get object "interval" in v_as_u64 v) InvalidCredentialResponse in
    if (interval <=? U32_MAX) && (0 <? interval) then Ok (transaction_id, interval)
    else Err InvalidCredentialResponse.

Definition parse_use_dpop_nonce_body (input : bytes) : result unit CredentialError :=
  let? object := map_err (BoundedJson.parse_object NONCE_JSON_LIMITS input) (fun _ => DpopNonceInvalid) in
  if member_is object "error" "use_dpop_nonce" then Ok tt else Err DpopNonceInvalid.
End documents.

(** ** Random values and nonces *)

Definition fresh_random_in (fill : bytes) (used : list bytes) : list bytes * result bytes CredentialError :=
  if 32 <=? len used then (used, Err RandomnessFailure)
  else if forallb (Byte.eqb Byte.x00) fill || existsb (fun seen => ct_eq seen fill) used
  then (used, Err RandomnessFailure)
  else (used ++ [fill], Ok fill).

Definition fresh_random (self : Context) (fill : bytes) : Context * result bytes CredentialError :=
  let '(used, r) := fresh_random_in fill (cr_used_random_values self) in
  ({| self with cr_used_random_values := used |}, r).

Definition rotate_credential_endpoint_nonce (self : Context) (nonce : string)
  : Context * result unit CredentialError :=
  if match credential_endpoint_nonce self with
     | Some current => ct_eq (as_bytes current) (as_bytes nonce)
     | None => false
     end
     || existsb (fun retired => ct_eq (as_bytes retired) (as_bytes nonce)) (retired_credential_endpoint_nonces self)
  then (self, Err DpopNonceStale)
  else
    let previous := credential_endpoint_nonce self in
    let self := {| self with credential_endpoint_nonce := Some nonce |} in
    match previous with
    | Some previous =>
        ({| self with retired_credential_endpoint_nonces :=
                        retired_credential_endpoint_nonces self ++ [previous] |}, Ok tt)
    | None => (self, Ok tt)
    end.

(** [if let Some(nonce) = nonce { rotate(nonce)? }]. *)
Definition rotate_if_some (self : Context) (nonce : option string) : Context * result unit CredentialError :=
  match nonce with
  | Some nonce => rotate_credential_endpoint_nonce self nonce
  | None => (self, Ok tt)
  end.

Section flow.
Context `{D : Digest} `{B64 : Base64} `{X : X509Der} `{SB : StdBase64} `{SE : StdBase64Encode} {SJ : SerdeJson}.

(** ** Requests *)

Definition object_of (members : list (string * Serde.Value)) : Serde.Value := VObject (bt_extend [] members).

Definition jwk_value (jwk : Es256PublicJwk) : Serde.Value :=
  object_of [("crv", VString "P-256"); ("kty", VString "EC"); ("x", VString (jwk_x jwk));
             ("y", VString (jwk_y jwk))]%string.

Definition signing_input_of (header payload : Serde.Value) : result bytes CredentialError :=
  let signing_input :=
    as_bytes (base64url (value_to_vec header)) ++ as_bytes "." ++ as_bytes (base64url (value_to_vec payload)) in
  if MAX_SIGNING_INPUT_BYTES <? len signing_input then Err InvalidConfiguration else Ok signing_input.

Definition proof_header (jwk : Es256PublicJwk) (key_attestation : string) : Serde.Value :=
  object_of [("alg", VString "ES256"); ("jwk", jwk_value jwk); ("key_attestation", VString key_attestation);
             ("typ", VString "openid4vci-proof+jwt")]%string.

Definition proof_payload (credential_issuer c_nonce : string) (iat : Z) : Serde.Value :=
  object_of [("aud", VString credential_issuer); ("iat", json_int iat); ("nonce", VString c_nonce)]%string.

Definition build_credential_proof_signing_input (credential_issuer c_nonce : string) (jwk : Es256PublicJwk)
    (key_attestation : string) (iat : Z) : result bytes CredentialError :=
  signing_input_of (proof_header jwk key_attestation) (proof_payload credential_issuer c_nonce iat).

Definition dpop_header (jwk : Es256PublicJwk) : Serde.Value :=
  object_of [("alg", VString "ES256"); ("jwk", jwk_value jwk); ("typ", VString "dpop+jwt")]%string.

Definition dpop_payload (endpoint access_token jti : string) (iat : Z) (nonce : option string) : Serde.Value :=
  object_of ([("ath", VString (base64url (sha256 (as_bytes access_token)))); ("htm", VString "POST");
              ("htu", VString (dpop_htu endpoint)); ("iat", json_int iat); ("jti", VString jti)]%string
             ++ match nonce with Some nonce => [("nonce"%string, VString nonce)] | None => [] end).

Definition build_dpop_signing_input (endpoint : string) (jwk : Es256PublicJwk) (access_token jti : string)
    (iat : Z) (nonce : option string) : result bytes CredentialError :=
  signing_input_of (dpop_header jwk) (dpop_payload endpoint access_token jti iat nonce).

Definition target_member (target : SelectedRequestTarget) : string * Serde.Value :=
  match target with
  | TargetConfigurationId identifier => ("credential_configuration_id"%string, VString identifier)
  | TargetCredentialIdentifier identifier => ("credential_identifier"%string, VString identifier)
  end.

Definition build_credential_request_body (target : SelectedRequestTarget) (proof : string)
  : result bytes CredentialError :=
  let body := value_to_vec (object_of [target_member target;
                ("proofs"%string, object_of [("jwt"%string, VArray [VString proof])])]) in
  if MAX_CREDENTIAL_REQUEST_BYTES <? len body then Err InvalidConfiguration else Ok body.

Definition assemble_compact_jwt (signing_input signature : bytes) : result string CredentialError :=
  ok_or (from_utf8 (signing_input ++ as_bytes "." ++ as_bytes (base64url signature))) InvalidConfiguration.

Definition deferred_body (transaction_id : string) : bytes :=
  value_to_vec (object_of [("transaction_id"%string, VString transaction_id)]).

Definition dpop_authorization (self : Context) : string := ("DPoP " ++ cr_access_token self)%string.

(** ** Handlers *)

Definition step_result : Type := Context * result (Stage * list CredentialEffect) CredentialError.

(** The two checks of a signature against the request it answers. *)
Definition signature_answers (request_id : CorrelationId) (signing_input : bytes) (signature : SignatureResult)
  : bool :=
  ct_eq request_id (sg_request_id signature) && (len signing_input =? len (sg_signing_input signature))
  && ct_eq signing_input (sg_signing_input signature).

Definition seen_before (hash : bytes) (environment : CredentialEnvironment) : bool :=
  existsb (fun seen => ct_eq seen hash) (seen_c_nonce_hashes environment).

Definition accept_nonce_response (self : Context) (request_id : CorrelationId) (response : EndpointResponse)
    (environment : CredentialEnvironment) : step_result :=
  let~ _ := validate_transport_binding request_id (endpoint (cr_nonce_endpoint self)) "POST" response for self in
  if MAX_NONCE_RESPONSE_BYTES <? len (er_body response) then (self, Err InvalidNonceResponse)
  else
    let~ _ := validate_common_response_headers response true for self in
    if negb (in_range 200 299 (er_status response)) then (self, Err InvalidStatus)
    else if negb (is_empty (www_authenticate_headers response)) then (self, Err InvalidNonceResponse)
    else
      let~ nonce := parse_single_dpop_nonce (er_dpop_nonce_headers response) for self in
      let@ (self, _) := rotate_if_some self nonce in
      let~ c_nonce := parse_nonce_response (er_body response) for self in
      let c_nonce_hash := sha256 (as_bytes c_nonce) in
      if seen_before c_nonce_hash environment then (self, Err CNonceReplayed)
      else
        let@ (self, request_id) := fresh_random self (ce_random environment 0) in
        (self, Ok (AwaitingKeyAttestation request_id c_nonce c_nonce_hash,
                   [AcquireKeyAttestation {|
                      kar_request_id := request_id;
                      kar_credential_issuer := identifier (cr_credential_issuer self);
                      kar_credential_endpoint := endpoint (cr_credential_endpoint self);
                      kar_key_ref := cr_credential_key_ref self;
                      kar_public_jwk := cr_credential_public_jwk self;
                      kar_c_nonce := c_nonce |}])).

(** The attestation answers the request it was asked for with. *)
Definition attestation_bound (self : Context) (request_id : CorrelationId) (c_nonce : string)
    (attestation : KeyAttestation) : bool :=
  ct_eq request_id (ka_request_id attestation)
  && String.eqb (ka_credential_issuer attestation) (identifier (cr_credential_issuer self))
  && String.eqb (ka_credential_endpoint attestation) (endpoint (cr_credential_endpoint self))
  && String.eqb (key_ref_name (ka_key_ref attestation)) (key_ref_name (cr_credential_key_ref self))
  && bool_decide (ka_public_jwk attestation = cr_credential_public_jwk self)
  && ct_eq (as_bytes (ka_c_nonce attestation)) (as_bytes c_nonce).

Definition accept_key_attestation (self : Context) (request_id : CorrelationId) (c_nonce : string)
    (c_nonce_hash : bytes) (attestation : KeyAttestation) (environment : CredentialEnvironment) : step_result :=
  if negb (attestation_bound self request_id c_nonce attestation) then (self, Err KeyAttestationBindingMismatch)
  else
    let~ _ := validate_key_attestation (ka_jwt attestation) c_nonce (cr_credential_public_jwk self)
                (ce_now_epoch_seconds environment) for self in
    let~ signing_input :=
      build_credential_proof_signing_input (identifier (cr_credential_issuer self)) c_nonce
        (cr_credential_public_jwk self) (ka_jwt attestation) (ce_now_epoch_seconds environment) for self in
    let@ (self, request_id) := fresh_random self (ce_random environment 0) in
    (self, Ok (SigningCredentialProof request_id c_nonce_hash signing_input,
               [SignCredentialProof {| sr_request_id := request_id; sr_key_ref := cr_credential_key_ref self;
                                       sr_signing_input := signing_input |}])).

Definition dpop_signing_stage (self : Context) (c_nonce_hash : bytes) (credential_proof : string)
    (nonce_retry_count : Z) (environment : CredentialEnvironment)
  : Context * result (Stage * CredentialEffect) CredentialError :=
  let@ (self, jti) := fresh_random self (ce_random environment 0) in
  let~ signing_input :=
    build_dpop_signing_input (endpoint (cr_credential_endpoint self)) (cr_dpop_public_jwk self)
      (cr_access_token self) (base64url jti) (ce_now_epoch_seconds environment)
      (credential_endpoint_nonce self) for self in
  let@ (self, request_id) := fresh_random self (ce_random environment 1) in
  (self, Ok (SigningDpop request_id c_nonce_hash credential_proof signing_input nonce_retry_count,
             SignDpop {| sr_request_id := request_id; sr_key_ref := cr_dpop_key_ref self;
                         sr_signing_input := signing_input |})).

Definition accept_credential_proof_signature (self : Context) (request_id : CorrelationId) (c_nonce_hash : bytes)
    (signing_input : bytes) (signature : SignatureResult) (environment : CredentialEnvironment) : step_result :=
  if negb (signature_answers request_id signing_input signature)
  then (self, Err CredentialProofSigningMismatch)
  else if negb (len (sg_signature signature) =? 64) then (self, Err CredentialProofSignatureInvalid)
  else
    let~ credential_proof := assemble_compact_jwt signing_input (sg_signature signature) for self in
    let@ (self, (stage, effect)) := dpop_signing_stage self c_nonce_hash credential_proof 0 environment in
    (self, Ok (stage, [effect])).

Definition accept_dpop_signature (self : Context) (request_id : CorrelationId) (c_nonce_hash : bytes)
    (credential_proof : string) (signing_input : bytes) (nonce_retry_count : Z) (signature : SignatureResult)
    (environment : CredentialEnvironment) : step_result :=
  if negb (signature_answers request_id signing_input signature) then (self, Err DpopSigningMismatch)
  else if negb (len (sg_signature signature) =? 64) then (self, Err DpopSignatureInvalid)
  else
    let~ dpop_proof := map_err (assemble_compact_jwt signing_input (sg_signature signature))
                         (fun _ => DpopSignatureInvalid) for self in
    let~ body := build_credential_request_body (cr_request_target self) credential_proof for self in
    let@ (self, request_id) := fresh_random self (ce_random environment 0) in
    (self, Ok (AwaitingCredentialResponse request_id c_nonce_hash credential_proof nonce_retry_count,
               [SendCredential {| crq_request_id := request_id; crq_endpoint := endpoint (cr_credential_endpoint self);
                                  crq_authorization := dpop_authorization self; crq_dpop_proof := dpop_proof;
                                  crq_body := body |}])).

(** The time of the next poll. *)
Definition next_poll (environment : CredentialEnvironment) (interval_seconds : Z) : result Z CredentialError :=
  ok_or (checked_i64 (ce_now_epoch_seconds environment + interval_seconds)) InvalidClock.

(** [status == 401 && is_use_dpop_nonce_challenge(..)?]. *)
Definition dpop_challenged (response : EndpointResponse) : result bool CredentialError :=
  if er_status response =? 401 then is_use_dpop_nonce_challenge (www_authenticate_headers response) else Ok false.

(** The nonce of a challenge that may still be answered. *)
Definition challenge_nonce (response : EndpointResponse) (nonce : option string) (nonce_retry_count : Z)
  : result string CredentialError :=
  let? nonce := ok_or nonce DpopNonceInvalid in
  let? _ := parse_use_dpop_nonce_body (er_body response) in
  if MAX_RESOURCE_DPOP_NONCE_RETRIES <=? nonce_retry_count then Err DpopNonceRetryLimit else Ok nonce.

Definition accept_credential_response (self : Context) (request_id : CorrelationId) (c_nonce_hash : bytes)
    (credential_proof : string) (nonce_retry_count : Z) (response : EndpointResponse)
    (environment : CredentialEnvironment) : step_result :=
  let~ _ := validate_transport_binding request_id (endpoint (cr_credential_endpoint self)) "POST" response for self in
  if MAX_CREDENTIAL_RESPONSE_BYTES <? len (er_body response) then (self, Err InvalidCredentialResponse)
  else
    let~ _ := validate_common_response_headers response true for self in
    let~ nonce := parse_single_dpop_nonce (er_dpop_nonce_headers response) for self in
    let~ challenged := dpop_challenged response for self in
    if challenged : bool then
      let~ nonce := challenge_nonce response nonce nonce_retry_count for self in
      let@ (self, _) := rotate_credential_endpoint_nonce self nonce in
      let@ (self, (stage, effect)) :=
        dpop_signing_stage self c_nonce_hash credential_proof (nonce_retry_count + 1) environment in
      (self, Ok (stage, [effect]))
    else if negb (is_empty (www_authenticate_headers response)) then (self, Err CredentialRejected)
    else
      let@ (self, _) := rotate_if_some self nonce in
      if er_status response =? 202 then
        let~ _ := ok_or (cr_deferred_credential_endpoint self) DeferredIssuanceUnsupported for self in
        let~ (transaction_id, interval_seconds) := parse_deferred_credential (er_body response) for self in
        let~ next_poll_epoch_seconds := next_poll environment interval_seconds for self in
        (self, Ok (Deferred transaction_id next_poll_epoch_seconds c_nonce_hash, []))
      else if negb (er_status response =? 200) then (self, Err CredentialRejected)
      else
        let~ raw := parse_immediate_credential (er_body response) (cr_format self)
                      (identifier (cr_credential_issuer self)) (cr_expected_vct self) for self in
        (self, Ok (Complete {| ic_format := cr_format self; ic_raw := raw; ic_c_nonce_hash := c_nonce_hash |}, [])).

Definition deferred_dpop_signing_stage (self : Context) (transaction_id : string) (c_nonce_hash : bytes)
    (nonce_retry_count : Z) (environment : CredentialEnvironment) : step_result :=
  let~ deferred := ok_or (cr_deferred_credential_endpoint self) DeferredIssuanceUnsupported for self in
  let@ (self, jti) := fresh_random self (ce_random environment 0) in
  let~ signing_input :=
    build_dpop_signing_input (endpoint deferred) (cr_dpop_public_jwk self) (cr_access_token self)
      (base64url jti) (ce_now_epoch_seconds environment) (credential_endpoint_nonce self) for self in
  let@ (self, request_id) := fresh_random self (ce_random environment 1) in
  (self, Ok (SigningDeferredDpop request_id transaction_id c_nonce_hash signing_input nonce_retry_count,
             [SignDpop {| sr_request_id := request_id; sr_key_ref := cr_dpop_key_ref self;
                          sr_signing_input := signing_input |}])).

Definition accept_deferred_dpop_signature (self : Context) (request_id : CorrelationId) (transaction_id : string)
    (c_nonce_hash : bytes) (signing_input : bytes) (nonce_retry_count : Z) (signature : SignatureResult)
    (environment : CredentialEnvironment) : step_result :=
  if negb (signature_answers request_id signing_input signature) then (self, Err DpopSigningMismatch)
  else if negb (len (sg_signature signature) =? 64) then (self, Err DpopSignatureInvalid)
  else
    let~ deferred := ok_or (cr_deferred_credential_endpoint self) DeferredIssuanceUnsupported for self in
    let~ dpop_proof := assemble_compact_jwt signing_input (sg_signature signature) for self in
    let@ (self, response_request_id) := fresh_random self (ce_random environment 0) in
    (self, Ok (AwaitingDeferredResponse response_request_id transaction_id c_nonce_hash nonce_retry_count,
               [SendDeferred {| crq_request_id := response_request_id; crq_endpoint := endpoint deferred;
                                crq_authorization := dpop_authorization self; crq_dpop_proof := dpop_proof;
                                crq_body := deferred_body transaction_id |}])).

Definition accept_deferred_response (self : Context) (request_id : CorrelationId) (transaction_id : string)
    (c_nonce_hash : bytes) (nonce_retry_count : Z) (response : EndpointResponse)
    (environment : CredentialEnvironment) : step_result :=
  let~ deferred := ok_or (cr_deferred_credential_endpoint self) DeferredIssuanceUnsupported for self in
  let~ _ := validate_transport_binding request_id (endpoint deferred) "POST" response for self in
  if MAX_CREDENTIAL_RESPONSE_BYTES <? len (er_body response) then (self, Err InvalidCredentialResponse)
  else
    let~ _ := validate_common_response_headers response true for self in
    let~ nonce := parse_single_dpop_nonce (er_dpop_nonce_headers response) for self in
    let~ challenged := dpop_challenged response for self in
    if challenged : bool then
      let~ nonce := challenge_nonce response nonce nonce_retry_count for self in
      let@ (self, _) := rotate_credential_endpoint_nonce self nonce in
      deferred_dpop_signing_stage self transaction_id c_nonce_hash (nonce_retry_count + 1) environment
    else if negb (is_empty (www_authenticate_headers response)) then (self, Err CredentialRejected)
    else
      let@ (self, _) := rotate_if_some self nonce in
      if er_status response =? 200 then
        let~ raw := parse_immediate_credential (er_body response) (cr_format self)
                      (identifier (cr_credential_issuer self)) (cr_expected_vct self) for self in
        (self, Ok (Complete {| ic_format := cr_format self; ic_raw := raw; ic_c_nonce_hash := c_nonce_hash |}, []))
      else if er_status response =? 202 then
        let~ (returned_id, interval_seconds) := parse_deferred_credential (er_body response) for self in
        if negb (ct_eq (as_bytes returned_id) (as_bytes transaction_id))
        then (self, Err InvalidCredentialResponse)
        else
          let~ next_poll_epoch_seconds := next_poll environment interval_seconds for self in
          (self, Ok (Deferred transaction_id next_poll_epoch_seconds c_nonce_hash, []))
      else (self, Err CredentialRejected).

(** ** The machine *)

Definition transition (self : Context) (stage : Stage) (input : CredentialInput)
    (environment : CredentialEnvironment) : step_result :=
  match stage, input with
  | AwaitingNonceResponse request_id, InNonceResponse r => accept_nonce_response self request_id r environment
  | AwaitingKeyAttestation request_id c_nonce c_nonce_hash, InKeyAttestation a =>
      accept_key_attestation self request_id c_nonce c_nonce_hash a environment
  | SigningCredentialProof request_id c_nonce_hash signing_input, InCredentialProofSignature s =>
      accept_credential_proof_signature self request_id c_nonce_hash signing_input s environment
  | SigningDpop request_id c_nonce_hash credential_proof signing_input retries, InDpopSignature s =>
      accept_dpop_signature self request_id c_nonce_hash credential_proof signing_input retries s environment
  | AwaitingCredentialResponse request_id c_nonce_hash credential_proof retries, InCredentialResponse r =>
      accept_credential_response self request_id c_nonce_hash credential_proof retries r environment
  | Deferred transaction_id _ c_nonce_hash, PollDeferred =>
      deferred_dpop_signing_stage self transaction_id c_nonce_hash 0 environment
  | SigningDeferredDpop request_id transaction_id c_nonce_hash signing_input retries, InDpopSignature s =>
      accept_deferred_dpop_signature self request_id transaction_id c_nonce_hash signing_input retries s environment
  | AwaitingDeferredResponse request_id transaction_id c_nonce_hash retries, InCredentialResponse r =>
      accept_deferred_response self request_id transaction_id c_nonce_hash retries r environment
  | _, _ => (self, Err UnexpectedInput)
  end.

Definition latch (self : CredentialFlow) (e : CredentialError) : CredentialFlow :=
  {| cf_context := cf_context self; cf_stage := Failed e |}.

Definition is_terminal (s : Stage) : bool := match s with Complete _ | Failed _ => true | _ => false end.

(** A poll that comes before its time. *)
Definition polls_early (stage : Stage) (input : CredentialInput) (now : Z) : bool :=
  match input, stage with
  | PollDeferred, Deferred _ next_poll_epoch_seconds _ => now <? next_poll_epoch_seconds
  | _, _ => false
  end.

Definition step (self : CredentialFlow) (input : CredentialInput) (environment : CredentialEnvironment)
  : CredentialFlow * result (list CredentialEffect) CredentialError :=
  let now := ce_now_epoch_seconds environment in
  let cx := cf_context self in
  match validate_clock now with
  | Err e => (latch self e, Err e)
  | Ok _ =>
      if now <? cr_last_now_epoch_seconds cx then (latch self InvalidClock, Err InvalidClock)
      else
        match validate_token_lifetime (cr_token_issued_at_epoch_seconds cx) (cr_token_expires_in_seconds cx) now with
        | Err e => (latch self e, Err e)
        | Ok _ =>
            let cx := {| cx with cr_last_now_epoch_seconds := now |} in
            if is_terminal (cf_stage self)
            then ({| cf_context := cx; cf_stage := cf_stage self |}, Err AlreadyTerminal)
            else if polls_early (cf_stage self) input now
            then ({| cf_context := cx; cf_stage := cf_stage self |}, Err DeferredPollTooEarly)
            else
              match transition cx (cf_stage self) input environment with
              | (cx, Ok (stage, effects)) => ({| cf_context := cx; cf_stage := stage |}, Ok effects)
              | (cx, Err e) => ({| cf_context := cx; cf_stage := Failed e |}, Err e)
              end
        end
  end.

Definition begin (config : CredentialFlowConfig) (environment : CredentialEnvironment)
  : result (CredentialFlow * CredentialEffect) CredentialError :=
  let now := ce_now_epoch_seconds environment in
  let? _ := validate_clock now in
  let? _ := validate_token_lifetime (cc_token_issued_at_epoch_seconds config)
              (cc_token_expires_in_seconds config) now in
  match fresh_random_in (ce_random environment 0) [] with
  | (_, Err e) => Err e
  | (used_random_values, Ok request_id) =>
      Ok ({| cf_context := {|
               cr_access_token := cc_access_token config;
               cr_token_issued_at_epoch_seconds := cc_token_issued_at_epoch_seconds config;
               cr_token_expires_in_seconds := cc_token_expires_in_seconds config;
               cr_credential_issuer := cc_credential_issuer config;
               cr_format := cc_format config;
               cr_expected_vct := cc_expected_vct config;
               cr_credential_endpoint := cc_credential_endpoint config;
               cr_nonce_endpoint := cc_nonce_endpoint config;
               cr_deferred_credential_endpoint := cc_deferred_credential_endpoint config;
               cr_request_target := cc_request_target config;
               cr_dpop_key_ref := cc_dpop_key_ref config;
               cr_dpop_public_jwk := cc_dpop_public_jwk config;
               cr_credential_key_ref := cc_credential_key_ref config;
               cr_credential_public_jwk := cc_credential_public_jwk config;
               credential_endpoint_nonce := None;
               retired_credential_endpoint_nonces := [];
               cr_used_random_values := used_random_values;
               cr_last_now_epoch_seconds := now |};
             cf_stage := AwaitingNonceResponse request_id |},
          SendNonce {| nr_request_id := request_id; nr_endpoint := endpoint (cc_nonce_endpoint config) |})
  end.

Definition flow_status (self : CredentialFlow) : FlowStatus :=
  match cf_stage self with
  | AwaitingNonceResponse _ => StatusNonceResponse
  | AwaitingKeyAttestation _ _ _ => StatusKeyAttestation
  | SigningCredentialProof _ _ _ => StatusCredentialProofSignature
  | SigningDpop _ _ _ _ _ => StatusDpopSignature
  | AwaitingCredentialResponse _ _ _ _ => StatusCredentialResponse
  | Deferred _ _ _ => StatusDeferred
  | SigningDeferredDpop _ _ _ _ _ => StatusDeferredDpopSignature
  | AwaitingDeferredResponse _ _ _ _ => StatusDeferredResponse
  | Complete _ => StatusComplete
  | Failed _ => StatusFailed
  end.

Definition failure (self : CredentialFlow) : option CredentialError :=
  match cf_stage self with Failed e => Some e | _ => None end.

Definition into_credential (self : CredentialFlow) : result IssuedCredential CredentialError :=
  match cf_stage self with
  | Complete credential => Ok credential
  | Failed e => Err e
  | _ => Err UnexpectedInput
  end.
End flow.
