(* ===== verification/CredentialSpec.v ===== *)
(** * What the credential transport guarantees

    Histories of a flow, as in [AuthorizationSpec].  A credential request, and
    every poll of an issuer that defers, is preceded by the whole chain of
    requests and answers that leads to it; a credential is the answer to such a
    request, in the format and for the issuer that were asked for; what ties the
    steps together does not repeat; and polling ends, because the values that
    are drawn for it are counted. *)

From stdpp Require Import list pretty.
From S2P Require Import Prelude Utf8 BTree Cbor Boundary Cose Mdoc X509 SdJwt PidProfile X509Profiles Serde Oid4vp Machine BoundedJson HttpsUrls Metadata ProfileSelection OAuthText Authorization AuthorizationSpec Credential.

Open Scope Z_scope.
Open Scope rust_scope.

Inductive happening : Type :=
| Received (i : CredentialInput) (env : CredentialEnvironment)
| Emitted (e : CredentialEffect).

Section flows.
Context `{D : Digest} `{B64 : Base64} `{X : X509Der} `{SB : StdBase64} `{SE : StdBase64Encode} {SJ : SerdeJson}.

(** The histories of a flow that begins with a configuration. *)
Inductive flow_run (config : CredentialFlowConfig) : list happening -> CredentialFlow -> Prop :=
| run_begin environment flow e :
    begin config environment = Ok (flow, e) -> flow_run config [Emitted e] flow
| run_step tr flow i environment flow' r :
    flow_run config tr flow -> step flow i environment = (flow', r) ->
    flow_run config
      (tr ++ Received i environment :: map Emitted (match r with Ok effects => effects | Err _ => [] end)) flow'.

(** ** What does not change *)

Definition base (self : Context) : Context :=
  {| self with credential_endpoint_nonce := None; retired_credential_endpoint_nonces := [];
               cr_used_random_values := []; cr_last_now_epoch_seconds := 0 |}.

Definition base_of (config : CredentialFlowConfig) : Context := {|
  cr_access_token := cc_access_token config;
  cr_token_issued_at_epoch_seconds := cc_token_issued_at_epoch_seconds config;
  cr_token_expires_in_seconds := cc_token_expires_in_seconds config;
  cr_credential_issuer := cc_credential_issuer config;
  cr_format := cc_format config;
  cr_expected_vct := cc_expected_vct config;
  cr_credential_endpoint := cc_credential_endpoint config;
  cr_nonce_endpoint := cc_nonce_endpoint config;
  cr_deferred_credential_endpoint := cc_deferred_credential_endpoint config;
  cr_request_target := cc_request_target config;
  cr_dpop_key_ref := cc_dpop_key_ref config;
  cr_dpop_public_jwk := cc_dpop_public_jwk config;
  cr_credential_key_ref := cc_credential_key_ref config;
  cr_credential_public_jwk := cc_credential_public_jwk config;
  credential_endpoint_nonce := None;
  retired_credential_endpoint_nonces := [];
  cr_used_random_values := [];
  cr_last_now_epoch_seconds := 0 |}.

(** ** The chain that leads to a credential *)

(** The issuer sent a nonce that was not used before, and an attestation of the
    credential key for it was asked for. *)
Definition asked (b : Context) (l : list happening) (c_nonce : string) (a : KeyAttestationRequest) : Prop :=
  exists nr r env, l = [Emitted (SendNonce nr); Received (InNonceResponse r) env; Emitted (AcquireKeyAttestation a)]
  /\ nr_endpoint nr = endpoint (cr_nonce_endpoint b)
  /\ er_request_id r = nr_request_id nr /\ er_endpoint r = nr_endpoint nr
  /\ parse_nonce_response (er_body r) = Ok c_nonce /\ seen_before (sha256 (as_bytes c_nonce)) env = false
  /\ kar_credential_issuer a = identifier (cr_credential_issuer b)
  /\ kar_credential_endpoint a = endpoint (cr_credential_endpoint b)
  /\ kar_key_ref a = cr_credential_key_ref b /\ kar_public_jwk a = cr_credential_public_jwk b
  /\ kar_c_nonce a = c_nonce.

(** The attestation arrived, and a proof that names issuer, nonce and key was
    to be signed with the credential key. *)
Definition attested (b : Context) (l : list happening) (c_nonce : string) (s : SigningRequest) : Prop :=
  exists l0 a ka env, l = l0 ++ [Received (InKeyAttestation ka) env; Emitted (SignCredentialProof s)]
  /\ asked b l0 c_nonce a
  /\ ka_request_id ka = kar_request_id a /\ ka_c_nonce ka = c_nonce /\ ka_public_jwk ka = kar_public_jwk a
  /\ validate_key_attestation (ka_jwt ka) c_nonce (cr_credential_public_jwk b) (ce_now_epoch_seconds env) = Ok tt
  /\ sr_key_ref s = cr_credential_key_ref b
  /\ build_credential_proof_signing_input (identifier (cr_credential_issuer b)) c_nonce
       (cr_credential_public_jwk b) (ka_jwt ka) (ce_now_epoch_seconds env) = Ok (sr_signing_input s).

(** The compact JWT of a signature that answers a request. *)
Definition signed (s : SigningRequest) (sg : SignatureResult) (jwt : string) : Prop :=
  sg_request_id sg = sr_request_id s /\ sg_signing_input sg = sr_signing_input s /\ len (sg_signature sg) = 64
  /\ as_bytes jwt = sr_signing_input s ++ as_bytes "." ++ as_bytes (base64url (sg_signature sg)).

Definition proved (b : Context) (l : list happening) (c_nonce proof : string) : Prop :=
  exists l0 s sg env, l = l0 ++ [Received (InCredentialProofSignature sg) env]
  /\ attested b l0 c_nonce s /\ signed s sg proof.

(** A DPoP proof of an endpoint, for the access token, with the DPoP key. *)
Definition dpop_asked (b : Context) (e : string) (s : SigningRequest) : Prop :=
  sr_key_ref s = cr_dpop_key_ref b
  /\ exists jti now nonce,
       build_dpop_signing_input e (cr_dpop_public_jwk b) (cr_access_token b) (base64url jti) now nonce
       = Ok (sr_signing_input s).

Definition dpop_signed (b : Context) (e : string) (l : list happening) (jwt : string) : Prop :=
  exists s sg env, l = [Emitted (SignDpop s); Received (InDpopSignature sg) env]
  /\ dpop_asked b e s /\ signed s sg jwt.

Definition carries_token (b : Context) (e : string) (q : CredentialRequest) : Prop :=
  crq_endpoint q = e /\ crq_authorization q = ("DPoP " ++ cr_access_token b)%string.

Definition requested (b : Context) (l : list happening) (c_nonce : string) (q : CredentialRequest) : Prop :=
  exists l0 l1 proof, l = l0 ++ l1 ++ [Emitted (SendCredential q)]
  /\ proved b l0 c_nonce proof
  /\ dpop_signed b (endpoint (cr_credential_endpoint b)) l1 (crq_dpop_proof q)
  /\ carries_token b (endpoint (cr_credential_endpoint b)) q
  /\ build_credential_request_body (cr_request_target b) proof = Ok (crq_body q).

Definition answers (r : EndpointResponse) (q : CredentialRequest) (code : Z) : Prop :=
  er_request_id r = crq_request_id q /\ er_endpoint r = crq_endpoint q /\ er_status r = code.

(** The issuer deferred the credential, to be asked for from [due] on; and it
    was asked for in time. *)
Inductive deferred (b : Context) (c_nonce tid : string) : list happening -> Z -> Prop :=
| deferred_first l q r env interval :
    requested b l c_nonce q -> answers r q 202 -> parse_deferred_credential (er_body r) = Ok (tid, interval) ->
    deferred b c_nonce tid (l ++ [Received (InCredentialResponse r) env]) (ce_now_epoch_seconds env + interval)
| deferred_again l q r env interval :
    polled b c_nonce tid l q -> answers r q 202 -> parse_deferred_credential (er_body r) = Ok (tid, interval) ->
    deferred b c_nonce tid (l ++ [Received (InCredentialResponse r) env]) (ce_now_epoch_seconds env + interval)
with polled (b : Context) (c_nonce tid : string) : list happening -> CredentialRequest -> Prop :=
| polled_due l due env l1 e q :
    deferred b c_nonce tid l due -> due <= ce_now_epoch_seconds env ->
    cr_deferred_credential_endpoint b = Some e ->
    dpop_signed b (endpoint e) l1 (crq_dpop_proof q) -> carries_token b (endpoint e) q ->
    crq_body q = deferred_body tid ->
    polled b c_nonce tid (l ++ [Received PollDeferred env] ++ l1 ++ [Emitted (SendDeferred q)]) q.

(** A credential is what the answer to a request or to a poll holds. *)
Definition issued (b : Context) (l : list happening) (c : IssuedCredential) : Prop :=
  exists l0 c_nonce q r env, l = l0 ++ [Received (InCredentialResponse r) env]
  /\ (requested b l0 c_nonce q \/ exists tid, polled b c_nonce tid l0 q)
  /\ answers r q 200
  /\ parse_immediate_credential (er_body r) (cr_format b) (identifier (cr_credential_issuer b)) (cr_expected_vct b)
     = Ok (ic_raw c)
  /\ ic_format c = cr_format b /\ ic_c_nonce_hash c = sha256 (as_bytes c_nonce).

(** The history that a stage stands for. *)
Definition stage_history (b : Context) (tr : list happening) (s : Stage) : Prop :=
  match s with
  | AwaitingNonceResponse id =>
      exists nr, nr_endpoint nr = endpoint (cr_nonce_endpoint b) /\ nr_request_id nr = id
        /\ sublist [Emitted (SendNonce nr)] tr
  | AwaitingKeyAttestation id c h =>
      h = sha256 (as_bytes c) /\ exists a l, asked b l c a /\ kar_request_id a = id /\ sublist l tr
  | SigningCredentialProof id h input =>
      exists c s l, h = sha256 (as_bytes c) /\ attested b l c s /\ sr_request_id s = id
        /\ sr_signing_input s = input /\ sublist l tr
  | SigningDpop id h proof input _ =>
      exists c s l, h = sha256 (as_bytes c) /\ proved b l c proof
        /\ dpop_asked b (endpoint (cr_credential_endpoint b)) s /\ sr_request_id s = id
        /\ sr_signing_input s = input /\ sublist (l ++ [Emitted (SignDpop s)]) tr
  | AwaitingCredentialResponse id h proof _ =>
      exists c, h = sha256 (as_bytes c) /\ (exists l, proved b l c proof /\ sublist l tr)
        /\ exists q l, requested b l c q /\ crq_request_id q = id /\ sublist l tr
  | Deferred tid due h => exists c l, h = sha256 (as_bytes c) /\ deferred b c tid l due /\ sublist l tr
  | SigningDeferredDpop id tid h input _ =>
      exists c l due env e s, h = sha256 (as_bytes c) /\ deferred b c tid l due
        /\ due <= ce_now_epoch_seconds env /\ cr_deferred_credential_endpoint b = Some e
        /\ dpop_asked b (endpoint e) s /\ sr_request_id s = id /\ sr_signing_input s = input
        /\ sublist (l ++ [Received PollDeferred env; Emitted (SignDpop s)]) tr
  | AwaitingDeferredResponse id tid h _ =>
      exists c, h = sha256 (as_bytes c)
        /\ (exists l due env, deferred b c tid l due /\ due <= ce_now_epoch_seconds env
              /\ sublist (l ++ [Received PollDeferred env]) tr)
        /\ exists q l, polled b c tid l q /\ crq_request_id q = id /\ sublist l tr
  | Complete c => exists l, issued b l c /\ sublist l tr
  | Failed _ => True
  end.

(** The history behind a request. *)
Definition justified (b : Context) (tr : list happening) (e : CredentialEffect) : Prop :=
  match e with
  | SendCredential q => exists c l, requested b l c q /\ sublist l tr
  | SendDeferred q => exists c tid l, polled b c tid l q /\ sublist l tr
  | _ => True
  end.

(** ** One step *)

Lemma draw_Ok self fill self' v :
  fresh_random self fill = (self', Ok v) ->
  v = fill /\ fill ∉ cr_used_random_values self /\ len (cr_used_random_values self) < 32
  /\ self' = {| self with cr_used_random_values := cr_used_random_values self ++ [fill] |}.
Proof.
  unfold fresh_random, fresh_random_in. intros H.
  destruct (Z.leb_spec 32 (len (cr_used_random_values self))); [done|].
  destruct (_ || _) eqn:E; [done|]. injection H as <- <-. apply orb_false_iff in E as [_ E].
  split_and!; [done| |done|done]. intros Hin. apply not_true_iff_false in E. apply E, existsb_exists.
  exists fill. rewrite <- list_elem_of_In, ct_eq_iff. done.
Qed.

(** Adopting a nonce: it is new, and the one it replaces is retired. *)
Lemma adopt_Ok self nonce self' :
  rotate_credential_endpoint_nonce self nonce = (self', Ok tt) ->
  nonce ∉ retired_credential_endpoint_nonces self /\ credential_endpoint_nonce self <> Some nonce
  /\ self' = {| self with credential_endpoint_nonce := Some nonce;
       retired_credential_endpoint_nonces :=
         retired_credential_endpoint_nonces self ++ option_list (credential_endpoint_nonce self) |}.
Proof.
  unfold rotate_credential_endpoint_nonce. intros H. destruct (_ || _) eqn:E; [done|].
  apply orb_false_iff in E as [Ec E]. split_and!.
  - intros Hin. apply not_true_iff_false in E. apply E, existsb_exists. exists nonce.
    rewrite <- list_elem_of_In, ct_eq_iff. done.
  - intros Hc. rewrite Hc in Ec. by apply ct_eq_false in Ec.
  - destruct (credential_endpoint_nonce self); injection H as <-; [done|]. destruct self; cbn. by rewrite app_nil_r.
Qed.

Lemma adopt_if_some_Ok self nonce self' :
  rotate_if_some self nonce = (self', Ok tt) ->
  self' = self \/ exists n, nonce = Some n /\ rotate_credential_endpoint_nonce self n = (self', Ok tt).
Proof. destruct nonce as [n|]; cbn; [eauto|]. intros [= <-]. by left. Qed.

Lemma adopt_base self nonce self' : rotate_if_some self nonce = (self', Ok tt) -> base self' = base self.
Proof.
  intros [->|(n & _ & (_ & _ & ->)%adopt_Ok)]%adopt_if_some_Ok; [done|]. by destruct self.
Qed.

Lemma base_drawn self l : base {| self with cr_used_random_values := l |} = base self.
Proof. by destruct self. Qed.

Lemma base_time self n : base {| self with cr_last_now_epoch_seconds := n |} = base self.
Proof. by destruct self. Qed.

Lemma binding_Ok id e method r :
  validate_transport_binding id e method r = Ok tt -> er_request_id r = id /\ er_endpoint r = e.
Proof.
  unfold validate_transport_binding. intros H. ok_steps H. bool_prop.
  repeat match goal with E : ct_eq _ _ = true |- _ => apply ct_eq_iff in E end.
  repeat match goal with E : String.eqb _ _ = true |- _ => apply String.eqb_eq in E end. done.
Qed.

Lemma signature_answers_iff id input sg :
  signature_answers id input sg = true -> sg_request_id sg = id /\ sg_signing_input sg = input.
Proof.
  unfold signature_answers. intros H. bool_prop.
  repeat match goal with E : ct_eq _ _ = true |- _ => apply ct_eq_iff in E end. by split.
Qed.

Lemma assemble_Ok input signature jwt :
  assemble_compact_jwt input signature = Ok jwt ->
  as_bytes jwt = input ++ as_bytes "." ++ as_bytes (base64url signature).
Proof. unfold assemble_compact_jwt. intros H%ok_or_Ok. by apply from_utf8_Some in H as [-> _]. Qed.

(** The signature that a handler accepted. *)
Lemma signed_by id input sg jwt s :
  negb (signature_answers id input sg) = false -> negb (len (sg_signature sg) =? 64) = false ->
  assemble_compact_jwt input (sg_signature sg) = Ok jwt ->
  sr_request_id s = id -> sr_signing_input s = input -> signed s sg jwt.
Proof.
  intros Ha%negb_false_iff%signature_answers_iff Hl%negb_false_iff%Z.eqb_eq Hj%assemble_Ok <- <-.
  split_and!; [apply Ha|apply Ha|done|done].
Qed.

Lemma attestation_bound_Ok self id c ka :
  attestation_bound self id c ka = true ->
  ka_request_id ka = id /\ ka_c_nonce ka = c /\ ka_public_jwk ka = cr_credential_public_jwk self.
Proof.
  unfold attestation_bound. intros H. bool_prop. ok_norm.
  repeat match goal with E : ct_eq _ _ = true |- _ => apply ct_eq_iff in E end.
  split_and!; [done|by apply as_bytes_inj|done].
Qed.

Definition extends (b : Context) (tr : list happening) (i : CredentialInput) (env : CredentialEnvironment)
    (self' : Context) (s : Stage) (effects : list CredentialEffect) : Prop :=
  let tr' := tr ++ Received i env :: map Emitted effects in
  base self' = b /\ stage_history b tr' s /\ forall e, e ∈ effects -> justified b tr' e.

Lemma no_request (effects : list CredentialEffect) b tr :
  forallb (fun e => match e with SendCredential _ | SendDeferred _ => false | _ => true end) effects = true ->
  forall e, e ∈ effects -> justified b tr e.
Proof.
  intros H e He%list_elem_of_In. rewrite forallb_forall in H. specialize (H e He). by destruct e.
Qed.

Lemma nonce_response_extends tr self id r env self' s effects :
  accept_nonce_response self id r env = (self', Ok (s, effects)) ->
  stage_history (base self) tr (AwaitingNonceResponse id) ->
  extends (base self) tr (InNonceResponse r) env self' s effects.
Proof.
  unfold accept_nonce_response, extends. intros H (nr & He & Hid & Hl). flow_steps H. injection H as <- <- <-.
  match goal with Hv : validate_transport_binding _ _ _ _ = Ok ?u |- _ => destruct u; apply binding_Ok in Hv as [Hr1 Hr2] end.
  match goal with Hf : fresh_random _ _ = _ |- _ => apply draw_Ok in Hf as (_ & _ & _ & ->) end.
  match goal with Hr : rotate_if_some self _ = (?s, Ok ?u) |- _ =>
    destruct u; pose proof (adopt_base _ _ _ Hr) as Hb; clear Hr; set (self1 := s) in * end.
  split_and!; [by rewrite base_drawn| |by apply no_request].
  assert (Hre : er_endpoint r = nr_endpoint nr) by by rewrite He.
  cbn [stage_history map]. split; [done|].
  match goal with |- context [AcquireKeyAttestation ?a] => exists a end. eexists. split_and!; [|done|].
  - rewrite <- Hb in *. do 3 eexists. split; [reflexivity|]. split_and!; try done. congruence.
  - by apply (sublist_tail [_] tr [_; _]).
Qed.

Lemma key_attestation_extends tr self id c h ka env self' s effects :
  accept_key_attestation self id c h ka env = (self', Ok (s, effects)) ->
  stage_history (base self) tr (AwaitingKeyAttestation id c h) ->
  extends (base self) tr (InKeyAttestation ka) env self' s effects.
Proof.
  unfold accept_key_attestation, extends. intros H (Hh & a & l & Ha & Hid & Hl). flow_steps H. injection H as <- <- <-.
  match goal with Hb : negb (attestation_bound _ _ _ _) = false |- _ =>
    apply negb_false_iff, attestation_bound_Ok in Hb as (H1 & H2 & H3) end.
  match goal with Hf : fresh_random _ _ = _ |- _ => apply draw_Ok in Hf as (_ & _ & _ & ->) end.
  match goal with Hv : validate_key_attestation _ _ _ _ = Ok ?u |- _ => destruct u end.
  split_and!; [by rewrite base_drawn| |by apply no_request].
  cbn [stage_history map]. exists c. match goal with |- context [SignCredentialProof ?s] => exists s end.
  eexists. split; [exact Hh|]. split_and!; [|done|done|].
  - do 4 eexists. split; [reflexivity|]. split; [exact Ha|]. split_and!; try done; [congruence|].
    destruct Ha as (? & ? & ? & _ & _ & _ & _ & _ & _ & _ & _ & _ & Hk & _). by rewrite Hk.
  - by apply (sublist_tail _ _ [_; _]).
Qed.

(** The two draws of a DPoP proof. *)
Definition two_draws (self self' : Context) (env : CredentialEnvironment) : Prop :=
  ce_random env 0 ∉ cr_used_random_values self
  /\ ce_random env 1 ∉ cr_used_random_values self ++ [ce_random env 0]
  /\ len (cr_used_random_values self) < 31
  /\ self' = {| self with cr_used_random_values :=
                  (cr_used_random_values self ++ [ce_random env 0]) ++ [ce_random env 1] |}.

Lemma two_draws_intro self env s1 s2 v w :
  fresh_random self (ce_random env 0) = (s1, Ok v) -> fresh_random s1 (ce_random env 1) = (s2, Ok w) ->
  v = ce_random env 0 /\ w = ce_random env 1 /\ two_draws self s2 env.
Proof.
  intros (-> & Hn & Hl & ->)%draw_Ok (-> & Hn2 & Hl2 & ->)%draw_Ok. cbn [cr_used_random_values] in *.
  rewrite len_app, len_cons, len_nil in Hl2. split_and!; [done|done|]. split_and!; [done|done|lia|done].
Qed.

Lemma dpop_stage_Ok self h proof n env self' st ef :
  dpop_signing_stage self h proof n env = (self', Ok (st, ef)) ->
  exists s, ef = SignDpop s /\ st = SigningDpop (sr_request_id s) h proof (sr_signing_input s) n
  /\ dpop_asked (base self) (endpoint (cr_credential_endpoint self)) s
  /\ sr_request_id s = ce_random env 1 /\ two_draws self self' env.
Proof.
  unfold dpop_signing_stage. intros H. flow_steps H. injection H as <- <- <-.
  match goal with H1 : fresh_random self _ = (?s1, Ok _), H2 : fresh_random ?s1 _ = _ |- _ =>
    pose proof (draw_Ok _ _ _ _ H1) as (_ & _ & _ & Hs);
    destruct (two_draws_intro _ _ _ _ _ _ H1 H2) as (-> & -> & Hd); clear H1 H2; subst s1 end.
  pose proof Hd as (_ & _ & _ & ->).
  match goal with |- context [SignDpop ?s] => exists s end.
  split_and!; [done|done| |done|done]. split; [done|]. by do 3 eexists.
Qed.

Lemma deferred_stage_Ok self tid h n env self' st effects :
  deferred_dpop_signing_stage self tid h n env = (self', Ok (st, effects)) ->
  exists s e, effects = [SignDpop s] /\ st = SigningDeferredDpop (sr_request_id s) tid h (sr_signing_input s) n
  /\ cr_deferred_credential_endpoint self = Some e /\ dpop_asked (base self) (endpoint e) s
  /\ sr_request_id s = ce_random env 1 /\ two_draws self self' env.
Proof.
  unfold deferred_dpop_signing_stage. intros H. flow_steps H. injection H as <- <- <-.
  match goal with He : ok_or _ _ = Ok _ |- _ => apply ok_or_Ok in He end.
  match goal with H1 : fresh_random self _ = (?s1, Ok _), H2 : fresh_random ?s1 _ = _ |- _ =>
    pose proof (draw_Ok _ _ _ _ H1) as (_ & _ & _ & Hs);
    destruct (two_draws_intro _ _ _ _ _ _ H1 H2) as (-> & -> & Hd); clear H1 H2; subst s1 end.
  pose proof Hd as (_ & _ & _ & ->).
  match goal with |- context [SignDpop ?s] => exists s, a end.
  split_and!; [done|done|done| |done|done]. split; [done|]. by do 3 eexists.
Qed.

Lemma two_draws_base self self' env : two_draws self self' env -> base self' = base self.
Proof. intros (_ & _ & _ & ->). by destruct self. Qed.

Lemma proof_signature_extends tr self id h input sg env self' s effects :
  accept_credential_proof_signature self id h input sg env = (self', Ok (s, effects)) ->
  stage_history (base self) tr (SigningCredentialProof id h input) ->
  extends (base self) tr (InCredentialProofSignature sg) env self' s effects.
Proof.
  unfold accept_credential_proof_signature, extends. intros H (c & sr & l & Hh & Ha & Hid & Hin & Hl).
  flow_steps H. destruct r as [st ef]. injection H as <- <- <-.
  match goal with Hs : dpop_signing_stage _ _ _ _ _ = _ |- _ =>
    apply dpop_stage_Ok in Hs as (s & -> & -> & Hd & _ & Ht%two_draws_base) end.
  split_and!; [done| |by apply no_request].
  cbn [stage_history map]. exists c, s. eexists. split; [exact Hh|]. split_and!; [|done|done|done|].
  - do 4 eexists. split; [reflexivity|]. split; [exact Ha|]. by eapply signed_by.
  - rewrite <- app_assoc. by apply (sublist_tail _ _ [_; _]).
Qed.

Lemma resource_signature_extends tr self id h proof input n sg env self' s effects :
  accept_dpop_signature self id h proof input n sg env = (self', Ok (s, effects)) ->
  stage_history (base self) tr (SigningDpop id h proof input n) ->
  extends (base self) tr (InDpopSignature sg) env self' s effects.
Proof.
  unfold accept_dpop_signature, extends. intros H (c & sr & l & Hh & Hp & Ha & Hid & Hin & Hl).
  flow_steps H. injection H as <- <- <-. match goal with Hm : map_err _ _ = Ok _ |- _ => apply map_err_Ok in Hm end.
  match goal with Hf : fresh_random _ _ = _ |- _ => apply draw_Ok in Hf as (_ & _ & _ & ->) end.
  set (q := {| crq_request_id := _; crq_endpoint := _; crq_authorization := _; crq_dpop_proof := _; crq_body := _ |}).
  assert (Hq : requested (base self)
                 (l ++ [Emitted (SignDpop sr); Received (InDpopSignature sg) env] ++ [Emitted (SendCredential q)]) c q).
  { do 3 eexists. split; [reflexivity|]. split; [exact Hp|]. split_and!; [|by split|done].
    do 3 eexists. split; [reflexivity|]. split; [done|]. by eapply signed_by. }
  assert (Hs : sublist (l ++ [Emitted (SignDpop sr); Received (InDpopSignature sg) env] ++ [Emitted (SendCredential q)])
                 (tr ++ [Received (InDpopSignature sg) env; Emitted (SendCredential q)])).
  { change ([Emitted (SignDpop sr); Received (InDpopSignature sg) env] ++ [Emitted (SendCredential q)])
      with ([Emitted (SignDpop sr)] ++ [Received (InDpopSignature sg) env; Emitted (SendCredential q)]).
    rewrite app_assoc. by apply sublist_tail. }
  cbn [map]. split_and!; [by rewrite base_drawn| |].
  - exists c. split_and!; [done| |by do 2 eexists]. exists l. split; [done|].
    apply sublist_more. etrans; [|exact Hl]. by apply sublist_inserts_r.
  - intros e ->%list_elem_of_singleton. by do 2 eexists.
Qed.

Lemma deferred_signature_extends tr self id tid h input n sg env self' s effects :
  accept_deferred_dpop_signature self id tid h input n sg env = (self', Ok (s, effects)) ->
  stage_history (base self) tr (SigningDeferredDpop id tid h input n) ->
  extends (base self) tr (InDpopSignature sg) env self' s effects.
Proof.
  unfold accept_deferred_dpop_signature, extends.
  intros H (c & l & due & env0 & e & sr & Hh & Hdef & Hdue & He & Ha & Hid & Hin & Hl).
  flow_steps H. injection H as <- <- <-.
  match goal with He : ok_or _ _ = Ok _ |- _ => apply ok_or_Ok in He end.
  assert (a = e) as -> by (cbn in *; congruence).
  match goal with Hf : fresh_random _ _ = _ |- _ => apply draw_Ok in Hf as (_ & _ & _ & ->) end.
  set (q := {| crq_request_id := _; crq_endpoint := _; crq_authorization := _; crq_dpop_proof := _; crq_body := _ |}).
  set (l1 := [Emitted (SignDpop sr); Received (InDpopSignature sg) env]).
  assert (Hq : polled (base self) c tid (l ++ [Received PollDeferred env0] ++ l1 ++ [Emitted (SendDeferred q)]) q).
  { econstructor; [done|done|done| |by split|done].
    do 3 eexists. split; [reflexivity|]. split; [done|]. by eapply signed_by. }
  assert (Hs : sublist (l ++ [Received PollDeferred env0] ++ l1 ++ [Emitted (SendDeferred q)])
                 (tr ++ [Received (InDpopSignature sg) env; Emitted (SendDeferred q)])).
  { change ([Received PollDeferred env0] ++ l1 ++ [Emitted (SendDeferred q)])
      with ([Received PollDeferred env0; Emitted (SignDpop sr)]
              ++ [Received (InDpopSignature sg) env; Emitted (SendDeferred q)]).
    rewrite app_assoc. by apply sublist_tail. }
  cbn [map]. split_and!; [by rewrite base_drawn| |].
  - exists c. split_and!; [done| |by do 2 eexists]. exists l, due, env0. split_and!; [done|done|].
    apply sublist_more. etrans; [|exact Hl]. apply sublist_app; [done|]. by apply sublist_skip, sublist_nil_l.
  - intros x ->%list_elem_of_singleton. by do 3 eexists.
Qed.

(** What an answer that was not a challenge leads to. *)
Lemma credential_of b l c q r env raw :
  requested b l c q \/ (exists tid, polled b c tid l q) ->
  er_request_id r = crq_request_id q -> er_endpoint r = crq_endpoint q -> er_status r = 200 ->
  parse_immediate_credential (er_body r) (cr_format b) (identifier (cr_credential_issuer b)) (cr_expected_vct b)
    = Ok raw ->
  issued b (l ++ [Received (InCredentialResponse r) env])
    {| ic_format := cr_format b; ic_raw := raw; ic_c_nonce_hash := sha256 (as_bytes c) |}.
Proof. intros H1 H2 H3 H4 H5. do 5 eexists. split; [reflexivity|]. by split_and!. Qed.

Lemma requested_endpoint b l c q : requested b l c q -> crq_endpoint q = endpoint (cr_credential_endpoint b).
Proof. intros (? & ? & ? & _ & _ & _ & [He _] & _). exact He. Qed.

Lemma polled_endpoint b l c tid q :
  polled b c tid l q -> exists e, cr_deferred_credential_endpoint b = Some e /\ crq_endpoint q = endpoint e.
Proof. intros [? ? ? ? e ? _ _ He _ [Hq _] _]. eauto. Qed.

Lemma next_poll_Ok env interval due : next_poll env interval = Ok due -> due = ce_now_epoch_seconds env + interval.
Proof. unfold next_poll. intros H%ok_or_Ok. unfold checked_i64 in H. by case_match; simplify_eq. Qed.

Lemma status_is n k : (n =? k) = true -> n = k.
Proof. apply Z.eqb_eq. Qed.

Lemma credential_response_extends tr self id h proof n r env self' s effects :
  accept_credential_response self id h proof n r env = (self', Ok (s, effects)) ->
  stage_history (base self) tr (AwaitingCredentialResponse id h proof n) ->
  extends (base self) tr (InCredentialResponse r) env self' s effects.
Proof.
  unfold accept_credential_response, extends.
  intros H (c & Hh & (lp & Hp & Hlp) & q & l & Hq & Hid & Hl). flow_steps H.
  match goal with Hv : validate_transport_binding _ _ _ _ = Ok ?u |- _ => destruct u; apply binding_Ok in Hv as [Hr1 Hr2] end.
  pose proof (requested_endpoint _ _ _ _ Hq) as Hqe. cbn [cr_credential_endpoint base] in Hqe.
  match type of H with (if ?b then _ else _) = _ => destruct b end; flow_steps H.
  - destruct r0 as [st ef]. injection H as <- <- <-.
    match goal with Hr : rotate_credential_endpoint_nonce _ _ = (_, Ok ?u) |- _ =>
      destruct u; apply (adopt_base _ (Some _)) in Hr end.
    match goal with Hs : dpop_signing_stage _ _ _ _ _ = _ |- _ =>
      apply dpop_stage_Ok in Hs as (s & -> & -> & Hd & _ & Ht%two_draws_base) end.
    split_and!; [congruence| |by apply no_request].
    cbn [stage_history map]. exists c, s, lp. split; [exact Hh|]. split_and!; [done| |done|done|].
    + replace (base self) with (base self0) by done.
      replace (cr_credential_endpoint (base self0)) with (cr_credential_endpoint self0) by done. exact Hd.
    + by apply sublist_app; [|apply sublist_cons].
  - match goal with Hr : rotate_if_some self _ = (?s, Ok ?u) |- _ =>
      destruct u; apply adopt_base in Hr as Hb; clear Hr; rename s into self1 end.
    destruct (er_status r =? 202) eqn:H202; flow_steps H.
    + injection H as <- <- <-.
      match goal with Hn : next_poll _ _ = Ok _ |- _ => apply next_poll_Ok in Hn as -> end.
      split_and!; [done| |by apply no_request]. cbn [stage_history map]. exists c, (l ++ [Received (InCredentialResponse r) env]). split; [exact Hh|].
      split; [|by apply sublist_tail]. eapply deferred_first; [exact Hq| |done].
      split_and!; [congruence|congruence|by apply status_is].
    + injection H as <- <- <-. split_and!; [done| |by apply no_request]. cbn [stage_history map].
      exists (l ++ [Received (InCredentialResponse r) env]). split; [|by apply sublist_tail]. rewrite Hh.
      replace (cr_format self1) with (cr_format (base self)) by by rewrite <- Hb.
      apply (credential_of _ _ _ q); [by left|congruence|congruence| |].
      * by apply status_is, negb_false_iff.
      * rewrite <- Hb. done.
Qed.

Lemma deferred_response_extends tr self id tid h n r env self' s effects :
  accept_deferred_response self id tid h n r env = (self', Ok (s, effects)) ->
  stage_history (base self) tr (AwaitingDeferredResponse id tid h n) ->
  extends (base self) tr (InCredentialResponse r) env self' s effects.
Proof.
  unfold accept_deferred_response, extends.
  intros H (c & Hh & (ld & due & env0 & Hdef & Hdue & Hld) & q & l & Hq & Hid & Hl). flow_steps H.
  match goal with Hv : validate_transport_binding _ _ _ _ = Ok ?u |- _ => destruct u; apply binding_Ok in Hv as [Hr1 Hr2] end.
  match goal with He : ok_or _ _ = Ok ?e |- _ => apply ok_or_Ok in He; rename e into de; rename He into Hde end.
  pose proof (polled_endpoint _ _ _ _ _ Hq) as (e & He & Hqe). cbn [cr_deferred_credential_endpoint base] in He.
  assert (e = de) as -> by congruence.
  match type of H with (if ?b then _ else _) = _ => destruct b end; flow_steps H.
  - match goal with Hr : rotate_credential_endpoint_nonce _ _ = (_, Ok ?u) |- _ =>
      destruct u; apply (adopt_base _ (Some _)) in Hr as Hb end.
    apply deferred_stage_Ok in H as (s1 & e & -> & -> & He1 & Hd & _ & Ht%two_draws_base).
    split_and!; [congruence| |by apply no_request].
    cbn [stage_history map]. exists c, ld, due, env0, e, s1. rewrite <- Hb.
    split_and!; [done|by rewrite Hb|done|done|done|done|done|].
    replace (ld ++ [Received PollDeferred env0; Emitted (SignDpop s1)])
      with ((ld ++ [Received PollDeferred env0]) ++ [Emitted (SignDpop s1)]) by by rewrite <- app_assoc.
    by apply sublist_app; [|apply sublist_cons].
  - match goal with Hr : rotate_if_some self _ = (?s, Ok ?u) |- _ =>
      destruct u; apply adopt_base in Hr as Hb; clear Hr; rename s into self1 end.
    destruct (er_status r =? 200) eqn:H200; flow_steps H.
    + injection H as <- <- <-. split_and!; [done| |by apply no_request]. cbn [stage_history map].
      exists (l ++ [Received (InCredentialResponse r) env]). split; [|by apply sublist_tail]. rewrite Hh.
      replace (cr_format self1) with (cr_format (base self)) by by rewrite <- Hb.
      apply (credential_of _ _ _ q); [by right; exists tid|congruence|congruence|by apply status_is|].
      rewrite <- Hb. done.
    + destruct (er_status r =? 202) eqn:H202; [|discriminate H]. flow_steps H.
      injection H as <- <- <-.
      match goal with Hn : next_poll _ _ = Ok _ |- _ => apply next_poll_Ok in Hn as -> end.
      match goal with E : negb (ct_eq _ _) = false |- _ => apply negb_false_iff, ct_eq_iff, as_bytes_inj in E as -> end.
      split_and!; [done| |by apply no_request]. cbn [stage_history map]. exists c, (l ++ [Received (InCredentialResponse r) env]). split; [exact Hh|].
      split; [|by apply sublist_tail]. eapply deferred_again; [exact Hq| |done].
      split_and!; [congruence|congruence|by apply status_is].
Qed.

Lemma poll_extends tr self tid due h env self' s effects :
  deferred_dpop_signing_stage self tid h 0 env = (self', Ok (s, effects)) -> due <= ce_now_epoch_seconds env ->
  stage_history (base self) tr (Deferred tid due h) ->
  extends (base self) tr PollDeferred env self' s effects.
Proof.
  unfold extends. intros (s1 & e & -> & -> & He & Hd & _ & Ht%two_draws_base)%deferred_stage_Ok Hdue (c & l & Hh & Hdef & Hl).
  split_and!; [done| |by apply no_request].
  cbn [stage_history map]. exists c, l, due, env, e, s1. split_and!; try done. by apply sublist_tail.
Qed.

Lemma stage_extends tr self s i env self' s' effects :
  transition self s i env = (self', Ok (s', effects)) -> polls_early s i (ce_now_epoch_seconds env) = false ->
  stage_history (base self) tr s -> extends (base self) tr i env self' s' effects.
Proof.
  destruct s, i; cbn [transition]; try discriminate; intros H Hp Hs.
  - by eapply nonce_response_extends.
  - by eapply key_attestation_extends.
  - by eapply proof_signature_extends.
  - by eapply resource_signature_extends.
  - by eapply credential_response_extends.
  - eapply poll_extends; [exact H| |exact Hs]. by apply Z.ltb_ge.
  - by eapply deferred_signature_extends.
  - by eapply deferred_response_extends.
Qed.

Lemma stage_history_later b tr k s : stage_history b tr s -> stage_history b (tr ++ k) s.
Proof. destruct s; cbn; naive_solver eauto using sublist_more. Qed.

Lemma justified_later b tr k e : justified b tr e -> justified b (tr ++ k) e.
Proof. destruct e; cbn; naive_solver eauto using sublist_more. Qed.

(** What every history of a flow satisfies. *)
Definition flow_ok (b : Context) (tr : list happening) (flow : CredentialFlow) : Prop :=
  (failure flow = None -> base (cf_context flow) = b) /\ stage_history b tr (cf_stage flow)
  /\ forall e, Emitted e ∈ tr -> justified b tr e.

Lemma issuing_step_ok b tr flow i env flow' r :
  step flow i env = (flow', r) -> flow_ok b tr flow ->
  flow_ok b (tr ++ Received i env :: map Emitted (match r with Ok effects => effects | Err _ => [] end)) flow'.
Proof.
  unfold step. intros H (Hb & Hs & Hj).
  assert (Hlater : forall k e, Emitted e ∈ tr -> justified b (tr ++ k) e) by (intros; by apply justified_later, Hj).
  assert (Hquiet : forall e, Emitted e ∈ tr ++ [Received i env] -> justified b (tr ++ [Received i env]) e).
  { intros e [He|He%list_elem_of_singleton]%elem_of_app; [by apply Hlater|done]. }
  assert (Hfail : forall cx e, flow_ok b (tr ++ [Received i env]) {| cf_context := cx; cf_stage := Failed e |}).
  { by intros. }
  assert (Hstay : flow_ok b (tr ++ [Received i env])
    {| cf_context := {| (cf_context flow) with cr_last_now_epoch_seconds := ce_now_epoch_seconds env |};
       cf_stage := cf_stage flow |}).
  { split_and!; [|by apply stage_history_later|done]. intros Hf. cbn [cf_context]. rewrite base_time. by apply Hb. }
  destruct (validate_clock _) as [[]|e]; [|injection H as <- <-; apply Hfail].
  destruct (_ <? _); [injection H as <- <-; apply Hfail|].
  destruct (validate_token_lifetime _ _ _) as [[]|e]; [|injection H as <- <-; apply Hfail].
  destruct (is_terminal (cf_stage flow)) eqn:Ht; [injection H as <- <-; apply Hstay|].
  destruct (polls_early _ _ _) eqn:Hp; [injection H as <- <-; apply Hstay|].
  destruct (transition _ _ _ _) as [cx [[s effects]|e]] eqn:Htr; injection H as <- <-; [|apply Hfail].
  assert (Hb' : base (cf_context flow) = b) by (apply Hb; unfold failure; by destruct (cf_stage flow)).
  eapply stage_extends in Htr as (Hb'' & Hs' & Hj'); [|exact Hp|by rewrite base_time, Hb'].
  rewrite base_time, Hb' in *. split_and!; [done|done|].
  intros e [Hin|[?|Hin]%elem_of_cons]%elem_of_app; [by apply Hlater|done|].
  apply list_elem_of_fmap in Hin as (x & [= <-] & Hin). by apply Hj'.
Qed.

Lemma issuing_begin_ok config env flow e :
  begin config env = Ok (flow, e) ->
  flow_ok (base_of config) [Emitted e] flow
  /\ (exists nr, e = SendNonce nr /\ nr_request_id nr = ce_random env 0)
  /\ cf_stage flow = AwaitingNonceResponse (ce_random env 0)
  /\ cr_used_random_values (cf_context flow) = [ce_random env 0]
  /\ credential_endpoint_nonce (cf_context flow) = None
  /\ retired_credential_endpoint_nonces (cf_context flow) = [].
Proof.
  unfold begin, fresh_random_in. intros H. ok_steps H. rewrite len_nil in H. change (32 <=? 0) with false in H.
  cbv iota in H. destruct (_ || _); [done|]. injection H as <- <-.
  split; [|split_and!; try done; eexists; by split]. split_and!; [done| |].
  - exists {| nr_request_id := ce_random env 0; nr_endpoint := endpoint (cc_nonce_endpoint config) |}. by split_and!.
  - by intros x [= ->]%list_elem_of_singleton.
Qed.

Lemma issuing_run_ok config tr flow : flow_run config tr flow -> flow_ok (base_of config) tr flow.
Proof.
  induction 1 as [env flow e H|tr flow i env flow' r _ IH H].
  - by apply issuing_begin_ok in H as [H _].
  - by eapply issuing_step_ok.
Qed.

(** C35: a flow sends a credential request only after the issuer sent a nonce
    that was not used before, an attestation of the credential key for that
    nonce arrived and was checked, a proof of possession naming issuer, nonce
    and key was signed with that key, and a DPoP proof of the endpoint for the
    access token was signed with the DPoP key; it polls an issuer that deferred
    only for the transaction that the issuer named, and not before the time it
    named; and the credential it yields is the answer to such a request, in the
    format that was planned, and carries the hash of that nonce. *)
Theorem credential_request_history config tr flow :
  flow_run config tr flow ->
  (forall q, Emitted (SendCredential q) ∈ tr -> exists c l, requested (base_of config) l c q /\ sublist l tr)
  /\ (forall q, Emitted (SendDeferred q) ∈ tr ->
        exists c tid l, polled (base_of config) c tid l q /\ sublist l tr)
  /\ (forall c, into_credential flow = Ok c -> exists l, issued (base_of config) l c /\ sublist l tr).
Proof.
  intros (_ & Hs & Hj)%issuing_run_ok. split_and!.
  - intros q Hq. apply (Hj (SendCredential q) Hq).
  - intros q Hq. apply (Hj (SendDeferred q) Hq).
  - unfold into_credential. intros c Hc. destruct (cf_stage flow); try discriminate Hc. by injection Hc as <-.
Qed.

(** ** What does not repeat, and how long a flow is *)

Definition effect_id (e : CredentialEffect) : CorrelationId :=
  match e with
  | SendNonce r => nr_request_id r
  | AcquireKeyAttestation r => kar_request_id r
  | SignCredentialProof r | SignDpop r => sr_request_id r
  | SendCredential r | SendDeferred r => crq_request_id r
  end.

Definition effects_of (tr : list happening) : list CredentialEffect :=
  omap (fun h => match h with Emitted e => Some e | Received _ _ => None end) tr.

Definition is_poll (e : CredentialEffect) : bool := match e with SendDeferred _ => true | _ => false end.

Definition polls (effects : list CredentialEffect) : Z := len (List.filter is_poll effects).

(** The DPoP nonces the flow has adopted, in order. *)
Definition adopted (cx : Context) : list string :=
  retired_credential_endpoint_nonces cx ++ option_list (credential_endpoint_nonce cx).

(** How many random values a stage has used at least, beside the three of every
    poll before it. *)
Definition drawn (s : Stage) : Z :=
  match s with
  | AwaitingNonceResponse _ => 1
  | AwaitingKeyAttestation _ _ _ => 2
  | SigningCredentialProof _ _ _ => 3
  | SigningDpop _ _ _ _ _ => 5
  | AwaitingCredentialResponse _ _ _ _ | Deferred _ _ _ | AwaitingDeferredResponse _ _ _ _ => 6
  | SigningDeferredDpop _ _ _ _ _ => 8
  | Complete _ | Failed _ => 0
  end.

Record advance (cx : Context) (s : Stage) (cx' : Context) (s' : Stage) (effects : list CredentialEffect)
    (fresh : list bytes) : Prop := {
  a_used : cr_used_random_values cx' = cr_used_random_values cx ++ fresh;
  a_nodup : base.NoDup (cr_used_random_values cx) -> base.NoDup (cr_used_random_values cx');
  a_room : fresh <> [] -> len (cr_used_random_values cx') <= 32;
  a_ids : sublist (map effect_id effects) fresh;
  a_drawn : is_terminal s' = true \/ drawn s' + 3 * polls effects <= drawn s + len fresh;
  a_polls : (polls effects =? 0) || (6 <=? drawn s') = true;
  a_nonces : base.NoDup (adopted cx) -> base.NoDup (adopted cx');
}.

Lemma adopt_adopted cx nonce cx' :
  rotate_if_some cx nonce = (cx', Ok tt) ->
  cr_used_random_values cx' = cr_used_random_values cx /\ (base.NoDup (adopted cx) -> base.NoDup (adopted cx')).
Proof.
  intros [->|(n & _ & (Hn & Hc & ->)%adopt_Ok)]%adopt_if_some_Ok; [done|]. split; [done|]. unfold adopted. intros Hd.
  cbn [retired_credential_endpoint_nonces credential_endpoint_nonce option_list].
  apply nodup_snoc; [done|]. intros [?|Hin]%elem_of_app; [done|]. destruct (credential_endpoint_nonce cx); cbn in Hin.
  - apply list_elem_of_singleton in Hin as ->. done.
  - by apply elem_of_nil in Hin.
Qed.

(** A step that draws one value, one that draws two, and one that draws none,
    from a context [cx1] that holds the values of [cx]. *)
Lemma advance_one cx cx1 s s' e v :
  cr_used_random_values cx1 = cr_used_random_values cx -> (base.NoDup (adopted cx) -> base.NoDup (adopted cx1)) ->
  v ∉ cr_used_random_values cx1 -> len (cr_used_random_values cx1) < 32 -> effect_id e = v ->
  is_terminal s' = false -> drawn s' + 3 * polls [e] <= drawn s + 1 ->
  (polls [e] =? 0) || (6 <=? drawn s') = true ->
  advance cx s {| cx1 with cr_used_random_values := cr_used_random_values cx1 ++ [v] |} s' [e] [v].
Proof.
  intros Hu Hn Hv Hl He Ht Hd Hp. split; cbn [cr_used_random_values map]; rewrite ?Hu in *; try done.
  - intros ?. by apply nodup_snoc.
  - intros _. rewrite len_app, len_cons, len_nil. lia.
  - by rewrite He.
  - right. by rewrite len_cons, len_nil.
Qed.

Lemma advance_two cx cx1 s s' e env cx' :
  cr_used_random_values cx1 = cr_used_random_values cx -> (base.NoDup (adopted cx) -> base.NoDup (adopted cx1)) ->
  two_draws cx1 cx' env -> effect_id e = ce_random env 1 ->
  is_terminal s' = false -> drawn s' + 3 * polls [e] <= drawn s + 2 ->
  (polls [e] =? 0) || (6 <=? drawn s') = true ->
  advance cx s cx' s' [e] [ce_random env 0; ce_random env 1].
Proof.
  intros Hu Hn (H0 & H1 & Hl & ->) He Ht Hd Hp. split; cbn [cr_used_random_values map]; rewrite ?Hu in *; try done.
  - by rewrite <- app_assoc.
  - intros ?. apply nodup_snoc; [|done]. by apply nodup_snoc.
  - intros _. rewrite !len_app, !len_cons, !len_nil. lia.
  - rewrite He. by apply sublist_cons.
  - right. rewrite !len_cons, len_nil. lia.
Qed.

Lemma advance_none cx cx1 s s' :
  cr_used_random_values cx1 = cr_used_random_values cx -> (base.NoDup (adopted cx) -> base.NoDup (adopted cx1)) ->
  is_terminal s' = true \/ drawn s' <= drawn s -> advance cx s cx1 s' [] [].
Proof.
  intros Hu Hn Hd. split; try done.
  - by rewrite app_nil_r.
  - by rewrite Hu.
  - destruct Hd as [?|Hd]; [by left|]. right. change (polls []) with 0. change (len (@nil bytes)) with 0. lia.
Qed.

(** The shape of a step: which of the three it is. *)
Definition advances (cx : Context) (s : Stage) (cx' : Context) (s' : Stage) (effects : list CredentialEffect) : Prop :=
  exists fresh, advance cx s cx' s' effects fresh.

Lemma handshake_advances self s i env self' s' effects :
  match s with
  | AwaitingNonceResponse _ | AwaitingKeyAttestation _ _ _ | SigningCredentialProof _ _ _ | SigningDpop _ _ _ _ _ => True
  | _ => False
  end ->
  transition self s i env = (self', Ok (s', effects)) -> advances self s self' s' effects.
Proof.
  destruct s, i; intros []; cbn [transition]; try discriminate; intros H.
  - unfold accept_nonce_response in H. flow_steps H. injection H as <- <- <-.
    match goal with Hf : fresh_random _ _ = _ |- _ => apply draw_Ok in Hf as (-> & ? & ? & ->) end.
    match goal with Hr : rotate_if_some self _ = (_, Ok ?u) |- _ => destruct u; apply adopt_adopted in Hr as [??] end.
    eexists. by apply advance_one.
  - unfold accept_key_attestation in H. flow_steps H. injection H as <- <- <-.
    match goal with Hf : fresh_random _ _ = _ |- _ => apply draw_Ok in Hf as (-> & ? & ? & ->) end.
    eexists. by apply advance_one.
  - unfold accept_credential_proof_signature in H. flow_steps H. destruct r as [st ef]. injection H as <- <- <-.
    match goal with Hs : dpop_signing_stage _ _ _ _ _ = _ |- _ => apply dpop_stage_Ok in Hs as (x & -> & -> & _ & ? & ?) end.
    eexists. by eapply advance_two.
  - unfold accept_dpop_signature in H. flow_steps H. injection H as <- <- <-.
    match goal with Hf : fresh_random _ _ = _ |- _ => apply draw_Ok in Hf as (-> & ? & ? & ->) end.
    eexists. by apply advance_one.
Qed.

Lemma response_advances self id h proof n r env self' s effects :
  accept_credential_response self id h proof n r env = (self', Ok (s, effects)) ->
  advances self (AwaitingCredentialResponse id h proof n) self' s effects.
Proof.
  unfold accept_credential_response. intros H. flow_steps H.
  match type of H with (if ?b then _ else _) = _ => destruct b end; flow_steps H.
  - destruct r0 as [st ef]. injection H as <- <- <-.
    match goal with Hr : rotate_credential_endpoint_nonce _ _ = (_, Ok ?u) |- _ =>
      destruct u; apply (adopt_adopted _ (Some _)) in Hr as [??] end.
    match goal with Hs : dpop_signing_stage _ _ _ _ _ = _ |- _ => apply dpop_stage_Ok in Hs as (x & -> & -> & _ & ? & ?) end.
    eexists. by eapply advance_two.
  - match goal with Hr : rotate_if_some self _ = (_, Ok ?u) |- _ => destruct u; apply adopt_adopted in Hr as [??] end.
    destruct (er_status r =? 202); flow_steps H; injection H as <- <- <-; eexists; apply advance_none; try done;
      [by right|by left].
Qed.

Lemma deferred_advances self id tid h n r env self' s effects :
  accept_deferred_response self id tid h n r env = (self', Ok (s, effects)) ->
  advances self (AwaitingDeferredResponse id tid h n) self' s effects.
Proof.
  unfold accept_deferred_response. intros H. flow_steps H.
  match type of H with (if ?b then _ else _) = _ => destruct b end; flow_steps H.
  - match goal with Hr : rotate_credential_endpoint_nonce _ _ = (_, Ok ?u) |- _ =>
      destruct u; apply (adopt_adopted _ (Some _)) in Hr as [??] end.
    apply deferred_stage_Ok in H as (x & e & -> & -> & _ & _ & ? & ?). eexists. by eapply advance_two.
  - match goal with Hr : rotate_if_some self _ = (_, Ok ?u) |- _ => destruct u; apply adopt_adopted in Hr as [??] end.
    destruct (er_status r =? 200); flow_steps H.
    + injection H as <- <- <-. eexists. apply advance_none; [done|done|by left].
    + destruct (er_status r =? 202); [|discriminate H]. flow_steps H. injection H as <- <- <-.
      eexists. apply advance_none; [done|done|by right].
Qed.

Lemma transition_advances self s i env self' s' effects :
  transition self s i env = (self', Ok (s', effects)) -> advances self s self' s' effects.
Proof.
  intros H. destruct s; try by (eapply handshake_advances; [|exact H]).
  all: destruct i; cbn [transition] in H; try discriminate H.
  - by eapply response_advances.
  - apply deferred_stage_Ok in H as (x & e & -> & -> & _ & _ & ? & ?). eexists. by eapply advance_two.
  - unfold accept_deferred_dpop_signature in H. flow_steps H. injection H as <- <- <-.
    match goal with Hf : fresh_random _ _ = _ |- _ => apply draw_Ok in Hf as (-> & ? & ? & ->) end.
    eexists. by apply advance_one.
  - by eapply deferred_advances.
Qed.

(** *** Over a history *)

Lemma issued_effects_app tr i env effects :
  effects_of (tr ++ Received i env :: map Emitted effects) = effects_of tr ++ effects.
Proof.
  unfold effects_of. rewrite omap_app. f_equal. rewrite omap_step.
  induction effects as [|e effects IH]; [done|]. cbn [map]. rewrite omap_step. by f_equal.
Qed.

Lemma polls_app a b : polls (a ++ b) = polls a + polls b.
Proof. unfold polls. by rewrite List.filter_app, len_app. Qed.

(** What holds while the flow has not failed. *)
Record flow_live (tr : list happening) (flow : CredentialFlow) : Prop := {
  l_used : base.NoDup (cr_used_random_values (cf_context flow));
  l_room : len (cr_used_random_values (cf_context flow)) <= 32;
  l_ids : sublist (map effect_id (effects_of tr)) (cr_used_random_values (cf_context flow));
  l_nonces : base.NoDup (adopted (cf_context flow));
  l_drawn : is_terminal (cf_stage flow) = true
            \/ drawn (cf_stage flow) + 3 * polls (effects_of tr) <= len (cr_used_random_values (cf_context flow));
}.

Record flow_history (tr : list happening) (flow : CredentialFlow) : Prop := {
  h_live : failure flow = None -> flow_live tr flow;
  h_ids : base.NoDup (map effect_id (effects_of tr));
  h_room : len (effects_of tr) <= 32;
  h_polls : polls (effects_of tr) <= 8;
}.

Lemma issued_live_history tr flow :
  flow_live tr flow -> polls (effects_of tr) <= 8 -> flow_history tr flow.
Proof.
  intros Hl Hp. split; [done| | |done].
  - eapply sublist_NoDup; [apply (l_used _ _ Hl)|apply (l_ids _ _ Hl)].
  - pose proof (sublist_length _ _ (l_ids _ _ Hl)) as H. rewrite length_map in H.
    pose proof (l_room _ _ Hl). unfold len in *. lia.
Qed.

Lemma advance_history tr flow i env cx s effects fresh :
  flow_live tr flow -> polls (effects_of tr) <= 8 -> is_terminal (cf_stage flow) = false ->
  advance (cf_context flow) (cf_stage flow) cx s effects fresh ->
  flow_history (tr ++ Received i env :: map Emitted effects) {| cf_context := cx; cf_stage := s |}.
Proof.
  intros [Hu Hr Hi Hn Hd] Hp Ht [Au And Ar Ai Ad Ap An].
  assert (Hr' : len (cr_used_random_values cx) <= 32).
  { destruct fresh as [|v fresh]; [|by apply Ar]. by rewrite Au, app_nil_r. }
  assert (Hd' : is_terminal s = true
                \/ drawn s + 3 * polls (effects_of tr ++ effects) <= len (cr_used_random_values cx)).
  { destruct Ad as [?|Ad]; [by left|right]. rewrite polls_app, Au, len_app. destruct Hd as [Hd|Hd]; [congruence|]. lia. }
  apply issued_live_history.
  - split; rewrite ?issued_effects_app; cbn [cf_context cf_stage]; [by apply And|done| |by apply An|done].
    rewrite map_app, Au. by apply sublist_app.
  - rewrite issued_effects_app. apply orb_true_iff in Ap as [Ap%Z.eqb_eq|Ap%Z.leb_le]; [rewrite polls_app; lia|].
    destruct Hd' as [Hs|Hd']; [|lia]. by destruct s.
Qed.

Lemma history_quiet tr flow i env flow' :
  flow_history tr flow ->
  (failure flow' = None -> failure flow = None /\ cf_stage flow' = cf_stage flow
     /\ exists m, cf_context flow' = {| (cf_context flow) with cr_last_now_epoch_seconds := m |}) ->
  flow_history (tr ++ [Received i env]) flow'.
Proof.
  intros [Hl Hi Hr Hp] Hf. pose proof (issued_effects_app tr i env []) as He. cbn [map] in He. rewrite app_nil_r in He.
  split; rewrite ?He; [|done|done|done].
  intros (H & Hs & m & Hc)%Hf. destruct (Hl H) as [H1 H2 H3 H4 H5].
  split; rewrite ?He, ?Hs, ?Hc; done.
Qed.

Lemma issuing_step_history tr flow i env flow' r :
  step flow i env = (flow', r) -> flow_history tr flow ->
  flow_history (tr ++ Received i env :: map Emitted (match r with Ok effects => effects | Err _ => [] end)) flow'.
Proof.
  unfold step. intros H Hh.
  assert (Hfail : forall cx e, flow_history (tr ++ [Received i env]) {| cf_context := cx; cf_stage := Failed e |}).
  { intros cx e. by eapply history_quiet. }
  assert (Hstay : flow_history (tr ++ [Received i env])
    {| cf_context := {| (cf_context flow) with cr_last_now_epoch_seconds := ce_now_epoch_seconds env |};
       cf_stage := cf_stage flow |}).
  { eapply history_quiet; [done|]. intros Hf. split_and!; [done|done|by eexists]. }
  destruct (validate_clock _) as [[]|e]; [|injection H as <- <-; apply Hfail].
  destruct (_ <? _); [injection H as <- <-; apply Hfail|].
  destruct (validate_token_lifetime _ _ _) as [[]|e]; [|injection H as <- <-; apply Hfail].
  destruct (is_terminal (cf_stage flow)) eqn:Ht; [injection H as <- <-; apply Hstay|].
  destruct (polls_early _ _ _) eqn:Hp; [injection H as <- <-; apply Hstay|].
  destruct (transition _ _ _ _) as [cx [[s effects]|e]] eqn:Htr; injection H as <- <-; [|apply Hfail].
  apply transition_advances in Htr as (fresh & [A1 A2 A3 A4 A5 A6 A7]).
  assert (Hf : failure flow = None) by (unfold failure; by destruct (cf_stage flow)).
  eapply advance_history; [exact (h_live _ _ Hh Hf)|apply Hh|exact Ht|]. split; [exact A1|done..].
Qed.

Lemma issuing_history config tr flow : flow_run config tr flow -> flow_history tr flow.
Proof.
  induction 1 as [env flow e H|tr flow i env flow' r _ IH H].
  - apply issuing_begin_ok in H as (_ & (nr & -> & Hid) & Hs & Hu & Hn & Hr).
    apply issued_live_history; [|done]. split; unfold adopted; rewrite ?Hs, ?Hu, ?Hn, ?Hr; try done.
    + apply NoDup_singleton.
    + cbn. by rewrite Hid.
    + constructor.
    + by right.
  - by eapply issuing_step_history.
Qed.

(** C36: whatever it is sent, a flow emits at most 32 effects, all with distinct
    correlation values, polls an issuer that defers at most eight times, and as
    long as it has not failed has adopted no DPoP nonce twice and drawn no
    random value twice. *)
Theorem issuance_ends config tr flow :
  flow_run config tr flow ->
  len (effects_of tr) <= 32 /\ base.NoDup (map effect_id (effects_of tr)) /\ polls (effects_of tr) <= 8
  /\ (failure flow = None ->
       base.NoDup (adopted (cf_context flow)) /\ base.NoDup (cr_used_random_values (cf_context flow))).
Proof.
  intros H%issuing_history. split_and!; [apply H|apply H|apply H|]. intros Hf.
  pose proof (h_live _ _ H Hf) as Hl. split; apply Hl.
Qed.
End flows.

(** ** From one transport to the next *)

Section hand_over.
Context `{D : Digest} `{B64 : Base64} {SJ : SerdeJson}.

Definition usable_identifier (s : string) : Prop := valid_bounded_text s 2048 = true.

Lemma parse_identifiers_usable values parsed ids :
  parse_identifiers values parsed = Ok ids -> Forall usable_identifier parsed -> Forall usable_identifier ids.
Proof.
  revert parsed. induction values as [|v values IH]; intros parsed H Hp; cbn [parse_identifiers] in H;
    [by injection H as <-|]. ok_steps H. apply IH in H; [done|]. apply Forall_app. split; [done|].
  match goal with Hf : ok_or (filtered _ _) _ = Ok _ |- _ => apply ok_or_Ok in Hf; unfold filtered in Hf end.
  destruct (json_str v); [|done]. destruct (OAuthText.valid_bounded_text _ _ _) eqn:E; [|done]. simplify_eq.
  by constructor.
Qed.

Lemma parse_details_usable c i details found ids :
  parse_details c i details found = Ok (Some ids) ->
  (forall l, found = Some l -> Forall usable_identifier l) -> Forall usable_identifier ids.
Proof.
  revert found. induction details as [|d details IH]; intros found H Hf; cbn [parse_details] in H.
  - injection H as ->. by apply Hf.
  - ok_steps H. destruct (negb _); [by eapply IH|]. ok_steps H. eapply IH; [exact H|]. intros l [= <-].
    by eapply parse_identifiers_usable.
Qed.

Lemma token_identifiers_usable input s c i parsed :
  parse_access_token_response input s c i = Ok parsed -> Forall usable_identifier (pg_credential_identifiers parsed).
Proof.
  unfold parse_access_token_response. intros H. ok_steps H.
  do 2 (match type of H with (let (_, _) := ?p in _) = _ => destruct p end; ok_steps H).
  injection H as <-. cbn [pg_credential_identifiers].
  match goal with Hp : parse_credential_identifiers _ _ _ = Ok _ |- _ => unfold parse_credential_identifiers in Hp; rename Hp into H end.
  destruct (bt_get _ "authorization_details") as [[]|]; try discriminate H; [|by injection H as <-].
  ok_steps H. apply ok_or_Ok in H as ->. by eapply parse_details_usable.
Qed.

(** A selection that the authorized identifiers admit. *)
Definition selection_for (identifiers : list string) : CredentialSelection :=
  match identifiers with [] => ConfigurationId | identifier :: _ => CredentialIdentifier identifier end.

Lemma selection_admitted identifiers configuration_id :
  Forall usable_identifier identifiers ->
  exists t, select_target identifiers configuration_id (selection_for identifiers) = Ok t.
Proof.
  intros [|x l Hx _]; [by eexists|]. cbn [select_target selection_for existsb]. rewrite Hx.
  rewrite (proj2 (ct_eq_iff (as_bytes x) (as_bytes x)) eq_refl). by eexists.
Qed.

Lemma granted_matches plan issuer_state client redirect key config v st nonce parsed n :
  config_new plan issuer_state client redirect key = Ok config ->
  valid_pid_plan plan = true -> plan_proof_signing_algorithm plan = "ES256"%string ->
  let g := grant_of {| (AuthorizationSpec.base_of config v st) with token_endpoint_nonce := nonce |} parsed n in
  grant_matches_plan g plan = true /\ gr_dpop_key g = key.
Proof.
  unfold config_new. intros H Hv Ha. ok_steps H. injection H as <-. split; [|done].
  unfold grant_matches_plan. cbn. rewrite !String.eqb_refl, Hv, Ha. done.
Qed.

(** C37: the access token that a flow for a plan yields is accepted for that
    plan by the credential transport, under a selection that the token's
    identifiers determine, and the credential flow is configured with that
    token, the DPoP key the token is bound to and the endpoints of the plan. *)
Theorem token_is_usable plan issuer_state client redirect key config tr flow g ck :
  config_new plan issuer_state client redirect key = Ok config ->
  AuthorizationSpec.flow_run config tr flow -> into_token flow = Ok g ->
  valid_pid_plan plan = true -> plan_proof_signing_algorithm plan = "ES256"%string ->
  exists cc, from_authorization g plan (selection_for (credential_identifiers g)) ck = Ok cc
  /\ cc_access_token cc = access_token g
  /\ cc_dpop_key_ref cc = key_ref key /\ cc_dpop_public_jwk cc = public_jwk key
  /\ cc_credential_issuer cc = plan_issuer plan /\ cc_format cc = plan_format plan
  /\ cc_credential_endpoint cc = plan_credential_endpoint plan /\ cc_nonce_endpoint cc = plan_nonce_endpoint plan.
Proof.
  intros Hc (v & st & _ & Hs & _)%AuthorizationSpec.authorization_run_ok Hg Hv Ha. unfold into_token in Hg.
  destruct (stage flow) eqn:E; try discriminate Hg. injection Hg as ->. destruct Hs as (l & Ht & _).
  destruct Ht as (l0 & t & r & n & parsed & nonce & _ & _ & _ & _ & _ & Hp & ->).
  apply token_identifiers_usable in Hp.
  destruct (granted_matches _ _ _ _ _ _ v st nonce parsed n Hc Hv Ha) as [Hm Hk].
  unfold from_authorization. rewrite Hm. cbn [negb].
  destruct (selection_admitted (pg_credential_identifiers parsed) (plan_configuration_id plan) Hp) as [tg Htg].
  cbn [credential_identifiers grant_of]. rewrite Htg. eexists. split; [reflexivity|].
  cbn [cc_access_token cc_dpop_key_ref cc_dpop_public_jwk]. rewrite Hk. by split_and!.
Qed.
End hand_over.

(** ** Flows run to their end *)

Module Examples.

#[export] Existing Instances Samples.trunc_digest AuthorizationSpec.Examples.base64url_sample.

Definition unpadded (s : string) : bytes := List.filter (fun b => negb (Byte.eqb b Byte.x3d)) (as_bytes s).

(** Padded base64 of the bytes whose text has only letters and digits. *)
#[export] Instance std_base64 : StdBase64 := {|
  std_decode_vec := fun s => decode_vec (string_of_list_byte (unpadded s)) |}.

#[export] Instance std_base64_encode : StdBase64Encode := {|
  std_encode_string := fun b =>
    (encode_string b ++ match length b mod 3 with 1 => "==" | 2 => "=" | _ => "" end)%nat%string |}.

Definition name_text (n : Name) : string :=
  match n with [[a]] => string_of_list_byte (X509.value (attribute_value a)) | _ => "" end.

#[export] Instance der : X509Der := {| X509Profiles.Examples.sample_der with name_to_string := name_text |}.

Notation text := Metadata.Examples.quoted.

Definition strings (l : list string) : Serde.Value := VArray (map VString l).
Definition number (n : Z) : Serde.Value := VNumber (PosInt n).

Definition nonce_answer : bytes := text "{'c_nonce':'fresh'}".
Definition deferral : bytes := text "{'interval':5,'transaction_id':'t1'}".
Definition attestation_header : bytes := text "{'alg':'ES256','typ':'key-attestation+jwt','x5c':['AQ==']}".
Definition attestation_payload : bytes := text
  "{'attested_keys':[{'crv':'P-256','kty':'EC','x':'x','y':'y'}],'exp':9000,'iat':900,'key_storage':['iso_18045_high'],'nonce':'fresh','user_authentication':['iso_18045_high']}".
Definition credential_header : bytes := text "{'alg':'ES256','typ':'dc+sd-jwt'}".

(** A payload with [n] digests of disclosures. *)
Definition payload (n : nat) : bytes :=
  text "{'_sd':[" ++ join_byte Byte.x2c (repeat (text "'d'") n)
  ++ text "],'iss':'https://issuer.example','vct':'urn:eudi:pid:1'}".

Definition jws (header payload : bytes) : string :=
  (encode_string header ++ "." ++ encode_string payload ++ "." ++ encode_string (repeat Byte.x01 64))%string.

Definition sd_jwt (n : nat) : string := (jws credential_header (payload n) ++ "~")%string.

Definition credential_answer (n : nat) : bytes :=
  text "{'credentials':[{'credential':'" ++ as_bytes (sd_jwt n) ++ text "'}]}".

Definition documents : list (bytes * Serde.Value) := [
  (nonce_answer, VObject [("c_nonce", VString "fresh")]);
  (deferral, VObject [("interval", number 5); ("transaction_id", VString "t1")]);
  (attestation_header, VObject [("alg", VString "ES256"); ("typ", VString "key-attestation+jwt");
                                ("x5c", strings ["AQ=="])]);
  (attestation_payload, VObject [
     ("attested_keys", VArray [VObject [("crv", VString "P-256"); ("kty", VString "EC"); ("x", VString "x");
                                        ("y", VString "y")]]);
     ("exp", number 9000); ("iat", number 900); ("key_storage", strings ["iso_18045_high"]);
     ("nonce", VString "fresh"); ("user_authentication", strings ["iso_18045_high"])]);
  (credential_header, VObject [("alg", VString "ES256"); ("typ", VString "dc+sd-jwt")])]%string
  ++ flat_map (fun n => [
       (payload n, VObject [("_sd", strings (repeat "d" n)); ("iss", VString "https://issuer.example");
                            ("vct", VString "urn:eudi:pid:1")]);
       (credential_answer n, VObject [("credentials", VArray [VObject [("credential", VString (sd_jwt n))]])])]%string)
     [0; 16; 17]%nat.

#[export] Instance reader : SerdeJson := {|
  value_from_slice := fun s =>
    let! (_, v) := List.find (fun '(b, _) => bool_decide (b = s)) documents in Some v;
  value_to_vec := fun _ => as_bytes "{}" |}.

Definition key (s : string) : KeyRef := {| key_ref_name := s |}.
Definition jwk : Es256PublicJwk := {| jwk_x := "x"; jwk_y := "y" |}.

Definition config : CredentialFlowConfig := {|
  cc_access_token := "secret"; cc_token_issued_at_epoch_seconds := 900; cc_token_expires_in_seconds := None;
  cc_credential_issuer := AuthorizationSpec.Examples.home; cc_configuration_id := "pid"; cc_format := DcSdJwt;
  cc_expected_vct := SD_JWT_PID_VCT; cc_credential_endpoint := AuthorizationSpec.Examples.at_home "c";
  cc_nonce_endpoint := AuthorizationSpec.Examples.at_home "n";
  cc_deferred_credential_endpoint := Some (AuthorizationSpec.Examples.at_home "d");
  cc_request_target := TargetConfigurationId "pid"; cc_dpop_key_ref := key "dpop"; cc_dpop_public_jwk := jwk;
  cc_credential_key_ref := key "credential"; cc_credential_public_jwk := jwk |}.

(** The draws of a step name the step and the draw; a step takes ten seconds. *)
Definition env (n : Z) : CredentialEnvironment := {|
  ce_random := fun i => repeat (byte.of_Z (4 * n + Z.of_nat i + 1)) 32;
  ce_now_epoch_seconds := 1000 + 10 * n;
  seen_c_nonce_hashes := [] |}.

Definition response (id : CorrelationId) (e : string) (code : Z) (body : bytes) : EndpointResponse := {|
  er_request_id := id; er_endpoint := e; er_method := "POST"; er_status := code;
  content_type_headers := ["application/json"]%string; er_cache_control_headers := ["no-store"]%string;
  er_pragma_headers := []; content_encoding_headers := []; er_dpop_nonce_headers := [];
  www_authenticate_headers := []; er_body := body |}.

(** What an honest environment answers; the issuer defers, or not. *)
Definition answer (defer : bool) (e : CredentialEffect) : CredentialInput :=
  let issuer q := InCredentialResponse (response (crq_request_id q) (crq_endpoint q)
                    (if defer then 202 else 200) (if defer then deferral else credential_answer 0)) in
  let sign s := {| sg_request_id := sr_request_id s; sg_signing_input := sr_signing_input s;
                   sg_signature := repeat Byte.x01 64 |} in
  match e with
  | SendNonce r => InNonceResponse (response (nr_request_id r) (nr_endpoint r) 200 nonce_answer)
  | AcquireKeyAttestation r => InKeyAttestation {|
      ka_request_id := kar_request_id r; ka_credential_issuer := kar_credential_issuer r;
      ka_credential_endpoint := kar_credential_endpoint r; ka_key_ref := kar_key_ref r;
      ka_public_jwk := kar_public_jwk r; ka_c_nonce := kar_c_nonce r;
      ka_jwt := jws attestation_header attestation_payload |}
  | SignCredentialProof s => InCredentialProofSignature (sign s)
  | SignDpop s => InDpopSignature (sign s)
  | SendCredential q | SendDeferred q => issuer q
  end.

(** The flow against that environment, when the issuer defers [deferrals] times. *)
Fixpoint drive (fuel : nat) (n : Z) (deferrals : nat) (tr : list happening) (flow : CredentialFlow)
    (last : CredentialEffect) : list happening * CredentialFlow :=
  match fuel with
  | O => (tr, flow)
  | S fuel =>
      let i := match cf_stage flow with
               | Deferred _ _ _ => PollDeferred
               | _ => answer (Nat.ltb 0 deferrals) last
               end in
      let deferrals := match i with InCredentialResponse _ => Nat.pred deferrals | _ => deferrals end in
      let '(flow', r) := step flow i (env n) in
      let effects := match r with Ok effects => effects | Err _ => [] end in
      drive fuel (n + 1) deferrals (tr ++ Received i (env n) :: map Emitted effects) flow' (hd last effects)
  end.

Lemma issuance_drive fuel n k tr flow e :
  flow_run config tr flow -> flow_run config (fst (drive fuel n k tr flow e)) (snd (drive fuel n k tr flow e)).
Proof.
  revert n k tr flow e. induction fuel as [|fuel IH]; intros n k tr flow e H; cbn [drive]; [done|].
  destruct (step _ _ _) as [flow' r] eqn:Hs. apply IH. exact (run_step _ _ _ _ _ _ _ H Hs).
Qed.

Definition started : result (CredentialFlow * CredentialEffect) CredentialError := begin config (env 0).

Definition issuance (deferrals : nat) : list happening * CredentialFlow :=
  match started with
  | Ok (flow, e) => drive (6 + 3 * deferrals) 1 deferrals [Emitted e] flow e
  | Err e => ([], {| cf_context := base_of config; cf_stage := Failed e |})
  end.

Lemma issuance_run k : flow_run config (fst (issuance k)) (snd (issuance k)).
Proof.
  unfold issuance. destruct started as [[flow e]|] eqn:H; [|vm_compute in H; discriminate H].
  apply issuance_drive. exact (run_begin config (env 0) flow e H).
Qed.

Definition raw_of (flow : CredentialFlow) : option bytes :=
  match into_credential flow with Ok c => Some (ic_raw c) | Err _ => None end.

Example issued_at_once : raw_of (snd (issuance 0)) = Some (as_bytes (sd_jwt 0)).
Proof. vm_compute. reflexivity. Qed.

(** An issuer may defer eight times: the ninth poll fails for want of random
    values, not for a reason of the protocol. *)
Example deferrals_are_bounded :
  raw_of (snd (issuance 8)) = Some (as_bytes (sd_jwt 0)) /\ polls (effects_of (fst (issuance 8))) = 8
  /\ failure (snd (issuance 9)) = Some RandomnessFailure.
Proof. split_and!; vm_compute; reflexivity. Qed.

(** A credential with more than sixteen digests is refused, although 256
    disclosures would be accepted. *)
Example digests_are_bounded :
  let read n := parse_immediate_credential (credential_answer n) DcSdJwt "https://issuer.example" SD_JWT_PID_VCT in
  read 16%nat = Ok (as_bytes (sd_jwt 16)) /\ read 17%nat = Err CredentialFormatMismatch.
Proof. split; vm_compute; reflexivity. Qed.

Definition plan : GermanPidIssuancePlan := {|
  plan_issuer := AuthorizationSpec.Examples.home; plan_server := AuthorizationSpec.Examples.home;
  plan_configuration_id := "pid"; plan_format := DcSdJwt; plan_scope := "pid"; plan_holder_binding := Jwk;
  plan_credential_signing_algorithm := JoseEs256; plan_proof_signing_algorithm := "ES256";
  plan_credential_endpoint := AuthorizationSpec.Examples.at_home "c";
  plan_nonce_endpoint := AuthorizationSpec.Examples.at_home "n";
  plan_deferred_credential_endpoint := None;
  plan_authorization_endpoint := AuthorizationSpec.Examples.at_home "a";
  plan_token_endpoint := AuthorizationSpec.Examples.at_home "t";
  plan_par_endpoint := AuthorizationSpec.Examples.at_home "p"; plan_pid_provider_trust := Unresolved |}.

Definition dpop_key : DpopKeyBinding := {| key_ref := key "dpop"; public_jwk := jwk |}.

Lemma config_of_plan :
  config_new plan None "wallet" "https://wallet.example/cb" dpop_key = Ok AuthorizationSpec.Examples.config.
Proof. vm_compute. reflexivity. Qed.

Definition grant : result AccessTokenGrant AuthorizationError :=
  into_token (snd AuthorizationSpec.Examples.complete).
End Examples.

Import Examples.

Lemma credential_request_history_witness :
  (forall q, Emitted (SendCredential q) ∈ fst (issuance 1) ->
     exists c l, requested (base_of config) l c q /\ sublist l (fst (issuance 1)))
  /\ (forall q, Emitted (SendDeferred q) ∈ fst (issuance 1) ->
        exists c tid l, polled (base_of config) c tid l q /\ sublist l (fst (issuance 1)))
  /\ (forall c, into_credential (snd (issuance 1)) = Ok c ->
        exists l, issued (base_of config) l c /\ sublist l (fst (issuance 1))).
Proof. exact (credential_request_history _ _ _ (issuance_run 1)). Defined.

Lemma issuance_ends_witness :
  len (effects_of (fst (issuance 1))) <= 32 /\ polls (effects_of (fst (issuance 1))) <= 8.
Proof. pose proof (issuance_ends _ _ _ (issuance_run 1)) as (H1 & _ & H3 & _). exact (conj H1 H3). Defined.

Lemma token_is_usable_witness :
  exists g cc, grant = Ok g /\ from_authorization g plan (selection_for (credential_identifiers g))
                                 {| ckb_key_ref := key "credential"; ckb_public_jwk := jwk |} = Ok cc.
Proof.
  destruct grant as [g|] eqn:Hg; [|vm_compute in Hg; discriminate Hg].
  destruct (token_is_usable (SJ := AuthorizationSpec.Examples.documents) plan None "wallet" "https://wallet.example/cb"
    dpop_key _ _ _ g {| ckb_key_ref := key "credential"; ckb_public_jwk := jwk |} config_of_plan
    AuthorizationSpec.Examples.complete_run Hg eq_refl eq_refl) as (cc & Hcc & _).
  exact (ex_intro _ g (ex_intro _ cc (conj eq_refl Hcc))).
Defined.
