(* ===== verification/HybridUseCases.v ===== *)
(** * Hybrid use cases (crates/hybrid-pq/src/use_cases.rs)

    The gates of the experimental uses, the hybrid wallet export and its strict
    codec, the recovery artifact with its associated data, the policy for
    private providers, and the wrapper of experimental credentials.  A cursor is
    the input that is left.  The theorems: an input decodes to an export exactly
    when it is the encoding of that well-formed export; the associated data of
    a recovery fix its generation; a provider is authorised exactly when its
    origin was listed and it offers the hybrid profile alone. *)

From S2P Require Import Prelude Utf8 Cbor Boundary HybridPq HybridTbs HybridEnvelope.
Import HybridPq.Rollout.

Open Scope Z_scope.
Open Scope rust_scope.

Definition HYBRID_EXPORT_MAGIC : bytes := as_bytes "EUWALLET-HYBRID-EXPORT-V2" ++ [Byte.x00].
Definition MAX_HYBRID_EXPORT_CHECKPOINT_BYTES : Z := 32 * 1024 * 1024.
Definition MAX_HYBRID_EXPORT_BYTES : Z := MAX_HYBRID_EXPORT_CHECKPOINT_BYTES + 32 * 1024.
Definition HYBRID_RECOVERY_SCHEMA : string := "euwallet-hybrid-recovery-v1".
Definition EXPERIMENTAL_CATALOGUE_PREFIX : string := "urn:advatar:experimental:pq:".
Definition EXPERIMENTAL_PROFILE_PRODUCTION_APPROVED : bool := false.

(** ** Gates *)

Inductive ExperimentalUseCase : Type :=
| TestPrimitives
| UseHybridWalletExport
| UseHybridRecovery
| PrivateProviderLink
| ExperimentalCredentials
| ProductionAdoption.

Definition index (self : ExperimentalUseCase) : nat :=
  match self with
  | TestPrimitives => 0
  | UseHybridWalletExport => 1
  | UseHybridRecovery => 2
  | PrivateProviderLink => 3
  | ExperimentalCredentials => 4
  | ProductionAdoption => 5
  end.

(** [[bool; 6]], which an index of a use case never leaves. *)
Definition ExperimentalRolloutGates : Type := list bool.

Definition default_gates : ExperimentalRolloutGates := repeat false 6.

Definition is_enabled (self : ExperimentalRolloutGates) (use_case : ExperimentalUseCase) : bool :=
  nth (index use_case) self false.

Definition enable (self : ExperimentalRolloutGates) (use_case : ExperimentalUseCase) : ExperimentalRolloutGates :=
  <[index use_case := true]> self.

Definition rollback (self : ExperimentalRolloutGates) (use_case : ExperimentalUseCase) : ExperimentalRolloutGates :=
  <[index use_case := false]> self.

(** ** The wallet export *)

Record HybridWalletExport : Type := {
  version : Z;
  export_profile : HybridSignatureProfile;
  wallet_identity : string;
  key_generation : Z;
  checkpoint_generation : Z;
  nonce : bytes;
  created_at_epoch_seconds : Z;
  expires_at_epoch_seconds : Z;
  checkpoint : bytes;
  checkpoint_digest : bytes;
  public_key_envelope : bytes;
  signature_envelope : bytes;
}.

Definition bounded (b : bytes) (max : Z) : bool := negb (is_empty b) && (len b <=? max).

(** What [try_new] asks of its arguments. *)
Definition export_fields_ok (wallet_identity : string) (key_generation checkpoint_generation : Z) (nonce : bytes)
    (created_at expires_at : Z) (checkpoint public_key_envelope signature_envelope : bytes) : bool :=
  bounded (as_bytes wallet_identity) MAX_IDENTITY_BYTES
  && negb (key_generation =? 0) && negb (checkpoint_generation =? 0)
  && in_range 16 64 (len nonce) && (created_at <? expires_at)
  && bounded checkpoint MAX_HYBRID_EXPORT_CHECKPOINT_BYTES
  && bounded public_key_envelope MAX_ENVELOPE_BYTES && bounded signature_envelope MAX_ENVELOPE_BYTES.

Definition export_try_new (wallet_identity : string) (key_generation checkpoint_generation : Z) (nonce : bytes)
    (created_at expires_at : Z) (checkpoint checkpoint_digest public_key_envelope signature_envelope : bytes)
  : result HybridWalletExport HybridCryptoError :=
  if export_fields_ok wallet_identity key_generation checkpoint_generation nonce created_at expires_at
       checkpoint public_key_envelope signature_envelope
  then Ok {| version := HYBRID_EXPORT_VERSION; export_profile := Es256MlDsa65V1;
             wallet_identity := wallet_identity; key_generation := key_generation;
             checkpoint_generation := checkpoint_generation; nonce := nonce;
             created_at_epoch_seconds := created_at; expires_at_epoch_seconds := expires_at;
             checkpoint := checkpoint; checkpoint_digest := checkpoint_digest;
             public_key_envelope := public_key_envelope; signature_envelope := signature_envelope |}
  else Err NonCanonicalInput.

Definition require_hybrid_version (version : Z) : result unit HybridCryptoError :=
  if version =? HYBRID_EXPORT_VERSION then Ok tt else Err UnsupportedProfile.

Definition signed_commitment (self : HybridWalletExport) : bytes :=
  as_bytes "EUWALLET-HYBRID-EXPORT-COMMITMENT-V1" ++ to_be_bytes 8 (checkpoint_generation self)
  ++ to_be_bytes 8 (len (checkpoint self)) ++ checkpoint_digest self.

Definition write_export_field (value : bytes) : bytes := to_be_bytes 4 (len value) ++ value.

Definition encode_hybrid_wallet_export (export : HybridWalletExport) : bytes :=
  HYBRID_EXPORT_MAGIC ++ to_be_bytes 2 (version export)
  ++ write_export_field (as_bytes (profile_id (export_profile export)))
  ++ write_export_field (as_bytes (wallet_identity export))
  ++ to_be_bytes 8 (key_generation export) ++ to_be_bytes 8 (checkpoint_generation export)
  ++ write_export_field (nonce export)
  ++ to_be_bytes 8 (created_at_epoch_seconds export) ++ to_be_bytes 8 (expires_at_epoch_seconds export)
  ++ write_export_field (checkpoint export) ++ checkpoint_digest export
  ++ write_export_field (public_key_envelope export) ++ write_export_field (signature_envelope export).

(** The offset of a cursor into its input cannot overflow: the length of a
    field fits 32 bits. *)
Definition cursor_fixed (length : Z) (input : bytes) : result (bytes * bytes) HybridCryptoError :=
  ok_or (split_at_checked length input) NonCanonicalInput.

Definition cursor_uint (width : Z) (input : bytes) : result (Z * bytes) HybridCryptoError :=
  let? (value, input) := cursor_fixed width input in Ok (from_be_bytes value, input).

Definition cursor_field (maximum : Z) (input : bytes) : result (bytes * bytes) HybridCryptoError :=
  let? (length, input) := cursor_uint 4 input in
  if (length =? 0) || (maximum <? length) then Err ResourceLimitExceeded else cursor_fixed length input.

Definition decode_hybrid_wallet_export (input : bytes) : result HybridWalletExport HybridCryptoError :=
  if MAX_HYBRID_EXPORT_BYTES <? len input then Err NonCanonicalInput
  else
    let? cursor := ok_or (strip_prefix HYBRID_EXPORT_MAGIC input) NonCanonicalInput in
    let? (version, cursor) := cursor_uint 2 cursor in
    let? _ := require_hybrid_version version in
    let? (profile, cursor) := cursor_field 64 cursor in
    let? profile := ok_or (let! value := from_utf8 profile in ok (profile_try_from value)) UnsupportedProfile in
    let? (wallet_identity, cursor) := cursor_field MAX_IDENTITY_BYTES cursor in
    let? wallet_identity := ok_or (from_utf8 wallet_identity) NonCanonicalInput in
    let? (key_generation, cursor) := cursor_uint 8 cursor in
    let? (checkpoint_generation, cursor) := cursor_uint 8 cursor in
    let? (nonce, cursor) := cursor_field 64 cursor in
    let? (created_at, cursor) := cursor_uint 8 cursor in
    let? (expires_at, cursor) := cursor_uint 8 cursor in
    let? (checkpoint, cursor) := cursor_field MAX_HYBRID_EXPORT_CHECKPOINT_BYTES cursor in
    let? (checkpoint_digest, cursor) := cursor_fixed 32 cursor in
    let? (public_key_envelope, cursor) := cursor_field MAX_ENVELOPE_BYTES cursor in
    let? (signature_envelope, cursor) := cursor_field MAX_ENVELOPE_BYTES cursor in
    if negb (is_empty cursor) then Err NonCanonicalInput
    else
      let? export := export_try_new wallet_identity key_generation checkpoint_generation nonce created_at expires_at
                       checkpoint checkpoint_digest public_key_envelope signature_envelope in
      if negb (bool_decide (encode_hybrid_wallet_export export = input)) then Err NonCanonicalInput
      else
        (* [export.profile != profile]: there is one profile. *)
        match profile, export_profile export with Es256MlDsa65V1, Es256MlDsa65V1 => Ok export end.

(** ** Recovery *)

Record HybridRecoveryArtifact : Type := {
  recovery_profile : HybridKeyAgreementProfile;
  schema : string;
  recovery_generation : Z;
  ciphertext : bytes;
}.

Definition recovery_try_new (key_generation : Z) (ciphertext : bytes)
  : result HybridRecoveryArtifact HybridCryptoError :=
  if (key_generation =? 0) || is_empty ciphertext then Err NonCanonicalInput
  else Ok {| recovery_profile := P256MlKem768V1; schema := HYBRID_RECOVERY_SCHEMA;
             recovery_generation := key_generation; ciphertext := ciphertext |}.

Definition aad (self : HybridRecoveryArtifact) : bytes :=
  as_bytes "EUWALLET-HYBRID-RECOVERY-AAD-V1"
  ++ concat (map write_export_field
       [as_bytes KA_PROFILE_ID; as_bytes (schema self); to_be_bytes 8 (recovery_generation self)]).

(** ** Providers and wrappers *)

Record PrivateProviderPolicy : Type := { allowed_origins : list string }.

(** What follows [https://] is an authority and nothing else. *)
Definition bad_origin (origin : string) : bool :=
  let authority := unwrap_or (strip_prefix (as_bytes "https://") (as_bytes origin)) [] in
  is_empty authority
  || existsb (fun b => existsb (Byte.eqb b) [Byte.x2f; Byte.x3f; Byte.x23; Byte.x40; Byte.x5c]) authority
  || existsb is_whitespace (unwrap_or (chars authority) []).

Definition policy_try_new (allowed_origins : list string) : result PrivateProviderPolicy HybridCryptoError :=
  if existsb bad_origin allowed_origins then Err NonCanonicalInput
  else Ok {| allowed_origins := dedup str_cmp (sort_with str_cmp allowed_origins) |}.

(** [binary_search_by] on the sorted origins finds what is there. *)
Definition authorize_provider (self : PrivateProviderPolicy) (origin : string) (offered_profiles : list string)
  : result HybridKeyAgreementProfile HybridCryptoError :=
  if negb (bool_decide (origin ∈ allowed_origins self)) || negb (bool_decide (offered_profiles = [KA_PROFILE_ID]))
  then Err DowngradeDetected else Ok P256MlKem768V1.

Record ExperimentalCredentialWrapper : Type := { namespaced_type : string; wrapper_payload : bytes }.

Definition wrapper_try_new (local_type : string) (payload : bytes)
  : result ExperimentalCredentialWrapper HybridCryptoError :=
  if sis_empty local_type || existsb (Byte.eqb Byte.x3a) (as_bytes local_type)
     || existsb (Byte.eqb Byte.x2f) (as_bytes local_type) || is_empty payload
  then Err NonCanonicalInput
  else Ok {| namespaced_type := (EXPERIMENTAL_CATALOGUE_PREFIX ++ local_type)%string; wrapper_payload := payload |}.

Definition satisfies_production_request (self : ExperimentalCredentialWrapper) (_production_type : string) : bool :=
  false.

Record ProductionApproval : Type := {
  standards_profile_approved : bool;
  cab_profile_approved : bool;
  conformance_approved : bool;
}.

Definition adoption_allowed (self : ProductionApproval) : bool :=
  EXPERIMENTAL_PROFILE_PRODUCTION_APPROVED && standards_profile_approved self && cab_profile_approved self
  && conformance_approved self.

(** ** What the codec accepts *)

(** The reads of a cursor and the writes they undo. *)
Lemma cursor_fixed_app n p r : len p = n -> cursor_fixed n (p ++ r) = Ok (p, r).
Proof. intros <-. unfold cursor_fixed. by rewrite split_at_checked_app. Qed.

Lemma cursor_fixed_Ok n input p r : 0 <= n -> cursor_fixed n input = Ok (p, r) -> input = p ++ r /\ len p = n.
Proof. unfold cursor_fixed. intros Hn H%ok_or_Ok. by apply split_at_checked_Some. Qed.

Lemma cursor_uint_app (w : nat) n v r :
  n = Z.of_nat w -> 0 <= v < 2 ^ (n * 8) -> cursor_uint n (to_be_bytes w v ++ r) = Ok (v, r).
Proof.
  intros -> Hv. unfold cursor_uint. rewrite cursor_fixed_app by apply len_to_be_bytes.
  by rewrite from_to_be_bytes.
Qed.

Lemma cursor_uint_Ok (w : nat) n input v r :
  n = Z.of_nat w -> cursor_uint n input = Ok (v, r) -> input = to_be_bytes w v ++ r /\ 0 <= v < 2 ^ (n * 8).
Proof.
  intros -> H. unfold cursor_uint in H. destruct (cursor_fixed _ _) as [[p rest]|] eqn:Er; [|done]. injection H as <- <-.
  apply cursor_fixed_Ok in Er as [-> Hl]; [|lia].
  assert (length p = w) as Hw by (unfold len in Hl; lia).
  rewrite to_from_be_bytes by done. split; [done|]. rewrite <- Hw. apply from_be_bytes_range.
Qed.

Lemma cursor_field_app maximum v r :
  0 < len v <= maximum -> maximum <= U32_MAX -> cursor_field maximum (write_export_field v ++ r) = Ok (v, r).
Proof.
  intros Hv Hm. unfold cursor_field, write_export_field. rewrite <- app_assoc.
  rewrite (cursor_uint_app 4) by (width; lia).
  assert ((len v =? 0) || (maximum <? len v) = false) as -> by lia. by apply cursor_fixed_app.
Qed.

Lemma cursor_field_Ok maximum input v r :
  cursor_field maximum input = Ok (v, r) -> input = write_export_field v ++ r /\ 0 < len v <= maximum.
Proof.
  unfold cursor_field. intros H. destruct (cursor_uint 4 input) as [[n rest]|] eqn:Er; [|done]. ok_step H.
  apply (cursor_uint_Ok 4) in Er as [-> Hn]; [|done]. bool_prop.
  apply cursor_fixed_Ok in H as [-> <-]; [|lia]. unfold write_export_field. rewrite <- app_assoc.
  split; [done|lia].
Qed.

(** An export as [try_new] makes it, over the types of its fields. *)
Record export_wf (e : HybridWalletExport) : Prop := {
  wf_version : version e = HYBRID_EXPORT_VERSION;
  wf_identity : is_str (wallet_identity e) = true;
  wf_key_generation : is_u64 (key_generation e) = true;
  wf_checkpoint_generation : is_u64 (checkpoint_generation e) = true;
  wf_created : is_u64 (created_at_epoch_seconds e) = true;
  wf_expires : is_u64 (expires_at_epoch_seconds e) = true;
  wf_digest : len (checkpoint_digest e) = 32;
  wf_fields : export_fields_ok (wallet_identity e) (key_generation e) (checkpoint_generation e) (nonce e)
                (created_at_epoch_seconds e) (expires_at_epoch_seconds e) (checkpoint e) (public_key_envelope e)
                (signature_envelope e) = true;
}.

Lemma export_try_new_wf e :
  export_wf e ->
  export_try_new (wallet_identity e) (key_generation e) (checkpoint_generation e) (nonce e)
    (created_at_epoch_seconds e) (expires_at_epoch_seconds e) (checkpoint e) (checkpoint_digest e)
    (public_key_envelope e) (signature_envelope e) = Ok e.
Proof.
  intros [Hv _ _ _ _ _ _ Hf]. unfold export_try_new. rewrite Hf. destruct e as [v p ? ? ? ? ? ? ? ? ? ?]. cbn in *.
  subst v. by destruct p.
Qed.

Lemma bounded_len b max : bounded b max = true <-> 0 < len b <= max.
Proof.
  unfold bounded. rewrite andb_true_iff, negb_true_iff, is_empty_len, Z.leb_le. done.
Qed.

Lemma export_lengths e :
  export_wf e ->
  0 < len (as_bytes (wallet_identity e)) <= 128 /\ 16 <= len (nonce e) <= 64
  /\ 0 < len (checkpoint e) <= MAX_HYBRID_EXPORT_CHECKPOINT_BYTES
  /\ 0 < len (public_key_envelope e) <= MAX_ENVELOPE_BYTES /\ 0 < len (signature_envelope e) <= MAX_ENVELOPE_BYTES.
Proof.
  intros [_ _ _ _ _ _ _ Hf]. unfold export_fields_ok in Hf. bool_prop.
  repeat match goal with H : bounded _ _ = true |- _ => apply bounded_len in H end.
  unfold in_range, MAX_IDENTITY_BYTES in *. bool_prop. repeat split; lia.
Qed.

Lemma write_export_field_len v : len (write_export_field v) = 4 + len v.
Proof. unfold write_export_field. by rewrite len_app, len_to_be_bytes. Qed.

(** Every well-formed export fits the bound the decoder puts on its input. *)
Lemma encoding_fits e : export_wf e -> len (encode_hybrid_wallet_export e) <= MAX_HYBRID_EXPORT_BYTES.
Proof.
  intros W. destruct (export_lengths e W) as (? & ? & ? & ? & ?). pose proof (wf_digest e W).
  unfold encode_hybrid_wallet_export. rewrite !len_app, !write_export_field_len, !len_to_be_bytes.
  assert (len (as_bytes (profile_id (export_profile e))) = 21) as -> by by destruct (export_profile e).
  change (len HYBRID_EXPORT_MAGIC) with 26.
  unfold MAX_HYBRID_EXPORT_BYTES, MAX_HYBRID_EXPORT_CHECKPOINT_BYTES, MAX_ENVELOPE_BYTES in *. lia.
Qed.

Lemma u64_range v : is_u64 v = true <-> 0 <= v < 2 ^ (8 * 8).
Proof. width. rewrite andb_true_iff, !Z.leb_le. lia. Qed.

Lemma decode_encode e : export_wf e -> decode_hybrid_wallet_export (encode_hybrid_wallet_export e) = Ok e.
Proof.
  intros W. destruct (export_lengths e W) as (? & ? & ? & ? & ?).
  assert (decode_hybrid_wallet_export (encode_hybrid_wallet_export e) =
          if bool_decide (encode_hybrid_wallet_export e = encode_hybrid_wallet_export e)
          then Ok e else Err NonCanonicalInput) as ->; [|by rewrite bool_decide_eq_true_2].
  unfold decode_hybrid_wallet_export at 1. pose proof (encoding_fits e W).
  assert (MAX_HYBRID_EXPORT_BYTES <? len (encode_hybrid_wallet_export e) = false) as -> by lia.
  set (input := encode_hybrid_wallet_export e). unfold input at 1. unfold encode_hybrid_wallet_export at 1.
  rewrite strip_prefix_app. cbn [ok_or]. rewrite (cursor_uint_app 2 2) by (rewrite ?(wf_version e W); done).
  rewrite (wf_version e W). cbn [require_hybrid_version].
  change (require_hybrid_version HYBRID_EXPORT_VERSION) with (@Ok unit HybridCryptoError tt). cbn match.
  unfold MAX_IDENTITY_BYTES, MAX_HYBRID_EXPORT_CHECKPOINT_BYTES, MAX_ENVELOPE_BYTES in *.
  rewrite cursor_field_app; [|by destruct (export_profile e)|done].
  rewrite from_utf8_as_bytes by by destruct (export_profile e).
  replace (profile_try_from (profile_id (export_profile e))) with
    (@Ok HybridSignatureProfile HybridCryptoError Es256MlDsa65V1) by by destruct (export_profile e).
  cbn [ok ok_or]. rewrite cursor_field_app by (width; lia). rewrite from_utf8_as_bytes by apply W. cbn [ok_or].
  rewrite !(cursor_uint_app 8 8) by (done || apply u64_range, W). rewrite cursor_field_app by (width; lia).
  rewrite !(cursor_uint_app 8 8) by (done || apply u64_range, W).
  rewrite cursor_field_app by (width; lia). rewrite cursor_fixed_app by apply W.
  rewrite cursor_field_app by (width; lia). rewrite <- (app_nil_r (write_export_field (signature_envelope e))).
  rewrite cursor_field_app by (width; lia). cbn [is_empty negb]. rewrite export_try_new_wf by done. fold input.
  rewrite bool_decide_eq_true_2 by done. cbn [negb]. by destruct (export_profile e).
Qed.

Lemma export_try_new_Ok id kg cg n c x cp d pk sg e :
  export_try_new id kg cg n c x cp d pk sg = Ok e ->
  is_str id = true -> is_u64 kg = true -> is_u64 cg = true -> is_u64 c = true -> is_u64 x = true -> len d = 32 ->
  export_wf e.
Proof. unfold export_try_new. intros H. ok_step H. injection H as <-. by split. Qed.

(** The reads of a decoder that succeeds, one after the other. *)
Ltac cursor_steps H := repeat (ok_step H || match type of H with (let '(_, _) := ?c in _) = _ => destruct c as [? ?] end).

Lemma decode_wf input e :
  decode_hybrid_wallet_export input = Ok e -> export_wf e /\ input = encode_hybrid_wallet_export e.
Proof.
  unfold decode_hybrid_wallet_export. intros H. cursor_steps H.
  repeat match goal with
  | H : cursor_uint 2 _ = Ok _ |- _ => apply (cursor_uint_Ok 2) in H as [_ ?]; [|done]
  | H : cursor_uint 8 _ = Ok _ |- _ => apply (cursor_uint_Ok 8) in H as [_ ?%u64_range]; [|done]
  | H : cursor_fixed 32 _ = Ok _ |- _ => apply cursor_fixed_Ok in H as [_ ?]; [|done]
  end.
  ok_norm. repeat match goal with H : from_utf8 _ = Some _ |- _ => apply from_utf8_Some in H as [_ ?] end.
  match type of H with match ?p with _ => _ end = _ => destruct p end.
  match type of H with match ?p with _ => _ end = _ => destruct p end.
  injection H as <-. split; [|done]. by eapply export_try_new_Ok.
Qed.

(** The strict codec of the hybrid wallet export: an input decodes to an
    export exactly when that export is well formed (the fields [try_new]
    admits, over their types) and the input is its encoding.  So every export
    that can be made fits the decoder's bound and reads back as itself, no two
    inputs decode to one export, and nothing else is accepted. *)
Theorem hybrid_export_iff input e :
  decode_hybrid_wallet_export input = Ok e <-> export_wf e /\ input = encode_hybrid_wallet_export e.
Proof. split; [apply decode_wf|]. intros [W ->]. by apply decode_encode. Qed.

(** ** Recovery, providers, gates *)

(** The associated data of two recovery artifacts agree exactly when their
    generations do: the ciphertext of one key generation cannot be opened as
    another's. *)
Theorem recovery_aad_specific g g' c c' a a' :
  is_u64 g = true -> is_u64 g' = true ->
  recovery_try_new g c = Ok a -> recovery_try_new g' c' = Ok a' ->
  aad a = aad a' <-> g = g'.
Proof.
  unfold recovery_try_new. intros Hg Hg' H H'. ok_step H. ok_step H'. injection H as <-. injection H' as <-.
  split; [|by intros ->]. unfold aad, write_export_field. cbn [map concat schema recovery_generation].
  rewrite !len_to_be_bytes. rewrite !app_nil_r. intros E. repeat apply app_inv_head in E.
  by apply to_be_bytes_u64_inj.
Qed.

Lemma recovery_aad_specific_witness :
  exists a a', recovery_try_new 1 [Byte.x09] = Ok a /\ recovery_try_new 2 [Byte.x09] = Ok a' /\ aad a <> aad a'.
Proof.
  do 2 eexists. split; [reflexivity|]. split; [reflexivity|].
  rewrite (recovery_aad_specific 1 2 [Byte.x09] [Byte.x09]) by reflexivity. discriminate.
Defined.

(** A private provider is authorised exactly when its origin is one the
    policy was made from, however they were ordered and repeated, and it offers
    the hybrid profile and nothing else; a policy is made exactly when every
    origin is [https://] and a bare authority. *)
Theorem provider_authorised_iff origins origin offered p :
  (let? policy := policy_try_new origins in authorize_provider policy origin offered) = Ok p
  <-> Forall (fun o => bad_origin o = false) origins /\ origin ∈ origins /\ offered = [KA_PROFILE_ID].
Proof.
  unfold policy_try_new, authorize_provider. destruct p. destruct (existsb bad_origin origins) eqn:E.
  - split; [done|]. intros [F _]. apply existsb_exists in E as (o & Ho & Eo). rewrite Forall_forall in F.
    by rewrite F in Eo.
  - assert (Forall (fun o => bad_origin o = false) origins) as F.
    { apply Forall_forall. intros o Ho. apply not_true_is_false. intros Eo.
      assert (existsb bad_origin origins = true); [|congruence]. apply existsb_exists. by exists o. }
    cbn [allowed_origins]. rewrite (bool_decide_ext _ (origin ∈ origins)).
    + do 2 case_bool_decide; cbn; split; try done; by intros (_ & ? & ?).
    + rewrite !list_elem_of_In. apply dedup_sort_In, str_cmp_laws.
Qed.

(** Turning one slice on or off leaves the others as they were. *)
Lemma gates_independent gates u v :
  length gates = 6%nat ->
  is_enabled (enable gates u) v = (bool_decide (index u = index v)) || is_enabled gates v
  /\ is_enabled (rollback gates u) v = negb (bool_decide (index u = index v)) && is_enabled gates v.
Proof.
  intros H. do 7 (destruct gates as [|? gates]; try discriminate H). by destruct u, v.
Qed.

(** The round trip of the program's own test, and its trailing byte. *)
Example hybrid_export_runs :
  exists e, export_try_new "wallet-1" 2 7 (repeat Byte.x01 16) 100 200 [Byte.x09; Byte.x08; Byte.x07]
              (repeat Byte.x03 32) [Byte.x04] [Byte.x05] = Ok e
  /\ decode_hybrid_wallet_export (encode_hybrid_wallet_export e) = Ok e
  /\ decode_hybrid_wallet_export (encode_hybrid_wallet_export e ++ [Byte.x00]) = Err NonCanonicalInput.
Proof. eexists. split; [reflexivity|]. by split; vm_compute. Qed.
