(* ===== verification/HybridExchange.v ===== *)
(** * Hybrid verification and key establishment
    (crates/crypto-backend/src/experimental_pq.rs)

    The one entry point that verifies a hybrid signature, and the P-256 +
    ML-KEM-768 key establishment with its transcript and combiner.  The crates
    ml_dsa and ml_kem are parameters; their secret keys are the seeds they were
    made from.  The theorems: a signature is accepted exactly when both of its
    components verify over the one input the profile, purpose, context and
    payload determine, under the key, the identity, the generation and the
    times that were expected; a recipient derives the sender's key; a recipient
    that authenticated a sender's transcript derives no key unless sender,
    recipient, generation, context, public keys and shares are that sender's. *)

From S2P Require Import Prelude Utf8 Boundary Sealing HybridPq HybridTbs HybridEnvelope.

Open Scope Z_scope.
Open Scope rust_scope.

(** ** The component crates *)

(** ml_dsa for ML-DSA-65.  A verifying key of the right size always decodes;
    [dsa_signature_decodes] is [Signature::try_from]. *)
Class MlDsa65 : Type := {
  dsa_verifying_key : bytes -> bytes;
  dsa_try_sign : bytes -> bytes -> option bytes;
  dsa_signature_decodes : bytes -> bool;
  dsa_verify : bytes -> bytes -> bytes -> bool;
}.

(** Keys and signatures have the sizes of FIPS 204, and a signature verifies. *)
Class MlDsa65Laws `{MlDsa65} : Prop := {
  dsa_key_length : forall seed, len (dsa_verifying_key seed) = ML_DSA_65_PUBLIC_KEY_BYTES;
  dsa_signature_length : forall seed m s,
    dsa_try_sign seed m = Some s -> len s = ML_DSA_65_SIGNATURE_BYTES;
  dsa_correct : forall seed m s,
    dsa_try_sign seed m = Some s ->
    dsa_signature_decodes s = true /\ dsa_verify (dsa_verifying_key seed) m s = true;
}.

(** ml_kem for ML-KEM-768; [kem_encapsulate] takes the randomness the crate
    draws, and fails on a key it rejects. *)
Class MlKem768 : Type := {
  kem_encapsulation_key : bytes -> bytes;
  kem_encapsulate : bytes -> bytes -> option (bytes * bytes);
  kem_decapsulate : bytes -> bytes -> bytes;
}.

(** The sizes of FIPS 203, and its correctness (a decapsulation failure has
    probability below 2^-164). *)
Class MlKem768Laws `{MlKem768} : Prop := {
  kem_key_length : forall seed, len (kem_encapsulation_key seed) = ML_KEM_768_ENCAPSULATION_KEY_BYTES;
  kem_ciphertext_length : forall random key ct ss,
    kem_encapsulate random key = Some (ct, ss) -> len ct = ML_KEM_768_CIPHERTEXT_BYTES;
  kem_correct : forall random seed ct ss,
    kem_encapsulate random (kem_encapsulation_key seed) = Some (ct, ss) -> kem_decapsulate seed ct = ss;
}.

(** The x-coordinate of a P-256 agreement. *)
Class EcdhSecret `{Ecdh} : Prop := {
  ecdh_secret_length : forall a pub z, ecdh_agree a pub = Some z -> len z = 32;
}.

Inductive ExperimentalPqError : Type :=
| InvalidPrivateKey
| InvalidPublicKey
| InvalidSignature
| InvalidCiphertext
| VerificationFailed
| RandomnessUnavailable.

(** ** ML-DSA-65 *)

Section ml_dsa.
Context `{DSA : MlDsa65}.

(** The seed's bytes, when the system's source delivers them. *)
Definition ml_dsa_generate (random : option bytes) : result bytes ExperimentalPqError :=
  ok_or random RandomnessUnavailable.

Definition ml_dsa_from_seed (seed : bytes) : result bytes ExperimentalPqError :=
  if negb (len seed =? 32) then Err InvalidPrivateKey else Ok seed.

Definition ml_dsa_public_key (self : bytes) : bytes := dsa_verifying_key self.

Definition ml_dsa_sign (self message : bytes) : result bytes ExperimentalPqError :=
  ok_or (dsa_try_sign self message) InvalidSignature.

Definition verify_ml_dsa_65 (public_key message signature : bytes) : result unit ExperimentalPqError :=
  if negb (len public_key =? ML_DSA_65_PUBLIC_KEY_BYTES) then Err InvalidPublicKey
  else if negb (len signature =? ML_DSA_65_SIGNATURE_BYTES) then Err InvalidSignature
  else if negb (dsa_signature_decodes signature) then Err InvalidSignature
  else if dsa_verify public_key message signature then Ok tt else Err VerificationFailed.

Lemma ml_dsa_sign_verifies {L : MlDsa65Laws} seed m s :
  ml_dsa_sign seed m = Ok s -> verify_ml_dsa_65 (ml_dsa_public_key seed) m s = Ok tt.
Proof.
  unfold ml_dsa_sign. intros H%ok_or_Ok. unfold verify_ml_dsa_65, ml_dsa_public_key.
  rewrite dsa_key_length, (dsa_signature_length _ _ _ H). destruct (dsa_correct _ _ _ H) as [-> ->]. done.
Qed.
End ml_dsa.

(** ** ML-KEM-768 *)

Section ml_kem.
Context `{KEM : MlKem768}.

Definition ml_kem_generate (random : option bytes) : result bytes ExperimentalPqError :=
  ok_or random RandomnessUnavailable.

Definition ml_kem_from_seed (seed : bytes) : result bytes ExperimentalPqError :=
  if negb (len seed =? 64) then Err InvalidPrivateKey else Ok seed.

Definition ml_kem_public_key (self : bytes) : bytes := kem_encapsulation_key self.

Definition ml_kem_decapsulate (self ciphertext : bytes) : result bytes ExperimentalPqError :=
  if negb (len ciphertext =? ML_KEM_768_CIPHERTEXT_BYTES) then Err InvalidCiphertext
  else Ok (kem_decapsulate self ciphertext).

Definition encapsulate_ml_kem_768 (random public_key : bytes) : result (bytes * bytes) ExperimentalPqError :=
  if negb (len public_key =? ML_KEM_768_ENCAPSULATION_KEY_BYTES) then Err InvalidPublicKey
  else ok_or (kem_encapsulate random public_key) InvalidPublicKey.
End ml_kem.

(** ** The atomic verifier *)

Record HybridVerificationInput : Type := {
  signature_envelope : bytes;
  public_key_envelope : bytes;
  resolved_key_ref : HybridKeyRef;
  expected_key_ref : HybridKeyRef;
  expected_profile : HybridSignatureProfile;
  expected_purpose : HybridPurpose;
  context : HybridContext;
  payload : bytes;
  expected_audience : option bytes;
  expected_nonce : bytes;
  seen_nonces : list bytes;
  now_epoch_seconds : Z;
  downgrade_attempted : bool;
}.

Definition envelope_diagnostic (error : EnvelopeError) : HybridErrorClass :=
  match error with
  | EnvelopeError.UnsupportedProfile => ClassUnsupportedProfile
  | EnvelopeError.MalformedComponent => ClassMalformedComponent
  | EnvelopeError.TooLarge => ClassResourceLimitExceeded
  | _ => ClassNonCanonicalInput
  end.

Definition profile_eqb (p q : HybridSignatureProfile) : bool :=
  match p, q with Es256MlDsa65V1, Es256MlDsa65V1 => true end.

Section verifier.
Context `{V : Verifier} `{DSA : MlDsa65}.

(** [HybridVerificationRejected] is the class it carries. *)
Definition verify_hybrid_signature_atomic (input : HybridVerificationInput) : result unit HybridErrorClass :=
  let? envelope := map_err (decode_signature (signature_envelope input)) envelope_diagnostic in
  let? public_key := map_err (decode_public_key (public_key_envelope input)) envelope_diagnostic in
  if negb (bool_decide (encode_signature envelope = signature_envelope input))
     || negb (bool_decide (encode_public_key public_key = public_key_envelope input))
  then Err ClassNonCanonicalInput
  else
  let signature := env_signature envelope in
  if negb (profile_eqb (expected_profile input) Es256MlDsa65V1)
     || negb (profile_eqb (pk_profile public_key) (expected_profile input))
     || negb (profile_eqb (sig_profile signature) (expected_profile input))
     || negb (bool_decide (env_purpose envelope = expected_purpose input))
  then Err ClassMismatch
  else if negb (bool_decide (identity (resolved_key_ref input) = identity (expected_key_ref input)))
  then Err (class (Mismatch MismatchIdentity))
  else if negb (generation (resolved_key_ref input) =? generation (expected_key_ref input))
          || negb (key_generation (context input) =? generation (expected_key_ref input))
  then Err (class (Mismatch MismatchGeneration))
  else if negb (bool_decide (wallet_identity (context input) = as_bytes (identity (expected_key_ref input))))
          || negb (bool_decide (audience (context input) = expected_audience input))
          || negb (bool_decide (nonce (context input) = expected_nonce input))
          || existsb (fun nonce => bool_decide (nonce = expected_nonce input)) (seen_nonces input)
          || (now_epoch_seconds input <? created_at_epoch_seconds (context input))
          || (expires_at_epoch_seconds (context input) <=? now_epoch_seconds input)
  then Err ClassPolicyDenied
  else if downgrade_attempted input then Err ClassDowngradeDetected
  else
  let? tbs := map_err (build (expected_profile input) (expected_purpose input) (context input) (payload input))
                class in
  let? _ := map_err (verify Es256 (pk_classical public_key) tbs (sig_classical signature))
              (fun _ => ClassVerificationFailure) in
  let? _ := map_err (verify_ml_dsa_65 (pk_post_quantum public_key) tbs (sig_post_quantum signature))
              (fun _ => ClassVerificationFailure) in
  Ok tt.
End verifier.

(** ** Key establishment *)

Definition HYBRID_KEM_LABEL : bytes := as_bytes "EUWALLET-UG-P256-MLKEM768-HKDF-SHA256-V1".
Definition HYBRID_TRAFFIC_INFO : bytes := as_bytes "EUWALLET-HYBRID-TRAFFIC-KEY-V1".
Definition MAX_HYBRID_CONTEXT_BYTES : Z := 4096.

Record HybridEncapsulation : Type := {
  enc_profile : HybridKeyAgreementProfile;
  sender_identity : string;
  recipient_identity : string;
  enc_generation : Z;
  classical_ephemeral_public : bytes;
  enc_ciphertext : bytes;
  enc_transcript_hash : bytes;
}.

Record HybridRecipientKey : Type := {
  recipient_reference : HybridKeyRef;
  recipient_classical : P256AgreementKey;
  recipient_post_quantum : bytes;
}.

Definition negotiate_hybrid_key_agreement (offered_profiles : list string) (hybrid_required : bool)
  : result HybridKeyAgreementProfile HybridCryptoError :=
  let exact := len (List.filter (fun profile => bool_decide (profile = KA_PROFILE_ID)) offered_profiles) in
  if negb hybrid_required || negb (exact =? 1) || negb (len offered_profiles =? 1)
  then Err DowngradeDetected
  else Ok P256MlKem768V1.

Definition transcript_field (output value : bytes) : result bytes HybridCryptoError :=
  if U32_MAX <? len value then Err ResourceLimitExceeded
  else Ok (output ++ to_be_bytes 4 (len value) ++ value).

Definition validate_hybrid_identity (identity : string) : result unit HybridCryptoError :=
  if sis_empty identity || (MAX_IDENTITY_BYTES <? slen identity) then Err (Mismatch MismatchIdentity) else Ok tt.

Definition validate_hybrid_context (context : bytes) : result unit HybridCryptoError :=
  if is_empty context || (MAX_HYBRID_CONTEXT_BYTES <? len context) then Err NonCanonicalInput else Ok tt.

Definition TRANSCRIPT_DOMAIN : bytes := as_bytes "EUWALLET-HYBRID-KEM-TRANSCRIPT-V1".

(** The buffer [hybrid_transcript_hash] hashes. *)
Definition hybrid_transcript (sender_identity : string) (recipient : HybridKeyRef) (context : bytes)
    (recipient_public : HybridKeyAgreementPublicKey) (classical_ephemeral post_quantum_ciphertext : bytes)
  : result bytes HybridCryptoError :=
  let? transcript := transcript_field TRANSCRIPT_DOMAIN (as_bytes KA_PROFILE_ID) in
  let? transcript := transcript_field transcript (as_bytes sender_identity) in
  let? transcript := transcript_field transcript (as_bytes (identity recipient)) in
  let? transcript := transcript_field transcript (to_be_bytes 8 (generation recipient)) in
  let? transcript := transcript_field transcript context in
  let? transcript := transcript_field transcript (ka_classical recipient_public) in
  let? transcript := transcript_field transcript (ka_post_quantum recipient_public) in
  let? transcript := transcript_field transcript classical_ephemeral in
  transcript_field transcript post_quantum_ciphertext.

Record HybridPlatformDecapsulationInput : Type := {
  in_reference : HybridKeyRef;
  in_public : HybridKeyAgreementPublicKey;
  in_post_quantum : bytes;
  classical_shared_secret : bytes;
  expected_sender_identity : string;
  in_context : bytes;
  encapsulation : HybridEncapsulation;
  authenticated_transcript_hash : bytes;
}.

Section exchange.
Context `{D : Digest} `{K : Kdf} `{E : Ecdh} `{KEM : MlKem768}.

(** [HybridRecipientKey::generate], with the randomness of its two keys. *)
Definition recipient_generate (classical_random : bytes) (post_quantum_random : option bytes)
    (reference : HybridKeyRef) : result HybridRecipientKey HybridCryptoError :=
  let? classical := map_err (generate classical_random) (fun _ => ComponentFailure Classical) in
  let? post_quantum := map_err (ml_kem_generate post_quantum_random) (fun _ => ComponentFailure PostQuantum) in
  Ok {| recipient_reference := reference; recipient_classical := classical;
        recipient_post_quantum := post_quantum |}.

Definition recipient_public_key (self : HybridRecipientKey)
  : result HybridKeyAgreementPublicKey HybridCryptoError :=
  ka_public_key_try_new P256MlKem768V1 (public_raw (recipient_classical self))
    (ml_kem_public_key (recipient_post_quantum self)).

Definition hybrid_transcript_hash (sender_identity : string) (recipient : HybridKeyRef) (context : bytes)
    (recipient_public : HybridKeyAgreementPublicKey) (classical_ephemeral post_quantum_ciphertext : bytes)
  : result bytes HybridCryptoError :=
  let? transcript := hybrid_transcript sender_identity recipient context recipient_public classical_ephemeral
                       post_quantum_ciphertext in
  Ok (sha256 transcript).

Definition hybrid_combiner (post_quantum_secret classical_secret post_quantum_ciphertext classical_ephemeral
    post_quantum_public classical_public transcript_hash : bytes) : bytes :=
  let universal_input := post_quantum_secret ++ classical_secret ++ post_quantum_ciphertext ++ classical_ephemeral
    ++ post_quantum_public ++ classical_public ++ HYBRID_KEM_LABEL ++ transcript_hash in
  let combined := hkdf_sha256 universal_input HYBRID_KEM_LABEL
                    (as_bytes "EUWALLET-HYBRID-UNIVERSAL-COMBINER-EXTRACT-V1") 32 in
  hkdf_sha256 combined transcript_hash (HYBRID_TRAFFIC_INFO ++ transcript_hash) 32.

(** The two random inputs are what the ephemeral key and the encapsulation draw. *)
Definition encapsulate_hybrid_key (ephemeral_random kem_random : bytes) (sender : string)
    (recipient : HybridKeyRef) (recipient_public : HybridKeyAgreementPublicKey) (context : bytes)
  : result (HybridEncapsulation * bytes) HybridCryptoError :=
  let? _ := validate_hybrid_identity sender in
  let? _ := validate_hybrid_context context in
  let? _ := match ka_profile recipient_public with P256MlKem768V1 => Ok tt end in
  let? classical := map_err (ecdh_es_p256 ephemeral_random (ka_classical recipient_public))
                      (fun _ => ComponentFailure Classical) in
  let? (ciphertext, secret) := map_err (encapsulate_ml_kem_768 kem_random (ka_post_quantum recipient_public))
                                 (fun _ => ComponentFailure PostQuantum) in
  let? transcript_hash := hybrid_transcript_hash sender recipient context recipient_public
                            (ephemeral_public classical) ciphertext in
  let key := hybrid_combiner secret (Sealing.shared_secret classical) ciphertext (ephemeral_public classical)
               (ka_post_quantum recipient_public) (ka_classical recipient_public) transcript_hash in
  Ok ({| enc_profile := P256MlKem768V1; sender_identity := sender;
         recipient_identity := identity recipient; enc_generation := generation recipient;
         classical_ephemeral_public := ephemeral_public classical; enc_ciphertext := ciphertext;
         enc_transcript_hash := transcript_hash |}, key).

Definition decapsulate_hybrid_key_with_components (input : HybridPlatformDecapsulationInput)
  : result bytes HybridCryptoError :=
  let encapsulation := encapsulation input in
  let? _ := validate_hybrid_identity (expected_sender_identity input) in
  let? _ := validate_hybrid_context (in_context input) in
  if negb (len (classical_shared_secret input) =? 32) then Err (MalformedComponent Classical)
  else
  let? _ := match enc_profile encapsulation, ka_profile (in_public input) with
            | P256MlKem768V1, P256MlKem768V1 => Ok tt end in
  if negb (bool_decide (sender_identity encapsulation = expected_sender_identity input))
     || negb (bool_decide (recipient_identity encapsulation = identity (in_reference input)))
  then Err (Mismatch MismatchIdentity)
  else if negb (enc_generation encapsulation =? generation (in_reference input))
  then Err (Mismatch MismatchGeneration)
  else
  let? expected_transcript := hybrid_transcript_hash (expected_sender_identity input) (in_reference input)
      (in_context input) (in_public input) (classical_ephemeral_public encapsulation)
      (enc_ciphertext encapsulation) in
  if negb (bool_decide (expected_transcript = enc_transcript_hash encapsulation))
     || negb (bool_decide (expected_transcript = authenticated_transcript_hash input))
  then Err DowngradeDetected
  else
  let? secret := map_err (ml_kem_decapsulate (in_post_quantum input) (enc_ciphertext encapsulation))
                   (fun _ => MalformedComponent PostQuantum) in
  Ok (hybrid_combiner secret (classical_shared_secret input) (enc_ciphertext encapsulation)
        (classical_ephemeral_public encapsulation) (ka_post_quantum (in_public input))
        (ka_classical (in_public input)) (enc_transcript_hash encapsulation)).

Definition decapsulate_hybrid_key (recipient : HybridRecipientKey) (expected_sender : string) (context : bytes)
    (encapsulation : HybridEncapsulation) (authenticated_transcript_hash : bytes)
  : result bytes HybridCryptoError :=
  let? _ := validate_hybrid_identity expected_sender in
  let? _ := validate_hybrid_context context in
  let? _ := match enc_profile encapsulation with P256MlKem768V1 => Ok tt end in
  if negb (bool_decide (sender_identity encapsulation = expected_sender))
     || negb (bool_decide (recipient_identity encapsulation = identity (recipient_reference recipient)))
  then Err (Mismatch MismatchIdentity)
  else if negb (enc_generation encapsulation =? generation (recipient_reference recipient))
  then Err (Mismatch MismatchGeneration)
  else
  let? public := recipient_public_key recipient in
  let? classical_secret := map_err (agree (recipient_classical recipient) (classical_ephemeral_public encapsulation))
                             (fun _ => ComponentFailure Classical) in
  decapsulate_hybrid_key_with_components
    {| in_reference := recipient_reference recipient; in_public := public;
       in_post_quantum := recipient_post_quantum recipient; classical_shared_secret := classical_secret;
       expected_sender_identity := expected_sender; in_context := context; encapsulation := encapsulation;
       authenticated_transcript_hash := authenticated_transcript_hash |}.
End exchange.

(** ** The verifier accepts what both components signed *)

(** What an input that is accepted is: the two envelopes, the bindings the
    caller expected, the one input that was signed. *)
Section accepted.
Context `{V : Verifier} `{DSA : MlDsa65}.

Record accepted (input : HybridVerificationInput) (k : HybridPublicKey) (s : HybridSignature) (tbs : bytes)
  : Prop := {
  acc_key : public_key_valid k /\ public_key_envelope input = encode_public_key k;
  acc_signature : signature_valid s /\ signature_envelope input =
    encode_signature {| env_purpose := expected_purpose input; env_signature := s |};
  acc_reference : identity (resolved_key_ref input) = identity (expected_key_ref input)
    /\ generation (resolved_key_ref input) = generation (expected_key_ref input);
  acc_generation : key_generation (context input) = generation (expected_key_ref input);
  acc_identity : wallet_identity (context input) = as_bytes (identity (expected_key_ref input));
  acc_audience : audience (context input) = expected_audience input;
  acc_nonce : nonce (context input) = expected_nonce input /\ expected_nonce input ∉ seen_nonces input;
  acc_time : created_at_epoch_seconds (context input) <= now_epoch_seconds input
             < expires_at_epoch_seconds (context input);
  acc_downgrade : downgrade_attempted input = false;
  acc_tbs : build (expected_profile input) (expected_purpose input) (context input) (payload input) = Ok tbs;
  acc_classical : verify Es256 (pk_classical k) tbs (sig_classical s) = Ok tt;
  acc_post_quantum : verify_ml_dsa_65 (pk_post_quantum k) tbs (sig_post_quantum s) = Ok tt;
}.

Lemma profile_eqb_true p q : profile_eqb p q = true.
Proof. by destruct p, q. Qed.

Lemma existsb_nonce (n : bytes) l : existsb (fun x => bool_decide (x = n)) l = false <-> n ∉ l.
Proof.
  rewrite list_elem_of_In. split.
  - intros H Hn. apply not_true_iff_false in H. apply H, existsb_exists. exists n. split; [done|]. by apply bool_decide_eq_true.
  - intros H. apply not_true_is_false. intros (x & Hx & E)%existsb_exists.
    apply bool_decide_eq_true in E as ->. done.
Qed.

Lemma verify_hybrid_accepted input :
  verify_hybrid_signature_atomic input = Ok tt <-> exists k s tbs, accepted input k s tbs.
Proof.
  unfold verify_hybrid_signature_atomic. rewrite !profile_eqb_true. split.
  - intros H.
    destruct (decode_signature _) as [e|] eqn:Es; cbn [map_err] in H; [|done].
    destruct (decode_public_key _) as [k|] eqn:Ek; cbn [map_err] in H; [|done].
    apply signature_envelope_iff in Es as [Ws Es]. apply public_key_envelope_iff in Ek as [Wk Ek].
    rewrite !profile_eqb_true in H. cbn [negb orb] in H. ok_steps H. ok_norm. bool_prop.
    match goal with E : verify _ _ ?tbs _ = Ok _ |- _ => exists k, (env_signature e), tbs end.
    destruct e as [u s]. cbn in *. subst u.
    match goal with E : existsb _ _ = false |- _ => apply existsb_nonce in E end.
    constructor; try done; split; try done; lia.
  - intros (k & s & tbs & A). destruct A as [[Wk ->] [Ws ->] [? ?] ? ? ? [? ?] ? ? Ht Hc Hq].
    rewrite decode_encode_signature, decode_encode_public_key by done. cbn [map_err env_signature env_purpose].
    rewrite !profile_eqb_true. rewrite !bool_decide_eq_true_2 by done. cbn [negb orb].
    rewrite (proj2 (existsb_nonce _ _)) by done.
    assert (generation (resolved_key_ref input) =? generation (expected_key_ref input) = true) as -> by lia.
    assert (key_generation (context input) =? generation (expected_key_ref input) = true) as -> by lia.
    cbn [negb orb].
    assert ((now_epoch_seconds input <? created_at_epoch_seconds (context input))
            || (expires_at_epoch_seconds (context input) <=? now_epoch_seconds input) = false) as -> by lia.
    match goal with E : downgrade_attempted _ = false |- _ => rewrite E end.
    rewrite Ht. cbn [map_err]. rewrite Hc. cbn [map_err]. by rewrite Hq.
Qed.
End accepted.

(** ** The transcript determines the exchange *)

Lemma prefixed_list_inj l k :
  length l = length k -> Forall (fun f => len f <= U32_MAX) l -> Forall (fun f => len f <= U32_MAX) k ->
  concat (map prefixed l) = concat (map prefixed k) -> l = k.
Proof.
  revert k. induction l as [|f l IH]; intros [|g k] Hlen Hl Hk E; try done.
  inversion Hl; inversion Hk; subst. injection Hlen as Hlen.
  apply prefixed_inj in E as [-> E]; [|done..]. f_equal. by apply IH.
Qed.

Lemma transcript_field_Ok output value r :
  transcript_field output value = Ok r -> r = output ++ prefixed value /\ len value <= U32_MAX.
Proof. unfold transcript_field. intros H. ok_step H. injection H as <-. split; [done|lia]. Qed.

Definition transcript_fields (sender : string) (recipient : HybridKeyRef) (context : bytes)
    (public : HybridKeyAgreementPublicKey) (ephemeral ciphertext : bytes) : list bytes :=
  [as_bytes KA_PROFILE_ID; as_bytes sender; as_bytes (identity recipient); to_be_bytes 8 (generation recipient);
   context; ka_classical public; ka_post_quantum public; ephemeral; ciphertext].

Lemma hybrid_transcript_Ok s r c p e x t :
  hybrid_transcript s r c p e x = Ok t ->
  t = TRANSCRIPT_DOMAIN ++ concat (map prefixed (transcript_fields s r c p e x))
  /\ Forall (fun f => len f <= U32_MAX) (transcript_fields s r c p e x).
Proof.
  unfold hybrid_transcript. intros H. ok_steps H.
  repeat match goal with
  | H : transcript_field _ _ = Ok _ |- _ => apply transcript_field_Ok in H as [-> ?]
  end.
  split; [|unfold transcript_fields; repeat constructor; done].
  unfold transcript_fields. cbn [map concat]. by rewrite app_nil_r, <- !app_assoc.
Qed.

Lemma hybrid_transcript_inj s r c p e x s' r' c' p' e' x' t :
  is_u64 (generation r) = true -> is_u64 (generation r') = true ->
  hybrid_transcript s r c p e x = Ok t -> hybrid_transcript s' r' c' p' e' x' = Ok t ->
  s = s' /\ r = r' /\ c = c' /\ p = p' /\ e = e' /\ x = x'.
Proof.
  intros Hg Hg' H H'. apply hybrid_transcript_Ok in H as [-> F]. apply hybrid_transcript_Ok in H' as [E F'].
  apply app_inv_head, prefixed_list_inj in E; [|done..]. 
  assert (N : forall i, nth i (transcript_fields s r c p e x) [] = nth i (transcript_fields s' r' c' p' e' x') []) by by rewrite E.
  pose proof (N 1%nat) as Es. pose proof (N 2%nat) as Ei. pose proof (N 3%nat) as Eg. pose proof (N 4%nat) as Ec.
  pose proof (N 5%nat) as Ea. pose proof (N 6%nat) as Eb. pose proof (N 7%nat) as Ee. pose proof (N 8%nat) as Ex.
  clear N E. cbn [nth transcript_fields] in *.
  apply to_be_bytes_u64_inj in Eg; [|done..]. apply as_bytes_inj in Es as ->. apply as_bytes_inj in Ei.
  destruct r, r', p as [[] ? ?], p' as [[] ? ?]. cbn in *. by subst.
Qed.

Section established.
Context `{D : Digest} `{K : Kdf} `{E : Ecdh} `{KEM : MlKem768}.

Lemma encapsulate_Ok re rk s r p c enc key :
  encapsulate_hybrid_key re rk s r p c = Ok (enc, key) ->
  validate_hybrid_identity s = Ok tt /\ validate_hybrid_context c = Ok tt
  /\ exists classical secret t,
       ecdh_es_p256 re (ka_classical p) = Ok classical
       /\ encapsulate_ml_kem_768 rk (ka_post_quantum p) = Ok (enc_ciphertext enc, secret)
       /\ hybrid_transcript s r c p (ephemeral_public classical) (enc_ciphertext enc) = Ok t
       /\ enc = {| enc_profile := P256MlKem768V1; sender_identity := s; recipient_identity := identity r;
                   enc_generation := generation r; classical_ephemeral_public := ephemeral_public classical;
                   enc_ciphertext := enc_ciphertext enc; enc_transcript_hash := sha256 t |}
       /\ key = hybrid_combiner secret (Sealing.shared_secret classical) (enc_ciphertext enc)
                  (ephemeral_public classical) (ka_post_quantum p) (ka_classical p) (sha256 t).
Proof.
  unfold encapsulate_hybrid_key, hybrid_transcript_hash. intros H.
  destruct (validate_hybrid_identity s) as [[]|]; [|done]. destruct (validate_hybrid_context c) as [[]|]; [|done].
  destruct (ka_profile p). destruct (ecdh_es_p256 _ _) as [cl|]; cbn [map_err] in H; [|done].
  destruct (encapsulate_ml_kem_768 _ _) as [[ct ss]|]; cbn [map_err] in H; [|done].
  destruct (hybrid_transcript _ _ _ _ _ _) as [t|] eqn:Et; [|done]. injection H as <- <-.
  do 2 (split; [done|]). exists cl, ss, t. by repeat split.
Qed.

(** What the recipient side checked before it combined the secrets. *)
Lemma decapsulate_Ok input key :
  decapsulate_hybrid_key_with_components input = Ok key ->
  exists t, hybrid_transcript (expected_sender_identity input) (in_reference input) (in_context input)
              (in_public input) (classical_ephemeral_public (encapsulation input))
              (enc_ciphertext (encapsulation input)) = Ok t
  /\ enc_transcript_hash (encapsulation input) = sha256 t /\ authenticated_transcript_hash input = sha256 t
  /\ len (classical_shared_secret input) = 32
  /\ len (enc_ciphertext (encapsulation input)) = ML_KEM_768_CIPHERTEXT_BYTES
  /\ key = hybrid_combiner (kem_decapsulate (in_post_quantum input) (enc_ciphertext (encapsulation input)))
             (classical_shared_secret input) (enc_ciphertext (encapsulation input))
             (classical_ephemeral_public (encapsulation input)) (ka_post_quantum (in_public input))
             (ka_classical (in_public input)) (sha256 t).
Proof.
  unfold decapsulate_hybrid_key_with_components, hybrid_transcript_hash, ml_kem_decapsulate. intros H.
  destruct (hybrid_transcript _ _ _ _ _ _) as [t|] eqn:Et; ok_steps H; [|done]. exists t. ok_norm. bool_prop.
  match goal with F : (if _ then Err _ else Ok _) = Ok _ |- _ => ok_step F; injection F as <- end.
  injection H as <-. ok_norm. bool_prop. split_and!; try done; congruence.
Qed.

(** A traffic key is bound to the exchange it was made for.  A recipient
    that authenticated the transcript hash of a sender's encapsulation derives
    a key only when the sender it expects, its own reference and generation,
    the context, its public key and both public shares are the ones the sender
    used, or SHA-256 has collided; and when its two secrets then are the
    sender's, the key is the sender's key. *)
Theorem hybrid_key_bound re rk s r p c enc key input key' :
  is_u64 (generation r) = true -> is_u64 (generation (in_reference input)) = true ->
  encapsulate_hybrid_key re rk s r p c = Ok (enc, key) ->
  authenticated_transcript_hash input = enc_transcript_hash enc ->
  decapsulate_hybrid_key_with_components input = Ok key' ->
  collision \/
  (expected_sender_identity input = s /\ in_reference input = r /\ in_context input = c /\ in_public input = p
   /\ classical_ephemeral_public (encapsulation input) = classical_ephemeral_public enc
   /\ enc_ciphertext (encapsulation input) = enc_ciphertext enc
   /\ forall secret classical,
        encapsulate_ml_kem_768 rk (ka_post_quantum p) = Ok (enc_ciphertext enc, secret) ->
        ecdh_es_p256 re (ka_classical p) = Ok classical ->
        kem_decapsulate (in_post_quantum input) (enc_ciphertext enc) = secret ->
        classical_shared_secret input = Sealing.shared_secret classical -> key' = key).
Proof.
  intros Hg Hg' He Ha Hd. apply encapsulate_Ok in He as (_ & _ & cl & ss & t & Hc & Hk & Ht & Ee & Ekey).
  apply decapsulate_Ok in Hd as (t' & Ht' & _ & Ea & _ & _ & Ekey').
  rewrite Ee in Ha. cbn in Ha. rewrite Ha in Ea. apply bytes_or_collision in Ea as [->|]; [right|by left].
  destruct (hybrid_transcript_inj _ _ _ _ _ _ _ _ _ _ _ _ _ Hg' Hg Ht' Ht) as (? & ? & ? & Ep & E1 & E2).
  do 4 (split; [done|]). split; [by rewrite E1, Ee|]. split; [done|].
  intros secret classical Hk' Hc' <- Es. rewrite Hk in Hk'. rewrite Hc in Hc'. injection Hk' as ->. injection Hc' as <-.
  by rewrite Ekey, Ekey', Ep, E1, E2, Es.
Qed.

Lemma recipient_public_Ok rk p :
  recipient_public_key rk = Ok p ->
  ka_classical p = public_raw (recipient_classical rk)
  /\ ka_post_quantum p = kem_encapsulation_key (recipient_post_quantum rk).
Proof.
  unfold recipient_public_key, ka_public_key_try_new. intros H. ok_steps H. injection H as <-. done.
Qed.

(** The two secrets of a recipient give the sender's key. *)
Lemma components_derive `{KL : !MlKem768Laws} re rk s r p c enc key seed z :
  encapsulate_hybrid_key re rk s r p c = Ok (enc, key) -> ka_post_quantum p = kem_encapsulation_key seed ->
  (forall cl, ecdh_es_p256 re (ka_classical p) = Ok cl ->
     ephemeral_public cl = classical_ephemeral_public enc -> Sealing.shared_secret cl = z) -> len z = 32 ->
  decapsulate_hybrid_key_with_components
    {| in_reference := r; in_public := p; in_post_quantum := seed; classical_shared_secret := z;
       expected_sender_identity := s; in_context := c; encapsulation := enc;
       authenticated_transcript_hash := enc_transcript_hash enc |} = Ok key.
Proof.
  intros He Eq Hz Hl. apply encapsulate_Ok in He as (Vs & Vc & cl & ss & t & Hc & Hk & Ht & Ee & ->).
  specialize (Hz cl Hc). rewrite Ee in *. cbn in *. specialize (Hz eq_refl). subst z.
  assert (len (enc_ciphertext enc) = ML_KEM_768_CIPHERTEXT_BYTES /\
          kem_decapsulate seed (enc_ciphertext enc) = ss) as [Hn Hd].
  { unfold encapsulate_ml_kem_768 in Hk. ok_steps Hk. ok_norm. rewrite Eq in Hk.
    split; [by eapply kem_ciphertext_length|by eapply kem_correct]. }
  unfold decapsulate_hybrid_key_with_components, hybrid_transcript_hash. cbn.
  rewrite Vs, Vc, Hl. cbn. destruct (ka_profile p).
  rewrite !bool_decide_eq_true_2, Z.eqb_refl by done. cbn. rewrite Ht, !bool_decide_eq_true_2 by done. cbn.
  unfold ml_kem_decapsulate. rewrite Hn. cbn. by rewrite Hd.
Qed.

(** What the sender's ephemeral key and the recipient's agree on. *)
Lemma recipient_secret `{EL : !EcdhLaws} `{ES : !EcdhSecret} random key re cl :
  generate random = Ok key -> ecdh_es_p256 re (public_raw key) = Ok cl ->
  agree key (ephemeral_public cl) = Ok (Sealing.shared_secret cl) /\ len (Sealing.shared_secret cl) = 32.
Proof.
  intros G Hc. split; [by eapply recipient_agrees|].
  destruct (ecdh_es_Ok _ _ _ Hc) as (x & _ & _ & Hx). by eapply ecdh_secret_length.
Qed.

(** A recipient whose keys the library generated derives, from what a
    sender encapsulated to its public key, the sender's traffic key, given the
    sender's identity, the context and the authenticated transcript hash. *)
Theorem hybrid_key_established `{EL : !EcdhLaws} `{ES : !EcdhSecret} `{KL : !MlKem768Laws}
    classical_random pq_random r recipient p re rk s c enc key :
  recipient_generate classical_random pq_random r = Ok recipient -> recipient_public_key recipient = Ok p ->
  encapsulate_hybrid_key re rk s r p c = Ok (enc, key) ->
  decapsulate_hybrid_key recipient s c enc (enc_transcript_hash enc) = Ok key.
Proof.
  unfold recipient_generate. intros Hr Hp He. ok_steps Hr. injection Hr as <-. ok_norm.
  pose proof (recipient_public_Ok _ _ Hp) as [Ec Eq]. cbn in Ec, Eq.
  destruct (encapsulate_Ok _ _ _ _ _ _ _ _ He) as (Vs & Vc & cl & ss & t & Hc & Hk & Ht & Ee & Ek).
  rewrite Ec in Hc. match goal with G : generate _ = Ok _ |- _ => destruct (recipient_secret _ _ _ _ G Hc) as [Ha Hl] end.
  unfold decapsulate_hybrid_key. cbn [recipient_reference recipient_classical recipient_post_quantum].
  assert (sender_identity enc = s) as -> by by rewrite Ee.
  assert (recipient_identity enc = identity r) as -> by by rewrite Ee.
  assert (enc_generation enc = generation r) as -> by by rewrite Ee.
  assert (classical_ephemeral_public enc = ephemeral_public cl) as -> by by rewrite Ee.
  rewrite Vs, Vc, Hp, !bool_decide_eq_true_2, Z.eqb_refl by done. destruct (enc_profile enc). cbn [negb orb].
  rewrite Ha. cbn [map_err].
  eapply components_derive; [exact He|exact Eq| |exact Hl].
  intros cl' Hc' _. rewrite Ec, Hc in Hc'. by injection Hc' as <-.
Qed.
End established.

(** ** Concrete instances *)

Module Samples.

Definition pad (n : nat) (b : bytes) : bytes := firstn n (b ++ repeat Byte.x00 n).

Lemma len_pad n b : len (pad n b) = Z.of_nat n.
Proof. unfold pad, len. rewrite length_firstn, length_app, repeat_length. lia. Qed.

(** A signature names its key and its message. *)
Definition naming_dsa : MlDsa65 := {|
  dsa_verifying_key := pad 1952;
  dsa_try_sign := fun seed m => Some (pad 3309 (firstn 32 (pad 1952 seed) ++ m));
  dsa_signature_decodes := fun _ => true;
  dsa_verify := fun key m s => bool_decide (s = pad 3309 (firstn 32 key ++ m));
|}.

Lemma naming_dsa_laws : @MlDsa65Laws naming_dsa.
Proof.
  constructor; cbn [dsa_verifying_key dsa_try_sign dsa_signature_decodes dsa_verify naming_dsa].
  - intros seed. by rewrite len_pad.
  - intros seed m s <-%(inj Some). by rewrite len_pad.
  - intros seed m s <-%(inj Some). by rewrite bool_decide_eq_true_2.
Qed.

(** A secret is half of the ciphertext and half of the key. *)
Definition halves_kem : MlKem768 := {|
  kem_encapsulation_key := pad 1184;
  kem_encapsulate := fun random key =>
    Some (pad 1088 random, firstn 16 (pad 1088 random) ++ firstn 16 key);
  kem_decapsulate := fun seed ct => firstn 16 ct ++ firstn 16 (pad 1184 seed);
|}.

Lemma halves_kem_laws : @MlKem768Laws halves_kem.
Proof.
  constructor; cbn [kem_encapsulation_key kem_encapsulate kem_decapsulate halves_kem].
  - intros seed. by rewrite len_pad.
  - intros random key ct ss [= <- _]. by rewrite len_pad.
  - by intros random seed ct ss [= <- <-].
Qed.

(** An ECDSA signature of 64 bytes. *)
Definition naming_ecdsa : Verifier := {|
  verify := fun _ key m s => if bool_decide (s = pad 64 (firstn 8 key ++ m)) then Ok tt else Err Unsupported;
|}.

Lemma adding_secret : @EcdhSecret Sealing.Samples.adding.
Proof. constructor. intros a pub z <-%(inj Some). by rewrite len_to_be_bytes. Qed.

Definition reference : HybridKeyRef := {| identity := "wallet-1"; generation := 7 |}.
Definition session : bytes := as_bytes "session".

Definition recipient : HybridRecipientKey :=
  {| recipient_reference := reference;
     recipient_classical :=
       {| private := repeat Byte.x05 32;
          public := Byte.x04 :: repeat Byte.x05 32 ++ repeat Byte.x00 32 |};
     recipient_post_quantum := repeat Byte.x06 64 |}.

Definition recipient_public : HybridKeyAgreementPublicKey :=
  {| ka_profile := P256MlKem768V1; ka_classical := public (recipient_classical recipient);
     ka_post_quantum := pad 1184 (repeat Byte.x06 64) |}.

Definition exchanged : result (HybridEncapsulation * bytes) HybridCryptoError :=
  @encapsulate_hybrid_key Boundary.Samples.fold_digest Sealing.Samples.concat_kdf Sealing.Samples.adding halves_kem
    (repeat Byte.x03 32) (repeat Byte.x04 32) "issuer" reference recipient_public session.

(** A platform whose P-256 secret is another one. *)
Definition platform_input (enc : HybridEncapsulation) : HybridPlatformDecapsulationInput :=
  {| in_reference := reference; in_public := recipient_public; in_post_quantum := repeat Byte.x06 64;
     classical_shared_secret := repeat Byte.x08 32; expected_sender_identity := "issuer"; in_context := session;
     encapsulation := enc; authenticated_transcript_hash := enc_transcript_hash enc |}.

Definition opened : result bytes HybridCryptoError :=
  let? (enc, _) := exchanged in
  @decapsulate_hybrid_key_with_components Boundary.Samples.fold_digest Sealing.Samples.concat_kdf halves_kem
    (platform_input enc).
End Samples.

Lemma hybrid_key_established_witness :
  exists enc key,
    Samples.exchanged = Ok (enc, key)
    /\ @decapsulate_hybrid_key Boundary.Samples.fold_digest Sealing.Samples.concat_kdf Sealing.Samples.adding
         Samples.halves_kem Samples.recipient "issuer" Samples.session enc (enc_transcript_hash enc) = Ok key.
Proof.
  destruct Samples.exchanged as [[enc key]|e] eqn:E; [|exfalso; revert E; vm_compute; discriminate].
  exists enc, key. split; [reflexivity|].
  refine (@hybrid_key_established Boundary.Samples.fold_digest Sealing.Samples.concat_kdf Sealing.Samples.adding
    Samples.halves_kem Sealing.Samples.adding_laws Samples.adding_secret Samples.halves_kem_laws
    (repeat Byte.x05 32) (Some (repeat Byte.x06 64)) Samples.reference Samples.recipient Samples.recipient_public
    (repeat Byte.x03 32) (repeat Byte.x04 32) "issuer" Samples.session enc key _ _ E); vm_compute; reflexivity.
Defined.

Lemma hybrid_key_bound_witness :
  exists enc key input key',
    Samples.exchanged = Ok (enc, key)
    /\ @decapsulate_hybrid_key_with_components Boundary.Samples.fold_digest Sealing.Samples.concat_kdf
         Samples.halves_kem input = Ok key'
    /\ (@collision Boundary.Samples.fold_digest \/ expected_sender_identity input = "issuer"%string).
Proof.
  destruct Samples.exchanged as [[enc key]|e] eqn:E; [|exfalso; revert E; vm_compute; discriminate].
  assert (is_ok Samples.opened = true) as O by (vm_compute; reflexivity).
  unfold Samples.opened in O. rewrite E in O.
  destruct (@decapsulate_hybrid_key_with_components _ _ _ _) as [key'|e] eqn:F; [|discriminate O].
  exists enc, key, (Samples.platform_input enc), key'. split; [reflexivity|]. split; [exact F|].
  destruct (@hybrid_key_bound Boundary.Samples.fold_digest Sealing.Samples.concat_kdf Sealing.Samples.adding
    Samples.halves_kem _ _ _ Samples.reference _ _ enc key (Samples.platform_input enc) key' eq_refl eq_refl E
    eq_refl F) as [C|[S _]]; [left; exact C|right; exact S].
Defined.
