(* ===== verification/ExperimentalPq.v ===== *)
(** * The experimental post-quantum facade (crates/wallet-core/src/lib.rs)

    The functions of the feature experimental-pq that the shell calls: the
    custody of the two secret seeds under a wrapping key, the recovery envelope
    between a sender and a recipient, the hybrid wallet export with its two
    signatures.  The theorems: what was sealed for the recipient of a custody
    record opens with that record; an export that was finalised opens, for who
    expects its key, to the checkpoint it was made from; what opens was signed by
    both components of the expected key, as this identity's checkpoint of this
    generation. *)

From S2P Require Import Prelude Utf8 Boundary Sealing HybridPq HybridTbs HybridEnvelope HybridUseCases HybridExchange.

Open Scope Z_scope.
Open Scope rust_scope.

Inductive ExperimentalPqFfiError : Type :=
| InvalidWrappingKey
| InvalidWrappedMaterial
| GenerationFailed
| EncryptionFailed
| SigningFailed
| RecoveryFailed
| ExportFailed
| ProviderCredentialFailed.

Record FfiExperimentalPqWrappedKeyMaterial : Type := {
  custody_nonce : bytes;
  encrypted_private_key : bytes;
  ml_dsa_65_public_key : bytes;
  ml_kem_768_public_key : bytes;
}.

Record FfiExperimentalHybridRecoveryEnvelope : Type := {
  rec_sender_identity : string;
  rec_recipient_identity : string;
  rec_key_generation : Z;
  classical_ephemeral_public_key : bytes;
  ml_kem_768_ciphertext : bytes;
  rec_transcript_hash : bytes;
  rec_nonce : bytes;
  rec_ciphertext : bytes;
}.

Record FfiExperimentalHybridRecoveryOpenRequest : Type := {
  wrapping_key : bytes;
  open_custody_nonce : bytes;
  open_encrypted_private_key : bytes;
  recipient_classical_public_key : bytes;
  recipient_ml_kem_768_public_key : bytes;
  open_classical_shared_secret : bytes;
  open_context : bytes;
  envelope : FfiExperimentalHybridRecoveryEnvelope;
}.

Record FfiExperimentalHybridExportDraft : Type := {
  draft_wallet_identity : string;
  draft_key_generation : Z;
  draft_checkpoint_generation : Z;
  draft_nonce : bytes;
  draft_created_at : Z;
  draft_expires_at : Z;
  draft_checkpoint : bytes;
}.

Record FfiExperimentalHybridExportFinalizeRequest : Type := {
  draft : FfiExperimentalHybridExportDraft;
  classical_public_key : bytes;
  final_ml_dsa_65_public_key : bytes;
  classical_signature : bytes;
  ml_dsa_65_signature : bytes;
}.

Record FfiExperimentalHybridExportOpenRequest : Type := {
  artifact : bytes;
  expected_wallet_identity : string;
  expected_key_generation : Z;
  expected_public_key_envelope : bytes;
  open_now : Z;
}.

Record FfiDurableCheckpoint : Type := { checkpoint_number : Z; checkpoint_bytes : bytes }.

Definition EXPERIMENTAL_PQ_CUSTODY_AAD : bytes := as_bytes "euwallet-experimental-pq-custody-v1".
Definition EXPERIMENTAL_HYBRID_RECOVERY_AAD : bytes := as_bytes "EUWALLET-HYBRID-RECOVERY-AEAD-V1".
Definition MAX_EXPERIMENTAL_RECOVERY_PLAINTEXT_BYTES : Z := 32 * 1024 * 1024.
Definition SEEDS_MAGIC : bytes := as_bytes "EUWALLET-PQ-SEEDS-V1".

Definition aad_fields (output : bytes) (fields : list bytes) : result bytes ExperimentalPqFfiError :=
  fold_left (fun output field =>
    let? output := output in
    if U32_MAX <? len field then Err RecoveryFailed
    else Ok (output ++ to_be_bytes 4 (len field) ++ field)) fields (Ok output).

Definition experimental_recovery_aad (context : bytes) (envelope : FfiExperimentalHybridRecoveryEnvelope)
  : result bytes ExperimentalPqFfiError :=
  aad_fields EXPERIMENTAL_HYBRID_RECOVERY_AAD
    [as_bytes (rec_sender_identity envelope); as_bytes (rec_recipient_identity envelope);
     to_be_bytes 8 (rec_key_generation envelope); context; classical_ephemeral_public_key envelope;
     ml_kem_768_ciphertext envelope; rec_transcript_hash envelope; as_bytes "euwallet-hybrid-recovery-v1"].

(** [plaintext.len() != 116 || &plaintext[..20] != magic]: the two seeds. *)
Definition unpack_seeds (plaintext : bytes) : result (bytes * bytes) ExperimentalPqFfiError :=
  if negb (len plaintext =? 116) || negb (bool_decide (firstn 20 plaintext = SEEDS_MAGIC))
  then Err InvalidWrappedMaterial
  else Ok (firstn 32 (skipn 20 plaintext), skipn 52 plaintext).

Section custody.
Context `{A : Aead} `{DSA : MlDsa65} `{KEM : MlKem768}.

(** The last argument is what [AwsLc.fill] writes. *)
Definition generate_experimental_pq_wrapped_key_material (dsa_random kem_random : option bytes)
    (nonce_random wrapping_key : bytes) : result FfiExperimentalPqWrappedKeyMaterial ExperimentalPqFfiError :=
  if negb (len wrapping_key =? 32) then Err InvalidWrappingKey
  else
  let? dsa := map_err (ml_dsa_generate dsa_random) (fun _ => GenerationFailed) in
  let? kem := map_err (ml_kem_generate kem_random) (fun _ => GenerationFailed) in
  let? encrypted := map_err (seal wrapping_key nonce_random EXPERIMENTAL_PQ_CUSTODY_AAD (SEEDS_MAGIC ++ dsa ++ kem))
                      (fun _ => EncryptionFailed) in
  Ok {| custody_nonce := nonce_random; encrypted_private_key := encrypted;
        ml_dsa_65_public_key := ml_dsa_public_key dsa; ml_kem_768_public_key := ml_kem_public_key kem |}.

Definition sign_experimental_pq_wrapped_key_material (wrapping_key nonce encrypted_private_key payload : bytes)
  : result bytes ExperimentalPqFfiError :=
  if negb (len wrapping_key =? 32) then Err InvalidWrappingKey
  else if negb (len nonce =? 12) || negb (len encrypted_private_key =? 132) then Err InvalidWrappedMaterial
  else
  let? plaintext := map_err (open wrapping_key nonce EXPERIMENTAL_PQ_CUSTODY_AAD encrypted_private_key)
                      (fun _ => InvalidWrappedMaterial) in
  let? (dsa_seed, _) := unpack_seeds plaintext in
  map_err (let? key := ml_dsa_from_seed dsa_seed in ml_dsa_sign key payload) (fun _ => SigningFailed).
End custody.

(** ** Recovery *)

Section recovery.
Context `{D : Digest} `{K : Kdf} `{E : Ecdh} `{KEM : MlKem768} `{A : Aead}.

(** The three random inputs: the ephemeral key, the encapsulation, the nonce. *)
Definition seal_experimental_hybrid_recovery (ephemeral_random kem_random nonce_random : bytes)
    (sender recipient : string) (key_generation : Z) (classical_key ml_kem_key context plaintext : bytes)
  : result FfiExperimentalHybridRecoveryEnvelope ExperimentalPqFfiError :=
  if is_empty plaintext || (MAX_EXPERIMENTAL_RECOVERY_PLAINTEXT_BYTES <? len plaintext) then Err RecoveryFailed
  else
  let? reference := map_err (key_ref_try_new recipient key_generation) (fun _ => RecoveryFailed) in
  let? public := map_err (ka_public_key_try_new P256MlKem768V1 classical_key ml_kem_key)
                   (fun _ => RecoveryFailed) in
  let? (encapsulation, traffic_key) :=
    map_err (encapsulate_hybrid_key ephemeral_random kem_random sender reference public context)
      (fun _ => RecoveryFailed) in
  let with_ciphertext ciphertext :=
    {| rec_sender_identity := sender_identity encapsulation;
       rec_recipient_identity := recipient_identity encapsulation;
       rec_key_generation := enc_generation encapsulation;
       classical_ephemeral_public_key := classical_ephemeral_public encapsulation;
       ml_kem_768_ciphertext := enc_ciphertext encapsulation;
       rec_transcript_hash := enc_transcript_hash encapsulation;
       rec_nonce := nonce_random; rec_ciphertext := ciphertext |} in
  let? aad := experimental_recovery_aad context (with_ciphertext []) in
  let? ciphertext := map_err (seal traffic_key nonce_random aad plaintext) (fun _ => RecoveryFailed) in
  Ok (with_ciphertext ciphertext).

(** The lengths of what the platform hands over. *)
Definition recovery_shape_ok (request : FfiExperimentalHybridRecoveryOpenRequest) : bool :=
  (len (wrapping_key request) =? 32) && (len (open_custody_nonce request) =? 12)
  && (len (open_encrypted_private_key request) =? 132) && (len (open_classical_shared_secret request) =? 32)
  && (len (rec_nonce (envelope request)) =? 12) && (len (rec_transcript_hash (envelope request)) =? 32)
  && (17 <=? len (rec_ciphertext (envelope request)))
  && (len (rec_ciphertext (envelope request)) <=? MAX_EXPERIMENTAL_RECOVERY_PLAINTEXT_BYTES + 16).

Definition open_experimental_hybrid_recovery (request : FfiExperimentalHybridRecoveryOpenRequest)
  : result bytes ExperimentalPqFfiError :=
  let envelope := envelope request in
  if negb (recovery_shape_ok request) then Err InvalidWrappedMaterial
  else
  let? plaintext := map_err (open (wrapping_key request) (open_custody_nonce request) EXPERIMENTAL_PQ_CUSTODY_AAD
                               (open_encrypted_private_key request)) (fun _ => InvalidWrappedMaterial) in
  let? (_, kem_seed) := unpack_seeds plaintext in
  let? kem := map_err (ml_kem_from_seed kem_seed) (fun _ => InvalidWrappedMaterial) in
  if negb (bool_decide (ml_kem_public_key kem = recipient_ml_kem_768_public_key request)) then Err RecoveryFailed
  else
  let? reference := map_err (key_ref_try_new (rec_recipient_identity envelope) (rec_key_generation envelope))
                      (fun _ => RecoveryFailed) in
  let? public := map_err (ka_public_key_try_new P256MlKem768V1 (recipient_classical_public_key request)
                            (recipient_ml_kem_768_public_key request)) (fun _ => RecoveryFailed) in
  let? traffic_key := map_err (decapsulate_hybrid_key_with_components
    {| in_reference := reference; in_public := public; in_post_quantum := kem;
       HybridExchange.classical_shared_secret := open_classical_shared_secret request;
       expected_sender_identity := rec_sender_identity envelope; in_context := open_context request;
       encapsulation :=
         {| enc_profile := P256MlKem768V1; sender_identity := rec_sender_identity envelope;
            recipient_identity := rec_recipient_identity envelope; enc_generation := rec_key_generation envelope;
            classical_ephemeral_public := classical_ephemeral_public_key envelope;
            enc_ciphertext := ml_kem_768_ciphertext envelope; enc_transcript_hash := rec_transcript_hash envelope |};
       authenticated_transcript_hash := rec_transcript_hash envelope |}) (fun _ => RecoveryFailed) in
  let? aad := experimental_recovery_aad (open_context request) envelope in
  map_err (open traffic_key (rec_nonce envelope) aad (rec_ciphertext envelope)) (fun _ => RecoveryFailed).
End recovery.

(** ** The hybrid wallet export *)

Section export.
Context `{D : Digest} `{V : Verifier} `{DSA : MlDsa65}.

(** The context both signatures are bound to. *)
Definition export_context (wallet_identity : string) (key_generation : Z) (nonce : bytes)
    (created_at expires_at : Z) : HybridContext :=
  {| HybridTbs.wallet_identity := as_bytes wallet_identity; issuer_identity := None;
     HybridTbs.key_generation := key_generation; transaction_id := None; session_id := None; audience := None;
     HybridTbs.nonce := nonce; HybridTbs.created_at_epoch_seconds := created_at;
     HybridTbs.expires_at_epoch_seconds := expires_at; transcript_hash := None |}.

(** The envelopes are [vec![1]] until the signatures are there. *)
Definition experimental_hybrid_export_parts (draft : FfiExperimentalHybridExportDraft)
  : result (HybridWalletExport * HybridContext * bytes) ExperimentalPqFfiError :=
  let digest := sha256 (draft_checkpoint draft) in
  let? export := map_err (export_try_new (draft_wallet_identity draft) (draft_key_generation draft)
                            (draft_checkpoint_generation draft) (draft_nonce draft) (draft_created_at draft)
                            (draft_expires_at draft) (draft_checkpoint draft) digest [Byte.x01] [Byte.x01])
                   (fun _ => ExportFailed) in
  let context := export_context (draft_wallet_identity draft) (draft_key_generation draft) (draft_nonce draft)
                   (draft_created_at draft) (draft_expires_at draft) in
  let? tbs := map_err (build Es256MlDsa65V1 WalletExportV1 context (signed_commitment export))
                (fun _ => ExportFailed) in
  Ok (export, context, tbs).

Definition prepare_experimental_hybrid_wallet_export (draft : FfiExperimentalHybridExportDraft)
  : result bytes ExperimentalPqFfiError :=
  let? (_, tbs) := experimental_hybrid_export_parts draft in Ok tbs.

(** The two assignments to the envelopes of an export. *)
Definition with_envelopes (export : HybridWalletExport) (public_key signature : bytes) : HybridWalletExport :=
  {| version := version export; export_profile := export_profile export;
     wallet_identity := wallet_identity export; key_generation := key_generation export;
     checkpoint_generation := checkpoint_generation export; nonce := nonce export;
     created_at_epoch_seconds := created_at_epoch_seconds export;
     expires_at_epoch_seconds := expires_at_epoch_seconds export; checkpoint := checkpoint export;
     checkpoint_digest := checkpoint_digest export; HybridUseCases.public_key_envelope := public_key;
     HybridUseCases.signature_envelope := signature |}.

(** What both callers ask the atomic verifier. *)
Definition export_verification (export : HybridWalletExport) (key_ref : HybridKeyRef) (context : HybridContext)
    (now : Z) : HybridVerificationInput :=
  {| HybridExchange.signature_envelope := HybridUseCases.signature_envelope export;
     HybridExchange.public_key_envelope := HybridUseCases.public_key_envelope export;
     resolved_key_ref := key_ref; expected_key_ref := key_ref; expected_profile := Es256MlDsa65V1;
     expected_purpose := WalletExportV1; HybridExchange.context := context; payload := signed_commitment export;
     expected_audience := None; expected_nonce := nonce export; seen_nonces := []; now_epoch_seconds := now;
     downgrade_attempted := false |}.

Definition finalize_experimental_hybrid_wallet_export (request : FfiExperimentalHybridExportFinalizeRequest)
  : result bytes ExperimentalPqFfiError :=
  let? (export, context, _) := experimental_hybrid_export_parts (draft request) in
  let? public_key := map_err (public_key_try_new Es256MlDsa65V1 (classical_public_key request)
                                (final_ml_dsa_65_public_key request)) (fun _ => ExportFailed) in
  let? signature := map_err (signature_try_new Es256MlDsa65V1 (classical_signature request)
                               (ml_dsa_65_signature request)) (fun _ => ExportFailed) in
  let export := with_envelopes export (encode_public_key public_key)
                  (encode_signature {| env_purpose := WalletExportV1; env_signature := signature |}) in
  let? key_ref := map_err (key_ref_try_new (wallet_identity export) (key_generation export))
                    (fun _ => ExportFailed) in
  let? _ := map_err (verify_hybrid_signature_atomic
                       (export_verification export key_ref context (created_at_epoch_seconds export)))
              (fun _ => ExportFailed) in
  Ok (encode_hybrid_wallet_export export).

Definition open_experimental_hybrid_wallet_export (request : FfiExperimentalHybridExportOpenRequest)
  : result FfiDurableCheckpoint ExperimentalPqFfiError :=
  let? export := map_err (decode_hybrid_wallet_export (artifact request)) (fun _ => ExportFailed) in
  if negb (bool_decide (wallet_identity export = expected_wallet_identity request))
     || negb (key_generation export =? expected_key_generation request)
     || negb (bool_decide (HybridUseCases.public_key_envelope export = expected_public_key_envelope request))
     || negb (bool_decide (sha256 (checkpoint export) = checkpoint_digest export))
  then Err ExportFailed
  else
  let context := export_context (wallet_identity export) (key_generation export) (nonce export)
                   (created_at_epoch_seconds export) (expires_at_epoch_seconds export) in
  let? key_ref := map_err (key_ref_try_new (wallet_identity export) (key_generation export))
                    (fun _ => ExportFailed) in
  let? _ := map_err (verify_hybrid_signature_atomic (export_verification export key_ref context (open_now request)))
              (fun _ => ExportFailed) in
  Ok {| checkpoint_number := checkpoint_generation export; checkpoint_bytes := checkpoint export |}.

(** ** Properties of exports *)

Lemma key_ref_Ok i g r : key_ref_try_new i g = Ok r -> r = {| identity := i; generation := g |}.
Proof. unfold key_ref_try_new. intros H. ok_steps H. by injection H as <-. Qed.

(** The bounds of the fields of a draft, over their types. *)
Record draft_typed (d : FfiExperimentalHybridExportDraft) : Prop := {
  dt_identity : is_str (draft_wallet_identity d) = true;
  dt_key_generation : is_u64 (draft_key_generation d) = true;
  dt_checkpoint_generation : is_u64 (draft_checkpoint_generation d) = true;
  dt_created : is_u64 (draft_created_at d) = true;
  dt_expires : is_u64 (draft_expires_at d) = true;
}.

Lemma public_key_envelope_size k : public_key_valid k -> 0 < len (encode_public_key k) <= MAX_ENVELOPE_BYTES.
Proof.
  intros W. assert (decode_public_key (encode_public_key k) = Ok k) as H by by apply decode_encode_public_key.
  unfold decode_public_key in H. destruct (parse _) eqn:Ep; [|done]. unfold parse in Ep. ok_step Ep.
  split; [|lia]. apply is_empty_len. destruct (encode_public_key k); [|done]. by vm_compute in Ep.
Qed.

Lemma signature_envelope_size s :
  signature_valid (env_signature s) -> 0 < len (encode_signature s) <= MAX_ENVELOPE_BYTES.
Proof.
  intros W. assert (decode_signature (encode_signature s) = Ok s) as H by by apply decode_encode_signature.
  unfold decode_signature in H. destruct (parse _) eqn:Ep; [|done]. unfold parse in Ep. ok_step Ep.
  split; [|lia]. apply is_empty_len. destruct (encode_signature s); [|done]. by vm_compute in Ep.
Qed.

Lemma parts_Ok d e c t :
  experimental_hybrid_export_parts d = Ok (e, c, t) ->
  export_try_new (draft_wallet_identity d) (draft_key_generation d) (draft_checkpoint_generation d) (draft_nonce d)
    (draft_created_at d) (draft_expires_at d) (draft_checkpoint d) (sha256 (draft_checkpoint d)) [Byte.x01] [Byte.x01]
    = Ok e
  /\ c = export_context (draft_wallet_identity d) (draft_key_generation d) (draft_nonce d) (draft_created_at d)
           (draft_expires_at d)
  /\ build Es256MlDsa65V1 WalletExportV1 c (signed_commitment e) = Ok t.
Proof.
  unfold experimental_hybrid_export_parts. intros H. ok_steps H. injection H as <- <- <-. ok_norm. done.
Qed.

Lemma export_prepared d t :
  prepare_experimental_hybrid_wallet_export d = Ok t ->
  exists e, experimental_hybrid_export_parts d = Ok (e, export_context (draft_wallet_identity d)
    (draft_key_generation d) (draft_nonce d) (draft_created_at d) (draft_expires_at d), t).
Proof.
  unfold prepare_experimental_hybrid_wallet_export. intros H.
  destruct (experimental_hybrid_export_parts d) as [[[e c] t']|] eqn:E; [|done]. injection H as <-.
  exists e. by destruct (parts_Ok _ _ _ _ E) as (_ & -> & _).
Qed.

Lemma export_context_typed i g n c x :
  is_u64 g = true -> is_u64 c = true -> is_u64 x = true -> context_typed (export_context i g n c x).
Proof. intros Hg Hc Hx. unfold context_typed. cbn. auto. Qed.

Lemma commitment_inj e f :
  is_u64 (checkpoint_generation e) = true -> is_u64 (checkpoint_generation f) = true ->
  signed_commitment e = signed_commitment f ->
  checkpoint_generation e = checkpoint_generation f /\ checkpoint_digest e = checkpoint_digest f.
Proof.
  unfold signed_commitment. intros He Hf E. apply app_inv_head in E.
  apply be_u64_app in E as [Eg E]; [|done..]. apply app_inv_len in E as [_ Ed]; [done|by rewrite !len_to_be_bytes].
Qed.

(** What [open] checked of the artifact. *)
Lemma open_export_Ok request cp :
  open_experimental_hybrid_wallet_export request = Ok cp ->
  exists e k s tbs,
    export_wf e /\ wallet_identity e = expected_wallet_identity request
    /\ key_generation e = expected_key_generation request
    /\ expected_public_key_envelope request = encode_public_key k /\ public_key_valid k
    /\ checkpoint_digest e = sha256 (checkpoint e)
    /\ cp = {| checkpoint_number := checkpoint_generation e; checkpoint_bytes := checkpoint e |}
    /\ created_at_epoch_seconds e <= open_now request < expires_at_epoch_seconds e
    /\ build Es256MlDsa65V1 WalletExportV1
         (export_context (wallet_identity e) (key_generation e) (nonce e) (created_at_epoch_seconds e)
            (expires_at_epoch_seconds e)) (signed_commitment e) = Ok tbs
    /\ verify Es256 (pk_classical k) tbs (sig_classical s) = Ok tt
    /\ verify_ml_dsa_65 (pk_post_quantum k) tbs (sig_post_quantum s) = Ok tt.
Proof.
  unfold open_experimental_hybrid_wallet_export. intros H.
  destruct (decode_hybrid_wallet_export _) as [e|] eqn:Ed; cbn [map_err] in H; [|done].
  apply decode_wf in Ed as [W _]. ok_step H. ok_norm. bool_prop.
  destruct (key_ref_try_new _ _) as [r|] eqn:Er; cbn [map_err] in H; [|done]. apply key_ref_Ok in Er as ->.
  destruct (verify_hybrid_signature_atomic _) as [[]|] eqn:Ev; cbn [map_err] in H; [|done]. injection H as <-.
  apply verify_hybrid_accepted in Ev as (k & s & tbs & A).
  destruct A as [[Wk Ek] _ _ _ _ _ _ Ht _ Hb Hc Hq]. cbn in *. exists e, k, s, tbs.
  split_and!; try done; try congruence; lia.
Qed.

(** C38: what an export opens to is what the holder of the expected key drafted.
    If the messages that verify under one of the two components of that key,
    the classical or the post-quantum one, are only the inputs prepared for
    drafts the holder signed, then the checkpoint that opens is one of those
    drafts': it has its generation, its identity and key generation are the
    expected ones, it opens inside the draft's own time window, and its bytes
    have the digest of the draft's: they are the draft's own, or a second
    preimage of their digest.  So breaking one component is not enough to have
    another checkpoint opened.  Nothing is assumed of the digest. *)
Theorem opened_export_was_drafted (signed : FfiExperimentalHybridExportDraft -> Prop) request cp k :
  is_u64 (expected_key_generation request) = true ->
  expected_public_key_envelope request = encode_public_key k -> public_key_valid k ->
  (forall d, signed d -> draft_typed d) ->
  (forall m s, verify Es256 (pk_classical k) m s = Ok tt ->
     exists d, signed d /\ prepare_experimental_hybrid_wallet_export d = Ok m)
  \/ (forall m s, verify_ml_dsa_65 (pk_post_quantum k) m s = Ok tt ->
     exists d, signed d /\ prepare_experimental_hybrid_wallet_export d = Ok m) ->
  open_experimental_hybrid_wallet_export request = Ok cp ->
  exists d, signed d /\ draft_wallet_identity d = expected_wallet_identity request
    /\ draft_key_generation d = expected_key_generation request
    /\ draft_checkpoint_generation d = checkpoint_number cp
    /\ draft_created_at d <= open_now request < draft_expires_at d
    /\ sha256 (draft_checkpoint d) = sha256 (checkpoint_bytes cp).
Proof.
  intros Hg Ek Wk Td Hsig Ho. apply open_export_Ok in Ho as (e & k' & s & tbs & W & Ei & Eg & Ek' & Wk' & Ed & -> & Hw & Hb & Hc & Hq).
  assert (k' = k) as ->.
  { rewrite Ek in Ek'. assert (Ok k = @Ok _ EnvelopeError k') as E; [|by injection E].
    rewrite <- (decode_encode_public_key k), Ek' by done. by apply decode_encode_public_key. }
  assert (exists d, signed d /\ prepare_experimental_hybrid_wallet_export d = Ok tbs) as (d & Sd & Hp)
    by (destruct Hsig as [F|F]; [by eapply F|by eapply F]).
  destruct (Td d Sd) as [_ T1 T2 T3 T4]. apply export_prepared in Hp as (f & Hp).
  destruct (parts_Ok _ _ _ _ Hp) as (Hn & _ & Hb'). unfold export_try_new in Hn. ok_step Hn. injection Hn as <-.
  apply (build_injective _ _ _ _ _ _ _ _ _ (export_context_typed _ _ _ _ _ (wf_key_generation e W) (wf_created e W) (wf_expires e W))
           (export_context_typed _ _ _ _ _ T1 T3 T4) Hb) in Hb' as (_ & _ & Ec & Em).
  injection Ec as Ec1 Ec2 Ec3 Ec4 Ec5. apply as_bytes_inj in Ec1.
  apply commitment_inj in Em as [Em1 Em2]; [|apply W|done]. cbn in Em1, Em2. rewrite Ed in Em2.
  exists d. split_and!; try done; try congruence; lia.
Qed.

(** An export keeps its form when its envelopes are filled in. *)
Lemma parts_wf `{DL : !DigestLaws} d e c t k s :
  draft_typed d -> experimental_hybrid_export_parts d = Ok (e, c, t) -> public_key_valid k -> signature_valid s ->
  export_wf (with_envelopes e (encode_public_key k)
               (encode_signature {| env_purpose := WalletExportV1; env_signature := s |})).
Proof.
  intros [T0 T1 T2 T3 T4] (Hn & _ & _)%parts_Ok Wk Ws. unfold export_try_new in Hn. ok_step Hn. injection Hn as <-.
  unfold export_fields_ok in *. bool_prop.
  constructor; cbn; try done.
  - unfold len. by rewrite sha256_length.
  - unfold export_fields_ok.
    rewrite (proj2 (bounded_len (encode_public_key k) _)) by by apply public_key_envelope_size.
    rewrite (proj2 (bounded_len (encode_signature _) _)) by by apply signature_envelope_size.
    rewrite !andb_true_iff, !negb_true_iff, !Z.eqb_neq, Z.ltb_lt. by split_and!.
Qed.

(** C39: an export that was finalised opens.  Whoever expects the draft's
    identity and key generation and the public key whose two signatures
    finalised it gets, at any time in the draft's window, the checkpoint that
    was drafted, with its generation. *)
Theorem finalized_export_opens `{DL : !DigestLaws} request k a now :
  draft_typed (draft request) ->
  public_key_try_new Es256MlDsa65V1 (classical_public_key request) (final_ml_dsa_65_public_key request) = Ok k ->
  finalize_experimental_hybrid_wallet_export request = Ok a ->
  draft_created_at (draft request) <= now < draft_expires_at (draft request) ->
  open_experimental_hybrid_wallet_export
    {| artifact := a; expected_wallet_identity := draft_wallet_identity (draft request);
       expected_key_generation := draft_key_generation (draft request);
       expected_public_key_envelope := encode_public_key k; open_now := now |}
  = Ok {| checkpoint_number := draft_checkpoint_generation (draft request);
          checkpoint_bytes := draft_checkpoint (draft request) |}.
Proof.
  unfold finalize_experimental_hybrid_wallet_export. intros T Hk Hf Hn.
  destruct (experimental_hybrid_export_parts _) as [[[e c] t]|] eqn:Ep; [|done]. rewrite Hk in Hf. cbn [map_err] in Hf.
  destruct (signature_try_new _ _ _) as [s|] eqn:Es; cbn [map_err] in Hf; [|done].
  destruct (key_ref_try_new _ _) as [r|] eqn:Er; cbn [map_err] in Hf; [|done].
  destruct (verify_hybrid_signature_atomic _) as [[]|] eqn:Ev; cbn [map_err] in Hf; [|done]. injection Hf as <-.
  assert (public_key_valid k) as Wk.
  { destruct (public_key_try_new_inv _ _ _ _ Hk) as (-> & _ & _). exact Hk. }
  assert (signature_valid s) as Ws.
  { destruct (signature_try_new_inv _ _ _ _ Es) as (-> & _ & _). exact Es. }
  pose proof (parts_wf _ _ _ _ _ _ T Ep Wk Ws) as W. destruct (parts_Ok _ _ _ _ Ep) as (Hp & -> & Hb).
  unfold export_try_new in Hp. ok_step Hp. injection Hp as <-.
  unfold open_experimental_hybrid_wallet_export. cbn [artifact]. rewrite (decode_encode _ W). cbn [map_err].
  cbn in Er |- *. rewrite !bool_decide_eq_true_2, Z.eqb_refl by done. cbn [negb orb]. rewrite Er. cbn [map_err].
  apply verify_hybrid_accepted in Ev as (k' & s' & tbs & A).
  match goal with |- context [verify_hybrid_signature_atomic ?i] =>
    assert (verify_hybrid_signature_atomic i = Ok tt) as -> end; [|done].
  apply verify_hybrid_accepted. exists k', s', tbs. destruct A. constructor; cbn in *; done.
Qed.
End export.

(** ** Properties of custody and recovery *)

Section recovered.
Context `{D : Digest} `{K : Kdf} `{E : Ecdh} `{KEM : MlKem768} `{A : Aead} `{DSA : MlDsa65}.

Lemma unpack_packed dsa kem :
  len dsa = 32 -> len kem = 64 -> unpack_seeds (SEEDS_MAGIC ++ dsa ++ kem) = Ok (dsa, kem).
Proof.
  intros Hd Hk. assert (length dsa = 32%nat) as Ld by (unfold len in Hd; lia).
  unfold unpack_seeds. rewrite !len_app, Hd, Hk. change (len SEEDS_MAGIC) with 20.
  rewrite (firstn_app 20 SEEDS_MAGIC), (skipn_app 20 SEEDS_MAGIC), (skipn_app 52 SEEDS_MAGIC).
  change (length SEEDS_MAGIC) with 20%nat. change (20 - 20)%nat with 0%nat. change (52 - 20)%nat with 32%nat.
  rewrite firstn_O, app_nil_r, skipn_O, (firstn_all2 SEEDS_MAGIC), (skipn_all2 SEEDS_MAGIC), (skipn_all2 SEEDS_MAGIC)
    by (change (length SEEDS_MAGIC) with 20%nat; lia).
  rewrite bool_decide_eq_true_2 by done. cbn [negb orb app]. change (20 + (32 + 64) =? 116) with true. cbn [negb orb].
  rewrite firstn_app, skipn_app, Ld, firstn_O, skipn_O, app_nil_r, (firstn_all2 dsa), (skipn_all2 dsa) by lia. done.
Qed.

(** A custody record opens to the seeds it was made from. *)
Lemma custody_Ok `{AL : !AeadLaws} dsa kem nonce wrapping m :
  len dsa = 32 -> len kem = 64 ->
  generate_experimental_pq_wrapped_key_material (Some dsa) (Some kem) nonce wrapping = Ok m ->
  len wrapping = 32 /\ custody_nonce m = nonce /\ ml_dsa_65_public_key m = ml_dsa_public_key dsa
  /\ ml_kem_768_public_key m = ml_kem_public_key kem /\ len (encrypted_private_key m) = 132
  /\ open wrapping nonce EXPERIMENTAL_PQ_CUSTODY_AAD (encrypted_private_key m) = Ok (SEEDS_MAGIC ++ dsa ++ kem).
Proof.
  unfold generate_experimental_pq_wrapped_key_material. intros Hd Hk H. ok_step H. cbn in H.
  destruct (seal _ _ _ _) as [sealed|] eqn:Es; cbn [map_err] in H; [|done]. injection H as <-. bool_prop.
  split_and!; try done; cbn.
  - rewrite (seal_length _ _ _ _ _ Es), !len_app, Hd, Hk. done.
  - by apply open_seal.
Qed.

(** The wrapped key signs, and the signature verifies under the record's key. *)
Lemma custody_signs `{AL : !AeadLaws} `{SL : !MlDsa65Laws} dsa kem nonce wrapping m payload s :
  len dsa = 32 -> len kem = 64 -> len nonce = 12 ->
  generate_experimental_pq_wrapped_key_material (Some dsa) (Some kem) nonce wrapping = Ok m ->
  sign_experimental_pq_wrapped_key_material wrapping (custody_nonce m) (encrypted_private_key m) payload = Ok s ->
  verify_ml_dsa_65 (ml_dsa_65_public_key m) payload s = Ok tt.
Proof.
  intros Hd Hk Hn Hm. destruct (custody_Ok _ _ _ _ _ Hd Hk Hm) as (Hw & -> & -> & _ & Hl & Ho).
  unfold sign_experimental_pq_wrapped_key_material. rewrite Hw, Hn, Hl, Ho. cbn [map_err]. cbn [Z.eqb negb orb Pos.eqb].
  rewrite unpack_packed by done. unfold ml_dsa_from_seed. rewrite Hd. cbn [Z.eqb Pos.eqb negb].
  intros H%map_err_Ok. by apply ml_dsa_sign_verifies.
Qed.

(** C40: a recovery envelope opens for its recipient.  Seeds wrapped for
    custody, a P-256 key of the platform, a plaintext sealed to the two public
    keys: with the custody record, the wrapping key, the context and the secret
    the platform agrees with the envelope's ephemeral key, the recipient gets
    the plaintext, whatever randomness the two sides drew. *)
Theorem recovery_opens `{DL : !DigestLaws} `{EL : !EcdhLaws} `{ES : !EcdhSecret} `{ML : !MlKem768Laws} `{AL : !AeadLaws}
    dsa kem nonce wrapping m random platform re rk rn sender recipient gen context plaintext env z :
  len dsa = 32 -> len kem = 64 -> len nonce = 12 -> len rn = 12 ->
  generate_experimental_pq_wrapped_key_material (Some dsa) (Some kem) nonce wrapping = Ok m ->
  generate random = Ok platform ->
  seal_experimental_hybrid_recovery re rk rn sender recipient gen (public_raw platform) (ml_kem_768_public_key m)
    context plaintext = Ok env ->
  agree platform (classical_ephemeral_public_key env) = Ok z ->
  open_experimental_hybrid_recovery
    {| wrapping_key := wrapping; open_custody_nonce := custody_nonce m;
       open_encrypted_private_key := encrypted_private_key m;
       recipient_classical_public_key := public_raw platform;
       recipient_ml_kem_768_public_key := ml_kem_768_public_key m; open_classical_shared_secret := z;
       open_context := context; envelope := env |} = Ok plaintext.
Proof.
  intros Hd Hk Hn Hrn Hm Hg Hs Hz. destruct (custody_Ok _ _ _ _ _ Hd Hk Hm) as (Hw & En & _ & Ek & Hl & Ho).
  unfold seal_experimental_hybrid_recovery in Hs. ok_step Hs.
  destruct (key_ref_try_new _ _) as [r|] eqn:Er; cbn [map_err] in Hs; [|done].
  destruct (ka_public_key_try_new _ _ _) as [p|] eqn:Ep; cbn [map_err] in Hs; [|done].
  destruct (encapsulate_hybrid_key _ _ _ _ _ _) as [[enc key]|] eqn:Ee; cbn [map_err] in Hs; [|done]. cbv zeta in Hs.
  ok_step Hs. destruct (seal _ _ _ _) as [ct|] eqn:Ec; cbn [map_err] in Hs; [|done]. injection Hs as <-.
  destruct (encapsulate_Ok _ _ _ _ _ _ _ _ Ee) as (_ & _ & cl & ss & t & Hcl & _ & _ & Eenc & _).
  assert (ka_classical p = public_raw platform /\ ka_post_quantum p = kem_encapsulation_key kem) as [Pc Pq].
  { rewrite Ek in Ep. unfold ka_public_key_try_new in Ep. ok_steps Ep. by injection Ep as <-. }
  rewrite Pc in Hcl. destruct (recipient_secret _ _ _ _ Hg Hcl) as [Ha Hl2]. cbn in Hz.
  assert (classical_ephemeral_public enc = ephemeral_public cl) as Ec1 by by rewrite Eenc.
  rewrite Ec1, Ha in Hz. injection Hz as <-.
  assert (len (enc_transcript_hash enc) = 32) as Ht.
  { rewrite Eenc. unfold len. cbn. by rewrite sha256_length. }
  assert (enc_profile enc = P256MlKem768V1) as Epr by by destruct (enc_profile enc).
  apply key_ref_Ok in Er as Er'. subst r. unfold open_experimental_hybrid_recovery.
  match goal with |- context [recovery_shape_ok ?q] => assert (recovery_shape_ok q = true) as -> end.
  { unfold recovery_shape_ok. cbn. rewrite Hw, En, Hn, Hl, Hl2, Hrn, Ht, (seal_length _ _ _ _ _ Ec).
    bool_prop. apply is_empty_len in H. rewrite !andb_true_iff, !Z.leb_le. split_and!; lia. }
  cbn [negb wrapping_key open_custody_nonce open_encrypted_private_key recipient_ml_kem_768_public_key
    recipient_classical_public_key envelope open_classical_shared_secret open_context rec_sender_identity
    rec_recipient_identity rec_key_generation classical_ephemeral_public_key ml_kem_768_ciphertext
    rec_transcript_hash rec_nonce rec_ciphertext].
  rewrite En, Ho. cbn [map_err]. rewrite unpack_packed by done. unfold ml_kem_from_seed. rewrite Hk.
  cbn [Z.eqb Pos.eqb negb map_err]. rewrite bool_decide_eq_true_2 by done. cbn [negb].
  assert (sender_identity enc = sender /\ recipient_identity enc = recipient /\ enc_generation enc = gen)
    as (Si & Ri & Gi) by by rewrite Eenc.
  subst sender recipient gen. rewrite Er, Ep. cbn [map_err].
  match goal with |- context [Build_HybridEncapsulation ?a ?b ?c ?d ?e ?f ?g] =>
    replace (Build_HybridEncapsulation a b c d e f g) with enc by (destruct enc as [[] ? ? ? ? ? ?]; done) end.
  rewrite (components_derive _ _ _ _ _ _ _ _ _ _ Ee Pq) by
    (try done; intros cl' Hc' _; rewrite Pc, Hcl in Hc'; by injection Hc' as <-).
  cbn [map_err].
  match goal with H : ?x = Ok a |- context [experimental_recovery_aad context ?e] =>
    change (experimental_recovery_aad context e) with x; rewrite H end.
  by rewrite (open_seal _ _ _ _ _ Ec).
Qed.
End recovered.

(** ** Concrete instances *)

Module Samples.
Export HybridExchange.Samples.

#[local] Existing Instance Boundary.Samples.fold_digest.
#[local] Existing Instance Sealing.Samples.concat_kdf.
#[local] Existing Instance Sealing.Samples.adding.
#[local] Existing Instance Sealing.Samples.tagging.
#[local] Existing Instance halves_kem.
#[local] Existing Instance naming_ecdsa.

Definition draft1 : FfiExperimentalHybridExportDraft :=
  {| draft_wallet_identity := "wallet-1"; draft_key_generation := 2; draft_checkpoint_generation := 7;
     draft_nonce := repeat Byte.x01 16; draft_created_at := 100; draft_expires_at := 200;
     draft_checkpoint := [Byte.x09; Byte.x08; Byte.x07] |}.

Definition tbs1 : bytes :=
  match prepare_experimental_hybrid_wallet_export draft1 with Ok t => t | Err _ => [] end.

(** A signer that signed one message. *)
Definition signed_once (message : bytes) : MlDsa65 := {|
  dsa_verifying_key := @dsa_verifying_key naming_dsa;
  dsa_try_sign := fun seed m => if bool_decide (m = message) then @dsa_try_sign naming_dsa seed m else None;
  dsa_signature_decodes := fun _ => true;
  dsa_verify := fun key m s => bool_decide (m = message) && @dsa_verify naming_dsa key m s;
|}.

Definition classical1 : bytes := Byte.x04 :: repeat Byte.x05 64.
Definition seed1 : bytes := repeat Byte.x06 32.

Definition key1 : HybridPublicKey :=
  {| pk_profile := Es256MlDsa65V1; pk_classical := classical1; pk_post_quantum := pad 1952 seed1 |}.

Definition finalize1 : FfiExperimentalHybridExportFinalizeRequest :=
  {| draft := draft1; classical_public_key := classical1; final_ml_dsa_65_public_key := pad 1952 seed1;
     classical_signature := pad 64 (firstn 8 classical1 ++ tbs1);
     ml_dsa_65_signature := pad 3309 (firstn 32 (pad 1952 seed1) ++ tbs1) |}.

Definition artifact1 : result bytes ExperimentalPqFfiError :=
  @finalize_experimental_hybrid_wallet_export _ _ (signed_once tbs1) finalize1.

Definition open1 (a : bytes) : FfiExperimentalHybridExportOpenRequest :=
  {| artifact := a; expected_wallet_identity := "wallet-1"; expected_key_generation := 2;
     expected_public_key_envelope := encode_public_key key1; open_now := 150 |}.

Definition material1 : result FfiExperimentalPqWrappedKeyMaterial ExperimentalPqFfiError :=
  @generate_experimental_pq_wrapped_key_material _ naming_dsa _ (Some seed1) (Some (repeat Byte.x06 64))
    (repeat Byte.x0c 12) (repeat Byte.x42 32).

Definition platform1 : P256AgreementKey :=
  {| private := repeat Byte.x05 32; public := Byte.x04 :: repeat Byte.x05 32 ++ repeat Byte.x00 32 |}.

Definition envelope1 : result FfiExperimentalHybridRecoveryEnvelope ExperimentalPqFfiError :=
  let? m := material1 in
  seal_experimental_hybrid_recovery (repeat Byte.x03 32) (repeat Byte.x04 32) (repeat Byte.x0b 12) "sender"
    "wallet-1" 2 (public_raw platform1) (ml_kem_768_public_key m) session (as_bytes "backup").
End Samples.

Lemma finalized_export_opens_witness :
  exists a, Samples.artifact1 = Ok a
  /\ @open_experimental_hybrid_wallet_export Boundary.Samples.fold_digest HybridExchange.Samples.naming_ecdsa
       (Samples.signed_once Samples.tbs1) (Samples.open1 a)
     = Ok {| checkpoint_number := 7; checkpoint_bytes := [Byte.x09; Byte.x08; Byte.x07] |}.
Proof.
  destruct Samples.artifact1 as [a|e] eqn:E; [|exfalso; revert E; vm_compute; discriminate].
  exists a. split; [reflexivity|].
  refine (@finalized_export_opens Boundary.Samples.fold_digest HybridExchange.Samples.naming_ecdsa
    (Samples.signed_once Samples.tbs1) Boundary.Samples.fold_digest_laws Samples.finalize1 Samples.key1 a 150
    _ _ E _).
  - split; reflexivity.
  - vm_compute; reflexivity.
  - cbn. lia.
Defined.

Lemma opened_export_was_drafted_witness :
  exists a cp, Samples.artifact1 = Ok a
  /\ @open_experimental_hybrid_wallet_export Boundary.Samples.fold_digest HybridExchange.Samples.naming_ecdsa
       (Samples.signed_once Samples.tbs1) (Samples.open1 a) = Ok cp
  /\ exists d, d = Samples.draft1 /\ draft_checkpoint_generation d = checkpoint_number cp.
Proof.
  destruct Samples.artifact1 as [a|e] eqn:E; [|exfalso; revert E; vm_compute; discriminate].
  assert (is_ok (let? a := Samples.artifact1 in
    @open_experimental_hybrid_wallet_export Boundary.Samples.fold_digest HybridExchange.Samples.naming_ecdsa
      (Samples.signed_once Samples.tbs1) (Samples.open1 a)) = true) as O by (vm_compute; reflexivity).
  rewrite E in O. destruct (@open_experimental_hybrid_wallet_export _ _ _ _) as [cp|] eqn:F; [|discriminate O].
  exists a, cp. split; [reflexivity|]. split; [exact F|].
  destruct (@opened_export_was_drafted Boundary.Samples.fold_digest HybridExchange.Samples.naming_ecdsa
    (Samples.signed_once Samples.tbs1) (fun d => d = Samples.draft1)
    (Samples.open1 a) cp Samples.key1) as (d & Hd & _ & _ & Hg & _).
  - reflexivity.
  - reflexivity.
  - vm_compute; reflexivity.
  - intros d ->. split; reflexivity.
  - right. intros m s H. exists Samples.draft1. split; [reflexivity|].
    unfold verify_ml_dsa_65 in H. ok_steps H. cbn [dsa_verify Samples.signed_once] in *.
    match goal with B : _ && _ = true |- _ => apply andb_true_iff in B as [B _]; apply bool_decide_eq_true in B as -> end.
    vm_compute; reflexivity.
  - exact F.
  - exists d. split; [exact Hd|exact Hg].
Defined.

Lemma recovery_opens_witness :
  exists m env z, Samples.material1 = Ok m /\ Samples.envelope1 = Ok env
  /\ @agree Sealing.Samples.adding Samples.platform1 (classical_ephemeral_public_key env) = Ok z
  /\ @open_experimental_hybrid_recovery Boundary.Samples.fold_digest Sealing.Samples.concat_kdf
       HybridExchange.Samples.halves_kem Sealing.Samples.tagging
       {| wrapping_key := repeat Byte.x42 32; open_custody_nonce := custody_nonce m;
          open_encrypted_private_key := encrypted_private_key m;
          recipient_classical_public_key := public_raw Samples.platform1;
          recipient_ml_kem_768_public_key := ml_kem_768_public_key m; open_classical_shared_secret := z;
          open_context := HybridExchange.Samples.session; envelope := env |} = Ok (as_bytes "backup").
Proof.
  destruct Samples.envelope1 as [env|e] eqn:E; [|exfalso; revert E; vm_compute; discriminate].
  pose proof E as E'. unfold Samples.envelope1 in E'.
  destruct Samples.material1 as [m|e] eqn:M; [|discriminate E'].
  exists m, env, (match @agree Sealing.Samples.adding Samples.platform1 (classical_ephemeral_public_key env) with
                  | Ok z => z | Err _ => [] end).
  split; [reflexivity|]. split; [reflexivity|]. split; [reflexivity|].
  refine (@recovery_opens Boundary.Samples.fold_digest Sealing.Samples.concat_kdf Sealing.Samples.adding
    HybridExchange.Samples.halves_kem Sealing.Samples.tagging HybridExchange.Samples.naming_dsa
    Boundary.Samples.fold_digest_laws Sealing.Samples.adding_laws HybridExchange.Samples.adding_secret
    HybridExchange.Samples.halves_kem_laws Sealing.Samples.tagging_laws Samples.seed1 (repeat Byte.x06 64)
    (repeat Byte.x0c 12) (repeat Byte.x42 32) m (repeat Byte.x05 32) Samples.platform1 (repeat Byte.x03 32)
    (repeat Byte.x04 32) (repeat Byte.x0b 12) "sender" "wallet-1" 2 HybridExchange.Samples.session (as_bytes "backup")
    env _ eq_refl eq_refl eq_refl eq_refl M _ E' eq_refl).
  vm_compute; reflexivity.
Defined.
